(* ===== verification/_CoqProject ===== *)
-Q . S2P
Prelude.v
Crc.v
Format.v
Names.v
Storage.v
JournalIo.v
MetaFile.v
Batch.v
Index.v
Segment.v
Recover.v
Log.v
Journal.v
Commit.v
CommitErrors.v
CommitLog.v
Protocol.v
Durability.v
NewSegment.v
History.v
Open.v
Cursor.v
Frame.v
Status.v
Wire.v
Credit.v
Flow.v
Connection.v
Producer.v
Line.v
Consumer.v
Registry.v
Monitor.v
Peers.v
Runtime.v
Calls.v
CallsInv.v
CallsSteps.v
CallsPeers.v
CallsStart.v
CallsEnds.v
CallsClose.v
CallsAddress.v
CallsSafe.v
Security.v
Jwt.v
JwtCache.v
Proto.v
Reference.v
ReferenceSafe.v
Balance.v
BalanceCall.v
BalanceSafe.v
Alternatives.v
Lagging.v
Scheduler.v
Network.v
NetWorld.v
NetStream.v
NetSteps.v
NetSafe.v
NetLive.v
NetDrain.v
NetQuiet.v
Sectors.v
Image.v
ImageInv.v
ImageCrash.v
Disk.v
Replication.v
ReplicationSafe.v
Sample.v
Scenarios.v
Witnesses.v
RpcWitnesses.v
DiskScenarios.v
NetScenarios.v
CallsScenarios.v
JwtScenarios.v
BalanceScenarios.v
