(* ===== verification/Prelude.v ===== *)
(** * Moonpool: a verification development

    Moonpool is a Rust toolkit for deterministic simulation testing of
    distributed systems, with the libraries such systems are built from.  This
    development models two of them: the write-ahead log, the crate
    [moonpool-journal], with the storage contract and the block files of
    [moonpool-core] it is written against; and the RPC runtime, the crate
    [moonpool-rpc], from its byte stream up to its streams of replies.  Of the
    simulator itself, the crate [moonpool-sim], it models the event scheduler,
    the simulated network's byte streams and the simulated disk's files.

    ** The program

    A journal is a directory of files: one metainfo file of two copies
    ([meta.rs]), and segment files ([segment.rs]), each two header copies, a
    persist log of 64-byte records and an entry log of entries, one entry per
    record.  A batch of puts and clears ([batch.rs]) is encoded
    ([format.rs]), written and synced by the commit protocol ([journal.rs]),
    and applied to an index in memory.  Opening scans the segments in two
    passes ([recover.rs]): it locates the batches, rebuilds records from intact
    entries, judges the last batch, and replays the operations into the index.
    All I/O goes through [BlockFile] ([moonpool-core/src/block.rs]) over the
    provider traits ([moonpool-core/src/storage]).

    An RPC session is a byte stream of checksummed frames ([protocol/frame.rs])
    that carry envelopes ([protocol/wire.rs]): a handshake that negotiates a
    version, requests, replies, pings and the frames of reply streams.  A
    connection ([transport/connection.rs]) queues what is to be written and
    decides what goes out next.  A reply stream has a producer
    ([stream/producer.rs]) that spends credit and a consumer
    ([stream/consumer.rs]) that earns it by taking items
    ([stream/credit.rs]).  Requests name endpoints by tokens of a registry
    ([endpoint/registry.rs]); a failure monitor ([failure/state.rs]) keeps what
    is believed of addresses and endpoints.  The runtime ([transport/mod.rs])
    keeps a table of pending calls, a peer per remote address
    ([transport/peer.rs]) and the open connections: it starts calls on the
    connection selected for their address, lets the writer submit their frames,
    completes them from replies, and when a connection ends fails its calls or
    sends the reliable ones again ([transport/calls.rs], [sessions.rs],
    [streams.rs], [shutdown.rs]).  Who may connect is an allow list of subnets
    and who may call an endpoint a decision on each request's credential
    ([security]), which a verifier of signed tokens checks under a set of keys
    that is replaced while it runs.  An endpoint is published as a reference,
    a protobuf message ([interface]); a balanced client ([balance]) calls the
    best of a set of references, fails over, hedges and compares within the
    permissions of the call.

    The simulator runs events in the order of its scheduler
    ([sim/events.rs]).  The simulated network ([network/sim]) moves the bytes
    of a stream from a send queue into a flight of timed items and on into the
    peer's receive buffer, charges the writer's window for them all the way,
    and lets partitions hold them, clogs delay their readers and writers, black
    holes swallow them and resets discard them.  A simulated file ([storage/image.rs]) is a durable and
    a visible image with sets of sectors that say how they may differ; syncs
    copy, crashes resolve every dirty sector at random, and an oracle of CRC
    stamps checks that no crash took what a sync had promised.  Where random
    damage may land among the replicas of a record is a plan drawn per seed
    ([storage/replication.rs]).

    ** Files

    - [Prelude] (this file): results and panics as values, machine-width
      integers, buffers with checked accesses, little-endian integers.
    - [Crc]: CRC-32C, a third-party crate, as a class with its laws, and the
      bitwise CRC-32C as its instance.
    - [Format]: format.rs, every struct, encoder, decoder and constant.
    - [Names]: the names of segment.rs and spare.rs.
    - [Storage]: the provider traits as a world of named files with visible and
      durable bytes, dirty and lost ranges, bad blocks, and a schedule of faults
      that theorems quantify over; block.rs on top.
    - [JournalIo], [MetaFile], [Batch], [Segment]: io.rs, meta.rs, batch.rs,
      segment.rs.
    - [Index]: the index of journal.rs and its live counts.
    - [Recover]: recover.rs.  [Log] says what it is for a segment's bytes to
      hold a log, and that recovery reads it back.
    - [Journal]: the journal's state, reads and replay.  [Commit]: the commit
      handler.  [Open]: create and open.
    - [CommitErrors], [CommitLog], [Protocol], [Durability], [NewSegment],
      [History]: the theorems on commits (below).
    - [Cursor], [Frame], [Status], [Wire]: protocol/cursor.rs, frame.rs with
      the reader loop of connection.rs, the statuses of wire.rs with error.rs,
      and the envelopes of wire.rs with metadata.rs.
    - [Credit]: stream/credit.rs.  [Flow]: both ends of it with the channels
      between them, as a step relation.
    - [Connection]: transport/connection.rs, every call on a session's queues.
    - [Producer]: stream/producer.rs.  [Line]: a producer with its callers, as
      a step relation.  [Consumer]: stream/consumer.rs with what its
      application observes.
    - [Registry]: endpoint/mod.rs and registry.rs.  [Monitor]: failure/state.rs.
    - [Peers]: transport/peer.rs, with the part of [f64] its backoff computes
      with.  [Runtime]: the runtime's shared state, its connections and their
      handshake (transport/mod.rs and sessions.rs).  [Calls]: calls.rs,
      streams.rs, shutdown.rs and the message handler, every critical section
      of the state lock a function, and a run of the runtime as a list of
      them.  [CallsInv]: the invariant that ties pending calls to the frames
      waiting and written, and the primitive changes that keep it.
      [CallsSteps], [CallsPeers], [CallsStart], [CallsEnds], [CallsClose],
      [CallsAddress]: every operation keeps it.  [CallsSafe]: the theorems.
      [CallsScenarios]: a concrete run.
    - [Security]: security/mod.rs and allow.rs.  [Jwt]: clock.rs, keys.rs and
      jwt.rs, with the crate jsonwebtoken as a class.  [JwtCache]: the theorems
      on the verifier.  [JwtScenarios]: concrete requests and tokens.
    - [Proto]: interface/proto.rs.  [Reference]: interface/reference.rs.
      [ReferenceSafe]: the theorems on them.
    - [Balance]: locality.rs, policy.rs, hooks.rs and model.rs of balance, with
      the theorem on reservations.  [Lagging]: the late losers of model.rs.
      [BalanceCall]: the call of client.rs, a state machine over its waits.
      [BalanceSafe]: the theorem on calls.  [Alternatives]: set.rs and the
      installed set of client.rs.  [BalanceScenarios]: concrete references and
      calls.
    - [Scheduler]: sim/events.rs.
    - [Network]: state.rs, delivery.rs, event.rs and the streams of engine.rs,
      faults.rs and stream.rs of network/sim.  [NetWorld]: the network with its
      agenda and what its applications wrote and read.  [NetStream],
      [NetSteps], [NetSafe]: the invariant of a connection's two directions and
      that every operation keeps it.  [NetLive], [NetDrain], [NetQuiet]: the
      invariant that ties queues, flights and partitions to pending events,
      and that the events run out.  [NetScenarios]: a concrete session.
    - [Sectors]: the sector sets of
      storage/image.rs and the sectors of storage/faults.rs.  [Image]: the
      rest of storage/image.rs.  [ImageInv], [ImageCrash], [Disk]: its
      invariant, its crashes, its histories and the contract it implements.
    - [Replication]: storage/replication.rs, locality.rs and the rolling turns
      of storage/sim/state.rs.  [ReplicationSafe]: the theorems on them.
    - [DiskScenarios]: concrete runs of the simulated disk and of fault
      patterns.
    - [Sample], [Scenarios], [Witnesses], [RpcWitnesses]: a concrete journal,
      whole executions, and an instance of every theorem that has hypotheses.

    Rust names are kept; a method [T::f] is [T_f] where [f] alone would clash.
    Rust's [Result] is [res], with [Panic] for a failed assertion, [expect] or
    slice bound; pure code that can only panic returns [option].  Effects are
    state passing: [IO] threads the [World], [JM] the journal as well.  Integers
    are [Z] with [u8] .. [u128] as ranges; arithmetic the source does not check
    wraps ([wrap64]), as in a build without overflow checks (the release
    profile); [Recover] lists where its scan would panic in a checked one.

    ** What is proved

    - Formats: encode/decode round trips, decoders total on any bytes, the
      regions of a geometry, the exactness of [fits], names ([Format], [Batch],
      [Names]).
    - I/O: whole-block transfers terminate and are whole or an error; bad blocks
      cost only themselves; synced writes survive a power loss; a failed sync
      keeps the cache or drops it ([Storage], [JournalIo]).
    - Metainfo: updates are atomic across a power loss ([MetaFile]).
    - Index: it refines a map, its assertions hold ([Index]).
    - Commits: a failing commit changed nothing or poisoned the journal
      ([CommitErrors]); a batch that fits is laid out ([CommitLog]); an
      acknowledged batch is durable, a failed one costs no earlier batch, the
      metainfo vouches for the batch, retried syncs rewrite ([Protocol],
      [Durability]); what [Journal_commit] acknowledged without a roll, the
      journal it leaves reads back ([Durability]); any history of commits to a segment is recovered
      ([History]); a created segment is ready to write to ([NewSegment]).
    - Recovery: total on any bytes and faults in a build without overflow
      checks ([Recover]); reads back the log ([Log]).
    - Reads: never wrong bytes; a replay is its reads ([Journal]).
    - Sessions: however its bytes are chunked, the reader loop is the abstract
      session of the byte string; frames and envelopes round trip, the decoder
      is strict and canonical, its memory is bounded, a downgraded rejection
      still tells the truth about execution ([Frame], [Wire]).
    - Connections: the accounting is exact in every reachable state, the writer
      never stalls or skips, the rotation is fair ([Connection]).
    - Streams: the credit protocol is sound under any interleaving and loses no
      credit ([Flow]); no wakeup of a sender is lost, senders are served in
      order, nothing follows the end ([Line]); a consumer sees the accepted
      items in order and one end, and acknowledges what was taken ([Consumer]).
    - Endpoints: the registry refines a map whose tokens are issued once
      ([Registry]).
    - Failure monitor: its bounded memory is invisible to what it believes of
      addresses; permanent failures are a bounded queue; a watched address's
      disconnects are seen, an unwatched one's can be missed, and the counters
      of its disconnects start again ([Monitor]).
    - Calls: in any run of the runtime, whatever its callers, peers and driver
      do and in whatever order, every call is settled exactly once; a caller
      told that its request never left was told the truth for good; an
      at-most-once call leaves at most once; no call waits on a connection
      nobody drives; a teardown leaves no call behind and a shutdown settles
      all ([CallsSafe]).
    - Security: a subnet is its leading bits, for the addresses of its family;
      a request is admitted only as a caller the configuration recognises
      ([Security]); the cache of verified
      tokens changes no answer under any interleaving with other calls and key
      replacements, a key left out is revoked at once, and a private endpoint
      behind the verifier is called only by an authenticated peer the
      configuration admits or with a valid token ([JwtCache]).
    - References: what decodes re-encodes to itself, malformed or not, unknown
      fields are skipped, the decoder is total; a published reference reaches
      its endpoint, less the scope of an IPv6 address, or is refused by every
      client when the endpoint has no specific address; clients of other
      methods refuse it ([ReferenceSafe]).
    - Balancing: reservations are exact ([Balance]); late losers are accounted
      for and bounded ([Lagging]); a call does no more than its policy permits,
      so that without permissions at most one attempt has an effect
      ([BalanceSafe]); a set is installed only over an older one
      ([Alternatives]).
    - Scheduler: it refines a sorted agenda; time never goes back and the heap
      of tombstones stays bounded ([Scheduler]).
    - Simulated network: no run over- or under-runs a send window, and a window
      charges exactly the bytes on their way; what is read is a prefix of what
      was written, and a direction nothing was allowed to cut loses nothing; a
      parked task waits for something that will wake it ([NetSafe]).  Once the
      random partitions and clogs stop, whatever order events are picked in,
      they run out, and then every byte and every end of stream has arrived
      ([NetQuiet]).  These are of runs in which no bit is flipped.  A write never reports a reset
      ([NetSafe]).
    - Simulated disk: in the histories [Disk.permitted] admits nothing panics
      and the durability oracle is sound, a crash keeps what was synced; a sync
      is a barrier; under whole-sector writes and honest syncs the disk, with
      failed writebacks of both kinds, refines the storage contract the
      journal's theorems assume ([Disk]); two histories outside [permitted] in
      which the oracle misfires ([DiskScenarios]).
    - Replicated faults: a lookup in a published layout is exact
      ([Replication]); whatever is drawn and in whatever order faults, repairs
      and publications come, a record is damaged in no more domains than
      tolerated and stays whole in one; a damaged sector described anew counts
      once it was rewritten ([ReplicationSafe]).

    ** Bounds and fuel

    Loops that are not structural take fuel: [read_from] and [transfer_from] the
    bytes left (each step moves at least one), [scan_loop] the slots of the
    persist log, [replay_from] the entries of the range, [remove_dead_from] the
    segments, [pull_frames] and [scan_frames] the bytes buffered, [poll_turns]
    the sources of the rotation, [bsearch_loop] the length of the list,
    [deliver_loop] the items in flight, [skip_group] and [decode_fields] the
    bytes left, [varint_bytes] the ten groups of a [u64].  [drain_run] has no bound of its own:
    its theorem gives a fuel for every scheduler.  The
    theorems show the fuel is enough: no run of theirs ends for want of it.

    ** Not modelled

    The storage backends (system calls), the crash hints (no-ops outside a
    simulation), [Debug] and most of [Display]; the addresses of buffers.  Of
    the RPC crate: sockets, tasks and timers, typed handles and codecs, TLS,
    the parsing of addresses, admission of requests at a server; a balanced
    call takes what the monitor, the selector and the budget answer as inputs.
    A credential source
    is an argument of the step that asks it; the writer's submission of a frame
    to the socket is where a copy counts as written.  Of the simulator: the
    executor, the network's listeners, backlogs, addresses and configuration,
    the arrival times of its random faults (a fault is an operation that may
    come at any time), the storage engine around the images (latencies,
    names, fault rolls) and the runner; random draws are arguments, with
    rationals for [f64].  The [debug_assert!] of [handle_delivery] is not a
    panic of the model.  Of the repository: the explorer,
    assertions, and the adapters to third-party libraries.  The theorems on commits are about
    the commit protocol on the active segment; rolls onto a spare, the removal
    of dead segments and the whole of [Journal_open] are modelled and executed,
    and the theorems on them cover [Segment_create] and the scan. *)

From Stdlib Require Export ZArith Lia.
From Stdlib.Strings Require Export Byte.
From stdpp Require Export base gmap strings option.
From stdpp Require Export list.

#[global] Open Scope Z_scope.

(** ** Results

    Rust code that can fail returns a [res]: a value, an error, or a panic
    (a failed [assert!], [expect] or slice bound).  Panics are values of the
    model so that their absence is a theorem.  Pure code that can only panic
    returns an [option], [None] being the panic. *)

Inductive res (E A : Type) : Type :=
  | Ok (a : A)
  | Err (e : E)
  | Panic.
Arguments Ok {E A} a.
Arguments Err {E A} e.
Arguments Panic {E A}.

#[global] Instance res_eq_dec {E A} `{EqDecision E, EqDecision A} :
  EqDecision (res E A).
Proof. solve_decision. Defined.

Definition res_bind {E A B} (m : res E A) (k : A → res E B) : res E B :=
  match m with Ok a => k a | Err e => Err e | Panic => Panic end.

Definition map_err {E F A} (f : E → F) (m : res E A) : res F A :=
  match m with Ok a => Ok a | Err e => Err (f e) | Panic => Panic end.

(** [expect] of an [option] whose [None] is a panic. *)
Definition expect {E A} (o : option A) : res E A :=
  match o with Some a => Ok a | None => Panic end.

Declare Scope rust_scope.
Delimit Scope rust_scope with rust.
Notation "'let?' x ':=' m 'in' k" := (res_bind m (fun x => k))
  (at level 10, x binder, m at level 100, k at level 200) : rust_scope.
Notation "'let*' x ':=' m 'in' k" := (@mbind option _ _ _ (fun x => k) m)
  (at level 10, x binder, m at level 100, k at level 200) : rust_scope.
#[global] Open Scope rust_scope.

(** ** Machine integers

    A Rust [uN] is a [Z] in [0, 2^N).  [u64] additions that the types of the
    operands do not already bound are written with [wrap64]. *)

Definition in_u (bits : Z) (z : Z) : Prop := 0 ≤ z < 2 ^ bits.
Abbreviation u8 := (in_u 8).
Abbreviation u16 := (in_u 16).
Abbreviation u32 := (in_u 32).
Abbreviation u64 := (in_u 64).
Abbreviation u128 := (in_u 128).

Definition u64_max : Z := 2 ^ 64 - 1.
Definition wrap64 (z : Z) : Z := z mod 2 ^ 64.

(** [checked_add] on [u64]. *)
Definition checked_add64 (a b : Z) : option Z :=
  if a + b <=? u64_max then Some (a + b) else None.

Lemma checked_add64_Some a b c :
  checked_add64 a b = Some c ↔ c = a + b ∧ a + b < 2 ^ 64.
Proof.
  unfold checked_add64, u64_max. destruct (Z.leb_spec (a + b) (2 ^ 64 - 1)); split.
  - intros [= <-]. lia.
  - intros [-> _]. done.
  - done.
  - lia.
Qed.

Lemma wrap64_small z : u64 z → wrap64 z = z.
Proof. intros [? ?]. apply Z.mod_small. lia. Qed.

(** ** Bytes *)

Definition byte_to_Z (b : byte) : Z := Z.of_N (Byte.to_N b).
Definition Z_to_byte (z : Z) : byte :=
  match Byte.of_N (Z.to_N (z mod 256)) with Some b => b | None => x00 end.

#[global] Instance byte_eq_dec : EqDecision byte := Byte.byte_eq_dec.

Lemma byte_to_Z_range b : 0 ≤ byte_to_Z b < 256.
Proof. unfold byte_to_Z. pose proof (Byte.to_N_bounded b). lia. Qed.

Lemma byte_to_Z_to_byte z : byte_to_Z (Z_to_byte z) = z mod 256.
Proof.
  unfold Z_to_byte, byte_to_Z.
  pose proof (Z.mod_pos_bound z 256 ltac:(lia)).
  destruct (Byte.of_N (Z.to_N (z mod 256))) as [b|] eqn:E.
  - apply Byte.to_of_N in E. rewrite E. lia.
  - apply Byte.of_N_None_iff in E. lia.
Qed.

Lemma byte_to_Z_inj a b : byte_to_Z a = byte_to_Z b → a = b.
Proof.
  unfold byte_to_Z. intros H%N2Z.inj.
  pose proof (Byte.of_to_N a) as Ha. pose proof (Byte.of_to_N b) as Hb. congruence.
Qed.

Lemma Z_to_byte_to_Z b : Z_to_byte (byte_to_Z b) = b.
Proof.
  apply byte_to_Z_inj. rewrite byte_to_Z_to_byte.
  apply Z.mod_small, byte_to_Z_range.
Qed.

#[global] Instance byte_countable : Countable byte.
Proof. exact (inj_countable byte_to_Z (λ z, Some (Z_to_byte z)) (λ b, f_equal Some (byte_to_Z_inj _ _
  (eq_trans (byte_to_Z_to_byte _) (Z.mod_small _ _ (byte_to_Z_range b)))))). Defined.

(** ** Buffers indexed by [Z]

    Rust lengths and offsets are unbounded-looking integers in the thousands;
    keeping them in [Z] keeps arithmetic goals in [lia]'s language. *)

Section Buffers.
Context {A : Type}.
Implicit Types l k : list A.

Definition len l : Z := Z.of_nat (length l).
Definition slice l (a b : Z) : list A := take (Z.to_nat (b - a)) (drop (Z.to_nat a) l).
Definition splice l (a : Z) k : list A :=
  take (Z.to_nat a) l ++ k ++ drop (Z.to_nat a + length k) l.
Definition repeatZ (n : Z) (x : A) : list A := replicate (Z.to_nat n) x.

Lemma len_nonneg l : 0 ≤ len l.
Proof. unfold len; lia. Qed.
Lemma len_nil : len (@nil A) = 0.
Proof. done. Qed.
Lemma len_cons x l : len (x :: l) = 1 + len l.
Proof. unfold len; simpl; lia. Qed.
Lemma len_app l k : len (l ++ k) = len l + len k.
Proof. unfold len. rewrite length_app. lia. Qed.
Lemma len_repeatZ n x : 0 ≤ n → len (repeatZ n x) = n.
Proof. intros. unfold len, repeatZ. rewrite length_replicate. lia. Qed.
Lemma len_slice l a b : 0 ≤ a ≤ b → b ≤ len l → len (slice l a b) = b - a.
Proof. unfold len, slice. intros. rewrite length_take, length_drop. lia. Qed.
Lemma len_splice l a k : 0 ≤ a → a + len k ≤ len l → len (splice l a k) = len l.
Proof.
  unfold len, splice. intros. rewrite !length_app, length_take, length_drop. lia.
Qed.

Lemma lookup_slice l a b i :
  0 ≤ a → slice l a b !! i =
    if decide (Z.of_nat i < b - a) then l !! (Z.to_nat a + i)%nat else None.
Proof.
  intros. unfold slice. case_decide.
  - rewrite lookup_take_lt by lia. by rewrite lookup_drop.
  - apply lookup_take_ge. lia.
Qed.

Lemma lookup_splice l a k i :
  0 ≤ a → a + len k ≤ len l → splice l a k !! i =
    if decide (a ≤ Z.of_nat i < a + len k) then k !! (i - Z.to_nat a)%nat else l !! i.
Proof.
  unfold len, splice. intros. case_decide.
  - rewrite lookup_app_r; rewrite length_take; [|lia].
    rewrite Nat.min_l by lia. rewrite lookup_app_l by lia. done.
  - destruct (decide (Z.of_nat i < a)).
    + rewrite lookup_app_l by (rewrite length_take; lia). apply lookup_take_lt. lia.
    + rewrite lookup_app_r; rewrite length_take; [|lia].
      rewrite Nat.min_l by lia. rewrite lookup_app_r by lia.
      rewrite lookup_drop. f_equal. lia.
Qed.

(** The read-over-write laws: a slice inside a write is the written bytes,
    a slice disjoint from it is what was there before. *)
Lemma slice_splice_same l a k :
  0 ≤ a → a + len k ≤ len l → slice (splice l a k) a (a + len k) = k.
Proof.
  intros. apply list_eq. intros i. rewrite lookup_slice by lia.
  case_decide.
  - rewrite lookup_splice by done. rewrite decide_True by lia. f_equal. lia.
  - symmetry. apply lookup_ge_None. unfold len in *. lia.
Qed.

Lemma slice_splice_inside l a k x y :
  0 ≤ a → a + len k ≤ len l → a ≤ x → y ≤ a + len k →
  slice (splice l a k) x y = slice k (x - a) (y - a).
Proof.
  intros. apply list_eq. intros i. rewrite !lookup_slice by lia.
  case_decide; case_decide; try lia; [|done].
  rewrite lookup_splice by done. rewrite decide_True by lia. f_equal. lia.
Qed.

Lemma slice_splice_disjoint l a k x y :
  0 ≤ a → a + len k ≤ len l → 0 ≤ x → y ≤ a ∨ a + len k ≤ x →
  slice (splice l a k) x y = slice l x y.
Proof.
  intros. apply list_eq. intros i. rewrite !lookup_slice by lia.
  case_decide; [|done]. rewrite lookup_splice by done.
  rewrite decide_False by lia. done.
Qed.

Lemma slice_all l b : len l ≤ b → slice l 0 b = l.
Proof.
  intros. apply list_eq. intros i. rewrite lookup_slice by lia.
  case_decide; [done|]. symmetry. apply lookup_ge_None. unfold len in *; lia.
Qed.

Lemma slice_slice l a b x y :
  0 ≤ a → 0 ≤ x → y ≤ b - a → slice (slice l a b) x y = slice l (a + x) (a + y).
Proof.
  intros. apply list_eq. intros i. rewrite !lookup_slice by lia.
  case_decide; case_decide; try lia; [|done]. rewrite decide_True by lia. f_equal; lia.
Qed.

Lemma slice_app_l l k a b : 0 ≤ a → b ≤ len l → slice (l ++ k) a b = slice l a b.
Proof.
  intros. apply list_eq. intros i. rewrite !lookup_slice by lia.
  case_decide; [|done]. apply lookup_app_l. unfold len in *. lia.
Qed.

Lemma slice_app_r l k a b :
  len l ≤ a → slice (l ++ k) a b = slice k (a - len l) (b - len l).
Proof.
  pose proof (len_nonneg l).
  intros. apply list_eq. intros i. rewrite !lookup_slice by lia.
  replace (b - len l - (a - len l)) with (b - a) by lia.
  case_decide; [|done]. rewrite lookup_app_r; unfold len in *; [f_equal|]; lia.
Qed.

Lemma slice_split l a b c :
  0 ≤ a ≤ b → b ≤ c → slice l a c = slice l a b ++ slice l b c.
Proof.
  intros. unfold slice.
  replace (Z.to_nat b) with (Z.to_nat a + Z.to_nat (b - a))%nat by lia.
  rewrite <- drop_drop. set (m := drop (Z.to_nat a) l).
  replace (Z.to_nat (c - a)) with (Z.to_nat (b - a) + Z.to_nat (c - b))%nat by lia.
  symmetry. apply take_take_drop.
Qed.

Lemma slice_repeatZ n x a b :
  0 ≤ a ≤ b → b ≤ n → slice (repeatZ n x) a b = repeatZ (b - a) x.
Proof.
  intros. unfold slice, repeatZ. rewrite drop_replicate, take_replicate. f_equal. lia.
Qed.

Lemma list_eq_split l k p :
  0 ≤ p → len l = len k → slice l 0 p = slice k 0 p →
  slice l p (len l) = slice k p (len k) → l = k.
Proof.
  intros Hp Hl H1 H2.
  destruct (decide (p ≤ len l)).
  - rewrite <- (slice_all l (len l)), <- (slice_all k (len k)) by lia.
    rewrite (slice_split l 0 p (len l)), (slice_split k 0 p (len k)) by lia.
    by rewrite H1, H2.
  - by rewrite <- (slice_all l p), <- (slice_all k p) by lia.
Qed.

Lemma splice_slice l a b : 0 ≤ a ≤ b → b ≤ len l → splice l a (slice l a b) = l.
Proof.
  intros. apply list_eq. intros i. rewrite lookup_splice by (rewrite ?len_slice; lia).
  rewrite len_slice by lia. case_decide; [|done].
  rewrite lookup_slice by lia. rewrite decide_True by lia. f_equal. lia.
Qed.

Lemma splice_whole l k : len k = len l → splice l 0 k = k.
Proof.
  intros. unfold splice. simpl. rewrite drop_ge by (unfold len in *; lia). apply app_nil_r.
Qed.
End Buffers.

#[global] Instance: Params (@len) 1 := {}.
Abbreviation zeros n := (repeatZ n x00).

(** ** Little-endian integers: [to_le_bytes] and [from_le_bytes] *)

Fixpoint to_le_bytes (n : nat) (z : Z) : list byte :=
  match n with
  | O => []
  | S n => Z_to_byte z :: to_le_bytes n (z / 256)
  end.

Fixpoint from_le_bytes (l : list byte) : Z :=
  match l with
  | [] => 0
  | b :: l => byte_to_Z b + 256 * from_le_bytes l
  end.

Lemma len_to_le_bytes n z : len (to_le_bytes n z) = Z.of_nat n.
Proof. revert z. induction n; intros; simpl; [done|]. rewrite len_cons, IHn. lia. Qed.

Lemma from_to_le_bytes n z :
  from_le_bytes (to_le_bytes n z) = z mod 256 ^ Z.of_nat n.
Proof.
  revert z. induction n as [|n IH]; intros z; [by rewrite Z.mod_1_r|].
  cbn [to_le_bytes from_le_bytes]. rewrite byte_to_Z_to_byte, IH.
  rewrite Nat2Z.inj_succ, Z.pow_succ_r by lia.
  symmetry. rewrite Z.rem_mul_r by (try lia; apply Z.pow_nonzero; lia). lia.
Qed.

Lemma from_to_le_bytes_small n z :
  0 ≤ z < 256 ^ Z.of_nat n → from_le_bytes (to_le_bytes n z) = z.
Proof. intros. rewrite from_to_le_bytes. by apply Z.mod_small. Qed.

Lemma from_le_bytes_range l : 0 ≤ from_le_bytes l < 256 ^ len l.
Proof.
  induction l as [|b l IH]; [done|]. cbn [from_le_bytes].
  rewrite len_cons, Z.pow_add_r by (try lia; apply len_nonneg).
  pose proof (byte_to_Z_range b). change (256 ^ 1) with 256. lia.
Qed.

Lemma to_from_le_bytes l : to_le_bytes (length l) (from_le_bytes l) = l.
Proof.
  induction l as [|b l IH]; [done|]. cbn [length to_le_bytes from_le_bytes].
  pose proof (byte_to_Z_range b).
  f_equal.
  - apply byte_to_Z_inj. rewrite byte_to_Z_to_byte.
    rewrite Z.mul_comm, Z.mod_add by lia. apply Z.mod_small. lia.
  - rewrite Z.mul_comm, Z.div_add by lia. rewrite Z.div_small by lia. by rewrite Z.add_0_l.
Qed.

(** ** Alignment: [align_up] and its laws *)

(** [u64::div_ceil] *)
Definition div_ceil (a b : Z) : Z := (a + b - 1) / b.

(** format.rs, [align_up]: [value.div_ceil(to) * to] *)
Definition align_up (value to : Z) : Z := div_ceil value to * to.

Lemma align_up_ge v t : 0 < t → v ≤ align_up v t.
Proof. intros. unfold align_up, div_ceil. pose proof (Z.div_mod (v+t-1) t). pose proof (Z.mod_pos_bound (v+t-1) t). nia. Qed.

Lemma align_up_lt v t : 0 < t → align_up v t < v + t.
Proof. intros. unfold align_up, div_ceil. pose proof (Z.div_mod (v+t-1) t). pose proof (Z.mod_pos_bound (v+t-1) t). nia. Qed.

Lemma align_up_mod v t : 0 < t → align_up v t mod t = 0.
Proof. intros. unfold align_up. apply Z.mod_mul. lia. Qed.

Lemma align_up_id v t : 0 < t → v mod t = 0 → align_up v t = v.
Proof.
  intros Ht Hv. apply Z.div_exact in Hv; [|lia]. unfold align_up, div_ceil.
  set (q := v / t) in *. rewrite Hv.
  replace (t * q + t - 1) with (t - 1 + q * t) by lia.
  rewrite Z.div_add, Z.div_small by lia. lia.
Qed.

Lemma align_up_mono v w t : 0 < t → v ≤ w → align_up v t ≤ align_up w t.
Proof.
  intros. unfold align_up, div_ceil. apply Z.mul_le_mono_nonneg_r; [lia|].
  apply Z.div_le_mono; lia.
Qed.

Lemma align_up_add a b t : 0 < t → a mod t = 0 → align_up (a + b) t = a + align_up b t.
Proof.
  intros Ht Ha. apply Z.div_exact in Ha; [|lia]. unfold align_up, div_ceil.
  set (q := a / t) in *. rewrite Ha.
  replace (t * q + b + t - 1) with (b + t - 1 + q * t) by lia.
  rewrite Z.div_add by lia. lia.
Qed.

(** ** Checked buffer accesses

    [get n buf p] is [uN::from_le_bytes(buf[p..p + n])], [put n buf p v] is
    [buf[p..p + n].copy_from_slice(&v.to_le_bytes())]; both panic ([None])
    out of range, as does a slice or a fill. *)

Definition in_range {A} (buf : list A) (a b : Z) : bool :=
  (0 <=? a) && (a <=? b) && (b <=? len buf).

Definition slice_checked {A} (buf : list A) (a b : Z) : option (list A) :=
  if in_range buf a b then Some (slice buf a b) else None.

Definition copy_from_slice {A} (buf : list A) (a : Z) (k : list A) : option (list A) :=
  if in_range buf a (a + len k) then Some (splice buf a k) else None.

Definition fill (buf : list byte) (a b : Z) (x : byte) : option (list byte) :=
  if in_range buf a b then Some (splice buf a (repeatZ (b - a) x)) else None.

Definition get (n : nat) (buf : list byte) (p : Z) : option Z :=
  if in_range buf p (p + Z.of_nat n)
  then Some (from_le_bytes (slice buf p (p + Z.of_nat n))) else None.

Definition put (n : nat) (buf : list byte) (p v : Z) : option (list byte) :=
  copy_from_slice buf p (to_le_bytes n v).

(** What a write did: [b'] is [b] with [k] at [p]. *)
Definition written (b b' : list byte) (p : Z) (k : list byte) : Prop :=
  len b' = len b ∧ slice b' p (p + len k) = k ∧
  ∀ x y, 0 ≤ x → y ≤ p ∨ p + len k ≤ x → slice b' x y = slice b x y.

Lemma in_range_true {A} (buf : list A) a b :
  0 ≤ a → a ≤ b → b ≤ len buf → in_range buf a b = true.
Proof. intros. unfold in_range. rewrite !(proj2 (Z.leb_le _ _)) by lia. done. Qed.

Lemma slice_checked_ok {A} (buf : list A) a b :
  0 ≤ a → a ≤ b → b ≤ len buf → slice_checked buf a b = Some (slice buf a b).
Proof. intros. unfold slice_checked. by rewrite in_range_true. Qed.

Lemma copy_from_slice_ok {A} (buf : list A) a k :
  0 ≤ a → a + len k ≤ len buf → copy_from_slice buf a k = Some (splice buf a k).
Proof.
  intros. unfold copy_from_slice. by rewrite in_range_true by (pose proof (len_nonneg k); lia).
Qed.

Lemma copy_from_slice_written (buf : list byte) a k :
  0 ≤ a → a + len k ≤ len buf →
  ∃ b', copy_from_slice buf a k = Some b' ∧ written buf b' a k.
Proof.
  intros. exists (splice buf a k). unfold copy_from_slice.
  rewrite in_range_true by (pose proof (len_nonneg k); lia).
  split; [done|]. split_and!.
  - by apply len_splice.
  - by apply slice_splice_same.
  - intros. by apply slice_splice_disjoint.
Qed.

Lemma put_written n buf p v :
  0 ≤ p → p + Z.of_nat n ≤ len buf →
  ∃ b', put n buf p v = Some b' ∧ written buf b' p (to_le_bytes n v).
Proof. intros. apply copy_from_slice_written; rewrite ?len_to_le_bytes; done. Qed.

Lemma fill_written buf a b x :
  0 ≤ a → a ≤ b → b ≤ len buf →
  ∃ b', fill buf a b x = Some b' ∧ written buf b' a (repeatZ (b - a) x).
Proof.
  intros. destruct (copy_from_slice_written buf a (repeatZ (b - a) x)) as (b' & E & W).
  - done.
  - rewrite len_repeatZ; lia.
  - exists b'. split; [|done]. revert E. unfold fill, copy_from_slice.
    rewrite len_repeatZ by lia. by replace (a + (b - a)) with b by lia.
Qed.

Lemma get_slice n buf p :
  0 ≤ p → p + Z.of_nat n ≤ len buf →
  get n buf p = Some (from_le_bytes (slice buf p (p + Z.of_nat n))).
Proof. intros. unfold get. by rewrite in_range_true by lia. Qed.

Lemma get_range n buf p v : get n buf p = Some v → 0 ≤ v < 256 ^ Z.of_nat n.
Proof.
  unfold get, in_range.
  destruct (0 <=? p) eqn:H1, (p <=? p + Z.of_nat n) eqn:H2,
    (p + Z.of_nat n <=? len buf) eqn:H3; try done.
  simpl. intros [= <-].
  pose proof (from_le_bytes_range (slice buf p (p + Z.of_nat n))) as R.
  rewrite len_slice in R by lia. by replace (p + Z.of_nat n - p) with (Z.of_nat n) in R by lia.
Qed.

Lemma slice_checked_Some {A} (b k : list A) x y :
  slice_checked b x y = Some k → k = slice b x y ∧ 0 ≤ x ≤ y ∧ y ≤ len b ∧ len k = y - x.
Proof.
  unfold slice_checked, in_range. intros H.
  destruct (Z.leb_spec 0 x), (Z.leb_spec x y), (Z.leb_spec y (len b)); try done.
  injection H as <-. split_and!; try lia; [done|]. apply len_slice; lia.
Qed.

Lemma get_written n b p v :
  0 ≤ p → p + Z.of_nat n ≤ len b → slice b p (p + Z.of_nat n) = to_le_bytes n v →
  0 ≤ v < 256 ^ Z.of_nat n → get n b p = Some v.
Proof. intros. rewrite get_slice by done. f_equal. rewrite H1. by apply from_to_le_bytes_small. Qed.

(** Reading through a prefix of a buffer is reading the buffer. *)
Lemma get_prefix n b m p :
  0 ≤ p → p + Z.of_nat n ≤ m → m ≤ len b → get n (slice b 0 m) p = get n b p.
Proof.
  intros. rewrite !get_slice by solve [lia | rewrite len_slice; lia].
  by rewrite slice_slice by lia.
Qed.

Lemma slice_checked_prefix {A} (b : list A) m x y :
  0 ≤ x → x ≤ y → y ≤ m → m ≤ len b →
  slice_checked (slice b 0 m) x y = Some (slice b x y).
Proof.
  intros. rewrite slice_checked_ok by solve [lia | rewrite len_slice; lia].
  by rewrite slice_slice by lia.
Qed.

(** A buffer with a non-zero byte is not all zeros. *)
Lemma forallb_zero_false (l : list byte) p b :
  0 ≤ p → slice l p (p + 1) = [b] → byte_to_Z b ≠ 0 →
  forallb (fun b => byte_to_Z b =? 0) l = false.
Proof.
  intros Hp Hs Hb. apply not_true_iff_false. rewrite forallb_forall. intros H.
  assert (l !! Z.to_nat p = Some b) as Hl.
  { assert (slice l p (p + 1) !! 0%nat = Some b) as E by by rewrite Hs.
    rewrite lookup_slice in E by done. case_decide; [|done].
    by rewrite Nat.add_0_r in E. }
  apply list_elem_of_lookup_2, list_elem_of_In, H in Hl. lia.
Qed.

(** ** Automation *)

Create Rewrite HintDb len.
#[export] Hint Rewrite @len_nil @len_cons @len_app len_to_le_bytes : len.

(** [solve_len]: goals about lengths of buffers built by writes. *)
Ltac solve_len :=
  repeat first
    [ rewrite len_splice by solve_len
    | rewrite len_slice by solve_len
    | rewrite len_repeatZ by solve_len
    | progress autorewrite with len ];
  lia.

(** [write_step]: run the next [put]/[fill]/[copy_from_slice] of an encoder
    and keep what it wrote as a [written] fact. *)
Ltac write_step_with L :=
  let b := fresh "b" in let E := fresh "E" in let W := fresh "W" in
  destruct L as (b & E & W);
  [ try solve_len .. | rewrite E; cbn [mbind option_bind]; clear E;
    let Wl := fresh "Wl" in let Ws := fresh "Ws" in let Wf := fresh "Wf" in
    destruct W as (Wl & Ws & Wf);
    rewrite ?len_to_le_bytes in Ws, Wf; rewrite ?len_repeatZ in Ws, Wf by lia;
    cbn [Z.of_nat Pos.of_succ_nat Pos.succ] in Ws, Wf ].

Ltac write_step :=
  match goal with
  | |- context [put ?n ?b ?p ?v] => write_step_with (put_written n b p v)
  | |- context [fill ?b ?x ?y ?v] => write_step_with (fill_written b x y v)
  | |- context [copy_from_slice ?b ?p ?k] => write_step_with (copy_from_slice_written b p k)
  end.

(** [chase]: follow a slice of the last buffer back through the writes that
    did not touch it. *)
Ltac chase :=
  repeat match goal with
  | F : ∀ x y, 0 ≤ x → _ → slice ?b' x y = slice _ x y |- context [slice ?b' ?x ?y] =>
      rewrite (F x y) by lia
  end.

(** [read_step]: evaluate the next [get]/[slice_checked] of a decoder from
    the [written] facts of the encoder that ran before it. *)
Ltac read_step :=
  match goal with
  | |- context [get ?n ?b ?p] =>
      erewrite (get_written n b p);
      [ cbn [mbind option_bind]
      | lia
      | cbn [Z.of_nat Pos.of_succ_nat Pos.succ]; lia
      | cbn [Z.of_nat Pos.of_succ_nat Pos.succ]; chase; eassumption
      | first [ done | unfold in_u in *; cbn [Z.of_nat Pos.of_succ_nat Pos.succ]; lia ] ]
  | |- context [slice_checked ?b ?x ?y] =>
      rewrite (slice_checked_ok b x y) by lia; cbn [mbind option_bind]
  end.

(** [decode_inv H]: invert a decoder's successful run, keeping the ranges of
    the integers it read. *)
Ltac decode_inv H :=
  repeat lazymatch type of H with
  | @mbind option _ _ _ _ (get ?n ?b ?p) = _ =>
      let E := fresh "E" in let R := fresh "R" in
      destruct (get n b p) eqn:E; cbn [mbind option_bind] in H; [|discriminate H];
      pose proof (get_range _ _ _ _ E) as R;
      cbn [Z.of_nat Pos.of_succ_nat Pos.succ] in R
  | @mbind option _ _ _ _ (slice_checked ?b ?x ?y) = _ =>
      let E := fresh "E" in
      destruct (slice_checked b x y) eqn:E; cbn [mbind option_bind] in H; [|discriminate H];
      apply slice_checked_Some in E
  | (if ?c then _ else _) = _ =>
      let E := fresh "C" in destruct c eqn:E; try discriminate H
  | (match ?c with _ => _ end) = _ =>
      let E := fresh "C" in destruct c eqn:E; try discriminate H
  end.

(** [decode_total]: a decoder does not panic on a long enough buffer. *)
Ltac decode_total :=
  repeat match goal with
  | |- context [get ?n ?b ?p] => rewrite (get_slice n b p) by (cbn; solve_len)
  | |- context [slice_checked ?b ?x ?y] => rewrite (slice_checked_ok b x y) by solve_len
  end; cbn [mbind option_bind];
  repeat case_match; try by eexists.
