(* ===== verification/Crc.v ===== *)
(** * CRC32C: the checksum the journal's formats carry

    The journal calls the [crc32c] crate ([crc32c::crc32c] and
    [crc32c::crc32c_append]), which is not part of the repository: it is a
    parameter of the formats, the class [Crc32c], and what the formats rely
    on is the class [Crc32cLaws]: checksums are 32-bit values and appending
    to a checksum checksums the concatenation.  [castagnoli] is the CRC-32C
    of the crate's documentation (polynomial 0x1EDC6F41, reflected), computed
    bit by bit; it satisfies the laws, so every theorem of the development
    that has them as a hypothesis can be used. *)

From S2P Require Import Prelude.

Class Crc32c := {
  crc32c : list byte → Z;
  crc32c_append : Z → list byte → Z;
}.

Class Crc32cLaws (C : Crc32c) : Prop := {
  crc32c_range l : u32 (crc32c l);
  crc32c_append_spec l k : crc32c_append (crc32c l) k = crc32c (l ++ k);
}.

Module Castagnoli.
Definition poly : Z := 0x82F63B78.
Definition mask : Z := 0xFFFFFFFF.

Definition shift (c : Z) : Z :=
  if Z.testbit c 0 then Z.lxor (Z.shiftr c 1) poly else Z.shiftr c 1.

Definition update (c : Z) (b : byte) : Z :=
  Nat.iter 8 shift (Z.lxor c (byte_to_Z b)).

Definition append (c : Z) (l : list byte) : Z :=
  Z.lxor (foldl update (Z.lxor c mask) l) mask.

Lemma u32_lxor a b : u32 a → u32 b → u32 (Z.lxor a b).
Proof.
  unfold in_u. intros [Ha Ha'] [Hb Hb']. split; [by apply Z.lxor_nonneg|].
  destruct (Z.eq_dec (Z.lxor a b) 0) as [->|Hn]; [lia|].
  assert (0 < Z.lxor a b) by (pose proof (Z.lxor_nonneg a b); lia).
  apply Z.log2_lt_pow2; [done|].
  eapply Z.le_lt_trans; [by apply Z.log2_lxor|].
  apply Z.max_lub_lt.
  - destruct (Z.eq_dec a 0) as [->|]; [simpl; lia|]. apply Z.log2_lt_pow2; lia.
  - destruct (Z.eq_dec b 0) as [->|]; [simpl; lia|]. apply Z.log2_lt_pow2; lia.
Qed.

Lemma u32_shift c : u32 c → u32 (shift c).
Proof.
  intros H. assert (u32 (Z.shiftr c 1)).
  { unfold in_u in *. rewrite Z.shiftr_div_pow2 by lia. change (2 ^ 1) with 2.
    pose proof (Z.div_pos c 2). pose proof (Z.div_le_upper_bound c 2 c). lia. }
  unfold shift. case_match; [|done]. apply u32_lxor; [done|]. unfold in_u, poly. lia.
Qed.

Lemma u32_update c b : u32 c → u32 (update c b).
Proof.
  intros H. unfold update. apply Nat.iter_invariant.
  - intros. by apply u32_shift.
  - apply u32_lxor; [done|]. pose proof (byte_to_Z_range b). unfold in_u. lia.
Qed.

Lemma u32_foldl l c : u32 c → u32 (foldl update c l).
Proof. revert c. induction l; intros; simpl; [done|]. by apply IHl, u32_update. Qed.

Lemma u32_mask : u32 mask.
Proof. unfold in_u, mask. lia. Qed.
End Castagnoli.

(** The CRC-32C itself, for concrete runs. *)
Definition castagnoli : Crc32c := {|
  crc32c := Castagnoli.append 0;
  crc32c_append := Castagnoli.append;
|}.

#[global] Instance castagnoli_laws : Crc32cLaws castagnoli.
Proof.
  split.
  - intros l. apply Castagnoli.u32_lxor, Castagnoli.u32_mask.
    apply Castagnoli.u32_foldl. rewrite Z.lxor_0_l. apply Castagnoli.u32_mask.
  - intros l k. cbn. unfold Castagnoli.append.
    rewrite foldl_app, Z.lxor_assoc, Z.lxor_nilpotent, Z.lxor_0_r. done.
Qed.

(** The check value of CRC-32C: [crc32c("123456789") = 0xE3069283]. *)
Example castagnoli_check :
  @crc32c castagnoli [x31; x32; x33; x34; x35; x36; x37; x38; x39] = 0xE3069283.
Proof. reflexivity. Qed.
