(* ===== verification/Format.v ===== *)
(** * The journal's on-disk formats (crates/moonpool-journal/src/format.rs)

    The geometry of a segment, the segment header, the persist record, the
    entry header and the metainfo copy: encoders, decoders and the arithmetic
    the rest of the journal shares.  An encoder takes the buffer it writes
    into and returns the buffer it leaves, or [None] when the code panics; a
    decoder returns [None] for a panic (a read past the slice) and otherwise
    what the code returns.

    The theorems: every encoder succeeds on a well-typed value and a buffer
    that is large enough, so its own [check_round_trip] assertion never
    fires, and what it wrote decodes to the value it was given; a copy of the
    metainfo is bound to its place; the regions of a segment are disjoint and
    addressable in 32 bits. *)

From S2P Require Import Prelude Crc.

(** ** Constants *)

Definition BLOCK : Z := 4096.
Definition ID_SIZE : Z := 24.
Definition RECORD_SIZE : Z := 64.
Definition RECORDS_PER_BLOCK : Z := BLOCK / RECORD_SIZE.
Definition MAX_BATCH_RECORDS : Z := 2 ^ 16 - 1.
Definition META_BYTES_AT : Z := 80.
Definition META_CRC_AT : Z := BLOCK - 4.
Definition META_MAX : Z := META_CRC_AT - META_BYTES_AT.
Definition META_COPY_B_AT : Z := 16 * BLOCK.
Definition META_FILE_BLOCKS : Z := 17.
(** [u32::from_le_bytes] of the ASCII bytes MPJS, MPJE and MPJM *)
Definition SEGMENT_MAGIC : Z := from_le_bytes [x4d; x50; x4a; x53].
Definition ENTRY_MAGIC : Z := from_le_bytes [x4d; x50; x4a; x45].
Definition META_MAGIC : Z := from_le_bytes [x4d; x50; x4a; x4d].
Definition VERSION : Z := 3.
Definition FLAG_ORDERED : Z := 1.
Definition GENERATION_SHIFT : Z := 40.

(** [Id = [u8; ID_SIZE]]; a value of the type has that length. *)
Abbreviation Id := (list byte) (only parsing).
Definition wf_id (id : Id) : Prop := len id = ID_SIZE.

(** [JournalId(pub u128)] *)
Abbreviation JournalId := Z (only parsing).

Definition put_u16 := put 2.
Definition put_u32 := put 4.
Definition put_u64 := put 8.
Definition put_u128 := put 16.
Definition get_u16 := get 2.
Definition get_u32 := get 4.
Definition get_u64 := get 8.
Definition get_u128 := get 16.

(** [buf[i]] and [buf[i] = v] for a byte. *)
Definition get_u8 := get 1.
Definition put_u8 := put 1.

(** ** Geometry *)

Record Geometry := mkGeometry {
  persist_blocks : Z;
  gap_blocks : Z;
  entry_blocks : Z;
}.

#[global] Instance Geometry_eq_dec : EqDecision Geometry.
Proof. solve_decision. Defined.

Definition wf_geometry (g : Geometry) : Prop :=
  u32 (persist_blocks g) ∧ u32 (gap_blocks g) ∧ u32 (entry_blocks g).

Definition Geometry_default : Geometry := mkGeometry 7936 512 7936.
Definition Geometry_small : Geometry := mkGeometry 8 0 16.

Definition total_blocks (g : Geometry) : Z :=
  2 + persist_blocks g + gap_blocks g + entry_blocks g.

Definition Geometry_is_valid (g : Geometry) : bool :=
  (1 <=? persist_blocks g) && (1 <=? entry_blocks g) &&
  (total_blocks g * BLOCK <=? 2 ^ 32 - 1).

Definition PERSIST_START : Z := 2 * BLOCK.
Definition persist_end (g : Geometry) : Z := PERSIST_START + persist_blocks g * BLOCK.
Definition entry_start (g : Geometry) : Z := persist_end g + gap_blocks g * BLOCK.
Definition entry_end (g : Geometry) : Z := entry_start g + entry_blocks g * BLOCK.

(** ** What a persist record (and the entry it describes) is *)

Inductive Kind := Kind_Put | Kind_Clear | Kind_Void.

#[global] Instance Kind_eq_dec : EqDecision Kind.
Proof. solve_decision. Defined.

Definition Kind_as_u8 (k : Kind) : Z :=
  match k with Kind_Put => 1 | Kind_Clear => 2 | Kind_Void => 3 end.

Definition Kind_from_byte (b : Z) : option Kind :=
  if b =? 1 then Some Kind_Put
  else if b =? 2 then Some Kind_Clear
  else if b =? 3 then Some Kind_Void
  else None.

(** ** The structures *)

Record SegmentHeader := mkSegmentHeader {
  sh_journal : JournalId;
  sh_first_batch : Z;
  sh_prev_batch : Z;
  sh_geometry : Geometry;
}.

(** [Record], CLSTORE's identifier and persist record in one *)
Record PRecord := mkPRecord {
  r_kind : Kind;
  r_flags : Z;
  r_index : Z;
  r_count : Z;
  r_batch : Z;
  r_position : Z;
  r_id : Id;
  r_offset : Z;
  r_len : Z;
  r_entry_crc : Z;
}.

Inductive Slot := Slot_Zero | Slot_Damaged | Slot_Valid (r : PRecord).

Record EntryHeader := mkEntryHeader {
  eh_kind : Kind;
  eh_flags : Z;
  eh_index : Z;
  eh_count : Z;
  eh_batch : Z;
  eh_position : Z;
  eh_id : Id;
  eh_len : Z;
  eh_tag : Z;
}.

Record Meta := mkMeta {
  m_seq : Z;
  m_journal : JournalId;
  m_floor : Z;
  m_last_batch : Z;
  m_open_generation : Z;
  m_open_last : Z;
  m_geometry : Geometry;
  m_bytes : list byte;
}.

#[global] Instance SegmentHeader_eq_dec : EqDecision SegmentHeader.
Proof. solve_decision. Defined.
#[global] Instance PRecord_eq_dec : EqDecision PRecord.
Proof. solve_decision. Defined.
#[global] Instance Slot_eq_dec : EqDecision Slot.
Proof. solve_decision. Defined.
#[global] Instance EntryHeader_eq_dec : EqDecision EntryHeader.
Proof. solve_decision. Defined.
#[global] Instance Meta_eq_dec : EqDecision Meta.
Proof. solve_decision. Defined.

(** The values a Rust variable of each type can hold, and, for a record or
    an entry header, what every writer ensures ([index < count]: the decoder
    refuses anything else). *)
Definition wf_segment_header (h : SegmentHeader) : Prop :=
  u128 (sh_journal h) ∧ u64 (sh_first_batch h) ∧ u64 (sh_prev_batch h) ∧
  wf_geometry (sh_geometry h).

Definition wf_record (r : PRecord) : Prop :=
  u8 (r_flags r) ∧ u16 (r_index r) ∧ u16 (r_count r) ∧ u64 (r_batch r) ∧
  u64 (r_position r) ∧ wf_id (r_id r) ∧ u32 (r_offset r) ∧ u32 (r_len r) ∧
  u32 (r_entry_crc r) ∧ r_index r < r_count r.

Definition wf_entry_header (h : EntryHeader) : Prop :=
  u8 (eh_flags h) ∧ u16 (eh_index h) ∧ u16 (eh_count h) ∧ u64 (eh_batch h) ∧
  u64 (eh_position h) ∧ wf_id (eh_id h) ∧ u32 (eh_len h) ∧ u32 (eh_tag h) ∧
  eh_index h < eh_count h.

Definition wf_meta (m : Meta) : Prop :=
  u64 (m_seq m) ∧ u128 (m_journal m) ∧ u64 (m_floor m) ∧ u64 (m_last_batch m) ∧
  u32 (m_open_generation m) ∧ u64 (m_open_last m) ∧ wf_geometry (m_geometry m) ∧
  len (m_bytes m) ≤ META_MAX.

(** ** Arithmetic shared by the writers *)

(** [Record::clear_end]: the end of a tombstone's range rides in its id. *)
Definition clear_end (r : PRecord) : option Z := get_u64 (r_id r) 0.

Definition clear_id (e : Z) : Id := splice (zeros ID_SIZE) 0 (to_le_bytes 8 e).

Definition slot_offset (index : Z) : Z := index * RECORD_SIZE.

Definition blocks_for (count : Z) : Z := align_up (count * RECORD_SIZE) BLOCK / BLOCK.

Definition footprint (l : Z) : Z := align_up (RECORD_SIZE + l) 8.

Definition generation_of (batch : Z) : Z := Z.shiftr batch GENERATION_SHIFT.

(** [(generation << GENERATION_SHIFT) + 1] on [u64] *)
Definition first_batch_of (generation : Z) : Z :=
  wrap64 (wrap64 (Z.shiftl generation GENERATION_SHIFT) + 1).

Section WithCrc.
Context {C : Crc32c}.

Definition crc (l : list byte) : Z := crc32c l.

Definition journal_tag (journal : JournalId) : Z := crc (to_le_bytes 16 journal).

(** ** Segment headers *)

Definition SegmentHeader_decode (block : list byte) : option (option SegmentHeader) :=
  let* magic := get_u32 block 0 in
  if negb (magic =? SEGMENT_MAGIC) then Some None else
  let* version := get_u16 block 4 in
  if negb (version =? VERSION) then Some None else
  let* stored := get_u32 block 52 in
  let* covered := slice_checked block 0 52 in
  if negb (stored =? crc covered) then Some None else
  let* journal := get_u128 block 8 in
  let* first_batch := get_u64 block 24 in
  let* prev_batch := get_u64 block 44 in
  let* persist := get_u32 block 32 in
  let* gap := get_u32 block 36 in
  let* entry := get_u32 block 40 in
  Some (Some (mkSegmentHeader journal first_batch prev_batch (mkGeometry persist gap entry))).

Definition SegmentHeader_encode (self : SegmentHeader) (block : list byte) :
    option (list byte) :=
  let* block := fill block 0 BLOCK x00 in
  let* block := put_u32 block 0 SEGMENT_MAGIC in
  let* block := put_u16 block 4 VERSION in
  let* block := put_u128 block 8 (sh_journal self) in
  let* block := put_u64 block 24 (sh_first_batch self) in
  let* block := put_u32 block 32 (persist_blocks (sh_geometry self)) in
  let* block := put_u32 block 36 (gap_blocks (sh_geometry self)) in
  let* block := put_u32 block 40 (entry_blocks (sh_geometry self)) in
  let* block := put_u64 block 44 (sh_prev_batch self) in
  let* covered := slice_checked block 0 52 in
  let* block := put_u32 block 52 (crc covered) in
  let* decoded := SegmentHeader_decode block in
  if decide (decoded = Some self) then Some block else None.

(** ** Persist records *)

Definition PRecord_decode (bytes : list byte) : option Slot :=
  let* bytes := slice_checked bytes 0 RECORD_SIZE in
  if forallb (fun b => byte_to_Z b =? 0) bytes then Some Slot_Zero else
  let* stored := get_u32 bytes 60 in
  let* covered := slice_checked bytes 0 60 in
  if negb (stored =? crc covered) then Some Slot_Damaged else
  let* k := get_u8 bytes 0 in
  match Kind_from_byte k with
  | None => Some Slot_Damaged
  | Some kind =>
    let* flags := get_u8 bytes 1 in
    let* index := get_u16 bytes 2 in
    let* l := get_u32 bytes 4 in
    let* batch := get_u64 bytes 8 in
    let* position := get_u64 bytes 16 in
    let* offset := get_u32 bytes 24 in
    let* entry_crc := get_u32 bytes 28 in
    let* id := slice_checked bytes 32 56 in
    let* count := get_u16 bytes 56 in
    let record := mkPRecord kind flags index count batch position id offset l entry_crc in
    if count <=? index then Some Slot_Damaged else Some (Slot_Valid record)
  end.

(** The encoder writes [out[..RECORD_SIZE]] and leaves the rest. *)
Definition PRecord_encode (self : PRecord) (out : list byte) : option (list byte) :=
  let* out := fill out 0 RECORD_SIZE x00 in
  let* out := put_u8 out 0 (Kind_as_u8 (r_kind self)) in
  let* out := put_u8 out 1 (r_flags self) in
  let* out := put_u16 out 2 (r_index self) in
  let* out := put_u32 out 4 (r_len self) in
  let* out := put_u64 out 8 (r_batch self) in
  let* out := put_u64 out 16 (r_position self) in
  let* out := put_u32 out 24 (r_offset self) in
  let* out := put_u32 out 28 (r_entry_crc self) in
  let* out := copy_from_slice out 32 (r_id self) in
  let* out := put_u16 out 56 (r_count self) in
  let* covered := slice_checked out 0 60 in
  let* out := put_u32 out 60 (crc covered) in
  let* decoded := PRecord_decode out in
  if decide (decoded = Slot_Valid self) then Some out else None.

(** ** Entries *)

(** [entry_crc]: over the header with its CRC field zeroed, then the payload *)
Definition entry_crc (header payload : list byte) : option Z :=
  let* head := slice_checked header 0 RECORD_SIZE in
  let* head := put_u32 head 60 0 in
  Some (crc32c_append (crc head) payload).

Definition EntryHeader_parse (bytes : list byte) : option (option (EntryHeader * Z)) :=
  if len bytes <? RECORD_SIZE then Some None else
  let* magic := get_u32 bytes 0 in
  if negb (magic =? ENTRY_MAGIC) then Some None else
  let* k := get_u8 bytes 28 in
  match Kind_from_byte k with
  | None => Some None
  | Some kind =>
    let* flags := get_u8 bytes 29 in
    let* index := get_u16 bytes 24 in
    let* count := get_u16 bytes 26 in
    let* batch := get_u64 bytes 8 in
    let* position := get_u64 bytes 16 in
    let* id := slice_checked bytes 32 56 in
    let* l := get_u32 bytes 4 in
    let* tag := get_u32 bytes 56 in
    let header := mkEntryHeader kind flags index count batch position id l tag in
    if index <? count then
      let* stored := get_u32 bytes 60 in Some (Some (header, stored))
    else Some None
  end.

Definition EntryHeader_encode (self : EntryHeader) (payload out : list byte) :
    option (Z * list byte) :=
  if negb (len payload =? eh_len self) then None else
  let* out := fill out 0 RECORD_SIZE x00 in
  let* out := put_u32 out 0 ENTRY_MAGIC in
  let* out := put_u32 out 4 (eh_len self) in
  let* out := put_u64 out 8 (eh_batch self) in
  let* out := put_u64 out 16 (eh_position self) in
  let* out := put_u16 out 24 (eh_index self) in
  let* out := put_u16 out 26 (eh_count self) in
  let* out := put_u8 out 28 (Kind_as_u8 (eh_kind self)) in
  let* out := put_u8 out 29 (eh_flags self) in
  let* out := copy_from_slice out 32 (eh_id self) in
  let* out := put_u32 out 56 (eh_tag self) in
  let* out := copy_from_slice out RECORD_SIZE payload in
  let* header := slice_checked out 0 RECORD_SIZE in
  let* sum := entry_crc header payload in
  let* out := put_u32 out 60 sum in
  let* header := slice_checked out 0 RECORD_SIZE in
  let* parsed := EntryHeader_parse header in
  if decide (parsed = Some (self, sum)) then Some (sum, out) else None.

(** ** The metainfo *)

Definition Meta_decode (block : list byte) (copy : Z) : option (option Meta) :=
  let* magic := get_u32 block 0 in
  if negb (magic =? META_MAGIC) then Some None else
  let* version := get_u16 block 4 in
  if negb (version =? VERSION) then Some None else
  let* c := get_u8 block 6 in
  if negb (c =? copy) then Some None else
  let* stored := get_u32 block META_CRC_AT in
  let* covered := slice_checked block 0 META_CRC_AT in
  if negb (stored =? crc covered) then Some None else
  let* l := get_u32 block 76 in
  if META_MAX <? l then Some None else
  let* journal := get_u128 block 8 in
  let* seq := get_u64 block 24 in
  let* floor := get_u64 block 32 in
  let* last_batch := get_u64 block 40 in
  let* open_last := get_u64 block 64 in
  let* open_generation := get_u32 block 72 in
  let* persist := get_u32 block 48 in
  let* gap := get_u32 block 52 in
  let* entry := get_u32 block 56 in
  let* bytes := slice_checked block META_BYTES_AT (META_BYTES_AT + l) in
  Some (Some (mkMeta seq journal floor last_batch open_generation open_last
                (mkGeometry persist gap entry) bytes)).

Definition Meta_encode (self : Meta) (copy : Z) (block : list byte) : option (list byte) :=
  if META_MAX <? len (m_bytes self) then None else
  let* block := fill block 0 BLOCK x00 in
  let* block := put_u32 block 0 META_MAGIC in
  let* block := put_u16 block 4 VERSION in
  let* block := put_u8 block 6 copy in
  let* block := put_u128 block 8 (m_journal self) in
  let* block := put_u64 block 24 (m_seq self) in
  let* block := put_u64 block 32 (m_floor self) in
  let* block := put_u64 block 40 (m_last_batch self) in
  let* block := put_u32 block 48 (persist_blocks (m_geometry self)) in
  let* block := put_u32 block 52 (gap_blocks (m_geometry self)) in
  let* block := put_u32 block 56 (entry_blocks (m_geometry self)) in
  let* block := put_u64 block 64 (m_open_last self) in
  let* block := put_u32 block 72 (m_open_generation self) in
  let* block := put_u32 block 76 (len (m_bytes self)) in
  let* block := copy_from_slice block META_BYTES_AT (m_bytes self) in
  let* covered := slice_checked block 0 META_CRC_AT in
  let* block := put_u32 block META_CRC_AT (crc covered) in
  let* decoded := Meta_decode block copy in
  if decide (decoded = Some self) then Some block else None.

(** ** Round trips *)

Context {L : Crc32cLaws C}.

Ltac unfold_io :=
  unfold put_u8, put_u16, put_u32, put_u64, put_u128,
         get_u8, get_u16, get_u32, get_u64, get_u128 in *.

(** Rust's encoders panic unless what they wrote decodes back: these
    lemmas show that it always does, and that an encoder touches only the
    bytes of its structure. *)
Lemma SegmentHeader_encode_spec h block :
  wf_segment_header h → BLOCK ≤ len block →
  ∃ out, SegmentHeader_encode h block = Some out ∧ len out = len block ∧
    SegmentHeader_decode out = Some (Some h) ∧
    ∀ x y, BLOCK ≤ x → slice out x y = slice block x y.
Proof.
  intros (Hj & Hf & Hp & Hg1 & Hg2 & Hg3) Hb.
  unfold SegmentHeader_encode, BLOCK in *. unfold_io.
  do 9 write_step. read_step.
  pose proof (crc32c_range (slice b7 0 52)).
  write_step.
  assert (SegmentHeader_decode b8 = Some (Some h)) as Hd.
  { unfold SegmentHeader_decode. unfold_io.
    repeat read_step. chase. unfold crc. rewrite !Z.eqb_refl. cbn [negb].
    by destruct h as [? ? ? []]. }
  exists b8. rewrite Hd. cbn [mbind option_bind]. rewrite decide_True by done.
  split_and!; try done; [lia|]. intros. chase. done.
Qed.

Lemma Kind_round_trip k : Kind_from_byte (Kind_as_u8 k) = Some k.
Proof. by destruct k. Qed.

Lemma Kind_as_u8_range k : 1 ≤ Kind_as_u8 k ≤ 3.
Proof. destruct k; simpl; lia. Qed.

Lemma PRecord_decode_prefix b m :
  RECORD_SIZE ≤ m ≤ len b → PRecord_decode (slice b 0 m) = PRecord_decode b.
Proof.
  intros. unfold PRecord_decode, RECORD_SIZE in *.
  rewrite slice_checked_prefix, slice_checked_ok by lia. done.
Qed.

Lemma PRecord_encode_spec r out :
  wf_record r → RECORD_SIZE ≤ len out →
  ∃ out', PRecord_encode r out = Some out' ∧ len out' = len out ∧
    PRecord_decode out' = Some (Slot_Valid r) ∧
    ∀ x y, RECORD_SIZE ≤ x → slice out' x y = slice out x y.
Proof.
  intros (Hfl & Hix & Hct & Hba & Hpo & Hid & Hof & Hle & Hec & Hlt) Hb.
  pose proof (Kind_as_u8_range (r_kind r)). unfold wf_id, ID_SIZE in Hid.
  unfold PRecord_encode, RECORD_SIZE in *. unfold_io.
  do 11 write_step. read_step.
  pose proof (crc32c_range (slice b9 0 60)).
  write_step.
  assert (PRecord_decode b10 = Some (Slot_Valid r)) as Hd.
  { unfold PRecord_decode, RECORD_SIZE. rewrite slice_checked_ok by lia.
    cbn [mbind option_bind].
    rewrite (forallb_zero_false _ 0 (Z_to_byte (Kind_as_u8 (r_kind r)))); [| lia | |].
    - unfold_io. rewrite !get_prefix by (cbn; lia).
      rewrite !slice_checked_prefix by lia. cbn [mbind option_bind].
      repeat read_step. chase. unfold crc. rewrite !Z.eqb_refl. cbn [negb].
      rewrite Kind_round_trip. rewrite (proj2 (Z.leb_gt _ _)) by lia.
      replace 56 with (32 + len (r_id r)) by lia. rewrite Ws8. by destruct r.
    - rewrite slice_slice by lia. chase. exact Ws0.
    - rewrite byte_to_Z_to_byte. rewrite Z.mod_small; lia. }
  exists b10. rewrite Hd. cbn [mbind option_bind]. rewrite decide_True by done.
  split_and!; try done; [lia|]. intros. chase. done.
Qed.

Lemma EntryHeader_parse_prefix b m :
  RECORD_SIZE ≤ m ≤ len b → EntryHeader_parse (slice b 0 m) = EntryHeader_parse b.
Proof.
  intros. unfold EntryHeader_parse, RECORD_SIZE in *. unfold_io.
  rewrite len_slice by lia. rewrite !(proj2 (Z.ltb_ge _ _)) by lia.
  rewrite !get_prefix by (cbn; lia).
  rewrite slice_checked_prefix, slice_checked_ok by lia. done.
Qed.

(** The CRC an entry carries does not depend on its own CRC field. *)
Lemma entry_crc_spec header payload :
  RECORD_SIZE ≤ len header →
  ∃ head, len head = RECORD_SIZE ∧ slice head 0 60 = slice header 0 60 ∧
    slice head 60 RECORD_SIZE = to_le_bytes 4 0 ∧
    entry_crc header payload = Some (crc32c_append (crc head) payload).
Proof.
  intros H. unfold entry_crc, RECORD_SIZE in *. unfold_io.
  rewrite slice_checked_ok by lia. cbn [mbind option_bind].
  assert (len (slice header 0 64) = 64) by solve_len.
  write_step. exists b. split_and!; [lia| |exact Ws|done].
  chase. by rewrite slice_slice by lia.
Qed.

Lemma entry_crc_range header payload sum :
  entry_crc header payload = Some sum → u32 sum.
Proof.
  unfold entry_crc. intros H.
  destruct (slice_checked header 0 RECORD_SIZE); [|done]. cbn [mbind option_bind] in H.
  destruct (put_u32 _ _ _); [|done]. injection H as <-.
  unfold crc. rewrite crc32c_append_spec. apply crc32c_range.
Qed.

(** It only reads the first 60 bytes of the header. *)
Lemma entry_crc_ext h1 h2 payload :
  RECORD_SIZE ≤ len h1 → RECORD_SIZE ≤ len h2 → slice h1 0 60 = slice h2 0 60 →
  entry_crc h1 payload = entry_crc h2 payload.
Proof.
  intros H1 H2 E.
  destruct (entry_crc_spec h1 payload H1) as (d1 & L1 & A1 & Z1 & ->).
  destruct (entry_crc_spec h2 payload H2) as (d2 & L2 & A2 & Z2 & ->).
  assert (d1 = d2) as ->; [|done].
  apply (list_eq_split d1 d2 60); [lia|congruence|congruence|].
  rewrite L1, L2, Z1, Z2. done.
Qed.

Lemma EntryHeader_encode_spec h payload out :
  wf_entry_header h → eh_len h = len payload → RECORD_SIZE + len payload ≤ len out →
  ∃ sum out', EntryHeader_encode h payload out = Some (sum, out') ∧
    len out' = len out ∧ u32 sum ∧
    EntryHeader_parse out' = Some (Some (h, sum)) ∧
    entry_crc out' payload = Some sum ∧
    slice out' RECORD_SIZE (RECORD_SIZE + len payload) = payload ∧
    ∀ x y, RECORD_SIZE + len payload ≤ x → slice out' x y = slice out x y.
Proof.
  intros (Hfl & Hix & Hct & Hba & Hpo & Hid & Hle & Htg & Hlt) Hlen Hb.
  pose proof (Kind_as_u8_range (eh_kind h)). pose proof (len_nonneg payload).
  unfold wf_id, ID_SIZE in Hid.
  unfold EntryHeader_encode. rewrite (proj2 (Z.eqb_eq _ _)) by lia. cbn [negb].
  unfold RECORD_SIZE in *. unfold_io.
  do 12 write_step. read_step.
  assert (len (slice b10 0 64) = 64) as L10 by solve_len.
  destruct (entry_crc_spec (slice b10 0 64) payload) as (hd & _ & _ & _ & Hsum);
    [unfold RECORD_SIZE; lia|].
  set (sum := crc32c_append (crc hd) payload) in *.
  pose proof (entry_crc_range _ _ _ Hsum). rewrite Hsum. cbn [mbind option_bind].
  write_step. read_step.
  assert (EntryHeader_parse b11 = Some (Some (h, sum))) as Hd.
  { unfold EntryHeader_parse, RECORD_SIZE. unfold_io.
    rewrite (proj2 (Z.ltb_ge _ _)) by lia.
    repeat read_step. chase. rewrite !Z.eqb_refl. cbn [negb].
    rewrite Kind_round_trip. rewrite (proj2 (Z.ltb_lt _ _)) by lia.
    replace 56 with (32 + len (eh_id h)) by lia. rewrite Ws8. by destruct h. }
  rewrite (EntryHeader_parse_prefix b11 64) by (unfold RECORD_SIZE; lia).
  rewrite Hd. cbn [mbind option_bind]. rewrite decide_True by done.
  exists sum, b11. split_and!; try done; try lia.
  - rewrite <- Hsum. apply entry_crc_ext; unfold RECORD_SIZE; try lia.
    rewrite slice_slice by lia. chase. done.
  - chase. exact Ws10.
  - intros. chase. done.
Qed.

Lemma Meta_encode_spec m copy block :
  wf_meta m → u8 copy → BLOCK ≤ len block →
  ∃ out, Meta_encode m copy block = Some out ∧ len out = len block ∧
    (∀ c, Meta_decode out c = Some (if c =? copy then Some m else None)) ∧
    ∀ x y, BLOCK ≤ x → slice out x y = slice block x y.
Proof.
  intros (Hs & Hj & Hf & Hl & Hg & Ho & (Hg1 & Hg2 & Hg3) & Hb) Hc Hlen.
  pose proof (len_nonneg (m_bytes m)).
  unfold Meta_encode, META_MAX, META_CRC_AT, META_BYTES_AT, BLOCK in *.
  change (4096 - 4) with 4092 in *. change (4092 - 80) with 4012 in *.
  rewrite (proj2 (Z.ltb_ge _ _)) by lia. unfold_io.
  do 15 write_step. read_step.
  pose proof (crc32c_range (slice b13 0 4092)).
  write_step.
  assert (∀ c, Meta_decode b14 c = Some (if c =? copy then Some m else None)) as Hd.
  { intros c. unfold Meta_decode, META_MAX, META_CRC_AT, META_BYTES_AT, BLOCK.
    change (4096 - 4) with 4092. change (4092 - 80) with 4012. unfold_io.
    repeat read_step. chase. unfold crc. rewrite !Z.eqb_refl. cbn [negb].
    rewrite (Z.eqb_sym copy c). destruct (c =? copy); [|done]. cbn [negb].
    rewrite (proj2 (Z.ltb_ge _ _)) by lia. rewrite Ws13.
    by destruct m as [? ? ? ? ? ? [] ?]. }
  exists b14. rewrite Hd, Z.eqb_refl. cbn [mbind option_bind].
  rewrite decide_True by done.
  split_and!; try done; [lia|]. intros. chase. done.
Qed.

(** ** Decoders are total on whole structures and return well-typed values *)

Lemma SegmentHeader_decode_total b :
  BLOCK ≤ len b → ∃ h, SegmentHeader_decode b = Some h.
Proof. unfold BLOCK. intros. unfold SegmentHeader_decode. unfold_io. decode_total. Qed.

Lemma SegmentHeader_decode_wf b h :
  SegmentHeader_decode b = Some (Some h) → wf_segment_header h.
Proof.
  unfold SegmentHeader_decode. unfold_io. intros H. decode_inv H.
  injection H as <-. unfold wf_segment_header, wf_geometry, in_u. cbn. lia.
Qed.

Lemma PRecord_decode_total b : RECORD_SIZE ≤ len b → ∃ s, PRecord_decode b = Some s.
Proof.
  unfold RECORD_SIZE. intros. unfold PRecord_decode, RECORD_SIZE.
  rewrite slice_checked_ok by lia. cbn [mbind option_bind].
  assert (len (slice b 0 64) = 64) by solve_len. unfold_io. decode_total.
Qed.

Lemma PRecord_decode_wf b r : PRecord_decode b = Some (Slot_Valid r) → wf_record r.
Proof.
  unfold PRecord_decode. unfold_io. intros H. decode_inv H.
  injection H as <-. unfold wf_record, wf_id, in_u, ID_SIZE. cbn.
  lia.
Qed.

Lemma EntryHeader_parse_total b : ∃ s, EntryHeader_parse b = Some s.
Proof.
  unfold EntryHeader_parse, RECORD_SIZE. unfold_io.
  destruct (Z.ltb_spec (len b) 64); [by eexists|]. decode_total.
Qed.

Lemma EntryHeader_parse_wf b h sum :
  EntryHeader_parse b = Some (Some (h, sum)) →
  wf_entry_header h ∧ u32 sum ∧ RECORD_SIZE ≤ len b.
Proof.
  unfold EntryHeader_parse. unfold_io. intros H. decode_inv H.
  injection H as <- <-. unfold wf_entry_header, wf_id, in_u, ID_SIZE. cbn.
  lia.
Qed.

Lemma Meta_decode_total b copy : BLOCK ≤ len b → ∃ m, Meta_decode b copy = Some m.
Proof.
  unfold BLOCK. intros.
  unfold Meta_decode, META_MAX, META_CRC_AT, META_BYTES_AT, BLOCK.
  change (4096 - 4) with 4092. change (4092 - 80) with 4012. unfold_io.
  rewrite (get_slice 4 b 76) by (cbn; lia). cbn [mbind option_bind].
  pose proof (from_le_bytes_range (slice b 76 (76 + Z.of_nat 4))).
  destruct (Z.ltb_spec 4012 (from_le_bytes (slice b 76 (76 + Z.of_nat 4)))); decode_total.
Qed.

Lemma Meta_decode_wf b copy m : Meta_decode b copy = Some (Some m) → wf_meta m.
Proof.
  unfold Meta_decode, META_MAX. unfold_io. intros H. decode_inv H.
  injection H as <-. unfold wf_meta, wf_geometry, in_u, META_MAX. cbn.
  lia.
Qed.
End WithCrc.

(** ** Arithmetic *)

Lemma RECORDS_PER_BLOCK_eq : RECORDS_PER_BLOCK = 64.
Proof. done. Qed.

(** The regions of a valid segment follow each other, blocks apart, and every
    byte offset in it fits the [u32] a record stores. *)
Lemma geometry_regions g :
  wf_geometry g → Geometry_is_valid g = true →
  PERSIST_START < persist_end g ≤ entry_start g ∧ entry_start g < entry_end g ∧
  entry_end g = total_blocks g * BLOCK ∧ u32 (entry_end g) ∧
  persist_end g mod BLOCK = 0 ∧ entry_start g mod BLOCK = 0 ∧ entry_end g mod BLOCK = 0.
Proof.
  unfold Geometry_is_valid, wf_geometry, total_blocks, entry_end, entry_start, persist_end,
    PERSIST_START, in_u, BLOCK.
  intros (H1 & H2 & H3). rewrite !andb_true_iff, !Z.leb_le. intros. split_and!; try lia.
  - replace (2 * 4096 + persist_blocks g * 4096) with ((2 + persist_blocks g) * 4096) by lia.
    apply Z.mod_mul. lia.
  - replace (2 * 4096 + persist_blocks g * 4096 + gap_blocks g * 4096)
      with ((2 + persist_blocks g + gap_blocks g) * 4096) by lia.
    apply Z.mod_mul. lia.
  - replace (2 * 4096 + persist_blocks g * 4096 + gap_blocks g * 4096 + entry_blocks g * 4096)
      with ((2 + persist_blocks g + gap_blocks g + entry_blocks g) * 4096) by lia.
    apply Z.mod_mul. lia.
Qed.

Lemma len_clear_id e : len (clear_id e) = ID_SIZE.
Proof. unfold clear_id, ID_SIZE. solve_len. Qed.

(** A tombstone carries the end of its range in its id. *)
Lemma clear_end_clear_id r e : u64 e → r_id r = clear_id e → clear_end r = Some e.
Proof.
  intros He Hr. unfold clear_end, get_u64. rewrite Hr.
  apply get_written; [lia| rewrite len_clear_id; unfold ID_SIZE; cbn; lia | |].
  - unfold clear_id, ID_SIZE.
    apply (slice_splice_same (zeros 24) 0 (to_le_bytes 8 e)); solve_len.
  - unfold in_u in He. cbn. lia.
Qed.

Lemma footprint_bounds l : 0 ≤ l → RECORD_SIZE + l ≤ footprint l < RECORD_SIZE + l + 8.
Proof.
  intros. unfold footprint. split; [apply align_up_ge|apply align_up_lt]; lia.
Qed.

Lemma blocks_for_spec count :
  0 ≤ count → count * RECORD_SIZE ≤ blocks_for count * BLOCK < count * RECORD_SIZE + BLOCK.
Proof.
  intros. unfold blocks_for.
  pose proof (align_up_mod (count * RECORD_SIZE) BLOCK ltac:(done)) as Hm.
  apply Z.div_exact in Hm; [|done]. rewrite (Z.mul_comm (_ / BLOCK)), <- Hm.
  split; [apply align_up_ge|apply align_up_lt]; done.
Qed.

(** Batch numbers: the generation is in the high bits, so a batch of a later
    generation is above every batch of an earlier one. *)
Lemma first_batch_of_eq g : 0 ≤ g < 2 ^ 24 → first_batch_of g = g * 2 ^ 40 + 1.
Proof.
  intros. unfold first_batch_of, GENERATION_SHIFT. rewrite Z.shiftl_mul_pow2 by lia.
  rewrite (wrap64_small (g * 2 ^ 40)) by (unfold in_u; lia).
  apply wrap64_small. unfold in_u. lia.
Qed.

Lemma generation_of_eq b : generation_of b = b / 2 ^ 40.
Proof. unfold generation_of, GENERATION_SHIFT. by rewrite Z.shiftr_div_pow2 by lia. Qed.

Lemma generation_of_first_batch_of g : 0 ≤ g < 2 ^ 24 → generation_of (first_batch_of g) = g.
Proof.
  intros. rewrite generation_of_eq, first_batch_of_eq by done.
  rewrite Z.add_comm, Z.div_add by lia. rewrite Z.div_small by lia. lia.
Qed.

Lemma generation_lt_batch b g :
  0 ≤ b → 0 ≤ g < 2 ^ 24 → generation_of b < g → b < first_batch_of g.
Proof.
  intros. rewrite generation_of_eq in *. rewrite first_batch_of_eq by done.
  pose proof (Z.div_mod b (2 ^ 40)). pose proof (Z.mod_pos_bound b (2 ^ 40)). lia.
Qed.

(** ** Properties of the formats *)

Section Properties.
Context {C : Crc32c} {L : Crc32cLaws C}.

(** A persist record round trips: encoding a well-formed record over any
    64 bytes or more succeeds, decodes to the record, and writes nothing past
    the record's slot. *)
Theorem record_round_trip r out :
  wf_record r → RECORD_SIZE ≤ len out →
  ∃ out', PRecord_encode r out = Some out' ∧ len out' = len out ∧
    PRecord_decode out' = Some (Slot_Valid r) ∧
    ∀ x y, RECORD_SIZE ≤ x → slice out' x y = slice out x y.
Proof. apply PRecord_encode_spec. Qed.

(** An entry round trips: encoding a header and its payload succeeds, the
    header parses back with the checksum that was returned, the payload is
    in place, and the checksum recomputed over what is stored is that one. *)
Theorem entry_round_trip h payload out :
  wf_entry_header h → eh_len h = len payload → RECORD_SIZE + len payload ≤ len out →
  ∃ sum out', EntryHeader_encode h payload out = Some (sum, out') ∧
    len out' = len out ∧ u32 sum ∧
    EntryHeader_parse out' = Some (Some (h, sum)) ∧
    entry_crc out' (slice out' RECORD_SIZE (RECORD_SIZE + len payload)) = Some sum ∧
    slice out' RECORD_SIZE (RECORD_SIZE + len payload) = payload ∧
    ∀ x y, RECORD_SIZE + len payload ≤ x → slice out' x y = slice out x y.
Proof.
  intros Hh Hl Hlen.
  destruct (EntryHeader_encode_spec h payload out Hh Hl Hlen)
    as (sum & out' & He & Hlo & Hs & Hp & Hc & Hpl & Hrest).
  exists sum, out'. rewrite Hpl. by split_and!.
Qed.

(** A metainfo copy is bound to its place: what is encoded as one copy
    decodes as that copy, and is no copy at the other's place. *)
Theorem meta_copy_round_trip m copy block :
  wf_meta m → u8 copy → BLOCK ≤ len block →
  ∃ out, Meta_encode m copy block = Some out ∧ len out = len block ∧
    Meta_decode out copy = Some (Some m) ∧
    ∀ c, c ≠ copy → Meta_decode out c = Some None.
Proof.
  intros Hm Hc Hb. destruct (Meta_encode_spec m copy block Hm Hc Hb) as (out & He & Hl & Hd & _).
  exists out. split_and!; [done|done|by rewrite Hd, Z.eqb_refl|].
  intros c Hne. by rewrite Hd, (proj2 (Z.eqb_neq _ _)).
Qed.

(** A segment header round trips within its block. *)
Theorem segment_header_round_trip h block :
  wf_segment_header h → BLOCK ≤ len block →
  ∃ out, SegmentHeader_encode h block = Some out ∧ len out = len block ∧
    SegmentHeader_decode out = Some (Some h) ∧
    ∀ x y, BLOCK ≤ x → slice out x y = slice block x y.
Proof. apply SegmentHeader_encode_spec. Qed.

(** No byte pattern makes a decoder panic, and what a decoder accepts is
    well formed, so it can be encoded again: the decoders and the encoders
    agree on what a record, an entry header, a metainfo copy and a segment
    header are. *)
Theorem decoders_total b copy :
  (RECORD_SIZE ≤ len b → ∃ s, PRecord_decode b = Some s ∧ ∀ r, s = Slot_Valid r → wf_record r) ∧
  (∃ o, EntryHeader_parse b = Some o ∧
     ∀ h sum, o = Some (h, sum) → wf_entry_header h ∧ u32 sum ∧ RECORD_SIZE ≤ len b) ∧
  (BLOCK ≤ len b → ∃ o, Meta_decode b copy = Some o ∧ ∀ m, o = Some m → wf_meta m) ∧
  (BLOCK ≤ len b → ∃ o, SegmentHeader_decode b = Some o ∧ ∀ h, o = Some h → wf_segment_header h).
Proof.
  split_and!.
  - intros H. destruct (PRecord_decode_total b H) as [s Hs]. exists s. split; [done|].
    intros r ->. by eapply PRecord_decode_wf.
  - destruct (EntryHeader_parse_total b) as [o Ho]. exists o. split; [done|].
    intros h sum ->. by apply EntryHeader_parse_wf.
  - intros H. destruct (Meta_decode_total b copy H) as [o Ho]. exists o. split; [done|].
    intros m ->. by eapply Meta_decode_wf.
  - intros H. destruct (SegmentHeader_decode_total b H) as [o Ho]. exists o. split; [done|].
    intros h ->. by eapply SegmentHeader_decode_wf.
Qed.
End Properties.

(** The regions of a valid geometry: header copies, persist log, gap and
    entry log lie in that order, on block boundaries, within the file, and
    every offset of the file fits a record's 32-bit offset. *)
Theorem geometry_layout g :
  wf_geometry g → Geometry_is_valid g = true →
  2 * BLOCK = PERSIST_START ∧ PERSIST_START < persist_end g ≤ entry_start g ∧
  entry_start g < entry_end g ∧ entry_end g = total_blocks g * BLOCK ∧
  persist_end g mod BLOCK = 0 ∧ entry_start g mod BLOCK = 0 ∧
  ∀ offset, 0 ≤ offset ≤ entry_end g → u32 offset.
Proof.
  intros Hg Hv. destruct (geometry_regions g Hg Hv) as (H1 & H2 & H3 & H4 & H5 & H6 & _).
  split_and!; try done; try tauto. intros offset ?. unfold in_u in *. lia.
Qed.

(** The open generations a journal can count do not all fit a batch
    number: at generation 2^24, far below the 32 bits its metainfo counts
    generations in, the first batch number is 1 again, the one of
    generation 0, below every batch of the generation before. *)
Theorem generation_space_exhausted :
  u32 (2 ^ 24) ∧ first_batch_of (2 ^ 24) = first_batch_of 0 ∧
  first_batch_of (2 ^ 24) < first_batch_of (2 ^ 24 - 1) ∧
  generation_of (first_batch_of (2 ^ 24)) ≠ 2 ^ 24.
Proof. vm_compute. repeat split; congruence. Qed.
