(* ===== verification/Names.v ===== *)
(** * File names of a journal directory (segment.rs and spare.rs)

    A segment file is named after the first batch it holds
    ([segment_name]), a spare after the open generation that named it
    ([spare_name]), and a crashed creation leaves a segment name with the
    suffix ".tmp" ([is_segment_leftover]).  An open classifies every name of
    the directory with the three predicates modelled here.

    A name is a list of ASCII characters. *)

From S2P Require Import Prelude Format.
From Stdlib Require Import Ascii.
From Stdlib Require String.

Abbreviation str := (list ascii).
Definition lit (s : string) : str := Stdlib.Strings.String.list_ascii_of_string s.

(** ** Decimal digits *)

Definition digit (d : Z) : ascii := ascii_of_N (Z.to_N (48 + d)).
Definition digit_value (c : ascii) : Z := Z.of_N (N_of_ascii c) - 48.
Definition is_ascii_digit (c : ascii) : bool :=
  (0 <=? digit_value c) && (digit_value c <=? 9).

(** [format!("{z:0w}")] for a value below [10^w] *)
Fixpoint dec (w : nat) (z : Z) : str :=
  match w with
  | O => []
  | S w => dec w (z / 10) ++ [digit (z mod 10)]
  end.

(** [str::parse::<u64>] on a string of digits: overflow is an error. *)
Fixpoint parse_u64_from (acc : Z) (s : str) : option Z :=
  match s with
  | [] => Some acc
  | c :: s =>
      let acc := acc * 10 + digit_value c in
      if u64_max <? acc then None else parse_u64_from acc s
  end.
Definition parse_u64 (s : str) : option Z := parse_u64_from 0 s.

(** ** [str] methods *)

Fixpoint strip_prefix (p s : str) : option str :=
  match p, s with
  | [], s => Some s
  | a :: p, b :: s => if decide (a = b) then strip_prefix p s else None
  | _ :: _, [] => None
  end.

Definition strip_suffix (p s : str) : option str :=
  match strip_prefix (reverse p) (reverse s) with
  | Some r => Some (reverse r)
  | None => None
  end.

(** [split_once(c)]: before and after the first [c] *)
Fixpoint split_once (c : ascii) (s : str) : option (str * str) :=
  match s with
  | [] => None
  | x :: s =>
      if decide (x = c) then Some ([], s)
      else match split_once c s with Some (a, b) => Some (x :: a, b) | None => None end
  end.

(** ** Segments *)

Definition SEG_PREFIX : str := lit "seg-".
Definition SUFFIX : str := lit ".wal".
Definition TMP_SUFFIX : str := lit ".tmp".

Definition segment_name (first_batch : Z) : str :=
  SEG_PREFIX ++ dec 20 first_batch ++ SUFFIX.

Definition parse_segment_name (name : str) : option Z :=
  let* rest := strip_prefix SEG_PREFIX name in
  let* digits := strip_suffix SUFFIX rest in
  if negb (len digits =? 20) || negb (forallb is_ascii_digit digits) then None
  else parse_u64 digits.

Definition is_segment_leftover (name : str) : bool :=
  match strip_suffix TMP_SUFFIX name with
  | Some s => bool_decide (is_Some (parse_segment_name s))
  | None => false
  end.

(** ** Spares *)

Definition SPARE_PREFIX : str := lit "spare-".

Definition spare_name (generation number : Z) : str :=
  SPARE_PREFIX ++ dec 10 generation ++ lit "-" ++ dec 10 number ++ SUFFIX.

Definition ten_digits (part : str) : bool :=
  (len part =? 10) && forallb is_ascii_digit part.

Definition is_spare (name : str) : bool :=
  match
    (let* rest := strip_prefix SPARE_PREFIX name in
     let* rest := strip_suffix SUFFIX rest in
     split_once "-"%char rest)
  with
  | Some (generation, number) => ten_digits generation && ten_digits number
  | None => false
  end.

(** ** Lemmas *)

Lemma digit_value_digit d : 0 ≤ d < 10 → digit_value (digit d) = d.
Proof.
  intros. unfold digit_value, digit. rewrite N_ascii_embedding by lia. lia.
Qed.

Lemma is_ascii_digit_digit d : 0 ≤ d < 10 → is_ascii_digit (digit d) = true.
Proof. intros. unfold is_ascii_digit. rewrite digit_value_digit by done. lia. Qed.

Lemma digit_digit_value c : is_ascii_digit c = true → digit (digit_value c) = c.
Proof.
  unfold is_ascii_digit, digit, digit_value. intros H.
  replace (Z.to_N (48 + (Z.of_N (N_of_ascii c) - 48))) with (N_of_ascii c) by lia.
  apply ascii_N_embedding.
Qed.

Lemma len_dec w z : len (dec w z) = Z.of_nat w.
Proof. revert z. induction w; intros; simpl; [done|]. rewrite len_app, IHw, len_cons, len_nil. lia. Qed.

Lemma dec_digits w z : forallb is_ascii_digit (dec w z) = true.
Proof.
  revert z. induction w as [|w IH]; intros; [done|].
  cbn [dec]. rewrite forallb_app, IH. cbn [forallb].
  rewrite is_ascii_digit_digit by (apply Z.mod_pos_bound; lia). done.
Qed.

Lemma parse_u64_from_app acc s t :
  parse_u64_from acc (s ++ t) =
  match parse_u64_from acc s with Some a => parse_u64_from a t | None => None end.
Proof.
  revert acc. induction s as [|c s IH]; intros; [done|]. cbn. case_match; [done|]. apply IH.
Qed.

Lemma parse_u64_dec w z : u64 z → z < 10 ^ Z.of_nat w → parse_u64 (dec w z) = Some z.
Proof.
  unfold parse_u64. revert z. induction w as [|w IH]; intros z Hz Hw; cbn [dec].
  - cbn. f_equal. unfold in_u in Hz. cbn in Hw. lia.
  - rewrite Nat2Z.inj_succ, Z.pow_succ_r in Hw by lia.
    pose proof (Z.div_mod z 10 ltac:(lia)). pose proof (Z.mod_pos_bound z 10 ltac:(lia)).
    unfold in_u in *.
    rewrite parse_u64_from_app, IH by lia. cbn [parse_u64_from].
    rewrite digit_value_digit by done.
    rewrite (proj2 (Z.ltb_ge _ _)) by (unfold u64_max; lia). f_equal. lia.
Qed.

(** A digit string is the decimal rendering of the number it parses to. *)
Lemma parse_u64_dec_inv s z :
  forallb is_ascii_digit s = true → parse_u64 s = Some z → u64 z ∧ s = dec (length s) z.
Proof.
  unfold parse_u64. revert z. induction s as [|c s IH] using rev_ind; intros z Hd Hp.
  - cbn in *. injection Hp as <-. split; [|done]. unfold in_u. lia.
  - rewrite forallb_app in Hd. apply andb_true_iff in Hd as [Hd Hc].
    cbn in Hc. rewrite andb_true_r in Hc.
    rewrite parse_u64_from_app in Hp.
    destruct (parse_u64_from 0 s) as [a|] eqn:Ea; [|done].
    destruct (IH a Hd eq_refl) as [Ha Hs]. cbn [parse_u64_from] in Hp.
    pose proof Hc as Hv. unfold is_ascii_digit in Hv.
    destruct (Z.ltb_spec u64_max (a * 10 + digit_value c)); [done|]. injection Hp as <-.
    unfold u64_max, in_u in *. split; [lia|].
    rewrite length_app, Nat.add_comm. cbn [length Nat.add dec].
    replace (a * 10 + digit_value c) with (digit_value c + a * 10) by lia.
    rewrite Z.div_add, Z.mod_add, Z.div_small, Z.mod_small by lia.
    rewrite Z.add_0_l, <- Hs, digit_digit_value by done. done.
Qed.

Lemma strip_prefix_Some p s r : strip_prefix p s = Some r ↔ s = p ++ r.
Proof.
  revert s. induction p as [|a p IH]; intros s; cbn; [naive_solver|].
  destruct s as [|b s]; [naive_solver|]. case_decide.
  - subst. rewrite IH. naive_solver.
  - naive_solver.
Qed.

Lemma strip_suffix_Some p s r : strip_suffix p s = Some r ↔ s = r ++ p.
Proof.
  unfold strip_suffix. split.
  - case_match eqn:E; [|done]. intros [= <-]. apply strip_prefix_Some in E.
    rewrite <- (reverse_involutive s), E, reverse_app, reverse_involutive. done.
  - intros ->. rewrite reverse_app.
    destruct (strip_prefix _ _) as [q|] eqn:E.
    + apply strip_prefix_Some, app_inv_head in E. rewrite <- E.
      by rewrite reverse_involutive.
    + pose proof (proj2 (strip_prefix_Some (reverse p) (reverse p ++ reverse r) _) eq_refl).
      congruence.
Qed.

Lemma dec_no_dash w z : "-"%char ∉ dec w z.
Proof.
  intros H. pose proof (dec_digits w z) as D. rewrite forallb_forall in D.
  apply list_elem_of_In, D in H. done.
Qed.

Lemma segment_name_no_slash b : "/"%char ∉ segment_name b.
Proof.
  unfold segment_name. rewrite !elem_of_app.
  intros [H|[H|H]]; [by vm_compute in H; set_solver| |by vm_compute in H; set_solver].
  pose proof (dec_digits 20 b) as D. rewrite forallb_forall in D.
  apply list_elem_of_In, D in H. done.
Qed.

Lemma split_once_app c s t : c ∉ s → split_once c (s ++ c :: t) = Some (s, t).
Proof.
  induction s as [|x s IH]; intros H; cbn.
  - by rewrite decide_True.
  - rewrite decide_False by set_solver. rewrite IH by set_solver. done.
Qed.

Lemma parse_segment_name_segment_name b : u64 b → parse_segment_name (segment_name b) = Some b.
Proof.
  intros Hb. unfold parse_segment_name, segment_name.
  rewrite (proj2 (strip_prefix_Some _ _ _) eq_refl). cbn [mbind option_bind].
  rewrite (proj2 (strip_suffix_Some _ _ _) eq_refl). cbn [mbind option_bind].
  rewrite len_dec, dec_digits. cbn [negb orb].
  apply parse_u64_dec; [done|]. unfold in_u in Hb. cbn. lia.
Qed.

Lemma parse_segment_name_Some name b :
  parse_segment_name name = Some b → u64 b ∧ name = segment_name b.
Proof.
  unfold parse_segment_name, segment_name. intros H.
  destruct (strip_prefix SEG_PREFIX name) as [r|] eqn:E1; [|done].
  cbn [mbind option_bind] in H. apply strip_prefix_Some in E1 as ->.
  destruct (strip_suffix SUFFIX r) as [d|] eqn:E2; [|done].
  cbn [mbind option_bind] in H. apply strip_suffix_Some in E2 as ->.
  destruct (Z.eqb_spec (len d) 20) as [Hl|]; [|done].
  destruct (forallb is_ascii_digit d) eqn:Hd; [|done]. cbn in H.
  apply parse_u64_dec_inv in H as [Hu Hs]; [|done]. split; [done|].
  replace (length d) with 20%nat in Hs by (unfold len in Hl; lia). by rewrite Hs at 1.
Qed.

Lemma is_spare_spare_name g n : is_spare (spare_name g n) = true.
Proof.
  unfold is_spare, spare_name.
  rewrite (proj2 (strip_prefix_Some _ _ _) eq_refl). cbn [mbind option_bind].
  replace (dec 10 g ++ lit "-" ++ dec 10 n ++ SUFFIX)
    with ((dec 10 g ++ "-"%char :: dec 10 n) ++ SUFFIX)
    by (rewrite <- app_assoc; done).
  rewrite (proj2 (strip_suffix_Some _ _ _) eq_refl). cbn [mbind option_bind].
  rewrite split_once_app by apply dec_no_dash. unfold ten_digits.
  by rewrite !len_dec, !dec_digits.
Qed.

Lemma is_spare_prefix name : is_spare name = true → ∃ r, name = SPARE_PREFIX ++ r.
Proof.
  unfold is_spare. destruct (strip_prefix SPARE_PREFIX name) as [r|] eqn:E; [|done].
  apply strip_prefix_Some in E. eauto.
Qed.

Lemma is_segment_leftover_true name :
  is_segment_leftover name = true ↔ ∃ b, u64 b ∧ name = segment_name b ++ TMP_SUFFIX.
Proof.
  unfold is_segment_leftover. split.
  - destruct (strip_suffix TMP_SUFFIX name) as [s|] eqn:E; [|done].
    rewrite bool_decide_eq_true. intros [b Hb]. apply strip_suffix_Some in E as ->.
    apply parse_segment_name_Some in Hb as [Hu ->]. eauto.
  - intros (b & Hu & ->). rewrite (proj2 (strip_suffix_Some _ _ _) eq_refl).
    rewrite bool_decide_eq_true, parse_segment_name_segment_name by done. eauto.
Qed.

(** ** Properties of the names *)

Lemma segment_name_not_spare b r : segment_name b ≠ SPARE_PREFIX ++ r.
Proof. by intros [=]. Qed.

Lemma segment_name_not_leftover b c : segment_name b ≠ segment_name c ++ TMP_SUFFIX.
Proof.
  intros H. apply (f_equal len) in H. revert H. unfold segment_name.
  rewrite !len_app, !len_dec. change (len TMP_SUFFIX) with 4. lia.
Qed.

(** A segment's name and its first batch determine each other, and no two
    batches share a name: the name parses to the batch, and a name that
    parses is the one the batch gives, no other spelling of it. *)
Theorem segment_name_round_trip name b :
  parse_segment_name name = Some b ↔ u64 b ∧ name = segment_name b.
Proof.
  split; [apply parse_segment_name_Some|]. intros [Hu ->]. by apply parse_segment_name_segment_name.
Qed.

(** The three kinds of names a journal's directory holds are told apart:
    a segment's name is no spare's and no leftover's, a spare's is a spare's
    and neither of the others, a leftover is the temporary name of exactly
    one segment. *)
Theorem names_are_disjoint b g n name :
  u64 b →
  is_spare (segment_name b) = false ∧ is_segment_leftover (segment_name b) = false ∧
  is_spare (spare_name g n) = true ∧ parse_segment_name (spare_name g n) = None ∧
  is_segment_leftover (spare_name g n) = false ∧
  (is_segment_leftover name = true ↔ ∃ b', u64 b' ∧ name = segment_name b' ++ TMP_SUFFIX).
Proof.
  intros Hb. split_and!; [| |apply is_spare_spare_name| | |apply is_segment_leftover_true].
  - apply not_true_is_false. intros [r Hr]%is_spare_prefix. by eapply segment_name_not_spare.
  - apply not_true_is_false. intros (c & _ & Hc)%is_segment_leftover_true.
    by eapply segment_name_not_leftover.
  - destruct (parse_segment_name (spare_name g n)) eqn:E; [|done].
    apply parse_segment_name_Some in E as [_ [=]].
  - apply not_true_is_false. intros (c & _ & Hc)%is_segment_leftover_true. by injection Hc.
Qed.
