(* ===== verification/Storage.v ===== *)
(** * The storage contract (crates/moonpool-core/src/storage/mod.rs, block.rs)

    Code is written against the provider traits [StorageProvider] and
    [StorageFile].  This file gives the traits' documented contract a
    semantics: a [World] of named files, and one function per trait method.

    - A completed write is visible, not durable; [sync_all]/[sync_data] make
      the completed writes durable; [write_at_durable] makes its own bytes
      durable and nothing else.  A file therefore keeps the bytes readers see
      ([f_vis]), the bytes the device holds ([f_dur]) and which bytes of
      the two may differ: [f_dirty] (the next successful sync flushes them)
      and [f_lost] (a failed sync marked them clean without writing them:
      no later sync flushes them, only writing them again does).  A sync
      that fails does one of two things with the dirty bytes, and the fault
      says which: it keeps them in the cache, as lost bytes, or it drops
      them, and readers see what the device holds again.
    - A transfer may be short, and may fail; which ones do is an argument of
      the world, [w_faults], one entry per call, so theorems quantify over
      every fault schedule.  An error says nothing either way: a failing
      write may have landed a prefix.
    - A name is durable only once its directory was synced ([w_dur_names]).
    - A read of a block the medium cannot deliver ([f_bad]) fails.
    - Alignment is the file's [IoConstraints]; a misaligned request is
      refused with [InvalidInput].

    [w_trace] records the completed effects in order: it is what ordering
    theorems talk about.

    [BlockFile] (block.rs) is modelled on top: whole-block transfers that
    resume short ones. *)

From stdpp Require Import sorting.
From Stdlib Require Import Ascii.
From S2P Require Import Prelude Format Names.
#[local] Open Scope Z_scope.

(** A handle names an open file. *)
Abbreviation Handle := positive.

(** ** The I/O monad *)

(** [io::ErrorKind], the kinds the code distinguishes or returns *)
Inductive ErrorKind :=
  | NotFound | AlreadyExistsKind | InvalidInput | UnexpectedEof | InvalidData
  | WriteZero | StorageFull | OtherKind.

#[global] Instance ErrorKind_eq_dec : EqDecision ErrorKind.
Proof. solve_decision. Defined.

(** storage/align.rs, [IoConstraints]: offset, length and memory alignment *)
Record IoConstraints := mkConstraints {
  c_offset : Z;
  c_length : Z;
  c_memory : Z;
}.

Definition IoConstraints_NONE : IoConstraints := mkConstraints 1 1 1.

Definition is_power_of_two (z : Z) : Prop := ∃ k, 0 ≤ k ∧ z = 2 ^ k.

Definition wf_constraints (c : IoConstraints) : Prop :=
  is_power_of_two (c_offset c) ∧ is_power_of_two (c_length c) ∧ is_power_of_two (c_memory c).

(** [IoConstraints::check] on the offset and the length of a transfer; the
    address of a buffer is not part of the model. *)
Definition IoConstraints_check (c : IoConstraints) (offset length : Z) : bool :=
  (offset mod c_offset c =? 0) && (length mod c_length c =? 0).

Record File := mkFile {
  f_vis : list byte;
  f_dur : list byte;
  f_dirty : Z → bool;
  f_lost : Z → bool;
  f_bad : gset Z;
  f_align : IoConstraints;
}.

(** The outcome the environment picks for one call.  [Fail]'s [landed] is,
    of a failing write, how many bytes landed, and of a failing sync, whether
    the cache was reverted (zero: it was not). *)
Inductive Fault :=
  | Full
  | Short (n : Z)
  | Fail (kind : ErrorKind) (landed : Z).

(** storage/layout.rs, [LayoutRegion]: one named byte range of one file *)
Record LayoutRegion := mkLayoutRegion {
  lr_path : str;
  lr_start : Z;
  lr_end : Z;
  lr_kind : string;
  lr_stripe : option Z;
  lr_shard : option str;
}.

(** [LayoutRegion::striped], [sharded] and [overlaps] *)
Definition striped (self : LayoutRegion) (stripe : option Z) : LayoutRegion :=
  mkLayoutRegion (lr_path self) (lr_start self) (lr_end self) (lr_kind self) stripe
    (lr_shard self).
Definition sharded (self : LayoutRegion) (name : option str) : LayoutRegion :=
  mkLayoutRegion (lr_path self) (lr_start self) (lr_end self) (lr_kind self)
    (lr_stripe self) name.
Definition overlaps (self : LayoutRegion) (path : str) (start end_ : Z) : bool :=
  bool_decide (lr_path self = path) && (lr_start self <? end_) && (start <? lr_end self).

(** Completed effects; [Ev_publish] is [publish_store_layout]. *)
Inductive Event :=
  | Ev_write (h : Handle) (offset : Z) (bytes : list byte)
  | Ev_write_durable (h : Handle) (offset : Z) (bytes : list byte)
  | Ev_sync (h : Handle)
  | Ev_rename (from to : str)
  | Ev_delete (path : str)
  | Ev_create (path : str)
  | Ev_sync_dir (dir : str)
  | Ev_publish (dir : str) (regions : list LayoutRegion).

Record World := mkWorld {
  w_dirs : gset str;
  w_names : gmap str Handle;
  w_dur_names : gmap str Handle;
  w_files : gmap Handle File;
  w_faults : list Fault;
  w_trace : list Event;
}.

Definition IO (E A : Type) : Type := World → res E A * World.

Definition io_ret {E A} (a : A) : IO E A := fun w => (Ok a, w).
Definition io_err {E A} (e : E) : IO E A := fun w => (Err e, w).
Definition io_panic {E A} : IO E A := fun w => (Panic, w).
Definition io_bind {E A B} (m : IO E A) (k : A → IO E B) : IO E B :=
  fun w => match m w with
           | (Ok a, w) => k a w
           | (Err e, w) => (Err e, w)
           | (Panic, w) => (Panic, w)
           end.
(** [m.await.map_err(f)] *)
Definition io_map_err {E F A} (f : E → F) (m : IO E A) : IO F A :=
  fun w => let (r, w) := m w in (map_err f r, w).
(** [match m.await { r => k(r) }]: run [m] and look at its result *)
Definition io_try {E F A B} (m : IO E A) (k : A + E → IO F B) : IO F B :=
  fun w => match m w with
           | (Ok a, w) => k (inl a) w
           | (Err e, w) => k (inr e) w
           | (Panic, w) => (Panic, w)
           end.
Definition io_expect {E A} (o : option A) : IO E A :=
  match o with Some a => io_ret a | None => io_panic end.
(** [assert!] *)
Definition io_assert {E} (b : bool) : IO E () := if b then io_ret tt else io_panic.

Notation "'let!' x ':=' m 'in' k" := (io_bind m (fun x => k))
  (at level 10, x binder, m at level 100, k at level 200) : rust_scope.
Notation "m ';!' k" := (io_bind m (fun _ => k))
  (at level 65, k at level 200, right associativity) : rust_scope.

(** ** Faults and trace *)

Definition next_fault : IO ErrorKind Fault := fun w =>
  match w_faults w with
  | [] => (Ok Full, w)
  | f :: fs => (Ok f, mkWorld (w_dirs w) (w_names w) (w_dur_names w) (w_files w) fs (w_trace w))
  end.

Definition emit (e : Event) : IO ErrorKind () := fun w =>
  (Ok tt, mkWorld (w_dirs w) (w_names w) (w_dur_names w) (w_files w) (w_faults w)
            (w_trace w ++ [e])).

(** The handle of an open file always denotes a file. *)
Definition get_file (h : Handle) : IO ErrorKind File := fun w =>
  match w_files w !! h with Some f => (Ok f, w) | None => (Err NotFound, w) end.

Definition set_file (h : Handle) (f : File) : IO ErrorKind () := fun w =>
  (Ok tt, mkWorld (w_dirs w) (w_names w) (w_dur_names w) (<[h := f]> (w_files w))
            (w_faults w) (w_trace w)).

Definition set_names (names : gmap str Handle) : IO ErrorKind () := fun w =>
  (Ok tt, mkWorld (w_dirs w) names (w_dur_names w) (w_files w) (w_faults w) (w_trace w)).

Definition get_world : IO ErrorKind World := fun w => (Ok w, w).

(** ** Files *)

Definition within (a b i : Z) : bool := (a <=? i) && (i <? b).

(** [buf] grown with zeros to at least [n] bytes. *)
Definition grow (l : list byte) (n : Z) : list byte := l ++ zeros (n - len l).

(** Bytes [k] written at [a], past the end growing the file. *)
Definition write_bytes (l : list byte) (a : Z) (k : list byte) : list byte :=
  match k with [] => l | _ => splice (grow l (a + len k)) a k end.

Definition file_write (f : File) (a : Z) (k : list byte) : File :=
  let end_ := a + len k in
  mkFile (write_bytes (f_vis f) a k) (f_dur f)
    (fun i => within a end_ i || f_dirty f i)
    (fun i => f_lost f i && negb (within a end_ i))
    (f_bad f) (f_align f).

Definition file_write_durable (f : File) (a : Z) (k : list byte) : File :=
  let end_ := a + len k in
  mkFile (write_bytes (f_vis f) a k) (write_bytes (f_dur f) a k)
    (fun i => f_dirty f i && negb (within a end_ i))
    (fun i => f_lost f i && negb (within a end_ i))
    (f_bad f) (f_align f).

(** The device's bytes after a successful sync: every byte but the lost ones
    reaches it. *)
Fixpoint flush (lost : Z → bool) (i : Z) (vis dur : list byte) : list byte :=
  match vis with
  | [] => []
  | b :: vis => (if lost i then default x00 (head dur) else b) :: flush lost (i + 1) vis (tail dur)
  end.

Definition file_sync (f : File) : File :=
  mkFile (f_vis f)
    (flush (f_lost f) 0 (f_vis f) (f_dur f))
    (fun _ => false) (f_lost f) (f_bad f) (f_align f).

(** A failed sync (fsyncgate) that keeps the cache: the dirty bytes are
    marked clean, and the device may not hold them. *)
Definition file_sync_failed (f : File) : File :=
  mkFile (f_vis f) (f_dur f) (fun _ => false)
    (fun i => f_lost f i || f_dirty f i) (f_bad f) (f_align f).

(** The visible bytes once the dirty ones are dropped from the cache: the
    device's, as far as it has any. *)
Fixpoint revert_bytes (dirty : Z → bool) (i : Z) (vis dur : list byte) : list byte :=
  match vis with
  | [] => []
  | b :: vis =>
      (if dirty i then default b (head dur) else b) :: revert_bytes dirty (i + 1) vis (tail dur)
  end.

(** A failed sync that reverts the cache; dirty bytes behind the end of the
    device's bytes have nothing to go back to and stay, lost. *)
Definition file_sync_reverted (f : File) : File :=
  mkFile (revert_bytes (f_dirty f) 0 (f_vis f) (f_dur f)) (f_dur f) (fun _ => false)
    (fun i => f_lost f i || (f_dirty f i && within (len (f_dur f)) (len (f_vis f)) i)) (f_bad f) (f_align f).

Definition file_sync_error (revert : bool) : File → File :=
  if revert then file_sync_reverted else file_sync_failed.

Definition file_len (f : File) : Z := len (f_vis f).

(** Whether a byte range lies on a block the medium cannot deliver. *)
Definition unreadable (f : File) (a b : Z) : bool :=
  (a <? b) &&
  existsb (fun i => bool_decide (a / BLOCK + Z.of_nat i ∈ f_bad f))
    (seq 0 (Z.to_nat ((b - 1) / BLOCK - a / BLOCK + 1))).

(** How many of [avail] bytes a call moves: never zero when some remain. *)
Definition moved (fault : Fault) (avail : Z) : Z :=
  match fault with
  | Short n => if avail <=? 0 then 0 else Z.max 1 (Z.min n avail)
  | _ => Z.max 0 avail
  end.

(** [StorageFile::read_at]: the bytes read, possibly fewer than asked *)
Definition read_at (h : Handle) (offset n : Z) : IO ErrorKind (list byte) :=
  let! f := get_file h in
  let! fault := next_fault in
  if negb (IoConstraints_check (f_align f) offset n) then io_err InvalidInput else
  match fault with
  | Fail kind _ => io_err kind
  | _ =>
      let avail := Z.min n (file_len f - offset) in
      let got := moved fault avail in
      if unreadable f offset (offset + got) then io_err OtherKind
      else io_ret (slice (f_vis f) offset (offset + got))
  end.

(** [StorageFile::write_at]: the number of bytes written *)
Definition write_at (h : Handle) (offset : Z) (buf : list byte) : IO ErrorKind Z :=
  let! f := get_file h in
  let! fault := next_fault in
  if negb (IoConstraints_check (f_align f) offset (len buf)) then io_err InvalidInput else
  match fault with
  | Fail kind landed =>
      set_file h (file_write f offset (slice buf 0 landed)) ;! io_err kind
  | _ =>
      let n := moved fault (len buf) in
      set_file h (file_write f offset (slice buf 0 n)) ;!
      emit (Ev_write h offset (slice buf 0 n)) ;!
      io_ret n
  end.

(** [StorageFile::write_at_durable].  An error says nothing either way: the
    landed prefix is visible, and not durable. *)
Definition write_at_durable (h : Handle) (offset : Z) (buf : list byte) : IO ErrorKind Z :=
  let! f := get_file h in
  let! fault := next_fault in
  if negb (IoConstraints_check (f_align f) offset (len buf)) then io_err InvalidInput else
  match fault with
  | Fail kind landed =>
      set_file h (file_write f offset (slice buf 0 landed)) ;! io_err kind
  | _ =>
      let n := moved fault (len buf) in
      set_file h (file_write_durable f offset (slice buf 0 n)) ;!
      emit (Ev_write_durable h offset (slice buf 0 n)) ;!
      io_ret n
  end.

(** [StorageFile::sync_data] and [sync_all]; the model's files make no
    difference between data and length. *)
Definition sync_file (h : Handle) : IO ErrorKind () :=
  let! f := get_file h in
  let! fault := next_fault in
  match fault with
  | Fail kind landed =>
      set_file h (file_sync_error (negb (landed =? 0)) f) ;! io_err kind
  | _ => set_file h (file_sync f) ;! emit (Ev_sync h)
  end.

(** [StorageFile::size] *)
Definition file_size (h : Handle) : IO ErrorKind Z :=
  let! f := get_file h in
  let! fault := next_fault in
  match fault with
  | Fail kind _ => io_err kind
  | _ => io_ret (file_len f)
  end.

(** [StorageFile::allocate]: grow with zeros, never shrink; a full disk
    fails here *)
Definition allocate (h : Handle) (n : Z) : IO ErrorKind () :=
  let! f := get_file h in
  let! fault := next_fault in
  match fault with
  | Fail kind _ => io_err kind
  | _ => set_file h (mkFile (grow (f_vis f) n) (f_dur f)
           (fun i => within (file_len f) n i || f_dirty f i) (f_lost f) (f_bad f) (f_align f))
  end.

(** ** The namespace *)

(** [StorageProvider::open] of an existing file *)
Definition open_existing (path : str) : IO ErrorKind Handle :=
  let! fault := next_fault in
  match fault with
  | Fail kind _ => io_err kind
  | _ => let! w := get_world in
         match w_names w !! path with Some h => io_ret h | None => io_err NotFound end
  end.

(** [OpenOptions::create_new_write()]: the file must not exist *)
Definition open_create_new (path : str) : IO ErrorKind Handle :=
  let! fault := next_fault in
  match fault with
  | Fail kind _ => io_err kind
  | _ =>
      let! w := get_world in
      match w_names w !! path with
      | Some _ => io_err AlreadyExistsKind
      | None =>
          let h := fresh (dom (w_files w)) in
          set_file h (mkFile [] [] (fun _ => false) (fun _ => false) ∅ IoConstraints_NONE) ;!
          set_names (<[path := h]> (w_names w)) ;!
          emit (Ev_create path) ;!
          io_ret h
      end
  end.

Definition exists_ (path : str) : IO ErrorKind bool :=
  let! fault := next_fault in
  match fault with
  | Fail kind _ => io_err kind
  | _ => let! w := get_world in io_ret (bool_decide (is_Some (w_names w !! path)))
  end.

(** An unlink frees the name; the file lives on while it has another. *)
Definition delete_ (path : str) : IO ErrorKind () :=
  let! fault := next_fault in
  match fault with
  | Fail kind _ => io_err kind
  | _ => let! w := get_world in
         match w_names w !! path with
         | None => io_err NotFound
         | Some _ => set_names (delete path (w_names w)) ;! emit (Ev_delete path)
         end
  end.

Definition rename (from to : str) : IO ErrorKind () :=
  let! fault := next_fault in
  match fault with
  | Fail kind _ => io_err kind
  | _ => let! w := get_world in
         match w_names w !! from with
         | None => io_err NotFound
         | Some h => set_names (<[to := h]> (delete from (w_names w))) ;! emit (Ev_rename from to)
         end
  end.

(** [format!("{dir}/{name}")] *)
Definition path_in (dir name : str) : str := dir ++ lit "/" ++ name.

(** The name of [path] directly under [dir], if it is there. *)
Definition name_in (dir path : str) : option str :=
  match strip_prefix (dir ++ lit "/") path with
  | Some n => if bool_decide ("/"%char ∈ n) then None else Some n
  | None => None
  end.

(** Byte order on names, the order of a sorted listing. *)
Fixpoint str_leb (a b : str) : bool :=
  match a, b with
  | [], _ => true
  | _ :: _, [] => false
  | x :: a, y :: b =>
      let x := Ascii.N_of_ascii x in let y := Ascii.N_of_ascii y in
      if (x =? y)%N then str_leb a b else (x <? y)%N
  end.
Definition str_le (a b : str) : Prop := str_leb a b = true.
#[global] Instance str_le_dec : RelDecision str_le.
Proof. intros a b. unfold str_le. apply _. Defined.

(** [StorageProvider::list_dir]: the visible names, sorted *)
Definition list_dir (dir : str) : IO ErrorKind (list str) :=
  let! fault := next_fault in
  match fault with
  | Fail kind _ => io_err kind
  | _ => let! w := get_world in
         if bool_decide (dir ∈ w_dirs w)
         then io_ret (merge_sort str_le (omap (name_in dir) (elements (dom (w_names w)))))
         else io_err NotFound
  end.

(** [StorageProvider::sync_dir]: the names under [dir] become durable *)
Definition sync_dir (dir : str) : IO ErrorKind () :=
  let! fault := next_fault in
  match fault with
  | Fail kind _ => io_err kind
  | _ => (fun w =>
      (Ok tt, mkWorld (w_dirs w) (w_names w)
        (filter (fun x => is_Some (name_in dir x.1)) (w_names w) ∪
         filter (fun x => name_in dir x.1 = None) (w_dur_names w))
        (w_files w) (w_faults w) (w_trace w ++ [Ev_sync_dir dir])))
  end.

Definition create_dir_all (dir : str) : IO ErrorKind () :=
  let! fault := next_fault in
  match fault with
  | Fail kind _ => io_err kind
  | _ => (fun w => (Ok tt, mkWorld ({[dir]} ∪ w_dirs w) (w_names w) (w_dur_names w)
                     (w_files w) (w_faults w) (w_trace w)))
  end.

(** ** Block files (block.rs) *)

Record BlockFile := mkBlockFile {
  bf_file : Handle;
  bf_block_size : Z;
  bf_step : Z;
}.

(** [BlockFile::new] *)
Definition BlockFile_new (file : Handle) (block_size : Z) : IO ErrorKind BlockFile :=
  if block_size =? 0 then io_err InvalidInput else
  let! f := get_file file in
  let c := f_align f in
  if negb (block_size mod c_length c =? 0) then io_err InvalidInput else
  if negb (block_size mod c_offset c =? 0) then io_err InvalidInput else
  io_ret (mkBlockFile file block_size (Z.max (Z.max (c_offset c) (c_length c)) (c_memory c))).

(** [BlockFile::range]: the byte range of a transfer, checked for overflow *)
Definition BlockFile_range (bf : BlockFile) (block_index l : Z) : res ErrorKind Z :=
  if (l =? 0) || negb (l mod bf_block_size bf =? 0) then Err InvalidInput else
  if u64_max <? block_index * bf_block_size bf then Err InvalidInput else
  let start := block_index * bf_block_size bf in
  if u64_max <? start + l then Err InvalidInput else Ok start.

Definition io_res {A} (r : res ErrorKind A) : IO ErrorKind A := fun w => (r, w).

(** [offset & !(transfer_step - 1)] *)
Definition align_down (bf : BlockFile) (offset : Z) : Z :=
  Z.land offset (Z.lnot (bf_step bf - 1)).

(** [BlockFile::stalled_read_error]: the file ended, or its short transfers
    cannot be resumed *)
Definition stalled_read_error {A} (bf : BlockFile) (block_index l : Z) : IO ErrorKind A :=
  let start := Z.min u64_max (block_index * bf_block_size bf) in
  let end_ := Z.min u64_max (start + l) in
  io_try (file_size (bf_file bf)) (fun r =>
    match r with
    | inl size => if end_ <=? size then io_err InvalidData else io_err UnexpectedEof
    | inr _ => io_err UnexpectedEof
    end).

(** [BlockFile::advance] *)
Definition advance (done from moved : Z) : res ErrorKind Z :=
  let reached := from + moved in
  if reached <=? done then Err InvalidData else Ok reached.

(** [BlockFile::read_from]: fill [buf] from [done] on.  [fuel] bounds the
    loop; running out is a panic, which [read_from_spec] excludes. *)
Fixpoint read_from (fuel : nat) (bf : BlockFile) (block_index start : Z)
    (buf : list byte) (done : Z) : IO ErrorKind (list byte) :=
  if len buf <=? done then io_ret buf else
  match fuel with
  | O => io_panic
  | S fuel =>
      let from := align_down bf done in
      let! got := read_at (bf_file bf) (start + from) (len buf - from) in
      let reached := from + len got in
      let buf := splice buf from got in
      if reached <=? done then stalled_read_error bf block_index (len buf)
      else read_from fuel bf block_index start buf reached
  end.

(** [BlockFile::read_blocks], into a buffer of [l] bytes *)
Definition read_blocks_exact (bf : BlockFile) (block_index l : Z) : IO ErrorKind (list byte) :=
  let! start := io_res (BlockFile_range bf block_index l) in
  read_from (S (Z.to_nat l)) bf block_index start (zeros l) 0.

(** [BlockFile::read_blocks_aligned]: one owned request, then the loop *)
Definition read_blocks_aligned (bf : BlockFile) (block_index l : Z) :
    IO ErrorKind (list byte) :=
  let! start := io_res (BlockFile_range bf block_index l) in
  let! got := read_at (bf_file bf) start l in
  if len got =? 0 then stalled_read_error bf block_index l else
  let buf := splice (zeros l) 0 got in
  if len got <? l then read_from (S (Z.to_nat l)) bf block_index start buf (len got)
  else io_ret buf.

(** [BlockFile::transfer_from]: write [buf] from [done] on *)
Fixpoint transfer_from (fuel : nat) (bf : BlockFile) (block_index start : Z)
    (buf : list byte) (done : Z) (durable : bool) : IO ErrorKind () :=
  if len buf <=? done then io_ret tt else
  match fuel with
  | O => io_panic
  | S fuel =>
      let from := align_down bf done in
      let at_ := start + from in
      let rest := slice buf from (len buf) in
      let! n := (if durable then write_at_durable (bf_file bf) at_ rest
                 else write_at (bf_file bf) at_ rest) in
      if n =? 0 then io_err WriteZero else
      let! done := io_res (advance done from n) in
      transfer_from fuel bf block_index start buf done durable
  end.

(** [BlockFile::transfer_blocks_owned], behind [write_blocks_aligned] and
    [write_blocks_durable_aligned] *)
Definition transfer_blocks_owned (bf : BlockFile) (block_index : Z) (buf : list byte)
    (durable : bool) : IO ErrorKind () :=
  let! start := io_res (BlockFile_range bf block_index (len buf)) in
  let! n := (if durable then write_at_durable (bf_file bf) start buf
             else write_at (bf_file bf) start buf) in
  if n =? 0 then io_err WriteZero else
  let! done := io_res (advance 0 0 n) in
  if done <? len buf
  then transfer_from (S (length buf)) bf block_index start buf done durable
  else io_ret tt.

Definition write_blocks_aligned (bf : BlockFile) (i : Z) (buf : list byte) :=
  transfer_blocks_owned bf i buf false.
Definition write_blocks_durable_aligned (bf : BlockFile) (i : Z) (buf : list byte) :=
  transfer_blocks_owned bf i buf true.

Definition size_in_blocks (bf : BlockFile) : IO ErrorKind Z :=
  let! size := file_size (bf_file bf) in
  io_ret (size / bf_block_size bf).

(** ** Reasoning about runs *)

Definition with_faults (w : World) (fs : list Fault) : World :=
  mkWorld (w_dirs w) (w_names w) (w_dur_names w) (w_files w) fs (w_trace w).

(** The world after effects on the file [h] only. *)
Definition with_file (w : World) (h : Handle) (f : File) (fs : list Fault)
    (tr : list Event) : World :=
  mkWorld (w_dirs w) (w_names w) (w_dur_names w) (<[h := f]> (w_files w)) fs (w_trace w ++ tr).

Lemma with_faults_id w : with_faults w (w_faults w) = w.
Proof. by destruct w. Qed.

Lemma with_faults_with_faults w a b : with_faults (with_faults w a) b = with_faults w b.
Proof. done. Qed.

Lemma with_file_with_file w h f fs tr g gs ts :
  with_file (with_file w h f fs tr) h g gs ts = with_file w h g gs (tr ++ ts).
Proof. unfold with_file. cbn. by rewrite insert_insert_eq, app_assoc. Qed.

Lemma next_fault_spec w :
  ∃ f fs, next_fault w = (Ok f, with_faults w fs) ∧ (w_faults w = [] → f = Full ∧ fs = []).
Proof.
  unfold next_fault. destruct (w_faults w) as [|f fs] eqn:E.
  - exists Full, []. split; [|done]. by rewrite <- E, with_faults_id.
  - exists f, fs. done.
Qed.

Lemma next_fault_nil w : w_faults w = [] → next_fault w = (Ok Full, w).
Proof. unfold next_fault. by intros ->. Qed.

Lemma io_bind_ok {E A B} (m : IO E A) (k : A → IO E B) w a w' :
  m w = (Ok a, w') → io_bind m k w = k a w'.
Proof. intros H. unfold io_bind. by rewrite H. Qed.

Lemma io_bind_err {E A B} (m : IO E A) (k : A → IO E B) w e w' :
  m w = (Err e, w') → io_bind m k w = (Err e, w').
Proof. intros H. unfold io_bind. by rewrite H. Qed.

Lemma io_bind_inv {E A B} (m : IO E A) (k : A → IO E B) w b w' :
  io_bind m k w = (Ok b, w') → ∃ a w1, m w = (Ok a, w1) ∧ k a w1 = (Ok b, w').
Proof. unfold io_bind. destruct (m w) as [[a|e|] w1]; [eauto|done..]. Qed.

Lemma io_map_err_inv {E F A} (f : E → F) (m : IO E A) w a w' :
  io_map_err f m w = (Ok a, w') → m w = (Ok a, w').
Proof. unfold io_map_err. destruct (m w) as [[b|e|] w1]; [|done..]. cbn. by intros [= -> ->]. Qed.

Lemma get_file_ok h w f : w_files w !! h = Some f → get_file h w = (Ok f, w).
Proof. unfold get_file. by intros ->. Qed.

(** [io_run]: run a primitive whose outcome is known. *)
Ltac io_run :=
  repeat first
    [ erewrite io_bind_ok by (first [eassumption | eapply get_file_ok; eassumption | reflexivity])
    | erewrite io_bind_err by (first [eassumption | reflexivity]) ].

(** *** Equivalence of files: dirty and lost bytes compared pointwise *)

Record file_equiv (f g : File) : Prop := {
  fe_vis : f_vis f = f_vis g;
  fe_dur : f_dur f = f_dur g;
  fe_dirty i : f_dirty f i = f_dirty g i;
  fe_lost i : f_lost f i = f_lost g i;
  fe_bad : f_bad f = f_bad g;
  fe_align : f_align f = f_align g;
}.

#[global] Instance file_Equiv : Equiv File := file_equiv.
#[global] Instance file_Equivalence : Equivalence (≡@{File}).
Proof.
  split.
  - intros f. by split.
  - intros f g []. by split.
  - intros f g h [] []. split; intros; etrans; eauto.
Qed.

#[global] Instance file_write_proper : Proper ((≡) ==> (=) ==> (=) ==> (≡)) file_write.
Proof.
  intros f g [] a ? <- k ? <-. split; cbn; intros; try congruence.
Qed.
#[global] Instance file_write_durable_proper :
  Proper ((≡) ==> (=) ==> (=) ==> (≡)) file_write_durable.
Proof.
  intros f g [] a ? <- k ? <-. split; cbn; intros; try congruence.
Qed.

Lemma lookup_flush lost i vis dur n :
  lost (i + Z.of_nat n) = false → flush lost i vis dur !! n = vis !! n.
Proof.
  revert i dur n. induction vis as [|b vis IH]; intros i dur [|n] Hl; cbn; try done.
  - by rewrite Z.add_0_r in Hl; rewrite Hl.
  - apply IH. rewrite <- Hl. f_equal. lia.
Qed.

(** *** Reads *)

Lemma len_moved fault avail : 0 ≤ moved fault avail ∧ (0 ≤ avail → moved fault avail ≤ avail) ∧
  (0 < avail → 0 < moved fault avail).
Proof. unfold moved. destruct fault; try case_match; lia. Qed.

(** A read never panics, changes nothing but the fault schedule, and returns
    visible bytes, at least one if there are any. *)
Lemma read_at_spec h f w offset n :
  w_files w !! h = Some f → 0 ≤ offset → 0 ≤ n →
  ∃ r fs, read_at h offset n w = (r, with_faults w fs) ∧
    match r with
    | Ok got => got = slice (f_vis f) offset (offset + len got) ∧ len got ≤ n ∧
        (0 < len got → offset + len got ≤ len (f_vis f)) ∧
        (0 < n → offset < len (f_vis f) → 0 < len got)
    | Err _ => True
    | Panic => False
    end.
Proof.
  intros Hf Ho Hn. unfold read_at. io_run.
  destruct (next_fault_spec w) as (fault & fs & Hnf & _). io_run.
  destruct (IoConstraints_check _ _ _); cbn [negb]; [|by exists (Err InvalidInput), fs].
  set (got := moved fault (Z.min n (file_len f - offset))).
  pose proof (len_moved fault (Z.min n (file_len f - offset))) as (H0 & H1 & H2).
  fold got in H0, H1, H2. unfold file_len in *.
  assert (∃ r, (if unreadable f offset (offset + got) then io_err OtherKind
                else io_ret (slice (f_vis f) offset (offset + got))) (with_faults w fs)
               = (r, with_faults w fs) ∧
    match r with
    | Ok got => got = slice (f_vis f) offset (offset + len got) ∧ len got ≤ n ∧
        (0 < len got → offset + len got ≤ len (f_vis f)) ∧
        (0 < n → offset < len (f_vis f) → 0 < len got)
    | Err _ => True | Panic => False end) as (r & Hr & Hs).
  { destruct (unreadable _ _ _); [by exists (Err OtherKind)|].
    eexists (Ok _). split; [done|].
    destruct (decide (offset < len (f_vis f))).
    - rewrite len_slice by lia. replace (offset + (offset + got - offset)) with (offset + got) by lia.
      split_and!; [done|lia|lia|lia].
    - assert (slice (f_vis f) offset (offset + got) = []) as ->.
      { unfold slice. rewrite drop_ge by (unfold len in *; lia). by rewrite take_nil. }
      change (len (@nil byte)) with 0. rewrite Z.add_0_r.
      unfold slice. rewrite Z.sub_diag. cbn. split_and!; [done|lia|lia|lia]. }
  destruct fault; [eauto..|by exists (Err kind), fs].
Qed.

(** Without faults, an aligned read of a readable range returns all of it. *)
Lemma read_at_clean h f w offset n :
  w_files w !! h = Some f → w_faults w = [] → 0 ≤ offset → 0 ≤ n →
  offset + n ≤ len (f_vis f) → IoConstraints_check (f_align f) offset n = true →
  unreadable f offset (offset + n) = false →
  read_at h offset n w = (Ok (slice (f_vis f) offset (offset + n)), w).
Proof.
  intros Hf Hfs Ho Hn Hr Hc Hu. unfold read_at. io_run.
  erewrite io_bind_ok by (by apply next_fault_nil). rewrite Hc. cbn [negb].
  unfold moved, file_len. rewrite Z.min_l, Z.max_r by lia. by rewrite Hu.
Qed.

(** *** Alignment arithmetic *)

Lemma align_down_spec bf o :
  is_power_of_two (bf_step bf) → 0 ≤ o → align_down bf o = o - o mod bf_step bf.
Proof.
  intros (k & Hk & Hs) Ho. unfold align_down. rewrite Hs.
  replace (2 ^ k - 1) with (Z.ones k) by (rewrite Z.ones_equiv; lia).
  rewrite <- Z.ldiff_land, Z.ldiff_ones_r by done.
  rewrite Z.shiftl_mul_pow2, Z.shiftr_div_pow2 by done.
  pose proof (Z.div_mod o (2 ^ k) ltac:(apply Z.pow_nonzero; lia)). lia.
Qed.

Lemma align_down_range bf o :
  is_power_of_two (bf_step bf) → 0 ≤ o → 0 ≤ align_down bf o ≤ o.
Proof.
  intros Hs Ho. rewrite align_down_spec by done. destruct Hs as (k & Hk & ->).
  pose proof (Z.mod_le o (2 ^ k)). pose proof (Z.mod_pos_bound o (2 ^ k)).
  assert (0 < 2 ^ k) by (apply Z.pow_pos_nonneg; lia). lia.
Qed.

(** *** The read loop *)

Lemma stalled_read_error_spec {A} bf bi l w f :
  w_files w !! bf_file bf = Some f →
  ∃ e fs, @stalled_read_error A bf bi l w = (Err e, with_faults w fs).
Proof.
  intros Hf. unfold stalled_read_error, io_try, file_size.
  erewrite io_bind_ok by (by apply get_file_ok).
  destruct (next_fault_spec w) as (fault & fs & Hnf & _).
  erewrite io_bind_ok by exact Hnf.
  destruct fault; cbn; try case_match; eexists _, fs; done.
Qed.

(** The bytes read so far are the file's. *)
Definition filled (f : File) (start : Z) (buf : list byte) (done : Z) : Prop :=
  slice buf 0 done = slice (f_vis f) start (start + done) ∧
  (0 < done → start + done ≤ len (f_vis f)).

Lemma filled_advance f start buf done from got :
  0 ≤ start → 0 ≤ from ≤ done → done ≤ len buf → from + len got ≤ len buf →
  done ≤ from + len got →
  filled f start buf done → got = slice (f_vis f) (start + from) (start + from + len got) →
  (0 < len got → start + from + len got ≤ len (f_vis f)) →
  filled f start (splice buf from got) (from + len got).
Proof.
  intros Hst Hfr Hd Hg Hle [Hs Hb] Hgot Hlen. pose proof (len_nonneg got). split.
  - rewrite (slice_split _ 0 from (from + len got)) by lia.
    rewrite slice_splice_disjoint, slice_splice_same by lia.
    rewrite (slice_split (f_vis f) start (start + from)) by lia.
    f_equal.
    + assert (slice (slice buf 0 done) 0 from = slice (slice (f_vis f) start (start + done)) 0 from)
        as E by by rewrite Hs.
      rewrite !slice_slice in E by lia. by rewrite !Z.add_0_l, Z.add_0_r in E.
    + rewrite Hgot at 1. f_equal; lia.
  - intros. destruct (decide (0 < len got)); [lia|]. assert (len got = 0) by lia.
    specialize (Hb ltac:(lia)). lia.
Qed.

Lemma read_from_spec fuel bf bi start buf done w f :
  w_files w !! bf_file bf = Some f → is_power_of_two (bf_step bf) →
  0 ≤ start → 0 ≤ done ≤ len buf → len buf - done ≤ Z.of_nat fuel →
  filled f start buf done →
  ∃ r fs, read_from fuel bf bi start buf done w = (r, with_faults w fs) ∧
    match r with
    | Ok out => out = slice (f_vis f) start (start + len buf) ∧ len out = len buf
    | Err _ => True
    | Panic => False
    end.
Proof.
  intros Hf Hstep Hst. revert buf done w Hf.
  induction fuel as [|fuel IH]; intros buf done w Hf Hd Hfuel Hfill; cbn [read_from];
    destruct (Z.leb_spec (len buf) done) as [Hle|Hlt].
  1,3: exists (Ok buf), (w_faults w); rewrite with_faults_id; split; [done|];
    assert (done = len buf) as -> by lia; destruct Hfill as [Hs _];
    by rewrite slice_all in Hs by lia.
  1: lia.
  pose proof (align_down_range bf done Hstep ltac:(lia)) as Hfr.
  set (from := align_down bf done) in *.
  destruct (read_at_spec (bf_file bf) f w (start + from) (len buf - from) Hf) as
    (r & fs & Hr & Hspec); [lia|lia|].
  destruct r as [got|e|]; [| |done].
  2:{ exists (Err e), fs. split; [|done]. by erewrite io_bind_err. }
  erewrite io_bind_ok by exact Hr. destruct Hspec as (Hgot & Hln & Hin & _).
  pose proof (len_nonneg got).
  assert (len (splice buf from got) = len buf) as Hlb by (apply len_splice; lia).
  destruct (Z.leb_spec (from + len got) done).
  - destruct (stalled_read_error_spec (A := list byte) bf bi (len (splice buf from got))
      (with_faults w fs) f Hf) as (e & fs' & He).
    exists (Err e), fs'. by rewrite He.
  - destruct (IH (splice buf from got) (from + len got) (with_faults w fs) Hf) as
      (r & fs' & Hr' & Hres).
    + lia.
    + lia.
    + apply (filled_advance f start buf done from got); lia || done.
    + exists r, fs'. rewrite Hr'. split; [done|]. by rewrite Hlb in Hres.
Qed.

Lemma BlockFile_range_Ok bf bi l start :
  BlockFile_range bf bi l = Ok start →
  start = bi * bf_block_size bf ∧ l ≠ 0 ∧ l mod bf_block_size bf = 0.
Proof.
  unfold BlockFile_range. destruct (Z.eqb_spec l 0); [done|].
  destruct (Z.eqb_spec (l mod bf_block_size bf) 0); [|done]. cbn.
  repeat case_match; try done. intros [= <-]. done.
Qed.

Definition block_file_ok (bf : BlockFile) : Prop :=
  0 < bf_block_size bf ∧ is_power_of_two (bf_step bf).

(** A block read never panics and, whatever the schedule of short transfers,
    returns exactly the file's bytes when it returns. *)
Lemma read_blocks_aligned_spec bf bi l w f :
  w_files w !! bf_file bf = Some f → block_file_ok bf → 0 ≤ bi → 0 ≤ l →
  ∃ r fs, read_blocks_aligned bf bi l w = (r, with_faults w fs) ∧
    match r with
    | Ok out => out = slice (f_vis f) (bi * bf_block_size bf) (bi * bf_block_size bf + l) ∧
        len out = l
    | Err _ => True
    | Panic => False
    end.
Proof.
  intros Hf [Hbs Hstep] Hbi Hl. unfold read_blocks_aligned.
  destruct (BlockFile_range bf bi l) as [start|e|] eqn:Hr.
  2:{ exists (Err e), (w_faults w). rewrite with_faults_id. split; [|done].
      by apply io_bind_err. }
  2:{ unfold BlockFile_range in Hr. repeat case_match; done. }
  erewrite io_bind_ok by reflexivity.
  apply BlockFile_range_Ok in Hr as (-> & Hl0 & _). set (start := bi * bf_block_size bf).
  assert (0 ≤ start) by (unfold start; nia).
  destruct (read_at_spec (bf_file bf) f w start l Hf) as (r & fs & Hrd & Hspec); [lia|lia|].
  destruct r as [got|e|]; [| |done].
  2:{ exists (Err e), fs. split; [|done]. by erewrite io_bind_err. }
  erewrite io_bind_ok by exact Hrd. destruct Hspec as (Hgot & Hln & Hin & _).
  pose proof (len_nonneg got). assert (len (zeros l) = l) as Hz by (apply len_repeatZ; lia).
  destruct (Z.eqb_spec (len got) 0).
  { destruct (stalled_read_error_spec (A := list byte) bf bi l (with_faults w fs) f Hf)
      as (e' & fs' & He). exists (Err e'), fs'. by rewrite He. }
  assert (len (splice (zeros l) 0 got) = l) as Hls by (rewrite len_splice; lia).
  assert (filled f start (splice (zeros l) 0 got) (len got)) as Hfill.
  { rewrite <- (Z.add_0_l (len got)).
    assert (filled f start (zeros l) 0) as Hf0.
    { split; [|lia]. unfold slice. rewrite Z.add_0_r, !Z.sub_diag. done. }
    apply (filled_advance f start (zeros l) 0 0 got); rewrite ?Z.add_0_r; auto; lia. }
  destruct (Z.ltb_spec (len got) l).
  - destruct (read_from_spec (S (Z.to_nat l)) bf bi start (splice (zeros l) 0 got) (len got)
      (with_faults w fs) f) as (r & fs' & Hr' & Hres); try done; try lia.
    exists r, fs'. rewrite Hr'. split; [done|]. by rewrite Hls in Hres.
  - exists (Ok (splice (zeros l) 0 got)), fs. split; [done|]. split; [|done].
    destruct Hfill as [Hs _]. assert (len got = l) as E by lia. rewrite E in Hs.
    by rewrite slice_all in Hs by lia.
Qed.

Lemma read_blocks_exact_spec bf bi l w f :
  w_files w !! bf_file bf = Some f → block_file_ok bf → 0 ≤ bi → 0 ≤ l →
  ∃ r fs, read_blocks_exact bf bi l w = (r, with_faults w fs) ∧
    match r with
    | Ok out => out = slice (f_vis f) (bi * bf_block_size bf) (bi * bf_block_size bf + l) ∧
        len out = l
    | Err _ => True
    | Panic => False
    end.
Proof.
  intros Hf [Hbs Hstep] Hbi Hl. unfold read_blocks_exact.
  destruct (BlockFile_range bf bi l) as [start|e|] eqn:Hr.
  2:{ exists (Err e), (w_faults w). rewrite with_faults_id. split; [|done].
      by apply io_bind_err. }
  2:{ unfold BlockFile_range in Hr. repeat case_match; done. }
  erewrite io_bind_ok by reflexivity.
  apply BlockFile_range_Ok in Hr as (-> & Hl0 & _).
  assert (len (zeros l) = l) as Hz by (apply len_repeatZ; lia).
  destruct (read_from_spec (S (Z.to_nat l)) bf bi (bi * bf_block_size bf) (zeros l) 0 w f)
    as (r & fs' & Hr' & Hres); try done; try lia.
  - split; [|lia]. unfold slice. rewrite Z.add_0_r, !Z.sub_diag. done.
  - exists r, fs'. by rewrite Hz in Hres.
Qed.

(** *** Writes *)

Lemma lookup_grow l n i :
  grow l n !! i = if decide (Z.of_nat i < len l) then l !! i
                  else if decide (Z.of_nat i < n) then Some x00 else None.
Proof.
  unfold grow, repeatZ, len. case_decide.
  - apply lookup_app_l. lia.
  - rewrite lookup_app_r by lia. case_decide.
    + apply lookup_replicate_2. lia.
    + apply lookup_ge_None. rewrite length_replicate. lia.
Qed.

Lemma len_grow l n : len (grow l n) = Z.max (len l) n.
Proof.
  unfold grow. rewrite len_app. destruct (decide (n ≤ len l)).
  - unfold repeatZ, len in *. rewrite length_replicate. lia.
  - rewrite len_repeatZ; lia.
Qed.

Lemma lookup_write_bytes l a k i :
  0 ≤ a → 0 < len k →
  write_bytes l a k !! i =
    if decide (a ≤ Z.of_nat i < a + len k) then k !! (i - Z.to_nat a)%nat
    else if decide (Z.of_nat i < len l) then l !! i
    else if decide (Z.of_nat i < a + len k) then Some x00 else None.
Proof.
  intros Ha Hk. destruct k as [|b k]; [done|]. unfold write_bytes.
  rewrite lookup_splice by (rewrite ?len_grow; lia).
  case_decide; [done|]. by rewrite lookup_grow.
Qed.

Lemma len_write_bytes l a k :
  0 ≤ a → 0 < len k → len (write_bytes l a k) = Z.max (len l) (a + len k).
Proof.
  intros Ha Hk. destruct k as [|b k]; [done|]. unfold write_bytes.
  rewrite len_splice by (rewrite ?len_grow; lia). apply len_grow.
Qed.

(** Writing a second piece of the same buffer that starts inside the first
    is writing the longer prefix: what makes resuming a short write safe. *)
Lemma write_bytes_resume l a buf d from n :
  0 ≤ a → 0 < d → 0 ≤ from ≤ d → d < from + n → from + n ≤ len buf →
  write_bytes (write_bytes l a (slice buf 0 d)) (a + from) (slice buf from (from + n)) =
  write_bytes l a (slice buf 0 (from + n)).
Proof.
  intros Ha Hd Hf Hn Hb.
  assert (len (slice buf 0 d) = d) as L1 by (rewrite len_slice; lia).
  assert (len (slice buf from (from + n)) = n) as L2 by (rewrite len_slice; lia).
  assert (len (slice buf 0 (from + n)) = from + n) as L3 by (rewrite len_slice; lia).
  apply list_eq. intros i.
  rewrite (lookup_write_bytes (write_bytes _ _ _)) by lia.
  rewrite len_write_bytes by lia. rewrite !lookup_write_bytes by lia.
  rewrite L1, L2, L3.
  destruct (decide (a + from ≤ Z.of_nat i < a + from + n)).
  - rewrite decide_True by lia. rewrite !lookup_slice by lia.
    rewrite !decide_True by lia. f_equal. lia.
  - destruct (decide (a ≤ Z.of_nat i < a + d)).
    + rewrite !decide_True by lia. rewrite !lookup_slice by lia. by rewrite !decide_True by lia.
    + destruct (decide (Z.of_nat i < len l)).
      * rewrite decide_True by lia. by rewrite decide_False by lia.
      * rewrite (decide_False (P := a ≤ Z.of_nat i < a + (from + n))) by lia.
        destruct (decide (Z.of_nat i < a + (from + n))).
        -- repeat case_decide; done || lia.
        -- repeat case_decide; done || lia.
Qed.

Definition file_wr (durable : bool) : File → Z → list byte → File :=
  if durable then file_write_durable else file_write.

Definition Ev_wr (durable : bool) : Handle → Z → list byte → Event :=
  if durable then Ev_write_durable else Ev_write.

#[global] Instance file_wr_proper d : Proper ((≡) ==> (=) ==> (=) ==> (≡)) (file_wr d).
Proof. destruct d; apply _. Qed.

Lemma file_wr_resume durable f a buf d from n :
  0 ≤ a → 0 < d → 0 ≤ from ≤ d → d < from + n → from + n ≤ len buf →
  file_wr durable (file_wr durable f a (slice buf 0 d)) (a + from) (slice buf from (from + n))
  ≡ file_wr durable f a (slice buf 0 (from + n)).
Proof.
  intros Ha Hd Hf Hn Hb.
  assert (len (slice buf 0 d) = d) as L1 by (rewrite len_slice; lia).
  assert (len (slice buf from (from + n)) = n) as L2 by (rewrite len_slice; lia).
  assert (len (slice buf 0 (from + n)) = from + n) as L3 by (rewrite len_slice; lia).
  destruct durable; split; cbn; try done; try (by apply write_bytes_resume);
    intros i; rewrite L1, L2, L3; unfold within;
    destruct (f_dirty f i), (f_lost f i); lia.
Qed.

(** What an unfinished write may have changed: nothing outside its range. *)
Record touched (a b : Z) (f g : File) : Prop := {
  t_vis_len : len (f_vis g) = len (f_vis f);
  t_dur_len : len (f_dur g) = len (f_dur f);
  t_vis i : ¬ (a ≤ Z.of_nat i < b) → f_vis g !! i = f_vis f !! i;
  t_dur i : ¬ (a ≤ Z.of_nat i < b) → f_dur g !! i = f_dur f !! i;
  t_dirty i : ¬ (a ≤ i < b) → f_dirty g i = f_dirty f i;
  t_lost i : ¬ (a ≤ i < b) → f_lost g i = f_lost f i;
  t_bad : f_bad g = f_bad f;
  t_align : f_align g = f_align f;
}.

Lemma touched_trans a b f g h : touched a b f g → touched a b g h → touched a b f h.
Proof.
  intros [L1 L2 V1 D1 Y1 S1 B1 A1] [M1 M2 V2 D2 Y2 S2 B2 A2].
  split; intros; [congruence|congruence| | | | |congruence|congruence].
  - by rewrite V2, V1.
  - by rewrite D2, D1.
  - by rewrite Y2, Y1.
  - by rewrite S2, S1.
Qed.

Lemma touched_equiv_r a b f g h : touched a b f g → g ≡ h → touched a b f h.
Proof.
  intros [] [Hv Hd Hy Hs Hb Ha]. split; intros; rewrite <- ?Hv, <- ?Hd, <- ?Hb, <- ?Ha; auto.
  - rewrite <- Hy. auto.
  - rewrite <- Hs. auto.
Qed.

Lemma touched_refl a b f : touched a b f f.
Proof. by split. Qed.

Lemma write_bytes_inside l a k :
  0 ≤ a → a + len k ≤ len l →
  len (write_bytes l a k) = len l ∧
  ∀ i, ¬ (a ≤ Z.of_nat i < a + len k) → write_bytes l a k !! i = l !! i.
Proof.
  intros Ha Hk. pose proof (len_nonneg k). destruct (decide (0 < len k)).
  - rewrite len_write_bytes by lia. split; [lia|]. intros i Hi.
    rewrite lookup_write_bytes by lia. rewrite decide_False by done.
    case_decide; [done|]. rewrite decide_False by lia. symmetry. apply lookup_ge_None.
    unfold len in *. lia.
  - destruct k as [|b k]; [done|]. rewrite len_cons in *. pose proof (len_nonneg k). lia.
Qed.

Lemma file_wr_touched durable f a b x k :
  0 ≤ a → a ≤ x → x + len k ≤ b → b ≤ len (f_vis f) → b ≤ len (f_dur f) →
  touched a b f (file_wr durable f x k).
Proof.
  intros. pose proof (len_nonneg k).
  destruct (write_bytes_inside (f_vis f) x k) as [L1 V1]; [lia|lia|].
  destruct (write_bytes_inside (f_dur f) x k) as [L2 V2]; [lia|lia|].
  destruct durable; split; cbn; intros; try done; auto with lia;
    unfold within; destruct (f_dirty f i), (f_lost f i); lia.
Qed.

(** What an unfinished write of [a, b) may have done to a list of bytes: it
    changed none that was there outside the range, and when it grew the list
    it did so with zeros up to the range, and not beyond it. *)
Record spilled (a b : Z) (l k : list byte) : Prop := {
  sp_len : len l ≤ len k ≤ Z.max (len l) b;
  sp_kept i : Z.of_nat i < len l → ¬ (a ≤ Z.of_nat i < b) → k !! i = l !! i;
  sp_gap i : len l ≤ Z.of_nat i < len k → Z.of_nat i < a → k !! i = Some x00;
}.

Lemma spilled_refl a b l : spilled a b l l.
Proof. split; [lia|done|lia]. Qed.

Lemma spilled_trans a b l k m : spilled a b l k → spilled a b k m → spilled a b l m.
Proof.
  intros [L1 K1 G1] [L2 K2 G2]. split; [lia| |].
  - intros i Hi Hn. rewrite K2, K1; [done|lia..].
  - intros i Hi Ha. destruct (decide (Z.of_nat i < len k)); [|apply G2; lia].
    rewrite K2; [apply G1; lia|lia..].
Qed.

Lemma write_bytes_spilled l a b x k :
  0 ≤ a → a ≤ x → x + len k ≤ b → spilled a b l (write_bytes l x k).
Proof.
  intros Ha Hx Hb. pose proof (len_nonneg k). destruct (decide (0 < len k)) as [Hk|Hk].
  - split; [rewrite len_write_bytes by lia; lia|intros i Hi Hn|intros i Hi Hi'];
      rewrite ?len_write_bytes in * by lia; rewrite lookup_write_bytes by lia;
      rewrite decide_False by lia.
    + by rewrite decide_True.
    + by rewrite decide_False, decide_True by lia.
  - destruct k as [|c k]; [apply spilled_refl|]. rewrite len_cons in *. pose proof (len_nonneg k). lia.
Qed.

(** The same of a file: both images, and the bytes pending. *)
Record extended (a b : Z) (f g : File) : Prop := {
  x_vis : spilled a b (f_vis f) (f_vis g);
  x_dur : spilled a b (f_dur f) (f_dur g);
  x_dirty i : ¬ (a ≤ i < b) → f_dirty g i = f_dirty f i;
  x_lost i : ¬ (a ≤ i < b) → f_lost g i = f_lost f i;
  x_bad : f_bad g = f_bad f;
  x_align : f_align g = f_align f;
}.

Lemma extended_refl a b f : extended a b f f.
Proof. by split; try apply spilled_refl. Qed.

Lemma extended_trans a b f g h : extended a b f g → extended a b g h → extended a b f h.
Proof.
  intros [V1 D1 Y1 S1 B1 A1] [V2 D2 Y2 S2 B2 A2]. split; intros; try congruence.
  - by eapply spilled_trans.
  - by eapply spilled_trans.
  - by rewrite Y2, Y1.
  - by rewrite S2, S1.
Qed.

Lemma extended_equiv_r a b f g h : extended a b f g → g ≡ h → extended a b f h.
Proof.
  intros [] [Hv Hd Hy Hs Hb Ha]. split; intros; rewrite <- ?Hv, <- ?Hd, <- ?Hb, <- ?Ha; auto.
  - rewrite <- Hy. auto.
  - rewrite <- Hs. auto.
Qed.

Lemma file_wr_extended durable f a b x k :
  0 ≤ a → a ≤ x → x + len k ≤ b → extended a b f (file_wr durable f x k).
Proof.
  intros Ha Hx Hb. pose proof (len_nonneg k).
  pose proof (write_bytes_spilled (f_vis f) a b x k Ha Hx Hb).
  pose proof (write_bytes_spilled (f_dur f) a b x k Ha Hx Hb).
  destruct durable; split; cbn; try done; try apply spilled_refl;
    intros i Hi; unfold within; destruct (f_dirty f i), (f_lost f i); lia.
Qed.

(** A file that covers the range keeps its length. *)
Lemma extended_touched a b f g :
  b ≤ len (f_vis f) → b ≤ len (f_dur f) → extended a b f g → touched a b f g.
Proof.
  intros Hv Hd [[Lv Kv _] [Ld Kd _] Y S B A].
  assert (∀ (l k : list byte) i, len k = len l →
    (Z.of_nat i < len l → ¬ (a ≤ Z.of_nat i < b) → k !! i = l !! i) →
    ¬ (a ≤ Z.of_nat i < b) → k !! i = l !! i) as Hall.
  { intros l k i Hl Hk Hn. destruct (decide (Z.of_nat i < len l)); [auto|].
    rewrite !lookup_ge_None_2; [done|unfold len in *; lia..]. }
  split; try done; try lia; intros i; apply Hall; auto; lia.
Qed.

(** *** One write call *)

Definition wr_at (durable : bool) : Handle → Z → list byte → IO ErrorKind Z :=
  if durable then write_at_durable else write_at.

Lemma with_file_id w h f fs : w_files w !! h = Some f → with_file w h f fs [] = with_faults w fs.
Proof. intros. unfold with_file, with_faults. by rewrite insert_id, app_nil_r. Qed.

Lemma wr_at_spec durable h f w off buf :
  w_files w !! h = Some f → 0 ≤ off →
  ∃ r fs f' tr, wr_at durable h off buf w = (r, with_file w h f' fs tr) ∧
    match r with
    | Ok n => 0 ≤ n ≤ len buf ∧ (0 < len buf → 0 < n) ∧
        f' = file_wr durable f off (slice buf 0 n) ∧
        tr = [Ev_wr durable h off (slice buf 0 n)]
    | Err _ => tr = [] ∧ (f' = f ∨ ∃ n, 0 ≤ n ≤ len buf ∧ f' = file_wr false f off (slice buf 0 n))
    | Panic => False
    end.
Proof.
  intros Hf Ho. destruct (next_fault_spec w) as (fault & fs & Hnf & _).
  assert (∀ n, slice buf 0 n = slice buf 0 (Z.max 0 (Z.min n (len buf)))) as Hclamp.
  { intros n. destruct (decide (n ≤ 0)).
    - unfold slice. by rewrite !(Z2Nat.nonpos (_ - 0)) by lia.
    - destruct (decide (n ≤ len buf)); [by rewrite Z.max_r, Z.min_l by lia|].
      rewrite Z.min_r, Z.max_r by (pose proof (len_nonneg buf); lia).
      rewrite !slice_all by lia. done. }
  pose proof (len_nonneg buf) as Hlb.
  pose proof (len_moved fault (len buf)) as (M0 & M1 & M2). specialize (M1 Hlb).
  destruct durable; cbn [wr_at]; unfold write_at, write_at_durable;
    (erewrite io_bind_ok by (by apply get_file_ok));
    (erewrite io_bind_ok by exact Hnf);
    (destruct (IoConstraints_check _ _ _); cbn [negb];
     [|exists (Err InvalidInput), fs, f, []; rewrite with_file_id by done; split; [done|]; auto]);
    destruct fault as [|n|kind landed].
  3,6: eexists (Err kind), fs, _, []; split;
      [ cbn; unfold with_file; rewrite app_nil_r; reflexivity
      | split; [done|]; right; rewrite (Hclamp landed); eexists; split; [|done]; lia ].
  all: eexists (Ok _), fs, _, _; split; [reflexivity|]; split_and!; done.
Qed.

(** *** The write loop *)

(** An event of a transfer: a piece of its range, durable or not. *)
Definition ev_writes (durable : bool) (h : Handle) (a b : Z) (e : Event) : Prop :=
  ∃ o k, e = Ev_wr durable h o k ∧ a ≤ o ∧ o + len k ≤ b.

(** How a transfer of [buf] at [start] may end. *)
Definition transfer_post (durable : bool) (h : Handle) (start : Z) (buf : list byte)
    (f0 f' : File) (tr : list Event) (r : res ErrorKind ()) : Prop :=
  Forall (ev_writes durable h start (start + len buf)) tr ∧
  match r with
  | Ok _ => f' ≡ file_wr durable f0 start buf ∧ tr ≠ []
  | Err _ => extended start (start + len buf) f0 f'
  | Panic => False
  end.

Lemma transfer_post_prefix durable h start buf f0 f' tr tr' r :
  tr ≠ [] → Forall (ev_writes durable h start (start + len buf)) tr →
  transfer_post durable h start buf f0 f' tr' r →
  transfer_post durable h start buf f0 f' (tr ++ tr') r.
Proof.
  intros Hne Ht [Ht' Hr]. split; [by apply Forall_app|].
  destruct r; [|done..]. destruct Hr as [? _]. split; [done|]. by destruct tr.
Qed.

Lemma transfer_from_spec fuel durable bf bi start buf done w f0 f :
  w_files w !! bf_file bf = Some f → is_power_of_two (bf_step bf) →
  0 ≤ start → 0 < done ≤ len buf → len buf - done ≤ Z.of_nat fuel →
  f ≡ file_wr durable f0 start (slice buf 0 done) →
  ∃ r fs f' tr, transfer_from fuel bf bi start buf done durable w =
      (r, with_file w (bf_file bf) f' fs tr) ∧
    Forall (ev_writes durable (bf_file bf) start (start + len buf)) tr ∧
    match r with
    | Ok _ => f' ≡ file_wr durable f0 start buf
    | Err _ => extended start (start + len buf) f0 f'
    | Panic => False
    end.
Proof.
  intros Hf Hstep Hst. revert done w f Hf.
  induction fuel as [|fuel IH]; intros done w f Hf Hd Hfuel Heq; cbn [transfer_from];
    destruct (Z.leb_spec (len buf) done) as [Hle|Hlt].
  1,3: exists (Ok ()), (w_faults w), f, []; rewrite with_file_id, with_faults_id by done;
    split_and!; [done|constructor|];
    assert (done = len buf) as -> by lia; by rewrite slice_all in Heq by lia.
  1: lia.
  pose proof (align_down_range bf done Hstep ltac:(lia)) as Hfr.
  set (from := align_down bf done) in *.
  set (rest := slice buf from (len buf)).
  assert (len rest = len buf - from) as Hrest by (apply len_slice; lia).
  destruct (wr_at_spec durable (bf_file bf) f w (start + from) rest Hf ltac:(lia))
    as (r & fs & f1 & tr & Hw & Hspec).
  assert ((if durable then write_at_durable (bf_file bf) (start + from) rest
           else write_at (bf_file bf) (start + from) rest) w =
          (r, with_file w (bf_file bf) f1 fs tr)) as Hw' by by destruct durable.
  assert (extended start (start + len buf) f0 f) as Htf.
  { eapply extended_equiv_r; [|symmetry; exact Heq].
    apply file_wr_extended; rewrite ?len_slice; lia. }
  destruct r as [n|e|]; [| |done].
  2:{ exists (Err e), fs, f1, tr. split; [by erewrite io_bind_err by exact Hw'|].
      destruct Hspec as [-> Hcase]. split; [constructor|].
      destruct Hcase as [->|(n & Hn & ->)]; [auto|].
      eapply extended_trans; [exact Htf|].
      apply file_wr_extended; rewrite ?len_slice; lia. }
  erewrite io_bind_ok by exact Hw'. destruct Hspec as (Hn & Hpos & -> & ->).
  rewrite (proj2 (Z.eqb_neq _ _)) by lia.
  assert (slice rest 0 n = slice buf from (from + n)) as Hsl.
  { unfold rest. rewrite slice_slice by lia. f_equal. lia. }
  assert (ev_writes durable (bf_file bf) start (start + len buf)
    (Ev_wr durable (bf_file bf) (start + from) (slice rest 0 n))) as Hev.
  { eexists _, _. split; [done|]. rewrite len_slice by lia. lia. }
  unfold advance, io_res. destruct (Z.leb_spec (from + n) done) as [Hstall|Hprog].
  - eexists (Err InvalidData), fs, _, [_]. split; [by apply io_bind_err|].
    split; [by constructor|]. eapply extended_trans; [exact Htf|].
    apply file_wr_extended; rewrite ?len_slice; lia.
  - erewrite io_bind_ok by reflexivity.
    destruct (IH (from + n) (with_file w (bf_file bf)
      (file_wr durable f (start + from) (slice rest 0 n)) fs
      [Ev_wr durable (bf_file bf) (start + from) (slice rest 0 n)])
      (file_wr durable f (start + from) (slice rest 0 n)))
      as (r & fs' & f' & tr' & Hrun & Htr & Hpost).
    + cbn. apply lookup_insert_eq.
    + lia.
    + lia.
    + rewrite Hsl, Heq. apply file_wr_resume; lia.
    + exists r, fs', f', ([Ev_wr durable (bf_file bf) (start + from) (slice rest 0 n)] ++ tr').
      rewrite Hrun, with_file_with_file. split; [done|].
      split; [|done]. apply Forall_app. split; [by constructor|done].
Qed.

(** A whole-block write, whatever the short transfers: [Ok] means the whole
    buffer is in place (and durable, for a durable write); an error left
    every byte there was outside the range alone. *)
Lemma transfer_blocks_owned_spec durable bf bi buf w f :
  w_files w !! bf_file bf = Some f → block_file_ok bf → 0 ≤ bi →
  ∃ r fs f' tr, transfer_blocks_owned bf bi buf durable w =
      (r, with_file w (bf_file bf) f' fs tr) ∧
    transfer_post durable (bf_file bf) (bi * bf_block_size bf) buf f f' tr r.
Proof.
  intros Hf [Hbs Hstep] Hbi. unfold transfer_blocks_owned, transfer_post.
  destruct (BlockFile_range bf bi (len buf)) as [start|e|] eqn:Hr.
  2:{ exists (Err e), (w_faults w), f, []. rewrite with_file_id, with_faults_id by done.
      split_and!; [by apply io_bind_err|constructor|]. apply extended_refl. }
  2:{ unfold BlockFile_range in Hr. repeat case_match; done. }
  erewrite io_bind_ok by reflexivity.
  apply BlockFile_range_Ok in Hr as (-> & Hl0 & _). set (start := bi * bf_block_size bf).
  assert (0 ≤ start) by (unfold start; nia). pose proof (len_nonneg buf).
  destruct (wr_at_spec durable (bf_file bf) f w start buf Hf ltac:(lia))
    as (r & fs & f1 & tr & Hw & Hspec).
  assert ((if durable then write_at_durable (bf_file bf) start buf
           else write_at (bf_file bf) start buf) w =
          (r, with_file w (bf_file bf) f1 fs tr)) as Hw' by by destruct durable.
  destruct r as [n|e|]; [| |done].
  2:{ exists (Err e), fs, f1, tr. split; [by erewrite io_bind_err by exact Hw'|].
      destruct Hspec as [-> Hcase]. split; [constructor|].
      destruct Hcase as [->|(n & Hn & ->)]; [apply extended_refl|].
      apply file_wr_extended; rewrite ?len_slice; lia. }
  erewrite io_bind_ok by exact Hw'. destruct Hspec as (Hn & Hpos & -> & ->).
  rewrite (proj2 (Z.eqb_neq _ _)) by lia.
  assert (ev_writes durable (bf_file bf) start (start + len buf)
    (Ev_wr durable (bf_file bf) start (slice buf 0 n))) as Hev.
  { eexists _, _. split; [done|]. rewrite len_slice by lia. lia. }
  unfold advance, io_res. rewrite Z.add_0_l. rewrite (proj2 (Z.leb_gt n 0)) by lia.
  erewrite io_bind_ok by reflexivity.
  destruct (Z.ltb_spec n (len buf)).
  - destruct (transfer_from_spec (S (length buf)) durable bf bi start buf n
      (with_file w (bf_file bf) (file_wr durable f start (slice buf 0 n)) fs
        [Ev_wr durable (bf_file bf) start (slice buf 0 n)]) f
      (file_wr durable f start (slice buf 0 n)))
      as (r & fs' & f' & tr' & Hrun & Htr & Hpost); try done; try lia.
    + cbn. apply lookup_insert_eq.
    + unfold len. lia.
    + exists r, fs', f', ([Ev_wr durable (bf_file bf) start (slice buf 0 n)] ++ tr').
      rewrite Hrun, with_file_with_file. split; [done|].
      split; [apply Forall_app; split; [by constructor|done]|].
      destruct r; done.
  - assert (n = len buf) as -> by lia.
    eexists (Ok ()), fs, _, _. split; [reflexivity|]. rewrite !slice_all by lia.
    rewrite slice_all in Hev by lia. split; [by constructor|]. done.
Qed.

(** *** Computations that only read

    [reads m w Q]: from [w], [m] changes nothing but the fault schedule,
    never panics, and its result, when it returns one, satisfies [Q]. *)

Definition reads {E A} (m : IO E A) (w : World) (Q : A → Prop) : Prop :=
  ∃ r fs, m w = (r, with_faults w fs) ∧
    match r with Ok a => Q a | Err _ => True | Panic => False end.

Lemma reads_ret {E A} (a : A) w (Q : A → Prop) : Q a → reads (E := E) (io_ret a) w Q.
Proof. intros H. exists (Ok a), (w_faults w). by rewrite with_faults_id. Qed.

Lemma reads_err {E A} (e : E) w (Q : A → Prop) : reads (io_err e) w Q.
Proof. exists (Err e), (w_faults w). by rewrite with_faults_id. Qed.

Lemma reads_bind {E A B} (m : IO E A) (k : A → IO E B) w P Q :
  reads m w P → (∀ a fs, P a → reads (k a) (with_faults w fs) Q) → reads (io_bind m k) w Q.
Proof.
  intros (r & fs & Hm & Hr) Hk. unfold reads, io_bind. rewrite Hm.
  destruct r as [a|e|]; [|by exists (Err e), fs|done].
  destruct (Hk a fs Hr) as (r & fs' & Hka & Hr'). by exists r, fs'.
Qed.

Lemma reads_map_err {E F A} (f : E → F) (m : IO E A) w Q :
  reads m w Q → reads (io_map_err f m) w Q.
Proof.
  intros (r & fs & Hm & Hr). unfold reads, io_map_err. rewrite Hm.
  exists (map_err f r), fs. split; [done|]. by destruct r.
Qed.

Lemma reads_conseq {E A} (m : IO E A) w (P Q : A → Prop) :
  reads m w P → (∀ a, P a → Q a) → reads m w Q.
Proof. intros (r & fs & Hm & Hr) H. exists r, fs. split; [done|]. destruct r; auto. Qed.

Lemma reads_expect {E A} (o : option A) (a : A) w (Q : A → Prop) :
  o = Some a → Q a → reads (E := E) (io_expect o) w Q.
Proof. intros -> H. by apply reads_ret. Qed.

Lemma reads_bind_expect {E A B} (o : option A) a (k : A → IO E B) w Q :
  o = Some a → reads (k a) w Q → reads (io_bind (io_expect o) k) w Q.
Proof. by intros -> H. Qed.

(** ** Properties of block I/O *)

(** A block read is whole or an error: however many short and failing
    transfers it takes, a read of whole blocks returns exactly the file's
    bytes or an error, never a part, never a panic, and changes no file. *)
Theorem block_read_whole bf bi l w f :
  w_files w !! bf_file bf = Some f → block_file_ok bf → 0 ≤ bi → 0 ≤ l →
  reads (read_blocks_exact bf bi l) w (fun out =>
    out = slice (f_vis f) (bi * bf_block_size bf) (bi * bf_block_size bf + l) ∧ len out = l).
Proof. apply read_blocks_exact_spec. Qed.

