(* ===== verification/JournalIo.v ===== *)
(** * The journal's block I/O (crates/moonpool-journal/src/io.rs)

    Whole-block transfers through [BlockFile], and block reads that treat a
    failing medium as damaged bytes: a block that cannot be read is
    zero-filled, so whatever lived there fails its checksum.

    The theorems: a read returns, block by block, the file's bytes or zeros
    ([block_view]), and exactly the file's bytes when nothing fails; a
    durable write that returns [Ok] has its bytes on the device, and so has a
    write followed by a successful sync, provided the bytes were written
    since the last failed one. *)

From S2P Require Import Prelude Format Names Storage.

(** [is_media_error] *)
Definition is_media_error (e : ErrorKind) : bool :=
  match e with InvalidInput | UnexpectedEof | InvalidData => false | _ => true end.

(** [block_buf]: a zeroed buffer *)
Definition block_buf (l : Z) : list byte := zeros l.

(** The retry of [read_blocks], block by block: [n] blocks from [at_] on. *)
Fixpoint read_each (bf : BlockFile) (first_block : Z) (n : nat) (at_ : Z) :
    IO ErrorKind (list byte) :=
  match n with
  | O => io_ret []
  | S n =>
      let! chunk := io_try (read_blocks_exact bf (first_block + at_) BLOCK) (fun r =>
        match r with
        | inl chunk => io_ret chunk
        | inr e => if is_media_error e then io_ret (zeros BLOCK) else io_err e
        end) in
      let! rest := read_each bf first_block n (at_ + 1) in
      io_ret (chunk ++ rest)
  end.

(** [read_blocks], into a buffer of [l] bytes *)
Definition read_blocks (bf : BlockFile) (first_block l : Z) : IO ErrorKind (list byte) :=
  io_try (read_blocks_aligned bf first_block l) (fun r =>
    match r with
    | inl buf => io_ret buf
    | inr e =>
        if negb (is_media_error e) then io_err e
        else read_each bf first_block (Z.to_nat (l / BLOCK)) 0
    end).

(** [read_bytes]: through whole blocks; the result is the [ReadBytes] range *)
Definition read_bytes (bf : BlockFile) (offset l : Z) : IO ErrorKind (list byte) :=
  if l =? 0 then io_ret [] else
  let start := offset / BLOCK * BLOCK in
  let end_ := align_up (offset + l) BLOCK in
  let! buf := read_blocks bf (start / BLOCK) ((end_ - start) / BLOCK * BLOCK) in
  let skip := offset - start in
  io_expect (slice_checked buf skip (skip + l)).

(** [write_blocks] and [write_blocks_durable] *)
Definition write_blocks_io (durable : bool) (bf : BlockFile) (first_block : Z)
    (buf : list byte) : IO ErrorKind () :=
  io_assert (len buf mod BLOCK =? 0) ;!
  if len buf =? 0 then io_ret tt else transfer_blocks_owned bf first_block buf durable.

Definition write_blocks := write_blocks_io false.
Definition write_blocks_durable := write_blocks_io true.

(** ** Lemmas *)

(** A journal opens its files with [BlockFile::new(file, BLOCK)]. *)
Definition journal_file (bf : BlockFile) : Prop :=
  bf_block_size bf = BLOCK ∧ is_power_of_two (bf_step bf).

Lemma journal_file_ok bf : journal_file bf → block_file_ok bf.
Proof. intros [H1 H2]. split; [rewrite H1; done|done]. Qed.

(** [out] is [l] seen block by block through a medium that may fail. *)
Definition block_view (l out : list byte) : Prop :=
  len out = len l ∧
  ∀ j, 0 ≤ j → (j + 1) * BLOCK ≤ len l →
    slice out (j * BLOCK) ((j + 1) * BLOCK) = slice l (j * BLOCK) ((j + 1) * BLOCK) ∨
    slice out (j * BLOCK) ((j + 1) * BLOCK) = zeros BLOCK.

Lemma block_view_refl l : block_view l l.
Proof. split; [done|]. auto. Qed.

Lemma block_view_cons c out l :
  len c = BLOCK → BLOCK ≤ len l → (c = slice l 0 BLOCK ∨ c = zeros BLOCK) →
  block_view (slice l BLOCK (len l)) out → block_view l (c ++ out).
Proof.
  intros Hc Hl Hcase [Hlen Hview]. rewrite len_slice in Hlen by (unfold BLOCK in *; lia). split.
  - rewrite len_app. lia.
  - intros j Hj Hb. destruct (decide (j = 0)) as [->|].
    + rewrite Z.mul_0_l, Z.add_0_l, Z.mul_1_l. rewrite slice_app_l by lia.
      rewrite (slice_all c) by lia. destruct Hcase as [-> | ->]; auto.
    + rewrite slice_app_r by (rewrite Hc; unfold BLOCK in *; lia). rewrite Hc.
      assert ((j - 1 + 1) * BLOCK ≤ len (slice l BLOCK (len l))) as Hb'
        by (rewrite len_slice; unfold BLOCK in *; lia).
      destruct (Hview (j - 1) ltac:(lia) Hb') as [E|E].
      * left. replace (j * BLOCK - BLOCK) with ((j - 1) * BLOCK) by lia.
        replace ((j + 1) * BLOCK - BLOCK) with ((j - 1 + 1) * BLOCK) by lia.
        rewrite E, slice_slice by (unfold BLOCK in *; lia). f_equal; lia.
      * right. replace (j * BLOCK - BLOCK) with ((j - 1) * BLOCK) by lia.
        by replace ((j + 1) * BLOCK - BLOCK) with ((j - 1 + 1) * BLOCK) by lia.
Qed.

Lemma read_each_spec bf first n at_ w f :
  w_files w !! bf_file bf = Some f → journal_file bf → 0 ≤ first → 0 ≤ at_ →
  (first + at_ + Z.of_nat n) * BLOCK ≤ len (f_vis f) →
  ∃ r fs, read_each bf first n at_ w = (r, with_faults w fs) ∧
    match r with
    | Ok out => block_view (slice (f_vis f) ((first + at_) * BLOCK)
                              ((first + at_ + Z.of_nat n) * BLOCK)) out
    | Err _ => True
    | Panic => False
    end.
Proof.
  intros Hf Hj Hfi. revert at_ w Hf. induction n as [|n IH]; intros at_ w Hf Ha Hlen.
  - exists (Ok []), (w_faults w). rewrite with_faults_id. split; [done|].
    rewrite Nat2Z.inj_0, Z.add_0_r. unfold slice. rewrite Z.sub_diag. apply block_view_refl.
  - cbn [read_each].
    destruct (read_blocks_exact_spec bf (first + at_) BLOCK w f Hf) as (r & fs & Hr & Hspec);
      [by apply journal_file_ok|lia|done|].
    destruct Hj as [Hbs Hst]. rewrite Hbs in Hspec.
    set (chunk_m := io_try _ _).
    assert (∃ r', chunk_m w = (r', with_faults w fs) ∧
      match r' with
      | Ok c => len c = BLOCK ∧
          (c = slice (f_vis f) ((first + at_) * BLOCK) ((first + at_) * BLOCK + BLOCK) ∨ c = zeros BLOCK)
      | Err _ => True | Panic => False end) as (r' & Hc & Hc').
    { unfold chunk_m, io_try. rewrite Hr. destruct r as [c|e|]; [| |done].
      - exists (Ok c). split; [done|]. destruct Hspec as [-> ?]. auto.
      - destruct (is_media_error e); [|by exists (Err e)].
        exists (Ok (zeros BLOCK)). split; [done|]. split; [|auto]. by apply len_repeatZ. }
    destruct r' as [c|e|]; [| |done].
    2:{ exists (Err e), fs. split; [|done]. by erewrite io_bind_err. }
    erewrite io_bind_ok by exact Hc. destruct Hc' as [Hlc Hcase].
    destruct (IH (at_ + 1) (with_faults w fs) Hf) as (r'' & fs' & Hr'' & Hspec'');
      [lia|unfold BLOCK in *; lia|].
    destruct r'' as [rest|e|]; [| |done].
    2:{ exists (Err e), fs'. split; [|done]. by erewrite io_bind_err. }
    erewrite io_bind_ok by exact Hr''. exists (Ok (c ++ rest)), fs'. split; [done|].
    assert (0 ≤ (first + at_) * BLOCK) by (unfold BLOCK; lia).
    apply block_view_cons; [done| | |].
    + rewrite len_slice; unfold BLOCK in *; lia.
    + rewrite slice_slice by (unfold BLOCK in *; lia). by rewrite Z.add_0_r.
    + rewrite len_slice by (unfold BLOCK in *; lia).
      rewrite slice_slice by (unfold BLOCK in *; lia).
      replace ((first + at_) * BLOCK + BLOCK) with ((first + (at_ + 1)) * BLOCK) by lia.
      by replace ((first + at_) * BLOCK + ((first + at_ + Z.of_nat (S n)) * BLOCK - (first + at_) * BLOCK))
        with ((first + (at_ + 1) + Z.of_nat n) * BLOCK) by lia.
Qed.

(** A block read inside the file never panics, and returns the file's blocks
    or zeros, never anything else. *)
Lemma read_blocks_spec bf first n w f :
  w_files w !! bf_file bf = Some f → journal_file bf → 0 ≤ first → 0 ≤ n →
  (first + n) * BLOCK ≤ len (f_vis f) →
  ∃ r fs, read_blocks bf first (n * BLOCK) w = (r, with_faults w fs) ∧
    match r with
    | Ok out => block_view (slice (f_vis f) (first * BLOCK) ((first + n) * BLOCK)) out
    | Err _ => True
    | Panic => False
    end.
Proof.
  intros Hf Hj Hfi Hn Hlen. unfold read_blocks, io_try.
  destruct (read_blocks_aligned_spec bf first (n * BLOCK) w f Hf) as (r & fs & Hr & Hspec);
    [by apply journal_file_ok|lia|unfold BLOCK; lia|]. rewrite Hr.
  destruct Hj as [Hbs Hst]. rewrite Hbs in Hspec.
  destruct r as [out|e|]; [| |done].
  - exists (Ok out), fs. split; [done|]. destruct Hspec as [-> _].
    replace (first * BLOCK + n * BLOCK) with ((first + n) * BLOCK) by lia. apply block_view_refl.
  - destruct (is_media_error e); [|by exists (Err e), fs]. cbn [negb].
    rewrite Z.div_mul by done.
    destruct (read_each_spec bf first (Z.to_nat n) 0 (with_faults w fs) f Hf) as (r & fs' & -> & H);
      try lia; [done|rewrite Z2Nat.id by lia; unfold BLOCK in *; lia|].
    exists r, fs'. split; [done|]. rewrite Z2Nat.id, Z.add_0_r in H by lia. done.
Qed.

(** ** Durability *)

(** The bytes [k] at [a] are on the device, and nothing is pending there. *)
Definition durable_at (f : File) (a : Z) (k : list byte) : Prop :=
  slice (f_dur f) a (a + len k) = k ∧
  slice (f_vis f) a (a + len k) = k ∧
  ∀ i, a ≤ i < a + len k → f_dirty f i = false ∧ f_lost f i = false.

Lemma slice_write_bytes l a k : 0 ≤ a → slice (write_bytes l a k) a (a + len k) = k.
Proof.
  intros Ha. destruct k as [|b k].
  - change (len (@nil byte)) with 0. unfold slice. by rewrite Z.add_0_r, Z.sub_diag.
  - unfold write_bytes. apply slice_splice_same; [done|]. rewrite len_grow. lia.
Qed.

Lemma durable_at_equiv f g a k : f ≡ g → durable_at f a k → durable_at g a k.
Proof.
  intros [Hv Hd Hy Hs _ _] (H1 & H2 & H3). split_and!; [by rewrite <- Hd|by rewrite <- Hv|].
  intros i Hi. rewrite <- Hy, <- Hs. auto.
Qed.

(** A durable write's bytes are durable. *)
Lemma durable_at_write_durable f a k : 0 ≤ a → durable_at (file_wr true f a k) a k.
Proof.
  intros Ha. split_and!; [by apply slice_write_bytes..|]. intros i Hi. cbn. unfold within.
  destruct (f_dirty f i), (f_lost f i); lia.
Qed.

(** A write is not durable, but its bytes are not lost either: the next
    successful sync makes them durable. *)
Definition pending_at (f : File) (a : Z) (k : list byte) : Prop :=
  slice (f_vis f) a (a + len k) = k ∧ ∀ i, a ≤ i < a + len k → f_lost f i = false.

Lemma pending_at_write f a k : 0 ≤ a → pending_at (file_wr false f a k) a k.
Proof.
  intros Ha. split; [by apply slice_write_bytes|]. intros i Hi. cbn. unfold within.
  destruct (f_lost f i); lia.
Qed.

(** A later write elsewhere keeps it pending. *)
Lemma pending_at_write_disjoint d f a k b j :
  0 ≤ a → 0 ≤ b → a + len k ≤ len (f_vis f) → b + len j ≤ a ∨ a + len k ≤ b →
  pending_at f a k → pending_at (file_wr d f b j) a k.
Proof.
  intros Ha Hb Hk Hdis [Hv Hl]. pose proof (len_nonneg j) as Hj. split.
  - rewrite <- Hv at 2. destruct (decide (0 < len j)) as [Hp|].
    + apply list_eq. intros i. rewrite !lookup_slice by done. case_decide; [|done].
      destruct d; cbn; rewrite lookup_write_bytes by done;
        rewrite decide_False, decide_True by lia; done.
    + destruct j as [|x j]; [|rewrite len_cons in *; pose proof (len_nonneg j); lia].
      by destruct d.
  - intros i Hi. specialize (Hl i Hi). destruct d; cbn; by rewrite Hl.
Qed.

Lemma pending_at_equiv f g a k : f ≡ g → pending_at f a k → pending_at g a k.
Proof.
  intros [Hv _ _ Hs _ _] (H1 & H2). split; [by rewrite <- Hv|]. intros. rewrite <- Hs. auto.
Qed.

Lemma durable_at_sync f a k :
  0 ≤ a → pending_at f a k → durable_at (file_sync f) a k.
Proof.
  intros Ha [Hv Hl]. split_and!; cbn.
  - rewrite <- Hv at 2. apply list_eq. intros i. rewrite !lookup_slice by done.
    case_decide; [|done]. apply lookup_flush. apply Hl. lia.
  - done.
  - intros i Hi. split; [done|auto].
Qed.

Lemma lookup_revert dirty i vis dur n :
  dirty (i + Z.of_nat n) = false → revert_bytes dirty i vis dur !! n = vis !! n.
Proof.
  revert i dur n. induction vis as [|b vis IH]; intros i dur n Hn; [done|].
  cbn [revert_bytes]. destruct n as [|n].
  - rewrite Z.add_0_r in Hn. by rewrite Hn.
  - cbn. apply IH. rewrite <- Hn. f_equal. lia.
Qed.

Lemma len_revert dirty i vis dur : len (revert_bytes dirty i vis dur) = len vis.
Proof.
  revert i dur. induction vis as [|b vis IH]; intros i dur; [done|].
  cbn [revert_bytes]. by rewrite !len_cons, IH.
Qed.

Lemma lookup_reverted dirty i vis dur n :
  dirty (i + Z.of_nat n) = true → length vis = length dur →
  revert_bytes dirty i vis dur !! n = dur !! n.
Proof.
  revert i dur n. induction vis as [|b vis IH]; intros i [|c dur] n Hn Hl; try done.
  cbn [revert_bytes head tail]. destruct n as [|n].
  - rewrite Z.add_0_r in Hn. by rewrite Hn.
  - cbn. apply IH; [|by injection Hl]. rewrite <- Hn. f_equal. lia.
Qed.

Lemma sync_file_spec h f w :
  w_files w !! h = Some f →
  ∃ r fs f' tr, sync_file h w = (r, with_file w h f' fs tr) ∧
    match r with
    | Ok _ => f' = file_sync f ∧ tr = [Ev_sync h]
    | Err _ => (∃ revert, f' = file_sync_error revert f) ∧ tr = []
    | Panic => False
    end.
Proof.
  intros Hf. unfold sync_file. erewrite io_bind_ok by (by apply get_file_ok).
  destruct (next_fault_spec w) as (fault & fs & Hnf & _). erewrite io_bind_ok by exact Hnf.
  destruct fault as [|n|kind landed].
  3:{ eexists (Err kind), fs, _, []. split; [|split; [by eexists|done]].
      cbn. unfold with_file. by rewrite app_nil_r. }
  all: eexists (Ok ()), fs, _, [_]; done.
Qed.

(** ** Journal writes: whole blocks, durable or not *)

Lemma write_blocks_io_spec durable bf bi buf w f :
  w_files w !! bf_file bf = Some f → journal_file bf → 0 ≤ bi → len buf mod BLOCK = 0 →
  ∃ r fs f' tr, write_blocks_io durable bf bi buf w = (r, with_file w (bf_file bf) f' fs tr) ∧
    Forall (ev_writes durable (bf_file bf) (bi * BLOCK) (bi * BLOCK + len buf)) tr ∧
    match r with
    | Ok _ => f' ≡ file_wr durable f (bi * BLOCK) buf ∧ (0 < len buf → tr ≠ [])
    | Err _ => bi * BLOCK + len buf ≤ len (f_vis f) → bi * BLOCK + len buf ≤ len (f_dur f) →
               touched (bi * BLOCK) (bi * BLOCK + len buf) f f'
    | Panic => False
    end.
Proof.
  intros Hf Hj Hbi Hm. unfold write_blocks_io. rewrite Hm. erewrite io_bind_ok by reflexivity.
  destruct (Z.eqb_spec (len buf) 0) as [Hz|Hz].
  - exists (Ok ()), (w_faults w), f, []. rewrite with_file_id, with_faults_id by done.
    split; [done|]. split; [constructor|]. split; [|lia].
    destruct buf as [|b buf]; [|rewrite len_cons in Hz; pose proof (len_nonneg buf); lia].
    destruct durable; split; cbn; try done; intros i; unfold within;
      change (len (@nil byte)) with 0; destruct (f_dirty f i), (f_lost f i); lia.
  - destruct (transfer_blocks_owned_spec durable bf bi buf w f Hf (journal_file_ok _ Hj) Hbi)
      as (r & fs & f' & tr & Hrun & Htr & Hpost).
    destruct Hj as [Hbs _]. rewrite Hbs in *.
    exists r, fs, f', tr. split; [done|]. split; [done|].
    destruct r; [by destruct Hpost| |done]. intros. by apply extended_touched.
Qed.

(** ** Power loss *)

(** What a power loss leaves of a file: the device's bytes, except that the
    bytes some unsynced write touched hold anything. *)
Record crash_file (f g : File) : Prop := {
  cr_vis : f_vis g = f_dur g;
  cr_len : len (f_dur g) = len (f_dur f);
  cr_keep i : f_dirty f (Z.of_nat i) = false → f_lost f (Z.of_nat i) = false →
    f_dur g !! i = f_dur f !! i;
  cr_clean i : f_dirty g i = false ∧ f_lost g i = false;
  cr_bad : f_bad g = f_bad f;
  cr_align : f_align g = f_align f;
}.

Lemma durable_at_crash f g a k :
  0 ≤ a → durable_at f a k → crash_file f g → durable_at g a k.
Proof.
  intros Ha (Hd & Hv & Hc) [Cv Cl Ck Cc _ _].
  assert (slice (f_dur g) a (a + len k) = k) as E.
  { rewrite <- Hd at 2. apply list_eq. intros i. rewrite !lookup_slice by done.
    case_decide; [|done]. destruct (Hc (Z.of_nat (Z.to_nat a + i))) as [? ?]; [lia|].
    by apply Ck. }
  split_and!; [done|by rewrite Cv|auto].
Qed.

(** Nothing done elsewhere in the file takes durability away. *)
Lemma durable_at_touched x y f g a k :
  0 ≤ a → y ≤ a ∨ a + len k ≤ x → touched x y f g → durable_at f a k → durable_at g a k.
Proof.
  intros Ha Hdis [_ _ Tv Td Ty Tl _ _] (Hd & Hv & Hc).
  assert (∀ l l' : list byte, (∀ i, ¬ (x ≤ Z.of_nat i < y) → l' !! i = l !! i) →
    slice l' a (a + len k) = slice l a (a + len k)) as Hs.
  { intros l l' H. apply list_eq. intros i. rewrite !lookup_slice by done.
    case_decide; [|done]. apply H. lia. }
  split_and!; [by rewrite (Hs (f_dur f))|by rewrite (Hs (f_vis f))|].
  intros i Hi. rewrite Ty, Tl by lia. auto.
Qed.

Lemma durable_at_wr_disjoint d f a k b j :
  0 ≤ a → 0 ≤ b → b + len j ≤ len (f_vis f) → b + len j ≤ len (f_dur f) →
  b + len j ≤ a ∨ a + len k ≤ b → durable_at f a k → durable_at (file_wr d f b j) a k.
Proof.
  intros. apply (durable_at_touched b (b + len j) f); [done|done| |done].
  apply file_wr_touched; lia.
Qed.

(** ** Reads without transient faults: the medium's own view *)

(** The file as its medium delivers it: a block it cannot read is zeros. *)
Definition medium (f : File) : list byte :=
  imap (fun i b => if decide (Z.of_nat i / BLOCK ∈ f_bad f) then x00 else b) (f_vis f).

Lemma lookup_medium f i :
  medium f !! i =
  (fun b => if decide (Z.of_nat i / BLOCK ∈ f_bad f) then x00 else b) <$> f_vis f !! i.
Proof. apply list_lookup_imap. Qed.

Lemma len_medium f : len (medium f) = len (f_vis f).
Proof. unfold medium, len. by rewrite length_imap. Qed.

Lemma medium_clean f : f_bad f = ∅ → medium f = f_vis f.
Proof.
  intros Hb. apply list_eq. intros i. rewrite lookup_medium, Hb.
  destruct (f_vis f !! i); cbn; [|done]. by rewrite decide_False by set_solver.
Qed.

(** A file a journal has open: its constraints divide the block size and its
    size is a number of blocks. *)
Record open_file (bf : BlockFile) (f : File) : Prop := {
  of_bf : journal_file bf;
  of_offset : 0 < c_offset (f_align f) ∧ BLOCK mod c_offset (f_align f) = 0;
  of_length : 0 < c_length (f_align f) ∧ BLOCK mod c_length (f_align f) = 0;
  of_size : len (f_vis f) ≤ u64_max;
}.

Lemma block_multiple_aligned n c : 0 < c → BLOCK mod c = 0 → (n * BLOCK) mod c = 0.
Proof.
  intros Hc H. apply Z.mod_divide in H as [q Hq]; [|lia]. rewrite Hq, Z.mul_assoc.
  apply Z.mod_mul. lia.
Qed.

Lemma open_file_check bf f x n :
  open_file bf f → IoConstraints_check (f_align f) (x * BLOCK) (n * BLOCK) = true.
Proof.
  intros [_ [] [] _]. unfold IoConstraints_check.
  rewrite !block_multiple_aligned by done. done.
Qed.

Lemma unreadable_blocks f x n :
  0 < n → unreadable f (x * BLOCK) ((x + n) * BLOCK) = true ↔ ∃ i, x ≤ i < x + n ∧ i ∈ f_bad f.
Proof.
  intros Hn. unfold unreadable.
  rewrite (proj2 (Z.ltb_lt _ _)) by (unfold BLOCK; lia). cbn [andb].
  rewrite Z.div_mul by done.
  replace ((x + n) * BLOCK - 1) with (BLOCK - 1 + (x + n - 1) * BLOCK) by lia.
  rewrite Z.div_add, Z.div_small by (unfold BLOCK; lia).
  rewrite existsb_exists. setoid_rewrite in_seq. split.
  - intros (i & Hi & Hb). apply bool_decide_eq_true in Hb. exists (x + Z.of_nat i). split; [lia|done].
  - intros (i & Hi & Hb). exists (Z.to_nat (i - x)). split; [lia|].
    apply bool_decide_eq_true. replace (x + Z.of_nat (Z.to_nat (i - x))) with i by lia. done.
Qed.

(** Readable blocks are the file's; an unreadable one is zeros. *)
Lemma medium_readable f x n :
  0 ≤ x → 0 < n → unreadable f (x * BLOCK) ((x + n) * BLOCK) = false →
  slice (medium f) (x * BLOCK) ((x + n) * BLOCK) = slice (f_vis f) (x * BLOCK) ((x + n) * BLOCK).
Proof.
  intros Hx Hn Hu. apply list_eq. intros i. assert (0 ≤ x * BLOCK) by (unfold BLOCK; lia).
  rewrite !lookup_slice by done. case_decide; [|done].
  rewrite lookup_medium. destruct (f_vis f !! _); cbn; [|done].
  rewrite decide_False; [done|]. intros Hb. apply not_true_iff_false in Hu. apply Hu, unreadable_blocks; [done|].
  eexists. split; [|exact Hb]. split.
  - apply Z.div_le_lower_bound; [done|lia].
  - apply Z.div_lt_upper_bound; [done|lia].
Qed.

Lemma medium_unreadable f x :
  0 ≤ x → (x + 1) * BLOCK ≤ len (f_vis f) → unreadable f (x * BLOCK) ((x + 1) * BLOCK) = true →
  slice (medium f) (x * BLOCK) ((x + 1) * BLOCK) = zeros BLOCK.
Proof.
  intros Hx Hl Hu. apply unreadable_blocks in Hu as (i & Hi & Hb); [|lia].
  assert (i = x) as -> by lia. apply list_eq. intros i.
  assert (0 ≤ x * BLOCK) by (unfold BLOCK; lia).
  rewrite lookup_slice by done. unfold repeatZ. case_decide as Hd.
  - rewrite lookup_replicate_2 by lia. rewrite lookup_medium.
    destruct (f_vis f !! _) eqn:E; cbn.
    2:{ apply lookup_ge_None in E. unfold len in Hl. lia. }
    rewrite decide_True; [done|]. replace (Z.of_nat (Z.to_nat (x * BLOCK) + i)) with (Z.of_nat i + x * BLOCK) by lia.
      rewrite Z.div_add, Z.div_small by (unfold BLOCK in *; lia). done.
  - symmetry. apply lookup_ge_None. rewrite length_replicate. lia.
Qed.

Lemma read_at_nofault bf h f w x n :
  w_files w !! h = Some f → w_faults w = [] → open_file bf f → 0 ≤ x → 0 < n →
  (x + n) * BLOCK ≤ len (f_vis f) →
  read_at h (x * BLOCK) (n * BLOCK) w =
    (if unreadable f (x * BLOCK) ((x + n) * BLOCK) then Err OtherKind
     else Ok (slice (f_vis f) (x * BLOCK) ((x + n) * BLOCK)), w).
Proof.
  intros Hf Hw Hof Hx Hn Hl. unfold read_at.
  erewrite io_bind_ok by (by apply get_file_ok).
  erewrite io_bind_ok by (by apply next_fault_nil).
  rewrite (open_file_check bf) by done. cbn [negb]. unfold moved, file_len.
  rewrite Z.min_l, Z.max_r by (unfold BLOCK in *; lia).
  replace (x * BLOCK + n * BLOCK) with ((x + n) * BLOCK) by lia. by destruct (unreadable _ _ _).
Qed.

Lemma BlockFile_range_in bf x n f :
  open_file bf f → 0 ≤ x → 0 < n → (x + n) * BLOCK ≤ len (f_vis f) →
  BlockFile_range bf x (n * BLOCK) = Ok (x * BLOCK).
Proof.
  intros [[Hbs _] _ _ Hs] Hx Hn Hl. unfold BlockFile_range. rewrite Hbs, Z.mod_mul by done.
  rewrite (proj2 (Z.eqb_neq _ _)) by (unfold BLOCK; lia). cbn [orb negb].
  rewrite !(proj2 (Z.ltb_ge _ _)); [done| |]; unfold BLOCK in *; lia.
Qed.

(** A read of whole blocks without transient faults. *)
Lemma read_blocks_aligned_nofault bf f w x n :
  w_files w !! bf_file bf = Some f → w_faults w = [] → open_file bf f → 0 ≤ x → 0 < n →
  (x + n) * BLOCK ≤ len (f_vis f) →
  read_blocks_aligned bf x (n * BLOCK) w =
    (if unreadable f (x * BLOCK) ((x + n) * BLOCK) then Err OtherKind
     else Ok (slice (f_vis f) (x * BLOCK) ((x + n) * BLOCK)), w).
Proof.
  intros Hf Hw Hof Hx Hn Hl. unfold read_blocks_aligned.
  rewrite (BlockFile_range_in bf x n f) by done. erewrite io_bind_ok by reflexivity.
  pose proof (read_at_nofault bf (bf_file bf) f w x n Hf Hw Hof Hx Hn Hl) as Hr.
  assert (0 ≤ x * BLOCK ∧ 0 < n * BLOCK) as [? ?] by (unfold BLOCK; lia).
  destruct (unreadable _ _ _); [by apply io_bind_err|].
  erewrite io_bind_ok by exact Hr.
  assert (len (slice (f_vis f) (x * BLOCK) ((x + n) * BLOCK)) = n * BLOCK) as Hln
    by (rewrite len_slice; lia).
  rewrite Hln. rewrite (proj2 (Z.eqb_neq _ _)) by lia. rewrite Z.ltb_irrefl.
  rewrite splice_whole by (rewrite Hln, len_repeatZ; lia). done.
Qed.

Lemma read_blocks_exact_nofault bf f w x n :
  w_files w !! bf_file bf = Some f → w_faults w = [] → open_file bf f → 0 ≤ x → 0 < n →
  (x + n) * BLOCK ≤ len (f_vis f) →
  read_blocks_exact bf x (n * BLOCK) w =
    (if unreadable f (x * BLOCK) ((x + n) * BLOCK) then Err OtherKind
     else Ok (slice (f_vis f) (x * BLOCK) ((x + n) * BLOCK)), w).
Proof.
  intros Hf Hw Hof Hx Hn Hl. unfold read_blocks_exact.
  rewrite (BlockFile_range_in bf x n f) by done. erewrite io_bind_ok by reflexivity.
  assert (0 ≤ x * BLOCK ∧ 0 < n * BLOCK) as [? ?] by (unfold BLOCK; lia).
  assert (len (zeros (n * BLOCK)) = n * BLOCK) as Hz by (apply len_repeatZ; lia).
  pose proof (read_at_nofault bf (bf_file bf) f w x n Hf Hw Hof Hx Hn Hl) as Hr.
  generalize (Z.to_nat (n * BLOCK)). intros k. cbn [read_from]. rewrite Hz.
  rewrite (proj2 (Z.leb_gt _ _)) by lia.
  assert (align_down bf 0 = 0) as ->.
  { destruct Hof as [[_ Hst] _ _ _]. pose proof (align_down_range bf 0 Hst ltac:(lia)). lia. }
  rewrite Z.add_0_r, Z.sub_0_r.
  destruct (unreadable _ _ _); [by apply io_bind_err|].
  erewrite io_bind_ok by exact Hr.
  assert (len (slice (f_vis f) (x * BLOCK) ((x + n) * BLOCK)) = n * BLOCK) as Hln
    by (rewrite len_slice; lia).
  rewrite Hln, Z.add_0_l. rewrite (proj2 (Z.leb_gt _ _)) by lia.
  rewrite splice_whole by (by rewrite Hln, Hz).
  destruct k as [|k]; cbn [read_from]; by rewrite Hln, Z.leb_refl.
Qed.

Lemma read_each_nofault bf f w first n at_ :
  w_files w !! bf_file bf = Some f → w_faults w = [] → open_file bf f → 0 ≤ first → 0 ≤ at_ →
  (first + at_ + Z.of_nat n) * BLOCK ≤ len (f_vis f) →
  read_each bf first n at_ w =
    (Ok (slice (medium f) ((first + at_) * BLOCK) ((first + at_ + Z.of_nat n) * BLOCK)), w).
Proof.
  intros Hf Hw Hof Hfi. revert at_. induction n as [|n IH]; intros at_ Ha Hl; cbn [read_each].
  - rewrite Z.add_0_r. unfold slice. by rewrite Z.sub_diag.
  - set (x := first + at_) in *.
    assert ((x + 1) * BLOCK ≤ len (f_vis f)) as Hl1 by (unfold BLOCK in *; lia).
    pose proof (read_blocks_exact_nofault bf f w x 1 Hf Hw Hof ltac:(lia) ltac:(lia) Hl1) as Hr.
    rewrite Z.mul_1_l in Hr.
    erewrite io_bind_ok with (a := slice (medium f) (x * BLOCK) ((x + 1) * BLOCK)) (w' := w).
    + erewrite io_bind_ok by (apply IH; fold x; [lia|unfold BLOCK in *; lia]). cbn.
      unfold io_ret. do 2 f_equal. replace (first + (at_ + 1)) with (x + 1) by lia.
      rewrite <- slice_split by (unfold BLOCK; lia). f_equal; lia.
    + unfold io_try. rewrite Hr. destruct (unreadable _ _ _) eqn:E; cbn.
      * unfold io_ret. by rewrite medium_unreadable by (done || lia).
      * unfold io_ret. by rewrite medium_readable by (done || lia).
Qed.

Lemma read_blocks_nofault bf f w x n :
  w_files w !! bf_file bf = Some f → w_faults w = [] → open_file bf f → 0 ≤ x → 0 < n →
  (x + n) * BLOCK ≤ len (f_vis f) →
  read_blocks bf x (n * BLOCK) w =
    (Ok (slice (medium f) (x * BLOCK) ((x + n) * BLOCK)), w).
Proof.
  intros Hf Hw Hof Hx Hn Hl. unfold read_blocks, io_try.
  rewrite (read_blocks_aligned_nofault bf f w x n) by done.
  destruct (unreadable _ _ _) eqn:E; cbn [is_media_error negb].
  - rewrite Z.div_mul by done. rewrite (read_each_nofault bf f) by (done || lia).
    rewrite Z.add_0_r, Z2Nat.id by lia. done.
  - unfold io_ret. by rewrite medium_readable.
Qed.

(** A byte read is a slice of what the medium delivers. *)
Lemma read_bytes_nofault bf f w off l :
  w_files w !! bf_file bf = Some f → w_faults w = [] → open_file bf f → 0 ≤ off → 0 ≤ l →
  len (f_vis f) mod BLOCK = 0 → off + l ≤ len (f_vis f) →
  read_bytes bf off l w = (Ok (slice (medium f) off (off + l)), w).
Proof.
  intros Hf Hw Hof Ho Hl Hm Hr. unfold read_bytes. destruct (Z.eqb_spec l 0) as [->|].
  { rewrite Z.add_0_r. unfold slice. by rewrite Z.sub_diag. }
  set (s := off / BLOCK). pose proof (Z.div_mod off BLOCK ltac:(done)) as Hdm. fold s in Hdm.
  pose proof (Z.mod_pos_bound off BLOCK ltac:(done)) as Hmb.
  set (e := align_up (off + l) BLOCK).
  pose proof (align_up_ge (off + l) BLOCK ltac:(done)) as He1. fold e in He1.
  pose proof (align_up_mod (off + l) BLOCK ltac:(done)) as He2. fold e in He2.
  assert (e ≤ len (f_vis f)) as He3.
  { unfold e. rewrite <- (align_up_id (len (f_vis f)) BLOCK) by done. by apply align_up_mono. }
  apply Z.div_exact in He2; [|done]. set (q := e / BLOCK) in *.
  replace (e - s * BLOCK) with ((q - s) * BLOCK) by lia. rewrite !Z.div_mul by done.
  assert (0 ≤ s) by (apply Z.div_pos; done || lia).
  erewrite io_bind_ok by (apply (read_blocks_nofault bf f); try done; unfold BLOCK in *; lia).
  assert (len (slice (medium f) (s * BLOCK) ((s + (q - s)) * BLOCK)) = (q - s) * BLOCK) as Hls.
  { rewrite len_slice by (rewrite ?len_medium; unfold BLOCK in *; lia). lia. }
  rewrite slice_checked_ok by (rewrite ?Hls; unfold BLOCK in *; lia). cbn.
  unfold io_ret. rewrite slice_slice by (unfold BLOCK in *; lia).
  do 2 f_equal. f_equal; lia.
Qed.

(** ** Reads under any fault schedule *)

Lemma read_blocks_reads bf x n w f :
  w_files w !! bf_file bf = Some f → journal_file bf → 0 ≤ x → 0 ≤ n →
  (x + n) * BLOCK ≤ len (f_vis f) →
  reads (read_blocks bf x (n * BLOCK)) w
    (block_view (slice (f_vis f) (x * BLOCK) ((x + n) * BLOCK))).
Proof. intros. by apply read_blocks_spec. Qed.

(** A byte range inside the file reads whole or fails. *)
Lemma read_bytes_reads bf off l w f :
  w_files w !! bf_file bf = Some f → journal_file bf → 0 ≤ off → 0 ≤ l →
  len (f_vis f) mod BLOCK = 0 → off + l ≤ len (f_vis f) →
  reads (read_bytes bf off l) w (fun out => len out = l).
Proof.
  intros Hf Hj Ho Hl Hm Hr. unfold read_bytes. destruct (Z.eqb_spec l 0) as [->|].
  { by apply reads_ret. }
  set (s := off / BLOCK). pose proof (Z.div_mod off BLOCK ltac:(done)) as Hdm. fold s in Hdm.
  pose proof (Z.mod_pos_bound off BLOCK ltac:(done)) as Hmb.
  set (e := align_up (off + l) BLOCK).
  pose proof (align_up_ge (off + l) BLOCK ltac:(done)) as He1. fold e in He1.
  pose proof (align_up_mod (off + l) BLOCK ltac:(done)) as He2. fold e in He2.
  assert (e ≤ len (f_vis f)) as He3.
  { unfold e. rewrite <- (align_up_id (len (f_vis f)) BLOCK) by done. by apply align_up_mono. }
  apply Z.div_exact in He2; [|done]. set (q := e / BLOCK) in *.
  replace (e - s * BLOCK) with ((q - s) * BLOCK) by lia. rewrite !Z.div_mul by done.
  assert (0 ≤ s) by (apply Z.div_pos; done || lia).
  eapply reads_bind; [apply (read_blocks_reads _ _ _ _ f); try done; unfold BLOCK in *; lia|].
  intros out fs [Hlo _]. rewrite len_slice in Hlo by (unfold BLOCK in *; lia).
  assert (len out = (q - s) * BLOCK) as Hlo' by lia.
  eapply reads_expect; [apply slice_checked_ok|cbn; rewrite len_slice]; unfold BLOCK in *; lia.
Qed.

(** ** Properties of the journal's reads *)

(** A block the medium cannot read reads as zeros: a read over bad blocks
    returns every readable block as it is and each bad one as zeros, so that
    one bad block costs no other; a failure that is not the medium's is an
    error.  Without transient failures the result is exact. *)
Theorem bad_blocks_read_as_zeros bf first n w f :
  w_files w !! bf_file bf = Some f → open_file bf f → 0 ≤ first → 0 < n →
  (first + n) * BLOCK ≤ len (f_vis f) →
  reads (read_blocks bf first (n * BLOCK)) w
    (block_view (slice (f_vis f) (first * BLOCK) ((first + n) * BLOCK))) ∧
  (w_faults w = [] →
   read_blocks bf first (n * BLOCK) w =
     (Ok (slice (medium f) (first * BLOCK) ((first + n) * BLOCK)), w)).
Proof.
  intros Hf Hof Hi Hn Hl. split.
  - apply read_blocks_reads; try done; [apply Hof|lia].
  - intros Hw. by apply read_blocks_nofault.
Qed.

(** A synced write survives a power loss: bytes written and then synced
    without an error are on the device, and every file a power loss can
    leave has them. *)
Theorem synced_write_survives durable bf bi buf w f w1 w2 f2 g :
  w_files w !! bf_file bf = Some f → journal_file bf → 0 ≤ bi → len buf mod BLOCK = 0 →
  write_blocks_io durable bf bi buf w = (Ok (), w1) → sync_file (bf_file bf) w1 = (Ok (), w2) →
  w_files w2 !! bf_file bf = Some f2 → crash_file f2 g →
  slice (f_vis g) (bi * BLOCK) (bi * BLOCK + len buf) = buf.
Proof.
  intros Hf Hj Hi Hb Hw Hs Hf2 Hcr. assert (0 ≤ bi * BLOCK) as H0 by (unfold BLOCK; lia).
  destruct (write_blocks_io_spec durable bf bi buf w f Hf Hj Hi Hb)
    as (r & fs & f1 & tr & Hrun & _ & Hpost).
  rewrite Hw in Hrun. injection Hrun as <- ->. destruct Hpost as [Heq _].
  destruct (sync_file_spec (bf_file bf) f1 (with_file w (bf_file bf) f1 fs tr)
    ltac:(apply lookup_insert_eq)) as (r & fs' & f3 & tr' & Hrun & Hpost).
  rewrite Hs in Hrun. injection Hrun as <- ->. destruct Hpost as [-> _].
  rewrite with_file_with_file in Hf2. cbn in Hf2. rewrite lookup_insert_eq in Hf2.
  injection Hf2 as <-.
  assert (durable_at (file_sync f1) (bi * BLOCK) buf) as Hd.
  { apply durable_at_sync; [done|]. eapply pending_at_equiv; [symmetry; exact Heq|].
    destruct durable; [|by apply pending_at_write].
    destruct (durable_at_write_durable f (bi * BLOCK) buf H0) as (_ & Hv & Hc).
    split; [done|]. intros i Hii. by apply Hc. }
  by apply (durable_at_crash _ g _ _ H0 Hd Hcr).
Qed.
