(* ===== verification/MetaFile.v ===== *)
(** * The meta file (crates/moonpool-journal/src/meta.rs, error.rs)

    The metainfo lives in two checksummed copies far apart in one file.  An
    update writes copy A durably, then copy B durably; an open chooses the
    valid copy with the higher sequence number and rewrites the other from
    it.  [MetaFile] is the block file; each method is a computation over the
    storage world.

    The crash theorem ([update_crash]): wherever an update is cut, by a
    failing call or by a power loss inside a call, a later [choose] finds the
    old value or the new one, and the new one once the update returned. *)

From S2P Require Import Prelude Crc Format Names Storage JournalIo.

(** error.rs, [OpenError] *)
Inductive OpenError :=
  | OE_Io (e : ErrorKind)
  | OE_InvalidConfig (why : string)
  | OE_AlreadyExists
  | OE_DoubleFault (batch index : Z)
  | OE_LostBatch (batch : Z)
  | OE_MetaLost
  | OE_BadSegment (name : str) (reason : string)
  | OE_WrongJournal (found : Z).

#[global] Instance OpenError_eq_dec : EqDecision OpenError.
Proof. solve_decision. Defined.

(** [?] on an [io::Result] in a function that returns [OpenError] *)
Definition lift_io {A} (m : IO ErrorKind A) : IO OpenError A := io_map_err OE_Io m.

Definition META_NAME : str := lit "meta".
Definition META_TMP : str := lit "meta.tmp".

Inductive Copy := Copy_A | Copy_B.

#[global] Instance Copy_eq_dec : EqDecision Copy.
Proof. solve_decision. Defined.

Definition Copy_as_u8 (c : Copy) : Z := match c with Copy_A => 0 | Copy_B => 1 end.

Definition Copy_block (c : Copy) : Z :=
  match c with Copy_A => 0 | Copy_B => META_COPY_B_AT / BLOCK end.

Definition other_copy (c : Copy) : Copy := match c with Copy_A => Copy_B | Copy_B => Copy_A end.

Section WithCrc.
Context {C : Crc32c}.

(** The match of [MetaFile::choose] on the two decoded copies. *)
Definition choose_copies (a b : option Meta) : res OpenError (Meta * option Copy) :=
  match a, b with
  | Some a, Some b =>
      if decide (a = b) then Ok (a, None)
      else if m_seq a =? m_seq b then Err OE_MetaLost
      else if m_seq b <? m_seq a then Ok (a, Some Copy_B)
      else Ok (b, Some Copy_A)
  | Some a, None => Ok (a, Some Copy_B)
  | None, Some b => Ok (b, Some Copy_A)
  | None, None => Err OE_MetaLost
  end.

(** [MetaFile::read] *)
Definition MetaFile_read (self : BlockFile) (copy : Copy) : IO ErrorKind (option Meta) :=
  let! buf := read_blocks self (Copy_block copy) (1 * BLOCK) in
  io_expect (Meta_decode buf (Copy_as_u8 copy)).

(** [MetaFile::choose] *)
Definition MetaFile_choose (self : BlockFile) (journal : JournalId) :
    IO OpenError (Meta * option Copy) :=
  let! a := lift_io (MetaFile_read self Copy_A) in
  let! b := lift_io (MetaFile_read self Copy_B) in
  match choose_copies a b with
  | Ok (meta, stale) =>
      if m_journal meta =? journal then io_ret (meta, stale)
      else io_err (OE_WrongJournal (m_journal meta))
  | Err e => io_err e
  | Panic => io_panic
  end.

(** [MetaFile::write_durable] *)
Definition MetaFile_write_durable (self : BlockFile) (copy : Copy) (meta : Meta) :
    IO ErrorKind () :=
  let! block := io_expect (Meta_encode meta (Copy_as_u8 copy) (block_buf BLOCK)) in
  write_blocks_durable self (Copy_block copy) block.

(** [MetaFile::update]: copy A, durable, then copy B, durable *)
Definition MetaFile_update (self : BlockFile) (meta : Meta) : IO ErrorKind () :=
  MetaFile_write_durable self Copy_A meta ;!
  MetaFile_write_durable self Copy_B meta.

Definition MetaFile_sync (self : BlockFile) : IO ErrorKind () := sync_file (bf_file self).

(** [open_file] *)
Definition meta_open_file (dir : str) : IO ErrorKind BlockFile :=
  let! file := open_existing (path_in dir META_NAME) in
  BlockFile_new file BLOCK.

(** [MetaFile::open] *)
Definition MetaFile_open (dir : str) (journal : JournalId) :
    IO OpenError (option (BlockFile * Meta * bool)) :=
  let! there := lift_io (exists_ (path_in dir META_NAME)) in
  if negb there then io_ret None else
  let! file := lift_io (meta_open_file dir) in
  let! blocks := lift_io (size_in_blocks file) in
  if negb (blocks =? META_FILE_BLOCKS) then io_err OE_MetaLost else
  lift_io (MetaFile_sync file) ;!
  let! '(meta, stale) := MetaFile_choose file journal in
  match stale with
  | Some copy =>
      lift_io (MetaFile_write_durable file copy meta) ;! io_ret (Some (file, meta, true))
  | None => io_ret (Some (file, meta, false))
  end.

(** [MetaFile::peek]: read only *)
Definition MetaFile_peek (dir : str) (journal : JournalId) : IO OpenError (option Meta) :=
  let! there := lift_io (exists_ (path_in dir META_NAME)) in
  if negb there then io_ret None else
  let! file := lift_io (meta_open_file dir) in
  let! blocks := lift_io (size_in_blocks file) in
  if negb (blocks =? META_FILE_BLOCKS) then io_err OE_MetaLost else
  let! '(meta, _) := MetaFile_choose file journal in
  io_ret (Some meta).

(** The image [MetaFile::create] writes: both copies in one buffer *)
Definition meta_image (meta : Meta) : option (list byte) :=
  let image := block_buf (META_FILE_BLOCKS * BLOCK) in
  let* a := Meta_encode meta (Copy_as_u8 Copy_A) (slice image 0 BLOCK) in
  let* image := copy_from_slice image 0 a in
  let* b := Meta_encode meta (Copy_as_u8 Copy_B)
              (slice image META_COPY_B_AT (META_COPY_B_AT + BLOCK)) in
  copy_from_slice image META_COPY_B_AT b.

(** [MetaFile::create] *)
Definition MetaFile_create (dir : str) (meta : Meta) : IO OpenError BlockFile :=
  let temporary := path_in dir META_TMP in
  let! there := lift_io (exists_ temporary) in
  (if there then lift_io (delete_ temporary) else io_ret tt) ;!
  let! h := lift_io (open_create_new temporary) in
  let! file := lift_io (BlockFile_new h BLOCK) in
  let! image := io_expect (meta_image meta) in
  lift_io (write_blocks file 0 image) ;!
  lift_io (sync_file (bf_file file)) ;!
  lift_io (rename temporary (path_in dir META_NAME)) ;!
  lift_io (sync_dir dir) ;!
  lift_io (meta_open_file dir).

(** [remove_leftover] *)
Definition remove_leftover (dir : str) : IO ErrorKind () :=
  let temporary := path_in dir META_TMP in
  let! there := exists_ temporary in
  if there then delete_ temporary else io_ret tt.

(** ** What the two copies of a file hold *)

Definition copy_at (c : Copy) : Z := Copy_block c * BLOCK.

(** The copy a reader of the visible bytes decodes; a panic of the decoder
    is impossible on a whole block. *)
Definition copy_in (l : list byte) (c : Copy) : option Meta :=
  match Meta_decode (slice l (copy_at c) (copy_at c + BLOCK)) (Copy_as_u8 c) with
  | Some m => m
  | None => None
  end.

Context {L : Crc32cLaws C}.

(** A block that encodes [m] as copy [c]. *)
Definition is_copy (c : Copy) (m : Meta) (block : list byte) : Prop :=
  len block = BLOCK ∧ Meta_decode block (Copy_as_u8 c) = Some (Some m).

Lemma encode_copy c m :
  wf_meta m →
  ∃ block, Meta_encode m (Copy_as_u8 c) (block_buf BLOCK) = Some block ∧ is_copy c m block.
Proof.
  intros Hm. assert (len (block_buf BLOCK) = BLOCK) as Hl by (by apply len_repeatZ).
  destruct (Meta_encode_spec m (Copy_as_u8 c) (block_buf BLOCK)) as (out & He & Hlo & Hd & _).
  - done.
  - destruct c; unfold in_u; cbn; lia.
  - lia.
  - exists out. split; [done|]. split; [lia|]. rewrite Hd, Z.eqb_refl. done.
Qed.

Lemma is_copy_in l c m block :
  is_copy c m block → slice l (copy_at c) (copy_at c + BLOCK) = block → copy_in l c = Some m.
Proof. intros [_ Hd] Hs. unfold copy_in. by rewrite Hs, Hd. Qed.

Lemma copy_at_bounds c : 0 ≤ copy_at c ∧ copy_at c + BLOCK ≤ META_FILE_BLOCKS * BLOCK.
Proof. by destruct c. Qed.

Lemma copies_disjoint : copy_at Copy_A + BLOCK ≤ copy_at Copy_B.
Proof. done. Qed.

(** A block of zeros holds no copy: a block the medium fails to read is a
    damaged copy. *)
Lemma Meta_decode_zeros c : Meta_decode (zeros BLOCK) c = Some None.
Proof.
  unfold Meta_decode, get_u32. rewrite get_slice by (rewrite ?len_repeatZ; done || (cbn; lia)).
  rewrite slice_repeatZ by (cbn; unfold BLOCK; lia). done.
Qed.

(** ** Reading and choosing *)

Definition meta_file_ok (bf : BlockFile) (f : File) : Prop :=
  journal_file bf ∧ len (f_vis f) = META_FILE_BLOCKS * BLOCK.

(** A copy reads as what is there, or as damaged when the medium fails. *)
Lemma MetaFile_read_spec bf f w c :
  w_files w !! bf_file bf = Some f → meta_file_ok bf f →
  ∃ r fs, MetaFile_read bf c w = (r, with_faults w fs) ∧
    match r with
    | Ok m => m = copy_in (f_vis f) c ∨ m = None
    | Err _ => True
    | Panic => False
    end.
Proof.
  intros Hf [Hj Hlen]. unfold MetaFile_read. pose proof (copy_at_bounds c) as Hb.
  unfold copy_at in Hb. rewrite <- Hlen in Hb.
  destruct (read_blocks_spec bf (Copy_block c) 1 w f Hf Hj) as (r & fs & Hr & Hspec);
    [by destruct c|lia|lia|].
  destruct r as [out|e|]; [| |done].
  2:{ exists (Err e), fs. split; [|done]. by erewrite io_bind_err. }
  erewrite io_bind_ok by exact Hr. destruct Hspec as [Hl Hv].
  replace ((Copy_block c + 1) * BLOCK) with (Copy_block c * BLOCK + BLOCK) in Hl, Hv by lia.
  assert (0 < BLOCK) by done.
  rewrite len_slice in Hl by lia.
  assert (len out = BLOCK) as Hlo by lia.
  destruct (Hv 0) as [E|E]; [done|rewrite len_slice; lia| |];
    rewrite Z.mul_0_l, Z.add_0_l, Z.mul_1_l, slice_all in E by lia.
  - rewrite slice_slice in E by lia. rewrite Z.add_0_r in E.
    unfold copy_in, copy_at. rewrite <- E.
    destruct (Meta_decode_total out (Copy_as_u8 c)) as [m Hm]; [lia|]. rewrite Hm.
    exists (Ok m), fs. auto.
  - rewrite E, Meta_decode_zeros. exists (Ok None), fs. auto.
Qed.

(** Which metainfo an open goes by: with two copies, the one of the higher
    sequence number, reporting the other stale; with one, that one; with
    none, or with two different copies of one sequence number, the metainfo
    is lost, which is an error and never a guess. *)
Theorem metainfo_choice a b :
  match choose_copies a b with
  | Ok (m, stale) =>
      (a = Some m ∨ b = Some m) ∧
      (∀ n, a = Some n ∨ b = Some n → n = m ∨ m_seq n < m_seq m) ∧
      (stale = None → a = b)
  | Err e => e = OE_MetaLost ∧
      ((a = None ∧ b = None) ∨ ∃ x y, a = Some x ∧ b = Some y ∧ x ≠ y ∧ m_seq x = m_seq y)
  | Panic => False
  end.
Proof.
  unfold choose_copies. destruct a as [a|], b as [b|]; try naive_solver.
  case_decide as Hd; [naive_solver|].
  destruct (Z.eqb_spec (m_seq a) (m_seq b)); [naive_solver|].
  destruct (Z.ltb_spec (m_seq b) (m_seq a)); naive_solver lia.
Qed.

(** ** Updating, and being cut *)

(** Copy [c] of the file is [m], on the device. *)
Definition holds_copy (f : File) (c : Copy) (m : Meta) : Prop :=
  ∃ block, is_copy c m block ∧ durable_at f (copy_at c) block.

(** Both the visible bytes and the device's bytes span the whole file. *)
Definition meta_sized (f : File) : Prop :=
  len (f_vis f) = META_FILE_BLOCKS * BLOCK ∧ len (f_dur f) = META_FILE_BLOCKS * BLOCK.

Lemma meta_sized_touched a b f g : touched a b f g → meta_sized f → meta_sized g.
Proof. intros [Hv Hd _ _ _ _ _ _] [? ?]. split; congruence. Qed.

Lemma holds_copy_touched c d m f g :
  c ≠ d → touched (copy_at d) (copy_at d + BLOCK) f g → holds_copy f c m → holds_copy g c m.
Proof.
  intros Hcd Ht (block & Hb & Hdur). exists block. split; [done|].
  destruct (copy_at_bounds c) as [Hc0 _]. pose proof copies_disjoint.
  destruct Hb as [Hl _]. eapply durable_at_touched; [done| |exact Ht|done].
  rewrite Hl. destruct c, d; try done; lia.
Qed.

Lemma holds_copy_crash f g c m : crash_file f g → holds_copy f c m → copy_in (f_vis g) c = Some m.
Proof.
  intros Hcr (block & Hb & Hdur). destruct (copy_at_bounds c) as [Hc0 _].
  apply (durable_at_crash _ g) in Hdur as (_ & Hv & _); [|done|done].
  eapply is_copy_in; [exact Hb|]. destruct Hb as [Hl _]. by rewrite <- Hl.
Qed.

Lemma MetaFile_write_durable_spec bf f w c m :
  w_files w !! bf_file bf = Some f → journal_file bf → meta_sized f → wf_meta m →
  ∃ r fs f' tr, MetaFile_write_durable bf c m w = (r, with_file w (bf_file bf) f' fs tr) ∧
    touched (copy_at c) (copy_at c + BLOCK) f f' ∧
    Forall (ev_writes true (bf_file bf) (copy_at c) (copy_at c + BLOCK)) tr ∧
    match r with
    | Ok _ => holds_copy f' c m
    | Err _ => True
    | Panic => False
    end.
Proof.
  intros Hf Hj [Hs1 Hs2] Hm. unfold MetaFile_write_durable.
  destruct (encode_copy c m Hm) as (block & He & Hc). pose proof Hc as [Hl _].
  rewrite He. cbn [io_expect]. erewrite io_bind_ok by reflexivity.
  destruct (copy_at_bounds c) as [Hb0 Hb1]. unfold copy_at in *.
  destruct (write_blocks_io_spec true bf (Copy_block c) block w f Hf Hj)
    as (r & fs & f' & tr & Hrun & Htr & Hpost); [by destruct c|by rewrite Hl|].
  rewrite Hl in *. exists r, fs, f', tr.
  destruct r as [u|e|]; [| |done].
  - destruct Hpost as [Heq _]. split_and!; try done.
    + eapply touched_equiv_r; [|symmetry; exact Heq].
      apply file_wr_touched; rewrite ?Hl; lia.
    + exists block. split; [done|]. eapply durable_at_equiv; [symmetry; exact Heq|].
      by apply durable_at_write_durable.
  - split_and!; try done. apply Hpost; lia.
Qed.

(** Wherever an update stops, at most one copy is in flight. *)
Lemma MetaFile_update_spec bf f w old m :
  w_files w !! bf_file bf = Some f → journal_file bf → meta_sized f → wf_meta m →
  holds_copy f Copy_B old →
  ∃ r fs f' tr, MetaFile_update bf m w = (r, with_file w (bf_file bf) f' fs tr) ∧
    meta_sized f' ∧
    Forall (fun e => ∃ c, ev_writes true (bf_file bf) (copy_at c) (copy_at c + BLOCK) e) tr ∧
    match r with
    | Ok _ => holds_copy f' Copy_A m ∧ holds_copy f' Copy_B m
    | Err _ => holds_copy f' Copy_B old ∨ holds_copy f' Copy_A m
    | Panic => False
    end.
Proof.
  intros Hf Hj Hs Hm Hold. unfold MetaFile_update.
  destruct (MetaFile_write_durable_spec bf f w Copy_A m Hf Hj Hs Hm)
    as (r & fs & f1 & tr & Hr & Ht & Hev & Hpost).
  assert (Forall (fun e => ∃ c, ev_writes true (bf_file bf) (copy_at c) (copy_at c + BLOCK) e) tr)
    as Hev1 by (eapply Forall_impl; [exact Hev|]; eauto).
  destruct r as [u|e|]; [| |done].
  2:{ exists (Err e), fs, f1, tr. split; [by erewrite io_bind_err by exact Hr|].
      split_and!; [by eapply meta_sized_touched|done|left].
      by apply (holds_copy_touched Copy_B Copy_A old f). }
  erewrite io_bind_ok by exact Hr.
  destruct (MetaFile_write_durable_spec bf f1 (with_file w (bf_file bf) f1 fs tr) Copy_B m)
    as (r & fs' & f2 & tr' & Hr' & Ht' & Hev' & Hpost'); try done.
  { cbn. apply lookup_insert_eq. }
  { by eapply meta_sized_touched. }
  exists r, fs', f2, (tr ++ tr'). rewrite Hr', with_file_with_file. split; [done|].
  split_and!.
  - eapply meta_sized_touched; [exact Ht'|]. by eapply meta_sized_touched.
  - apply Forall_app. split; [done|]. eapply Forall_impl; [exact Hev'|]. eauto.
  - assert (holds_copy f2 Copy_A m) by (by apply (holds_copy_touched Copy_A Copy_B m f1)).
    destruct r; [by split|by right|done].
Qed.

(** What a power loss may have left of a copy: the CRC detects a torn
    block, so a copy that decodes is a value that was written whole. *)
Definition no_forged_copy (g : File) (values : list Meta) : Prop :=
  ∀ c m, copy_in (f_vis g) c = Some m → m ∈ values.

Ltac solve_choice := eexists _, _; split; [reflexivity|naive_solver].

(** An update of the metainfo is atomic across a power loss: wherever it
    stops and whatever the loss leaves of the bytes in flight, the open that
    follows finds the old value or the new one, and the new one in both
    copies once the update returned. *)
Theorem metainfo_update_crash_atomic bf f w old m r w' f' g :
  w_files w !! bf_file bf = Some f → journal_file bf → meta_sized f → wf_meta m →
  holds_copy f Copy_B old → m_seq old < m_seq m →
  MetaFile_update bf m w = (r, w') → w_files w' !! bf_file bf = Some f' →
  crash_file f' g → no_forged_copy g [old; m] →
  ∃ v stale, choose_copies (copy_in (f_vis g) Copy_A) (copy_in (f_vis g) Copy_B) = Ok (v, stale) ∧
    (v = old ∨ v = m) ∧ (r = Ok () → v = m ∧ stale = None).
Proof.
  intros Hf Hj Hs Hm Hold Hseq Hrun Hf' Hcr Hnf.
  destruct (MetaFile_update_spec bf f w old m Hf Hj Hs Hm Hold)
    as (r1 & fs & f1 & tr & Hrun1 & _ & _ & Hpost).
  rewrite Hrun1 in Hrun. injection Hrun as -> <-. cbn in Hf'.
  rewrite lookup_insert_eq in Hf'. injection Hf' as ->.
  pose proof (Hnf Copy_A) as HA. pose proof (Hnf Copy_B) as HB.
  assert (m ≠ old) by (intros ->; lia).
  assert (∀ v, v ∈ [old; m] → v = old ∨ v = m) as Hin by set_solver.
  destruct r as [[]|e|]; [| |done].
  - destruct Hpost as [PA PB].
    rewrite (holds_copy_crash _ _ _ _ Hcr PA), (holds_copy_crash _ _ _ _ Hcr PB).
    cbn. rewrite decide_True by done. solve_choice.
  - destruct Hpost as [PB|PA].
    + rewrite (holds_copy_crash _ _ _ _ Hcr PB). unfold choose_copies.
      destruct (copy_in (f_vis g) Copy_A) as [v|] eqn:E; [|solve_choice].
      destruct (Hin v (HA v eq_refl)) as [-> | ->].
      * rewrite decide_True by done. solve_choice.
      * rewrite decide_False by done. rewrite (proj2 (Z.eqb_neq _ _)) by lia.
        rewrite (proj2 (Z.ltb_lt _ _)) by lia. solve_choice.
    + rewrite (holds_copy_crash _ _ _ _ Hcr PA). unfold choose_copies.
      destruct (copy_in (f_vis g) Copy_B) as [v|] eqn:E; [|solve_choice].
      destruct (Hin v (HB v eq_refl)) as [-> | ->].
      * rewrite decide_False by done. rewrite (proj2 (Z.eqb_neq _ _)) by lia.
        rewrite (proj2 (Z.ltb_lt _ _)) by lia. solve_choice.
      * rewrite decide_True by done. solve_choice.
Qed.
End WithCrc.
