(* ===== verification/Batch.v ===== *)
(** * Batches (crates/moonpool-journal/src/batch.rs)

    A batch is what one commit makes durable together: writes in the order
    they were staged, a new floor and new metainfo.  The model is the code's:
    builders that append, and [fits], the bound [commit] refuses a batch
    with.  The theorems give [fits] a reference definition, show that its
    64-bit sum cannot overflow, and that [fits_another] predicts [fits]. *)

From S2P Require Import Prelude Format.

Inductive Write :=
  | Write_Put (position : Z) (id : Id) (payload : list byte)
  | Write_Clear (start end_ : Z).

Record Batch := mkBatch {
  b_writes : list Write;
  b_floor : option Z;
  b_meta : option (list byte);
}.

#[global] Instance Write_eq_dec : EqDecision Write.
Proof. solve_decision. Defined.
#[global] Instance Batch_eq_dec : EqDecision Batch.
Proof. solve_decision. Defined.

Definition Batch_new : Batch := mkBatch [] None None.

Definition Batch_put (self : Batch) (position : Z) (id : Id) (payload : list byte) : Batch :=
  mkBatch (b_writes self ++ [Write_Put position id payload]) (b_floor self) (b_meta self).

(** [if !range.is_empty()]: a range is empty unless [start < end]. *)
Definition Batch_clear (self : Batch) (start end_ : Z) : Batch :=
  if start <? end_ then
    mkBatch (b_writes self ++ [Write_Clear start end_]) (b_floor self) (b_meta self)
  else self.

Definition Batch_truncate_prefix (self : Batch) (floor : Z) : Batch :=
  mkBatch (b_writes self)
    (Some (match b_floor self with None => floor | Some f => Z.max f floor end))
    (b_meta self).

Definition Batch_set_meta (self : Batch) (meta : list byte) : Batch :=
  mkBatch (b_writes self) (b_floor self) (Some meta).

Definition payload_len (w : Write) : Z :=
  match w with Write_Put _ _ payload => len payload | Write_Clear _ _ => 0 end.

(** The loop of [fits_with]: [None] is its early [return false]. *)
Fixpoint sum_footprints (entry_bytes : Z) (lens : list Z) : option Z :=
  match lens with
  | [] => Some entry_bytes
  | l :: lens =>
      if l <=? 2 ^ 32 - 1 then sum_footprints (entry_bytes + footprint l) lens else None
  end.

Definition Batch_fits_with (self : Batch) (g : Geometry) (another : option Z) : bool :=
  let count := len (b_writes self) + (if another is Some _ then 1 else 0) in
  if MAX_BATCH_RECORDS <? count then false else
  let lens := map payload_len (b_writes self) ++ option_list another in
  match sum_footprints 0 lens with
  | None => false
  | Some entry_bytes =>
      (blocks_for count <=? persist_blocks g) &&
      (align_up entry_bytes BLOCK <=? entry_blocks g * BLOCK)
  end.

Definition Batch_fits (self : Batch) (g : Geometry) : bool := Batch_fits_with self g None.

Definition Batch_fits_another (self : Batch) (g : Geometry) (l : Z) : bool :=
  Batch_fits_with self g (Some l).

Definition Batch_is_empty (self : Batch) : bool :=
  match b_writes self, b_floor self, b_meta self with
  | [], None, None => true
  | _, _, _ => false
  end.

(** ** Lemmas *)

(** The values a Rust [Batch] can hold. *)
Definition wf_write (w : Write) : Prop :=
  match w with
  | Write_Put p id _ => u64 p ∧ wf_id id
  | Write_Clear s e => u64 s ∧ u64 e
  end.

(** Bytes the entries of [ws] take, packed. *)
Definition packed (ws : list Write) : Z :=
  foldr (fun w a => footprint (payload_len w) + a) 0 ws.

Lemma payload_len_nonneg w : 0 ≤ payload_len w.
Proof. destruct w; simpl; [apply len_nonneg|lia]. Qed.

Lemma footprint_pos l : 0 ≤ l → 0 < footprint l.
Proof. intros. pose proof (footprint_bounds l). unfold RECORD_SIZE in *. lia. Qed.

Lemma packed_nonneg ws : 0 ≤ packed ws.
Proof.
  induction ws as [|w ws IH]; simpl; [lia|].
  pose proof (footprint_pos _ (payload_len_nonneg w)). lia.
Qed.

Lemma packed_app ws vs : packed (ws ++ vs) = packed ws + packed vs.
Proof. induction ws; simpl; lia. Qed.

Lemma sum_footprints_Some acc lens s :
  sum_footprints acc lens = Some s ↔
  Forall (fun l => l ≤ 2 ^ 32 - 1) lens ∧ s = acc + foldr (fun l a => footprint l + a) 0 lens.
Proof.
  revert acc. induction lens as [|l lens IH]; intros acc; cbn.
  - split; [intros [= <-]; split; [constructor|lia] | intros [_ ->]; f_equal; lia].
  - destruct (Z.leb_spec l (2 ^ 32 - 1)).
    + rewrite IH, Forall_cons_iff. split; intros [? ?]; split; try tauto; lia.
    + rewrite Forall_cons_iff. split; [done|]. intros [[? ?] ?]. lia.
Qed.

Lemma foldr_map_payload ws :
  foldr (fun l a => footprint l + a) 0 (map payload_len ws) = packed ws.
Proof. induction ws; simpl; congruence. Qed.

(** What [fits] means: at most [MAX_BATCH_RECORDS] writes, payloads that a
    [u32] measures, records within the persist log and entries within the
    entry log. *)
Record fits_spec (ws : list Write) (g : Geometry) : Prop := {
  fits_count : len ws ≤ MAX_BATCH_RECORDS;
  fits_lens : Forall (fun w => u32 (payload_len w)) ws;
  fits_records : len ws * RECORD_SIZE ≤ persist_blocks g * BLOCK;
  fits_entries : packed ws ≤ entry_blocks g * BLOCK;
}.

(** A size in bytes fits [n] blocks when its rounding up does. *)
Lemma align_up_le_iff v n : align_up v BLOCK ≤ n * BLOCK ↔ v ≤ n * BLOCK.
Proof.
  split; intros.
  - pose proof (align_up_ge v BLOCK). unfold BLOCK in *. lia.
  - rewrite <- (align_up_id (n * BLOCK) BLOCK); [|done|apply Z.mod_mul; done].
    apply align_up_mono; done.
Qed.

Lemma blocks_for_le_iff c n : blocks_for c ≤ n ↔ c * RECORD_SIZE ≤ n * BLOCK.
Proof.
  rewrite <- align_up_le_iff. unfold blocks_for.
  pose proof (align_up_mod (c * RECORD_SIZE) BLOCK ltac:(done)) as Hm.
  apply Z.div_exact in Hm; [|done]. rewrite Hm at 2. unfold BLOCK. lia.
Qed.

Lemma Batch_fits_iff b g : Batch_fits b g = true ↔ fits_spec (b_writes b) g.
Proof.
  unfold Batch_fits, Batch_fits_with. cbn [option_list]. rewrite app_nil_r, Z.add_0_r.
  destruct (Z.ltb_spec MAX_BATCH_RECORDS (len (b_writes b))) as [|Hc].
  { split; [done|]. intros [? _ _ _]. lia. }
  destruct (sum_footprints _ _) as [s|] eqn:E.
  - apply sum_footprints_Some in E as [Hl ->]. rewrite foldr_map_payload, Z.add_0_l.
    rewrite andb_true_iff, !Z.leb_le, blocks_for_le_iff, align_up_le_iff.
    split; [intros [? ?]|intros [? ? ? ?]; done]. split; try done.
    rewrite Forall_map in Hl. eapply Forall_impl; [exact Hl|]. cbn. intros w Hw.
    pose proof (payload_len_nonneg w). unfold in_u. lia.
  - split; [done|]. intros [_ Hl _ _]. exfalso.
    assert (∃ s, sum_footprints 0 (map payload_len (b_writes b)) = Some s) as [s Hs];
      [|congruence].
    eexists. apply sum_footprints_Some. split; [|done].
    rewrite Forall_map. eapply Forall_impl; [exact Hl|]. cbn. unfold in_u. lia.
Qed.

(** [fits_another] with a payload's length is [fits] after the [put]. *)
Lemma Batch_fits_another_put b g p id payload :
  Batch_fits_another b g (len payload) = Batch_fits (Batch_put b p id payload) g.
Proof.
  unfold Batch_fits_another, Batch_fits, Batch_fits_with, Batch_put.
  cbn [b_writes option_list]. rewrite map_app, app_nil_r, len_app. cbn [map payload_len].
  change (len [Write_Put p id payload]) with 1. by rewrite Z.add_0_r.
Qed.

Lemma fits_spec_app ws vs g : fits_spec (ws ++ vs) g → fits_spec ws g.
Proof.
  intros [Hc Hl Hr He]. rewrite len_app, packed_app in *. apply Forall_app in Hl as [? ?].
  pose proof (len_nonneg vs). pose proof (packed_nonneg vs).
  unfold RECORD_SIZE, BLOCK in *. split; try done; unfold RECORD_SIZE, BLOCK; lia.
Qed.

(** The running sum of [fits_with] stays far below [2^64]. *)
Lemma packed_u64 ws :
  len ws ≤ MAX_BATCH_RECORDS + 1 → Forall (fun w => u32 (payload_len w)) ws →
  packed ws ≤ len ws * (2 ^ 32 + 72) ∧ u64 (packed ws).
Proof.
  intros Hc Hl. assert (packed ws ≤ len ws * (2 ^ 32 + 72)).
  { clear Hc. induction ws as [|w ws IH]; [done|]. apply Forall_cons_iff in Hl as [Hw Hl].
    cbn [packed foldr]. fold (packed ws). rewrite len_cons.
    specialize (IH Hl). pose proof (footprint_bounds (payload_len w)) as Hf.
    unfold RECORD_SIZE, in_u in *. lia. }
  split; [done|]. pose proof (packed_nonneg ws). unfold MAX_BATCH_RECORDS, in_u in *. lia.
Qed.

(** ** Properties of a batch's size *)

(** [fits] is exact: it accepts a batch when, and only when, its writes
    are at most [MAX_BATCH_RECORDS], every payload's length is a [u32], the
    records fit the persist log and the packed entries the entry log of an
    empty segment; and [fits_another] answers as [fits] would after the put. *)
Theorem fits_is_capacity b g position id payload :
  (Batch_fits b g = true ↔ fits_spec (b_writes b) g) ∧
  Batch_fits_another b g (len payload) = Batch_fits (Batch_put b position id payload) g.
Proof. split; [apply Batch_fits_iff|apply Batch_fits_another_put]. Qed.

(** No arithmetic of a batch's size overflows: the packed size of any
    batch, up to the one write more that [fits_another] asks about, fits the
    [u64] the sum is done in. *)
Lemma packed_never_overflows ws :
  len ws ≤ MAX_BATCH_RECORDS + 1 → Forall (fun w => u32 (payload_len w)) ws →
  sum_footprints 0 (map payload_len ws) = Some (packed ws) ∧ u64 (packed ws).
Proof.
  intros Hl Hw. split; [|by apply packed_u64].
  apply sum_footprints_Some. rewrite foldr_map_payload. split; [|done].
  rewrite Forall_map. eapply Forall_impl; [exact Hw|]. cbn. unfold in_u. lia.
Qed.
