(* ===== verification/Index.v ===== *)
(** * The journal's in-memory index (journal.rs, "the index"; recover.rs, [Op])

    A journal keeps an ordered map from positions to where their entries
    live, and per segment the number of index entries that live in it.  The
    operations of this file are the code that changes the two together:
    [apply], [release], [drop_below_floor], and the assertions that check
    them, [assert_invariants].

    The code panics when a segment named by the index is not open, or when a
    live count would go below zero; [None] is that panic.  The theorems show
    that under the invariant [index_inv] no operation panics, each preserves
    it, and the index it leaves is the one the operation's specification
    says ([spec_op]). *)

From stdpp Require Import sorting.
From S2P Require Import Prelude Format Names Storage.
#[local] Open Scope Z_scope.

(** recover.rs, [Located]: where a live entry is, and what is known of it *)
Record Located := mkLocated {
  l_segment : Z;
  l_record_at : Z;
  l_offset : Z;
  l_len : Z;
  l_entry_crc : Z;
  l_id : Id;
  l_batch : Z;
  l_index : Z;
  l_count : Z;
  l_flags : Z;
  l_damaged : bool;
}.

(** recover.rs, [Op]: one applied operation, in log order *)
Inductive Op :=
  | Op_Put (position : Z) (at_ : Located)
  | Op_Clear (start end_ : Z).

(** segment.rs, [Segment] *)
Record Segment := mkSegment {
  s_first_batch : Z;
  s_prev_batch : Z;
  s_name : str;
  s_file : BlockFile;
  s_geometry : Geometry;
  s_persist_next : Z;
  s_entry_next : Z;
  s_live : Z;
}.

#[global] Instance Located_eq_dec : EqDecision Located.
Proof. solve_decision. Defined.

Definition set_live (s : Segment) (live : Z) : Segment :=
  mkSegment (s_first_batch s) (s_prev_batch s) (s_name s) (s_file s) (s_geometry s)
    (s_persist_next s) (s_entry_next s) live.

Abbreviation Index := (gmap Z Located).

(** ** Operations *)

(** The keys of a [BTreeMap] range, in ascending order. *)
Definition range_keys (idx : Index) (P : Z → bool) : list Z :=
  merge_sort Z.le (filter (fun p => P p = true) (elements (dom idx))).

(** [binary_search_by_key(&first_batch, |s| s.first_batch).expect(..)]: on
    the sorted segments, the index of the one with that first batch. *)
Definition segment_index (segs : list Segment) (first_batch : Z) : option nat :=
  fst <$> list_find (fun s => s_first_batch s = first_batch) segs.

Definition release (segs : list Segment) (old : Located) : option (list Segment) :=
  let* i := segment_index segs (l_segment old) in
  let* s := segs !! i in
  if 0 <? s_live s then Some (<[i := set_live s (s_live s - 1)]> segs) else None.

(** [for position in gone { let old = index.remove(..).expect("listed"); release(&old) }] *)
Fixpoint remove_all (gone : list Z) (segs : list Segment) (idx : Index) :
    option (list Segment * Index) :=
  match gone with
  | [] => Some (segs, idx)
  | p :: gone =>
      let* old := idx !! p in
      let* segs := release segs old in
      remove_all gone segs (delete p idx)
  end.

Definition apply_op (segs : list Segment) (idx : Index) (op : Op) :
    option (list Segment * Index) :=
  match op with
  | Op_Put position at_ =>
      let* new := segment_index segs (l_segment at_) in
      let* s := segs !! new in
      let segs := <[new := set_live s (s_live s + 1)]> segs in
      let idx' := <[position := at_]> idx in
      match idx !! position with
      | None => Some (segs, idx')
      | Some old => let* segs := release segs old in Some (segs, idx')
      end
  | Op_Clear start end_ =>
      remove_all (range_keys idx (fun p => (start <=? p) && (p <? end_))) segs idx
  end.

Fixpoint apply_ops (segs : list Segment) (idx : Index) (ops : list Op) :
    option (list Segment * Index) :=
  match ops with
  | [] => Some (segs, idx)
  | op :: ops => let* r := apply_op segs idx op in apply_ops r.1 r.2 ops
  end.

Definition drop_below_floor (floor : Z) (segs : list Segment) (idx : Index) :
    option (list Segment * Index) :=
  remove_all (range_keys idx (fun p => p <? floor)) segs idx.

(** The conjunction [assert_invariants] checks; [bytes] is the caller's
    metainfo.  [windows(2)] compares neighbours. *)
Fixpoint windows_sorted (segs : list Segment) : bool :=
  match segs with
  | s :: (t :: _) as rest => (s_first_batch s <? s_first_batch t) && windows_sorted rest
  | _ => true
  end.

Definition assert_invariants (segs : list Segment) (idx : Index) (floor : Z)
    (bytes : list byte) : bool :=
  (foldr (fun s a => s_live s + a) 0 segs =? Z.of_nat (size idx)) &&
  match range_keys idx (fun _ => true) with [] => true | p :: _ => floor <=? p end &&
  windows_sorted segs &&
  (len bytes <=? META_MAX).

(** ** The abstract index: what each operation does to the map *)

Definition spec_op (idx : Index) (op : Op) : Index :=
  match op with
  | Op_Put position at_ => <[position := at_]> idx
  | Op_Clear start end_ => filter (fun x => ¬ (start ≤ x.1 < end_)) idx
  end.

Definition spec_floor (floor : Z) (idx : Index) : Index := filter (fun x => floor ≤ x.1) idx.

(** ** The invariant *)

Definition live_in (first_batch : Z) (idx : Index) : Z :=
  Z.of_nat (size (filter (fun x => l_segment x.2 = first_batch) idx)).

Record index_inv (segs : list Segment) (idx : Index) : Prop := {
  inv_sorted : StronglySorted Z.lt (map s_first_batch segs);
  inv_located p at_ : idx !! p = Some at_ → l_segment at_ ∈ map s_first_batch segs;
  inv_live s : s ∈ segs → s_live s = live_in (s_first_batch s) idx;
}.

(** The part of a segment the index operations never change. *)
Definition same_shape (s t : Segment) : Prop := s = set_live t (s_live s).
Definition same_segments : list Segment → list Segment → Prop := Forall2 same_shape.

(** ** Lemmas on the invariant *)

Lemma StronglySorted_lt_NoDup (l : list Z) : StronglySorted Z.lt l → NoDup l.
Proof.
  induction 1 as [|x l _ IH Hx]; constructor; [|done].
  intros Hin. rewrite Forall_forall in Hx. apply Hx in Hin. lia.
Qed.

(** Adding [d] to the live count of the segment [fb]. *)
Definition add_live (fb d : Z) (segs : list Segment) : list Segment :=
  map (fun s => if decide (s_first_batch s = fb) then set_live s (s_live s + d) else s) segs.

Lemma add_live_firsts fb d segs :
  map s_first_batch (add_live fb d segs) = map s_first_batch segs.
Proof.
  unfold add_live. rewrite map_map. apply map_ext. intros s. by case_decide.
Qed.

Lemma add_live_same_segments fb d segs : same_segments (add_live fb d segs) segs.
Proof.
  induction segs as [|s segs IH]; constructor; [|exact IH].
  unfold same_shape. case_decide; by destruct s.
Qed.

Lemma add_live_notin fb d segs : fb ∉ map s_first_batch segs → add_live fb d segs = segs.
Proof.
  induction segs as [|s segs IH]; intros H; [done|]. cbn in *.
  rewrite decide_False by set_solver. f_equal. apply IH. set_solver.
Qed.

(** Updating the segment [segment_index] finds is [add_live]. *)
Lemma segment_index_update segs fb d :
  NoDup (map s_first_batch segs) → fb ∈ map s_first_batch segs →
  ∃ i s, segment_index segs fb = Some i ∧ segs !! i = Some s ∧ s ∈ segs ∧
    s_first_batch s = fb ∧ <[i := set_live s (s_live s + d)]> segs = add_live fb d segs.
Proof.
  unfold segment_index. induction segs as [|t segs IH]; intros Hn Hin; [set_solver|].
  cbn in Hn, Hin. apply NoDup_cons in Hn as [Ht Hn]. cbn [list_find].
  case_decide as Hd; cbn.
  - exists 0%nat, t. split_and!; try done; [set_solver|]. subst fb.
    transitivity (set_live t (s_live t + d) :: segs); [done|]. cbn.
    rewrite decide_True by done. f_equal. symmetry. by apply add_live_notin.
  - destruct IH as (i & s & Hi & Hl & Hs & Hf & Hu); [done|set_solver|].
    destruct (list_find _ segs) as [[j u]|]; [|done]. cbn in Hi. injection Hi as ->.
    exists (S i), s. cbn. split_and!; try done; [set_solver|].
    transitivity (t :: <[i := set_live s (s_live s + d)]> segs); [done|].
    rewrite decide_False by done. by f_equal.
Qed.

Lemma elem_of_add_live fb d segs s :
  s ∈ add_live fb d segs → ∃ t, t ∈ segs ∧ s_first_batch s = s_first_batch t ∧
    s_live s = s_live t + (if decide (s_first_batch t = fb) then d else 0).
Proof.
  unfold add_live. intros H. apply list_elem_of_In, in_map_iff in H as (t & <- & Ht).
  exists t. split; [by apply list_elem_of_In|]. case_decide; cbn; split; try done; lia.
Qed.

(** ** Counting *)

Lemma live_in_insert fb idx p at_ :
  idx !! p = None →
  live_in fb (<[p := at_]> idx) = live_in fb idx + (if decide (l_segment at_ = fb) then 1 else 0).
Proof.
  intros Hp. unfold live_in. case_decide.
  - rewrite map_filter_insert_True by done.
    rewrite map_size_insert_None; [lia|]. apply map_lookup_filter_None. by left.
  - rewrite map_filter_insert_False by done. rewrite delete_id by done. lia.
Qed.

Lemma live_in_delete fb idx p old :
  idx !! p = Some old →
  live_in fb (delete p idx) = live_in fb idx - (if decide (l_segment old = fb) then 1 else 0).
Proof.
  intros Hp. rewrite <- (insert_delete_id idx p old Hp) at 2.
  rewrite live_in_insert by apply lookup_delete_eq. lia.
Qed.

Lemma live_in_pos idx p old : idx !! p = Some old → 0 < live_in (l_segment old) idx.
Proof.
  intros Hp. pose proof (live_in_delete (l_segment old) idx p old Hp) as H.
  rewrite decide_True in H by done. unfold live_in in *. lia.
Qed.

(** ** [release] and the removals *)

(** [release] under the invariant: exactly one count goes down. *)
Lemma release_spec segs old :
  NoDup (map s_first_batch segs) → l_segment old ∈ map s_first_batch segs →
  (∀ s, s ∈ segs → s_first_batch s = l_segment old → 0 < s_live s) →
  release segs old = Some (add_live (l_segment old) (-1) segs).
Proof.
  intros Hn Hin Hpos. unfold release.
  destruct (segment_index_update segs (l_segment old) (-1) Hn Hin)
    as (i & s & -> & Hl & Hs & Hf & Hu).
  cbn [mbind option_bind]. rewrite Hl. cbn [mbind option_bind].
  rewrite (proj2 (Z.ltb_lt _ _)) by (by apply Hpos). by rewrite <- Hu.
Qed.

Lemma remove_one_inv segs idx p old :
  index_inv segs idx → idx !! p = Some old →
  ∃ segs', release segs old = Some segs' ∧ index_inv segs' (delete p idx) ∧
    same_segments segs' segs.
Proof.
  intros [Hs Hloc Hlive] Hp.
  assert (NoDup (map s_first_batch segs)) by by apply StronglySorted_lt_NoDup.
  rewrite release_spec; [|done|by eapply Hloc|].
  2:{ intros s Hin Hf. rewrite (Hlive s Hin), Hf. by eapply live_in_pos. }
  eexists. split; [done|]. split; [|apply add_live_same_segments]. split.
  - by rewrite add_live_firsts.
  - intros q at_ Hq. rewrite add_live_firsts. apply lookup_delete_Some in Hq as [_ Hq]. eauto.
  - intros s Hin. apply elem_of_add_live in Hin as (t & Ht & Hf & Hl).
    rewrite Hl, (Hlive t Ht), Hf, (live_in_delete _ _ _ _ Hp).
    case_decide; case_decide; try lia; congruence.
Qed.

Lemma same_segments_trans a b c : same_segments a b → same_segments b c → same_segments a c.
Proof.
  intros Hab. revert c. induction Hab as [|x y a b Hxy Hab IH]; intros c Hbc.
  - inversion Hbc. constructor.
  - inversion Hbc as [|? z ? c' Hyz Hbc']; subst. constructor; [|by apply IH].
    unfold same_shape in *. rewrite Hyz in Hxy. rewrite Hxy. by destruct z.
Qed.

Lemma same_segments_refl a : same_segments a a.
Proof. induction a as [|s a IH]; constructor; [by destruct s|done]. Qed.

Lemma same_segments_firsts a b : same_segments a b → map s_first_batch a = map s_first_batch b.
Proof. induction 1 as [|s t a b Hs _ IH]; [done|]. cbn. f_equal; [by rewrite Hs|done]. Qed.

Lemma remove_all_inv gone segs idx :
  index_inv segs idx → NoDup gone → (∀ p, p ∈ gone → is_Some (idx !! p)) →
  ∃ segs', remove_all gone segs idx = Some (segs', filter (fun x => x.1 ∉ gone) idx) ∧
    index_inv segs' (filter (fun x => x.1 ∉ gone) idx) ∧ same_segments segs' segs.
Proof.
  revert segs idx. induction gone as [|p gone IH]; intros segs idx Hinv Hn Hin.
  - exists segs. rewrite map_filter_id by set_solver. cbn. auto using same_segments_refl.
  - apply NoDup_cons in Hn as [Hp Hn].
    destruct (Hin p) as [old Hold]; [set_solver|].
    destruct (remove_one_inv _ _ _ _ Hinv Hold) as (segs1 & Hr & Hinv1 & Hsh1).
    destruct (IH segs1 (delete p idx) Hinv1 Hn) as (segs2 & He & Hinv2 & Hsh2).
    { intros q Hq. rewrite lookup_delete_ne by set_solver. apply Hin. set_solver. }
    assert (filter (fun x => x.1 ∉ gone) (delete p idx) =
            filter (fun x => x.1 ∉ p :: gone) idx) as Hf.
    { apply map_eq. intros q. apply option_eq. intros at_.
      rewrite !map_lookup_filter_Some, lookup_delete_Some. set_solver. }
    rewrite Hf in He, Hinv2. exists segs2. cbn [remove_all]. rewrite Hold.
    cbn [mbind option_bind]. rewrite Hr. cbn [mbind option_bind].
    split_and!; [done|done|]. by eapply same_segments_trans.
Qed.

Lemma elem_of_range_keys idx P p :
  p ∈ range_keys idx P ↔ P p = true ∧ is_Some (idx !! p).
Proof.
  unfold range_keys. rewrite merge_sort_Permutation, list_elem_of_filter, elem_of_elements.
  by rewrite elem_of_dom.
Qed.

Lemma NoDup_range_keys idx P : NoDup (range_keys idx P).
Proof.
  unfold range_keys. rewrite merge_sort_Permutation. apply NoDup_filter, NoDup_elements.
Qed.

(** Removing the keys of a range is filtering the map. *)
Lemma remove_range_inv segs idx P (Q : Z → Prop) `{!∀ p, Decision (Q p)} :
  (∀ p, P p = true ↔ ¬ Q p) → index_inv segs idx →
  ∃ segs', remove_all (range_keys idx P) segs idx = Some (segs', filter (fun x => Q x.1) idx) ∧
    index_inv segs' (filter (fun x => Q x.1) idx) ∧ same_segments segs' segs.
Proof.
  intros HPQ Hinv.
  assert (filter (fun x => x.1 ∉ range_keys idx P) idx = filter (fun x => Q x.1) idx) as <-.
  { apply map_eq. intros q. apply option_eq. intros at_.
    rewrite !map_lookup_filter_Some. cbn. rewrite elem_of_range_keys, HPQ.
    split; intros [Hq Hn]; split; try done.
    - destruct (decide (Q q)); [done|]. destruct Hn. split; [done|]. by eexists.
    - intros [? _]. done. }
  apply remove_all_inv; [done|apply NoDup_range_keys|].
  intros p Hp. by apply elem_of_range_keys in Hp as [_ ?].
Qed.

(** ** The operations under the invariant *)

(** An operation names a segment that is open. *)
Definition op_ok (segs : list Segment) (op : Op) : Prop :=
  match op with
  | Op_Put _ at_ => l_segment at_ ∈ map s_first_batch segs
  | Op_Clear _ _ => True
  end.

(** A put whose position is free only adds to the count of its segment. *)
Lemma insert_inv segs idx p at_ :
  index_inv segs idx → idx !! p = None → l_segment at_ ∈ map s_first_batch segs →
  index_inv (add_live (l_segment at_) 1 segs) (<[p := at_]> idx).
Proof.
  intros [Hs Hloc Hlive] Hp Hin. split.
  - by rewrite add_live_firsts.
  - intros q b Hq. rewrite add_live_firsts.
    apply lookup_insert_Some in Hq as [[_ <-]|[_ Hq]]; eauto.
  - intros s Hs'. apply elem_of_add_live in Hs' as (t & Ht & Hf & Hl).
    rewrite Hl, (Hlive t Ht), Hf, live_in_insert by done.
    case_decide; case_decide; try lia; congruence.
Qed.

(** Counting a new entry before releasing the old one, as the code does, is
    releasing first. *)
Lemma add_live_comm a b d e segs :
  add_live a d (add_live b e segs) = add_live b e (add_live a d segs).
Proof.
  unfold add_live. rewrite !map_map. apply map_ext. intros s.
  destruct (decide (s_first_batch s = b)), (decide (s_first_batch s = a));
    cbn; repeat case_decide; try done; try congruence; cbn; unfold set_live; cbn; f_equal; lia.
Qed.

Lemma release_add_live segs segs1 old fb :
  NoDup (map s_first_batch segs) → l_segment old ∈ map s_first_batch segs →
  (∀ s, s ∈ segs → s_first_batch s = l_segment old → 0 < s_live s) →
  release segs old = Some segs1 →
  release (add_live fb 1 segs) old = Some (add_live fb 1 segs1).
Proof.
  intros Hn Hin Hpos. rewrite release_spec by done. intros [= <-].
  rewrite release_spec; rewrite ?add_live_firsts; [by rewrite add_live_comm|done|done|].
  intros s Hs Hf. apply elem_of_add_live in Hs as (t & Ht & Hft & Hl).
  pose proof (Hpos t Ht ltac:(congruence)). case_decide; lia.
Qed.

Lemma apply_op_inv segs idx op :
  index_inv segs idx → op_ok segs op →
  ∃ segs', apply_op segs idx op = Some (segs', spec_op idx op) ∧
    index_inv segs' (spec_op idx op) ∧ same_segments segs' segs.
Proof.
  intros Hinv Hok. destruct op as [p at_|start end_]; cbn [apply_op spec_op] in *.
  - pose proof (StronglySorted_lt_NoDup _ (inv_sorted _ _ Hinv)) as Hn.
    destruct (segment_index_update segs (l_segment at_) 1 Hn Hok)
      as (i & s & -> & Hl & _ & _ & Hu).
    cbn [mbind option_bind]. rewrite Hl. cbn [mbind option_bind]. rewrite Hu.
    destruct (idx !! p) as [old|] eqn:Hp.
    + destruct (remove_one_inv _ _ _ _ Hinv Hp) as (segs1 & Hr & Hinv1 & Hsh1).
      rewrite (release_add_live segs segs1 old);
        [|done|by eapply (inv_located _ _ Hinv)| |done].
      2:{ intros t Ht Hf. rewrite (inv_live _ _ Hinv t Ht), Hf. by eapply live_in_pos. }
      cbn [mbind option_bind]. eexists. split; [done|].
      rewrite <- insert_delete_eq. split.
      * apply insert_inv; [done|apply lookup_delete_eq|].
        by rewrite (same_segments_firsts _ _ Hsh1).
      * eapply same_segments_trans; [apply add_live_same_segments|done].
    + eexists. split; [done|]. split; [by apply insert_inv|apply add_live_same_segments].
  - apply (remove_range_inv segs idx _ (fun p => ¬ (start ≤ p < end_)) (H := ltac:(intros p; apply _))); [|done]. intros p.
    rewrite andb_true_iff, Z.leb_le, Z.ltb_lt. split; [tauto|].
    intros H. destruct (decide (start ≤ p < end_)); tauto.
Qed.

Lemma apply_ops_inv segs idx ops :
  index_inv segs idx → Forall (op_ok segs) ops →
  ∃ segs', apply_ops segs idx ops = Some (segs', foldl spec_op idx ops) ∧
    index_inv segs' (foldl spec_op idx ops) ∧ same_segments segs' segs.
Proof.
  revert segs idx. induction ops as [|op ops IH]; intros segs idx Hinv Hok.
  - exists segs. auto using same_segments_refl.
  - apply Forall_cons_iff in Hok as [Hop Hok].
    destruct (apply_op_inv _ _ _ Hinv Hop) as (segs1 & E1 & Hinv1 & Hsh1).
    destruct (IH segs1 _ Hinv1) as (segs2 & E2 & Hinv2 & Hsh2).
    { eapply Forall_impl; [exact Hok|]. intros [] H; cbn in *; [|done].
      by rewrite (same_segments_firsts _ _ Hsh1). }
    exists segs2. cbn [apply_ops]. rewrite E1. cbn [mbind option_bind fst snd].
    split_and!; [done|done|]. by eapply same_segments_trans.
Qed.

Lemma drop_below_floor_inv floor segs idx :
  index_inv segs idx →
  ∃ segs', drop_below_floor floor segs idx = Some (segs', spec_floor floor idx) ∧
    index_inv segs' (spec_floor floor idx) ∧ same_segments segs' segs.
Proof.
  intros Hinv. apply (remove_range_inv segs idx _ (fun p => floor ≤ p) (H := ltac:(intros p; apply _))); [|done].
  intros p. rewrite Z.ltb_lt. lia.
Qed.

(** ** The assertions hold *)

Lemma sum_live_add fb d segs :
  NoDup (map s_first_batch segs) → fb ∈ map s_first_batch segs →
  foldr (fun s a => s_live s + a) 0 (add_live fb d segs) =
  foldr (fun s a => s_live s + a) 0 segs + d.
Proof.
  induction segs as [|s segs IH]; intros Hn Hin; [set_solver|].
  cbn in Hn, Hin. apply NoDup_cons in Hn as [Hs Hn]. cbn. case_decide as Hd.
  - subst fb. cbn. fold (add_live (s_first_batch s) d segs).
    rewrite add_live_notin by done. lia.
  - fold (add_live fb d segs). rewrite IH; [lia|done|]. set_solver.
Qed.

Lemma sum_live segs idx :
  index_inv segs idx → foldr (fun s a => s_live s + a) 0 segs = Z.of_nat (size idx).
Proof.
  revert segs. induction idx as [|p at_ idx Hp IH] using map_ind; intros segs Hinv.
  - rewrite map_size_empty. destruct Hinv as [_ _ Hlive]. induction segs as [|s segs IHs]; [done|].
    cbn. rewrite (Hlive s) by set_solver. unfold live_in.
    rewrite map_filter_empty, map_size_empty.
    rewrite IHs by (intros t Ht; apply Hlive; set_solver). done.
  - pose proof (StronglySorted_lt_NoDup _ (inv_sorted _ _ Hinv)) as Hn.
    pose proof (inv_located _ _ Hinv p at_ (lookup_insert_eq _ _ _)) as Hin.
    destruct (remove_one_inv _ _ p at_ Hinv (lookup_insert_eq _ _ _)) as (segs1 & Hr & Hinv1 & _).
    rewrite delete_insert_id in Hinv1 by done.
    assert (segs1 = add_live (l_segment at_) (-1) segs) as ->.
    { rewrite release_spec in Hr; [by injection Hr|done|done|].
      intros s Hs Hf. rewrite (inv_live _ _ Hinv s Hs), Hf.
      eapply live_in_pos, lookup_insert_eq. }
    apply IH in Hinv1. rewrite sum_live_add in Hinv1 by done.
    rewrite map_size_insert_None by done. lia.
Qed.

Lemma windows_sorted_spec segs :
  StronglySorted Z.lt (map s_first_batch segs) → windows_sorted segs = true.
Proof.
  induction segs as [|s segs IH]; intros H; [done|].
  apply StronglySorted_inv in H as [H Hs]. destruct segs as [|t segs]; [done|].
  cbn in Hs. apply Forall_cons_iff in Hs as [Hs _].
  change (windows_sorted (s :: t :: segs))
    with ((s_first_batch s <? s_first_batch t) && windows_sorted (t :: segs)).
  rewrite IH by done. by rewrite (proj2 (Z.ltb_lt _ _)) by done.
Qed.

Lemma assert_invariants_true segs idx floor bytes :
  index_inv segs idx → (∀ p, is_Some (idx !! p) → floor ≤ p) → len bytes ≤ META_MAX →
  assert_invariants segs idx floor bytes = true.
Proof.
  intros Hinv Hfl Hb. unfold assert_invariants.
  rewrite (sum_live _ _ Hinv), Z.eqb_refl, (windows_sorted_spec _ (inv_sorted _ _ Hinv)).
  rewrite (proj2 (Z.leb_le (len bytes) _)) by done.
  destruct (range_keys idx _) as [|p l] eqn:E; [done|].
  rewrite (proj2 (Z.leb_le floor p)); [done|]. apply Hfl.
  assert (p ∈ range_keys idx (fun _ => true)) as Hp by (rewrite E; set_solver).
  by apply elem_of_range_keys in Hp as [_ ?].
Qed.

Lemma spec_floor_above floor idx p : is_Some (spec_floor floor idx !! p) → floor ≤ p.
Proof. intros [at_ H]. by apply map_lookup_filter_Some in H as [_ ?]. Qed.

(** ** Properties of the index *)

(** The index refines a plain map: applying a log's operations in order
    neither panics nor loses the invariant, the positions are exactly those
    a map updated by puts and clears would hold, and only live counts of
    segments change. *)
Theorem index_refines_map segs idx ops :
  index_inv segs idx → Forall (op_ok segs) ops →
  ∃ segs', apply_ops segs idx ops = Some (segs', foldl spec_op idx ops) ∧
    index_inv segs' (foldl spec_op idx ops) ∧ same_segments segs' segs.
Proof. apply apply_ops_inv. Qed.

(** After the floor is applied every assertion the journal makes on its
    index holds: live counts add up to the index's size, no position below
    the floor is left, segments are in order; and what was dropped is
    exactly what was below the floor. *)
Theorem floor_keeps_assertions floor segs idx bytes :
  index_inv segs idx → len bytes ≤ META_MAX →
  ∃ segs' idx', drop_below_floor floor segs idx = Some (segs', idx') ∧
    assert_invariants segs' idx' floor bytes = true ∧
    ∀ p, idx' !! p = if decide (floor ≤ p) then idx !! p else None.
Proof.
  intros Hinv Hlen. destruct (drop_below_floor_inv floor segs idx Hinv) as (segs' & Hd & Hi & _).
  exists segs', (spec_floor floor idx). split_and!; [done| |].
  - apply assert_invariants_true; try done. intros p. apply spec_floor_above.
  - intros p. unfold spec_floor. case_decide; [destruct (idx !! p) as [at_|] eqn:E|].
    + by apply map_lookup_filter_Some.
    + apply map_lookup_filter_None. by left.
    + apply map_lookup_filter_None. right. by intros.
Qed.

(** A segment with a zero live count holds no entry of the index, so
    removing it loses nothing; and a segment with an entry in the index has
    a positive count. *)
Theorem dead_segment_unreferenced segs idx s :
  index_inv segs idx → s ∈ segs →
  s_live s = 0 ↔ ∀ p at_, idx !! p = Some at_ → l_segment at_ ≠ s_first_batch s.
Proof.
  intros Hinv Hs. rewrite (inv_live _ _ Hinv s Hs). split.
  - intros Hz p at_ Hp Heq. pose proof (live_in_pos _ _ _ Hp) as Hl. rewrite Heq in Hl. lia.
  - intros H. unfold live_in.
    enough (filter (λ x : Z * Located, l_segment x.2 = s_first_batch s) idx = ∅) as -> by done.
    apply map_empty_filter_2. intros p at_ Hp. by apply (H p).
Qed.
