(* ===== verification/Segment.v ===== *)
(** * Segment files (crates/moonpool-journal/src/segment.rs)

    A segment is one file, allocated whole: two header copies, the persist
    log, a guard gap and the entry log.  [Segment_create] makes one under a
    temporary name and publishes it by a rename; [Segment_adopt] turns a
    spare, a dead segment's file, into one; [Segment_open] checks an existing
    one and repairs a damaged header copy.  The in-memory [Segment] record is
    in [Index].

    The crash hints of the source ([hint!]) are no-ops outside a simulation
    and are not modelled. *)

From S2P Require Import Prelude Crc Format Names Storage JournalIo MetaFile Index.

Definition set_cursors (s : Segment) (persist_next entry_next : Z) : Segment :=
  mkSegment (s_first_batch s) (s_prev_batch s) (s_name s) (s_file s) (s_geometry s)
    persist_next entry_next (s_live s).

(** [Segment::fresh] *)
Definition Segment_fresh (first_batch prev_batch : Z) (name : str) (file : BlockFile)
    (geometry : Geometry) : Segment :=
  mkSegment first_batch prev_batch name file geometry
    PERSIST_START (entry_start geometry) 0.

(** [Segment::fits] *)
Definition Segment_fits (s : Segment) (persist_blocks entry_bytes : Z) : bool :=
  (s_persist_next s + persist_blocks * BLOCK <=? persist_end (s_geometry s)) &&
  (s_entry_next s + entry_bytes <=? entry_end (s_geometry s)).

(** [Segment::write], [write_durable], [sync], [read_at] *)
Definition Segment_write (s : Segment) (offset : Z) (buf : list byte) : IO ErrorKind () :=
  io_assert (offset mod BLOCK =? 0) ;!
  write_blocks (s_file s) (offset / BLOCK) buf.

Definition Segment_write_durable (s : Segment) (offset : Z) (buf : list byte) :
    IO ErrorKind () :=
  io_assert (offset mod BLOCK =? 0) ;!
  write_blocks_durable (s_file s) (offset / BLOCK) buf.

Definition Segment_sync (s : Segment) : IO ErrorKind () := sync_file (bf_file (s_file s)).

Definition Segment_read_at (s : Segment) (offset l : Z) : IO ErrorKind (list byte) :=
  read_bytes (s_file s) offset l.

(** [Segment::read_persist_log] *)
Definition read_persist_log (s : Segment) : IO ErrorKind (list byte) :=
  let start := PERSIST_START in
  let l := persist_end (s_geometry s) - start in
  read_blocks (s_file s) (start / BLOCK) (l / BLOCK * BLOCK).

(** [open_file] *)
Definition segment_open_file (path : str) : IO ErrorKind BlockFile :=
  let! file := open_existing path in
  BlockFile_new file BLOCK.

Section WithCrc.
Context {C : Crc32c}.

(** [header_blocks]: both header copies, blocks 0 and 1 *)
Definition header_blocks (header : SegmentHeader) : option (list byte) :=
  let blocks := block_buf (2 * BLOCK) in
  let* a := SegmentHeader_encode header (slice blocks 0 BLOCK) in
  let* blocks := copy_from_slice blocks 0 a in
  let* b := SegmentHeader_encode header (slice blocks BLOCK (len blocks)) in
  copy_from_slice blocks BLOCK b.

(** [write_headers] and [write_headers_durable] *)
Definition write_headers (file : BlockFile) (header : SegmentHeader) : IO ErrorKind () :=
  let! blocks := io_expect (header_blocks header) in write_blocks file 0 blocks.

Definition write_headers_durable (file : BlockFile) (header : SegmentHeader) :
    IO ErrorKind () :=
  let! blocks := io_expect (header_blocks header) in write_blocks_durable file 0 blocks.

(** [fill_new] *)
Definition fill_new (h : Handle) (geometry : Geometry) (header : SegmentHeader) :
    IO OpenError () :=
  let! file := lift_io (BlockFile_new h BLOCK) in
  lift_io (allocate (bf_file file) (total_blocks geometry * BLOCK)) ;!
  lift_io (write_headers file header) ;!
  lift_io (sync_file (bf_file file)).

(** [Segment::create]; a failed [fill_new] deletes the temporary, best effort *)
Definition Segment_create (dir : str) (journal : JournalId) (first_batch prev_batch : Z)
    (geometry : Geometry) : IO OpenError Segment :=
  let name := segment_name first_batch in
  let path := path_in dir name in
  let temporary := path ++ TMP_SUFFIX in
  let! there := lift_io (exists_ temporary) in
  (if there then lift_io (delete_ temporary) else io_ret tt) ;!
  let! h := lift_io (open_create_new temporary) in
  let header := mkSegmentHeader journal first_batch prev_batch geometry in
  io_try (fill_new h geometry header) (fun r =>
    match r with
    | inr error => io_try (delete_ temporary) (fun _ => io_err error)
    | inl _ =>
        lift_io (rename temporary path) ;!
        lift_io (sync_dir dir) ;!
        let! file := lift_io (segment_open_file path) in
        io_ret (Segment_fresh first_batch prev_batch name file geometry)
    end).

(** [Segment::adopt] *)
Definition Segment_adopt (dir spare : str) (header : SegmentHeader) : IO OpenError Segment :=
  let first_batch := sh_first_batch header in
  let prev_batch := sh_prev_batch header in
  let geometry := sh_geometry header in
  let name := segment_name first_batch in
  let path := path_in dir name in
  let spare := path_in dir spare in
  let! file := lift_io (segment_open_file spare) in
  let! blocks := lift_io (size_in_blocks file) in
  if negb (blocks =? total_blocks geometry)
  then io_err (OE_BadSegment name "the spare is not a whole segment") else
  lift_io (write_headers_durable file header) ;!
  lift_io (rename spare path) ;!
  lift_io (sync_dir dir) ;!
  let! file := lift_io (segment_open_file path) in
  io_ret (Segment_fresh first_batch prev_batch name file geometry).

(** The match of [Segment::open] on the two decoded copies: the header and
    the block of the damaged copy, if one is. *)
Definition choose_header (name : str) (a b : option SegmentHeader) :
    res OpenError (SegmentHeader * option Z) :=
  match a, b with
  | Some a, Some b =>
      if decide (a = b) then Ok (a, None)
      else Err (OE_BadSegment name "header copies disagree")
  | Some a, None => Ok (a, Some 1)
  | None, Some b => Ok (b, Some 0)
  | None, None => Err (OE_BadSegment name "no valid header")
  end.

(** [Segment::open] *)
Definition Segment_open (dir name : str) (first_batch : Z) (journal : JournalId)
    (geometry : Geometry) : IO OpenError (Segment * bool) :=
  let! file := lift_io (segment_open_file (path_in dir name)) in
  let! blocks := lift_io (size_in_blocks file) in
  if negb (blocks =? total_blocks geometry)
  then io_err (OE_BadSegment name "wrong size") else
  let! headers := lift_io (read_blocks file 0 (2 * BLOCK)) in
  let! a := io_expect (SegmentHeader_decode (slice headers 0 BLOCK)) in
  let! b := io_expect (SegmentHeader_decode (slice headers BLOCK (len headers))) in
  match choose_header name a b with
  | Err e => io_err e
  | Panic => io_panic
  | Ok (header, damaged) =>
      if negb (sh_journal header =? journal)
      then io_err (OE_WrongJournal (sh_journal header)) else
      if negb (sh_first_batch header =? first_batch)
      then io_err (OE_BadSegment name "header names another first batch") else
      if negb (bool_decide (sh_geometry header = geometry))
      then io_err (OE_BadSegment name "header names another geometry") else
      (match damaged with
       | Some block =>
           let! copy := io_expect (SegmentHeader_encode header (block_buf BLOCK)) in
           lift_io (write_blocks_durable file block copy)
       | None => io_ret tt
       end) ;!
      io_ret (Segment_fresh first_batch (sh_prev_batch header) name file geometry,
              bool_decide (is_Some damaged))
  end.

(** [named_batches]: the first batches a file's header copies name for
    [journal] *)
Definition named_batches (path : str) (journal : JournalId) : IO OpenError (list Z) :=
  let! file := lift_io (segment_open_file path) in
  let! headers := lift_io (read_blocks file 0 (2 * BLOCK)) in
  let! a := io_expect (SegmentHeader_decode (slice headers 0 BLOCK)) in
  let! b := io_expect (SegmentHeader_decode (slice headers BLOCK (len headers))) in
  io_ret (map sh_first_batch
    (filter (fun h => sh_journal h = journal) (option_list a ++ option_list b))).
End WithCrc.
