(* ===== verification/Recover.v ===== *)
(** * Opening's scan (crates/moonpool-journal/src/recover.rs)

    Pass 1 parses each segment's persist log batch by batch
    ([scan_segment]); pass 2 judges every record ([judge_batch]).  Both are
    modelled as the code is written, reads through the storage world
    included; the loop over batches has fuel, and running out of it is a
    panic that the theorems exclude.

    [Stale] says which batch numbers are garbage: written by an earlier open
    generation beyond what the next open found, or older than the segment
    that holds them (a recycled file's old bytes).

    The arithmetic is that of a build without overflow checks, Cargo's
    release profile.  A build with them differs in three places, and panics
    there: the index subtraction of [locate_batch], the [last + 1] of a
    [LostBatch] error behind the batch number 2^64 - 1, and the [u16]
    counter of [judge_batch] on a batch of exactly 65535 records. *)

From stdpp Require Import sorting.
From S2P Require Import Prelude Crc Format Names Storage JournalIo MetaFile Index Segment.
#[local] Open Scope Z_scope.

(** What a slot of a batch turned out to be after pass 1 *)
Inductive Found :=
  | Found_Record (r : PRecord)
  | Found_Rebuilt (r : PRecord)
  | Found_Lost.

Record BatchScan := mkBatchScan {
  bs_seq : Z;
  bs_count : Z;
  bs_persist_at : Z;
  bs_slots : list Found;
}.

Record Scan := mkScan {
  sc_ops : list Op;
  sc_last_batch : Z;
  sc_cursors : list (Z * Z);
  sc_corrupt : list (Z * Id);
  sc_ambiguous : list (Z * Id);
  sc_rebuilt : Z;
  sc_voided : Z;
  sc_rewrite : option (nat * Z * list byte);
}.

Record Stale := mkStale {
  st_generation : Z;
  st_last : Z;
}.

Definition is_stale (self : Stale) (batch : Z) : bool :=
  (generation_of batch <? st_generation self) && (st_last self <? batch).

Definition is_stale_in (self : Stale) (first batch : Z) : bool :=
  (batch <? first) || is_stale self batch.

(** [entry_matches] *)
Definition entry_matches (record : PRecord) (header : EntryHeader) (stored : Z) : bool :=
  bool_decide (eh_kind header = r_kind record) &&
  (eh_flags header =? r_flags record) &&
  (eh_index header =? r_index record) &&
  (eh_count header =? r_count record) &&
  (eh_batch header =? r_batch record) &&
  (eh_position header =? r_position record) &&
  bool_decide (eh_id header = r_id record) &&
  (eh_len header =? r_len record) &&
  (stored =? r_entry_crc record).

(** [rebuild]: the record an intact entry at [offset] stands for; an offset
    above [u32::MAX] is a panic *)
Definition rebuild (header : EntryHeader) (stored offset : Z) : option PRecord :=
  if offset <=? 2 ^ 32 - 1 then
    Some (mkPRecord (eh_kind header) (eh_flags header) (eh_index header) (eh_count header)
            (eh_batch header) (eh_position header) (eh_id header) offset (eh_len header) stored)
  else None.

(** The record recovery writes over a torn one *)
Definition void_record (index count batch : Z) : PRecord :=
  mkPRecord Kind_Void 0 index count batch 0 (zeros ID_SIZE) 0 0 0.

Section WithCrc.
Context {C : Crc32c}.

(** [read_entry]: an entry checked against its own checksum *)
Definition read_entry (s : Segment) (offset tag : Z) :
    IO ErrorKind (option (EntryHeader * Z * list byte)) :=
  let g := s_geometry s in
  if (offset <? entry_start g) || (entry_end g <? offset + RECORD_SIZE) then io_ret None else
  let! head := Segment_read_at s offset RECORD_SIZE in
  let! parsed := io_expect (EntryHeader_parse head) in
  match parsed with
  | None => io_ret None
  | Some (header, stored) =>
      if negb (eh_tag header =? tag) || (entry_end g <? offset + footprint (eh_len header))
      then io_ret None else
      let! whole := Segment_read_at s offset (RECORD_SIZE + eh_len header) in
      let payload := slice whole RECORD_SIZE (len whole) in
      let! sum := io_expect (entry_crc (slice whole 0 RECORD_SIZE) payload) in
      if negb (sum =? stored) then io_ret None
      else io_ret (Some (header, stored, payload))
  end.

(** ** Pass 1 *)

(** The [slot] closure of [scan_segment]: a stale record reads as damage. *)
Definition slot (log : list byte) (stale : Stale) (first_batch at_ : Z) : option Slot :=
  let* bytes := slice_checked log (at_ * RECORD_SIZE) (len log) in
  let* s := PRecord_decode bytes in
  match s with
  | Slot_Valid record =>
      if is_stale_in stale first_batch (r_batch record) then Some Slot_Damaged else Some s
  | s => Some s
  end.

(** [(at..slots).find_map(..)]: the first valid slot among the [n] from [j] *)
Fixpoint first_valid (log : list byte) (stale : Stale) (first_batch : Z) (n : nat) (j : Z) :
    option (option (Z * PRecord)) :=
  match n with
  | O => Some None
  | S n =>
      let* s := slot log stale first_batch j in
      match s with
      | Slot_Valid record => Some (Some (j, record))
      | _ => first_valid log stale first_batch n (j + 1)
      end
  end.

(** The loop over the [n] slots of a batch from [index] on.  [walk] is where
    the next entry is, if it is known. *)
Fixpoint scan_slots (s : Segment) (log : list byte) (stale : Stale) (tag at_ seq count : Z)
    (n : nat) (index : Z) (walk : option Z) (entries_end : Z) (found : list Found) :
    IO OpenError (list Found * Z) :=
  match n with
  | O => io_ret (found, entries_end)
  | S n =>
      let! here_slot := io_expect (slot log stale (s_first_batch s) (at_ + index)) in
      let from_entry :=
        match walk with
        | Some offset =>
            let! e := lift_io (read_entry s offset tag) in
            match e with
            | Some (header, stored, _) =>
                if (eh_batch header =? seq) && (eh_index header =? index) &&
                   (eh_count header =? count)
                then let! r := io_expect (rebuild header stored offset) in
                     io_ret (Found_Rebuilt r)
                else io_ret Found_Lost
            | None => io_ret Found_Lost
            end
        | None => io_ret Found_Lost
        end in
      let! here :=
        match here_slot with
        | Slot_Valid record =>
            if (r_batch record =? seq) && (r_index record =? index) &&
               (r_count record =? count)
            then io_ret (Found_Record record) else from_entry
        | _ => from_entry
        end in
      let '(walk, entries_end) :=
        match here with
        | Found_Record record | Found_Rebuilt record =>
            if bool_decide (r_kind record ≠ Kind_Void) then
              let end_ := r_offset record + footprint (r_len record) in
              (Some end_, Z.max entries_end end_)
            else (None, entries_end)
        | Found_Lost => (None, entries_end)
        end in
      scan_slots s log stale tag at_ seq count n (index + 1) walk entries_end (found ++ [here])
  end.

(** The batch at a boundary: [(seq, count)] from a valid record that belongs
    there, else from its first entry.  [first] is the first valid slot at or
    after the boundary.  The index subtraction is on [usize]: without
    overflow checks an index above the slot's number wraps, which is never
    the boundary; with them it panics. *)
Definition locate_batch (s : Segment) (stale : Stale) (tag at_ last entry_cursor : Z)
    (first : option (Z * PRecord)) : IO OpenError (option (Z * Z)) :=
  let! from_record :=
    match first with
    | Some (j, record) =>
        if j - r_index record =? at_ then
          if (r_batch record <=? last) || (r_batch record <? s_first_batch s)
          then io_err (OE_LostBatch (wrap64 (last + 1)))
          else io_ret (Some (r_batch record, r_count record))
        else io_ret None
    | None => io_ret None
    end in
  match from_record with
  | Some shape => io_ret (Some shape)
  | None =>
      let! e := lift_io (read_entry s entry_cursor tag) in
      match e with
      | Some (header, _, _) =>
          if (eh_index header =? 0) && (last <? eh_batch header) &&
             (s_first_batch s <=? eh_batch header) && negb (is_stale stale (eh_batch header))
          then io_ret (Some (eh_batch header, eh_count header))
          else io_ret None
      | None => io_ret None
      end
  end.

(** The loop of [scan_segment]. *)
Fixpoint scan_loop (fuel : nat) (s : Segment) (log : list byte) (stale : Stale) (tag : Z)
    (batches : list BatchScan) (last at_ entry_cursor : Z) :
    IO OpenError (list BatchScan * Z * Z) :=
  let slots := len log / RECORD_SIZE in
  let finish := io_ret (batches, PERSIST_START + at_ * RECORD_SIZE, entry_cursor) in
  if slots <=? at_ then finish else
  match fuel with
  | O => io_panic
  | S fuel =>
      let! first := io_expect
        (first_valid log stale (s_first_batch s) (Z.to_nat (slots - at_)) at_) in
      let! shape := locate_batch s stale tag at_ last entry_cursor first in
      match shape with
      | None =>
          if bool_decide (is_Some first)
          then io_err (OE_LostBatch (wrap64 (last + 1))) else finish
      | Some (seq, count) =>
          if slots <? at_ + count then io_err (OE_LostBatch seq) else
          let! '(found, entries_end) :=
            scan_slots s log stale tag at_ seq count (Z.to_nat count) 0
              (Some entry_cursor) entry_cursor [] in
          let batch := mkBatchScan seq count (PERSIST_START + at_ * RECORD_SIZE) found in
          scan_loop fuel s log stale tag (batches ++ [batch]) seq
            (at_ + blocks_for count * RECORDS_PER_BLOCK) (align_up entries_end BLOCK)
      end
  end.

(** [scan_segment] *)
Definition scan_segment (s : Segment) (prev tag : Z) (stale : Stale) :
    IO OpenError (list BatchScan * Z * Z) :=
  let! log := lift_io (read_persist_log s) in
  scan_loop (S (Z.to_nat (len log / RECORD_SIZE))) s log stale tag [] prev 0
    (entry_start (s_geometry s)).

(** ** Pass 2 *)

Definition push_op (out : Scan) (op : Op) : Scan :=
  mkScan (sc_ops out ++ [op]) (sc_last_batch out) (sc_cursors out) (sc_corrupt out)
    (sc_ambiguous out) (sc_rebuilt out) (sc_voided out) (sc_rewrite out).
Definition count_rebuilt (out : Scan) : Scan :=
  mkScan (sc_ops out) (sc_last_batch out) (sc_cursors out) (sc_corrupt out)
    (sc_ambiguous out) (sc_rebuilt out + 1) (sc_voided out) (sc_rewrite out).
Definition count_voided (out : Scan) : Scan :=
  mkScan (sc_ops out) (sc_last_batch out) (sc_cursors out) (sc_corrupt out)
    (sc_ambiguous out) (sc_rebuilt out) (sc_voided out + 1) (sc_rewrite out).
Definition push_damaged (out : Scan) (ordered : bool) (x : Z * Id) : Scan :=
  mkScan (sc_ops out) (sc_last_batch out) (sc_cursors out)
    (if ordered then sc_corrupt out ++ [x] else sc_corrupt out)
    (if ordered then sc_ambiguous out else sc_ambiguous out ++ [x])
    (sc_rebuilt out) (sc_voided out) (sc_rewrite out).
Definition set_rewrite (out : Scan) (x : nat * Z * list byte) : Scan :=
  mkScan (sc_ops out) (sc_last_batch out) (sc_cursors out) (sc_corrupt out)
    (sc_ambiguous out) (sc_rebuilt out) (sc_voided out) (Some x).
Definition push_cursor (out : Scan) (x : Z * Z) : Scan :=
  mkScan (sc_ops out) (sc_last_batch out) (sc_cursors out ++ [x]) (sc_corrupt out)
    (sc_ambiguous out) (sc_rebuilt out) (sc_voided out) (sc_rewrite out).

Definition located_of (first_batch persist_at index : Z) (r : PRecord) (damaged : bool) :
    Located :=
  mkLocated first_batch (persist_at + slot_offset index) (r_offset r) (r_len r)
    (r_entry_crc r) (r_id r) (r_batch r) index (r_count r) (r_flags r) damaged.

(** What a kept record does to the index; only a last batch's entry is read. *)
Definition judge_record (s : Segment) (persist_at index : Z) (is_last from_log : bool)
    (tag : Z) (record : PRecord) (out : Scan) : IO OpenError Scan :=
  match r_kind record with
  | Kind_Void => io_ret out
  | Kind_Clear =>
      let! end_ := io_expect (clear_end record) in
      io_ret (push_op out (Op_Clear (r_position record) end_))
  | Kind_Put =>
      let! damaged :=
        if is_last && from_log then
          let! e := lift_io (read_entry s (r_offset record) tag) in
          io_ret (match e with
                  | Some (header, stored, _) => negb (entry_matches record header stored)
                  | None => true
                  end)
        else io_ret false in
      let out :=
        if damaged
        then push_damaged out (negb (Z.land (r_flags record) FLAG_ORDERED =? 0))
               (r_position record, r_id record)
        else out in
      io_ret (push_op out (Op_Put (r_position record)
        (located_of (s_first_batch s) persist_at index record damaged)))
  end.

(** The loop of [judge_batch] over the slots from [index] on: the kept
    records, whether the extent is rewritten, and the scan. *)
Fixpoint judge_slots (s : Segment) (batch : BatchScan) (is_last : bool) (tag index : Z)
    (slots : list Found) (rewrite : bool) (kept : list PRecord) (out : Scan) :
    IO OpenError (bool * list PRecord * Scan) :=
  match slots with
  | [] => io_ret (rewrite, kept, out)
  | found :: slots =>
      match found with
      | Found_Lost =>
          if is_last then
            judge_slots s batch is_last tag (index + 1) slots true
              (kept ++ [void_record index (bs_count batch) (bs_seq batch)])
              (count_voided out)
          else io_err (OE_DoubleFault (bs_seq batch) index)
      | Found_Record record =>
          let! out := judge_record s (bs_persist_at batch) index is_last true tag record out in
          judge_slots s batch is_last tag (index + 1) slots rewrite (kept ++ [record]) out
      | Found_Rebuilt record =>
          let! out := judge_record s (bs_persist_at batch) index is_last false tag record
                        (count_rebuilt out) in
          judge_slots s batch is_last tag (index + 1) slots (rewrite || is_last)
            (kept ++ [record]) out
      end
  end.

(** Encode [kept] into consecutive slots of [bytes], from slot [at_] on. *)
Fixpoint encode_records (kept : list PRecord) (at_ : Z) (bytes : list byte) :
    option (list byte) :=
  match kept with
  | [] => Some bytes
  | record :: kept =>
      let* tail := slice_checked bytes (at_ * RECORD_SIZE) (len bytes) in
      let* tail := PRecord_encode record tail in
      let* bytes := copy_from_slice bytes (at_ * RECORD_SIZE) tail in
      encode_records kept (at_ + 1) bytes
  end.

(** [judge_batch] *)
Definition judge_batch (s : Segment) (segment_index : nat) (batch : BatchScan)
    (is_last : bool) (tag : Z) (out : Scan) : IO OpenError Scan :=
  let! '(rewrite, kept, out) :=
    judge_slots s batch is_last tag 0 (bs_slots batch) false [] out in
  if rewrite then
    let blocks := blocks_for (len kept) in
    let! bytes := io_expect (encode_records kept 0 (block_buf (blocks * BLOCK))) in
    io_ret (set_rewrite out (segment_index, bs_persist_at batch, bytes))
  else io_ret out.

(** ** [scan]: every segment, sorted by first batch *)

Fixpoint scan_segments (segs : list Segment) (last tag : Z) (stale : Stale) :
    IO OpenError (list (list BatchScan * Z * Z) * Z) :=
  match segs with
  | [] => io_ret ([], last)
  | s :: segs =>
      if negb (s_prev_batch s =? last) then io_err (OE_LostBatch (wrap64 (last + 1))) else
      let! '(batches, persist_next, entry_next) := scan_segment s last tag stale in
      let last := match list_basics.list.last batches with
                  | Some batch => bs_seq batch
                  | None => last
                  end in
      let! '(rest, last) := scan_segments segs last tag stale in
      io_ret ((batches, persist_next, entry_next) :: rest, last)
  end.

(** The location [(segment, batch)] of the last batch: the last batch of the
    last segment that has one. *)
Fixpoint last_location (i : nat) (per : list (list BatchScan * Z * Z)) : option (nat * nat) :=
  match per with
  | [] => None
  | (batches, _, _) :: per =>
      match last_location (S i) per with
      | Some x => Some x
      | None => match batches with [] => None | _ => Some (i, length batches - 1)%nat end
      end
  end.

Fixpoint judge_batches (s : Segment) (si bi : nat) (batches : list BatchScan)
    (last : option (nat * nat)) (tag : Z) (out : Scan) : IO OpenError Scan :=
  match batches with
  | [] => io_ret out
  | batch :: batches =>
      let! out := judge_batch s si batch (bool_decide (last = Some (si, bi))) tag out in
      judge_batches s si (S bi) batches last tag out
  end.

Fixpoint judge_segments (segs : list Segment) (si : nat) (per : list (list BatchScan * Z * Z))
    (last : option (nat * nat)) (tag : Z) (out : Scan) : IO OpenError Scan :=
  match per, segs with
  | (batches, persist_next, entry_next) :: per, s :: segs =>
      let out := push_cursor out (persist_next, entry_next) in
      let! out := judge_batches s si 0 batches last tag out in
      judge_segments segs (S si) per last tag out
  | _, _ => io_ret out
  end.

Definition scan (segs : list Segment) (tag : Z) (stale : Stale) : IO OpenError Scan :=
  let last := match segs with [] => 0 | s :: _ => s_prev_batch s end in
  let! '(per, last) := scan_segments segs last tag stale in
  let out := mkScan [] last [] [] [] 0 0 None in
  judge_segments segs 0 per (last_location 0 per) tag out.

(** ** Lemmas: the scan is total *)

(** An open segment: its file is whole, and its geometry valid. *)
Record segment_ok (s : Segment) (w : World) : Prop := {
  so_geometry : wf_geometry (s_geometry s) ∧ Geometry_is_valid (s_geometry s) = true;
  so_bf : journal_file (s_file s);
  so_file : ∃ f, w_files w !! bf_file (s_file s) = Some f ∧
              len (f_vis f) = total_blocks (s_geometry s) * BLOCK;
}.

Lemma segment_ok_faults s w fs : segment_ok s w → segment_ok s (with_faults w fs).
Proof. intros [? ? ?]. by split. Qed.

Lemma segment_read_at_reads s w off l :
  segment_ok s w → 0 ≤ off → 0 ≤ l → off + l ≤ entry_end (s_geometry s) →
  reads (Segment_read_at s off l) w (fun out => len out = l).
Proof.
  intros [[Hg Hv] Hj (f & Hf & Hl)] Ho Hln Hend.
  destruct (geometry_regions _ Hg Hv) as (_ & _ & He & _). rewrite He in Hend.
  apply (read_bytes_reads _ _ _ _ f); try done; [|lia].
  rewrite Hl. by apply Z.mod_mul.
Qed.

(** What a found entry satisfies. *)
Definition entry_found (s : Segment) (offset tag : Z)
    (r : option (EntryHeader * Z * list byte)) : Prop :=
  match r with
  | None => True
  | Some (h, sum, payload) =>
      wf_entry_header h ∧ u32 sum ∧ eh_tag h = tag ∧ len payload = eh_len h ∧
      entry_start (s_geometry s) ≤ offset ∧
      offset + footprint (eh_len h) ≤ entry_end (s_geometry s)
  end.

Lemma read_entry_reads s w offset tag :
  segment_ok s w → reads (read_entry s offset tag) w (entry_found s offset tag).
Proof.
  intros Hs. pose proof Hs as [[Hg Hv] _ _].
  destruct (geometry_regions _ Hg Hv) as ([Hp0 Hp1] & He0 & _ & Hu & _).
  unfold PERSIST_START, BLOCK, in_u in *. unfold read_entry.
  destruct (Z.ltb_spec offset (entry_start (s_geometry s))); [by apply reads_ret|].
  destruct (Z.ltb_spec (entry_end (s_geometry s)) (offset + RECORD_SIZE));
    [by apply reads_ret|]. cbn [orb].
  eapply reads_bind; [apply segment_read_at_reads; unfold RECORD_SIZE in *; done || lia|].
  intros head fs Hhead. destruct (EntryHeader_parse_total head) as (parsed & Hp).
  eapply reads_bind_expect; [exact Hp|].
  destruct parsed as [[h stored]|]; [|by apply reads_ret].
  destruct (EntryHeader_parse_wf _ _ _ Hp) as (Hwf & Hst & _).
  destruct (Z.eqb_spec (eh_tag h) tag) as [Ht|]; cbn [negb orb]; [|by apply reads_ret].
  destruct (Z.ltb_spec (entry_end (s_geometry s)) (offset + footprint (eh_len h)));
    [by apply reads_ret|].
  assert (0 ≤ eh_len h) as Hl0.
  { destruct Hwf as (_ & _ & _ & _ & _ & _ & Hl & _). unfold in_u in Hl. lia. }
  pose proof (footprint_bounds (eh_len h) Hl0) as Hfb.
  eapply reads_bind.
  { apply segment_read_at_reads; [by repeat apply segment_ok_faults| | |];
      unfold RECORD_SIZE in *; lia. }
  intros whole fs2 Hwhole. cbn in Hwhole.
  destruct (entry_crc_spec (slice whole 0 RECORD_SIZE) (slice whole RECORD_SIZE (len whole)))
    as (hd & _ & _ & _ & Hsum).
  { rewrite len_slice; unfold RECORD_SIZE in *; lia. }
  eapply reads_bind_expect; [exact Hsum|].
  destruct (_ =? stored); cbn [negb]; [|by apply reads_ret].
  apply reads_ret. cbn. split_and!; try done.
  rewrite len_slice; unfold RECORD_SIZE in *; lia.
Qed.

(** The persist log, read: as long as its region. *)
Lemma read_persist_log_reads s w :
  segment_ok s w →
  reads (read_persist_log s) w (fun log => len log = persist_blocks (s_geometry s) * BLOCK).
Proof.
  intros [[Hg Hv] Hj (f & Hf & Hl)]. unfold read_persist_log.
  destruct Hg as (Hp & Hgap & He). unfold in_u in *.
  replace (persist_end (s_geometry s) - PERSIST_START)
    with (persist_blocks (s_geometry s) * BLOCK) by (unfold persist_end; lia).
  rewrite Z.div_mul by done. change (PERSIST_START / BLOCK) with 2.
  assert ((2 + persist_blocks (s_geometry s)) * BLOCK ≤ len (f_vis f)).
  { rewrite Hl. unfold total_blocks, BLOCK. lia. }
  eapply reads_conseq; [apply (read_blocks_reads _ _ _ _ f); done || lia|].
  intros log [Hlog _]. cbn. rewrite Hlog, len_slice by (unfold BLOCK in *; lia).
  unfold BLOCK. lia.
Qed.

(** A slot inside the log decodes; a valid one is a well-typed record of
    this segment that no later open declared absent. *)
Lemma slot_total log stale first at_ :
  0 ≤ at_ < len log / RECORD_SIZE →
  ∃ s, slot log stale first at_ = Some s ∧
    ∀ r, s = Slot_Valid r → wf_record r ∧ is_stale stale (r_batch r) = false.
Proof.
  intros H. assert ((at_ + 1) * RECORD_SIZE ≤ len log) as Hlen.
  { pose proof (Z.mul_div_le (len log) RECORD_SIZE ltac:(done)). unfold RECORD_SIZE in *. lia. }
  assert (0 ≤ at_ * RECORD_SIZE) by (unfold RECORD_SIZE; lia).
  unfold slot. rewrite slice_checked_ok by (unfold RECORD_SIZE in *; lia).
  cbn [mbind option_bind].
  destruct (PRecord_decode_total (slice log (at_ * RECORD_SIZE) (len log))) as (s & Hd).
  { rewrite len_slice; unfold RECORD_SIZE in *; lia. }
  rewrite Hd. cbn [mbind option_bind]. destruct s as [| |r].
  1,2: eexists; split; [done|]; intros ? [=].
  pose proof (PRecord_decode_wf _ _ Hd) as Hr.
  destruct (is_stale_in _ _ _) eqn:Hst; eexists; (split; [done|]); intros ? [=]. subst.
  split; [done|]. by apply orb_false_iff in Hst as [_ ?].
Qed.

Lemma first_valid_total log stale first n j :
  0 ≤ j → j + Z.of_nat n ≤ len log / RECORD_SIZE →
  ∃ o, first_valid log stale first n j = Some o ∧
    ∀ k r, o = Some (k, r) →
      j ≤ k < j + Z.of_nat n ∧ wf_record r ∧ is_stale stale (r_batch r) = false.
Proof.
  revert j. induction n as [|n IH]; intros j Hj Hn; cbn [first_valid].
  - exists None. split; [done|]. by intros ? ? [=].
  - destruct (slot_total log stale first j ltac:(lia)) as (s & Hs & Hwf). rewrite Hs.
    cbn [mbind option_bind]. destruct s as [| |r].
    1,2: destruct (IH (j + 1) ltac:(lia) ltac:(lia)) as (o & Ho & Hspec);
      exists o; (split; [done|]); intros k r E; destruct (Hspec k r E); split; [lia|done].
    exists (Some (j, r)). split; [done|]. intros k r' [= <- <-]. split; [lia|auto].
Qed.

(** A found record is well typed and belongs to its batch. *)
Definition found_ok (seq count : Z) (f : Found) : Prop :=
  match f with
  | Found_Record r | Found_Rebuilt r =>
      wf_record r ∧ r_batch r = seq ∧ r_count r = count
  | Found_Lost => True
  end.

Lemma rebuild_ok s offset tag h stored payload :
  wf_geometry (s_geometry s) → Geometry_is_valid (s_geometry s) = true →
  entry_found s offset tag (Some (h, stored, payload)) →
  ∃ r, rebuild h stored offset = Some r ∧ wf_record r ∧ r_batch r = eh_batch h ∧
    r_count r = eh_count h.
Proof.
  intros Hg Hv (Hwf & Hst & _ & _ & Hlo & Hhi).
  destruct (geometry_regions _ Hg Hv) as ([Hp0 Hp1] & _ & _ & Hu & _).
  destruct Hwf as (Hf & Hi & Hc & Hb & Hp & Hid & Hl & _ & Hlt).
  pose proof (footprint_bounds (eh_len h)) as Hfb.
  unfold PERSIST_START, BLOCK, RECORD_SIZE, in_u in *.
  unfold rebuild. rewrite (proj2 (Z.leb_le _ _)) by lia.
  eexists. split; [done|]. split; [|done]. unfold wf_record, in_u. cbn. repeat split; done || lia.
Qed.

Lemma scan_slots_reads s log stale tag at_ seq count n index walk ee found w :
  segment_ok s w → 0 ≤ at_ → 0 ≤ index → at_ + index + Z.of_nat n ≤ len log / RECORD_SIZE →
  Forall (found_ok seq count) found →
  reads (scan_slots s log stale tag at_ seq count n index walk ee found) w
    (fun r => Forall (found_ok seq count) r.1 ∧ length r.1 = (length found + n)%nat).
Proof.
  intros Hs Ha. pose proof Hs as [[Hg Hv] _ _].
  revert index walk ee found w Hs. induction n as [|n IH];
    intros index walk ee found w Hs Hi Hn Hfound; cbn [scan_slots].
  { apply reads_ret. cbn. split; [done|lia]. }
  destruct (slot_total log stale (s_first_batch s) (at_ + index)) as (sl & Hsl & Hslwf); [lia|].
  eapply reads_bind_expect; [exact Hsl|].
  set (from_entry := match walk with Some _ => _ | None => _ end).
  assert (∀ w, segment_ok s w → reads from_entry w (found_ok seq count)) as Hentry.
  { intros w' Hs'. unfold from_entry. destruct walk as [offset|]; [|by apply reads_ret].
    eapply reads_bind; [by apply reads_map_err, read_entry_reads|].
    intros e fs' He. destruct e as [[[h stored] payload]|]; [|by apply reads_ret].
    destruct (Z.eqb_spec (eh_batch h) seq); cbn [andb]; [|by apply reads_ret].
    destruct (eh_index h =? index); cbn [andb]; [|by apply reads_ret].
    destruct (Z.eqb_spec (eh_count h) count); [|by apply reads_ret].
    destruct (rebuild_ok s offset tag h stored payload Hg Hv He) as (r & Hr & Hw & ? & ?).
    eapply reads_bind_expect; [exact Hr|].
    apply reads_ret. cbn. split_and!; [done|congruence|congruence]. }
  eapply (reads_bind _ _ _ (found_ok seq count)).
  { destruct sl as [| |r]; [by apply Hentry; repeat apply segment_ok_faults..|].
    destruct (Z.eqb_spec (r_batch r) seq); cbn [andb]; [|by apply Hentry; repeat apply segment_ok_faults].
    destruct (r_index r =? index); cbn [andb]; [|by apply Hentry; repeat apply segment_ok_faults].
    destruct (Z.eqb_spec (r_count r) count); [|by apply Hentry; repeat apply segment_ok_faults].
    destruct (Hslwf r eq_refl). apply reads_ret. cbn. auto. }
  intros here fs' Hhere. cbn beta.
  set (we := match here with Found_Record _ | Found_Rebuilt _ => _ | Found_Lost => _ end).
  destruct we as [walk' ee'].
  eapply reads_conseq; [apply IH; [by repeat apply segment_ok_faults|lia|lia|]|].
  - apply Forall_app. split; [done|]. by constructor.
  - intros [out oe]. cbn. rewrite length_app. cbn. intros [? ?]. split; [done|lia].
Qed.

Definition shape_ok (s : Segment) (stale : Stale) (last : Z) (shape : option (Z * Z)) : Prop :=
  match shape with
  | Some (seq, count) => u64 seq ∧ 0 < count ≤ MAX_BATCH_RECORDS ∧ last < seq ∧
                         s_first_batch s ≤ seq ∧ is_stale stale seq = false
  | None => True
  end.

Lemma locate_batch_reads s stale tag at_ last cursor first w :
  segment_ok s w →
  (∀ k r, first = Some (k, r) → wf_record r ∧ is_stale stale (r_batch r) = false) →
  reads (locate_batch s stale tag at_ last cursor first) w (shape_ok s stale last).
Proof.
  intros Hs Hfirst. unfold locate_batch. eapply (reads_bind _ _ _ (shape_ok s stale last)).
  - destruct first as [[j r]|]; [|by apply reads_ret].
    destruct (_ =? at_); [|by apply reads_ret].
    destruct (Z.leb_spec (r_batch r) last); [apply reads_err|].
    destruct (Z.ltb_spec (r_batch r) (s_first_batch s)); [apply reads_err|].
    apply reads_ret. cbn.
    destruct (Hfirst j r eq_refl) as [(_ & Hi & Hc & Hb & _ & _ & _ & _ & _ & Hlt) Hst].
    unfold MAX_BATCH_RECORDS, in_u in *. repeat split; done || lia.
  - intros [shape|] fs Hshape; [by apply reads_ret|].
    eapply reads_bind; [by apply reads_map_err, read_entry_reads, segment_ok_faults|].
    intros e fs' He. destruct e as [[[h sum] payload]|]; [|by apply reads_ret].
    destruct (eh_index h =? 0); cbn [andb]; [|by apply reads_ret].
    destruct (Z.ltb_spec last (eh_batch h)); cbn [andb]; [|by apply reads_ret].
    destruct (Z.leb_spec (s_first_batch s) (eh_batch h)); cbn [andb]; [|by apply reads_ret].
    destruct (is_stale stale (eh_batch h)) eqn:Hst; cbn [negb]; [by apply reads_ret|].
    apply reads_ret. cbn. destruct He as ((_ & Hi & Hc & Hb & _ & _ & _ & _ & Hlt) & _).
    unfold MAX_BATCH_RECORDS, in_u in *. repeat split; done || lia.
Qed.

(** A batch the first pass found. *)
Record batch_ok (b : BatchScan) : Prop := {
  bo_seq : u64 (bs_seq b);
  bo_count : 0 < bs_count b ≤ MAX_BATCH_RECORDS;
  bo_slots : Forall (found_ok (bs_seq b) (bs_count b)) (bs_slots b);
  bo_len : len (bs_slots b) = bs_count b;
}.

(** A batch of its segment, after [last], that no open declared absent. *)
Definition current (first last : Z) (stale : Stale) (b : BatchScan) : Prop :=
  last < bs_seq b ∧ first ≤ bs_seq b ∧ is_stale stale (bs_seq b) = false.

(** The batches a segment's scan returns: current, in ascending order. *)
Definition ascending (first last : Z) (stale : Stale) (bs : list BatchScan) : Prop :=
  StronglySorted Z.lt (map bs_seq bs) ∧ Forall (current first last stale) bs.

Lemma scan_loop_reads fuel s log stale tag batches last at_ cursor w :
  segment_ok s w → 0 ≤ at_ → len log / RECORD_SIZE - at_ ≤ Z.of_nat fuel →
  Forall batch_ok batches → Forall (fun b => bs_seq b ≤ last) batches →
  StronglySorted Z.lt (map bs_seq batches) →
  reads (scan_loop fuel s log stale tag batches last at_ cursor) w
    (fun r => ∃ new, r.1.1 = batches ++ new ∧ Forall batch_ok r.1.1 ∧
                StronglySorted Z.lt (map bs_seq r.1.1) ∧
                Forall (current (s_first_batch s) last stale) new).
Proof.
  intros Hs. revert batches last at_ cursor w Hs. induction fuel as [|fuel IH];
    intros batches last at_ cursor w Hs Ha Hfuel Hok Hle Hsort; cbn [scan_loop];
    (destruct (Z.leb_spec (len log / RECORD_SIZE) at_) as [|Hlt];
     [apply reads_ret; exists []; cbn; rewrite app_nil_r; auto|]); [lia|].
  destruct (first_valid_total log stale (s_first_batch s)
    (Z.to_nat (len log / RECORD_SIZE - at_)) at_) as (first & Hfv & Hfwf); [lia|lia|].
  eapply reads_bind_expect; [exact Hfv|].
  eapply reads_bind; [apply locate_batch_reads; [done|]|].
  { intros k r E. by destruct (Hfwf k r E) as [_ ?]. }
  intros [[seq count]|] fs Hshape.
  2:{ destruct (bool_decide _); [apply reads_err|]. apply reads_ret.
      exists []. cbn. rewrite app_nil_r. auto. }
  destruct Hshape as (Hseq & Hcount & Hlast & Hfirst & Hstale).
  destruct (Z.ltb_spec (len log / RECORD_SIZE) (at_ + count)); [apply reads_err|].
  eapply reads_bind.
  { apply scan_slots_reads; [by apply segment_ok_faults|lia|lia|lia|constructor]. }
  intros [found ee] fs' [Hfound Hlen]. cbn in Hfound, Hlen. cbn beta iota zeta.
  set (b := mkBatchScan seq count (PERSIST_START + at_ * RECORD_SIZE) found).
  assert (batch_ok b) as Hb.
  { split; try done. cbn. unfold len. lia. }
  pose proof (blocks_for_spec count ltac:(lia)) as Hbf.
  assert (0 < blocks_for count) by (unfold BLOCK, RECORD_SIZE in *; lia).
  eapply reads_conseq; [apply IH|].
  - by repeat apply segment_ok_faults.
  - rewrite RECORDS_PER_BLOCK_eq. lia.
  - rewrite RECORDS_PER_BLOCK_eq. lia.
  - apply Forall_app. split; [done|by constructor].
  - apply Forall_app. split; [|constructor; [cbn; lia|constructor]].
    eapply Forall_impl; [exact Hle|]. cbn. lia.
  - rewrite map_app. cbn. apply StronglySorted_app_2; [|done|by repeat constructor].
    intros x y Hx Hy. assert (y = seq) as -> by set_solver.
    apply list_elem_of_In, in_map_iff in Hx as (c & <- & Hc).
    rewrite Forall_forall in Hle. apply list_elem_of_In, Hle in Hc. lia.
  - cbn. intros [[out pn] en] (new & Hnew & Hall & Hst & Hrest). cbn in *.
    exists (b :: new). rewrite Hnew in *. rewrite <- app_assoc in *. split_and!; try done.
    constructor; [by split; cbn|]. eapply Forall_impl; [exact Hrest|].
    intros c (? & ? & ?). split_and!; [lia|done..].
Qed.

(** Pass 1 over one segment terminates without a panic, and finds only
    batches of this segment, in ascending order. *)
Lemma scan_segment_reads s prev tag stale w :
  segment_ok s w →
  reads (scan_segment s prev tag stale) w
    (fun r => Forall batch_ok r.1.1 ∧ ascending (s_first_batch s) prev stale r.1.1).
Proof.
  intros Hs. unfold scan_segment.
  eapply reads_bind; [by apply reads_map_err, read_persist_log_reads|].
  intros log fs Hlog. cbn in Hlog.
  eapply reads_conseq; [apply scan_loop_reads; try by constructor|].
  - by apply segment_ok_faults.
  - lia.
  - lia.
  - cbn. intros [[out pn] en] (new & -> & Hall & Hst & Hrest). cbn in *. by split.
Qed.

(** *** Encoding a batch's records *)

Context {L : Crc32cLaws C}.

(** [records_at bytes at_ rs]: the slots of [bytes] from [at_] on hold [rs]. *)
Definition records_at (bytes : list byte) (at_ : Z) (rs : list PRecord) : Prop :=
  ∀ i r, rs !! i = Some r →
    PRecord_decode (slice bytes ((at_ + Z.of_nat i) * RECORD_SIZE) (len bytes)) =
      Some (Slot_Valid r).

Lemma encode_records_spec kept at_ bytes :
  Forall wf_record kept → 0 ≤ at_ → (at_ + len kept) * RECORD_SIZE ≤ len bytes →
  ∃ out, encode_records kept at_ bytes = Some out ∧ len out = len bytes ∧
    records_at out at_ kept ∧
    (∀ x y, 0 ≤ x → y ≤ at_ * RECORD_SIZE → slice out x y = slice bytes x y) ∧
    (∀ x y, (at_ + len kept) * RECORD_SIZE ≤ x → y ≤ len bytes →
      slice out x y = slice bytes x y).
Proof.
  revert at_ bytes. induction kept as [|r kept IH]; intros at_ bytes Hwf Ha Hl.
  { exists bytes. split_and!; try done. }
  apply Forall_cons_iff in Hwf as [Hr Hwf]. rewrite len_cons in Hl. cbn [encode_records].
  pose proof (len_nonneg kept).
  assert (0 ≤ at_ * RECORD_SIZE) by (unfold RECORD_SIZE; lia).
  rewrite slice_checked_ok by (unfold RECORD_SIZE in *; lia). cbn [mbind option_bind].
  set (tail := slice bytes (at_ * RECORD_SIZE) (len bytes)).
  assert (len tail = len bytes - at_ * RECORD_SIZE) as Ht
    by (apply len_slice; unfold RECORD_SIZE in *; lia).
  destruct (PRecord_encode_spec r tail Hr) as (tail' & He & Hlt & Hd & Hrest);
    [unfold RECORD_SIZE in *; lia|].
  rewrite He. cbn [mbind option_bind].
  destruct (copy_from_slice_written bytes (at_ * RECORD_SIZE) tail') as (b1 & Hc & W1 & W2 & W3);
    [lia|lia|].
  rewrite Hc. cbn [mbind option_bind].
  assert (slice b1 (at_ * RECORD_SIZE) (len b1) = tail') as Hb1.
  { etrans; [|exact W2]. f_equal. lia. }
  destruct (IH (at_ + 1) b1 Hwf) as (out & Ho & Hlo & Hrec & Hlow & Hhigh);
    [lia|unfold RECORD_SIZE in *; lia|].
  exists out. split; [done|]. split; [lia|]. split_and!.
  - intros [|i] r' Hi; cbn in Hi.
    + injection Hi as <-. rewrite Z.add_0_r.
      assert (slice out (at_ * RECORD_SIZE) (at_ * RECORD_SIZE + RECORD_SIZE) =
              slice tail' 0 RECORD_SIZE) as E.
      { rewrite Hlow by (unfold RECORD_SIZE in *; lia). rewrite <- Hb1.
        rewrite slice_slice by (unfold RECORD_SIZE in *; lia). f_equal; lia. }
      rewrite <- (PRecord_decode_prefix _ RECORD_SIZE).
      2:{ rewrite len_slice; unfold RECORD_SIZE in *; lia. }
      rewrite slice_slice by (unfold RECORD_SIZE in *; lia).
      rewrite Z.add_0_r, E. rewrite PRecord_decode_prefix by (unfold RECORD_SIZE in *; lia).
      done.
    + replace (at_ + Z.of_nat (S i)) with (at_ + 1 + Z.of_nat i) by lia. by apply Hrec.
  - intros x y Hx Hy. rewrite Hlow by (unfold RECORD_SIZE in *; lia). apply W3; [lia|].
    left. lia.
  - intros x y Hx Hy. rewrite len_cons in Hx. rewrite Hhigh by lia.
    destruct (decide (y ≤ x)) as [|Hxy].
    { unfold slice. by replace (Z.to_nat (y - x)) with 0%nat by lia. }
    transitivity (slice tail' (x - at_ * RECORD_SIZE) (y - at_ * RECORD_SIZE)).
    + rewrite <- Hb1, slice_slice by (unfold RECORD_SIZE in *; lia). f_equal; lia.
    + rewrite Hrest by (unfold RECORD_SIZE in *; lia). unfold tail.
      rewrite slice_slice by (unfold RECORD_SIZE in *; lia). f_equal; lia.
Qed.

(** *** Pass 2 never panics *)

(** An operation of a current batch of an open segment. *)
Definition op_current (s : Segment) (stale : Stale) (op : Op) : Prop :=
  match op with
  | Op_Put _ at_ => l_segment at_ = s_first_batch s ∧ s_first_batch s ≤ l_batch at_ ∧
                    is_stale stale (l_batch at_) = false
  | Op_Clear _ _ => True
  end.

Lemma clear_end_total r : wf_record r → ∃ e, clear_end r = Some e.
Proof.
  intros (_ & _ & _ & _ & _ & Hid & _). unfold wf_id, ID_SIZE in Hid.
  unfold clear_end, get_u64. rewrite get_slice by (cbn; lia). by eexists.
Qed.

Lemma judge_record_reads s pa index is_last from_log tag record out stale w :
  segment_ok s w → wf_record record → s_first_batch s ≤ r_batch record →
  is_stale stale (r_batch record) = false →
  reads (judge_record s pa index is_last from_log tag record out) w (fun out' =>
    ∃ ops, sc_ops out' = sc_ops out ++ ops ∧ Forall (op_current s stale) ops ∧
      sc_cursors out' = sc_cursors out ∧ sc_last_batch out' = sc_last_batch out ∧
      sc_rewrite out' = sc_rewrite out).
Proof.
  intros Hs Hr Hge Hst. unfold judge_record. destruct (r_kind record).
  - eapply (reads_bind _ _ _ (fun _ => True)).
    + destruct (is_last && from_log); [|by apply reads_ret].
      eapply reads_bind; [by apply reads_map_err, read_entry_reads|].
      intros ? ? _. by apply reads_ret.
    + intros damaged fs _. apply reads_ret. eexists [_]. destruct damaged; cbn;
        (split_and!; try done; by rewrite Forall_singleton).
  - destruct (clear_end_total record Hr) as (e & He). eapply reads_bind_expect; [exact He|].
    apply reads_ret. eexists [_]. cbn. split_and!; try done. by rewrite Forall_singleton.
  - apply reads_ret. exists []. rewrite app_nil_r. done.
Qed.

Lemma void_record_wf index count batch :
  0 ≤ index < count → count ≤ MAX_BATCH_RECORDS → u64 batch →
  wf_record (void_record index count batch).
Proof.
  unfold MAX_BATCH_RECORDS. intros. unfold wf_record, wf_id, in_u in *. cbn.
  rewrite len_repeatZ by done. repeat split; lia || done.
Qed.

Lemma judge_slots_reads s b is_last tag index slots rewrite kept out stale w :
  segment_ok s w → batch_ok b → current (s_first_batch s) (s_first_batch s - 1) stale b →
  Forall (found_ok (bs_seq b) (bs_count b)) slots → Forall wf_record kept →
  0 ≤ index → index + len slots ≤ bs_count b →
  reads (judge_slots s b is_last tag index slots rewrite kept out) w (fun r =>
    ∃ ops, sc_ops r.2 = sc_ops out ++ ops ∧ Forall (op_current s stale) ops ∧
      sc_cursors r.2 = sc_cursors out ∧ sc_last_batch r.2 = sc_last_batch out ∧
      sc_rewrite r.2 = sc_rewrite out ∧
      Forall wf_record r.1.2 ∧ len r.1.2 = len kept + len slots).
Proof.
  intros Hs Hb Hcur. pose proof Hcur as (_ & Hge & Hst).
  revert index rewrite kept out w Hs. induction slots as [|f slots IH];
    intros index rewrite kept out w Hs Hslots Hkept Hi Hn; cbn [judge_slots].
  { apply reads_ret. exists []. cbn. rewrite app_nil_r, Z.add_0_r. done. }
  apply Forall_cons_iff in Hslots as [Hf Hslots]. rewrite len_cons in Hn.
  pose proof (len_nonneg slots). destruct f as [r|r|].
  1,2: destruct Hf as (Hr & Hbr & _);
    (eapply reads_bind; [apply (judge_record_reads _ _ _ _ _ _ _ _ stale);
       [done|done|by rewrite Hbr|by rewrite Hbr]|]);
    intros out1 fs (ops & Ho & Hops & Hc1 & Hl1 & Hrw1);
    (eapply reads_conseq; [apply IH; [by apply segment_ok_faults|done| |lia|lia]|]);
    [by apply Forall_app; rewrite Forall_singleton|];
    intros [[rw k] out2] (ops2 & Ho2 & Hops2 & Hc2 & Hl2 & Hrw2 & Hk & Hlk); cbn in *;
    exists (ops ++ ops2); split_and!; try congruence;
    [by rewrite Ho2, Ho, app_assoc|by apply Forall_app|rewrite Hlk; autorewrite with len; lia].
  destruct is_last; [|apply reads_err].
  eapply reads_conseq; [apply IH; [done|done| |lia|lia]|].
  - apply Forall_app. rewrite Forall_singleton. split; [done|].
    destruct Hb. apply void_record_wf; done || lia.
  - intros [[rw k] out2] (ops2 & Ho2 & Hops2 & Hc2 & Hl2 & Hrw2 & Hk & Hlk). cbn in *.
    exists ops2. split_and!; try done. rewrite Hlk. autorewrite with len. lia.
Qed.

Lemma judge_batch_reads s si b is_last tag out stale w :
  segment_ok s w → batch_ok b → current (s_first_batch s) (s_first_batch s - 1) stale b →
  reads (judge_batch s si b is_last tag out) w (fun out' =>
    ∃ ops, sc_ops out' = sc_ops out ++ ops ∧ Forall (op_current s stale) ops ∧
      sc_cursors out' = sc_cursors out ∧ sc_last_batch out' = sc_last_batch out).
Proof.
  intros Hs Hb Hcur. unfold judge_batch.
  eapply reads_bind; [apply (judge_slots_reads _ _ _ _ _ _ _ _ _ stale)|]; try done.
  { apply Hb. }
  { destruct Hb. lia. }
  intros [[rw k] out1] fs (ops & Ho & Hops & Hc & Hl & _ & Hk & Hlk). cbn in *.
  destruct rw; [|apply reads_ret; eauto].
  pose proof (len_nonneg k) as Hk0. pose proof (blocks_for_spec (len k) Hk0) as Hbf.
  assert (0 ≤ blocks_for (len k)) by (unfold BLOCK, RECORD_SIZE in *; lia).
  destruct (encode_records_spec k 0 (block_buf (blocks_for (len k) * BLOCK)))
    as (bytes & He & _); [done|lia| |].
  { unfold block_buf. rewrite len_repeatZ; unfold BLOCK, RECORD_SIZE in *; lia. }
  eapply reads_bind_expect; [exact He|]. apply reads_ret. cbn. eauto.
Qed.

Lemma judge_batches_reads s si bi batches last tag out stale w :
  segment_ok s w → Forall batch_ok batches →
  Forall (current (s_first_batch s) (s_first_batch s - 1) stale) batches →
  reads (judge_batches s si bi batches last tag out) w (fun out' =>
    ∃ ops, sc_ops out' = sc_ops out ++ ops ∧ Forall (op_current s stale) ops ∧
      sc_cursors out' = sc_cursors out ∧ sc_last_batch out' = sc_last_batch out).
Proof.
  revert bi out w. induction batches as [|b batches IH]; intros bi out w Hs Hok Hcur;
    cbn [judge_batches].
  { apply reads_ret. exists []. by rewrite app_nil_r. }
  apply Forall_cons_iff in Hok as [Hb Hok]. apply Forall_cons_iff in Hcur as [Hc Hcur].
  eapply reads_bind; [by apply (judge_batch_reads _ _ _ _ _ _ stale)|].
  intros out1 fs (ops & Ho & Hops & Hc1 & Hl1).
  eapply reads_conseq; [apply IH; [by apply segment_ok_faults|done|done]|].
  intros out2 (ops2 & Ho2 & Hops2 & Hc2 & Hl2). exists (ops ++ ops2).
  rewrite Ho2, Ho. split_and!; try congruence; [by rewrite app_assoc|by apply Forall_app].
Qed.

Definition segment_scanned (stale : Stale) (s : Segment) (x : list BatchScan * Z * Z) : Prop :=
  Forall batch_ok x.1.1 ∧ Forall (current (s_first_batch s) (s_first_batch s - 1) stale) x.1.1.

Lemma scan_segments_reads segs last tag stale w :
  Forall (fun s => segment_ok s w) segs →
  reads (scan_segments segs last tag stale) w
    (fun r => Forall2 (segment_scanned stale) segs r.1).
Proof.
  revert last w. induction segs as [|s segs IH]; intros last w Hs; cbn [scan_segments].
  { by apply reads_ret. }
  apply Forall_cons_iff in Hs as [Hs Hsegs].
  destruct (negb _); [apply reads_err|].
  eapply reads_bind; [by apply scan_segment_reads|].
  intros [[batches pn] en] fs (Hok & _ & Hcur). cbn in Hok, Hcur.
  eapply reads_bind; [apply IH|].
  { eapply Forall_impl; [exact Hsegs|]. intros. by apply segment_ok_faults. }
  intros [rest last'] fs' Hrest. apply reads_ret. cbn. constructor; [|done].
  split; [done|]. cbn. eapply Forall_impl; [exact Hcur|].
  intros b (? & ? & ?). split_and!; [lia|done..].
Qed.

Lemma judge_segments_reads segs si per last tag out stale w :
  Forall (fun s => segment_ok s w) segs → Forall2 (segment_scanned stale) segs per →
  reads (judge_segments segs si per last tag out) w (fun out' =>
    ∃ ops, sc_ops out' = sc_ops out ++ ops ∧
      Forall (fun op => ∃ s, s ∈ segs ∧ op_current s stale op) ops ∧
      length (sc_cursors out') = (length (sc_cursors out) + length segs)%nat ∧
      sc_last_batch out' = sc_last_batch out).
Proof.
  intros Hs Hper. revert si out w Hs.
  induction Hper as [|s [[batches pn] en] segs per [Hok Hcur] Hper IH];
    intros si out w Hs; cbn [judge_segments].
  { apply reads_ret. exists []. rewrite app_nil_r, Nat.add_0_r. done. }
  apply Forall_cons_iff in Hs as [Hs Hsegs].
  eapply reads_bind; [by apply (judge_batches_reads _ _ _ _ _ _ _ stale)|].
  intros out1 fs (ops & Ho & Hops & Hc & Hl).
  eapply reads_conseq; [apply IH; eapply Forall_impl; [exact Hsegs|];
    intros; by apply segment_ok_faults|].
  intros out2 (ops2 & Ho2 & Hops2 & Hc2 & Hl2). exists (ops ++ ops2). cbn in *.
  rewrite Ho2, Ho, Hc2, Hc, Hl2, Hl, app_assoc, length_app, Forall_app. cbn.
  split_and!; try done; [| |lia].
  - eapply Forall_impl; [exact Hops|]. intros op Hop. exists s. split; [set_solver|done].
  - eapply Forall_impl; [exact Hops2|]. intros op (t & ? & ?). exists t. split; [set_solver|done].
Qed.

(** C9: in a build without overflow checks (the release profile) opening's
    scan is total: on segments whose files are whole, whatever bytes they
    hold and whatever reads fail or fall short, it changes nothing and
    returns a result or an error, never a panic; the operations it returns
    are of batches of an open segment that belong to the segment and that no
    earlier open declared absent.  (With overflow checks a record that sits
    at a slot below its own index, a batch numbered 2^64 - 1 and a batch of
    65535 records make the code panic: see the header of this file.) *)
Theorem recovery_never_panics segs tag stale w :
  Forall (fun s => segment_ok s w) segs →
  reads (scan segs tag stale) w (fun out =>
    Forall (fun op => ∃ s, s ∈ segs ∧ op_current s stale op) (sc_ops out) ∧
    length (sc_cursors out) = length segs).
Proof.
  intros Hs. unfold scan. eapply reads_bind; [by apply scan_segments_reads|].
  intros [per last] fs Hper. cbn in Hper.
  eapply reads_conseq; [eapply judge_segments_reads; [|exact Hper]|].
  { eapply Forall_impl; [exact Hs|]. intros. by apply segment_ok_faults. }
  cbn. intros out (ops & -> & Hops & -> & _). done.
Qed.
End WithCrc.
