(* ===== verification/Log.v ===== *)
(** * The log a segment holds, and that recovery reads it back

    [log_at] is the abstract description of a segment's bytes: batches whose
    records sit in consecutive slots from a block boundary, whose entries
    are packed from a block boundary, and behind them nothing that reads as
    a record or as the start of a batch.  It is the contract between the
    writer ([Commit]) and the reader ([Recover]): the theorems here show that
    the scan of a segment that satisfies it returns exactly its batches, its
    cursors and the operations of its records, with no damage; [CommitLog]
    shows that a commit extends it. *)

From stdpp Require Import sorting.
From S2P Require Import Prelude Crc Format Names Storage JournalIo MetaFile Index Segment.
From S2P Require Import Recover.
#[local] Open Scope Z_scope.

(** A batch of the log: its number and its records, in slot order *)
Record LBatch := mkLBatch {
  lb_seq : Z;
  lb_records : list PRecord;
}.

(** The end of entries packed from [at_] on, one per record. *)
Fixpoint entries_end (at_ : Z) (rs : list PRecord) : Z :=
  match rs with
  | [] => at_
  | r :: rs => entries_end (at_ + footprint (r_len r)) rs
  end.

Fixpoint packed_at (at_ : Z) (rs : list PRecord) : Prop :=
  match rs with
  | [] => True
  | r :: rs => r_offset r = at_ ∧ 0 ≤ r_len r ∧ packed_at (at_ + footprint (r_len r)) rs
  end.

(** The slot after a batch of [n] records that starts at slot [at_]. *)
Definition slots_after (at_ n : Z) : Z := at_ + blocks_for n * RECORDS_PER_BLOCK.

(** Where the log of [bs] ends: the next slot and the next entry. *)
Fixpoint log_end (at_ cursor : Z) (bs : list LBatch) : Z * Z :=
  match bs with
  | [] => (at_, cursor)
  | b :: bs => log_end (slots_after at_ (len (lb_records b)))
                 (align_up (entries_end cursor (lb_records b)) BLOCK) bs
  end.

(** The number of the last batch of [bs], or [last]. *)
Definition last_seq (last : Z) (bs : list LBatch) : Z :=
  match list_basics.list.last bs with Some b => lb_seq b | None => last end.

Definition persist_log (g : Geometry) (l : list byte) : list byte :=
  slice l PERSIST_START (persist_end g).

Section WithCrc.
Context {C : Crc32c}.

(** What [read_entry] returns when every read succeeds, from the bytes [l]. *)
Definition entry_at (g : Geometry) (l : list byte) (offset tag : Z) :
    option (EntryHeader * Z * list byte) :=
  if (offset <? entry_start g) || (entry_end g <? offset + RECORD_SIZE) then None else
  match EntryHeader_parse (slice l offset (offset + RECORD_SIZE)) with
  | Some (Some (header, stored)) =>
      if negb (eh_tag header =? tag) || (entry_end g <? offset + footprint (eh_len header))
      then None else
      let payload := slice l (offset + RECORD_SIZE) (offset + RECORD_SIZE + eh_len header) in
      match entry_crc (slice l offset (offset + RECORD_SIZE)) payload with
      | Some sum => if sum =? stored then Some (header, stored, payload) else None
      | None => None
      end
  | _ => None
  end.

(** The entry of [r] is in place, the one [r] names. *)
Definition entry_intact (g : Geometry) (l : list byte) (tag : Z) (r : PRecord) : Prop :=
  ∃ h stored payload, entry_at g l (r_offset r) tag = Some (h, stored, payload) ∧
    entry_matches r h stored = true.

Record lbatch_ok (s : Segment) (log : list byte) (stale : Stale) (last at_ cursor : Z)
    (b : LBatch) : Prop := {
  lo_count : 0 < len (lb_records b) ≤ MAX_BATCH_RECORDS;
  lo_slots : at_ + len (lb_records b) ≤ len log / RECORD_SIZE;
  lo_after : last < lb_seq b;
  lo_first : s_first_batch s ≤ lb_seq b;
  lo_stale : is_stale stale (lb_seq b) = false;
  lo_records : records_at log at_ (lb_records b);
  lo_packed : packed_at cursor (lb_records b);
  lo_fields i r : lb_records b !! i = Some r →
    r_batch r = lb_seq b ∧ r_index r = Z.of_nat i ∧ r_count r = len (lb_records b) ∧
    r_kind r ≠ Kind_Void;
}.

(** Behind the log: no valid record, and no entry on a block boundary that
    starts a batch. *)
Record blank_at (s : Segment) (l log : list byte) (tag : Z) (stale : Stale)
    (last at_ cursor : Z) : Prop := {
  bl_slots j r : at_ ≤ j < len log / RECORD_SIZE →
    slot log stale (s_first_batch s) j ≠ Some (Slot_Valid r);
  bl_entry k h stored payload : 0 ≤ k →
    entry_at (s_geometry s) l (cursor + k * BLOCK) tag = Some (h, stored, payload) →
    eh_index h = 0 → last < eh_batch h → s_first_batch s ≤ eh_batch h →
    is_stale stale (eh_batch h) = true;
}.

Fixpoint log_at (s : Segment) (l log : list byte) (tag : Z) (stale : Stale)
    (last at_ cursor : Z) (bs : list LBatch) : Prop :=
  match bs with
  | [] => blank_at s l log tag stale last at_ cursor
  | b :: bs =>
      lbatch_ok s log stale last at_ cursor b ∧
      log_at s l log tag stale (lb_seq b) (slots_after at_ (len (lb_records b)))
        (align_up (entries_end cursor (lb_records b)) BLOCK) bs
  end.

(** A segment open in a world where no call fails, its bytes [l]. *)
Record segment_holds (s : Segment) (w : World) (l : list byte) : Prop := {
  sh_geo : wf_geometry (s_geometry s) ∧ Geometry_is_valid (s_geometry s) = true;
  sh_faults : w_faults w = [];
  sh_file : ∃ f, w_files w !! bf_file (s_file s) = Some f ∧ open_file (s_file s) f ∧
              len (f_vis f) = total_blocks (s_geometry s) * BLOCK ∧ medium f = l;
}.

(** The whole log of one segment, from its start. *)
Definition segment_log (s : Segment) (l : list byte) (tag : Z) (stale : Stale) (prev : Z)
    (bs : list LBatch) : Prop :=
  log_at s l (persist_log (s_geometry s) l) tag stale prev 0 (entry_start (s_geometry s)) bs.

(** The description depends on a segment's first batch and geometry only. *)
Lemma segment_log_same s t l tag stale prev bs :
  s_first_batch s = s_first_batch t → s_geometry s = s_geometry t →
  segment_log s l tag stale prev bs → segment_log t l tag stale prev bs.
Proof.
  intros Hf Hg. unfold segment_log. rewrite Hg. generalize 0 (entry_start (s_geometry t)).
  revert prev. induction bs as [|b bs IH]; intros prev at_ cursor H.
  - destruct H as [H1 H2]. rewrite Hf in H1. rewrite Hf, Hg in H2. by split.
  - destruct H as [[] H]. split; [split; by rewrite <- ?Hf|by apply IH].
Qed.

(** ** Clean reads *)

Lemma segment_holds_len s w l :
  segment_holds s w l → len l = entry_end (s_geometry s).
Proof.
  intros [[Hg Hv] _ (f & _ & _ & Hl & <-)]. rewrite len_medium, Hl.
  by destruct (geometry_regions _ Hg Hv) as (_ & _ & <- & _).
Qed.

Lemma Segment_read_at_holds s w l off n :
  segment_holds s w l → 0 ≤ off → 0 ≤ n → off + n ≤ entry_end (s_geometry s) →
  Segment_read_at s off n w = (Ok (slice l off (off + n)), w).
Proof.
  intros [[Hg Hv] Hw (f & Hf & Hof & Hl & <-)] Ho Hn Hend.
  destruct (geometry_regions _ Hg Hv) as (_ & _ & He & _). rewrite He in Hend.
  apply read_bytes_nofault; try done; [|lia]. rewrite Hl. by apply Z.mod_mul.
Qed.

Lemma read_entry_holds s w l off tag :
  segment_holds s w l → read_entry s off tag w = (Ok (entry_at (s_geometry s) l off tag), w).
Proof.
  intros H. pose proof (sh_geo _ _ _ H) as [Hg Hv].
  destruct (geometry_regions _ Hg Hv) as ([Hp0 Hp1] & _).
  unfold read_entry, entry_at.
  destruct (Z.ltb_spec off (entry_start (s_geometry s))); [done|].
  destruct (Z.ltb_spec (entry_end (s_geometry s)) (off + RECORD_SIZE)); [done|]. cbn [orb].
  assert (0 ≤ off) by (unfold PERSIST_START, BLOCK in *; lia).
  erewrite io_bind_ok by (apply Segment_read_at_holds; done || lia).
  destruct (EntryHeader_parse_total (slice l off (off + RECORD_SIZE))) as (p & Hp). rewrite Hp.
  cbn [io_expect]. erewrite io_bind_ok by reflexivity. destruct p as [[h stored]|]; [|done].
  destruct (Z.eqb_spec (eh_tag h) tag); cbn [negb orb]; [|done].
  destruct (Z.ltb_spec (entry_end (s_geometry s)) (off + footprint (eh_len h))); [done|].
  destruct (EntryHeader_parse_wf _ _ _ Hp) as ((_ & _ & _ & _ & _ & _ & Hl & _) & _ & _).
  unfold in_u in Hl. pose proof (footprint_bounds (eh_len h) ltac:(lia)).
  erewrite io_bind_ok by (apply Segment_read_at_holds; [done|lia|unfold RECORD_SIZE in *; lia|lia]).
  pose proof (segment_holds_len _ _ _ H) as Hlen.
  rewrite len_slice by (unfold RECORD_SIZE in *; lia).
  rewrite !slice_slice by (unfold RECORD_SIZE in *; lia). rewrite Z.add_0_r.
  replace (off + (off + (RECORD_SIZE + eh_len h) - off)) with (off + RECORD_SIZE + eh_len h) by lia.
  destruct (entry_crc _ _) eqn:Hc.
  - cbn [io_expect]. erewrite io_bind_ok by reflexivity. by destruct (_ =? stored).
  - destruct (entry_crc_spec (slice l off (off + RECORD_SIZE))
      (slice l (off + RECORD_SIZE) (off + RECORD_SIZE + eh_len h))) as (hd & _ & _ & _ & E);
      [rewrite len_slice; unfold RECORD_SIZE in *; lia|]. congruence.
Qed.

Lemma read_persist_log_holds s w l :
  segment_holds s w l → read_persist_log s w = (Ok (persist_log (s_geometry s) l), w).
Proof.
  intros [[Hg Hv] Hw (f & Hf & Hof & Hl & <-)]. unfold read_persist_log, persist_log.
  pose proof Hv as Hv'. unfold Geometry_is_valid in Hv'. rewrite !andb_true_iff, !Z.leb_le in Hv'.
  destruct Hg as (Hp & Hgap & He). unfold in_u in *.
  replace (persist_end (s_geometry s) - PERSIST_START)
    with (persist_blocks (s_geometry s) * BLOCK) by (unfold persist_end; lia).
  rewrite Z.div_mul by done. change (PERSIST_START / BLOCK) with 2.
  rewrite (read_blocks_nofault _ f); try done; [|lia|].
  - do 2 f_equal. f_equal. unfold persist_end, PERSIST_START. lia.
  - rewrite Hl. unfold total_blocks, BLOCK in *. lia.
Qed.

Lemma len_persist_log s w l :
  segment_holds s w l →
  len (persist_log (s_geometry s) l) = persist_blocks (s_geometry s) * BLOCK.
Proof.
  intros H. pose proof (segment_holds_len _ _ _ H) as Hl.
  destruct (sh_geo _ _ _ H) as [Hg Hv].
  destruct (geometry_regions _ Hg Hv) as ([Hp0 Hp1] & He & _).
  unfold persist_log. rewrite len_slice; [unfold persist_end; lia| |lia].
  unfold PERSIST_START, BLOCK in *. lia.
Qed.

(** ** Pass 1 *)

Lemma slot_valid log stale first at_ r :
  0 ≤ at_ < len log / RECORD_SIZE →
  PRecord_decode (slice log (at_ * RECORD_SIZE) (len log)) = Some (Slot_Valid r) →
  first ≤ r_batch r → is_stale stale (r_batch r) = false →
  slot log stale first at_ = Some (Slot_Valid r).
Proof.
  intros Ha Hd Hf Hst. unfold slot.
  pose proof (Z.mul_div_le (len log) RECORD_SIZE ltac:(done)).
  rewrite slice_checked_ok by (unfold RECORD_SIZE in *; lia). cbn [mbind option_bind].
  rewrite Hd. cbn [mbind option_bind]. unfold is_stale_in.
  by rewrite Hst, (proj2 (Z.ltb_ge _ _)) by done.
Qed.

Lemma lbatch_slot s log stale last at_ cursor b i r :
  0 ≤ at_ → lbatch_ok s log stale last at_ cursor b → lb_records b !! i = Some r →
  slot log stale (s_first_batch s) (at_ + Z.of_nat i) = Some (Slot_Valid r).
Proof.
  intros Ha [Hc Hs _ Hf Hst Hr _ Hfd] Hi. destruct (Hfd i r Hi) as (Hb & _ & _ & _).
  apply lookup_lt_Some in Hi as Hlt.
  assert (Z.of_nat i < len (lb_records b)) by (unfold len; lia).
  apply slot_valid; [lia| |by rewrite Hb|by rewrite Hb]. by apply Hr.
Qed.

Lemma first_valid_here log stale first n at_ r :
  slot log stale first at_ = Some (Slot_Valid r) →
  first_valid log stale first (S n) at_ = Some (Some (at_, r)).
Proof. intros H. cbn [first_valid]. by rewrite H. Qed.

Lemma first_valid_none log stale first n at_ :
  0 ≤ at_ → at_ + Z.of_nat n ≤ len log / RECORD_SIZE →
  (∀ j r, at_ ≤ j < at_ + Z.of_nat n → slot log stale first j ≠ Some (Slot_Valid r)) →
  first_valid log stale first n at_ = Some None.
Proof.
  revert at_. induction n as [|n IH]; intros at_ Ha Hn Hno; [done|]. cbn [first_valid].
  destruct (slot_total log stale first at_ ltac:(lia)) as (sl & Hsl & _). rewrite Hsl.
  cbn [mbind option_bind]. destruct sl as [| |r]; [| |by destruct (Hno at_ r ltac:(lia))];
    apply IH; try lia; intros j r Hj; apply Hno; lia.
Qed.

Lemma scan_slots_log s log stale tag at_ seq count rs index walk cur found w :
  (∀ i r, rs !! i = Some r →
    slot log stale (s_first_batch s) (at_ + index + Z.of_nat i) = Some (Slot_Valid r) ∧
    r_batch r = seq ∧ r_index r = index + Z.of_nat i ∧ r_count r = count ∧
    r_kind r ≠ Kind_Void) →
  packed_at cur rs →
  scan_slots s log stale tag at_ seq count (length rs) index walk cur found w =
    (Ok (found ++ map Found_Record rs, entries_end cur rs), w).
Proof.
  revert index walk cur found. induction rs as [|r rs IH]; intros index walk cur found Hrs Hp;
    cbn [scan_slots length map entries_end].
  { by rewrite app_nil_r. }
  destruct Hp as (Ho & Hl & Hp). destruct (Hrs 0%nat r eq_refl) as (Hsl & Hb & Hi & Hc & Hk).
  rewrite Z.add_0_r in Hsl, Hi. rewrite Hsl. cbn [io_expect].
  erewrite io_bind_ok by reflexivity. cbn beta iota. rewrite Hb, Hi, Hc, !Z.eqb_refl. cbn [andb].
  erewrite io_bind_ok by reflexivity. cbn beta iota. rewrite bool_decide_eq_true_2 by done.
  rewrite Ho. pose proof (footprint_bounds (r_len r) Hl).
  rewrite Z.max_r by (unfold RECORD_SIZE in *; lia).
  rewrite IH; [by rewrite <- app_assoc| |done].
  intros i r' Hi'. destruct (Hrs (S i) r' Hi') as (Hsl' & ? & ? & ? & ?).
  replace (at_ + (index + 1) + Z.of_nat i) with (at_ + index + Z.of_nat (S i)) by lia.
  split_and!; try done. lia.
Qed.

(** What the scan finds of the log. *)
Fixpoint scans_of (at_ : Z) (bs : list LBatch) : list BatchScan :=
  match bs with
  | [] => []
  | b :: bs =>
      mkBatchScan (lb_seq b) (len (lb_records b)) (PERSIST_START + at_ * RECORD_SIZE)
        (map Found_Record (lb_records b)) ::
      scans_of (slots_after at_ (len (lb_records b))) bs
  end.

Lemma slots_after_gt at_ n : 0 < n → at_ + n ≤ slots_after at_ n.
Proof.
  intros Hn. unfold slots_after. rewrite RECORDS_PER_BLOCK_eq.
  pose proof (blocks_for_spec n ltac:(lia)). unfold BLOCK, RECORD_SIZE in *. lia.
Qed.

Lemma locate_batch_log s stale tag at_ last cursor b r log :
  lbatch_ok s log stale last at_ cursor b → lb_records b !! 0%nat = Some r →
  ∀ w, locate_batch s stale tag at_ last cursor (Some (at_, r)) w =
    (Ok (Some (lb_seq b, len (lb_records b))), w).
Proof.
  intros [Hc Hs Ha Hf Hst Hr _ Hfd] Hi w. destruct (Hfd 0%nat r Hi) as (Hb & Hx & Hct & _).
  unfold locate_batch. rewrite Hx, Z.sub_0_r, Z.eqb_refl, Hb.
  rewrite (proj2 (Z.leb_gt _ _)) by done. rewrite (proj2 (Z.ltb_ge _ _)) by done.
  cbn [orb]. erewrite io_bind_ok by reflexivity. by rewrite Hct.
Qed.

Lemma locate_batch_blank s l log stale tag at_ last cursor w :
  segment_holds s w l → blank_at s l log tag stale last at_ cursor →
  locate_batch s stale tag at_ last cursor None w = (Ok None, w).
Proof.
  intros Hs [_ He]. unfold locate_batch. erewrite io_bind_ok by reflexivity. cbn beta iota.
  erewrite io_bind_ok
    by (unfold lift_io, io_map_err; by rewrite (read_entry_holds _ _ _ _ _ Hs)).
  destruct (entry_at _ l cursor tag) as [[[h stored] payload]|] eqn:E; [|done].
  destruct (Z.eqb_spec (eh_index h) 0); cbn [andb]; [|done].
  destruct (Z.ltb_spec last (eh_batch h)); cbn [andb]; [|done].
  destruct (Z.leb_spec (s_first_batch s) (eh_batch h)); cbn [andb]; [|done].
  rewrite (He 0 h stored payload); try done. by rewrite Z.add_0_r.
Qed.

Lemma scan_loop_log fuel s l log stale tag bs batches last at_ cursor w :
  segment_holds s w l → 0 ≤ at_ → len log / RECORD_SIZE - at_ ≤ Z.of_nat fuel →
  log_at s l log tag stale last at_ cursor bs →
  scan_loop fuel s log stale tag batches last at_ cursor w =
    (Ok (batches ++ scans_of at_ bs,
         PERSIST_START + (log_end at_ cursor bs).1 * RECORD_SIZE,
         (log_end at_ cursor bs).2), w).
Proof.
  intros Hs. revert fuel batches last at_ cursor.
  induction bs as [|b bs IH]; intros fuel batches last at_ cursor Ha Hfuel Hlog.
  - cbn [log_at] in Hlog. cbn [scans_of log_end fst snd]. rewrite app_nil_r.
    destruct fuel as [|fuel]; cbn [scan_loop];
      destruct (Z.leb_spec (len log / RECORD_SIZE) at_); [done|lia|done|].
    rewrite (first_valid_none log stale (s_first_batch s)); [|lia|lia|].
    2:{ intros j r Hj. apply (bl_slots _ _ _ _ _ _ _ _ Hlog). lia. }
    cbn [io_expect]. erewrite io_bind_ok by reflexivity.
    erewrite io_bind_ok by (by eapply locate_batch_blank).
    rewrite bool_decide_eq_false_2; [done|]. by intros [? [=]].
  - destruct Hlog as [Hb Hlog]. pose proof Hb as [Hc Hsl _ _ _ _ Hp Hfd].
    assert (∃ r, lb_records b !! 0%nat = Some r) as [r H0].
    { apply lookup_lt_is_Some. unfold len in Hc. lia. }
    pose proof (lbatch_slot _ _ _ _ _ _ _ _ _ Ha Hb H0) as Hr0. rewrite Z.add_0_r in Hr0.
    destruct fuel as [|fuel]; cbn [scan_loop];
      rewrite (proj2 (Z.leb_gt _ _)) by lia; [lia|].
    replace (Z.to_nat (len log / RECORD_SIZE - at_))
      with (S (Z.to_nat (len log / RECORD_SIZE - at_ - 1))) by lia.
    rewrite (first_valid_here _ _ _ _ _ r) by done.
    cbn [io_expect]. erewrite io_bind_ok by reflexivity.
    erewrite io_bind_ok by (by eapply locate_batch_log). cbn beta iota.
    rewrite (proj2 (Z.ltb_ge _ _)) by lia.
    replace (Z.to_nat (len (lb_records b))) with (length (lb_records b)) by (unfold len; lia).
    erewrite io_bind_ok.
    2:{ apply scan_slots_log; [|done]. intros i r' Hi. rewrite !Z.add_0_r, Z.add_0_l.
        destruct (Hfd i r' Hi) as (? & ? & ? & ?). split_and!; try done.
        by eapply lbatch_slot. }
    cbn beta iota zeta. pose proof (slots_after_gt at_ (len (lb_records b)) ltac:(lia)).
    change (at_ + blocks_for (len (lb_records b)) * RECORDS_PER_BLOCK)
      with (slots_after at_ (len (lb_records b))).
    rewrite IH; [|lia|lia|done]. cbn [scans_of log_end app]. by rewrite <- app_assoc.
Qed.

Lemma scan_segment_log s w l prev tag stale bs :
  segment_holds s w l → segment_log s l tag stale prev bs →
  scan_segment s prev tag stale w =
    (Ok (scans_of 0 bs,
         PERSIST_START + (log_end 0 (entry_start (s_geometry s)) bs).1 * RECORD_SIZE,
         (log_end 0 (entry_start (s_geometry s)) bs).2), w).
Proof.
  intros Hs Hlog. unfold scan_segment.
  erewrite io_bind_ok
    by (unfold lift_io, io_map_err; by rewrite (read_persist_log_holds _ _ _ Hs)).
  rewrite (scan_loop_log _ s l _ stale tag bs); try done; lia.
Qed.

(** ** Pass 2 *)

(** The operations of a batch's records, the first at slot [index]. *)
Fixpoint record_ops (first_batch persist_at index : Z) (rs : list PRecord) : list Op :=
  match rs with
  | [] => []
  | r :: rs =>
      match r_kind r with
      | Kind_Put => [Op_Put (r_position r) (located_of first_batch persist_at index r false)]
      | Kind_Clear => match clear_end r with
                      | Some e => [Op_Clear (r_position r) e]
                      | None => []
                      end
      | Kind_Void => []
      end ++ record_ops first_batch persist_at (index + 1) rs
  end.

Fixpoint log_ops (first_batch at_ : Z) (bs : list LBatch) : list Op :=
  match bs with
  | [] => []
  | b :: bs =>
      record_ops first_batch (PERSIST_START + at_ * RECORD_SIZE) 0 (lb_records b) ++
      log_ops first_batch (slots_after at_ (len (lb_records b))) bs
  end.

(** Every entry of the log is in place. *)
Definition log_intact (g : Geometry) (l : list byte) (tag : Z) (bs : list LBatch) : Prop :=
  Forall (fun b => Forall (entry_intact g l tag) (lb_records b)) bs.

Definition add_ops (out : Scan) (ops : list Op) : Scan :=
  mkScan (sc_ops out ++ ops) (sc_last_batch out) (sc_cursors out) (sc_corrupt out)
    (sc_ambiguous out) (sc_rebuilt out) (sc_voided out) (sc_rewrite out).

Lemma add_ops_nil out : add_ops out [] = out.
Proof. unfold add_ops. rewrite app_nil_r. by destruct out. Qed.

Lemma add_ops_add_ops out a b : add_ops (add_ops out a) b = add_ops out (a ++ b).
Proof. unfold add_ops. cbn. by rewrite app_assoc. Qed.

Lemma judge_record_log s w l pa index is_last tag r out :
  segment_holds s w l → wf_record r → entry_intact (s_geometry s) l tag r →
  judge_record s pa index is_last true tag r out w =
    (Ok (add_ops out (match r_kind r with
       | Kind_Put => [Op_Put (r_position r) (located_of (s_first_batch s) pa index r false)]
       | Kind_Clear => match clear_end r with
                       | Some e => [Op_Clear (r_position r) e]
                       | None => []
                       end
       | Kind_Void => []
       end)), w).
Proof.
  intros Hs Hwf (h & stored & payload & He & Hm). unfold judge_record.
  destruct (r_kind r); [| |by rewrite add_ops_nil].
  - erewrite io_bind_ok with (a := false) (w' := w); [done|].
    destruct is_last; [|done]. cbn [andb].
    erewrite io_bind_ok
      by (unfold lift_io, io_map_err; by rewrite (read_entry_holds _ _ _ _ _ Hs)).
    by rewrite He, Hm.
  - destruct (clear_end_total r Hwf) as (e & ->). cbn [io_expect].
    by erewrite io_bind_ok by reflexivity.
Qed.

Lemma judge_slots_log s w l b is_last tag index rs rewrite kept out :
  segment_holds s w l → Forall wf_record rs →
  Forall (entry_intact (s_geometry s) l tag) rs →
  judge_slots s b is_last tag index (map Found_Record rs) rewrite kept out w =
    (Ok (rewrite, kept ++ rs,
         add_ops out (record_ops (s_first_batch s) (bs_persist_at b) index rs)), w).
Proof.
  intros Hs. revert index kept out. induction rs as [|r rs IH]; intros index kept out Hwf Hin;
    cbn [judge_slots map record_ops].
  { by rewrite app_nil_r, add_ops_nil. }
  apply Forall_cons_iff in Hwf as [Hr Hwf]. apply Forall_cons_iff in Hin as [Hi Hin].
  erewrite io_bind_ok by (by eapply judge_record_log).
  rewrite IH by done. by rewrite <- app_assoc, add_ops_add_ops.
Qed.

Lemma judge_batches_log s w l si bi tag bs at_ last out :
  segment_holds s w l →
  Forall (fun b => Forall wf_record (lb_records b)) bs →
  log_intact (s_geometry s) l tag bs →
  judge_batches s si bi (scans_of at_ bs) last tag out w =
    (Ok (add_ops out (log_ops (s_first_batch s) at_ bs)), w).
Proof.
  intros Hs. revert bi at_ out. induction bs as [|b bs IH]; intros bi at_ out Hwf Hin;
    cbn [judge_batches scans_of log_ops].
  { by rewrite add_ops_nil. }
  apply Forall_cons_iff in Hwf as [Hb Hwf]. apply Forall_cons_iff in Hin as [Hi Hin].
  erewrite io_bind_ok.
  2:{ unfold judge_batch. erewrite io_bind_ok by (by eapply judge_slots_log). reflexivity. }
  rewrite IH by done. cbn [bs_persist_at]. by rewrite add_ops_add_ops.
Qed.

Lemma log_at_wf s l log tag stale last at_ cursor bs :
  log_at s l log tag stale last at_ cursor bs →
  Forall (fun b => Forall wf_record (lb_records b)) bs.
Proof.
  revert last at_ cursor. induction bs as [|b bs IH]; intros last at_ cursor H; [constructor|].
  destruct H as [Hb Hbs]. constructor; [|by eapply IH].
  apply Forall_lookup. intros i r Hi. eapply PRecord_decode_wf.
  by apply (lo_records _ _ _ _ _ _ _ Hb).
Qed.

(** ** Every segment *)

(** The segments of a journal with their logs, chained: each starts after
    the last batch of those before it. *)
Fixpoint logs_chain (w : World) (tag : Z) (stale : Stale) (last : Z)
    (xs : list (Segment * list LBatch)) : Prop :=
  match xs with
  | [] => True
  | (s, bs) :: xs =>
      s_prev_batch s = last ∧
      (∃ l, segment_holds s w l ∧ segment_log s l tag stale last bs ∧
            log_intact (s_geometry s) l tag bs) ∧
      logs_chain w tag stale (last_seq last bs) xs
  end.

Fixpoint logs_last (last : Z) (xs : list (Segment * list LBatch)) : Z :=
  match xs with
  | [] => last
  | (_, bs) :: xs => logs_last (last_seq last bs) xs
  end.

(** The operations of the logs, in log order: what the journal committed. *)
Definition logs_ops (xs : list (Segment * list LBatch)) : list Op :=
  concat (map (fun x => log_ops (s_first_batch x.1) 0 x.2) xs).

(** Where each segment's next batch goes. *)
Definition logs_cursors (xs : list (Segment * list LBatch)) : list (Z * Z) :=
  map (fun x => let e := log_end 0 (entry_start (s_geometry x.1)) x.2 in
                (PERSIST_START + e.1 * RECORD_SIZE, e.2)) xs.

Definition log_scan (x : Segment * list LBatch) : list BatchScan * Z * Z :=
  let e := log_end 0 (entry_start (s_geometry x.1)) x.2 in
  (scans_of 0 x.2, PERSIST_START + e.1 * RECORD_SIZE, e.2).

Lemma last_scans_of at_ bs :
  bs_seq <$> list_basics.list.last (scans_of at_ bs) =
  lb_seq <$> list_basics.list.last bs.
Proof.
  revert at_. induction bs as [|b [|c bs] IH]; intros at_; [done|done|].
  apply (IH (slots_after at_ (len (lb_records b)))).
Qed.

Lemma scan_segments_log w tag stale last xs :
  logs_chain w tag stale last xs →
  scan_segments (map fst xs) last tag stale w =
    (Ok (map log_scan xs, logs_last last xs), w).
Proof.
  revert last. induction xs as [|[s bs] xs IH]; intros last H;
    cbn [scan_segments map fst]; [done|].
  destruct H as (Hp & (l & Hs & Hlog & _) & Hrest). rewrite Hp, Z.eqb_refl. cbn [negb].
  erewrite io_bind_ok by (by eapply scan_segment_log). cbn beta iota.
  assert (match list_basics.list.last (scans_of 0 bs) with
          | Some batch => bs_seq batch | None => last end = last_seq last bs) as ->.
  { unfold last_seq. pose proof (last_scans_of 0 bs) as E.
    destruct (list_basics.list.last (scans_of 0 bs)), (list_basics.list.last bs); cbn in E;
      congruence. }
  by erewrite io_bind_ok by (by apply IH).
Qed.

Lemma judge_segments_log w tag stale last0 xs si last out :
  logs_chain w tag stale last0 xs →
  judge_segments (map fst xs) si (map log_scan xs) last tag out w =
    (Ok (mkScan (sc_ops out ++ logs_ops xs) (sc_last_batch out)
           (sc_cursors out ++ logs_cursors xs) (sc_corrupt out) (sc_ambiguous out)
           (sc_rebuilt out) (sc_voided out) (sc_rewrite out)), w).
Proof.
  revert last0 si out. induction xs as [|[s bs] xs IH]; intros last0 si out H;
    cbn [judge_segments map fst].
  { unfold logs_ops, logs_cursors. cbn. rewrite !app_nil_r. by destruct out. }
  destruct H as (_ & (l & Hs & Hlog & Hin) & Hrest).
  unfold log_scan at 1. cbn beta iota zeta delta [fst snd].
  erewrite io_bind_ok.
  2:{ eapply judge_batches_log; [done| |done]. by eapply log_at_wf. }
  rewrite (IH (last_seq last0 bs)) by done. cbn. unfold io_ret.
  unfold logs_ops, logs_cursors. cbn. by rewrite <- !app_assoc.
Qed.

(** The scan of segments that hold their logs. *)
Lemma recovery_scan w tag stale xs :
  logs_chain w tag stale (match xs with [] => 0 | (s, _) :: _ => s_prev_batch s end) xs →
  scan (map fst xs) tag stale w =
    (Ok (mkScan (logs_ops xs)
           (logs_last (match xs with [] => 0 | (s, _) :: _ => s_prev_batch s end) xs)
           (logs_cursors xs) [] [] 0 0 None), w).
Proof.
  intros H. unfold scan.
  assert (match map fst xs with [] => 0 | s :: _ => s_prev_batch s end =
          match xs with [] => 0 | (s, _) :: _ => s_prev_batch s end) as -> by by destruct xs as [|[]].
  erewrite io_bind_ok by (by apply scan_segments_log). cbn beta iota zeta.
  by erewrite judge_segments_log by exact H.
Qed.

(** Recovery reads back the log: on segments that hold [xs] undamaged, the
    scan returns the operations of their records, in order, the number of
    the last batch and where the next one goes, and reports no damage. *)
Theorem recovery_reads_back_logs w tag stale xs :
  logs_chain w tag stale (match xs with [] => 0 | (s, _) :: _ => s_prev_batch s end) xs →
  scan (map fst xs) tag stale w =
    (Ok (mkScan (logs_ops xs)
           (logs_last (match xs with [] => 0 | (s, _) :: _ => s_prev_batch s end) xs)
           (logs_cursors xs) [] [] 0 0 None), w).
Proof. apply recovery_scan. Qed.
End WithCrc.
