(* ===== verification/Journal.v ===== *)
(** * The journal (crates/moonpool-journal/src/journal.rs, error.rs, lib.rs)

    [Journal] is the struct of the source, less the provider, which is the
    world the operations run in.  A [&mut self] method is a computation of
    the monad [JM], which threads the struct and the world and keeps both
    when the method returns an error: a failed commit poisons the journal it
    leaves.

    This file holds the data, what a journal knows from memory and its reads;
    [Commit] holds the writes and [Open] creation and recovery. *)

From stdpp Require Import sorting.
From Stdlib Require Import Ascii.
From S2P Require Import Prelude Crc Format Names Storage JournalIo MetaFile Batch Index.
From S2P Require Import Segment Recover.
#[local] Open Scope Z_scope.

(** ** Data *)

Inductive Durability := Batched | Ordered.

#[global] Instance Durability_eq_dec : EqDecision Durability.
Proof. solve_decision. Defined.

(** moonpool-core's [DirectIo]: the policy a file is opened with; the
    constraints the world's files carry are what came of it. *)
Inductive DirectIo := Disabled | Optional | Required.

Record JournalConfig := mkJournalConfig {
  c_durability : Durability;
  c_geometry : Geometry;
  c_direct_io : DirectIo;
}.

(** What a position holds, as far as the journal knows without reading it *)
Inductive PState :=
  | State_Empty
  | State_Live (id : Id) (l : Z)
  | State_Corrupt (id : Id)
  | State_Ambiguous (id : Id).

Record Entry := mkEntry {
  e_position : Z;
  e_id : Id;
  e_payload : list byte;
}.

Record Recovery := mkRecovery {
  rc_corrupt : list (Z * Id);
  rc_ambiguous : list (Z * Id);
  rc_torn : Z;
  rc_rebuilt : Z;
  rc_meta_repaired : bool;
  rc_headers_repaired : Z;
  rc_segments_removed : Z;
  rc_spares_removed : Z;
  rc_spare_kept : bool;
}.

Record Rolls := mkRolls {
  onto_spare : Z;
  created : Z;
}.

Record Layout := mkLayout {
  lay_record : LayoutRegion;
  lay_entry : LayoutRegion;
}.

Definition LAYOUT_RECORD : string := "persist record".
Definition LAYOUT_ENTRY : string := "entry".
Definition LAYOUT_META : string := "metainfo".
Definition LAYOUT_HEADER : string := "segment header".

(** error.rs *)
Inductive Durable := Durable_No | Durable_Unknown.

Inductive CommitError :=
  | CE_BelowFloor (position floor : Z)
  | CE_MetaTooLarge (l : Z)
  | CE_BatchTooLarge
  | CE_Io (error : ErrorKind) (durable : Durable)
  | CE_Poisoned.

Inductive ReadError :=
  | RE_Io (error : ErrorKind)
  | RE_Empty (position : Z)
  | RE_Damaged (position : Z) (id : Id).

Record Journal := mkJournal {
  j_dir : str;
  j_id : JournalId;
  j_tag : Z;
  j_config : JournalConfig;
  j_meta_file : BlockFile;
  j_meta : Meta;
  j_segments : list Segment;
  j_index : Index;
  j_last_batch : Z;
  j_ambiguous_batch : option Z;
  j_generation : Z;
  j_poisoned : bool;
  j_layout_shard : option str;
  j_layout_whole : bool;
  j_spare : option str;
  j_spares_named : Z;
  j_rolls : Rolls;
}.

(** Field updates. *)
Definition set_poisoned (j : Journal) : Journal :=
  mkJournal (j_dir j) (j_id j) (j_tag j) (j_config j) (j_meta_file j) (j_meta j)
    (j_segments j) (j_index j) (j_last_batch j) (j_ambiguous_batch j) (j_generation j)
    true (j_layout_shard j) (j_layout_whole j) (j_spare j) (j_spares_named j) (j_rolls j).
Definition set_meta (m : Meta) (j : Journal) : Journal :=
  mkJournal (j_dir j) (j_id j) (j_tag j) (j_config j) (j_meta_file j) m
    (j_segments j) (j_index j) (j_last_batch j) (j_ambiguous_batch j) (j_generation j)
    (j_poisoned j) (j_layout_shard j) (j_layout_whole j) (j_spare j) (j_spares_named j)
    (j_rolls j).
Definition set_index (segs : list Segment) (idx : Index) (j : Journal) : Journal :=
  mkJournal (j_dir j) (j_id j) (j_tag j) (j_config j) (j_meta_file j) (j_meta j)
    segs idx (j_last_batch j) (j_ambiguous_batch j) (j_generation j)
    (j_poisoned j) (j_layout_shard j) (j_layout_whole j) (j_spare j) (j_spares_named j)
    (j_rolls j).
Definition set_last (batch : Z) (ambiguous : option Z) (j : Journal) : Journal :=
  mkJournal (j_dir j) (j_id j) (j_tag j) (j_config j) (j_meta_file j) (j_meta j)
    (j_segments j) (j_index j) batch ambiguous (j_generation j)
    (j_poisoned j) (j_layout_shard j) (j_layout_whole j) (j_spare j) (j_spares_named j)
    (j_rolls j).
Definition set_layout (shard : option str) (whole : bool) (j : Journal) : Journal :=
  mkJournal (j_dir j) (j_id j) (j_tag j) (j_config j) (j_meta_file j) (j_meta j)
    (j_segments j) (j_index j) (j_last_batch j) (j_ambiguous_batch j) (j_generation j)
    (j_poisoned j) shard whole (j_spare j) (j_spares_named j) (j_rolls j).
Definition set_spare (spare : option str) (named : Z) (j : Journal) : Journal :=
  mkJournal (j_dir j) (j_id j) (j_tag j) (j_config j) (j_meta_file j) (j_meta j)
    (j_segments j) (j_index j) (j_last_batch j) (j_ambiguous_batch j) (j_generation j)
    (j_poisoned j) (j_layout_shard j) (j_layout_whole j) spare named (j_rolls j).
Definition set_rolls (rolls : Rolls) (j : Journal) : Journal :=
  mkJournal (j_dir j) (j_id j) (j_tag j) (j_config j) (j_meta_file j) (j_meta j)
    (j_segments j) (j_index j) (j_last_batch j) (j_ambiguous_batch j) (j_generation j)
    (j_poisoned j) (j_layout_shard j) (j_layout_whole j) (j_spare j) (j_spares_named j)
    rolls.
Definition set_segments (segs : list Segment) (j : Journal) : Journal :=
  set_index segs (j_index j) j.

(** [std::ops::Bound], the ends of a [RangeBounds] *)
Inductive Bound := Included (z : Z) | Excluded (z : Z) | Unbounded.

Definition in_bounds (lo hi : Bound) (p : Z) : bool :=
  match lo with Included z => z <=? p | Excluded z => z <? p | Unbounded => true end &&
  match hi with Included z => p <=? z | Excluded z => p <? z | Unbounded => true end.

(** The ranges [BTreeMap::range] accepts; it panics on the others. *)
Definition bounds_ok (lo hi : Bound) : bool :=
  match lo, hi with
  | Excluded s, Excluded e => s <? e
  | Included s, Included e | Included s, Excluded e | Excluded s, Included e => s <=? e
  | _, _ => true
  end.

(** ** The monad of [&mut self] methods *)

Definition JM (E A : Type) : Type := Journal → World → res E A * Journal * World.

Definition jm_ret {E A} (a : A) : JM E A := fun j w => (Ok a, j, w).
Definition jm_err {E A} (e : E) : JM E A := fun j w => (Err e, j, w).
Definition jm_bind {E A B} (m : JM E A) (k : A → JM E B) : JM E B := fun j w =>
  match m j w with
  | (Ok a, j, w) => k a j w
  | (Err e, j, w) => (Err e, j, w)
  | (Panic, j, w) => (Panic, j, w)
  end.
Definition jm_get {E} : JM E Journal := fun j w => (Ok j, j, w).
Definition jm_modify {E} (f : Journal → Journal) : JM E () := fun j w => (Ok tt, f j, w).
Definition jm_io {E A} (m : IO E A) : JM E A := fun j w => let '(r, w) := m w in (r, j, w).
Definition jm_expect {E A} (o : option A) : JM E A :=
  fun j w => match o with Some a => (Ok a, j, w) | None => (Panic, j, w) end.
Definition jm_assert {E} (b : bool) : JM E () := jm_expect (if b then Some tt else None).
(** [match m.await { Err(e) => { self.poisoned = true; return Err(f(e)) } .. }] *)
Definition jm_poison {E F A} (f : E → F) (m : JM E A) : JM F A := fun j w =>
  match m j w with
  | (Ok a, j, w) => (Ok a, j, w)
  | (Err e, j, w) => (Err (f e), set_poisoned j, w)
  | (Panic, j, w) => (Panic, j, w)
  end.

Notation "'let&' x ':=' m 'in' k" := (jm_bind m (fun x => k))
  (at level 10, x binder, m at level 100, k at level 200) : rust_scope.
Notation "m ';&' k" := (jm_bind m (fun _ => k))
  (at level 65, k at level 200, right associativity) : rust_scope.

Section WithCrc.
Context {C : Crc32c}.

(** ** What the journal knows, from memory *)

Definition state_of (j : Journal) (at_ : Located) : PState :=
  if negb (l_damaged at_) then State_Live (l_id at_) (l_len at_)
  else if bool_decide (j_ambiguous_batch j = Some (l_batch at_)) &&
          (Z.land (l_flags at_) FLAG_ORDERED =? 0)
  then State_Ambiguous (l_id at_)
  else State_Corrupt (l_id at_).

Definition Journal_state (j : Journal) (position : Z) : PState :=
  match j_index j !! position with
  | None => State_Empty
  | Some at_ => state_of j at_
  end.

Definition all_keys (idx : Index) : list Z := range_keys idx (fun _ => true).

Definition positions (j : Journal) : list (Z * PState) :=
  omap (fun p => at_ ← j_index j !! p; Some (p, state_of j at_)) (all_keys (j_index j)).

Definition last_position (j : Journal) : option Z := last (all_keys (j_index j)).

(** [&self.segments[self.segment_index(first_batch)]] *)
Definition segment_at (j : Journal) (first_batch : Z) : option Segment :=
  let* i := segment_index (j_segments j) first_batch in j_segments j !! i.

(** The record and entry regions of one write. *)
Definition record_region (path : str) (record_at position : Z) : LayoutRegion :=
  mkLayoutRegion path record_at (record_at + RECORD_SIZE) LAYOUT_RECORD (Some position) None.
Definition entry_region (path : str) (offset l position : Z) : LayoutRegion :=
  mkLayoutRegion path offset (offset + RECORD_SIZE + l) LAYOUT_ENTRY (Some position) None.

(** [Journal::layout]; the outer [None] is a panic *)
Definition layout (j : Journal) (position : Z) : option (option Layout) :=
  match j_index j !! position with
  | None => Some None
  | Some at_ =>
      let* segment := segment_at j (l_segment at_) in
      let path := path_in (j_dir j) (s_name segment) in
      Some (Some (mkLayout (record_region path (l_record_at at_) position)
                           (entry_region path (l_offset at_) (l_len at_) position)))
  end.

Definition header_region (path : str) (copy : Z) : LayoutRegion :=
  mkLayoutRegion path (copy * BLOCK) ((copy + 1) * BLOCK) LAYOUT_HEADER None None.

(** [Journal::regions] *)
Definition regions (j : Journal) : option (list LayoutRegion) :=
  let meta := path_in (j_dir j) META_NAME in
  let metas := [mkLayoutRegion meta 0 BLOCK LAYOUT_META None None;
                mkLayoutRegion meta META_COPY_B_AT (META_COPY_B_AT + BLOCK) LAYOUT_META
                  None None] in
  let headers := concat (map (fun s =>
    let path := path_in (j_dir j) (s_name s) in
    [header_region path 0; header_region path 1]) (j_segments j)) in
  let* layouts := mapM (layout j) (all_keys (j_index j)) in
  Some (metas ++ headers ++
        concat (map (fun l => match l with
                              | Some l => [lay_record l; lay_entry l]
                              | None => []
                              end) layouts)).

(** [published] *)
Definition published (shard : str) (whole : bool) (region : LayoutRegion) : LayoutRegion :=
  let region := sharded region (Some shard) in
  if whole then striped region None else region.

(** [Journal::publish_regions] *)
Definition publish_regions {E} (in_flight : list LayoutRegion) : JM E () := fun j w =>
  match j_layout_shard j with
  | None => (Ok tt, j, w)
  | Some shard =>
      match regions j with
      | None => (Panic, j, w)
      | Some rs =>
          (Ok tt, j,
           mkWorld (w_dirs w) (w_names w) (w_dur_names w) (w_files w) (w_faults w)
             (w_trace w ++ [Ev_publish (j_dir j)
                (map (published shard (j_layout_whole j)) (rs ++ in_flight))]))
      end
  end.

Definition publish_layout {E} (shard : option str) : JM E () :=
  jm_modify (set_layout shard false) ;& publish_regions [].

Definition publish_layout_whole {E} (shard : option str) : JM E () :=
  jm_modify (set_layout shard true) ;& publish_regions [].

(** ** Reads *)

Definition entry_bytes (at_ : Located) : Z := RECORD_SIZE + l_len at_.

Definition record_of (position : Z) (at_ : Located) : PRecord :=
  mkPRecord Kind_Put (l_flags at_) (l_index at_) (l_count at_) (l_batch at_) position
    (l_id at_) (l_offset at_) (l_len at_) (l_entry_crc at_).

(** [Journal::judge] *)
Definition judge (j : Journal) (position : Z) (at_ : Located) (bytes : list byte) :
    res ReadError Entry :=
  if negb (len bytes =? entry_bytes at_) then Panic else
  let record := record_of position at_ in
  let? parsed := expect (EntryHeader_parse bytes) in
  let? intact :=
    match parsed with
    | None => Ok false
    | Some (header, stored) =>
        if (eh_tag header =? j_tag j) && entry_matches record header stored then
          let? sum := expect (entry_crc (slice bytes 0 RECORD_SIZE)
                                (slice bytes RECORD_SIZE (len bytes))) in
          Ok (sum =? stored)
        else Ok false
    end in
  if negb intact then Err (RE_Damaged position (l_id at_))
  else Ok (mkEntry position (l_id at_) (slice bytes RECORD_SIZE (len bytes))).

(** [Journal::read] *)
Definition Journal_read (j : Journal) (position : Z) : IO ReadError Entry :=
  match j_index j !! position with
  | None => io_err (RE_Empty position)
  | Some at_ =>
      if l_damaged at_ then io_err (RE_Damaged position (l_id at_)) else
      let! segment := io_expect (segment_at j (l_segment at_)) in
      let! bytes := io_map_err RE_Io (Segment_read_at segment (l_offset at_) (entry_bytes at_)) in
      fun w => (judge j position at_ bytes, w)
  end.

Definition REPLAY_READ : Z := Z.shiftl 1 20.
Definition REPLAY_GAP : Z := 64 * BLOCK.

(** The inner loop of [replay]: the entries of [rest] that extend the run
    that starts at [start] and so far ends at [end_]; the run, its end and
    the entries after it. *)
Fixpoint extend_run (at_ : Located) (start end_ : Z) (rest : list (Z * Located)) :
    list (Z * Located) * Z * list (Z * Located) :=
  match rest with
  | [] => ([], end_, [])
  | (p, next) :: rest' =>
      let next_start := l_offset next in
      let next_end := next_start + entry_bytes next in
      if negb (l_segment next =? l_segment at_) || l_damaged next ||
         (next_start <? end_) || (REPLAY_GAP <? next_start - end_) ||
         (REPLAY_READ <? next_end - start)
      then ([], end_, rest)
      else
        let '(run, end_, after) := extend_run at_ start next_end rest' in
        ((p, next) :: run, end_, after)
  end.

(** The entries of a run, judged on their part of its bytes. *)
Fixpoint judge_run (j : Journal) (start : Z) (bytes : list byte)
    (run : list (Z * Located)) : option (list (Z * (Entry + ReadError))) :=
  match run with
  | [] => Some []
  | (position, at_) :: run =>
      let from := l_offset at_ - start in
      let* entry := slice_checked bytes from (from + entry_bytes at_) in
      let* judged := match judge j position at_ entry with
                     | Ok e => Some (inl e)
                     | Err e => Some (inr e)
                     | Panic => None
                     end in
      let* rest := judge_run j start bytes run in
      Some ((position, judged) :: rest)
  end.

(** The outer loop of [replay]. *)
Fixpoint replay_from (fuel : nat) (j : Journal) (located : list (Z * Located)) :
    IO ErrorKind (list (Z * (Entry + ReadError))) :=
  match located with
  | [] => io_ret []
  | (position, at_) :: rest =>
      match fuel with
      | O => io_panic
      | S fuel =>
          if l_damaged at_ then
            let! out := replay_from fuel j rest in
            io_ret ((position, inr (RE_Damaged position (l_id at_))) :: out)
          else
            let start := l_offset at_ in
            let '(run, end_, after) :=
              extend_run at_ start (start + entry_bytes at_) rest in
            let! segment := io_expect (segment_at j (l_segment at_)) in
            let! bytes := Segment_read_at segment start (end_ - start) in
            io_assert (len bytes =? end_ - start) ;!
            let! judged := io_expect (judge_run j start bytes ((position, at_) :: run)) in
            let! out := replay_from fuel j after in
            io_ret (judged ++ out)
      end
  end.

(** The entries of [self.index.range(range)], in order. *)
Definition located_in (idx : Index) (lo hi : Bound) : list (Z * Located) :=
  omap (fun p => at_ ← idx !! p; Some (p, at_)) (range_keys idx (in_bounds lo hi)).

(** [Journal::replay] *)
Definition Journal_replay (j : Journal) (lo hi : Bound) :
    IO ErrorKind (list (Z * (Entry + ReadError))) :=
  io_assert (bounds_ok lo hi) ;!
  let located := located_in (j_index j) lo hi in
  let! out := replay_from (length located) j located in
  io_assert (len out =? len located) ;!
  io_ret out.

(** ** Lemmas: reads *)

(** A located entry lies inside its segment's file. *)
Definition located_ok (j : Journal) (w : World) (at_ : Located) : Prop :=
  ∃ s f, segment_at j (l_segment at_) = Some s ∧ w_files w !! bf_file (s_file s) = Some f ∧
    open_file (s_file s) f ∧ len (f_vis f) mod BLOCK = 0 ∧
    0 ≤ l_offset at_ ∧ 0 ≤ l_len at_ ∧ l_offset at_ + entry_bytes at_ ≤ len (f_vis f).

(** Every entry the index names does, and no call fails transiently. *)
Record readable (j : Journal) (w : World) : Prop := {
  rd_faults : w_faults w = [];
  rd_located p at_ : j_index j !! p = Some at_ → located_ok j w at_;
}.

Lemma judge_total j p at_ bytes :
  len bytes = entry_bytes at_ → 0 ≤ l_len at_ →
  ∃ x, judge j p at_ bytes = match x with inl e => Ok e | inr e => Err e end.
Proof.
  intros Hl H0. unfold judge. rewrite Hl, Z.eqb_refl. cbn [negb].
  assert (RECORD_SIZE ≤ len bytes) as Hr by (rewrite Hl; unfold entry_bytes; lia).
  destruct (EntryHeader_parse_total bytes) as ([[h sum]|] & ->); cbn [expect res_bind].
  2:{ by eexists (inr _). }
  destruct (_ && _); cbn [res_bind]; [|by eexists (inr _)].
  destruct (entry_crc_spec (slice bytes 0 RECORD_SIZE)
    (slice bytes RECORD_SIZE (entry_bytes at_))) as (hd & _ & _ & _ & ->).
  { rewrite len_slice; unfold RECORD_SIZE in *; lia. }
  cbn [expect res_bind]. destruct (_ =? sum); [by eexists (inl _)|by eexists (inr _)].
Qed.

(** What reading one entry gives. *)
Lemma Journal_read_located j w p at_ :
  readable j w → j_index j !! p = Some at_ → l_damaged at_ = false →
  ∃ s f x, segment_at j (l_segment at_) = Some s ∧ w_files w !! bf_file (s_file s) = Some f ∧
    judge j p at_ (slice (medium f) (l_offset at_) (l_offset at_ + entry_bytes at_)) =
      match x with inl e => Ok e | inr e => Err e end ∧
    Journal_read j p w = (match x with inl e => Ok e | inr e => Err e end, w).
Proof.
  intros [Hw Hloc] Hp Hd.
  destruct (Hloc p at_ Hp) as (s & f & Hs & Hf & Hof & Hm & Ho & Hl & Hend).
  assert (0 ≤ entry_bytes at_) by (unfold entry_bytes, RECORD_SIZE; lia).
  pose proof (read_bytes_nofault (s_file s) f w (l_offset at_) (entry_bytes at_)
    Hf Hw Hof Ho ltac:(lia) Hm Hend) as Hr.
  destruct (judge_total j p at_ (slice (medium f) (l_offset at_) (l_offset at_ + entry_bytes at_)))
    as (x & Hx); [rewrite len_slice; rewrite ?len_medium; lia|done|].
  exists s, f, x. split_and!; try done. unfold Journal_read. rewrite Hp, Hd, Hs.
  cbn [io_expect]. erewrite io_bind_ok by reflexivity.
  erewrite io_bind_ok by (unfold io_map_err, Segment_read_at; by rewrite Hr). by rewrite Hx.
Qed.

(** A run: same segment, intact, in order, inside [start, end_). *)
Lemma extend_run_spec at_ start e rest run e' after :
  extend_run at_ start e rest = (run, e', after) →
  Forall (fun x => 0 ≤ l_len x.2) rest →
  rest = run ++ after ∧ e ≤ e' ∧
  Forall (fun x => l_segment x.2 = l_segment at_ ∧ l_damaged x.2 = false ∧
            e ≤ l_offset x.2 ∧ l_offset x.2 + entry_bytes x.2 ≤ e') run ∧
  (e' = e ∨ ∃ x, x ∈ run ∧ e' = l_offset x.2 + entry_bytes x.2).
Proof.
  revert e run e' after. induction rest as [|[p next] rest IH]; intros e run e' after H Hpos;
    cbn [extend_run] in H.
  { injection H as <- <- <-. split_and!; [done|lia|constructor|by left]. }
  apply Forall_cons_iff in Hpos as [Hp Hpos]. cbn in Hp.
  destruct (Z.eqb_spec (l_segment next) (l_segment at_)) as [Hs|]; cbn [negb orb] in H;
    [|injection H as <- <- <-; split_and!; [done|lia|constructor|by left]].
  destruct (l_damaged next) eqn:Hd; cbn [orb] in H;
    [injection H as <- <- <-; split_and!; [done|lia|constructor|by left]|].
  destruct (Z.ltb_spec (l_offset next) e) as [|Hge]; cbn [orb] in H;
    [injection H as <- <- <-; split_and!; [done|lia|constructor|by left]|].
  destruct (_ || _);
    [injection H as <- <- <-; split_and!; [done|lia|constructor|by left]|].
  set (ne := l_offset next + entry_bytes next) in *.
  destruct (extend_run at_ start ne rest) as [[run1 e1] after1] eqn:E.
  injection H as <- <- <-.
  destruct (IH _ _ _ _ E Hpos) as (-> & Hle & Hrun & Hlast).
  assert (l_offset next ≤ ne) by (unfold ne, entry_bytes, RECORD_SIZE; lia).
  split_and!; [done|lia| |].
  - constructor; [cbn; fold ne; repeat split; try done; lia|].
    eapply Forall_impl; [exact Hrun|]. cbn. intros x (? & ? & ? & ?). repeat split; done || lia.
  - right. destruct Hlast as [->|(x & Hx & ->)]; [exists (p, next); split; [set_solver|done]|].
    exists x. split; [set_solver|done].
Qed.

(** The bytes of a run hold the bytes of each of its entries, so judging
    them is reading each entry. *)
Lemma judge_run_reads j w s f start e run :
  readable j w → w_files w !! bf_file (s_file s) = Some f → 0 ≤ start →
  start ≤ e ≤ len (f_vis f) →
  Forall (fun x => j_index j !! x.1 = Some x.2 ∧ segment_at j (l_segment x.2) = Some s ∧
            l_damaged x.2 = false ∧ start ≤ l_offset x.2 ∧ 0 ≤ l_len x.2 ∧
            l_offset x.2 + entry_bytes x.2 ≤ e) run →
  ∃ out, judge_run j start (slice (medium f) start e) run = Some out ∧
    map fst out = map fst run ∧
    Forall (fun x => Journal_read j x.1 w =
              (match x.2 with inl e => Ok e | inr e => Err e end, w)) out.
Proof.
  intros Hrd Hf Hst He. induction run as [|[p at_] run IH]; intros Hrun.
  { exists []. done. }
  apply Forall_cons_iff in Hrun as [(Hp & Hs & Hd & Ho & Hl & Hend) Hrun].
  cbn in Hp, Hs, Hd, Ho, Hl, Hend. destruct (IH Hrun) as (out & Ho' & Hm & Hall).
  destruct (Journal_read_located j w p at_ Hrd Hp Hd) as (s' & f' & x & Hs' & Hf' & Hj & Hread).
  assert (s' = s) as -> by congruence. assert (f' = f) as -> by congruence.
  assert (0 ≤ entry_bytes at_) by (unfold entry_bytes, RECORD_SIZE; lia).
  exists ((p, x) :: out). cbn [judge_run].
  rewrite slice_checked_ok; [|lia|lia|rewrite len_slice; rewrite ?len_medium; lia].
  cbn [mbind option_bind]. rewrite slice_slice by lia.
  replace (start + (l_offset at_ - start)) with (l_offset at_) by lia.
  replace (start + (l_offset at_ - start + entry_bytes at_))
    with (l_offset at_ + entry_bytes at_) by lia.
  rewrite Hj. destruct x; cbn [mbind option_bind]; rewrite Ho'; cbn [mbind option_bind];
    (split_and!; [done|cbn; by rewrite Hm|by constructor]).
Qed.

Lemma Journal_read_damaged j w p at_ :
  j_index j !! p = Some at_ → l_damaged at_ = true →
  Journal_read j p w = (Err (RE_Damaged p (l_id at_)), w).
Proof. intros Hp Hd. unfold Journal_read. by rewrite Hp, Hd. Qed.

Lemma replay_from_reads j w fuel located :
  readable j w → (length located ≤ fuel)%nat →
  Forall (fun x => j_index j !! x.1 = Some x.2) located →
  ∃ out, replay_from fuel j located w = (Ok out, w) ∧ map fst out = map fst located ∧
    Forall (fun x => Journal_read j x.1 w =
              (match x.2 with inl e => Ok e | inr e => Err e end, w)) out.
Proof.
  intros Hrd. revert located. induction fuel as [|fuel IH]; intros located Hfuel Hloc;
    (destruct located as [|[p at_] rest]; [by exists []|]); cbn in Hfuel; [lia|].
  apply Forall_cons_iff in Hloc as [Hp Hrest]. cbn in Hp. cbn [replay_from].
  destruct (l_damaged at_) eqn:Hd.
  - destruct (IH rest ltac:(lia) Hrest) as (out & Ho & Hm & Hall).
    erewrite io_bind_ok by exact Ho. eexists. split; [done|]. cbn. rewrite Hm.
    split; [done|]. constructor; [|done]. by apply Journal_read_damaged.
  - destruct (rd_located _ _ Hrd p at_ Hp) as (s & f & Hs & Hf & Hof & Hbm & Hoff & Hln & Hend).
    assert (Forall (fun x => 0 ≤ l_len x.2) rest) as Hpos.
    { eapply Forall_impl; [exact Hrest|]. intros x Hx.
      by destruct (rd_located _ _ Hrd _ _ Hx) as (? & ? & _ & _ & _ & _ & _ & ? & _). }
    destruct (extend_run _ _ _ _) as [[run e] after] eqn:Er.
    destruct (extend_run_spec _ _ _ _ _ _ _ Er Hpos) as (-> & Hle & Hrun & Hlast).
    apply Forall_app in Hrest as [Hr1 Hr2]. apply Forall_app in Hpos as [Hp1 _].
    assert (0 ≤ entry_bytes at_) by (unfold entry_bytes, RECORD_SIZE; lia).
    assert (e ≤ len (f_vis f)) as He.
    { destruct Hlast as [->|(x & Hx & ->)]; [done|].
      rewrite Forall_forall in Hr1. rewrite Forall_forall in Hrun.
      destruct (rd_located _ _ Hrd _ _ (Hr1 x Hx)) as (s' & f' & Hs' & Hf' & _ & _ & _ & _ & ?).
      destruct (Hrun x Hx) as (Hseg & _). rewrite Hseg in Hs'.
      assert (s' = s) as -> by congruence. by assert (f' = f) as -> by congruence. }
    rewrite Hs. cbn [io_expect]. erewrite io_bind_ok by reflexivity.
    erewrite io_bind_ok by (apply (read_bytes_nofault _ f); try done; [apply Hrd|lia|lia]).
    replace (l_offset at_ + (e - l_offset at_)) with e by lia.
    rewrite len_slice by (rewrite ?len_medium; lia). rewrite Z.eqb_refl.
    erewrite io_bind_ok by reflexivity.
    destruct (judge_run_reads j w s f (l_offset at_) e ((p, at_) :: run))
      as (out1 & Hj & Hm1 & Hall1); try done; [lia| |].
    { constructor; [cbn; repeat split; done || lia|].
      rewrite Forall_forall in Hr1, Hrun, Hp1 |- *. intros x Hx.
      destruct (Hrun x Hx) as (Hseg & ? & ? & ?). rewrite Hseg.
      repeat split; auto; lia. }
    rewrite Hj. cbn [io_expect]. erewrite io_bind_ok by reflexivity.
    rewrite length_app in Hfuel.
    destruct (IH after ltac:(lia) Hr2) as (out2 & Ho & Hm2 & Hall2).
    erewrite io_bind_ok by exact Ho. eexists. split; [done|].
    rewrite map_app, Hm1, Hm2. cbn. rewrite map_app. split; [done|]. by apply Forall_app.
Qed.

Lemma located_in_spec idx lo hi :
  map fst (located_in idx lo hi) = range_keys idx (in_bounds lo hi) ∧
  Forall (fun x => idx !! x.1 = Some x.2) (located_in idx lo hi).
Proof.
  unfold located_in.
  assert (∀ p, p ∈ range_keys idx (in_bounds lo hi) → is_Some (idx !! p)) as Hin.
  { intros p Hp. by apply elem_of_range_keys in Hp as [_ ?]. }
  induction (range_keys _ _) as [|p l IH]; [done|]. cbn.
  destruct (Hin p) as [at_ Hat]; [set_solver|]. rewrite Hat. cbn.
  destruct IH as [-> ?]; [set_solver|]. split; [done|]. by constructor.
Qed.

(** The entry named by the index is within the file of an open segment,
    whatever the medium and the calls to it do. *)
Definition located_in_file (j : Journal) (w : World) (at_ : Located) : Prop :=
  ∃ s f, segment_at j (l_segment at_) = Some s ∧ w_files w !! bf_file (s_file s) = Some f ∧
    journal_file (s_file s) ∧ len (f_vis f) mod BLOCK = 0 ∧
    0 ≤ l_offset at_ ∧ 0 ≤ l_len at_ ∧ l_offset at_ + entry_bytes at_ ≤ len (f_vis f).

(** What [judge] accepts: bytes whose header names the journal and matches
    the record, and whose checksum is the one the record holds. *)
Lemma judge_sound j p at_ bytes e :
  judge j p at_ bytes = Ok e →
  len bytes = entry_bytes at_ ∧ e = mkEntry p (l_id at_) (slice bytes RECORD_SIZE (len bytes)) ∧
  ∃ h, EntryHeader_parse bytes = Some (Some (h, l_entry_crc at_)) ∧ eh_tag h = j_tag j ∧
    eh_position h = p ∧ eh_id h = l_id at_ ∧ eh_batch h = l_batch at_ ∧
    entry_crc (slice bytes 0 RECORD_SIZE) (slice bytes RECORD_SIZE (len bytes)) =
      Some (l_entry_crc at_).
Proof.
  unfold judge. destruct (Z.eqb_spec (len bytes) (entry_bytes at_)) as [Hl|]; [|done]. cbn [negb].
  destruct (EntryHeader_parse bytes) as [[[h sum]|]|] eqn:Hp; cbn [expect res_bind]; [|done..].
  destruct (Z.eqb_spec (eh_tag h) (j_tag j)) as [Ht|]; cbn [andb]; [|done].
  destruct (entry_matches _ h sum) eqn:Hm; [|done].
  destruct (entry_crc _ _) as [c|] eqn:Hc; cbn [expect res_bind]; [|done].
  destruct (Z.eqb_spec c sum) as [->|]; cbn; [|done]. intros [= <-].
  unfold entry_matches, record_of in Hm. cbn in Hm.
  rewrite !andb_true_iff, !bool_decide_eq_true, !Z.eqb_eq in Hm.
  destruct Hm as ((((((((? & ?) & ?) & ?) & ?) & ?) & ?) & ?) & ?). subst.
  split_and!; [done|done|]. by exists h.
Qed.

(** A read never returns wrong bytes: whatever the medium holds and
    however the calls to it fail, reading a position reports an error or the
    entry the index names, its header matching and its checksum verified,
    and it neither panics nor changes a file. *)
Theorem read_never_wrong j p w :
  (∀ at_, j_index j !! p = Some at_ → located_in_file j w at_) →
  reads (Journal_read j p) w (fun e => ∃ at_ bytes h,
    j_index j !! p = Some at_ ∧ l_damaged at_ = false ∧ e_position e = p ∧ e_id e = l_id at_ ∧
    e_payload e = slice bytes RECORD_SIZE (len bytes) ∧ len (e_payload e) = l_len at_ ∧
    EntryHeader_parse bytes = Some (Some (h, l_entry_crc at_)) ∧ eh_tag h = j_tag j ∧
    eh_position h = p ∧ eh_batch h = l_batch at_ ∧
    entry_crc (slice bytes 0 RECORD_SIZE) (e_payload e) = Some (l_entry_crc at_)).
Proof.
  intros Hloc. unfold Journal_read.
  destruct (j_index j !! p) as [at_|] eqn:Hp; [|apply reads_err].
  destruct (l_damaged at_) eqn:Hd; [apply reads_err|].
  destruct (Hloc at_ eq_refl) as (s & f & Hs & Hf & Hj & Hm & Ho & Hl & Hend).
  eapply reads_bind_expect; [exact Hs|].
  assert (0 ≤ entry_bytes at_) by (unfold entry_bytes, RECORD_SIZE; lia).
  eapply reads_bind; [apply reads_map_err; by eapply read_bytes_reads|].
  intros bytes fs Hlen. destruct (judge_total j p at_ bytes Hlen Hl) as [[e|e] He].
  - exists (Ok e), fs. split; [by rewrite He|].
    destruct (judge_sound _ _ _ _ _ He) as (_ & -> & h & Hh & Ht & Hpos & _ & Hb & Hc).
    exists at_, bytes, h. cbn. split_and!; try done.
    rewrite len_slice; rewrite Hlen; unfold entry_bytes, RECORD_SIZE in *; lia.
  - exists (Err e), fs. by rewrite He.
Qed.

(** A replay is the reads of its positions, one by one, in order: however
    the entries of a range share segments and however its reads are grouped
    into runs, replay reports exactly the positions of the range, ascending,
    each with the entry or the error that [read] gives for it. *)
Theorem Journal_replay_reads j w lo hi :
  readable j w → bounds_ok lo hi = true →
  ∃ out, Journal_replay j lo hi w = (Ok out, w) ∧
    map fst out = range_keys (j_index j) (in_bounds lo hi) ∧
    Forall (fun x => Journal_read j x.1 w =
              (match x.2 with inl e => Ok e | inr e => Err e end, w)) out.
Proof.
  intros Hrd Hb. unfold Journal_replay. rewrite Hb. erewrite io_bind_ok by reflexivity.
  destruct (located_in_spec (j_index j) lo hi) as [Hk Hl].
  destruct (replay_from_reads j w _ (located_in (j_index j) lo hi) Hrd (Nat.le_refl _) Hl)
    as (out & Ho & Hm & Hall).
  erewrite io_bind_ok by exact Ho.
  assert (len out = len (located_in (j_index j) lo hi)) as ->.
  { unfold len. by rewrite <- (length_map fst out), Hm, length_map. }
  rewrite Z.eqb_refl. erewrite io_bind_ok by reflexivity. exists out. by rewrite Hm.
Qed.
End WithCrc.
