(* ===== verification/Commit.v ===== *)
(** * Commits (crates/moonpool-journal/src/journal.rs, "writes")

    [Journal_commit] is the whole handler: its checks before anything is
    written, the metainfo-only path, [prepare], [segment_for] with its rolls
    onto a spare or a new segment, [place], [write_protocol] with both
    durability modes, the index following the disk, and [after_commit].

    Arithmetic the code does on [u64] without a check wraps ([wrap64]), as in
    a release build. *)

From S2P Require Import Prelude Crc Format Names Storage JournalIo MetaFile Batch Index.
From S2P Require Import Segment Recover Journal.

(** [struct Prepared]: a batch encoded *)
Record Prepared := mkPrepared {
  p_seq : Z;
  p_entries : list byte;
  p_records : list byte;
  p_decoded : list PRecord;
  p_persist_at : Z;
  p_entry_at : Z;
}.

Definition SYNC_ATTEMPTS : nat := 3.

Section WithCrc.
Context {C : Crc32c}.

(** The batch number [prepare] takes: the next of this generation. *)
Definition next_seq (last_batch generation : Z) : Z :=
  if generation_of last_batch =? generation then wrap64 (last_batch + 1)
  else first_batch_of generation.

Definition flags_of (d : Durability) : Z :=
  match d with Ordered => FLAG_ORDERED | Batched => 0 end.

(** What [prepare] takes from a write: kind, position, id and payload. *)
Definition write_parts (w : Write) : Kind * Z * Id * list byte :=
  match w with
  | Write_Put position id payload => (Kind_Put, position, id, payload)
  | Write_Clear start end_ => (Kind_Clear, start, clear_id end_, [])
  end.

(** The encoding loop of [prepare], from the write number [index] on. *)
Fixpoint lay_out (flags count seq tag index : Z) (writes : list Write)
    (entries : list byte) (start : Z) (decoded : list PRecord) :
    res CommitError (list byte * Z * list PRecord) :=
  match writes with
  | [] => Ok (entries, start, decoded)
  | write :: writes =>
      let '(kind, position, id, payload) := write_parts write in
      let l := len payload in
      if 2 ^ 32 - 1 <? l then Err CE_BatchTooLarge else
      let header := mkEntryHeader kind flags index count seq position id l tag in
      let? tail := expect (slice_checked entries start (len entries)) in
      let? encoded := expect (EntryHeader_encode header payload tail) in
      let '(entry_crc, tail) := encoded in
      let? entries := expect (copy_from_slice entries start tail) in
      if 2 ^ 32 - 1 <? start then Err CE_BatchTooLarge else
      let record := mkPRecord kind flags index count seq position id start l entry_crc in
      lay_out flags count seq tag (index + 1) writes entries (start + footprint l)
        (decoded ++ [record])
  end.

(** [Journal::prepare] *)
Definition prepare (j : Journal) (batch : Batch) : res CommitError Prepared :=
  let seq := next_seq (j_last_batch j) (j_generation j) in
  if negb (j_last_batch j <? seq) then Panic else
  let count := len (b_writes batch) in
  if 2 ^ 16 - 1 <? count then Err CE_BatchTooLarge else
  let flags := flags_of (c_durability (j_config j)) in
  match sum_footprints 0 (map payload_len (b_writes batch)) with
  | None => Err CE_BatchTooLarge
  | Some footprint =>
      let entries := block_buf (align_up footprint BLOCK) in
      let? '(entries, start, decoded) :=
        lay_out flags count seq (j_tag j) 0 (b_writes batch) entries 0 [] in
      if negb (start =? footprint) then Panic else
      let records := block_buf (blocks_for (len decoded) * BLOCK) in
      let g := c_geometry (j_config j) in
      if negb (blocks_for (len decoded) <=? persist_blocks g) then Panic else
      if negb (len entries <=? entry_blocks g * BLOCK) then Panic else
      Ok (mkPrepared seq entries records decoded 0 0)
  end.

(** The loop of [Prepared::place], from the slot number [slot] on. *)
Fixpoint place_records (entry_at slot : Z) (decoded : list PRecord) (records : list byte) :
    option (list PRecord * list byte) :=
  match decoded with
  | [] => Some ([], records)
  | r :: decoded =>
      let offset := entry_at + r_offset r in
      if 2 ^ 32 - 1 <? offset then None else
      let r := mkPRecord (r_kind r) (r_flags r) (r_index r) (r_count r) (r_batch r)
                 (r_position r) (r_id r) offset (r_len r) (r_entry_crc r) in
      let* tail := slice_checked records (slot * RECORD_SIZE) (len records) in
      let* tail := PRecord_encode r tail in
      let* records := copy_from_slice records (slot * RECORD_SIZE) tail in
      let* '(placed, records) := place_records entry_at (slot + 1) decoded records in
      Some (r :: placed, records)
  end.

(** [Prepared::place] *)
Definition place (p : Prepared) (persist_at entry_at : Z) : option Prepared :=
  if (persist_at mod BLOCK =? 0) && (entry_at mod BLOCK =? 0) then
    let* '(decoded, records) := place_records entry_at 0 (p_decoded p) (p_records p) in
    Some (mkPrepared (p_seq p) (p_entries p) records decoded persist_at entry_at)
  else None.

(** [OpenError] as the [io::Error] of a failed roll *)
Definition roll_error (e : OpenError) : CommitError :=
  CE_Io (match e with OE_Io e => e | _ => OtherKind end) Durable_No.

Definition next_segment (j : Journal) (spare : option str) (seq : Z) : IO OpenError Segment :=
  match spare with
  | Some spare =>
      Segment_adopt (j_dir j) spare
        (mkSegmentHeader (j_id j) seq (j_last_batch j) (c_geometry (j_config j)))
  | None =>
      Segment_create (j_dir j) (j_id j) seq (j_last_batch j) (c_geometry (j_config j))
  end.

(** [Journal::segment_for] *)
Definition segment_for (p : Prepared) : JM CommitError nat :=
  let& j := jm_get in
  let fits := match last (j_segments j) with
              | Some s => Segment_fits s (len (p_records p) / BLOCK) (len (p_entries p))
              | None => false
              end in
  (if fits then jm_ret tt else
   let spare := j_spare j in
   jm_modify (set_spare None (j_spares_named j)) ;&
   let& segment := jm_poison roll_error (jm_io (next_segment j spare (p_seq p))) in
   jm_assert (s_first_batch segment =? p_seq p) ;&
   jm_modify (set_segments (j_segments j ++ [segment])) ;&
   let rolls := j_rolls j in
   jm_modify (set_rolls
     match spare with
     | Some _ => mkRolls (wrap64 (onto_spare rolls + 1)) (created rolls)
     | None => mkRolls (onto_spare rolls) (wrap64 (created rolls + 1))
     end)) ;&
  let& j := jm_get in
  jm_ret (length (j_segments j) - 1)%nat.

(** [Journal::in_flight]: the regions the batch will write *)
Fixpoint in_flight (path : str) (persist_at index : Z) (decoded : list PRecord) :
    list LayoutRegion :=
  match decoded with
  | [] => []
  | r :: decoded =>
      (if decide (r_kind r = Kind_Put) then
         [record_region path (persist_at + slot_offset index) (r_position r);
          entry_region path (r_offset r) (r_len r) (r_position r)]
       else []) ++ in_flight path persist_at (index + 1) decoded
  end.

(** [sync_batch]: [more] attempts after this one *)
Fixpoint sync_batch (more : nat) (s : Segment) (p : Prepared) : IO ErrorKind () :=
  io_try (Segment_sync s) (fun r =>
    match r with
    | inl _ => io_ret tt
    | inr error =>
        match more with
        | O => io_err error
        | S more =>
            Segment_write s (p_entry_at p) (p_entries p) ;!
            Segment_write s (p_persist_at p) (p_records p) ;!
            sync_batch more s p
        end
    end).

(** [write_protocol] *)
Definition write_protocol (s : Segment) (meta_file : BlockFile) (p : Prepared)
    (meta : option Meta) (ordered : bool) : IO (ErrorKind * Durable) () :=
  let no := io_map_err (A := ()) (fun e => (e, Durable_No)) in
  let unknown := io_map_err (A := ()) (fun e => (e, Durable_Unknown)) in
  (if ordered then
     no (Segment_write_durable s (p_entry_at p) (p_entries p)) ;!
     unknown (Segment_write_durable s (p_persist_at p) (p_records p))
   else
     no (Segment_write s (p_entry_at p) (p_entries p)) ;!
     unknown (Segment_write s (p_persist_at p) (p_records p)) ;!
     unknown (sync_batch (SYNC_ATTEMPTS - 1) s p)) ;!
  match meta with
  | Some meta => unknown (MetaFile_update meta_file meta)
  | None => io_ret tt
  end.

(** The operations a durable batch applies to the index. *)
Fixpoint batch_ops (first_batch persist_at index : Z) (decoded : list PRecord)
    (writes : list Write) : list Op :=
  match decoded, writes with
  | r :: decoded, w :: writes =>
      match w with
      | Write_Put position _ _ =>
          Op_Put position (mkLocated first_batch (persist_at + slot_offset index)
            (r_offset r) (r_len r) (r_entry_crc r) (r_id r) (r_batch r) index (r_count r)
            (r_flags r) false)
      | Write_Clear start end_ => Op_Clear start end_
      end :: batch_ops first_batch persist_at (index + 1) decoded writes
  | _, _ => []
  end.

(** [Journal::next_spare_name] *)
Definition next_spare_name {E} : JM E str :=
  let& j := jm_get in
  jm_modify (set_spare (j_spare j) ((j_spares_named j + 1) mod 2 ^ 32)) ;&
  jm_ret (spare_name (j_generation j) (j_spares_named j)).

(** The loop of [remove_dead_segments]; [fuel] exceeds the segments *)
Fixpoint remove_dead_from (fuel : nat) (removed : Z) : JM ErrorKind Z :=
  let& j := jm_get in
  match j_segments j with
  | s :: (_ :: _) as rest =>
      if s_live s =? 0 then
        match fuel with
        | O => fun j w => (Panic, j, w)
        | S fuel =>
            let path := path_in (j_dir j) (s_name s) in
            match j_spare j with
            | None =>
                let& name := next_spare_name in
                jm_io (rename path (path_in (j_dir j) name)) ;&
                jm_io (sync_dir (j_dir j)) ;&
                jm_modify (fun j => set_spare (Some name) (j_spares_named j) j)
            | Some _ =>
                jm_io (delete_ path) ;&
                jm_io (sync_dir (j_dir j))
            end ;&
            jm_modify (fun j => set_segments (tail (j_segments j)) j) ;&
            remove_dead_from fuel (removed + 1)
        end
      else jm_ret removed
  | _ => jm_ret removed
  end.

Definition remove_dead_segments : JM ErrorKind Z :=
  let& j := jm_get in remove_dead_from (length (j_segments j)) 0.

(** [self.drop_below_floor()] and [self.assert_invariants()] *)
Definition jm_drop_below_floor {E} : JM E () :=
  let& j := jm_get in
  let& '(segs, idx) := jm_expect
    (drop_below_floor (m_floor (j_meta j)) (j_segments j) (j_index j)) in
  jm_modify (set_index segs idx).

Definition jm_assert_invariants {E} : JM E () :=
  let& j := jm_get in
  jm_assert (assert_invariants (j_segments j) (j_index j) (m_floor (j_meta j))
               (m_bytes (j_meta j))).

(** [Journal::after_commit] *)
Definition after_commit : JM CommitError () :=
  jm_drop_below_floor ;&
  jm_poison (fun e => CE_Io e Durable_Unknown) remove_dead_segments ;&
  jm_assert_invariants.

(** [Journal::write_meta_only] *)
Definition write_meta_only (meta : Meta) : JM CommitError () :=
  let& j := jm_get in
  jm_poison (fun e => CE_Io e Durable_Unknown) (jm_io (MetaFile_update (j_meta_file j) meta)).

(** The first put below the floor. *)
Fixpoint below_floor (floor : Z) (writes : list Write) : option Z :=
  match writes with
  | [] => None
  | Write_Put position _ _ :: writes =>
      if position <? floor then Some position else below_floor floor writes
  | Write_Clear _ _ :: writes => below_floor floor writes
  end.

(** The floor and the metainfo a batch leads to. *)
Definition next_floor (j : Journal) (b : Batch) : Z :=
  match b_floor b with
  | None => m_floor (j_meta j)
  | Some f => Z.max f (m_floor (j_meta j))
  end.

Definition next_meta (j : Journal) (b : Batch) : Meta :=
  let m := j_meta j in
  mkMeta (wrap64 (m_seq m + 1)) (m_journal m) (next_floor j b) (j_last_batch j)
    (m_open_generation m) (m_open_last m) (m_geometry m)
    (match b_meta b with Some bytes => bytes | None => m_bytes m end).

Definition meta_changes (j : Journal) (b : Batch) : bool :=
  bool_decide (is_Some (b_meta b)) || negb (next_floor j b =? m_floor (j_meta j)).

(** The part of [commit] that writes: the batch is not empty and fits. *)
Definition commit_writes (b : Batch) : JM CommitError () :=
  let& j := jm_get in
  let next_meta := next_meta j b in
  let meta_changes := meta_changes j b in
  let& prepared := (fun j w => (prepare j b, j, w)) in
  let& at_ := segment_for prepared in
  let& j := jm_get in
  let& segment := jm_expect (j_segments j !! at_) in
  let& prepared := jm_expect (place prepared (s_persist_next segment) (s_entry_next segment)) in
  publish_regions (in_flight (path_in (j_dir j) (s_name segment)) (p_persist_at prepared) 0
                     (p_decoded prepared)) ;&
  let ordered := bool_decide (c_durability (j_config j) = Ordered) in
  jm_poison (fun x => CE_Io x.1 x.2)
    (jm_io (write_protocol segment (j_meta_file j) prepared
              (if meta_changes then Some next_meta else None) ordered)) ;&
  let segment' := set_cursors segment (p_persist_at prepared + len (p_records prepared))
                    (p_entry_at prepared + len (p_entries prepared)) in
  jm_modify (set_segments (<[at_ := segment']> (j_segments j))) ;&
  let& j := jm_get in
  let& '(segs, idx) := jm_expect
    (apply_ops (j_segments j) (j_index j)
       (batch_ops (s_first_batch segment) (p_persist_at prepared) 0 (p_decoded prepared)
          (b_writes b))) in
  jm_modify (set_index segs idx) ;&
  jm_modify (set_last (p_seq prepared) None) ;&
  (if meta_changes then jm_modify (set_meta next_meta) else jm_ret tt) ;&
  (fun j w =>
     let '(committed, j, w) := after_commit j w in
     match committed with
     | Panic => (Panic, j, w)
     | _ => let '(r, j, w) := publish_regions [] j w in
            match r with Ok _ => (committed, j, w) | _ => (r, j, w) end
     end).

(** [Journal::commit] *)
Definition Journal_commit (b : Batch) : JM CommitError () :=
  let& j := jm_get in
  if j_poisoned j then jm_err CE_Poisoned else
  let floor := next_floor j b in
  match below_floor floor (b_writes b) with
  | Some position => jm_err (CE_BelowFloor position floor)
  | None =>
      match b_meta b with
      | Some meta => if META_MAX <? len meta then jm_err (CE_MetaTooLarge (len meta)) else jm_ret tt
      | None => jm_ret tt
      end ;&
      if negb (Batch_fits b (c_geometry (j_config j))) then jm_err CE_BatchTooLarge else
      if bool_decide (b_writes b = []) then
        if meta_changes j b then
          write_meta_only (next_meta j b) ;&
          jm_modify (set_meta (next_meta j b)) ;&
          after_commit
        else jm_ret tt
      else commit_writes b
  end.
End WithCrc.
