(* ===== verification/CommitErrors.v ===== *)
(** * How a commit fails

    Every error of [Journal_commit] is one of two kinds: a refusal, before
    anything was written, which leaves the journal and the world exactly as
    they were; or an I/O error, which poisons the journal, so that every
    later commit is refused.  [poisons] is the second kind as a property of a
    computation, closed under the combinators of [JM]. *)

From stdpp Require Import sorting.
From S2P Require Import Prelude Crc Format Names Storage JournalIo MetaFile Batch Index.
From S2P Require Import Segment Recover Journal Commit.
#[local] Open Scope Z_scope.

(** Whatever error [m] returns is an I/O error of a poisoned journal. *)
Definition poisons {A} (m : JM CommitError A) : Prop :=
  ∀ j w e j' w', m j w = (Err e, j', w') →
    (∃ error durable, e = CE_Io error durable) ∧ j_poisoned j' = true.

Lemma poisons_ret {A} (a : A) : poisons (jm_ret a).
Proof. intros j w e j' w' [=]. Qed.

Lemma poisons_get : poisons jm_get.
Proof. intros j w e j' w' [=]. Qed.

Lemma poisons_modify f : poisons (jm_modify f).
Proof. intros j w e j' w' [=]. Qed.

Lemma poisons_expect {A} (o : option A) : poisons (jm_expect o).
Proof. intros j w e j' w' H. unfold jm_expect in H. by destruct o. Qed.

Lemma poisons_poison {E A} (f : E → CommitError) (m : JM E A) :
  (∀ e, ∃ error durable, f e = CE_Io error durable) → poisons (jm_poison f m).
Proof.
  intros Hf j w e j' w' H. unfold jm_poison in H.
  destruct (m j w) as [[[a|e0|] j1] w1]; [done| |done]. injection H as <- <- <-. by split.
Qed.

Lemma poisons_bind {A B} (m : JM CommitError A) (k : A → JM CommitError B) :
  poisons m → (∀ a, poisons (k a)) → poisons (jm_bind m k).
Proof.
  intros Hm Hk j w e j' w' H. unfold jm_bind in H.
  destruct (m j w) as [[[a|e0|] j1] w1] eqn:E; [by eapply Hk| |done].
  injection H as <- <- <-. by eapply Hm.
Qed.

Create HintDb poisons.
#[export] Hint Resolve poisons_ret poisons_get poisons_modify poisons_expect poisons_bind
  poisons_poison : poisons.

Section WithCrc.
Context {C : Crc32c}.

Lemma poisons_publish in_flight : poisons (publish_regions in_flight).
Proof.
  intros j w e j' w' H. unfold publish_regions in H.
  destruct (j_layout_shard j); [|done]. by destruct (regions j).
Qed.

Lemma poisons_after_commit : poisons after_commit.
Proof.
  unfold after_commit, jm_drop_below_floor, jm_assert_invariants, jm_assert.
  repeat (apply poisons_bind; intros); eauto with poisons.
  all: repeat case_match; repeat (apply poisons_bind; intros); eauto with poisons.
Qed.

Lemma poisons_segment_for p : poisons (segment_for p).
Proof.
  unfold segment_for, jm_assert.
  repeat (apply poisons_bind; intros); eauto with poisons.
  destruct (match last (j_segments a) with Some _ => _ | None => _ end); [eauto with poisons|].
  repeat (apply poisons_bind; intros); eauto with poisons.
Qed.

(** [prepare] fails in one way. *)
Lemma lay_out_error flags count seq tag index ws entries start decoded e :
  lay_out flags count seq tag index ws entries start decoded = Err e → e = CE_BatchTooLarge.
Proof.
  revert index entries start decoded. induction ws as [|w ws IH];
    intros index entries start decoded; cbn [lay_out]; [by intros [=]|].
  destruct (write_parts w) as [[[kind position] id] payload].
  destruct (_ <? len payload); [by intros [= <-]|].
  destruct (slice_checked _ _ _); [|done]. cbn [expect res_bind].
  destruct (EntryHeader_encode _ _ _) as [[sum tail]|]; [|done]. cbn [expect res_bind].
  destruct (copy_from_slice _ _ _); [|done]. cbn [expect res_bind].
  destruct (_ <? start); [by intros [= <-]|]. apply IH.
Qed.

Lemma prepare_error j b e : prepare j b = Err e → e = CE_BatchTooLarge.
Proof.
  unfold prepare. destruct (negb _); [done|].
  destruct (_ <? len (b_writes b)); [by intros [= <-]|].
  destruct (sum_footprints _ _); [|by intros [= <-]].
  destruct (lay_out _ _ _ _ _ _ _ _ _) as [[[en st] de]|e1|] eqn:Hlay; cbn [res_bind]; [| |done].
  - by repeat (destruct (negb _); [done|]).
  - intros [= <-]. by eapply lay_out_error.
Qed.

(** A commit of writes: refused as too large, or poisoned. *)
Lemma commit_writes_error b j w e j' w' :
  commit_writes b j w = (Err e, j', w') →
  (j' = j ∧ w' = w ∧ e = CE_BatchTooLarge) ∨
  ((∃ error durable, e = CE_Io error durable) ∧ j_poisoned j' = true).
Proof.
  unfold commit_writes. unfold jm_bind at 1 2. cbn [jm_get].
  destruct (prepare j b) as [p|e0|] eqn:Hp; [| |done].
  2:{ intros [= <- <- <-]. left. by apply prepare_error in Hp. }
  intros H. right.
  match type of H with ?m j w = _ => assert (poisons m) as Hm; [|exact (Hm _ _ _ _ _ H)] end.
  apply poisons_bind; [apply poisons_segment_for|intros at_].
  apply poisons_bind; [apply poisons_get|intros j1].
  apply poisons_bind; [apply poisons_expect|intros s].
  apply poisons_bind; [apply poisons_expect|intros q].
  apply poisons_bind; [apply poisons_publish|intros _].
  apply poisons_bind; [apply poisons_poison; intros e1; by eexists _, _|intros _].
  apply poisons_bind; [apply poisons_modify|intros _].
  apply poisons_bind; [apply poisons_get|intros j2].
  apply poisons_bind; [apply poisons_expect|intros [segs idx]].
  do 2 (apply poisons_bind; [apply poisons_modify|intros _]).
  apply poisons_bind; [destruct (meta_changes j b); eauto with poisons|intros _].
  clear dependent j1 j2.
  intros j2 w1 e1 j3 w2 H1.
  destruct (after_commit j2 w1) as [[[u|e2|] j4] w3] eqn:Ha; [| |done];
    destruct (publish_regions [] j4 w3) as [[[u2|e3|] j5] w4] eqn:Hpub;
    try done; injection H1 as <- <- <-.
  - by eapply poisons_publish.
  - destruct (poisons_after_commit _ _ _ _ _ Ha) as [? Hpo]. split; [done|].
    unfold publish_regions in Hpub. destruct (j_layout_shard j4); [|by injection Hpub as <- <-].
    destruct (regions j4); [|done]. by injection Hpub as <- <-.
  - by eapply poisons_publish.
Qed.

(** C6: a commit that fails either changed nothing, neither the journal nor
    the storage, or it poisoned the journal, with an I/O error; and a
    poisoned journal refuses every commit, again changing nothing. *)
Theorem commit_fails_untouched_or_poisoned b j w e j' w' :
  Journal_commit b j w = (Err e, j', w') →
  (j' = j ∧ w' = w ∧ ∀ error durable, e ≠ CE_Io error durable) ∨
  ((∃ error durable, e = CE_Io error durable) ∧ j_poisoned j = false ∧ j_poisoned j' = true ∧
   ∀ b' w'', Journal_commit b' j' w'' = (Err CE_Poisoned, j', w'')).
Proof.
  intros H.
  assert (∀ j', j_poisoned j' = true → ∀ b' w'',
    Journal_commit b' j' w'' = (Err CE_Poisoned, j', w'')) as Hrefuse.
  { intros j0 Hj0 b' w''. unfold Journal_commit, jm_bind. cbn. by rewrite Hj0. }
  unfold Journal_commit in H. unfold jm_bind at 1 in H. cbn [jm_get] in H.
  destruct (j_poisoned j) eqn:Hpo; [injection H as <- <- <-; by left|].
  destruct (below_floor _ _); [injection H as <- <- <-; by left|].
  assert (∀ m : JM CommitError (), poisons m → m j w = (Err e, j', w') →
    (∃ error durable, e = CE_Io error durable) ∧ false = false ∧ j_poisoned j' = true ∧
    ∀ b' w'', Journal_commit b' j' w'' = (Err CE_Poisoned, j', w'')) as Hpoi.
  { intros m Hm Hr. destruct (Hm _ _ _ _ _ Hr) as [? Hp]. split_and!; auto. }
  assert ((match b_meta b with
           | Some meta => if META_MAX <? len meta then jm_err (CE_MetaTooLarge (len meta))
                          else jm_ret tt
           | None => jm_ret tt
           end j w = (Ok tt, j, w)) ∨
          ∃ l, (match b_meta b with
           | Some meta => if META_MAX <? len meta then jm_err (CE_MetaTooLarge (len meta))
                          else jm_ret tt
           | None => jm_ret tt
           end j w = (Err (CE_MetaTooLarge l), j, w))) as [Hm|[l Hm]].
  { destruct (b_meta b) as [meta|]; [|by left]. destruct (META_MAX <? len meta); [right|by left].
    by eexists. }
  2:{ unfold jm_bind in H. rewrite Hm in H. injection H as <- <- <-. by left. }
  unfold jm_bind at 1 in H. rewrite Hm in H.
  destruct (negb _); [injection H as <- <- <-; by left|].
  destruct (bool_decide _).
  - destruct (meta_changes j b); [|done]. right. revert H. apply Hpoi.
    unfold write_meta_only. repeat (apply poisons_bind; intros);
      eauto using poisons_after_commit with poisons.
    all: repeat match goal with p : (_ * _)%type |- _ => destruct p end; eauto with poisons.
  - apply commit_writes_error in H as H'. destruct H' as [(-> & -> & ->)|[He Hp]]; [by left|].
    right. split_and!; auto.
Qed.
End WithCrc.
