(* ===== verification/CommitLog.v ===== *)
(** * What a commit writes is a log recovery reads back

    [prepare] and [place] lay a batch out; [write_protocol] puts it in a
    segment.  The lemmas follow the bytes: the prepared buffers hold the
    batch's entries and records ([lay_out_spec], [place_spec]); written at a
    segment's cursors they extend its log by one batch ([extend_log]). *)

From stdpp Require Import sorting.
From S2P Require Import Prelude Crc Format Names Storage JournalIo MetaFile Batch Index.
From S2P Require Import Segment Recover Log Journal Commit.
#[local] Open Scope Z_scope.

Section WithCrc.
Context {C : Crc32c} {L : Crc32cLaws C}.

(** The entry header a record stands for. *)
Definition header_of (r : PRecord) (tag : Z) : EntryHeader :=
  mkEntryHeader (r_kind r) (r_flags r) (r_index r) (r_count r) (r_batch r) (r_position r)
    (r_id r) (r_len r) tag.

(** The bytes [l] hold the entry of [r] with this payload, whole. *)
Record entry_in (l : list byte) (tag : Z) (r : PRecord) (payload : list byte) : Prop := {
  ei_parse : EntryHeader_parse (slice l (r_offset r) (r_offset r + RECORD_SIZE)) =
               Some (Some (header_of r tag, r_entry_crc r));
  ei_crc : entry_crc (slice l (r_offset r) (r_offset r + RECORD_SIZE)) payload =
             Some (r_entry_crc r);
  ei_payload : slice l (r_offset r + RECORD_SIZE) (r_offset r + RECORD_SIZE + len payload) =
                 payload;
  ei_len : r_len r = len payload;
}.

(** The record of the write number [index] of a batch. *)
Definition record_for (flags count seq index start sum : Z) (w : Write) : PRecord :=
  let '(kind, position, id, payload) := write_parts w in
  mkPRecord kind flags index count seq position id start (len payload) sum.

Definition payload_of (w : Write) : list byte := (write_parts w).2.

Lemma payload_len_payload w : payload_len w = len (payload_of w).
Proof. by destruct w. Qed.

(** [rs] are the records of [ws], numbered from [index], packed from
    [start] on, with their entries in [l]. *)
Fixpoint laid_out (l : list byte) (flags count seq tag index start : Z) (ws : list Write)
    (rs : list PRecord) : Prop :=
  match ws, rs with
  | [], [] => True
  | w :: ws, r :: rs =>
      (∃ sum, u32 sum ∧ r = record_for flags count seq index start sum w ∧
              entry_in l tag r (payload_of w)) ∧
      laid_out l flags count seq tag (index + 1) (start + footprint (payload_len w)) ws rs
  | _, _ => False
  end.

Lemma entry_in_ext l l' tag r payload :
  0 ≤ r_offset r → entry_in l tag r payload →
  (∀ x y, r_offset r ≤ x → y ≤ r_offset r + footprint (r_len r) → slice l' x y = slice l x y) →
  entry_in l' tag r payload.
Proof.
  intros Ho [Hp Hc Hl Hn] Heq.
  pose proof (len_nonneg payload). pose proof (footprint_bounds (r_len r) ltac:(lia)).
  split; try done; rewrite Heq; done || (unfold RECORD_SIZE in *; lia).
Qed.

Lemma laid_out_ext l l' flags count seq tag index start ws rs :
  0 ≤ start →
  (∀ x y, start ≤ x → y ≤ start + packed ws → slice l' x y = slice l x y) →
  laid_out l flags count seq tag index start ws rs →
  laid_out l' flags count seq tag index start ws rs.
Proof.
  revert index start rs. induction ws as [|w ws IH]; intros index start [|r rs] Hst Heq H;
    cbn in *; try done.
  destruct H as [(sum & Hs & Hr & He) H]. fold (packed ws) in Heq.
  pose proof (footprint_pos _ (payload_len_nonneg w)). pose proof (packed_nonneg ws).
  assert (r_offset r = start ∧ r_len r = payload_len w) as [Ho Hl].
  { rewrite Hr, payload_len_payload. unfold record_for, payload_of.
    by destruct (write_parts w) as [[[? ?] ?] ?]. }
  split.
  - exists sum. split; [done|]. split; [done|]. eapply entry_in_ext; [lia|exact He|].
    rewrite Ho, Hl. intros. apply Heq; lia.
  - apply IH; [lia| |done]. intros. apply Heq; lia.
Qed.

Lemma laid_out_length l flags count seq tag index start ws rs :
  laid_out l flags count seq tag index start ws rs → length rs = length ws.
Proof.
  revert index start rs. induction ws as [|w ws IH]; intros index start [|r rs] H;
    cbn in *; try done. f_equal. destruct H as [_ H]. by eapply IH.
Qed.

(** The header of a write is well typed. *)
Lemma write_header_wf flags count seq tag index w :
  wf_write w → u8 flags → u16 count → 0 ≤ index < count → u64 seq → u32 tag →
  u32 (payload_len w) →
  let '(kind, position, id, payload) := write_parts w in
  wf_entry_header (mkEntryHeader kind flags index count seq position id (len payload) tag).
Proof.
  intros Hw Hf Hc Hi Hs Ht Hl.
  destruct w as [p id payload|st e]; cbn in *; unfold wf_entry_header, wf_id, in_u in *; cbn.
  - destruct Hw. repeat split; done || lia.
  - destruct Hw. rewrite len_clear_id. repeat split; done || lia.
Qed.

(** One encoded entry, in place in a longer buffer. *)
Lemma encode_entry_in entries start h payload tag :
  wf_entry_header h → eh_len h = len payload → eh_tag h = tag → 0 ≤ start →
  start + RECORD_SIZE + len payload ≤ len entries →
  ∃ sum tail entries', u32 sum ∧
    EntryHeader_encode h payload (slice entries start (len entries)) = Some (sum, tail) ∧
    copy_from_slice entries start tail = Some entries' ∧ len entries' = len entries ∧
    (∀ x y, 0 ≤ x → y ≤ start → slice entries' x y = slice entries x y) ∧
    (∀ x y, start + RECORD_SIZE + len payload ≤ x → y ≤ len entries →
       slice entries' x y = slice entries x y) ∧
    entry_in entries' tag (mkPRecord (eh_kind h) (eh_flags h) (eh_index h) (eh_count h)
      (eh_batch h) (eh_position h) (eh_id h) start (eh_len h) sum) payload.
Proof.
  intros Hwf Hlen Htag Hst Hfit. pose proof (len_nonneg payload).
  set (tail0 := slice entries start (len entries)).
  assert (len tail0 = len entries - start) as Ht0
    by (apply len_slice; unfold RECORD_SIZE in *; lia).
  destruct (EntryHeader_encode_spec h payload tail0 Hwf Hlen)
    as (sum & tail & He & Hlt & Hu & Hp & Hc & Hpl & Hrest); [lia|].
  destruct (copy_from_slice_written entries start tail) as (entries' & Hcp & W1 & W2 & W3);
    [lia|lia|].
  assert (∀ x y, 0 ≤ x → y ≤ len tail → slice entries' (start + x) (start + y) = slice tail x y)
    as Hin.
  { intros x y Hx Hy. rewrite <- W2, slice_slice by lia. done. }
  exists sum, tail, entries'. split_and!; try done.
  - intros x y Hx Hy. apply W3; [done|lia].
  - intros x y Hx Hy. unfold RECORD_SIZE in *.
    replace x with (start + (x - start)) by lia. replace y with (start + (y - start)) by lia.
    rewrite Hin, Hrest by (unfold RECORD_SIZE; lia). unfold tail0.
    rewrite slice_slice by lia. done.
  - assert (slice entries' start (start + RECORD_SIZE) = slice tail 0 RECORD_SIZE) as Eh.
    { rewrite <- (Z.add_0_r start) at 1. apply Hin; unfold RECORD_SIZE in *; lia. }
    split; cbn.
    + rewrite Eh, EntryHeader_parse_prefix, Hp by (unfold RECORD_SIZE in *; lia).
      unfold header_of. cbn. rewrite <- Htag. by destruct h.
    + rewrite Eh, <- Hc. apply entry_crc_ext; rewrite ?len_slice; unfold RECORD_SIZE in *; try lia.
      by rewrite slice_slice by lia.
    + rewrite <- Z.add_assoc, Hin by (unfold RECORD_SIZE in *; lia). done.
    + done.
Qed.

(** The encoding loop of [prepare]. *)
Lemma lay_out_spec flags count seq tag index ws entries start decoded :
  Forall wf_write ws → Forall (fun w => u32 (payload_len w)) ws →
  u8 flags → u16 count → u64 seq → u32 tag → 0 ≤ index → index + len ws ≤ count →
  0 ≤ start → start + packed ws ≤ len entries → len entries ≤ 2 ^ 32 - 1 →
  ∃ entries' rs, lay_out flags count seq tag index ws entries start decoded =
      Ok (entries', start + packed ws, decoded ++ rs) ∧
    len entries' = len entries ∧ laid_out entries' flags count seq tag index start ws rs ∧
    (∀ x y, 0 ≤ x → y ≤ start → slice entries' x y = slice entries x y).
Proof.
  intros Hwf Hlens Hf Hc Hs Ht. revert index entries start decoded.
  induction ws as [|w ws IH]; intros index entries start decoded Hi Hn Hst Hfit Hmax;
    cbn [lay_out].
  { exists entries, []. rewrite app_nil_r. cbn. rewrite Z.add_0_r. done. }
  apply Forall_cons_iff in Hwf as [Hw Hwf]. apply Forall_cons_iff in Hlens as [Hl Hlens].
  rewrite len_cons in Hn. cbn [packed foldr] in Hfit. fold (packed ws) in Hfit.
  pose proof (len_nonneg ws). pose proof (packed_nonneg ws).
  pose proof (footprint_bounds _ (payload_len_nonneg w)) as Hfb.
  pose proof (write_header_wf flags count seq tag index w Hw Hf Hc ltac:(lia) Hs Ht Hl) as Hh.
  pose proof (payload_len_payload w) as Hpl. unfold payload_of in Hpl.
  destruct (write_parts w) as [[[kind position] id] payload] eqn:Hparts. cbn in Hpl.
  rewrite Hpl in *. unfold in_u in Hl. rewrite (proj2 (Z.ltb_ge _ _)) by lia.
  pose proof (len_nonneg payload).
  destruct (encode_entry_in entries start _ payload tag Hh eq_refl eq_refl Hst)
    as (sum & tail & entries1 & Hsum & He & Hcp & Hl1 & Hlow & Hhigh & Hin); [lia|].
  rewrite slice_checked_ok by (unfold RECORD_SIZE in *; lia). cbn [expect res_bind].
  rewrite He. cbn [expect res_bind]. rewrite Hcp. cbn [expect res_bind].
  rewrite (proj2 (Z.ltb_ge _ start)) by (unfold RECORD_SIZE in *; lia).
  destruct (IH Hwf Hlens (index + 1) entries1 (start + footprint (len payload))
    (decoded ++ [mkPRecord kind flags index count seq position id start (len payload) sum]))
    as (entries' & rs & Hrun & Hl2 & Hlaid & Hkeep); try (unfold RECORD_SIZE in *; lia).
  eexists entries', (_ :: rs). rewrite Hrun. split.
  { cbn [packed foldr]. fold (packed ws). rewrite Hpl, <- app_assoc. do 2 f_equal. f_equal. lia. }
  split; [lia|]. split.
  - cbn [laid_out]. rewrite Hpl. split; [|done]. exists sum. split; [done|].
    unfold record_for, payload_of. rewrite Hparts. split; [done|].
    eapply entry_in_ext; [cbn; lia|exact Hin|]. cbn. intros x y Hx Hy.
    apply Hkeep; lia.
  - intros x y Hx Hy. rewrite Hkeep by (unfold RECORD_SIZE in *; lia). apply Hlow; lia.
Qed.

Lemma flags_of_u8 d : u8 (flags_of d).
Proof. destruct d; unfold in_u, flags_of, FLAG_ORDERED; lia. Qed.

(** What [prepare] leaves. *)
Record prepared_ok (j : Journal) (ws : list Write) (p : Prepared) : Prop := {
  pp_seq : p_seq p = next_seq (j_last_batch j) (j_generation j);
  pp_entries : len (p_entries p) = align_up (packed ws) BLOCK;
  pp_records : p_records p = zeros (blocks_for (len ws) * BLOCK);
  pp_laid : laid_out (p_entries p) (flags_of (c_durability (j_config j))) (len ws) (p_seq p)
              (j_tag j) 0 0 ws (p_decoded p);
}.

(** A batch [commit] accepted is prepared: none of [prepare]'s assertions
    and conversions fails. *)
Lemma prepare_spec j b :
  let g := c_geometry (j_config j) in
  let seq := next_seq (j_last_batch j) (j_generation j) in
  wf_geometry g → Geometry_is_valid g = true → Batch_fits b g = true →
  Forall wf_write (b_writes b) → u32 (j_tag j) → u64 seq → j_last_batch j < seq →
  ∃ p, prepare j b = Ok p ∧ prepared_ok j (b_writes b) p.
Proof.
  intros g seq Hg Hv Hfits Hw Ht Hs Hlt. apply Batch_fits_iff in Hfits as [Hc Hl Hr He].
  unfold prepare. fold seq. rewrite (proj2 (Z.ltb_lt _ _)) by done. cbn [negb].
  unfold MAX_BATCH_RECORDS in Hc. rewrite (proj2 (Z.ltb_ge _ _)) by lia.
  assert (sum_footprints 0 (map payload_len (b_writes b)) = Some (packed (b_writes b))) as ->.
  { apply sum_footprints_Some. rewrite foldr_map_payload. split; [|done].
    rewrite Forall_map. eapply Forall_impl; [exact Hl|]. cbn. unfold in_u. lia. }
  assert (entry_blocks g * BLOCK ≤ 2 ^ 32 - 1) as Hmax.
  { unfold Geometry_is_valid in Hv. rewrite !andb_true_iff, !Z.leb_le in Hv.
    destruct Hg as (? & ? & ?). unfold total_blocks, BLOCK, in_u in *. lia. }
  pose proof (packed_nonneg (b_writes b)) as Hp0.
  pose proof (align_up_ge (packed (b_writes b)) BLOCK ltac:(done)) as Hage.
  assert (align_up (packed (b_writes b)) BLOCK ≤ entry_blocks g * BLOCK) as Hale
    by by apply align_up_le_iff.
  assert (len (block_buf (align_up (packed (b_writes b)) BLOCK)) =
          align_up (packed (b_writes b)) BLOCK) as Hbuf by (apply len_repeatZ; lia).
  pose proof (len_nonneg (b_writes b)).
  destruct (lay_out_spec (flags_of (c_durability (j_config j))) (len (b_writes b)) seq (j_tag j)
    0 (b_writes b) (block_buf (align_up (packed (b_writes b)) BLOCK)) 0 [])
    as (entries & rs & Hrun & Hle & Hlaid & _); try done; try (unfold in_u; lia).
  { apply flags_of_u8. }
  rewrite Hrun. cbn [res_bind app]. rewrite Z.add_0_l, Z.eqb_refl. cbn [negb].
  assert (len rs = len (b_writes b)) as Hlr.
  { unfold len. by rewrite (laid_out_length _ _ _ _ _ _ _ _ _ Hlaid). }
  rewrite Hlr. fold g. rewrite (proj2 (Z.leb_le (blocks_for _) _)) by by apply blocks_for_le_iff.
  rewrite (proj2 (Z.leb_le (len entries) _)) by lia. cbn [negb].
  eexists. split; [done|]. split; cbn; done || lia.
Qed.

(** ** Placing a batch *)

Definition relocate (at_ : Z) (r : PRecord) : PRecord :=
  mkPRecord (r_kind r) (r_flags r) (r_index r) (r_count r) (r_batch r) (r_position r) (r_id r)
    (at_ + r_offset r) (r_len r) (r_entry_crc r).

Lemma place_records_encode ea slot decoded records :
  Forall (fun r => ea + r_offset r ≤ 2 ^ 32 - 1) decoded →
  place_records ea slot decoded records =
    (let* out := encode_records (map (relocate ea) decoded) slot records in
     Some (map (relocate ea) decoded, out)).
Proof.
  revert slot records. induction decoded as [|r decoded IH]; intros slot records Ho; [done|].
  apply Forall_cons_iff in Ho as [Hr Ho]. cbn [place_records encode_records map].
  rewrite (proj2 (Z.ltb_ge _ _)) by lia. fold (relocate ea r).
  destruct (slice_checked _ _ _); [|done]. cbn [mbind option_bind].
  destruct (PRecord_encode _ _); [|done]. cbn [mbind option_bind].
  destruct (copy_from_slice _ _ _); [|done]. cbn [mbind option_bind].
  rewrite IH by done. by destruct (encode_records _ _ _).
Qed.

(** The records of a laid out batch: well typed once placed, in order. *)
Lemma laid_out_fields l flags count seq tag index start ws rs i r :
  laid_out l flags count seq tag index start ws rs → rs !! i = Some r →
  ∃ w sum, ws !! i = Some w ∧ u32 sum ∧
    r = record_for flags count seq (index + Z.of_nat i) (start + packed (take i ws)) sum w ∧
    entry_in l tag r (payload_of w).
Proof.
  revert index start rs i. induction ws as [|w ws IH]; intros index start [|r0 rs] i H Hi;
    cbn in *; try done.
  destruct H as [(sum & Hs & Hr & He) H]. destruct i as [|i]; cbn in Hi.
  - injection Hi as <-. exists w, sum. cbn. rewrite !Z.add_0_r. done.
  - destruct (IH _ _ _ _ H Hi) as (w' & sum' & Hw & Hs' & Hr' & He').
    exists w', sum'. split_and!; try done. rewrite Hr'. f_equal; [lia|].
    cbn [firstn packed foldr]. unfold packed. lia.
Qed.

Lemma record_for_wf flags count seq index start sum w ea :
  wf_write w → u8 flags → u16 count → 0 ≤ index < count → u64 seq → u32 (payload_len w) →
  u32 sum → u32 (ea + start) →
  wf_record (relocate ea (record_for flags count seq index start sum w)) ∧
  r_kind (record_for flags count seq index start sum w) ≠ Kind_Void.
Proof.
  intros Hw Hf Hc Hi Hs Hl Hsum Ho. unfold record_for.
  destruct w as [p id payload|st e]; cbn in *; (split; [|done]);
    unfold wf_record, wf_id, in_u in *; cbn; destruct Hw; rewrite ?len_clear_id;
    repeat split; done || lia.
Qed.

Lemma packed_take i ws : 0 ≤ packed (take i ws) ≤ packed ws.
Proof.
  split; [apply packed_nonneg|]. rewrite <- (take_drop i ws) at 2. rewrite packed_app.
  pose proof (packed_nonneg (drop i ws)). lia.
Qed.

Lemma packed_take_lt i ws w :
  ws !! i = Some w → packed (take i ws) + footprint (payload_len w) ≤ packed ws.
Proof.
  intros Hi. rewrite <- (take_drop_middle ws i w Hi) at 2. rewrite packed_app. cbn.
  pose proof (packed_nonneg (drop (S i) ws)). unfold packed in *. lia.
Qed.

(** What [place] leaves: the records in their slots. *)
Record placed_ok (ws : list Write) (p q : Prepared) (pa ea : Z) : Prop := {
  pl_seq : p_seq q = p_seq p;
  pl_entries : p_entries q = p_entries p;
  pl_decoded : p_decoded q = map (relocate ea) (p_decoded p);
  pl_at : p_persist_at q = pa ∧ p_entry_at q = ea;
  pl_len : len (p_records q) = blocks_for (len ws) * BLOCK;
  pl_records : records_at (p_records q) 0 (p_decoded q);
  pl_wf : Forall (fun r => wf_record r ∧ r_kind r ≠ Kind_Void) (p_decoded q);
}.

Lemma place_spec j ws p pa ea :
  prepared_ok j ws p → Forall wf_write ws → Forall (fun w => u32 (payload_len w)) ws →
  len ws ≤ MAX_BATCH_RECORDS → u64 (p_seq p) →
  pa mod BLOCK = 0 → ea mod BLOCK = 0 → 0 ≤ ea → ea + packed ws ≤ 2 ^ 32 - 1 →
  ∃ q, place p pa ea = Some q ∧ placed_ok ws p q pa ea.
Proof.
  intros [Hseq Hle Hrec Hlaid] Hw Hlens Hc Hs Hpa Hea He0 Hmax.
  assert (Forall (fun r => wf_record (relocate ea r) ∧ r_kind r ≠ Kind_Void) (p_decoded p)) as Hwf.
  { apply Forall_lookup. intros i r Hi.
    destruct (laid_out_fields _ _ _ _ _ _ _ _ _ _ _ Hlaid Hi) as (w & sum & Hwi & Hsum & -> & _).
    assert (Z.of_nat i < len ws) by (apply lookup_lt_Some in Hwi; unfold len; lia).
    pose proof (packed_take i ws).
    apply record_for_wf; try done.
    - by eapply (proj1 (Forall_lookup _ _) Hw).
    - apply flags_of_u8.
    - unfold in_u, MAX_BATCH_RECORDS in *. lia.
    - lia.
    - by eapply (proj1 (Forall_lookup _ _) Hlens).
    - unfold in_u. lia. }
  assert (len (p_decoded p) = len ws) as Hld.
  { unfold len. by rewrite (laid_out_length _ _ _ _ _ _ _ _ _ Hlaid). }
  pose proof (len_nonneg ws). pose proof (blocks_for_spec (len ws) ltac:(lia)) as Hbf.
  assert (0 ≤ blocks_for (len ws)) by (unfold BLOCK, RECORD_SIZE in *; lia).
  assert (len (p_records p) = blocks_for (len ws) * BLOCK) as Hlr.
  { rewrite Hrec, len_repeatZ; unfold BLOCK; lia. }
  unfold place. rewrite Hpa, Hea. cbn [Z.eqb andb].
  rewrite place_records_encode.
  2:{ eapply Forall_impl; [exact Hwf|]. intros r [(_ & _ & _ & _ & _ & _ & Hoff & _) _].
      unfold in_u in Hoff. cbn in Hoff. lia. }
  destruct (encode_records_spec (map (relocate ea) (p_decoded p)) 0 (p_records p))
    as (out & Henc & Hlo & Hat & _ & _).
  { apply Forall_map. eapply Forall_impl; [exact Hwf|]. by intros r [? _]. }
  { done. }
  { unfold len in *. rewrite length_map. unfold BLOCK, RECORD_SIZE in *. lia. }
  rewrite Henc. cbn [mbind option_bind]. eexists. split; [done|].
  split; cbn; try done; [lia|]. apply Forall_map. exact Hwf.
Qed.

(** ** Reading through unchanged bytes *)

(** A record decodes the same where its 64 bytes are the same. *)
Lemma decode_slot_ext log log' j :
  0 ≤ j → (j + 1) * RECORD_SIZE ≤ len log → len log' = len log →
  slice log' (j * RECORD_SIZE) ((j + 1) * RECORD_SIZE) =
    slice log (j * RECORD_SIZE) ((j + 1) * RECORD_SIZE) →
  PRecord_decode (slice log' (j * RECORD_SIZE) (len log')) =
  PRecord_decode (slice log (j * RECORD_SIZE) (len log)).
Proof.
  intros Hj Hl Hll E.
  assert (∀ k, len k = len log → PRecord_decode (slice k (j * RECORD_SIZE) (len k)) =
    PRecord_decode (slice k (j * RECORD_SIZE) ((j + 1) * RECORD_SIZE))) as H.
  { intros k Hk. rewrite <- (PRecord_decode_prefix (slice k _ (len k)) RECORD_SIZE).
    - rewrite slice_slice by (unfold RECORD_SIZE in *; lia). do 2 f_equal; unfold RECORD_SIZE; lia.
    - rewrite len_slice; unfold RECORD_SIZE in *; lia. }
  rewrite !H by done. by rewrite E.
Qed.

Lemma slot_ext log log' stale first j :
  0 ≤ j → (j + 1) * RECORD_SIZE ≤ len log → len log' = len log →
  slice log' (j * RECORD_SIZE) ((j + 1) * RECORD_SIZE) =
    slice log (j * RECORD_SIZE) ((j + 1) * RECORD_SIZE) →
  slot log' stale first j = slot log stale first j.
Proof.
  intros Hj Hl Hll E. unfold slot.
  rewrite !slice_checked_ok by (unfold RECORD_SIZE in *; lia). cbn [mbind option_bind].
  by rewrite (decode_slot_ext log log' j).
Qed.

(** An entry reads the same where its bytes are the same. *)
Lemma entry_at_ext g l l' off tag :
  (∀ x y, off ≤ x → slice l' x y = slice l x y) → entry_at g l' off tag = entry_at g l off tag.
Proof.
  intros H. unfold entry_at. rewrite (H off) by lia.
  destruct (_ || _); [done|]. destruct (EntryHeader_parse _) as [[[h stored]|]|]; try done.
  destruct (_ || _); [done|]. by rewrite (H (off + RECORD_SIZE)) by (unfold RECORD_SIZE; lia).
Qed.

Lemma entry_at_keep g l l' off tag h stored payload e :
  entry_at g l off tag = Some (h, stored, payload) → off + footprint (eh_len h) ≤ e →
  (∀ x y, off ≤ x → y ≤ e → slice l' x y = slice l x y) →
  entry_at g l' off tag = Some (h, stored, payload).
Proof.
  unfold entry_at. intros H He Hkeep.
  destruct (_ || _); [done|].
  destruct (EntryHeader_parse (slice l _ _)) as [[[h' stored']|]|] eqn:Hp; try done.
  assert (h' = h) as ->.
  { destruct (_ || _); [done|]. destruct (entry_crc _ _); [|done].
    destruct (_ =? stored'); [|done]. by injection H. }
  assert (0 ≤ eh_len h) as Hl0.
  { destruct (EntryHeader_parse_wf _ _ _ Hp) as ((_ & _ & _ & _ & _ & _ & Hl & _) & _).
    unfold in_u in Hl. lia. }
  pose proof (footprint_bounds _ Hl0). unfold RECORD_SIZE in *.
  rewrite (Hkeep off) by lia. rewrite Hp.
  destruct (_ || _); [done|]. rewrite (Hkeep (off + 64)) by lia. done.
Qed.

(** ** Where the log ends *)

Lemma entries_end_ge cur rs : packed_at cur rs → cur ≤ entries_end cur rs.
Proof.
  revert cur. induction rs as [|r rs IH]; intros cur Hp; cbn; [lia|].
  destruct Hp as (_ & Hl & Hp). pose proof (footprint_bounds _ Hl).
  specialize (IH _ Hp). unfold RECORD_SIZE in *. lia.
Qed.

Lemma packed_at_bounds cur rs r :
  packed_at cur rs → r ∈ rs →
  cur ≤ r_offset r ∧ r_offset r + footprint (r_len r) ≤ entries_end cur rs.
Proof.
  revert cur. induction rs as [|r0 rs IH]; intros cur Hp Hin; [set_solver|].
  destruct Hp as (Ho & Hl & Hp). cbn. pose proof (footprint_bounds _ Hl).
  pose proof (entries_end_ge _ _ Hp).
  apply elem_of_cons in Hin as [-> | Hin].
  - lia.
  - destruct (IH _ Hp Hin). unfold RECORD_SIZE in *. lia.
Qed.

Lemma log_end_ge s l log tag stale last at_ cursor bs :
  log_at s l log tag stale last at_ cursor bs →
  at_ ≤ (log_end at_ cursor bs).1 ∧ cursor ≤ (log_end at_ cursor bs).2.
Proof.
  revert last at_ cursor. induction bs as [|b bs IH]; intros last at_ cursor H; cbn; [lia|].
  destruct H as [[Hc _ _ _ _ _ Hp _] H]. destruct (IH _ _ _ H) as [H1 H2].
  pose proof (slots_after_gt at_ (len (lb_records b)) ltac:(lia)).
  pose proof (align_up_ge (entries_end cursor (lb_records b)) BLOCK ltac:(done)).
  pose proof (entries_end_ge _ _ Hp). lia.
Qed.

Lemma log_end_app at_ cursor bs b :
  log_end at_ cursor (bs ++ [b]) =
  (slots_after (log_end at_ cursor bs).1 (len (lb_records b)),
   align_up (entries_end (log_end at_ cursor bs).2 (lb_records b)) BLOCK).
Proof. revert at_ cursor. induction bs as [|c bs IH]; intros; [done|]. cbn. apply IH. Qed.

Lemma last_seq_cons last b bs : last_seq last (b :: bs) = last_seq (lb_seq b) bs.
Proof. unfold last_seq. rewrite last_cons. by destruct (list_basics.list.last bs). Qed.

(** The placed records are packed, and end where the batch's bytes do. *)
Lemma laid_out_packed l flags count seq tag index start ws rs ea :
  laid_out l flags count seq tag index start ws rs →
  packed_at (ea + start) (map (relocate ea) rs) ∧
  entries_end (ea + start) (map (relocate ea) rs) = ea + start + packed ws.
Proof.
  revert index start rs. induction ws as [|w ws IH]; intros index start [|r rs] H;
    cbn in *; try done; [lia|].
  destruct H as [(sum & Hs & Hr & [_ _ _ Hl]) H].
  assert (r_offset r = start) as Ho.
  { rewrite Hr. unfold record_for. by destruct (write_parts w) as [[[? ?] ?] ?]. }
  rewrite Ho, Hl, <- payload_len_payload. destruct (IH _ _ _ H) as [Hp He].
  rewrite <- Z.add_assoc. split.
  - split; [lia|]. split; [apply payload_len_nonneg|]. done.
  - rewrite He. unfold packed. lia.
Qed.

(** ** Extending a log *)

(** [l'] is [l] with a batch's records and entries written in place. *)
Record batch_written (l l' : list byte) (pa ea : Z) (recs ents : list byte) : Prop := {
  bw_len : len l' = len l;
  bw_records : slice l' pa (pa + len recs) = recs;
  bw_entries : slice l' ea (ea + len ents) = ents;
  bw_keep x y : 0 ≤ x → y ≤ pa ∨ pa + len recs ≤ x → y ≤ ea ∨ ea + len ents ≤ x →
    slice l' x y = slice l x y;
}.

Lemma log_at_blank s l log tag stale last at_ cursor bs :
  log_at s l log tag stale last at_ cursor bs →
  blank_at s l log tag stale (last_seq last bs) (log_end at_ cursor bs).1
    (log_end at_ cursor bs).2.
Proof.
  revert last at_ cursor. induction bs as [|b bs IH]; intros last at_ cursor H; [done|].
  destruct H as [_ H]. rewrite last_seq_cons. by apply IH.
Qed.

(** A log that keeps its slots and gets one more batch. *)
Lemma log_at_snoc s l l' log log' tag stale last at_ cursor bs b :
  0 ≤ at_ → len log' = len log →
  (∀ j, at_ ≤ j < (log_end at_ cursor bs).1 →
    slice log' (j * RECORD_SIZE) ((j + 1) * RECORD_SIZE) =
    slice log (j * RECORD_SIZE) ((j + 1) * RECORD_SIZE)) →
  log_at s l log tag stale last at_ cursor bs →
  lbatch_ok s log' stale (last_seq last bs) (log_end at_ cursor bs).1
    (log_end at_ cursor bs).2 b →
  blank_at s l' log' tag stale (lb_seq b)
    (slots_after (log_end at_ cursor bs).1 (len (lb_records b)))
    (align_up (entries_end (log_end at_ cursor bs).2 (lb_records b)) BLOCK) →
  log_at s l' log' tag stale last at_ cursor (bs ++ [b]).
Proof.
  intros Ha Hl. revert last at_ cursor Ha. induction bs as [|c bs IH];
    intros last at_ cursor Ha Hkeep Hlog Hb Hbl; [by split|].
  destruct Hlog as [Hc Hlog]. rewrite last_seq_cons in Hb. cbn [log_end] in *.
  pose proof Hc as [Hcnt Hsl Haf Hfi Hst Hrec Hp Hfd].
  pose proof (slots_after_gt at_ (len (lb_records c)) ltac:(lia)) as Hgt.
  destruct (log_end_ge _ _ _ _ _ _ _ _ _ Hlog) as [Hge _].
  split.
  - split; try done; [by rewrite Hl|]. intros i r Hi.
    rewrite <- (Hrec i r Hi). apply lookup_lt_Some in Hi.
    assert (Z.of_nat i < len (lb_records c)) by (unfold len; lia).
    pose proof (Z.mul_div_le (len log) RECORD_SIZE ltac:(done)).
    apply decode_slot_ext; [lia|unfold RECORD_SIZE in *; lia|done|]. apply Hkeep. lia.
  - apply IH; try done; [lia|]. intros j Hj. apply Hkeep. lia.
Qed.

Lemma slice_persist_log g l x y :
  0 ≤ x → y ≤ persist_blocks g * BLOCK →
  slice (persist_log g l) x y = slice l (PERSIST_START + x) (PERSIST_START + y).
Proof.
  intros. unfold persist_log. apply slice_slice; try done. unfold persist_end. lia.
Qed.

(** The facts about a placed batch and a segment that extending needs. *)
Record batch_fits_at (s : Segment) (l : list byte) (ws : list Write) (q : Prepared)
    (at_ cursor : Z) : Prop := {
  fa_geo : wf_geometry (s_geometry s) ∧ Geometry_is_valid (s_geometry s) = true;
  fa_len : len l = entry_end (s_geometry s);
  fa_at : 0 ≤ at_ ∧ p_persist_at q = PERSIST_START + at_ * RECORD_SIZE;
  fa_persist : p_persist_at q + len (p_records q) ≤ persist_end (s_geometry s);
  fa_cursor : p_entry_at q = cursor ∧ entry_start (s_geometry s) ≤ cursor ∧
              cursor mod BLOCK = 0;
  fa_entry : cursor + len (p_entries q) ≤ entry_end (s_geometry s);
  fa_ws : 0 < len ws ≤ MAX_BATCH_RECORDS;
}.

Lemma batch_fits_slots s l ws p q at_ cursor :
  batch_fits_at s l ws q at_ cursor → placed_ok ws p q (p_persist_at q) (p_entry_at q) →
  slots_after at_ (len ws) * RECORD_SIZE ≤ persist_blocks (s_geometry s) * BLOCK ∧
  PERSIST_START + slots_after at_ (len ws) * RECORD_SIZE = p_persist_at q + len (p_records q).
Proof.
  intros [_ _ [Ha Hpa] Hp _ _ _] [_ _ _ _ Hl _ _]. unfold slots_after.
  rewrite RECORDS_PER_BLOCK_eq. unfold persist_end in Hp. unfold RECORD_SIZE, BLOCK in *. lia.
Qed.

(** The new batch, in its slots and with its fields. *)
Lemma placed_lbatch s l l' ws j p q stale last at_ cursor :
  batch_fits_at s l ws q at_ cursor → prepared_ok j ws p →
  placed_ok ws p q (p_persist_at q) (p_entry_at q) →
  batch_written l l' (p_persist_at q) (p_entry_at q) (p_records q) (p_entries q) →
  last < p_seq q → s_first_batch s ≤ p_seq q → is_stale stale (p_seq q) = false →
  lbatch_ok s (persist_log (s_geometry s) l') stale last at_ cursor
    (mkLBatch (p_seq q) (p_decoded q)).
Proof.
  intros Hfa Hpp Hpl Hbw Hlast Hfirst Hstale. pose proof Hfa as [[Hg Hv] Hlen [Ha Hpa] Hpe [Hec _] He Hws].
  destruct (batch_fits_slots _ _ _ _ _ _ _ Hfa Hpl) as [Hs1 Hs2].
  destruct Hpp as [_ _ _ Hlaid]. pose proof Hpl as [Hseq Hent Hdec [_ _] Hlr Hrec Hwf].
  assert (len (p_decoded q) = len ws) as Hld.
  { rewrite Hdec. unfold len. rewrite length_map.
    by rewrite (laid_out_length _ _ _ _ _ _ _ _ _ Hlaid). }
  destruct (geometry_regions _ Hg Hv) as ([Hp0 Hp1] & Hent0 & _).
  assert (len (persist_log (s_geometry s) l') = persist_blocks (s_geometry s) * BLOCK) as Hll.
  { unfold persist_log. rewrite len_slice; [unfold persist_end; lia| |].
    - unfold PERSIST_START, BLOCK in *. lia.
    - rewrite (bw_len _ _ _ _ _ _ Hbw), Hlen. lia. }
  pose proof (slots_after_gt at_ (len ws) ltac:(lia)) as Hgt.
  assert (at_ + len ws ≤ persist_blocks (s_geometry s) * BLOCK / RECORD_SIZE) as Hslots.
  { apply Z.div_le_lower_bound; [done|]. unfold RECORD_SIZE in *. lia. }
  split; cbn [lb_seq lb_records]; rewrite ?Hld, ?Hll; try done.
  - intros i r Hi. rewrite Hll. rewrite <- (Hrec i r Hi).
    assert (Z.of_nat i < len ws) as Hilt.
    { apply lookup_lt_Some in Hi. rewrite <- Hld. unfold len. lia. }
    rewrite Z.add_0_l.
    rewrite <- (PRecord_decode_prefix (slice (persist_log _ _) _ _) RECORD_SIZE).
    2:{ rewrite len_slice; [|unfold RECORD_SIZE in *; lia|lia]. unfold RECORD_SIZE in *. lia. }
    rewrite <- (PRecord_decode_prefix (slice (p_records q) _ _) RECORD_SIZE).
    2:{ rewrite len_slice; unfold RECORD_SIZE, BLOCK in *; lia. }
    rewrite !slice_slice by (unfold RECORD_SIZE, BLOCK in *; lia).
    rewrite slice_persist_log by (unfold RECORD_SIZE, BLOCK in *; lia).
    rewrite <- (bw_records _ _ _ _ _ _ Hbw) at 1.
    rewrite slice_slice by (unfold PERSIST_START, RECORD_SIZE, BLOCK in *; lia).
    rewrite Hpa. do 2 f_equal; unfold RECORD_SIZE; lia.
  - rewrite <- Hec, Hdec. rewrite <- (Z.add_0_r (p_entry_at q)) at 1.
    by apply (laid_out_packed _ _ _ _ _ _ _ _ _ (p_entry_at q)) in Hlaid as [? _].
  - intros i r Hi. rewrite Hdec, list_lookup_fmap in Hi.
    destruct (p_decoded p !! i) as [r0|] eqn:Hr0; [|done]. injection Hi as <-.
    destruct (laid_out_fields _ _ _ _ _ _ _ _ _ _ _ Hlaid Hr0) as (w & sum & _ & _ & -> & _).
    rewrite Hseq. unfold record_for. destruct w; cbn; split_and!; done || lia.
Qed.

(** Nothing behind the new batch: those bytes did not change. *)
Lemma written_blank s l l' ws j p q tag stale last at_ cursor :
  batch_fits_at s l ws q at_ cursor → prepared_ok j ws p →
  placed_ok ws p q (p_persist_at q) (p_entry_at q) →
  batch_written l l' (p_persist_at q) (p_entry_at q) (p_records q) (p_entries q) →
  last < p_seq q →
  blank_at s l (persist_log (s_geometry s) l) tag stale last at_ cursor →
  blank_at s l' (persist_log (s_geometry s) l') tag stale (p_seq q)
    (slots_after at_ (len ws)) (cursor + len (p_entries q)).
Proof.
  intros Hfa Hpp Hpl Hbw Hlast [Hbs Hbe].
  pose proof Hfa as [[Hg Hv] Hlen [Ha Hpa] Hpe (Hec & Hc1 & Hc2) He Hws].
  destruct (batch_fits_slots _ _ _ _ _ _ _ Hfa Hpl) as [Hs1 Hs2].
  destruct (geometry_regions _ Hg Hv) as ([Hp0 Hp1] & Hent0 & _).
  assert (∀ k, len k = len l →
    len (persist_log (s_geometry s) k) = persist_blocks (s_geometry s) * BLOCK) as Hll.
  { intros k Hk. unfold persist_log. rewrite len_slice; [unfold persist_end; lia| |lia].
    unfold PERSIST_START, BLOCK in *. lia. }
  pose proof (bw_len _ _ _ _ _ _ Hbw) as Hl'. pose proof (len_nonneg (p_records q)).
  pose proof (slots_after_gt at_ (len ws) ltac:(lia)) as Hgt.
  split.
  - intros jj r Hj. rewrite Hll in Hj by done.
    pose proof (Z.mul_div_le (persist_blocks (s_geometry s) * BLOCK) RECORD_SIZE ltac:(done)).
    rewrite (slot_ext (persist_log (s_geometry s) l)).
    + apply Hbs. rewrite Hll by done. lia.
    + lia.
    + rewrite Hll by done. unfold RECORD_SIZE in *. lia.
    + by rewrite !Hll.
    + rewrite !slice_persist_log by (unfold RECORD_SIZE in *; lia).
      apply (bw_keep _ _ _ _ _ _ Hbw); unfold persist_end, PERSIST_START, RECORD_SIZE, BLOCK in *; lia.
  - intros k h stored payload Hk Hent Hi Hlt Hfi.
    rewrite (entry_at_ext _ l) in Hent.
    + assert (∃ m, len (p_entries q) = m * BLOCK) as [m Hm].
      { destruct Hpp as [_ Hle _ _]. rewrite (pl_entries _ _ _ _ _ Hpl), Hle.
        exists (align_up (packed ws) BLOCK / BLOCK). rewrite Z.mul_comm.
        apply Z.div_exact; [done|]. by apply align_up_mod. }
      pose proof (len_nonneg (p_entries q)).
      apply (Hbe (m + k) h stored payload); try done; try (unfold BLOCK in *; lia).
      rewrite <- Hent. f_equal. lia.
    + intros x y Hx. pose proof (len_nonneg (p_entries q)).
      apply (bw_keep _ _ _ _ _ _ Hbw); unfold persist_end, PERSIST_START, BLOCK in *; lia.
Qed.

(** ** Entries stay in place *)

Lemma log_at_entries s l log tag stale last at_ cursor bs :
  log_at s l log tag stale last at_ cursor bs →
  Forall (fun b => Forall (fun r => cursor ≤ r_offset r ∧
    r_offset r + footprint (r_len r) ≤ (log_end at_ cursor bs).2) (lb_records b)) bs.
Proof.
  revert last at_ cursor. induction bs as [|b bs IH]; intros last at_ cursor H; [constructor|].
  destruct H as [[_ _ _ _ _ _ Hp _] H]. cbn [log_end].
  destruct (log_end_ge _ _ _ _ _ _ _ _ _ H) as [_ Hge].
  pose proof (align_up_ge (entries_end cursor (lb_records b)) BLOCK ltac:(done)).
  pose proof (entries_end_ge _ _ Hp).
  constructor.
  - apply Forall_forall. intros r Hr. destruct (packed_at_bounds _ _ _ Hp Hr). lia.
  - eapply Forall_impl; [by eapply IH|]. cbn. intros c Hc. eapply Forall_impl; [exact Hc|].
    cbn. lia.
Qed.

Lemma entry_matches_len r h stored : entry_matches r h stored = true → eh_len h = r_len r.
Proof. unfold entry_matches. rewrite !andb_true_iff. intros [[_ H] _]. by apply Z.eqb_eq. Qed.

Lemma entry_intact_keep g l l' tag r e :
  entry_intact g l tag r → r_offset r + footprint (r_len r) ≤ e →
  (∀ x y, r_offset r ≤ x → y ≤ e → slice l' x y = slice l x y) → entry_intact g l' tag r.
Proof.
  intros (h & stored & payload & He & Hm) Hle Hkeep. exists h, stored, payload.
  split; [|done]. eapply entry_at_keep; [exact He| |exact Hkeep].
  by rewrite (entry_matches_len _ _ _ Hm).
Qed.

(** An entry in place is the one its record names. *)
Lemma entry_in_intact g l tag r payload :
  entry_in l tag r payload → entry_start g ≤ r_offset r →
  r_offset r + footprint (r_len r) ≤ entry_end g → entry_intact g l tag r.
Proof.
  intros [Hp Hc Hpl Hl] Hlo Hhi.
  exists (header_of r tag), (r_entry_crc r), payload. unfold entry_at.
  pose proof (len_nonneg payload). pose proof (footprint_bounds (r_len r) ltac:(lia)).
  rewrite (proj2 (Z.ltb_ge _ _)) by lia. rewrite (proj2 (Z.ltb_ge _ _)) by lia. cbn [orb].
  rewrite Hp. cbn [eh_tag eh_len header_of]. rewrite Z.eqb_refl. cbn [negb orb].
  rewrite (proj2 (Z.ltb_ge _ _)) by lia. rewrite Hl, Hpl, Hc, Z.eqb_refl.
  split; [done|]. unfold entry_matches. cbn.
  rewrite !bool_decide_eq_true_2, !Z.eqb_refl by done. done.
Qed.

(** The new entries, at their place in the segment. *)
Lemma placed_entry_in s l l' ws j p q at_ cursor i r :
  batch_fits_at s l ws q at_ cursor → prepared_ok j ws p →
  placed_ok ws p q (p_persist_at q) (p_entry_at q) →
  batch_written l l' (p_persist_at q) (p_entry_at q) (p_records q) (p_entries q) →
  p_decoded q !! i = Some r →
  ∃ w sum, ws !! i = Some w ∧ entry_in l' (j_tag j) r (payload_of w) ∧
    r = relocate (p_entry_at q) (record_for (flags_of (c_durability (j_config j))) (len ws)
          (p_seq p) (Z.of_nat i) (packed (take i ws)) sum w) ∧
    entry_start (s_geometry s) ≤ r_offset r ∧
    r_offset r + footprint (r_len r) ≤ entry_end (s_geometry s).
Proof.
  intros Hfa Hpp Hpl Hbw Hi. pose proof Hfa as [[Hg Hv] Hlen _ _ (Hec & Hc1 & _) He _].
  destruct Hpp as [_ Hle _ Hlaid]. rewrite (pl_decoded _ _ _ _ _ Hpl) in Hi.
  destruct (geometry_regions _ Hg Hv) as ([Hp0 Hp1] & _).
  pose proof (pl_entries _ _ _ _ _ Hpl) as Hpe.
  pose proof (align_up_ge (packed ws) BLOCK ltac:(done)) as Hage.
  rewrite list_lookup_fmap in Hi.
  destruct (p_decoded p !! i) as [r0|] eqn:Hr0; [|done]. injection Hi as <-.
  destruct (laid_out_fields _ _ _ _ _ _ _ _ _ _ _ Hlaid Hr0)
    as (w & sum & Hw & Hsum & Hr & Hin).
  pose proof (packed_take i ws). pose proof (packed_take_lt i ws w Hw).
  assert (r_offset r0 = packed (take i ws) ∧ r_len r0 = payload_len w) as [Ho Hl].
  { rewrite Hr, payload_len_payload. unfold record_for, payload_of.
    by destruct (write_parts w) as [[[? ?] ?] ?]. }
  pose proof (payload_len_nonneg w). pose proof (footprint_bounds (payload_len w) ltac:(lia)).
  assert (∀ x y, 0 ≤ x → y ≤ len (p_entries q) →
    slice l' (p_entry_at q + x) (p_entry_at q + y) = slice (p_entries p) x y) as Hsl.
  { intros x y Hx Hy. rewrite <- Hpe.
    transitivity (slice (slice l' (p_entry_at q) (p_entry_at q + len (p_entries q))) x y).
    - rewrite slice_slice; [done| |done|lia]. unfold PERSIST_START, BLOCK in *. lia.
    - by rewrite (bw_entries _ _ _ _ _ _ Hbw). }
  rewrite Hpe in Hsl, He. exists w, sum. split; [done|]. split; [|split_and!].
  - destruct Hin as [Hpa Hcr Hpay Hln]. rewrite payload_len_payload in *.
    split; cbn; [..|done].
    + rewrite <- Z.add_assoc, Hsl by (unfold RECORD_SIZE in *; lia). done.
    + rewrite <- Z.add_assoc, Hsl by (unfold RECORD_SIZE in *; lia). done.
    + rewrite <- !Z.add_assoc, Hsl by (unfold RECORD_SIZE in *; lia). by rewrite !Z.add_assoc.
  - by rewrite Hr.
  - cbn. lia.
  - cbn. rewrite Hl. lia.
Qed.

Lemma placed_intact s l l' ws j p q at_ cursor :
  batch_fits_at s l ws q at_ cursor → prepared_ok j ws p →
  placed_ok ws p q (p_persist_at q) (p_entry_at q) →
  batch_written l l' (p_persist_at q) (p_entry_at q) (p_records q) (p_entries q) →
  Forall (entry_intact (s_geometry s) l' (j_tag j)) (p_decoded q).
Proof.
  intros Hfa Hpp Hpl Hbw. apply Forall_lookup. intros i r Hi.
  destruct (placed_entry_in _ _ _ _ _ _ _ _ _ _ _ Hfa Hpp Hpl Hbw Hi)
    as (w & sum & _ & Hin & _ & Hlo & Hhi).
  by eapply entry_in_intact.
Qed.

(** A batch written at a segment's cursors extends its log by exactly that
    batch, and every entry of the log is in place. *)
Lemma extend_log s l l' ws j p q stale prev bs :
  let e := log_end 0 (entry_start (s_geometry s)) bs in
  batch_fits_at s l ws q e.1 e.2 → prepared_ok j ws p →
  placed_ok ws p q (p_persist_at q) (p_entry_at q) →
  batch_written l l' (p_persist_at q) (p_entry_at q) (p_records q) (p_entries q) →
  last_seq prev bs < p_seq q → s_first_batch s ≤ p_seq q → is_stale stale (p_seq q) = false →
  segment_log s l (j_tag j) stale prev bs → log_intact (s_geometry s) l (j_tag j) bs →
  segment_log s l' (j_tag j) stale prev (bs ++ [mkLBatch (p_seq q) (p_decoded q)]) ∧
  log_intact (s_geometry s) l' (j_tag j) (bs ++ [mkLBatch (p_seq q) (p_decoded q)]) ∧
  log_end 0 (entry_start (s_geometry s)) (bs ++ [mkLBatch (p_seq q) (p_decoded q)]) =
    (slots_after e.1 (len ws), e.2 + len (p_entries q)).
Proof.
  intros e Hfa Hpp Hpl Hbw Hlast Hfirst Hstale Hlog Hin.
  pose proof Hfa as [[Hg Hv] Hlen [Ha Hpa] Hpe (Hec & Hc1 & Hc2) He Hws].
  destruct (geometry_regions _ Hg Hv) as ([Hp0 Hp1] & Hent0 & _).
  assert (len (p_decoded q) = len ws) as Hld.
  { destruct Hpp as [_ _ _ Hlaid]. rewrite (pl_decoded _ _ _ _ _ Hpl). unfold len.
    rewrite length_map. by rewrite (laid_out_length _ _ _ _ _ _ _ _ _ Hlaid). }
  assert (align_up (entries_end e.2 (p_decoded q)) BLOCK = e.2 + len (p_entries q)) as Hend.
  { pose proof Hpp as [_ Hle _ Hlaid]. rewrite (pl_decoded _ _ _ _ _ Hpl), <- Hec.
    rewrite <- (Z.add_0_r (p_entry_at q)) at 1.
    apply (laid_out_packed _ _ _ _ _ _ _ _ _ (p_entry_at q)) in Hlaid as [_ ->].
    rewrite Z.add_0_r, align_up_add by (done || by rewrite Hec).
    rewrite (pl_entries _ _ _ _ _ Hpl), Hle. lia. }
  pose proof (placed_lbatch _ _ _ _ _ _ _ stale _ _ _ Hfa Hpp Hpl Hbw Hlast Hfirst Hstale) as Hb.
  pose proof (log_at_blank _ _ _ _ _ _ _ _ _ Hlog) as Hbl. fold e in Hbl.
  pose proof (written_blank _ _ _ _ _ _ _ _ _ _ _ _ Hfa Hpp Hpl Hbw Hlast Hbl) as Hbl'.
  pose proof (len_nonneg (p_records q)). pose proof (len_nonneg (p_entries q)).
  destruct (log_end_ge _ _ _ _ _ _ _ _ _ Hlog) as [_ Hge]. fold e in Hge.
  split_and!.
  - unfold segment_log.
    eapply log_at_snoc; [done| | |exact Hlog|exact Hb|].
    all: fold e; cbn [lb_seq lb_records]; rewrite ?Hld, ?Hend; try done.
    + unfold persist_log. rewrite !len_slice; try done; rewrite ?(bw_len _ _ _ _ _ _ Hbw);
        unfold PERSIST_START, BLOCK in *; lia.
    + intros k Hk.
      rewrite !slice_persist_log;
        try (unfold persist_end, PERSIST_START, RECORD_SIZE, BLOCK in *; lia).
      apply (bw_keep _ _ _ _ _ _ Hbw);
        unfold persist_end, PERSIST_START, RECORD_SIZE, BLOCK in *; lia.
  - apply Forall_app. split; [|apply Forall_singleton; by eapply placed_intact].
    pose proof (log_at_entries _ _ _ _ _ _ _ _ _ Hlog) as Hbelow. fold e in Hbelow.
    unfold log_intact in *. rewrite !Forall_forall in *. intros b Hb'. specialize (Hbelow b Hb').
    specialize (Hin b Hb'). rewrite !Forall_forall in *. intros r Hr.
    destruct (Hbelow r Hr) as [Hr1 Hr2]. eapply entry_intact_keep; [by apply Hin|exact Hr2|].
    intros x y Hx Hy. apply (bw_keep _ _ _ _ _ _ Hbw);
      unfold persist_end, PERSIST_START, RECORD_SIZE, BLOCK in *; lia.
  - rewrite log_end_app. fold e. cbn [lb_records]. by rewrite Hld, Hend.
Qed.

(** A batch that fits is prepared and placed without a failure: none of
    the assertions, conversions and slicings of [prepare] and [place] fails,
    every write gets one record, in its slot, of the batch's number and size,
    and the entry the record names holds the write's payload with a matching
    header and checksum. *)
Theorem accepted_batch_laid_out j b pa ea :
  let g := c_geometry (j_config j) in
  let seq := next_seq (j_last_batch j) (j_generation j) in
  wf_geometry g → Geometry_is_valid g = true → Batch_fits b g = true →
  Forall wf_write (b_writes b) → u32 (j_tag j) → u64 seq → j_last_batch j < seq →
  pa mod BLOCK = 0 → ea mod BLOCK = 0 → 0 ≤ ea → ea + packed (b_writes b) ≤ entry_end g →
  ∃ p q, prepare j b = Ok p ∧ place p pa ea = Some q ∧ p_seq q = seq ∧
    length (p_decoded q) = length (b_writes b) ∧ records_at (p_records q) 0 (p_decoded q) ∧
    ∀ i r, p_decoded q !! i = Some r → ∃ w, b_writes b !! i = Some w ∧
      r_index r = Z.of_nat i ∧ r_count r = len (b_writes b) ∧ r_batch r = seq ∧ ea ≤ r_offset r ∧
      entry_in (p_entries q) (j_tag j) (relocate (- ea) r) (payload_of w).
Proof.
  intros g seq Hg Hv Hfit Hw Ht Hs Hlt Hpa Hea He0 Hroom.
  destruct (prepare_spec j b Hg Hv Hfit Hw Ht Hs Hlt) as (p & Hp & Hpp).
  destruct (geometry_regions _ Hg Hv) as (_ & _ & _ & Hu & _).
  apply Batch_fits_iff in Hfit as [Hc Hlens _ _].
  pose proof Hpp as [Hseq _ _ Hlaid].
  destruct (place_spec j (b_writes b) p pa ea Hpp Hw Hlens Hc) as (q & Hq & Hpl); try done.
  { by rewrite Hseq. }
  { unfold in_u in Hu. lia. }
  exists p, q. split_and!; [done|done|by rewrite (pl_seq _ _ _ _ _ Hpl)| |apply Hpl|].
  { rewrite (pl_decoded _ _ _ _ _ Hpl), length_map. by eapply laid_out_length. }
  intros i r Hi. rewrite (pl_decoded _ _ _ _ _ Hpl), list_lookup_fmap_Some in Hi.
  destruct Hi as (r0 & -> & Hi).
  destruct (laid_out_fields _ _ _ _ _ _ _ _ _ _ _ Hlaid Hi) as (w & sum & Hwi & _ & Hr0 & Hin).
  exists w. rewrite (pl_entries _ _ _ _ _ Hpl).
  assert (relocate (- ea) (relocate ea r0) = r0) as ->.
  { destruct r0. unfold relocate. cbn. f_equal. lia. }
  assert (0 ≤ r_offset r0) by (rewrite Hr0; unfold record_for; destruct w; cbn; apply packed_nonneg).
  split_and!; [done|..|cbn; lia|done];
    rewrite Hr0; unfold record_for; destruct w; cbn; try lia; by rewrite Hseq.
Qed.
End WithCrc.
