(* ===== verification/Protocol.v ===== *)
(** * The commit protocol on the storage world

    What [write_protocol] guarantees, whatever calls fail or fall short: when
    it returns, the batch is on the device and the file is clean; it never
    panics; the metainfo file is not touched before the batch is durable; an
    error reported as [Durable_No] left the records' blocks alone.  The
    retries of [sync_batch] are where fsyncgate is handled: a failed sync
    loses the dirty pages ([f_lost]) or drops them from the cache, and writing the batch again before the
    next sync is what makes that sync's success mean something. *)

From stdpp Require Import sorting.
From S2P Require Import Prelude Crc Format Names Storage JournalIo MetaFile Batch Index.
From S2P Require Import Segment Recover Log Journal Commit CommitLog.
#[local] Open Scope Z_scope.

(** Nothing is pending: the device holds what readers see. *)
Record clean_file (f : File) : Prop := {
  cf_dur : f_dur f = f_vis f;
  cf_dirty i : f_dirty f i = false;
  cf_lost i : f_lost f i = false;
}.

Lemma clean_equiv f g : f ≡ g → clean_file f → clean_file g.
Proof.
  intros [Hv Hd Hy Hs _ _] [C1 C2 C3]. split; [congruence| |]; intros; rewrite <- ?Hy, <- ?Hs; auto.
Qed.

(** A power loss keeps a clean file as it was. *)
Lemma clean_crash f g :
  clean_file f → crash_file f g → f_vis g = f_vis f ∧ f_bad g = f_bad f ∧ f_align g = f_align f.
Proof.
  intros [Hd Hy Hs] [Cv Cl Ck _ Cb Ca]. split_and!; try done. rewrite Cv, <- Hd.
  apply list_eq. intros i. by apply Ck.
Qed.

Lemma clean_write_durable f a k : clean_file f → clean_file (file_wr true f a k).
Proof. intros [Hd Hy Hs]. split; cbn; intros; rewrite ?Hd, ?Hy, ?Hs; done. Qed.

(** Writing bytes that are already there changes nothing readers see. *)
Lemma write_bytes_same l a k :
  0 ≤ a → a + len k ≤ len l → slice l a (a + len k) = k → write_bytes l a k = l.
Proof.
  intros Ha Hl Hs. pose proof (len_nonneg k). apply list_eq. intros i.
  destruct (decide (0 < len k)) as [Hk|].
  - rewrite lookup_write_bytes by done. case_decide as Hd.
    + rewrite <- Hs at 1. rewrite lookup_slice by done.
      rewrite decide_True by lia. f_equal. lia.
    + case_decide; [done|]. rewrite decide_False by lia. symmetry. apply lookup_ge_None.
      unfold len in *. lia.
  - destruct k as [|b k]; [done|]. rewrite len_cons in *. pose proof (len_nonneg k). lia.
Qed.

Lemma slice_write_disjoint l a k x y :
  0 ≤ a → 0 ≤ x → a + len k ≤ len l → y ≤ a ∨ a + len k ≤ x →
  slice (write_bytes l a k) x y = slice l x y.
Proof.
  intros Ha Hx Hl Hd. destruct (write_bytes_inside l a k Ha Hl) as [_ Hk].
  apply list_eq. intros i. rewrite !lookup_slice by done. case_decide; [|done].
  apply Hk. lia.
Qed.

(** *** Unchanged outside a set of bytes *)

(** [torn P f g]: [g] is [f] but for the bytes [P], which hold anything. *)
Record torn (P : Z → bool) (f g : File) : Prop := {
  to_vis_len : len (f_vis g) = len (f_vis f);
  to_dur_len : len (f_dur g) = len (f_dur f);
  to_vis i : P (Z.of_nat i) = false → f_vis g !! i = f_vis f !! i;
  to_dur i : P (Z.of_nat i) = false → f_dur g !! i = f_dur f !! i;
  to_dirty i : P i = false → f_dirty g i = f_dirty f i;
  to_lost i : P i = false → f_lost g i = f_lost f i;
  to_bad : f_bad g = f_bad f;
  to_align : f_align g = f_align f;
}.

Lemma torn_refl P f : torn P f f.
Proof. by split. Qed.

Lemma torn_trans P f g h : torn P f g → torn P g h → torn P f h.
Proof.
  intros [A1 A2 A3 A4 A5 A6 A7 A8] [B1 B2 B3 B4 B5 B6 B7 B8]. split; intros; try congruence.
  - by rewrite B3, A3.
  - by rewrite B4, A4.
  - by rewrite B5, A5.
  - by rewrite B6, A6.
Qed.

Lemma torn_touched P a b f g :
  (∀ i, within a b i = true → P i = true) → touched a b f g → torn P f g.
Proof.
  intros HP [T1 T2 T3 T4 T5 T6 T7 T8].
  assert (∀ i, P i = false → ¬ (a ≤ i < b)) as Hn.
  { intros i Hi Hr. rewrite HP in Hi; [done|]. unfold within. lia. }
  split; intros; auto.
Qed.

(** A failed sync, whatever it did with the cache, touches dirty bytes only. *)
Lemma torn_sync_error revert P f :
  (∀ i, f_dirty f i = true → P i = true) → torn P f (file_sync_error revert f).
Proof.
  intros HP.
  assert (∀ i, P i = false → f_dirty f i = false) as Hn.
  { intros i Hi. destruct (f_dirty f i) eqn:E; [by rewrite HP in Hi|done]. }
  destruct revert; split; cbn; try done; try (intros i Hi; by rewrite Hn, ?orb_false_r).
  - apply len_revert.
  - intros i Hi. apply lookup_revert. by apply Hn.
Qed.

(** Durable bytes elsewhere stay durable. *)
Lemma durable_at_torn P f g a k :
  0 ≤ a → (∀ i, a ≤ i < a + len k → P i = false) → torn P f g →
  durable_at f a k → durable_at g a k.
Proof.
  intros Ha HP [_ _ Tv Td Ty Tl _ _] (Hd & Hv & Hc).
  assert (∀ l l' : list byte, (∀ i, P (Z.of_nat i) = false → l' !! i = l !! i) →
    slice l' a (a + len k) = slice l a (a + len k)) as Hs.
  { intros l l' H. apply list_eq. intros i. rewrite !lookup_slice by done.
    case_decide; [|done]. apply H, HP. lia. }
  split_and!; [by rewrite (Hs (f_dur f))|by rewrite (Hs (f_vis f))|].
  intros i Hi. rewrite Ty, Tl by auto. auto.
Qed.

Section WithCrc.
Context {C : Crc32c} {L : Crc32cLaws C}.

Definition seg_write (d : bool) : Segment → Z → list byte → IO ErrorKind () :=
  if d then Segment_write_durable else Segment_write.

Lemma seg_write_spec d s off buf w f :
  w_files w !! bf_file (s_file s) = Some f → journal_file (s_file s) → 0 ≤ off →
  off mod BLOCK = 0 → len buf mod BLOCK = 0 →
  ∃ r fs f' tr, seg_write d s off buf w = (r, with_file w (bf_file (s_file s)) f' fs tr) ∧
    Forall (ev_writes d (bf_file (s_file s)) off (off + len buf)) tr ∧
    match r with
    | Ok _ => f' ≡ file_wr d f off buf
    | Err _ => off + len buf ≤ len (f_vis f) → off + len buf ≤ len (f_dur f) →
               touched off (off + len buf) f f'
    | Panic => False
    end.
Proof.
  intros Hf Hj Ho Hm Hb.
  assert (off / BLOCK * BLOCK = off) as Hq.
  { rewrite Z.mul_comm. symmetry. by apply Z.div_exact. }
  destruct (write_blocks_io_spec d (s_file s) (off / BLOCK) buf w f Hf Hj)
    as (r & fs & f' & tr & Hrun & Htr & Hpost); [by apply Z.div_pos|done|].
  rewrite Hq in *. exists r, fs, f', tr. split.
  - destruct d; cbn [seg_write]; unfold Segment_write, Segment_write_durable; rewrite Hm;
      by erewrite io_bind_ok by reflexivity.
  - split; [done|]. destruct r; [|done..]. by destruct Hpost.
Qed.

(** Where a placed batch goes: two ranges of whole blocks, apart, inside
    the file. *)
Record batch_ranges (f : File) (q : Prepared) : Prop := {
  br_at : 0 ≤ p_persist_at q ∧ 0 ≤ p_entry_at q;
  br_mod : p_persist_at q mod BLOCK = 0 ∧ p_entry_at q mod BLOCK = 0;
  br_len : len (p_records q) mod BLOCK = 0 ∧ len (p_entries q) mod BLOCK = 0;
  br_apart : p_persist_at q + len (p_records q) ≤ p_entry_at q;
  br_inside : p_entry_at q + len (p_entries q) ≤ len (f_vis f);
}.

(** What readers see once the batch is written. *)
Definition vis_after (f : File) (q : Prepared) : list byte :=
  write_bytes (write_bytes (f_vis f) (p_entry_at q) (p_entries q)) (p_persist_at q)
    (p_records q).

Definition in_batch (q : Prepared) (i : Z) : bool :=
  within (p_entry_at q) (p_entry_at q + len (p_entries q)) i ||
  within (p_persist_at q) (p_persist_at q + len (p_records q)) i.

(** The batch is written over the clean file [f0] and may still be dirty,
    but none of it is lost. *)
Record batch_pending (f0 f : File) (q : Prepared) : Prop := {
  bp_vis : f_vis f = vis_after f0 q;
  bp_dirty i : f_dirty f i = true → in_batch q i = true;
  bp_lost i : f_lost f i = false;
  bp_bad : f_bad f = f_bad f0;
  bp_align : f_align f = f_align f0;
}.

(** The batch is on the device, and nothing is pending. *)
Record batch_durable (f0 f : File) (q : Prepared) : Prop := {
  bd_clean : clean_file f;
  bd_vis : f_vis f = vis_after f0 q;
  bd_bad : f_bad f = f_bad f0;
  bd_align : f_align f = f_align f0;
}.

Lemma batch_pending_sync f0 f q : batch_pending f0 f q → batch_durable f0 (file_sync f) q.
Proof.
  intros [Hv Hy Hl Hb Ha]. split; try done. split; try done. cbn.
  apply list_eq. intros i. by apply lookup_flush.
Qed.

Lemma vis_after_facts f q :
  batch_ranges f q →
  len (vis_after f q) = len (f_vis f) ∧
  slice (vis_after f q) (p_entry_at q) (p_entry_at q + len (p_entries q)) = p_entries q ∧
  slice (vis_after f q) (p_persist_at q) (p_persist_at q + len (p_records q)) = p_records q ∧
  ∀ x y, 0 ≤ x → y ≤ p_persist_at q ∨ p_persist_at q + len (p_records q) ≤ x →
    y ≤ p_entry_at q ∨ p_entry_at q + len (p_entries q) ≤ x →
    slice (vis_after f q) x y = slice (f_vis f) x y.
Proof.
  intros [[Hp He] _ _ Hap Hin]. unfold vis_after.
  pose proof (len_nonneg (p_records q)). pose proof (len_nonneg (p_entries q)).
  destruct (write_bytes_inside (f_vis f) (p_entry_at q) (p_entries q) He Hin) as [L1 _].
  destruct (write_bytes_inside (write_bytes (f_vis f) (p_entry_at q) (p_entries q))
    (p_persist_at q) (p_records q) Hp ltac:(lia)) as [L2 _].
  split_and!; [lia| | |].
  - rewrite slice_write_disjoint by lia. by apply slice_write_bytes.
  - by apply slice_write_bytes.
  - intros x y Hx H1 H2. rewrite !slice_write_disjoint by lia. done.
Qed.

(** Writing the batch over any file that differs from the clean one in the
    batch alone, a reverted cache included. *)
Lemma vis_after_torn f0 f q :
  batch_ranges f0 q → torn (in_batch q) f0 f → vis_after f q = vis_after f0 q.
Proof.
  intros Hr Ht. pose proof Hr as [[Hp He] _ _ Hap Hin]. pose proof (to_vis_len _ _ _ Ht) as Hl.
  pose proof (len_nonneg (p_records q)). pose proof (len_nonneg (p_entries q)).
  assert (∀ i, in_batch q (Z.of_nat i) = false → vis_after f q !! i = vis_after f0 q !! i) as Hout.
  { intros i Hi. unfold vis_after.
    assert (∀ l l' a k, l !! i = l' !! i → len l = len l' → 0 ≤ a →
      within a (a + len k) (Z.of_nat i) = false → write_bytes l a k !! i = write_bytes l' a k !! i)
      as Hw.
    { intros l l' a k Hli Hll Ha Hk. pose proof (len_nonneg k).
      destruct (decide (0 < len k)) as [|Hz].
      - rewrite !lookup_write_bytes, Hli, Hll by done. unfold within in Hk.
        by rewrite (decide_False (P := a ≤ _ < _)) by lia.
      - destruct k as [|c k]; [done|]. rewrite len_cons in *. pose proof (len_nonneg k). lia. }
    unfold in_batch in Hi. apply orb_false_iff in Hi as [Hi1 Hi2].
    apply Hw; [apply Hw; [|lia..|done]|..|done|done].
    - apply (to_vis _ _ _ Ht). unfold in_batch. by rewrite Hi1, Hi2.
    - rewrite (proj1 (write_bytes_inside (f_vis f) _ (p_entries q) He ltac:(lia))).
      by rewrite (proj1 (write_bytes_inside (f_vis f0) _ _ He Hin)). }
  assert (batch_ranges f q) as Hr' by (destruct Hr; split; rewrite ?Hl; done).
  destruct (vis_after_facts f0 q Hr) as (L0 & E0 & P0 & _).
  destruct (vis_after_facts f q Hr') as (L1 & E1 & P1 & _).
  assert (∀ a k, 0 ≤ a → slice (vis_after f q) a (a + len k) = k →
    slice (vis_after f0 q) a (a + len k) = k → ∀ i, within a (a + len k) (Z.of_nat i) = true →
    vis_after f q !! i = vis_after f0 q !! i) as Hsl.
  { intros a k Ha Hk1 Hk0 i Hi. unfold within in Hi.
    assert (slice (vis_after f q) a (a + len k) !! (i - Z.to_nat a)%nat =
            slice (vis_after f0 q) a (a + len k) !! (i - Z.to_nat a)%nat) as E by congruence.
    rewrite !lookup_slice, !decide_True in E by lia.
    by replace (Z.to_nat a + (i - Z.to_nat a))%nat with i in E by lia. }
  apply list_eq. intros i. destruct (in_batch q (Z.of_nat i)) eqn:Hi; [|by apply Hout].
  unfold in_batch in Hi. apply orb_true_iff in Hi as [Hi|Hi]; by eapply Hsl in Hi.
Qed.

(** Writing the batch again, after a failed sync: nothing is lost any more. *)
Lemma batch_rewritten f0 f q :
  batch_ranges f0 q → torn (in_batch q) f0 f →
  (∀ i, f_dirty f i = true → in_batch q i = true) →
  (∀ i, f_lost f i = true → in_batch q i = true) →
  batch_pending f0 (file_wr false (file_wr false f (p_entry_at q) (p_entries q))
                      (p_persist_at q) (p_records q)) q.
Proof.
  intros Hr Ht Hy Hl. pose proof Ht as [_ _ _ _ _ _ Hb Ha].
  split; cbn; try done.
  - by apply vis_after_torn.
  - intros i. unfold in_batch in *. specialize (Hy i).
    rewrite !orb_true_iff in *. tauto.
  - intros i. specialize (Hl i). unfold in_batch in Hl.
    destruct (f_lost f i); [|done]. specialize (Hl eq_refl).
    apply orb_true_iff in Hl as [-> | ->]; cbn; [done|]. by rewrite andb_false_r.
Qed.

Lemma within_in_batch q i :
  (within (p_entry_at q) (p_entry_at q + len (p_entries q)) i = true → in_batch q i = true) ∧
  (within (p_persist_at q) (p_persist_at q + len (p_records q)) i = true → in_batch q i = true).
Proof. unfold in_batch. rewrite !orb_true_iff. tauto. Qed.

(** A sized file: the device's bytes span what readers see. *)
Definition sized (f : File) : Prop := len (f_dur f) = len (f_vis f).

(** One of the batch's two writes, over a file already torn in the batch. *)
Lemma batch_write_spec d s q w f0 f (which : bool) :
  let off := if which then p_entry_at q else p_persist_at q in
  let buf := if which then p_entries q else p_records q in
  w_files w !! bf_file (s_file s) = Some f → journal_file (s_file s) → batch_ranges f0 q →
  sized f0 → torn (in_batch q) f0 f →
  ∃ r fs f' tr, seg_write d s off buf w = (r, with_file w (bf_file (s_file s)) f' fs tr) ∧
    torn (in_batch q) f0 f' ∧
    match r with
    | Ok _ => f' ≡ file_wr d f off buf
    | Err _ => True
    | Panic => False
    end.
Proof.
  intros off buf Hf Hj [[Hp He] [Hpm Hem] [Hpl Hel] Hap Hin] Hsz Ht.
  pose proof (to_vis_len _ _ _ Ht) as Lv. pose proof (to_dur_len _ _ _ Ht) as Ld.
  pose proof (len_nonneg (p_records q)). pose proof (len_nonneg (p_entries q)).
  unfold sized in Hsz.
  assert (0 ≤ off ∧ off mod BLOCK = 0 ∧ len buf mod BLOCK = 0 ∧
          off + len buf ≤ len (f_vis f)) as (Ho & Hom & Hbm & Hle)
    by (unfold off, buf; destruct which; repeat split; done || lia).
  destruct (seg_write_spec d s off buf w f Hf Hj Ho Hom Hbm)
    as (r & fs & f' & tr & Hrun & _ & Hpost).
  exists r, fs, f', tr. split; [done|].
  assert (∀ g, touched off (off + len buf) f g → torn (in_batch q) f0 g) as Htt.
  { intros g Hg. eapply torn_trans; [exact Ht|]. eapply torn_touched; [|exact Hg].
    intros i Hi. unfold off, buf in Hi. destruct (within_in_batch q i). destruct which; auto. }
  destruct r as [u|e|]; [| |done].
  - split; [|done]. apply Htt. eapply touched_equiv_r; [|symmetry; exact Hpost].
    apply file_wr_touched; lia.
  - split; [|done]. apply Htt, Hpost; lia.
Qed.

Lemma sync_batch_spec n s q w f0 f :
  w_files w !! bf_file (s_file s) = Some f → journal_file (s_file s) → batch_ranges f0 q →
  sized f0 → torn (in_batch q) f0 f → batch_pending f0 f q →
  ∃ r fs f' tr, sync_batch n s q w = (r, with_file w (bf_file (s_file s)) f' fs tr) ∧
    match r with
    | Ok _ => batch_durable f0 f' q
    | Err _ => torn (in_batch q) f0 f'
    | Panic => False
    end.
Proof.
  intros Hf Hj Hr Hsz. revert w f Hf. induction n as [|n IH]; intros w f Hf Ht Hp;
    cbn [sync_batch]; unfold io_try, Segment_sync;
    destruct (sync_file_spec (bf_file (s_file s)) f w Hf) as (r & fs & f1 & tr & Hrun & Hpost);
    rewrite Hrun; (destruct r as [u|e|]; [| |done]);
    [by eexists (Ok ()), _, _, _; split; [done|]; destruct Hpost as [-> _];
        apply batch_pending_sync| |
     by eexists (Ok ()), _, _, _; split; [done|]; destruct Hpost as [-> _];
        apply batch_pending_sync|];
    destruct Hpost as [[revert ->] ->];
    assert (torn (in_batch q) f0 (file_sync_error revert f)) as Ht1
      by (eapply torn_trans; [exact Ht|apply torn_sync_error, Hp]).
  { eexists (Err e), _, _, _. split; [reflexivity|done]. }
  assert (∀ f2 fs2 tr2, w_files (with_file w (bf_file (s_file s)) f2 fs2 tr2) !!
            bf_file (s_file s) = Some f2) as Hlk by (intros; apply lookup_insert_eq).
  destruct (batch_write_spec false s q _ f0 _ true (Hlk _ fs []) Hj Hr Hsz Ht1)
    as (r2 & fs2 & f2 & tr2 & Hrun2 & Ht2 & Hpost2). cbn [seg_write] in Hrun2.
  destruct r2 as [u2|e2|]; [| |done].
  2:{ eexists (Err e2), _, _, _. rewrite (io_bind_err _ _ _ _ _ Hrun2), with_file_with_file. done. }
  rewrite (io_bind_ok _ _ _ _ _ Hrun2), with_file_with_file.
  destruct (batch_write_spec false s q _ f0 _ false (Hlk _ fs2 ([] ++ tr2)) Hj Hr Hsz Ht2)
    as (r3 & fs3 & f3 & tr3 & Hrun3 & Ht3 & Hpost3). cbn [seg_write] in Hrun3.
  destruct r3 as [u3|e3|]; [| |done].
  2:{ eexists (Err e3), _, _, _. rewrite (io_bind_err _ _ _ _ _ Hrun3), with_file_with_file. done. }
  rewrite (io_bind_ok _ _ _ _ _ Hrun3), with_file_with_file.
  destruct (IH _ f3 (Hlk f3 fs3 (([] ++ tr2) ++ tr3)) Ht3)
    as (r4 & fs4 & f4 & tr4 & Hrun4 & Hpost4).
  - destruct Hp as [Bv By Bl Bb Ba].
    assert (f3 ≡ file_wr false (file_wr false (file_sync_error revert f) (p_entry_at q)
                   (p_entries q)) (p_persist_at q) (p_records q)) as Heq by by rewrite Hpost3, Hpost2.
    assert (batch_pending f0 (file_wr false (file_wr false (file_sync_error revert f) (p_entry_at q)
              (p_entries q)) (p_persist_at q) (p_records q)) q) as [Cv Cy Cl Cb Ca].
    { apply batch_rewritten; try done; [by destruct revert|].
      destruct revert; intros i; cbn; rewrite Bl; cbn; [|apply By].
      intros Hd. apply andb_true_iff in Hd as [Hd _]. by apply By. }
    destruct Heq as [Ev _ Ey El Eb Ea].
    split; [by rewrite Ev| |intros; by rewrite El|by rewrite Eb|by rewrite Ea].
    intros i. rewrite Ey. apply Cy.
  - eexists r4, _, _, _. rewrite Hrun4, with_file_with_file. done.
Qed.

(** ** The batch's part of the protocol *)

Definition write_batch (s : Segment) (q : Prepared) (ordered : bool) :
    IO (ErrorKind * Durable) () :=
  let no := io_map_err (A := ()) (fun e => (e, Durable_No)) in
  let unknown := io_map_err (A := ()) (fun e => (e, Durable_Unknown)) in
  if ordered then
    no (Segment_write_durable s (p_entry_at q) (p_entries q)) ;!
    unknown (Segment_write_durable s (p_persist_at q) (p_records q))
  else
    no (Segment_write s (p_entry_at q) (p_entries q)) ;!
    unknown (Segment_write s (p_persist_at q) (p_records q)) ;!
    unknown (sync_batch (SYNC_ATTEMPTS - 1) s q).

Lemma io_map_err_run {E F A} (f : E → F) (m : IO E A) w r w' :
  m w = (r, w') → io_map_err f m w = (map_err f r, w').
Proof. intros H. unfold io_map_err. by rewrite H. Qed.

(** An error that says the batch is absent left the records alone. *)
Definition entries_only (q : Prepared) (i : Z) : bool :=
  within (p_entry_at q) (p_entry_at q + len (p_entries q)) i.

Lemma batch_written_ordered f0 f1 f2 q :
  clean_file f0 → f1 ≡ file_wr true f0 (p_entry_at q) (p_entries q) →
  f2 ≡ file_wr true f1 (p_persist_at q) (p_records q) → batch_durable f0 f2 q.
Proof.
  intros Hc H1 H2. rewrite H1 in H2.
  destruct H2 as [Ev Ed Ey El Eb Ea] eqn:?. split; [|done..].
  eapply clean_equiv; [symmetry; exact H2|]. by do 2 apply clean_write_durable.
Qed.

Lemma batch_written_batched f0 f1 f2 q :
  clean_file f0 → f1 ≡ file_wr false f0 (p_entry_at q) (p_entries q) →
  f2 ≡ file_wr false f1 (p_persist_at q) (p_records q) → batch_pending f0 f2 q.
Proof.
  intros [Cd Cy Cl] H1 H2. rewrite H1 in H2. destruct H2 as [Ev _ Ey El Eb Ea].
  split; try done.
  - intros i. rewrite Ey. cbn. rewrite Cy, orb_false_r. unfold in_batch.
    rewrite !orb_true_iff. tauto.
  - intros i. rewrite El. cbn. by rewrite Cl.
Qed.

Lemma write_batch_spec s q ordered w f0 :
  w_files w !! bf_file (s_file s) = Some f0 → journal_file (s_file s) → batch_ranges f0 q →
  clean_file f0 →
  ∃ r fs f' tr, write_batch s q ordered w = (r, with_file w (bf_file (s_file s)) f' fs tr) ∧
    match r with
    | Ok _ => batch_durable f0 f' q
    | Err (_, d) => torn (in_batch q) f0 f' ∧
                    (d = Durable_No → torn (entries_only q) f0 f')
    | Panic => False
    end.
Proof.
  intros Hf Hj Hr Hc. assert (sized f0) as Hsz by (unfold sized; by rewrite (cf_dur _ Hc)).
  assert (∀ f2 fs2 tr2, w_files (with_file w (bf_file (s_file s)) f2 fs2 tr2) !!
            bf_file (s_file s) = Some f2) as Hlk by (intros; apply lookup_insert_eq).
  assert (∀ d, ∃ r fs f' tr, seg_write d s (p_entry_at q) (p_entries q) w =
      (r, with_file w (bf_file (s_file s)) f' fs tr) ∧
      torn (entries_only q) f0 f' ∧ torn (in_batch q) f0 f' ∧
      match r with Ok _ => f' ≡ file_wr d f0 (p_entry_at q) (p_entries q)
                 | Err _ => True | Panic => False end) as Hentries.
  { intros d. pose proof Hr as [[_ He] [_ Hem] [_ Hel] _ Hin]. pose proof (len_nonneg (p_entries q)).
    unfold sized in Hsz.
    destruct (seg_write_spec d s (p_entry_at q) (p_entries q) w f0 Hf Hj He Hem Hel)
      as (r & fs & f' & tr & Hrun & _ & Hpost). exists r, fs, f', tr. split; [done|].
    assert (r ≠ Panic → touched (p_entry_at q) (p_entry_at q + len (p_entries q)) f0 f') as Ht.
    { destruct r as [u|e|]; intros; [|apply Hpost; lia|done].
      eapply touched_equiv_r; [|symmetry; exact Hpost]. apply file_wr_touched; lia. }
    destruct r as [u|e|]; [| |done];
      (split; [by eapply torn_touched; [|by apply Ht]|]);
      (split; [|done]); (eapply torn_touched; [|by apply Ht]); intros i; apply within_in_batch. }
  unfold write_batch. destruct ordered.
  - destruct (Hentries true) as (r & fs & f1 & tr & Hrun & Hto & Htb & Hpost).
    cbn [seg_write] in Hrun. destruct r as [u|e|]; [| |done].
    2:{ eexists (Err (e, Durable_No)), _, _, _.
        rewrite (io_bind_err _ _ _ _ _ (io_map_err_run _ _ _ _ _ Hrun)). done. }
    rewrite (io_bind_ok _ _ _ _ _ (io_map_err_run _ _ _ _ _ Hrun)).
    destruct (batch_write_spec true s q _ f0 f1 false (Hlk f1 fs tr) Hj Hr Hsz Htb)
      as (r2 & fs2 & f2 & tr2 & Hrun2 & Ht2 & Hpost2). cbn [seg_write] in Hrun2.
    rewrite (io_map_err_run _ _ _ _ _ Hrun2), with_file_with_file.
    destruct r2 as [u2|e2|]; [| |done]; eexists _, _, _, _; (split; [done|]); cbn.
    + by eapply batch_written_ordered.
    + done.
  - destruct (Hentries false) as (r & fs & f1 & tr & Hrun & Hto & Htb & Hpost).
    cbn [seg_write] in Hrun. destruct r as [u|e|]; [| |done].
    2:{ eexists (Err (e, Durable_No)), _, _, _.
        rewrite (io_bind_err _ _ _ _ _ (io_map_err_run _ _ _ _ _ Hrun)). done. }
    rewrite (io_bind_ok _ _ _ _ _ (io_map_err_run _ _ _ _ _ Hrun)).
    destruct (batch_write_spec false s q _ f0 f1 false (Hlk f1 fs tr) Hj Hr Hsz Htb)
      as (r2 & fs2 & f2 & tr2 & Hrun2 & Ht2 & Hpost2). cbn [seg_write] in Hrun2.
    destruct r2 as [u2|e2|]; [| |done].
    2:{ eexists (Err (e2, Durable_Unknown)), _, _, _.
        rewrite (io_bind_err _ _ _ _ _ (io_map_err_run _ _ _ _ _ Hrun2)), with_file_with_file. done. }
    rewrite (io_bind_ok _ _ _ _ _ (io_map_err_run _ _ _ _ _ Hrun2)), with_file_with_file.
    destruct (sync_batch_spec (SYNC_ATTEMPTS - 1) s q _ f0 f2 (Hlk f2 fs2 (tr ++ tr2)) Hj Hr Hsz Ht2)
      as (r3 & fs3 & f3 & tr3 & Hrun3 & Hpost3); [by eapply batch_written_batched|].
    rewrite (io_map_err_run _ _ _ _ _ Hrun3), with_file_with_file.
    destruct r3 as [u3|e3|]; [| |done]; eexists _, _, _, _; (split; [done|]); cbn; done.
Qed.

Lemma write_protocol_eq s mf q meta ordered w :
  write_protocol s mf q meta ordered w =
  io_bind (write_batch s q ordered) (fun _ =>
    match meta with
    | Some meta => io_map_err (fun e => (e, Durable_Unknown)) (MetaFile_update mf meta)
    | None => io_ret tt
    end) w.
Proof. unfold write_protocol, write_batch. by destruct ordered. Qed.

(** What the metainfo file holds when the protocol ends with [r]. *)
Definition meta_after (old : Meta) (meta : option Meta) (m0 m' : File)
    (r : res (ErrorKind * Durable) ()) : Prop :=
  match meta, r with
  | Some m, Ok _ => holds_copy m' Copy_A m ∧ holds_copy m' Copy_B m
  | Some m, _ => holds_copy m' Copy_B old ∨ holds_copy m' Copy_A m
  | None, _ => m' = m0
  end.

(** The whole protocol: the metainfo file changes only once the batch is
    durable, and then one copy at a time. *)
Lemma write_protocol_spec s mf q meta ordered w f0 m0 old :
  w_files w !! bf_file (s_file s) = Some f0 → journal_file (s_file s) → batch_ranges f0 q →
  clean_file f0 → bf_file mf ≠ bf_file (s_file s) → w_files w !! bf_file mf = Some m0 →
  journal_file mf → meta_sized m0 → holds_copy m0 Copy_B old →
  (∀ m, meta = Some m → wf_meta m) →
  ∃ r w' f' m', write_protocol s mf q meta ordered w = (r, w') ∧
    w_files w' = <[bf_file mf := m']> (<[bf_file (s_file s) := f']> (w_files w)) ∧
    w_names w' = w_names w ∧ w_dur_names w' = w_dur_names w ∧ w_dirs w' = w_dirs w ∧
    meta_sized m' ∧ meta_after old meta m0 m' r ∧
    match r with
    | Ok _ => batch_durable f0 f' q
    | Err (_, d) =>
        (m' = m0 ∧ torn (in_batch q) f0 f' ∧ (d = Durable_No → torn (entries_only q) f0 f')) ∨
        (batch_durable f0 f' q ∧ d = Durable_Unknown)
    | Panic => False
    end.
Proof.
  intros Hf Hj Hr Hc Hne Hm Hjm Hms Hold Hwf. rewrite write_protocol_eq.
  destruct (write_batch_spec s q ordered w f0 Hf Hj Hr Hc) as (r & fs & f' & tr & Hrun & Hpost).
  assert (w_files (with_file w (bf_file (s_file s)) f' fs tr) !! bf_file mf = Some m0) as Hm1.
  { cbn. by rewrite lookup_insert_ne. }
  assert (<[bf_file mf := m0]> (<[bf_file (s_file s) := f']> (w_files w)) =
          <[bf_file (s_file s) := f']> (w_files w)) as Hid by by rewrite insert_id.
  destruct r as [u|[e d]|]; [| |done].
  2:{ rewrite (io_bind_err _ _ _ _ _ Hrun). destruct Hpost as [Ht Hno].
      eexists _, _, f', m0. split; [done|]. cbn. rewrite Hid. split_and!; try done.
      - destruct meta; cbn; [by left|done].
      - by left. }
  rewrite (io_bind_ok _ _ _ _ _ Hrun). destruct meta as [m|].
  - destruct (MetaFile_update_spec mf m0 _ old m Hm1 Hjm Hms (Hwf m eq_refl) Hold)
      as (r2 & fs2 & m' & tr2 & Hrun2 & Hms' & _ & Hpost2).
    rewrite (io_map_err_run _ _ _ _ _ Hrun2).
    destruct r2 as [u2|e2|]; [| |done]; eexists _, _, f', m'; (split; [done|]);
      cbn; split_and!; try done; naive_solver.
  - eexists _, _, f', m0. split; [done|]. cbn. rewrite Hid. done.
Qed.

(** C10: a sync that is retried never vouches for bytes it lost.  A failed sync
    may mark a batch's bytes clean without writing them, so that the next
    sync succeeds over them, or drop them from the cache; because the batch is written again before each
    retry, when [sync_batch] returns, after any number of failures, the file
    is the one the batch was meant to leave, nothing of it is dirty or lost,
    and every file a power loss leaves holds the batch; when it fails, nothing
    outside the batch changed. *)
Theorem sync_retries_rewrite n s q w f0 f :
  w_files w !! bf_file (s_file s) = Some f → journal_file (s_file s) → batch_ranges f0 q →
  sized f0 → torn (in_batch q) f0 f → batch_pending f0 f q →
  ∃ r fs f' tr, sync_batch n s q w = (r, with_file w (bf_file (s_file s)) f' fs tr) ∧
    match r with
    | Ok _ => clean_file f' ∧ ∀ g, crash_file f' g →
        slice (f_vis g) (p_entry_at q) (p_entry_at q + len (p_entries q)) = p_entries q ∧
        slice (f_vis g) (p_persist_at q) (p_persist_at q + len (p_records q)) = p_records q
    | Err _ => torn (in_batch q) f0 f'
    | Panic => False
    end.
Proof.
  intros Hf Hj Hr Hsz Ht Hp.
  destruct (sync_batch_spec n s q w f0 f Hf Hj Hr Hsz Ht Hp) as (r & fs & f' & tr & Hrun & Hpost).
  exists r, fs, f', tr. split; [done|]. destruct r as [u|e|]; [|done..].
  destruct Hpost as [Hc Hv _ _]. split; [done|]. intros g Hcr.
  destruct (clean_crash _ _ Hc Hcr) as (-> & _). rewrite Hv.
  destruct (vis_after_facts f0 q Hr) as (_ & He & Hpe & _). done.
Qed.
End WithCrc.
