(* ===== verification/Durability.v ===== *)
(** * What a commit means for the log

    [segment_inv] ties a segment of a running journal to its file: the file
    is clean, it holds a log, and the segment's cursors are where the log
    ends.  A commit protocol that returns [Ok] keeps it and extends the log
    by the batch ([commit_extends]); a power loss afterwards changes nothing
    ([segment_inv_crash]), so opening finds the batch.  A protocol that
    fails, wherever it failed, leaves every earlier batch readable after a
    power loss ([failed_commit_keeps]). *)

From stdpp Require Import sorting.
From S2P Require Import Prelude Crc Format Names Storage JournalIo MetaFile Batch Index.
From S2P Require Import Segment Recover Log Journal Commit CommitLog Protocol.
#[local] Open Scope Z_scope.

Section WithCrc.
Context {C : Crc32c} {L : Crc32cLaws C}.

Lemma log_end_aligned at_ cursor bs :
  at_ mod RECORDS_PER_BLOCK = 0 → cursor mod BLOCK = 0 →
  (log_end at_ cursor bs).1 mod RECORDS_PER_BLOCK = 0 ∧
  (log_end at_ cursor bs).2 mod BLOCK = 0.
Proof.
  revert at_ cursor. induction bs as [|b bs IH]; intros at_ cursor Ha Hc; [done|].
  cbn [log_end]. apply IH; [|by apply align_up_mod].
  unfold slots_after. by rewrite Z.mod_add.
Qed.

Lemma slot_block_aligned at_ :
  at_ mod RECORDS_PER_BLOCK = 0 → (PERSIST_START + at_ * RECORD_SIZE) mod BLOCK = 0.
Proof.
  intros H. apply Z.div_exact in H; [|done]. rewrite H.
  change RECORDS_PER_BLOCK with 64. unfold PERSIST_START, RECORD_SIZE, BLOCK.
  replace (2 * 4096 + 64 * (at_ / 64) * 64) with ((2 + at_ / 64) * 4096) by lia.
  by apply Z.mod_mul.
Qed.

(** Where the next batch of a segment whose log is [bs] goes. *)
Definition log_cursors (g : Geometry) (bs : list LBatch) : Z * Z :=
  let e := log_end 0 (entry_start g) bs in (PERSIST_START + e.1 * RECORD_SIZE, e.2).

(** A segment a journal writes to: its file is clean and holds [bs]. *)
Record segment_inv (s : Segment) (f : File) (tag : Z) (stale : Stale) (prev : Z)
    (bs : list LBatch) : Prop := {
  si_geo : wf_geometry (s_geometry s) ∧ Geometry_is_valid (s_geometry s) = true;
  si_open : open_file (s_file s) f;
  si_size : len (f_vis f) = total_blocks (s_geometry s) * BLOCK;
  si_clean : clean_file f;
  si_bad : f_bad f = ∅;
  si_log : segment_log s (f_vis f) tag stale prev bs;
  si_intact : log_intact (s_geometry s) (f_vis f) tag bs;
  si_cursors : (s_persist_next s, s_entry_next s) = log_cursors (s_geometry s) bs;
}.

(** Its file in a world without faults is a segment recovery can read. *)
Lemma segment_inv_holds s f w tag stale prev bs :
  segment_inv s f tag stale prev bs → w_files w !! bf_file (s_file s) = Some f →
  w_faults w = [] → segment_holds s w (f_vis f).
Proof.
  intros [Hg Ho Hs _ Hb _ _ _] Hf Hw. split; try done.
  exists f. split_and!; try done. by apply medium_clean.
Qed.

Lemma segment_inv_crash s f g tag stale prev bs :
  segment_inv s f tag stale prev bs → crash_file f g → segment_inv s g tag stale prev bs.
Proof.
  intros [Hg Ho Hs Hc Hb Hl Hi Hcu] Hcr. pose proof Hcr as [Cv _ _ Cc _ _].
  destruct (clean_crash _ _ Hc Hcr) as (Ev & Eb & Ea).
  split; rewrite ?Ev, ?Eb; try done.
  - destruct Ho as [O1 O2 O3 O4]. split; rewrite ?Ea, ?Ev; done.
  - split; [by rewrite <- Cv| |]; apply Cc.
Qed.

Lemma segment_inv_bounds s f tag stale prev bs :
  segment_inv s f tag stale prev bs →
  let e := log_end 0 (entry_start (s_geometry s)) bs in
  0 ≤ e.1 ∧ entry_start (s_geometry s) ≤ e.2 ∧ e.2 mod BLOCK = 0 ∧
  (PERSIST_START + e.1 * RECORD_SIZE) mod BLOCK = 0 ∧
  s_persist_next s = PERSIST_START + e.1 * RECORD_SIZE ∧ s_entry_next s = e.2.
Proof.
  intros [[Hg Hv] _ _ _ _ Hl _ Hcu] e.
  destruct (log_end_ge _ _ _ _ _ _ _ _ _ Hl) as [H1 H2]. fold e in H1, H2.
  destruct (geometry_regions _ Hg Hv) as (_ & _ & _ & _ & _ & Hem & _).
  destruct (log_end_aligned 0 (entry_start (s_geometry s)) bs eq_refl Hem) as [H3 H4].
  fold e in H3, H4. unfold log_cursors in Hcu. fold e in Hcu. injection Hcu as Hp He.
  split_and!; try done. by apply slot_block_aligned.
Qed.

(** Everything about the batch a commit is about to write. *)
Record commit_batch (j : Journal) (s : Segment) (ws : list Write) (p q : Prepared) : Prop := {
  cb_ws : 0 < len ws ≤ MAX_BATCH_RECORDS;
  cb_prepared : prepared_ok j ws p;
  cb_fits : Segment_fits s (len (p_records p) / BLOCK) (len (p_entries p)) = true;
  cb_placed : placed_ok ws p q (s_persist_next s) (s_entry_next s);
}.

Lemma commit_batch_fits j s ws p q f tag stale prev bs :
  segment_inv s f tag stale prev bs → commit_batch j s ws p q →
  let e := log_end 0 (entry_start (s_geometry s)) bs in
  batch_fits_at s (f_vis f) ws q e.1 e.2 ∧ batch_ranges f q.
Proof.
  intros Hinv [Hws Hpp Hfit Hpl] e.
  destruct (segment_inv_bounds _ _ _ _ _ _ Hinv) as (H1 & H2 & H3 & H4 & H5 & H6).
  fold e in H1, H2, H3, H4, H5, H6.
  pose proof Hinv as [[Hg Hv] Ho Hs _ _ _ _ _].
  destruct (geometry_regions _ Hg Hv) as ([Hp0 Hp1] & He0 & Hee & _).
  pose proof Hpl as [_ Hent _ [Hpa Hea] Hlr _ _]. pose proof Hpp as [_ Hle Hrec _].
  unfold Segment_fits in Hfit. apply andb_true_iff in Hfit as [F1 F2].
  apply Z.leb_le in F1, F2.
  pose proof (len_nonneg ws). pose proof (blocks_for_spec (len ws) ltac:(lia)) as Hbf.
  assert (0 ≤ blocks_for (len ws)) by (unfold BLOCK, RECORD_SIZE in *; lia).
  assert (len (p_records p) = blocks_for (len ws) * BLOCK) as Hlp.
  { rewrite Hrec, len_repeatZ; unfold BLOCK; lia. }
  rewrite Hlp, Z.div_mul in F1 by done.
  split; split; rewrite ?Hpa, ?Hea, ?Hlr, ?Hent, ?H5, ?H6, ?Hle; try done.
  all: try (split; done || (unfold persist_end, PERSIST_START, BLOCK, RECORD_SIZE in *; lia)).
  all: try (unfold persist_end, PERSIST_START, BLOCK, RECORD_SIZE in *; lia).
  - split; [by apply Z.mod_mul|]. by apply align_up_mod.
Qed.

Lemma batch_durable_written f f' q :
  batch_ranges f q → batch_durable f f' q →
  batch_written (f_vis f) (f_vis f') (p_persist_at q) (p_entry_at q) (p_records q) (p_entries q).
Proof.
  intros Hr [_ Hv _ _]. destruct (vis_after_facts f q Hr) as (Hl & He & Hp & Hk).
  split; rewrite Hv; done.
Qed.

(** The log of a segment, extended by a batch that became durable. *)
Lemma commit_extends s f f' j ws p q stale prev bs :
  segment_inv s f (j_tag j) stale prev bs → commit_batch j s ws p q →
  batch_durable f f' q →
  last_seq prev bs < p_seq q → s_first_batch s ≤ p_seq q → is_stale stale (p_seq q) = false →
  segment_inv (set_cursors s (p_persist_at q + len (p_records q))
                 (p_entry_at q + len (p_entries q)))
    f' (j_tag j) stale prev (bs ++ [mkLBatch (p_seq q) (p_decoded q)]).
Proof.
  intros Hinv Hcb Hbd Hlast Hfirst Hst.
  destruct (commit_batch_fits _ _ _ _ _ _ _ _ _ _ Hinv Hcb) as [Hfa Hr].
  pose proof (batch_durable_written _ _ _ Hr Hbd) as Hbw.
  destruct Hcb as [_ Hpp _ Hpl]. destruct Hbd as [Hc Hv Hb Ha].
  pose proof (pl_at _ _ _ _ _ Hpl) as [Epa Eea].
  assert (placed_ok ws p q (p_persist_at q) (p_entry_at q)) as Hpl' by by rewrite Epa, Eea.
  pose proof Hinv as [Hg [O1 O2 O3 O4] Hs _ Hbad Hlog Hin _].
  destruct (extend_log _ _ _ _ _ _ _ stale prev bs Hfa Hpp Hpl' Hbw Hlast Hfirst Hst Hlog Hin)
    as (Hlog' & Hin' & Hend).
  split; cbn [s_geometry s_file set_cursors]; try done.
  - split; cbn; try done; [by rewrite Ha|by rewrite Ha|].
    by rewrite (bw_len _ _ _ _ _ _ Hbw).
  - by rewrite (bw_len _ _ _ _ _ _ Hbw).
  - congruence.
  - by apply (segment_log_same s).
  - change (s_geometry (set_cursors s (p_persist_at q + len (p_records q))
      (p_entry_at q + len (p_entries q)))) with (s_geometry s).
    unfold log_cursors. rewrite Hend. cbn.
    destruct (batch_fits_slots _ _ _ _ _ _ _ Hfa Hpl') as [_ ->].
    by destruct Hfa as [_ _ _ _ (-> & _) _ _].
Qed.

(** ** A power loss after a failed commit *)

(** The batches of [bs] are in their slots; nothing is said of what follows. *)
Fixpoint log_prefix (s : Segment) (log : list byte) (stale : Stale) (last at_ cursor : Z)
    (bs : list LBatch) : Prop :=
  match bs with
  | [] => True
  | b :: bs =>
      lbatch_ok s log stale last at_ cursor b ∧
      log_prefix s log stale (lb_seq b) (slots_after at_ (len (lb_records b)))
        (align_up (entries_end cursor (lb_records b)) BLOCK) bs
  end.

Lemma log_at_prefix s l log log' tag stale last at_ cursor bs :
  0 ≤ at_ → len log' = len log →
  (∀ j, at_ ≤ j < (log_end at_ cursor bs).1 →
    slice log' (j * RECORD_SIZE) ((j + 1) * RECORD_SIZE) =
    slice log (j * RECORD_SIZE) ((j + 1) * RECORD_SIZE)) →
  log_at s l log tag stale last at_ cursor bs → log_prefix s log' stale last at_ cursor bs.
Proof.
  intros Ha Hl. revert last at_ cursor Ha. induction bs as [|c bs IH];
    intros last at_ cursor Ha Hkeep Hlog; [done|].
  destruct Hlog as [Hc Hlog]. cbn [log_end] in *.
  pose proof Hc as [Hcnt Hsl Haf Hfi Hst Hrec Hp Hfd].
  pose proof (slots_after_gt at_ (len (lb_records c)) ltac:(lia)) as Hgt.
  destruct (log_end_ge _ _ _ _ _ _ _ _ _ Hlog) as [Hge _].
  split.
  - split; try done; [by rewrite Hl|]. intros i r Hi.
    rewrite <- (Hrec i r Hi). apply lookup_lt_Some in Hi.
    assert (Z.of_nat i < len (lb_records c)) by (unfold len; lia).
    pose proof (Z.mul_div_le (len log) RECORD_SIZE ltac:(done)).
    apply decode_slot_ext; [lia|unfold RECORD_SIZE in *; lia|done|]. apply Hkeep. lia.
  - eapply IH; try done; [lia|]. intros j Hj. apply Hkeep. lia.
Qed.

Lemma vis_after_lookup f q i :
  batch_ranges f q → in_batch q (Z.of_nat i) = false → vis_after f q !! i = f_vis f !! i.
Proof.
  intros [[Hp He] _ _ Hap Hin] Hi. unfold vis_after, in_batch, within in *.
  pose proof (len_nonneg (p_records q)). pose proof (len_nonneg (p_entries q)).
  destruct (write_bytes_inside (f_vis f) (p_entry_at q) (p_entries q) He Hin) as [L1 K1].
  destruct (write_bytes_inside (write_bytes (f_vis f) (p_entry_at q) (p_entries q))
    (p_persist_at q) (p_records q) Hp ltac:(lia)) as [_ K2].
  rewrite K2, K1 by lia. done.
Qed.

(** Outside the batch, a power loss finds the clean file's bytes. *)
Lemma crash_outside_batch f f' g q :
  clean_file f → batch_ranges f q →
  (torn (in_batch q) f f' ∨ batch_durable f f' q) → crash_file f' g →
  len (f_vis g) = len (f_vis f) ∧
  ∀ x y, 0 ≤ x → (∀ i, x ≤ i < y → in_batch q i = false) →
    slice (f_vis g) x y = slice (f_vis f) x y.
Proof.
  intros [Cd Cy Cl] Hr Hcase Hcr.
  assert (len (f_vis g) = len (f_vis f) ∧
    ∀ i, in_batch q (Z.of_nat i) = false → f_vis g !! i = f_vis f !! i) as [Hl Hk].
  { destruct Hcase as [[T1 T2 T3 T4 T5 T6 _ _]|[Hc Hv _ _]].
    - destruct Hcr as [Gv Gl Gk _ _ _]. rewrite Gv. split; [by rewrite Gl, T2, Cd|].
      intros i Hi. rewrite Gk, T4, Cd; [done|done|by rewrite T5|by rewrite T6].
    - destruct (clean_crash _ _ Hc Hcr) as (-> & _). rewrite Hv.
      split; [by destruct (vis_after_facts f q Hr)|]. intros. by apply vis_after_lookup. }
  split; [done|]. intros x y Hx Hin. apply list_eq. intros i. rewrite !lookup_slice by done.
  case_decide; [|done]. apply Hk, Hin. lia.
Qed.

Lemma failed_commit_keeps s f f' g j ws p q stale prev bs :
  segment_inv s f (j_tag j) stale prev bs → commit_batch j s ws p q →
  (torn (in_batch q) f f' ∨ batch_durable f f' q) → crash_file f' g →
  log_prefix s (persist_log (s_geometry s) (f_vis g)) stale prev 0
    (entry_start (s_geometry s)) bs ∧
  log_intact (s_geometry s) (f_vis g) (j_tag j) bs.
Proof.
  intros Hinv Hcb Hcase Hcr.
  destruct (commit_batch_fits _ _ _ _ _ _ _ _ _ _ Hinv Hcb) as [Hfa Hr].
  pose proof Hinv as [[Hg Hv] _ Hs Hc _ Hlog Hin _].
  destruct (crash_outside_batch f f' g q Hc Hr Hcase Hcr) as [Hl Hk].
  destruct (geometry_regions _ Hg Hv) as ([Hp0 Hp1] & He0 & Hee & _).
  pose proof Hfa as [_ Hfl [Ha Hpa] Hpe (Hec & Hc1 & _) He _].
  set (e := log_end 0 (entry_start (s_geometry s)) bs) in *.
  pose proof (len_nonneg (p_records q)). pose proof (len_nonneg (p_entries q)).
  split.
  - eapply log_at_prefix; [done| | |exact Hlog].
    + unfold persist_log. rewrite !len_slice; try done; unfold PERSIST_START, BLOCK in *; lia.
    + fold e. intros k Hkk.
      rewrite !slice_persist_log;
        try (unfold persist_end, PERSIST_START, RECORD_SIZE, BLOCK in *; lia).
      apply Hk; [unfold PERSIST_START, RECORD_SIZE, BLOCK in *; lia|].
      intros i Hi. unfold in_batch, within, persist_end, PERSIST_START, RECORD_SIZE, BLOCK in *. lia.
  - pose proof (log_at_entries _ _ _ _ _ _ _ _ _ Hlog) as Hbelow. fold e in Hbelow.
    unfold log_intact in *. rewrite !Forall_forall in *. intros b Hb. specialize (Hbelow b Hb).
    specialize (Hin b Hb). rewrite !Forall_forall in *. intros r Hrr.
    destruct (Hbelow r Hrr) as [Hr1 Hr2]. eapply entry_intact_keep; [by apply Hin|exact Hr2|].
    intros x y Hx Hy. apply Hk; [unfold PERSIST_START, BLOCK in *; lia|].
    intros i Hi. unfold in_batch, within, persist_end, PERSIST_START, RECORD_SIZE, BLOCK in *. lia.
Qed.

(** ** A fresh segment holds the empty log *)

Lemma PRecord_decode_zeros n : RECORD_SIZE ≤ n → PRecord_decode (zeros n) = Some Slot_Zero.
Proof.
  intros Hn. unfold PRecord_decode. unfold RECORD_SIZE in *.
  rewrite slice_checked_ok by (rewrite ?len_repeatZ; lia). cbn [mbind option_bind].
  rewrite slice_repeatZ by lia. done.
Qed.

Lemma EntryHeader_parse_zeros : EntryHeader_parse (zeros RECORD_SIZE) = Some None.
Proof. by vm_compute. Qed.

(** Zeros behind the headers hold no record and no entry, for any batch
    that may be expected there. *)
Lemma zeros_log s l tag stale prev :
  wf_geometry (s_geometry s) → Geometry_is_valid (s_geometry s) = true →
  len l = entry_end (s_geometry s) →
  slice l PERSIST_START (len l) = zeros (len l - PERSIST_START) →
  segment_log s l tag stale prev [].
Proof.
  intros Hg Hv Hl Hz. destruct (geometry_regions _ Hg Hv) as ([Hp0 Hp1] & He0 & _).
  assert (∀ x y, 0 ≤ x ≤ y → PERSIST_START + y ≤ len l →
    slice l (PERSIST_START + x) (PERSIST_START + y) = zeros (y - x)) as Hzz.
  { intros x y Hx Hy.
    assert (slice (slice l PERSIST_START (len l)) x y = zeros (y - x)) as E
      by (rewrite Hz; apply slice_repeatZ; lia).
    rewrite slice_slice in E; [done|unfold PERSIST_START, BLOCK; lia|lia|lia]. }
  assert (persist_end (s_geometry s) = PERSIST_START + persist_blocks (s_geometry s) * BLOCK)
    as Hpe by done.
  assert (len (persist_log (s_geometry s) l) = persist_blocks (s_geometry s) * BLOCK) as Hll.
  { unfold persist_log. rewrite len_slice; [lia|unfold PERSIST_START, BLOCK in *; lia|lia]. }
  split.
  - intros j r Hj. rewrite Hll in Hj. unfold slot.
    pose proof (Z.mul_div_le (persist_blocks (s_geometry s) * BLOCK) RECORD_SIZE ltac:(done)).
    rewrite slice_checked_ok by (rewrite ?Hll; unfold RECORD_SIZE in *; lia).
    cbn [mbind option_bind]. rewrite Hll, slice_persist_log by (unfold RECORD_SIZE in *; lia).
    rewrite Hzz by (unfold RECORD_SIZE in *; lia).
    rewrite PRecord_decode_zeros by (unfold RECORD_SIZE in *; lia). done.
  - intros k h stored payload Hk He. exfalso. revert He. unfold entry_at.
    set (c := entry_start (s_geometry s) + k * BLOCK).
    assert (entry_start (s_geometry s) ≤ c) by (unfold c, BLOCK; lia).
    destruct (Z.ltb_spec c (entry_start (s_geometry s))); [done|].
    destruct (Z.ltb_spec (entry_end (s_geometry s)) (c + RECORD_SIZE)); [done|]. cbn [orb].
    replace c with (PERSIST_START + (c - PERSIST_START)) at 1 by lia.
    replace (c + RECORD_SIZE) with (PERSIST_START + (c - PERSIST_START + RECORD_SIZE)) by lia.
    rewrite Hzz by (unfold RECORD_SIZE in *; lia).
    replace (c - PERSIST_START + RECORD_SIZE - (c - PERSIST_START)) with RECORD_SIZE by lia.
    by rewrite EntryHeader_parse_zeros.
Qed.

(** ** The index follows the log *)

Lemma batch_ops_laid_out l flags count seq tag index start ws rs first pa ea i0 :
  laid_out l flags count seq tag index start ws rs → Forall wf_write ws →
  batch_ops first pa i0 (map (relocate ea) rs) ws =
  record_ops first pa i0 (map (relocate ea) rs).
Proof.
  revert index start rs i0. induction ws as [|w ws IH]; intros index start [|r rs] i0 H Hw;
    cbn in H; try done.
  destruct H as [(sum & _ & -> & _) H]. apply Forall_cons_iff in Hw as [Hwf Hw].
  cbn [batch_ops record_ops map]. rewrite (IH _ _ _ _ H Hw).
  destruct w as [p id payload|st e]; [done|]. cbn in Hwf. destruct Hwf as [_ He].
  change (r_kind (relocate ea (record_for flags count seq index start sum (Write_Clear st e))))
    with Kind_Clear. cbn [batch_ops].
  by rewrite (clear_end_clear_id _ e He) by done.
Qed.

(** ** Commits, in the code's own terms *)

(** The batch [b] prepared and placed in the segment [s] that has room. *)
Record committing (j : Journal) (b : Batch) (s : Segment) (p q : Prepared) : Prop := {
  cm_geometry : c_geometry (j_config j) = s_geometry s;
  cm_tag : u32 (j_tag j);
  cm_writes : b_writes b ≠ [];
  cm_wf : Forall wf_write (b_writes b);
  cm_batch : Batch_fits b (s_geometry s) = true;
  cm_prepare : prepare j b = Ok p;
  cm_room : Segment_fits s (len (p_records p) / BLOCK) (len (p_entries p)) = true;
  cm_place : place p (s_persist_next s) (s_entry_next s) = Some q;
}.

Lemma next_seq_u64 last gen : u64 (next_seq last gen).
Proof.
  unfold next_seq, first_batch_of, wrap64. unfold in_u.
  destruct (_ =? gen); by apply Z.mod_pos_bound.
Qed.

Lemma prepare_lt j b p :
  prepare j b = Ok p → j_last_batch j < next_seq (j_last_batch j) (j_generation j).
Proof.
  unfold prepare. destruct (Z.ltb_spec (j_last_batch j) (next_seq (j_last_batch j) (j_generation j)));
    [done|by intros [=]].
Qed.

Lemma committing_batch s f j b p q tag stale prev bs :
  segment_inv s f tag stale prev bs → committing j b s p q →
  commit_batch j s (b_writes b) p q ∧ j_last_batch j < p_seq q.
Proof.
  intros Hinv [Hge Ht Hne Hw Hfit Hprep Hroom Hplace].
  pose proof Hinv as [[Hg Hv] _ _ _ _ _ _ _]. pose proof Hfit as Hfit'.
  apply Batch_fits_iff in Hfit' as [Hcnt Hlens _ _].
  pose proof (prepare_lt _ _ _ Hprep) as Hlt.
  destruct (prepare_spec j b) as (p' & Hp' & Hpp);
    rewrite ?Hge; try done; [apply next_seq_u64|].
  assert (p' = p) as -> by congruence.
  destruct (segment_inv_bounds _ _ _ _ _ _ Hinv) as (H1 & H2 & H3 & H4 & H5 & H6).
  destruct (geometry_regions _ Hg Hv) as ([Hp0 Hp1] & He0 & Hee & Hu & _).
  pose proof Hroom as Hroom'. unfold Segment_fits in Hroom'.
  apply andb_true_iff in Hroom' as [_ F2]. apply Z.leb_le in F2.
  pose proof (pp_entries _ _ _ Hpp) as Hle.
  pose proof (align_up_ge (packed (b_writes b)) BLOCK ltac:(done)).
  destruct (place_spec j (b_writes b) p (s_persist_next s) (s_entry_next s) Hpp)
    as (q' & Hq' & Hpl); try done.
  - rewrite (pp_seq _ _ _ Hpp). apply next_seq_u64.
  - by rewrite H5.
  - by rewrite H6.
  - unfold PERSIST_START, BLOCK in *. lia.
  - unfold in_u in Hu. lia.
  - assert (q' = q) as -> by congruence.
    assert (0 < len (b_writes b)).
    { destruct (b_writes b); [done|]. rewrite len_cons. pose proof (len_nonneg l). lia. }
    split; [by split|]. by rewrite (pl_seq _ _ _ _ _ Hpl), (pp_seq _ _ _ Hpp).
Qed.

(** The metainfo file beside the segment: its copy B is [old]. *)
Record meta_beside (mf : BlockFile) (s : Segment) (w : World) (old : Meta) : Prop := {
  mb_apart : bf_file mf ≠ bf_file (s_file s);
  mb_bf : journal_file mf;
  mb_file : ∃ m0, w_files w !! bf_file mf = Some m0 ∧ meta_sized m0 ∧ holds_copy m0 Copy_B old;
}.

Lemma committing_protocol s f w j b p q stale prev bs mf old meta ordered :
  segment_inv s f (j_tag j) stale prev bs → w_files w !! bf_file (s_file s) = Some f →
  committing j b s p q → meta_beside mf s w old → (∀ m, meta = Some m → wf_meta m) →
  ∃ r w' f' m0 m', write_protocol s mf q meta ordered w = (r, w') ∧
    w_files w !! bf_file mf = Some m0 ∧
    w_files w' !! bf_file (s_file s) = Some f' ∧ w_files w' !! bf_file mf = Some m' ∧
    meta_sized m' ∧ meta_after old meta m0 m' r ∧
    match r with
    | Ok _ => batch_durable f f' q
    | Err (_, d) =>
        (m' = m0 ∧ torn (in_batch q) f f' ∧ (d = Durable_No → torn (entries_only q) f f')) ∨
        (batch_durable f f' q ∧ d = Durable_Unknown)
    | Panic => False
    end.
Proof.
  intros Hinv Hf Hcm [Hne Hj (m0 & Hm & Hms & Hold)] Hwf.
  destruct (committing_batch _ _ _ _ _ _ _ _ _ _ Hinv Hcm) as [Hcb _].
  destruct (commit_batch_fits _ _ _ _ _ _ _ _ _ _ Hinv Hcb) as [_ Hr].
  destruct (write_protocol_spec s mf q meta ordered w f m0 old Hf
    (of_bf _ _ (si_open _ _ _ _ _ _ Hinv)) Hr (si_clean _ _ _ _ _ _ Hinv) Hne Hm Hj Hms Hold Hwf)
    as (r & w' & f' & m' & Hrun & Hfiles & _ & _ & _ & Hms' & Hma & Hpost).
  exists r, w', f', m0, m'. rewrite Hfiles, lookup_insert_eq, lookup_insert_ne by done.
  rewrite lookup_insert_eq. done.
Qed.

(** C2: an acknowledged batch survives a power loss and is found by
    recovery.  Whatever calls of the commit protocol fell short or were
    retried, in either durability mode, when [write_protocol] returned [Ok]
    and the power is then lost, scanning the segment returns the batches
    that were there and the committed batch after them, every record of it
    intact, and the cursors behind it. *)
Theorem acknowledged_batch_recovered s f w j b p q stale prev bs mf old meta ordered w' :
  segment_inv s f (j_tag j) stale prev bs → w_files w !! bf_file (s_file s) = Some f →
  committing j b s p q → meta_beside mf s w old → (∀ m, meta = Some m → wf_meta m) →
  last_seq prev bs ≤ j_last_batch j → s_first_batch s ≤ p_seq q →
  is_stale stale (p_seq q) = false →
  write_protocol s mf q meta ordered w = (Ok (), w') →
  ∃ f', w_files w' !! bf_file (s_file s) = Some f' ∧
    ∀ g w2, crash_file f' g → w_files w2 !! bf_file (s_file s) = Some g → w_faults w2 = [] →
      scan_segment s prev (j_tag j) stale w2 =
        (Ok (scans_of 0 (bs ++ [mkLBatch (p_seq q) (p_decoded q)]),
             p_persist_at q + len (p_records q), p_entry_at q + len (p_entries q)), w2).
Proof.
  intros Hinv Hf Hcm Hmb Hwf Hls Hfirst Hst Hrun.
  destruct (committing_protocol _ _ _ _ _ _ _ _ _ _ _ _ meta ordered Hinv Hf Hcm Hmb Hwf)
    as (r & w1 & f' & m0 & m' & Hrun' & _ & Hf' & _ & _ & _ & Hpost).
  rewrite Hrun in Hrun'. injection Hrun' as <- <-. cbn in Hpost.
  exists f'. split; [done|]. intros g w2 Hcr Hg Hw2.
  destruct (committing_batch _ _ _ _ _ _ _ _ _ _ Hinv Hcm) as [Hcb Hlt].
  pose proof (commit_extends _ _ _ _ _ _ _ _ _ _ Hinv Hcb Hpost ltac:(lia) Hfirst Hst) as Hinv'.
  pose proof (segment_inv_crash _ _ _ _ _ _ _ Hinv' Hcr) as Hinv2.
  pose proof (segment_inv_holds _ _ w2 _ _ _ _ Hinv2 Hg Hw2) as Hh.
  pose proof (si_cursors _ _ _ _ _ _ Hinv2) as Hcu. injection Hcu as -> ->.
  apply (scan_segment_log s w2 (f_vis g)); [by destruct Hh|].
  by eapply segment_log_same, (si_log _ _ _ _ _ _ Hinv2).
Qed.

(** C3: a commit that fails never costs an earlier batch.  Wherever the
    protocol stopped with an error, and whatever a power loss then leaves
    of the bytes the batch touched, every batch committed before is still
    in its slots and every entry of it is intact. *)
Theorem failed_commit_keeps_log s f w j b p q stale prev bs mf old meta ordered e w' f' g :
  segment_inv s f (j_tag j) stale prev bs → w_files w !! bf_file (s_file s) = Some f →
  committing j b s p q → meta_beside mf s w old → (∀ m, meta = Some m → wf_meta m) →
  write_protocol s mf q meta ordered w = (Err e, w') →
  w_files w' !! bf_file (s_file s) = Some f' → crash_file f' g →
  log_prefix s (persist_log (s_geometry s) (f_vis g)) stale prev 0
    (entry_start (s_geometry s)) bs ∧
  log_intact (s_geometry s) (f_vis g) (j_tag j) bs.
Proof.
  intros Hinv Hf Hcm Hmb Hwf Hrun Hf' Hcr.
  destruct (committing_protocol _ _ _ _ _ _ _ _ _ _ _ _ meta ordered Hinv Hf Hcm Hmb Hwf)
    as (r & w1 & f1 & m0 & m' & Hrun' & _ & Hf1 & _ & _ & _ & Hpost).
  rewrite Hrun in Hrun'. injection Hrun' as <- <-. destruct e as [e d].
  assert (f1 = f') as -> by congruence.
  destruct (committing_batch _ _ _ _ _ _ _ _ _ _ Hinv Hcm) as [Hcb _].
  eapply failed_commit_keeps; [exact Hinv|exact Hcb| |exact Hcr].
  destruct Hpost as [(_ & ? & _)|[? _]]; auto.
Qed.

(** C4: the metainfo vouches for the batch.  Whatever the outcome of a
    commit that also changes the metainfo, error or not, a metainfo file
    that changed at all means the batch is durable; and the file holds the
    new value in both copies when the commit returned, else a whole copy of
    the old value or of the new one. *)
Theorem metainfo_after_batch s f w j b p q stale prev bs mf old m ordered :
  segment_inv s f (j_tag j) stale prev bs → w_files w !! bf_file (s_file s) = Some f →
  committing j b s p q → meta_beside mf s w old → wf_meta m →
  ∃ r w' f' m', write_protocol s mf q (Some m) ordered w = (r, w') ∧ r ≠ Panic ∧
    w_files w' !! bf_file (s_file s) = Some f' ∧ w_files w' !! bf_file mf = Some m' ∧
    (w_files w' !! bf_file mf ≠ w_files w !! bf_file mf →
      durable_at f' (p_entry_at q) (p_entries q) ∧ durable_at f' (p_persist_at q) (p_records q)) ∧
    (r = Ok () → holds_copy m' Copy_A m ∧ holds_copy m' Copy_B m) ∧
    (holds_copy m' Copy_B old ∨ holds_copy m' Copy_A m).
Proof.
  intros Hinv Hf Hcm Hmb Hwf.
  destruct (committing_protocol _ _ _ _ _ _ _ _ _ _ _ _ (Some m) ordered Hinv Hf Hcm Hmb)
    as (r & w' & f' & m0 & m' & Hrun & Hm0 & Hf' & Hm' & _ & Hma & Hpost); [by intros ? [= <-]|].
  destruct (committing_batch _ _ _ _ _ _ _ _ _ _ Hinv Hcm) as [Hcb _].
  destruct (commit_batch_fits _ _ _ _ _ _ _ _ _ _ Hinv Hcb) as [_ Hr].
  assert (batch_durable f f' q → durable_at f' (p_entry_at q) (p_entries q) ∧
            durable_at f' (p_persist_at q) (p_records q)) as Hdur.
  { intros [[Cd Cy Cl] Hv _ _]. destruct (vis_after_facts f q Hr) as (_ & He & Hp & _).
    split; (split_and!; [by rewrite Cd, Hv|by rewrite Hv|auto]). }
  exists r, w', f', m'. split_and!; try done.
  - by destruct r.
  - intros Hch. apply Hdur. destruct r as [u|[e d]|]; [done| |done].
    destruct Hpost as [(-> & _)|[? _]]; [|done]. congruence.
  - by intros ->.
  - cbn in Hma. destruct r as [u|[e d]|]; [|done..]. destruct Hma. auto.
Qed.

(** An entry in place is what a read of its position returns. *)
Lemma judge_entry_in j l position r payload first pa i :
  entry_in l (j_tag j) r payload → r_kind r = Kind_Put → r_position r = position →
  r_index r = i → 0 ≤ r_offset r → r_offset r + RECORD_SIZE + len payload ≤ len l →
  judge j position (located_of first pa i r false)
    (slice l (r_offset r) (r_offset r + entry_bytes (located_of first pa i r false))) =
  Ok (mkEntry position (r_id r) payload).
Proof.
  intros [Hp Hc Hpl Hl] Hk Hpos Hi Ho Hlen. pose proof (len_nonneg payload).
  unfold judge, entry_bytes. cbn [l_len located_of]. rewrite Hl.
  rewrite len_slice by (unfold RECORD_SIZE in *; lia).
  replace (r_offset r + (RECORD_SIZE + len payload) - r_offset r)
    with (RECORD_SIZE + len payload) by lia.
  rewrite Z.eqb_refl. cbn [negb].
  rewrite <- (EntryHeader_parse_prefix _ RECORD_SIZE)
    by (rewrite len_slice; unfold RECORD_SIZE in *; lia).
  rewrite !slice_slice by (unfold RECORD_SIZE in *; lia). rewrite Z.add_0_r, Hp.
  cbn [expect res_bind].
  change (eh_tag (header_of r (j_tag j))) with (j_tag j). rewrite Z.eqb_refl.
  assert (entry_matches (record_of position (located_of first pa i r false))
    (header_of r (j_tag j)) (r_entry_crc r) = true) as ->.
  { unfold entry_matches. cbn. rewrite Hk, Hpos, Hi, !Z.eqb_refl.
    by rewrite !bool_decide_eq_true_2 by done. }
  cbn [andb]. replace (r_offset r + (RECORD_SIZE + len payload))
    with (r_offset r + RECORD_SIZE + len payload) by lia.
  rewrite Hpl, Hc. cbn [expect res_bind]. rewrite Z.eqb_refl. done.
Qed.

(** Once the protocol has written a batch, a journal whose index locates an
    entry of it where [place] put it reads that entry back. *)
Lemma written_entry_reads_back s f w j b p q stale prev bs mf old meta ordered w' w2 j' s'
    i position id payload r :
  segment_inv s f (j_tag j) stale prev bs → w_files w !! bf_file (s_file s) = Some f →
  committing j b s p q → meta_beside mf s w old → (∀ m, meta = Some m → wf_meta m) →
  write_protocol s mf q meta ordered w = (Ok (), w') →
  (∀ h, is_Some (w_files w' !! h) → w_files w2 !! h = w_files w' !! h) → w_faults w2 = [] →
  b_writes b !! i = Some (Write_Put position id payload) → p_decoded q !! i = Some r →
  j_tag j' = j_tag j → segment_at j' (s_first_batch s) = Some s' → s_file s' = s_file s →
  j_index j' !! position =
    Some (located_of (s_first_batch s) (p_persist_at q) (Z.of_nat i) r false) →
  Journal_read j' position w2 = (Ok (mkEntry position id payload), w2).
Proof.
  intros Hinv Hf Hcm Hmb Hwf Hrun Hw2 Hw2f Hwi Hri Htag Hseg Hfile Hidx.
  destruct (committing_protocol _ _ _ _ _ _ _ _ _ _ _ _ meta ordered Hinv Hf Hcm Hmb Hwf)
    as (r0 & w1 & f' & m0 & m' & Hrun' & _ & Hf' & _ & _ & _ & Hpost).
  rewrite Hrun in Hrun'. injection Hrun' as <- <-. cbn in Hpost.
  assert (w_files w2 !! bf_file (s_file s) = Some f') as Hf2 by (rewrite Hw2; rewrite Hf'; eauto).
  destruct (committing_batch _ _ _ _ _ _ _ _ _ _ Hinv Hcm) as [Hcb _].
  destruct (commit_batch_fits _ _ _ _ _ _ _ _ _ _ Hinv Hcb) as [Hfa Hr].
  pose proof (batch_durable_written _ _ _ Hr Hpost) as Hbw.
  pose proof Hcb as [_ Hpp _ Hpl]. pose proof (pl_at _ _ _ _ _ Hpl) as [Epa Eea].
  assert (placed_ok (b_writes b) p q (p_persist_at q) (p_entry_at q)) as Hpl'
    by by rewrite Epa, Eea.
  destruct (placed_entry_in _ _ _ _ _ _ _ _ _ _ _ Hfa Hpp Hpl' Hbw Hri)
    as (wr & sum & Hwr & Hin & Hr' & Hlo & Hhi).
  assert (wr = Write_Put position id payload) as -> by congruence. cbn in Hin.
  pose proof Hinv as [[Hg Hv] [O1 O2 O3 O4] Hs _ Hbad _ _ _].
  destruct (geometry_regions _ Hg Hv) as ([Hp0 Hp1] & _ & Hee & _).
  pose proof (bw_len _ _ _ _ _ _ Hbw) as Hlen.
  pose proof (ei_len _ _ _ _ Hin) as Hrl. pose proof (len_nonneg payload).
  pose proof (footprint_bounds (r_len r) ltac:(lia)).
  assert (0 ≤ r_offset r) by (unfold PERSIST_START, BLOCK in *; lia).
  destruct Hpost as [_ _ Hb Ha].
  unfold Journal_read. rewrite Hidx. cbn [l_damaged located_of l_segment]. rewrite Hseg.
  cbn [io_expect]. erewrite io_bind_ok by reflexivity.
  set (at_ := located_of (s_first_batch s) (p_persist_at q) (Z.of_nat i) r false).
  assert (entry_bytes at_ = RECORD_SIZE + r_len r) as Heb by done.
  assert (read_bytes (s_file s) (l_offset at_) (entry_bytes at_) w2 =
    (Ok (slice (medium f') (l_offset at_) (l_offset at_ + entry_bytes at_)), w2)) as Hrd.
  { apply read_bytes_nofault; try done; rewrite ?Heb; cbn [l_offset located_of at_].
    - split; try done; [by rewrite Ha|by rewrite Ha|by rewrite Hlen].
    - unfold RECORD_SIZE. lia.
    - rewrite Hlen, Hs. by apply Z.mod_mul.
    - lia. }
  erewrite io_bind_ok by (unfold io_map_err, Segment_read_at; rewrite Hfile, Hrd; reflexivity).
  rewrite medium_clean by congruence. rewrite <- Htag in Hin.
  change (l_offset at_) with (r_offset r). unfold at_.
  rewrite (judge_entry_in _ _ _ r payload); try done; [|by rewrite Hr'..|lia].
  by rewrite Hr'.
Qed.

(** The index a commit leaves is the index recovery rebuilds: the
    operations applied to memory once the batch is durable are exactly the
    ones the scan derives from the batch's records. *)
Theorem commit_ops_are_recovered_ops s f j b p q tag stale prev bs :
  segment_inv s f tag stale prev bs → committing j b s p q →
  batch_ops (s_first_batch s) (p_persist_at q) 0 (p_decoded q) (b_writes b) =
  record_ops (s_first_batch s) (p_persist_at q) 0 (p_decoded q).
Proof.
  intros Hinv Hcm. destruct (committing_batch _ _ _ _ _ _ _ _ _ _ Hinv Hcm) as [[_ Hpp _ Hpl] _].
  rewrite (pl_decoded _ _ _ _ _ Hpl).
  eapply batch_ops_laid_out; [apply (pp_laid _ _ _ Hpp)|apply Hcm].
Qed.
(** ** What a commit leaves in memory *)

(** The write changes what the index says of [position]. *)
Definition touches (position : Z) (w : Write) : bool :=
  match w with
  | Write_Put p _ _ => p =? position
  | Write_Clear start end_ => (start <=? position) && (position <? end_)
  end.

Lemma batch_ops_untouched first pa i0 rs ws position idx :
  Forall (fun w => touches position w = false) ws →
  foldl spec_op idx (batch_ops first pa i0 rs ws) !! position = idx !! position.
Proof.
  revert i0 rs idx. induction ws as [|w ws IH]; intros i0 [|r rs] idx Hw; [done..|].
  apply Forall_cons_iff in Hw as [Ht Hw]. cbn [batch_ops foldl]. rewrite IH by done.
  destruct w as [p id payload|st e]; cbn [touches spec_op] in *.
  - apply lookup_insert_ne. lia.
  - destruct (idx !! position) as [at_|] eqn:E.
    + apply map_lookup_filter_Some. split; [done|]. cbn. lia.
    + apply map_lookup_filter_None. by left.
Qed.

(** The last put of a batch at a position is where the index finds it. *)
Lemma batch_ops_put first pa i0 rs ws i r position id payload idx :
  rs !! i = Some r → ws !! i = Some (Write_Put position id payload) →
  Forall (fun w => touches position w = false) (drop (S i) ws) →
  foldl spec_op idx (batch_ops first pa i0 rs ws) !! position =
    Some (located_of first pa (i0 + Z.of_nat i) r false).
Proof.
  revert i0 rs i idx. induction ws as [|w ws IH]; intros i0 [|r0 rs] [|i] idx Hr Hw Hu; try done.
  - cbn in Hr, Hw. injection Hr as ->. injection Hw as ->. cbn [batch_ops foldl].
    rewrite batch_ops_untouched by done. cbn [spec_op]. rewrite lookup_insert_eq.
    change (Z.of_nat 0) with 0. by rewrite Z.add_0_r.
  - cbn in Hr, Hw, Hu. cbn [batch_ops foldl]. rewrite (IH (i0 + 1) rs i) by done.
    do 2 f_equal. lia.
Qed.

Lemma batch_ops_ok segs first pa i0 rs ws :
  first ∈ map s_first_batch segs → Forall (op_ok segs) (batch_ops first pa i0 rs ws).
Proof.
  intros Hf. revert i0 rs. induction ws as [|w ws IH]; intros i0 [|r rs]; try (by constructor).
  cbn [batch_ops]. constructor; [by destruct w|apply IH].
Qed.

Lemma below_floor_None floor ws i position id payload :
  below_floor floor ws = None → ws !! i = Some (Write_Put position id payload) → floor ≤ position.
Proof.
  revert i. induction ws as [|w ws IH]; intros [|i] Hb Hi; try done; cbn in Hi.
  - injection Hi as ->. cbn in Hb. by destruct (Z.ltb_spec position floor).
  - eapply IH; [|exact Hi]. destruct w; cbn in Hb; [by destruct (_ <? _)|done].
Qed.

Lemma jm_bind_ok {E A B} (m : JM E A) (k : A → JM E B) j w b j' w' :
  jm_bind m k j w = (Ok b, j', w') →
  ∃ a j1 w1, m j w = (Ok a, j1, w1) ∧ k a j1 w1 = (Ok b, j', w').
Proof. unfold jm_bind. destruct (m j w) as [[[a| |] j1] w1]; [eauto|done..]. Qed.

Lemma publish_regions_ok {E} rs j w j' w' :
  publish_regions (E := E) rs j w = (Ok (), j', w') → j' = j ∧ w_files w' = w_files w.
Proof.
  unfold publish_regions. destruct (j_layout_shard j); [destruct (regions j)|]; try done;
    by intros [= <- <-].
Qed.

(** [segs'] are segments of [segs], less what an operation may change. *)
Definition from_segments (segs' segs : list Segment) : Prop := ∀ t, t ∈ segs' →
  ∃ s, s ∈ segs ∧ s_file t = s_file s ∧ s_first_batch t = s_first_batch s.

Lemma from_segments_refl a : from_segments a a.
Proof. intros t Ht. by exists t. Qed.

(** What the housekeeping after a commit never touches: the open files, and
    of the journal everything but names, spares and dead segments. *)
Definition kept (j j' : Journal) (w w' : World) : Prop :=
  w_files w' = w_files w ∧ j_tag j' = j_tag j ∧ j_index j' = j_index j.

Definition keeps {E A} (m : JM E A) : Prop := ∀ j w a j' w',
  m j w = (Ok a, j', w') → kept j j' w w' ∧ j_segments j' = j_segments j.

Lemma keeps_bind {E A B} (m : JM E A) (k : A → JM E B) :
  keeps m → (∀ a, keeps (k a)) → keeps (jm_bind m k).
Proof.
  intros Hm Hk j w b j' w' H. apply jm_bind_ok in H as (a & j1 & w1 & H1 & H2).
  destruct (Hm _ _ _ _ _ H1) as [(? & ? & ?) ?]. destruct (Hk _ _ _ _ _ _ H2) as [(? & ? & ?) ?].
  unfold kept. split_and!; congruence.
Qed.

Lemma keeps_io {E A} (m : IO E A) : (∀ w, w_files (m w).2 = w_files w) → keeps (jm_io m).
Proof.
  intros Hm j w a j' w' H. unfold jm_io in H. specialize (Hm w). destruct (m w) as [r w1].
  injection H as -> <- <-. done.
Qed.

(** The calls on names leave every open file as it is. *)
Ltac names_only f :=
  unfold f, io_bind, next_fault;
  match goal with w : World |- _ => destruct (w_faults w) as [|[] ?] end;
  cbn; repeat (case_match; cbn); done.

Lemma keeps_delete path : keeps (jm_io (delete_ path)).
Proof. apply keeps_io. intros w. names_only delete_. Qed.

Lemma keeps_rename from to : keeps (jm_io (rename from to)).
Proof. apply keeps_io. intros w. names_only rename. Qed.

Lemma keeps_sync_dir dir : keeps (jm_io (sync_dir dir)).
Proof. apply keeps_io. intros w. names_only sync_dir. Qed.

Lemma keeps_next_spare_name {E} : keeps (next_spare_name (E := E)).
Proof. intros j w a j' w' H. unfold next_spare_name, jm_bind in H. cbn in H. by injection H as <- <- <-. Qed.

Lemma keeps_spare {E} name : keeps (E := E) (jm_modify (fun j => set_spare name (j_spares_named j) j)).
Proof. intros j w a j' w' H. by injection H as <- <- <-. Qed.

(** A dead segment is named by no entry, so the index stays sound without it. *)
Lemma index_inv_tail s segs idx :
  index_inv (s :: segs) idx → s_live s = 0 → index_inv segs idx.
Proof.
  intros Hinv Hz. pose proof Hinv as [Hs Hloc Hlive].
  pose proof (proj1 (dead_segment_unreferenced _ _ s Hinv ltac:(set_solver)) Hz) as Hd. split.
  - cbn in Hs. by apply StronglySorted_inv in Hs as [? _].
  - intros p at_ Hp. specialize (Hloc p at_ Hp). specialize (Hd p at_ Hp). set_solver.
  - intros t Ht. apply Hlive. set_solver.
Qed.

Lemma remove_dead_ok fuel n j w m j' w' :
  index_inv (j_segments j) (j_index j) → remove_dead_from fuel n j w = (Ok m, j', w') →
  kept j j' w w' ∧ index_inv (j_segments j') (j_index j') ∧
  from_segments (j_segments j') (j_segments j).
Proof.
  revert n j w. induction fuel as [|fuel IH]; intros n j w Hinv H;
    cbn [remove_dead_from] in H; apply jm_bind_ok in H as (j0 & j1 & w1 & H0 & H);
    injection H0 as <- <- <-; destruct (j_segments j) as [|s [|t segs]] eqn:Es;
    try (injection H as <- <- <-; rewrite Es; split_and!; [done..|apply from_segments_refl]);
    destruct (Z.eqb_spec (s_live s) 0) as [Hz|];
    try (injection H as <- <- <-; rewrite Es; split_and!; [done..|apply from_segments_refl]); [done|].
  apply jm_bind_ok in H as ([] & j1 & w1 & H1 & H).
  apply jm_bind_ok in H as ([] & j2 & w2 & H2 & H). injection H2 as <- <-.
  match type of H1 with ?m j w = _ => assert (keeps m) as Hk end.
  { destruct (j_spare j); [|apply keeps_bind; [apply keeps_next_spare_name|intros name]].
    - apply keeps_bind; [apply keeps_delete|intros _; apply keeps_sync_dir].
    - apply keeps_bind; [apply keeps_rename|intros _].
      apply keeps_bind; [apply keeps_sync_dir|intros _; apply keeps_spare]. }
  destruct (Hk _ _ _ _ _ H1) as [(Kf & Kt & Ki) Ks].
  apply IH in H as ((Jf & Jt & Ji) & Hinv' & Hfrom); cbn in *.
  - split; [split_and!; congruence|]. split; [done|]. intros u Hu.
    destruct (Hfrom u Hu) as (v & Hv & ?). exists v. split; [|done].
    rewrite Ks, Es in Hv. cbn in Hv. by apply elem_of_cons; right.
  - rewrite Ks, Ki, Es. cbn. by eapply index_inv_tail.
Qed.
Lemma from_segments_trans a b c : from_segments a b → from_segments b c → from_segments a c.
Proof.
  intros Hab Hbc t Ht. destruct (Hab t Ht) as (u & Hu & Ef & Eb).
  destruct (Hbc u Hu) as (s & Hs & Ef' & Eb'). exists s. split_and!; congruence.
Qed.

Lemma same_segments_from a b : same_segments a b → from_segments a b.
Proof.
  intros H t Ht. apply list_elem_of_lookup in Ht as [i Hi].
  destruct (Forall2_lookup_l _ _ _ _ _ H Hi) as (s & Hs & E). exists s.
  split; [by eapply list_elem_of_lookup_2|]. by rewrite E.
Qed.

Lemma set_cursors_from segs i s pn en :
  segs !! i = Some s →
  map s_first_batch (<[i := set_cursors s pn en]> segs) = map s_first_batch segs ∧
  from_segments (<[i := set_cursors s pn en]> segs) segs ∧
  ∀ idx, index_inv segs idx → index_inv (<[i := set_cursors s pn en]> segs) idx.
Proof.
  intros Hi.
  assert (map s_first_batch (<[i := set_cursors s pn en]> segs) = map s_first_batch segs) as Hm.
  { change (map s_first_batch) with (fmap (M := list) s_first_batch). rewrite list_fmap_insert.
    apply list_insert_id. by rewrite list_lookup_fmap, Hi. }
  assert (∀ t, t ∈ <[i := set_cursors s pn en]> segs →
    ∃ u, u ∈ segs ∧ s_file t = s_file u ∧ s_first_batch t = s_first_batch u ∧ s_live t = s_live u)
    as Hfrom.
  { intros t Ht. apply list_elem_of_lookup in Ht as [k Hk].
    apply list_lookup_insert_Some in Hk as [(-> & <- & _)|[_ Hk]].
    - exists s. split_and!; try done. by eapply list_elem_of_lookup_2.
    - exists t. split_and!; try done. by eapply list_elem_of_lookup_2. }
  split_and!; [done| |].
  - intros t Ht. destruct (Hfrom t Ht) as (u & ? & ? & ? & _). eauto.
  - intros idx [H1 H2 H3]. split; rewrite ?Hm; try done.
    intros t Ht. destruct (Hfrom t Ht) as (u & Hu & _ & -> & ->). by apply H3.
Qed.

(** The segments of a sorted list are found by their first batch. *)
Lemma segment_at_from j segs s at_ :
  index_inv (j_segments j) (j_index j) → from_segments (j_segments j) segs →
  NoDup (map s_first_batch segs) → s ∈ segs → l_segment at_ = s_first_batch s →
  (∃ p, j_index j !! p = Some at_) →
  ∃ t, segment_at j (s_first_batch s) = Some t ∧ s_file t = s_file s.
Proof.
  intros [Hs Hloc _] Hfrom Hn Hin Hat [p Hp]. specialize (Hloc p at_ Hp). rewrite Hat in Hloc.
  destruct (segment_index_update (j_segments j) (s_first_batch s) 0
    (StronglySorted_lt_NoDup _ Hs) Hloc) as (i & t & Hi & Hl & Ht & Hf & _).
  exists t. unfold segment_at. rewrite Hi. split; [exact Hl|].
  destruct (Hfrom t Ht) as (u & Hu & -> & Eb). f_equal.
  apply list_elem_of_lookup in Hu as [k Hk]. apply list_elem_of_lookup in Hin as [m Hm].
  assert (k = m) as ->; [|congruence].
  apply (NoDup_lookup (map s_first_batch segs) k m (s_first_batch s) Hn).
  - change (map s_first_batch) with (fmap (M := list) s_first_batch).
    rewrite list_lookup_fmap, Hk. cbn. congruence.
  - change (map s_first_batch) with (fmap (M := list) s_first_batch).
    by rewrite list_lookup_fmap, Hm.
Qed.

Lemma after_commit_ok j w j' w' :
  index_inv (j_segments j) (j_index j) → after_commit j w = (Ok (), j', w') →
  w_files w' = w_files w ∧ j_tag j' = j_tag j ∧
  j_index j' = spec_floor (m_floor (j_meta j)) (j_index j) ∧
  index_inv (j_segments j') (j_index j') ∧ from_segments (j_segments j') (j_segments j).
Proof.
  intros Hinv H. apply jm_bind_ok in H as ([] & j1 & w1 & H1 & H).
  apply jm_bind_ok in H as (n & j2 & w2 & H2 & H).
  assert (j' = j2 ∧ w' = w2) as [-> ->].
  { unfold jm_assert_invariants, jm_bind, jm_assert, jm_expect in H. cbn in H.
    destruct (assert_invariants _ _ _ _); [by injection H as <- <-|done]. }
  destruct (drop_below_floor_inv (m_floor (j_meta j)) _ _ Hinv) as (segs & Hd & Hi & Hsame).
  unfold jm_drop_below_floor, jm_bind in H1. cbn in H1. rewrite Hd in H1. cbn in H1.
  injection H1 as <- <-.
  assert (remove_dead_segments (set_index segs (spec_floor (m_floor (j_meta j)) (j_index j)) j) w
    = (Ok n, j2, w2)) as Hr.
  { unfold jm_poison in H2. destruct (remove_dead_segments _ _) as [[[] ?] ?]; congruence. }
  apply (remove_dead_ok _ _ (set_index segs (spec_floor (m_floor (j_meta j)) (j_index j)) j))
    in Hr as ((Kf & Kt & Ki) & Hinv2 & Hfrom); [|done].
  split_and!; try done. eapply from_segments_trans; [exact Hfrom|by apply same_segments_from].
Qed.
Lemma jm_poison_ok {E F A} (f : E → F) (m : JM E A) j w a j' w' :
  jm_poison f m j w = (Ok a, j', w') → m j w = (Ok a, j', w').
Proof. unfold jm_poison. destruct (m j w) as [[[] ?] ?]; congruence. Qed.

(** A batch the last segment has room for does not roll the journal. *)
Lemma segment_for_room p s j w :
  last (j_segments j) = Some s →
  Segment_fits s (len (p_records p) / BLOCK) (len (p_entries p)) = true →
  segment_for p j w = (Ok (length (j_segments j) - 1)%nat, j, w) ∧
  j_segments j !! (length (j_segments j) - 1)%nat = Some s.
Proof.
  intros Hl Hf. split; [unfold segment_for, jm_bind; cbn; by rewrite Hl, Hf|].
  by rewrite last_lookup, <- Nat.sub_1_r in Hl.
Qed.

(** What of a commit of writes is left when it returned. *)
Record wrote (b : Batch) (j : Journal) (w : World) (s : Segment) (p q : Prepared)
    (w1 w2 : World) (j' : Journal) (w' : World) : Prop := {
  wr_place : place p (s_persist_next s) (s_entry_next s) = Some q;
  wr_before : w_files w1 = w_files w;
  wr_protocol : write_protocol s (j_meta_file j) q
    (if meta_changes j b then Some (next_meta j b) else None)
    (bool_decide (c_durability (j_config j) = Ordered)) w1 = (Ok (), w2);
  wr_after : w_files w' = w_files w2;
  wr_tag : j_tag j' = j_tag j;
  wr_index : j_index j' = spec_floor (next_floor j b) (foldl spec_op (j_index j)
    (batch_ops (s_first_batch s) (p_persist_at q) 0 (p_decoded q) (b_writes b)));
  wr_inv : index_inv (j_segments j') (j_index j');
  wr_from : from_segments (j_segments j') (j_segments j);
}.

Lemma commit_writes_ok b j w j' w' s p :
  commit_writes b j w = (Ok (), j', w') → prepare j b = Ok p →
  last (j_segments j) = Some s → index_inv (j_segments j) (j_index j) →
  Segment_fits s (len (p_records p) / BLOCK) (len (p_entries p)) = true →
  ∃ q w1 w2, wrote b j w s p q w1 w2 j' w'.
Proof.
  intros H Hp Hl Hinv Hfit. destruct (segment_for_room p s j w Hl Hfit) as [Hfor Hs].
  apply jm_bind_ok in H as (j0 & ? & ? & H0 & H). injection H0 as <- <- <-.
  apply jm_bind_ok in H as (p0 & ? & ? & H0 & H). rewrite Hp in H0. injection H0 as <- <- <-.
  apply jm_bind_ok in H as (n & ? & ? & H0 & H). rewrite Hfor in H0. injection H0 as <- <- <-.
  apply jm_bind_ok in H as (j0 & ? & ? & H0 & H). injection H0 as <- <- <-.
  apply jm_bind_ok in H as (s0 & ? & ? & H0 & H). rewrite Hs in H0. injection H0 as <- <- <-.
  apply jm_bind_ok in H as (q & ? & ? & H0 & H).
  destruct (place p _ _) as [q0|] eqn:Hq; [injection H0 as -> <- <-|done].
  apply jm_bind_ok in H as ([] & ? & w1 & H0 & H). apply publish_regions_ok in H0 as [-> Hw1].
  apply jm_bind_ok in H as ([] & ? & w2 & H0 & H). apply jm_poison_ok in H0. unfold jm_io in H0.
  destruct (write_protocol _ _ _ _ _ w1) as [r w20] eqn:Hrun. injection H0 as -> <- ->.
  apply jm_bind_ok in H as ([] & ? & ? & H0 & H). injection H0 as <- <-.
  apply jm_bind_ok in H as (j0 & ? & ? & H0 & H). injection H0 as <- <- <-.
  apply jm_bind_ok in H as ([segs idx] & ? & ? & H0 & H).
  cbn [j_segments set_segments set_index j_index] in H0.
  destruct (set_cursors_from _ _ s (p_persist_at q + len (p_records q))
    (p_entry_at q + len (p_entries q)) Hs) as (Hfirsts & Hfrom & Hkeep).
  destruct (apply_ops_inv _ _ (batch_ops (s_first_batch s) (p_persist_at q) 0 (p_decoded q)
    (b_writes b)) (Hkeep _ Hinv)) as (segs0 & Happ & Hinv1 & Hsame).
  { apply batch_ops_ok. rewrite Hfirsts. apply list_elem_of_fmap.
    exists s. split; [done|]. by eapply list_elem_of_lookup_2. }
  rewrite Happ in H0. injection H0 as <- <- <- <-.
  apply jm_bind_ok in H as ([] & ? & ? & H0 & H). injection H0 as <- <-.
  apply jm_bind_ok in H as ([] & ? & ? & H0 & H). injection H0 as <- <-.
  apply jm_bind_ok in H as ([] & j3 & w3 & H0 & H).
  assert (w3 = w2 ∧ m_floor (j_meta j3) = next_floor j b ∧ j_tag j3 = j_tag j ∧
    j_segments j3 = segs0 ∧ j_index j3 = foldl spec_op (j_index j) (batch_ops (s_first_batch s)
      (p_persist_at q) 0 (p_decoded q) (b_writes b))) as (-> & Hfl & Ht & Hsg & Hix).
  { destruct (meta_changes j b) eqn:Hmc; injection H0 as <- <-; [done|].
    unfold meta_changes in Hmc. apply orb_false_iff in Hmc as [_ Hmc]. cbn. split_and!; try done.
    apply negb_false_iff in Hmc. lia. }
  destruct (after_commit j3 w2) as [[[[]|e|] j4] w4] eqn:Ha;
    [|by destruct (publish_regions _ _ _) as [[[] ?] ?]|done].
  destruct (publish_regions [] j4 w4) as [[[[]| |] j5] w5] eqn:Hpub; [|done..].
  injection H as <- <-. apply publish_regions_ok in Hpub as [-> Hw5].
  rewrite <- Hsg, <- Hix in Hinv1.
  destruct (after_commit_ok _ _ _ _ Hinv1 Ha) as (Hw4 & Ht4 & Hi4 & Hinv4 & Hf4).
  exists q, w1, w2. split; try congruence.
  eapply from_segments_trans; [exact Hf4|]. rewrite Hsg.
  eapply from_segments_trans; [by apply same_segments_from|done].
Qed.
(** What [commit] checks before it writes a batch that is not empty. *)
Lemma Journal_commit_ok b j w j' w' :
  Journal_commit b j w = (Ok (), j', w') → b_writes b ≠ [] →
  ∃ p, below_floor (next_floor j b) (b_writes b) = None ∧
    Batch_fits b (c_geometry (j_config j)) = true ∧ prepare j b = Ok p ∧
    commit_writes b j w = (Ok (), j', w').
Proof.
  intros H Hne. apply jm_bind_ok in H as (? & ? & ? & H0 & H). injection H0 as <- <- <-.
  destruct (j_poisoned j); [done|]. cbv zeta in H. destruct (below_floor _ _); [done|].
  apply jm_bind_ok in H as ([] & j1 & w1 & Hm & H).
  assert (j1 = j ∧ w1 = w) as [-> ->].
  { destruct (b_meta b); [destruct (_ <? _); [done|]|]; by injection Hm as <- <-. }
  destruct (Batch_fits _ _) eqn:Hfit; [|done]. cbn [negb] in H.
  rewrite bool_decide_eq_false_2 in H by done. pose proof H as Hcw.
  apply jm_bind_ok in H as (? & ? & ? & H0 & H). injection H0 as <- <- <-.
  apply jm_bind_ok in H as (p & ? & ? & H0 & H). injection H0 as Hp <- <-. eauto.
Qed.

(** C5: a read after a commit returns what was put.  When [Journal_commit]
    acknowledged a batch that the last segment had room for (no roll to
    another segment), in either durability mode, with or without a change of
    the metainfo, and whatever calls fell short or were retried on the way,
    then the journal it leaves reads every put of the batch back, at its
    position, with its identity and its payload, as long as no later write
    of the same batch overwrote or cleared that position and no call of the
    read itself fails. *)
Theorem committed_entry_reads_back b j w j' w' s f stale prev bs old i position id payload :
  last (j_segments j) = Some s → index_inv (j_segments j) (j_index j) →
  segment_inv s f (j_tag j) stale prev bs → w_files w !! bf_file (s_file s) = Some f →
  c_geometry (j_config j) = s_geometry s → u32 (j_tag j) →
  meta_beside (j_meta_file j) s w old → (meta_changes j b = true → wf_meta (next_meta j b)) →
  Forall wf_write (b_writes b) →
  (∀ p, prepare j b = Ok p →
    Segment_fits s (len (p_records p) / BLOCK) (len (p_entries p)) = true) →
  Journal_commit b j w = (Ok (), j', w') →
  b_writes b !! i = Some (Write_Put position id payload) →
  Forall (fun wr => touches position wr = false) (drop (S i) (b_writes b)) →
  ∀ w2, w_files w2 = w_files w' → w_faults w2 = [] →
    Journal_read j' position w2 = (Ok (mkEntry position id payload), w2).
Proof.
  intros Hl Hidx Hinv Hf Hg Ht [Hne Hmf Hm] Hwm Hwf Hroom Hrun Hi Hlater w2 Hw2 Hfaults.
  assert (b_writes b ≠ []) as Hne' by (intros E; by rewrite E in Hi).
  destruct (Journal_commit_ok _ _ _ _ _ Hrun Hne')
    as (p & Hbf & Hfit & Hp & Hcw).
  destruct (commit_writes_ok _ _ _ _ _ _ _ Hcw Hp Hl Hidx (Hroom p Hp))
    as (q & w1 & w3 & [Hq Hw1 Hprot Hw3 Htag Hix Hinv' Hfrom]).
  assert (committing j b s p q) as Hcm.
  { split; try done; [by rewrite <- Hg|by apply Hroom]. }
  assert (meta_beside (j_meta_file j) s w1 old) as Hmb by (split; rewrite ?Hw1; done).
  destruct (committing_batch _ _ _ _ _ _ _ _ _ _ Hinv Hcm) as [[_ Hpp _ Hpl] _].
  assert (is_Some (p_decoded q !! i)) as [r Hr].
  { apply lookup_lt_is_Some. rewrite (pl_decoded _ _ _ _ _ Hpl), length_map.
    rewrite (laid_out_length _ _ _ _ _ _ _ _ _ (pp_laid _ _ _ Hpp)).
    by eapply lookup_lt_Some. }
  assert (j_index j' !! position =
    Some (located_of (s_first_batch s) (p_persist_at q) (Z.of_nat i) r false)) as Hat.
  { rewrite Hix. apply map_lookup_filter_Some. split.
    { rewrite <- (Z.add_0_l (Z.of_nat i)). by eapply batch_ops_put. }
    by eapply below_floor_None. }
  destruct (segment_at_from j' (j_segments j) s
    (located_of (s_first_batch s) (p_persist_at q) (Z.of_nat i) r false) Hinv' Hfrom
    (StronglySorted_lt_NoDup _ (inv_sorted _ _ Hidx))) as (t & Hseg & Hfile);
    [by eapply last_Some_elem_of|done|eauto|].
  eapply (written_entry_reads_back s f w1 j b p q stale prev bs (j_meta_file j) old);
    try done; [by rewrite Hw1| |by rewrite Hw2, Hw3].
  intros m. destruct (meta_changes j b); intros [= <-]. by apply Hwm.
Qed.
End WithCrc.
