(* ===== verification/NewSegment.v ===== *)
(** * New segments

    What [Segment_create] leaves when it returns, however often its calls
    fell short: a file no handle named before, the header in both copies,
    zeros behind it, everything on the device, under the segment's name; so
    the segment is one a journal may write to, its log empty
    ([segment_inv]). *)

From Stdlib Require Import Ascii.
From S2P Require Import Prelude Crc Format Names Storage JournalIo MetaFile Index Segment.
From S2P Require Import Recover Log Journal Commit CommitLog Protocol Durability.
#[local] Open Scope Z_scope.

(** Inverting a computation that returned [Ok]. *)
Ltac io_inv H :=
  lazymatch type of H with
  | io_bind _ _ _ = (Ok _, _) =>
      let a := fresh "a" in let w1 := fresh "w" in let H1 := fresh "H" in
      apply io_bind_inv in H as (a & w1 & H1 & H); cbn beta in H; io_inv H1
  | lift_io _ _ = (Ok _, _) => apply io_map_err_inv in H; io_inv H
  | io_map_err _ _ _ = (Ok _, _) => apply io_map_err_inv in H; io_inv H
  | _ => idtac
  end.

Lemma name_in_path_in dir n : "/"%char ∉ n → name_in dir (path_in dir n) = Some n.
Proof.
  intros H. unfold name_in, path_in. rewrite app_assoc.
  rewrite (proj2 (strip_prefix_Some _ _ _) eq_refl). by rewrite bool_decide_eq_false_2.
Qed.

Lemma next_fault_inv w a w1 : next_fault w = (Ok a, w1) → ∃ fs, w1 = with_faults w fs.
Proof.
  intros H. destruct (next_fault_spec w) as (f & fs & Hn & _). rewrite Hn in H.
  injection H as _ <-. eauto.
Qed.

(** The namespace calls change no file. *)
Lemma exists_inv path w b w1 :
  exists_ path w = (Ok b, w1) →
  w_files w1 = w_files w ∧ w_names w1 = w_names w ∧ b = bool_decide (is_Some (w_names w !! path)).
Proof.
  intros H. unfold exists_ in H. io_inv H. apply next_fault_inv in H0 as [fs ->].
  destruct a; [| |done]; io_inv H; injection H0 as <- <-; injection H as <- <-; done.
Qed.

Lemma delete_inv path w u w1 :
  delete_ path w = (Ok u, w1) → w_files w1 = w_files w ∧ w_names w1 = delete path (w_names w).
Proof.
  intros H. unfold delete_ in H. io_inv H. apply next_fault_inv in H0 as [fs ->].
  destruct a; [| |done]; io_inv H; injection H0 as <- <-; cbn in H;
    (destruct (w_names w !! path); [|done]); io_inv H; injection H0 as _ <-;
    by injection H as _ <-.
Qed.

Lemma open_create_new_inv path w h w1 :
  open_create_new path w = (Ok h, w1) →
  w_files w !! h = None ∧ w_names w1 = <[path := h]> (w_names w) ∧
  w_files w1 = <[h := mkFile [] [] (fun _ => false) (fun _ => false) ∅ IoConstraints_NONE]>
                 (w_files w).
Proof.
  intros H. unfold open_create_new in H. io_inv H. apply next_fault_inv in H0 as [fs ->].
  assert (w_files w !! fresh (dom (w_files w)) = None) as Hfresh.
  { apply not_elem_of_dom. apply is_fresh. }
  destruct a; [| |done]; io_inv H; injection H0 as <- <-; cbn in H;
    (destruct (w_names w !! path); [done|]); io_inv H; injection H0 as _ <-;
    io_inv H; injection H0 as _ <-; io_inv H; injection H0 as _ <-; by injection H as <- <-.
Qed.

Lemma rename_inv from to w u w1 :
  rename from to w = (Ok u, w1) →
  w_files w1 = w_files w ∧ ∃ h, w_names w !! from = Some h ∧
    w_names w1 = <[to := h]> (delete from (w_names w)).
Proof.
  intros H. unfold rename in H. io_inv H. apply next_fault_inv in H0 as [fs ->].
  destruct a; [| |done]; io_inv H; injection H0 as <- <-; cbn in H;
    (destruct (w_names w !! from) as [h|]; [|done]); io_inv H; injection H0 as _ <-;
    injection H as _ <-; eauto.
Qed.

Lemma sync_dir_inv dir w u w1 :
  sync_dir dir w = (Ok u, w1) →
  w_files w1 = w_files w ∧ w_names w1 = w_names w ∧
  ∀ path, is_Some (name_in dir path) → w_dur_names w1 !! path = w_names w1 !! path.
Proof.
  intros H. unfold sync_dir in H. io_inv H. apply next_fault_inv in H0 as [fs ->].
  destruct a; [| |done]; injection H as <- <-; cbn;
    (split_and!; [done|done|]; intros path Hp; apply option_eq; intros h;
     rewrite lookup_union_Some_raw, !map_lookup_filter_Some, map_lookup_filter_None; cbn;
     destruct Hp as [m Hm]; rewrite Hm; naive_solver).
Qed.

Lemma open_existing_inv path w h w1 :
  open_existing path w = (Ok h, w1) →
  w_files w1 = w_files w ∧ w_names w1 = w_names w ∧ w_dur_names w1 = w_dur_names w ∧
  w_names w !! path = Some h.
Proof.
  intros H. unfold open_existing in H. io_inv H. apply next_fault_inv in H0 as [fs ->].
  destruct a; [| |done]; io_inv H; injection H0 as <- <-; cbn in H;
    (destruct (w_names w !! path) as [h'|]; [|done]); by injection H as <- <-.
Qed.

Lemma BlockFile_new_inv h w bf w1 :
  BlockFile_new h BLOCK w = (Ok bf, w1) →
  w1 = w ∧ ∃ f, w_files w !! h = Some f ∧
    bf = mkBlockFile h BLOCK
           (Z.max (Z.max (c_offset (f_align f)) (c_length (f_align f))) (c_memory (f_align f))) ∧
    BLOCK mod c_offset (f_align f) = 0 ∧ BLOCK mod c_length (f_align f) = 0.
Proof.
  intros H. unfold BlockFile_new in H. change (BLOCK =? 0) with false in H. cbn beta iota in H.
  io_inv H. unfold get_file in H0. destruct (w_files w !! h) as [f|] eqn:E; [|done].
  injection H0 as <- <-.
  destruct (Z.eqb_spec (BLOCK mod c_length (f_align f)) 0); [|done]. cbn [negb] in H.
  destruct (Z.eqb_spec (BLOCK mod c_offset (f_align f)) 0); [|done]. cbn [negb] in H.
  injection H as <- <-. split; [done|]. by exists f.
Qed.

Lemma allocate_inv h n w u w1 f :
  allocate h n w = (Ok u, w1) → w_files w !! h = Some f →
  w_names w1 = w_names w ∧
  w_files w1 = <[h := mkFile (grow (f_vis f) n) (f_dur f)
                  (fun i => within (file_len f) n i || f_dirty f i) (f_lost f) (f_bad f)
                  (f_align f)]> (w_files w).
Proof.
  intros H Hf. unfold allocate in H. io_inv H. unfold get_file in H0. rewrite Hf in H0.
  injection H0 as <- <-. io_inv H. apply next_fault_inv in H0 as [fs ->].
  destruct a; [| |done]; by injection H as _ <-.
Qed.

Section WithCrc.
Context {C : Crc32c} {L : Crc32cLaws C}.

(** Both header copies, one block each. *)
Lemma header_blocks_spec header :
  wf_segment_header header →
  ∃ blocks, header_blocks header = Some blocks ∧ len blocks = 2 * BLOCK ∧
    SegmentHeader_decode (slice blocks 0 BLOCK) = Some (Some header) ∧
    SegmentHeader_decode (slice blocks BLOCK (2 * BLOCK)) = Some (Some header).
Proof.
  intros Hh. assert (0 < BLOCK) as HB by done. unfold header_blocks, block_buf.
  set (z := zeros (2 * BLOCK)). assert (len z = 2 * BLOCK) as Hz by (apply len_repeatZ; lia).
  destruct (SegmentHeader_encode_spec header (slice z 0 BLOCK) Hh)
    as (a & Ha & Hal & Had & _); [rewrite len_slice; lia|].
  rewrite Ha. cbn [mbind option_bind]. rewrite len_slice in Hal by lia.
  rewrite copy_from_slice_ok by lia. cbn [mbind option_bind].
  set (z1 := splice z 0 a). assert (len z1 = 2 * BLOCK) as Hz1 by (unfold z1; rewrite len_splice; lia).
  rewrite Hz1.
  destruct (SegmentHeader_encode_spec header (slice z1 BLOCK (2 * BLOCK)) Hh)
    as (b & Hb & Hbl & Hbd & _); [rewrite len_slice; lia|].
  rewrite Hb. cbn [mbind option_bind]. rewrite len_slice in Hbl by lia.
  rewrite copy_from_slice_ok by lia.
  exists (splice z1 BLOCK b). split; [done|]. rewrite len_splice by lia. split; [done|]. split.
  - rewrite slice_splice_disjoint by lia. unfold z1.
    replace BLOCK with (0 + len a) at 1 by lia. by rewrite slice_splice_same by lia.
  - replace (2 * BLOCK) with (BLOCK + len b) by lia. by rewrite slice_splice_same by lia.
Qed.

(** A new segment's file: the header twice, then zeros, all on the device. *)
Record new_segment_file (header : SegmentHeader) (f : File) : Prop := {
  ns_size : len (f_vis f) = total_blocks (sh_geometry header) * BLOCK;
  ns_clean : clean_file f;
  ns_bad : f_bad f = ∅;
  ns_align : f_align f = IoConstraints_NONE;
  ns_headers : SegmentHeader_decode (slice (f_vis f) 0 BLOCK) = Some (Some header) ∧
    SegmentHeader_decode (slice (f_vis f) BLOCK (2 * BLOCK)) = Some (Some header);
  ns_zeros : slice (f_vis f) PERSIST_START (len (f_vis f)) = zeros (len (f_vis f) - PERSIST_START);
}.

Lemma synced_clean f : (∀ i, f_lost f i = false) → clean_file (file_sync f).
Proof.
  intros H. split; try done. cbn. apply list_eq. intros i. by apply lookup_flush.
Qed.

Lemma fill_new_inv h header w u w1 :
  fill_new h (sh_geometry header) header w = (Ok u, w1) →
  w_files w !! h = Some (mkFile [] [] (fun _ => false) (fun _ => false) ∅ IoConstraints_NONE) →
  wf_segment_header header → Geometry_is_valid (sh_geometry header) = true →
  w_names w1 = w_names w ∧
  ∃ f, w_files w1 = <[h := f]> (w_files w) ∧ new_segment_file header f.
Proof.
  intros H Hf Hh Hv. unfold fill_new in H. io_inv H.
  apply BlockFile_new_inv in H0 as (-> & f0 & Hf0 & -> & _).
  rewrite Hf in Hf0. injection Hf0 as <-. cbn in H.
  change ((1 `max` 1) `max` 1) with 1 in H. io_inv H. eapply allocate_inv in H0 as [Hn1 Hw1]; [|exact Hf]. cbn in Hw1.
  io_inv H. unfold write_headers in H0. io_inv H0.
  destruct (header_blocks_spec header Hh) as (blocks & Hb & Hbl & Hd0 & Hd1).
  rewrite Hb in H1. injection H1 as <- <-.
  assert (wf_geometry (sh_geometry header)) as Hg by apply Hh.
  destruct (geometry_regions _ Hg Hv) as ([Hp0 Hp1] & He0 & Hee & _).
  assert (2 * BLOCK < total_blocks (sh_geometry header) * BLOCK) as Hlt
    by (unfold PERSIST_START in *; lia).
  assert (0 < BLOCK) as HB by done.
  set (n := total_blocks (sh_geometry header) * BLOCK) in *.
  edestruct (write_blocks_io_spec false (mkBlockFile h BLOCK 1) 0 blocks w0)
    as (r & fs & f' & tr & Hrun & _ & Hpost).
  { rewrite Hw1. apply lookup_insert_eq. }
  { split; [reflexivity|]. exists 0. split; [lia|reflexivity]. }
  { lia. }
  { rewrite Hbl. by apply Z.mod_mul. }
  unfold write_blocks in H0. rewrite H0 in Hrun. injection Hrun as <- ->.
  destruct Hpost as [Heq _]. io_inv H.
  edestruct (sync_file_spec h f') as (r & fs' & f2 & tr' & Hrun & Hpost);
    [|rewrite H in Hrun; injection Hrun as <- ->; destruct Hpost as [-> _]].
  { apply lookup_insert_eq. }
  split; [done|]. exists (file_sync f'). cbn. rewrite Hw1, !insert_insert_eq. split; [done|].
  assert (f_vis f' = splice (zeros n) 0 blocks) as Hvis.
  { destruct Heq as [-> _ _ _ _ _]. cbn. unfold write_bytes. destruct blocks eqn:E;
      [by rewrite len_nil in Hbl; lia|]. rewrite <- E in *. unfold grow. cbn [app].
    rewrite len_nil, Z.sub_0_r, !len_repeatZ by lia.
    unfold repeatZ at 2.
    assert (Z.to_nat (0 * BLOCK + len blocks - n) = 0%nat) as -> by lia. cbn [replicate].
    by rewrite app_nil_r. }
  assert (len (f_vis f') = n) as Hlen by (rewrite Hvis, len_splice; rewrite ?len_repeatZ; lia).
  split; cbn [f_vis file_sync f_bad f_align].
  - done.
  - apply synced_clean. intros i. destruct Heq as [_ _ _ -> _ _]. done.
  - by destruct Heq as [_ _ _ _ -> _].
  - by destruct Heq as [_ _ _ _ _ ->].
  - rewrite Hvis. split.
    + rewrite slice_splice_inside, !Z.sub_0_r; [done|lia|rewrite len_repeatZ; lia|lia|lia].
    + rewrite slice_splice_inside, !Z.sub_0_r; [done|lia|rewrite len_repeatZ; lia|lia|lia].
  - rewrite Hlen, Hvis.
    unfold PERSIST_START in *.
    rewrite slice_splice_disjoint; [|lia|rewrite len_repeatZ; lia|lia|lia].
    apply slice_repeatZ; lia.
Qed.

(** A new segment's file is one to write to: its log is empty. *)
Lemma new_segment_inv header f name bf tag stale :
  new_segment_file header f → wf_geometry (sh_geometry header) →
  Geometry_is_valid (sh_geometry header) = true → journal_file bf →
  segment_inv (Segment_fresh (sh_first_batch header) (sh_prev_batch header) name bf
                 (sh_geometry header)) f tag stale (sh_prev_batch header) [].
Proof.
  intros [Hs Hc Hb Ha _ Hz] Hg Hv Hbf. destruct (geometry_regions _ Hg Hv) as (_ & _ & Hee & Hu & _).
  split; cbn [s_geometry s_file Segment_fresh]; try done.
  - split; rewrite ?Ha; try done. rewrite Hs, <- Hee. unfold in_u, u64_max in *. lia.
  - apply zeros_log; try done. cbn. congruence.
  - by constructor.
Qed.

(** A segment [create] returned is ready to write to, whatever calls fell
    short on the way: its file is new, of the geometry's size, with the
    header in both copies and zeros behind it, all of it on the device, and
    its log is empty for any journal tag; its name is bound to the file, in
    the directory on the device too; and no other file changed. *)
Theorem created_segment_ready dir journal first prev geometry w s w' tag stale :
  wf_segment_header (mkSegmentHeader journal first prev geometry) →
  Geometry_is_valid geometry = true →
  Segment_create dir journal first prev geometry w = (Ok s, w') →
  let h := bf_file (s_file s) in
  ∃ f, w_files w !! h = None ∧ w_files w' = <[h := f]> (w_files w) ∧
    new_segment_file (mkSegmentHeader journal first prev geometry) f ∧
    segment_inv s f tag stale prev [] ∧ s_first_batch s = first ∧
    w_names w' !! path_in dir (segment_name first) = Some h ∧
    w_dur_names w' !! path_in dir (segment_name first) = Some h.
Proof.
  intros Hh Hv H. unfold Segment_create in H. io_inv H.
  apply exists_inv in H0 as (Hf0 & Hn0 & _). io_inv H.
  assert (w_files w1 = w_files w) as Hf1.
  { destruct a; [|by injection H0 as _ <-]. io_inv H0. apply delete_inv in H0 as [-> _]. done. }
  io_inv H. apply open_create_new_inv in H1 as (Hfr & Hn2 & Hf2).
  set (header := mkSegmentHeader journal first prev geometry) in *. unfold io_try at 1 in H.
  destruct (fill_new a1 geometry header w2) as [[u|e|] w3] eqn:Hfill;
    [|by unfold io_try in H; destruct (delete_ _ w3) as [[]]|done].
  eapply (fill_new_inv _ header) in Hfill as (Hn3 & f & Hf3 & Hns);
    [|rewrite Hf2; apply lookup_insert_eq|done|done].
  io_inv H. apply rename_inv in H1 as (Hf4 & h & Hh4 & Hn4). rewrite Hn3, Hn2 in Hh4.
  rewrite lookup_insert_eq in Hh4. injection Hh4 as <-.
  io_inv H. apply sync_dir_inv in H1 as (Hf5 & Hn5 & Hdur).
  io_inv H. unfold segment_open_file in H1. io_inv H1.
  apply open_existing_inv in H2 as (Hf6 & Hn6 & Hd6 & Hh6). rewrite Hn5, Hn4 in Hh6.
  rewrite lookup_insert_eq in Hh6. injection Hh6 as <-.
  apply BlockFile_new_inv in H1 as (-> & f' & Hf' & -> & _). injection H as <- <-.
  rewrite Hf6, Hf5, Hf4, Hf3, lookup_insert_eq in Hf'. injection Hf' as <-.
  cbn [bf_file s_file Segment_fresh].
  exists f. rewrite Hf6, Hf5, Hf4, Hf3, Hf2, insert_insert_eq, Hf1.
  rewrite Hf1 in Hfr. rewrite Hd6, Hn6, Hdur, Hn5, Hn4, lookup_insert_eq
    by (eexists; apply name_in_path_in, segment_name_no_slash).
  split_and!; try done.
  apply (new_segment_inv header); try done; [apply Hh|].
  rewrite (ns_align _ _ Hns). split; [reflexivity|]. exists 0. split; [lia|reflexivity].
Qed.
End WithCrc.
