(* ===== verification/History.v ===== *)
(** * Histories: a segment through any number of commits

    [commits] is the step relation of a journal writing to one segment: each
    step is a commit protocol that returned [Ok], the cursors moved behind
    the batch and the batch number taken.  By induction on it the segment's
    file holds the batches of the whole history ([commits_inv]), so a power
    loss at the end costs none of them. *)

From S2P Require Import Prelude Crc Format Names Storage JournalIo MetaFile Batch Index.
From S2P Require Import Segment Recover Log Journal Commit CommitLog Protocol Durability.
#[local] Open Scope Z_scope.

(** ** Batch numbers *)

(** A batch number a commit takes is of the journal's generation or later. *)
Lemma next_seq_generation last gen :
  0 ≤ last → 0 ≤ gen < 2 ^ 24 → last < next_seq last gen → gen ≤ generation_of (next_seq last gen).
Proof.
  intros Hl Hg. unfold next_seq. destruct (Z.eqb_spec (generation_of last) gen) as [E|_].
  - intros Hlt. assert (wrap64 (last + 1) = last + 1) as ->.
    { apply wrap64_small. unfold wrap64 in Hlt. unfold in_u.
      pose proof (Z.mod_pos_bound (last + 1) (2 ^ 64)).
      destruct (Z_lt_ge_dec (last + 1) (2 ^ 64)) as [|Hge]; [lia|].
      pose proof (Z.mod_le (last + 1) (2 ^ 64)).
      pose proof (Z.div_mod (last + 1) (2 ^ 64)).
      pose proof (Z.div_le_lower_bound (last + 1) (2 ^ 64) 1). lia. }
    rewrite generation_of_eq in *. subst gen. apply Z.div_le_mono; lia.
  - intros _. rewrite generation_of_first_batch_of by done. lia.
Qed.

(** Batch numbers never go back or repeat: the next batch's number is
    above the last one's and belongs to the open generation, so no open up
    to this generation's can take it for a stale one; and once the next
    generation begins having found the batches up to [found], it is stale
    exactly when it is above [found]. *)
Theorem batch_numbers_fresh last gen opened found :
  0 ≤ last → 0 ≤ gen < 2 ^ 24 - 1 → generation_of last ≤ gen → last + 1 < (gen + 1) * 2 ^ 40 →
  st_generation opened ≤ gen →
  let seq := next_seq last gen in
  last < seq ∧ u64 seq ∧ generation_of seq = gen ∧ is_stale opened seq = false ∧
  is_stale (mkStale (gen + 1) found) seq = (found <? seq) ∧ seq < first_batch_of (gen + 1).
Proof.
  intros Hl Hg Hgen Hroom Hop seq.
  assert (last < seq ∧ generation_of seq = gen) as [Hlt Hgs].
  { unfold seq, next_seq. destruct (Z.eqb_spec (generation_of last) gen) as [E|Hne].
    - rewrite wrap64_small by (unfold in_u; lia). split; [lia|].
      rewrite generation_of_eq in *.
      assert (last / 2 ^ 40 ≤ (last + 1) / 2 ^ 40) by (apply Z.div_le_mono; lia).
      assert ((last + 1) / 2 ^ 40 < gen + 1) by (apply Z.div_lt_upper_bound; lia). lia.
    - split; [apply generation_lt_batch; lia|apply generation_of_first_batch_of; lia]. }
  split_and!; [done|apply next_seq_u64|done| | |].
  - unfold is_stale. rewrite Hgs, (proj2 (Z.ltb_ge _ _)) by lia. done.
  - unfold is_stale. cbn. by rewrite Hgs, (proj2 (Z.ltb_lt gen _)) by lia.
  - apply generation_lt_batch; [lia|lia|]. rewrite Hgs. lia.
Qed.

Section WithCrc.
Context {C : Crc32c} {L : Crc32cLaws C}.

(** ** The step relation *)

Definition after_batch (s : Segment) (q : Prepared) : Segment :=
  set_cursors s (p_persist_at q + len (p_records q)) (p_entry_at q + len (p_entries q)).

Definition lbatch_of (q : Prepared) : LBatch := mkLBatch (p_seq q) (p_decoded q).

Inductive commits (mf : BlockFile) :
    Journal → Segment → World → list LBatch → Journal → Segment → World → Prop :=
  | commits_nil j s w : commits mf j s w [] j s w
  | commits_step j s w b p q meta ordered w1 bs j' s' w' :
      committing j b s p q → (∀ m, meta = Some m → wf_meta m) →
      write_protocol s mf q meta ordered w = (Ok (), w1) →
      commits mf (set_last (p_seq q) None j) (after_batch s q) w1 bs j' s' w' →
      commits mf j s w (lbatch_of q :: bs) j' s' w'.

(** A journal writing to the segment [s], whose log is [bs]. *)
Record writing (mf : BlockFile) (j : Journal) (s : Segment) (w : World) (stale : Stale)
    (prev : Z) (bs : list LBatch) : Prop := {
  wr_file : ∃ f, w_files w !! bf_file (s_file s) = Some f ∧
              segment_inv s f (j_tag j) stale prev bs;
  wr_meta : ∃ old, meta_beside mf s w old;
  wr_last : 0 ≤ j_last_batch j ∧ last_seq prev bs ≤ j_last_batch j;
  wr_generation : 0 ≤ j_generation j < 2 ^ 24 ∧ st_generation stale ≤ j_generation j;
  wr_first : s_first_batch s ≤ Z.max (j_last_batch j)
                                 (next_seq (j_last_batch j) (j_generation j));
}.

Lemma p_seq_next j b s p q f tag stale prev bs :
  segment_inv s f tag stale prev bs → committing j b s p q →
  p_seq q = next_seq (j_last_batch j) (j_generation j).
Proof.
  intros Hinv Hcm. destruct (committing_batch _ _ _ _ _ _ _ _ _ _ Hinv Hcm) as [[_ Hpp _ Hpl] _].
  by rewrite (pl_seq _ _ _ _ _ Hpl), (pp_seq _ _ _ Hpp).
Qed.

Lemma last_seq_snoc prev bs b : last_seq prev (bs ++ [b]) = lb_seq b.
Proof. unfold last_seq. by rewrite last_snoc. Qed.

(** One commit keeps it, with the batch at the end of the log. *)
Lemma writing_step mf j s w stale prev bs b p q meta ordered w1 :
  writing mf j s w stale prev bs → committing j b s p q →
  (∀ m, meta = Some m → wf_meta m) → write_protocol s mf q meta ordered w = (Ok (), w1) →
  writing mf (set_last (p_seq q) None j) (after_batch s q) w1 stale prev (bs ++ [lbatch_of q]).
Proof.
  intros [(f & Hf & Hinv) [old Hmb] [Hl0 Hls] [Hg Hst] Hfirst] Hcm Hwf Hrun.
  destruct (committing_protocol _ _ _ _ _ _ _ _ _ _ _ _ meta ordered Hinv Hf Hcm Hmb Hwf)
    as (r & w2 & f' & m0 & m' & Hrun' & Hm0 & Hf' & Hm' & Hms & Hma & Hpost).
  rewrite Hrun in Hrun'. injection Hrun' as <- <-. cbn in Hpost.
  destruct (committing_batch _ _ _ _ _ _ _ _ _ _ Hinv Hcm) as [Hcb Hlt].
  pose proof (p_seq_next _ _ _ _ _ _ _ _ _ _ Hinv Hcm) as Hseq.
  assert (is_stale stale (p_seq q) = false) as Hns.
  { unfold is_stale. rewrite Hseq in Hlt |- *.
    pose proof (next_seq_generation _ _ Hl0 Hg Hlt).
    by rewrite (proj2 (Z.ltb_ge _ _)) by lia. }
  assert (s_first_batch s ≤ p_seq q) as Hfs by lia.
  pose proof (commit_extends _ _ _ _ _ _ _ _ _ _ Hinv Hcb Hpost ltac:(lia) Hfs Hns) as Hinv'.
  split; cbn [j_last_batch j_generation j_tag set_last].
  - exists f'. split; [exact Hf'|exact Hinv'].
  - destruct Hmb as [Hne Hj (m1 & Hm1 & Hms1 & Hold)].
    destruct meta as [m|]; cbn in Hma.
    + exists m. split; [done|done|]. exists m'. by destruct Hma.
    + exists old. split; [done|done|]. exists m'. subst m'.
      assert (m1 = m0) as -> by congruence. done.
  - rewrite last_seq_snoc. cbn. lia.
  - done.
  - cbn. lia.
Qed.

Lemma commits_inv mf j s w bs j' s' w' stale prev bs0 :
  commits mf j s w bs j' s' w' → writing mf j s w stale prev bs0 →
  writing mf j' s' w' stale prev (bs0 ++ bs) ∧ j_tag j' = j_tag j ∧
  s_file s' = s_file s ∧ s_first_batch s' = s_first_batch s ∧ s_geometry s' = s_geometry s ∧
  s_prev_batch s' = s_prev_batch s.
Proof.
  intros Hc. revert bs0. induction Hc as [|j s w b p q meta ordered w1 bs j' s' w' Hcm Hwf Hrun _ IH];
    intros bs0 Hw; [by rewrite app_nil_r|].
  pose proof (writing_step _ _ _ _ _ _ _ _ _ _ _ _ _ Hw Hcm Hwf Hrun) as Hw1.
  destruct (IH _ Hw1) as (H1 & H2). by rewrite <- app_assoc in H1.
Qed.

(** C1: a history of acknowledged commits is recovered whole: after any
    number of commits to a segment, each in either durability mode and each
    returned without an error, a power loss and an open that scans the
    segment find every batch of the history, in order, the operations of all
    their records, the last batch's number and where the next batch goes,
    and report nothing damaged, ambiguous, rebuilt or voided. *)
Theorem history_recovered mf j s w stale bs0 bs j' s' w' :
  writing mf j s w stale (s_prev_batch s) bs0 → commits mf j s w bs j' s' w' →
  ∃ f', w_files w' !! bf_file (s_file s') = Some f' ∧
    ∀ g w2, crash_file f' g → w_files w2 !! bf_file (s_file s') = Some g → w_faults w2 = [] →
      scan [s'] (j_tag j) stale w2 =
        (Ok (mkScan (log_ops (s_first_batch s) 0 (bs0 ++ bs))
               (last_seq (s_prev_batch s) (bs0 ++ bs))
               [(s_persist_next s', s_entry_next s')] [] [] 0 0 None), w2).
Proof.
  intros Hw Hc. destruct (commits_inv _ _ _ _ _ _ _ _ _ _ _ Hc Hw)
    as ([(f & Hf & Hinv) _ _ _ _] & Ht & Hsf & Hfi & Hge & Hpr).
  exists f. split; [done|]. intros g w2 Hcr Hg Hw2. rewrite <- Ht, <- Hfi, <- Hpr.
  pose proof (segment_inv_crash _ _ _ _ _ _ _ Hinv Hcr) as Hinv2.
  pose proof (segment_inv_holds _ _ w2 _ _ _ _ Hinv2 Hg Hw2) as Hh.
  assert (logs_chain w2 (j_tag j') stale (s_prev_batch s') [(s', bs0 ++ bs)]) as Hch.
  { cbn. split_and!; try done. exists (f_vis g). rewrite Hpr. by destruct Hinv2. }
  pose proof (recovery_scan w2 (j_tag j') stale [(s', bs0 ++ bs)] Hch) as Hscan.
  cbn in Hscan. rewrite Hscan. unfold logs_ops. cbn. rewrite app_nil_r.
  pose proof (si_cursors _ _ _ _ _ _ Hinv2) as Hcu. unfold log_cursors in Hcu.
  by rewrite Hcu.
Qed.
End WithCrc.
