(* ===== verification/Open.v ===== *)
(** * Creating and opening a journal (crates/moonpool-journal/src/journal.rs)

    [Journal_create] and [Journal_open] with everything they call: the
    directory syncs ([sync_names]), the listing, the one spare that is kept,
    the segments' opening, the scan ([Recover]), the rewrite of the last
    batch's records, the syncs, the new generation and the index. *)

From stdpp Require Import sorting.
From Stdlib Require Import Ascii.
From S2P Require Import Prelude Crc Format Names Storage JournalIo MetaFile Batch Index.
From S2P Require Import Segment Recover Journal Commit.
#[local] Open Scope Z_scope.

(** ** Configuration and names *)

Definition check_config (config : JournalConfig) : res OpenError () :=
  if Geometry_is_valid (c_geometry config) then Ok tt
  else Err (OE_InvalidConfig "the geometry describes no usable segment").

(** [str::split('/')] *)
Fixpoint split_slash (s : str) : list str :=
  match s with
  | [] => [[]]
  | c :: s =>
      if decide (c = "/"%char) then [] :: split_slash s
      else match split_slash s with
           | [] => [[c]]
           | part :: parts => (c :: part) :: parts
           end
  end.

(** The loop of [ancestors_of] over the components. *)
Fixpoint ancestors_from (current : str) (components : list str) : list str :=
  match components with
  | [] => []
  | component :: components =>
      current ::
      ancestors_from
        (if decide (current = lit ".") then component
         else if decide (current = lit "/") then lit "/" ++ component
         else current ++ lit "/" ++ component) components
  end.

Definition ancestors_of (dir : str) : list str :=
  ancestors_from (match dir with "/"%char :: _ => lit "/" | _ => lit "." end)
    (filter (fun c => c ≠ [] ∧ c ≠ lit ".") (split_slash dir)).

Fixpoint sync_dirs (dirs : list str) : IO ErrorKind () :=
  match dirs with
  | [] => io_ret tt
  | dir :: dirs => sync_dir dir ;! sync_dirs dirs
  end.

Definition sync_names (dir : str) : IO ErrorKind () :=
  sync_dirs (ancestors_of dir) ;! sync_dir dir.

(** ** Listing a directory *)

(** [delete_if_present] *)
Definition delete_if_present (path : str) : IO ErrorKind () :=
  io_try (delete_ path) (fun r =>
    match r with
    | inl _ => io_ret tt
    | inr e => if decide (e = NotFound) then io_ret tt else io_err e
    end).

Record Listing := mkListing {
  li_firsts : list (Z * str);
  li_spares : list str;
}.

(** The loop of [list_segments] over the names. *)
Fixpoint sort_names (dir : str) (names : list str) (firsts : list (Z * str))
    (spares : list str) : IO OpenError (list (Z * str) * list str) :=
  match names with
  | [] => io_ret (firsts, spares)
  | name :: names =>
      if is_spare name then sort_names dir names firsts (spares ++ [name])
      else if is_segment_leftover name then
        lift_io (delete_if_present (path_in dir name)) ;! sort_names dir names firsts spares
      else match parse_segment_name name with
           | Some first => sort_names dir names (firsts ++ [(first, name)]) spares
           | None => sort_names dir names firsts spares
           end
  end.

(** The order of [(u64, String)]. *)
Definition first_le (a b : Z * str) : Prop :=
  a.1 < b.1 ∨ (a.1 = b.1 ∧ str_le a.2 b.2).
#[global] Instance first_le_dec : RelDecision first_le.
Proof. intros a b. unfold first_le. apply _. Defined.

Definition list_segments (dir : str) : IO OpenError (option Listing) :=
  io_try (list_dir dir) (fun r =>
    match r with
    | inr e => if decide (e = NotFound) then io_ret None else io_err (OE_Io e)
    | inl names =>
        lift_io (sync_names dir) ;!
        lift_io (remove_leftover dir) ;!
        let! '(firsts, spares) := sort_names dir names [] [] in
        io_ret (Some (mkListing (merge_sort first_le firsts) (merge_sort str_le spares)))
    end).

Section WithCrc.
Context {C : Crc32c}.

(** The loop of [keep_one_spare]. *)
Fixpoint keep_spares (dir : str) (spares : list str) (firsts : list (Z * str))
    (journal : JournalId) (config : JournalConfig) (kept : option str) (removed : Z) :
    IO OpenError (option str * Z) :=
  match spares with
  | [] => io_ret (kept, removed)
  | name :: spares =>
      let path := path_in dir name in
      let! whole :=
        match kept with
        | Some _ => io_ret false
        | None =>
            let! h := lift_io (open_existing path) in
            let! size := lift_io (file_size h) in
            io_ret (size =? total_blocks (c_geometry config) * BLOCK)
        end in
      let! aliased :=
        if whole then
          let! batches := named_batches path journal in
          io_ret (existsb (fun b => existsb (fun f => f.1 =? b) firsts) batches)
        else io_ret false in
      if whole && negb aliased
      then keep_spares dir spares firsts journal config (Some name) removed
      else lift_io (delete_if_present path) ;!
           keep_spares dir spares firsts journal config kept (removed + 1)
  end.

Definition keep_one_spare (dir : str) (spares : list str) (firsts : list (Z * str))
    (journal : JournalId) (config : JournalConfig) : IO OpenError (option str * Z) :=
  let! '(kept, removed) := keep_spares dir spares firsts journal config None 0 in
  (if 0 <? removed then lift_io (sync_dir dir) else io_ret tt) ;!
  io_ret (kept, removed).

(** [begin_generation]; [checked_add] on [u32] *)
Definition begin_generation (meta_file : BlockFile) (meta : Meta) (last_batch : Z) :
    IO OpenError Meta :=
  if 2 ^ 32 - 1 <? m_open_generation meta + 1
  then io_err (OE_InvalidConfig "open generations exhausted") else
  let meta := mkMeta (wrap64 (m_seq meta + 1)) (m_journal meta) (m_floor meta) last_batch
                (m_open_generation meta + 1) last_batch (m_geometry meta) (m_bytes meta) in
  lift_io (MetaFile_update meta_file meta) ;!
  io_ret meta.

(** [Journal::create] *)
Definition Journal_create (dir : str) (id : JournalId) (config : JournalConfig)
    (meta : list byte) : IO OpenError Journal :=
  match check_config config with
  | Err e => io_err e
  | Panic => io_panic
  | Ok _ =>
      if META_MAX <? len meta
      then io_err (OE_InvalidConfig "the first metainfo exceeds META_MAX") else
      lift_io (create_dir_all dir) ;!
      lift_io (sync_names dir) ;!
      let! there := lift_io (exists_ (path_in dir META_NAME)) in
      if there then io_err OE_AlreadyExists else
      let first := mkMeta 1 id 0 0 1 0 (c_geometry config) meta in
      let! meta_file := MetaFile_create dir first in
      io_ret (mkJournal dir id (journal_tag id) config meta_file first [] ∅ 0 None 1 false
                None false None 0 (mkRolls 0 0))
  end.

(** [Journal::peek_meta] *)
Definition peek_meta (dir : str) (id : JournalId) : IO OpenError (option (list byte)) :=
  let! meta := MetaFile_peek dir id in
  io_ret (m_bytes <$> meta).

(** The loop of [open] over the listed segments. *)
Fixpoint open_segments (dir : str) (firsts : list (Z * str)) (id : JournalId)
    (geometry : Geometry) (repairs : Z) : IO OpenError (list Segment * Z) :=
  match firsts with
  | [] => io_ret ([], repairs)
  | (first, name) :: firsts =>
      let! '(segment, repaired) := Segment_open dir name first id geometry in
      let! '(segments, repairs) := open_segments dir firsts id geometry
        (repairs + (if repaired : bool then 1 else 0)) in
      io_ret (segment :: segments, repairs)
  end.

(** [segments.iter_mut().zip(&scanned.cursors)] *)
Fixpoint set_all_cursors (segments : list Segment) (cursors : list (Z * Z)) : list Segment :=
  match segments, cursors with
  | s :: segments, (persist_next, entry_next) :: cursors =>
      set_cursors s persist_next entry_next :: set_all_cursors segments cursors
  | segments, _ => segments
  end.

Fixpoint sync_segments (segments : list Segment) : IO ErrorKind () :=
  match segments with
  | [] => io_ret tt
  | s :: segments => Segment_sync s ;! sync_segments segments
  end.

(** The rewrite of the last batch's records: the entries reach the disk
    first. *)
Definition rewrite_last (segments : list Segment) (rewrite : option (nat * Z * list byte)) :
    IO ErrorKind () :=
  match rewrite with
  | None => io_ret tt
  | Some (at_, offset, bytes) =>
      let! s := io_expect (segments !! at_) in
      Segment_sync s ;! Segment_write s offset bytes
  end.

(** The end of [open]: the index follows the scan. *)
Definition finish_open (j : Journal) (ops : list Op) (recovery : Recovery) :
    IO OpenError (option (Journal * Recovery)) :=
  let! '(segs, idx) := io_expect (apply_ops (j_segments j) (j_index j) ops) in
  let! '(segs, idx) := io_expect (drop_below_floor (m_floor (j_meta j)) segs idx) in
  let! '(removed, j) := (fun w =>
    let '(r, j, w) := remove_dead_segments (set_index segs idx j) w in
    match r with
    | Ok removed => (Ok (removed, j), w)
    | Err e => (Err (OE_Io e), w)
    | Panic => (Panic, w)
    end) in
  io_assert (assert_invariants (j_segments j) (j_index j) (m_floor (j_meta j))
               (m_bytes (j_meta j))) ;!
  io_ret (Some (j, mkRecovery (rc_corrupt recovery) (rc_ambiguous recovery) (rc_torn recovery)
                     (rc_rebuilt recovery) (rc_meta_repaired recovery)
                     (rc_headers_repaired recovery) removed (rc_spares_removed recovery)
                     (rc_spare_kept recovery))).

(** [Journal::open] *)
Definition Journal_open (dir : str) (id : JournalId) (config : JournalConfig) :
    IO OpenError (option (Journal * Recovery)) :=
  match check_config config with
  | Err e => io_err e
  | Panic => io_panic
  | Ok _ =>
      let! listing := list_segments dir in
      match listing with
      | None => io_ret None
      | Some (mkListing firsts spares) =>
          let! opened := MetaFile_open dir id in
          match opened with
          | None => match firsts with [] => io_ret None | _ => io_err OE_MetaLost end
          | Some (meta_file, meta, meta_repaired) =>
              if negb (bool_decide (m_geometry meta = c_geometry config))
              then io_err (OE_InvalidConfig
                "the geometry differs from the one the journal was created with") else
              let! '(spare, spares_removed) := keep_one_spare dir spares firsts id config in
              let! '(segments, headers_repaired) :=
                open_segments dir firsts id (c_geometry config) 0 in
              let tag := journal_tag id in
              let stale := mkStale (m_open_generation meta) (m_open_last meta) in
              let! scanned := scan segments tag stale in
              if sc_last_batch scanned <? m_last_batch meta
              then io_err (OE_LostBatch (m_last_batch meta)) else
              let segments := set_all_cursors segments (sc_cursors scanned) in
              lift_io (rewrite_last segments (sc_rewrite scanned)) ;!
              lift_io (sync_segments segments) ;!
              lift_io (MetaFile_sync meta_file) ;!
              let! meta := begin_generation meta_file meta (sc_last_batch scanned) in
              let recovery :=
                mkRecovery (sc_corrupt scanned) (sc_ambiguous scanned) (sc_voided scanned)
                  (sc_rebuilt scanned) meta_repaired headers_repaired 0 spares_removed
                  (bool_decide (is_Some spare)) in
              let ambiguous_batch :=
                match sc_ambiguous scanned with [] => None | _ => Some (sc_last_batch scanned) end in
              finish_open
                (mkJournal dir id tag config meta_file meta segments ∅ (sc_last_batch scanned)
                   ambiguous_batch (m_open_generation meta) false None false spare 0
                   (mkRolls 0 0))
                (sc_ops scanned) recovery
          end
      end
  end.
End WithCrc.
