(* ===== verification/Cursor.v ===== *)
(** Little-endian field cursors of the RPC envelopes
    (moonpool-rpc/src/protocol/cursor.rs).

    A [Writer] is the bytes appended so far, a [Reader] the bytes not read
    yet.  Every write appends, every read is bounds-checked and returns the
    remaining reader, or [None] with the reader unchanged.  The lemmas here
    say that a read undoes the write of the same width, whatever follows. *)
From stdpp Require Import base list numbers.
From S2P Require Import Prelude.

(** ** Socket addresses (std::net)

    An IPv6 address also carries a flow label and a scope, which
    [SocketAddr::new] sets to zero. *)
Inductive IpAddr :=
  | V4 (octets : list byte)
  | V6 (octets : list byte).

Record SocketAddr := mkSocketAddr {
  sa_ip : IpAddr;
  sa_port : Z;
  sa_flowinfo : Z;
  sa_scope_id : Z;
}.

#[global] Instance IpAddr_eq_dec : EqDecision IpAddr.
Proof. solve_decision. Defined.
#[global] Instance SocketAddr_eq_dec : EqDecision SocketAddr.
Proof. solve_decision. Defined.

Definition SocketAddr_new (ip : IpAddr) (port : Z) : SocketAddr :=
  mkSocketAddr ip port 0 0.

(** The values the Rust type has. *)
Definition ip_wf (ip : IpAddr) : Prop :=
  match ip with V4 o => len o = 4 | V6 o => len o = 16 end.

(** The addresses that survive the wire: the layout has no room for a flow
    label or a scope. *)
Definition addr_wf (a : SocketAddr) : Prop :=
  ip_wf (sa_ip a) ∧ u16 (sa_port a) ∧ sa_flowinfo a = 0 ∧ sa_scope_id a = 0.

(** ** Writer *)

Definition Writer := list byte.
Definition Writer_new : Writer := [].
Definition Writer_u8 (v : Z) (w : Writer) : Writer := w ++ [Z_to_byte v].
Definition Writer_u16 (v : Z) (w : Writer) : Writer := w ++ to_le_bytes 2 v.
Definition Writer_u32 (v : Z) (w : Writer) : Writer := w ++ to_le_bytes 4 v.
Definition Writer_u64 (v : Z) (w : Writer) : Writer := w ++ to_le_bytes 8 v.
Definition Writer_u128 (v : Z) (w : Writer) : Writer := w ++ to_le_bytes 16 v.
Definition Writer_bytes (v : list byte) (w : Writer) : Writer := w ++ v.

(** Family byte (4 or 6), the address octets, then the port. *)
Definition Writer_socket_addr (a : SocketAddr) (w : Writer) : Writer :=
  let w :=
    match sa_ip a with
    | V4 o => Writer_bytes o (Writer_u8 4 w)
    | V6 o => Writer_bytes o (Writer_u8 6 w)
    end in
  Writer_u16 (sa_port a) w.

(** Method chaining, as the encoders write it. *)
Declare Scope cursor_scope.
Delimit Scope cursor_scope with cursor.
Notation "w '▷' f" := (f w) (at level 50, left associativity, only parsing) : cursor_scope.

(** ** Reader *)

Definition Reader := list byte.

(** [split_first_chunk::<N>] *)
Definition Reader_take (n : nat) (r : Reader) : option (list byte * Reader) :=
  if (n <=? length r)%nat then Some (take n r, drop n r) else None.

Definition Reader_int (n : nat) (r : Reader) : option (Z * Reader) :=
  let* '(b, r) := Reader_take n r in Some (from_le_bytes b, r).

Definition Reader_u8 := Reader_int 1.
Definition Reader_u16 := Reader_int 2.
Definition Reader_u32 := Reader_int 4.
Definition Reader_u64 := Reader_int 8.
Definition Reader_u128 := Reader_int 16.

Definition Reader_slice (n : Z) (r : Reader) : option (list byte * Reader) :=
  if len r <? n then None else Some (take (Z.to_nat n) r, drop (Z.to_nat n) r).

Definition Reader_rest (r : Reader) : list byte := r.
Definition Reader_is_empty (r : Reader) : bool := match r with [] => true | _ => false end.

(** ** A read undoes the write before it *)

Lemma Reader_int_app n v rest :
  0 ≤ v < 256 ^ Z.of_nat n →
  Reader_int n (to_le_bytes n v ++ rest) = Some (v, rest).
Proof.
  intros Hv. unfold Reader_int, Reader_take.
  pose proof (len_to_le_bytes n v) as Hl. unfold len in Hl.
  assert (length (to_le_bytes n v) = n) as El by lia.
  rewrite length_app, El. destruct (Nat.leb_spec n (n + length rest)); [|lia]. cbn [mbind option_bind].
  rewrite take_app_length' by done. rewrite drop_app_length' by done.
  by rewrite from_to_le_bytes_small.
Qed.

Lemma Reader_u8_app v rest : u8 v → Reader_u8 (Z_to_byte v :: rest) = Some (v, rest).
Proof. intros H. exact (Reader_int_app 1 v rest H). Qed.

Lemma Reader_slice_app l rest n : n = len l → Reader_slice n (l ++ rest) = Some (l, rest).
Proof.
  intros ->. unfold Reader_slice. rewrite len_app.
  pose proof (len_nonneg rest). destruct (Z.ltb_spec (len l + len rest) (len l)); [lia|].
  unfold len. rewrite Nat2Z.id.
  by rewrite take_app_length, drop_app_length.
Qed.

(** What a successful read says about its input. *)
Lemma Reader_int_inv n r v r' :
  Reader_int n r = Some (v, r') →
  r = to_le_bytes n v ++ r' ∧ 0 ≤ v < 256 ^ Z.of_nat n.
Proof.
  unfold Reader_int, Reader_take. destruct (Nat.leb_spec n (length r)); [|done].
  cbn. intros [= <- <-].
  assert (length (take n r) = n) as El by (rewrite length_take; lia).
  pose proof (to_from_le_bytes (take n r)) as E. rewrite El in E. rewrite E.
  split; [by rewrite take_drop|].
  pose proof (from_le_bytes_range (take n r)) as R. unfold len in R. by rewrite El in R.
Qed.

Lemma Reader_slice_inv n r l r' :
  0 ≤ n → Reader_slice n r = Some (l, r') → r = l ++ r' ∧ len l = n.
Proof.
  intros Hn. unfold Reader_slice. destruct (Z.ltb_spec (len r) n); [done|].
  intros [= <- <-]. split; [by rewrite take_drop|].
  unfold len in *. rewrite length_take. lia.
Qed.
