(* ===== verification/Frame.v ===== *)
(** Length-prefixed, checksummed frames (moonpool-rpc/src/protocol/frame.rs)
    and the reader loop that feeds them to a connection
    (moonpool-rpc/src/transport/connection.rs, [read_loop]).

    The checksum is XXH3-64 of the [xxhash_rust] crate, which is not part of
    the repository: the development is parametric in it through the class
    [Xxh3].  The specification is [scan_frames], a parser of a whole byte string;
    the incremental decoder refines it whatever the split points. *)
From stdpp Require Import base list numbers strings pretty.
From S2P Require Import Prelude Cursor.

(** The streaming hasher: [update] appends, [digest] hashes what was
    appended, a [u64]. *)
Class Xxh3 := {
  xxh3_digest : list byte → Z;
  xxh3_digest_u64 l : u64 (xxh3_digest l);
}.

Definition HEADER_LEN : Z := 12.

(** [usize] is 64 bits wide. *)
Definition usize_checked_add (a b : Z) : option Z := checked_add64 a b.

Inductive FrameError :=
  | TooLarge (size limit : Z)
  | Empty
  | Checksum (expected computed : Z).

#[global] Instance FrameError_eq_dec : EqDecision FrameError.
Proof. solve_decision. Defined.

(** Lower-case hexadecimal, [n] digits. *)
Fixpoint hex (n : nat) (z : Z) : string :=
  match n with
  | O => ""
  | S n =>
      hex n (z / 16) +:+
      match String.get (Z.to_nat (z mod 16)) "0123456789abcdef" with
      | Some c => String c ""
      | None => ""
      end
  end.

(** The [Display] text of a frame error. *)
Definition FrameError_to_string (e : FrameError) : string :=
  match e with
  | TooLarge size limit =>
      "frame payload of " +:+ pretty size +:+ " bytes exceeds the " +:+ pretty limit
      +:+ "-byte limit"
  | Empty => "frame declared an empty payload"
  | Checksum expected computed =>
      "frame checksum mismatch (carried 0x" +:+ hex 16 expected +:+ ", computed 0x"
      +:+ hex 16 computed +:+ ")"
  end.

(** Why a connection ended. *)
Inductive CloseReason :=
  | ConnectFailed (detail : string)
  | PeerClosed
  | Io (detail : string)
  | Protocol (detail : string)
  | CloseReason_Checksum (detail : string)
  | Version (detail : string)
  | PingTimeout
  | Local
  | Idle
  | Injected
  | Replaced.

#[global] Instance CloseReason_eq_dec : EqDecision CloseReason.
Proof. solve_decision. Defined.

(** Whether the connection ended because something went wrong. *)
Definition is_failure (r : CloseReason) : bool :=
  match r with Idle | Replaced => false | _ => true end.

Record FrameDecoder := mkFrameDecoder {
  fd_buffer : list byte;
  fd_start : Z;
  fd_max_frame_bytes : Z;
  fd_failed : option FrameError;
}.

Section Frame.
Context `{Xxh3}.

(** ** Encoding *)

Definition frame_checksum (length payload : list byte) : Z :=
  xxh3_digest (length ++ payload).

Definition encode_frame (payload : list byte) (max_frame_bytes : Z) : res FrameError (list byte) :=
  let size := len payload in
  if max_frame_bytes <? size then Err (TooLarge size max_frame_bytes) else
  if Reader_is_empty payload then Err Empty else
  if 2 ^ 32 <=? len payload then Err (TooLarge size max_frame_bytes) else
  let length := to_le_bytes 4 (len payload) in
  Ok (length ++ to_le_bytes 8 (frame_checksum length payload) ++ payload).

(** ** The incremental decoder *)

Definition FrameDecoder_new (max_frame_bytes : Z) : FrameDecoder :=
  mkFrameDecoder [] 0 max_frame_bytes None.

Definition feed (d : FrameDecoder) (bytes : list byte) : FrameDecoder :=
  let '(buffer, start) :=
    if (0 <? fd_start d) && (len (fd_buffer d) / 2 <=? fd_start d)
    then (drop (Z.to_nat (fd_start d)) (fd_buffer d), 0)
    else (fd_buffer d, fd_start d) in
  mkFrameDecoder (buffer ++ bytes) start (fd_max_frame_bytes d) (fd_failed d).

Definition fd_buffered (d : FrameDecoder) : Z := len (fd_buffer d) - fd_start d.

Definition fd_is_idle (d : FrameDecoder) : bool := fd_buffered d =? 0.

(** [&self.buffer[self.start..]] *)
Definition fd_pending (d : FrameDecoder) : list byte :=
  drop (Z.to_nat (fd_start d)) (fd_buffer d).

Definition fail_with (d : FrameDecoder) (e : FrameError) :
    FrameDecoder * res FrameError (option (list byte)) :=
  (mkFrameDecoder (fd_buffer d) (fd_start d) (fd_max_frame_bytes d) (Some e), Err e).

Definition next_frame (d : FrameDecoder) : FrameDecoder * res FrameError (option (list byte)) :=
  match fd_failed d with
  | Some error => (d, Err error)
  | None =>
    let pending := fd_pending d in
    match Reader_take 4 pending with
    | None => (d, Ok None)
    | Some (length_bytes, _) =>
      let length := from_le_bytes length_bytes in
      if fd_max_frame_bytes d <? length
      then fail_with d (TooLarge length (fd_max_frame_bytes d)) else
      if length =? 0 then fail_with d Empty else
      match usize_checked_add length HEADER_LEN with
      | None => fail_with d (TooLarge length (fd_max_frame_bytes d))
      | Some total =>
        if len pending <? total then (d, Ok None) else
        let expected := from_le_bytes (slice pending 4 HEADER_LEN) in
        let payload := slice pending HEADER_LEN total in
        let computed := frame_checksum length_bytes payload in
        if negb (computed =? expected) then fail_with d (Checksum expected computed) else
        let start := fd_start d + total in
        let d :=
          if start =? len (fd_buffer d)
          then mkFrameDecoder [] 0 (fd_max_frame_bytes d) None
          else mkFrameDecoder (fd_buffer d) start (fd_max_frame_bytes d) None in
        (d, Ok (Some payload))
      end
    end
  end.

(** ** The reader loop of a connection

    What [read_loop] gets from the socket is a sequence of reads, each a
    chunk of bytes (empty at the end of the stream) or an I/O error; what it
    does with a frame is the callback [on_frame], which returns [None] or
    the reason to end the session.
    Its result is the reason the session ended, or [None] while it waits for
    the next read. *)

Definition close_for (e : FrameError) : CloseReason :=
  match e with
  | Checksum _ _ => CloseReason_Checksum (FrameError_to_string e)
  | _ => Protocol (FrameError_to_string e)
  end.

Section Loop.
Context {S : Type} (on_frame : S → list byte → S * option CloseReason).

(** The inner loop.  Every frame consumes more than [HEADER_LEN] bytes, so
    the bytes buffered are enough fuel. *)
Fixpoint pull_frames (fuel : nat) (d : FrameDecoder) (s : S) :
    FrameDecoder * S * option CloseReason :=
  match fuel with
  | O => (d, s, None)
  | Datatypes.S fuel =>
    match next_frame d with
    | (d, Ok (Some payload)) =>
        match on_frame s payload with
        | (s, None) => pull_frames fuel d s
        | (s, Some reason) => (d, s, Some reason)
        end
    | (d, Ok None) => (d, s, None)
    | (d, Err e) => (d, s, Some (close_for e))
    | (d, Panic) => (d, s, None)
    end
  end.

Fixpoint read_frames (d : FrameDecoder) (s : S) (reads : list (string + list byte)) :
    S * option CloseReason :=
  match reads with
  | [] => (s, None)
  | inl error :: _ => (s, Some (Io error))
  | inr [] :: _ =>
      (s, Some (if fd_is_idle d then PeerClosed
                else Protocol ("stream ended inside a frame (" +:+ pretty (fd_buffered d)
                               +:+ " bytes buffered)")))
  | inr chunk :: reads =>
      let d := feed d chunk in
      match pull_frames (Datatypes.S (length (fd_pending d))) d s with
      | (_, s, Some reason) => (s, Some reason)
      | (d, s, None) => read_frames d s reads
      end
  end.

Definition read_loop (max_frame_bytes : Z) (s : S) (reads : list (string + list byte)) :=
  read_frames (FrameDecoder_new max_frame_bytes) s reads.

End Loop.

(** ** Specification: parsing a whole byte string *)

Inductive scanned :=
  | Frame (payload rest : list byte)
  | NeedMore
  | Lost (e : FrameError).

Definition scan_one (max : Z) (bytes : list byte) : scanned :=
  if len bytes <? 4 then NeedMore else
  let length_bytes := slice bytes 0 4 in
  let length := from_le_bytes length_bytes in
  if max <? length then Lost (TooLarge length max) else
  if length =? 0 then Lost Empty else
  let total := length + HEADER_LEN in
  if len bytes <? total then NeedMore else
  let expected := from_le_bytes (slice bytes 4 12) in
  let payload := slice bytes 12 total in
  let computed := frame_checksum length_bytes payload in
  if computed =? expected then Frame payload (slice bytes total (len bytes))
  else Lost (Checksum expected computed).

(** What the bytes mean: the frames they carry, then either the bytes of an
    unfinished frame or the reason framing was lost. *)
Fixpoint scan_frames (fuel : nat) (max : Z) (bytes : list byte) :
    list (list byte) * (list byte + FrameError) :=
  match fuel with
  | O => ([], inl bytes)
  | S fuel =>
    match scan_one max bytes with
    | NeedMore => ([], inl bytes)
    | Lost e => ([], inr e)
    | Frame payload rest =>
        let '(out, tail) := scan_frames fuel max rest in (payload :: out, tail)
    end
  end.

Definition scan_all (max : Z) (bytes : list byte) := scan_frames (S (length bytes)) max bytes.

(** ** The decoder's invariant *)

Definition fd_inv (d : FrameDecoder) : Prop :=
  0 ≤ fd_start d ≤ len (fd_buffer d) ∧ u32 (fd_max_frame_bytes d).

Lemma fd_buffered_pending d : fd_inv d → fd_buffered d = len (fd_pending d).
Proof.
  intros [[? ?] _]. unfold fd_buffered, fd_pending, len in *. rewrite length_drop. lia.
Qed.

Lemma FrameDecoder_new_inv max : u32 max → fd_inv (FrameDecoder_new max).
Proof. intros ?. split; [|done]. unfold len. cbn. lia. Qed.

Lemma feed_inv d b : fd_inv d → fd_inv (feed d b).
Proof.
  intros [[? ?] ?]. pose proof (len_nonneg b). unfold feed.
  destruct (_ && _); (split; cbn; [|done]); rewrite len_app; [|lia].
  pose proof (len_nonneg (drop (Z.to_nat (fd_start d)) (fd_buffer d))). lia.
Qed.

Lemma feed_pending d b : fd_inv d → fd_pending (feed d b) = fd_pending d ++ b.
Proof.
  intros [[? Hl] ?]. unfold feed, fd_pending, len in *. destruct (_ && _); cbn; [done|].
  rewrite drop_app_le by lia. done.
Qed.

Lemma slice_0_take (l : list byte) n : slice l 0 (Z.of_nat n) = take n l.
Proof. unfold slice. f_equal. lia. Qed.

Lemma slice_to_end (l : list byte) n : 0 ≤ n → slice l n (len l) = drop (Z.to_nat n) l.
Proof.
  intros. unfold slice, len. apply take_ge. rewrite length_drop. lia.
Qed.

Lemma from_le_bytes_4 (l : list byte) : 4 ≤ len l → u32 (from_le_bytes (slice l 0 4)).
Proof.
  intros Hl. pose proof (from_le_bytes_range (slice l 0 4)) as R.
  rewrite len_slice in R by lia. exact R.
Qed.

(** ** One step of the decoder is one step of the specification *)

Definition steps_as (d : FrameDecoder) (o : scanned) : Prop :=
  match o with
  | NeedMore => next_frame d = (d, Ok None)
  | Lost e => next_frame d = fail_with d e
  | Frame p r =>
      ∃ d', next_frame d = (d', Ok (Some p)) ∧ fd_pending d' = r ∧ fd_inv d' ∧
        fd_failed d' = None ∧ fd_max_frame_bytes d' = fd_max_frame_bytes d
  end.

Lemma next_frame_steps d :
  fd_inv d → fd_failed d = None →
  steps_as d (scan_one (fd_max_frame_bytes d) (fd_pending d)).
Proof.
  intros Hd Hf. destruct (Hd) as [[? ?] [? ?]].
  pose proof (fd_buffered_pending _ Hd) as Hb. unfold fd_buffered in Hb.
  unfold steps_as, scan_one, next_frame, Reader_take. rewrite Hf.
  set (P := fd_pending d) in *.
  destruct (Z.ltb_spec (len P) 4).
  { destruct (Nat.leb_spec 4 (length P)); [unfold len in *; lia|done]. }
  destruct (Nat.leb_spec 4 (length P)); [|unfold len in *; lia].
  rewrite <- (slice_0_take P 4). change (Z.of_nat 4) with 4.
  pose proof (from_le_bytes_4 P ltac:(lia)) as [? ?].
  set (n := from_le_bytes (slice P 0 4)) in *.
  destruct (fd_max_frame_bytes d <? n); [done|].
  destruct (Z.eqb_spec n 0); [done|].
  unfold usize_checked_add, checked_add64, u64_max, HEADER_LEN.
  destruct (Z.leb_spec (n + 12) (2 ^ 64 - 1)); [|lia].
  destruct (Z.ltb_spec (len P) (n + 12)); [done|].
  destruct (frame_checksum _ _ =? _); cbn [negb]; [|done].
  eexists. split; [reflexivity|].
  destruct (Z.eqb_spec (fd_start d + (n + 12)) (len (fd_buffer d))); cbn.
  - rewrite slice_to_end by lia. repeat split; try done; cbn.
    symmetry. apply drop_ge. unfold len in *. lia.
  - rewrite slice_to_end by lia. repeat split; try done; cbn; try lia.
    unfold P, fd_pending; cbn. rewrite drop_drop. f_equal. lia.
Qed.

(** ** The specification is monotone: more bytes never change what was read *)

Lemma scan_one_app_frame max a b p r :
  scan_one max a = Frame p r → scan_one max (a ++ b) = Frame p (r ++ b).
Proof.
  unfold scan_one, HEADER_LEN. pose proof (len_nonneg b). rewrite len_app.
  destruct (Z.ltb_spec (len a) 4); [done|].
  destruct (Z.ltb_spec (len a + len b) 4); [lia|].
  rewrite !slice_app_l by lia.
  pose proof (from_le_bytes_4 a ltac:(lia)) as [? ?].
  set (n := from_le_bytes (slice a 0 4)) in *.
  destruct (max <? n); [done|]. destruct (n =? 0) eqn:E0; [done|].
  destruct (Z.ltb_spec (len a) (n + 12)); [done|].
  destruct (Z.ltb_spec (len a + len b) (n + 12)); [lia|].
  rewrite !slice_app_l by lia.
  destruct (frame_checksum _ _ =? _); [|discriminate]. intros [= <- <-]. f_equal.
  rewrite <- len_app, !slice_to_end by lia. rewrite drop_app_le; [done|]. unfold len in *; lia.
Qed.

Lemma scan_one_app_lost max a b e :
  scan_one max a = Lost e → scan_one max (a ++ b) = Lost e.
Proof.
  unfold scan_one, HEADER_LEN. pose proof (len_nonneg b). rewrite len_app.
  destruct (Z.ltb_spec (len a) 4); [done|].
  destruct (Z.ltb_spec (len a + len b) 4); [lia|].
  rewrite !slice_app_l by lia.
  pose proof (from_le_bytes_4 a ltac:(lia)) as [? ?].
  set (n := from_le_bytes (slice a 0 4)) in *.
  destruct (max <? n); [done|]. destruct (n =? 0) eqn:E0; [done|].
  destruct (Z.ltb_spec (len a) (n + 12)); [done|].
  destruct (Z.ltb_spec (len a + len b) (n + 12)); [lia|].
  rewrite !slice_app_l by lia. by destruct (frame_checksum _ _ =? _).
Qed.

Lemma scan_one_frame_len max a p r :
  scan_one max a = Frame p r →
  len a = HEADER_LEN + len p + len r ∧ 0 < len p ≤ max ∧ u32 (len p).
Proof.
  unfold scan_one, HEADER_LEN.
  destruct (Z.ltb_spec (len a) 4); [done|].
  pose proof (from_le_bytes_4 a ltac:(lia)) as [? ?].
  set (n := from_le_bytes (slice a 0 4)) in *.
  destruct (Z.ltb_spec max n); [done|]. destruct (Z.eqb_spec n 0); [done|].
  destruct (Z.ltb_spec (len a) (n + 12)); [done|].
  destruct (frame_checksum _ _ =? _); [|discriminate]. intros [= <- <-].
  unfold in_u. rewrite !len_slice by lia. lia.
Qed.

(** A specification step that needs more bytes keeps less than one frame. *)
Lemma scan_one_need max a :
  0 ≤ max → scan_one max a = NeedMore → len a < HEADER_LEN + max.
Proof.
  unfold scan_one, HEADER_LEN. intros Hm.
  destruct (Z.ltb_spec (len a) 4); [lia|].
  set (n := from_le_bytes (slice a 0 4)) in *.
  destruct (Z.ltb_spec max n); [done|]. destruct (n =? 0); [done|].
  destruct (Z.ltb_spec (len a) (n + 12)); [lia|]. by destruct (frame_checksum _ _ =? _).
Qed.

(** Fuel beyond the number of bytes changes nothing. *)
Lemma scan_fuel max f g a :
  (length a < f)%nat → (length a < g)%nat → scan_frames f max a = scan_frames g max a.
Proof.
  revert g a. induction f as [|f IH]; intros g a Hf Hg; [lia|].
  destruct g as [|g]; [lia|]. cbn [scan_frames].
  destruct (scan_one max a) as [p r| |e] eqn:E; [|done..].
  apply scan_one_frame_len in E as (E & ? & ?). unfold HEADER_LEN, len in *.
  rewrite (IH g r) by lia. done.
Qed.

Lemma scan_all_unfold max a :
  scan_all max a =
  match scan_one max a with
  | NeedMore => ([], inl a)
  | Lost e => ([], inr e)
  | Frame p r => let '(out, tail) := scan_all max r in (p :: out, tail)
  end.
Proof.
  unfold scan_all at 1. cbn [scan_frames]. destruct (scan_one max a) as [p r| |e] eqn:E; [|done..].
  apply scan_one_frame_len in E as (E & ? & ?). unfold HEADER_LEN, len in *.
  unfold scan_all. rewrite (scan_fuel max (length a) (S (length r))) by lia. done.
Qed.

(** Scanning a concatenation: continue from the unfinished bytes. *)
Lemma scan_all_app max a b :
  scan_all max (a ++ b) =
  match scan_all max a with
  | (out, inr e) => (out, inr e)
  | (out, inl rest) =>
      let '(out', tail) := scan_all max (rest ++ b) in (out ++ out', tail)
  end.
Proof.
  remember (length a) as n eqn:En. revert a En.
  induction n as [n IH] using lt_wf_ind. intros a ->.
  rewrite (scan_all_unfold max a). destruct (scan_one max a) as [p r| |e] eqn:E.
  - rewrite (scan_all_unfold max (a ++ b)), (scan_one_app_frame _ _ _ _ _ E).
    apply scan_one_frame_len in E as (E & ? & ?). unfold HEADER_LEN, len in *.
    rewrite (IH (length r)) by lia.
    destruct (scan_all max r) as [out [rest|e]]; [|done].
    by destruct (scan_all max (rest ++ b)).
  - by destruct (scan_all max (a ++ b)).
  - by rewrite (scan_all_unfold max (a ++ b)), (scan_one_app_lost _ _ _ _ E).
Qed.

(** What is left over is less than a frame. *)
Lemma scan_all_rest max a out rest :
  scan_all max a = (out, inl rest) → scan_one max rest = NeedMore.
Proof.
  remember (length a) as n eqn:En. revert a out En.
  induction n as [n IH] using lt_wf_ind. intros a out ->. rewrite scan_all_unfold.
  destruct (scan_one max a) as [p r| |e] eqn:E; [|congruence..].
  apply scan_one_frame_len in E as (E & ? & ?). unfold HEADER_LEN, len in *.
  destruct (scan_all max r) as [out' tail] eqn:Er. intros [= <- ->].
  by apply (IH (length r) ltac:(lia) r out').
Qed.

(** ** A frame the encoder made is read back *)

Lemma Ok_inj {E A} (x y : A) : @Ok E A x = Ok y → x = y.
Proof. by intros [= ->]. Qed.

Lemma encode_frame_scan p max f rest :
  u32 max → encode_frame p max = Ok f → scan_one max (f ++ rest) = Frame p rest.
Proof.
  intros [? ?]. unfold encode_frame.
  destruct (Z.ltb_spec max (len p)); [done|].
  destruct (Reader_is_empty p) eqn:Ep; [done|].
  assert (0 < len p).
  { destruct p; [done|]. rewrite len_cons. pose proof (len_nonneg p). lia. }
  destruct (Z.leb_spec (2 ^ 32) (len p)); [done|]. intros Hf%Ok_inj. subst f.
  set (c := frame_checksum _ p). pose proof (xxh3_digest_u64 (to_le_bytes 4 (len p) ++ p)) as Hc.
  unfold scan_one, HEADER_LEN. pose proof (len_nonneg rest).
  rewrite <- !app_assoc.
  set (L := to_le_bytes 4 (len p)). set (C := to_le_bytes 8 c).
  assert (len L = 4) as HL by apply len_to_le_bytes.
  assert (len C = 8) as HC by apply len_to_le_bytes.
  assert (len (L ++ C ++ p ++ rest) = 12 + len p + len rest) as Hall
    by (rewrite !len_app; lia).
  rewrite Hall. destruct (Z.ltb_spec (12 + len p + len rest) 4); [lia|].
  assert (slice (L ++ C ++ p ++ rest) 0 4 = L) as ->.
  { rewrite slice_app_l by lia. rewrite <- HL. apply slice_all. lia. }
  assert (from_le_bytes L = len p) as -> by (apply from_to_le_bytes_small; cbn; lia).
  destruct (Z.ltb_spec max (len p)); [lia|]. destruct (Z.eqb_spec (len p) 0); [lia|].
  destruct (Z.ltb_spec (12 + len p + len rest) (len p + 12)); [lia|].
  assert (slice (L ++ C ++ p ++ rest) 4 12 = C) as ->.
  { rewrite slice_app_r by lia. rewrite HL, slice_app_l by lia. apply slice_all. lia. }
  assert (slice (L ++ C ++ p ++ rest) 12 (len p + 12) = p) as ->.
  { rewrite slice_app_r by lia. rewrite HL, slice_app_r by lia. rewrite HC.
    rewrite slice_app_l by lia. apply slice_all. lia. }
  assert (from_le_bytes C = c) as -> by (apply from_to_le_bytes_small; exact Hc).
  fold L in c. fold c. rewrite Z.eqb_refl. f_equal.
  rewrite <- Hall, slice_to_end by lia.
  rewrite !drop_app_ge by (unfold len in *; lia). unfold len in *.
  replace (_ - _)%nat with O by lia. done.
Qed.

Lemma encode_frames_scan max payloads frames :
  u32 max → Forall2 (λ p f, encode_frame p max = Ok f) payloads frames →
  scan_all max (concat frames) = (payloads, inl []).
Proof.
  intros Hm. induction 1 as [|p f ps fs Hf _ IH]; [by rewrite scan_all_unfold|].
  cbn [concat]. by rewrite scan_all_unfold, (encode_frame_scan _ _ _ _ Hm Hf), IH.
Qed.

(** ** The reader loop delivers exactly the frames of the bytes it read *)

Section Delivery.
Context {S : Type} (on_frame : S → list byte → S * option CloseReason).

Fixpoint deliver (s : S) (frames : list (list byte)) : S * option CloseReason :=
  match frames with
  | [] => (s, None)
  | p :: frames =>
    match on_frame s p with
    | (s, Some reason) => (s, Some reason)
    | (s, None) => deliver s frames
    end
  end.

(** The abstract reader: parse everything received, hand the frames over in
    order, then end the session if framing was lost. *)
Definition session_of (max : Z) (s : S) (bytes : list byte) :
    S * (CloseReason + list byte) :=
  let '(frames, tail) := scan_all max bytes in
  match deliver s frames with
  | (s, Some reason) => (s, inl reason)
  | (s, None) =>
      (s, match tail with inl rest => inr rest | inr e => inl (close_for e) end)
  end.

Lemma deliver_app s a b :
  deliver s (a ++ b) =
  match deliver s a with
  | (s, Some reason) => (s, Some reason)
  | (s, None) => deliver s b
  end.
Proof.
  revert s. induction a as [|p a IH]; intros s; cbn; [done|].
  by destruct (on_frame s p) as [s' [?|]].
Qed.

Lemma session_of_app max s a b :
  session_of max s (a ++ b) =
  match session_of max s a with
  | (s, inl reason) => (s, inl reason)
  | (s, inr rest) => session_of max s (rest ++ b)
  end.
Proof.
  unfold session_of. rewrite scan_all_app.
  destruct (scan_all max a) as [out [rest|e]].
  - destruct (scan_all max (rest ++ b)) as [out' tail] eqn:E'. rewrite deliver_app.
    destruct (deliver s out) as [s' [reason|]]; [done|]. by rewrite E'.
  - by destruct (deliver s out) as [s' [reason|]].
Qed.

Lemma pull_frames_session fuel d s :
  fd_inv d → fd_failed d = None → (length (fd_pending d) < fuel)%nat →
  match session_of (fd_max_frame_bytes d) s (fd_pending d) with
  | (s', inl reason) => ∃ d', pull_frames on_frame fuel d s = (d', s', Some reason)
  | (s', inr rest) =>
      ∃ d', pull_frames on_frame fuel d s = (d', s', None) ∧ fd_inv d' ∧
        fd_failed d' = None ∧ fd_pending d' = rest ∧
        fd_max_frame_bytes d' = fd_max_frame_bytes d
  end.
Proof.
  revert d s. induction fuel as [|fuel IH]; intros d s Hi Hf Hl; [lia|].
  pose proof (next_frame_steps d Hi Hf) as St. unfold session_of.
  rewrite scan_all_unfold. cbn [pull_frames].
  destruct (scan_one _ (fd_pending d)) as [p r| |e] eqn:E; cbn [steps_as] in St.
  - destruct St as (d' & -> & Hr & Hi' & Hf' & Hm).
    apply scan_one_frame_len in E as (E & ? & ?). unfold HEADER_LEN, len in *.
    specialize (IH d').
    destruct (scan_all _ r) as [out tail] eqn:Er. cbn [deliver].
    destruct (on_frame s p) as [s' [reason|]]; [by eexists|].
    specialize (IH s' Hi' Hf' ltac:(rewrite Hr; lia)).
    unfold session_of in IH. rewrite Hr, Hm, Er in IH.
    destruct (deliver s' out) as [s'' [reason|]]; [done|]. by destruct tail.
  - rewrite St. cbn. by exists d.
  - rewrite St. cbn. by eexists.
Qed.

Lemma session_of_rest max s a s' rest :
  session_of max s a = (s', inr rest) → scan_one max rest = NeedMore.
Proof.
  unfold session_of. destruct (scan_all max a) as [out [r|e]] eqn:E;
    destruct (deliver s out) as [s1 [reason|]]; intros [= <- <-].
  by apply scan_all_rest in E.
Qed.

Lemma read_frames_session d s chunks reads :
  fd_inv d → fd_failed d = None → Forall (λ c, c ≠ []) chunks →
  scan_one (fd_max_frame_bytes d) (fd_pending d) = NeedMore →
  match session_of (fd_max_frame_bytes d) s (fd_pending d ++ concat chunks) with
  | (s', inl reason) => read_frames on_frame d s (map inr chunks ++ reads) = (s', Some reason)
  | (s', inr rest) =>
      ∃ d', read_frames on_frame d s (map inr chunks ++ reads) = read_frames on_frame d' s' reads ∧
        fd_inv d' ∧ fd_pending d' = rest ∧ fd_max_frame_bytes d' = fd_max_frame_bytes d
  end.
Proof.
  revert d s. induction chunks as [|c chunks IH]; intros d s Hi Hf Hc Hn; cbn [concat map app].
  { rewrite app_nil_r. unfold session_of. rewrite scan_all_unfold, Hn. cbn. by exists d. }
  inversion_clear Hc. destruct c as [|b c]; [done|].
  cbn [read_frames]. set (chunk := b :: c) in *. set (d1 := feed d chunk).
  pose proof (feed_inv d chunk Hi) as Hi1.
  assert (fd_failed d1 = None) as Hf1 by (unfold d1, feed; by destruct (_ && _)).
  assert (fd_max_frame_bytes d1 = fd_max_frame_bytes d) as Hm1
    by (unfold d1, feed; by destruct (_ && _)).
  pose proof (pull_frames_session (Datatypes.S (length (fd_pending d1))) d1 s Hi1 Hf1
                ltac:(lia)) as P.
  rewrite <- Hm1. rewrite (app_assoc (fd_pending d) chunk), <- (feed_pending d chunk Hi).
  fold d1. rewrite session_of_app.
  destruct (session_of _ s (fd_pending d1)) as [s1 [reason|rest]] eqn:E1.
  - destruct P as (d' & ->). done.
  - destruct P as (d' & -> & Hi' & Hf' & Hp' & Hm').
    rewrite <- Hp', <- Hm'. apply IH; try done.
    rewrite Hm', Hp'. by apply session_of_rest in E1.
Qed.

Lemma read_loop_session max s chunks reads :
  u32 max → Forall (λ c, c ≠ []) chunks →
  match session_of max s (concat chunks) with
  | (s', inl reason) => read_loop on_frame max s (map inr chunks ++ reads) = (s', Some reason)
  | (s', inr rest) =>
      ∃ d', read_loop on_frame max s (map inr chunks ++ reads) = read_frames on_frame d' s' reads ∧
        fd_inv d' ∧ fd_pending d' = rest ∧ fd_max_frame_bytes d' = max
  end.
Proof.
  intros Hm Hc.
  exact (read_frames_session (FrameDecoder_new max) s chunks reads
           (FrameDecoder_new_inv max Hm) eq_refl Hc eq_refl).
Qed.

End Delivery.

(** ** Memory: the states a decoder goes through *)

(** The decoders of a session whose reads are at most [chunk] bytes: fed
    only when no complete frame is left, as [read_loop] does. *)
Inductive reading (max chunk : Z) : FrameDecoder → Prop :=
  | reading_new : reading max chunk (FrameDecoder_new max)
  | reading_feed d c :
      reading max chunk d → next_frame d = (d, Ok None) → len c ≤ chunk →
      reading max chunk (feed d c)
  | reading_next d p d' :
      reading max chunk d → next_frame d = (d', Ok (Some p)) → reading max chunk d'.

Lemma next_frame_none d :
  fd_inv d → fd_failed d = None → next_frame d = (d, Ok None) →
  fd_buffered d < HEADER_LEN + fd_max_frame_bytes d.
Proof.
  intros Hi Hf Hn. rewrite (fd_buffered_pending _ Hi).
  pose proof (next_frame_steps d Hi Hf) as St.
  destruct (scan_one _ _) as [p r| |e] eqn:E; cbn in St.
  - destruct St as (d' & E' & _). congruence.
  - apply scan_one_need in E; [done|]. destruct Hi as [_ [? _]]. lia.
  - rewrite St in Hn. discriminate Hn.
Qed.

(** What [next_frame] does to the buffer when it returns a frame. *)
Lemma next_frame_some d d' p :
  fd_inv d → fd_failed d = None → next_frame d = (d', Ok (Some p)) →
  fd_inv d' ∧ fd_failed d' = None ∧ fd_max_frame_bytes d' = fd_max_frame_bytes d ∧
  len (fd_buffer d') ≤ len (fd_buffer d) ∧ fd_buffered d' ≤ fd_buffered d.
Proof.
  intros Hi Hf Hn. pose proof (next_frame_steps d Hi Hf) as St.
  destruct (scan_one _ _) as [q r| |e] eqn:E; cbn in St;
    [|rewrite St in Hn; discriminate Hn..].
  destruct St as (d1 & E1 & Hr & Hi1 & Hf1 & Hm1).
  assert (d1 = d') as -> by congruence.
  apply scan_one_frame_len in E as (E & ? & ?). unfold HEADER_LEN in E.
  rewrite !fd_buffered_pending by done. rewrite Hr.
  repeat split; try done; [apply Hi1..| |lia].
  revert Hn. unfold next_frame, fail_with. repeat case_match; try discriminate;
    intros [= <- _]; cbn; try lia. apply len_nonneg.
Qed.

Lemma reading_bounds max chunk d :
  u32 max → 0 ≤ chunk → reading max chunk d →
  fd_inv d ∧ fd_failed d = None ∧ fd_max_frame_bytes d = max ∧
  fd_buffered d < HEADER_LEN + max + chunk ∧
  len (fd_buffer d) < 2 * (HEADER_LEN + max) + chunk.
Proof.
  intros Hm Hc. unfold HEADER_LEN.
  induction 1 as [|d c _ (Hi & Hf & Hx & Hb & Hl) Hn Hlc|d p d' _ (Hi & Hf & Hx & Hb & Hl) Hn].
  - pose proof Hm as [? ?].
    split_and!; [by apply FrameDecoder_new_inv|done..| |]; unfold fd_buffered, len; cbn; lia.
  - pose proof (next_frame_none d Hi Hf Hn) as Hp. rewrite Hx in Hp. unfold HEADER_LEN in Hp.
    pose proof (feed_inv d c Hi) as Hi'.
    assert (fd_buffered (feed d c) = fd_buffered d + len c) as Hbf.
    { rewrite !fd_buffered_pending by done. rewrite feed_pending, len_app by done. done. }
    split_and!; [done|unfold feed; by destruct (_ && _)..|lia|].
    destruct Hi as [[? ?] _]. pose proof Hm as [? ?]. unfold feed, fd_buffered in *.
    destruct (Z.ltb_spec 0 (fd_start d)); cbn [andb] in *.
    all: pose proof (Z.mul_div_le (len (fd_buffer d)) 2 ltac:(lia)).
    + destruct (Z.leb_spec (len (fd_buffer d) / 2) (fd_start d)); cbn in *;
        rewrite ?len_app in *; lia.
    + cbn in *; rewrite ?len_app in *. lia.
  - apply next_frame_some in Hn as (? & ? & ? & ? & ?); [|done..]. split_and!; try done; lia.
Qed.

(** ** Theorems *)

(** C25: whatever the chunks a session's bytes arrive in, the reader loop is
    the abstract session of their concatenation: it hands exactly the frames
    of that byte string to the callback, in order, stops at the first frame
    the callback refuses, ends the session when framing is lost, and
    otherwise waits for more, reporting at the end of the stream a clean
    close if and only if no partial frame is left. *)
Theorem read_loop_refines_session {S} (on_frame : S → list byte → S * option CloseReason)
    max s chunks :
  u32 max → Forall (λ c, c ≠ []) chunks →
  read_loop on_frame max s (map inr chunks) =
    match session_of on_frame max s (concat chunks) with
    | (s', inl reason) => (s', Some reason)
    | (s', inr _) => (s', None)
    end ∧
  read_loop on_frame max s (map inr chunks ++ [inr []]) =
    match session_of on_frame max s (concat chunks) with
    | (s', inl reason) => (s', Some reason)
    | (s', inr []) => (s', Some PeerClosed)
    | (s', inr rest) =>
        (s', Some (Protocol ("stream ended inside a frame (" +:+ pretty (len rest)
                             +:+ " bytes buffered)")))
    end.
Proof.
  intros Hm Hc.
  pose proof (read_loop_session on_frame max s chunks [] Hm Hc) as R1.
  pose proof (read_loop_session on_frame max s chunks [inr []] Hm Hc) as R2.
  rewrite app_nil_r in R1.
  destruct (session_of on_frame max s (concat chunks)) as [s' [reason|rest]]; [done|].
  destruct R1 as (d1 & -> & _), R2 as (d2 & -> & Hi & Hp & _).
  split; [done|]. cbn [read_frames]. unfold fd_is_idle.
  rewrite (fd_buffered_pending _ Hi), Hp. destruct rest as [|b rest]; [done|].
  rewrite len_cons. pose proof (len_nonneg rest). by destruct (Z.eqb_spec (1 + len rest) 0); [lia|].
Qed.

(** Frames round trip: payloads framed one after another and delivered in
    any chunks come out exactly once, unchanged and in order, and the end of
    the stream is then a clean close. *)
Theorem framed_payloads_delivered max payloads frames chunks :
  u32 max → Forall2 (λ p f, encode_frame p max = Ok f) payloads frames →
  Forall (λ c, c ≠ []) chunks → concat chunks = concat frames →
  read_loop (λ seen p, (seen ++ [p], None)) max [] (map inr chunks ++ [inr []]) =
    (payloads, Some PeerClosed).
Proof.
  intros Hm Hf Hc Hcc.
  set (on_frame := λ seen p, (seen ++ [p], None)).
  assert (∀ ps seen, deliver on_frame seen ps = (seen ++ ps, None)) as Hd.
  { induction ps as [|p ps IH]; intros seen; cbn; [by rewrite app_nil_r|].
    by rewrite IH, <- app_assoc. }
  pose proof (read_loop_session on_frame max [] chunks [inr []] Hm Hc) as R.
  unfold session_of in R. rewrite Hcc, (encode_frames_scan max payloads frames Hm Hf), Hd in R.
  destruct R as (d & -> & Hi & Hp & _). cbn [read_frames]. unfold fd_is_idle.
  by rewrite (fd_buffered_pending _ Hi), Hp.
Qed.

(** C39: memory a peer can make the decoder hold: with reads of at most [chunk]
    bytes the unconsumed bytes stay within a header, the largest frame and
    one read, and the whole buffer, which keeps consumed bytes until they are
    half of it, within twice the former plus the read. *)
Theorem decoder_memory_bound max chunk d :
  u32 max → 0 ≤ chunk → reading max chunk d →
  fd_buffered d < HEADER_LEN + max + chunk ∧
  len (fd_buffer d) < 2 * (HEADER_LEN + max) + chunk.
Proof.
  intros Hm Hc Hr. destruct (reading_bounds max chunk d Hm Hc Hr) as (_ & _ & _ & ? & ?). lia.
Qed.

End Frame.
