(* ===== verification/Status.v ===== *)
(** Outcomes of remote calls: the reply statuses of the wire protocol
    (moonpool-rpc/src/protocol/wire.rs), the credential error codes
    (moonpool-rpc/src/security/mod.rs) and the error a caller gets from them
    (moonpool-rpc/src/error.rs).

    The identifiers the Rust code wraps in newtypes ([MethodId] u32,
    [SchemaVersion] u16, [CodecId] u16, [InterfaceId] u32) are the wrapped
    integers. *)
From stdpp Require Import base list numbers strings.
From S2P Require Import Prelude.

(** ** Credential errors *)

Inductive CredentialError :=
  | Cred_Missing
  | Cred_Malformed
  | Cred_TooLarge
  | Cred_UnsupportedAlgorithm
  | Cred_UnknownKey
  | Cred_BadSignature
  | Cred_WrongIssuer
  | Cred_WrongAudience
  | Cred_Expired
  | Cred_NotYetValid
  | Cred_ClockUnavailable
  | Cred_InsecureTransport
  | Cred_Rejected.

#[global] Instance CredentialError_eq_dec : EqDecision CredentialError.
Proof. solve_decision. Defined.

Definition CredentialError_ALL : list CredentialError :=
  [Cred_Missing; Cred_Malformed; Cred_TooLarge; Cred_UnsupportedAlgorithm; Cred_UnknownKey;
   Cred_BadSignature; Cred_WrongIssuer; Cred_WrongAudience; Cred_Expired; Cred_NotYetValid;
   Cred_ClockUnavailable; Cred_InsecureTransport; Cred_Rejected].

Definition CredentialError_code (e : CredentialError) : Z :=
  match e with
  | Cred_Missing => 1
  | Cred_Malformed => 2
  | Cred_TooLarge => 3
  | Cred_UnsupportedAlgorithm => 4
  | Cred_UnknownKey => 5
  | Cred_BadSignature => 6
  | Cred_WrongIssuer => 7
  | Cred_WrongAudience => 8
  | Cred_Expired => 9
  | Cred_NotYetValid => 10
  | Cred_ClockUnavailable => 11
  | Cred_InsecureTransport => 12
  | Cred_Rejected => 13
  end.

Definition CredentialError_from_code (code : Z) : option CredentialError :=
  List.find (λ e, CredentialError_code e =? code) CredentialError_ALL.

Lemma CredentialError_from_to_code e :
  CredentialError_from_code (CredentialError_code e) = Some e.
Proof. by destruct e. Qed.

Lemma CredentialError_code_u8 e : u8 (CredentialError_code e).
Proof. unfold in_u. destruct e; cbn; lia. Qed.

(** ** Wire statuses *)

Inductive WireError :=
  | EndpointNotFound
  | StaleIncarnation
  | MethodMismatch (registered : Z)
  | SchemaMismatch (registered : Z)
  | CodecMismatch (registered : Z)
  | MalformedRequest
  | Overloaded
  | BrokenPromise
  | ReplyTooLarge
  | ReplyEncodeFailed
  | MethodNotFound
  | InterfaceMismatch (interface version : Z)
  | StreamFailed (code : Z)
  | StreamProtocol
  | StreamingMismatch (endpoint_streams : bool)
  | Unauthenticated (reason : CredentialError)
  | PermissionDenied
  | ShuttingDown.

#[global] Instance WireError_eq_dec : EqDecision WireError.
Proof. solve_decision. Defined.

(** The values the Rust type has. *)
Definition WireError_wf (e : WireError) : Prop :=
  match e with
  | MethodMismatch m => u32 m
  | SchemaMismatch s => u16 s
  | CodecMismatch c => u16 c
  | InterfaceMismatch i v => u32 i ∧ u16 v
  | StreamFailed c => u64 c
  | _ => True
  end.

(** The first protocol version that defines the status. *)
Definition since (e : WireError) : Z :=
  match e with
  | Unauthenticated _ | PermissionDenied | ShuttingDown => 2
  | _ => 1
  end.

Definition for_version (e : WireError) (version : Z) : WireError :=
  if since e <=? version then e else
  match e with
  | ShuttingDown => Overloaded
  | _ => EndpointNotFound
  end.

Definition status_and_detail (e : WireError) : Z * Z :=
  match e with
  | EndpointNotFound => (1, 0)
  | StaleIncarnation => (2, 0)
  | MethodMismatch registered => (3, registered)
  | SchemaMismatch registered => (4, registered)
  | CodecMismatch registered => (5, registered)
  | MalformedRequest => (6, 0)
  | Overloaded => (7, 0)
  | BrokenPromise => (8, 0)
  | ReplyTooLarge => (9, 0)
  | ReplyEncodeFailed => (10, 0)
  | MethodNotFound => (11, 0)
  | InterfaceMismatch interface version =>
      (12, Z.lor (Z.shiftl interface 16) version)
  | StreamFailed code => (13, code)
  | StreamProtocol => (14, 0)
  | StreamingMismatch endpoint_streams => (15, Z.b2z endpoint_streams)
  | Unauthenticated reason => (16, CredentialError_code reason)
  | PermissionDenied => (17, 0)
  | ShuttingDown => (18, 0)
  end.

Inductive EnvelopeError :=
  | EnvelopeEmpty
  | UnknownKind (kind : Z)
  | Truncated
  | UnknownStatus (status : Z)
  | TrailingBytes
  | InvalidField (field : string).

#[global] Instance EnvelopeError_eq_dec : EqDecision EnvelopeError.
Proof. solve_decision. Defined.

(** [uN::try_from], its failure mapped to an invalid field. *)
Definition narrow (bits v : Z) (field : string) : res EnvelopeError Z :=
  if v <? 2 ^ bits then Ok v else Err (InvalidField field).

Definition from_status (status detail : Z) : res EnvelopeError WireError :=
  match status with
  | 1 => Ok EndpointNotFound
  | 2 => Ok StaleIncarnation
  | 3 => let? m := narrow 32 detail "method" in Ok (MethodMismatch m)
  | 4 => let? s := narrow 16 detail "schema" in Ok (SchemaMismatch s)
  | 5 => let? c := narrow 16 detail "codec" in Ok (CodecMismatch c)
  | 6 => Ok MalformedRequest
  | 7 => Ok Overloaded
  | 8 => Ok BrokenPromise
  | 9 => Ok ReplyTooLarge
  | 10 => Ok ReplyEncodeFailed
  | 11 => Ok MethodNotFound
  | 12 =>
      let? i := narrow 32 (Z.shiftr detail 16) "interface" in
      (* [u16::try_from(detail & 0xffff).unwrap_or(0)] *)
      let v := Z.land detail 0xffff in
      Ok (InterfaceMismatch i (if v <? 2 ^ 16 then v else 0))
  | 13 => Ok (StreamFailed detail)
  | 14 => Ok StreamProtocol
  | 15 =>
      match detail with
      | 0 => Ok (StreamingMismatch false)
      | 1 => Ok (StreamingMismatch true)
      | _ => Err (InvalidField "streaming")
      end
  | 16 =>
      match (if detail <? 2 ^ 8 then CredentialError_from_code detail else None) with
      | Some reason => Ok (Unauthenticated reason)
      | None => Err (InvalidField "credential error")
      end
  | 17 => Ok PermissionDenied
  | 18 => Ok ShuttingDown
  | other => Err (UnknownStatus other)
  end.

(** ** What a caller learns *)

Inductive Execution := NotAdmitted | MaybeExecuted | Executed.

#[global] Instance Execution_eq_dec : EqDecision Execution.
Proof. solve_decision. Defined.

Inductive ErrorReason :=
  | R_EndpointNotFound
  | R_StaleIncarnation
  | R_MethodMismatch (called registered : Z)
  | R_MethodNotFound (called : Z)
  | R_InterfaceMismatch (called registered : Z * Z)
  | R_InvalidReference (detail : string)
  | R_SchemaMismatch (called registered : Z)
  | R_CodecMismatch (sent expected : Z)
  | R_MalformedRequest
  | R_Overloaded
  | R_FrameTooLarge (size limit : Z)
  | R_Encode (detail : string)
  | R_ConnectFailed (detail : string)
  | R_Disconnected
  | R_Timeout
  | R_BrokenPromise
  | R_ReplyTooLarge
  | R_ReplyEncodeFailed
  | R_MalformedReply (detail : string)
  | R_Shutdown
  | R_NotListening
  | R_AlreadyRegistered
  | R_LookupFailed (detail : string)
  | R_PeerFailed
  | R_StreamingMismatch (endpoint_streams : bool)
  | R_StreamFailed (code : Z)
  | R_StreamProtocol (detail : string)
  | R_Unauthenticated (reason : CredentialError)
  | R_PermissionDenied
  | R_ServerShuttingDown
  | R_CredentialWithheld (detail : string).

#[global] Instance ErrorReason_eq_dec : EqDecision ErrorReason.
Proof. solve_decision. Defined.

Record RpcError := RpcError_new {
  reason : ErrorReason;
  execution : Execution;
}.

#[global] Instance RpcError_eq_dec : EqDecision RpcError.
Proof. solve_decision. Defined.

Definition not_admitted (r : ErrorReason) : RpcError := RpcError_new r NotAdmitted.

Definition at_least (e : RpcError) (floor : Execution) : RpcError :=
  if bool_decide (execution e = NotAdmitted) && bool_decide (floor ≠ NotAdmitted)
  then RpcError_new (reason e) floor else e.

Definition is_never_retried (e : RpcError) : bool :=
  match reason e with
  | R_MethodMismatch _ _ | R_InvalidReference _ | R_InterfaceMismatch _ _
  | R_SchemaMismatch _ _ | R_CodecMismatch _ _ | R_StreamingMismatch _
  | R_FrameTooLarge _ _ | R_Encode _ | R_MalformedRequest | R_ReplyTooLarge
  | R_ReplyEncodeFailed | R_MalformedReply _ | R_Unauthenticated _
  | R_PermissionDenied | R_CredentialWithheld _ | R_Shutdown | R_NotListening
  | R_AlreadyRegistered => true
  | _ => false
  end.

Definition is_terminal_for_reference (e : RpcError) : bool :=
  match reason e with
  | R_EndpointNotFound | R_StaleIncarnation | R_MethodMismatch _ _ | R_InvalidReference _
  | R_InterfaceMismatch _ _ | R_SchemaMismatch _ _ | R_CodecMismatch _ _
  | R_StreamingMismatch _ => true
  | _ => false
  end.

Record CallIdentity := mkCallIdentity {
  ci_interface : Z * Z;
  ci_method : Z;
  ci_schema : Z;
  ci_codec : Z;
}.

Definition from_wire (error : WireError) (called : CallIdentity) : RpcError :=
  match error with
  | EndpointNotFound => not_admitted R_EndpointNotFound
  | StaleIncarnation => not_admitted R_StaleIncarnation
  | MethodMismatch registered => not_admitted (R_MethodMismatch (ci_method called) registered)
  | SchemaMismatch registered => not_admitted (R_SchemaMismatch (ci_schema called) registered)
  | CodecMismatch registered => not_admitted (R_CodecMismatch (ci_codec called) registered)
  | InterfaceMismatch i v => not_admitted (R_InterfaceMismatch (ci_interface called) (i, v))
  | MethodNotFound => not_admitted (R_MethodNotFound (ci_method called))
  | MalformedRequest => not_admitted R_MalformedRequest
  | Overloaded => not_admitted R_Overloaded
  | BrokenPromise => RpcError_new R_BrokenPromise MaybeExecuted
  | ReplyTooLarge => RpcError_new R_ReplyTooLarge Executed
  | ReplyEncodeFailed => RpcError_new R_ReplyEncodeFailed Executed
  | StreamFailed code => RpcError_new (R_StreamFailed code) Executed
  | StreamProtocol =>
      RpcError_new
        (R_StreamProtocol ("the producer ended the stream for a protocol violation " +:+
           "(an acknowledgement it refused, or a counter overflow)"))
        MaybeExecuted
  | StreamingMismatch endpoint_streams => not_admitted (R_StreamingMismatch endpoint_streams)
  | Unauthenticated reason => not_admitted (R_Unauthenticated reason)
  | PermissionDenied => not_admitted R_PermissionDenied
  | ShuttingDown => not_admitted R_ServerShuttingDown
  end.

(** ** Statuses round trip *)

Lemma interface_detail i v :
  u32 i → u16 v →
  let d := Z.lor (Z.shiftl i 16) v in
  Z.shiftr d 16 = i ∧ Z.land d 0xffff = v ∧ u64 d.
Proof.
  intros [? ?] [? ?] d.
  assert (d = i * 2 ^ 16 + v) as ->.
  { unfold d. rewrite Z.shiftl_mul_pow2 by lia.
    rewrite <- Z.lxor_lor, <- Z.add_nocarry_lxor; [done|..].
    all: apply Z.bits_inj'; intros n Hn; rewrite Z.land_spec, Z.bits_0.
    all: destruct (Z.lt_ge_cases n 16);
      [rewrite Z.mul_pow2_bits_low by done; done|].
    all: rewrite <- (Z.mod_small v (2 ^ 16)), Z.mod_pow2_bits_high by lia;
      apply andb_false_r. }
  rewrite Z.shiftr_div_pow2, (Z.land_ones _ 16) by lia.
  rewrite Z.div_add_l, Z.div_small by lia.
  rewrite (Z.add_comm (i * _)), Z.mod_add, Z.mod_small by lia. unfold in_u. lia.
Qed.

Lemma status_range e :
  WireError_wf e →
  1 ≤ fst (status_and_detail e) ≤ 18 ∧ u64 (snd (status_and_detail e)).
Proof.
  intros Hw. destruct e; cbn in *; unfold in_u in *; try lia.
  - destruct Hw as [Hi Hv]. pose proof (interface_detail _ _ Hi Hv) as (_ & _ & ?). done.
  - destruct endpoint_streams; cbn; lia.
  - pose proof (CredentialError_code_u8 reason0). unfold in_u in *. lia.
Qed.

Lemma from_to_status e :
  WireError_wf e → from_status (fst (status_and_detail e)) (snd (status_and_detail e)) = Ok e.
Proof.
  intros Hw. destruct e; cbn in *; try done; unfold narrow, in_u in *.
  1-3: by rewrite (proj2 (Z.ltb_lt registered _)) by lia.
  - destruct Hw as [Hi Hv]. pose proof (interface_detail _ _ Hi Hv) as (-> & -> & _).
    unfold in_u in *.
    by rewrite (proj2 (Z.ltb_lt interface _)), (proj2 (Z.ltb_lt version _)) by lia.
  - by destruct endpoint_streams.
  - by destruct reason0.
Qed.

Lemma from_status_wf status detail e :
  u64 detail → from_status status detail = Ok e → WireError_wf e.
Proof.
  intros Hd. unfold from_status, narrow, in_u in *. repeat case_match; intros E;
    try discriminate; cbn in E; try (injection E as <-); cbn; unfold in_u; try done.
  all: repeat match goal with H : (_ <? _) = true |- _ => apply Z.ltb_lt in H end; try lia.
  all: split; [split; [apply Z.shiftr_nonneg; lia|done]|].
  - split; [apply Z.land_nonneg; lia|done].
  - lia.
Qed.
