(* ===== verification/Wire.v ===== *)
(** The frame envelope (moonpool-rpc/src/protocol/wire.rs): the layouts of
    the nine messages, their sizes, version negotiation, and the decoder with
    its version check; and the request credential section
    (moonpool-rpc/src/protocol/metadata.rs).

    An encoder appends to a [Writer]; a decoder is a function of the bytes
    not read yet ([dec]), so that the order of the reads, and the error of
    the first field that is missing or invalid, are those of the code. *)
From stdpp Require Import base list numbers strings.
From S2P Require Import Prelude Cursor Frame Status.
#[local] Open Scope cursor_scope.

(** ** Constants and version negotiation *)

Definition PROTOCOL_MAGIC : Z := 0x4d505243.
Definition PROTOCOL_VERSION : Z := 2.
Definition MIN_PROTOCOL_VERSION : Z := 1.
Definition CREDENTIALS_VERSION : Z := 2.

Definition negotiate (local peer : Z * Z) : option Z :=
  let low := Z.max (fst local) (fst peer) in
  let high := Z.min (snd local) (snd peer) in
  if low <=? high then Some high else None.

Definition KIND_HELLO : Z := 1.
Definition KIND_REQUEST : Z := 2.
Definition KIND_REPLY : Z := 3.
Definition KIND_PING : Z := 4.
Definition KIND_PONG : Z := 5.
Definition KIND_STREAM_ITEM : Z := 6.
Definition KIND_STREAM_END : Z := 7.
Definition KIND_STREAM_ACK : Z := 8.
Definition KIND_STREAM_CANCEL : Z := 9.

Definition REQUEST_FLAG_ONE_WAY : Z := 1.
Definition REQUEST_FLAG_STREAM : Z := 2.
Definition REQUEST_FLAGS_KNOWN : Z := Z.lor REQUEST_FLAG_ONE_WAY REQUEST_FLAG_STREAM.

(** ** Messages *)

Inductive WireOutcome :=
  | OutcomeOk (codec : Z) (body : list byte)
  | OutcomeErr (error : WireError).

Record RequestFields := mkRequest {
  rq_call_id : Z;
  rq_incarnation : Z;
  rq_token_index : Z;
  rq_token_generation : Z;
  rq_interface : Z;
  rq_interface_version : Z;
  rq_method : Z;
  rq_schema : Z;
  rq_codec : Z;
  rq_flags : Z;
  rq_stream_window : Z;
  rq_metadata : list byte;
  rq_body : list byte;
}.

Inductive WireMessage :=
  | Hello (magic min_version max_version incarnation features max_frame_bytes : Z)
      (listen : option SocketAddr)
  | Request (r : RequestFields)
  | Reply (call_id : Z) (outcome : WireOutcome)
  | Ping (nonce : Z)
  | Pong (nonce : Z)
  | StreamItem (call_id sequence codec : Z) (body : list byte)
  | StreamEnd (call_id items : Z) (error : option WireError)
  | StreamAck (call_id consumed : Z)
  | StreamCancel (call_id : Z).

#[global] Instance WireOutcome_eq_dec : EqDecision WireOutcome.
Proof. solve_decision. Defined.
#[global] Instance RequestFields_eq_dec : EqDecision RequestFields.
Proof. solve_decision. Defined.
#[global] Instance WireMessage_eq_dec : EqDecision WireMessage.
Proof. solve_decision. Defined.

(** ** Encoding *)

Definition encode_stream (message : WireMessage) (out : Writer) : Writer :=
  match message with
  | StreamItem call_id sequence codec body =>
      out ▷ Writer_u8 KIND_STREAM_ITEM ▷ Writer_u64 call_id ▷ Writer_u64 sequence
          ▷ Writer_u16 codec ▷ Writer_bytes body
  | StreamEnd call_id items error =>
      let '(status, detail) :=
        match error with Some e => status_and_detail e | None => (0, 0) end in
      out ▷ Writer_u8 KIND_STREAM_END ▷ Writer_u64 call_id ▷ Writer_u64 items
          ▷ Writer_u8 status ▷ Writer_u64 detail
  | StreamAck call_id consumed =>
      out ▷ Writer_u8 KIND_STREAM_ACK ▷ Writer_u64 call_id ▷ Writer_u64 consumed
  | StreamCancel call_id => out ▷ Writer_u8 KIND_STREAM_CANCEL ▷ Writer_u64 call_id
  | Hello _ _ _ _ _ _ _ | Request _ | Reply _ _ | Ping _ | Pong _ => out
  end.

Definition encode_request (r : RequestFields) (out : Writer) : Writer :=
  let metadata := take (Z.to_nat (Z.min (len (rq_metadata r)) 65535)) (rq_metadata r) in
  let out :=
    out ▷ Writer_u8 KIND_REQUEST ▷ Writer_u64 (rq_call_id r) ▷ Writer_u128 (rq_incarnation r)
        ▷ Writer_u64 (rq_token_index r) ▷ Writer_u32 (rq_token_generation r)
        ▷ Writer_u32 (rq_interface r) ▷ Writer_u16 (rq_interface_version r)
        ▷ Writer_u32 (rq_method r) ▷ Writer_u16 (rq_schema r) ▷ Writer_u16 (rq_codec r)
        ▷ Writer_u8 (rq_flags r) in
  let out :=
    if negb (Z.land (rq_flags r) REQUEST_FLAG_STREAM =? 0)
    then out ▷ Writer_u64 (rq_stream_window r) else out in
  out ▷ Writer_u16 (if len metadata <? 2 ^ 16 then len metadata else 65535)
      ▷ Writer_bytes metadata ▷ Writer_bytes (rq_body r).

Definition encode_message (message : WireMessage) : list byte :=
  let out := Writer_new in
  match message with
  | Hello magic min_version max_version incarnation features max_frame_bytes listen =>
      let out :=
        out ▷ Writer_u8 KIND_HELLO ▷ Writer_u32 magic ▷ Writer_u16 min_version
            ▷ Writer_u16 max_version ▷ Writer_u128 incarnation ▷ Writer_u64 features
            ▷ Writer_u32 max_frame_bytes in
      match listen with
      | Some address => out ▷ Writer_socket_addr address
      | None => out ▷ Writer_u8 0
      end
  | Request r => encode_request r out
  | Reply call_id outcome =>
      let out := out ▷ Writer_u8 KIND_REPLY ▷ Writer_u64 call_id in
      match outcome with
      | OutcomeOk codec body => out ▷ Writer_u8 0 ▷ Writer_u16 codec ▷ Writer_bytes body
      | OutcomeErr error =>
          let '(status, detail) := status_and_detail error in
          out ▷ Writer_u8 status ▷ Writer_u64 detail
      end
  | Ping nonce => out ▷ Writer_u8 KIND_PING ▷ Writer_u64 nonce
  | Pong nonce => out ▷ Writer_u8 KIND_PONG ▷ Writer_u64 nonce
  | stream => encode_stream stream out
  end.

(** ** Sizes *)

Definition HELLO_ENVELOPE_LEN : Z := 1 + 4 + 2 + 2 + 16 + 8 + 4 + 1 + 16 + 2.
Definition LIVENESS_ENVELOPE_LEN : Z := 1 + 8.
Definition REJECTION_ENVELOPE_LEN : Z := 1 + 8 + 1 + 8.
Definition request_envelope_len (body_len : Z) : Z :=
  1 + 8 + 16 + 8 + 4 + 4 + 2 + 4 + 2 + 2 + 1 + 2 + body_len.
Definition reply_envelope_len (body_len : Z) : Z := 1 + 8 + 1 + 2 + body_len.
Definition stream_request_envelope_len (body_len : Z) : Z := request_envelope_len body_len + 8.
Definition stream_item_envelope_len (body_len : Z) : Z := 1 + 8 + 8 + 2 + body_len.
Definition stream_item_frame_len (body_len : Z) : Z :=
  Z.min (HEADER_LEN + stream_item_envelope_len 0 + body_len) u64_max.
Definition STREAM_END_ENVELOPE_LEN : Z := 1 + 8 + 8 + 1 + 8.
Definition STREAM_ACK_ENVELOPE_LEN : Z := 1 + 8 + 8.

Definition request_metadata_len (payload : list byte) : option Z :=
  let input := payload in
  let* '(kind, input) := Reader_u8 input in
  if negb (kind =? KIND_REQUEST) then None else
  let* '(_, input) := Reader_slice (8 + 16 + 8 + 4 + 4 + 2 + 4 + 2 + 2) input in
  let* '(flags, input) := Reader_u8 input in
  let* input :=
    if negb (Z.land flags REQUEST_FLAG_STREAM =? 0)
    then (let* '(_, input) := Reader_u64 input in Some input) else Some input in
  let* '(n, _) := Reader_u16 input in Some n.

(** ** Decoding *)

Definition dec (A : Type) : Type := Reader → res EnvelopeError (A * Reader).

#[global] Instance dec_ret : MRet dec := λ A a input, Ok (a, input).
#[global] Instance dec_bind : MBind dec := λ A B k m input,
  match m input with
  | Ok (a, input) => k a input
  | Err e => Err e
  | Panic => Panic
  end.

Definition dec_fail {A} (e : EnvelopeError) : dec A := λ _, Err e.

(** A read whose failure is the given error. *)
Definition field {A} (read : Reader → option (A * Reader)) (e : EnvelopeError) : dec A :=
  λ input, match read input with Some r => Ok r | None => Err e end.

Definition dec_rest : dec (list byte) := λ input, Ok (Reader_rest input, []).

(** A fixed layout must end where it ends. *)
Definition ended : dec unit :=
  λ input, if Reader_is_empty input then Ok (tt, input) else Err TrailingBytes.

Definition dec_status (status detail : Z) : dec WireError :=
  λ input, let? e := from_status status detail in Ok (e, input).

#[local] Abbreviation u8' := (field Reader_u8 Truncated).
#[local] Abbreviation u16' := (field Reader_u16 Truncated).
#[local] Abbreviation u32' := (field Reader_u32 Truncated).
#[local] Abbreviation u64' := (field Reader_u64 Truncated).
#[local] Abbreviation u128' := (field Reader_u128 Truncated).

Definition decode_listen (family : Z) : dec SocketAddr :=
  ip ← match family with
       | 4 => octets ← field (Reader_slice 4) Truncated; mret (V4 octets)
       | 6 => octets ← field (Reader_slice 16) Truncated; mret (V6 octets)
       | _ => dec_fail (InvalidField "listen address family")
       end;
  port ← u16';
  mret (SocketAddr_new ip port).

Definition decode_stream (kind : Z) : dec WireMessage :=
  if kind =? KIND_STREAM_ITEM then
    call_id ← u64'; sequence ← u64'; codec ← u16'; body ← dec_rest;
    mret (StreamItem call_id sequence codec body)
  else if kind =? KIND_STREAM_END then
    call_id ← u64'; items ← u64'; status ← u8'; detail ← u64';
    error ← (if status =? 0 then
               if detail =? 0 then mret None
               else dec_fail (InvalidField "stream end detail")
             else e ← dec_status status detail; mret (Some e));
    ended;;
    mret (StreamEnd call_id items error)
  else if kind =? KIND_STREAM_ACK then
    call_id ← u64'; consumed ← u64'; ended;; mret (StreamAck call_id consumed)
  else if kind =? KIND_STREAM_CANCEL then
    call_id ← u64'; ended;; mret (StreamCancel call_id)
  else dec_fail (UnknownKind kind).

Definition decode_hello : dec WireMessage :=
  magic ← u32'; min_version ← u16'; max_version ← u16'; incarnation ← u128';
  features ← u64'; max_frame_bytes ← u32'; family ← u8';
  listen ← (if family =? 0 then mret None
            else address ← decode_listen family; mret (Some address));
  ended;;
  mret (Hello magic min_version max_version incarnation features max_frame_bytes listen).

(** [flags & !KNOWN] on a [u8]. *)
Definition unknown_flags (flags : Z) : Z := Z.ldiff flags REQUEST_FLAGS_KNOWN.

Definition decode_request : dec WireMessage :=
  call_id ← u64'; incarnation ← u128'; index ← u64'; generation ← u32';
  interface ← u32'; interface_version ← u16'; method ← u32'; schema ← u16';
  codec ← u16'; flags ← u8';
  let both := Z.lor REQUEST_FLAG_ONE_WAY REQUEST_FLAG_STREAM in
  if negb (unknown_flags flags =? 0) || (Z.land flags both =? both)
  then dec_fail (InvalidField "flags") else
  stream_window ← (if Z.land flags REQUEST_FLAG_STREAM =? 0 then mret 0 else u64');
  metadata_len ← u16';
  metadata ← field (Reader_slice metadata_len) Truncated;
  body ← dec_rest;
  mret (Request (mkRequest call_id incarnation index generation interface interface_version
                   method schema codec flags stream_window metadata body)).

Definition decode_reply : dec WireMessage :=
  call_id ← u64'; status ← u8';
  if status =? 0 then
    codec ← u16'; body ← dec_rest; mret (Reply call_id (OutcomeOk codec body))
  else
    detail ← u64'; ended;;
    error ← dec_status status detail; mret (Reply call_id (OutcomeErr error)).

Definition decode_liveness (kind : Z) : dec WireMessage :=
  nonce ← u64'; ended;;
  mret (if kind =? KIND_PING then Ping nonce else Pong nonce).

Definition decode_kind (kind : Z) : dec WireMessage :=
  if kind =? KIND_HELLO then decode_hello
  else if kind =? KIND_REQUEST then decode_request
  else if kind =? KIND_REPLY then decode_reply
  else if (kind =? KIND_PING) || (kind =? KIND_PONG) then decode_liveness kind
  else if (KIND_STREAM_ITEM <=? kind) && (kind <=? KIND_STREAM_CANCEL) then decode_stream kind
  else dec_fail (UnknownKind kind).

Definition decode_any (payload : list byte) : res EnvelopeError WireMessage :=
  let? r := (kind ← field Reader_u8 EnvelopeEmpty; decode_kind kind) payload in
  Ok (fst r).

(** The status a message carries, if any. *)
Definition carried (m : WireMessage) : option WireError :=
  match m with
  | Reply _ (OutcomeErr error) => Some error
  | StreamEnd _ _ (Some error) => Some error
  | _ => None
  end.

Definition decode_message_at (payload : list byte) (version : Z) : res EnvelopeError WireMessage :=
  let? message := decode_any payload in
  match carried message with
  | Some error =>
      if version <? since error then Err (UnknownStatus (fst (status_and_detail error)))
      else Ok message
  | None => Ok message
  end.

Definition decode_message (payload : list byte) : res EnvelopeError WireMessage :=
  decode_message_at payload PROTOCOL_VERSION.

(** ** The credential section of a request *)

Definition ENTRY_BEARER : Z := 1.
Definition ENTRY_HEADER_LEN : Z := 3.

Definition encode_bearer (credential : list byte) : option (list byte) :=
  let n := len credential in
  if (2 ^ 16 <=? n) || (n =? 0) then None else
  if 65535 <? n + ENTRY_HEADER_LEN then None else
  Some (Writer_new ▷ Writer_u8 ENTRY_BEARER ▷ Writer_u16 n ▷ Writer_bytes credential).

(** The loop over the entries; each consumes at least three bytes, so the
    length of the section is enough fuel. *)
Fixpoint bearer_entries (fuel : nat) (rest : list byte) (found : option (list byte)) :
    res CredentialError (option (list byte)) :=
  match fuel with
  | O => Ok found
  | S fuel =>
    match rest with
    | [] => Ok found
    | kind :: tail =>
      match Reader_u16 tail with
      | None => Err Cred_Malformed
      | Some (n, tail) =>
        match Reader_slice n tail with
        | None => Err Cred_Malformed
        | Some (value, tail) =>
            if (byte_to_Z kind =? ENTRY_BEARER) && bool_decide (found = None)
               && negb (Reader_is_empty value)
            then bearer_entries fuel tail (Some value)
            else Err Cred_Malformed
        end
      end
    end
  end.

Definition bearer (section : list byte) (max_bytes : Z) :
    res CredentialError (option (list byte)) :=
  if max_bytes <? len section then Err Cred_TooLarge
  else bearer_entries (S (length section)) section None.

(** ** Well-formed messages: the values of the Rust type that an encoder is
    given *)

Definition request_wf (r : RequestFields) : Prop :=
  u64 (rq_call_id r) ∧ u128 (rq_incarnation r) ∧ u64 (rq_token_index r) ∧
  u32 (rq_token_generation r) ∧ u32 (rq_interface r) ∧ u16 (rq_interface_version r) ∧
  u32 (rq_method r) ∧ u16 (rq_schema r) ∧ u16 (rq_codec r) ∧
  (rq_flags r = 0 ∨ rq_flags r = REQUEST_FLAG_ONE_WAY ∨ rq_flags r = REQUEST_FLAG_STREAM) ∧
  u64 (rq_stream_window r) ∧
  (rq_flags r ≠ REQUEST_FLAG_STREAM → rq_stream_window r = 0) ∧
  u16 (len (rq_metadata r)).

Definition message_wf (m : WireMessage) : Prop :=
  match m with
  | Hello magic min_version max_version incarnation features max_frame_bytes listen =>
      u32 magic ∧ u16 min_version ∧ u16 max_version ∧ u128 incarnation ∧ u64 features ∧
      u32 max_frame_bytes ∧ match listen with Some a => addr_wf a | None => True end
  | Request r => request_wf r
  | Reply call_id (OutcomeOk codec _) => u64 call_id ∧ u16 codec
  | Reply call_id (OutcomeErr e) => u64 call_id ∧ WireError_wf e
  | Ping n | Pong n => u64 n
  | StreamItem call_id sequence codec _ => u64 call_id ∧ u64 sequence ∧ u16 codec
  | StreamEnd call_id items error =>
      u64 call_id ∧ u64 items ∧ match error with Some e => WireError_wf e | None => True end
  | StreamAck call_id consumed => u64 call_id ∧ u64 consumed
  | StreamCancel call_id => u64 call_id
  end.

(** ** Reading back what was written *)

Section Read.
Context {A B : Type}.

Lemma dec_int n v e (k : Z → dec B) rest :
  0 ≤ v < 256 ^ Z.of_nat n →
  (field (Reader_int n) e ≫= k) (to_le_bytes n v ++ rest) = k v rest.
Proof. intros Hv. unfold mbind, dec_bind, field. by rewrite Reader_int_app. Qed.

Lemma dec_int_end n v e (k : Z → dec B) :
  0 ≤ v < 256 ^ Z.of_nat n →
  (field (Reader_int n) e ≫= k) (to_le_bytes n v) = k v [].
Proof. intros Hv. rewrite <- (app_nil_r (to_le_bytes n v)). by apply dec_int. Qed.

Lemma dec_slice l n e (k : list byte → dec B) rest :
  n = len l → (field (Reader_slice n) e ≫= k) (l ++ rest) = k l rest.
Proof. intros Hn. unfold mbind, dec_bind, field. by rewrite Reader_slice_app. Qed.

Lemma dec_rest_read (k : list byte → dec B) l : (dec_rest ≫= k) l = k l [].
Proof. done. Qed.

Lemma dec_ended (k : unit → dec B) : (ended ≫= k) [] = k tt [].
Proof. done. Qed.

Lemma dec_mret (a : A) (k : A → dec B) l : (mret a ≫= k) l = k a l.
Proof. done. Qed.

Lemma dec_assoc {C} (m : dec A) (f : A → dec B) (g : B → dec C) l :
  ((m ≫= f) ≫= g) l = (m ≫= (λ a, f a ≫= g)) l.
Proof. unfold mbind, dec_bind. by destruct (m l) as [[? ?]|?|]. Qed.

Lemma dec_status_ok e (k : WireError → dec B) l :
  WireError_wf e →
  (dec_status (fst (status_and_detail e)) (snd (status_and_detail e)) ≫= k) l = k e l.
Proof. intros He. unfold mbind, dec_bind, dec_status. by rewrite from_to_status. Qed.
End Read.

#[local] Opaque to_le_bytes.

(** Put an encoder's output in right-nested form. *)
Ltac flatten_writes :=
  unfold encode_message, encode_stream, encode_request, Writer_socket_addr,
    Writer_u8, Writer_u16, Writer_u32, Writer_u64, Writer_u128, Writer_bytes, Writer_new;
  repeat match goal with
  | |- context [[Z_to_byte ?v]] => change [Z_to_byte v] with (to_le_bytes 1 v)
  end;
  rewrite ?app_nil_l, <- ?app_assoc.

Ltac dec_step :=
  unfold Reader_u8, Reader_u16, Reader_u32, Reader_u64, Reader_u128;
  repeat first
    [ rewrite dec_assoc
    | rewrite dec_mret
    | rewrite dec_int by (first [assumption | unfold in_u in *; cbn; lia])
    | rewrite dec_int_end by (first [assumption | unfold in_u in *; cbn; lia])
    | rewrite dec_rest_read
    | rewrite dec_ended
    | rewrite dec_slice by (cbn; lia) ].

Lemma decode_any_kind kind rest :
  u8 kind →
  decode_any (to_le_bytes 1 kind ++ rest) = (let? r := decode_kind kind rest in Ok (fst r)).
Proof.
  intros Hk. unfold decode_any. unfold Reader_u8. by rewrite dec_int.
Qed.

Lemma decode_hello_encoded a b c d e f listen :
  message_wf (Hello a b c d e f listen) →
  decode_any (encode_message (Hello a b c d e f listen)) = Ok (Hello a b c d e f listen).
Proof.
  cbn [message_wf]. intros (? & ? & ? & ? & ? & ? & Hl). flatten_writes.
  destruct listen as [[ip port flow scope]|]; rewrite <- ?app_assoc.
  - destruct Hl as (Hip & Hport & Hflow & Hscope); cbn in *; subst.
    destruct ip as [o|o]; cbn in Hip; rewrite <- ?app_assoc; rewrite decode_any_kind by done;
      change (decode_kind KIND_HELLO) with decode_hello; unfold decode_hello;
      dec_step; cbn [Z.eqb]; unfold decode_listen; dec_step; done.
  - rewrite decode_any_kind by done. change (decode_kind KIND_HELLO) with decode_hello.
    unfold decode_hello. dec_step. done.
Qed.

(** The three flag values a request may carry. *)
Lemma request_flags_ok flags :
  flags = 0 ∨ flags = REQUEST_FLAG_ONE_WAY ∨ flags = REQUEST_FLAG_STREAM →
  u8 flags ∧
  negb (unknown_flags flags =? 0) ||
    (Z.land flags (Z.lor REQUEST_FLAG_ONE_WAY REQUEST_FLAG_STREAM)
       =? Z.lor REQUEST_FLAG_ONE_WAY REQUEST_FLAG_STREAM) = false ∧
  (Z.land flags REQUEST_FLAG_STREAM =? 0) = negb (flags =? REQUEST_FLAG_STREAM).
Proof. by intros [-> | [-> | ->]]. Qed.

Lemma metadata_kept (m : list byte) :
  u16 (len m) →
  take (Z.to_nat (Z.min (len m) 65535)) m = m.
Proof. intros [? ?]. apply take_ge. unfold len in *. lia. Qed.

Lemma decode_request_encoded r :
  request_wf r → decode_any (encode_message (Request r)) = Ok (Request r).
Proof.
  intros (? & ? & ? & ? & ? & ? & ? & ? & ? & Hf & Hw & Hw0 & Hm).
  apply request_flags_ok in Hf as (? & Hf & Hs).
  unfold encode_message, encode_request. rewrite metadata_kept, Hs by done.
  pose proof Hm as [? ?].
  rewrite (proj2 (Z.ltb_lt (len (rq_metadata r)) (2 ^ 16))) by lia.
  rewrite negb_involutive. set (flags := rq_flags r) in *.
  destruct (Z.eqb_spec flags REQUEST_FLAG_STREAM) as [Hst|Hn]; flatten_writes;
    rewrite decode_any_kind by done;
    change (decode_kind KIND_REQUEST) with decode_request; unfold decode_request;
    dec_step; rewrite Hf, Hs.
  - cbn [negb]. dec_step. subst flags. by destruct r.
  - cbn [negb]. dec_step. rewrite <- (Hw0 Hn). subst flags. by destruct r.
Qed.

Lemma decode_reply_encoded call_id outcome :
  message_wf (Reply call_id outcome) →
  decode_any (encode_message (Reply call_id outcome)) = Ok (Reply call_id outcome).
Proof.
  unfold encode_message. destruct outcome as [codec body|e]; cbn [message_wf].
  - intros [? ?]. flatten_writes. rewrite decode_any_kind by done.
    change (decode_kind KIND_REPLY) with decode_reply. unfold decode_reply. dec_step.
    cbn [Z.eqb]. by dec_step.
  - intros [? He]. pose proof (status_range e He) as [Hs Hd].
    pose proof (from_to_status e He) as Hft.
    destruct (status_and_detail e) as [status detail]; cbn [fst snd] in *.
    flatten_writes. rewrite decode_any_kind by done.
    change (decode_kind KIND_REPLY) with decode_reply. unfold decode_reply. dec_step.
    destruct (Z.eqb_spec status 0); [lia|]. dec_step.
    unfold mbind, dec_bind, dec_status. by rewrite Hft.
Qed.

Lemma decode_stream_encoded m :
  match m with
  | StreamItem _ _ _ _ | StreamEnd _ _ _ | StreamAck _ _ | StreamCancel _ => True
  | _ => False
  end →
  message_wf m → decode_any (encode_message m) = Ok m.
Proof.
  destruct m as [| | | | |c q k b|c n e|c n|c]; intros Hm Hw; try destruct Hm;
    cbn [message_wf] in Hw; unfold encode_message, encode_stream.
  - destruct Hw as (? & ? & ?). flatten_writes. rewrite decode_any_kind by done.
    change (decode_kind KIND_STREAM_ITEM) with (decode_stream KIND_STREAM_ITEM).
    unfold decode_stream. cbn [Z.eqb Pos.eqb KIND_STREAM_ITEM]. by dec_step.
  - destruct Hw as (? & ? & He).
    destruct (match e with Some e => status_and_detail e | None => (0, 0) end)
      as [status detail] eqn:Es.
    assert (u8 status ∧ u64 detail) as [? ?].
    { destruct e as [e|]; [|by simplify_eq]. pose proof (status_range e He) as [? ?].
      rewrite Es in *. unfold in_u in *. cbn in *. lia. }
    flatten_writes. rewrite decode_any_kind by done.
    change (decode_kind KIND_STREAM_END) with (decode_stream KIND_STREAM_END).
    unfold decode_stream. cbn [Z.eqb Pos.eqb KIND_STREAM_ITEM KIND_STREAM_END]. dec_step.
    destruct e as [e|]; [|by simplify_eq].
    pose proof (status_range e He) as [? _]. pose proof (from_to_status e He) as Hft.
    rewrite Es in *. cbn [fst snd] in *. destruct (Z.eqb_spec status 0); [lia|].
    unfold mbind, dec_bind, dec_status. by rewrite Hft.
  - destruct Hw as (? & ?). flatten_writes. rewrite decode_any_kind by done.
    change (decode_kind KIND_STREAM_ACK) with (decode_stream KIND_STREAM_ACK).
    unfold decode_stream.
    cbn [Z.eqb Pos.eqb KIND_STREAM_ITEM KIND_STREAM_END KIND_STREAM_ACK]. by dec_step.
  - flatten_writes. rewrite decode_any_kind by done.
    change (decode_kind KIND_STREAM_CANCEL) with (decode_stream KIND_STREAM_CANCEL).
    unfold decode_stream.
    cbn [Z.eqb Pos.eqb KIND_STREAM_ITEM KIND_STREAM_END KIND_STREAM_ACK KIND_STREAM_CANCEL].
    by dec_step.
Qed.

Lemma decode_liveness_encoded ping nonce :
  u64 nonce →
  let m := if ping : bool then Ping nonce else Pong nonce in
  decode_any (encode_message m) = Ok m.
Proof.
  intros ? m. unfold m. destruct ping; unfold encode_message; flatten_writes;
    rewrite decode_any_kind by done.
  - change (decode_kind KIND_PING) with (decode_liveness KIND_PING).
    unfold decode_liveness. by dec_step.
  - change (decode_kind KIND_PONG) with (decode_liveness KIND_PONG).
    unfold decode_liveness. by dec_step.
Qed.

Lemma decode_encoded m : message_wf m → decode_any (encode_message m) = Ok m.
Proof.
  intros Hw. destruct m; try (by apply decode_stream_encoded).
  - by apply decode_hello_encoded.
  - by apply decode_request_encoded.
  - by apply decode_reply_encoded.
  - by apply (decode_liveness_encoded true).
  - by apply (decode_liveness_encoded false).
Qed.

(** ** What an accepted envelope looks like *)

Section Invert.
Context {A B : Type}.

Lemma dec_bind_inv (m : dec A) (k : A → dec B) l r :
  (m ≫= k) l = Ok r → ∃ a l', m l = Ok (a, l') ∧ k a l' = Ok r.
Proof.
  unfold mbind, dec_bind. destruct (m l) as [[a l']|?|]; try discriminate. eauto.
Qed.

Lemma field_int_inv n e l v l' :
  field (Reader_int n) e l = Ok (v, l') →
  l = to_le_bytes n v ++ l' ∧ 0 ≤ v < 256 ^ Z.of_nat n.
Proof.
  unfold field. destruct (Reader_int n l) as [[v' l'']|] eqn:E; [|discriminate].
  intros [= <- <-]. by apply Reader_int_inv.
Qed.

Lemma field_slice_inv n e l s l' :
  0 ≤ n → field (Reader_slice n) e l = Ok (s, l') → l = s ++ l' ∧ len s = n.
Proof.
  unfold field. destruct (Reader_slice n l) as [[s' l'']|] eqn:E; [|discriminate].
  intros Hn [= <- <-]. by apply Reader_slice_inv.
Qed.

Lemma ended_inv l r l' : ended l = Ok (r, l') → l = [] ∧ l' = [].
Proof. unfold ended. destruct l; [|discriminate]. by intros [= <- <-]. Qed.

Lemma dec_status_inv s d l e l' :
  dec_status s d l = Ok (e, l') → from_status s d = Ok e ∧ l' = l.
Proof.
  unfold dec_status. destruct (from_status s d); try discriminate. by intros [= <- <-].
Qed.
End Invert.

(** [dec_inv H]: the reads behind a successful decode, field by field. *)
Ltac dec_inv H :=
  unfold Reader_u8, Reader_u16, Reader_u32, Reader_u64, Reader_u128 in H;
  repeat lazymatch type of H with
  | (_ ≫= _) _ = Ok _ =>
      let a := fresh "v" in let l := fresh "l" in let E := fresh "E" in
      apply dec_bind_inv in H as (a & l & E & H);
      lazymatch type of E with
      | field (Reader_int _) _ _ = _ =>
          let R := fresh "R" in
          apply field_int_inv in E as [E R]; cbn [Z.of_nat Pos.of_succ_nat Pos.succ] in R
      | field (Reader_slice _) _ _ = _ => apply field_slice_inv in E as [E ?]; [|lia]
      | ended _ = _ => apply ended_inv in E as [? ?]
      | dec_rest _ = _ => injection E as <- <-
      | dec_status _ _ _ = _ => apply dec_status_inv in E as [E ?]
      | _ => idtac
      end
  | (if ?c then _ else _) _ = Ok _ =>
      let C := fresh "C" in destruct c eqn:C
  | dec_fail _ _ = Ok _ => discriminate H
  | mret _ _ = Ok _ => injection H as <- ?
  end.

(** An accepted message is a value of the Rust type, and, unless it carries
    a status, the canonical encoding of itself. *)
Definition accepted (kind : Z) (m : WireMessage) (l : list byte) : Prop :=
  message_wf m ∧
  (carried m = None → encode_message m = to_le_bytes 1 kind ++ l).

Ltac accepted_by :=
  split; [cbn [message_wf]; unfold in_u; cbn; repeat split; try lia; try done
         |intros _; subst; unfold encode_message, encode_stream; flatten_writes; rewrite ?app_nil_r; try done].

Lemma decode_liveness_accepted kind l m l' :
  kind = KIND_PING ∨ kind = KIND_PONG →
  decode_liveness kind l = Ok (m, l') → accepted kind m l.
Proof.
  intros Hk H. unfold decode_liveness in H. dec_inv H.
  destruct Hk as [-> | ->]; cbn [Z.eqb Pos.eqb KIND_PING KIND_PONG];
    by accepted_by.
Qed.

Lemma decode_reply_accepted l m l' :
  decode_reply l = Ok (m, l') → accepted KIND_REPLY m l.
Proof.
  intros H. unfold decode_reply in H. dec_inv H.
  - apply Z.eqb_eq in C as ->. by accepted_by.
  - split; [|done]. cbn [message_wf]. split; [done|].
    by eapply from_status_wf; [|eassumption].
Qed.

Lemma decode_stream_accepted kind l m l' :
  decode_stream kind l = Ok (m, l') → accepted kind m l.
Proof.
  intros H. unfold decode_stream in H.
  destruct (Z.eqb_spec kind KIND_STREAM_ITEM) as [->|_]; [dec_inv H; by accepted_by|].
  destruct (Z.eqb_spec kind KIND_STREAM_END) as [->|_].
  - dec_inv H. dec_inv E3.
    + apply Z.eqb_eq in C as ->, C0 as ->. by accepted_by.
    + split; [|done]. cbn [message_wf]. repeat split; try done; try lia.
      by eapply from_status_wf; [|eassumption].
  - destruct (Z.eqb_spec kind KIND_STREAM_ACK) as [->|_].
    + dec_inv H. by accepted_by.
    + destruct (Z.eqb_spec kind KIND_STREAM_CANCEL) as [->|_]; [|done].
      dec_inv H. by accepted_by.
Qed.

Lemma decode_listen_inv family l a l' :
  decode_listen family l = Ok (a, l') →
  addr_wf a ∧ ∀ w, Writer_socket_addr a w ++ l' = w ++ to_le_bytes 1 family ++ l.
Proof.
  intros H. unfold decode_listen in H. dec_inv H.
  assert (∃ octets, l = octets ++ l0 ∧
            ((family = 4 ∧ v = V4 octets ∧ len octets = 4) ∨
             (family = 6 ∧ v = V6 octets ∧ len octets = 16))) as (o & -> & Hf).
  { repeat case_match; try discriminate; dec_inv E; subst; eexists; split; eauto. }
  subst l0. destruct Hf as [(-> & -> & Ho) | (-> & -> & Ho)]; (split; [done|]);
    intros w; unfold Writer_socket_addr; cbn [sa_ip sa_port SocketAddr_new]; flatten_writes;
    by rewrite H.
Qed.

Lemma decode_hello_accepted l m l' :
  decode_hello l = Ok (m, l') → accepted KIND_HELLO m l.
Proof.
  intros H. unfold decode_hello in H. dec_inv H. dec_inv E6.
  - apply Z.eqb_eq in C as ->. by accepted_by.
  - apply decode_listen_inv in E7 as [Ha Hw].
    accepted_by; [apply Ha..|]. specialize (Hw []). rewrite app_nil_r in Hw. cbn in Hw.
    rewrite <- Hw. destruct (sa_ip v8) eqn:Eip; unfold Writer_socket_addr; rewrite Eip;
      by flatten_writes.
Qed.

Lemma flags_known flags :
  u8 flags →
  negb (unknown_flags flags =? 0) ||
    (Z.land flags (Z.lor REQUEST_FLAG_ONE_WAY REQUEST_FLAG_STREAM)
       =? Z.lor REQUEST_FLAG_ONE_WAY REQUEST_FLAG_STREAM) = false →
  flags = 0 ∨ flags = REQUEST_FLAG_ONE_WAY ∨ flags = REQUEST_FLAG_STREAM.
Proof.
  intros [? ?] [Hk Hb]%orb_false_iff. apply negb_false_iff, Z.eqb_eq in Hk.
  pose proof (Z.lor_ldiff_and flags REQUEST_FLAGS_KNOWN) as E.
  unfold unknown_flags in Hk. rewrite Hk, Z.lor_0_l in E.
  change REQUEST_FLAGS_KNOWN with (Z.ones 2) in E. rewrite Z.land_ones in E by lia.
  pose proof (Z.mod_pos_bound flags (2 ^ 2) ltac:(lia)).
  apply Z.eqb_neq in Hb. unfold REQUEST_FLAG_ONE_WAY, REQUEST_FLAG_STREAM.
  assert (flags = 3 → False) by (intros ->; by apply Hb). lia.
Qed.

Lemma decode_request_accepted l m l' :
  decode_request l = Ok (m, l') → accepted KIND_REQUEST m l.
Proof.
  intros H. unfold decode_request in H. dec_inv H.
  apply flags_known in C; [|done].
  pose proof (request_flags_ok _ C) as (_ & _ & Hs).
  rewrite Hs in E9.
  assert ((negb (v8 =? REQUEST_FLAG_STREAM) = true ∧ v9 = 0 ∧ l9 = l10) ∨
          (negb (v8 =? REQUEST_FLAG_STREAM) = false ∧ l9 = to_le_bytes 8 v9 ++ l10 ∧ u64 v9))
    as Hwin.
  { destruct (negb (v8 =? REQUEST_FLAG_STREAM)) eqn:En.
    - injection E9 as <- <-. by left.
    - apply field_int_inv in E9 as [-> ?]. by right. }
  split.
  - cbn [message_wf]. unfold request_wf; cbn. unfold in_u in *. rewrite H0.
    repeat split; try done; try lia.
    all: destruct Hwin as [(_ & -> & _) | (En & _ & ?)]; try lia.
  - intros _. unfold encode_message, encode_request; cbn. rewrite Hs.
    rewrite metadata_kept by (by rewrite H0).
    rewrite (proj2 (Z.ltb_lt (len v11) (2 ^ 16))) by lia. subst.
    destruct Hwin as [(-> & -> & ->) | (-> & -> & _)]; cbn [negb]; by flatten_writes.
Qed.

Lemma decode_any_accepted payload m :
  decode_any payload = Ok m →
  message_wf m ∧ (carried m = None → encode_message m = payload).
Proof.
  unfold decode_any. intros H.
  destruct (mbind (M := dec) _ _ payload) as [[m' l']|?|] eqn:E; try discriminate.
  injection H as ->. dec_inv E. subst payload. change (accepted v m l).
  unfold decode_kind in E.
  destruct (Z.eqb_spec v KIND_HELLO) as [->|_]; [by eapply decode_hello_accepted|].
  destruct (Z.eqb_spec v KIND_REQUEST) as [->|_]; [by eapply decode_request_accepted|].
  destruct (Z.eqb_spec v KIND_REPLY) as [->|_]; [by eapply decode_reply_accepted|].
  destruct ((v =? KIND_PING) || (v =? KIND_PONG)) eqn:Ep.
  { apply orb_true_iff in Ep as [Ep%Z.eqb_eq | Ep%Z.eqb_eq];
      eapply decode_liveness_accepted; eauto. }
  destruct (_ && _); [|done]. by eapply decode_stream_accepted.
Qed.

(** ** Sizes of encoded messages *)

Lemma len_int n v : len (to_le_bytes n v) = Z.of_nat n.
Proof. apply len_to_le_bytes. Qed.

Ltac solve_encoded_len :=
  unfold encode_message, encode_stream; flatten_writes; rewrite ?len_app, ?len_int;
  cbn; lia.

Lemma request_encoded_len r :
  request_wf r →
  len (encode_message (Request r)) =
    (if rq_flags r =? REQUEST_FLAG_STREAM then stream_request_envelope_len (len (rq_body r))
     else request_envelope_len (len (rq_body r))) + len (rq_metadata r).
Proof.
  intros (? & ? & ? & ? & ? & ? & ? & ? & ? & Hf & Hw & Hw0 & Hm).
  apply request_flags_ok in Hf as (_ & _ & Hs).
  unfold encode_message, encode_request. rewrite metadata_kept, Hs, negb_involutive by done.
  unfold stream_request_envelope_len, request_envelope_len.
  destruct (_ =? REQUEST_FLAG_STREAM); flatten_writes; rewrite ?len_app, ?len_int; cbn; lia.
Qed.

(** The length of a request's credential section, read off its prefix. *)
Lemma request_metadata_len_encoded r :
  request_wf r →
  request_metadata_len (encode_message (Request r)) = Some (len (rq_metadata r)).
Proof.
  intros (? & ? & ? & ? & ? & ? & ? & ? & ? & Hf & Hw & Hw0 & Hm).
  apply request_flags_ok in Hf as (? & _ & Hs).
  unfold encode_message, encode_request. rewrite metadata_kept, Hs, negb_involutive by done.
  pose proof Hm as [? ?].
  rewrite (proj2 (Z.ltb_lt (len (rq_metadata r)) (2 ^ 16))) by lia.
  unfold request_metadata_len, Reader_u8, Reader_u16, Reader_u64.
  destruct (rq_flags r =? REQUEST_FLAG_STREAM) eqn:Es; flatten_writes;
    rewrite Reader_int_app by done; cbn [mbind option_bind negb Z.eqb Pos.eqb KIND_REQUEST];
    do 8 rewrite (app_assoc _ (to_le_bytes _ _) (_ ++ _));
    rewrite Reader_slice_app by (rewrite !len_app, !len_int; cbn; lia);
    cbn [mbind option_bind]; rewrite Reader_int_app by done; cbn [mbind option_bind];
    rewrite Hs; cbn [negb].
  - rewrite Reader_int_app by done. cbn [mbind option_bind]. by rewrite Reader_int_app.
  - cbn [mbind option_bind]. by rewrite Reader_int_app.
Qed.

(** ** The credential section *)

Lemma encode_bearer_Some credential section :
  encode_bearer credential = Some section →
  section = to_le_bytes 1 ENTRY_BEARER ++ to_le_bytes 2 (len credential) ++ credential ∧
  0 < len credential ∧ len credential + ENTRY_HEADER_LEN ≤ 65535.
Proof.
  unfold encode_bearer. destruct (_ || _) eqn:E1; [done|].
  apply orb_false_iff in E1 as [E1%Z.leb_gt E2%Z.eqb_neq].
  destruct (Z.ltb_spec 65535 (len credential + ENTRY_HEADER_LEN)); [done|].
  intros [= <-]. pose proof (len_nonneg credential). split; [done|lia].
Qed.

(** An accepted section has at most one entry, and it is the bearer's. *)
Lemma bearer_entries_inv fuel rest found r :
  (length rest < fuel)%nat → bearer_entries fuel rest found = Ok r →
  (rest = [] ∧ r = found) ∨
  (found = None ∧ ∃ credential, r = Some credential ∧ 0 < len credential ∧ u16 (len credential) ∧
     rest = to_le_bytes 1 ENTRY_BEARER ++ to_le_bytes 2 (len credential) ++ credential).
Proof.
  revert rest found. induction fuel as [|fuel IH]; intros rest found Hl; [lia|].
  cbn [bearer_entries]. destruct rest as [|kind tail]; [intros [= <-]; by left|].
  destruct (Reader_u16 tail) as [[n t1]|] eqn:E1; [|done].
  apply Reader_int_inv in E1 as [-> Hn].
  destruct (Reader_slice n t1) as [[value t2]|] eqn:E2; [|done].
  apply Reader_slice_inv in E2 as [-> Hv]; [|lia].
  destruct (_ && _) eqn:E3; [|done].
  apply andb_true_iff in E3 as [[Hk%Z.eqb_eq Hf%bool_decide_eq_true]%andb_true_iff Hne].
  assert (kind = Z_to_byte ENTRY_BEARER) as -> by (by rewrite <- Hk, Z_to_byte_to_Z).
  subst found. pose proof (len_to_le_bytes 2 n) as L2.
  intros Hr. cbn [length] in Hl. rewrite !length_app in Hl.
  apply IH in Hr as [[-> ->] | [Hc _]]; [|discriminate Hc|lia].
  right. split; [done|]. exists value. rewrite app_nil_r, Hv.
  assert (0 < len value) by (destruct value; [done|]; rewrite len_cons; pose proof (len_nonneg value); lia).
  split; [done|]. split; [lia|]. split; [done|]. done.
Qed.

(** ** Theorems *)

(** C26: envelopes round trip: every message the runtime can build decodes, on
    a session whose version defines the status it carries, to itself. *)
Theorem envelope_round_trip m version :
  message_wf m → (∀ e, carried m = Some e → since e ≤ version) →
  decode_message_at (encode_message m) version = Ok m.
Proof.
  intros Hw Hv. unfold decode_message_at. rewrite decode_encoded by done. cbn [res_bind].
  destruct (carried m) as [e|]; [|done]. specialize (Hv e eq_refl).
  by destruct (Z.ltb_spec version (since e)); [lia|].
Qed.

(** C27: the decoder is strict: whatever bytes arrive, an accepted message is a
    value the sender's type has (flags known and never both one-way and
    stream, integers in range, no flow label or scope in an address), a
    status it carries is one the session's version defines, and a message
    without a status is accepted only from its one canonical encoding, so no
    two envelopes mean the same message. *)
Theorem accepted_envelope_canonical payload version m :
  decode_message_at payload version = Ok m →
  message_wf m ∧ (∀ e, carried m = Some e → since e ≤ version) ∧
  (carried m = None → encode_message m = payload).
Proof.
  unfold decode_message_at. destruct (decode_any payload) as [m'|?|] eqn:E; try discriminate.
  cbn [res_bind]. apply decode_any_accepted in E as [Hw Hc].
  destruct (carried m') as [e|] eqn:Ec.
  - destruct (Z.ltb_spec version (since e)); [discriminate|]. intros [= <-].
    rewrite Ec. split_and!; [done| |done]. intros ? [= <-]. done.
  - intros [= <-]. rewrite Ec. split_and!; [done|done|by intros _; apply Hc].
Qed.

(** Version downgrade is safe: a rejection sent through [for_version] on a
    session of any version this build can negotiate reaches the peer, is
    defined in that version, and tells the caller the same about execution as
    the original would; on a session that defines it, it is unchanged. *)
Theorem downgraded_rejection_keeps_execution e called call_id local peer version :
  WireError_wf e → u64 call_id → MIN_PROTOCOL_VERSION ≤ fst local →
  negotiate local peer = Some version →
  decode_message_at (encode_message (Reply call_id (OutcomeErr (for_version e version)))) version
    = Ok (Reply call_id (OutcomeErr (for_version e version))) ∧
  execution (from_wire (for_version e version) called) = execution (from_wire e called) ∧
  (since e ≤ version → for_version e version = e).
Proof.
  intros He Hc Hl Hn.
  assert (1 ≤ version).
  { unfold negotiate in Hn. destruct (Z.leb_spec (Z.max (fst local) (fst peer))
      (Z.min (snd local) (snd peer))); simplify_eq. unfold MIN_PROTOCOL_VERSION in Hl. lia. }
  assert (WireError_wf (for_version e version) ∧ since (for_version e version) ≤ version)
    as [Hw Hs].
  { unfold for_version. destruct (Z.leb_spec (since e) version); [done|].
    by destruct e; cbn in *. }
  split_and!.
  - unfold decode_message_at. rewrite decode_encoded by done. cbn [res_bind carried].
    by destruct (Z.ltb_spec version (since (for_version e version))); [lia|].
  - unfold for_version. destruct (Z.leb_spec (since e) version); [done|].
    by destruct e; cbn in *; try lia.
  - unfold for_version. by destruct (Z.leb_spec (since e) version); [|lia].
Qed.

(** Negotiation picks the highest version both ranges contain, and fails
    exactly when they have none in common, whichever side is local. *)
Theorem negotiate_highest_common local peer :
  let both v := fst local ≤ v ≤ snd local ∧ fst peer ≤ v ≤ snd peer in
  negotiate local peer = negotiate peer local ∧
  match negotiate local peer with
  | Some v => both v ∧ ∀ w, both w → w ≤ v
  | None => ∀ w, ¬ both w
  end.
Proof.
  intros both. unfold both, negotiate. rewrite Z.max_comm, Z.min_comm. split; [done|].
  destruct (Z.leb_spec (Z.max (fst peer) (fst local)) (Z.min (snd peer) (snd local)));
    [split; [lia|intros w ?; lia]|intros w ?; lia].
Qed.

(** Credentials round trip through a request's metadata section: a section
    the encoder built is read back as that credential, is found at the length
    the request prefix announces, and a section is accepted only if it is
    empty or exactly such an encoding (never partly understood). *)
Theorem credential_section_exact credential section max_bytes :
  (encode_bearer credential = Some section → len section ≤ max_bytes →
     bearer section max_bytes = Ok (Some credential)) ∧
  (bearer section max_bytes = Ok None → section = []) ∧
  (bearer section max_bytes = Ok (Some credential) →
     0 < len credential ∧ len section ≤ max_bytes ∧
     section = to_le_bytes 1 ENTRY_BEARER ++ to_le_bytes 2 (len credential) ++ credential).
Proof.
  split_and!.
  - intros (-> & Hp & Hm)%encode_bearer_Some Hl. unfold bearer.
    destruct (Z.ltb_spec max_bytes (len (to_le_bytes 1 ENTRY_BEARER ++
      to_le_bytes 2 (len credential) ++ credential))); [lia|].
    change (to_le_bytes 1 ENTRY_BEARER ++ to_le_bytes 2 (len credential) ++ credential)
      with (Z_to_byte ENTRY_BEARER :: to_le_bytes 2 (len credential) ++ credential).
    unfold ENTRY_HEADER_LEN in Hm. cbn [bearer_entries length]. unfold Reader_u16.
    rewrite Reader_int_app by (cbn; lia).
    rewrite <- (app_nil_r credential) at 2. rewrite Reader_slice_app by done.
    by destruct credential.
  - unfold bearer. destruct (_ <? _); [done|]. intros H.
    apply bearer_entries_inv in H as [[? _] | (_ & c & Hc & _)]; [done|discriminate Hc|lia].
  - unfold bearer. destruct (Z.ltb_spec max_bytes (len section)); [done|]. intros Hb.
    apply bearer_entries_inv in Hb as [[_ Hc] | (_ & c & Hc & Hp & _ & Hs)]; [discriminate Hc| |lia].
    by injection Hc as ->.
Qed.

Section Accounting.
Context `{Xxh3}.

(** Accounted sizes are exact: the size both ends charge for a stream item
    is the length of the frame that carries it, and the size functions the
    frame limits are checked with are the lengths of the envelopes. *)
Theorem accounted_sizes_exact call_id sequence codec body frame :
  encode_frame (encode_message (StreamItem call_id sequence codec body)) (2 ^ 32 - 1) = Ok frame →
  len frame = stream_item_frame_len (len body) ∧
  len (encode_message (StreamItem call_id sequence codec body))
    = stream_item_envelope_len (len body) ∧
  len (encode_message (Reply call_id (OutcomeOk codec body))) = reply_envelope_len (len body) ∧
  (∀ r, request_wf r → len (encode_message (Request r)) =
     (if rq_flags r =? REQUEST_FLAG_STREAM then stream_request_envelope_len (len (rq_body r))
      else request_envelope_len (len (rq_body r))) + len (rq_metadata r)).
Proof.
  assert (len (encode_message (StreamItem call_id sequence codec body))
            = stream_item_envelope_len (len body)) as Hi.
  { unfold stream_item_envelope_len. solve_encoded_len. }
  unfold encode_frame. destruct (Z.ltb_spec (2 ^ 32 - 1)
    (len (encode_message (StreamItem call_id sequence codec body)))); [done|].
  destruct (Reader_is_empty _); [done|]. destruct (2 ^ 32 <=? _) eqn:?; [done|].
  intros Hf%Ok_inj. subst frame. split_and!.
  - rewrite !len_app, !len_int, Hi. unfold stream_item_frame_len, stream_item_envelope_len,
      HEADER_LEN, u64_max in *. pose proof (len_nonneg body). cbn [Z.of_nat]. lia.
  - done.
  - unfold reply_envelope_len. solve_encoded_len.
  - apply request_encoded_len.
Qed.
End Accounting.
