(* ===== verification/Credit.v ===== *)
(** Stream credit (moonpool-rpc/src/stream/credit.rs): the producer's window
    of accounted bytes with its acknowledgement checks ([Credit]) and the
    consumer's intake ([Intake]).

    Counters are cumulative [u64]s.  The subtractions of the source never
    wrap under the invariants proved here ([credit_inv], [intake_inv]), so
    they are written on [Z]. *)
From stdpp Require Import base list numbers strings pretty sorting.
From S2P Require Import Prelude.

(** ** [binary_search] of the standard library

    The slice algorithm: halve the range, keep the half that may hold the
    target, compare once at the end.  [Ok] is the index of a match, [Err] the
    insertion point. *)
Fixpoint bsearch_loop (fuel : nat) (l : list Z) (x : Z) (base size : nat) : nat :=
  match fuel with
  | O => base
  | S fuel =>
    if (size <=? 1)%nat then base else
    let half := (size / 2)%nat in
    let mid := (base + half)%nat in
    let base := match l !! mid with Some m => if x <? m then base else mid | None => base end in
    bsearch_loop fuel l x base (size - half)
  end.

Definition binary_search (l : list Z) (x : Z) : res nat nat :=
  match l with
  | [] => Err O
  | _ =>
    let base := bsearch_loop (length l) l x 0 (length l) in
    match l !! base with
    | Some m =>
        if m =? x then Ok base else Err (if m <? x then S base else base)
    | None => Panic
    end
  end.

(** ** The producer's credit *)

Inductive Refusal :=
  | Refusal_TooLarge (size limit : Z)
  | Wait
  | Refusal_Overflow.

Inductive AckOutcome := Advanced | Duplicate.

Inductive AckViolation :=
  | Regressing (acked got : Z)
  | Excess (sent got : Z)
  | Misaligned (got : Z).

(** The [Display] text of a refused acknowledgement. *)
Definition AckViolation_to_string (v : AckViolation) : string :=
  match v with
  | Regressing acked got =>
      "acknowledgement " +:+ pretty got +:+ " regresses below " +:+ pretty acked
  | Excess sent got =>
      "acknowledgement " +:+ pretty got +:+ " exceeds the " +:+ pretty sent +:+ " bytes sent"
  | Misaligned got =>
      "acknowledgement " +:+ pretty got +:+ " is not on an item boundary"
  end.

Record Credit := mkCredit {
  cr_window : Z;
  cr_sent : Z;
  cr_acked : Z;
  cr_boundaries : list Z;
  cr_next_sequence : Z;
}.

Definition Credit_starting_at (window start sequence : Z) : Credit :=
  mkCredit window start start [] sequence.

Definition Credit_new (window : Z) : Credit := Credit_starting_at window 0 0.

Definition limit_window (c : Credit) (limit : Z) : Credit :=
  mkCredit (Z.min (cr_window c) limit) (cr_sent c) (cr_acked c) (cr_boundaries c)
    (cr_next_sequence c).

Definition in_flight (c : Credit) : Z := cr_sent c - cr_acked c.

Definition Credit_items (c : Credit) : Z := cr_next_sequence c.

Definition has_room (c : Credit) : bool := in_flight c <? cr_window c.

Definition reserve (c : Credit) (size : Z) : Credit * res Refusal Z :=
  if cr_window c <? size then (c, Err (Refusal_TooLarge size (cr_window c))) else
  match checked_add64 (cr_sent c) size with
  | None => (c, Err Refusal_Overflow)
  | Some sent =>
    match checked_add64 (cr_next_sequence c) 1 with
    | None => (c, Err Refusal_Overflow)
    | Some next =>
      if cr_window c <? sent - cr_acked c then (c, Err Wait) else
      (mkCredit (cr_window c) sent (cr_acked c) (cr_boundaries c ++ [sent]) next,
       Ok (cr_next_sequence c))
    end
  end.

Definition ack (c : Credit) (consumed : Z) : Credit * res AckViolation AckOutcome :=
  if consumed =? cr_acked c then (c, Ok Duplicate) else
  if consumed <? cr_acked c then (c, Err (Regressing (cr_acked c) consumed)) else
  if cr_sent c <? consumed then (c, Err (Excess (cr_sent c) consumed)) else
  match binary_search (cr_boundaries c) consumed with
  | Ok index =>
      (mkCredit (cr_window c) (cr_sent c) consumed (drop (S index) (cr_boundaries c))
         (cr_next_sequence c), Ok Advanced)
  | Err _ => (c, Err (Misaligned consumed))
  | Panic => (c, Panic)
  end.

(** ** The consumer's intake *)

Inductive IntakeViolation :=
  | Gap (expected got : Z)
  | Reordered (expected got : Z)
  | Intake_Overflow
  | WindowExceeded (buffered window : Z)
  | CountMismatch (announced received : Z).

Definition IntakeViolation_to_string (v : IntakeViolation) : string :=
  match v with
  | Gap expected got =>
      "item " +:+ pretty got +:+ " arrived while " +:+ pretty expected
      +:+ " was expected (gap)"
  | Reordered expected got =>
      "item " +:+ pretty got +:+ " arrived while " +:+ pretty expected
      +:+ " was expected (repeated or reordered)"
  | Intake_Overflow => "stream byte counter overflow"
  | WindowExceeded buffered window =>
      pretty buffered +:+ " unconsumed bytes exceed the " +:+ pretty window +:+ "-byte window"
  | CountMismatch announced received =>
      "the end announced " +:+ pretty announced +:+ " items but " +:+ pretty received
      +:+ " arrived"
  end.

Record Intake := mkIntake {
  in_window : Z;
  in_next_sequence : Z;
  in_received : Z;
  in_consumed : Z;
}.

Definition Intake_starting_at (window start sequence : Z) : Intake :=
  mkIntake window sequence start start.

Definition Intake_new (window : Z) : Intake := Intake_starting_at window 0 0.

Definition buffered (i : Intake) : Z := in_received i - in_consumed i.

Definition Intake_items (i : Intake) : Z := in_next_sequence i.

Definition accept (i : Intake) (sequence size : Z) : Intake * res IntakeViolation unit :=
  let expected := in_next_sequence i in
  if expected <? sequence then (i, Err (Gap expected sequence)) else
  if sequence <? expected then (i, Err (Reordered expected sequence)) else
  match checked_add64 (in_received i) size with
  | None => (i, Err Intake_Overflow)
  | Some received =>
    match checked_add64 expected 1 with
    | None => (i, Err Intake_Overflow)
    | Some next =>
      let buffered := received - in_consumed i in
      if in_window i <? buffered then (i, Err (WindowExceeded buffered (in_window i))) else
      (mkIntake (in_window i) next received (in_consumed i), Ok tt)
    end
  end.

Definition consume (i : Intake) (size : Z) : Intake * Z :=
  let consumed := Z.min (Z.min (in_consumed i + size) u64_max) (in_received i) in
  (mkIntake (in_window i) (in_next_sequence i) (in_received i) consumed, consumed).

Definition Intake_end (i : Intake) (items : Z) : res IntakeViolation unit :=
  if items =? in_next_sequence i then Ok tt
  else Err (CountMismatch items (in_next_sequence i)).

(** ** Binary search on an ascending list *)

Definition ascending (l : list Z) : Prop := StronglySorted Z.lt l.

Lemma ascending_lookup l i j x y :
  ascending l → l !! i = Some x → l !! j = Some y → (i < j)%nat → x < y.
Proof.
  intros Hs. revert i j. induction Hs as [|a l Hs IH Ha]; intros i j Hi Hj Hij; [done|].
  destruct j as [|j]; [lia|]. destruct i as [|i]; cbn in *.
  - simplify_eq. rewrite Forall_forall in Ha. apply Ha. by eapply list_elem_of_lookup_2.
  - apply (IH i j); [done..|lia].
Qed.

Lemma ascending_unique l i j x :
  ascending l → l !! i = Some x → l !! j = Some x → i = j.
Proof.
  intros Hs Hi Hj. destruct (Nat.lt_trichotomy i j) as [?|[?|?]]; [|done|].
  - pose proof (ascending_lookup l i j x x Hs Hi Hj ltac:(done)). lia.
  - pose proof (ascending_lookup l j i x x Hs Hj Hi ltac:(done)). lia.
Qed.

Lemma bsearch_loop_spec fuel l x base size :
  ascending l → (0 < size)%nat → (base + size ≤ length l)%nat → (size ≤ fuel)%nat →
  (∀ i, l !! i = Some x → base ≤ i < base + size)%nat →
  (bsearch_loop fuel l x base size < length l)%nat ∧
  ∀ i, l !! i = Some x → i = bsearch_loop fuel l x base size.
Proof.
  intros Hs. revert base size. induction fuel as [|fuel IH]; intros base size H0 Hb Hf Hi; [lia|].
  cbn [bsearch_loop]. destruct (Nat.leb_spec size 1).
  { split; [lia|]. intros i E. specialize (Hi i E). lia. }
  set (half := (size / 2)%nat).
  assert (0 < half < size ∧ half + half ≤ size)%nat.
  { unfold half. pose proof (Nat.div_mod_eq size 2).
    pose proof (Nat.mod_upper_bound size 2 ltac:(lia)). lia. }
  destruct (lookup_lt_is_Some_2 l (base + half)) as [m Em]; [lia|]. rewrite Em.
  apply IH; [lia|destruct (x <? m); lia|lia|].
  intros i E. specialize (Hi i E). destruct (Z.ltb_spec x m).
  - assert (i < base + half)%nat; [|lia].
    destruct (Nat.lt_trichotomy i (base + half)) as [?|[->|?]]; [done|simplify_eq; lia|].
    pose proof (ascending_lookup l (base + half) i m x Hs Em E ltac:(lia)). lia.
  - assert (base + half ≤ i)%nat; [|lia].
    destruct (Nat.lt_trichotomy i (base + half)) as [?|[->|?]]; [|lia..].
    pose proof (ascending_lookup l i (base + half) x m Hs E Em ltac:(lia)). lia.
Qed.

Lemma binary_search_spec l x :
  ascending l →
  match binary_search l x with
  | Ok i => l !! i = Some x
  | Err _ => x ∉ l
  | Panic => False
  end.
Proof.
  intros Hs. destruct l as [|a l']; [by apply not_elem_of_nil|].
  unfold binary_search. set (l := a :: l') in *.
  destruct (bsearch_loop_spec (length l) l x 0 (length l)) as [Hlt Hu]; try done.
  { cbn. lia. }
  { intros i E. apply lookup_lt_Some in E. lia. }
  set (b := bsearch_loop _ _ _ _ _) in *.
  destruct (lookup_lt_is_Some_2 l b Hlt) as [m Em]. rewrite Em.
  destruct (Z.eqb_spec m x) as [->|Hne]; [done|].
  intros [i Ei]%list_elem_of_lookup. pose proof (Hu i Ei) as ->. congruence.
Qed.

(** ** What the boundaries stand for: a queue of unacknowledged items *)

Fixpoint total (sizes : list Z) : Z :=
  match sizes with [] => 0 | s :: sizes => s + total sizes end.

(** Cumulative counters after each item, from [start]. *)
Fixpoint sums (start : Z) (sizes : list Z) : list Z :=
  match sizes with [] => [] | s :: sizes => start + s :: sums (start + s) sizes end.

Definition positive_sizes (sizes : list Z) : Prop := Forall (λ s, 0 < s) sizes.

Lemma total_app a b : total (a ++ b) = total a + total b.
Proof. induction a; cbn; lia. Qed.

Lemma total_nonneg q : positive_sizes q → 0 ≤ total q.
Proof. induction 1; cbn; lia. Qed.

Lemma total_pos q : positive_sizes q → q ≠ [] → 0 < total q.
Proof. intros Hq ?. destruct Hq as [|s q ? Hq]; [done|]. apply total_nonneg in Hq. cbn. lia. Qed.

Lemma sums_app start a b : sums start (a ++ b) = sums start a ++ sums (start + total a) b.
Proof.
  revert start. induction a as [|s a IH]; intros start; cbn; [by rewrite Z.add_0_r|].
  rewrite IH. do 3 f_equal. lia.
Qed.

Lemma elem_of_sums x start q :
  x ∈ sums start q ↔ ∃ a b, q = a ++ b ∧ a ≠ [] ∧ x = start + total a.
Proof.
  revert start. induction q as [|s q IH]; intros start; cbn.
  - split; [by intros ?%not_elem_of_nil|]. intros (a & b & E & Ha & _).
    by destruct a.
  - rewrite elem_of_cons, IH. split.
    + intros [-> | (a & b & -> & Ha & ->)].
      * exists [s], q. cbn. split_and!; [done..|lia].
      * exists (s :: a), b. cbn. split_and!; [done..|lia].
    + intros (a & b & E & Ha & ->). destruct a as [|t a]; [done|].
      cbn in E. simplify_eq. destruct a as [|t' a']; [left; cbn; lia|].
      right. exists (t' :: a'), b. cbn. split_and!; [done..|lia].
Qed.

Lemma sums_ascending start q : positive_sizes q → ascending (sums start q).
Proof.
  intros Hq. revert start. induction Hq as [|s q Hs Hq IH]; intros start; cbn; constructor.
  - apply IH.
  - apply Forall_forall. intros x (a & b & -> & Ha & ->)%elem_of_sums.
    apply Forall_app in Hq as [Hqa _]. pose proof (total_pos a Hqa Ha). lia.
Qed.

Lemma lookup_sums start q i x :
  sums start q !! i = Some x → x = start + total (take (S i) q) ∧ (i < length q)%nat.
Proof.
  revert start i. induction q as [|s q IH]; intros start i; [done|].
  destruct i as [|i]; cbn.
  - intros [= <-]. rewrite take_0. cbn. lia.
  - intros [-> ?]%IH. split; [cbn; lia|lia].
Qed.

Lemma drop_sums start q i :
  (i < length q)%nat → drop (S i) (sums start q) = sums (start + total (take (S i) q)) (drop (S i) q).
Proof.
  revert start i. induction q as [|s q IH]; intros start i Hi; cbn in *; [lia|].
  destruct i as [|i].
  - rewrite take_0, !drop_0. cbn. f_equal. lia.
  - rewrite (IH (start + s) i) by lia. cbn. f_equal. lia.
Qed.

(** The abstract credit: the sizes of the items sent and not acknowledged,
    oldest first.  [in_flight] need not be within the window: [limit_window]
    can lower it below what is already in flight. *)
Record credit_is (c : Credit) (q : list Z) : Prop := {
  ci_boundaries : cr_boundaries c = sums (cr_acked c) q;
  ci_sent : cr_sent c = cr_acked c + total q;
  ci_positive : positive_sizes q;
  ci_acked : 0 ≤ cr_acked c;
  ci_sent_u64 : cr_sent c < 2 ^ 64;
  ci_next : u64 (cr_next_sequence c);
}.

Lemma credit_in_flight c q : credit_is c q → in_flight c = total q.
Proof. intros [_ Hs _ _ _ _]. unfold in_flight. lia. Qed.

Lemma Credit_starting_at_is window start sequence :
  u64 start → u64 sequence → credit_is (Credit_starting_at window start sequence) [].
Proof. intros [? ?] ?. constructor; cbn; try done; try lia. constructor. Qed.

Lemma limit_window_is c q limit : credit_is c q → credit_is (limit_window c limit) q.
Proof. by intros []. Qed.

(** Reserving appends exactly one item, and only within the window. *)
Lemma reserve_spec c q size :
  credit_is c q → 0 < size →
  match reserve c size with
  | (c', Ok sequence) =>
      sequence = cr_next_sequence c ∧ cr_next_sequence c' = cr_next_sequence c + 1 ∧
      credit_is c' (q ++ [size]) ∧ total q + size ≤ cr_window c ∧
      cr_window c' = cr_window c ∧ cr_acked c' = cr_acked c
  | (c', Err (Refusal_TooLarge s limit)) =>
      c' = c ∧ s = size ∧ limit = cr_window c ∧ cr_window c < size
  | (c', Err Wait) => c' = c ∧ size ≤ cr_window c < total q + size
  | (c', Err Refusal_Overflow) =>
      c' = c ∧ (2 ^ 64 ≤ cr_sent c + size ∨ cr_next_sequence c = u64_max)
  | (_, Panic) => False
  end.
Proof.
  intros Hc Hs. pose proof Hc as [Hb Hsent Hp Ha Hu Hn]. unfold reserve.
  destruct (Z.ltb_spec (cr_window c) size); [done|].
  unfold checked_add64, u64_max, in_u in *.
  destruct (Z.leb_spec (cr_sent c + size) (2 ^ 64 - 1)); [|split; [done|lia]].
  destruct (Z.leb_spec (cr_next_sequence c + 1) (2 ^ 64 - 1)); [|split; [done|lia]].
  destruct (Z.ltb_spec (cr_window c) (cr_sent c + size - cr_acked c)); [split; [done|lia]|].
  split_and!; cbn; try done; try lia. constructor; cbn; try done; try lia.
  - rewrite sums_app, Hb. cbn. do 2 f_equal. lia.
  - rewrite total_app. cbn. lia.
  - apply Forall_app. split; [done|]. by constructor.
  - unfold in_u. lia.
Qed.

(** An acknowledgement removes a non-empty prefix, or changes nothing. *)
Lemma ack_spec c q consumed :
  credit_is c q →
  match ack c consumed with
  | (c', Ok Advanced) =>
      ∃ a b, q = a ++ b ∧ a ≠ [] ∧ consumed = cr_acked c + total a ∧
        credit_is c' b ∧ cr_acked c' = consumed ∧ cr_window c' = cr_window c ∧
        cr_next_sequence c' = cr_next_sequence c
  | (c', Ok Duplicate) => c' = c ∧ consumed = cr_acked c
  | (c', Err violation) =>
      c' = c ∧ (∀ a b, q = a ++ b → consumed ≠ cr_acked c + total a) ∧
      violation = (if consumed <? cr_acked c then Regressing (cr_acked c) consumed
                   else if cr_sent c <? consumed then Excess (cr_sent c) consumed
                   else Misaligned consumed)
  | (_, Panic) => False
  end.
Proof.
  intros Hc. pose proof Hc as [Hb Hsent Hp Ha Hu Hn]. unfold ack.
  destruct (Z.eqb_spec consumed (cr_acked c)) as [->|Hne]; [done|].
  assert (∀ a b, q = a ++ b → 0 ≤ total a ≤ total q) as Hpre.
  { intros a b ->. apply Forall_app in Hp as [Hpa Hpb]. rewrite total_app.
    apply total_nonneg in Hpa, Hpb. lia. }
  destruct (Z.ltb_spec consumed (cr_acked c)).
  { split_and!; [done| |done]. intros a b E. specialize (Hpre a b E). lia. }
  destruct (Z.ltb_spec (cr_sent c) consumed).
  { split_and!; [done| |done]. intros a b E. specialize (Hpre a b E). lia. }
  pose proof (binary_search_spec (cr_boundaries c) consumed) as Hbs.
  rewrite Hb in Hbs. specialize (Hbs (sums_ascending _ _ Hp)). rewrite Hb.
  destruct (binary_search _ consumed) as [i|i|]; [| |done].
  - apply lookup_sums in Hbs as [Hv Hi].
    assert (positive_sizes (take (S i) q) ∧ positive_sizes (drop (S i) q)) as [Hpa Hpb].
    { apply Forall_app. by rewrite take_drop. }
    exists (take (S i) q), (drop (S i) q). rewrite take_drop.
    split_and!; try done; cbn; [destruct q; [cbn in Hi; lia|done]|].
    pose proof (total_app (take (S i) q) (drop (S i) q)) as Et. rewrite take_drop in Et.
    apply total_nonneg in Hpa.
    constructor; cbn; try done; try lia. rewrite drop_sums by done. by rewrite <- Hv.
  - split_and!; [done| |done]. intros a b E Hv. apply Hbs, elem_of_sums.
    exists a, b. split_and!; [done| |done]. intros ->. cbn in Hv. lia.
Qed.
