(* ===== verification/Flow.v ===== *)
(** The credit protocol between one producer and one consumer: the operations
    of [Credit] on one side, of [Intake] on the other, a FIFO channel of items
    one way and of cumulative acknowledgements the other way
    (moonpool-rpc/src/stream/{credit,consumer,producer}.rs and the signal
    coalescing of moonpool-rpc/src/transport/connection.rs).

    The state is what the two ends hold plus what travels; [flow_step] is one
    call of the code on either end.  A refusal by either end is recorded in
    [f_violation] and proved unreachable. *)
From stdpp Require Import base list numbers.
From S2P Require Import Prelude Credit.

Record Flow := mkFlow {
  f_credit : Credit;
  f_items : list (Z * Z);          (* (sequence, size) on the way, oldest first *)
  f_intake : Intake;
  f_queue : list Z;                (* sizes of the items the consumer holds *)
  f_acks : list Z;                 (* acknowledgements on the way, oldest first *)
  f_violation : bool;
}.

Definition Flow_new (window : Z) : Flow :=
  mkFlow (Credit_new window) [] (Intake_new window) [] [] false.

Inductive flow_step : Flow → Flow → Prop :=
  | flow_send f size c' sequence :
      0 < size → reserve (f_credit f) size = (c', Ok sequence) →
      flow_step f (mkFlow c' (f_items f ++ [(sequence, size)]) (f_intake f) (f_queue f)
                     (f_acks f) (f_violation f))
  | flow_limit f limit :
      0 ≤ limit →
      flow_step f (mkFlow (limit_window (f_credit f) limit) (f_items f) (f_intake f)
                     (f_queue f) (f_acks f) (f_violation f))
  | flow_deliver f sequence size items :
      f_items f = (sequence, size) :: items →
      flow_step f
        (match accept (f_intake f) sequence size with
         | (i', Ok _) => mkFlow (f_credit f) items i' (f_queue f ++ [size]) (f_acks f)
                           (f_violation f)
         | (i', _) => mkFlow (f_credit f) items i' (f_queue f) (f_acks f) true
         end)
  (* The application takes an item and the consumer acknowledges. *)
  | flow_take f size queue :
      f_queue f = size :: queue →
      flow_step f
        (let '(i', consumed) := consume (f_intake f) size in
         mkFlow (f_credit f) (f_items f) i' queue (f_acks f ++ [consumed]) (f_violation f))
  (* An acknowledgement deferred: only while another item is buffered. *)
  | flow_take_deferred f size queue :
      f_queue f = size :: queue → queue ≠ [] →
      flow_step f
        (let '(i', consumed) := consume (f_intake f) size in
         mkFlow (f_credit f) (f_items f) i' queue (f_acks f) (f_violation f))
  (* Two acknowledgements not yet written are coalesced into the larger. *)
  | flow_coalesce f acks a b acks' :
      f_acks f = acks ++ a :: b :: acks' →
      flow_step f
        (mkFlow (f_credit f) (f_items f) (f_intake f) (f_queue f)
           (acks ++ Z.max a b :: acks') (f_violation f))
  | flow_ack f consumed acks :
      f_acks f = consumed :: acks →
      flow_step f
        (match ack (f_credit f) consumed with
         | (c', Ok _) => mkFlow c' (f_items f) (f_intake f) (f_queue f) acks (f_violation f)
         | (c', _) => mkFlow c' (f_items f) (f_intake f) (f_queue f) acks true
         end).

(** ** The joint invariant

    The unacknowledged items split into those the application already took
    ([took]), those the consumer holds and those on the way; every
    acknowledgement on the way is the counter after a prefix of [took], in
    order, and unless the consumer still holds an item the last one
    acknowledges everything taken. *)

(** The counters the acknowledgements [acks] announce, from [acked]. *)
Fixpoint acks_ok (acked : Z) (took acks : list Z) : Prop :=
  match acks with
  | [] => True
  | v :: acks =>
      ∃ a b, took = a ++ b ∧ v = acked + total a ∧ acks_ok v b acks
  end.

Definition last_ack (acked : Z) (acks : list Z) : Z := default acked (last acks).

(** Items on the way carry consecutive sequence numbers from [n]. *)
Fixpoint numbered (n : Z) (items : list (Z * Z)) : Prop :=
  match items with
  | [] => True
  | (sequence, _) :: items => sequence = n ∧ numbered (n + 1) items
  end.

Record flow_inv_with (window : Z) (f : Flow) (took : list Z) : Prop := {
  fi_credit : credit_is (f_credit f) (took ++ f_queue f ++ (f_items f).*2);
  fi_consumed : in_consumed (f_intake f) = cr_acked (f_credit f) + total took;
  fi_received : in_received (f_intake f) = in_consumed (f_intake f) + total (f_queue f);
  fi_window : in_window (f_intake f) = window;
  fi_limit : cr_window (f_credit f) ≤ window;
  fi_flight : in_flight (f_credit f) ≤ window;
  fi_numbered : numbered (in_next_sequence (f_intake f)) (f_items f);
  fi_next : cr_next_sequence (f_credit f) =
              in_next_sequence (f_intake f) + Z.of_nat (length (f_items f));
  fi_next_pos : 0 ≤ in_next_sequence (f_intake f);
  fi_acks : acks_ok (cr_acked (f_credit f)) took (f_acks f);
  fi_last : f_queue f = [] →
              last_ack (cr_acked (f_credit f)) (f_acks f) = in_consumed (f_intake f);
  fi_violation : f_violation f = false;
}.

Definition flow_inv (window : Z) (f : Flow) : Prop := ∃ took, flow_inv_with window f took.

(** ** Lemmas on acknowledgements in flight *)

Lemma acks_ok_ext acked took x acks : acks_ok acked took acks → acks_ok acked (took ++ x) acks.
Proof.
  revert acked took. induction acks as [|v acks IH]; intros acked took; [done|].
  intros (a & b & -> & -> & H). exists a, (b ++ x). rewrite app_assoc. eauto.
Qed.

Lemma acks_ok_snoc acked took acks :
  acks_ok acked took acks → acks_ok acked took (acks ++ [acked + total took]).
Proof.
  revert acked took. induction acks as [|v acks IH]; intros acked took; cbn.
  - intros _. exists took, []. by rewrite app_nil_r.
  - intros (a & b & -> & -> & H). exists a, b. split_and!; [done..|].
    rewrite total_app, Z.add_assoc. by apply IH.
Qed.

Lemma acks_ok_coalesce acked took acks a b acks' :
  positive_sizes took → acks_ok acked took (acks ++ a :: b :: acks') →
  acks_ok acked took (acks ++ Z.max a b :: acks').
Proof.
  revert acked took. induction acks as [|v acks IH]; intros acked took Hp; cbn.
  - intros (x & y & -> & -> & z & w & -> & -> & H).
    apply Forall_app in Hp as [_ [Hz _]%Forall_app]. apply total_nonneg in Hz.
    exists (x ++ z), w. rewrite <- app_assoc. split_and!; [done| |].
    + rewrite total_app. lia.
    + rewrite Z.max_r by lia. done.
  - intros (x & y & -> & -> & H). exists x, y. split_and!; [done..|].
    apply IH; [|done]. by apply Forall_app in Hp as [_ ?].
Qed.

Lemma last_ack_coalesce acked took acks a b acks' :
  positive_sizes took → acks_ok acked took (acks ++ a :: b :: acks') →
  last_ack acked (acks ++ Z.max a b :: acks') = last_ack acked (acks ++ a :: b :: acks').
Proof.
  intros Hp H. unfold last_ack. destruct acks' as [|c acks'].
  - rewrite last_snoc. assert (a ≤ b); [|].
    { revert acked took Hp H. induction acks as [|v acks IH]; intros acked took Hp; cbn.
      - intros (x & y & -> & -> & z & w & -> & -> & H).
        apply Forall_app in Hp as [_ [Hz _]%Forall_app]. apply total_nonneg in Hz. lia.
      - intros (x & y & -> & -> & H). apply (IH (acked + total x) y); [|done].
        by apply Forall_app in Hp as [_ ?]. }
    replace (acks ++ [a; b]) with ((acks ++ [a]) ++ [b]) by (by rewrite <- app_assoc).
    rewrite last_snoc. cbn. lia.
  - f_equal. rewrite !last_app_cons. done.
Qed.

(** Positive sizes: a counter determines the prefix it counts. *)
Lemma prefix_unique a b a' b' :
  positive_sizes (a ++ b) → a ++ b = a' ++ b' → total a = total a' → a = a' ∧ b = b'.
Proof.
  revert a'. induction a as [|s a IH]; intros a' Hp E Ht.
  - destruct a' as [|s' a']; [done|]. cbn in E. subst b.
    pose proof (total_pos (s' :: a')) as P. apply Forall_app in Hp as [_ Hp].
    rewrite app_comm_cons in Hp. apply Forall_app in Hp as [Hp _].
    specialize (P Hp ltac:(done)). cbn in *. lia.
  - destruct a' as [|s' a'].
    + pose proof (total_pos (s :: a)) as P. apply Forall_app in Hp as [Hp _].
      specialize (P Hp ltac:(done)). cbn in *. lia.
    + cbn in *. simplify_eq. inversion_clear Hp.
      destruct (IH a') as [-> ->]; try done. lia.
Qed.

Lemma numbered_snoc n items sequence size :
  numbered n items → sequence = n + Z.of_nat (length items) →
  numbered n (items ++ [(sequence, size)]).
Proof.
  revert n. induction items as [|[q s] items IH]; intros n; cbn.
  - intros _ ->. split; [lia|done].
  - intros [-> H] ->. split; [done|]. apply IH; [done|]. lia.
Qed.

(** ** Each step preserves the invariant *)

Section Steps.
Context (window : Z).
Implicit Types f : Flow.

Lemma flow_positive f took :
  flow_inv_with window f took →
  positive_sizes took ∧ positive_sizes (f_queue f) ∧ positive_sizes (f_items f).*2.
Proof.
  intros H. pose proof (ci_positive _ _ (fi_credit _ _ _ H)) as Hp.
  by apply Forall_app in Hp as [? [? ?]%Forall_app].
Qed.

Lemma flow_new_inv : 0 ≤ window → flow_inv window (Flow_new window).
Proof.
  intros ?. exists []. constructor; cbn; try done; try lia.
  apply Credit_starting_at_is; unfold in_u; lia.
Qed.

Lemma flow_send_inv f took size c' sequence :
  flow_inv_with window f took → 0 < size →
  reserve (f_credit f) size = (c', Ok sequence) →
  flow_inv_with window
    (mkFlow c' (f_items f ++ [(sequence, size)]) (f_intake f) (f_queue f) (f_acks f)
       (f_violation f)) took.
Proof.
  intros H Hs E. pose proof (reserve_spec _ _ size (fi_credit _ _ _ H) Hs) as R.
  rewrite E in R. destruct R as (-> & Hn & Hc & Hw & Hwin & Hack).
  pose proof (fi_limit _ _ _ H). pose proof (fi_next _ _ _ H).
  rewrite <- !app_assoc in Hc.
  constructor; cbn; rewrite ?Hack, ?Hwin; try apply H.
  - by rewrite fmap_app.
  - rewrite (credit_in_flight _ _ Hc). rewrite !total_app in *. cbn in *. lia.
  - apply numbered_snoc; [apply H|done].
  - rewrite length_app. cbn. lia.
Qed.

Lemma flow_deliver_accepts f took sequence size items :
  flow_inv_with window f took → f_items f = (sequence, size) :: items →
  ∃ i', accept (f_intake f) sequence size = (i', Ok tt) ∧
    flow_inv_with window
      (mkFlow (f_credit f) items i' (f_queue f ++ [size]) (f_acks f) (f_violation f)) took.
Proof.
  intros H E. destruct (flow_positive f took H) as (Hpt & Hpq & Hpi).
  destruct H as [Hc Hcon Hrec Hwin Hlim Hfl Hnum Hnext Hnp Hacks Hlast Hv].
  pose proof Hc as [_ Hsent _ Hack Hu Hnu]. rewrite E in *. cbn in *.
  destruct Hnum as [-> Hnum]. inversion_clear Hpi as [|? ? Hsz Hpi'].
  apply total_nonneg in Hpt, Hpq, Hpi'. rewrite (credit_in_flight _ _ Hc) in Hfl.
  rewrite !total_app in *. cbn in *. unfold accept. rewrite !Z.ltb_irrefl.
  unfold checked_add64, u64_max, in_u in *.
  destruct (Z.leb_spec (in_received (f_intake f) + size) (2 ^ 64 - 1)); [|lia].
  destruct (Z.leb_spec (in_next_sequence (f_intake f) + 1) (2 ^ 64 - 1)); [|lia].
  destruct (Z.ltb_spec (in_window (f_intake f))
    (in_received (f_intake f) + size - in_consumed (f_intake f))); [lia|].
  eexists. split; [done|]. constructor; cbn; try done; try lia.
  - by rewrite <- app_assoc.
  - rewrite total_app. cbn. lia.
  - rewrite (credit_in_flight _ _ Hc), !total_app. cbn. lia.
  - intros Hq. by apply app_eq_nil in Hq as [_ ?].
Qed.

(** Taking an item: the counter that is announced is the one after it. *)
Lemma flow_consume f took size queue :
  flow_inv_with window f took → f_queue f = size :: queue →
  consume (f_intake f) size =
    (mkIntake (in_window (f_intake f)) (in_next_sequence (f_intake f)) (in_received (f_intake f))
       (cr_acked (f_credit f) + total (took ++ [size])),
     cr_acked (f_credit f) + total (took ++ [size])).
Proof.
  intros H E. destruct (flow_positive f took H) as (Hpt & Hpq & Hpi).
  destruct H as [Hc Hcon Hrec _ _ _ _ _ _ _ _ _].
  pose proof Hc as [_ Hsent _ Hack Hu _]. rewrite E in *.
  inversion_clear Hpq as [|? ? Hsz Hpq']. apply total_nonneg in Hpt, Hpq', Hpi.
  rewrite !total_app in *. cbn in *. unfold consume, u64_max.
  assert (Z.min (Z.min (in_consumed (f_intake f) + size) (2 ^ 64 - 1)) (in_received (f_intake f))
            = cr_acked (f_credit f) + (total took + (size + 0))) as -> by lia.
  done.
Qed.

Lemma flow_take_inv f took size queue acks :
  flow_inv_with window f took → f_queue f = size :: queue →
  (acks = f_acks f ++ [cr_acked (f_credit f) + total (took ++ [size])] ∨
   (acks = f_acks f ∧ queue ≠ [])) →
  flow_inv_with window
    (mkFlow (f_credit f) (f_items f)
       (mkIntake (in_window (f_intake f)) (in_next_sequence (f_intake f))
          (in_received (f_intake f)) (cr_acked (f_credit f) + total (took ++ [size])))
       queue acks (f_violation f)) (took ++ [size]).
Proof.
  intros H E Ha. destruct H as [Hc Hcon Hrec Hwin Hlim Hfl Hnum Hnext Hnp Hacks Hlast Hv].
  rewrite E in *. constructor; cbn; try done.
  - by rewrite <- app_assoc.
  - rewrite total_app in *. cbn in *. lia.
  - destruct Ha as [-> | [-> _]]; [apply acks_ok_snoc|]; by apply acks_ok_ext.
  - intros ->. destruct Ha as [-> | [_ ?]]; [|done]. unfold last_ack. by rewrite last_snoc.
Qed.

Lemma flow_ack_accepts f took consumed acks :
  flow_inv_with window f took → f_acks f = consumed :: acks →
  ∃ c' o took', ack (f_credit f) consumed = (c', Ok o) ∧ cr_acked c' = consumed ∧
    flow_inv_with window
      (mkFlow c' (f_items f) (f_intake f) (f_queue f) acks (f_violation f)) took'.
Proof.
  intros H E. destruct H as [Hc Hcon Hrec Hwin Hlim Hfl Hnum Hnext Hnp Hacks Hlast Hv].
  rewrite E in Hacks. destruct Hacks as (a & b & -> & Hcv & Hacks).
  rewrite <- app_assoc in Hc. pose proof (ci_positive _ _ Hc) as Hp.
  assert (last_ack consumed acks = last_ack (cr_acked (f_credit f)) (consumed :: acks)) as Hl.
  { unfold last_ack. rewrite last_cons. by destruct (last acks). }
  rewrite E, <- Hl in Hlast. rewrite total_app in Hcon.
  pose proof (ack_spec _ _ consumed Hc) as A.
  destruct (ack (f_credit f) consumed) as [c' [[]|v|]]; [| | |done].
  - destruct A as (a' & b' & Eq & _ & Hcv' & Hc' & Hack & Hw & Hn).
    destruct (prefix_unique a (b ++ f_queue f ++ (f_items f).*2) a' b') as [<- <-];
      [done|done|lia|].
    exists c', Advanced, b. split_and!; [done..|].
    constructor; cbn; rewrite ?Hw, ?Hn, ?Hack; try done; try lia.
    rewrite (credit_in_flight _ _ Hc'), (credit_in_flight _ _ Hc), !total_app in *.
    apply Forall_app in Hp as [Hpa _]. apply total_nonneg in Hpa. lia.
  - destruct A as [-> Hd]. assert (a = []) as ->.
    { destruct a as [|s a]; [done|]. apply Forall_app in Hp as [Hpa _].
      pose proof (total_pos (s :: a) Hpa ltac:(done)). lia. }
    exists (f_credit f), Duplicate, b. split_and!; [done..|].
    rewrite Hd in *. constructor; cbn; try done.
  - destruct A as (_ & Hno & _). by destruct (Hno a (b ++ f_queue f ++ (f_items f).*2)).
Qed.

Lemma flow_step_inv f f' : flow_inv window f → flow_step f f' → flow_inv window f'.
Proof.
  intros [took H] St. destruct St as
    [f size c' sequence Hs E|f limit Hl|f sequence size items E|f size queue E
    |f size queue E Hq|f acks a b acks' E|f consumed acks E].
  - exists took. by apply flow_send_inv.
  - exists took. destruct H. constructor; cbn; try done; [by apply limit_window_is|lia].
  - destruct (flow_deliver_accepts f took sequence size items H E) as (i' & -> & H').
    by exists took.
  - rewrite (flow_consume f took size queue H E). exists (took ++ [size]).
    apply flow_take_inv; auto.
  - rewrite (flow_consume f took size queue H E). exists (took ++ [size]).
    apply flow_take_inv; auto.
  - exists took. destruct (flow_positive f took H) as (Hp & _).
    destruct H as [? ? ? ? ? ? ? ? ? Hacks Hlast ?]. rewrite E in Hacks, Hlast.
    constructor; cbn; try done.
    + by apply acks_ok_coalesce.
    + intros Hq. rewrite <- (Hlast Hq). by apply (last_ack_coalesce _ took).
  - destruct (flow_ack_accepts f took consumed acks H E) as (c' & o & took' & -> & _ & H').
    by exists took'.
Qed.

Lemma flow_reachable_inv f :
  0 ≤ window → rtc flow_step (Flow_new window) f → flow_inv window f.
Proof.
  intros Hw Hr. remember (Flow_new window) as f0 eqn:E0.
  assert (flow_inv window f0) as H0 by (subst; by apply flow_new_inv).
  clear E0. induction Hr as [|? ? ? St _ IH]; [done|].
  apply IH. by eapply flow_step_inv.
Qed.

End Steps.

(** ** Theorems *)

(** C22: the credit protocol is sound: from a fresh stream of any window,
    whatever the interleaving of sends, window reductions, deliveries, takes
    (acknowledged or deferred), coalesced and delivered acknowledgements,
    neither end ever reports a violation, no counter overflows unnoticed, the
    consumer never holds more than the announced window, and producer and
    consumer agree on every counter: what is in flight is exactly what was
    taken but not yet acknowledged, what is held and what is on the way. *)
Theorem credit_protocol_sound window f :
  0 ≤ window → rtc flow_step (Flow_new window) f →
  f_violation f = false ∧
  0 ≤ buffered (f_intake f) ≤ window ∧ buffered (f_intake f) = total (f_queue f) ∧
  in_flight (f_credit f) ≤ window ∧
  in_flight (f_credit f) =
    (in_consumed (f_intake f) - cr_acked (f_credit f)) + total (f_queue f) + total (f_items f).*2.
Proof.
  intros Hw Hr.
  destruct (flow_reachable_inv window f Hw Hr) as [took H].
  destruct (flow_positive _ _ _ H) as (Hpt & Hpq & Hpi).
  apply total_nonneg in Hpt, Hpq, Hpi.
  destruct H as [Hc Hcon Hrec Hwin Hlim Hfl Hnum Hnext Hnp Hacks Hlast Hv].
  rewrite (credit_in_flight _ _ Hc) in *. rewrite !total_app in *. unfold buffered.
  split_and!; [done|lia..].
Qed.

(** Credit is never lost: once nothing travels and the application has
    taken every item, all credit is back, however many acknowledgements were
    deferred or coalesced, so any item that fits the window can be sent as
    long as the 64-bit counters last. *)
Theorem quiescent_credit_restored window f size :
  0 ≤ window → rtc flow_step (Flow_new window) f →
  f_items f = [] → f_queue f = [] → f_acks f = [] →
  0 < size ≤ cr_window (f_credit f) →
  cr_sent (f_credit f) + size < 2 ^ 64 → cr_next_sequence (f_credit f) < u64_max →
  in_flight (f_credit f) = 0 ∧
  snd (reserve (f_credit f) size) = Ok (cr_next_sequence (f_credit f)).
Proof.
  intros Hw Hr Ei Eq Ea Hs Hsent Hseq.
  destruct (flow_reachable_inv window f Hw Hr) as [took H].
  destruct (flow_positive _ _ _ H) as (Hpt & _).
  destruct H as [Hc Hcon Hrec Hwin Hlim Hfl Hnum Hnext Hnp Hacks Hlast Hv].
  rewrite Ei, Eq in Hc. rewrite Ea in *. specialize (Hlast Eq). cbn in Hlast.
  assert (took = []) as ->.
  { destruct took; [done|]. pose proof (total_pos _ Hpt ltac:(done)). lia. }
  cbn in Hc. rewrite (credit_in_flight _ _ Hc). split; [done|].
  pose proof (reserve_spec _ _ size Hc ltac:(lia)) as R.
  destruct (reserve (f_credit f) size) as [c' [q|[]|]]; cbn in *; unfold u64_max in *; try lia.
  by destruct R as [-> _].
Qed.
