(* ===== verification/Connection.v ===== *)
(** One RPC session's outbound queues (moonpool-rpc/src/transport/connection.rs).

    The state behind the connection's mutex is [QueueState]; [Connection] adds
    the atomics and the runtime counters the session updates.  Every method is
    a function of the connection, whole, with its early returns.

    What is abstract: a [Release] (a boxed value dropped once its frame left)
    and a [CoreRef] (a shared reference to a produced stream) are identifiers;
    [AtomicWaker] belongs to the [futures] crate, so a connection only counts
    the [wake] calls it makes; times are nanoseconds; [peer_context] is stored
    and returned, never looked at, and is left out. *)
From stdpp Require Import base list numbers gmap.
From S2P Require Import Prelude Cursor Frame Status Wire.

Definition Release := Z.
Definition CoreRef := Z.

Inductive Direction := Outbound | Inbound.

Inductive FrameKind :=
  | Control
  | KindRequest (call_id : option Z)
  | Data.

Record Outgoing := mkOutgoing {
  out_bytes : list byte;
  out_kind : FrameKind;
  out_release : option Release;
}.

Inductive QueueRefusal := Full | Closed.

Definition QueuedRequest : Type := list byte * option Z.

Inductive Source :=
  | Requests
  | Replies
  | Stream (call_id : Z).

#[global] Instance Source_eq_dec : EqDecision Source.
Proof. solve_decision. Defined.

Record Signal := mkSignal { sig_ack : option Z; sig_cancel : bool }.

Definition Signal_default : Signal := mkSignal None false.

Record StreamFrame := mkStreamFrame {
  sf_bytes : list byte;
  sf_release : option Release;
}.

Record QueueLimits := mkQueueLimits {
  ql_requests : Z;
  ql_control : Z;
  ql_bytes : Z;
  ql_runtime_bytes : Z;
}.

Record PeerHello := mkPeerHello {
  ph_incarnation : Z;
  ph_version : Z;
  ph_max_frame_bytes : Z;
}.

Record QueueState := mkQueueState {
  q_control : list (list byte);
  q_requests : list QueuedRequest;
  q_replies : list (list byte * Release);
  q_stream_out : gmap Z (list StreamFrame);
  q_signals : gmap Z Signal;
  q_turns : list Source;
  q_server_streams : gmap Z CoreRef;
  q_queued_bytes : Z;
  q_request_bytes : Z;
  q_established : bool;
  q_closed : option CloseReason;
  q_peer_hello : option PeerHello;
  q_peer_address : option SocketAddr;
  q_received : Z;
  q_last_received : Z;
  q_last_used : Z;
}.

(** Assignments to one field. *)
Definition set_control (v : list (list byte)) (q : QueueState) : QueueState :=
  mkQueueState v (q_requests q) (q_replies q) (q_stream_out q) (q_signals q) (q_turns q)
    (q_server_streams q) (q_queued_bytes q) (q_request_bytes q) (q_established q) (q_closed
    q) (q_peer_hello q) (q_peer_address q) (q_received q) (q_last_received q) (q_last_used
    q).

Definition set_requests (v : list QueuedRequest) (q : QueueState) : QueueState :=
  mkQueueState (q_control q) v (q_replies q) (q_stream_out q) (q_signals q) (q_turns q)
    (q_server_streams q) (q_queued_bytes q) (q_request_bytes q) (q_established q) (q_closed
    q) (q_peer_hello q) (q_peer_address q) (q_received q) (q_last_received q) (q_last_used
    q).

Definition set_replies (v : list (list byte * Release)) (q : QueueState) : QueueState :=
  mkQueueState (q_control q) (q_requests q) v (q_stream_out q) (q_signals q) (q_turns q)
    (q_server_streams q) (q_queued_bytes q) (q_request_bytes q) (q_established q) (q_closed
    q) (q_peer_hello q) (q_peer_address q) (q_received q) (q_last_received q) (q_last_used
    q).

Definition set_stream_out (v : gmap Z (list StreamFrame)) (q : QueueState) : QueueState :=
  mkQueueState (q_control q) (q_requests q) (q_replies q) v (q_signals q) (q_turns q)
    (q_server_streams q) (q_queued_bytes q) (q_request_bytes q) (q_established q) (q_closed
    q) (q_peer_hello q) (q_peer_address q) (q_received q) (q_last_received q) (q_last_used
    q).

Definition set_signals (v : gmap Z Signal) (q : QueueState) : QueueState :=
  mkQueueState (q_control q) (q_requests q) (q_replies q) (q_stream_out q) v (q_turns q)
    (q_server_streams q) (q_queued_bytes q) (q_request_bytes q) (q_established q) (q_closed
    q) (q_peer_hello q) (q_peer_address q) (q_received q) (q_last_received q) (q_last_used
    q).

Definition set_turns (v : list Source) (q : QueueState) : QueueState :=
  mkQueueState (q_control q) (q_requests q) (q_replies q) (q_stream_out q) (q_signals q) v
    (q_server_streams q) (q_queued_bytes q) (q_request_bytes q) (q_established q) (q_closed
    q) (q_peer_hello q) (q_peer_address q) (q_received q) (q_last_received q) (q_last_used
    q).

Definition set_server_streams (v : gmap Z CoreRef) (q : QueueState) : QueueState :=
  mkQueueState (q_control q) (q_requests q) (q_replies q) (q_stream_out q) (q_signals q)
    (q_turns q) v (q_queued_bytes q) (q_request_bytes q) (q_established q) (q_closed q)
    (q_peer_hello q) (q_peer_address q) (q_received q) (q_last_received q) (q_last_used q).

Definition set_queued_bytes (v : Z) (q : QueueState) : QueueState :=
  mkQueueState (q_control q) (q_requests q) (q_replies q) (q_stream_out q) (q_signals q)
    (q_turns q) (q_server_streams q) v (q_request_bytes q) (q_established q) (q_closed q)
    (q_peer_hello q) (q_peer_address q) (q_received q) (q_last_received q) (q_last_used q).

Definition set_request_bytes (v : Z) (q : QueueState) : QueueState :=
  mkQueueState (q_control q) (q_requests q) (q_replies q) (q_stream_out q) (q_signals q)
    (q_turns q) (q_server_streams q) (q_queued_bytes q) v (q_established q) (q_closed q)
    (q_peer_hello q) (q_peer_address q) (q_received q) (q_last_received q) (q_last_used q).

Definition set_established (v : bool) (q : QueueState) : QueueState :=
  mkQueueState (q_control q) (q_requests q) (q_replies q) (q_stream_out q) (q_signals q)
    (q_turns q) (q_server_streams q) (q_queued_bytes q) (q_request_bytes q) v (q_closed q)
    (q_peer_hello q) (q_peer_address q) (q_received q) (q_last_received q) (q_last_used q).

Definition set_closed (v : option CloseReason) (q : QueueState) : QueueState :=
  mkQueueState (q_control q) (q_requests q) (q_replies q) (q_stream_out q) (q_signals q)
    (q_turns q) (q_server_streams q) (q_queued_bytes q) (q_request_bytes q) (q_established
    q) v (q_peer_hello q) (q_peer_address q) (q_received q) (q_last_received q) (q_last_used
    q).

Definition set_peer_hello (v : option PeerHello) (q : QueueState) : QueueState :=
  mkQueueState (q_control q) (q_requests q) (q_replies q) (q_stream_out q) (q_signals q)
    (q_turns q) (q_server_streams q) (q_queued_bytes q) (q_request_bytes q) (q_established
    q) (q_closed q) v (q_peer_address q) (q_received q) (q_last_received q) (q_last_used q).

Definition set_peer_address (v : option SocketAddr) (q : QueueState) : QueueState :=
  mkQueueState (q_control q) (q_requests q) (q_replies q) (q_stream_out q) (q_signals q)
    (q_turns q) (q_server_streams q) (q_queued_bytes q) (q_request_bytes q) (q_established
    q) (q_closed q) (q_peer_hello q) v (q_received q) (q_last_received q) (q_last_used q).

Definition set_received (v : Z) (q : QueueState) : QueueState :=
  mkQueueState (q_control q) (q_requests q) (q_replies q) (q_stream_out q) (q_signals q)
    (q_turns q) (q_server_streams q) (q_queued_bytes q) (q_request_bytes q) (q_established
    q) (q_closed q) (q_peer_hello q) (q_peer_address q) v (q_last_received q) (q_last_used
    q).

Definition set_last_received (v : Z) (q : QueueState) : QueueState :=
  mkQueueState (q_control q) (q_requests q) (q_replies q) (q_stream_out q) (q_signals q)
    (q_turns q) (q_server_streams q) (q_queued_bytes q) (q_request_bytes q) (q_established
    q) (q_closed q) (q_peer_hello q) (q_peer_address q) (q_received q) v (q_last_used q).

Definition set_last_used (v : Z) (q : QueueState) : QueueState :=
  mkQueueState (q_control q) (q_requests q) (q_replies q) (q_stream_out q) (q_signals q)
    (q_turns q) (q_server_streams q) (q_queued_bytes q) (q_request_bytes q) (q_established
    q) (q_closed q) (q_peer_hello q) (q_peer_address q) (q_received q) (q_last_received q) v.


(** The runtime-wide counters a connection updates. *)
Record Counters := mkCounters {
  k_queued_bytes : Z;
  k_queued_request_bytes : Z;
  k_control_reserve_closes : Z;
  k_live_connections : Z;
}.

Record Connection := mkConnection {
  cn_id : Z;
  cn_direction : Direction;
  cn_queue : QueueState;
  cn_limits : QueueLimits;
  cn_outstanding : Z;
  cn_stream_windows : Z;
  cn_counters : Counters;
  cn_wakes : Z;
}.

Definition with_queue (c : Connection) (q : QueueState) : Connection :=
  mkConnection (cn_id c) (cn_direction c) q (cn_limits c) (cn_outstanding c)
    (cn_stream_windows c) (cn_counters c) (cn_wakes c).

Definition with_counters (c : Connection) (k : Counters) : Connection :=
  mkConnection (cn_id c) (cn_direction c) (cn_queue c) (cn_limits c) (cn_outstanding c)
    (cn_stream_windows c) k (cn_wakes c).

Definition with_outstanding (c : Connection) (n : Z) : Connection :=
  mkConnection (cn_id c) (cn_direction c) (cn_queue c) (cn_limits c) n
    (cn_stream_windows c) (cn_counters c) (cn_wakes c).

(** [self.waker.wake()] *)
Definition wake_writer (c : Connection) : Connection :=
  mkConnection (cn_id c) (cn_direction c) (cn_queue c) (cn_limits c) (cn_outstanding c)
    (cn_stream_windows c) (cn_counters c) (cn_wakes c + 1).

Definition on_queue (f : QueueState → QueueState) (c : Connection) : Connection :=
  with_queue c (f (cn_queue c)).

Definition saturating_add64 (a b : Z) : Z := Z.min (a + b) u64_max.

(** ** The writer's rotation *)

Definition enlist (source : Source) (q : QueueState) : QueueState :=
  if bool_decide (source ∈ q_turns q) then q
  else set_turns (q_turns q ++ [source]) q.

Definition unlist (source : Source) (q : QueueState) : QueueState :=
  set_turns (filter (λ s, s ≠ source) (q_turns q)) q.

(** [is_empty] *)
Definition is_empty {A} (l : list A) : bool :=
  match l with [] => true | _ => false end.

Definition is_closed (c : Connection) : bool := bool_decide (is_Some (q_closed (cn_queue c))).

(** ** Byte accounting *)

Definition add_bytes (bytes : Z) (request : bool) (c : Connection) : Connection :=
  let q := cn_queue c in
  let k := cn_counters c in
  let q := set_queued_bytes (saturating_add64 (q_queued_bytes q) bytes) q in
  let q :=
    if request then set_request_bytes (saturating_add64 (q_request_bytes q) bytes) q else q in
  with_counters (with_queue c q)
    (mkCounters (k_queued_bytes k + bytes)
       (k_queued_request_bytes k + (if request then bytes else 0))
       (k_control_reserve_closes k) (k_live_connections k)).

Definition sub_bytes (bytes : Z) (request : bool) (c : Connection) : Connection :=
  let q := cn_queue c in
  let k := cn_counters c in
  let total := Z.min bytes (q_queued_bytes q) in
  let q := set_queued_bytes (q_queued_bytes q - total) q in
  let requested := if request then Z.min bytes (q_request_bytes q) else 0 in
  let q := if request then set_request_bytes (q_request_bytes q - requested) q else q in
  with_counters (with_queue c q)
    (mkCounters (k_queued_bytes k - total) (k_queued_request_bytes k - requested)
       (k_control_reserve_closes k) (k_live_connections k)).

Definition forget_bytes (c : Connection) : Connection :=
  let q := cn_queue c in
  let k := cn_counters c in
  with_counters (with_queue c (set_request_bytes 0 (set_queued_bytes 0 q)))
    (mkCounters (k_queued_bytes k - q_queued_bytes q)
       (k_queued_request_bytes k - q_request_bytes q)
       (k_control_reserve_closes k) (k_live_connections k)).

(** ** Construction and closing *)

Definition Connection_new (id : Z) (direction : Direction) (hello : list byte)
    (limits : QueueLimits) (now : Z) (k : Counters) : Connection :=
  mkConnection id direction
    (mkQueueState [hello] [] [] ∅ ∅ [] ∅ 0 0 false None None None 0 now now)
    (mkQueueLimits (ql_requests limits) (saturating_add64 (ql_control limits) 1)
       (ql_bytes limits) (ql_runtime_bytes limits))
    0 0
    (mkCounters (k_queued_bytes k) (k_queued_request_bytes k) (k_control_reserve_closes k)
       (k_live_connections k + 1))
    0.

(** Everything queued, taken out. *)
Definition drain_all (q : QueueState) : QueueState :=
  set_stream_out ∅ (set_replies [] (set_requests []
    (set_request_bytes 0 (set_queued_bytes 0 (set_turns [] (set_signals ∅ (set_control [] q))))))).

Definition Connection_close (reason : CloseReason) (c : Connection) : Connection * CloseReason :=
  let first := default reason (q_closed (cn_queue c)) in
  let c := on_queue (set_closed (Some first)) c in
  let c := forget_bytes c in
  let c := on_queue drain_all c in
  (wake_writer c, first).

(** ** Queueing frames *)

Definition push_request (frame : list byte) (call_id : option Z) (now : Z) (c : Connection) :
    Connection * res QueueRefusal unit :=
  if is_closed c then (c, Err Closed) else
  let q := cn_queue c in
  let n := len frame in
  let runtime := k_queued_request_bytes (cn_counters c) in
  if (ql_requests (cn_limits c) <=? len (q_requests q))
     || (ql_bytes (cn_limits c) <? saturating_add64 (q_request_bytes q) n)
     || (ql_runtime_bytes (cn_limits c) <? saturating_add64 runtime n)
  then (c, Err Full) else
  let c := add_bytes n true c in
  let c := on_queue (λ q, set_requests (q_requests q ++ [(frame, call_id)]) q) c in
  let c := on_queue (enlist Requests) c in
  let c := on_queue (λ q, set_last_used (Z.max (q_last_used q) now) q) c in
  (wake_writer c, Ok tt).

Definition adopt_requests (moved : list QueuedRequest) (now : Z) (c : Connection) :
    Connection * bool :=
  if is_closed c then (c, false) else
  let c :=
    fold_left (λ c '(frame, call_id),
      on_queue (λ q, set_requests (q_requests q ++ [(frame, call_id)]) q)
        (add_bytes (len frame) true c)) moved c in
  let c :=
    if is_empty (q_requests (cn_queue c)) then c else on_queue (enlist Requests) c in
  let c := on_queue (λ q, set_last_used (Z.max (q_last_used q) now) q) c in
  (wake_writer c, true).

Definition requests_bytes (l : list QueuedRequest) : Z :=
  foldr (λ r n, len (fst r) + n) 0 l.

Definition take_requests (c : Connection) : Connection * list QueuedRequest :=
  let taken := q_requests (cn_queue c) in
  let c := on_queue (set_requests []) c in
  let c := sub_bytes (requests_bytes taken) true c in
  (on_queue (unlist Requests) c, taken).

Definition push_control (frame : list byte) (c : Connection) : Connection * bool :=
  if is_closed c then (c, false) else
  if ql_control (cn_limits c) <=? len (q_control (cn_queue c)) then
    let k := cn_counters c in
    let c := with_counters c
      (mkCounters (k_queued_bytes k) (k_queued_request_bytes k)
         (k_control_reserve_closes k + 1) (k_live_connections k)) in
    (fst (Connection_close Local c), false)
  else
  let c := on_queue (λ q, set_control (q_control q ++ [frame]) q) c in
  (wake_writer c, true).

Definition push_reply (frame : list byte) (release : Release) (c : Connection) :
    Connection * res Release unit :=
  if is_closed c then (c, Err release) else
  let c := add_bytes (len frame) false c in
  let c := on_queue (λ q, set_replies (q_replies q ++ [(frame, release)]) q) c in
  (wake_writer (on_queue (enlist Replies) c), Ok tt).

Definition push_stream_frame (call_id : Z) (frame : StreamFrame) (c : Connection) :
    Connection * res StreamFrame unit :=
  if is_closed c then (c, Err frame) else
  let c := add_bytes (len (sf_bytes frame)) false c in
  let c := on_queue (λ q,
    set_stream_out
      (<[call_id := default [] (q_stream_out q !! call_id) ++ [frame]]> (q_stream_out q)) q) c in
  (on_queue (enlist (Stream call_id)) c, Ok tt).

(** ** Produced streams *)

Definition register_stream (call_id : Z) (core : CoreRef) (c : Connection) : Connection * bool :=
  let q := cn_queue c in
  if is_closed c || bool_decide (is_Some (q_server_streams q !! call_id)) then (c, false)
  else (on_queue (set_server_streams (<[call_id := core]> (q_server_streams q))) c, true).

Definition has_stream (call_id : Z) (c : Connection) : bool :=
  bool_decide (is_Some (q_server_streams (cn_queue c) !! call_id)).

Definition Connection_stream (call_id : Z) (c : Connection) : option CoreRef :=
  q_server_streams (cn_queue c) !! call_id.

Definition stream_count (c : Connection) : Z := Z.of_nat (size (q_server_streams (cn_queue c))).

Definition frames_bytes (l : list StreamFrame) : Z :=
  foldr (λ f n, len (sf_bytes f) + n) 0 l.

Definition remove_stream (call_id : Z) (discard : bool) (c : Connection) :
    Connection * list StreamFrame :=
  let c := on_queue (λ q, set_server_streams (delete call_id (q_server_streams q)) q) c in
  if negb discard then (c, []) else
  let frames := default [] (q_stream_out (cn_queue c) !! call_id) in
  let c := on_queue (λ q, set_stream_out (delete call_id (q_stream_out q)) q) c in
  let c := sub_bytes (frames_bytes frames) false c in
  (on_queue (unlist (Stream call_id)) c, frames).

Definition take_streams (c : Connection) : Connection * list CoreRef :=
  (on_queue (set_server_streams ∅) c, (map_to_list (q_server_streams (cn_queue c))).*2).

(** ** Signals of consumed streams, coalesced *)

Definition signal_ack (call_id consumed : Z) (c : Connection) : Connection :=
  if is_closed c then c else
  let q := cn_queue c in
  let s := default Signal_default (q_signals q !! call_id) in
  let s :=
    if sig_cancel s then s
    else mkSignal (Some match sig_ack s with Some a => Z.max a consumed | None => consumed end)
           (sig_cancel s) in
  wake_writer (on_queue (set_signals (<[call_id := s]> (q_signals q))) c).

Definition signal_cancel (call_id : Z) (c : Connection) : Connection :=
  if is_closed c then c else
  let q := cn_queue c in
  wake_writer (on_queue (set_signals (<[call_id := mkSignal None true]> (q_signals q))) c).

(** ** Session state *)

Definition establish (hello : PeerHello) (now : Z) (c : Connection) : Connection :=
  wake_writer (on_queue (λ q,
    set_last_used (Z.max (q_last_used q) now) (set_peer_hello (Some hello) (set_established true q)))
    c).

Definition select_for (address : SocketAddr) (c : Connection) : Connection :=
  on_queue (set_peer_address (Some address)) c.

Definition note_received (now : Z) (c : Connection) : Connection :=
  on_queue (λ q, set_last_received (Z.max (q_last_received q) now)
                   (set_received (q_received q + 1) q)) c.

Definition note_used (now : Z) (c : Connection) : Connection :=
  on_queue (λ q, set_last_used (Z.max (q_last_used q) now) q) c.

Definition silent_for (now : Z) (c : Connection) : Z :=
  Z.max 0 (now - q_last_received (cn_queue c)).

Definition begin_outstanding (c : Connection) : Connection * Z :=
  (with_outstanding c (cn_outstanding c + 1), cn_outstanding c + 1).

Definition end_outstanding (c : Connection) : Connection :=
  with_outstanding c (cn_outstanding c - 1).

Definition close_if_idle (now idle : Z) (selected : bool) (c : Connection) : Connection * bool :=
  let q := cn_queue c in
  let since := if selected then q_last_used q else q_last_received q in
  let idle_now :=
    bool_decide (q_closed q = None) && q_established q
    && is_empty (q_requests q) && is_empty (q_replies q)
    && bool_decide (dom (q_stream_out q) = ∅) && bool_decide (dom (q_signals q) = ∅)
    && bool_decide (dom (q_server_streams q) = ∅) && (cn_outstanding c =? 0)
    && (idle <=? Z.max 0 (now - since)) in
  if idle_now then
    (wake_writer (on_queue (λ q, set_control [] (set_closed (Some Idle) q)) c), true)
  else (c, false).

Definition retract (call_id : Z) (c : Connection) : Connection * bool :=
  let q := cn_queue c in
  let gone := filter (λ r : QueuedRequest, snd r = Some call_id) (q_requests q) in
  let bytes := requests_bytes gone in
  let c :=
    on_queue (λ q, set_requests (filter (λ r : QueuedRequest, snd r ≠ Some call_id) (q_requests q)) q)
      c in
  if bytes =? 0 then (c, false) else
  let c := sub_bytes bytes true c in
  let c :=
    if is_empty (q_requests (cn_queue c)) then on_queue (unlist Requests) c else c in
  (c, true).

(** ** The writer *)

(** [BTreeMap::pop_first]: the entry with the smallest key. *)
Definition first_key {A} (m : gmap Z A) : option Z :=
  foldr (λ k acc, Some (match acc with Some a => Z.min k a | None => k end)) None
    (map_to_list m).*1.

Definition is_drained (c : Connection) : bool :=
  let q := cn_queue c in
  is_empty (q_control q) && bool_decide (dom (q_signals q) = ∅)
  && is_empty (q_replies q) && bool_decide (dom (q_stream_out q) = ∅)
  && (is_empty (q_requests q) || negb (q_established q)).

Section Writer.
Context `{Xxh3}.

(** The frame a source has next, and whether it has more after it. *)
Definition next_from (source : Source) (c : Connection) :
    Connection * option (list byte * FrameKind * option Release * bool) :=
  let q := cn_queue c in
  match source with
  | Requests =>
      match q_requests q with
      | [] => (c, None)
      | (bytes, call_id) :: rest =>
          (on_queue (set_requests rest) c,
           Some (bytes, KindRequest call_id, None, negb (is_empty rest)))
      end
  | Replies =>
      match q_replies q with
      | [] => (c, None)
      | (bytes, release) :: rest =>
          (on_queue (set_replies rest) c,
           Some (bytes, Data, Some release, negb (is_empty rest)))
      end
  | Stream call_id =>
      match q_stream_out q !! call_id with
      | Some (frame :: rest) =>
          let more := negb (is_empty rest) in
          (on_queue (set_stream_out
             (if more then <[call_id := rest]> (q_stream_out q)
              else delete call_id (q_stream_out q))) c,
           Some (sf_bytes frame, Data, sf_release frame, more))
      | _ => (on_queue (set_stream_out (delete call_id (q_stream_out q))) c, None)
      end
  end.

(** The loop over the rotation, at most once around. *)
Fixpoint poll_turns (n : nat) (c : Connection) : Connection * option Outgoing :=
  match n with
  | O => (c, None)
  | S n =>
    match q_turns (cn_queue c) with
    | [] => (c, None)
    | source :: turns =>
      let c := on_queue (set_turns turns) c in
      if bool_decide (source = Requests) && negb (q_established (cn_queue c)) then
        poll_turns n (on_queue (λ q, set_turns (q_turns q ++ [source]) q) c)
      else
        match next_from source c with
        | (c, None) => poll_turns n c
        | (c, Some (bytes, kind, release, more)) =>
            let c :=
              if more : bool then on_queue (λ q, set_turns (q_turns q ++ [source]) q) c else c in
            let request := match kind with KindRequest _ => true | _ => false end in
            let c := sub_bytes (len bytes) request c in
            (c, Some (mkOutgoing bytes kind release))
        end
    end
  end.

Inductive Polled := Ready (next : option Outgoing) | Pending.

(** [poll_next], whose waker registration is left out. *)
Definition Connection_poll_next (c : Connection) : Connection * Polled :=
  if is_closed c then (c, Ready None) else
  match q_control (cn_queue c) with
  | bytes :: rest =>
      (on_queue (set_control rest) c, Ready (Some (mkOutgoing bytes Control None)))
  | [] =>
    match first_key (q_signals (cn_queue c)) with
    | Some call_id =>
        let signal := default Signal_default (q_signals (cn_queue c) !! call_id) in
        let c := on_queue (λ q, set_signals (delete call_id (q_signals q)) q) c in
        let message :=
          if sig_cancel signal then StreamCancel call_id
          else StreamAck call_id (default 0 (sig_ack signal)) in
        match encode_frame (encode_message message) (2 ^ 32 - 1) with
        | Ok bytes => (c, Ready (Some (mkOutgoing bytes Control None)))
        | _ =>
            (on_queue (λ q, set_closed (Some (default Local (q_closed q))) q) c, Ready None)
        end
    | None =>
        match poll_turns (length (q_turns (cn_queue c))) c with
        | (c, Some outgoing) => (c, Ready (Some outgoing))
        | (c, None) => (c, Pending)
        end
    end
  end.

End Writer.

(** ** Abstraction: what each source has queued, in order *)

Definition frame3 : Type := list byte * FrameKind * option Release.

Definition queue_of (q : QueueState) (s : Source) : list frame3 :=
  match s with
  | Requests => (λ r : QueuedRequest, (fst r, KindRequest (snd r), None)) <$> q_requests q
  | Replies => (λ r : list byte * Release, (fst r, Data, Some (snd r))) <$> q_replies q
  | Stream id =>
      (λ f, (sf_bytes f, Data, sf_release f)) <$> default [] (q_stream_out q !! id)
  end.

Definition replies_bytes (l : list (list byte * Release)) : Z :=
  foldr (λ r n, len (fst r) + n) 0 l.

Definition streams_bytes (m : gmap Z (list StreamFrame)) : Z :=
  map_fold (λ _ l n, frames_bytes l + n) 0 m.

Definition data_bytes (q : QueueState) : Z :=
  requests_bytes (q_requests q) + replies_bytes (q_replies q) + streams_bytes (q_stream_out q).

(** The invariant of a session's queues: the rotation lists exactly the
    sources with something to write, once each, and the byte counters are
    the bytes queued. *)
Record queues_ok (q : QueueState) : Prop := {
  qo_nodup : NoDup (q_turns q);
  qo_turns s : s ∈ q_turns q ↔ queue_of q s ≠ [];
  qo_nonempty id : q_stream_out q !! id ≠ Some [];
  qo_frames : Forall (λ r : QueuedRequest, 0 < len (fst r)) (q_requests q);
  qo_bytes : q_queued_bytes q = data_bytes q;
  qo_request_bytes : q_request_bytes q = requests_bytes (q_requests q);
}.

Lemma requests_bytes_app a b : requests_bytes (a ++ b) = requests_bytes a + requests_bytes b.
Proof. unfold requests_bytes. induction a; cbn; lia. Qed.

Lemma replies_bytes_app a b : replies_bytes (a ++ b) = replies_bytes a + replies_bytes b.
Proof. unfold replies_bytes. induction a; cbn; lia. Qed.

Lemma frames_bytes_app a b : frames_bytes (a ++ b) = frames_bytes a + frames_bytes b.
Proof. unfold frames_bytes. induction a; cbn; lia. Qed.

Lemma requests_bytes_cons r l : requests_bytes (r :: l) = len (fst r) + requests_bytes l.
Proof. done. Qed.

Lemma replies_bytes_cons r l : replies_bytes (r :: l) = len (fst r) + replies_bytes l.
Proof. done. Qed.

Lemma frames_bytes_cons f l : frames_bytes (f :: l) = len (sf_bytes f) + frames_bytes l.
Proof. done. Qed.

Create Rewrite HintDb qbytes.
#[export] Hint Rewrite requests_bytes_app replies_bytes_app frames_bytes_app
  requests_bytes_cons replies_bytes_cons frames_bytes_cons : qbytes.

Lemma requests_bytes_nonneg l : 0 ≤ requests_bytes l.
Proof. induction l as [|r l]; cbn; [done|]. pose proof (len_nonneg (fst r)). unfold requests_bytes in *. lia. Qed.

Lemma replies_bytes_nonneg l : 0 ≤ replies_bytes l.
Proof. induction l as [|r l]; cbn; [done|]. pose proof (len_nonneg (fst r)). unfold replies_bytes in *. lia. Qed.

Lemma frames_bytes_nonneg l : 0 ≤ frames_bytes l.
Proof. induction l as [|r l]; cbn; [done|]. pose proof (len_nonneg (sf_bytes r)). unfold frames_bytes in *. lia. Qed.

#[global] Arguments requests_bytes : simpl never.
#[global] Arguments replies_bytes : simpl never.
#[global] Arguments frames_bytes : simpl never.
#[global] Arguments streams_bytes : simpl never.

Lemma streams_bytes_delete m id :
  streams_bytes m = frames_bytes (default [] (m !! id)) + streams_bytes (delete id m).
Proof.
  destruct (m !! id) as [l|] eqn:E; cbn; [|by rewrite delete_id].
  unfold streams_bytes. rewrite (map_fold_delete_L _ 0 id l m); [done|lia|done].
Qed.

Lemma streams_bytes_insert m id l :
  streams_bytes (<[id := l]> m) = frames_bytes l + streams_bytes (delete id m).
Proof.
  rewrite (streams_bytes_delete (<[id := l]> m) id), lookup_insert_eq, delete_insert_eq. done.
Qed.

Lemma streams_bytes_nonneg m : 0 ≤ streams_bytes m.
Proof.
  unfold streams_bytes. apply (map_fold_weak_ind (λ n _, 0 ≤ n)); [done|].
  intros. pose proof (frames_bytes_nonneg x). lia.
Qed.

Lemma data_bytes_nonneg q : 0 ≤ data_bytes q.
Proof.
  unfold data_bytes. pose proof (requests_bytes_nonneg (q_requests q)).
  pose proof (replies_bytes_nonneg (q_replies q)).
  pose proof (streams_bytes_nonneg (q_stream_out q)). lia.
Qed.

(** Operations that leave the queues, the rotation and the counters alone. *)
Definition same_queues (q q' : QueueState) : Prop :=
  q_turns q' = q_turns q ∧ q_requests q' = q_requests q ∧ q_replies q' = q_replies q ∧
  q_stream_out q' = q_stream_out q ∧ q_queued_bytes q' = q_queued_bytes q ∧
  q_request_bytes q' = q_request_bytes q.

Lemma same_queues_of q q' s : same_queues q q' → queue_of q' s = queue_of q s.
Proof. intros (? & E1 & E2 & E3 & _). destruct s; cbn; congruence. Qed.

Lemma same_queues_ok q q' : same_queues q q' → queues_ok q → queues_ok q'.
Proof.
  intros S [Hn Ht He Hf Hb Hr]. pose proof S as (E0 & E1 & E2 & E3 & E4 & E5).
  constructor; try congruence.
  - intros s. rewrite (same_queues_of _ _ _ S), E0. apply Ht.
  - unfold data_bytes in *. congruence.
Qed.

(** ** Adding a frame to a source *)

Lemma enlist_spec source q :
  NoDup (q_turns q) →
  NoDup (q_turns (enlist source q)) ∧
  (∀ s, s ∈ q_turns (enlist source q) ↔ s ∈ q_turns q ∨ s = source) ∧
  (∃ l, q_turns (enlist source q) = q_turns q ++ l) ∧
  ∀ s, queue_of (enlist source q) s = queue_of q s.
Proof.
  intros Hn. unfold enlist. case_bool_decide as Hin.
  - split_and!; [done| |by exists []; rewrite app_nil_r|done].
    intros s. split; [by left|]. by intros [?| ->].
  - split_and!; cbn.
    + apply NoDup_app. split_and!; [done| |apply NoDup_singleton].
      intros s Hs ->%list_elem_of_singleton. done.
    + intros s. by rewrite elem_of_app, list_elem_of_singleton.
    + by eexists.
    + by intros [].
Qed.

Lemma unlist_spec source q :
  NoDup (q_turns q) →
  NoDup (q_turns (unlist source q)) ∧
  (∀ s, s ∈ q_turns (unlist source q) ↔ s ∈ q_turns q ∧ s ≠ source) ∧
  ∀ s, queue_of (unlist source q) s = queue_of q s.
Proof.
  intros Hn. unfold unlist. split_and!; cbn; [by apply NoDup_filter| |by intros []].
  intros s. rewrite list_elem_of_filter. tauto.
Qed.

Definition turns_ok (q : QueueState) : Prop :=
  NoDup (q_turns q) ∧ ∀ s, s ∈ q_turns q ↔ queue_of q s ≠ [].

Lemma queues_turns_ok q : queues_ok q → turns_ok q.
Proof. intros []. by split. Qed.

Lemma turns_ok_push q q1 src l x :
  turns_ok q → q_turns q1 = q_turns q → queue_of q1 src = l ++ [x] →
  (∀ s, s ≠ src → queue_of q1 s = queue_of q s) → turns_ok (enlist src q1).
Proof.
  intros [Hn Ht] E Hs Ho. rewrite <- E in Hn.
  destruct (enlist_spec src q1 Hn) as (Hn' & Hin & _ & Hq). split; [done|].
  intros s. rewrite Hin, Hq, E, Ht. destruct (decide (s = src)) as [->|Hne].
  - rewrite Hs. split; [|by right]. intros _. by destruct l.
  - rewrite Ho by done. split; [by intros [?|?]|by left].
Qed.

Lemma turns_ok_clear q q1 src :
  turns_ok q → q_turns q1 = q_turns q → queue_of q1 src = [] →
  (∀ s, s ≠ src → queue_of q1 s = queue_of q s) → turns_ok (unlist src q1).
Proof.
  intros [Hn Ht] E Hs Ho. rewrite <- E in Hn.
  destruct (unlist_spec src q1 Hn) as (Hn' & Hin & Hq). split; [done|].
  intros s. rewrite Hin, Hq, E, Ht. destruct (decide (s = src)) as [->|Hne].
  - rewrite Hs. by split; [intros [_ ?]|].
  - rewrite Ho by done. tauto.
Qed.

(** Only a queue's content changed, and it stayed non-empty. *)
Lemma turns_ok_change q q1 src :
  turns_ok q → q_turns q1 = q_turns q → (queue_of q1 src ≠ [] ↔ queue_of q src ≠ []) →
  (∀ s, s ≠ src → queue_of q1 s = queue_of q s) → turns_ok q1.
Proof.
  intros [Hn Ht] E Hs Ho. split; [by rewrite E|]. intros s. rewrite E, Ht.
  destruct (decide (s = src)) as [->|Hne]; [done|]. by rewrite Ho.
Qed.

Abbreviation conn_ok c := (queues_ok (cn_queue c)).

(** Room for [n] more bytes in the 64-bit counters. *)
Definition fits (c : Connection) (n : Z) : Prop := q_queued_bytes (cn_queue c) + n ≤ u64_max.

Lemma request_bytes_le q : queues_ok q → q_request_bytes q ≤ q_queued_bytes q.
Proof.
  intros [_ _ _ _ -> ->]. unfold data_bytes.
  pose proof (replies_bytes_nonneg (q_replies q)).
  pose proof (streams_bytes_nonneg (q_stream_out q)). lia.
Qed.

(** The parts of the invariant that do not mention the rotation. *)
Definition counts_ok (q : QueueState) : Prop :=
  (∀ id, q_stream_out q !! id ≠ Some []) ∧
  Forall (λ r : QueuedRequest, 0 < len (fst r)) (q_requests q) ∧
  q_queued_bytes q = data_bytes q ∧ q_request_bytes q = requests_bytes (q_requests q).

Lemma queues_ok_split q : queues_ok q ↔ turns_ok q ∧ counts_ok q.
Proof.
  split.
  - intros []. split; [by split|]. unfold counts_ok. by split_and!.
  - intros [[? ?] (? & ? & ? & ?)]. by constructor.
Qed.

Lemma counts_ok_turns q q1 :
  q_requests q1 = q_requests q → q_replies q1 = q_replies q → q_stream_out q1 = q_stream_out q →
  q_queued_bytes q1 = q_queued_bytes q → q_request_bytes q1 = q_request_bytes q →
  counts_ok q → counts_ok q1.
Proof.
  intros E1 E2 E3 E4 E5 (? & ? & ? & ?). unfold counts_ok, data_bytes in *.
  rewrite E1, E2, E3, E4, E5. done.
Qed.

Lemma counts_ok_enlist src q : counts_ok q → counts_ok (enlist src q).
Proof. unfold enlist. case_bool_decide; [done|]. by apply counts_ok_turns. Qed.

Lemma counts_ok_unlist src q : counts_ok q → counts_ok (unlist src q).
Proof. by apply counts_ok_turns. Qed.

(** A field assignment outside the queues. *)
Ltac same_q :=
  eapply same_queues_ok; [|eassumption]; unfold same_queues; by split_and!.

Lemma is_empty_true {A} (l : list A) : is_empty l = true ↔ l = [].
Proof. by destruct l. Qed.

Definition queue_request (frame : list byte) (call_id : option Z) (q : QueueState) : QueueState :=
  set_requests (q_requests q ++ [(frame, call_id)])
    (set_request_bytes (saturating_add64 (q_request_bytes q) (len frame))
       (set_queued_bytes (saturating_add64 (q_queued_bytes q) (len frame)) q)).

Lemma queue_request_counts frame call_id q :
  counts_ok q → 0 < len frame → q_queued_bytes q + len frame ≤ u64_max →
  q_request_bytes q ≤ q_queued_bytes q →
  counts_ok (queue_request frame call_id q) ∧
  q_queued_bytes (queue_request frame call_id q) = q_queued_bytes q + len frame ∧
  q_request_bytes (queue_request frame call_id q) = q_request_bytes q + len frame.
Proof.
  intros (He & Hf & Hb & Hr) Hl Hm Hle. unfold counts_ok, data_bytes, queue_request, saturating_add64 in *. cbn.
  autorewrite with qbytes. cbn. change (requests_bytes []) with 0.
  split_and!; try done; try lia.
  apply Forall_app. split; [done|]. by constructor.
Qed.

Lemma push_request_queued frame call_id now c c' :
  conn_ok c → 0 < len frame → fits c (len frame) →
  push_request frame call_id now c = (c', Ok tt) →
  conn_ok c' ∧ q_requests (cn_queue c') = q_requests (cn_queue c) ++ [(frame, call_id)] ∧
  len (q_requests (cn_queue c')) ≤ ql_requests (cn_limits c) ∧
  q_request_bytes (cn_queue c') ≤ ql_bytes (cn_limits c).
Proof.
  intros Hc Hl Hf. pose proof (request_bytes_le _ Hc) as Hrb. unfold push_request, fits in *.
  destruct (is_closed c); [done|].
  destruct (_ || _) eqn:E; [done|]. intros [= <-].
  apply orb_false_iff in E as [[E1%Z.leb_gt E2%Z.ltb_ge]%orb_false_iff _].
  set (q := cn_queue c) in *.
  destruct (queue_request_counts frame call_id q) as (Hcnt & _ & Hrq); try done.
  { by apply queues_ok_split. }
  assert (queues_ok (enlist Requests (queue_request frame call_id q))) as Hok.
  { apply queues_ok_split. split; [|by apply counts_ok_enlist].
    eapply turns_ok_push; [by apply queues_turns_ok|done| |by intros []].
    cbn. by rewrite fmap_app. }
  assert (∀ q1, q_requests (enlist Requests q1) = q_requests q1 ∧
                q_request_bytes (enlist Requests q1) = q_request_bytes q1) as Hen.
  { intros q1. unfold enlist. by case_bool_decide. }
  split_and!.
  - same_q.
  - exact (proj1 (Hen (queue_request frame call_id q))).
  - change (len (q_requests (enlist Requests (queue_request frame call_id q)))
              ≤ ql_requests (cn_limits c)).
    rewrite (proj1 (Hen _)). cbn. rewrite len_app. unfold len in *. cbn. lia.
  - change (q_request_bytes (enlist Requests (queue_request frame call_id q))
              ≤ ql_bytes (cn_limits c)).
    rewrite (proj2 (Hen _)). cbn. exact E2.
Qed.

Lemma push_reply_ok frame release c :
  conn_ok c → fits c (len frame) → conn_ok (fst (push_reply frame release c)).
Proof.
  intros Hc Hf. unfold push_reply. destruct (is_closed c); [done|]. cbn [fst].
  unfold fits in *. set (q := cn_queue c) in *.
  set (q1 := set_replies (q_replies q ++ [(frame, release)])
               (set_queued_bytes (saturating_add64 (q_queued_bytes q) (len frame)) q)).
  change (queues_ok (enlist Replies q1)).
  pose proof (proj1 (queues_ok_split _) Hc) as [Ht (He & Hfr & Hb & Hr)].
  apply queues_ok_split. split.
  - eapply turns_ok_push; [exact Ht|done| |by intros []]. cbn. by rewrite fmap_app.
  - apply counts_ok_enlist. unfold counts_ok, data_bytes, q1, saturating_add64 in *. cbn.
    autorewrite with qbytes. change (replies_bytes []) with 0. cbn. split_and!; try done. lia.
Qed.

Lemma queue_of_stream_ne q m id s :
  s ≠ Stream id →
  (∀ j, j ≠ id → m !! j = q_stream_out q !! j) →
  queue_of (set_stream_out m q) s = queue_of q s.
Proof.
  intros Hs Hm. destruct s as [| |j]; [done..|]. cbn. rewrite Hm; [done|]. congruence.
Qed.

Lemma push_stream_frame_ok call_id frame c :
  conn_ok c → fits c (len (sf_bytes frame)) → conn_ok (fst (push_stream_frame call_id frame c)).
Proof.
  intros Hc Hf. unfold push_stream_frame. destruct (is_closed c); [done|]. cbn [fst].
  unfold fits in *. set (q := cn_queue c) in *.
  set (m := <[call_id := default [] (q_stream_out q !! call_id) ++ [frame]]> (q_stream_out q)).
  set (q0 := set_queued_bytes (saturating_add64 (q_queued_bytes q) (len (sf_bytes frame))) q).
  change (queues_ok (enlist (Stream call_id) (set_stream_out m q0))).
  pose proof (proj1 (queues_ok_split _) Hc) as [Ht (He & Hfr & Hb & Hr)].
  apply queues_ok_split. split.
  - eapply (turns_ok_push q); [exact Ht|done| |].
    + cbn. unfold m. rewrite lookup_insert_eq. cbn. by rewrite fmap_app.
    + intros s Hs. rewrite (queue_of_stream_ne q0 m call_id s Hs); [by destruct s|].
      intros j Hj. unfold m. by rewrite lookup_insert_ne.
  - apply counts_ok_enlist. unfold counts_ok, data_bytes, q0, saturating_add64 in *. cbn.
    unfold m. rewrite streams_bytes_insert. autorewrite with qbytes.
    rewrite (streams_bytes_delete (q_stream_out q) call_id) in Hb.
    change (frames_bytes []) with 0. split_and!; try done; [|lia].
    intros j. destruct (decide (j = call_id)) as [->|].
    + rewrite lookup_insert_eq. by destruct (default [] (q_stream_out q !! call_id)).
    + rewrite lookup_insert_ne by done. apply He.
Qed.

Lemma adopt_requests_fold moved c :
  counts_ok (cn_queue c) → q_request_bytes (cn_queue c) ≤ q_queued_bytes (cn_queue c) →
  Forall (λ r : QueuedRequest, 0 < len (fst r)) moved → fits c (requests_bytes moved) →
  let c' :=
    fold_left (λ c '(frame, call_id),
      on_queue (λ q, set_requests (q_requests q ++ [(frame, call_id)]) q)
        (add_bytes (len frame) true c)) moved c in
  counts_ok (cn_queue c') ∧ q_requests (cn_queue c') = q_requests (cn_queue c) ++ moved ∧
  q_turns (cn_queue c') = q_turns (cn_queue c) ∧
  ∀ s, s ≠ Requests → queue_of (cn_queue c') s = queue_of (cn_queue c) s.
Proof.
  revert c. induction moved as [|[frame call_id] moved IH]; intros c Hc Hle Hm Hf; cbn.
  { by rewrite app_nil_r. }
  inversion_clear Hm as [|? ? Hl Hm']. cbn in Hl.
  unfold fits in Hf. rewrite requests_bytes_cons in Hf. cbn in Hf.
  pose proof (requests_bytes_nonneg moved).
  set (c1 := on_queue _ _).
  change (cn_queue c1) with (queue_request frame call_id (cn_queue c)) in *.
  destruct (queue_request_counts frame call_id (cn_queue c)) as (Hc1 & Hb1 & Hr1); try done; [lia|].
  destruct (IH c1) as (? & E & Ht & Ho); try done; unfold fits;
    change (cn_queue c1) with (queue_request frame call_id (cn_queue c)); [lia..|].
  change (cn_queue c1) with (queue_request frame call_id (cn_queue c)) in E, Ht, Ho.
  split_and!; [done| |done|].
  - rewrite E. cbn. by rewrite <- app_assoc.
  - intros s Hs. rewrite Ho by done. by destruct s.
Qed.

Lemma adopt_requests_ok moved now c :
  conn_ok c → Forall (λ r : QueuedRequest, 0 < len (fst r)) moved →
  fits c (requests_bytes moved) → conn_ok (fst (adopt_requests moved now c)).
Proof.
  intros Hc Hm Hf. unfold adopt_requests. destruct (is_closed c); [done|]. cbn [fst].
  pose proof (proj1 (queues_ok_split _) Hc) as [Ht Hcnt].
  destruct (adopt_requests_fold moved c Hcnt (request_bytes_le _ Hc) Hm Hf) as (Hc1 & Er & Et & Ho).
  set (c1 := fold_left _ _ _) in *.
  assert (queues_ok (cn_queue (if is_empty (q_requests (cn_queue c1)) then c1
                               else on_queue (enlist Requests) c1))) as Hok.
  { destruct (is_empty (q_requests (cn_queue c1))) eqn:Ee.
    - apply queues_ok_split. split; [|done]. apply is_empty_true in Ee.
      eapply (turns_ok_change (cn_queue c) _ Requests); [done..| |done].
      cbn. rewrite Er in Ee |- *. apply app_eq_nil in Ee as [E1 E2]. by rewrite E1, E2.
    - apply queues_ok_split. split; [|by apply counts_ok_enlist].
      assert (queue_of (cn_queue c1) Requests ≠ []) as Hne.
      { cbn. destruct (q_requests (cn_queue c1)); done. }
      destruct (exists_last Hne) as (l & x & E).
      by eapply (turns_ok_push (cn_queue c)). }
  same_q.
Qed.

Lemma take_requests_ok c : conn_ok c → conn_ok (fst (take_requests c)).
Proof.
  intros Hc. pose proof (proj1 (queues_ok_split _) Hc) as [Ht (He & Hf & Hb & Hr)].
  unfold take_requests. cbn [fst]. set (q := cn_queue c) in *.
  apply queues_ok_split. split.
  - by eapply (turns_ok_clear q); [|done|done|intros []].
  - apply counts_ok_unlist. unfold counts_ok, data_bytes in *; cbn.
    change (requests_bytes []) with 0.
    pose proof (replies_bytes_nonneg (q_replies q)).
    pose proof (streams_bytes_nonneg (q_stream_out q)).
    split_and!; try done; fold q; lia.
Qed.

Lemma Forall_filtered {A} (Q P : A → Prop) `{!∀ x, Decision (P x)} (l : list A) :
  Forall Q l → Forall Q (filter P l).
Proof.
  rewrite !Forall_forall. intros Hl x [_ Hx]%list_elem_of_filter. by apply Hl.
Qed.

Lemma filter_all {A} (P : A → Prop) `{!∀ x, Decision (P x)} (l : list A) :
  (∀ x, x ∈ l → P x) → filter P l = l.
Proof.
  induction l as [|x l IH]; intros Hl; [done|].
  rewrite filter_cons_True by (apply Hl; by left). f_equal. apply IH.
  intros y Hy. apply Hl. by right.
Qed.

Lemma requests_bytes_filter (P : QueuedRequest → Prop) `{!∀ r, Decision (P r)} l :
  requests_bytes l = requests_bytes (filter P l) + requests_bytes (filter (λ r, ¬ P r) l).
Proof.
  induction l as [|r l IH]; [done|]. rewrite !filter_cons, requests_bytes_cons, IH.
  repeat case_decide; rewrite ?requests_bytes_cons; try done; lia.
Qed.

Lemma retract_ok call_id c : conn_ok c → conn_ok (fst (retract call_id c)).
Proof.
  intros Hc. pose proof (proj1 (queues_ok_split _) Hc) as [Ht (He & Hf & Hb & Hr)].
  unfold retract. set (q := cn_queue c) in *.
  set (P := λ r : QueuedRequest, snd r = Some call_id).
  set (gone := filter P (q_requests q)).
  set (kept := filter (λ r, ¬ P r) (q_requests q)).
  assert (requests_bytes (q_requests q) = requests_bytes gone + requests_bytes kept) as Hsum
    by apply requests_bytes_filter.
  assert (Forall (λ r : QueuedRequest, 0 < len (fst r)) gone) as Hg
    by (by apply Forall_filtered).
  assert (Forall (λ r : QueuedRequest, 0 < len (fst r)) kept) as Hk by (by apply Forall_filtered).
  change (filter (λ r : QueuedRequest, snd r ≠ Some call_id) (q_requests q)) with kept.
  destruct (Z.eqb_spec (requests_bytes gone) 0) as [Eg|Hne]; cbn [fst].
  - assert (gone = []) as Eg'.
    { destruct Hg as [|r l Hr0 _]; [done|]. rewrite requests_bytes_cons in Eg.
      pose proof (requests_bytes_nonneg l). lia. }
    assert (kept = q_requests q) as Ek.
    { unfold kept. apply filter_all. intros r Hin HP.
      assert (r ∈ gone) as Hgr by (by apply list_elem_of_filter).
      rewrite Eg' in Hgr. by apply not_elem_of_nil in Hgr. }
    eapply same_queues_ok; [|exact Hc]. unfold same_queues. cbn. by split_and!.
  - assert (counts_ok (cn_queue (sub_bytes (requests_bytes gone) true
              (on_queue (λ q0, set_requests kept q0) c)))) as Hcnt.
    { unfold counts_ok, data_bytes in *; cbn. fold q.
      pose proof (replies_bytes_nonneg (q_replies q)).
      pose proof (streams_bytes_nonneg (q_stream_out q)).
      pose proof (requests_bytes_nonneg kept). pose proof (requests_bytes_nonneg gone).
      split_and!; try done; lia. }
    set (c1 := sub_bytes _ _ _) in *.
    change (q_requests (cn_queue c1)) with kept.
    destruct (is_empty kept) eqn:Ee; cbn [fst].
    + apply is_empty_true in Ee. apply queues_ok_split. split; [|by apply counts_ok_unlist].
      eapply (turns_ok_clear q); [done|done| |by intros []]. cbn. by rewrite Ee.
    + apply queues_ok_split. split; [|done].
      eapply (turns_ok_change q _ Requests); [done|done| |by intros []].
      cbn. split; intros _.
      * intros Ef%fmap_nil_inv. apply Hne. unfold gone. by rewrite Ef.
      * by destruct kept.
Qed.

Lemma remove_stream_ok call_id discard c : conn_ok c → conn_ok (fst (remove_stream call_id discard c)).
Proof.
  intros Hc. unfold remove_stream.
  set (c0 := on_queue (λ q, set_server_streams (delete call_id (q_server_streams q)) q) c).
  assert (conn_ok c0) as Hc0 by same_q. clearbody c0. clear Hc c.
  destruct discard; cbn [negb fst]; [|done].
  pose proof (proj1 (queues_ok_split _) Hc0) as [Ht (He & Hf & Hb & Hr)].
  set (q := cn_queue c0) in *. set (m := delete call_id (q_stream_out q)).
  apply queues_ok_split. split.
  - eapply (turns_ok_clear q); [done|done| |].
    + cbn. fold q. by rewrite lookup_delete_eq.
    + intros s Hs. destruct s as [| |j]; [done..|]. cbn. fold q.
      rewrite lookup_delete_ne; [done|]. congruence.
  - apply counts_ok_unlist. unfold counts_ok, data_bytes in *; cbn. fold q.
    rewrite (streams_bytes_delete (q_stream_out q) call_id) in Hb.
    pose proof (requests_bytes_nonneg (q_requests q)).
    pose proof (replies_bytes_nonneg (q_replies q)).
    pose proof (streams_bytes_nonneg (delete call_id (q_stream_out q))).
    pose proof (frames_bytes_nonneg (default [] (q_stream_out q !! call_id))).
    split_and!; try done; [|lia].
    intros j. destruct (decide (j = call_id)) as [->|]; [by rewrite lookup_delete_eq|].
    rewrite lookup_delete_ne by done. apply He.
Qed.

Lemma drain_all_ok q : queues_ok (drain_all q).
Proof.
  constructor; cbn; try done; [by apply NoDup_nil|].
  intros s. rewrite elem_of_nil. split; [done|]. intros Hs. apply Hs.
  by destruct s; cbn; rewrite ?lookup_empty.
Qed.

Lemma close_ok reason c : conn_ok (fst (Connection_close reason c)).
Proof. exact (drain_all_ok _). Qed.

Lemma push_control_ok frame c : conn_ok c → conn_ok (fst (push_control frame c)).
Proof.
  intros Hc. unfold push_control. destruct (is_closed c); [done|].
  destruct (_ <=? _); [apply close_ok|]. cbn [fst]. same_q.
Qed.

(** ** The writer *)

Section WriterLemmas.
Context `{Xxh3}.

(** Taking the next frame of a source that has one. *)
Lemma next_from_spec s c b k r rest :
  queue_of (cn_queue c) s = (b, k, r) :: rest →
  (∀ id, q_stream_out (cn_queue c) !! id ≠ Some []) →
  ∃ q', next_from s c = (with_queue c q', Some (b, k, r, negb (is_empty rest))) ∧
    queue_of q' s = rest ∧ (∀ s', s' ≠ s → queue_of q' s' = queue_of (cn_queue c) s') ∧
    q_turns q' = q_turns (cn_queue c) ∧
    q_queued_bytes q' = q_queued_bytes (cn_queue c) ∧
    q_request_bytes q' = q_request_bytes (cn_queue c) ∧
    data_bytes (cn_queue c) = len b + data_bytes q' ∧
    requests_bytes (q_requests (cn_queue c)) =
      (match k with KindRequest _ => len b | _ => 0 end) + requests_bytes (q_requests q') ∧
    (∀ id, q_stream_out q' !! id ≠ Some []) ∧
    (Forall (λ r : QueuedRequest, 0 < len (fst r)) (q_requests (cn_queue c)) →
     Forall (λ r : QueuedRequest, 0 < len (fst r)) (q_requests q')).
Proof.
  intros E He. set (q := cn_queue c) in *. destruct s as [| |id]; cbn [queue_of] in E.
  - destruct (q_requests q) as [|[b0 id0] l] eqn:Eq; [done|]. cbn in E. simplify_eq.
    exists (set_requests l q). split.
    { cbn. fold q. rewrite Eq. by destruct l. }
    unfold data_bytes; cbn. rewrite Eq, requests_bytes_cons. cbn. split_and!; try done; try lia.
    + by intros [].
    + by inversion 1.
  - destruct (q_replies q) as [|[b0 r0] l] eqn:Eq; [done|]. cbn in E. simplify_eq.
    exists (set_replies l q). split.
    { cbn. fold q. rewrite Eq. by destruct l. }
    unfold data_bytes; cbn. rewrite Eq, replies_bytes_cons. cbn. split_and!; try done; try lia.
    by intros [].
  - destruct (q_stream_out q !! id) as [[|f l]|] eqn:Eq; [done| |done]. cbn in E. simplify_eq.
    exists (set_stream_out (if negb (is_empty l) then <[id := l]> (q_stream_out q)
                            else delete id (q_stream_out q)) q). split.
    { cbn. fold q. rewrite Eq. by destruct l. }
    assert (∀ m : gmap Z (list StreamFrame), (if negb (is_empty l) then <[id:=l]> m else delete id m) !! id =
                 if negb (is_empty l) then Some l else None) as Hid.
    { intros m. destruct l; cbn; [apply lookup_delete_eq|apply lookup_insert_eq]. }
    assert (∀ (m : gmap Z (list StreamFrame)) j, j ≠ id →
              (if negb (is_empty l) then <[id:=l]> m else delete id m) !! j = m !! j) as Hj.
    { intros m j ?. destruct l; cbn; [by apply lookup_delete_ne|by apply lookup_insert_ne]. }
    unfold data_bytes; cbn. split_and!; try done; try lia.
    + rewrite Hid. by destruct l.
    + intros s' Hs'. destruct s' as [| |j]; [done..|]. cbn. rewrite Hj; [done|congruence].
    + rewrite (streams_bytes_delete (q_stream_out q) id), Eq. cbn. rewrite frames_bytes_cons.
      destruct l; cbn; [change (frames_bytes []) with 0; lia|rewrite streams_bytes_insert; lia].
    + intros j. destruct (decide (j = id)) as [->|Hne]; [rewrite Hid; by destruct l|].
      rewrite Hj by done. apply He.
Qed.

(** What serving source [s] does to the queues. *)
Record served (q q' : QueueState) (s : Source) (o : Outgoing) : Prop := {
  sv_frame : queue_of q s = (out_bytes o, out_kind o, out_release o) :: queue_of q' s;
  sv_others s' : s' ≠ s → queue_of q' s' = queue_of q s';
  sv_ok : queues_ok q';
  sv_may : s = Requests → q_established q = true;
  sv_turns : ∃ l r, q_turns q = l ++ s :: r ∧ (∀ x, x ∈ l → x = Requests ∧ q_established q = false) ∧
               ∃ t, q_turns q' = r ++ l ++ t;
}.

Lemma serve_head n c s turns :
  conn_ok c → q_turns (cn_queue c) = s :: turns →
  (s = Requests → q_established (cn_queue c) = true) →
  ∃ c' o, poll_turns (S n) c = (c', Some o) ∧ served (cn_queue c) (cn_queue c') s o ∧
    ∃ t, q_turns (cn_queue c') = turns ++ t.
Proof.
  intros Hc Et Hest. pose proof (proj1 (queues_ok_split _) Hc) as [[Hnd Htin] (He & Hf & Hb & Hr)].
  assert (queue_of (cn_queue c) s ≠ []) as Hne by (apply Htin; rewrite Et; by left).
  destruct (queue_of (cn_queue c) s) as [|[[b k] r] rest] eqn:Eq; [done|].
  set (c0 := on_queue (set_turns turns) c).
  assert (queue_of (cn_queue c0) s = (b, k, r) :: rest) as Eq0
    by (etransitivity; [|exact Eq]; by destruct s).
  destruct (next_from_spec s c0 b k r rest Eq0 He)
    as (q' & En & Hs & Ho & Ht & Hqb & Hrb & Hdb & Hrq & He' & Hf').
  assert (∀ x, queue_of (cn_queue c0) x = queue_of (cn_queue c) x) as Hc0 by (by intros []).
  set (c2 := if negb (is_empty rest)
             then on_queue (λ q, set_turns (q_turns q ++ [s]) q) (with_queue c0 q')
             else with_queue c0 q').
  set (c3 := sub_bytes (len b) (match k with KindRequest _ => true | _ => false end) c2).
  assert (poll_turns (S n) c = (c3, Some (mkOutgoing b k r))) as Ep.
  { cbn [poll_turns]. rewrite Et. fold c0.
    assert (bool_decide (s = Requests) && negb (q_established (cn_queue c0)) = false) as ->.
    { case_bool_decide as Es; [|done]. cbn. by rewrite (Hest Es). }
    rewrite En. done. }
  assert (∀ x, queue_of (cn_queue c3) x = queue_of q' x) as Hq3.
  { intros x. unfold c3, c2. by destruct (is_empty rest), k, x. }
  assert (q_turns (cn_queue c3) = turns ++ (if negb (is_empty rest) then [s] else [])) as Et3.
  { unfold c3, c2. destruct (is_empty rest), k; cbn; rewrite Ht; cbn; by rewrite ?app_nil_r. }
  assert (queues_ok (cn_queue c3)) as Hok.
  { apply queues_ok_split. split.
    - rewrite Et in Hnd. apply NoDup_cons in Hnd as [Hsn Hnd].
      split; rewrite Et3.
      + destruct (is_empty rest); cbn; [by rewrite app_nil_r|].
        apply NoDup_app. split_and!; [done| |apply NoDup_singleton].
        by intros x Hx ->%list_elem_of_singleton.
      + intros x. rewrite Hq3, elem_of_app. destruct (decide (x = s)) as [->|Hx].
        * rewrite Hs. destruct rest; cbn; [|by rewrite list_elem_of_singleton; split; auto].
          rewrite elem_of_nil. naive_solver.
        * rewrite Ho, Hc0, <- Htin, Et, elem_of_cons by done.
          destruct (is_empty rest); cbn; rewrite ?elem_of_nil, ?list_elem_of_singleton;
            naive_solver.
    - change (data_bytes (cn_queue c0)) with (data_bytes (cn_queue c)) in Hdb.
      change (q_requests (cn_queue c0)) with (q_requests (cn_queue c)) in Hrq.
      change (q_queued_bytes (cn_queue c0)) with (q_queued_bytes (cn_queue c)) in Hqb.
      change (q_request_bytes (cn_queue c0)) with (q_request_bytes (cn_queue c)) in Hrb.
      pose proof (len_nonneg b). pose proof (data_bytes_nonneg q').
      pose proof (requests_bytes_nonneg (q_requests q')).
      assert (q_stream_out (cn_queue c3) = q_stream_out q' ∧
              q_requests (cn_queue c3) = q_requests q' ∧
              data_bytes (cn_queue c3) = data_bytes q') as (E1 & E2 & E3).
      { unfold c3, c2. by destruct (is_empty rest), k. }
      unfold counts_ok. rewrite E1, E2, E3. split_and!; [done|by apply Hf'| |];
        unfold c3, c2; destruct (is_empty rest), k; cbn; lia. }
  exists c3, (mkOutgoing b k r). split; [done|]. split; [|by eexists].
  constructor; cbn; [|by intros s' Hs'; rewrite Hq3, Ho, Hc0|done|done|].
  - by rewrite Hq3, Hs.
  - exists [], turns. split_and!; [done|by intros x ?%elem_of_nil|by eexists].
Qed.

(** Requests wait for the handshake: they go to the back. *)
Lemma poll_turns_rotate n c turns :
  q_turns (cn_queue c) = Requests :: turns → q_established (cn_queue c) = false →
  poll_turns (S n) c =
    poll_turns n (on_queue (λ q, set_turns (q_turns q ++ [Requests]) q)
                    (on_queue (set_turns turns) c)).
Proof.
  intros Et Hest. cbn [poll_turns]. rewrite Et.
  change (q_established (cn_queue (on_queue (set_turns turns) c)))
    with (q_established (cn_queue c)).
  by rewrite Hest.
Qed.

(** The rotation, at most once around: it serves its first source that may
    write, or finds none. *)
Lemma poll_turns_spec c :
  conn_ok c →
  match poll_turns (length (q_turns (cn_queue c))) c with
  | (c', Some o) => ∃ s, served (cn_queue c) (cn_queue c') s o
  | (c', None) =>
      same_queues (cn_queue c) (cn_queue c') ∧
      ∀ s, queue_of (cn_queue c) s ≠ [] → s = Requests ∧ q_established (cn_queue c) = false
  end.
Proof.
  intros Hc. pose proof (proj1 (queues_ok_split _) Hc) as [[Hnd Htin] _].
  destruct (q_turns (cn_queue c)) as [|s turns] eqn:Et; cbn [length].
  { cbn. split; [unfold same_queues; by split_and!|]. intros s Hs%Htin. by apply elem_of_nil in Hs. }
  destruct (decide (s = Requests ∧ q_established (cn_queue c) = false)) as [[-> Hest]|Hs].
  - destruct turns as [|s2 turns].
    + cbn. rewrite Et. cbn. rewrite Hest. cbn. split.
      { unfold same_queues. by split_and!. }
      intros s Hs%Htin. by apply list_elem_of_singleton in Hs as ->.
    + set (c1 := on_queue (λ q, set_turns (q_turns q ++ [Requests]) q)
                   (on_queue (set_turns (s2 :: turns)) c)).
      cbn [length].
      assert (poll_turns (S (S (length turns))) c = poll_turns (S (length turns)) c1) as ->.
      { by apply poll_turns_rotate. }
      assert (∀ x, queue_of (cn_queue c1) x = queue_of (cn_queue c) x) as Hq1 by (by intros []).
      assert (q_turns (cn_queue c1) = s2 :: turns ++ [Requests]) as Et1 by done.
      assert (s2 ≠ Requests) as Hs2.
      { intros ->. apply NoDup_cons in Hnd as [Hnd _]. apply Hnd. by left. }
      assert (conn_ok c1) as Hc1.
      { apply queues_ok_split. split; [|by apply queues_ok_split in Hc as [_ ?]].
        assert (q_turns (cn_queue c1) ≡ₚ q_turns (cn_queue c)) as Hperm.
        { rewrite Et1, Et. change (s2 :: turns ++ [Requests]) with ((s2 :: turns) ++ [Requests]).
          by rewrite <- Permutation_cons_append. }
        split; [by rewrite Hperm, Et|]. intros x. by rewrite Hperm, Hq1, Et. }
      destruct (serve_head (length turns) c1 s2 (turns ++ [Requests]) Hc1 Et1)
        as (c' & o & -> & Hsv & t & Ht'); [done|].
      exists s2. destruct Hsv as [Hfr Hot Hok _ _].
      constructor; [by rewrite <- Hq1|intros s' Hs'; by rewrite Hot, Hq1|done|done|].
      exists [Requests], turns. split_and!; [done| |exists t; by rewrite Ht', <- app_assoc].
      by intros x ->%list_elem_of_singleton.
  - destruct (serve_head (length turns) c s turns Hc Et) as (c' & o & -> & Hsv & _); [|by exists s].
    intros ->. destruct (q_established (cn_queue c)); [done|]. by destruct Hs.
Qed.
(** ** Signals *)

Lemma first_key_spec {A} (m : gmap Z A) :
  match first_key m with Some k => is_Some (m !! k) | None => m = ∅ end.
Proof.
  unfold first_key.
  assert (∀ l : list Z,
    match foldr (λ k acc, Some (match acc with Some a => Z.min k a | None => k end)) None l with
    | Some k => k ∈ l
    | None => l = []
    end) as Hl.
  { induction l as [|k l IH]; [done|]. cbn.
    destruct (foldr _ _ l) as [a|]; [|by left].
    destruct (Z.min_spec k a) as [[_ ->] | [_ ->]]; [by left|by right]. }
  specialize (Hl (map_to_list m).*1).
  destruct (foldr _ _ _) as [k|].
  - apply list_elem_of_fmap in Hl as ([k' a] & -> & Hin%elem_of_map_to_list). by exists a.
  - apply fmap_nil_inv in Hl. by apply map_to_list_empty_iff.
Qed.

Lemma signal_framed m :
  (∃ id, m = StreamCancel id) ∨ (∃ id n, m = StreamAck id n) →
  ∃ bytes, encode_frame (encode_message m) (2 ^ 32 - 1) = Ok bytes.
Proof.
  intros Hm. assert (0 < len (encode_message m) < 20) as Hl.
  { destruct Hm as [[id ->] | (id & n & ->)]; unfold encode_message, encode_stream;
      cbn [Writer_u8 Writer_u64 Writer_new]; unfold Writer_u8, Writer_u64, Writer_new;
      autorewrite with len; cbn; lia. }
  unfold encode_frame. destruct (Z.ltb_spec (2 ^ 32 - 1) (len (encode_message m))); [lia|].
  destruct (Reader_is_empty (encode_message m)) eqn:E.
  { exfalso. revert Hl E. destruct (encode_message m); [unfold len; cbn; lia|done]. }
  destruct (Z.leb_spec (2 ^ 32) (len (encode_message m))); [lia|]. by eexists.
Qed.

Lemma poll_next_signal c call_id :
  q_closed (cn_queue c) = None → q_control (cn_queue c) = [] →
  first_key (q_signals (cn_queue c)) = Some call_id →
  ∃ c' o, Connection_poll_next c = (c', Ready (Some o)) ∧ out_kind o = Control ∧
    same_queues (cn_queue c) (cn_queue c') ∧
    q_signals (cn_queue c') = delete call_id (q_signals (cn_queue c)).
Proof.
  intros Hcl Hct Hk. unfold Connection_poll_next, is_closed.
  rewrite Hcl, Hct, Hk, bool_decide_eq_false_2 by (by intros []).
  set (s := default Signal_default _).
  set (m := if sig_cancel s then StreamCancel call_id else StreamAck call_id (default 0 (sig_ack s))).
  destruct (signal_framed m) as [bytes ->].
  { unfold m. destruct (sig_cancel s); [left|right]; eauto. }
  do 2 eexists. split; [done|]. split; [done|]. split; [|done].
  unfold same_queues. by split_and!.
Qed.

(** What a call of the writer does, whatever is queued. *)
Lemma poll_next_cases c :
  conn_ok c → q_closed (cn_queue c) = None →
  match Connection_poll_next c with
  | (c', Ready (Some o)) =>
      conn_ok c' ∧
      ((q_control (cn_queue c) ≠ [] ∨ q_signals (cn_queue c) ≠ ∅) ∧ out_kind o = Control ∧
         same_queues (cn_queue c) (cn_queue c') ∨
       q_control (cn_queue c) = [] ∧ q_signals (cn_queue c) = ∅ ∧
         ∃ s, served (cn_queue c) (cn_queue c') s o)
  | (_, Ready None) => False
  | (c', Pending) =>
      conn_ok c' ∧ q_control (cn_queue c) = [] ∧ q_signals (cn_queue c) = ∅ ∧
      ∀ s, queue_of (cn_queue c) s ≠ [] → s = Requests ∧ q_established (cn_queue c) = false
  end.
Proof.
  intros Hc Hcl. destruct (q_control (cn_queue c)) as [|bytes rest] eqn:Ect.
  - pose proof (first_key_spec (q_signals (cn_queue c))) as Hk.
    destruct (first_key (q_signals (cn_queue c))) as [k|] eqn:Ek.
    + destruct (poll_next_signal c k Hcl Ect Ek) as (c' & o & -> & Ho & Hsq & _).
      split; [by eapply same_queues_ok|]. left. split_and!; [|done|done].
      right. intros E. rewrite E, lookup_empty in Hk. by destruct Hk.
    + unfold Connection_poll_next, is_closed.
      rewrite Hcl, Ect, Ek, bool_decide_eq_false_2 by (by intros []).
      pose proof (poll_turns_spec c Hc) as P.
      destruct (poll_turns _ c) as [c' [o|]].
      * destruct P as [s Hs]. split; [by eapply sv_ok|]. right. eauto.
      * destruct P as [Hsq Hq]. split; [by eapply same_queues_ok|]. auto.
  - unfold Connection_poll_next, is_closed.
    rewrite Hcl, Ect, bool_decide_eq_false_2 by (by intros []). split; [same_q|].
    left. split_and!; [by left|done|]. unfold same_queues. by split_and!.
Qed.

Lemma poll_next_ok c : conn_ok c → conn_ok (fst (Connection_poll_next c)).
Proof.
  intros Hc. destruct (q_closed (cn_queue c)) as [r|] eqn:Ecl.
  - unfold Connection_poll_next, is_closed.
    by rewrite Ecl, bool_decide_eq_true_2.
  - pose proof (poll_next_cases c Hc Ecl) as P.
    destruct (Connection_poll_next c) as [c' [[o|]|]]; [apply P|done|apply P].
Qed.

(** ** Sessions: every call any task makes on a connection *)

Inductive conn_step : Connection → Connection → Prop :=
  | step_push_request frame call_id now c :
      0 < len frame → fits c (len frame) →
      conn_step c (fst (push_request frame call_id now c))
  | step_adopt_requests moved now c :
      Forall (λ r : QueuedRequest, 0 < len (fst r)) moved → fits c (requests_bytes moved) →
      conn_step c (fst (adopt_requests moved now c))
  | step_take_requests c : conn_step c (fst (take_requests c))
  | step_push_control frame c : conn_step c (fst (push_control frame c))
  | step_push_reply frame release c :
      fits c (len frame) → conn_step c (fst (push_reply frame release c))
  | step_push_stream_frame call_id frame c :
      fits c (len (sf_bytes frame)) → conn_step c (fst (push_stream_frame call_id frame c))
  | step_register_stream call_id core c : conn_step c (fst (register_stream call_id core c))
  | step_remove_stream call_id discard c : conn_step c (fst (remove_stream call_id discard c))
  | step_take_streams c : conn_step c (fst (take_streams c))
  | step_signal_ack call_id consumed c : conn_step c (signal_ack call_id consumed c)
  | step_signal_cancel call_id c : conn_step c (signal_cancel call_id c)
  | step_establish hello now c : conn_step c (establish hello now c)
  | step_select_for address c : conn_step c (select_for address c)
  | step_note_received now c : conn_step c (note_received now c)
  | step_note_used now c : conn_step c (note_used now c)
  | step_begin_outstanding c : conn_step c (fst (begin_outstanding c))
  | step_end_outstanding c : conn_step c (end_outstanding c)
  | step_close_if_idle now idle selected c :
      conn_step c (fst (close_if_idle now idle selected c))
  | step_retract call_id c : conn_step c (fst (retract call_id c))
  | step_close reason c : conn_step c (fst (Connection_close reason c))
  | step_wake c : conn_step c (wake_writer c)
  | step_poll_next c : conn_step c (fst (Connection_poll_next c)).

Lemma conn_step_ok c c' : conn_ok c → conn_step c c' → conn_ok c'.
Proof.
  intros Hc St. destruct St.
  - destruct (push_request frame call_id now c) as [c' [[]|e|]] eqn:E.
    + by apply push_request_queued in E as [? _].
    + unfold push_request in E. destruct (is_closed c); [by simplify_eq|].
      destruct (_ || _); by simplify_eq.
    + unfold push_request in E. destruct (is_closed c); [by simplify_eq|].
      destruct (_ || _); by simplify_eq.
  - by apply adopt_requests_ok.
  - by apply take_requests_ok.
  - by apply push_control_ok.
  - by apply push_reply_ok.
  - by apply push_stream_frame_ok.
  - unfold register_stream. destruct (_ || _); [done|]. cbn [fst]. same_q.
  - by apply remove_stream_ok.
  - cbn [take_streams fst]. same_q.
  - unfold signal_ack. destruct (is_closed c); [done|]. same_q.
  - unfold signal_cancel. destruct (is_closed c); [done|]. same_q.
  - unfold establish. same_q.
  - unfold select_for. same_q.
  - unfold note_received. same_q.
  - unfold note_used. same_q.
  - done.
  - done.
  - unfold close_if_idle. destruct (_ && _); [|done]. cbn [fst]. same_q.
  - by apply retract_ok.
  - apply close_ok.
  - done.
  - by apply poll_next_ok.
Qed.

Lemma Connection_new_ok id direction hello limits now k :
  conn_ok (Connection_new id direction hello limits now k).
Proof.
  constructor; cbn; try done; [by apply NoDup_nil|].
  intros s. rewrite elem_of_nil. split; [done|]. intros Hs. by destruct s.
Qed.

Lemma session_ok id direction hello limits now k c :
  rtc conn_step (Connection_new id direction hello limits now k) c → conn_ok c.
Proof.
  intros Hr. remember (Connection_new _ _ _ _ _ _) as c0 eqn:E.
  assert (conn_ok c0) as H0 by (subst; apply Connection_new_ok).
  clear E. induction Hr as [|? ? ? St _ IH]; [done|]. apply IH. by eapply conn_step_ok.
Qed.

Lemma nodup_pivot {A} (l l2 r b : list A) s :
  NoDup (l ++ s :: r) → l ++ s :: r = l2 ++ s :: b → l = l2.
Proof.
  revert l2. induction l as [|x l IH]; intros l2 Hnd E; destruct l2 as [|y l2]; cbn in *;
    simplify_eq; [done|apply NoDup_cons in Hnd; set_solver|apply NoDup_cons in Hnd; set_solver|].
  f_equal. apply NoDup_cons in Hnd as [_ Hnd]. by apply IH.
Qed.

Lemma is_drained_spec c :
  is_drained c = true ↔
  q_control (cn_queue c) = [] ∧ q_signals (cn_queue c) = ∅ ∧ q_replies (cn_queue c) = [] ∧
  q_stream_out (cn_queue c) = ∅ ∧
  (q_requests (cn_queue c) = [] ∨ q_established (cn_queue c) = false).
Proof.
  unfold is_drained. rewrite !andb_true_iff, !is_empty_true, !bool_decide_eq_true, orb_true_iff,
    is_empty_true, negb_true_iff, !dom_empty_iff_L. tauto.
Qed.

Lemma queues_empty_iff q :
  queues_ok q →
  (∀ s, queue_of q s ≠ [] → s = Requests ∧ q_established q = false) ↔
  q_replies q = [] ∧ q_stream_out q = ∅ ∧ (q_requests q = [] ∨ q_established q = false).
Proof.
  intros Hok. split.
  - intros Hall. split_and!.
    + destruct (q_replies q) eqn:E; [done|]. destruct (Hall Replies); [cbn; by rewrite E|done].
    + apply map_eq. intros id. rewrite lookup_empty.
      destruct (q_stream_out q !! id) as [[|f l]|] eqn:E; [by apply (qo_nonempty _ Hok) in E| |done].
      destruct (Hall (Stream id)); [cbn; by rewrite E|done].
    + destruct (q_requests q) eqn:E; [by left|]. right.
      apply (Hall Requests). cbn. by rewrite E.
  - intros (E1 & E2 & E3) [| |id]; cbn; rewrite ?E1, ?E2, ?lookup_empty; try done.
    intros Hne. split; [done|]. destruct E3 as [E3|?]; [by rewrite E3 in Hne|done].
Qed.

(** ** Theorems *)

(** C28: accounting of a session: after any sequence of calls on a connection,
    from its creation on, the byte counters that budgets are judged by are
    exactly the bytes of the frames still queued, the writer's rotation lists
    each source once, and lists it if and only if it has a frame to write. *)
Theorem session_accounting_exact id direction hello limits now k c :
  rtc conn_step (Connection_new id direction hello limits now k) c →
  q_queued_bytes (cn_queue c) = data_bytes (cn_queue c) ∧
  q_request_bytes (cn_queue c) = requests_bytes (q_requests (cn_queue c)) ∧
  NoDup (q_turns (cn_queue c)) ∧
  ∀ s, s ∈ q_turns (cn_queue c) ↔ queue_of (cn_queue c) s ≠ [].
Proof. intros Hr. by destruct (session_ok _ _ _ _ _ _ _ Hr). Qed.

(** The writer never stalls and never skips: on an open session reached by
    any calls, it reports nothing to write exactly when the flush check finds
    the session drained; otherwise it returns a frame, a control frame or
    signal while there is one, else the oldest frame of one source, leaving
    the queues of all others as they were. *)
Theorem writer_serves_oldest id direction hello limits now k c :
  rtc conn_step (Connection_new id direction hello limits now k) c →
  q_closed (cn_queue c) = None →
  match Connection_poll_next c with
  | (_, Pending) => is_drained c = true
  | (_, Ready None) => False
  | (c', Ready (Some o)) =>
      is_drained c = false ∧
      if is_empty (q_control (cn_queue c)) && bool_decide (q_signals (cn_queue c) = ∅)
      then ∃ s, queue_of (cn_queue c) s =
                  (out_bytes o, out_kind o, out_release o) :: queue_of (cn_queue c') s ∧
                ∀ s', s' ≠ s → queue_of (cn_queue c') s' = queue_of (cn_queue c) s'
      else out_kind o = Control ∧ ∀ s, queue_of (cn_queue c') s = queue_of (cn_queue c) s
  end.
Proof.
  intros Hr Hcl. pose proof (session_ok _ _ _ _ _ _ _ Hr) as Hok.
  pose proof (poll_next_cases c Hok Hcl) as P.
  pose proof (queues_empty_iff _ Hok) as He.
  destruct (Connection_poll_next c) as [c' [[o|]|]]; [|done|].
  - destruct P as [_ [(Hcs & Ho & Hsq) | (Ect & Esig & s & Hs)]].
    + split.
      { apply not_true_iff_false. intros (E1 & E2 & _)%is_drained_spec. naive_solver. }
      destruct (is_empty (q_control (cn_queue c))) eqn:Ect; cbn;
        [case_bool_decide; [apply is_empty_true in Ect; naive_solver|]|];
        (split; [done|]); intros s; by apply same_queues_of.
    + split.
      { apply not_true_iff_false. intros (_ & _ & E3 & E4 & E5)%is_drained_spec.
        pose proof (proj2 He (conj E3 (conj E4 E5)) s) as Hn.
        destruct Hn as [-> Hest]; [by rewrite (sv_frame _ _ _ _ Hs)|].
        rewrite (sv_may _ _ _ _ Hs eq_refl) in Hest. done. }
      rewrite Ect, Esig. cbn. rewrite bool_decide_eq_true_2 by done.
      exists s. split; [apply (sv_frame _ _ _ _ Hs)|apply (sv_others _ _ _ _ Hs)].
  - destruct P as (_ & Ect & Esig & Hall). apply is_drained_spec.
    apply He in Hall as (? & ? & ?). done.
Qed.

(** The rotation is fair: once a stream (or replies, or requests on an
    established session) has a frame queued, every data frame the writer
    sends either is that source's oldest frame or brings it strictly closer
    to the front of the rotation, and frames queued meanwhile by other sources
    never move it back: a source waits for at most one frame of each source
    ahead of it, whatever their backlogs. *)
Theorem rotation_is_fair c s l r :
  conn_ok c → q_closed (cn_queue c) = None →
  q_control (cn_queue c) = [] → q_signals (cn_queue c) = ∅ →
  q_turns (cn_queue c) = l ++ s :: r →
  (s = Requests → q_established (cn_queue c) = true) →
  ∃ c' o, Connection_poll_next c = (c', Ready (Some o)) ∧
    (queue_of (cn_queue c) s =
       (out_bytes o, out_kind o, out_release o) :: queue_of (cn_queue c') s ∨
     (∃ l' r', q_turns (cn_queue c') = l' ++ s :: r' ∧ (length l' < length l)%nat) ∧
     ∀ call_id frame, ∃ r', q_turns (cn_queue (fst (push_stream_frame call_id frame c))) =
                              l ++ s :: r').
Proof.
  intros Hc Hcl Hct Hsig Ht Hest.
  pose proof (poll_next_cases c Hc Hcl) as P.
  assert (s ∈ q_turns (cn_queue c)) as Hin by (rewrite Ht; set_solver).
  pose proof (proj1 (qo_turns _ Hc s) Hin) as Hne.
  destruct (Connection_poll_next c) as [c' [[o|]|]]; [|done|].
  2:{ destruct P as (_ & _ & _ & Hall). destruct (Hall s Hne) as [-> E]. by rewrite Hest in E. }
  exists c', o. split; [done|].
  destruct P as [_ [([?|?] & _ & _) | (_ & _ & s' & Hs)]]; [done|done|].
  destruct (decide (s' = s)) as [->|Hss]; [left; apply (sv_frame _ _ _ _ Hs)|]. right.
  destruct (sv_turns _ _ _ _ Hs) as (l0 & r0 & Ht0 & Hl0 & t & Ht').
  split.
  - assert (s ∉ l0) as Hsl.
    { intros Hx. destruct (Hl0 s Hx) as [-> E]. by rewrite Hest in E. }
    assert (s ∈ r0) as Hr0 by (rewrite Ht0 in Hin; set_solver).
    apply list_elem_of_split in Hr0 as (a & b & ->).
    exists a, (b ++ l0 ++ t). split; [by rewrite Ht', <- app_assoc|].
    pose proof (qo_nodup _ Hc) as Hnd. rewrite Ht in Hnd, Ht0.
    assert (l = l0 ++ s' :: a) as ->.
    { eapply nodup_pivot; [exact Hnd|]. rewrite Ht0. by rewrite <- app_assoc. }
    rewrite length_app. cbn. lia.
  - intros call_id frame. unfold push_stream_frame, is_closed.
    rewrite Hcl, bool_decide_eq_false_2 by (by intros []). cbn [fst].
    assert (∀ q1, q_turns q1 = q_turns (cn_queue c) →
              ∃ r', q_turns (enlist (Stream call_id) q1) = l ++ s :: r') as Hen.
    { intros q1 E1. pose proof (qo_nodup _ Hc) as Hnd. rewrite <- E1 in Hnd.
      destruct (enlist_spec (Stream call_id) q1 Hnd) as (_ & _ & [t' ->] & _).
      exists (r ++ t'). by rewrite E1, Ht, <- app_assoc. }
    cbn [on_queue with_queue cn_queue]. by apply Hen.
Qed.

End WriterLemmas.
