(* ===== verification/Producer.v ===== *)
(** The producing side of a reply stream
    (moonpool-rpc/src/stream/producer.rs): credit, the line of waiting
    senders, ordered emission and the single terminal transition.

    A call runs under the stream's locks, so each method is a function of the
    state [Producing]: the core, the connection its route upgraded to (if it
    is still alive), the effects left for after the locks, the calls made on
    a local sink, and the counters.  Wakers are identifiers ([will_wake] is
    equality); a [Poll::Pending] is [None]. *)
From stdpp Require Import base list numbers gmap strings.
From S2P Require Import Prelude Cursor Frame Status Wire Credit Connection.

Definition Waker := Z.

Inductive Terminal := T_Ended | T_Cancelled | T_Disconnected | T_Shutdown | T_Protocol.

#[global] Instance Terminal_eq_dec : EqDecision Terminal.
Proof. solve_decision. Defined.

Inductive SendError :=
  | SE_Cancelled
  | SE_Disconnected
  | SE_Shutdown
  | SE_TooLarge (size limit : Z)
  | SE_Encode (detail : string)
  | SE_Ended
  | SE_Protocol (detail : string).

Definition Terminal_error (t : Terminal) : SendError :=
  match t with
  | T_Ended => SE_Ended
  | T_Cancelled => SE_Cancelled
  | T_Disconnected => SE_Disconnected
  | T_Shutdown => SE_Shutdown
  | T_Protocol => SE_Protocol "the consumer broke the stream protocol"
  end.

(** Where a stream's frames go: over a connection, or to a caller in the same
    runtime. *)
Inductive CoreRoute := RouteRemote | RouteLocal.

Inductive AckEffect :=
  | Eff_Advanced
  | Eff_Ignored
  | Eff_Violation (v : AckViolation).

Record Waiter := mkWaiter { w_ticket : Z; w_waker : Waker }.

Record CoreState := mkCoreState {
  cs_credit : Credit;
  cs_terminal : option Terminal;
  cs_waiters : list Waiter;
  cs_ready_waiters : list Waker;
  cs_next_ticket : Z;
  cs_hold : option Release;
}.

Record Effects := mkEffects {
  ef_wakers : list Waker;
  ef_writer : bool;
  ef_hold : option Release;
}.

Definition Effects_default : Effects := mkEffects [] false None.

(** Calls on the local sink. *)
Inductive SinkCall :=
  | LocalItem (call_id sequence codec : Z) (body : list byte)
  | LocalEnd (call_id items : Z) (error : option WireError).

Record StreamCounters := mkStreamCounters {
  sc_items_sent : Z;
  sc_items_refused : Z;
  sc_credit_waits : Z;
  sc_ended : Z;
}.

Record StreamCore := mkStreamCore {
  co_call_id : Z;
  co_route : CoreRoute;
  co_state : CoreState;
  co_frame_cap : Z;
}.

Record Producing := mkProducing {
  p_core : StreamCore;
  p_conn : option Connection;
  p_sink_alive : bool;
  p_effects : Effects;
  p_calls : list SinkCall;
  p_counters : StreamCounters;
}.

Definition StreamCore_new (call_id : Z) (route : CoreRoute) (window frame_cap : Z) (hold : Release) :
    StreamCore :=
  mkStreamCore call_id route (mkCoreState (Credit_new window) None [] [] 0 (Some hold)) frame_cap.

(** ** Operations on the locked state *)

Definition with_credit (c : Credit) (s : CoreState) : CoreState :=
  mkCoreState c (cs_terminal s) (cs_waiters s) (cs_ready_waiters s) (cs_next_ticket s) (cs_hold s).

(** [leave]: the ticket is taken, its place in line given up. *)
Definition leave (ticket : option Z) (s : CoreState) : CoreState :=
  match ticket with
  | Some t =>
      mkCoreState (cs_credit s) (cs_terminal s)
        (filter (λ w, w_ticket w ≠ t) (cs_waiters s)) (cs_ready_waiters s)
        (cs_next_ticket s) (cs_hold s)
  | None => s
  end.

Definition head_waker (s : CoreState) : list Waker :=
  match cs_waiters s with [] => [] | w :: _ => [w_waker w] end.

Definition turn_passed (s : CoreState) : CoreState * list Waker :=
  let wakers := head_waker s in
  if is_empty (cs_waiters s) && has_room (cs_credit s)
  then (mkCoreState (cs_credit s) (cs_terminal s) (cs_waiters s) [] (cs_next_ticket s) (cs_hold s),
        wakers ++ cs_ready_waiters s)
  else (s, wakers).

(** [all]: every waiting waker, the lines emptied. *)
Definition all_wakers (s : CoreState) : CoreState * list Waker :=
  (mkCoreState (cs_credit s) (cs_terminal s) [] [] (cs_next_ticket s) (cs_hold s),
   (w_waker <$> cs_waiters s) ++ cs_ready_waiters s).

Definition set_terminal (t : Terminal) (s : CoreState) : CoreState :=
  mkCoreState (cs_credit s) (Some t) (cs_waiters s) (cs_ready_waiters s) (cs_next_ticket s)
    (cs_hold s).

Definition take_hold (s : CoreState) : CoreState * option Release :=
  (mkCoreState (cs_credit s) (cs_terminal s) (cs_waiters s) (cs_ready_waiters s)
     (cs_next_ticket s) None, cs_hold s).

(** ** Plumbing *)

Definition pstate (p : Producing) : CoreState := co_state (p_core p).

Definition on_state (f : CoreState → CoreState) (p : Producing) : Producing :=
  let c := p_core p in
  mkProducing (mkStreamCore (co_call_id c) (co_route c) (f (co_state c)) (co_frame_cap c))
    (p_conn p) (p_sink_alive p) (p_effects p) (p_calls p) (p_counters p).

Definition with_effects (e : Effects) (p : Producing) : Producing :=
  mkProducing (p_core p) (p_conn p) (p_sink_alive p) e (p_calls p) (p_counters p).

(** [effects.wakers.extend(..)] *)
Definition wake_later (wakers : list Waker) (p : Producing) : Producing :=
  let e := p_effects p in
  with_effects (mkEffects (ef_wakers e ++ wakers) (ef_writer e) (ef_hold e)) p.

Definition set_writer (p : Producing) : Producing :=
  let e := p_effects p in with_effects (mkEffects (ef_wakers e) true (ef_hold e)) p.

Definition set_hold (h : option Release) (p : Producing) : Producing :=
  let e := p_effects p in with_effects (mkEffects (ef_wakers e) (ef_writer e) h) p.

Definition with_conn (c : option Connection) (p : Producing) : Producing :=
  mkProducing (p_core p) c (p_sink_alive p) (p_effects p) (p_calls p) (p_counters p).

Definition call_sink (k : SinkCall) (p : Producing) : Producing :=
  mkProducing (p_core p) (p_conn p) (p_sink_alive p) (p_effects p) (p_calls p ++ [k])
    (p_counters p).

Definition bump (sent refused waits ended : Z) (p : Producing) : Producing :=
  let k := p_counters p in
  mkProducing (p_core p) (p_conn p) (p_sink_alive p) (p_effects p) (p_calls p)
    (mkStreamCounters (sc_items_sent k + sent) (sc_items_refused k + refused)
       (sc_credit_waits k + waits) (sc_ended k + ended)).

(** [leave], then [effects.wakers.extend(turn_passed())] *)
Definition leave_and_pass (ticket : option Z) (p : Producing) : Producing :=
  let '(s, wakers) := turn_passed (leave ticket (pstate p)) in
  wake_later wakers (on_state (λ _, s) p).

(** [stop]: mark ended, wake everyone, hand back what the stream held. *)
Definition stop (t : Terminal) (p : Producing) : Producing * option Release :=
  match cs_terminal (pstate p) with
  | Some _ => (p, None)
  | None =>
      let '(s, wakers) := all_wakers (set_terminal t (pstate p)) in
      let '(s, hold) := take_hold s in
      (wake_later wakers (on_state (λ _, s) p), hold)
  end.

Definition core_cap (p : Producing) : Z :=
  Z.min (cr_window (cs_credit (pstate p))) (co_frame_cap (p_core p)).

Section Producer.
Context `{Xxh3}.

(** [terminate]: the route is gone. *)
Definition core_terminate (t : Terminal) (p : Producing) : Producing :=
  let '(p, hold) := stop t p in set_hold hold p.

(** [end_with]: emit the end, with the emission lock held. *)
Definition core_end_with (t : Terminal) (error : option WireError) (p : Producing) :
    Producing * bool :=
  match cs_terminal (pstate p) with
  | Some _ => (p, false)
  | None =>
      let p := on_state (set_terminal t) p in
      let items := Credit_items (cs_credit (pstate p)) in
      let '(s, hold) := take_hold (pstate p) in
      let '(s, wakers) := all_wakers s in
      let p := wake_later wakers (on_state (λ _, s) p) in
      let call_id := co_call_id (p_core p) in
      let p :=
        match co_route (p_core p) with
        | RouteRemote =>
            let payload := encode_message (StreamEnd call_id items error) in
            match p_conn p, encode_frame payload (2 ^ 32 - 1) with
            | Some conn, Ok bytes =>
                let '(conn, _) := remove_stream call_id false conn in
                match push_stream_frame call_id (mkStreamFrame bytes hold) conn with
                | (conn, Ok _) => set_writer (with_conn (Some conn) p)
                | (conn, Err frame) => set_hold (sf_release frame) (with_conn (Some conn) p)
                | (conn, Panic) => with_conn (Some conn) p
                end
            | Some conn, _ =>
                let '(conn, _) := remove_stream call_id false conn in
                let '(conn, _) := Connection_close Local conn in
                set_hold hold (with_conn (Some conn) p)
            | None, _ => set_hold hold p
            end
        | RouteLocal =>
            let p := if p_sink_alive p then call_sink (LocalEnd call_id items error) p else p in
            set_hold hold p
        end in
      (bump 0 0 0 1 p, true)
  end.

(** [emit_item]: queue an item whose credit was just reserved. *)
Definition emit_item (sequence codec : Z) (body : list byte) (p : Producing) :
    Producing * res SendError unit :=
  let call_id := co_call_id (p_core p) in
  match co_route (p_core p) with
  | RouteRemote =>
      match encode_frame (encode_message (StreamItem call_id sequence codec body)) (2 ^ 32 - 1) with
      | Ok bytes =>
          let '(p, queued) :=
            match p_conn p with
            | Some conn =>
                match push_stream_frame call_id (mkStreamFrame bytes None) conn with
                | (conn, Ok _) => (with_conn (Some conn) p, true)
                | (conn, _) => (with_conn (Some conn) p, false)
                end
            | None => (p, false)
            end in
          if queued : bool then (bump 1 0 0 0 (set_writer p), Ok tt)
          else
            let '(p, hold) := stop T_Disconnected p in
            (set_hold hold p, Err SE_Disconnected)
      | _ =>
          (fst (core_end_with T_Protocol (Some StreamProtocol) p),
           Err (SE_Protocol "stream item could not be framed"))
      end
  | RouteLocal =>
      (* A dead sink ends the stream; its wakeups and release, which the code
         runs at once, join the caller's. *)
      if p_sink_alive p
      then (bump 1 0 0 0 (call_sink (LocalItem call_id sequence codec body) p), Ok tt)
      else (core_terminate T_Shutdown p, Err SE_Shutdown)
  end.

(** The line: this send may reserve only at its head, or when it is empty. *)
Definition my_turn (s : CoreState) (ticket : option Z) : bool :=
  match cs_waiters s, ticket with
  | [], _ => true
  | w :: _, Some mine => w_ticket w =? mine
  | _ :: _, None => false
  end.

(** [iter_mut().find(..)], its waker replaced. *)
Fixpoint refresh (cx : Waker) (mine : Z) (ws : list Waiter) : list Waiter :=
  match ws with
  | [] => []
  | w :: ws =>
      if w_ticket w =? mine then mkWaiter (w_ticket w) cx :: ws else w :: refresh cx mine ws
  end.

(** Register to be woken: refresh the waker, or take a place in line. *)
Definition join_line (cx : Waker) (ticket : option Z) (p : Producing) : Producing * option Z :=
  match ticket with
  | Some mine =>
      (on_state (λ s,
         mkCoreState (cs_credit s) (cs_terminal s)
           (refresh cx mine (cs_waiters s))
           (cs_ready_waiters s) (cs_next_ticket s) (cs_hold s)) p, Some mine)
  | None =>
      let mine := cs_next_ticket (pstate p) in
      (bump 0 0 1 0 (on_state (λ s,
         mkCoreState (cs_credit s) (cs_terminal s) (cs_waiters s ++ [mkWaiter mine cx])
           (cs_ready_waiters s) (mine + 1) (cs_hold s)) p), Some mine)
  end.

(** [send_locked]: the new state, the send's ticket and item afterwards, and
    the outcome ([None]: pending). *)
Definition send_locked (cx : Waker) (ticket : option Z) (item : option (Z * list byte)) (size : Z)
    (p : Producing) :
    Producing * option Z * option (Z * list byte) * option (res SendError unit) :=
  match cs_terminal (pstate p) with
  | Some t => (on_state (leave ticket) p, None, item, Some (Err (Terminal_error t)))
  | None =>
    let cap := core_cap p in
    if cap <? size then
      (bump 0 1 0 0 (leave_and_pass ticket p), None, item, Some (Err (SE_TooLarge size cap)))
    else
    let wait p := let '(p, ticket) := join_line cx ticket p in (p, ticket, item, None) in
    if my_turn (pstate p) ticket then
      match reserve (cs_credit (pstate p)) size with
      | (credit, Ok sequence) =>
          let p := leave_and_pass ticket (on_state (with_credit credit) p) in
          match item with
          | None => (p, None, None, Some (Err SE_Ended))
          | Some (codec, body) =>
              let '(p, outcome) := emit_item sequence codec body p in
              (p, None, None, Some outcome)
          end
      | (_, Err (Refusal_TooLarge size limit)) =>
          (leave_and_pass ticket p, None, item, Some (Err (SE_TooLarge size limit)))
      | (_, Err Refusal_Overflow) =>
          let p := on_state (leave ticket) p in
          (fst (core_end_with T_Protocol (Some StreamProtocol) p), None, item,
           Some (Err (SE_Protocol "stream byte counter overflow")))
      | (_, Err Wait) => wait p
      | (_, Panic) => wait p
      end
    else wait p
  end.

(** [Effects::apply]: release, wake the writer; the tasks woken are returned. *)
Definition apply_effects (p : Producing) : Producing * list Waker * option Release :=
  let e := p_effects p in
  let p :=
    if ef_writer e then with_conn (wake_writer <$> p_conn p) p else p in
  (with_effects Effects_default p, ef_wakers e, ef_hold e).

Definition poll_send (cx : Waker) (ticket : option Z) (item : option (Z * list byte)) (size : Z)
    (p : Producing) :=
  let '(p, ticket, item, outcome) := send_locked cx ticket item size (with_effects Effects_default p) in
  let '(p, woken, released) := apply_effects p in
  (p, ticket, item, outcome, woken, released).

Definition poll_ready (cx : Waker) (p : Producing) : Producing * option (res SendError unit) :=
  let s := pstate p in
  match cs_terminal s with
  | Some t => (p, Some (Err (Terminal_error t)))
  | None =>
      if has_room (cs_credit s) && is_empty (cs_waiters s) then (p, Some (Ok tt)) else
      if bool_decide (cx ∈ cs_ready_waiters s) then (p, None)
      else (on_state (λ s,
              mkCoreState (cs_credit s) (cs_terminal s) (cs_waiters s)
                (cs_ready_waiters s ++ [cx]) (cs_next_ticket s) (cs_hold s)) p, None)
  end.

Definition abandon_send (ticket : option Z) (p : Producing) : Producing * list Waker :=
  match ticket with
  | None => (p, [])
  | Some _ =>
      let '(s, wakers) := turn_passed (leave ticket (pstate p)) in (on_state (λ _, s) p, wakers)
  end.

Definition core_end (error : option WireError) (p : Producing) :=
  let '(p, ended) := core_end_with T_Ended error (with_effects Effects_default p) in
  let '(p, woken, released) := apply_effects p in (p, ended, woken, released).

Definition end_for_violation (p : Producing) :=
  let '(p, ended) :=
    core_end_with T_Protocol (Some StreamProtocol) (with_effects Effects_default p) in
  let '(p, woken, released) := apply_effects p in (p, ended, woken, released).

Definition core_on_ack (consumed : Z) (p : Producing) : Producing * list Waker * AckEffect :=
  let s := pstate p in
  match cs_terminal s with
  | Some _ => (p, [], Eff_Ignored)
  | None =>
      match ack (cs_credit s) consumed with
      | (credit, Ok Advanced) =>
          let wakers := head_waker s ++ cs_ready_waiters s in
          (on_state (λ s, mkCoreState credit (cs_terminal s) (cs_waiters s) [] (cs_next_ticket s)
                            (cs_hold s)) p, wakers, Eff_Advanced)
      | (_, Ok Duplicate) => (p, [], Eff_Ignored)
      | (_, Err violation) => (p, [], Eff_Violation violation)
      | (_, Panic) => (p, [], Eff_Ignored)
      end
  end.

Definition core_cancel (p : Producing) : Producing * bool * list Waker * option Release :=
  match cs_terminal (pstate p) with
  | Some _ => (p, false, [], None)
  | None =>
      let '(p, hold) := stop T_Cancelled (with_effects Effects_default p) in
      let p := set_hold hold p in
      let p := with_conn ((λ c, fst (remove_stream (co_call_id (p_core p)) true c)) <$> p_conn p) p in
      let '(p, woken, released) := apply_effects p in
      (p, true, woken, released)
  end.

Definition core_limit_window (limit : Z) (p : Producing) : Producing :=
  on_state (λ s, with_credit (limit_window (cs_credit s) limit) s) p.

End Producer.
