(* ===== verification/Line.v ===== *)
(** The line of waiting senders (moonpool-rpc/src/stream/producer.rs): served
    first come first served, and no wakeup is ever lost.

    [Line] is a producer's core together with what its callers hold: the
    pending sends, by ticket, with the sizes they wait for, and which of them
    have been woken since they were last polled.  [line_step] is one call any
    task makes. *)
From stdpp Require Import base list numbers gmap sorting.
From S2P Require Import Prelude Cursor Frame Status Wire Credit Connection Producer.

Record Line := mkLine {
  ln_p : Producing;
  ln_sends : gmap Z Z;      (* ticket ↦ accounted size of the pending send *)
  ln_awake : gset Z;        (* tickets woken and not polled since *)
}.

(** The tickets a list of woken wakers reaches. *)
Definition reached (woken : list Waker) (s : CoreState) : gset Z :=
  list_to_set (w_ticket <$> filter (λ w, w_waker w ∈ woken) (cs_waiters s)).

Section Line.
Context `{Xxh3}.

Inductive line_step : Line → Line → Prop :=
  (* A send is polled: a new one, or one that waits. *)
  | line_send cx ticket item size l p' ticket' item' outcome woken released :
      0 < size →
      (∀ t, ticket = Some t → ln_sends l !! t = Some size) →
      poll_send cx ticket (Some item) size (ln_p l) = (p', ticket', item', outcome, woken, released) →
      line_step l
        (mkLine p'
           (match ticket' with
            | Some t => <[t := size]> (ln_sends l)
            | None => match ticket with Some t => delete t (ln_sends l) | None => ln_sends l end
            end)
           (match ticket' with Some t => ln_awake l ∖ {[t]} | None => ln_awake l end
              ∪ reached woken (pstate p')))
  (* A waiting send is dropped. *)
  | line_abandon t l p' woken :
      is_Some (ln_sends l !! t) → abandon_send (Some t) (ln_p l) = (p', woken) →
      line_step l
        (mkLine p' (delete t (ln_sends l)) (ln_awake l ∪ reached woken (pstate p')))
  | line_ready cx l p' outcome :
      poll_ready cx (ln_p l) = (p', outcome) → line_step l (mkLine p' (ln_sends l) (ln_awake l))
  (* Any acknowledgement, from an honest consumer or not. *)
  | line_ack consumed l p' woken effect :
      core_on_ack consumed (ln_p l) = (p', woken, effect) →
      line_step l (mkLine p' (ln_sends l) (ln_awake l ∪ reached woken (pstate p')))
  | line_limit limit l :
      line_step l (mkLine (core_limit_window limit (ln_p l)) (ln_sends l) (ln_awake l))
  | line_end error l p' ended woken released :
      core_end error (ln_p l) = (p', ended, woken, released) →
      line_step l (mkLine p' (ln_sends l) (ln_awake l ∪ reached woken (pstate p')))
  (* The runtime's answer to an acknowledgement that breaks the protocol. *)
  | line_violation l p' ended woken released :
      end_for_violation (ln_p l) = (p', ended, woken, released) →
      line_step l (mkLine p' (ln_sends l) (ln_awake l ∪ reached woken (pstate p')))
  | line_cancel l p' was woken released :
      core_cancel (ln_p l) = (p', was, woken, released) →
      line_step l (mkLine p' (ln_sends l) (ln_awake l ∪ reached woken (pstate p')))
  | line_terminate t l :
      line_step l (mkLine (core_terminate t (ln_p l)) (ln_sends l) (ln_awake l)).

(** ** What the calls do to the locked state *)

Definition stopped (s : CoreState) : Prop :=
  is_Some (cs_terminal s) ∧ cs_waiters s = [] ∧ cs_ready_waiters s = [] ∧ cs_hold s = None.

Lemma stop_state t p :
  cs_terminal (pstate p) = None → stopped (pstate (fst (stop t p))).
Proof. intros E. unfold stop. rewrite E. cbn. by repeat split; [eexists|..]. Qed.

Lemma end_with_state t error p :
  cs_terminal (pstate p) = None → stopped (pstate (fst (core_end_with t error p))).
Proof.
  intros E. unfold core_end_with. rewrite E. cbn.
  repeat (case_match; cbn); by repeat split; [eexists|..].
Qed.

Lemma end_with_again t0 t error p :
  cs_terminal (pstate p) = Some t0 → core_end_with t error p = (p, false).
Proof. intros E. unfold core_end_with. by rewrite E. Qed.

Lemma emit_item_state sequence codec body p :
  cs_terminal (pstate p) = None →
  let p' := fst (emit_item sequence codec body p) in
  (pstate p' = pstate p ∧ ef_wakers (p_effects p') = ef_wakers (p_effects p)) ∨
  stopped (pstate p').
Proof.
  intros E. unfold emit_item. destruct (co_route (p_core p)).
  - destruct (encode_frame _ _) as [bytes|e|]; cbn [fst]; [|right; by apply end_with_state..].
    destruct (p_conn p) as [conn|]; [destruct (push_stream_frame _ _ conn) as [conn' [u|f|]]|];
      cbn; try (by left);
      try (right; destruct (stop T_Disconnected (with_conn (Some conn') p)) as [p1 h] eqn:Es;
           pose proof (stop_state T_Disconnected (with_conn (Some conn') p) E) as Hs;
           rewrite Es in Hs; exact Hs).
    right. destruct (stop T_Disconnected p) as [p1 h] eqn:Es.
    pose proof (stop_state T_Disconnected p E) as Hs. rewrite Es in Hs. exact Hs.
  - destruct (p_sink_alive p); [by left|right]. unfold core_terminate.
    destruct (stop T_Shutdown p) as [p1 h] eqn:Es.
    pose proof (stop_state T_Shutdown p E) as Hs. rewrite Es in Hs. exact Hs.
Qed.

(** ** The invariant *)

Definition tickets (s : CoreState) : list Z := w_ticket <$> cs_waiters s.

(** A running stream: the credit is well formed, tickets are in order of
    arrival and are exactly the pending sends', whoever waits for readiness
    has a reason to, and the sender at the head is awake unless credit is out
    that will come back and its item does not fit until then. *)
Record running (s : CoreState) (sends : gmap Z Z) (awake : gset Z) : Prop := {
  ru_credit : ∃ q, credit_is (cs_credit s) q;
  ru_order : ascending (tickets s);
  ru_fresh : Forall (λ t, t < cs_next_ticket s) (tickets s);
  ru_sends t : is_Some (sends !! t) ↔ t ∈ tickets s;
  ru_sizes t size : sends !! t = Some size → 0 < size;
  ru_ready : cs_ready_waiters s ≠ [] → cs_waiters s ≠ [] ∨ has_room (cs_credit s) = false;
  ru_head w ws size :
    cs_waiters s = w :: ws → sends !! w_ticket w = Some size → w_ticket w ∉ awake →
    0 < in_flight (cs_credit s) ∧ cr_window (cs_credit s) < in_flight (cs_credit s) + size;
}.

Definition line_ok (s : CoreState) (sends : gmap Z Z) (awake : gset Z) : Prop :=
  match cs_terminal s with
  | Some _ => stopped s
  | None => running s sends awake
  end.

Lemma stopped_ok s sends awake : stopped s → line_ok s sends awake.
Proof. intros Hs. unfold line_ok. pose proof Hs as ([t E] & _). by rewrite E. Qed.

Lemma reached_head s w ws woken :
  cs_waiters s = w :: ws → w_waker w ∈ woken → w_ticket w ∈ reached woken s.
Proof.
  intros E Hw. unfold reached. rewrite E, filter_cons_True by done. cbn. set_solver.
Qed.

(** After a sender left the line, [turn_passed] restores the invariant,
    whatever was awake before. *)
Lemma turn_passed_running s sends awake s' woken :
  cs_terminal s = None → (∃ q, credit_is (cs_credit s) q) → ascending (tickets s) →
  Forall (λ t, t < cs_next_ticket s) (tickets s) →
  (∀ t, is_Some (sends !! t) ↔ t ∈ tickets s) →
  (∀ t size, sends !! t = Some size → 0 < size) →
  turn_passed s = (s', woken) →
  cs_terminal s' = None ∧ cs_credit s' = cs_credit s ∧ cs_hold s' = cs_hold s ∧
  running s' sends (awake ∪ reached woken s').
Proof.
  intros Ht Hc Ho Hf Hs Hz. unfold turn_passed.
  assert (∀ s1 wk, cs_waiters s1 = cs_waiters s → head_waker s ⊆ wk → ∀ w ws,
            cs_waiters s1 = w :: ws → w_ticket w ∈ awake ∪ reached wk s1) as Hhead.
  { intros s1 wk E1 Hwk w ws E. apply elem_of_union_r. apply (reached_head s1 w ws wk E).
    apply Hwk. unfold head_waker. rewrite <- E1, E. by left. }
  destruct (is_empty (cs_waiters s)) eqn:Ew; cbn [andb].
  - apply is_empty_true in Ew. destruct (has_room (cs_credit s)) eqn:Er; intros [= <- <-].
    + split_and!; [done..|]. constructor; try done; cbn.
      intros w ws size E. by rewrite Ew in E.
    + split_and!; [done..|]. constructor; try done; [by right|].
      intros w ws size E. by rewrite Ew in E.
  - intros [= <- <-]. split_and!; [done..|]. constructor; try done.
    + intros _. left. by destruct (cs_waiters s).
    + intros w ws size E _ Hna. exfalso. apply Hna. by eapply Hhead.
Qed.

Lemma tickets_leave t s :
  tickets (leave (Some t) s) = filter (λ t', t' ≠ t) (tickets s).
Proof.
  unfold tickets, leave; cbn. induction (cs_waiters s) as [|w ws IH]; [done|].
  cbn [fmap list_fmap]. rewrite !filter_cons. repeat case_decide; cbn; congruence.
Qed.

Lemma ascending_filter (P : Z → Prop) `{!∀ x, Decision (P x)} l :
  ascending l → ascending (filter P l).
Proof.
  unfold ascending. induction 1 as [|x l Hs IH Hx]; [constructor|].
  rewrite filter_cons. case_decide; [|done]. constructor; [done|].
  apply Forall_forall. intros y [_ Hy]%list_elem_of_filter. rewrite Forall_forall in Hx. by apply Hx.
Qed.

(** Leaving the line and passing the turn, in one go. *)
Lemma leave_passed_running t s sends awake s' woken :
  cs_terminal s = None → (∃ q, credit_is (cs_credit s) q) → ascending (tickets s) →
  Forall (λ t, t < cs_next_ticket s) (tickets s) →
  (∀ t, is_Some (sends !! t) ↔ t ∈ tickets s) →
  (∀ t size, sends !! t = Some size → 0 < size) →
  turn_passed (leave t s) = (s', woken) →
  cs_terminal s' = None ∧ cs_credit s' = cs_credit s ∧ cs_hold s' = cs_hold s ∧
  running s' (match t with Some t => delete t sends | None => sends end)
    (awake ∪ reached woken s').
Proof.
  intros Ht Hc Ho Hf Hs Hz E. destruct t as [t|]; [|by eapply turn_passed_running].
  destruct (turn_passed_running (leave (Some t) s) (delete t sends) awake s' woken)
    as (? & Ec & Eh & Hr); try done.
  - rewrite tickets_leave. by apply ascending_filter.
  - rewrite tickets_leave. by apply Forall_filtered.
  - intros t'. rewrite tickets_leave, list_elem_of_filter, <- Hs.
    destruct (decide (t' = t)) as [->|]; [rewrite lookup_delete_eq|rewrite lookup_delete_ne by done].
    + split; [by intros []|tauto].
    + tauto.
  - intros t' size. rewrite lookup_delete_Some. naive_solver.
Qed.

Lemma running_awake s sends a a' : running s sends a → a ⊆ a' → running s sends a'.
Proof.
  intros [? ? ? ? ? ? Hh] Ha. constructor; try done.
  intros w ws size E1 E2 Hn. apply (Hh w ws size E1 E2). set_solver.
Qed.

Lemma leave_and_pass_running ticket p sends awake :
  cs_terminal (pstate p) = None → (∃ q, credit_is (cs_credit (pstate p)) q) →
  ascending (tickets (pstate p)) →
  Forall (λ t, t < cs_next_ticket (pstate p)) (tickets (pstate p)) →
  (∀ t, is_Some (sends !! t) ↔ t ∈ tickets (pstate p)) →
  (∀ t size, sends !! t = Some size → 0 < size) →
  let p' := leave_and_pass ticket p in
  cs_terminal (pstate p') = None ∧
  running (pstate p') (match ticket with Some t => delete t sends | None => sends end)
    (awake ∪ reached (ef_wakers (p_effects p')) (pstate p')).
Proof.
  intros Ht Hc Ho Hf Hs Hz p'. unfold p', leave_and_pass.
  destruct (turn_passed (leave ticket (pstate p))) as [s' woken] eqn:E.
  destruct (leave_passed_running ticket (pstate p) sends awake s' woken) as (E1 & _ & _ & Hr);
    try done.
  split; [done|]. eapply running_awake; [exact Hr|]. cbn.
  unfold reached. intros t. rewrite !elem_of_union, !elem_of_list_to_set, !list_elem_of_fmap.
  intros [?|(w & -> & [Hw Hin]%list_elem_of_filter)]; [by left|]. right.
  exists w. split; [done|]. apply list_elem_of_filter. set_solver.
Qed.

Lemma refresh_tickets cx t ws : w_ticket <$> refresh cx t ws = w_ticket <$> ws.
Proof.
  induction ws as [|w ws IH]; [done|]. cbn. destruct (w_ticket w =? t); cbn; [done|]. by f_equal.
Qed.

(** Refreshing the waker of a place in line keeps the line. *)
Lemma join_line_waiting cx t p :
  tickets (pstate (fst (join_line cx (Some t) p))) = tickets (pstate p) ∧
  cs_credit (pstate (fst (join_line cx (Some t) p))) = cs_credit (pstate p) ∧
  cs_ready_waiters (pstate (fst (join_line cx (Some t) p))) = cs_ready_waiters (pstate p) ∧
  cs_next_ticket (pstate (fst (join_line cx (Some t) p))) = cs_next_ticket (pstate p) ∧
  cs_terminal (pstate (fst (join_line cx (Some t) p))) = cs_terminal (pstate p) ∧
  snd (join_line cx (Some t) p) = Some t.
Proof.
  split_and!; try done. apply refresh_tickets.
Qed.

Lemma tickets_cons s t ts :
  tickets s = t :: ts → ∃ w ws, cs_waiters s = w :: ws ∧ w_ticket w = t ∧ w_ticket <$> ws = ts.
Proof.
  unfold tickets. destruct (cs_waiters s) as [|w ws]; [done|]. cbn. intros [= <- <-]. eauto.
Qed.

(** Waiting in line: the place was taken or kept, and whoever is at the head
    asleep has been refused for lack of credit. *)
Lemma join_line_running cx ticket p sends awake size :
  cs_terminal (pstate p) = None → running (pstate p) sends awake → 0 < size →
  (∀ t, ticket = Some t → sends !! t = Some size) →
  (my_turn (pstate p) ticket = true →
     0 < in_flight (cs_credit (pstate p)) ∧
     cr_window (cs_credit (pstate p)) < in_flight (cs_credit (pstate p)) + size) →
  let '(p', ticket') := join_line cx ticket p in
  cs_terminal (pstate p') = None ∧
  ∃ t, ticket' = Some t ∧ running (pstate p') (<[t := size]> sends) (awake ∖ {[t]}).
Proof.
  intros Ht Hr Hsz Hsend Hturn. destruct Hr as [Hc Ho Hf Hs Hz Hrdy Hh].
  destruct ticket as [t|].
  - destruct (join_line cx (Some t) p) as [p' ticket'] eqn:Ej.
    pose proof (join_line_waiting cx t p) as (Etk & Ec & Erd & En & Et & Eti).
    rewrite Ej in Etk, Ec, Erd, En, Et, Eti. cbn [fst snd] in *. subst ticket'.
    split; [congruence|]. exists t. split; [done|].
    rewrite insert_id by auto.
    assert (t ∈ tickets (pstate p)) as Hin by (apply Hs; rewrite (Hsend t eq_refl); by eexists).
    constructor; rewrite ?Etk, ?Ec, ?Erd, ?En; try done.
    + intros Hne. left. intros E. unfold tickets in Etk. rewrite E in Etk. cbn in Etk.
      unfold tickets in Hin. rewrite <- Etk in Hin. by apply elem_of_nil in Hin.
    + intros w ws sz E Hl Hna.
      assert (tickets (pstate p) = w_ticket w :: (w_ticket <$> ws)) as E'.
      { rewrite <- Etk. unfold tickets. by rewrite E. }
      apply tickets_cons in E' as (w0 & ws0 & E0 & Ew0 & _).
      destruct (decide (w_ticket w = t)) as [Ewt|Hne].
      * assert (my_turn (pstate p) (Some t) = true) as Hm.
        { unfold my_turn. rewrite E0. apply Z.eqb_eq. congruence. }
        destruct (Hturn Hm). rewrite Ewt, (Hsend t eq_refl) in Hl. by simplify_eq.
      * apply (Hh w0 ws0 sz E0); [by rewrite Ew0|rewrite Ew0; set_solver].
  - cbn. split; [done|]. set (t := cs_next_ticket (pstate p)). exists t. split; [done|].
    assert (t ∉ tickets (pstate p)) as Hfr.
    { intros Hin. rewrite Forall_forall in Hf. specialize (Hf t Hin). unfold t in Hf. cbn in Hf. lia. }
    constructor; unfold tickets in *; cbn in *; change (co_state (p_core p)) with (pstate p) in *;
      rewrite ?fmap_app; cbn; try done.
    + unfold ascending. apply StronglySorted_app_2; [|done|by repeat constructor].
      intros x y Hx ->%list_elem_of_singleton. rewrite Forall_forall in Hf. by apply Hf.
    + apply Forall_app. split; [|by repeat constructor; lia].
      eapply Forall_impl; [exact Hf|]. cbn. intros x ?. lia.
    + intros t'. rewrite elem_of_app, list_elem_of_singleton, <- Hs.
      destruct (decide (t' = t)) as [->|]; [rewrite lookup_insert_eq|rewrite lookup_insert_ne by done].
      * split; [by right|by eexists].
      * naive_solver.
    + intros t' sz. rewrite lookup_insert_Some. naive_solver.
    + intros _. left. by destruct (cs_waiters (pstate p)).
    + intros w ws sz E Hl Hna. destruct (cs_waiters (pstate p)) as [|w0 ws0] eqn:E0.
      * cbn in E. simplify_eq. cbn in Hl. rewrite lookup_insert_eq in Hl. simplify_eq.
        apply Hturn. unfold my_turn. by rewrite E0.
      * cbn in E. simplify_eq. cbn in Hfr. rewrite lookup_insert_ne in Hl by set_solver.
        apply (Hh w ws0 sz); try done. set_solver.
Qed.

(** ** Every call preserves the invariant *)

Lemma running_left ticket p sends awake :
  running (pstate p) sends awake → cs_terminal (pstate p) = None →
  let p' := leave_and_pass ticket p in
  line_ok (pstate p') (match ticket with Some t => delete t sends | None => sends end)
    (awake ∪ reached (ef_wakers (p_effects p')) (pstate p')).
Proof.
  intros [Hc Ho Hf Hs Hz _ _] Ht p'.
  destruct (leave_and_pass_running ticket p sends awake Ht Hc Ho Hf Hs Hz) as [Ht' Hr].
  unfold line_ok, p'. by rewrite Ht'.
Qed.

Lemma send_locked_ok cx ticket item size p sends awake p' ticket' item' outcome :
  line_ok (pstate p) sends awake → p_effects p = Effects_default → 0 < size →
  (∀ t, ticket = Some t → sends !! t = Some size) →
  send_locked cx ticket (Some item) size p = (p', ticket', item', outcome) →
  line_ok (pstate p')
    (match ticket' with
     | Some t => <[t := size]> sends
     | None => match ticket with Some t => delete t sends | None => sends end
     end)
    (match ticket' with Some t => awake ∖ {[t]} | None => awake end
       ∪ reached (ef_wakers (p_effects p')) (pstate p')).
Proof.
  intros Hl He Hsz Hsend. unfold send_locked.
  destruct (cs_terminal (pstate p)) as [t|] eqn:Et.
  { intros [= <- <- <- <-]. unfold line_ok in Hl. rewrite Et in Hl. apply stopped_ok.
    destruct Hl as (Ht & Hw & Hr & Hh). unfold leave. destruct ticket; cbn; [|by repeat split].
    unfold pstate in *. unfold stopped; cbn. by rewrite Hw. }
  unfold line_ok in Hl. rewrite Et in Hl. pose proof Hl as [[q Hc] Ho Hf Hs Hz Hrd Hh].
  assert (∀ p1 t1, (let '(p2, t2) := join_line cx ticket p in (p2, t2)) = (p1, t1) →
    (my_turn (pstate p) ticket = true →
       0 < in_flight (cs_credit (pstate p)) ∧
       cr_window (cs_credit (pstate p)) < in_flight (cs_credit (pstate p)) + size) →
    line_ok (pstate p1)
      (match t1 with
       | Some t => <[t := size]> sends
       | None => match ticket with Some t => delete t sends | None => sends end
       end)
      (match t1 with Some t => awake ∖ {[t]} | None => awake end
         ∪ reached (ef_wakers (p_effects p1)) (pstate p1))) as Hwait.
  { intros p1 t1 Ej Hturn.
    pose proof (join_line_running cx ticket p sends awake size Et Hl Hsz Hsend Hturn) as J.
    destruct (join_line cx ticket p) as [p2 t2]. simplify_eq. destruct J as (Ht2 & t & -> & Hr).
    unfold line_ok. rewrite Ht2. eapply running_awake; [exact Hr|]. set_solver. }
  destruct (core_cap p <? size).
  { intros [= <- <- <- <-]. by apply (running_left ticket p sends awake). }
  destruct (my_turn (pstate p) ticket) eqn:Em.
  2:{ destruct (join_line cx ticket p) as [p2 t2] eqn:Ej. intros [= <- <- <- <-].
      by apply Hwait. }
  pose proof (reserve_spec _ _ size Hc Hsz) as R.
  destruct (reserve (cs_credit (pstate p)) size) as [credit [sequence|[s0 lim| |]|]].
  - destruct R as (_ & _ & Hc' & _).
    set (p0 := on_state (with_credit credit) p).
    destruct (leave_and_pass_running ticket p0 sends awake) as [Ht1 Hr1]; try done.
    { by eexists. }
    set (p1 := leave_and_pass ticket p0) in *.
    destruct item as [codec body].
    pose proof (emit_item_state sequence codec body p1 Ht1) as Em1.
    destruct (emit_item sequence codec body p1) as [p2 o]. cbn [fst] in Em1.
    intros [= <- <- <- <-]. destruct Em1 as [[E1 E2] | Hst]; [|by apply stopped_ok].
    unfold line_ok. rewrite E1, E2, Ht1. exact Hr1.
  - intros [= <- <- <- <-]. by apply (running_left ticket p sends awake).
  - destruct (join_line cx ticket p) as [p2 t2] eqn:Ej. intros [= <- <- <- <-].
    apply Hwait; [done|]. intros _. rewrite (credit_in_flight _ _ Hc). lia.
  - intros [= <- <- <- <-]. apply stopped_ok, end_with_state.
    unfold leave. by destruct ticket.
  - done.
Qed.

Lemma apply_effects_state p :
  pstate (fst (fst (apply_effects p))) = pstate p ∧ snd (fst (apply_effects p)) = ef_wakers (p_effects p).
Proof. unfold apply_effects; cbn. by destruct (ef_writer (p_effects p)). Qed.

(** [core_end] and [end_for_violation], on a running stream or an ended one. *)
Lemma end_applied_ok t error p p' ended woken released sends awake :
  line_ok (pstate p) sends awake →
  (let '(p, ended) := core_end_with t error (with_effects Effects_default p) in
   let '(p, woken, released) := apply_effects p in (p, ended, woken, released))
    = (p', ended, woken, released) →
  stopped (pstate p').
Proof.
  unfold line_ok. intros Hl E. destruct (cs_terminal (pstate p)) as [t0|] eqn:Et.
  - rewrite (end_with_again t0 _ _ (with_effects Effects_default p) Et) in E.
    cbn in E. by simplify_eq.
  - pose proof (end_with_state t error (with_effects Effects_default p) Et) as Hst.
    destruct (core_end_with _ _ _) as [p1 b]. cbn [fst] in Hst.
    pose proof (apply_effects_state p1) as [E1 _]. destruct (apply_effects p1) as [[p2 wk] rel].
    cbn [fst] in E1. simplify_eq. by rewrite E1.
Qed.

Lemma line_step_ok l l' :
  line_ok (pstate (ln_p l)) (ln_sends l) (ln_awake l) → line_step l l' →
  line_ok (pstate (ln_p l')) (ln_sends l') (ln_awake l').
Proof.
  intros Hl St. destruct St as
    [cx ticket item size l p' ticket' item' outcome woken released Hsz Hsend E
    |t l p' woken Ht E|cx l p' outcome E|consumed l p' woken effect E|limit l
    |error l p' ended woken released E|l p' ended woken released E|l p' was woken released E|t l]; cbn [ln_p ln_sends ln_awake].
  - unfold poll_send in E.
    destruct (send_locked cx ticket (Some item) size (with_effects Effects_default (ln_p l)))
      as [[[p1 t1] i1] o1] eqn:Es.
    pose proof (apply_effects_state p1) as [E1 E2].
    destruct (apply_effects p1) as [[p2 wk] rel]. cbn [fst snd] in E1, E2. simplify_eq.
    rewrite E1. by eapply send_locked_ok in Es.
  - unfold abandon_send in E. destruct (turn_passed (leave (Some t) (pstate (ln_p l)))) as [s' wk] eqn:Ep.
    simplify_eq. change (pstate (on_state (λ _, s') (ln_p l))) with s'.
    unfold line_ok in Hl. destruct (cs_terminal (pstate (ln_p l))) eqn:Et.
    + apply stopped_ok. destruct Hl as (H1 & H2 & H3 & H4).
      assert (leave (Some t) (pstate (ln_p l)) = pstate (ln_p l)) as El.
      { unfold leave. rewrite H2. cbn. by destruct (pstate (ln_p l)); cbn in *; subst. }
      rewrite El in Ep. unfold turn_passed in Ep. rewrite H2 in Ep. cbn in Ep.
      destruct (has_room _); simplify_eq; [|by repeat split].
      unfold stopped; cbn. rewrite Et. by repeat split; [eexists|..].
    + destruct Hl as [Hc Ho Hf Hs Hz _ _].
      destruct (leave_passed_running (Some t) _ (ln_sends l) (ln_awake l) s' woken Et Hc Ho Hf Hs Hz Ep)
        as (Et' & _ & _ & Hr).
      unfold line_ok. by rewrite Et'.
  - unfold poll_ready in E. unfold line_ok in Hl |- *.
    destruct (cs_terminal (pstate (ln_p l))) eqn:Et; [simplify_eq; by rewrite Et|].
    destruct (has_room _ && is_empty _) eqn:Er; [simplify_eq; by rewrite Et|].
    case_bool_decide; simplify_eq; [by rewrite Et|]. cbn.
    change (co_state (p_core (ln_p l))) with (pstate (ln_p l)). rewrite Et.
    destruct Hl as [Hc Ho Hf Hs Hz Hrd Hh]. constructor; try done. cbn. intros _.
    apply andb_false_iff in Er as [Er|Er]; [by right|left]. by destruct (cs_waiters _).
  - unfold core_on_ack in E. unfold line_ok in Hl |- *.
    destruct (cs_terminal (pstate (ln_p l))) eqn:Et; [simplify_eq; by rewrite Et|].
    pose proof Hl as [[q Hc] Ho Hf Hs Hz Hrd Hh].
    pose proof (ack_spec _ _ consumed Hc) as A.
    destruct (ack (cs_credit (pstate (ln_p l))) consumed) as [c' [[]|v|]]; simplify_eq;
      try (rewrite Et; eapply running_awake; [exact Hl|set_solver]).
    cbn. change (co_state (p_core (ln_p l))) with (pstate (ln_p l)). rewrite Et.
    destruct A as (a & b & _ & _ & _ & Hc' & _).
    constructor; try done; [by eexists|].
    intros w ws size E _ Hna. exfalso. apply Hna, elem_of_union_r.
    apply (reached_head _ w ws); [done|]. unfold head_waker.
    change (cs_waiters (pstate (ln_p l)) = w :: ws) in E. rewrite E. set_solver.
  - unfold line_ok in Hl |- *. cbn. change (co_state (p_core (ln_p l))) with (pstate (ln_p l)).
    destruct (cs_terminal (pstate (ln_p l))) eqn:Et.
    + destruct Hl as (H1 & H2 & H3 & H4). unfold stopped; cbn. rewrite Et. by repeat split.
    + destruct Hl as [[q Hc] Ho Hf Hs Hz Hrd Hh]. constructor; try done; cbn.
      * exists q. by apply limit_window_is.
      * intros Hne. destruct (Hrd Hne) as [?|Hr]; [by left|right].
        unfold has_room, in_flight in *. cbn. apply Z.ltb_ge. apply Z.ltb_ge in Hr. lia.
      * intros w ws size E1 E2 Hna. destruct (Hh w ws size E1 E2 Hna).
        unfold in_flight in *. cbn. lia.
  - apply stopped_ok. by apply (end_applied_ok _ _ _ _ _ _ _ _ _ Hl E).
  - apply stopped_ok. by apply (end_applied_ok _ _ _ _ _ _ _ _ _ Hl E).
  - unfold core_cancel in E. unfold line_ok in Hl.
    destruct (cs_terminal (pstate (ln_p l))) eqn:Et.
    + simplify_eq. by apply stopped_ok.
    + apply stopped_ok.
      pose proof (stop_state T_Cancelled (with_effects Effects_default (ln_p l)) Et) as Hst.
      destruct (stop _ _) as [p1 h]. cbn [fst] in Hst.
      set (p3 := with_conn _ _) in E.
      pose proof (apply_effects_state p3) as [E1 _]. destruct (apply_effects p3) as [[p2 wk] rel].
      cbn [fst] in E1. simplify_eq. by rewrite E1.
  - unfold core_terminate. unfold line_ok in Hl.
    destruct (cs_terminal (pstate (ln_p l))) eqn:Et.
    + apply stopped_ok. unfold stop. by rewrite Et.
    + apply stopped_ok. pose proof (stop_state t (ln_p l) Et) as Hst.
      by destruct (stop t (ln_p l)).
Qed.

Lemma fresh_line_ok call_id route window frame_cap hold sends awake :
  sends = ∅ →
  line_ok (co_state (StreamCore_new call_id route window frame_cap hold)) sends awake.
Proof.
  intros ->. unfold line_ok, StreamCore_new; cbn.
  constructor; unfold tickets; cbn; try done.
  - exists []. by apply Credit_starting_at_is.
  - constructor.
  - intros t. rewrite lookup_empty, elem_of_nil. split; [by intros []|done].
Qed.

Lemma reachable_line_ok l0 l :
  rtc line_step l0 l → line_ok (pstate (ln_p l0)) (ln_sends l0) (ln_awake l0) →
  line_ok (pstate (ln_p l)) (ln_sends l) (ln_awake l).
Proof. induction 1 as [|l0 l1 l2 Hs _ IH]; [done|]. intros Hok. by apply IH, (line_step_ok l0). Qed.

(** A call on an ended stream. *)
Lemma line_step_ended t l l' :
  cs_terminal (pstate (ln_p l)) = Some t → line_step l l' →
  cs_terminal (pstate (ln_p l')) = Some t ∧
  p_conn (ln_p l') = p_conn (ln_p l) ∧ p_calls (ln_p l') = p_calls (ln_p l).
Proof.
  intros Et St. destruct St as
    [cx ticket item size l p' ticket' item' outcome woken released Hsz Hsend E
    |tk l p' woken Ht E|cx l p' outcome E|consumed l p' woken effect E|limit l
    |error l p' ended woken released E|l p' ended woken released E|l p' was woken released E|t' l]; cbn [ln_p ln_sends ln_awake].
  - unfold poll_send, send_locked in E.
    change (pstate (with_effects Effects_default (ln_p l))) with (pstate (ln_p l)) in E.
    rewrite Et in E. cbn in E. simplify_eq. cbn.
    by destruct ticket.
  - unfold abandon_send in E. destruct (turn_passed (leave (Some tk) (pstate (ln_p l)))) as [s' wk] eqn:Ep.
    simplify_eq. split; [|done]. change (cs_terminal s' = Some t).
    unfold turn_passed in Ep. destruct (_ && _) in Ep; by simplify_eq.
  - unfold poll_ready in E. rewrite Et in E. by simplify_eq.
  - unfold core_on_ack in E. rewrite Et in E. by simplify_eq.
  - done.
  - unfold core_end in E.
    rewrite (end_with_again t _ _ (with_effects Effects_default (ln_p l)) Et) in E.
    cbn in E. by simplify_eq.
  - unfold end_for_violation in E.
    rewrite (end_with_again t _ _ (with_effects Effects_default (ln_p l)) Et) in E.
    cbn in E. by simplify_eq.
  - unfold core_cancel in E. rewrite Et in E. by simplify_eq.
  - unfold core_terminate, stop. by rewrite Et.
Qed.

(** A fresh stream, nobody sending yet. *)
Definition fresh_line (l : Line) : Prop :=
  ln_sends l = ∅ ∧
  ∃ call_id route window frame_cap hold,
    p_core (ln_p l) = StreamCore_new call_id route window frame_cap hold.

Lemma fresh_reachable_ok l0 l :
  fresh_line l0 → rtc line_step l0 l → line_ok (pstate (ln_p l)) (ln_sends l) (ln_awake l).
Proof.
  intros (Es & call_id & route & window & frame_cap & hold & Ec) Hr.
  apply (reachable_line_ok l0 l Hr). unfold pstate. rewrite Ec. by apply fresh_line_ok.
Qed.

Lemma send_locked_turn cx ticket item size p p' ticket' item' :
  cs_terminal (pstate p) = None →
  send_locked cx ticket item size p = (p', ticket', item', Some (Ok tt)) →
  my_turn (pstate p) ticket = true.
Proof.
  intros Et. unfold send_locked. rewrite Et.
  destruct (core_cap p <? size); [done|].
  destruct (my_turn (pstate p) ticket); [done|].
  by destruct (join_line cx ticket p).
Qed.

(** ** Theorems *)

(** C23: no wakeup is lost: after any sequence of sends, drops of pending
    sends, readiness polls, acknowledgements (honest or not), window limits,
    ends and violations on a fresh stream, a running stream whose oldest pending send is
    asleep has bytes in flight whose acknowledgement will wake it, and the
    send does not fit until then; tasks wait for readiness only while senders
    are in line or the window is full; an ended stream leaves nobody
    waiting. *)
Theorem no_lost_wakeup l0 l :
  fresh_line l0 → rtc line_step l0 l →
  match cs_terminal (pstate (ln_p l)) with
  | Some _ => cs_waiters (pstate (ln_p l)) = [] ∧ cs_ready_waiters (pstate (ln_p l)) = []
  | None =>
      (∀ w ws size,
         cs_waiters (pstate (ln_p l)) = w :: ws → ln_sends l !! w_ticket w = Some size →
         w_ticket w ∉ ln_awake l →
         0 < in_flight (cs_credit (pstate (ln_p l))) ∧
         cr_window (cs_credit (pstate (ln_p l))) <
           in_flight (cs_credit (pstate (ln_p l))) + size) ∧
      (cs_ready_waiters (pstate (ln_p l)) ≠ [] →
         cs_waiters (pstate (ln_p l)) ≠ [] ∨ has_room (cs_credit (pstate (ln_p l))) = false)
  end.
Proof.
  intros Hf Hr. pose proof (fresh_reachable_ok l0 l Hf Hr) as Hok. unfold line_ok in Hok.
  destruct (cs_terminal (pstate (ln_p l))).
  - by destruct Hok as (_ & ? & ? & _).
  - split; [exact (ru_head _ _ _ Hok)|exact (ru_ready _ _ _ Hok)].
Qed.

(** Senders are served in order of arrival: when a pending send completes,
    every send still pending took its ticket later; a send that never waited
    completes only when nobody is in line. *)
Theorem first_come_first_served l0 l cx ticket item size p' ticket' item' woken released :
  fresh_line l0 → rtc line_step l0 l →
  poll_send cx ticket item size (ln_p l) = (p', ticket', item', Some (Ok tt), woken, released) →
  ∀ t, is_Some (ln_sends l !! t) →
       match ticket with Some mine => mine ≤ t | None => False end.
Proof.
  intros Hf Hr Hp t Ht. pose proof (fresh_reachable_ok l0 l Hf Hr) as Hok.
  unfold poll_send in Hp.
  destruct (send_locked cx ticket item size (with_effects Effects_default (ln_p l)))
    as [[[p1 t1] i1] o1] eqn:Es.
  destruct (apply_effects p1) as [[p2 wk] rel]. simplify_eq.
  unfold line_ok in Hok. destruct (cs_terminal (pstate (ln_p l))) eqn:Et.
  { unfold send_locked in Es. change (pstate (with_effects _ _)) with (pstate (ln_p l)) in Es.
    by rewrite Et in Es. }
  apply send_locked_turn in Es; [|done].
  change (my_turn (pstate (ln_p l)) ticket = true) in Es.
  apply (ru_sends _ _ _ Hok) in Ht. pose proof (ru_order _ _ _ Hok) as Ho.
  unfold my_turn, tickets in *. destruct (cs_waiters (pstate (ln_p l))) as [|w ws].
  { by apply elem_of_nil in Ht. }
  destruct ticket as [mine|]; [|done]. apply Z.eqb_eq in Es. subst mine. cbn in Ht, Ho.
  apply StronglySorted_inv in Ho as [_ Ho]. rewrite Forall_forall in Ho.
  apply elem_of_cons in Ht as [->|Hin]; [done|]. specialize (Ho t Hin). cbn in Ho. lia.
Qed.

(** Nothing follows the end of a stream: once it ended, no call changes its
    outcome, hands the connection or the local sink another frame, or holds a
    resource again. *)
Theorem nothing_after_the_end l0 l l' :
  fresh_line l0 → rtc line_step l0 l → is_Some (cs_terminal (pstate (ln_p l))) →
  rtc line_step l l' →
  cs_terminal (pstate (ln_p l')) = cs_terminal (pstate (ln_p l)) ∧
  cs_hold (pstate (ln_p l')) = None ∧
  p_conn (ln_p l') = p_conn (ln_p l) ∧ p_calls (ln_p l') = p_calls (ln_p l).
Proof.
  intros Hf Hr [t Et] Hr'.
  assert (line_ok (pstate (ln_p l)) (ln_sends l) (ln_awake l)) as Hok
    by by apply (fresh_reachable_ok l0).
  assert (cs_terminal (pstate (ln_p l')) = Some t ∧ p_conn (ln_p l') = p_conn (ln_p l) ∧
          p_calls (ln_p l') = p_calls (ln_p l)) as (E1 & E2 & E3).
  { clear Hok Hf Hr. induction Hr' as [|l l1 l2 Hs _ IH]; [done|].
    destruct (line_step_ended t l l1 Et Hs) as (F1 & F2 & F3).
    rewrite <- F2, <- F3. by apply IH. }
  pose proof (reachable_line_ok l l' Hr' Hok) as Hok'. unfold line_ok in Hok'.
  rewrite E1 in Hok'. destruct Hok' as (_ & _ & _ & Eh). by rewrite E1, Et.
Qed.

End Line.
