(* ===== verification/Consumer.v ===== *)
(** The consuming side of a reply stream
    (moonpool-rpc/src/stream/consumer.rs): in-order intake, the bounded
    buffer, acknowledgements of what the application took, and the single
    terminal outcome.

    A call runs under the core's lock, so each method is a function of the
    state [Consuming]: the core, the connection and the local producer an
    acknowledgement route may still reach ([None]: gone), and the runtime's
    counters the core shares.  The draw of a fault-injection point is an
    argument; the wakers a call fires are returned. *)
From stdpp Require Import base list numbers gmap strings.
From S2P Require Import Prelude Cursor Frame Status Wire Credit Connection Producer.

Inductive AckRoute := AckRemote | AckLocal.

Record Item := mkItem {
  it_codec : Z;
  it_body : list byte;
  it_size : Z;
  it_immediate : bool;
}.

(** An item, the terminal error once, then [None]. *)
Definition Next : Type := option (RpcError + Z * list byte).

Record ConsumerState := mkConsumerState {
  ks_intake : Intake;
  ks_items : list Item;
  ks_waiting : bool;
  ks_waker : option Waker;
  ks_route : option AckRoute;
  ks_terminal : option (RpcError + unit);
  ks_finished : bool;
}.

Record ConsumerCore := mkConsumerCore {
  kc_call_id : Z;
  kc_window : Z;
  kc_state : ConsumerState;
}.

(** The counters of the runtime a consumer changes. *)
Record ConsumerCounters := mkConsumerCounters {
  kn_violations : Z;
  kn_buffered_bytes : Z;
  kn_ack_deferrals : Z;
  kn_acks_immediate : Z;
  kn_acks_popped : Z;
  kn_window_reserved : Z;
}.

Record Consuming := mkConsuming {
  k_core : ConsumerCore;
  k_conn : option Connection;
  k_producer : option Producing;
  k_counters : ConsumerCounters;
}.

Inductive Intook := Accepted | Violation (v : IntakeViolation).

Definition ConsumerCore_new (call_id window : Z) : ConsumerCore :=
  mkConsumerCore call_id window
    (mkConsumerState (Intake_new window) [] false None None None false).

(** ** Plumbing *)

Definition kstate (k : Consuming) : ConsumerState := kc_state (k_core k).

Definition with_kstate (s : ConsumerState) (k : Consuming) : Consuming :=
  mkConsuming (mkConsumerCore (kc_call_id (k_core k)) (kc_window (k_core k)) s)
    (k_conn k) (k_producer k) (k_counters k).

Definition count (violations buffered deferrals immediate popped : Z) (k : Consuming) : Consuming :=
  let n := k_counters k in
  mkConsuming (k_core k) (k_conn k) (k_producer k)
    (mkConsumerCounters (kn_violations n + violations)
       ((kn_buffered_bytes n + buffered) mod 2 ^ 64)
       (kn_ack_deferrals n + deferrals) (kn_acks_immediate n + immediate)
       (kn_acks_popped n + popped) (kn_window_reserved n)).

Definition set_intake (i : Intake) (s : ConsumerState) : ConsumerState :=
  mkConsumerState i (ks_items s) (ks_waiting s) (ks_waker s) (ks_route s) (ks_terminal s)
    (ks_finished s).

Definition set_outcome (t : RpcError + unit) (s : ConsumerState) : ConsumerState :=
  mkConsumerState (ks_intake s) (ks_items s) (ks_waiting s) (ks_waker s) (ks_route s) (Some t)
    (ks_finished s).

(** [state.waker.take()] *)
Definition take_waker (s : ConsumerState) : ConsumerState * list Waker :=
  (mkConsumerState (ks_intake s) (ks_items s) (ks_waiting s) None (ks_route s) (ks_terminal s)
     (ks_finished s),
   match ks_waker s with Some w => [w] | None => [] end).

Definition sizes (items : list Item) : Z := total (it_size <$> items).

(** ** Operations *)

Definition ConsumerCore_buffered (k : Consuming) : Z := buffered (ks_intake (kstate k)).

Definition ConsumerCore_received (k : Consuming) : Z := Intake_items (ks_intake (kstate k)).

Definition fix_route (route : AckRoute) (s : ConsumerState) : ConsumerState :=
  match ks_route s with
  | Some _ => s
  | None =>
      mkConsumerState (ks_intake s) (ks_items s) (ks_waiting s) (ks_waker s) (Some route)
        (ks_terminal s) (ks_finished s)
  end.

Definition set_route (route : AckRoute) (k : Consuming) : Consuming :=
  with_kstate (fix_route route (kstate k)) k.

Definition violation_error (v : IntakeViolation) : RpcError :=
  RpcError_new (R_StreamProtocol (IntakeViolation_to_string v)) Executed.

(** [on_item]: accept item [sequence], arriving over [route]. *)
Definition on_item (route : AckRoute) (sequence codec : Z) (body : list byte) (k : Consuming) :
    Consuming * Intook * list Waker :=
  let size := stream_item_frame_len (len body) in
  match ks_terminal (kstate k) with
  | Some _ => (k, Accepted, [])
  | None =>
      let s := fix_route route (kstate k) in
      match accept (ks_intake s) sequence size with
      | (i, Err violation) =>
          let '(s, woken) := take_waker (set_outcome (inl (violation_error violation)) (set_intake i s)) in
          (count 1 0 0 0 0 (with_kstate s k), Violation violation, woken)
      | (i, _) =>
          let immediate := ks_waiting s && is_empty (ks_items s) in
          let s :=
            mkConsumerState i (ks_items s ++ [mkItem codec body size immediate]) false (ks_waker s)
              (ks_route s) (ks_terminal s) (ks_finished s) in
          let '(s, woken) := take_waker s in
          (count 0 size 0 0 0 (with_kstate s k), Accepted, woken)
      end
  end.

(** [weigh]: items that arrived prove the producer ran. *)
Definition weigh (s : ConsumerState) (error : RpcError) : RpcError :=
  if (0 <? Intake_items (ks_intake s)) && negb (bool_decide (execution error = Executed))
  then RpcError_new (reason error) Executed else error.

(** [on_end]: the producer's end, its item count checked. *)
Definition on_end (items : Z) (error : option RpcError) (k : Consuming) :
    Consuming * Intook * list Waker :=
  let s := kstate k in
  let outcome := Intake_end (ks_intake s) items in
  let k := match outcome with Err _ => count 1 0 0 0 0 k | _ => k end in
  let terminal :=
    match outcome, error with
    | Err violation, _ => inl (violation_error violation)
    | _, None => inr tt
    | _, Some error => inl (weigh s error)
    end in
  let s := match ks_terminal s with None => set_outcome terminal s | Some _ => s end in
  let '(s, woken) := take_waker s in
  (with_kstate s k,
   match outcome with Err violation => Violation violation | _ => Accepted end, woken).

(** [terminate]: a rejection, a disconnect, shutdown. *)
Definition consumer_terminate (error : RpcError) (k : Consuming) : Consuming * list Waker :=
  match ks_terminal (kstate k) with
  | Some _ => (k, [])
  | None =>
      let '(s, woken) := take_waker (set_outcome (inl (weigh (kstate k) error)) (kstate k)) in
      (with_kstate s k, woken)
  end.

Definition terminal_execution (k : Consuming) : option Execution :=
  match ks_terminal (kstate k) with
  | Some (inl error) => Some (execution error)
  | _ => None
  end.

Definition is_terminated (k : Consuming) : bool :=
  match ks_terminal (kstate k) with Some _ => true | None => false end.

Definition acknowledge (route : AckRoute) (consumed : Z) (k : Consuming) :
    Consuming * list Waker :=
  match route with
  | AckRemote =>
      (mkConsuming (k_core k) (signal_ack (kc_call_id (k_core k)) consumed <$> k_conn k)
         (k_producer k) (k_counters k), [])
  | AckLocal =>
      match k_producer k with
      | None => (k, [])
      | Some p =>
          let '(p, woken, _) := core_on_ack consumed p in
          (mkConsuming (k_core k) (k_conn k) (Some p) (k_counters k), woken)
      end
  end.

(** [poll_next]: the next item, the terminal error once, then [None]; an outer
    [None] is [Poll::Pending].  [buggify] is the draw of the deferral point. *)
Definition poll_next (buggify : bool) (cx : Waker) (k : Consuming) :
    Consuming * option Next * list Waker :=
  let s := kstate k in
  match ks_items s with
  | item :: items =>
      let '(i, consumed) := consume (ks_intake s) (it_size item) in
      let deferred := negb (is_empty items) && buggify in
      let k :=
        with_kstate (mkConsumerState i items false (ks_waker s) (ks_route s) (ks_terminal s)
                       (ks_finished s)) k in
      let k := count 0 (- it_size item) 0 0 0 k in
      let '(k, woken) :=
        if deferred then (count 0 0 1 0 0 k, []) else
        match ks_route s with
        | None => (k, [])
        | Some route =>
            acknowledge route consumed
              (if it_immediate item then count 0 0 0 1 0 k else count 0 0 0 0 1 k)
        end in
      (k, Some (Some (inr (it_codec item, it_body item))), woken)
  | [] =>
      match ks_terminal s with
      | Some (inr _) => (k, Some None, [])
      | Some (inl error) =>
          if ks_finished s then (k, Some None, []) else
          (with_kstate (mkConsumerState (ks_intake s) [] (ks_waiting s) (ks_waker s) (ks_route s)
                          (ks_terminal s) true) k, Some (Some (inl error)), [])
      | None =>
          (with_kstate (mkConsumerState (ks_intake s) [] true (Some cx) (ks_route s) (ks_terminal s)
                          (ks_finished s)) k, None, [])
      end
  end.

(** [fail_locally]: an item did not decode. *)
Definition fail_locally (error : RpcError) (k : Consuming) : Consuming :=
  let s := kstate k in
  count 0 (- sizes (ks_items s)) 0 0 0
    (with_kstate (mkConsumerState (ks_intake s) [] (ks_waiting s) (ks_waker s) (ks_route s)
                    (Some (inl error)) true) k).

(** [Drop]: what is buffered and the window go back to the budget. *)
Definition ConsumerCore_drop (k : Consuming) : ConsumerCounters :=
  let n := k_counters (count 0 (- sizes (ks_items (kstate k))) 0 0 0 k) in
  mkConsumerCounters (kn_violations n) (kn_buffered_bytes n) (kn_ack_deferrals n)
    (kn_acks_immediate n) (kn_acks_popped n)
    ((kn_window_reserved n - kc_window (k_core k)) mod 2 ^ 64).

(** ** The application's view

    [Watched] is a consumer with what happened so far: the items accepted, the
    items and errors polls returned, whether a poll returned the end, and
    whether the application gave the stream up ([fail_locally]). *)
Record Watched := mkWatched {
  wt_k : Consuming;
  wt_accepted : list (Z * list byte);
  wt_seen : list (Z * list byte);
  wt_errors : list RpcError;
  wt_over : bool;
  wt_failed : bool;
}.

Definition watch (k : Consuming) (w : Watched) : Watched :=
  mkWatched k (wt_accepted w) (wt_seen w) (wt_errors w) (wt_over w) (wt_failed w).

Definition observe (r : option Next) (w : Watched) : Watched :=
  match r with
  | None => w
  | Some None => mkWatched (wt_k w) (wt_accepted w) (wt_seen w) (wt_errors w) true (wt_failed w)
  | Some (Some (inr x)) =>
      mkWatched (wt_k w) (wt_accepted w) (wt_seen w ++ [x]) (wt_errors w) (wt_over w) (wt_failed w)
  | Some (Some (inl e)) =>
      mkWatched (wt_k w) (wt_accepted w) (wt_seen w) (wt_errors w ++ [e]) (wt_over w) (wt_failed w)
  end.

Definition took (accepted : bool) (x : Z * list byte) (w : Watched) : Watched :=
  mkWatched (wt_k w) (if accepted then wt_accepted w ++ [x] else wt_accepted w) (wt_seen w)
    (wt_errors w) (wt_over w) (wt_failed w).

Definition gave_up (w : Watched) : Watched :=
  mkWatched (wt_k w) (wt_accepted w) (wt_seen w) (wt_errors w) (wt_over w) true.

Section Watched.
Context `{Xxh3}.

Inductive watched_step : Watched → Watched → Prop :=
  | watched_route route w : watched_step w (watch (set_route route (wt_k w)) w)
  | watched_item route sequence codec body w k' r woken :
      on_item route sequence codec body (wt_k w) = (k', r, woken) →
      watched_step w
        (took (negb (is_terminated (wt_k w)) && match r with Accepted => true | _ => false end)
           (codec, body) (watch k' w))
  | watched_end items error w k' r woken :
      on_end items error (wt_k w) = (k', r, woken) → watched_step w (watch k' w)
  | watched_terminate error w k' woken :
      consumer_terminate error (wt_k w) = (k', woken) → watched_step w (watch k' w)
  | watched_poll buggify cx w k' r woken :
      poll_next buggify cx (wt_k w) = (k', r, woken) →
      watched_step w (observe r (watch k' w))
  | watched_fail error w :
      watched_step w (gave_up (watch (fail_locally error (wt_k w)) w))
  (* The connection and the local producer change, or go away. *)
  | watched_env conn producer w :
      watched_step w
        (watch (mkConsuming (k_core (wt_k w)) conn producer (k_counters (wt_k w))) w).

Definition size_of (x : Z * list byte) : Z := stream_item_frame_len (len (snd x)).

Definition contents (items : list Item) : list (Z * list byte) :=
  (λ i, (it_codec i, it_body i)) <$> items.

Record watched_ok (call_id window base : Z) (w : Watched) : Prop := {
  wo_call : kc_call_id (k_core (wt_k w)) = call_id;
  wo_core_window : kc_window (k_core (wt_k w)) = window;
  wo_window : in_window (ks_intake (kstate (wt_k w))) = window;
  wo_sizes : it_size <$> ks_items (kstate (wt_k w)) =
               size_of <$> contents (ks_items (kstate (wt_k w)));
  wo_bound : 0 ≤ in_consumed (ks_intake (kstate (wt_k w))) ∧
             in_received (ks_intake (kstate (wt_k w))) < 2 ^ 64 ∧
             0 ≤ buffered (ks_intake (kstate (wt_k w))) ≤ window;
  wo_next : in_next_sequence (ks_intake (kstate (wt_k w))) =
              Z.of_nat (length (wt_accepted w));
  wo_seen : wt_seen w `prefix_of` wt_accepted w;
  wo_accepted : wt_failed w = false →
    wt_accepted w = wt_seen w ++ contents (ks_items (kstate (wt_k w))) ∧
    in_consumed (ks_intake (kstate (wt_k w))) = total (size_of <$> wt_seen w) ∧
    buffered (ks_intake (kstate (wt_k w))) = sizes (ks_items (kstate (wt_k w)));
  wo_failed : wt_failed w = true → ks_finished (kstate (wt_k w)) = true;
  wo_errors : (length (wt_errors w) ≤ 1)%nat ∧
              (wt_errors w ≠ [] → ks_finished (kstate (wt_k w)) = true);
  wo_finished : ks_finished (kstate (wt_k w)) = true →
    ks_items (kstate (wt_k w)) = [] ∧ ∃ e, ks_terminal (kstate (wt_k w)) = Some (inl e);
  wo_over : wt_over w = true →
    ks_items (kstate (wt_k w)) = [] ∧
    (ks_terminal (kstate (wt_k w)) = Some (inr tt) ∨ ks_finished (kstate (wt_k w)) = true);
  wo_executed e : wt_failed w = false → wt_accepted w ≠ [] →
    ks_terminal (kstate (wt_k w)) = Some (inl e) → execution e = Executed;
  wo_told e : wt_failed w = false → e ∈ wt_errors w →
    ks_terminal (kstate (wt_k w)) = Some (inl e);
  wo_budget : kn_buffered_bytes (k_counters (wt_k w)) =
                (base + sizes (ks_items (kstate (wt_k w)))) mod 2 ^ 64;
}.

(** ** The steps keep the invariant *)

Lemma accept_shape i sequence size :
  match accept i sequence size with
  | (i', Ok _) =>
      sequence = in_next_sequence i ∧ in_window i' = in_window i ∧
      in_next_sequence i' = in_next_sequence i + 1 ∧ in_received i' = in_received i + size ∧
      in_received i' < 2 ^ 64 ∧ in_consumed i' = in_consumed i ∧ buffered i' ≤ in_window i
  | (i', Err _) => i' = i
  | (_, Panic) => False
  end.
Proof.
  unfold accept, checked_add64, in_u, u64_max, buffered.
  destruct (Z.ltb_spec (in_next_sequence i) sequence); [done|].
  destruct (Z.ltb_spec sequence (in_next_sequence i)); [done|].
  destruct (Z.leb_spec (in_received i + size) (2 ^ 64 - 1)); [|done].
  destruct (Z.leb_spec (in_next_sequence i + 1) (2 ^ 64 - 1)); [|done].
  destruct (Z.ltb_spec (in_window i) (in_received i + size - in_consumed i)); [done|].
  cbn. split_and!; lia.
Qed.

Lemma stream_item_frame_len_pos (body : list byte) : 0 < stream_item_frame_len (len body).
Proof. unfold stream_item_frame_len, stream_item_envelope_len, HEADER_LEN, u64_max, len. lia. Qed.

Lemma sizes_app a b : sizes (a ++ b) = sizes a + sizes b.
Proof. unfold sizes. by rewrite fmap_app, total_app. Qed.

Lemma contents_app a b : contents (a ++ b) = contents a ++ contents b.
Proof. apply fmap_app. Qed.

Lemma weigh_executed s e :
  0 < in_next_sequence (ks_intake s) → execution (weigh s e) = Executed.
Proof.
  intros Hn. unfold weigh, Intake_items. destruct (Z.ltb_spec 0 (in_next_sequence (ks_intake s))); [|lia].
  by case_bool_decide.
Qed.

Lemma counted_nothing call_id window base w :
  watched_ok call_id window base w →
  (kn_buffered_bytes (k_counters (wt_k w)) + 0) mod 2 ^ 64 =
    kn_buffered_bytes (k_counters (wt_k w)).
Proof. intros Hok. by rewrite Z.add_0_r, (wo_budget _ _ _ _ Hok), Z.mod_mod. Qed.

(** A call that changes neither the items, the intake nor the outcome. *)
Lemma watched_same call_id window base w k' :
  watched_ok call_id window base w →
  kc_call_id (k_core k') = kc_call_id (k_core (wt_k w)) →
  kc_window (k_core k') = kc_window (k_core (wt_k w)) →
  ks_intake (kstate k') = ks_intake (kstate (wt_k w)) →
  ks_items (kstate k') = ks_items (kstate (wt_k w)) →
  ks_terminal (kstate k') = ks_terminal (kstate (wt_k w)) →
  ks_finished (kstate k') = ks_finished (kstate (wt_k w)) →
  kn_buffered_bytes (k_counters k') = kn_buffered_bytes (k_counters (wt_k w)) →
  watched_ok call_id window base (watch k' w).
Proof.
  intros [] E1 E2 E3 E4 E5 E6 E7. constructor; cbn; rewrite ?E1, ?E2, ?E3, ?E4, ?E5, ?E6, ?E7; done.
Qed.

(** The outcome becomes known. *)
Lemma watched_outcome call_id window base w k' t :
  watched_ok call_id window base w →
  ks_terminal (kstate (wt_k w)) = None →
  kc_call_id (k_core k') = kc_call_id (k_core (wt_k w)) →
  kc_window (k_core k') = kc_window (k_core (wt_k w)) →
  ks_intake (kstate k') = ks_intake (kstate (wt_k w)) →
  ks_items (kstate k') = ks_items (kstate (wt_k w)) →
  ks_terminal (kstate k') = Some t →
  ks_finished (kstate k') = ks_finished (kstate (wt_k w)) →
  kn_buffered_bytes (k_counters k') = kn_buffered_bytes (k_counters (wt_k w)) →
  (∀ e, t = inl e → 0 < in_next_sequence (ks_intake (kstate (wt_k w))) → execution e = Executed) →
  watched_ok call_id window base (watch k' w).
Proof.
  intros Hok Et E1 E2 E3 E4 E5 E6 E7 Hx. pose proof Hok as [].
  assert (ks_finished (kstate (wt_k w)) = false) as Hnf.
  { destruct (ks_finished (kstate (wt_k w))); [|done].
    destruct (wo_finished0 eq_refl) as [_ [e E]]. congruence. }
  constructor; cbn; rewrite ?E1, ?E2, ?E3, ?E4, ?E5, ?E6, ?E7; try done.
  - by rewrite Hnf.
  - intros Ho. destruct (wo_over0 Ho) as [_ [?|?]]; congruence.
  - intros e _ Hne [= ->]. apply (Hx e eq_refl). rewrite wo_next0.
    destruct (wt_accepted w); [done|]. cbn. lia.
  - intros e _ Hin. destruct wo_errors0 as [_ He].
    rewrite Hnf in He. destruct (wt_errors w); [by apply elem_of_nil in Hin|].
    by specialize (He ltac:(done)).
Qed.

(** An item is accepted. *)
Lemma watched_accepted call_id window base w k' codec body i' immediate :
  watched_ok call_id window base w →
  ks_terminal (kstate (wt_k w)) = None →
  accept (ks_intake (kstate (wt_k w))) (in_next_sequence (ks_intake (kstate (wt_k w))))
    (stream_item_frame_len (len body)) = (i', Ok tt) →
  kc_call_id (k_core k') = kc_call_id (k_core (wt_k w)) →
  kc_window (k_core k') = kc_window (k_core (wt_k w)) →
  ks_intake (kstate k') = i' →
  ks_items (kstate k') = ks_items (kstate (wt_k w)) ++
    [mkItem codec body (stream_item_frame_len (len body)) immediate] →
  ks_terminal (kstate k') = None →
  ks_finished (kstate k') = ks_finished (kstate (wt_k w)) →
  kn_buffered_bytes (k_counters k') =
    (kn_buffered_bytes (k_counters (wt_k w)) + stream_item_frame_len (len body)) mod 2 ^ 64 →
  watched_ok call_id window base (took true (codec, body) (watch k' w)).
Proof.
  intros Hok Et Ea E1 E2 E3 E4 E5 E6 E7. pose proof Hok as [].
  pose proof (accept_shape (ks_intake (kstate (wt_k w)))
    (in_next_sequence (ks_intake (kstate (wt_k w)))) (stream_item_frame_len (len body))) as A.
  rewrite Ea in A. destruct A as (_ & A1 & A2 & A3 & A4 & A5 & A6).
  pose proof (stream_item_frame_len_pos body) as Hp.
  assert (ks_finished (kstate (wt_k w)) = false) as Hnf.
  { destruct (ks_finished (kstate (wt_k w))); [|done].
    destruct (wo_finished0 eq_refl) as [_ [e E]]. congruence. }
  constructor; cbn; rewrite ?E1, ?E2, ?E3, ?E4, ?E5, ?E6, ?E7; try done.
  - congruence.
  - rewrite contents_app, !fmap_app, wo_sizes0. done.
  - rewrite A5. unfold buffered in *. rewrite A3, A5 in *. lia.
  - rewrite A2, wo_next0, length_app. cbn. lia.
  - by apply prefix_app_r.
  - intros Hf. destruct (wo_accepted0 Hf) as (F1 & F2 & F3).
    rewrite contents_app, app_assoc, <- F1, A5, sizes_app. split_and!; [done..|].
    unfold buffered in *. rewrite A3, A5. unfold sizes at 2. cbn. lia.
  - by rewrite Hnf.
  - intros Ho. destruct (wo_over0 Ho) as [_ [?|?]]; congruence.
  - intros e _ Hin. destruct wo_errors0 as [_ He]. rewrite Hnf in He.
    destruct (wt_errors w); [by apply elem_of_nil in Hin|]. by specialize (He ltac:(done)).
  - rewrite sizes_app, wo_budget0, Zplus_mod_idemp_l. f_equal. unfold sizes at 3. cbn. lia.
Qed.

Lemma on_item_ok call_id window base route sequence codec body w k' r woken :
  watched_ok call_id window base w →
  on_item route sequence codec body (wt_k w) = (k', r, woken) →
  watched_ok call_id window base
    (took (negb (is_terminated (wt_k w)) && match r with Accepted => true | _ => false end)
       (codec, body) (watch k' w)).
Proof.
  intros Hok. unfold on_item, is_terminated.
  destruct (ks_terminal (kstate (wt_k w))) as [t|] eqn:Et.
  { intros [= <- <- <-]. by destruct w. }
  set (s := fix_route route (kstate (wt_k w))).
  assert (ks_intake s = ks_intake (kstate (wt_k w)) ∧ ks_items s = ks_items (kstate (wt_k w)) ∧
          ks_terminal s = None ∧ ks_finished s = ks_finished (kstate (wt_k w)))
    as (S1 & S2 & S3 & S4).
  { unfold s, fix_route. destruct (ks_route _); done. }
  rewrite S1. pose proof (accept_shape (ks_intake (kstate (wt_k w))) sequence
    (stream_item_frame_len (len body))) as A.
  destruct (accept _ _ _) as [i' [[]|v|]] eqn:Ea; [| |done].
  - destruct A as (-> & _). intros [= <- <- <-]. cbn [negb andb].
    eapply (watched_accepted _ _ _ _ _ _ _ i' _ Hok Et Ea); cbn; try done; by rewrite ?S2.
  - subst i'. intros [= <- <- <-]. cbn [negb andb].
    apply (watched_outcome call_id window base w _ (inl (violation_error v))); try done; cbn.
    + by apply (counted_nothing call_id window base).
    + by intros e [= <-].
Qed.

Lemma on_end_ok call_id window base items error w k' r woken :
  watched_ok call_id window base w →
  on_end items error (wt_k w) = (k', r, woken) → watched_ok call_id window base (watch k' w).
Proof.
  intros Hok. unfold on_end, Intake_end.
  pose proof (counted_nothing _ _ _ _ Hok) as Hc.
  destruct (ks_terminal (kstate (wt_k w))) as [t|] eqn:Et.
  - destruct (items =? _); intros [= <- <- <-];
      by apply (watched_same call_id window base w).
  - destruct (items =? _); [destruct error as [error|]|]; intros [= <- <- <-];
      eapply (watched_outcome call_id window base w); try done.
    + intros e [= <-]. apply weigh_executed.
    + by intros e [= <-].
Qed.

Lemma consumer_terminate_ok call_id window base error w k' woken :
  watched_ok call_id window base w →
  consumer_terminate error (wt_k w) = (k', woken) → watched_ok call_id window base (watch k' w).
Proof.
  intros Hok. unfold consumer_terminate.
  destruct (ks_terminal (kstate (wt_k w))) as [t|] eqn:Et; intros [= <- <-].
  - by destruct w.
  - eapply (watched_outcome call_id window base w); try done.
    intros e [= <-]. apply weigh_executed.
Qed.

Lemma fail_locally_ok call_id window base error w :
  watched_ok call_id window base w →
  watched_ok call_id window base (gave_up (watch (fail_locally error (wt_k w)) w)).
Proof.
  intros []. constructor; cbn; try done.
  - split; [by destruct wo_errors0|done].
  - by split; [|eexists].
  - by intros; split; [|right].
  - rewrite wo_budget0, Zplus_mod_idemp_l. f_equal. lia.
Qed.

(** What [acknowledge] leaves alone. *)
Lemma acknowledge_core route consumed k :
  k_core (fst (acknowledge route consumed k)) = k_core k ∧
  k_counters (fst (acknowledge route consumed k)) = k_counters k.
Proof.
  unfold acknowledge. destruct route; [done|]. destruct (k_producer k) as [p|]; [|done].
  by destruct (core_on_ack consumed p) as [[? ?] ?].
Qed.

(** The poll takes an item: the state and the counter after it. *)
Lemma poll_next_item buggify cx k item items :
  ks_items (kstate k) = item :: items →
  let '(k', r, _) := poll_next buggify cx k in
  r = Some (Some (inr (it_codec item, it_body item))) ∧
  k_core k' =
    mkConsumerCore (kc_call_id (k_core k)) (kc_window (k_core k))
      (mkConsumerState (fst (consume (ks_intake (kstate k)) (it_size item))) items false
         (ks_waker (kstate k)) (ks_route (kstate k)) (ks_terminal (kstate k))
         (ks_finished (kstate k))) ∧
  kn_buffered_bytes (k_counters k') =
    (kn_buffered_bytes (k_counters k) - it_size item) mod 2 ^ 64.
Proof.
  intros E. unfold poll_next. rewrite E. destruct (consume _ _) as [i consumed].
  assert (∀ x, ((x mod 2 ^ 64) + 0) mod 2 ^ 64 = x mod 2 ^ 64) as Hm.
  { intros x. by rewrite Z.add_0_r, Z.mod_mod. }
  destruct (negb (is_empty items) && buggify); [by split_and!; cbn; rewrite ?Hm|].
  destruct (ks_route (kstate k)) as [route|]; [|done].
  set (k0 := if it_immediate item then _ else _).
  pose proof (acknowledge_core route consumed k0) as [A1 A2].
  destruct (acknowledge route consumed k0) as [k1 wk]. cbn [fst] in A1, A2.
  rewrite A1, A2. split_and!; [done|unfold k0; by destruct (it_immediate item)|].
  unfold k0. destruct (it_immediate item); cbn; by rewrite Hm.
Qed.

Lemma poll_item_ok call_id window base buggify cx w item items k' r woken :
  watched_ok call_id window base w →
  ks_items (kstate (wt_k w)) = item :: items →
  poll_next buggify cx (wt_k w) = (k', r, woken) →
  watched_ok call_id window base (observe r (watch k' w)).
Proof.
  intros Hok E Ep. pose proof (poll_next_item buggify cx (wt_k w) item items E) as P.
  rewrite Ep in P. destruct P as (-> & Ec & En). pose proof Hok as [].
  assert (ks_finished (kstate (wt_k w)) = false) as Hnf.
  { destruct (ks_finished (kstate (wt_k w))); [|done].
    destruct (wo_finished0 eq_refl) as [? _]. congruence. }
  assert (wt_failed w = false) as Hf.
  { destruct (wt_failed w); [|done]. by rewrite wo_failed0 in Hnf. }
  destruct (wo_accepted0 Hf) as (F1 & F2 & F3). rewrite E in *.
  cbn in wo_sizes0. injection wo_sizes0 as Hz1 Hz2.
  assert (0 < it_size item) as Hp by (rewrite Hz1; apply stream_item_frame_len_pos).
  assert (0 ≤ sizes items) as Hn.
  { apply total_nonneg, Forall_forall. rewrite Hz2. intros x (y & -> & _)%list_elem_of_fmap.
    apply stream_item_frame_len_pos. }
  assert (sizes (item :: items) = it_size item + sizes items) as Es by done.
  set (i := ks_intake (kstate (wt_k w))) in *.
  assert (fst (consume i (it_size item)) =
          mkIntake (in_window i) (in_next_sequence i) (in_received i)
            (in_consumed i + it_size item)) as Hi.
  { unfold consume, buffered, u64_max in *; cbn. f_equal. lia. }
  rewrite Hi in Ec. unfold kstate in *.
  constructor; cbn [watch observe wt_k wt_accepted wt_seen wt_errors wt_over wt_failed];
    unfold kstate; rewrite ?Ec, ?En;
    cbn [kc_call_id kc_window kc_state ks_intake ks_items ks_terminal ks_finished in_window
         in_next_sequence in_received in_consumed]; try done.
  - unfold buffered in *; cbn. lia.
  - rewrite F1. apply prefix_app. apply prefix_cons, prefix_nil.
  - intros _. rewrite F1, F2, <- app_assoc, fmap_app, total_app. split_and!; [done| |].
    + cbn. rewrite Hz1. lia.
    + unfold buffered in *; cbn. lia.
  - by rewrite Hnf.
  - intros Ho. by destruct (wo_over0 Ho) as [? _].
  - rewrite wo_budget0, Es, Zminus_mod_idemp_l. f_equal. lia.
Qed.

(** The poll finds nothing to take. *)
Lemma poll_empty_ok call_id window base buggify cx w k' r woken :
  watched_ok call_id window base w →
  ks_items (kstate (wt_k w)) = [] →
  poll_next buggify cx (wt_k w) = (k', r, woken) →
  watched_ok call_id window base (observe r (watch k' w)).
Proof.
  intros Hok E. unfold poll_next. rewrite E.
  destruct (ks_terminal (kstate (wt_k w))) as [[e|[]]|] eqn:Et.
  - destruct (ks_finished (kstate (wt_k w))) eqn:Ef; intros [= <- <- <-]; cbn [observe];
      pose proof Hok as [].
    + constructor; cbn; try done. intros _. by split; [|right].
    + assert (wt_errors w = []) as He.
      { destruct wo_errors0 as [_ He]. rewrite Ef in He. destruct (wt_errors w); [done|].
        by specialize (He ltac:(done)). }
      rewrite E in *. constructor; cbn; rewrite ?Et, ?He; try done; try (by eauto).
      * intros e' Hf Ha [= <-]. by apply wo_executed0.
      * intros e' _. by intros ->%list_elem_of_singleton.
  - intros [= <- <- <-]. pose proof Hok as []. constructor; cbn; try done.
    intros _. by split; [|left].
  - intros [= <- <- <-]. by apply (watched_same call_id window base w).
Qed.

Lemma watched_step_ok call_id window base w w' :
  watched_ok call_id window base w → watched_step w w' → watched_ok call_id window base w'.
Proof.
  intros Hok St. destruct St.
  - apply (watched_same call_id window base w); try done; cbn; unfold fix_route; by case_match.
  - by eapply on_item_ok.
  - by eapply on_end_ok.
  - by eapply consumer_terminate_ok.
  - destruct (ks_items (kstate (wt_k w))) as [|item items] eqn:E.
    + by eapply poll_empty_ok.
    + by eapply poll_item_ok.
  - by apply fail_locally_ok.
  - by apply (watched_same call_id window base w).
Qed.

(** A consumer as the runtime creates it, with [base] bytes buffered by the
    runtime's other streams. *)
Definition watched_new (call_id window base : Z) (k : Consuming) : Prop :=
  k_core k = ConsumerCore_new call_id window ∧ 0 ≤ window ∧ u64 base ∧
  kn_buffered_bytes (k_counters k) = base.

Lemma watched_reachable call_id window base k w :
  watched_new call_id window base k →
  rtc watched_step (mkWatched k [] [] [] false false) w → watched_ok call_id window base w.
Proof.
  intros (Ec & Hw & Hb & Ek) Hr.
  assert (watched_ok call_id window base (mkWatched k [] [] [] false false)) as H0.
  { constructor; cbn; unfold kstate; rewrite ?Ec; cbn; try done.
    - split; [lia|done].
    - intros e _ Hin. by apply elem_of_nil in Hin.
    - rewrite Ek. unfold sizes; cbn. rewrite Z.add_0_r, Z.mod_small by done. done. }
  clear Ec Ek. induction Hr as [|x y z Hs _ IH]; [done|]. apply IH. by eapply watched_step_ok.
Qed.

(** ** Theorems *)

(** C24: a consumer observes a stream in order and exactly one end: whatever
    arrives (items out of order, late, beyond the window, ends with wrong
    counts, disconnects) and however the application polls, the items it
    sees are the accepted ones in order; it sees at most one error; an error
    or the end comes only after every accepted item (unless the application
    itself gave the stream up), an error after an accepted item says the
    call executed; afterwards every poll returns the end; and once the
    outcome is known no poll waits. *)
Theorem consumer_observes_in_order call_id window base k w :
  watched_new call_id window base k →
  rtc watched_step (mkWatched k [] [] [] false false) w →
  wt_seen w `prefix_of` wt_accepted w ∧ (length (wt_errors w) ≤ 1)%nat ∧
  (wt_over w = true ∨ wt_errors w ≠ [] →
     (wt_failed w = false → wt_seen w = wt_accepted w) ∧
     ∀ buggify cx, poll_next buggify cx (wt_k w) = (wt_k w, Some None, [])) ∧
  (∀ e, wt_failed w = false → e ∈ wt_errors w → wt_accepted w ≠ [] → execution e = Executed) ∧
  (is_terminated (wt_k w) = true →
     ∀ buggify cx, snd (fst (poll_next buggify cx (wt_k w))) ≠ None).
Proof.
  intros Hn Hr. pose proof (watched_reachable _ _ _ _ _ Hn Hr) as Hok. pose proof Hok as [].
  split_and!; [done|by destruct wo_errors0| | |].
  - intros Ho.
    assert (ks_items (kstate (wt_k w)) = [] ∧
            (ks_terminal (kstate (wt_k w)) = Some (inr tt) ∨
             ks_finished (kstate (wt_k w)) = true)) as [Ei Ht].
    { destruct Ho as [Ho|Ho]; [by apply wo_over0|]. destruct wo_errors0 as [_ He].
      specialize (He Ho). split; [by apply wo_finished0|by right]. }
    split.
    + intros Hf. destruct (wo_accepted0 Hf) as (-> & _). rewrite Ei. cbn. by rewrite app_nil_r.
    + intros buggify cx. unfold poll_next. rewrite Ei.
      destruct Ht as [->|Hfin]; [done|]. destruct (wo_finished0 Hfin) as [_ [e ->]].
      by rewrite Hfin.
  - intros e Hf He Ha. by apply wo_executed0, wo_told0.
  - unfold is_terminated. intros Ht buggify cx.
    destruct (ks_items (kstate (wt_k w))) as [|item items] eqn:E.
    + unfold poll_next. rewrite E. destruct (ks_terminal _) as [[e|[]]|]; [|done..].
      by destruct (ks_finished _).
    + pose proof (poll_next_item buggify cx (wt_k w) item items E) as P.
      destruct (poll_next buggify cx (wt_k w)) as [[k' r] wk]. by destruct P as (-> & _).
Qed.

(** Credit is earned by taking, never by receiving: the counter a consumer
    acknowledges is the framed size of exactly the items the application
    took, what it buffers stays within the announced window, a poll that
    takes an item signals that counter to the connection unless the
    acknowledgement is deferred with another item behind it, and dropping the
    consumer gives the runtime's buffer budget back what it holds. *)
Theorem consumer_credit_earned_by_taking call_id window base k w :
  watched_new call_id window base k →
  rtc watched_step (mkWatched k [] [] [] false false) w →
  0 ≤ buffered (ks_intake (kstate (wt_k w))) ≤ window ∧
  kn_buffered_bytes (ConsumerCore_drop (wt_k w)) = base ∧
  (wt_failed w = false →
     in_consumed (ks_intake (kstate (wt_k w))) = total (size_of <$> wt_seen w) ∧
     ∀ buggify cx x k' woken,
       poll_next buggify cx (wt_k w) = (k', Some (Some (inr x)), woken) →
       ks_route (kstate (wt_k w)) = Some AckRemote →
       k_conn k' =
         if buggify && negb (is_empty (ks_items (kstate k'))) then k_conn (wt_k w)
         else signal_ack call_id (total (size_of <$> wt_seen w ++ [x])) <$> k_conn (wt_k w)).
Proof.
  intros Hn Hr. pose proof (watched_reachable _ _ _ _ _ Hn Hr) as Hok. pose proof Hok as [].
  destruct Hn as (_ & _ & Hb & _).
  split_and!; [by apply wo_bound0..| |].
  - cbn. rewrite wo_budget0, Zplus_mod_idemp_l, Z.mod_small; [lia|].
    unfold in_u in Hb. lia.
  - intros Hf. destruct (wo_accepted0 Hf) as (F1 & F2 & F3). split; [done|].
    intros buggify cx x k' woken Hp Hroute.
    assert (watched_ok call_id window base (observe (Some (Some (inr x))) (watch k' w))) as [].
    { eapply watched_step_ok; [exact Hok|]. by eapply watched_poll. }
    destruct (wo_accepted1 Hf) as (_ & G2 & _). cbn [observe watch wt_k wt_seen] in G2.
    unfold poll_next in Hp. rewrite Hroute in Hp.
    destruct (ks_items (kstate (wt_k w))) as [|item items] eqn:E.
    { destruct (ks_terminal _) as [[e|[]]|]; [destruct (ks_finished _)| |]; simplify_eq. }
    destruct (consume _ _) as [i consumed] eqn:Ec. rewrite andb_comm in Hp.
    assert (in_consumed i = consumed) as Hi by (unfold consume in Ec; by simplify_eq).
    destruct (buggify && negb (is_empty items)) eqn:Ed; [|destruct (it_immediate item)];
      injection Hp as <- _ _; cbn in *; rewrite Ed; try done; by rewrite <- G2, Hi, wo_call0.
Qed.

End Watched.
