(* ===== verification/Registry.v ===== *)
(** Endpoint identity and the registry of dynamic endpoints
    (moonpool-rpc/src/endpoint/mod.rs and endpoint/registry.rs).

    A registry is a vector of slots with a free list; a token is a slot index
    and the generation the slot had.  [reg_spec] is what the registry
    promises: a map from tokens to values whose tokens are issued once and
    never again. *)
From stdpp Require Import base list numbers gmap.
From S2P Require Import Prelude Cursor.

(** ** Identity *)

Definition WELL_KNOWN_BIT : Z := Z.shiftl 1 63.

Record EndpointToken := from_parts { et_index : Z; et_generation : Z }.

#[global] Instance EndpointToken_eq_dec : EqDecision EndpointToken.
Proof. solve_decision. Defined.
#[global] Instance EndpointToken_countable : Countable EndpointToken.
Proof.
  apply (inj_countable' (λ t, (et_index t, et_generation t)) (λ p, from_parts (fst p) (snd p))).
  by intros [].
Defined.

Definition well_known (id : Z) : EndpointToken := from_parts (Z.lor WELL_KNOWN_BIT id) 0.

Definition is_well_known (t : EndpointToken) : bool :=
  negb (Z.land (et_index t) WELL_KNOWN_BIT =? 0).

(** [index & !WELL_KNOWN_BIT], narrowed to 32 bits. *)
Definition well_known_id (t : EndpointToken) : option Z :=
  if is_well_known t then
    let id := Z.land (et_index t) (2 ^ 64 - 1 - WELL_KNOWN_BIT) in
    if id <=? 2 ^ 32 - 1 then Some id else None
  else None.

Inductive AccessClass := Private | Public.

Definition AccessClass_to_byte (c : AccessClass) : Z :=
  match c with Private => 0 | Public => 1 end.

Definition AccessClass_from_byte (b : Z) : option AccessClass :=
  if b =? 0 then Some Private else if b =? 1 then Some Public else None.

Record Endpoint := mkEndpoint {
  ep_address : SocketAddr;
  ep_incarnation : Z;
  ep_token : EndpointToken;
}.

#[global] Instance Endpoint_eq_dec : EqDecision Endpoint.
Proof. solve_decision. Defined.

(** ** The registry *)

Inductive RegistryError := RegistryFull.

(** [usize::try_from] of a [u64], on a 64-bit target. *)
Definition usize_from (index : Z) : option nat :=
  if (0 <=? index) && (index <? 2 ^ 64) then Some (Z.to_nat index) else None.

Section Registry.
Context {T : Type}.

Record Slot := mkSlot { sl_generation : Z; sl_value : option T }.

Record Registry := mkRegistry {
  rg_slots : list Slot;
  rg_free : list Z;         (* most recently freed last *)
  rg_live : Z;
  rg_max_live : Z;
}.

Definition Registry_new (max_live : Z) : Registry := mkRegistry [] [] 0 max_live.

Definition slot_at (slots : list Slot) (index : Z) : option Slot :=
  n ← usize_from index; slots !! n.

(** [Vec::pop] *)
Definition vec_pop (l : list Z) : option (list Z * Z) :=
  x ← last l; Some (removelast l, x).

Definition Registry_insert (value : T) (r : Registry) :
    Registry * res RegistryError EndpointToken :=
  if rg_max_live r <=? rg_live r then (r, Err RegistryFull) else
  let picked :=
    match vec_pop (rg_free r) with
    | Some (free, index) => Some (rg_slots r, free, index)
    | None =>
        let index := Z.of_nat (length (rg_slots r)) in
        if is_well_known (from_parts index 0) then None
        else Some (rg_slots r ++ [mkSlot 0 None], rg_free r, index)
    end in
  match picked with
  | None => (r, Err RegistryFull)
  | Some (slots, free, index) =>
      match slot_at slots index with
      | None => (mkRegistry slots free (rg_live r) (rg_max_live r), Err RegistryFull)
      | Some slot =>
          match sl_value slot with
          | Some _ => (mkRegistry slots free (rg_live r) (rg_max_live r), Panic)
          | None =>
              (mkRegistry (<[Z.to_nat index := mkSlot (sl_generation slot) (Some value)]> slots) free
                 (rg_live r + 1) (rg_max_live r),
               Ok (from_parts index (sl_generation slot)))
          end
      end
  end.

Definition Registry_get (r : Registry) (t : EndpointToken) : option T :=
  slot ← slot_at (rg_slots r) (et_index t);
  if sl_generation slot =? et_generation t then sl_value slot else None.

(** A write through [get_mut]. *)
Definition Registry_update (t : EndpointToken) (f : T → T) (r : Registry) : Registry :=
  match slot_at (rg_slots r) (et_index t) with
  | Some slot =>
      if sl_generation slot =? et_generation t then
        mkRegistry
          (<[Z.to_nat (et_index t) := mkSlot (sl_generation slot) (f <$> sl_value slot)]> (rg_slots r))
          (rg_free r) (rg_live r) (rg_max_live r)
      else r
  | None => r
  end.

Definition Registry_remove (t : EndpointToken) (r : Registry) : Registry * option T :=
  match slot_at (rg_slots r) (et_index t) with
  | None => (r, None)
  | Some slot =>
      if negb (sl_generation slot =? et_generation t) then (r, None) else
      match sl_value slot with
      | None => (r, None)
      | Some value =>
          if sl_generation slot + 1 <=? 2 ^ 32 - 1
          then (mkRegistry
                  (<[Z.to_nat (et_index t) := mkSlot (sl_generation slot + 1) None]> (rg_slots r))
                  (rg_free r ++ [et_index t]) (rg_live r - 1) (rg_max_live r), Some value)
          else (mkRegistry (<[Z.to_nat (et_index t) := mkSlot (sl_generation slot) None]> (rg_slots r))
                  (rg_free r) (rg_live r - 1) (rg_max_live r), Some value)
      end
  end.

Definition live_tokens (slots : list Slot) : list EndpointToken :=
  omap id
    (imap (λ index slot,
       match sl_value slot with
       | Some _ => Some (from_parts (Z.of_nat index) (sl_generation slot))
       | None => None
       end) slots).

(** [filter_map(|token| self.remove(token))] *)
Fixpoint remove_each (tokens : list EndpointToken) (r : Registry) : Registry * list T :=
  match tokens with
  | [] => (r, [])
  | t :: tokens =>
      let '(r, v) := Registry_remove t r in
      let '(r, vs) := remove_each tokens r in
      (r, match v with Some v => v :: vs | None => vs end)
  end.

Definition Registry_drain (r : Registry) : Registry * list T :=
  remove_each (live_tokens (rg_slots r)) r.

End Registry.
Arguments Registry : clear implicits.
Arguments Slot : clear implicits.

(** ** What the registry promises *)

Section Spec.
Context {T : Type}.

Inductive RegOp :=
  | OpInsert (value : T)
  | OpRemove (t : EndpointToken)
  | OpUpdate (t : EndpointToken) (f : T → T)
  | OpDrain.

Inductive RegResult :=
  | ResToken (r : res RegistryError EndpointToken)
  | ResValue (v : option T)
  | ResUnit
  | ResValues (vs : list T).

Definition reg_exec (o : RegOp) (r : Registry T) : Registry T * RegResult :=
  match o with
  | OpInsert value => let '(r, t) := Registry_insert value r in (r, ResToken t)
  | OpRemove t => let '(r, v) := Registry_remove t r in (r, ResValue v)
  | OpUpdate t f => (Registry_update t f r, ResUnit)
  | OpDrain => let '(r, vs) := Registry_drain r in (r, ResValues vs)
  end.

Fixpoint reg_run (ops : list RegOp) (r : Registry T) : Registry T * list RegResult :=
  match ops with
  | [] => (r, [])
  | o :: ops =>
      let '(r, x) := reg_exec o r in
      let '(r, xs) := reg_run ops r in (r, x :: xs)
  end.

(** The abstract registry: the live endpoints and every token ever issued. *)
Record Directory := mkDirectory {
  dir_live : gmap EndpointToken T;
  dir_issued : gset EndpointToken;
}.

Inductive reg_spec (max : Z) : Directory → RegOp → RegResult → Directory → Prop :=
  | spec_insert d value t :
      t ∉ dir_issued d → Z.of_nat (size (dir_live d)) < max → is_well_known t = false →
      reg_spec max d (OpInsert value) (ResToken (Ok t))
        (mkDirectory (<[t := value]> (dir_live d)) ({[t]} ∪ dir_issued d))
  | spec_full d value :
      max ≤ Z.of_nat (size (dir_live d)) ∨ 2 ^ 63 ≤ Z.of_nat (size (dir_issued d)) →
      reg_spec max d (OpInsert value) (ResToken (Err RegistryFull)) d
  | spec_remove d t :
      reg_spec max d (OpRemove t) (ResValue (dir_live d !! t))
        (mkDirectory (delete t (dir_live d)) (dir_issued d))
  | spec_update d t f :
      reg_spec max d (OpUpdate t f) ResUnit
        (mkDirectory (alter f t (dir_live d)) (dir_issued d))
  | spec_drain d vs :
      vs ≡ₚ (map_to_list (dir_live d)).*2 →
      reg_spec max d OpDrain (ResValues vs) (mkDirectory ∅ (dir_issued d)).

Inductive spec_run (max : Z) : Directory → list RegOp → list RegResult → Directory → Prop :=
  | spec_run_nil d : spec_run max d [] [] d
  | spec_run_cons d o x d1 ops xs d2 :
      reg_spec max d o x d1 → spec_run max d1 ops xs d2 →
      spec_run max d (o :: ops) (x :: xs) d2.

(** ** The simulation relation *)

Record reg_sim (r : Registry T) (d : Directory) : Prop := {
  rs_get t : Registry_get r t = dir_live d !! t;
  rs_live : rg_live r = Z.of_nat (size (dir_live d));
  rs_slots : Z.of_nat (length (rg_slots r)) ≤ 2 ^ 63;
  rs_count : (length (rg_slots r) ≤ size (dir_issued d))%nat;
  rs_free_nodup : NoDup (rg_free r);
  rs_free index : index ∈ rg_free r →
    ∃ slot, slot_at (rg_slots r) index = Some slot ∧ sl_value slot = None;
  rs_issued t : t ∈ dir_issued d →
    ∃ slot, slot_at (rg_slots r) (et_index t) = Some slot ∧
      (et_generation t < sl_generation slot ∨
       et_generation t = sl_generation slot ∧ et_index t ∉ rg_free r);
}.

Lemma usize_from_Some index n :
  usize_from index = Some n ↔ index = Z.of_nat n ∧ Z.of_nat n < 2 ^ 64.
Proof.
  unfold usize_from. destruct (Z.leb_spec 0 index), (Z.ltb_spec index (2 ^ 64)); cbn;
    (split; [intros E; try discriminate E; injection E as <-|intros [-> ?]; try lia]).
  - rewrite Z2Nat.id by done. lia.
  - by rewrite Nat2Z.id.
Qed.

Lemma slot_at_Some (slots : list (Slot T)) index slot :
  Z.of_nat (length slots) ≤ 2 ^ 63 →
  slot_at slots index = Some slot ↔ ∃ n, index = Z.of_nat n ∧ slots !! n = Some slot.
Proof.
  intros Hl. unfold slot_at. rewrite bind_Some. setoid_rewrite usize_from_Some. split.
  - intros (n & [-> _] & E). eauto.
  - intros (n & -> & E). exists n. split_and!; [done| |done]. apply lookup_lt_Some in E. lia.
Qed.

Lemma is_well_known_small index generation :
  0 ≤ index < 2 ^ 63 → is_well_known (from_parts index generation) = false.
Proof.
  intros Hi. unfold is_well_known; cbn [et_index]. apply negb_false_iff, Z.eqb_eq.
  apply Z.bits_inj'. intros n Hn. rewrite Z.land_spec, Z.bits_0.
  unfold WELL_KNOWN_BIT. rewrite Z.shiftl_1_l. destruct (decide (n = 63)) as [->|].
  - rewrite <- (Z.mod_small index (2 ^ 63)) by done. by rewrite Z.mod_pow2_bits_high by lia.
  - by rewrite Z.pow2_bits_false, andb_false_r by lia.
Qed.

Lemma slot_at_insert (slots : list (Slot T)) n slot index :
  Z.of_nat (length slots) ≤ 2 ^ 63 → (n < length slots)%nat →
  slot_at (<[n := slot]> slots) index =
    if decide (index = Z.of_nat n) then Some slot else slot_at slots index.
Proof.
  intros Hl Hn. apply option_eq. intros x. rewrite slot_at_Some by (by rewrite length_insert).
  case_decide as Hd.
  - subst index. split; [intros (m & E & Hm)|intros [= <-]].
    + apply Nat2Z.inj in E as <-. by rewrite list_lookup_insert_eq in Hm.
    + exists n. by rewrite list_lookup_insert_eq.
  - rewrite slot_at_Some by done. split; intros (m & -> & Hm); exists m; (split; [done|]);
      assert (n ≠ m) by congruence; by rewrite list_lookup_insert_ne in *.
Qed.

Lemma slot_at_snoc (slots : list (Slot T)) slot index :
  Z.of_nat (length slots) < 2 ^ 63 →
  slot_at (slots ++ [slot]) index =
    if decide (index = Z.of_nat (length slots)) then Some slot else slot_at slots index.
Proof.
  intros Hl. apply option_eq. intros x.
  rewrite slot_at_Some by (rewrite length_app; cbn; lia). case_decide as Hd.
  - subst index. split; [intros (m & E & Hm)|intros [= <-]].
    + apply Nat2Z.inj in E as <-. by rewrite lookup_app_r, Nat.sub_diag in Hm by lia.
    + eexists. split; [done|]. by rewrite lookup_app_r, Nat.sub_diag by lia.
  - rewrite slot_at_Some by lia. split; intros (m & -> & Hm); exists m; (split; [done|]).
    + apply lookup_app_Some in Hm as [?|[? Hm]]; [done|].
      apply list_lookup_singleton_Some in Hm as [? _]. lia.
    + by apply lookup_app_l_Some.
Qed.

Lemma vec_pop_spec (l : list Z) :
  match vec_pop l with Some (l', x) => l = l' ++ [x] | None => l = [] end.
Proof.
  unfold vec_pop. destruct l as [|l x] using rev_ind; [done|].
  by rewrite last_snoc; cbn; rewrite removelast_last.
Qed.

(** The slot an insertion uses: in place, empty, off the free list, and its
    next token never issued. *)
Record picked_ok (d : Directory) (slots : list (Slot T)) (free : list Z) (index : Z)
    (slot : Slot T) : Prop := {
  pk_slots : Z.of_nat (length slots) ≤ 2 ^ 63;
  pk_count : (length slots ≤ S (size (dir_issued d)))%nat;
  pk_slot : slot_at slots index = Some slot ∧ sl_value slot = None;
  pk_get t : match slot_at slots (et_index t) with
             | Some s => if sl_generation s =? et_generation t then sl_value s else None
             | None => None
             end = dir_live d !! t;
  pk_nodup : NoDup free ∧ index ∉ free;
  pk_free i : i ∈ free → ∃ s, slot_at slots i = Some s ∧ sl_value s = None;
  pk_fresh : from_parts index (sl_generation slot) ∉ dir_issued d;
  pk_issued t : t ∈ dir_issued d →
    ∃ s, slot_at slots (et_index t) = Some s ∧
      (et_generation t < sl_generation s ∨
       et_generation t = sl_generation s ∧ et_index t ∉ free);
}.

Lemma picked_free r d free index :
  reg_sim r d → vec_pop (rg_free r) = Some (free, index) →
  ∃ slot, picked_ok d (rg_slots r) free index slot.
Proof.
  intros [] E. pose proof (vec_pop_spec (rg_free r)) as P. rewrite E in P.
  destruct (rs_free0 index) as (slot & Es & Ev); [rewrite P; set_solver|].
  exists slot. rewrite P in rs_free_nodup0. apply NoDup_app in rs_free_nodup0 as (N1 & N2 & _).
  constructor; try done.
  - lia.
  - split; [done|]. intros Hin. specialize (N2 index Hin). set_solver.
  - intros i Hi. apply rs_free0. rewrite P. set_solver.
  - intros Hin. destruct (rs_issued0 _ Hin) as (s & Es' & Hs). cbn in Es', Hs.
    rewrite Es in Es'. injection Es' as <-. rewrite P in Hs. set_solver by lia.
  - intros t Hin. destruct (rs_issued0 _ Hin) as (s & Es' & Hs). exists s. split; [done|].
    rewrite P in Hs. set_solver.
Qed.

Lemma picked_new r d :
  reg_sim r d → is_well_known (from_parts (Z.of_nat (length (rg_slots r))) 0) = false →
  rg_free r = [] →
  ∃ slot, picked_ok d (rg_slots r ++ [mkSlot 0 None]) (rg_free r)
            (Z.of_nat (length (rg_slots r))) slot.
Proof.
  intros [] Hw Ef. rewrite Ef in *. exists (mkSlot 0 None).
  assert (Z.of_nat (length (rg_slots r)) < 2 ^ 63) as Hlt.
  { destruct (decide (Z.of_nat (length (rg_slots r)) = 2 ^ 63)) as [E|]; [|lia].
    rewrite E in Hw. by vm_compute in Hw. }
  assert (∀ s, slot_at (rg_slots r) (Z.of_nat (length (rg_slots r))) ≠ Some s) as Hnone.
  { intros s (n & E & Hn)%slot_at_Some; [|done]. apply Nat2Z.inj in E as <-.
    by rewrite lookup_ge_None_2 in Hn. }
  constructor; try (rewrite length_app; cbn; lia).
  - by rewrite slot_at_snoc, decide_True.
  - intros t. rewrite slot_at_snoc, <- rs_get0 by done. unfold Registry_get.
    case_decide as Hd; cbn.
    + rewrite Hd. destruct (slot_at (rg_slots r) _) as [s|] eqn:E; [by destruct (Hnone s)|].
      by destruct (et_generation t).
    + by destruct (slot_at (rg_slots r) _).
  - split; [done|apply not_elem_of_nil].
  - intros i Hi. by apply elem_of_nil in Hi.
  - intros Hin. destruct (rs_issued0 _ Hin) as (s & Es' & _). by apply Hnone in Es'.
  - intros t Hin. destruct (rs_issued0 _ Hin) as (s & Es & Hs). exists s. split; [|done].
    rewrite slot_at_snoc by done. case_decide as Hd; [|done]. rewrite Hd in Es.
    by apply Hnone in Es.
Qed.

Lemma insert_picked max d slots free index slot value :
  picked_ok d slots free index slot → Z.of_nat (size (dir_live d)) < max →
  ∃ d', reg_spec max d (OpInsert value)
          (ResToken (Ok (from_parts index (sl_generation slot)))) d' ∧
    reg_sim
      (mkRegistry (<[Z.to_nat index := mkSlot (sl_generation slot) (Some value)]> slots) free
         (Z.of_nat (size (dir_live d)) + 1) max) d'.
Proof.
  intros [] Hm. destruct pk_slot0 as [Es Ev]. set (t := from_parts index (sl_generation slot)) in *.
  pose proof Es as (n & En & Hn)%slot_at_Some; [|done].
  pose proof (lookup_lt_Some _ _ _ Hn) as Hlt. rewrite En, Nat2Z.id.
  assert (dir_live d !! t = None) as Hnew.
  { rewrite <- pk_get0. cbn. by rewrite Es, Z.eqb_refl, Ev. }
  exists (mkDirectory (<[t := value]> (dir_live d)) ({[t]} ∪ dir_issued d)). split.
  { unfold t. constructor; [done..|]. apply is_well_known_small. lia. }
  destruct pk_nodup0 as [N1 N2].
  constructor; cbn [rg_slots rg_free rg_live dir_live dir_issued]; rewrite ?length_insert; try done.
  - intros t'. unfold Registry_get; cbn [rg_slots]. rewrite slot_at_insert by done.
    case_decide as Hd; cbn.
    + destruct (Z.eqb_spec (sl_generation slot) (et_generation t')) as [E|E].
      * assert (t' = t) as -> by (destruct t'; unfold t; cbn in *; congruence).
        by rewrite lookup_insert_eq.
      * rewrite lookup_insert_ne by (unfold t; intros <-; done).
        rewrite <- pk_get0, Hd, <- En, Es. by rewrite (proj2 (Z.eqb_neq _ _) E).
    + rewrite lookup_insert_ne by (unfold t; intros <-; by rewrite En in Hd).
      rewrite <- pk_get0. by destruct (slot_at slots (et_index t')).
  - rewrite map_size_insert_None by done. lia.
  - rewrite size_union by set_solver. rewrite size_singleton. lia.
  - intros i Hi. destruct (pk_free0 i Hi) as (s & E & Hs). exists s. split; [|done].
    rewrite slot_at_insert by done. rewrite decide_False; [done|]. rewrite <- En. by intros ->.
  - intros t' [->%elem_of_singleton|Hin]%elem_of_union.
    + eexists. rewrite slot_at_insert by done. rewrite decide_True by done.
      split; [done|]. right. by split.
    + destruct (pk_issued0 t' Hin) as (s & E & Hs). rewrite slot_at_insert by done.
      case_decide as Hd; [|by exists s]. eexists. split; [done|]. cbn.
      rewrite Hd, <- En, Es in E. injection E as <-. done.
Qed.

Lemma insert_sim r d value r' x :
  reg_sim r d → Registry_insert value r = (r', x) →
  ∃ d', reg_spec (rg_max_live r) d (OpInsert value) (ResToken x) d' ∧ reg_sim r' d' ∧
        rg_max_live r' = rg_max_live r.
Proof.
  intros Hs. pose proof Hs as []. unfold Registry_insert.
  destruct (Z.leb_spec (rg_max_live r) (rg_live r)) as [Hm|Hm].
  { intros [= <- <-]. exists d. split_and!; [|done..]. constructor. left. lia. }
  assert (∀ slots free index slot, picked_ok d slots free index slot →
    (match slot_at slots index with
     | None => (mkRegistry slots free (rg_live r) (rg_max_live r), Err RegistryFull)
     | Some slot =>
         match sl_value slot with
         | Some _ => (mkRegistry slots free (rg_live r) (rg_max_live r), Panic)
         | None =>
             (mkRegistry (<[Z.to_nat index := mkSlot (sl_generation slot) (Some value)]> slots)
                free (rg_live r + 1) (rg_max_live r),
              Ok (from_parts index (sl_generation slot)))
         end
     end) = (r', x) →
    ∃ d', reg_spec (rg_max_live r) d (OpInsert value) (ResToken x) d' ∧ reg_sim r' d' ∧
          rg_max_live r' = rg_max_live r) as Hp.
  { intros slots free index slot P. pose proof (pk_slot _ _ _ _ _ P) as [-> ->].
    intros [= <- <-]. rewrite rs_live0 in *.
    destruct (insert_picked (rg_max_live r) d slots free index slot value P Hm) as (d' & ? & ?).
    by exists d'. }
  destruct (vec_pop (rg_free r)) as [[free index]|] eqn:Ep.
  { destruct (picked_free r d free index Hs Ep) as (slot & P). by eapply Hp. }
  destruct (is_well_known _) eqn:Ew.
  - intros [= <- <-]. exists d. split_and!; [|done..]. constructor. right.
    destruct (decide (Z.of_nat (length (rg_slots r)) < 2 ^ 63)); [|lia].
    by rewrite is_well_known_small in Ew by lia.
  - pose proof (vec_pop_spec (rg_free r)) as Hf. rewrite Ep in Hf.
    destruct (picked_new r d Hs Ew Hf) as (slot & P). by eapply Hp.
Qed.

(** A slot emptied: whatever its new generation, the endpoint is gone and no
    other is. *)
Lemma emptied_get r d t n slot generation free live max :
  reg_sim r d → et_index t = Z.of_nat n → rg_slots r !! n = Some slot →
  sl_generation slot = et_generation t →
  ∀ t', Registry_get (mkRegistry (<[n := mkSlot generation None]> (rg_slots r)) free live max) t' =
        delete t (dir_live d) !! t'.
Proof.
  intros [] En Hn Eg t'. pose proof (lookup_lt_Some _ _ _ Hn) as Hlt.
  unfold Registry_get; cbn [rg_slots]. rewrite slot_at_insert by done. case_decide as Hd; cbn.
  - assert (delete t (dir_live d) !! t' = None) as ->.
    { destruct (decide (t' = t)) as [->|Hne]; [apply lookup_delete_eq|].
      rewrite lookup_delete_ne, <- rs_get0 by done. unfold Registry_get.
      rewrite Hd, (proj2 (slot_at_Some _ (Z.of_nat n) slot rs_slots0)) by eauto. cbn.
      destruct (Z.eqb_spec (sl_generation slot) (et_generation t')); [|done].
      destruct t, t'; cbn in *. congruence. }
    by destruct (_ =? _).
  - rewrite lookup_delete_ne by (intros <-; done). by rewrite <- rs_get0.
Qed.

Lemma remove_sim r d t r' v :
  reg_sim r d → Registry_remove t r = (r', v) →
  v = dir_live d !! t ∧ reg_sim r' (mkDirectory (delete t (dir_live d)) (dir_issued d)) ∧
  rg_max_live r' = rg_max_live r.
Proof.
  intros Hs. pose proof Hs as []. unfold Registry_remove. pose proof (rs_get0 t) as Hg.
  assert (Registry_get r t = None →
    (r, None) = (r', v) →
    v = dir_live d !! t ∧ reg_sim r' (mkDirectory (delete t (dir_live d)) (dir_issued d)) ∧
    rg_max_live r' = rg_max_live r) as Hstale.
  { intros E [= <- <-]. rewrite <- Hg, E. rewrite Hg in E.
    rewrite delete_id by done. by destruct d. }
  unfold Registry_get in Hg, Hstale.
  destruct (slot_at (rg_slots r) (et_index t)) as [slot|] eqn:Es; cbn in Hg, Hstale; [|by auto].
  destruct (Z.eqb_spec (sl_generation slot) (et_generation t)) as [Eg|]; cbn [negb]; [|by auto].
  destruct (sl_value slot) as [value|] eqn:Ev; [|by auto].
  pose proof Es as (n & En & Hn)%slot_at_Some; [|done].
  pose proof (lookup_lt_Some _ _ _ Hn) as Hlt.
  assert (et_index t ∉ rg_free r) as Hnf.
  { intros Hin. destruct (rs_free0 _ Hin) as (s & E & Hv). congruence. }
  assert (rg_live r - 1 = Z.of_nat (size (delete t (dir_live d)))) as Hl.
  { rewrite map_size_delete, <- Hg, rs_live0. cbn.
    destruct (size (dir_live d)) eqn:E; [|lia]. apply map_size_empty_inv in E.
    rewrite E, lookup_empty in Hg. done. }
  rewrite En, Nat2Z.id in *.
  assert (∀ i, i ∈ rg_free r → ∃ s,
    slot_at (<[n := mkSlot (sl_generation slot + 1) None]> (rg_slots r)) i = Some s ∧
    sl_value s = None) as Hfree1.
  { intros i Hi. rewrite slot_at_insert by done. case_decide; [by eexists|by apply rs_free0]. }
  destruct (sl_generation slot + 1 <=? 2 ^ 32 - 1); intros [= <- <-]; (split_and!; [done| |done]).
  - constructor; cbn [rg_slots rg_free rg_live dir_live dir_issued]; rewrite ?length_insert; try done.
    + by eapply emptied_get.
    + apply NoDup_app. split_and!; [done|set_solver|apply NoDup_singleton].
    + intros i [Hi| ->%list_elem_of_singleton]%elem_of_app; [by auto|].
      rewrite slot_at_insert, decide_True by done. by eexists.
    + intros t' Hin. destruct (rs_issued0 t' Hin) as (s & E & Hg').
      rewrite slot_at_insert by done. case_decide as Hd.
      * eexists. split; [done|]. left. cbn. rewrite Hd, Es in E. injection E as <-. lia.
      * exists s. split; [done|]. destruct Hg' as [?|[? ?]]; [by left|right]. set_solver.
  - constructor; cbn [rg_slots rg_free rg_live dir_live dir_issued]; rewrite ?length_insert; try done.
    + by eapply emptied_get.
    + intros i Hi. rewrite slot_at_insert by done. case_decide; [by eexists|by apply rs_free0].
    + intros t' Hin. destruct (rs_issued0 t' Hin) as (s & E & Hg').
      rewrite slot_at_insert by done. case_decide as Hd; [|by exists s].
      eexists. split; [done|]. rewrite Hd, Es in E. by injection E as <-.
Qed.

Lemma update_sim r d t f :
  reg_sim r d →
  reg_sim (Registry_update t f r) (mkDirectory (alter f t (dir_live d)) (dir_issued d)) ∧
  rg_max_live (Registry_update t f r) = rg_max_live r.
Proof.
  intros Hs. pose proof Hs as []. unfold Registry_update. pose proof (rs_get0 t) as Hg.
  assert (Registry_get r t = None →
    reg_sim r (mkDirectory (alter f t (dir_live d)) (dir_issued d))) as Hstale.
  { rewrite Hg. intros E. assert (alter f t (dir_live d) = dir_live d) as ->; [|by destruct d].
    apply map_eq. intros t'. rewrite lookup_alter. case_decide; [|done]. subst. by rewrite E. }
  unfold Registry_get in Hg, Hstale.
  destruct (slot_at (rg_slots r) (et_index t)) as [slot|] eqn:Es; cbn in Hg, Hstale;
    [|by split; [auto|]].
  destruct (Z.eqb_spec (sl_generation slot) (et_generation t)) as [Eg|]; [|by split; [auto|]].
  pose proof Es as (n & En & Hn)%slot_at_Some; [|done].
  pose proof (lookup_lt_Some _ _ _ Hn) as Hlt. split; [|done]. rewrite En, Nat2Z.id.
  constructor; cbn [rg_slots rg_free rg_live dir_live dir_issued]; rewrite ?length_insert; try done.
  - intros t'. unfold Registry_get; cbn [rg_slots]. rewrite slot_at_insert by done.
    rewrite lookup_alter. case_decide as Hd; cbn; case_decide as Ht; subst.
    + by rewrite Eg, Z.eqb_refl, <- Hg.
    + rewrite <- rs_get0. unfold Registry_get. rewrite Hd, <- En, Es. cbn.
      destruct (Z.eqb_spec (sl_generation slot) (et_generation t')); [|done].
      destruct t, t'; cbn in *. congruence.
    + done.
    + by rewrite <- rs_get0.
  - rewrite rs_live0. f_equal. rewrite <- !(size_dom (D:=gset EndpointToken)). by rewrite dom_alter_L.
  - intros i Hi. destruct (rs_free0 i Hi) as (s & E & Hv). rewrite slot_at_insert by done.
    case_decide as Hd; [|by exists s]. eexists. split; [done|]. cbn.
    rewrite Hd, <- En, Es in E. injection E as <-. by rewrite Hv.
  - intros t' Hin. destruct (rs_issued0 t' Hin) as (s & E & Hg').
    rewrite slot_at_insert by done. case_decide as Hd; [|by exists s].
    eexists. split; [done|]. rewrite Hd, <- En, Es in E. by injection E as <-.
Qed.

Lemma remove_each_sim tokens r d r' vs :
  reg_sim r d → (∀ t, is_Some (dir_live d !! t) → t ∈ tokens) →
  remove_each tokens r = (r', vs) →
  vs ≡ₚ (map_to_list (dir_live d)).*2 ∧ reg_sim r' (mkDirectory ∅ (dir_issued d)) ∧
  rg_max_live r' = rg_max_live r.
Proof.
  revert r d r' vs. induction tokens as [|t tokens IH]; intros r d r' vs Hs Hall; cbn.
  - intros [= <- <-]. assert (dir_live d = ∅) as E.
    { apply map_empty. intros t. destruct (dir_live d !! t) eqn:Et; [|done].
      exfalso. by apply (not_elem_of_nil t), Hall. }
    rewrite E, map_to_list_empty. split_and!; [done| |done]. rewrite <- E. by destruct d.
  - destruct (Registry_remove t r) as [r1 v] eqn:Er.
    destruct (remove_sim r d t r1 v Hs Er) as (Ev & Hs1 & Em).
    destruct (remove_each tokens r1) as [r2 vs1] eqn:Ea. intros [= <- <-].
    eapply (IH _ _ _ _ Hs1) in Ea as (Hp & Hs2 & Em2).
    + split_and!; [|done|congruence]. cbn in Hp. subst v.
      destruct (dir_live d !! t) as [v|] eqn:Et; [|by rewrite delete_id in Hp].
      rewrite <- (map_to_list_delete _ _ _ Et). cbn. by rewrite Hp.
    + cbn. intros t' [v' [Hne Hv']%lookup_delete_Some].
      specialize (Hall t' (mk_is_Some _ _ Hv')). apply elem_of_cons in Hall as [->|]; done.
Qed.

Lemma live_tokens_all r d t :
  reg_sim r d → is_Some (dir_live d !! t) → t ∈ live_tokens (rg_slots r).
Proof.
  intros [] [v Hv]. rewrite <- rs_get0 in Hv. unfold Registry_get in Hv.
  destruct (slot_at (rg_slots r) (et_index t)) as [slot|] eqn:Es; [|done]. cbn in Hv.
  destruct (Z.eqb_spec (sl_generation slot) (et_generation t)) as [Eg|]; [|done].
  apply slot_at_Some in Es as (n & En & Hn); [|done].
  apply list_elem_of_omap. exists (Some t). split; [|done].
  apply elem_of_lookup_imap. exists n, slot. split; [|done]. rewrite Hv, Eg, <- En.
  by destruct t.
Qed.

Lemma reg_exec_sim r d o r' x :
  reg_sim r d → reg_exec o r = (r', x) →
  ∃ d', reg_spec (rg_max_live r) d o x d' ∧ reg_sim r' d' ∧ rg_max_live r' = rg_max_live r.
Proof.
  intros Hs. destruct o as [value|t|t f|]; cbn.
  - destruct (Registry_insert value r) as [r1 t] eqn:E. intros [= <- <-]. by apply insert_sim.
  - destruct (Registry_remove t r) as [r1 v] eqn:E. intros [= <- <-].
    apply (remove_sim r d) in E as (-> & ? & ?); [|done]. eexists. by split; [constructor|].
  - intros [= <- <-]. destruct (update_sim r d t f Hs). eexists. by split; [constructor|].
  - unfold Registry_drain. destruct (remove_each _ r) as [r1 vs] eqn:E. intros [= <- <-].
    apply (remove_each_sim _ r d) in E as (? & ? & ?); [|done|].
    + eexists. by split; [constructor|].
    + intros t. by apply live_tokens_all.
Qed.

Lemma reg_run_sim ops r d r' xs :
  reg_sim r d → reg_run ops r = (r', xs) →
  ∃ d', spec_run (rg_max_live r) d ops xs d' ∧ reg_sim r' d' ∧ rg_max_live r' = rg_max_live r.
Proof.
  revert r d r' xs. induction ops as [|o ops IH]; intros r d r' xs Hs; cbn.
  - intros [= <- <-]. exists d. by split; [constructor|].
  - destruct (reg_exec o r) as [r1 x] eqn:E, (reg_run ops r1) as [r2 xs1] eqn:Er. intros [= <- <-].
    destruct (reg_exec_sim r d o r1 x Hs E) as (d1 & H1 & Hs1 & Em).
    destruct (IH r1 d1 r2 xs1 Hs1 Er) as (d2 & H2 & Hs2 & Em2). rewrite Em in *.
    exists d2. by split; [econstructor|].
Qed.

Lemma Registry_new_sim max : reg_sim (Registry_new max) (mkDirectory ∅ ∅).
Proof.
  constructor; cbn; try done.
  - intros t. unfold Registry_get, slot_at; cbn. by destruct (usize_from _).
  - by apply NoDup_nil.
  - intros i Hi. by apply elem_of_nil in Hi.
Qed.

(** A token once issued and dead stays dead. *)
Lemma spec_run_dead max d ops xs d' t :
  spec_run max d ops xs d' → t ∈ dir_issued d → dir_live d !! t = None →
  dir_live d' !! t = None.
Proof.
  induction 1 as [|d o x d1 ops xs d2 Hs _ IH]; [done|]. intros Hi Hd.
  destruct Hs; apply IH; cbn; try done.
  - set_solver.
  - rewrite lookup_insert_ne; [done|]. set_solver.
  - apply lookup_delete_None. by right.
  - rewrite lookup_alter. case_decide; [|done]. subst. by rewrite Hd.
Qed.

Lemma spec_run_issued max d ops xs d' :
  spec_run max d ops xs d' → (∀ t, is_Some (dir_live d !! t) → t ∈ dir_issued d) →
  ∀ t, is_Some (dir_live d' !! t) → t ∈ dir_issued d'.
Proof.
  induction 1 as [|d o x d1 ops xs d2 Hs _ IH]; [done|]. intros Hi. apply IH.
  destruct Hs; cbn; try done.
  - intros t' [v Hv]. apply lookup_insert_Some in Hv as [[-> _]|[_ Hv]]; [set_solver|].
    apply elem_of_union_r, Hi. by eexists.
  - intros t' [v [_ Hv]%lookup_delete_Some]. apply Hi. by eexists.
  - intros t' Ht. apply Hi. rewrite lookup_alter in Ht. case_decide; [|done]. subst.
    by apply fmap_is_Some in Ht.
  - intros t' [v Hv]. by rewrite lookup_empty in Hv.
Qed.

(** ** Theorems *)

(** C37: the endpoint registry is a map whose tokens are issued once: whatever
    the sequence of insertions, removals, updates and drains, on a registry of
    any capacity, every result is one the abstract directory allows: an
    insertion returns a token never issued before and never in the
    well-known range, or is refused exactly when the budget or the index
    space is used up, a removal returns the live value and nothing through a
    stale token, a drain returns every live value once, and no call panics. *)
Theorem registry_refines_directory max ops r xs :
  reg_run ops (Registry_new max) = (r, xs) →
  ∃ d, spec_run max (mkDirectory ∅ ∅) ops xs d ∧
    (∀ t, Registry_get r t = dir_live d !! t) ∧ rg_live r = Z.of_nat (size (dir_live d)).
Proof.
  intros E. destruct (reg_run_sim _ _ _ _ _ (Registry_new_sim max) E) as (d & H1 & [] & _).
  exists d. by split_and!.
Qed.

(** No reuse of a dead reference: once a token's endpoint was removed, no
    later sequence of calls makes the token resolve again, however often its
    slot is reused, exhausted generations included. *)
Theorem removed_token_never_resolves max ops r xs t v r1 ops' r' xs' :
  reg_run ops (Registry_new max) = (r, xs) →
  Registry_remove t r = (r1, Some v) →
  reg_run ops' r1 = (r', xs') →
  Registry_get r' t = None.
Proof.
  intros E Er E'. destruct (reg_run_sim _ _ _ _ _ (Registry_new_sim max) E) as (d & H1 & Hs & _).
  destruct (remove_sim _ _ _ _ _ Hs Er) as (Ev & Hs1 & _).
  destruct (reg_run_sim _ _ _ _ _ Hs1 E') as (d' & H2 & [] & _).
  rewrite rs_get0. eapply spec_run_dead; [exact H2| |apply lookup_delete_eq]. cbn.
  eapply spec_run_issued; [exact H1| |by eexists]. cbn. intros t' [v' Hv'].
  by rewrite lookup_empty in Hv'.
Qed.

End Spec.
