(* ===== verification/Monitor.v ===== *)
(** The failure monitor's facts (moonpool-rpc/src/failure/state.rs and the
    states of failure/mod.rs): availability and disconnects per address, and
    the bounded set of endpoints known permanently failed.

    A [BTreeMap] is its key-ordered list of entries.  Times are nanoseconds;
    the counters of disconnects and watchers, which no run can bring near
    [2^64], are unbounded. *)
From stdpp Require Import base list numbers.
From S2P Require Import Prelude Cursor Registry.

(** ** Ordered maps *)

Section BTreeMap.
Context {K V : Type} `{EqDecision K} (lt : K → K → bool).

Fixpoint bt_get (k : K) (m : list (K * V)) : option V :=
  match m with
  | [] => None
  | (k', v) :: m => if decide (k' = k) then Some v else bt_get k m
  end.

(** An existing entry is overwritten, a new one goes in key order. *)
Fixpoint bt_replace (k : K) (v : V) (m : list (K * V)) : list (K * V) :=
  match m with
  | [] => []
  | (k', v') :: m => if decide (k' = k) then (k, v) :: m else (k', v') :: bt_replace k v m
  end.

Fixpoint bt_place (k : K) (v : V) (m : list (K * V)) : list (K * V) :=
  match m with
  | [] => [(k, v)]
  | (k', v') :: m' => if lt k k' then (k, v) :: m else (k', v') :: bt_place k v m'
  end.

Definition bt_insert (k : K) (v : V) (m : list (K * V)) : list (K * V) :=
  match bt_get k m with Some _ => bt_replace k v m | None => bt_place k v m end.

Definition bt_remove (k : K) (m : list (K * V)) : list (K * V) :=
  filter (λ e : K * V, e.1 ≠ k) m.

Lemma bt_get_remove k k' m :
  bt_get k' (bt_remove k m) = if decide (k' = k) then None else bt_get k' m.
Proof.
  unfold bt_remove. induction m as [|[k0 v0] m IH]; [by cbn; case_decide|].
  rewrite filter_cons. cbn [bt_get fst]. destruct (decide (k0 ≠ k)) as [Hd|Hd%dec_stable].
  - cbn [bt_get]. rewrite IH. repeat case_decide; congruence.
  - rewrite IH. repeat case_decide; congruence.
Qed.

Lemma bt_get_place k v m k' :
  bt_get k m = None → bt_get k' (bt_place k v m) = if decide (k = k') then Some v else bt_get k' m.
Proof.
  induction m as [|[k0 v0] m IH]; cbn; [done|]. destruct (decide (k0 = k)) as [|Hk]; [by intros|]. intros Hm.
  destruct (lt k k0); cbn; [done|]. rewrite IH by done. repeat case_decide; congruence.
Qed.

Lemma bt_get_insert k v m k' :
  bt_get k' (bt_insert k v m) = if decide (k = k') then Some v else bt_get k' m.
Proof.
  unfold bt_insert. destruct (bt_get k m) as [v1|] eqn:E; [|by apply bt_get_place].
  induction m as [|[k0 v0] m IH]; cbn in *; [done|].
  destruct (decide (k0 = k)) as [->|]; cbn; [by repeat case_decide|]. rewrite IH by done.
  repeat case_decide; congruence.
Qed.

Lemma length_bt_insert k v m :
  length (bt_insert k v m) = match bt_get k m with Some _ => length m | None => S (length m) end.
Proof.
  unfold bt_insert. destruct (bt_get k m) as [v1|] eqn:E.
  - clear E. induction m as [|[k0 v0] m IH]; cbn; [done|]. case_decide; cbn; congruence.
  - clear E. induction m as [|[k0 v0] m IH]; cbn; [done|]. destruct (lt k k0); cbn; congruence.
Qed.

Lemma length_bt_remove k m : is_Some (bt_get k m) → (length (bt_remove k m) < length m)%nat.
Proof.
  unfold bt_remove. induction m as [|[k0 v0] m IH]; [by intros []|].
  rewrite filter_cons. cbn [bt_get fst]. destruct (decide (k0 ≠ k)) as [Hd|Hd%dec_stable].
  - rewrite decide_False by done. intros Hs. specialize (IH Hs). cbn in *. lia.
  - intros _. pose proof (length_filter (λ e : K * V, e.1 ≠ k) m). cbn in *. lia.
Qed.

Lemma bt_get_elem k v m : NoDup m.*1 → (k, v) ∈ m → bt_get k m = Some v.
Proof.
  induction m as [|[k0 v0] m IH]; [by intros _ ?%elem_of_nil|]. cbn.
  rewrite NoDup_cons, elem_of_cons. intros [Hn Hd] [[= <- <-]|Hin]; [by rewrite decide_True|].
  rewrite decide_False; [by apply IH|]. intros ->. apply Hn, list_elem_of_fmap. by exists (k, v).
Qed.

Lemma bt_get_None k m : bt_get k m = None ↔ k ∉ m.*1.
Proof.
  induction m as [|[k0 v0] m IH]; cbn; [split; [intros _; apply not_elem_of_nil|done]|].
  rewrite not_elem_of_cons, <- IH. clear IH. destruct (decide (k0 = k)) as [->|Hk].
  - split; [done|by intros []].
  - split; [intros E; by split; [congruence|]|by intros []].
Qed.

Lemma bt_insert_NoDup k v m : NoDup m.*1 → NoDup (bt_insert k v m).*1.
Proof.
  unfold bt_insert. destruct (bt_get k m) as [v1|] eqn:E.
  - assert ((bt_replace k v m).*1 = m.*1) as ->; [|done]. clear E.
    induction m as [|[k0 v0] m IH]; cbn; [done|]. case_decide; cbn; congruence.
  - apply bt_get_None in E. intros Hn.
    assert ((bt_place k v m).*1 ≡ₚ k :: m.*1) as ->; [|by apply NoDup_cons].
    clear E Hn. induction m as [|[k0 v0] m IH]; cbn; [done|]. destruct (lt k k0); cbn; [done|].
    rewrite IH. apply Permutation_swap.
Qed.

Lemma bt_remove_NoDup k m : NoDup m.*1 → NoDup (bt_remove k m).*1.
Proof.
  intros Hn. unfold bt_remove. induction m as [|[k0 v0] m IH]; [done|].
  apply NoDup_cons in Hn as [Hn1 Hn2]. rewrite filter_cons. case_decide; [|by apply IH].
  cbn [fmap list_fmap]. apply NoDup_cons. split; [|by apply IH].
  intros (x & E & [_ Hx]%list_elem_of_filter)%list_elem_of_fmap. apply Hn1, list_elem_of_fmap.
  by exists x.
Qed.

End BTreeMap.

(** [Ord] of socket addresses: the family, the octets, the port, then the
    fields only an IPv6 address has. *)
Definition SocketAddr_key (a : SocketAddr) : list Z :=
  match sa_ip a with
  | V4 o => 4 :: (byte_to_Z <$> o) ++ [sa_port a]
  | V6 o => 6 :: (byte_to_Z <$> o) ++ [sa_port a; sa_flowinfo a; sa_scope_id a]
  end.

Fixpoint lex_lt (a b : list Z) : bool :=
  match a, b with
  | [], [] => false
  | [], _ :: _ => true
  | _ :: _, [] => false
  | x :: a, y :: b => if x =? y then lex_lt a b else x <? y
  end.

Definition SocketAddr_lt (a b : SocketAddr) : bool := lex_lt (SocketAddr_key a) (SocketAddr_key b).

(** ** The monitor *)

Inductive AddressState := AddressAvailable | AddressFailed.

Inductive EndpointState := Available | EndpointAddressFailed | EndpointNotFound | EndpointStale.

Definition is_permanent (s : EndpointState) : bool :=
  match s with EndpointNotFound | EndpointStale => true | _ => false end.

Inductive PermanentFailure := NotFound | Stale.

Inductive FailedKey :=
  | FailedEndpoint (e : Endpoint)
  | FailedIncarnation (address : SocketAddr) (incarnation : Z).

#[global] Instance FailedKey_eq_dec : EqDecision FailedKey.
Proof. solve_decision. Defined.

(** The map of failures is never iterated: its order is immaterial. *)
Definition FailedKey_lt (_ _ : FailedKey) : bool := false.

Record AddressRecord := mkAddressRecord {
  ar_failed : bool;
  ar_disconnects : Z;
  ar_last_disconnect : Z;
  ar_failing_since : option Z;
  ar_references : Z;
}.

Definition AddressRecord_default : AddressRecord := mkAddressRecord false 0 0 None 0.

Record MonitorState := mkMonitorState {
  ms_addresses : list (SocketAddr * AddressRecord);
  ms_failed : list (FailedKey * PermanentFailure);
  ms_order : list FailedKey;
  ms_max_failed : Z;
  ms_max_addresses : Z;
  ms_sequence : Z;
}.

Definition MonitorState_new (max_failed max_addresses : Z) : MonitorState :=
  mkMonitorState [] [] [] (Z.max max_failed 1) (Z.max max_addresses 1) 0.

Definition set_addresses (l : list (SocketAddr * AddressRecord)) (m : MonitorState) : MonitorState :=
  mkMonitorState l (ms_failed m) (ms_order m) (ms_max_failed m) (ms_max_addresses m)
    (ms_sequence m).

Definition address_state (m : MonitorState) (address : SocketAddr) : AddressState :=
  match bt_get address (ms_addresses m) with
  | Some r => if ar_failed r then AddressFailed else AddressAvailable
  | None => AddressAvailable
  end.

Definition disconnected_since (m : MonitorState) (address : SocketAddr) (since : Z) : bool :=
  match bt_get address (ms_addresses m) with
  | Some r => since <? ar_last_disconnect r
  | None => false
  end.

Definition disconnects (m : MonitorState) (address : SocketAddr) : Z :=
  match bt_get address (ms_addresses m) with Some r => ar_disconnects r | None => 0 end.

Definition references (m : MonitorState) (address : SocketAddr) : Z :=
  match bt_get address (ms_addresses m) with Some r => ar_references r | None => 0 end.

Definition permanent_failure (m : MonitorState) (e : Endpoint) : option PermanentFailure :=
  if is_well_known (ep_token e) then None else
  match bt_get (FailedEndpoint e) (ms_failed m) with
  | Some f => Some f
  | None => bt_get (FailedIncarnation (ep_address e) (ep_incarnation e)) (ms_failed m)
  end.

Definition endpoint_state (m : MonitorState) (e : Endpoint) : EndpointState :=
  match permanent_failure m e with
  | Some NotFound => EndpointNotFound
  | Some Stale => EndpointStale
  | None =>
      match address_state m (ep_address e) with
      | AddressFailed => EndpointAddressFailed
      | AddressAvailable => Available
      end
  end.

(** The records [record] may forget. *)
Definition forgettable (r : AddressRecord) : bool :=
  negb (ar_failed r) && (ar_references r =? 0) &&
  match ar_failing_since r with None => true | Some _ => false end.

Definition victim (l : list (SocketAddr * AddressRecord)) : option SocketAddr :=
  (λ p, p.2.1) <$> list_find (λ e : SocketAddr * AddressRecord, forgettable e.2 = true) l.

(** [record]: a full table forgets its first forgettable address, then the
    address has a record. *)
Definition record (address : SocketAddr) (m : MonitorState) : MonitorState :=
  let l := ms_addresses m in
  let l :=
    match bt_get address l with
    | Some _ => l
    | None =>
        if ms_max_addresses m <=? len l
        then match victim l with Some v => bt_remove v l | None => l end
        else l
    end in
  set_addresses
    match bt_get address l with
    | Some _ => l
    | None => bt_insert SocketAddr_lt address AddressRecord_default l
    end m.

Definition get_record (address : SocketAddr) (m : MonitorState) : AddressRecord :=
  default AddressRecord_default (bt_get address (ms_addresses m)).

(** A write through the reference [record] returns. *)
Definition on_record (address : SocketAddr) (f : AddressRecord → AddressRecord) (m : MonitorState) :
    MonitorState :=
  let m := record address m in
  set_addresses (bt_insert SocketAddr_lt address (f (get_record address m)) (ms_addresses m)) m.

Definition connected (address : SocketAddr) (m : MonitorState) : MonitorState * bool :=
  (on_record address (λ r, mkAddressRecord false (ar_disconnects r) (ar_last_disconnect r) None
                             (ar_references r)) m,
   ar_failed (get_record address (record address m))).

Definition disconnected (address : SocketAddr) (failure : bool) (now delay : Z) (m : MonitorState) :
    MonitorState :=
  let m :=
    mkMonitorState (ms_addresses m) (ms_failed m) (ms_order m) (ms_max_failed m)
      (ms_max_addresses m) (ms_sequence m + 1) in
  let sequence := ms_sequence m in
  on_record address (λ r,
    if failure then
      let since := default now (ar_failing_since r) in
      mkAddressRecord ((delay <=? Z.max 0 (now - since)) || ar_failed r)
        (ar_disconnects r + 1) sequence (Some since) (ar_references r)
    else
      mkAddressRecord (ar_failed r) (ar_disconnects r + 1) sequence (ar_failing_since r)
        (ar_references r)) m.

(** The [while] of [endpoint_failed]. *)
Fixpoint evict (max : Z) (order : list FailedKey) (failed : list (FailedKey * PermanentFailure)) :
    list FailedKey * list (FailedKey * PermanentFailure) :=
  if max <=? len failed then
    match order with
    | [] => ([], failed)
    | oldest :: order => evict max order (bt_remove oldest failed)
    end
  else (order, failed).

Definition failed_key (e : Endpoint) (reason : PermanentFailure) : FailedKey :=
  match reason with
  | NotFound => FailedEndpoint e
  | Stale => FailedIncarnation (ep_address e) (ep_incarnation e)
  end.

Definition endpoint_failed (e : Endpoint) (reason : PermanentFailure) (m : MonitorState) :
    MonitorState * bool :=
  if is_well_known (ep_token e) then (m, false) else
  let key := failed_key e reason in
  match bt_get key (ms_failed m) with
  | Some _ => (m, false)
  | None =>
      let '(order, failed) := evict (ms_max_failed m) (ms_order m) (ms_failed m) in
      (mkMonitorState (ms_addresses m) (bt_insert FailedKey_lt key reason failed) (order ++ [key])
         (ms_max_failed m) (ms_max_addresses m) (ms_sequence m), true)
  end.

Definition reference (address : SocketAddr) (add : bool) (m : MonitorState) : MonitorState :=
  on_record address (λ r,
    mkAddressRecord (ar_failed r) (ar_disconnects r) (ar_last_disconnect r) (ar_failing_since r)
      (if add then ar_references r + 1 else Z.max 0 (ar_references r - 1))) m.

(** ** Histories *)

Inductive MonitorEvent :=
  | EvConnected (address : SocketAddr)
  | EvDisconnected (address : SocketAddr) (failure : bool) (now delay : Z)
  | EvReference (address : SocketAddr) (add : bool)
  | EvFailed (e : Endpoint) (reason : PermanentFailure).

Definition monitor_exec (m : MonitorState) (ev : MonitorEvent) : MonitorState :=
  match ev with
  | EvConnected a => fst (connected a m)
  | EvDisconnected a failure now delay => disconnected a failure now delay m
  | EvReference a add => reference a add m
  | EvFailed e reason => fst (endpoint_failed e reason m)
  end.

Definition monitor_run (evs : list MonitorEvent) (m : MonitorState) : MonitorState :=
  foldl monitor_exec m evs.

(** What one address's history says, with unbounded memory: whether it is
    failed, since when it has been failing, and its watchers.  The count of an
    address's disconnects and the sequence number of the last one
    ([ar_disconnects], [ar_last_disconnect]) are not part of it: those start
    again when the address is forgotten ([unwatched_disconnect_missed]). *)
Record Belief := mkBelief {
  bl_failed : bool;
  bl_failing_since : option Z;
  bl_references : Z;
}.

Definition Belief_new : Belief := mkBelief false None 0.

Definition believe (a : SocketAddr) (b : Belief) (ev : MonitorEvent) : Belief :=
  match ev with
  | EvConnected a' => if decide (a' = a) then mkBelief false None (bl_references b) else b
  | EvDisconnected a' failure now delay =>
      if decide (a' = a) then
        if failure then
          let since := default now (bl_failing_since b) in
          mkBelief ((delay <=? Z.max 0 (now - since)) || bl_failed b) (Some since) (bl_references b)
        else b
      else b
  | EvReference a' add =>
      if decide (a' = a) then
        mkBelief (bl_failed b) (bl_failing_since b)
          (if add then bl_references b + 1 else Z.max 0 (bl_references b - 1))
      else b
  | EvFailed _ _ => b
  end.

(** The failures remembered, oldest first: a bounded queue of distinct keys. *)
Definition remember (max : Z) (l : list (FailedKey * PermanentFailure)) (ev : MonitorEvent) :
    list (FailedKey * PermanentFailure) :=
  match ev with
  | EvFailed e reason =>
      let key := failed_key e reason in
      if is_well_known (ep_token e) || bool_decide (key ∈ l.*1) then l
      else drop (length l + 1 - Z.to_nat max) l ++ [(key, reason)]
  | _ => l
  end.

(** ** Forgetting addresses *)

Definition belief_of (m : MonitorState) (a : SocketAddr) : Belief :=
  let r := get_record a m in mkBelief (ar_failed r) (ar_failing_since r) (ar_references r).

Lemma victim_Some l v :
  victim l = Some v → ∃ r, (v, r) ∈ l ∧ forgettable r = true.
Proof.
  unfold victim. rewrite fmap_Some. intros ([n [a r]] & Hf & ->).
  apply list_find_Some in Hf as (Hl & Hr & _). exists r. split; [|done].
  by apply list_elem_of_lookup_2 in Hl.
Qed.

(** Forgetting one forgettable record changes no belief. *)
Lemma forget_belief l v a :
  NoDup l.*1 → victim l = Some v →
  let r0 := default AddressRecord_default (bt_get a l) in
  let r1 := default AddressRecord_default (bt_get a (bt_remove v l)) in
  ar_failed r1 = ar_failed r0 ∧ ar_failing_since r1 = ar_failing_since r0 ∧
  ar_references r1 = ar_references r0.
Proof.
  intros Hn (r & Hin & Hf)%victim_Some. cbn. rewrite bt_get_remove. case_decide; [|done]. subst.
  rewrite (bt_get_elem v r) by done. unfold forgettable in Hf. cbn.
  apply andb_true_iff in Hf as [[Hf1%negb_true_iff Hf2%Z.eqb_eq]%andb_true_iff Hf3].
  rewrite Hf1, Hf2. by destruct (ar_failing_since r).
Qed.

Definition mon_wf (m : MonitorState) : Prop := NoDup (ms_addresses m).*1.

Lemma record_spec a m :
  mon_wf m →
  mon_wf (record a m) ∧ (∀ a', belief_of (record a m) a' = belief_of m a') ∧
  ms_failed (record a m) = ms_failed m ∧ ms_order (record a m) = ms_order m ∧
  ms_max_failed (record a m) = ms_max_failed m ∧
  ms_max_addresses (record a m) = ms_max_addresses m ∧ ms_sequence (record a m) = ms_sequence m.
Proof.
  intros Hwf. unfold record.
  set (l := match bt_get a (ms_addresses m) with Some _ => _ | None => _ end).
  assert (NoDup l.*1 ∧ ∀ a',
    let r0 := default AddressRecord_default (bt_get a' (ms_addresses m)) in
    let r1 := default AddressRecord_default (bt_get a' l) in
    ar_failed r1 = ar_failed r0 ∧ ar_failing_since r1 = ar_failing_since r0 ∧
    ar_references r1 = ar_references r0) as [Hn Hl].
  { unfold l. destruct (bt_get a (ms_addresses m)); [done|].
    destruct (_ <=? _); [|done]. destruct (victim _) as [v|] eqn:Ev; [|done].
    split; [by apply bt_remove_NoDup|]. intros a'. by apply forget_belief. }
  destruct (bt_get a l) as [r|] eqn:El; unfold mon_wf, belief_of, get_record; cbn.
  - split_and!; try done. intros a'. destruct (Hl a') as (E1 & E2 & E3). cbn in *. congruence.
  - split_and!; try done; [by apply bt_insert_NoDup|]. intros a'.
    destruct (Hl a') as (E1 & E2 & E3). cbn in *. rewrite bt_get_insert.
    case_decide; [subst a'; rewrite El in *; cbn in *; congruence|congruence].
Qed.

Lemma on_record_spec a f m :
  mon_wf m →
  mon_wf (on_record a f m) ∧
  (∀ a', belief_of (on_record a f m) a' =
     if decide (a = a') then
       let r := f (get_record a (record a m)) in
       mkBelief (ar_failed r) (ar_failing_since r) (ar_references r)
     else belief_of m a') ∧
  ms_failed (on_record a f m) = ms_failed m ∧ ms_order (on_record a f m) = ms_order m ∧
  ms_max_failed (on_record a f m) = ms_max_failed m ∧
  ms_sequence (on_record a f m) = ms_sequence m.
Proof.
  intros Hwf. destruct (record_spec a m Hwf) as (H1 & H2 & H3 & H4 & H5 & H6 & H7).
  unfold on_record. split_and!; try done.
  - unfold mon_wf. cbn. by apply bt_insert_NoDup.
  - intros a'. rewrite <- H2. unfold belief_of, get_record at 1; cbn. rewrite bt_get_insert.
    by case_decide.
Qed.

Lemma monitor_exec_belief m ev a :
  mon_wf m →
  mon_wf (monitor_exec m ev) ∧
  belief_of (monitor_exec m ev) a = believe a (belief_of m a) ev ∧
  ms_max_failed (monitor_exec m ev) = ms_max_failed m.
Proof.
  intros Hwf.
  assert (∀ a0, let r := get_record a0 (record a0 m) in
    belief_of m a0 = mkBelief (ar_failed r) (ar_failing_since r) (ar_references r)) as Hr.
  { intros a0. destruct (record_spec a0 m Hwf) as (_ & H2 & _). by rewrite <- H2. }
  destruct ev as [a'|a' failure now delay|a' add|e reason]; cbn [monitor_exec fst connected believe].
  - unfold connected; cbn [fst].
    match goal with |- context [on_record a' ?f m] =>
      destruct (on_record_spec a' f m Hwf) as (H1 & H2 & _ & _ & H3 & _) end.
    split_and!; try done. rewrite H2. case_decide; [|done]. subst. by rewrite (Hr a).
  - unfold disconnected. set (m1 := mkMonitorState _ _ _ _ _ _).
    match goal with |- context [on_record a' ?f m1] =>
      destruct (on_record_spec a' f m1 Hwf) as (H1 & H2 & _ & _ & H3 & _) end.
    split_and!; try done. rewrite H2. case_decide; [|done]. subst.
    change (get_record a (record a m1)) with (get_record a (record a m)).
    rewrite (Hr a). by destruct failure.
  - unfold reference.
    match goal with |- context [on_record a' ?f m] =>
      destruct (on_record_spec a' f m Hwf) as (H1 & H2 & _ & _ & H3 & _) end.
    split_and!; try done. rewrite H2. case_decide; [|done]. subst. by rewrite (Hr a).
  - unfold endpoint_failed. destruct (is_well_known _); [done|].
    destruct (bt_get _ (ms_failed m)); [done|]. by destruct (evict _ _ _).
Qed.

(** ** Remembered failures *)

Lemma bt_get_perm {K V} `{EqDecision K} (l l' : list (K * V)) k :
  l ≡ₚ l' → NoDup l.*1 → bt_get k l = bt_get k l'.
Proof.
  intros Hp Hn. assert (NoDup l'.*1) as Hn' by (by rewrite <- Hp).
  destruct (bt_get k l) as [v|] eqn:E.
  - symmetry. apply bt_get_elem; [done|]. rewrite <- Hp.
    clear Hp Hn Hn'. induction l as [|[k0 v0] l IH]; [done|]. cbn in E.
    case_decide; [simplify_eq; by left|right; by apply IH].
  - symmetry. rewrite bt_get_None in *. by rewrite <- Hp.
Qed.

Lemma bt_remove_head {K V} `{EqDecision K} (l : list (K * V)) k v :
  NoDup ((k, v) :: l).*1 → bt_remove k ((k, v) :: l) = l.
Proof.
  cbn [fmap list_fmap]. intros [Hn _]%NoDup_cons. unfold bt_remove.
  rewrite filter_cons_False by (cbn; tauto).
  induction l as [|[k0 v0] l IH]; [done|]. cbn in Hn. apply not_elem_of_cons in Hn as [Hk Hn].
  rewrite filter_cons_True by (cbn; congruence). by rewrite IH.
Qed.

Lemma bt_insert_new {K V} `{EqDecision K} (lt : K → K → bool) (l : list (K * V)) k v :
  bt_get k l = None → bt_insert lt k v l ≡ₚ l ++ [(k, v)].
Proof.
  unfold bt_insert. intros ->. rewrite <- Permutation_cons_append.
  induction l as [|[k0 v0] l IH]; cbn; [done|]. destruct (lt k k0); [done|].
  rewrite IH. apply Permutation_swap.
Qed.

Record remembers (m : MonitorState) (l : list (FailedKey * PermanentFailure)) : Prop := {
  rm_order : ms_order m = l.*1;
  rm_failed : ms_failed m ≡ₚ l;
  rm_nodup : NoDup l.*1;
  rm_bound : len l ≤ ms_max_failed m;
  rm_max : 1 ≤ ms_max_failed m;
}.

Lemma remembers_get m l k : remembers m l → bt_get k (ms_failed m) = bt_get k l.
Proof. intros []. apply bt_get_perm; [done|]. by rewrite rm_failed0. Qed.

Lemma evict_cons max k order failed :
  evict max (k :: order) failed =
    if max <=? len failed then evict max order (bt_remove k failed) else (k :: order, failed).
Proof. done. Qed.

Lemma evict_room max order failed : len failed < max → evict max order failed = (order, failed).
Proof. intros Hl. destruct order; cbn; by destruct (Z.leb_spec max (len failed)); [lia|]. Qed.

(** Eviction makes room for one, by dropping the oldest. *)
Lemma evict_spec m l :
  remembers m l →
  let l' := drop (length l + 1 - Z.to_nat (ms_max_failed m)) l in
  let '(order, failed) := evict (ms_max_failed m) (ms_order m) (ms_failed m) in
  order = l'.*1 ∧ failed ≡ₚ l' ∧ (length l' < Z.to_nat (ms_max_failed m))%nat.
Proof.
  intros []. cbn. rewrite rm_order0.
  assert (len (ms_failed m) = len l) as Hlen by (unfold len; by rewrite rm_failed0).
  unfold len in *. destruct l as [|[k v] l].
  - cbn in *. unfold len. rewrite Hlen, drop_nil.
    destruct (Z.leb_spec (ms_max_failed m) (Z.of_nat 0)); [lia|]. split_and!; [done..|]. cbn. lia.
  - change (((k, v) :: l).*1) with (k :: l.*1). rewrite evict_cons. unfold len. rewrite Hlen.
    destruct (Z.leb_spec (ms_max_failed m) (Z.of_nat (length ((k, v) :: l)))) as [Hm|Hm].
    + assert (length ((k, v) :: l) + 1 - Z.to_nat (ms_max_failed m) = 1)%nat as -> by lia.
      assert (bt_remove k (ms_failed m) ≡ₚ l) as Hp.
      { unfold bt_remove. rewrite rm_failed0. pose proof (bt_remove_head l k v rm_nodup0) as E.
        unfold bt_remove in E. by rewrite E. }
      rewrite evict_room; [|apply Permutation_length in Hp; unfold len; cbn in *; lia].
      split_and!; [done..|]. cbn in *. rewrite drop_0. lia.
    + assert (length ((k, v) :: l) + 1 - Z.to_nat (ms_max_failed m) = 0)%nat as -> by lia.
      split_and!; [done..|]. rewrite drop_0. lia.
Qed.

Lemma monitor_exec_remembers m l ev :
  mon_wf m → remembers m l →
  remembers (monitor_exec m ev) (remember (ms_max_failed m) l ev).
Proof.
  intros Hwf Hm.
  assert (∀ m', ms_failed m' = ms_failed m → ms_order m' = ms_order m →
                ms_max_failed m' = ms_max_failed m → remembers m' l) as Hsame.
  { intros m' E1 E2 E3. destruct Hm. constructor; congruence. }
  destruct ev as [a|a failure now delay|a add|e reason]; cbn [monitor_exec remember].
  - unfold connected; cbn [fst].
    match goal with |- context [on_record a ?f m] =>
      destruct (on_record_spec a f m Hwf) as (_ & _ & H1 & H2 & H3 & _) end. by apply Hsame.
  - unfold disconnected. set (m1 := mkMonitorState _ _ _ _ _ _).
    match goal with |- context [on_record a ?f m1] =>
      destruct (on_record_spec a f m1 Hwf) as (_ & _ & H1 & H2 & H3 & _) end. by apply Hsame.
  - unfold reference.
    match goal with |- context [on_record a ?f m] =>
      destruct (on_record_spec a f m Hwf) as (_ & _ & H1 & H2 & H3 & _) end. by apply Hsame.
  - unfold endpoint_failed. destruct (is_well_known (ep_token e)); [done|]. cbn [orb].
    rewrite (remembers_get m l) by done.
    destruct (bt_get (failed_key e reason) l) as [f|] eqn:Eg.
    { rewrite bool_decide_true; [done|]. apply dec_stable. intros Hn%bt_get_None. congruence. }
    apply bt_get_None in Eg. rewrite bool_decide_false by done.
    pose proof (evict_spec m l Hm) as E. cbn in E.
    destruct (evict _ _ _) as [order failed]. destruct E as (-> & Hp & Hlt). destruct Hm.
    set (l' := drop _ l) in *.
    assert (failed_key e reason ∉ l'.*1) as Hk'.
    { unfold l'. rewrite fmap_drop. intros Hin. apply Eg. by eapply (subseteq_drop _ l.*1). }
    assert (NoDup l'.*1) as Hn'.
    { unfold l'. rewrite fmap_drop. eapply NoDup_app. by rewrite take_drop. }
    constructor; cbn; [..|done].
    + by rewrite fmap_app.
    + rewrite bt_insert_new; [by rewrite Hp|]. apply bt_get_None. by rewrite Hp.
    + rewrite fmap_app. apply NoDup_app. split_and!; [done| |apply NoDup_singleton].
      intros x Hx ->%list_elem_of_singleton. done.
    + unfold len. rewrite length_app. cbn. lia.
Qed.

Lemma MonitorState_new_remembers mf ma : remembers (MonitorState_new mf ma) [].
Proof. constructor; cbn; try done; [by apply NoDup_nil|unfold len; cbn; lia|lia]. Qed.

(** ** Watched addresses *)

Lemma record_keeps a m a' r :
  mon_wf m → bt_get a' (ms_addresses m) = Some r → forgettable r = false →
  bt_get a' (ms_addresses (record a m)) = Some r.
Proof.
  intros Hwf Hr Hf. unfold record; cbn.
  set (l := match bt_get a (ms_addresses m) with Some _ => _ | None => _ end).
  assert (bt_get a' l = Some r) as El.
  { unfold l. destruct (bt_get a (ms_addresses m)); [done|]. destruct (_ <=? _); [|done].
    destruct (victim _) as [v|] eqn:Ev; [|done]. apply victim_Some in Ev as (r' & Hin & Hf').
    rewrite bt_get_remove. case_decide; [|done]. subst. exfalso.
    rewrite (bt_get_elem v r') in Hr by done. congruence. }
  destruct (bt_get a l) as [ra|] eqn:Ea; [done|]. rewrite bt_get_insert. case_decide; [|done].
  congruence.
Qed.

Lemma on_record_get a f m a' :
  bt_get a' (ms_addresses (on_record a f m)) =
    if decide (a = a') then Some (f (get_record a (record a m)))
    else bt_get a' (ms_addresses (record a m)).
Proof. unfold on_record. apply bt_get_insert. Qed.

(** A watched address that disconnected stays so. *)
Lemma monitor_exec_disconnected m ev a since :
  mon_wf m → 0 < references m a → since ≤ ms_sequence m → disconnected_since m a since = true →
  disconnected_since (monitor_exec m ev) a since = true.
Proof.
  unfold references, disconnected_since. intros Hwf Hr Hs Hd.
  destruct (bt_get a (ms_addresses m)) as [r|] eqn:E; [|done]. apply Z.ltb_lt in Hd.
  assert (forgettable r = false) as Hf.
  { unfold forgettable. rewrite (proj2 (Z.eqb_neq _ _)) by lia. by rewrite andb_false_r. }
  assert (∀ m' a' f, ms_addresses m' = ms_addresses m → ms_max_addresses m' = ms_max_addresses m →
    (∀ r, ar_last_disconnect r ≤ ar_last_disconnect (f r) ∨ since < ar_last_disconnect (f r)) →
    match bt_get a (ms_addresses (on_record a' f m')) with
    | Some r => since <? ar_last_disconnect r
    | None => false
    end = true) as Hk.
  { intros m' a' f Ea Em Hfr. rewrite on_record_get.
    assert (bt_get a (ms_addresses (record a' m')) = Some r) as Erec.
    { apply record_keeps; [unfold mon_wf; by rewrite Ea|by rewrite Ea|done]. }
    case_decide; [subst a'|].
    - unfold get_record. rewrite Erec. cbn. apply Z.ltb_lt. destruct (Hfr r); lia.
    - rewrite Erec. by apply Z.ltb_lt. }
  destruct ev as [a'|a' failure now delay|a' add|e reason]; cbn [monitor_exec].
  - unfold connected; cbn [fst]. apply Hk; [done..|]. intros r'. left. done.
  - unfold disconnected. apply Hk; [done..|]. intros r'. right. destruct failure; cbn; lia.
  - unfold reference. apply Hk; [done..|]. intros r'. left. done.
  - unfold endpoint_failed. destruct (is_well_known _); cbn [fst]; [rewrite E; by apply Z.ltb_lt|].
    destruct (bt_get _ (ms_failed m)); cbn [fst]; [rewrite E; by apply Z.ltb_lt|].
    destruct (evict _ _ _); cbn. rewrite E. by apply Z.ltb_lt.
Qed.

Lemma monitor_exec_sequence m ev : mon_wf m → ms_sequence m ≤ ms_sequence (monitor_exec m ev).
Proof.
  intros Hwf. destruct ev as [a'|a' failure now delay|a' add|e reason]; cbn [monitor_exec].
  1-3: unfold connected, disconnected, reference; cbn; lia.
  unfold endpoint_failed. destruct (is_well_known _); cbn; [lia|].
  destruct (bt_get _ _); cbn; [lia|]. destruct (evict _ _ _); cbn. lia.
Qed.

Lemma monitor_run_wf evs m : mon_wf m → mon_wf (monitor_run evs m).
Proof.
  revert m. induction evs as [|ev evs IH]; intros m Hwf; [done|]. cbn. apply IH.
  destruct ev; by apply (monitor_exec_belief m _ (SocketAddr_new (V4 []) 0)).
Qed.

(** Every event of [evs] finds the address [a] watched. *)
Fixpoint watched_throughout (a : SocketAddr) (evs : list MonitorEvent) (m : MonitorState) : Prop :=
  match evs with
  | [] => True
  | ev :: evs => 0 < references m a ∧ watched_throughout a evs (monitor_exec m ev)
  end.

Lemma watched_disconnect_kept evs m a since :
  mon_wf m → since ≤ ms_sequence m → watched_throughout a evs m →
  disconnected_since m a since = true → disconnected_since (monitor_run evs m) a since = true.
Proof.
  revert m. induction evs as [|ev evs IH]; intros m Hwf Hs Hw Hd; [done|]. cbn in *.
  destruct Hw as [Hr Hw]. apply IH; [|pose proof (monitor_exec_sequence m ev Hwf); lia|done|].
  - apply (monitor_run_wf [ev] m Hwf).
  - by apply monitor_exec_disconnected.
Qed.

(** ** Theorems *)

Lemma MonitorState_new_wf mf ma : mon_wf (MonitorState_new mf ma).
Proof. by apply NoDup_nil. Qed.

(** C38: forgetting addresses is invisible: with a table of any capacity, after
    any sequence of connections, disconnects and watcher changes on any
    addresses, the monitor believes of each address (failed or not, since when
    it has been failing, how many watch it) exactly what a monitor with
    unbounded memory derives from that address's own events: failed only
    after failures in a row lasting the detection delay, cleared by the next
    success.  (The counters of its disconnects are not beliefs: forgetting
    resets them.) *)
Theorem forgetting_is_invisible mf ma evs a :
  belief_of (monitor_run evs (MonitorState_new mf ma)) a = foldl (believe a) Belief_new evs ∧
  address_state (monitor_run evs (MonitorState_new mf ma)) a =
    (if bl_failed (foldl (believe a) Belief_new evs) then AddressFailed else AddressAvailable).
Proof.
  assert (∀ m b, mon_wf m → belief_of m a = b →
            belief_of (monitor_run evs m) a = foldl (believe a) b evs) as Hrun.
  { induction evs as [|ev evs IH]; intros m b Hwf <-; [done|]. cbn.
    destruct (monitor_exec_belief m ev a Hwf) as (H1 & H2 & _). by apply IH. }
  pose proof (Hrun _ Belief_new (MonitorState_new_wf mf ma) eq_refl) as E. split; [done|].
  rewrite <- E. unfold address_state, belief_of, get_record; cbn.
  by destruct (bt_get a _).
Qed.

(** Permanent failures are a bounded queue: after any events the monitor
    remembers exactly the most recent distinct failures, at most its
    capacity, forgetting the oldest first; an endpoint is reported failed for
    good exactly when it, or its incarnation at its address, is among them;
    a well-known endpoint never is. *)
Theorem permanent_failures_bounded mf ma evs e :
  let remembered := foldl (remember (Z.max mf 1)) [] evs in
  len (ms_failed (monitor_run evs (MonitorState_new mf ma))) = len remembered ∧
  len remembered ≤ Z.max mf 1 ∧
  permanent_failure (monitor_run evs (MonitorState_new mf ma)) e =
    if is_well_known (ep_token e) then None else
    match bt_get (FailedEndpoint e) remembered with
    | Some f => Some f
    | None => bt_get (FailedIncarnation (ep_address e) (ep_incarnation e)) remembered
    end.
Proof.
  assert (∀ m l, mon_wf m → remembers m l →
    remembers (monitor_run evs m) (foldl (remember (ms_max_failed m)) l evs) ∧
    ms_max_failed (monitor_run evs m) = ms_max_failed m) as Hrun.
  { induction evs as [|ev evs IH]; intros m l Hwf Hm; [done|]. cbn.
    destruct (monitor_exec_belief m ev (SocketAddr_new (V4 []) 0) Hwf) as (H1 & _ & H2).
    destruct (IH _ _ H1 (monitor_exec_remembers m l ev Hwf Hm)) as [H3 H4].
    rewrite H2 in H3, H4. done. }
  destruct (Hrun _ _ (MonitorState_new_wf mf ma) (MonitorState_new_remembers mf ma)) as [Hm Emax].
  cbn [MonitorState_new ms_max_failed] in Hm, Emax. cbn.
  split_and!.
  - unfold len. by rewrite (rm_failed _ _ Hm).
  - pose proof (rm_bound _ _ Hm). lia.
  - unfold permanent_failure. by rewrite !(remembers_get _ _ _ Hm).
Qed.

(** A watcher that holds a reference misses no disconnect: whatever
    happened before, and whatever happens to other addresses afterwards, once
    a watched address disconnects, a wait that began at the sequence number
    before it sees the disconnect, as long as the address stays watched. *)
Theorem watched_disconnect_seen mf ma evs a failure now delay evs' :
  let m0 := monitor_run evs (MonitorState_new mf ma) in
  let m1 := disconnected a failure now delay m0 in
  watched_throughout a evs' m1 →
  disconnected_since (monitor_run evs' m1) a (ms_sequence m0) = true.
Proof.
  intros m0 m1 Hw.
  assert (mon_wf m0) as Hwf by (apply monitor_run_wf, MonitorState_new_wf).
  apply watched_disconnect_kept; [|..|done|].
  - exact (monitor_run_wf [EvDisconnected a failure now delay] m0 Hwf).
  - unfold m1, disconnected; cbn. lia.
  - unfold m1, disconnected, disconnected_since. rewrite on_record_get.
    rewrite decide_True by done. apply Z.ltb_lt. destruct failure; cbn; lia.
Qed.

(** A wait that holds no reference can miss a disconnect: the address
    disconnects after the wait began, another address then takes its place in
    a full table, and the wait, polled only afterwards, sees nothing. *)
Theorem unwatched_disconnect_missed :
  let a := SocketAddr_new (V4 (map Z_to_byte [10; 0; 1; 1])) 4500 in
  let b := SocketAddr_new (V4 (map Z_to_byte [10; 0; 1; 2])) 4500 in
  let m0 := MonitorState_new 8 1 in
  let m1 := disconnected a false 0 0 m0 in
  let m2 := fst (connected b m1) in
  disconnected_since m1 a (ms_sequence m0) = true ∧
  disconnected_since m2 a (ms_sequence m0) = false ∧ disconnects m2 a = 0.
Proof. by vm_compute. Qed.
