(* ===== verification/Peers.v ===== *)
(** A runtime's relationship with one remote address
    (moonpool-rpc/src/transport/peer.rs): which connection is selected, and how
    re-dialing is paced.

    A connection is named by its id; [look] gives the state of the connection
    behind an [Arc].  A [Weak] candidate is such an id too: a connection is
    dropped only after it was closed, and a closed candidate is not usable, so
    the upgrade itself decides nothing.  Times and durations are nanoseconds.

    [Duration::mul_f64] is computed with the IEEE 754 specification of the
    standard library (binary64, round to nearest even) and the conversion of
    seconds to a [Duration] that rounds to the nearest nanosecond; [None] is its
    panic (a negative, NaN or too large product). *)
From Stdlib Require Import SpecFloat.
From stdpp Require Import base list numbers.
From S2P Require Import Prelude Cursor Frame Wire Connection.

(** ** Floating point *)

Definition f64 : Type := spec_float.

Definition f64_of_Z (n : Z) : f64 := binary_normalize 53 1024 n 0 false.
Definition f64_add : f64 → f64 → f64 := SFadd 53 1024.
Definition f64_sub : f64 → f64 → f64 := SFsub 53 1024.
Definition f64_mul : f64 → f64 → f64 := SFmul 53 1024.
Definition f64_div : f64 → f64 → f64 := SFdiv 53 1024.

Definition f64_clamp (x low high : f64) : f64 :=
  let x := if SFltb x low then low else x in
  if SFltb high x then high else x.

(** [n / 2^k], to the nearest integer and a tie to the even one. *)
Definition div_half_even (n : Z) (k : Z) : Z :=
  let q := Z.shiftr n k in
  let r := n - Z.shiftl q k in
  let half := 2 ^ (k - 1) in
  if (r <? half) || ((r =? half) && Z.even q) then q else q + 1.

Definition as_secs_f64 (d : Z) : f64 :=
  f64_add (f64_of_Z (d / 10 ^ 9)) (f64_div (f64_of_Z (d mod 10 ^ 9)) (f64_of_Z (10 ^ 9))).

Definition from_secs_f64 (x : f64) : option Z :=
  match x with
  | S754_zero _ => Some 0
  | S754_infinity _ | S754_nan | S754_finite true _ _ => None
  | S754_finite false m e =>
      if 0 <=? e then
        if Z.shiftl (Z.pos m) e <? 2 ^ 64 then Some (Z.shiftl (Z.pos m) e * 10 ^ 9) else None
      else Some (div_half_even (Z.pos m * 10 ^ 9) (- e))
  end.

Definition mul_f64 (d : Z) (x : f64) : option Z := from_secs_f64 (f64_mul x (as_secs_f64 d)).

Definition jittered (duration jitter_percent : Z) (draw : f64) : option Z :=
  let one := f64_of_Z 1 in
  let spread := f64_div (f64_of_Z (Z.min jitter_percent 99)) (f64_of_Z 100) in
  let factor :=
    f64_add (f64_sub one spread)
      (f64_mul (f64_mul (f64_of_Z 2) spread) (f64_clamp draw (f64_of_Z 0) one)) in
  mul_f64 duration factor.

(** ** Peers *)

(** The fields of [PeerPolicy] the runtime reads. *)
Record PeerPolicy := mkPeerPolicy {
  pp_initial_reconnect_delay : Z;
  pp_max_reconnect_delay : Z;
  pp_reconnect_growth_percent : Z;
  pp_reconnect_reset_after : Z;
  pp_jitter_percent : Z;
  pp_idle_timeout : Z;
  pp_inbound_idle_timeout : Z;
  pp_failure_detection_delay : Z;
  pp_max_failed_endpoints : Z;
  pp_max_tracked_addresses : Z;
  pp_always_accept_after : Z;
}.

Record Peer := mkPeer {
  pr_current : option Z;
  pr_reconnect_delay : Z;
  pr_last_connect : option Z;
  pr_unestablished_since : option Z;
  pr_candidate : option Z;
}.

Definition Peer_new (policy : PeerPolicy) : Peer :=
  mkPeer None (pp_initial_reconnect_delay policy) None None None.

Definition set_current (c : option Z) (p : Peer) : Peer :=
  mkPeer c (pr_reconnect_delay p) (pr_last_connect p) (pr_unestablished_since p) (pr_candidate p).

Definition set_candidate (c : option Z) (p : Peer) : Peer :=
  mkPeer (pr_current p) (pr_reconnect_delay p) (pr_last_connect p) (pr_unestablished_since p) c.

(** [Duration::saturating_sub] *)
Definition elapsed (now past : Z) : Z := Z.max 0 (now - past).

Definition next_dial (now : Z) (policy : PeerPolicy) (draw : f64) (p : Peer) : option (Peer * Z) :=
  let wait :=
    match pr_last_connect p with
    | None => 0
    | Some last => elapsed (last + pr_reconnect_delay p) now
    end in
  let* wait := jittered wait (pp_jitter_percent policy) draw in
  Some (mkPeer (pr_current p) (pr_reconnect_delay p) (Some (now + wait))
          (Some (default now (pr_unestablished_since p))) (pr_candidate p),
        wait).

Definition Peer_established (p : Peer) : Peer :=
  mkPeer (pr_current p) (pr_reconnect_delay p) (pr_last_connect p) None (pr_candidate p).

Definition dialing_stalled (now delay : Z) (p : Peer) : bool :=
  match pr_unestablished_since p with
  | Some start => delay <=? elapsed now start
  | None => false
  end.

Definition Peer_adopted (now : Z) (p : Peer) : Peer :=
  mkPeer (pr_current p) (pr_reconnect_delay p) (Some now) None (pr_candidate p).

Definition session_ended (now : Z) (policy : PeerPolicy) (p : Peer) : option Peer :=
  let stable :=
    match pr_last_connect p with
    | Some last => pp_reconnect_reset_after policy <? elapsed now last
    | None => false
    end in
  let* delay :=
    if stable then Some (pp_initial_reconnect_delay policy) else
    let* grown :=
      mul_f64 (pr_reconnect_delay p)
        (f64_div (f64_of_Z (pp_reconnect_growth_percent policy)) (f64_of_Z 100)) in
    Some (Z.min grown (pp_max_reconnect_delay policy)) in
  Some (mkPeer (pr_current p) delay (pr_last_connect p) (pr_unestablished_since p) (pr_candidate p)).

Section Live.
Context (look : Z → option Connection).

(** The selected connection, unless it is closed. *)
Definition live (p : Peer) : option Z :=
  let* id := pr_current p in
  let* c := look id in
  if is_closed c then None else Some id.

Definition usable_candidate (p : Peer) : option Z :=
  let* id := pr_candidate p in
  let* c := look id in
  if negb (is_closed c) && q_established (cn_queue c) then Some id else None.

Definition is_forgettable (now : Z) (p : Peer) : bool :=
  bool_decide (live p = None) &&
  match pr_last_connect p with
  | None => true
  | Some last => pr_reconnect_delay p <=? elapsed now last
  end.

End Live.

(** ** The unit tests of peer.rs, evaluated *)

Definition half : f64 := S754_finite false 4503599627370496 (-53).
Definition ms (n : Z) : Z := n * 10 ^ 6.

Definition test_policy : PeerPolicy :=
  mkPeerPolicy (ms 100) (ms 400) 200 (ms 5000) 0 0 0 0 0 0 0.

Definition after_dial (now : Z) (p : option Peer) : option (Peer * Z) :=
  let* p := p in next_dial now test_policy half p.

Definition after_end (now : Z) (p : option Peer) : option Peer :=
  let* p := p in session_ended now test_policy p.

Example jitter_stays_within_its_band :
  jittered (10 ^ 9) 10 (f64_of_Z 0) = Some (ms 900) ∧
  jittered (10 ^ 9) 10 (f64_of_Z 1) = Some (ms 1100) ∧
  jittered 0 50 half = Some 0.
Proof. vm_compute. auto. Qed.

Example backoff_grows_while_unstable :
  let p1 := after_end (ms 10) (fst <$> after_dial 0 (Some (Peer_new test_policy))) in
  let p2 := after_end (ms 300) (fst <$> after_dial (ms 10) p1) in
  let p3 := after_end (ms 800) (fst <$> after_dial (ms 700) p2) in
  (snd <$> after_dial 0 (Some (Peer_new test_policy))) = Some 0 ∧
  (snd <$> after_dial (ms 10) p1) = Some (ms 190) ∧
  (pr_reconnect_delay <$> p1) = Some (ms 200) ∧
  (pr_reconnect_delay <$> p2) = Some (ms 400) ∧
  (pr_reconnect_delay <$> p3) = Some (ms 400) ∧
  (pr_reconnect_delay <$> after_end (ms 9000) (fst <$> after_dial (ms 1200) p3)) = Some (ms 100).
Proof. vm_compute. auto 10. Qed.
