(* ===== verification/Runtime.v ===== *)
(** The RPC runtime's shared state and its peers
    (moonpool-rpc/src/transport/mod.rs and sessions.rs).

    [Runtime] is [Shared] with the [State] behind its mutex.  An
    [Arc<Connection>] is the id of its connection; [rt_sessions] holds every
    connection ever created (the heap the [Arc]s point to) and
    [rt_connections] the ids in the table of open connections.  A session also
    records where its driver task is ([Task]) and the request frame its writer
    took from the queue and has not submitted to [admit_transmit] yet.

    The counters every connection updates are the runtime's: an operation on a
    connection runs with [rt_counters] ([on_conn]).  The other statistics are
    the list of the bumps made, in order.

    Credential sources are application code: a source is a number, and an
    operation that asks it takes the answers as the function [ask].  The text
    of a remote address is not modelled; a session carries the IP address that
    text parses to.  Times are nanoseconds.  Log lines are left out. *)
From stdpp Require Import base list numbers gmap strings pretty sorting.
From S2P Require Import Prelude Cursor Frame Status Wire Connection Registry Monitor Consumer Peers.

Inductive Origin :=
  | OriginLocal
  | OriginConnection (id : Z).

#[global] Instance Origin_eq_dec : EqDecision Origin.
Proof. solve_decision. Defined.

Inductive Delivery := AtMostOnce | Reliable.

#[global] Instance Delivery_eq_dec : EqDecision Delivery.
Proof. solve_decision. Defined.

(** How a call completes: through its one-shot channel, or by ending the
    consumer kept under the call's id. *)
Inductive Completion := CompletionReply | CompletionStream.

Record PendingCall := mkPendingCall {
  pc_origin : Origin;
  pc_endpoint : Endpoint;
  pc_identity : CallIdentity;
  pc_transmitted : bool;
  pc_earlier_transmitted : bool;
  pc_retained : option (list byte);
  pc_credentials : option Z;
  pc_completion : Completion;
}.

Definition may_have_executed (c : PendingCall) : bool :=
  pc_transmitted c || pc_earlier_transmitted c.

Definition is_stream (c : PendingCall) : bool :=
  match pc_completion c with CompletionStream => true | CompletionReply => false end.

Definition set_origin (o : Origin) (c : PendingCall) : PendingCall :=
  mkPendingCall o (pc_endpoint c) (pc_identity c) (pc_transmitted c) (pc_earlier_transmitted c)
    (pc_retained c) (pc_credentials c) (pc_completion c).

Definition set_transmitted (b : bool) (c : PendingCall) : PendingCall :=
  mkPendingCall (pc_origin c) (pc_endpoint c) (pc_identity c) b (pc_earlier_transmitted c)
    (pc_retained c) (pc_credentials c) (pc_completion c).

(** What a session upgrade established about the peer. *)
Record PeerContext := mkPeerContext {
  cx_identity : option string;
  cx_protection : option string;
}.

Definition is_encrypted (c : PeerContext) : bool := bool_decide (is_Some (cx_protection c)).

(** The driver's task of a connection: dialing or upgrading, running the
    framed session, or past its own teardown. *)
Inductive Task := Connecting | InSession | Finished.

#[global] Instance Task_eq_dec : EqDecision Task.
Proof. solve_decision. Defined.

Record Session := mkSession {
  sn_conn : Connection;
  sn_observed_ip : option IpAddr;
  sn_context : option PeerContext;
  sn_task : Task;
  sn_held : option QueuedRequest;
}.

Definition set_conn (c : Connection) (s : Session) : Session :=
  mkSession c (sn_observed_ip s) (sn_context s) (sn_task s) (sn_held s).

Definition set_context (c : option PeerContext) (s : Session) : Session :=
  mkSession (sn_conn s) (sn_observed_ip s) c (sn_task s) (sn_held s).

Definition set_task (t : Task) (s : Session) : Session :=
  mkSession (sn_conn s) (sn_observed_ip s) (sn_context s) t (sn_held s).

Definition set_held (h : option QueuedRequest) (s : Session) : Session :=
  mkSession (sn_conn s) (sn_observed_ip s) (sn_context s) (sn_task s) h.

(** The statistics bumped by the operations modelled here. *)
Inductive Stat :=
  | calls_started | reliable_calls_started | calls_failed_fast | calls_abandoned
  | calls_failed_by_corruption | calls_ended_by_shutdown | retransmissions
  | retention_released_by_failure | overload_refusals | late_replies | misrouted_replies
  | one_way_sent | one_way_dropped | one_way_received | credentials_attached
  | injected_request_cuts | injected_reliable_request_cuts
  | streams_opened | streams_abandoned | streams_cancelled | streams_disconnected
  | late_stream_frames | stream_acks_ignored
  | protocol_violations | checksum_failures | established_checksum_failures
  | version_rejections | ping_timeouts | idle_closes | replaced_connections | pings_sent
  | connections_opened | connections_rejected | connections_refused_by_policy
  | accepted_over_stalled_dial | adopted_connections | unverified_listen_addresses
  | peer_table_full.

#[global] Instance Stat_eq_dec : EqDecision Stat.
Proof. solve_decision. Defined.

Inductive Lifecycle := RUNNING | DRAINING | TERMINATED.

#[global] Instance Lifecycle_eq_dec : EqDecision Lifecycle.
Proof. solve_decision. Defined.

Inductive InboundSharing := SharingDisabled | SameIp | Trusted.

#[global] Instance InboundSharing_eq_dec : EqDecision InboundSharing.
Proof. solve_decision. Defined.

(** The configuration and the constants of a runtime. *)
Record Config := mkConfig {
  cf_address : option SocketAddr;
  cf_incarnation : Z;
  cf_protocol_versions : Z * Z;
  cf_verifies_credentials : bool;
  cf_sends_credentials_over_plaintext : bool;
  cf_credentials : option Z;
  cf_inbound_sharing : InboundSharing;
  cf_max_frame_bytes : Z;
  cf_max_pending_calls : Z;
  cf_max_retained_bytes : Z;
  cf_max_buffered_bytes : Z;
  cf_max_connections : Z;
  cf_max_queued_requests : Z;
  cf_reserved_control_frames : Z;
  cf_max_queued_bytes_per_connection : Z;
  cf_max_queued_bytes : Z;
  cf_peer : PeerPolicy;
}.

(** A request presented for admission, and where its reply goes. *)
Record Admission := mkAdmission {
  ad_local : bool;
  ad_incarnation : Z;
  ad_token : EndpointToken;
  ad_identity : CallIdentity;
  ad_stream_window : option Z;
  ad_metadata : option (list byte);
  ad_body : list byte;
}.

Inductive ReplyRoute :=
  | RouteRemote (connection call_id : Z)
  | RouteLocal (call_id : Z)
  | RouteDiscard.

(** A retained call's next copy, and what the teardown of a connection carries
    from its first critical section to its second. *)
Record Resend := mkResend {
  rs_call_id : Z;
  rs_endpoint : Endpoint;
  rs_identity : CallIdentity;
  rs_body : list byte;
  rs_credentials : option Z;
}.

Record Closing := mkClosing {
  cl_address : option SocketAddr;
  cl_resend : list Resend;
  cl_probe : bool;
}.

(** How a call left the pending table: the peer answered, this runtime failed
    it, its caller gave it up (and was told whether it may have left), or its
    stream ended or was refused. *)
Inductive Outcome :=
  | Replied (result : res RpcError (Z * list byte))
  | Failed (error : RpcError)
  | Abandoned (transmitted : bool)
  | StreamEnded (error : option RpcError)
  | StreamRefused.

(** The shared state.  The last four fields are the history: requests handed
    to admission, request frames that began to leave (connection, call,
    bytes), calls started and calls settled.  An outcome is recorded where it
    is decided, under the state lock; the one-shot send follows once the lock
    is released. *)
Record Runtime := mkRuntime {
  rt_pending : gmap Z PendingCall;
  rt_next_call_id : Z;
  rt_peers : list (SocketAddr * Peer);
  rt_connections : gset Z;
  rt_next_connection_id : Z;
  rt_next_ping : Z;
  rt_monitor : MonitorState;
  rt_lifecycle : Lifecycle;
  rt_driver_gone : bool;
  rt_sessions : gmap Z Session;
  rt_counters : Counters;
  rt_consumers : gmap Z ConsumerCore;
  rt_consumer_counters : ConsumerCounters;
  rt_stats : list Stat;
  rt_notified : Z;
  rt_closing : gmap Z Closing;
  rt_presented : list (Admission * ReplyRoute);
  rt_wire : list (Z * option Z * list byte);
  rt_started : list (Z * Delivery);
  rt_settled : list (Z * Outcome);
}.

Definition set_pending (v : gmap Z PendingCall) (rt : Runtime) : Runtime :=
  mkRuntime v (rt_next_call_id rt) (rt_peers rt) (rt_connections rt) (rt_next_connection_id rt)
    (rt_next_ping rt) (rt_monitor rt) (rt_lifecycle rt) (rt_driver_gone rt) (rt_sessions rt)
    (rt_counters rt) (rt_consumers rt) (rt_consumer_counters rt) (rt_stats rt) (rt_notified rt)
    (rt_closing rt) (rt_presented rt) (rt_wire rt) (rt_started rt) (rt_settled rt).

Definition set_next_call_id (v : Z) (rt : Runtime) : Runtime :=
  mkRuntime (rt_pending rt) v (rt_peers rt) (rt_connections rt) (rt_next_connection_id rt)
    (rt_next_ping rt) (rt_monitor rt) (rt_lifecycle rt) (rt_driver_gone rt) (rt_sessions rt)
    (rt_counters rt) (rt_consumers rt) (rt_consumer_counters rt) (rt_stats rt) (rt_notified rt)
    (rt_closing rt) (rt_presented rt) (rt_wire rt) (rt_started rt) (rt_settled rt).

Definition set_peers (v : list (SocketAddr * Peer)) (rt : Runtime) : Runtime :=
  mkRuntime (rt_pending rt) (rt_next_call_id rt) v (rt_connections rt)
    (rt_next_connection_id rt) (rt_next_ping rt) (rt_monitor rt) (rt_lifecycle rt)
    (rt_driver_gone rt) (rt_sessions rt) (rt_counters rt) (rt_consumers rt)
    (rt_consumer_counters rt) (rt_stats rt) (rt_notified rt) (rt_closing rt) (rt_presented rt)
    (rt_wire rt) (rt_started rt) (rt_settled rt).

Definition set_connections (v : gset Z) (rt : Runtime) : Runtime :=
  mkRuntime (rt_pending rt) (rt_next_call_id rt) (rt_peers rt) v (rt_next_connection_id rt)
    (rt_next_ping rt) (rt_monitor rt) (rt_lifecycle rt) (rt_driver_gone rt) (rt_sessions rt)
    (rt_counters rt) (rt_consumers rt) (rt_consumer_counters rt) (rt_stats rt) (rt_notified rt)
    (rt_closing rt) (rt_presented rt) (rt_wire rt) (rt_started rt) (rt_settled rt).

Definition set_next_connection_id (v : Z) (rt : Runtime) : Runtime :=
  mkRuntime (rt_pending rt) (rt_next_call_id rt) (rt_peers rt) (rt_connections rt) v
    (rt_next_ping rt) (rt_monitor rt) (rt_lifecycle rt) (rt_driver_gone rt) (rt_sessions rt)
    (rt_counters rt) (rt_consumers rt) (rt_consumer_counters rt) (rt_stats rt) (rt_notified rt)
    (rt_closing rt) (rt_presented rt) (rt_wire rt) (rt_started rt) (rt_settled rt).

Definition set_next_ping (v : Z) (rt : Runtime) : Runtime :=
  mkRuntime (rt_pending rt) (rt_next_call_id rt) (rt_peers rt) (rt_connections rt)
    (rt_next_connection_id rt) v (rt_monitor rt) (rt_lifecycle rt) (rt_driver_gone rt)
    (rt_sessions rt) (rt_counters rt) (rt_consumers rt) (rt_consumer_counters rt) (rt_stats rt)
    (rt_notified rt) (rt_closing rt) (rt_presented rt) (rt_wire rt) (rt_started rt)
    (rt_settled rt).

Definition set_monitor (v : MonitorState) (rt : Runtime) : Runtime :=
  mkRuntime (rt_pending rt) (rt_next_call_id rt) (rt_peers rt) (rt_connections rt)
    (rt_next_connection_id rt) (rt_next_ping rt) v (rt_lifecycle rt) (rt_driver_gone rt)
    (rt_sessions rt) (rt_counters rt) (rt_consumers rt) (rt_consumer_counters rt) (rt_stats rt)
    (rt_notified rt) (rt_closing rt) (rt_presented rt) (rt_wire rt) (rt_started rt)
    (rt_settled rt).

Definition set_lifecycle (v : Lifecycle) (rt : Runtime) : Runtime :=
  mkRuntime (rt_pending rt) (rt_next_call_id rt) (rt_peers rt) (rt_connections rt)
    (rt_next_connection_id rt) (rt_next_ping rt) (rt_monitor rt) v (rt_driver_gone rt)
    (rt_sessions rt) (rt_counters rt) (rt_consumers rt) (rt_consumer_counters rt) (rt_stats rt)
    (rt_notified rt) (rt_closing rt) (rt_presented rt) (rt_wire rt) (rt_started rt)
    (rt_settled rt).

Definition set_driver_gone (v : bool) (rt : Runtime) : Runtime :=
  mkRuntime (rt_pending rt) (rt_next_call_id rt) (rt_peers rt) (rt_connections rt)
    (rt_next_connection_id rt) (rt_next_ping rt) (rt_monitor rt) (rt_lifecycle rt) v
    (rt_sessions rt) (rt_counters rt) (rt_consumers rt) (rt_consumer_counters rt) (rt_stats rt)
    (rt_notified rt) (rt_closing rt) (rt_presented rt) (rt_wire rt) (rt_started rt)
    (rt_settled rt).

Definition set_sessions (v : gmap Z Session) (rt : Runtime) : Runtime :=
  mkRuntime (rt_pending rt) (rt_next_call_id rt) (rt_peers rt) (rt_connections rt)
    (rt_next_connection_id rt) (rt_next_ping rt) (rt_monitor rt) (rt_lifecycle rt)
    (rt_driver_gone rt) v (rt_counters rt) (rt_consumers rt) (rt_consumer_counters rt)
    (rt_stats rt) (rt_notified rt) (rt_closing rt) (rt_presented rt) (rt_wire rt)
    (rt_started rt) (rt_settled rt).

Definition set_counters (v : Counters) (rt : Runtime) : Runtime :=
  mkRuntime (rt_pending rt) (rt_next_call_id rt) (rt_peers rt) (rt_connections rt)
    (rt_next_connection_id rt) (rt_next_ping rt) (rt_monitor rt) (rt_lifecycle rt)
    (rt_driver_gone rt) (rt_sessions rt) v (rt_consumers rt) (rt_consumer_counters rt)
    (rt_stats rt) (rt_notified rt) (rt_closing rt) (rt_presented rt) (rt_wire rt)
    (rt_started rt) (rt_settled rt).

Definition set_consumers (v : gmap Z ConsumerCore) (rt : Runtime) : Runtime :=
  mkRuntime (rt_pending rt) (rt_next_call_id rt) (rt_peers rt) (rt_connections rt)
    (rt_next_connection_id rt) (rt_next_ping rt) (rt_monitor rt) (rt_lifecycle rt)
    (rt_driver_gone rt) (rt_sessions rt) (rt_counters rt) v (rt_consumer_counters rt)
    (rt_stats rt) (rt_notified rt) (rt_closing rt) (rt_presented rt) (rt_wire rt)
    (rt_started rt) (rt_settled rt).

Definition set_consumer_counters (v : ConsumerCounters) (rt : Runtime) : Runtime :=
  mkRuntime (rt_pending rt) (rt_next_call_id rt) (rt_peers rt) (rt_connections rt)
    (rt_next_connection_id rt) (rt_next_ping rt) (rt_monitor rt) (rt_lifecycle rt)
    (rt_driver_gone rt) (rt_sessions rt) (rt_counters rt) (rt_consumers rt) v (rt_stats rt)
    (rt_notified rt) (rt_closing rt) (rt_presented rt) (rt_wire rt) (rt_started rt)
    (rt_settled rt).

Definition set_stats (v : list Stat) (rt : Runtime) : Runtime :=
  mkRuntime (rt_pending rt) (rt_next_call_id rt) (rt_peers rt) (rt_connections rt)
    (rt_next_connection_id rt) (rt_next_ping rt) (rt_monitor rt) (rt_lifecycle rt)
    (rt_driver_gone rt) (rt_sessions rt) (rt_counters rt) (rt_consumers rt)
    (rt_consumer_counters rt) v (rt_notified rt) (rt_closing rt) (rt_presented rt) (rt_wire rt)
    (rt_started rt) (rt_settled rt).

Definition set_notified (v : Z) (rt : Runtime) : Runtime :=
  mkRuntime (rt_pending rt) (rt_next_call_id rt) (rt_peers rt) (rt_connections rt)
    (rt_next_connection_id rt) (rt_next_ping rt) (rt_monitor rt) (rt_lifecycle rt)
    (rt_driver_gone rt) (rt_sessions rt) (rt_counters rt) (rt_consumers rt)
    (rt_consumer_counters rt) (rt_stats rt) v (rt_closing rt) (rt_presented rt) (rt_wire rt)
    (rt_started rt) (rt_settled rt).

Definition set_closing (v : gmap Z Closing) (rt : Runtime) : Runtime :=
  mkRuntime (rt_pending rt) (rt_next_call_id rt) (rt_peers rt) (rt_connections rt)
    (rt_next_connection_id rt) (rt_next_ping rt) (rt_monitor rt) (rt_lifecycle rt)
    (rt_driver_gone rt) (rt_sessions rt) (rt_counters rt) (rt_consumers rt)
    (rt_consumer_counters rt) (rt_stats rt) (rt_notified rt) v (rt_presented rt) (rt_wire rt)
    (rt_started rt) (rt_settled rt).

Definition set_presented (v : list (Admission * ReplyRoute)) (rt : Runtime) : Runtime :=
  mkRuntime (rt_pending rt) (rt_next_call_id rt) (rt_peers rt) (rt_connections rt)
    (rt_next_connection_id rt) (rt_next_ping rt) (rt_monitor rt) (rt_lifecycle rt)
    (rt_driver_gone rt) (rt_sessions rt) (rt_counters rt) (rt_consumers rt)
    (rt_consumer_counters rt) (rt_stats rt) (rt_notified rt) (rt_closing rt) v (rt_wire rt)
    (rt_started rt) (rt_settled rt).

Definition set_wire (v : list (Z * option Z * list byte)) (rt : Runtime) : Runtime :=
  mkRuntime (rt_pending rt) (rt_next_call_id rt) (rt_peers rt) (rt_connections rt)
    (rt_next_connection_id rt) (rt_next_ping rt) (rt_monitor rt) (rt_lifecycle rt)
    (rt_driver_gone rt) (rt_sessions rt) (rt_counters rt) (rt_consumers rt)
    (rt_consumer_counters rt) (rt_stats rt) (rt_notified rt) (rt_closing rt) (rt_presented rt) v
    (rt_started rt) (rt_settled rt).

Definition set_started (v : list (Z * Delivery)) (rt : Runtime) : Runtime :=
  mkRuntime (rt_pending rt) (rt_next_call_id rt) (rt_peers rt) (rt_connections rt)
    (rt_next_connection_id rt) (rt_next_ping rt) (rt_monitor rt) (rt_lifecycle rt)
    (rt_driver_gone rt) (rt_sessions rt) (rt_counters rt) (rt_consumers rt)
    (rt_consumer_counters rt) (rt_stats rt) (rt_notified rt) (rt_closing rt) (rt_presented rt)
    (rt_wire rt) v (rt_settled rt).

Definition set_settled (v : list (Z * Outcome)) (rt : Runtime) : Runtime :=
  mkRuntime (rt_pending rt) (rt_next_call_id rt) (rt_peers rt) (rt_connections rt)
    (rt_next_connection_id rt) (rt_next_ping rt) (rt_monitor rt) (rt_lifecycle rt)
    (rt_driver_gone rt) (rt_sessions rt) (rt_counters rt) (rt_consumers rt)
    (rt_consumer_counters rt) (rt_stats rt) (rt_notified rt) (rt_closing rt) (rt_presented rt)
    (rt_wire rt) (rt_started rt) v.

Definition bump (x : Stat) (rt : Runtime) : Runtime := set_stats (rt_stats rt ++ [x]) rt.

(** [watch.notify()] *)
Definition notify (rt : Runtime) : Runtime := set_notified (rt_notified rt + 1) rt.

(** ** Connections behind their [Arc]s *)

Definition look (rt : Runtime) (id : Z) : option Connection := sn_conn <$> rt_sessions rt !! id.

Definition on_session (id : Z) (f : Session → Session) (rt : Runtime) : Runtime :=
  set_sessions (alter f id (rt_sessions rt)) rt.

(** A method call on connection [id], with the runtime's counters. *)
Definition on_conn {A} (id : Z) (f : Connection → Connection * A) (rt : Runtime) :
    Runtime * option A :=
  match rt_sessions rt !! id with
  | None => (rt, None)
  | Some s =>
      let '(c, a) := f (with_counters (sn_conn s) (rt_counters rt)) in
      (set_sessions (<[id := set_conn c s]> (rt_sessions rt)) (set_counters (cn_counters c) rt),
       Some a)
  end.

Definition touch (id : Z) (f : Connection → Connection) (rt : Runtime) : Runtime :=
  fst (on_conn id (λ c, (f c, tt)) rt).

Definition is_closing (rt : Runtime) : bool := bool_decide (rt_lifecycle rt ≠ RUNNING).

Definition refuse_if_closing (rt : Runtime) : res RpcError unit :=
  if is_closing rt then Err (not_admitted R_Shutdown) else Ok tt.

Definition overloaded : RpcError := not_admitted R_Overloaded.

Definition permanent_failure_of (e : WireError) : option PermanentFailure :=
  match e with
  | Status.EndpointNotFound => Some NotFound
  | Status.StaleIncarnation => Some Stale
  | _ => None
  end.

Definition permanent_reason (f : PermanentFailure) : ErrorReason :=
  match f with NotFound => R_EndpointNotFound | Stale => R_StaleIncarnation end.

(** [BTreeMap] iterates in key order. *)
Definition keys_of {A} (m : gmap Z A) : list Z := merge_sort Z.le (map_to_list m).*1.

Section Runtime.
Context `{Xxh3} (config : Config).

Definition advertised_versions : Z * Z :=
  let '(low, high) := cf_protocol_versions config in
  (if cf_verifies_credentials config then Z.max low CREDENTIALS_VERSION else low, high).

(** [encode_frame(..).unwrap_or_default()] *)
Definition framed (message : WireMessage) : list byte :=
  match encode_frame (encode_message message) (2 ^ 32 - 1) with Ok bytes => bytes | _ => [] end.

Definition hello : list byte :=
  let '(min_version, max_version) := advertised_versions in
  framed (Hello PROTOCOL_MAGIC min_version max_version (cf_incarnation config) 0
            (cf_max_frame_bytes config)
            (if bool_decide (cf_inbound_sharing config = SharingDisabled) then None
             else cf_address config)).

Definition Runtime_new : Runtime :=
  mkRuntime ∅ 0 [] ∅ 0 0
    (MonitorState_new (pp_max_failed_endpoints (cf_peer config))
       (pp_max_tracked_addresses (cf_peer config)))
    RUNNING false ∅ (mkCounters 0 0 0 0) ∅ (mkConsumerCounters 0 0 0 0 0 0) [] 0 ∅ [] [] [] [].

Definition new_connection (direction : Direction) (observed : option IpAddr) (now : Z)
    (rt : Runtime) : Runtime * Z :=
  let id := rt_next_connection_id rt in
  let rt := set_next_connection_id (id + 1) rt in
  let c :=
    Connection_new id direction hello
      (mkQueueLimits (cf_max_queued_requests config) (cf_reserved_control_frames config)
         (cf_max_queued_bytes_per_connection config) (cf_max_queued_bytes config))
      now (rt_counters rt) in
  let rt := set_counters (cn_counters c) rt in
  let rt := set_sessions (<[id := mkSession c observed None Connecting None]> (rt_sessions rt)) rt in
  (set_connections ({[id]} ∪ rt_connections rt) rt, id).

(** [adopt]: [id] becomes the selected connection to [listen]; the never-written
    requests of the connection it replaces move to it, and that one is closed. *)
Definition retarget (id : Z) (moved : list QueuedRequest) (pending : gmap Z PendingCall) :
    gmap Z PendingCall :=
  foldl (λ m (r : QueuedRequest),
    match snd r with
    | Some call_id => alter (set_origin (OriginConnection id)) call_id m
    | None => m
    end) pending moved.

Definition adopt (listen : SocketAddr) (id : Z) (replaced : option Z) (now : Z) (rt : Runtime) :
    Runtime :=
  let rt := touch id (select_for listen) rt in
  let rt :=
    match bt_get listen (rt_peers rt) with
    | Some peer =>
        set_peers (bt_insert SocketAddr_lt listen
          (Peer_adopted now (set_candidate None (set_current (Some id) peer))) (rt_peers rt)) rt
    | None => rt
    end in
  let rt := bump adopted_connections rt in
  match replaced with
  | None => rt
  | Some old =>
      let '(rt, moved) := on_conn old take_requests rt in
      let moved := default [] moved in
      let rt := set_pending (retarget id moved (rt_pending rt)) rt in
      let rt := fst (on_conn id (adopt_requests moved now) rt) in
      touch old (λ c, fst (Connection_close Replaced c)) rt
  end.

(** [state.peers.retain(|_, peer| !peer.is_forgettable(now))] *)
Definition retain_peers (now : Z) (rt : Runtime) : Runtime :=
  set_peers (filter (λ e : SocketAddr * Peer, is_forgettable (look rt) now (snd e) = false)
               (rt_peers rt)) rt.

Definition has_peer (address : SocketAddr) (rt : Runtime) : bool :=
  bool_decide (is_Some (bt_get address (rt_peers rt))).

(** The candidate a stalled dial gives way to, and the connection it replaces. *)
Definition stalled_candidate (address : SocketAddr) (now : Z) (rt : Runtime) :
    option (Z * option Z) :=
  let* peer := bt_get address (rt_peers rt) in
  if dialing_stalled now (pp_always_accept_after (cf_peer config)) peer then
    let* candidate := usable_candidate (look rt) peer in
    let replaced :=
      let* current := live (look rt) peer in
      let* c := look rt current in
      if q_established (cn_queue c) then None else Some current in
    if bool_decide (live (look rt) peer = None) || bool_decide (is_Some replaced)
    then Some (candidate, replaced) else None
  else None.

Definition peer_connection (address : SocketAddr) (now : Z) (rt : Runtime) :
    Runtime * res RpcError Z :=
  if is_closing rt then (rt, Err (not_admitted R_Shutdown)) else
  match stalled_candidate address now rt with
  | Some (candidate, replaced) =>
      (adopt address candidate replaced now (bump accepted_over_stalled_dial rt), Ok candidate)
  | None =>
    match (let* peer := bt_get address (rt_peers rt) in live (look rt) peer) with
    | Some existing => (rt, Ok existing)
    | None =>
      if cf_max_connections config <=? Z.of_nat (size (rt_connections rt)) then
        (bump connections_rejected rt, Err overloaded)
      else
      let rt :=
        if negb (has_peer address rt)
           && (pp_max_tracked_addresses (cf_peer config) <=? len (rt_peers rt))
        then retain_peers now rt else rt in
      let '(rt, id) := new_connection Outbound None now rt in
      let rt := touch id (select_for address) rt in
      let peer := default (Peer_new (cf_peer config)) (bt_get address (rt_peers rt)) in
      let rt :=
        set_peers (bt_insert SocketAddr_lt address (set_current (Some id) peer) (rt_peers rt)) rt in
      if rt_driver_gone rt then
        let rt := set_connections (rt_connections rt ∖ {[id]}) rt in
        let rt := touch id (λ c, fst (Connection_close Local c)) rt in
        (on_session id (set_task Finished) rt, Err (not_admitted R_Shutdown))
      else (rt, Ok id)
    end
  end.

(** [accept]; [allowed] is the allow list's verdict on the remote address. *)
Definition accept (observed : option IpAddr) (allowed : bool) (now : Z) (rt : Runtime) :
    Runtime * option Z :=
  if is_closing rt then (rt, None) else
  if negb allowed then (bump connections_refused_by_policy rt, None) else
  if cf_max_connections config <=? Z.of_nat (size (rt_connections rt)) then
    (bump connections_rejected rt, None)
  else
  let '(rt, id) := new_connection Inbound observed now rt in (rt, Some id).

(** ** The handshake *)

(** The connection an accepted session may replace: [Err] keeps this runtime's
    own dial. *)
Definition to_replace (listen local : SocketAddr) (stalled : bool) (current : option Connection) :
    res unit bool :=
  match current with
  | None => Ok false
  | Some c =>
      match cn_direction c with
      | Inbound => Ok false
      | Outbound =>
          if SocketAddr_lt local listen then Ok false
          else if stalled && negb (q_established (cn_queue c)) then Ok true
          else Err tt
      end
  end.

(** The rest of [select_inbound], once the claim is verified and the table has
    room. *)
Definition settle_selection (id : Z) (listen local : SocketAddr) (now : Z) (rt : Runtime) :
    Runtime :=
  let peer := default (Peer_new (cf_peer config)) (bt_get listen (rt_peers rt)) in
  let rt := set_peers (bt_insert SocketAddr_lt listen peer (rt_peers rt)) rt in
  let stalled := dialing_stalled now (pp_always_accept_after (cf_peer config)) peer in
  let current := live (look rt) peer in
  match to_replace listen local stalled (current ≫= look rt) with
  | Ok over_stalled =>
      let rt := if over_stalled : bool then bump accepted_over_stalled_dial rt else rt in
      adopt listen id current now rt
  | _ =>
      set_peers (bt_insert SocketAddr_lt listen (set_candidate (Some id) peer) (rt_peers rt)) rt
  end.

Definition select_inbound (id : Z) (listen : SocketAddr) (now : Z) (rt : Runtime) : Runtime :=
  match cf_address config with
  | None => rt
  | Some local =>
    if bool_decide (listen = local) then rt else
    let observed := rt_sessions rt !! id ≫= sn_observed_ip in
    if bool_decide (cf_inbound_sharing config = SharingDisabled) then rt else
    if bool_decide (cf_inbound_sharing config = SameIp)
       && negb (bool_decide (observed = Some (sa_ip listen)))
    then bump unverified_listen_addresses rt else
    let tracked := pp_max_tracked_addresses (cf_peer config) in
    if negb (has_peer listen rt) && (tracked <=? len (rt_peers rt)) then
      let rt := retain_peers now rt in
      if tracked <=? len (rt_peers rt) then bump peer_table_full rt
      else settle_selection id listen local now rt
    else settle_selection id listen local now rt
  end.

Definition MIN_FRAME_BYTES : Z := 64.

(** [on_hello]; the message about a bad magic leaves out its hexadecimal text. *)
Definition on_hello (id magic min_version max_version incarnation max_frame_bytes : Z)
    (listen : option SocketAddr) (now : Z) (rt : Runtime) : Runtime * res CloseReason unit :=
  if negb (magic =? PROTOCOL_MAGIC) then (rt, Err (Protocol "bad magic")) else
  match negotiate advertised_versions (min_version, max_version) with
  | None =>
      (rt, Err (Version ("peer speaks " +:+ pretty min_version +:+ "..=" +:+ pretty max_version
                 +:+ ", this runtime " +:+ pretty (fst advertised_versions) +:+ "..="
                 +:+ pretty (snd advertised_versions))))
  | Some version =>
    if max_frame_bytes <? MIN_FRAME_BYTES then 
      (rt, Err (Protocol ("peer frame limit " +:+ pretty max_frame_bytes +:+ " below "
                  +:+ pretty MIN_FRAME_BYTES)))
    else
    let rt :=
      match look rt id, listen with
      | Some c, Some listen =>
          match cn_direction c with Inbound => select_inbound id listen now rt | Outbound => rt end
      | _, _ => rt
      end in
    let rt := touch id (establish (mkPeerHello incarnation version max_frame_bytes) now) rt in
    match look rt id ≫= (λ c, q_peer_address (cn_queue c)) with
    | None => (rt, Ok tt)
    | Some address =>
        let rt :=
          match bt_get address (rt_peers rt) with
          | Some peer =>
              set_peers (bt_insert SocketAddr_lt address (Peer_established peer) (rt_peers rt)) rt
          | None => rt
          end in
        let '(monitor, changed) := connected address (rt_monitor rt) in
        let rt := set_monitor monitor rt in
        (if changed then notify rt else rt, Ok tt)
    end
  end.

(** ** Idleness and liveness *)

Definition Shared_close_if_idle (id now : Z) (rt : Runtime) : Runtime * bool :=
  match look rt id with
  | None => (rt, false)
  | Some c =>
    let selected := bool_decide (is_Some (q_peer_address (cn_queue c))) in
    let carried :=
      existsb (λ e : Z * PendingCall, bool_decide (pc_origin (snd e) = OriginConnection id))
        (map_to_list (rt_pending rt)) in
    if selected && carried then (rt, false) else
    let idle :=
      if selected then pp_idle_timeout (cf_peer config)
      else pp_inbound_idle_timeout (cf_peer config) in
    let '(rt, closed) := on_conn id (close_if_idle now idle selected) rt in
    (rt, default false closed)
  end.

Definition ping (id : Z) (rt : Runtime) : Runtime :=
  let nonce := (rt_next_ping rt + 1) mod 2 ^ 64 in
  let rt := set_next_ping nonce rt in
  let '(rt, queued) := on_conn id (push_control (framed (Ping nonce))) rt in
  if default false queued then bump pings_sent rt else rt.

(** [dial_delay]: the jittered pause before a dial; [None] is a panic. *)
Definition dial_delay (address : SocketAddr) (draw : f64) (now : Z) (rt : Runtime) :
    option (Runtime * Z) :=
  match bt_get address (rt_peers rt) with
  | None => Some (rt, 0)
  | Some peer =>
      let* '(peer, wait) := next_dial now (cf_peer config) draw peer in
      Some (set_peers (bt_insert SocketAddr_lt address peer (rt_peers rt)) rt, wait)
  end.

End Runtime.
