(* ===== verification/Calls.v ===== *)
(** Starting, transmitting, completing, abandoning and retransmitting calls
    (moonpool-rpc/src/transport/calls.rs, shutdown.rs, streams.rs and the
    message handler of sessions.rs).

    Every function is one critical section of the state lock with what follows
    it, except the teardown of a connection, whose two critical sections are
    [close_connection] and [finish_teardown]: between them the credential sources
    of the calls to be sent again are asked, which is application code that may
    use the runtime.  The writer takes a frame ([write_next]) and submits it
    ([transmit_held]) in two steps as well, since only the second one holds the
    state lock.

    Admission of a request at a server ([Shared::admit]) is where a presented
    request goes; it is not part of this component. *)
From stdpp Require Import base list numbers gmap strings pretty sorting.
From S2P Require Import Prelude Cursor Frame Status Wire Credit Connection Registry Monitor Producer Consumer Peers Runtime.

Inductive Transmit := Skip | Send | SendThenCut.

#[global] Instance Transmit_eq_dec : EqDecision Transmit.
Proof. solve_decision. Defined.

(** The sources asked for a credential, now. *)
Definition Ask : Type := Z → Endpoint → option (list byte).

(** ** Consumers *)

Definition consuming (rt : Runtime) (core : ConsumerCore) : Consuming :=
  mkConsuming core None None (rt_consumer_counters rt).

Definition store_consumer (call_id : Z) (k : Consuming) (rt : Runtime) : Runtime :=
  set_consumer_counters (k_counters k)
    (set_consumers (<[call_id := k_core k]> (rt_consumers rt)) rt).

(** [ConsumerCore::terminate] of the call's consumer. *)
Definition terminate_consumer (call_id : Z) (error : RpcError) (rt : Runtime) : Runtime :=
  match rt_consumers rt !! call_id with
  | Some core => store_consumer call_id (fst (consumer_terminate error (consuming rt core))) rt
  | None => rt
  end.

(** [Completion]'s drop: a stream still open ends as shut down. *)
Definition drop_completion (call_id : Z) (call : PendingCall) (rt : Runtime) : Runtime :=
  if is_stream call
  then terminate_consumer call_id (RpcError_new R_Shutdown MaybeExecuted) rt else rt.

Definition settle (call_id : Z) (o : Outcome) (rt : Runtime) : Runtime :=
  set_settled (rt_settled rt ++ [(call_id, o)]) rt.

Definition remove_call (call_id : Z) (rt : Runtime) : Runtime :=
  set_pending (delete call_id (rt_pending rt)) rt.

(** [Completion::finish]; [o] says how the result came about. *)
Definition finish (call_id : Z) (call : PendingCall) (o : Outcome) (rt : Runtime) : Runtime :=
  let rt := settle call_id o rt in
  if is_stream call then
    let error :=
      match o with
      | Failed e => e
      | Replied (Err e) => e
      | _ => RpcError_new (R_StreamProtocol "a single reply answered a stream") Executed
      end in
    drop_completion call_id call (terminate_consumer call_id error rt)
  else rt.

Definition known_execution (call : PendingCall) : Execution :=
  if may_have_executed call then MaybeExecuted else NotAdmitted.

Section Calls.
Context `{Xxh3} (config : Config).

(** ** Building requests *)

Definition request_frame (call_id : Z) (endpoint : Endpoint) (identity : CallIdentity)
    (flags stream_window : Z) (metadata body : list byte) (max_frame_bytes : Z) :
    res RpcError (list byte) :=
  let payload :=
    encode_message (Request (mkRequest call_id (ep_incarnation endpoint)
      (et_index (ep_token endpoint)) (et_generation (ep_token endpoint))
      (fst (ci_interface identity)) (snd (ci_interface identity)) (ci_method identity)
      (ci_schema identity) (ci_codec identity) flags stream_window metadata body)) in
  match encode_frame payload max_frame_bytes with
  | Ok frame => Ok frame
  | _ => Err (not_admitted (R_FrameTooLarge (len payload) max_frame_bytes))
  end.

Definition credential_section (source : option Z) (ask : Ask) (endpoint : Endpoint) :
    res RpcError (list byte) :=
  match source ≫= (λ source, ask source endpoint) with
  | None => Ok []
  | Some credential =>
      match encode_bearer credential with
      | Some section => Ok section
      | None =>
          Err (not_admitted (R_Encode ("a " +:+ pretty (len credential)
                 +:+ "-byte credential does not fit the metadata section")))
      end
  end.

Definition credential_source (client : option Z) : option Z :=
  match client with Some s => Some s | None => cf_credentials config end.

Definition call_credentials (client : option Z) (ask : Ask) (endpoint : Endpoint) (rt : Runtime) :
    res RpcError (option Z * list byte) :=
  match refuse_if_closing rt with
  | Ok _ =>
      let source := credential_source client in
      match credential_section source ask endpoint with
      | Ok section => Ok (source, section)
      | Err e => Err e
      | Panic => Panic
      end
  | Err e => Err e
  | Panic => Panic
  end.

Definition precheck (endpoint : Endpoint) (envelope_len : Z) (rt : Runtime) :
    Runtime * res RpcError unit :=
  if cf_max_frame_bytes config <? envelope_len then
    (rt, Err (not_admitted (R_FrameTooLarge envelope_len (cf_max_frame_bytes config))))
  else
  match permanent_failure (rt_monitor rt) endpoint with
  | Some failure =>
      (bump calls_failed_fast rt, Err (not_admitted (permanent_reason failure)))
  | None => (rt, Ok tt)
  end.

Definition retained_bytes (pending : gmap Z PendingCall) : Z :=
  map_fold (λ _ call n, match pc_retained call with Some body => len body | None => 0 end + n) 0
    pending.

Definition check_retention (body_len : Z) (rt : Runtime) : Runtime * res RpcError unit :=
  if cf_max_retained_bytes config <? saturating_add64 (retained_bytes (rt_pending rt)) body_len
  then (bump overload_refusals rt, Err overloaded) else (rt, Ok tt).

(** [state.next_call_id = call_id.checked_add(1)] *)
Definition take_call_id (rt : Runtime) : option (Runtime * Z) :=
  let call_id := rt_next_call_id rt in
  if u64_max <? call_id + 1 then None else Some (set_next_call_id (call_id + 1) rt, call_id).

Definition insert_call (call_id : Z) (call : PendingCall) (delivery : Delivery) (rt : Runtime) :
    Runtime :=
  set_started (rt_started rt ++ [(call_id, delivery)])
    (set_pending (<[call_id := call]> (rt_pending rt)) rt).

Definition present (a : Admission) (route : ReplyRoute) (rt : Runtime) : Runtime :=
  set_presented (rt_presented rt ++ [(a, route)]) rt.

Definition is_local (endpoint : Endpoint) : bool :=
  bool_decide (cf_address config = Some (ep_address endpoint)).

Definition local_admission (endpoint : Endpoint) (identity : CallIdentity) (window : option Z)
    (metadata body : list byte) : Admission :=
  mkAdmission true (ep_incarnation endpoint) (ep_token endpoint) identity window (Some metadata)
    body.

(** The remote half of a start: the frame is built and queued on the peer's
    connection, whose id is returned. *)
Definition queue_request_to (address : SocketAddr) (frame : res RpcError (list byte))
    (call_id : option Z) (now : Z) (rt : Runtime) : Runtime * res RpcError Z :=
  match frame with
  | Err e => (rt, Err e)
  | Panic => (rt, Panic)
  | Ok frame =>
    match peer_connection config address now rt with
    | (rt, Ok id) =>
        match on_conn id (push_request frame call_id now) rt with
        | (rt, Some (Ok _)) => (rt, Ok id)
        | (rt, Some (Err Full)) => (rt, Err overloaded)
        | (rt, _) => (rt, Err (not_admitted R_Disconnected))
        end
    | (rt, Err e) => (rt, Err e)
    | (rt, Panic) => (rt, Panic)
    end
  end.

Definition start_call (endpoint : Endpoint) (identity : CallIdentity) (body : list byte)
    (delivery : Delivery) (client : option Z) (ask : Ask) (now : Z) (rt : Runtime) :
    Runtime * res RpcError Z :=
  match call_credentials client ask endpoint rt with
  | Err e => (rt, Err e)
  | Panic => (rt, Panic)
  | Ok (credentials, metadata) =>
  match precheck endpoint (request_envelope_len (len body) + len metadata) rt with
  | (rt, Err e) => (rt, Err e)
  | (rt, Panic) => (rt, Panic)
  | (rt, Ok _) =>
  if cf_max_pending_calls config <=? Z.of_nat (size (rt_pending rt)) then (rt, Err overloaded) else
  match
    (if bool_decide (delivery = Reliable) then check_retention (len body) rt else (rt, Ok tt))
  with
  | (rt, Err e) => (rt, Err e)
  | (rt, Panic) => (rt, Panic)
  | (rt, Ok _) =>
  match take_call_id rt with
  | None => (rt, Err overloaded)
  | Some (rt, call_id) =>
    if is_local endpoint then
      let rt :=
        insert_call call_id
          (mkPendingCall OriginLocal endpoint identity true false None None CompletionReply)
          AtMostOnce rt in
      let rt := bump calls_started rt in
      (present (local_admission endpoint identity None metadata body) (RouteLocal call_id) rt,
       Ok call_id)
    else
    let retained := if bool_decide (delivery = Reliable) then Some body else None in
    let frame :=
      request_frame call_id endpoint identity 0 0 metadata body (cf_max_frame_bytes config) in
    match queue_request_to (ep_address endpoint) frame (Some call_id) now rt with
    | (rt, Ok id) =>
        let rt :=
          insert_call call_id
            (mkPendingCall (OriginConnection id) endpoint identity false false retained
               (if bool_decide (delivery = Reliable) then credentials else None) CompletionReply)
            delivery rt in
        let rt := bump calls_started rt in
        (if bool_decide (delivery = Reliable) then bump reliable_calls_started rt else rt,
         Ok call_id)
    | (rt, Err e) => (rt, Err e)
    | (rt, Panic) => (rt, Panic)
    end
  end end end end.

Definition send_one_way (endpoint : Endpoint) (identity : CallIdentity) (body : list byte)
    (client : option Z) (ask : Ask) (now : Z) (rt : Runtime) : Runtime * res RpcError unit :=
  match call_credentials client ask endpoint rt with
  | Err e => (rt, Err e)
  | Panic => (rt, Panic)
  | Ok (_, metadata) =>
  match precheck endpoint (request_envelope_len (len body) + len metadata) rt with
  | (rt, Err e) => (rt, Err e)
  | (rt, Panic) => (rt, Panic)
  | (rt, Ok _) =>
    if is_local endpoint then
      let rt := bump one_way_sent rt in
      (present (local_admission endpoint identity None metadata body) RouteDiscard rt, Ok tt)
    else
    let frame :=
      request_frame 0 endpoint identity REQUEST_FLAG_ONE_WAY 0 metadata body
        (cf_max_frame_bytes config) in
    match queue_request_to (ep_address endpoint) frame None now rt with
    | (rt, Ok _) => (bump one_way_sent rt, Ok tt)
    | (rt, Err e) => (rt, Err e)
    | (rt, Panic) => (rt, Panic)
    end
  end end.

(** [start_stream].  The announced window is reserved from the buffer budget
    (a 64-bit atomic), and given back by the drop of the consumer when the
    stream is not opened after all. *)
Definition reserved (n : Z) (rt : Runtime) : Runtime :=
  let k := rt_consumer_counters rt in
  set_consumer_counters
    (mkConsumerCounters (kn_violations k) (kn_buffered_bytes k) (kn_ack_deferrals k)
       (kn_acks_immediate k) (kn_acks_popped k) ((kn_window_reserved k + n) mod 2 ^ 64)) rt.

Definition start_stream (endpoint : Endpoint) (identity : CallIdentity) (body : list byte)
    (window : Z) (client : option Z) (ask : Ask) (now : Z) (rt : Runtime) :
    Runtime * res RpcError Z :=
  match call_credentials client ask endpoint rt with
  | Err e => (rt, Err e)
  | Panic => (rt, Panic)
  | Ok (_, metadata) =>
  match precheck endpoint (stream_request_envelope_len (len body) + len metadata) rt with
  | (rt, Err e) => (rt, Err e)
  | (rt, Panic) => (rt, Panic)
  | (rt, Ok _) =>
  if cf_max_pending_calls config <=? Z.of_nat (size (rt_pending rt)) then (rt, Err overloaded) else
  let before := kn_window_reserved (rt_consumer_counters rt) in
  let rt := reserved window rt in
  if cf_max_buffered_bytes config <? saturating_add64 before window then
    (bump overload_refusals (reserved (- window) rt), Err overloaded)
  else
  match take_call_id rt with
  | None => (reserved (- window) rt, Err overloaded)
  | Some (rt, call_id) =>
    let open rt := set_consumers (<[call_id := ConsumerCore_new call_id window]> (rt_consumers rt)) rt in
    if is_local endpoint then
      let rt :=
        insert_call call_id
          (mkPendingCall OriginLocal endpoint identity true false None None CompletionStream)
          AtMostOnce (open rt) in
      let rt := bump streams_opened rt in
      (present (local_admission endpoint identity (Some window) metadata body)
         (RouteLocal call_id) rt, Ok call_id)
    else
    let frame :=
      request_frame call_id endpoint identity REQUEST_FLAG_STREAM window metadata body
        (cf_max_frame_bytes config) in
    match queue_request_to (ep_address endpoint) frame (Some call_id) now rt with
    | (rt, Ok id) =>
        let rt :=
          insert_call call_id
            (mkPendingCall (OriginConnection id) endpoint identity false false None None
               CompletionStream)
            AtMostOnce (open rt) in
        (bump streams_opened rt, Ok call_id)
    | (rt, Err e) => (reserved (- window) rt, Err e)
    | (rt, Panic) => (rt, Panic)
    end
  end end end.

(** ** Transmission *)

(** Why a request carrying a credential must not be written on the session. *)
Definition credential_refusal (s : Session) : option string :=
  let q := cn_queue (sn_conn s) in
  let old :=
    match q_peer_hello q with Some h => ph_version h <? CREDENTIALS_VERSION | None => false end in
  if old then Some "the session runs protocol version 1, which carries no credential" else
  let anonymous :=
    match sn_context s with
    | Some c => negb (bool_decide (is_Some (cx_identity c)))
    | None => true
    end in
  let inbound := match cn_direction (sn_conn s) with Inbound => true | Outbound => false end in
  if inbound && anonymous then
    Some "an accepted session never authenticated the peer that dialed it"
  else
  let encrypted := match sn_context s with Some c => is_encrypted c | None => false end in
  if negb encrypted && negb (cf_sends_credentials_over_plaintext config) then
    Some "the session is not encrypted"
  else None.

Definition carries_credential (payload : list byte) : bool :=
  match request_metadata_len payload with Some n => 0 <? n | None => false end.

(** Why the frame may not leave on the session, if it may not. *)
Definition transmit_refusal (s : Session) (payload : list byte) : option ErrorReason :=
  let limit :=
    match q_peer_hello (cn_queue (sn_conn s)) with
    | Some h => ph_max_frame_bytes h
    | None => cf_max_frame_bytes config
    end in
  if limit <? len payload then Some (R_FrameTooLarge (len payload) limit)
  else if carries_credential payload then R_CredentialWithheld <$> credential_refusal s
  else None.

(** [admit_transmit]; [cut] is the draw of the fault site the call meets. *)
Definition admit_transmit (s : Session) (call_id : option Z) (frame : list byte) (cut : bool)
    (rt : Runtime) : Runtime * Transmit :=
  let payload := drop (Z.to_nat HEADER_LEN) frame in
  match transmit_refusal s payload with
  | Some refusal =>
      match call_id with
      | None => (bump one_way_dropped rt, Skip)
      | Some call_id =>
          match rt_pending rt !! call_id with
          | None => (rt, Skip)
          | Some call =>
              let error :=
                if pc_earlier_transmitted call then RpcError_new refusal MaybeExecuted
                else not_admitted refusal in
              (finish call_id call (Failed error) (remove_call call_id rt), Skip)
          end
      end
  | None =>
      let rt := if carries_credential payload then bump credentials_attached rt else rt in
      match call_id with
      | None => (rt, Send)
      | Some call_id =>
          match rt_pending rt !! call_id with
          | None => (rt, Send)
          | Some call =>
              let rt :=
                set_pending (<[call_id := set_transmitted true call]> (rt_pending rt)) rt in
              if cut then
                (bump (if bool_decide (is_Some (pc_retained call))
                       then injected_reliable_request_cuts else injected_request_cuts) rt,
                 SendThenCut)
              else (rt, Send)
          end
      end
  end.

(** [write_loop], first half: the next frame of connection [id] is taken.  A
    frame that is not a request is written as it is. *)
Definition write_next (id : Z) (rt : Runtime) : Runtime :=
  match on_conn id Connection_poll_next rt with
  | (rt, Some (Ready (Some o))) =>
      match out_kind o with
      | KindRequest call_id => on_session id (set_held (Some (out_bytes o, call_id))) rt
      | _ => rt
      end
  | (rt, _) => rt
  end.

(** Second half: the request taken is submitted, and written unless refused. *)
Definition transmit_held (id : Z) (cut : bool) (rt : Runtime) : option Runtime :=
  let* s := rt_sessions rt !! id in
  let* '(frame, call_id) := sn_held s in
  let rt := on_session id (set_held None) rt in
  let '(rt, transmit) := admit_transmit s call_id frame cut rt in
  Some match transmit with
       | Skip => rt
       | Send | SendThenCut => set_wire (rt_wire rt ++ [(id, call_id, frame)]) rt
       end.

(** ** Completion *)

(** [state.connections.get(&id)], then [retract]. *)
Definition retract_from (id call_id : Z) (rt : Runtime) : Runtime * option bool :=
  if bool_decide (id ∈ rt_connections rt) then on_conn id (retract call_id) rt else (rt, None).

(** Withdraw a call's queued frame; the call with its [transmitted] settled. *)
Definition withdraw (call_id : Z) (call : PendingCall) (rt : Runtime) : Runtime * PendingCall :=
  match pc_origin call with
  | OriginConnection id =>
      if pc_transmitted call then (rt, call) else
      match retract_from id call_id rt with
      | (rt, Some withdrawn) => (rt, set_transmitted (negb withdrawn) call)
      | (rt, None) => (rt, call)
      end
  | OriginLocal => (rt, call)
  end.

Definition release_one (rt : Runtime) (doomed : Z * ErrorReason) : Runtime :=
  let '(call_id, reason) := doomed in
  match rt_pending rt !! call_id with
  | None => rt
  | Some call =>
      let '(rt, call) := withdraw call_id call (remove_call call_id rt) in
      let rt := bump retention_released_by_failure rt in
      finish call_id call (Failed (RpcError_new reason (known_execution call))) rt
  end.

Definition doomed_calls (rt : Runtime) : list (Z * ErrorReason) :=
  omap (λ call_id,
    let* call := rt_pending rt !! call_id in
    if bool_decide (is_Some (pc_retained call)) then
      (λ failure, (call_id, permanent_reason failure)) <$>
        permanent_failure (rt_monitor rt) (pc_endpoint call)
    else None) (keys_of (rt_pending rt)).

Definition release_failed (rt : Runtime) : Runtime := foldl release_one rt (doomed_calls rt).

Definition reply_result (call : PendingCall) (outcome : WireOutcome) :
    res RpcError (Z * list byte) :=
  match outcome with
  | OutcomeOk codec body => Ok (codec, body)
  | OutcomeErr error =>
      let error := from_wire error (pc_identity call) in
      Err (if pc_earlier_transmitted call then at_least error MaybeExecuted else error)
  end.

Definition complete (origin : Origin) (call_id : Z) (outcome : WireOutcome) (rt : Runtime) :
    Runtime :=
  match rt_pending rt !! call_id with
  | None => bump late_replies rt
  | Some call =>
    if negb (bool_decide (pc_origin call = origin)) then bump misrouted_replies rt else
    let rt := remove_call call_id rt in
    let rt := finish call_id call (Replied (reply_result call outcome)) rt in
    match outcome with
    | OutcomeErr error =>
        match permanent_failure_of error with
        | Some failure =>
            let '(monitor, learned) :=
              endpoint_failed (pc_endpoint call) failure (rt_monitor rt) in
            let rt := set_monitor monitor rt in
            if learned then notify (release_failed rt) else rt
        | None => rt
        end
    | OutcomeOk _ _ => rt
    end
  end.

Definition call_transmitted (call_id : Z) (rt : Runtime) : option bool :=
  may_have_executed <$> rt_pending rt !! call_id.

(** ** The end of a connection *)

(** The text of a refused handshake leaves out the reason's debug form. *)
Definition disconnect_error (reason : CloseReason) (established : bool) (call : PendingCall) :
    RpcError :=
  match reason with
  | ConnectFailed detail => not_admitted (R_ConnectFailed detail)
  | _ =>
      if negb established then not_admitted (R_ConnectFailed "session closed during handshake")
      else if pc_transmitted call then RpcError_new R_Disconnected MaybeExecuted
      else not_admitted R_Disconnected
  end.

Definition is_checksum (r : CloseReason) : bool :=
  match r with CloseReason_Checksum _ => true | _ => false end.

Definition close_call (reason : CloseReason) (established : bool) (address : option SocketAddr)
    (st : Runtime * list Resend) (call_id : Z) : Runtime * list Resend :=
  let '(rt, resend) := st in
  match rt_pending rt !! call_id with
  | None => (rt, resend)
  | Some call =>
    if bool_decide (is_Some (pc_retained call)) && bool_decide (is_Some address)
       && negb (is_stream call)
    then
      let call' :=
        mkPendingCall (pc_origin call) (pc_endpoint call) (pc_identity call) false
          (pc_earlier_transmitted call || pc_transmitted call) (pc_retained call)
          (pc_credentials call) (pc_completion call) in
      (set_pending (<[call_id := call']> (rt_pending rt)) rt,
       resend ++ [mkResend call_id (pc_endpoint call) (pc_identity call)
                    (default [] (pc_retained call)) (pc_credentials call)])
    else
      let rt := remove_call call_id rt in
      let rt :=
        if pc_transmitted call && is_checksum reason then bump calls_failed_by_corruption rt
        else rt in
      (finish call_id call (Failed (disconnect_error reason established call)) rt, resend)
  end.

Definition log_close (reason : CloseReason) (established : bool) (rt : Runtime) : Runtime :=
  match reason with
  | Protocol _ | CloseReason_Checksum _ | Version _ =>
      let rt := bump protocol_violations rt in
      let rt :=
        if is_checksum reason then
          let rt := bump checksum_failures rt in
          if established then bump established_checksum_failures rt else rt
        else rt in
      match reason with Version _ => bump version_rejections rt | _ => rt end
  | PingTimeout => bump ping_timeouts rt
  | Idle => bump idle_closes rt
  | Replaced => bump replaced_connections rt
  | _ => rt
  end.

(** The selected connection of its peer ended; [None] is a panic of the
    backoff's floating point. *)
Definition settle_peer (id : Z) (address : SocketAddr) (now : Z) (rt : Runtime) : option Runtime :=
  match bt_get address (rt_peers rt) with
  | Some peer =>
      if bool_decide (pr_current peer = Some id) then
        let* peer := session_ended now (cf_peer config) (set_current None peer) in
        Some (set_peers (bt_insert SocketAddr_lt address peer (rt_peers rt)) rt)
      else Some rt
  | None => Some rt
  end.

(** [close_connection] up to the end of its first critical section. *)
Definition close_connection (id : Z) (returned : CloseReason) (now : Z) (rt : Runtime) :
    option Runtime :=
  let* c := look rt id in
  let established := q_established (cn_queue c) in
  let '(rt, reason) := on_conn id (Connection_close returned) rt in
  let reason := default returned reason in
  let rt := on_session id (set_task Finished) (set_connections (rt_connections rt ∖ {[id]}) rt) in
  let address := q_peer_address (cn_queue c) in
  let* rt :=
    match address with
    | Some address =>
        let* rt := settle_peer id address now rt in
        Some (notify (set_monitor (disconnected address (is_failure reason) now
          (pp_failure_detection_delay (cf_peer config)) (rt_monitor rt)) rt))
    | None => Some rt
    end in
  let carried :=
    filter (λ call_id, pc_origin <$> rt_pending rt !! call_id = Some (OriginConnection id))
      (keys_of (rt_pending rt)) in
  let '(rt, resend) := foldl (close_call reason established address) (rt, []) carried in
  let probe :=
    match address with
    | Some address => is_failure reason && (0 <? references (rt_monitor rt) address)
    | None => false
    end in
  let rt := log_close reason established rt in
  Some (set_closing (<[id := mkClosing address resend probe]> (rt_closing rt)) rt).

Definition resend_copy (ask : Ask) (r : Resend) : Z * res RpcError (list byte) :=
  (rs_call_id r,
   match credential_section (rs_credentials r) ask (rs_endpoint r) with
   | Ok metadata =>
       request_frame (rs_call_id r) (rs_endpoint r) (rs_identity r) 0 0 metadata (rs_body r)
         (cf_max_frame_bytes config)
   | Err e => Err e
   | Panic => Panic
   end).

Definition retransmit_one (ended : Origin) (connection : res RpcError Z) (now : Z) (rt : Runtime)
    (copy : Z * res RpcError (list byte)) : Runtime :=
  let '(call_id, frame) := copy in
  match rt_pending rt !! call_id with
  | None => rt
  | Some call =>
    if negb (bool_decide (pc_origin call = ended)) then rt else
    let rt := remove_call call_id rt in
    let fail reason rt :=
      finish call_id call (Failed (RpcError_new reason (known_execution call))) rt in
    match permanent_failure (rt_monitor rt) (pc_endpoint call) with
    | Some failure => fail (permanent_reason failure) rt
    | None =>
        match connection, frame with
        | Err error, _ => fail (reason error) rt
        | _, Err error => fail (reason error) rt
        | Ok id, Ok frame =>
            match on_conn id (adopt_requests [(frame, Some call_id)] now) rt with
            | (rt, Some true) =>
                let rt := bump retransmissions rt in
                set_pending (<[call_id := set_origin (OriginConnection id) call]> (rt_pending rt)) rt
            | (rt, _) => fail R_Disconnected rt
            end
        | _, _ => fail R_Disconnected rt
        end
    end
  end.

Definition retransmit (address : SocketAddr) (ended : Origin)
    (copies : list (Z * res RpcError (list byte))) (now : Z) (rt : Runtime) : Runtime :=
  let '(rt, connection) := peer_connection config address now rt in
  foldl (retransmit_one ended connection now) rt copies.

(** The rest of [close_connection]: the copies are built and queued, and the
    streams produced over the session end. *)
Definition finish_teardown (id : Z) (ask : Ask) (now : Z) (rt : Runtime) : option Runtime :=
  let* cl := rt_closing rt !! id in
  let rt := set_closing (delete id (rt_closing rt)) rt in
  let rt :=
    match cl_address cl with
    | Some address =>
        if negb (is_empty (cl_resend cl)) || cl_probe cl then
          retransmit address (OriginConnection id) (resend_copy ask <$> cl_resend cl) now rt
        else rt
    | None => rt
    end in
  let '(rt, streams) := on_conn id take_streams rt in
  Some (foldl (λ rt _, bump streams_disconnected rt) rt (default [] streams)).

(** ** Abandonment and shutdown *)

(** [CallOwner::abandon].  [cancelled] is what a local producer answers when it
    is told to stop. *)
Definition abandon (call_id : Z) (cancelled : bool) (rt : Runtime) : Runtime * option bool :=
  match rt_pending rt !! call_id with
  | None => (rt, None)
  | Some call =>
    let rt := remove_call call_id rt in
    let '(rt, transmitted) :=
      if pc_earlier_transmitted call || pc_transmitted call then (rt, true) else
      match pc_origin call with
      | OriginLocal => (rt, true)
      | OriginConnection id =>
          match retract_from id call_id rt with
          | (rt, Some withdrawn) => (rt, negb withdrawn)
          | (rt, None) => (rt, true)
          end
      end in
    let rt :=
      match pc_completion call, pc_origin call with
      | CompletionStream, OriginConnection id =>
          if transmitted && bool_decide (id ∈ rt_connections rt)
          then bump streams_abandoned (touch id (signal_cancel call_id) rt) else rt
      | CompletionStream, OriginLocal =>
          match rt_consumers rt !! call_id ≫= (λ core, ks_route (kc_state core)) with
          | Some AckLocal =>
              bump streams_abandoned (if cancelled then bump streams_cancelled rt else rt)
          | Some AckRemote => bump streams_abandoned rt
          | None => rt
          end
      | CompletionReply, _ => rt
      end in
    let rt := drop_completion call_id call rt in
    (settle call_id (Abandoned transmitted) (bump calls_abandoned rt), Some transmitted)
  end.

Definition begin_shutdown (rt : Runtime) : Runtime * bool :=
  if is_closing rt then (rt, false) else (set_lifecycle DRAINING rt, true).

Definition terminate_one (rt : Runtime) (call_id : Z) : Runtime :=
  match rt_pending rt !! call_id with
  | None => rt
  | Some call =>
      let '(rt, call) := withdraw call_id call (remove_call call_id rt) in
      let rt := bump calls_ended_by_shutdown rt in
      finish call_id call (Failed (RpcError_new R_Shutdown (known_execution call))) rt
  end.

(** [terminate], without the registry it drains. *)
Definition terminate (rt : Runtime) : Runtime :=
  let rt := set_lifecycle TERMINATED rt in
  let rt := foldl terminate_one rt (keys_of (rt_pending rt)) in
  let rt :=
    foldl (λ rt id, touch id (λ c, fst (Connection_close Local c)) rt) rt
      (merge_sort Z.le (elements (rt_connections rt))) in
  notify rt.

(** ** Reply streams *)

(** [consumer]: the consumer of the pending stream [call_id] from [origin]. *)
Definition consumer_of (origin : Origin) (call_id : Z) (rt : Runtime) :
    Runtime * option ConsumerCore :=
  match rt_pending rt !! call_id with
  | Some call =>
      if bool_decide (pc_origin call = origin) && is_stream call then (rt, rt_consumers rt !! call_id)
      else (bump misrouted_replies rt, None)
  | None => (bump late_stream_frames rt, None)
  end.

(** streams.rs takes the state lock to find the consumer, lets go of it,
    hands the item to the consumer under the consumer's own lock, and takes
    the state lock again to end a call whose item was refused.  Here it is
    one step, as [stream_end] below: what another session does between the
    sections comes before or after it. *)
Definition stream_item (origin : Origin) (call_id sequence codec : Z) (body : list byte)
    (rt : Runtime) : Runtime :=
  let route := match origin with OriginLocal => AckLocal | OriginConnection _ => AckRemote end in
  match consumer_of origin call_id rt with
  | (rt, None) => rt
  | (rt, Some core) =>
      let '(k, took, _) := on_item route sequence codec body (consuming rt core) in
      let rt := store_consumer call_id k rt in
      match took with
      | Accepted => rt
      | Violation _ =>
          let rt :=
            match rt_pending rt !! call_id with
            | Some call =>
                settle call_id StreamRefused (drop_completion call_id call (remove_call call_id rt))
            | None => rt
            end in
          match origin with
          | OriginConnection id => touch id (signal_cancel call_id) rt
          | OriginLocal => rt
          end
      end
  end.

Definition stream_end (origin : Origin) (call_id items : Z) (error : option WireError)
    (rt : Runtime) : Runtime :=
  match consumer_of origin call_id rt with
  | (rt, None) => rt
  | (rt, Some _) =>
    match rt_pending rt !! call_id with
    | None => rt
    | Some call =>
      let rt := remove_call call_id rt in
      let '(monitor, learned) :=
        match error ≫= permanent_failure_of with
        | Some failure => endpoint_failed (pc_endpoint call) failure (rt_monitor rt)
        | None => (rt_monitor rt, false)
        end in
      let rt := set_monitor monitor rt in
      let rt := if learned then notify rt else rt in
      let error := (λ e, from_wire e (pc_identity call)) <$> error in
      let rt :=
        match rt_consumers rt !! call_id with
        | Some core =>
            let '(k, _, _) := on_end items error (consuming rt core) in store_consumer call_id k rt
        | None => rt
        end in
      settle call_id (StreamEnded error) (drop_completion call_id call rt)
    end
  end.

(** ** Messages *)

(** [on_request]: the reply it may owe is counted, the request presented. *)
Definition on_request (id : Z) (r : RequestFields) (rt : Runtime) : Runtime * res CloseReason unit :=
  match rt_sessions rt !! id with
  | None => (rt, Ok tt)
  | Some s =>
    let stream := negb (Z.land (rq_flags r) REQUEST_FLAG_STREAM =? 0) in
    if stream && has_stream (rq_call_id r) (sn_conn s) then
      (rt, Err (Protocol ("stream id " +:+ pretty (rq_call_id r) +:+ " reused while live")))
    else
    let '(rt, route) :=
      if Z.land (rq_flags r) REQUEST_FLAG_ONE_WAY =? 0
      then (fst (on_conn id begin_outstanding rt), RouteRemote id (rq_call_id r))
      else (bump one_way_received rt, RouteDiscard) in
    let carries :=
      match q_peer_hello (cn_queue (sn_conn s)) with
      | Some h => CREDENTIALS_VERSION <=? ph_version h
      | None => false
      end in
    (present (mkAdmission false (rq_incarnation r)
        (from_parts (rq_token_index r) (rq_token_generation r))
        (mkCallIdentity (rq_interface r, rq_interface_version r) (rq_method r) (rq_schema r)
           (rq_codec r))
        (if stream then Some (rq_stream_window r) else None)
        (if carries then Some (rq_metadata r) else None) (rq_body r)) route rt, Ok tt)
  end.

(** [on_message].  What an acknowledgement or a cancel does to a produced stream
    is the producer's; one for a stream that is gone is counted. *)
Definition on_message (id : Z) (message : WireMessage) (now : Z) (rt : Runtime) :
    Runtime * res CloseReason unit :=
  let rt := touch id (note_received now) rt in
  let established :=
    match look rt id with Some c => q_established (cn_queue c) | None => false end in
  match message with
  | Hello magic min_version max_version incarnation _ max_frame_bytes listen =>
      if established then (rt, Err (Protocol "duplicate handshake"))
      else on_hello config id magic min_version max_version incarnation max_frame_bytes listen now rt
  | _ =>
    if negb established then (rt, Err (Protocol "frame before handshake")) else
    match message with
    | Request r => on_request id r (touch id (note_used now) rt)
    | Reply call_id outcome =>
        (complete (OriginConnection id) call_id outcome (touch id (note_used now) rt), Ok tt)
    | Ping nonce => (fst (on_conn id (push_control (framed (Pong nonce))) rt), Ok tt)
    | StreamItem call_id sequence codec body =>
        (stream_item (OriginConnection id) call_id sequence codec body (touch id (note_used now) rt),
         Ok tt)
    | StreamEnd call_id items error =>
        (stream_end (OriginConnection id) call_id items error (touch id (note_used now) rt), Ok tt)
    | StreamAck call_id _ | StreamCancel call_id =>
        let found := match look rt id with Some c => has_stream call_id c | None => false end in
        (if found then rt else bump stream_acks_ignored rt, Ok tt)
    | Pong _ | Hello _ _ _ _ _ _ _ => (rt, Ok tt)
    end
  end.

(** ** Runs

    What the rest of the runtime does to a connection's queues without going
    through the call table: replies, produced streams, acknowledgements of
    consumed ones, and a local close (a reply that cannot be framed). *)
Inductive QueueOp :=
  | Q_push_control (frame : list byte)
  | Q_push_reply (frame : list byte) (release : Release)
  | Q_push_stream_frame (call_id : Z) (frame : StreamFrame)
  | Q_register_stream (call_id : Z) (core : CoreRef)
  | Q_remove_stream (call_id : Z) (discard : bool)
  | Q_signal_ack (call_id consumed : Z)
  | Q_signal_cancel (call_id : Z)
  | Q_end_outstanding
  | Q_close_local.

Definition queue_exec (op : QueueOp) (c : Connection) : Connection :=
  match op with
  | Q_push_control frame => fst (push_control frame c)
  | Q_push_reply frame release => fst (push_reply frame release c)
  | Q_push_stream_frame call_id frame => fst (push_stream_frame call_id frame c)
  | Q_register_stream call_id core => fst (register_stream call_id core c)
  | Q_remove_stream call_id discard => fst (remove_stream call_id discard c)
  | Q_signal_ack call_id consumed => signal_ack call_id consumed c
  | Q_signal_cancel call_id => signal_cancel call_id c
  | Q_end_outstanding => end_outstanding c
  | Q_close_local => fst (Connection_close Local c)
  end.

Inductive CallOp :=
  (* Callers. *)
  | C_start_call (endpoint : Endpoint) (identity : CallIdentity) (body : list byte)
      (delivery : Delivery) (client : option Z) (ask : Ask) (now : Z)
  | C_start_stream (endpoint : Endpoint) (identity : CallIdentity) (body : list byte)
      (window : Z) (client : option Z) (ask : Ask) (now : Z)
  | C_send_one_way (endpoint : Endpoint) (identity : CallIdentity) (body : list byte)
      (client : option Z) (ask : Ask) (now : Z)
  | C_abandon (call_id : Z) (cancelled : bool)
  | C_reference (address : SocketAddr) (add : bool)
  | C_begin_shutdown
  | C_terminate
  (* Receivers of this runtime answering its own calls. *)
  | C_complete_local (call_id : Z) (outcome : WireOutcome)
  | C_local_item (call_id sequence codec : Z) (body : list byte)
  | C_local_end (call_id items : Z) (error : option WireError)
  | C_set_route (call_id : Z)
  (* The driver. *)
  | C_accept (observed : option IpAddr) (allowed : bool) (now : Z)
  | C_dial (address : SocketAddr) (draw : f64) (now : Z)
  | C_run_session (id : Z) (context : PeerContext)
  | C_write_next (id : Z)
  | C_transmit (id : Z) (cut : bool)
  | C_message (id : Z) (message : WireMessage) (now : Z)
  | C_queue (id : Z) (op : QueueOp)
  | C_close_if_idle (id now : Z)
  | C_ping (id : Z)
  | C_close_connection (id : Z) (returned : CloseReason) (now : Z)
  | C_finish_teardown (id : Z) (ask : Ask) (now : Z)
  | C_driver_dropped.

Definition task_of (id : Z) (rt : Runtime) : option Task := sn_task <$> rt_sessions rt !! id.

(** Only a task that never ran its session reports a failed connect
    (driver.rs: [drive_outbound]). *)
Definition may_return (task : Task) (reason : CloseReason) : bool :=
  match reason, task with ConnectFailed _, InSession => false | _, _ => true end.

(** One step; [None] when it cannot happen: a session's steps need its task to
    be there, and the writer holds at most one frame.  After
    [C_driver_dropped] no step of a session is possible any more; the
    sessions' records keep the task they had, though nothing polls it; the
    drop of the shared state, with its table of calls, ends the run. *)
Definition call_exec (op : CallOp) (rt : Runtime) : option Runtime :=
  match op with
  | C_start_call endpoint identity body delivery client ask now =>
      Some (fst (start_call endpoint identity body delivery client ask now rt))
  | C_start_stream endpoint identity body window client ask now =>
      Some (fst (start_stream endpoint identity body window client ask now rt))
  | C_send_one_way endpoint identity body client ask now =>
      Some (fst (send_one_way endpoint identity body client ask now rt))
  | C_abandon call_id cancelled => Some (fst (abandon call_id cancelled rt))
  | C_reference address add => Some (set_monitor (reference address add (rt_monitor rt)) rt)
  | C_begin_shutdown => Some (fst (begin_shutdown rt))
  | C_terminate => Some (terminate rt)
  | C_complete_local call_id outcome => Some (complete OriginLocal call_id outcome rt)
  | C_local_item call_id sequence codec body =>
      Some (stream_item OriginLocal call_id sequence codec body rt)
  | C_local_end call_id items error => Some (stream_end OriginLocal call_id items error rt)
  | C_set_route call_id =>
      Some match rt_consumers rt !! call_id with
           | Some core => store_consumer call_id (set_route AckLocal (consuming rt core)) rt
           | None => rt
           end
  | C_accept observed allowed now =>
      if rt_driver_gone rt then None else Some (fst (accept config observed allowed now rt))
  | C_dial address draw now =>
      if rt_driver_gone rt then None else fst <$> dial_delay config address draw now rt
  | C_run_session id context =>
      if bool_decide (task_of id rt = Some Connecting) && negb (rt_driver_gone rt)
      then Some (bump connections_opened
                   (on_session id (λ s, set_task InSession (set_context (Some context) s)) rt))
      else None
  | C_write_next id =>
      let* s := rt_sessions rt !! id in
      if bool_decide (sn_task s = InSession) && bool_decide (sn_held s = None)
         && negb (rt_driver_gone rt)
      then Some (write_next id rt) else None
  | C_transmit id cut =>
      if bool_decide (task_of id rt = Some InSession) && negb (rt_driver_gone rt)
      then transmit_held id cut rt else None
  | C_message id message now =>
      if bool_decide (task_of id rt = Some InSession) && negb (rt_driver_gone rt)
      then Some (fst (on_message id message now rt)) else None
  | C_queue id op => Some (touch id (queue_exec op) rt)
  | C_close_if_idle id now =>
      if bool_decide (task_of id rt = Some InSession) && negb (rt_driver_gone rt)
      then Some (fst (Shared_close_if_idle config id now rt)) else None
  | C_ping id =>
      if bool_decide (task_of id rt = Some InSession) && negb (rt_driver_gone rt)
      then Some (ping id rt) else None
  | C_close_connection id returned now =>
      let* s := rt_sessions rt !! id in
      if bool_decide (sn_task s ≠ Finished) && bool_decide (sn_held s = None)
         && may_return (sn_task s) returned && negb (rt_driver_gone rt)
      then close_connection id returned now rt else None
  | C_finish_teardown id ask now =>
      if rt_driver_gone rt then None else finish_teardown id ask now rt
  | C_driver_dropped => Some (set_driver_gone true rt)
  end.

Definition call_run (ops : list CallOp) (rt : Runtime) : option Runtime :=
  foldl (λ rt op, rt ≫= call_exec op) (Some rt) ops.

End Calls.

(** ** The history of a call *)

Definition copies_of (call_id : Z) (l : list QueuedRequest) : nat :=
  length (filter (λ r : QueuedRequest, snd r = Some call_id) l).

(** The request frames of a session not submitted yet: the one its writer took,
    then the queue. *)
Definition waiting (s : Session) : list QueuedRequest :=
  option_list (sn_held s) ++ q_requests (cn_queue (sn_conn s)).

(** A copy of the call is still to be submitted on session [id]. *)
Definition waits_on (rt : Runtime) (call_id id : Z) : Prop :=
  ∃ s, rt_sessions rt !! id = Some s ∧ copies_of call_id (waiting s) ≠ 0%nat.

(** How many copies of the call began to leave. *)
Definition written (rt : Runtime) (call_id : Z) : nat :=
  length (filter (λ w : Z * option Z * list byte, snd (fst w) = Some call_id) (rt_wire rt)).

(** This runtime told the caller that the request never left. *)
Definition claims_unsent (o : Outcome) : bool :=
  match o with
  | Failed e => bool_decide (execution e = NotAdmitted)
  | Abandoned transmitted => negb transmitted
  | _ => false
  end.

(** The peer's answer was reported as a rejection before admission. *)
Definition reported_rejected (o : Outcome) : bool :=
  match o with
  | Replied (Err e) => bool_decide (execution e = NotAdmitted)
  | _ => false
  end.
