(* ===== verification/CallsInv.v ===== *)
(** The invariant of the call table.

    [inv] relates the pending calls to the frames waiting on the connections,
    to the frames that began to leave and to the outcomes already decided.
    This file states it, and shows that the primitive changes the operations
    are made of keep it: changes a call cannot notice ([calm]), queueing a
    frame, taking a call in hand, and settling it. *)
From stdpp Require Import base list numbers gmap strings sorting.
From S2P Require Import Prelude Cursor Frame Status Wire Credit Connection Registry Monitor Producer Consumer Peers Runtime Calls.

#[local] Open Scope nat_scope.

(** ** Copies of a call in a queue *)

Lemma copies_of_app cid a b : copies_of cid (a ++ b) = copies_of cid a + copies_of cid b.
Proof. unfold copies_of. by rewrite filter_app, length_app. Qed.

Lemma copies_of_nil cid : copies_of cid [] = 0.
Proof. done. Qed.

Lemma copies_of_cons cid r l :
  copies_of cid (r :: l) = (if bool_decide (snd r = Some cid) then 1 else 0) + copies_of cid l.
Proof.
  unfold copies_of. rewrite filter_cons. case_bool_decide; [by rewrite decide_True|].
  by rewrite decide_False.
Qed.

Lemma copies_of_filter cid (P : QueuedRequest → Prop) `{!∀ r, Decision (P r)} l :
  copies_of cid (filter P l) ≤ copies_of cid l.
Proof.
  induction l as [|r l IH]; [done|]. rewrite filter_cons, copies_of_cons. case_decide; [|lia].
  rewrite copies_of_cons. lia.
Qed.

Lemma copies_of_withdrawn cid l : copies_of cid (filter (λ r : QueuedRequest, snd r ≠ Some cid) l) = 0.
Proof.
  induction l as [|r l IH]; [done|]. rewrite filter_cons. destruct (decide (snd r ≠ Some cid)); [|done].
  rewrite copies_of_cons, bool_decide_false by done. done.
Qed.

Lemma copies_of_None cid l : copies_of cid l = 0 → ∀ r, r ∈ l → snd r ≠ Some cid.
Proof.
  induction l as [|r l IH]; [by intros _ r ?%elem_of_nil|]. rewrite copies_of_cons.
  intros E r'. rewrite elem_of_cons. case_bool_decide; [lia|]. intros [->|Hr]; [done|].
  apply IH; [lia|done].
Qed.

(** ** Changes of a connection a call cannot notice

    Its queue loses frames at most, a closed connection stays closed, and it
    does not establish. *)
Record calm_conn (c c' : Connection) : Prop := {
  cc_copies cid : copies_of cid (q_requests (cn_queue c')) ≤ copies_of cid (q_requests (cn_queue c));
  cc_closed : is_closed c = true → is_closed c' = true;
  cc_empty : is_closed c = true → q_requests (cn_queue c) = [] → q_requests (cn_queue c') = [];
  cc_established : q_established (cn_queue c') = q_established (cn_queue c);
  cc_reason d : q_closed (cn_queue c') = Some (ConnectFailed d) →
                q_closed (cn_queue c) = Some (ConnectFailed d);
}.

#[global] Instance calm_conn_preorder : PreOrder calm_conn.
Proof.
  split; [intros c; by constructor|]. intros a b c [A1 A2 A3 A4 A5] [B1 B2 B3 B4 B5]. constructor.
  - intros cid. specialize (A1 cid). specialize (B1 cid). lia.
  - auto.
  - auto.
  - congruence.
  - auto.
Qed.

(** Nothing of what [calm_conn] speaks about changed. *)
Definition same_view (c c' : Connection) : Prop :=
  q_requests (cn_queue c') = q_requests (cn_queue c) ∧
  q_closed (cn_queue c') = q_closed (cn_queue c) ∧
  q_established (cn_queue c') = q_established (cn_queue c).

Lemma same_view_calm c c' : same_view c c' → calm_conn c c'.
Proof.
  intros (E1 & E2 & E3). constructor; unfold is_closed in *; rewrite ?E1, ?E2, ?E3; done.
Qed.

Lemma view_enlist src q :
  q_requests (enlist src q) = q_requests q ∧ q_closed (enlist src q) = q_closed q ∧
  q_established (enlist src q) = q_established q.
Proof. unfold enlist. by case_bool_decide. Qed.

Lemma same_view_refl c : same_view c c.
Proof. done. Qed.

Ltac same := apply same_view_calm; unfold same_view; cbn; rewrite ?(proj1 (view_enlist _ _)),
  ?(proj1 (proj2 (view_enlist _ _))), ?(proj2 (proj2 (view_enlist _ _))); done.

Lemma calm_with_counters c k : calm_conn c (with_counters c k).
Proof. same. Qed.

Lemma calm_close r c : (∀ d, r ≠ ConnectFailed d) → calm_conn c (fst (Connection_close r c)).
Proof.
  intros Hr. constructor; cbn; try done; [intros; lia|].
  intros d. destruct (q_closed (cn_queue c)); cbn; [done|]. naive_solver.
Qed.

Lemma calm_push_control frame c : calm_conn c (fst (push_control frame c)).
Proof.
  unfold push_control. destruct (is_closed c); [reflexivity|]. case_match; cbn [fst].
  - etrans; [apply calm_with_counters|by apply calm_close].
  - same.
Qed.

Lemma calm_push_reply frame release c : calm_conn c (fst (push_reply frame release c)).
Proof. unfold push_reply. destruct (is_closed c); [reflexivity|]. cbn [fst]. same. Qed.

Lemma calm_push_stream_frame cid frame c : calm_conn c (fst (push_stream_frame cid frame c)).
Proof. unfold push_stream_frame. destruct (is_closed c); [reflexivity|]. cbn [fst]. same. Qed.

Lemma calm_register_stream cid core c : calm_conn c (fst (register_stream cid core c)).
Proof. unfold register_stream. case_match; [reflexivity|]. same. Qed.

Lemma calm_remove_stream cid discard c : calm_conn c (fst (remove_stream cid discard c)).
Proof. unfold remove_stream. destruct discard; same. Qed.

Lemma calm_take_streams c : calm_conn c (fst (take_streams c)).
Proof. same. Qed.

Lemma calm_signal_ack cid n c : calm_conn c (signal_ack cid n c).
Proof. unfold signal_ack. destruct (is_closed c); [reflexivity|]. same. Qed.

Lemma calm_signal_cancel cid c : calm_conn c (signal_cancel cid c).
Proof. unfold signal_cancel. destruct (is_closed c); [reflexivity|]. same. Qed.

Lemma calm_select_for a c : calm_conn c (select_for a c).
Proof. same. Qed.

Lemma calm_note_received n c : calm_conn c (note_received n c).
Proof. same. Qed.

Lemma calm_note_used n c : calm_conn c (note_used n c).
Proof. same. Qed.

Lemma calm_begin_outstanding c : calm_conn c (fst (begin_outstanding c)).
Proof. same. Qed.

Lemma calm_end_outstanding c : calm_conn c (end_outstanding c).
Proof. same. Qed.

Lemma calm_close_if_idle now idle selected c : calm_conn c (fst (close_if_idle now idle selected c)).
Proof.
  unfold close_if_idle. case_match eqn:E; cbn [fst]; [|reflexivity].
  repeat (apply andb_true_iff in E as [E ?]). apply bool_decide_eq_true in E.
  constructor; unfold is_closed; cbn; try done.
Qed.

Lemma retract_requests cid c :
  q_requests (cn_queue (fst (retract cid c))) =
    filter (λ r : QueuedRequest, snd r ≠ Some cid) (q_requests (cn_queue c)) ∧
  q_closed (cn_queue (fst (retract cid c))) = q_closed (cn_queue c) ∧
  q_established (cn_queue (fst (retract cid c))) = q_established (cn_queue c).
Proof. unfold retract. case_match; [done|]. cbn. case_match; done. Qed.

Lemma calm_retract cid c : calm_conn c (fst (retract cid c)).
Proof.
  destruct (retract_requests cid c) as (E1 & E2 & E3).
  constructor; unfold is_closed; rewrite ?E1, ?E2, ?E3; try done.
  - intros. apply copies_of_filter.
  - by intros _ ->.
Qed.

Lemma take_requests_view c :
  snd (take_requests c) = q_requests (cn_queue c) ∧ q_requests (cn_queue (fst (take_requests c))) = [].
Proof. done. Qed.

Lemma calm_take_requests c : calm_conn c (fst (take_requests c)).
Proof. constructor; try done. cbn. intros. unfold copies_of. cbn. lia. Qed.

Lemma calm_queue_exec op c : calm_conn c (queue_exec op c).
Proof.
  destruct op; cbn [queue_exec];
    auto using calm_push_control, calm_push_reply, calm_push_stream_frame, calm_register_stream,
      calm_remove_stream, calm_signal_ack, calm_signal_cancel, calm_end_outstanding.
  by apply calm_close.
Qed.

(** Queueing a frame: refused, or appended. *)
Lemma push_request_view frame cid now c c' r :
  push_request frame cid now c = (c', r) →
  (r ≠ Ok tt ∧ c' = c) ∨
  (r = Ok tt ∧ is_closed c = false ∧ q_requests (cn_queue c') = q_requests (cn_queue c) ++ [(frame, cid)] ∧
   q_closed (cn_queue c') = q_closed (cn_queue c) ∧
   q_established (cn_queue c') = q_established (cn_queue c)).
Proof.
  unfold push_request. destruct (is_closed c) eqn:Ec; [intros [= <- <-]; by left|].
  case_match; intros [= <- <-]; [by left|]. right. cbn.
  rewrite (proj1 (view_enlist _ _)), (proj1 (proj2 (view_enlist _ _))), (proj2 (proj2 (view_enlist _ _))).
  done.
Qed.

Lemma adopt_fold_view moved c :
  let c' :=
    fold_left (λ c '(frame, call_id),
      on_queue (λ q, set_requests (q_requests q ++ [(frame, call_id)]) q)
        (add_bytes (len frame) true c)) moved c in
  q_requests (cn_queue c') = q_requests (cn_queue c) ++ moved ∧
  q_closed (cn_queue c') = q_closed (cn_queue c) ∧
  q_established (cn_queue c') = q_established (cn_queue c).
Proof.
  revert c. induction moved as [|[f i] moved IH]; intros c; cbn; [by rewrite app_nil_r|].
  destruct (IH (on_queue (λ q, set_requests (q_requests q ++ [(f, i)]) q) (add_bytes (len f) true c)))
    as (-> & -> & ->). cbn. by rewrite <- app_assoc.
Qed.

Lemma adopt_requests_view moved now c c' r :
  adopt_requests moved now c = (c', r) →
  (r = false ∧ c' = c) ∨
  (r = true ∧ is_closed c = false ∧ q_requests (cn_queue c') = q_requests (cn_queue c) ++ moved ∧
   q_closed (cn_queue c') = q_closed (cn_queue c) ∧
   q_established (cn_queue c') = q_established (cn_queue c)).
Proof.
  unfold adopt_requests. destruct (is_closed c) eqn:Ec; [intros [= <- <-]; by left|].
  intros [= <- <-]. right. split_and!; [done|done|..]; cbn;
    destruct (adopt_fold_view moved c) as (E1 & E2 & E3);
    case_match; cbn; rewrite ?(proj1 (view_enlist _ _)), ?(proj1 (proj2 (view_enlist _ _))),
      ?(proj2 (proj2 (view_enlist _ _))); done.
Qed.

(** Taking the next frame: a request comes off the queue of an established
    session, anything else leaves the requests alone. *)
Section Poll.
Context `{Xxh3}.

Definition polled_view (c c' : Connection) (o : option Outgoing) : Prop :=
  q_closed (cn_queue c') = q_closed (cn_queue c) ∧
  q_established (cn_queue c') = q_established (cn_queue c) ∧
  match out_kind <$> o with
  | Some (KindRequest cid) =>
      q_established (cn_queue c) = true ∧
      ∃ b, out_bytes <$> o = Some b ∧
        q_requests (cn_queue c) = (b, cid) :: q_requests (cn_queue c')
  | _ => q_requests (cn_queue c') = q_requests (cn_queue c)
  end.

Lemma poll_turns_view n c c' o : poll_turns n c = (c', o) → polled_view c c' o.
Proof.
  revert c. induction n as [|n IH]; intros c; cbn; [by intros [= <- <-]|].
  destruct (q_turns (cn_queue c)) as [|source turns]; [by intros [= <- <-]|].
  destruct (_ && _) eqn:Ew.
  { intros E%IH. exact E. }
  destruct (next_from source _) as [c1 [[[[b k] r] more]|]] eqn:En.
  - intros [= <- <-]. unfold polled_view. destruct source as [| |id]; cbn in En.
    + destruct (q_requests (cn_queue c)) as [|[b0 i0] rest] eqn:Eq; [done|]. simplify_eq.
      cbn in Ew. apply negb_false_iff in Ew. cbn.
      destruct (negb (is_empty rest)); cbn; rewrite ?Eq; eauto 10.
    + destruct (q_replies (cn_queue c)) as [|[b0 i0] rest] eqn:Eq; [done|]. simplify_eq.
      destruct (negb (is_empty rest)); done.
    + destruct (q_stream_out (cn_queue c) !! id) as [[|f rest]|]; simplify_eq.
      destruct (negb (is_empty rest)); done.
  - intros E%IH. destruct source as [| |id]; cbn in En; repeat case_match; simplify_eq; exact E.
Qed.

Lemma poll_next_view c c' p :
  Connection_poll_next c = (c', p) →
  match p with
  | Ready (Some o) => polled_view c c' (Some o)
  | _ => calm_conn c c'
  end.
Proof.
  unfold Connection_poll_next. destruct (is_closed c); [by intros [= <- <-]|].
  destruct (q_control (cn_queue c)) as [|b rest]; [|by intros [= <- <-]].
  destruct (first_key (q_signals (cn_queue c))) as [cid|].
  - destruct (encode_frame _ _); intros [= <- <-]; [done|..];
      (constructor; unfold is_closed; cbn; try done; [by destruct (q_closed (cn_queue c))..|];
       intros d; by destruct (q_closed (cn_queue c))).
  - destruct (poll_turns _ c) as [c1 [o|]] eqn:E; intros [= <- <-]; apply poll_turns_view in E; [done|].
    destruct E as (E1 & E2 & E3). apply same_view_calm. done.
Qed.

End Poll.

(** ** Changes of the runtime a call cannot notice *)

Record session_calm (s s' : Session) : Prop := {
  sc_conn : calm_conn (sn_conn s) (sn_conn s');
  sc_held : sn_held s' = sn_held s ∨ sn_held s' = None;
  sc_task : sn_task s' = sn_task s;
}.

#[global] Instance session_calm_preorder : PreOrder session_calm.
Proof.
  split; [intros s; by constructor; [|left|]|]. intros a b c [A1 A2 A3] [B1 B2 B3].
  constructor; [by etrans| |congruence]. destruct B2 as [->| ->]; auto.
Qed.

Record calm (rt rt' : Runtime) : Prop := {
  ca_pending : rt_pending rt' = rt_pending rt;
  ca_next : rt_next_call_id rt' = rt_next_call_id rt;
  ca_connections : rt_connections rt' = rt_connections rt;
  ca_next_connection : rt_next_connection_id rt' = rt_next_connection_id rt;
  ca_closing : rt_closing rt' = rt_closing rt;
  ca_wire : rt_wire rt' = rt_wire rt;
  ca_started : rt_started rt' = rt_started rt;
  ca_settled : rt_settled rt' = rt_settled rt;
  ca_sessions id : option_Forall2 session_calm (rt_sessions rt !! id) (rt_sessions rt' !! id);
}.

#[global] Instance calm_preorder : PreOrder calm.
Proof.
  split; [intros rt; constructor; try done; intros; reflexivity|]. intros a b c [] []. constructor; try congruence.
  intros id. etrans; [apply ca_sessions0|apply ca_sessions1].
Qed.

(** Assignments to fields the invariant does not read. *)
Ltac calm_fields := constructor; try done; intros; reflexivity.

Lemma calm_bump x rt : calm rt (bump x rt).
Proof. calm_fields. Qed.
Lemma calm_notify rt : calm rt (notify rt).
Proof. calm_fields. Qed.
Lemma calm_peers m rt : calm rt (set_peers m rt).
Proof. calm_fields. Qed.
Lemma calm_monitor m rt : calm rt (set_monitor m rt).
Proof. calm_fields. Qed.
Lemma calm_lifecycle l rt : calm rt (set_lifecycle l rt).
Proof. calm_fields. Qed.
Lemma calm_store cid k rt : calm rt (store_consumer cid k rt).
Proof. calm_fields. Qed.
Lemma calm_consumers m rt : calm rt (set_consumers m rt).
Proof. calm_fields. Qed.
Lemma calm_reserved n rt : calm rt (reserved n rt).
Proof. calm_fields. Qed.
Lemma calm_present a r rt : calm rt (present a r rt).
Proof. calm_fields. Qed.
Lemma calm_ping_id n rt : calm rt (set_next_ping n rt).
Proof. calm_fields. Qed.

Lemma calm_terminate_consumer cid e rt : calm rt (terminate_consumer cid e rt).
Proof. unfold terminate_consumer. case_match; [apply calm_store|reflexivity]. Qed.

Lemma calm_drop_completion cid call rt : calm rt (drop_completion cid call rt).
Proof. unfold drop_completion. case_match; [apply calm_terminate_consumer|reflexivity]. Qed.

Lemma calm_session id f rt :
  (∀ s, rt_sessions rt !! id = Some s → session_calm s (f s)) → calm rt (on_session id f rt).
Proof.
  intros Hf. constructor; try done. intros j. cbn. destruct (decide (j = id)) as [->|].
  - rewrite lookup_alter_eq. destruct (rt_sessions rt !! id); constructor. by apply Hf.
  - rewrite lookup_alter_ne by done. reflexivity.
Qed.

Lemma calm_on_conn {A} id (f : Connection → Connection * A) rt :
  (∀ c, calm_conn c (fst (f c))) → calm rt (fst (on_conn id f rt)).
Proof.
  intros Hf. unfold on_conn. destruct (rt_sessions rt !! id) as [s|] eqn:E; [|reflexivity].
  specialize (Hf (with_counters (sn_conn s) (rt_counters rt))).
  destruct (f (with_counters (sn_conn s) (rt_counters rt))) as [c a]. cbn in *.
  constructor; try done. intros j. cbn. destruct (decide (j = id)) as [->|].
  - rewrite lookup_insert_eq, E. constructor. constructor; [|by left|done].
    cbn. etrans; [apply calm_with_counters|done].
  - rewrite lookup_insert_ne by done. reflexivity.
Qed.

Lemma calm_touch id f rt : (∀ c, calm_conn c (f c)) → calm rt (touch id f rt).
Proof. intros Hf. apply calm_on_conn. intros c. apply Hf. Qed.

Create HintDb calm.
#[export] Hint Resolve calm_bump calm_notify calm_peers calm_monitor calm_lifecycle calm_store
  calm_consumers calm_reserved calm_present calm_ping_id calm_terminate_consumer
  calm_drop_completion : calm.

(** What a call reads of the connections: the frames still waiting only become
    fewer, and nothing else changes. *)
Record quiet (rt rt' : Runtime) : Prop := {
  qu_connections : rt_connections rt' = rt_connections rt;
  qu_next_connection : rt_next_connection_id rt' = rt_next_connection_id rt;
  qu_closing : rt_closing rt' = rt_closing rt;
  qu_wire : rt_wire rt' = rt_wire rt;
  qu_sessions id : option_Forall2 session_calm (rt_sessions rt !! id) (rt_sessions rt' !! id);
}.

Lemma calm_quiet rt rt' : calm rt rt' → quiet rt rt'.
Proof. by intros []. Qed.

(** Only the table of calls and its history changed. *)
Ltac quiet_fields := constructor; try done; intros; reflexivity.

Lemma quiet_pending m rt : quiet rt (set_pending m rt).
Proof. quiet_fields. Qed.
Lemma quiet_settle cid o rt : quiet rt (settle cid o rt).
Proof. quiet_fields. Qed.

Lemma copies_waiting_calm cid s s' :
  session_calm s s' → copies_of cid (waiting s') ≤ copies_of cid (waiting s).
Proof.
  intros [[Hc _ _ _ _] Hh _]. unfold waiting. rewrite !copies_of_app. specialize (Hc cid).
  destruct Hh as [->| ->]; [lia|]. cbn [option_list]. rewrite copies_of_nil. lia.
Qed.

Lemma waits_quiet rt rt' cid id : quiet rt rt' → waits_on rt' cid id → waits_on rt cid id.
Proof.
  intros Hq (s' & E' & Hw). pose proof (qu_sessions _ _ Hq id) as Hs. rewrite E' in Hs.
  inversion Hs as [s s0 Hcalm Es|]; subst. exists s. split; [done|].
  pose proof (copies_waiting_calm cid s s' Hcalm). lia.
Qed.

Lemma written_quiet rt rt' cid : quiet rt rt' → written rt' cid = written rt cid.
Proof. intros [_ _ _ E _]. unfold written. by rewrite E. Qed.

(** ** The invariant *)

Definition unsent (rt : Runtime) (cid : Z) : Prop :=
  written rt cid = 0 ∧ ∀ id, ¬ waits_on rt cid id.

Definition sent_once (rt : Runtime) (cid : Z) : Prop :=
  written rt cid ≤ 1 ∧ (written rt cid ≠ 0 → ∀ id, ¬ waits_on rt cid id).

(** The call is to be sent again by the second half of the teardown of [id]. *)
Definition resent (rt : Runtime) (cid : Z) (call : PendingCall) (id : Z) : Prop :=
  ∃ cl, rt_closing rt !! id = Some cl ∧ cid ∈ rs_call_id <$> cl_resend cl ∧
    is_Some (cl_address cl) ∧ is_Some (pc_retained call) ∧ pc_transmitted call = false.

Abbreviation Excuse := (Z → PendingCall → Z → Prop).

(** A pending call.  [P] excuses a call from having a home: its connection is
    being torn down and the call is still to be looked at. *)
Record call_ok (P : Excuse) (rt : Runtime) (cid : Z) (call : PendingCall) : Prop := {
  k_where id : waits_on rt cid id →
    pc_origin call = OriginConnection id ∧ pc_transmitted call = false;
  k_earlier : pc_earlier_transmitted call = false →
    written rt cid ≤ 1 ∧ (pc_transmitted call = false → written rt cid = 0);
  k_retained : pc_retained call = None → pc_earlier_transmitted call = false;
  k_home id : pc_origin call = OriginConnection id →
    id ∈ rt_connections rt ∨
    resent rt cid call id ∨ P cid call id;
  k_session id : pc_origin call = OriginConnection id → is_Some (rt_sessions rt !! id);
  k_established id s : pc_origin call = OriginConnection id → pc_transmitted call = true →
    rt_sessions rt !! id = Some s → q_established (cn_queue (sn_conn s)) = true;
}.

(** A settled call: what its caller was told stays true. *)
Record settled_ok (rt : Runtime) (cid : Z) (o : Outcome) : Prop := {
  so_unsent : claims_unsent o = true → unsent rt cid;
  so_rejected : reported_rejected o = true → sent_once rt cid;
}.

Record session_ok (rt : Runtime) (id : Z) (s : Session) : Prop := {
  se_id : (id < rt_next_connection_id rt)%Z;
  se_open : sn_task s ≠ Finished → id ∈ rt_connections rt;
  se_finished : sn_task s = Finished →
    (id ∉ rt_connections rt) ∧ is_closed (sn_conn s) = true ∧
    q_requests (cn_queue (sn_conn s)) = [] ∧ sn_held s = None;
  se_connecting : sn_task s = Connecting →
    q_established (cn_queue (sn_conn s)) = false ∧ sn_held s = None;
  se_held : sn_held s ≠ None → q_established (cn_queue (sn_conn s)) = true;
  se_reason d : q_closed (cn_queue (sn_conn s)) = Some (ConnectFailed d) → sn_task s = Finished;
}.

(** A call id nothing knows of yet. *)
Record unused (rt : Runtime) (cid : Z) : Prop := {
  un_pending : rt_pending rt !! cid = None;
  un_settled : cid ∉ (rt_settled rt).*1;
  un_started : cid ∉ (rt_started rt).*1;
  un_unsent : unsent rt cid;
}.

Record inv (P : Excuse) (rt : Runtime) : Prop := {
  i_fresh cid : (rt_next_call_id rt ≤ cid)%Z → unused rt cid;
  i_once cid id s : rt_sessions rt !! id = Some s → copies_of cid (waiting s) ≤ 1;
  i_where cid a b : waits_on rt cid a → waits_on rt cid b → a = b;
  i_call cid call : rt_pending rt !! cid = Some call → call_ok P rt cid call;
  i_settled cid o : (cid, o) ∈ rt_settled rt → settled_ok rt cid o;
  i_settled_once : NoDup (rt_settled rt).*1;
  i_started_once : NoDup (rt_started rt).*1;
  i_started cid : cid ∈ (rt_started rt).*1 ↔
    is_Some (rt_pending rt !! cid) ∨ cid ∈ (rt_settled rt).*1;
  i_settled_gone cid : cid ∈ (rt_settled rt).*1 → rt_pending rt !! cid = None;
  i_at_most_once cid : (cid, AtMostOnce) ∈ rt_started rt →
    sent_once rt cid ∧ ∀ call, rt_pending rt !! cid = Some call → pc_retained call = None;
  i_session id s : rt_sessions rt !! id = Some s → session_ok rt id s;
  i_open id : id ∈ rt_connections rt → is_Some (rt_sessions rt !! id);
  i_closing id cl : rt_closing rt !! id = Some cl → task_of id rt = Some Finished;
}.

Abbreviation calls_ok := (inv (λ _ _ _, False)).

(** ** Quiet changes keep every part *)

Lemma unsent_quiet rt rt' cid : quiet rt rt' → unsent rt cid → unsent rt' cid.
Proof.
  intros Hq [Hw Hn]. split; [by rewrite (written_quiet _ _ _ Hq)|].
  intros id Hw'. by apply (Hn id), (waits_quiet _ _ _ _ Hq).
Qed.

Lemma sent_once_quiet rt rt' cid : quiet rt rt' → sent_once rt cid → sent_once rt' cid.
Proof.
  intros Hq [Hw Hn]. unfold sent_once. rewrite (written_quiet _ _ _ Hq). split; [done|].
  intros Hne id Hw'. by apply (Hn Hne id), (waits_quiet _ _ _ _ Hq).
Qed.

Lemma quiet_session rt rt' id s' :
  quiet rt rt' → rt_sessions rt' !! id = Some s' →
  ∃ s, rt_sessions rt !! id = Some s ∧ session_calm s s'.
Proof.
  intros Hq E'. pose proof (qu_sessions _ _ Hq id) as Hs. rewrite E' in Hs.
  inversion Hs as [s s0 Hcalm Es|]; subst. eauto.
Qed.

Lemma quiet_session' rt rt' id s :
  quiet rt rt' → rt_sessions rt !! id = Some s →
  ∃ s', rt_sessions rt' !! id = Some s' ∧ session_calm s s'.
Proof.
  intros Hq E'. pose proof (qu_sessions _ _ Hq id) as Hs. rewrite E' in Hs.
  inversion Hs as [s0 s' Hcalm Es|]; subst. eauto.
Qed.

Lemma call_ok_quiet P rt rt' cid call : quiet rt rt' → call_ok P rt cid call → call_ok P rt' cid call.
Proof.
  intros Hq [A B C D S E]. constructor.
  - intros id Hw. apply A. by apply (waits_quiet _ _ _ _ Hq).
  - by rewrite (written_quiet _ _ _ Hq).
  - done.
  - unfold resent. rewrite (qu_connections _ _ Hq), (qu_closing _ _ Hq). done.
  - intros id [s Es]%S. destruct (quiet_session' _ _ _ _ Hq Es) as (s' & -> & _). by eexists.
  - intros id s' Ho Ht Es'. destruct (quiet_session _ _ _ _ Hq Es') as (s & Es & [[_ _ _ Ee _] _ _]).
    rewrite Ee. by eapply E.
Qed.

Lemma settled_ok_quiet rt rt' cid o : quiet rt rt' → settled_ok rt cid o → settled_ok rt' cid o.
Proof.
  intros Hq [A B]. constructor; intros Ho.
  - by apply (unsent_quiet _ _ _ Hq), A.
  - by apply (sent_once_quiet _ _ _ Hq), B.
Qed.

Lemma session_ok_quiet rt rt' id s s' :
  quiet rt rt' → session_calm s s' → session_ok rt id s → session_ok rt' id s'.
Proof.
  intros Hq [[_ C2 C3 C4 C5] Hh Ht] [A B C D E F]. constructor; rewrite ?Ht, ?C4.
  - by rewrite (qu_next_connection _ _ Hq).
  - by rewrite (qu_connections _ _ Hq).
  - rewrite (qu_connections _ _ Hq). intros (? & Hc & Hr & Hn)%C. split_and!; auto.
    destruct Hh as [->|]; done.
  - intros [? Hn]%D. split; [done|]. destruct Hh as [->|]; done.
  - intros Hn. apply E. by destruct Hh as [<-|].
  - intros d Hd%C5. by eapply F.
Qed.

Lemma unused_quiet rt rt' cid :
  quiet rt rt' → rt_pending rt' = rt_pending rt → rt_settled rt' = rt_settled rt →
  rt_started rt' = rt_started rt → unused rt cid → unused rt' cid.
Proof.
  intros Hq E1 E2 E3 [A B C D]. constructor; rewrite ?E1, ?E2, ?E3; try done.
  by apply (unsent_quiet _ _ _ Hq).
Qed.

Lemma calm_unused rt rt' cid : calm rt rt' → unused rt cid → unused rt' cid.
Proof. intros Hc. pose proof (calm_quiet _ _ Hc). destruct Hc. by apply unused_quiet. Qed.

(** The parts about sessions alone. *)
Record sessions_ok (rt : Runtime) : Prop := {
  ss_once cid id s : rt_sessions rt !! id = Some s → copies_of cid (waiting s) ≤ 1;
  ss_where cid a b : waits_on rt cid a → waits_on rt cid b → a = b;
  ss_session id s : rt_sessions rt !! id = Some s → session_ok rt id s;
  ss_open id : id ∈ rt_connections rt → is_Some (rt_sessions rt !! id);
  ss_closing id cl : rt_closing rt !! id = Some cl → task_of id rt = Some Finished;
}.

Lemma inv_sessions P rt : inv P rt → sessions_ok rt.
Proof. by intros []. Qed.

Lemma sessions_ok_quiet rt rt' : quiet rt rt' → sessions_ok rt → sessions_ok rt'.
Proof.
  intros Hq [A B C D E]. constructor.
  - intros cid id s' Es'. destruct (quiet_session _ _ _ _ Hq Es') as (s & Es & Hs).
    pose proof (copies_waiting_calm cid _ _ Hs). specialize (A cid id s Es). lia.
  - intros cid a b Ha Hb. by apply (B cid); apply (waits_quiet _ _ _ _ Hq).
  - intros id s' Es'. destruct (quiet_session _ _ _ _ Hq Es') as (s & Es & Hs).
    apply (session_ok_quiet rt rt' id s s' Hq Hs). by apply C.
  - intros id. rewrite (qu_connections _ _ Hq). intros [s Es]%D.
    destruct (quiet_session' _ _ _ _ Hq Es) as (s' & -> & _). by eexists.
  - intros id cl. rewrite (qu_closing _ _ Hq). intros Ht%E. unfold task_of in *.
    destruct (rt_sessions rt !! id) as [s|] eqn:Es; [|done].
    destruct (quiet_session' _ _ _ _ Hq Es) as (s' & -> & [_ _ Ht']). cbn in *. by rewrite Ht'.
Qed.

Lemma calm_inv P rt rt' : calm rt rt' → inv P rt → inv P rt'.
Proof.
  intros Hc I. pose proof (calm_quiet _ _ Hc) as Hq.
  destruct (sessions_ok_quiet _ _ Hq (inv_sessions _ _ I)) as [S1 S2 S3 S4 S5].
  destruct I as [I1 _ _ I4 I5 I6 I7 I8 I9 I10 _ _ _].
  constructor; rewrite ?(ca_pending _ _ Hc), ?(ca_settled _ _ Hc), ?(ca_started _ _ Hc); try done.
  - rewrite (ca_next _ _ Hc). intros cid Hn. by apply (calm_unused _ _ _ Hc), I1.
  - intros cid call Ep. by apply (call_ok_quiet _ _ _ _ _ Hq), I4.
  - intros cid o Ho. by apply (settled_ok_quiet _ _ _ _ Hq), I5.
  - intros cid [Ho Hr]%I10. split; [by apply (sent_once_quiet _ _ _ Hq)|done].
Qed.

Lemma inv_mono (P P' : Excuse) rt :
  (∀ cid call id, rt_pending rt !! cid = Some call → pc_origin call = OriginConnection id →
    P cid call id → resent rt cid call id ∨ P' cid call id) →
  inv P rt → inv P' rt.
Proof.
  intros HP [I1 I2 I3 I4 I5 I6 I7 I8 I9 I10 I11 I12 I13]. constructor; try done.
  intros cid call Ep. destruct (I4 cid call Ep) as [A B C D S E]. constructor; try done.
  intros id Ho. destruct (D id Ho) as [?|[?|Hp]]; [by left|by right; left|].
  right. by eapply HP.
Qed.

(** ** Taking a call in hand, and settling it *)

Definition put (cid : Z) (call : PendingCall) (rt : Runtime) : Runtime :=
  set_pending (<[cid := call]> (rt_pending rt)) rt.

(** The call was removed from the table; with it back the invariant holds. *)
Definition in_hand (P : Excuse) (cid : Z) (call : PendingCall) (rt : Runtime) : Prop :=
  rt_pending rt !! cid = None ∧ inv P (put cid call rt).

Lemma take_in_hand P cid call rt :
  inv P rt → rt_pending rt !! cid = Some call → in_hand P cid call (remove_call cid rt).
Proof.
  intros I E. split; [cbn; apply lookup_delete_eq|].
  assert (put cid call (remove_call cid rt) = rt) as ->; [|done].
  unfold put, remove_call. cbn. rewrite insert_delete_id by done. by destruct rt.
Qed.

Lemma in_hand_calm P cid call rt rt' : calm rt rt' → in_hand P cid call rt → in_hand P cid call rt'.
Proof.
  intros Hc [Hn I]. split; [by rewrite (ca_pending _ _ Hc)|]. eapply calm_inv; [|exact I].
  destruct Hc. constructor; try done. cbn. by f_equal.
Qed.

Lemma in_hand_call P cid call rt : in_hand P cid call rt → call_ok P rt cid call.
Proof.
  intros [_ I]. eapply call_ok_quiet; [|apply (i_call _ _ I)]; [quiet_fields|].
  cbn. by rewrite lookup_insert_eq.
Qed.

Lemma in_hand_settle P cid call o rt :
  in_hand P cid call rt → settled_ok rt cid o → inv P (settle cid o rt).
Proof.
  intros [Hn I] Ho. pose proof (quiet_settle cid o rt) as Hq.
  assert (quiet (put cid call rt) (settle cid o rt)) as Hq' by quiet_fields.
  destruct (sessions_ok_quiet _ _ Hq' (inv_sessions _ _ I)) as [S1 S2 S3 S4 S5].
  assert (cid ∉ (rt_settled rt).*1) as Hns.
  { intros Hs. pose proof (i_settled_gone _ _ I cid Hs) as E. cbn in E. by rewrite lookup_insert_eq in E. }
  assert (∀ j, is_Some (<[cid := call]> (rt_pending rt) !! j) ↔ j = cid ∨ is_Some (rt_pending rt !! j)) as Hp.
  { intros j. rewrite lookup_insert_is_Some. destruct (decide (cid = j)); naive_solver. }
  destruct I as [I1 _ _ I4 I5 I6 I7 I8 I9 I10 _ _ _]. cbn in *.
  constructor; try done; cbn.
  - intros j Hj. destruct (I1 j Hj) as [A B C D]. cbn in *.
    assert (j ≠ cid) by (intros ->; by rewrite lookup_insert_eq in A).
    rewrite lookup_insert_ne in A by done. constructor; cbn; try done.
    rewrite fmap_app, elem_of_app. cbn. by intros [?|?%list_elem_of_singleton].
  - intros j call' Ej. apply (call_ok_quiet _ _ _ _ _ Hq'), I4. rewrite lookup_insert_ne; [done|].
    intros ->. congruence.
  - intros j o'. rewrite elem_of_app, list_elem_of_singleton. intros [Hj|[= -> ->]].
    + by apply (settled_ok_quiet _ _ _ _ Hq'), I5.
    + by apply (settled_ok_quiet _ _ _ _ Hq).
  - rewrite fmap_app. apply NoDup_app. split_and!; [done| |apply NoDup_singleton].
    intros j Hj ->%list_elem_of_singleton. done.
  - intros j. rewrite I8, Hp, fmap_app, elem_of_app. cbn. rewrite list_elem_of_singleton. tauto.
  - intros j. rewrite fmap_app, elem_of_app. cbn. rewrite list_elem_of_singleton. intros [Hj| ->]; [|done].
    pose proof (I9 j Hj) as E. destruct (decide (j = cid)) as [->|]; [done|].
    by rewrite lookup_insert_ne in E.
  - intros j [Hs Hr]%I10. split; [by apply (sent_once_quiet _ _ _ Hq')|].
    intros call' Ej. apply Hr. rewrite lookup_insert_ne; [done|]. intros ->. congruence.
Qed.

Lemma calm_finish cid call o rt : calm (settle cid o rt) (finish cid call o rt).
Proof.
  unfold finish. case_match; [|reflexivity].
  etrans; [apply calm_terminate_consumer|apply calm_drop_completion].
Qed.

Lemma in_hand_finish P cid call call' o rt :
  in_hand P cid call rt → settled_ok rt cid o → inv P (finish cid call' o rt).
Proof. intros Hh Ho. eapply calm_inv; [apply calm_finish|by eapply in_hand_settle]. Qed.

(** Pending calls change, their bodies kept. *)
Lemma repend_inv P P' m rt :
  inv P rt →
  (∀ cid c', m !! cid = Some c' →
     ∃ c, rt_pending rt !! cid = Some c ∧ pc_retained c' = pc_retained c ∧ call_ok P' rt cid c') →
  (∀ cid, is_Some (rt_pending rt !! cid) → is_Some (m !! cid)) → inv P' (set_pending m rt).
Proof.
  intros I Hm Hd. pose proof (quiet_pending m rt) as Hq.
  destruct (sessions_ok_quiet _ _ Hq (inv_sessions _ _ I)) as [S1 S2 S3 S4 S5].
  assert (∀ j, rt_pending rt !! j = None → m !! j = None) as Hnone.
  { intros j E. destruct (m !! j) as [c'|] eqn:E'; [|done]. destruct (Hm j c' E') as (c & ? & _). congruence. }
  destruct I as [I1 _ _ I4 I5 I6 I7 I8 I9 I10 _ _ _]. constructor; try done; cbn.
  - intros j Hj. destruct (I1 j Hj) as [A B C D]. constructor; try done; cbn. auto.
  - intros j c' Ej. apply (call_ok_quiet _ _ _ _ _ Hq). by destruct (Hm j c' Ej) as (c & _ & _ & ?).
  - intros j o Ho. by apply (settled_ok_quiet _ _ _ _ Hq), I5.
  - intros j. rewrite I8. split; (intros [Hp|?]; [left|by right]); [auto|].
    destruct Hp as [c' Hc']. destruct (Hm j c' Hc') as (c & ? & _). by eexists.
  - intros j Hj. auto.
  - intros j [Hs Hr]%I10. split; [by apply (sent_once_quiet _ _ _ Hq)|].
    intros c' Ej. destruct (Hm j c' Ej) as (c & Ec & -> & _). by apply Hr.
Qed.

Lemma call_ok_mono (P P' : Excuse) rt cid call :
  (∀ id, P cid call id → P' cid call id) → call_ok P rt cid call → call_ok P' rt cid call.
Proof.
  intros HP [A B C D S E]. constructor; try done.
  intros id Hid. destruct (D id Hid) as [?|[?|?]]; auto.
Qed.

Lemma put_inv (P P' : Excuse) cid call call' rt :
  inv P rt → rt_pending rt !! cid = Some call → call_ok P' rt cid call' →
  pc_retained call' = pc_retained call →
  (∀ j c id, j ≠ cid → P j c id → P' j c id) → inv P' (put cid call' rt).
Proof.
  intros I Ep Hok Hr HP. apply (repend_inv P P'); [done| |].
  - intros j c'. destruct (decide (j = cid)) as [->|Hj].
    + rewrite lookup_insert_eq. intros [= <-]. eauto.
    + rewrite lookup_insert_ne by done. intros Ej. exists c'. split_and!; try done.
      apply (call_ok_mono P P'); [auto|]. by apply I.
  - intros j Hj. apply lookup_insert_is_Some'. by right.
Qed.

(** The same for a call in hand. *)
Lemma in_hand_put P P' cid call call' rt :
  in_hand P cid call rt → call_ok P' rt cid call' → pc_retained call' = pc_retained call →
  (∀ j c id, j ≠ cid → P j c id → P' j c id) → inv P' (put cid call' rt).
Proof.
  intros [Hn I] Hok Hr HP.
  assert (put cid call' rt = put cid call' (put cid call rt)) as ->.
  { unfold put. cbn. by rewrite insert_insert_eq. }
  eapply put_inv; [exact I| |eapply call_ok_quiet; [|exact Hok]; quiet_fields|done|done].
  cbn. by rewrite lookup_insert_eq.
Qed.

(** ** Connections of peers

    A connection that was ever selected for a peer, as every connection that
    carries calls was, knows the peer's address. *)
Definition has_address (rt : Runtime) (id : Z) : Prop :=
  ∃ s, rt_sessions rt !! id = Some s ∧ is_Some (q_peer_address (cn_queue (sn_conn s))).

Record addressed (rt : Runtime) : Prop := {
  ad_peer a p id : (a, p) ∈ rt_peers rt → pr_current p = Some id → has_address rt id;
  ad_call cid call id : rt_pending rt !! cid = Some call → pc_origin call = OriginConnection id →
    has_address rt id;
  ad_stream cid call : rt_pending rt !! cid = Some call → is_stream call = true →
    pc_retained call = None;
}.
