(* ===== verification/CallsSteps.v ===== *)
(** The changes of the call table's connections that a call does notice: a
    frame is queued, taken or written, a session opens, establishes or ends, a
    call is started.  Each keeps the invariant of CallsInv. *)
From stdpp Require Import base list numbers gmap strings sorting.
From S2P Require Import Prelude Cursor Frame Status Wire Credit Connection Registry Monitor Producer Consumer Peers Runtime Calls CallsInv.

#[local] Open Scope nat_scope.

(** ** Queueing frames *)

(** The frames [l] are appended to the queue of session [id]. *)
Record queued (id : Z) (l : list QueuedRequest) (rt rt' : Runtime) : Prop := {
  qd_pending : rt_pending rt' = rt_pending rt;
  qd_next : rt_next_call_id rt' = rt_next_call_id rt;
  qd_connections : rt_connections rt' = rt_connections rt;
  qd_next_connection : rt_next_connection_id rt' = rt_next_connection_id rt;
  qd_closing : rt_closing rt' = rt_closing rt;
  qd_wire : rt_wire rt' = rt_wire rt;
  qd_started : rt_started rt' = rt_started rt;
  qd_settled : rt_settled rt' = rt_settled rt;
  qd_others j : j ≠ id → rt_sessions rt' !! j = rt_sessions rt !! j;
  qd_session : ∃ s s', rt_sessions rt !! id = Some s ∧ rt_sessions rt' !! id = Some s' ∧
    sn_task s' = sn_task s ∧ sn_held s' = sn_held s ∧ is_closed (sn_conn s) = false ∧
    q_requests (cn_queue (sn_conn s')) = q_requests (cn_queue (sn_conn s)) ++ l ∧
    q_closed (cn_queue (sn_conn s')) = q_closed (cn_queue (sn_conn s)) ∧
    q_established (cn_queue (sn_conn s')) = q_established (cn_queue (sn_conn s));
}.

(** A copy of the call may go to session [id]. *)
Record may_queue (rt : Runtime) (id cid : Z) : Prop := {
  mq_waits j : ¬ waits_on rt cid j;
  mq_call call : rt_pending rt !! cid = Some call →
    pc_origin call = OriginConnection id ∧ pc_transmitted call = false;
  mq_settled o : (cid, o) ∈ rt_settled rt →
    claims_unsent o = false ∧ (reported_rejected o = true → written rt cid = 0);
  mq_at_most_once : (cid, AtMostOnce) ∈ rt_started rt → written rt cid = 0;
  mq_next : (cid < rt_next_call_id rt)%Z;
}.

Lemma written_same rt rt' cid : rt_wire rt' = rt_wire rt → written rt' cid = written rt cid.
Proof. intros E. unfold written. by rewrite E. Qed.

Lemma waits_queued id l rt rt' cid j :
  queued id l rt rt' → waits_on rt' cid j ↔ waits_on rt cid j ∨ (j = id ∧ copies_of cid l ≠ 0).
Proof.
  intros Hq. pose proof (qd_session _ _ _ _ Hq) as (s & s' & Es & Es' & _ & Eh & _ & Er & _).
  assert (copies_of cid (waiting s') = copies_of cid (waiting s) + copies_of cid l) as Ec.
  { unfold waiting. by rewrite Er, Eh, app_assoc, copies_of_app. }
  unfold waits_on. destruct (decide (j = id)) as [->|Hj].
  - rewrite Es, Es'. split.
    + intros (x & [= <-] & Hx). rewrite Ec in Hx.
      destruct (decide (copies_of cid l = 0)); [left; exists s; split; [done|lia]|by right].
    + intros [(x & [= <-] & Hx)|[_ Hl]]; exists s'; (split; [done|]); lia.
  - rewrite (qd_others _ _ _ _ Hq j Hj). naive_solver.
Qed.

Lemma queued_call_ok P id l rt rt' cid call :
  queued id l rt rt' → (copies_of cid l ≠ 0 → may_queue rt id cid) →
  rt_pending rt !! cid = Some call → call_ok P rt cid call → call_ok P rt' cid call.
Proof.
  intros Hq Hl Ep [A B C D S E].
  pose proof (qd_session _ _ _ _ Hq) as (s & s' & Es & Es' & _ & _ & _ & _ & _ & Ee). constructor.
  - intros j [Hw|[-> Hc]]%(waits_queued _ _ _ _ _ _ Hq); [by apply A|]. by apply (mq_call _ _ _ (Hl Hc)).
  - by rewrite (written_same _ _ _ (qd_wire _ _ _ _ Hq)).
  - done.
  - unfold resent. rewrite (qd_connections _ _ _ _ Hq), (qd_closing _ _ _ _ Hq). done.
  - intros j Hj%S. destruct (decide (j = id)) as [->|Hne]; [by rewrite Es'|].
    by rewrite (qd_others _ _ _ _ Hq j Hne).
  - intros j x Ho Ht. destruct (decide (j = id)) as [->|Hj].
    + rewrite Es'. intros [= <-]. rewrite Ee. by eapply E.
    + rewrite (qd_others _ _ _ _ Hq j Hj). by apply E.
Qed.

Lemma queued_inv P id l rt rt' :
  inv P rt → queued id l rt rt' →
  (∀ cid, copies_of cid l ≠ 0 → copies_of cid l = 1 ∧ may_queue rt id cid) → inv P rt'.
Proof.
  intros I Hq Hl. pose proof (qd_session _ _ _ _ Hq) as (s & s' & Es & Es' & Et & Eh & Hcl & Er & Ec & Ee).
  assert (∀ cid j, waits_on rt' cid j ↔ waits_on rt cid j ∨ (j = id ∧ copies_of cid l ≠ 0)) as Hw
    by (intros; by apply waits_queued).
  assert (∀ cid, written rt' cid = written rt cid) as Hwr
    by (intros; apply written_same, (qd_wire _ _ _ _ Hq)).
  assert (∀ cid, sent_once rt cid → (copies_of cid l ≠ 0 → written rt cid = 0) → sent_once rt' cid) as Hso.
  { intros cid [A B] C. unfold sent_once. rewrite Hwr. split; [done|].
    intros Hne j [Hj|[_ Hj]]%Hw; [by eapply B|]. by apply C in Hj. }
  constructor; rewrite ?(qd_pending _ _ _ _ Hq), ?(qd_settled _ _ _ _ Hq), ?(qd_started _ _ _ _ Hq);
    try apply I.
  - rewrite (qd_next _ _ _ _ Hq). intros cid Hn. destruct (i_fresh _ _ I cid Hn) as [A B C [D1 D2]].
    constructor; rewrite ?(qd_pending _ _ _ _ Hq), ?(qd_settled _ _ _ _ Hq), ?(qd_started _ _ _ _ Hq); try done.
    split; [by rewrite Hwr|]. intros j [Hj|[_ Hj]]%Hw; [by eapply D2|].
    pose proof (mq_next _ _ _ (proj2 (Hl _ Hj))). lia.
  - intros cid j x Ex. destruct (decide (j = id)) as [->|Hj].
    + rewrite Es' in Ex. injection Ex as <-.
      assert (copies_of cid (waiting s') = copies_of cid (waiting s) + copies_of cid l) as ->.
      { unfold waiting. by rewrite Er, Eh, app_assoc, copies_of_app. }
      pose proof (i_once _ _ I cid id s Es). destruct (decide (copies_of cid l = 0)); [lia|].
      destruct (Hl cid) as [-> Hm]; [done|]. pose proof (mq_waits _ _ _ Hm id) as Hn.
      destruct (decide (copies_of cid (waiting s) = 0)); [lia|]. destruct Hn. by exists s.
    + rewrite (qd_others _ _ _ _ Hq j Hj) in Ex. by eapply i_once.
  - intros cid a b [Ha|[-> Ha]]%Hw [Hb|[-> Hb]]%Hw; try done.
    + by eapply (i_where _ _ I).
    + by pose proof (mq_waits _ _ _ (proj2 (Hl _ Hb)) a).
    + by pose proof (mq_waits _ _ _ (proj2 (Hl _ Ha)) b).
  - intros cid call Ep. eapply queued_call_ok; try done; [|by apply I]. intros Hc. by apply Hl.
  - intros cid o Ho. destruct (i_settled _ _ I cid o Ho) as [A B]. constructor.
    + intros Hc. destruct (A Hc) as [A1 A2]. split; [by rewrite Hwr|].
      intros j [Hj|[_ Hj]]%Hw; [by eapply A2|].
      pose proof (mq_settled _ _ _ (proj2 (Hl _ Hj)) o Ho) as [? _]. congruence.
    + intros Hr. apply Hso; [by apply B|]. intros Hc. by eapply (mq_settled _ _ _ (proj2 (Hl _ Hc))).
  - intros cid Ha. destruct (i_at_most_once _ _ I cid Ha) as [A B]. split; [|done].
    apply Hso; [done|]. intros Hc. by apply (mq_at_most_once _ _ _ (proj2 (Hl _ Hc))).
  - intros j x Ex. destruct (decide (j = id)) as [->|Hj].
    + rewrite Es' in Ex. injection Ex as <-. destruct (i_session _ _ I id s Es) as [A B C D E F].
      constructor; rewrite ?Et, ?Eh, ?Ee, ?Ec; try done; rewrite ?(qd_connections _ _ _ _ Hq), ?(qd_next_connection _ _ _ _ Hq); try done.
      intros (_ & Hc & _)%C. congruence.
    + rewrite (qd_others _ _ _ _ Hq j Hj) in Ex. destruct (i_session _ _ I j x Ex) as [A B C D E F].
      constructor; rewrite ?(qd_connections _ _ _ _ Hq), ?(qd_next_connection _ _ _ _ Hq); done.
  - intros j. rewrite (qd_connections _ _ _ _ Hq). intros [x Ex]%(i_open _ _ I).
    destruct (decide (j = id)) as [->|Hj]; [by eexists|]. rewrite (qd_others _ _ _ _ Hq j Hj). by eexists.
  - intros j cl. rewrite (qd_closing _ _ _ _ Hq). intros Ht%(i_closing _ _ I). unfold task_of in *.
    destruct (decide (j = id)) as [->|Hj]; [rewrite Es in Ht; rewrite Es'; cbn in *; congruence|].
    by rewrite (qd_others _ _ _ _ Hq j Hj).
Qed.

(** A call on a connection that appends [l] or is refused. *)
Lemma on_conn_queued {A} id (f : Connection → Connection * A) l rt rt' a :
  on_conn id f rt = (rt', Some a) →
  (∀ c c' x, f c = (c', x) → x = a → 
     is_closed c = false ∧ q_requests (cn_queue c') = q_requests (cn_queue c) ++ l ∧
     q_closed (cn_queue c') = q_closed (cn_queue c) ∧
     q_established (cn_queue c') = q_established (cn_queue c)) →
  queued id l rt rt'.
Proof.
  unfold on_conn. destruct (rt_sessions rt !! id) as [s|] eqn:Es; [|done].
  destruct (f (with_counters (sn_conn s) (rt_counters rt))) as [c x] eqn:Ef.
  intros [= <- ->] Hf. destruct (Hf _ _ _ Ef eq_refl) as (H1 & H2 & H3 & H4).
  constructor; try done; cbn.
  - intros j Hj. by rewrite lookup_insert_ne.
  - exists s, (set_conn c s). rewrite lookup_insert_eq. by split_and!.
Qed.

(** One that a call does not notice. *)
Lemma on_conn_calm {A} id (f : Connection → Connection * A) rt rt' a :
  on_conn id f rt = (rt', a) →
  (∀ c c' x, f c = (c', x) → a = Some x → calm_conn c c') → calm rt rt'.
Proof.
  unfold on_conn. destruct (rt_sessions rt !! id) as [s|] eqn:Es; [|by intros [= <- <-]].
  destruct (f (with_counters (sn_conn s) (rt_counters rt))) as [c x] eqn:Ef.
  intros [= <- <-] Hf. specialize (Hf _ _ _ Ef eq_refl).
  constructor; try done. intros j. cbn. destruct (decide (j = id)) as [->|].
  - rewrite lookup_insert_eq, Es. constructor. constructor; [|by left|done].
    cbn. etrans; [apply calm_with_counters|done].
  - rewrite lookup_insert_ne by done. reflexivity.
Qed.

(** ** Sessions: one opens, establishes, ends *)

(** Only session [id] changed, and not what waits on it. *)
Record one_session (id : Z) (s s' : Session) (rt rt' : Runtime) : Prop := {
  os_before : rt_sessions rt !! id = Some s;
  os_after : rt_sessions rt' !! id = Some s';
  os_others j : j ≠ id → rt_sessions rt' !! j = rt_sessions rt !! j;
  os_waiting cid : copies_of cid (waiting s') ≤ copies_of cid (waiting s);
  os_established : q_established (cn_queue (sn_conn s)) = true →
    q_established (cn_queue (sn_conn s')) = true;
  os_pending : rt_pending rt' = rt_pending rt;
  os_next : rt_next_call_id rt' = rt_next_call_id rt;
  os_next_connection : rt_next_connection_id rt' = rt_next_connection_id rt;
  os_closing : rt_closing rt' = rt_closing rt;
  os_wire : rt_wire rt' = rt_wire rt;
  os_started : rt_started rt' = rt_started rt;
  os_settled : rt_settled rt' = rt_settled rt;
}.

Lemma waits_one_session id s s' rt rt' cid j :
  one_session id s s' rt rt' → waits_on rt' cid j → waits_on rt cid j.
Proof.
  intros O (x & Ex & Hx). destruct (decide (j = id)) as [->|Hj].
  - rewrite (os_after _ _ _ _ _ O) in Ex. injection Ex as <-.
    exists s. split; [apply O|]. pose proof (os_waiting _ _ _ _ _ O cid). lia.
  - rewrite (os_others _ _ _ _ _ O j Hj) in Ex. by exists x.
Qed.

Lemma one_session_inv (P P' : Excuse) id s s' rt rt' :
  inv P rt → one_session id s s' rt rt' →
  session_ok rt' id s' → (sn_task s = Finished → sn_task s' = Finished) →
  (∀ j, j ∈ rt_connections rt' ↔ j ∈ rt_connections rt ∧ (j = id → sn_task s' ≠ Finished)) →
  (∀ cid call j, P cid call j → P' cid call j) →
  (∀ cid call, id ∈ rt_connections rt → id ∉ rt_connections rt' → P' cid call id) →
  inv P' rt'.
Proof.
  intros I O Hs Hfin Hc HP Hend.
  assert (∀ cid j, waits_on rt' cid j → waits_on rt cid j) as Hw
    by (intros; by eapply waits_one_session).
  assert (∀ cid, written rt' cid = written rt cid) as Hwr
    by (intros; apply written_same, (os_wire _ _ _ _ _ O)).
  assert (∀ cid, unsent rt cid → unsent rt' cid) as Hu.
  { intros cid [A B]. split; [by rewrite Hwr|]. intros j Hj%Hw. by eapply B. }
  assert (∀ cid, sent_once rt cid → sent_once rt' cid) as Hso.
  { intros cid [A B]. unfold sent_once. rewrite Hwr. split; [done|]. intros Hne j Hj%Hw. by eapply B. }
  constructor; rewrite ?(os_pending _ _ _ _ _ O), ?(os_settled _ _ _ _ _ O), ?(os_started _ _ _ _ _ O);
    try apply I.
  - rewrite (os_next _ _ _ _ _ O). intros cid Hn. destruct (i_fresh _ _ I cid Hn) as [A B C D].
    constructor; rewrite ?(os_pending _ _ _ _ _ O), ?(os_settled _ _ _ _ _ O), ?(os_started _ _ _ _ _ O); auto.
  - intros cid j x Ex. destruct (decide (j = id)) as [->|Hj].
    + rewrite (os_after _ _ _ _ _ O) in Ex. injection Ex as <-.
      pose proof (os_waiting _ _ _ _ _ O cid). pose proof (i_once _ _ I cid id s (os_before _ _ _ _ _ O)). lia.
    + rewrite (os_others _ _ _ _ _ O j Hj) in Ex. by eapply i_once.
  - intros cid a b Ha%Hw Hb%Hw. by eapply (i_where _ _ I).
  - intros cid call Ep. destruct (i_call _ _ I cid call Ep) as [A B C D S E]. constructor.
    + intros j Hj%Hw. by apply A.
    + by rewrite Hwr.
    + done.
    + unfold resent. rewrite (os_closing _ _ _ _ _ O). intros j Hj. destruct (D j Hj) as [Hin|[?|?]]; [|by right; left|right; right; by apply HP].
      destruct (decide (j ∈ rt_connections rt')) as [|Hnot]; [by left|]. right; right.
      destruct (decide (j = id)) as [->|Hne]; [by apply Hend|].
      destruct Hnot. apply Hc. done.
    + intros j Hj%S. destruct (decide (j = id)) as [->|Hne]; [by rewrite (os_after _ _ _ _ _ O)|].
      by rewrite (os_others _ _ _ _ _ O j Hne).
    + intros j x Ho Ht Ex. destruct (decide (j = id)) as [->|Hj].
      * rewrite (os_after _ _ _ _ _ O) in Ex. injection Ex as <-.
        apply (os_established _ _ _ _ _ O). eapply E; [done..|apply O].
      * rewrite (os_others _ _ _ _ _ O j Hj) in Ex. by eapply E.
  - intros cid o Ho. destruct (i_settled _ _ I cid o Ho) as [A B]. constructor; auto.
  - intros cid [A B]%(i_at_most_once _ _ I). auto.
  - intros j x Ex. destruct (decide (j = id)) as [->|Hj].
    + rewrite (os_after _ _ _ _ _ O) in Ex. by injection Ex as <-.
    + rewrite (os_others _ _ _ _ _ O j Hj) in Ex. destruct (i_session _ _ I j x Ex) as [A B C D E F].
      constructor; try done.
      * by rewrite (os_next_connection _ _ _ _ _ O).
      * intros Ht%B. apply Hc. done.
      * intros (H1 & H2)%C. split; [|done]. by intros [? _]%Hc.
  - intros j [[x Ex]%(i_open _ _ I) _]%Hc.
    destruct (decide (j = id)) as [->|Hj]; [rewrite (os_after _ _ _ _ _ O); by eexists|].
    rewrite (os_others _ _ _ _ _ O j Hj). by eexists.
  - intros j cl. rewrite (os_closing _ _ _ _ _ O). intros Ht%(i_closing _ _ I). unfold task_of in *.
    destruct (decide (j = id)) as [->|Hj].
    + rewrite (os_before _ _ _ _ _ O) in Ht. cbn in Ht. injection Ht as Ht.
      rewrite (os_after _ _ _ _ _ O). cbn. f_equal. auto.
    + by rewrite (os_others _ _ _ _ _ O j Hj).
Qed.

Lemma lookup_task id rt t : task_of id rt = Some t → ∃ s, rt_sessions rt !! id = Some s ∧ sn_task s = t.
Proof. unfold task_of. destruct (rt_sessions rt !! id) as [s|]; [|done]. cbn. intros [= <-]. eauto. Qed.

Lemma establish_inv P id hello now rt :
  inv P rt → task_of id rt = Some InSession → inv P (touch id (establish hello now) rt).
Proof.
  intros I (s & Es & Et)%lookup_task. unfold touch, on_conn. rewrite Es. cbn [fst].
  set (s' := set_conn (establish hello now (with_counters (sn_conn s) (rt_counters rt))) s).
  apply (one_session_inv P P id s s' rt); try done.
  - constructor; try done; cbn; [by rewrite lookup_insert_eq|intros; by rewrite lookup_insert_ne].
  - destruct (i_session _ _ I id s Es) as [A B C D E F]. constructor; try done; cbn.
    congruence.
  - cbn. rewrite Et. intros j. split; [done|by intros [? _]].
Qed.

Lemma run_session_inv P id context rt :
  inv P rt → task_of id rt = Some Connecting →
  inv P (on_session id (λ s, set_task InSession (set_context (Some context) s)) rt).
Proof.
  intros I (s & Es & Et)%lookup_task.
  apply (one_session_inv P P id s (set_task InSession (set_context (Some context) s)) rt); try done.
  - constructor; try done; cbn; [by rewrite lookup_alter_eq, Es|intros; by rewrite lookup_alter_ne].
  - destruct (i_session _ _ I id s Es) as [A B C D E F]. constructor; try done; cbn.
    + intros _. apply B. by rewrite Et.
    + intros d Hd%F. congruence.
  - cbn. rewrite Et. done.
  - intros j. cbn. split; [done|by intros [? _]].
Qed.

(** The end of a session's task: its connection is closed and leaves the
    table; the calls it carried are still to be looked at. *)
Definition end_session (id : Z) (reason : CloseReason) (rt : Runtime) : Runtime :=
  let rt := fst (on_conn id (Connection_close reason) rt) in
  on_session id (set_task Finished) (set_connections (rt_connections rt ∖ {[id]}) rt).

Lemma end_session_inv P id reason s rt :
  inv P rt → rt_sessions rt !! id = Some s → sn_task s ≠ Finished → sn_held s = None →
  inv (λ cid call j, P cid call j ∨ j = id) (end_session id reason rt).
Proof.
  intros I Es Et Eh. unfold end_session, on_conn. rewrite Es. cbn [fst].
  set (c' := fst (Connection_close reason (with_counters (sn_conn s) (rt_counters rt)))).
  apply (one_session_inv P _ id s (set_task Finished (set_conn c' s)) rt); try done; cbn.
  - constructor; try done; cbn.
    + by rewrite lookup_alter_eq, lookup_insert_eq.
    + intros j Hj. by rewrite lookup_alter_ne, lookup_insert_ne.
    + intros cid. unfold waiting. cbn. rewrite Eh. cbn. lia.
  - destruct (i_session _ _ I id s Es) as [A B C D E F]. constructor; try done; cbn.
    intros _. split_and!; try done. set_solver.
  - intros j. rewrite elem_of_difference, elem_of_singleton.
    split; [intros [? ?]; by split|]. intros [? H1]. split; [done|]. intros ->. by apply H1.
  - by left.
  - by right.
Qed.

(** A connection that is created joins the table. *)
Lemma new_session_inv P id s rt rt' :
  inv P rt → id = rt_next_connection_id rt →
  rt_sessions rt' = <[id := s]> (rt_sessions rt) → waiting s = [] → sn_task s = Connecting →
  sn_held s = None → q_closed (cn_queue (sn_conn s)) = None →
  q_established (cn_queue (sn_conn s)) = false →
  rt_connections rt' = {[id]} ∪ rt_connections rt →
  rt_next_connection_id rt' = (id + 1)%Z → rt_pending rt' = rt_pending rt →
  rt_next_call_id rt' = rt_next_call_id rt → rt_closing rt' = rt_closing rt →
  rt_wire rt' = rt_wire rt → rt_started rt' = rt_started rt → rt_settled rt' = rt_settled rt →
  inv P rt' ∧ ∀ cid, unused rt cid → unused rt' cid.
Proof.
  intros I Eid Es Ew Et Eh Ecl Ee Econ En Ep Enc Eclo Ewi Est Ese.
  assert (rt_sessions rt !! id = None) as Hnew.
  { destruct (rt_sessions rt !! id) as [x|] eqn:Ex; [|done].
    pose proof (se_id _ _ _ (i_session _ _ I id x Ex)). lia. }
  assert (∀ cid j, waits_on rt' cid j → waits_on rt cid j) as Hw.
  { intros cid j (x & Ex & Hx). rewrite Es in Ex. destruct (decide (j = id)) as [->|].
    - rewrite lookup_insert_eq in Ex. injection Ex as <-. by rewrite Ew in Hx.
    - rewrite lookup_insert_ne in Ex by done. by exists x. }
  assert (∀ cid, written rt' cid = written rt cid) as Hwr by (intros; by apply written_same).
  assert (∀ cid, unsent rt cid → unsent rt' cid) as Hu.
  { intros cid [A B]. split; [by rewrite Hwr|]. intros j Hj%Hw. by eapply B. }
  assert (∀ cid, sent_once rt cid → sent_once rt' cid) as Hso.
  { intros cid [A B]. unfold sent_once. rewrite Hwr. split; [done|]. intros Hne j Hj%Hw. by eapply B. }
  assert (∀ cid, unused rt cid → unused rt' cid) as Hun.
  { intros cid [A B C D]. constructor; rewrite ?Ep, ?Ese, ?Est; auto. }
  split; [|done]. constructor; rewrite ?Ep, ?Ese, ?Est; try apply I.
  - rewrite Enc. intros cid Hn. by apply Hun, I.
  - intros cid j x. rewrite Es. destruct (decide (j = id)) as [->|].
    + rewrite lookup_insert_eq. intros [= <-]. rewrite Ew, copies_of_nil. lia.
    + rewrite lookup_insert_ne by done. apply I.
  - intros cid a b Ha%Hw Hb%Hw. by eapply (i_where _ _ I).
  - intros cid call Epc. destruct (i_call _ _ I cid call Epc) as [A B C D S E]. constructor; auto.
    + by rewrite Hwr.
    + intros j Hj. unfold resent. rewrite Econ, Eclo. destruct (D j Hj) as [?|[?|?]]; auto. left. set_solver.
    + intros j Hj%S. rewrite Es. apply lookup_insert_is_Some'. by right.
    + intros j x Ho Ht. rewrite Es. destruct (decide (j = id)) as [->|].
      * destruct (S id Ho) as [y Hy]. congruence.
      * rewrite lookup_insert_ne by done. by apply E.
  - intros cid o Ho. destruct (i_settled _ _ I cid o Ho) as [A B]. constructor; auto.
  - intros cid [A B]%(i_at_most_once _ _ I). auto.
  - intros j x. rewrite Es. destruct (decide (j = id)) as [->|Hj].
    + rewrite lookup_insert_eq. intros [= <-]. constructor; rewrite ?Et, ?Ee, ?Ecl; try done; [lia|].
      intros _. rewrite Econ. set_solver.
    + rewrite lookup_insert_ne by done. intros Ex. destruct (i_session _ _ I j x Ex) as [A B C D E F].
      constructor; try done; [lia| |].
      * intros ?%B. rewrite Econ. set_solver.
      * intros (H1 & H2)%C. split; [|done]. rewrite Econ. set_solver.
  - intros j. rewrite Econ, Es, elem_of_union, elem_of_singleton. intros [->|[y Hy]%(i_open _ _ I)].
    + rewrite lookup_insert_eq. by eexists.
    + apply lookup_insert_is_Some'. by right; eexists.
  - intros j cl. rewrite Eclo. intros Ht%(i_closing _ _ I). unfold task_of in *. rewrite Es.
    destruct (decide (j = id)) as [->|]; [by rewrite Hnew in Ht|]. by rewrite lookup_insert_ne.
Qed.

(** ** A frame is taken, and leaves *)

(** A frame that waited may go on. *)
Lemma may_queue_calm P rt rt' id cid :
  inv P rt → waits_on rt cid id → calm rt rt' → (∀ j, ¬ waits_on rt' cid j) → may_queue rt' id cid.
Proof.
  intros I Hw Hc Hn. pose proof (written_quiet _ _ cid (calm_quiet _ _ Hc)) as Ew.
  assert (sent_once rt cid → written rt cid = 0) as Hso.
  { intros [_ B]. destruct (decide (written rt cid = 0)) as [|Hne]; [done|].
    exfalso. by apply (B Hne id). }
  constructor; rewrite ?(ca_pending _ _ Hc), ?(ca_settled _ _ Hc), ?(ca_started _ _ Hc), ?Ew; try done.
  - intros call Ep. by apply (k_where _ _ _ _ (i_call _ _ I cid call Ep)).
  - intros o Ho. destruct (i_settled _ _ I cid o Ho) as [A B]. split; [|auto].
    destruct (claims_unsent o); [|done]. destruct (A eq_refl) as [_ A2]. exfalso. by apply (A2 id).
  - intros [A _]%(i_at_most_once _ _ I). auto.
  - rewrite (ca_next _ _ Hc). destruct (decide (rt_next_call_id rt ≤ cid)%Z) as [Hle|]; [|lia].
    destruct (un_unsent _ _ (i_fresh _ _ I cid Hle)) as [_ Hno]. exfalso. by apply (Hno id).
Qed.

Lemma written_app rt id call_id frame cid :
  written (set_wire (rt_wire rt ++ [(id, call_id, frame)]) rt) cid =
    written rt cid + (if bool_decide (call_id = Some cid) then 1 else 0).
Proof.
  unfold written. cbn. rewrite filter_app, length_app. f_equal. rewrite filter_cons. cbn.
  case_bool_decide; [by rewrite decide_True|by rewrite decide_False].
Qed.

Lemma wire_inv P id call_id frame rt :
  inv P rt →
  (∀ cid, call_id = Some cid →
     (∀ j, ¬ waits_on rt cid j) ∧
     (∀ call, rt_pending rt !! cid = Some call →
        pc_transmitted call = true ∧ (pc_earlier_transmitted call = false → written rt cid = 0)) ∧
     (∀ o, (cid, o) ∈ rt_settled rt →
        claims_unsent o = false ∧ (reported_rejected o = true → written rt cid = 0)) ∧
     ((cid, AtMostOnce) ∈ rt_started rt → written rt cid = 0) ∧ (cid < rt_next_call_id rt)%Z) →
  inv P (set_wire (rt_wire rt ++ [(id, call_id, frame)]) rt).
Proof.
  intros I Hl. set (rt' := set_wire _ rt).
  assert (∀ cid, written rt' cid = written rt cid + (if bool_decide (call_id = Some cid) then 1 else 0)) as Hwr
    by (intros; apply written_app).
  assert (∀ cid, sent_once rt cid → (call_id = Some cid → written rt cid = 0) → sent_once rt' cid) as Hso.
  { intros cid [A B] C. unfold sent_once. rewrite Hwr. case_bool_decide as Hc.
    - specialize (C Hc). split; [lia|]. intros _. by apply Hl.
    - rewrite Nat.add_0_r. done. }
  destruct I as [I1 I2 I3 I4 I5 I6 I7 I8 I9 I10 I11 I12 I13]. constructor; try done.
  - intros cid Hn. destruct (I1 cid Hn) as [A B C [D1 D2]]. constructor; try done. split; [|done].
    rewrite Hwr, D1. case_bool_decide as Hc; [|done]. apply Hl in Hc as (_ & _ & _ & _ & Hlt).
    change (rt_next_call_id rt ≤ cid)%Z in Hn. lia.
  - intros cid call Ep. destruct (I4 cid call Ep) as [A B C D S E]. constructor; try done.
    rewrite Hwr. case_bool_decide as Hc; [|by rewrite Nat.add_0_r].
    destruct (Hl _ Hc) as (_ & Hp & _). destruct (Hp call Ep) as [Ht He].
    intros Hea. rewrite (He Hea). split; [lia|]. congruence.
  - intros cid o Ho. destruct (I5 cid o Ho) as [A B]. constructor.
    + intros Hc. destruct (A Hc) as [A1 A2]. split; [|done]. rewrite Hwr, A1. case_bool_decide as Hid; [|done].
      destruct (Hl _ Hid) as (_ & _ & Hs & _). destruct (Hs o Ho). congruence.
    + intros Hr. apply Hso; [auto|]. intros Hid. destruct (Hl _ Hid) as (_ & _ & Hs & _).
      by apply (Hs o Ho).
  - intros cid Ha. destruct (I10 cid Ha) as [A B]. split; [|done]. apply Hso; [done|].
    intros Hid. by apply Hl.
  - intros j x Ex. by destruct (I11 j x Ex).
Qed.

(** The call's frame leaves on session [id]. *)
Definition mark_transmitted (cid : Z) (rt : Runtime) : Runtime :=
  match rt_pending rt !! cid with Some call => put cid (set_transmitted true call) rt | None => rt end.

Lemma leave_inv P id s cid frame rt :
  inv P rt → may_queue rt id cid → id ∈ rt_connections rt → rt_sessions rt !! id = Some s →
  q_established (cn_queue (sn_conn s)) = true →
  inv P (set_wire (rt_wire rt ++ [(id, Some cid, frame)]) (mark_transmitted cid rt)).
Proof.
  intros I [M1 M2 M3 M4 M5] Hid Es Ee. unfold mark_transmitted.
  destruct (rt_pending rt !! cid) as [call|] eqn:Ep.
  - destruct (M2 call eq_refl) as [Ho Ht]. pose proof (i_call _ _ I cid call Ep) as [A B C D S E].
    apply (wire_inv P id (Some cid) frame (put cid (set_transmitted true call) rt)).
    + apply (put_inv P P cid call); try done. constructor; try done.
      * intros j Hj. by destruct (M1 j).
      * cbn. intros Hea. destruct (B Hea). split; [done|]. done.
      * cbn. rewrite Ho. intros j [= <-]. by left.
      * cbn. rewrite Ho. intros j x [= <-] _. rewrite Es. by intros [= <-].
    + intros ? [= <-]. split_and!; try done.
      intros c. cbn. rewrite lookup_insert_eq. intros [= <-]. split; [done|]. cbn.
      intros Hea. by apply (B Hea).
  - apply wire_inv; [done|]. intros ? [= <-]. split_and!; try done. intros c. by rewrite Ep.
Qed.

Section Writing.
Context `{Xxh3}.

Lemma write_next_inv P id s rt :
  inv P rt → rt_sessions rt !! id = Some s → sn_task s = InSession → sn_held s = None →
  inv P (write_next id rt).
Proof.
  intros I Es Et Eh. unfold write_next, on_conn. rewrite Es.
  destruct (Connection_poll_next _) as [c' p] eqn:Ep. apply poll_next_view in Ep.
  set (rt1 := set_sessions (<[id := set_conn c' s]> (rt_sessions rt)) (set_counters (cn_counters c') rt)).
  assert (calm_conn (sn_conn s) c' → inv P rt1) as Hcalm.
  { intros Hc. eapply calm_inv; [|exact I]. constructor; try done. intros j. cbn.
    destruct (decide (j = id)) as [->|].
    - rewrite lookup_insert_eq, Es. constructor. constructor; [done|by left|done].
    - rewrite lookup_insert_ne by done. reflexivity. }
  destruct p as [[o|]|]; [|by apply Hcalm; etrans; [apply calm_with_counters|]..].
  destruct Ep as (E1 & E2 & E3). destruct (out_kind o) as [|cid|] eqn:Ek; cbn in E3; rewrite Ek in E3;
    [by apply Hcalm, same_view_calm| |by apply Hcalm, same_view_calm].
  destruct E3 as (Eest & b & [= <-] & Er). cbn in Eest, Er, E1, E2.
  apply (one_session_inv P P id s (set_held (Some (out_bytes o, cid)) (set_conn c' s)) rt); try done.
  - constructor; try done; cbn.
    + by rewrite lookup_alter_eq, lookup_insert_eq.
    + intros j Hj. by rewrite lookup_alter_ne, lookup_insert_ne.
    + intros i. unfold waiting. cbn. rewrite Eh. cbn. by rewrite Er.
    + by rewrite E2.
  - destruct (i_session _ _ I id s Es) as [A B C D E F]. constructor; cbn; rewrite ?E1, ?E2; try done; try congruence.
  - cbn. rewrite Et. intros j. split; [done|by intros [? _]].
Qed.

Lemma calm_drop_held id rt : calm rt (on_session id (set_held None) rt).
Proof. apply calm_session. intros s _. by constructor; [|right|]. Qed.

(** Once the writer's frame is out of its hand, no copy of the call waits. *)
Lemma drop_held_waits P id s frame cid rt :
  inv P rt → rt_sessions rt !! id = Some s → sn_held s = Some (frame, Some cid) →
  waits_on rt cid id ∧ ∀ j, ¬ waits_on (on_session id (set_held None) rt) cid j.
Proof.
  intros I Es Eh.
  assert (copies_of cid (waiting s) = 1 + copies_of cid (q_requests (cn_queue (sn_conn s)))) as Ec.
  { unfold waiting. rewrite Eh.
    change (copies_of cid ((frame, Some cid) :: q_requests (cn_queue (sn_conn s))) =
              1 + copies_of cid (q_requests (cn_queue (sn_conn s)))).
    by rewrite copies_of_cons, bool_decide_true. }
  assert (waits_on rt cid id) as Hw by (exists s; split; [done|lia]). split; [done|].
  intros j Hj. pose proof (waits_quiet _ _ _ _ (calm_quiet _ _ (calm_drop_held id rt)) Hj) as Hj'.
  pose proof (i_where _ _ I cid _ _ Hw Hj') as <-. destruct Hj as (x & Ex & Hx). cbn in Ex.
  rewrite lookup_alter_eq, Es in Ex. injection Ex as <-.
  pose proof (i_once _ _ I cid id s Es).
  change (copies_of cid (q_requests (cn_queue (sn_conn s))) ≠ 0) in Hx. lia.
Qed.

Lemma written_frame_inv P id s frame call_id rt rt' :
  inv P rt → rt_sessions rt !! id = Some s → sn_held s = Some (frame, call_id) →
  calm (on_session id (set_held None) rt) rt' →
  inv P (set_wire (rt_wire rt' ++ [(id, call_id, frame)])
           match call_id with Some cid => mark_transmitted cid rt' | None => rt' end).
Proof.
  intros I Es Eh Hc. pose proof (calm_inv P _ _ Hc (calm_inv P _ _ (calm_drop_held id rt) I)) as I'.
  destruct call_id as [cid|]; [|by apply wire_inv].
  destruct (drop_held_waits P id s frame cid rt I Es Eh) as [Hw Hn].
  assert (rt_sessions (on_session id (set_held None) rt) !! id = Some (set_held None s)) as Es1.
  { cbn. by rewrite lookup_alter_eq, Es. }
  destruct (quiet_session' _ _ _ _ (calm_quiet _ _ Hc) Es1) as (s' & Es' & [[_ _ _ Ee _] _ _]).
  apply (leave_inv P id s'); try done.
  - eapply may_queue_calm; [exact I|done| |].
    + etrans; [apply calm_drop_held|done].
    + intros j Hj. apply (Hn j). by apply (waits_quiet _ _ _ _ (calm_quiet _ _ Hc)).
  - rewrite (ca_connections _ _ Hc). apply (se_open _ _ _ (i_session _ _ I id s Es)).
    intros (_ & _ & _ & ?)%(se_finished _ _ _ (i_session _ _ I id s Es)). congruence.
  - rewrite Ee. cbn. apply (se_held _ _ _ (i_session _ _ I id s Es)). by rewrite Eh.
Qed.

End Writing.
