(* ===== verification/CallsPeers.v ===== *)
(** Selecting, adopting and opening connections keeps the invariant of the call
    table, and starting a call extends it. *)
From stdpp Require Import base list numbers gmap strings sorting.
From S2P Require Import Prelude Cursor Frame Status Wire Credit Connection Registry Monitor Producer Consumer Peers Runtime Calls CallsInv CallsSteps.

#[local] Open Scope nat_scope.

(** What the selection of a connection leaves alone; [Q] are the ids of calls
    whose frames moved. *)
Record keeps_but (Q : Z → Prop) (rt rt' : Runtime) : Prop := {
  kp_next : rt_next_call_id rt' = rt_next_call_id rt;
  kp_unused cid : ¬ Q cid → unused rt cid → unused rt' cid;
  kp_task id t : task_of id rt = Some t → task_of id rt' = Some t;
  kp_closing : rt_closing rt' = rt_closing rt;
}.

Abbreviation keeps := (keeps_but (λ _, False)).

Lemma keeps_trans Q a b c : keeps_but Q a b → keeps_but Q b c → keeps_but Q a c.
Proof. intros [A1 A2 A3 A4] [B1 B2 B3 B4]. constructor; auto; congruence. Qed.

Lemma calm_keeps Q rt rt' : calm rt rt' → keeps_but Q rt rt'.
Proof.
  intros Hc. constructor; [apply Hc|intros cid _; by apply calm_unused| |apply Hc].
  intros id t (s & Es & Et)%lookup_task. unfold task_of.
  destruct (quiet_session' _ _ _ _ (calm_quiet _ _ Hc) Es) as (s' & -> & [_ _ Ht]). cbn. congruence.
Qed.

Lemma queued_keeps (Q : Z → Prop) id l rt rt' :
  (∀ cid, copies_of cid l ≠ 0 → Q cid) → queued id l rt rt' → keeps_but Q rt rt'.
Proof.
  intros Hl Hq. pose proof (qd_session _ _ _ _ Hq) as (s & s' & Es & Es' & Et & _).
  constructor; [apply Hq| | |apply Hq].
  - intros cid Hcid [A B C [D1 D2]].
    constructor; rewrite ?(qd_pending _ _ _ _ Hq), ?(qd_settled _ _ _ _ Hq), ?(qd_started _ _ _ _ Hq); try done.
    split; [by rewrite (written_same _ _ _ (qd_wire _ _ _ _ Hq))|].
    intros j [Hj|[_ Hj]]%(waits_queued _ _ _ _ _ _ Hq); [by eapply D2|]. by apply Hcid, Hl.
  - intros j t. unfold task_of. destruct (decide (j = id)) as [->|Hj].
    + rewrite Es, Es'. cbn. congruence.
    + by rewrite (qd_others _ _ _ _ Hq j Hj).
Qed.

(** ** Adoption *)

Lemma retarget_lookup id moved m cid :
  retarget id moved m !! cid =
    if decide (copies_of cid moved = 0) then m !! cid
    else set_origin (OriginConnection id) <$> m !! cid.
Proof.
  unfold retarget. revert m. induction moved as [|[f i] moved IH]; intros m; [done|].
  cbn [foldl snd]. rewrite IH, copies_of_cons. cbn [snd].
  destruct i as [i|]; [|rewrite bool_decide_false by done; done].
  destruct (decide (i = cid)) as [->|Hne].
  - rewrite lookup_alter_eq, bool_decide_true by done. rewrite (decide_False (P := 1 + _ = 0)) by lia.
    case_decide; [done|]. by destruct (m !! cid).
  - rewrite lookup_alter_ne by done. rewrite bool_decide_false by congruence. done.
Qed.

Lemma copies_elem cid l : copies_of cid l ≠ 0 ↔ ∃ f, (f, Some cid) ∈ l.
Proof.
  induction l as [|[f i] l IH].
  - split; [done|]. by intros [f ?%elem_of_nil].
  - rewrite copies_of_cons. cbn [snd]. case_bool_decide as Hi.
    + split; [|lia]. intros _. exists f. rewrite Hi. by left.
    + cbn. rewrite IH. split; intros [g Hg]; exists g; [by right|].
      apply elem_of_cons in Hg as [[= <- <-]|]; done.
Qed.

(** The frames waiting on [old] are taken, their calls move to [id]. *)
Lemma moved_inv P old id moved rt rt1 :
  inv P rt → on_conn old take_requests rt = (rt1, Some moved) → id ∈ rt_connections rt →
  calm rt rt1 ∧ inv P (set_pending (retarget id moved (rt_pending rt1)) rt1) ∧
  ∀ cid, copies_of cid moved ≠ 0 →
    copies_of cid moved = 1 ∧ may_queue (set_pending (retarget id moved (rt_pending rt1)) rt1) id cid.
Proof.
  intros I E Hid.
  assert (calm rt rt1) as Hc.
  { eapply on_conn_calm; [exact E|]. intros c c' x Ef _. pose proof (calm_take_requests c). by rewrite Ef in *. }
  pose proof (calm_inv _ _ _ Hc I) as I1.
  unfold on_conn in E. destruct (rt_sessions rt !! old) as [s|] eqn:Es; [|done].
  pose proof (take_requests_view (with_counters (sn_conn s) (rt_counters rt))) as [V1 V2].
  destruct (take_requests _) as [c' mv] eqn:Et. cbn in V1, V2. injection E as E1 E2. subst mv.
  assert (∀ cid, copies_of cid moved ≠ 0 → copies_of cid moved = 1 ∧ may_queue rt1 old cid) as Hm.
  { intros cid Hcid. change (moved = q_requests (cn_queue (sn_conn s))) in V1. rewrite V1 in Hcid |- *.
    assert (copies_of cid (waiting s) =
      copies_of cid (option_list (sn_held s)) + copies_of cid (q_requests (cn_queue (sn_conn s)))) as Ew
      by (unfold waiting; by rewrite copies_of_app).
    pose proof (i_once _ _ I cid old s Es). split; [lia|].
    assert (waits_on rt cid old) as Hw by (exists s; split; [done|lia]).
    eapply may_queue_calm; [exact I|done|done|]. intros j Hj.
    pose proof (waits_quiet _ _ _ _ (calm_quiet _ _ Hc) Hj) as Hj'.
    pose proof (i_where _ _ I cid _ _ Hw Hj') as <-. destruct Hj as (x & Ex & Hx).
    rewrite <- E1 in Ex. cbn in Ex. rewrite lookup_insert_eq in Ex. injection Ex as <-.
    unfold waiting in Hx. rewrite copies_of_app in Hx. cbn [sn_held sn_conn set_conn] in Hx.
    rewrite V2, copies_of_nil in Hx. lia. }
  split; [done|]. split.
  - apply (repend_inv P P); [done| |].
    + intros cid c'0. rewrite retarget_lookup. case_decide as Hd.
      * intros Ep. exists c'0. split_and!; try done. by apply I1.
      * destruct (rt_pending rt1 !! cid) as [c|] eqn:Ep; [|done]. intros [= <-]. exists c.
        split_and!; try done. destruct (i_call _ _ I1 cid c Ep) as [A B C D S F].
        destruct (Hm cid Hd) as [_ M]. destruct (mq_call _ _ _ M c Ep) as [Ho Ht].
        constructor; try done.
        -- intros j Hj. by destruct (mq_waits _ _ _ M j).
        -- intros j [= <-]. left. by rewrite (ca_connections _ _ Hc).
        -- intros j [= <-]. apply (i_open _ _ I1). by rewrite (ca_connections _ _ Hc).
        -- cbn. congruence.
    + intros cid. rewrite retarget_lookup. case_decide; [done|]. by rewrite fmap_is_Some.
  - intros cid Hcid. destruct (Hm cid Hcid) as [H1 [M1 M2 M3 M4 M5]]. split; [done|]. constructor; try done.
    intros call. cbn. rewrite retarget_lookup, decide_False by done.
    destruct (rt_pending rt1 !! cid) as [c|]; [|done]. intros [= <-]. cbn. split; [done|].
    by apply (M2 c).
Qed.

Lemma adopt_requests_inv (P : Excuse) (Q : Z → Prop) id moved now rt :
  inv P rt →
  (∀ cid, copies_of cid moved ≠ 0 → copies_of cid moved = 1 ∧ may_queue rt id cid ∧ Q cid) →
  inv P (fst (on_conn id (adopt_requests moved now) rt)) ∧
  keeps_but Q rt (fst (on_conn id (adopt_requests moved now) rt)).
Proof.
  intros I Hm. destruct (on_conn id (adopt_requests moved now) rt) as [rt' [b|]] eqn:E; cbn [fst].
  - destruct b.
    + assert (queued id moved rt rt') as Hq.
      { eapply on_conn_queued; [exact E|]. intros c c' x Ef ->.
        destruct (adopt_requests_view _ _ _ _ _ Ef) as [[? _]|(_ & ?)]; done. }
      split; [eapply queued_inv; [done|done|]|eapply queued_keeps; [|done]].
      * intros cid Hc. by destruct (Hm cid Hc) as (? & ? & _).
      * intros cid Hc. by destruct (Hm cid Hc) as (_ & _ & ?).
    + assert (calm rt rt') as Hc; [|split; [by eapply calm_inv|by apply calm_keeps]].
      eapply on_conn_calm; [exact E|]. intros c c' x Ef [= <-].
      destruct (adopt_requests_view _ _ _ _ _ Ef) as [[_ ->]|(? & _)]; done.
  - assert (calm rt rt') as Hc; [|split; [by eapply calm_inv|by apply calm_keeps]].
    by eapply on_conn_calm; [exact E|].
Qed.

Lemma keeps_waiting (Q : Z → Prop) rt rt' :
  (∀ cid, Q cid → ∃ id, waits_on rt cid id) → keeps_but Q rt rt' → keeps rt rt'.
Proof.
  intros HQ [A B C D]. constructor; try done. intros cid _ Hu. apply B; [|done].
  intros [id Hw]%HQ. destruct (un_unsent _ _ Hu) as [_ Hn]. by apply (Hn id).
Qed.

Lemma adopt_inv P listen id replaced now rt :
  inv P rt → id ∈ rt_connections rt →
  inv P (adopt listen id replaced now rt) ∧ keeps rt (adopt listen id replaced now rt).
Proof.
  intros I Hid. unfold adopt.
  set (rt0 := bump adopted_connections _).
  assert (calm rt rt0) as Hc0.
  { unfold rt0. etrans; [|apply calm_bump]. etrans; [apply (calm_touch id (select_for listen))|].
    - intros c. apply calm_select_for.
    - case_match; [apply calm_peers|reflexivity]. }
  clearbody rt0. pose proof (calm_inv _ _ _ Hc0 I) as I0.
  assert (id ∈ rt_connections rt0) as Hid0 by (by rewrite (ca_connections _ _ Hc0)).
  destruct replaced as [old|]; [|split; [done|by apply calm_keeps]].
  assert (∀ rt2, inv P rt2 ∧ keeps rt0 rt2 →
    inv P (touch old (λ c, fst (Connection_close Replaced c)) rt2) ∧
    keeps rt (touch old (λ c, fst (Connection_close Replaced c)) rt2)) as Hclose.
  { intros rt2 [I2 K2].
    assert (calm rt2 (touch old (λ c, fst (Connection_close Replaced c)) rt2)) as Hc
      by (apply calm_touch; intros; by apply calm_close).
    split; [by eapply calm_inv|]. eapply keeps_trans; [by apply calm_keeps|].
    eapply keeps_trans; [done|by apply calm_keeps]. }
  destruct (on_conn old take_requests rt0) as [rt1 [moved|]] eqn:E; apply Hclose.
  - destruct (moved_inv P old id moved rt0 rt1 I0 E Hid0) as (Hc1 & I1 & Hm).
    cbn [default from_option]. set (rt2 := set_pending _ rt1) in *.
    set (Q := λ cid, copies_of cid moved ≠ 0).
    assert (keeps_but Q rt0 rt2) as K2.
    { eapply keeps_trans; [by apply calm_keeps|]. constructor; try done. intros cid _ [A B C D].
      constructor; try done. cbn. rewrite retarget_lookup. case_decide; [done|]. by rewrite A. }
    destruct (adopt_requests_inv P Q id moved now rt2 I1) as [I3 K3].
    { intros cid Hc. by destruct (Hm cid Hc). }
    split; [done|]. apply (keeps_waiting Q); [|by eapply keeps_trans]. intros cid Hc. exists old.
    unfold on_conn in E. destruct (rt_sessions rt0 !! old) as [s|] eqn:Es; [|done].
    cbn in E. injection E as _ E. exists s. split; [done|]. unfold waiting. rewrite copies_of_app.
    change (q_requests (cn_queue (sn_conn s)) = moved) in E. rewrite E. unfold Q in Hc. lia.
  - unfold on_conn in E. destruct (rt_sessions rt0 !! old); [by destruct (take_requests _)|].
    injection E as <-. cbn [default from_option retarget foldl].
    assert (set_pending (rt_pending rt0) rt0 = rt0) as -> by (by destruct rt0).
    by apply adopt_requests_inv.
Qed.

(** ** Opening a connection *)

Lemma open_connection P id rt :
  inv P rt → (∃ c, look rt id = Some c ∧ is_closed c = false) → id ∈ rt_connections rt.
Proof.
  intros I (c & Hl & Hc). unfold look in Hl. destruct (rt_sessions rt !! id) as [s|] eqn:Es; [|done].
  injection Hl as Hl. apply (se_open _ _ _ (i_session _ _ I id s Es)).
  intros (_ & Hcl & _)%(se_finished _ _ _ (i_session _ _ I id s Es)). congruence.
Qed.

Lemma touch_connections id f m rt :
  touch id f (set_connections m rt) = set_connections m (touch id f rt).
Proof. unfold touch, on_conn. cbn. by destruct (rt_sessions rt !! id). Qed.

Lemma touch_close id r rt :
  touch id (λ c, fst (Connection_close r c)) rt = fst (on_conn id (Connection_close r) rt).
Proof. unfold touch, on_conn. by destruct (rt_sessions rt !! id). Qed.

(** Nobody carries calls on a connection that ends before any call saw it. *)
Lemma end_unseen_inv P id reason s rt :
  inv P rt → rt_sessions rt !! id = Some s → sn_task s ≠ Finished → sn_held s = None →
  (∀ cid call, rt_pending rt !! cid = Some call → pc_origin call ≠ OriginConnection id) →
  inv P (end_session id reason rt).
Proof.
  intros I Es Et Eh Hno. eapply inv_mono; [|by eapply (end_session_inv P id reason s)].
  cbn. intros cid call j Ep Ho [?| ->]; [by right|]. unfold end_session, on_conn in Ep. rewrite Es in Ep.
  cbn in Ep. by destruct (Hno cid call Ep).
Qed.

Lemma live_look look p id : live look p = Some id → ∃ c, look id = Some c ∧ is_closed c = false.
Proof.
  unfold live. destruct (pr_current p) as [i|]; [|done]. cbn. destruct (look i) as [c|] eqn:El; [|done]. cbn.
  destruct (is_closed c) eqn:Ec; [done|]. intros [= ->]. eauto.
Qed.

Lemma candidate_look look p id :
  usable_candidate look p = Some id → ∃ c, look id = Some c ∧ is_closed c = false.
Proof.
  unfold usable_candidate. destruct (pr_candidate p) as [i|]; [|done]. cbn.
  destruct (look i) as [c|] eqn:El; [|done]. cbn.
  destruct (is_closed c) eqn:Ec; [done|]. cbn. case_match; [|done]. intros [= ->]. eauto.
Qed.

Section Peers.
Context `{Xxh3} (config : Config).

Lemma new_connection_inv P direction observed now rt rt' id :
  inv P rt → new_connection config direction observed now rt = (rt', id) →
  inv P rt' ∧ keeps rt rt' ∧ id ∈ rt_connections rt' ∧
  (∃ s, rt_sessions rt' !! id = Some s ∧ sn_task s = Connecting ∧ sn_held s = None) ∧
  (∀ t, task_of id rt ≠ Some t) ∧
  ∀ cid call, rt_pending rt' !! cid = Some call → pc_origin call ≠ OriginConnection id.
Proof.
  intros I [= <- <-].
  assert (rt_sessions rt !! rt_next_connection_id rt = None) as Hnew.
  { destruct (rt_sessions rt !! _) as [x|] eqn:Ex; [|done].
    pose proof (se_id _ _ _ (i_session _ _ I _ x Ex)). lia. }
  match goal with |- inv P ?r ∧ _ => set (rt' := r) end.
  destruct (new_session_inv P (rt_next_connection_id rt)
    (mkSession (Connection_new (rt_next_connection_id rt) direction (hello config)
      (mkQueueLimits (cf_max_queued_requests config) (cf_reserved_control_frames config)
         (cf_max_queued_bytes_per_connection config) (cf_max_queued_bytes config))
      now (rt_counters rt)) observed None Connecting None) rt rt') as [I' Hu]; try done.
  split; [done|]. split.
  { constructor; try done; [by intros cid _; apply Hu|]. intros j t (x & Ex & Et)%lookup_task.
    unfold task_of. cbn. rewrite lookup_insert_ne; [by rewrite Ex; cbn; congruence|].
    intros <-. congruence. }
  split_and!.
  - cbn. set_solver.
  - cbn. rewrite lookup_insert_eq. eauto.
  - unfold task_of. by rewrite Hnew.
  - intros cid call Ep Ho. cbn in Ep.
    destruct (k_session _ _ _ _ (i_call _ _ I cid call Ep) _ Ho) as [x Ex]. congruence.
Qed.

Lemma stalled_candidate_open P address now rt candidate replaced :
  inv P rt → stalled_candidate config address now rt = Some (candidate, replaced) →
  candidate ∈ rt_connections rt.
Proof.
  intros I E. unfold stalled_candidate in E.
  destruct (bt_get address (rt_peers rt)) as [peer|]; [|done]. cbn in E.
  destruct (dialing_stalled _ _ _); [|done].
  destruct (usable_candidate (look rt) peer) as [i|] eqn:Ec; [|done]. cbn in E.
  destruct (_ || _); [|done]. injection E as <- _.
  eapply open_connection; [exact I|by eapply candidate_look].
Qed.

Lemma peer_connection_inv P address now rt rt' r :
  inv P rt → peer_connection config address now rt = (rt', r) →
  inv P rt' ∧ keeps rt rt' ∧ ∀ id, r = Ok id → id ∈ rt_connections rt'.
Proof.
  intros I. unfold peer_connection. destruct (is_closing rt); [intros [= <- <-]; by split_and!|].
  destruct (stalled_candidate config address now rt) as [[candidate replaced]|] eqn:Es.
  { intros [= <- <-]. pose proof (stalled_candidate_open _ _ _ _ _ _ I Es) as Hin.
    pose proof (calm_bump accepted_over_stalled_dial rt) as Hc.
    destruct (adopt_inv P address candidate replaced now _ (calm_inv _ _ _ Hc I)) as [I' K']; [done|].
    split_and!; [done|by eapply keeps_trans; [apply calm_keeps|]|].
    intros id [= <-]. destruct (i_open _ _ I candidate Hin) as [s Hs].
    assert (∃ t, task_of candidate rt = Some t ∧ t ≠ Finished) as (t & Ht & Hne).
    { unfold task_of. rewrite Hs. exists (sn_task s). split; [done|].
      by intros (? & _)%(se_finished _ _ _ (i_session _ _ I _ _ Hs)). }
    apply (kp_task _ _ _ K') in Ht. apply lookup_task in Ht as (s' & Hs' & <-).
    by apply (se_open _ _ _ (i_session _ _ I' _ _ Hs')). }
  destruct (let* peer := bt_get address (rt_peers rt) in live (look rt) peer) as [existing|] eqn:El.
  { intros [= <- <-]. split_and!; [done..|]. intros id [= <-].
    destruct (bt_get address (rt_peers rt)) as [peer|]; [|done]. cbn in El.
    eapply open_connection; [exact I|by eapply live_look]. }
  case_match; [intros [= <- <-]; split_and!; [|apply calm_keeps|done]; [|apply calm_bump];
    by eapply calm_inv; [apply calm_bump|]|].
  set (rt0 := if _ && _ then retain_peers now rt else rt).
  assert (calm rt rt0) as Hc0 by (unfold rt0; case_match; [apply calm_peers|reflexivity]).
  clearbody rt0. pose proof (calm_inv _ _ _ Hc0 I) as I0.
  destruct (new_connection config Outbound None now rt0) as [rt1 id] eqn:En.
  destruct (new_connection_inv P _ _ _ _ _ _ I0 En) as (I1 & K1 & Hin & (s1 & Es1 & Et1 & Eh1) & Hfresh & Hno).
  set (rt2 := set_peers _ (touch id (select_for address) rt1)).
  assert (calm rt1 rt2) as Hc2.
  { unfold rt2. etrans; [apply (calm_touch id (select_for address)); intros; apply calm_select_for|apply calm_peers]. }
  clearbody rt2. pose proof (calm_inv _ _ _ Hc2 I1) as I2.
  assert (keeps rt rt2) as K2.
  { eapply keeps_trans; [by apply calm_keeps|]. eapply keeps_trans; [done|by apply calm_keeps]. }
  destruct (rt_driver_gone rt2).
  - intros [<- <-]%pair_equal_spec. rewrite touch_connections, touch_close.
    destruct (quiet_session' _ _ _ _ (calm_quiet _ _ Hc2) Es1) as (s2 & Es2 & [_ Hh2 Ht2]).
    assert (inv P (end_session id Local rt2)) as I3.
    { eapply end_unseen_inv; try done.
      - by rewrite Ht2, Et1.
      - destruct Hh2 as [->| ->]; done.
      - intros cid call. rewrite (ca_pending _ _ Hc2). apply Hno. }
    assert (rt_connections (fst (on_conn id (Connection_close Local) rt2)) = rt_connections rt2) as Econ.
    { unfold on_conn. by rewrite Es2. }
    unfold end_session in I3. rewrite Econ in I3. split_and!; [done| |done].
    unfold on_conn. rewrite Es2. cbn [fst snd].
    constructor; [exact (kp_next _ _ _ K2)| | |exact (kp_closing _ _ _ K2)].
    + intros cid _ Hu. apply (kp_unused _ _ _ K2 cid (λ x, x)) in Hu as [A B C [D1 D2]].
      constructor; try done. split; [done|]. intros j (x & Ex & Hx). cbn in Ex.
      destruct (decide (j = id)) as [->|Hj].
      * rewrite lookup_alter_eq, lookup_insert_eq in Ex. injection Ex as <-.
        apply Hx. unfold waiting. cbn. destruct Hh2 as [->| ->]; [by rewrite Eh1|done].
      * rewrite lookup_alter_ne, lookup_insert_ne in Ex by done. apply (D2 j). by exists x.
    + intros j t Ht. assert (j ≠ id) as Hj.
      { intros ->. apply (Hfresh t). by apply (kp_task _ _ _ (calm_keeps (λ _, False) _ _ Hc0)). }
      unfold task_of. cbn. rewrite lookup_alter_ne, lookup_insert_ne by done.
      exact (kp_task _ _ _ K2 j t Ht).
  - intros [= <- <-]. split_and!; [done..|]. intros ? [= <-]. by rewrite (ca_connections _ _ Hc2).
Qed.

Lemma accept_inv P observed allowed now rt :
  inv P rt → inv P (fst (accept config observed allowed now rt)).
Proof.
  intros I. unfold accept. destruct (is_closing rt); [done|].
  destruct (negb allowed); [by eapply calm_inv; [apply calm_bump|]|].
  case_match; [by eapply calm_inv; [apply calm_bump|]|].
  destruct (new_connection config Inbound observed now rt) as [rt1 id] eqn:En.
  by eapply new_connection_inv in En as [? _].
Qed.

Lemma settle_selection_inv P id listen local now rt :
  inv P rt → id ∈ rt_connections rt →
  inv P (settle_selection config id listen local now rt) ∧
  keeps rt (settle_selection config id listen local now rt).
Proof.
  intros I Hid. unfold settle_selection. set (peer := default _ _). set (rt1 := set_peers _ rt).
  assert (calm rt rt1) as Hc1 by apply calm_peers.
  destruct (to_replace _ _ _ _) as [over|[]|].
  - set (rt2 := if over then _ else _).
    assert (calm rt rt2) as Hc2 by (unfold rt2; destruct over; [etrans; [exact Hc1|apply calm_bump]|done]).
    clearbody rt2.
    destruct (adopt_inv P listen id (live (look rt1) peer) now rt2) as [I3 K3];
      [by eapply calm_inv|by rewrite (ca_connections _ _ Hc2)|].
    split; [done|]. eapply keeps_trans; [by apply calm_keeps|done].
  - assert (calm rt (set_peers (bt_insert SocketAddr_lt listen (set_candidate (Some id) peer) (rt_peers rt1)) rt1)) as Hc
      by (etrans; [exact Hc1|apply calm_peers]).
    split; [by eapply calm_inv|by apply calm_keeps].
  - assert (calm rt (set_peers (bt_insert SocketAddr_lt listen (set_candidate (Some id) peer) (rt_peers rt1)) rt1)) as Hc
      by (etrans; [exact Hc1|apply calm_peers]).
    split; [by eapply calm_inv|by apply calm_keeps].
Qed.

Lemma select_inbound_inv P id listen now rt :
  inv P rt → id ∈ rt_connections rt →
  inv P (select_inbound config id listen now rt) ∧ keeps rt (select_inbound config id listen now rt).
Proof.
  intros I Hid. unfold select_inbound. destruct (cf_address config) as [local|]; [|by split].
  case_bool_decide; [by split|]. case_bool_decide; [by split|].
  assert (∀ rt', calm rt rt' → inv P rt' ∧ keeps rt rt') as Hcalm.
  { intros rt' Hc. split; [by eapply calm_inv|by apply calm_keeps]. }
  destruct (_ && negb _); [apply Hcalm, calm_bump|].
  destruct (negb (has_peer listen rt) && _); [|by apply settle_selection_inv].
  assert (calm rt (retain_peers now rt)) as Hc by apply calm_peers.
  case_match; [apply Hcalm; etrans; [exact Hc|apply calm_bump]|].
  destruct (settle_selection_inv P id listen local now (retain_peers now rt)) as [I1 K1];
    [by eapply calm_inv|by rewrite (ca_connections _ _ Hc)|].
  split; [done|]. eapply keeps_trans; [by apply calm_keeps|done].
Qed.

Lemma on_hello_inv P id magic min_version max_version incarnation limit listen now rt :
  inv P rt → task_of id rt = Some InSession →
  inv P (fst (on_hello config id magic min_version max_version incarnation limit listen now rt)).
Proof.
  intros I Ht. unfold on_hello. case_match; [done|]. destruct (negotiate _ _) as [version|]; [|done].
  case_match; [done|]. set (rt0 := match look rt id with Some _ => _ | None => _ end).
  assert (inv P rt0 ∧ keeps rt rt0) as [I0 K0].
  { unfold rt0. destruct (look rt id) as [c|]; [|by split]. destruct listen as [a|]; [|by split].
    destruct (cn_direction c); [by split|]. apply select_inbound_inv; [done|].
    apply lookup_task in Ht as (s & Es & Et). apply (se_open _ _ _ (i_session _ _ I id s Es)). congruence. }
  clearbody rt0. apply (kp_task _ _ _ K0) in Ht.
  pose proof (establish_inv P id (mkPeerHello incarnation version limit) now rt0 I0 Ht) as I1.
  set (rt1 := touch id _ rt0) in *. clearbody rt1.
  destruct (_ ≫= _) as [address|]; [|done].
  set (rt2 := match bt_get address (rt_peers rt1) with Some _ => _ | None => _ end).
  assert (calm rt1 rt2) as Hc2 by (unfold rt2; case_match; [apply calm_peers|reflexivity]).
  clearbody rt2. destruct (connected address (rt_monitor rt2)) as [monitor changed]. cbn [fst].
  eapply calm_inv; [|exact I1]. etrans; [exact Hc2|]. etrans; [apply (calm_monitor monitor)|].
  destruct changed; [apply calm_notify|reflexivity].
Qed.

End Peers.
