(* ===== verification/CallsStart.v ===== *)
(** Starting a call keeps the invariant of the call table: the call gets an id
    nothing knew of, its frame is queued on an open connection, and the call
    joins the table. *)
From stdpp Require Import base list numbers gmap strings sorting.
From S2P Require Import Prelude Cursor Frame Status Wire Credit Connection Registry Monitor Producer Consumer Peers Runtime Calls CallsInv CallsSteps CallsPeers.

#[local] Open Scope nat_scope.

(** ** Starting *)

Lemma next_id_inv P rt rt' cid :
  inv P rt → take_call_id rt = Some (rt', cid) →
  inv P rt' ∧ unused rt' cid ∧ (cid < rt_next_call_id rt')%Z.
Proof.
  intros I E. unfold take_call_id in E. case_match; [done|]. injection E as <- <-.
  assert (quiet rt (set_next_call_id (rt_next_call_id rt + 1)%Z rt)) as Hq by quiet_fields.
  pose proof (i_fresh _ _ I (rt_next_call_id rt)) as Hu.
  destruct (sessions_ok_quiet _ _ Hq (inv_sessions _ _ I)) as [S1 S2 S3 S4 S5].
  split_and!.
  - destruct I as [I1 _ _ I4 I5 I6 I7 I8 I9 I10 _ _ _]. constructor; try done; cbn.
    + intros j Hj. destruct (I1 j) as [A B C D]; [lia|]. by constructor.
    + intros j c Ej. by apply (call_ok_quiet _ _ _ _ _ Hq), I4.
    + intros j o Ho. by apply (settled_ok_quiet _ _ _ _ Hq), I5.
  - destruct Hu as [A B C D]; [lia|]. by constructor.
  - cbn. lia.
Qed.

(** The call whose frame was queued goes into the table. *)
Lemma insert_call_inv P cid call delivery rt :
  inv P rt → rt_pending rt !! cid = None → cid ∉ (rt_settled rt).*1 → cid ∉ (rt_started rt).*1 →
  written rt cid = 0 → (cid < rt_next_call_id rt)%Z → call_ok P rt cid call →
  (delivery = AtMostOnce → pc_retained call = None) → inv P (insert_call cid call delivery rt).
Proof.
  intros I Hp Hs Hst Hw Hlt Hok Hr.
  assert (quiet rt (insert_call cid call delivery rt)) as Hq by quiet_fields.
  destruct (sessions_ok_quiet _ _ Hq (inv_sessions _ _ I)) as [S1 S2 S3 S4 S5].
  destruct I as [I1 _ _ I4 I5 I6 I7 I8 I9 I10 _ _ _]. constructor; try done; cbn.
  - intros j Hj. destruct (I1 j Hj) as [A B C D]. change (rt_next_call_id rt ≤ j)%Z in Hj.
    assert (j ≠ cid) by lia. constructor; try done; cbn.
    + by rewrite lookup_insert_ne.
    + rewrite fmap_app, elem_of_app. cbn. by intros [?|?%list_elem_of_singleton].
  - intros j c. destruct (decide (j = cid)) as [->|Hj].
    + rewrite lookup_insert_eq. intros [= <-]. by apply (call_ok_quiet _ _ _ _ _ Hq).
    + rewrite lookup_insert_ne by done. intros Ej. by apply (call_ok_quiet _ _ _ _ _ Hq), I4.
  - intros j o Ho. by apply (settled_ok_quiet _ _ _ _ Hq), I5.
  - rewrite fmap_app. apply NoDup_app. split_and!; [done| |apply NoDup_singleton].
    intros j Hj ->%list_elem_of_singleton. done.
  - intros j. rewrite fmap_app, elem_of_app. cbn. rewrite list_elem_of_singleton, I8.
    destruct (decide (j = cid)) as [->|Hj].
    + rewrite lookup_insert_eq. split; [by left|]. by right.
    + rewrite lookup_insert_ne by done. split; [by intros [?|?]|by left].
  - intros j Hj. rewrite lookup_insert_ne; [by apply I9|]. by intros <-.
  - intros j. rewrite elem_of_app, list_elem_of_singleton. intros [Hj|[= -> <-]].
    + destruct (I10 j Hj) as [A B]. split; [done|]. intros c. rewrite lookup_insert_ne; [by apply B|].
      intros <-. apply Hst, list_elem_of_fmap. by exists (cid, AtMostOnce).
    + split; [|intros c; rewrite lookup_insert_eq; intros [= <-]; by apply Hr].
      unfold sent_once. change (written rt cid ≤ 1 ∧ (written rt cid ≠ 0 → ∀ id, ¬ waits_on rt cid id)).
      rewrite Hw. split; [lia|done].
Qed.

Lemma inv_calm_step P rt rt' : inv P rt → calm rt rt' → inv P rt'.
Proof. intros. by eapply calm_inv. Qed.

(** A local call: nothing is queued for it. *)
Lemma insert_local_inv P cid endpoint identity completion rt :
  inv P rt → unused rt cid → (cid < rt_next_call_id rt)%Z →
  inv P (insert_call cid
    (mkPendingCall OriginLocal endpoint identity true false None None completion) AtMostOnce rt).
Proof.
  intros I [A B C [D1 D2]] Hlt. apply insert_call_inv; try done. constructor; try done.
  - intros id Hw. by destruct (D2 id).
  - rewrite D1. split; [lia|done].
Qed.

Section Safe.
Context `{Xxh3} (config : Config).

Lemma queue_request_inv P address frame call_id now rt rt' r :
  inv P rt → (∀ cid, call_id = Some cid → unused rt cid ∧ (cid < rt_next_call_id rt)%Z) →
  queue_request_to config address frame call_id now rt = (rt', r) →
  inv P rt' ∧
  ∀ id, r = Ok id → id ∈ rt_connections rt' ∧
    ∀ cid, call_id = Some cid →
      rt_pending rt' !! cid = None ∧ (cid ∉ (rt_settled rt').*1) ∧ (cid ∉ (rt_started rt').*1) ∧
      written rt' cid = 0 ∧ (cid < rt_next_call_id rt')%Z ∧ ∀ j, waits_on rt' cid j → j = id.
Proof.
  intros I Hu. unfold queue_request_to. destruct frame as [frame|e|]; [|intros [= <- <-]; by split..].
  destruct (peer_connection config address now rt) as [rt1 [id|e|]] eqn:Ep;
    destruct (peer_connection_inv _ _ _ _ _ _ _ I Ep) as (I1 & K1 & Hin);
    [|intros [= <- <-]; by split..].
  destruct (on_conn id (push_request frame call_id now) rt1) as [rt2 a] eqn:Ec.
  assert (∀ x, a = Some x → x ≠ Ok tt → calm rt1 rt2) as Href.
  { intros x -> Hx. eapply on_conn_calm; [exact Ec|]. intros c c' y Ef [= <-].
    destruct (push_request_view _ _ _ _ _ _ Ef) as [[_ ->]|(? & _)]; done. }
  destruct a as [[u|[]|]|]; [destruct u|..]; cycle 1; [intros [= <- <-]; (split; [|done])..|].
  1-3: (eapply calm_inv; [|exact I1]; eapply Href; [reflexivity|discriminate]).
  { eapply calm_inv; [|exact I1]. by eapply on_conn_calm; [exact Ec|]. }
  intros [= <- <-].
  assert (queued id [(frame, call_id)] rt1 rt2) as Hq.
  { eapply on_conn_queued; [exact Ec|]. intros c c' x Ef ->.
    destruct (push_request_view _ _ _ _ _ _ Ef) as [[? _]|(_ & ?)]; done. }
  assert (∀ cid, copies_of cid [(frame, call_id)] ≠ 0 → call_id = Some cid) as Hone.
  { intros cid. rewrite copies_of_cons, copies_of_nil. cbn. case_bool_decide; [done|lia]. }
  assert (∀ cid, call_id = Some cid → unused rt1 cid ∧ (cid < rt_next_call_id rt1)%Z) as Hu1.
  { intros cid Hc. destruct (Hu cid Hc). split; [by apply (kp_unused _ _ _ K1 cid (λ x, x))|].
    by rewrite (kp_next _ _ _ K1). }
  split.
  - eapply queued_inv; [exact I1|exact Hq|]. intros cid Hc. pose proof (Hone cid Hc) as Hid. split.
    + rewrite copies_of_cons, copies_of_nil. cbn. by rewrite bool_decide_true.
    + destruct (Hu1 cid Hid) as [[A B C [D1 D2]] Hlt]. constructor; try done; try congruence.
      intros o Ho. destruct B. apply list_elem_of_fmap. by exists (cid, o).
  - intros ? [= <-]. rewrite (qd_connections _ _ _ _ Hq). split; [by apply Hin|].
    intros cid Hc. destruct (Hu1 cid Hc) as [[A B C [D1 D2]] Hlt].
    rewrite (qd_pending _ _ _ _ Hq), (qd_settled _ _ _ _ Hq), (qd_started _ _ _ _ Hq),
      (qd_next _ _ _ _ Hq), (written_same _ _ _ (qd_wire _ _ _ _ Hq)). split_and!; try done.
    intros j [Hj|[? _]]%(waits_queued _ _ _ _ _ _ Hq); [by destruct (D2 j)|done].
Qed.

(** A call sent to connection [id] goes into the table. *)
Lemma insert_remote_inv P cid id endpoint identity retained credentials completion delivery rt :
  inv P rt → id ∈ rt_connections rt →
  rt_pending rt !! cid = None ∧ (cid ∉ (rt_settled rt).*1) ∧ (cid ∉ (rt_started rt).*1) ∧
    written rt cid = 0 ∧ (cid < rt_next_call_id rt)%Z ∧ (∀ j, waits_on rt cid j → j = id) →
  (delivery = AtMostOnce → retained = None) →
  inv P (insert_call cid
    (mkPendingCall (OriginConnection id) endpoint identity false false retained credentials completion)
    delivery rt).
Proof.
  intros I Hid (A & B & C & D & E & F) Hr. apply insert_call_inv; try done. constructor; try done.
  - intros j Hj. by rewrite (F j Hj).
  - rewrite D. split; [lia|done].
  - intros j [= <-]. by left.
  - intros j [= <-]. by apply I.
Qed.

Lemma precheck_calm endpoint n rt : calm rt (fst (precheck config endpoint n rt)).
Proof. unfold precheck. case_match; [reflexivity|]. case_match; [apply calm_bump|reflexivity]. Qed.

Lemma start_call_inv P endpoint identity body delivery client ask now rt :
  inv P rt → inv P (fst (start_call config endpoint identity body delivery client ask now rt)).
Proof.
  intros I. unfold start_call. destruct (call_credentials _ _ _ _ _) as [[credentials metadata]|e|]; [|done..].
  pose proof (precheck_calm endpoint (request_envelope_len (len body) + len metadata) rt) as Hc.
  destruct (precheck _ _ _ _) as [rt0 [|e|]]; cbn [fst] in Hc; [|by eapply calm_inv..].
  case_match; [by eapply calm_inv|].
  set (retention := if bool_decide (delivery = Reliable) then _ else _).
  assert (calm rt0 (fst retention)) as Hc1.
  { unfold retention. case_bool_decide; [|reflexivity]. unfold check_retention.
    case_match; [apply calm_bump|reflexivity]. }
  destruct retention as [rt1 ret]. cbn [fst] in Hc1.
  assert (inv P rt1) as I1 by (eapply calm_inv; [|exact I]; by etrans).
  destruct ret as [|e|]; [|done..].
  destruct (take_call_id rt1) as [[rt2 cid]|] eqn:Et; [|done].
  destruct (next_id_inv _ _ _ _ I1 Et) as (I2 & Hu & Hlt).
  destruct (is_local config endpoint).
  { cbn [fst]. eapply calm_inv; [apply calm_present|]. eapply calm_inv; [apply calm_bump|].
    by apply insert_local_inv. }
  destruct (queue_request_to _ _ _ _ _ _) as [rt3 [id|e|]] eqn:Eq;
    (eapply queue_request_inv in Eq as [I3 Hq]; [|exact I2|by intros ? [= <-]]); [|done..].
  destruct (Hq id eq_refl) as [Hid Hcid]. cbn [fst].
  assert (inv P (insert_call cid
     (mkPendingCall (OriginConnection id) endpoint identity false false
        (if bool_decide (delivery = Reliable) then Some body else None)
        (if bool_decide (delivery = Reliable) then credentials else None) CompletionReply)
     delivery rt3)) as I4.
  { apply insert_remote_inv; [done..|by apply Hcid|]. by intros ->. }
  set (rt4 := insert_call _ _ _ _) in *. clearbody rt4.
  eapply calm_inv; [|exact I4]. case_bool_decide; [|apply calm_bump].
  etrans; apply calm_bump.
Qed.

Lemma start_stream_inv P endpoint identity body window client ask now rt :
  inv P rt → inv P (fst (start_stream config endpoint identity body window client ask now rt)).
Proof.
  intros I. unfold start_stream. destruct (call_credentials _ _ _ _ _) as [[credentials metadata]|e|]; [|done..].
  pose proof (precheck_calm endpoint (stream_request_envelope_len (len body) + len metadata) rt) as Hc.
  destruct (precheck _ _ _ _) as [rt0 [|e|]]; cbn [fst] in Hc; [|by eapply calm_inv..].
  case_match; [by eapply calm_inv|].
  assert (inv P (reserved window rt0)) as I1.
  { eapply calm_inv; [|exact I]. etrans; [exact Hc|apply calm_reserved]. }
  case_match.
  { cbn [fst]. eapply calm_inv; [|exact I1]. etrans; [apply calm_reserved|apply calm_bump]. }
  destruct (take_call_id (reserved window rt0)) as [[rt2 cid]|] eqn:Et;
    [|cbn [fst]; eapply calm_inv; [apply calm_reserved|done]].
  destruct (next_id_inv _ _ _ _ I1 Et) as (I2 & Hu & Hlt).
  destruct (is_local config endpoint).
  { cbn [fst]. eapply calm_inv; [apply calm_present|]. eapply calm_inv; [apply calm_bump|].
    set (rt3 := set_consumers _ rt2). assert (calm rt2 rt3) as Hc3 by apply calm_consumers.
    apply insert_local_inv; [by eapply calm_inv|by eapply calm_unused|by rewrite (ca_next _ _ Hc3)]. }
  destruct (queue_request_to _ _ _ _ _ _) as [rt3 [id|e|]] eqn:Eq;
    (eapply queue_request_inv in Eq as [I3 Hq]; [|exact I2|by intros ? [= <-]]);
    [|cbn [fst]; by eapply calm_inv; [apply calm_reserved|]|done].
  destruct (Hq id eq_refl) as [Hid Hcid]. cbn [fst]. eapply calm_inv; [apply calm_bump|].
  set (rt4 := set_consumers _ rt3). assert (calm rt3 rt4) as Hc4 by apply calm_consumers.
  apply insert_remote_inv; [by eapply calm_inv|done|by apply Hcid|done].
Qed.

Lemma send_one_way_inv P endpoint identity body client ask now rt :
  inv P rt → inv P (fst (send_one_way config endpoint identity body client ask now rt)).
Proof.
  intros I. unfold send_one_way. destruct (call_credentials _ _ _ _ _) as [[credentials metadata]|e|]; [|done..].
  pose proof (precheck_calm endpoint (request_envelope_len (len body) + len metadata) rt) as Hc.
  destruct (precheck _ _ _ _) as [rt0 [|e|]]; cbn [fst] in Hc; [|by eapply calm_inv..].
  pose proof (calm_inv _ _ _ Hc I) as I0.
  destruct (is_local config endpoint).
  { cbn [fst]. eapply calm_inv; [apply calm_present|]. by eapply calm_inv; [apply calm_bump|]. }
  destruct (queue_request_to _ _ _ _ _ _) as [rt3 [id|e|]] eqn:Eq;
    (eapply queue_request_inv in Eq as [I3 Hq]; [|exact I0|done]); [|done..].
  by eapply calm_inv; [apply calm_bump|].
Qed.

End Safe.
