(* ===== verification/CallsEnds.v ===== *)
(** A call leaves the table: its frame is refused by the writer, it is answered,
    abandoned, released after a failure of its endpoint, ended by shutdown, or
    lost with its connection.  Each keeps the invariant of CallsInv; what the
    caller is told is justified by the copies still waiting and those written. *)
From stdpp Require Import base list numbers gmap strings sorting.
From S2P Require Import Prelude Cursor Frame Status Wire Credit Connection Registry Monitor Producer Consumer Peers Runtime Calls CallsInv CallsSteps CallsPeers.

#[local] Open Scope nat_scope.

(** ** What may be reported *)

Lemma settled_plain rt cid o :
  claims_unsent o = false → reported_rejected o = false → settled_ok rt cid o.
Proof. intros E1 E2. by constructor; rewrite ?E1, ?E2. Qed.

Lemma settled_unsent rt cid o : unsent rt cid → settled_ok rt cid o.
Proof. intros [A B]. constructor; [done|]. intros _. split; [lia|]. intros ?. lia. Qed.

(** A failure reported with the execution known from [b]. *)
Lemma settled_failed rt cid reason (b : bool) :
  (b = false → unsent rt cid) →
  settled_ok rt cid (Failed (RpcError_new reason (if b then MaybeExecuted else NotAdmitted))).
Proof. destruct b; [by intros; apply settled_plain|]. intros Hu. by apply settled_unsent, Hu. Qed.

Lemma unsent_calm rt rt' cid : calm rt rt' → unsent rt cid → unsent rt' cid.
Proof. intros Hc. by apply unsent_quiet, calm_quiet. Qed.

(** ** Withdrawing a queued frame *)

Lemma no_waits_finished P rt cid id :
  inv P rt → id ∉ rt_connections rt → ¬ waits_on rt cid id.
Proof.
  intros I Hid (s & Es & Hw). destruct (i_session _ _ I id s Es) as [_ B C _ _ _].
  destruct (decide (sn_task s = Finished)) as [Hf|Hn]; [|by apply Hid, B].
  destruct (C Hf) as (_ & _ & Er & Eh). apply Hw. unfold waiting. by rewrite Er, Eh.
Qed.

Lemma retract_found cid c :
  snd (retract cid c) = true → copies_of cid (q_requests (cn_queue c)) ≠ 0.
Proof.
  unfold retract. case_match eqn:E; [done|]. intros _ Hc. unfold copies_of in Hc.
  apply length_zero_iff_nil in Hc. rewrite Hc in E. done.
Qed.

(** Nothing waits for a call its table entry says was not transmitted, once its
    own connection holds no copy. *)
Lemma unsent_here P rt cid call id :
  call_ok P rt cid call → pc_origin call = OriginConnection id →
  pc_earlier_transmitted call = false → pc_transmitted call = false → ¬ waits_on rt cid id →
  unsent rt cid.
Proof.
  intros [A B _ _ _ _] Ho He Ht Hw. destruct (B He) as [_ Hz]. split; [by apply Hz|].
  intros j Hj. destruct (A j Hj) as [Ho' _]. rewrite Ho in Ho'. injection Ho' as <-. done.
Qed.

Lemma retract_spec P id cid call rt rt' w :
  in_hand P cid call rt → pc_origin call = OriginConnection id →
  pc_earlier_transmitted call = false → retract_from id cid rt = (rt', w) →
  calm rt rt' ∧ (w = Some true → unsent rt' cid) ∧
  (w = None → pc_transmitted call = false → unsent rt' cid).
Proof.
  intros Hh Ho He. pose proof (in_hand_call _ _ _ _ Hh) as Hok. destruct Hh as [_ I].
  unfold retract_from. case_bool_decide as Hid.
  - intros E. assert (calm rt rt') as Hc.
    { eapply on_conn_calm; [exact E|]. intros c c' x Ef _. pose proof (calm_retract cid c). by rewrite Ef in *. }
    split; [done|]. unfold on_conn in E.
    destruct (i_open _ _ I id Hid) as [s Es]. change (rt_sessions rt !! id = Some s) in Es.
    rewrite Es in E. set (c0 := with_counters (sn_conn s) (rt_counters rt)) in *.
    pose proof (retract_requests cid c0) as (V1 & _). pose proof (retract_found cid c0) as V2.
    destruct (retract cid c0) as [c' b]. cbn in V1, V2. injection E as <- <-.
    split; [|done]. intros [= ->]. specialize (V2 eq_refl).
    change (copies_of cid (q_requests (cn_queue (sn_conn s))) ≠ 0) in V2.
    assert (waits_on rt cid id) as Hw.
    { exists s. split; [done|]. unfold waiting. rewrite copies_of_app. lia. }
    destruct (k_where _ _ _ _ Hok id Hw) as [_ Ht].
    eapply unsent_here; [eapply call_ok_quiet; [by apply calm_quiet|exact Hok]|done..|].
    intros (x & Ex & Hx). cbn in Ex. rewrite lookup_insert_eq in Ex. injection Ex as <-.
    pose proof (i_once _ _ I cid id s Es) as Hone. unfold waiting in Hone, Hx.
    rewrite copies_of_app in Hone, Hx. cbn [sn_held sn_conn set_conn] in Hx.
    rewrite V1, copies_of_withdrawn in Hx. lia.
  - intros [= <- <-]. split_and!; [done..|]. intros _ Ht.
    by eapply unsent_here, (no_waits_finished _ _ _ _ I).
Qed.

Lemma withdraw_inv P cid call rt rt' call' :
  in_hand P cid call rt → withdraw cid call rt = (rt', call') →
  in_hand P cid call rt' ∧ (may_have_executed call' = false → unsent rt' cid).
Proof.
  intros Hh E. pose proof (in_hand_call _ _ _ _ Hh) as Hok. unfold withdraw, may_have_executed in *.
  destruct (pc_origin call) as [|id] eqn:Ho.
  { injection E as <- <-. split; [done|]. intros [Ht He]%orb_false_iff.
    destruct Hok as [A B _ _ _ _]. split; [by apply B|]. intros j [Hj _]%A. congruence. }
  destruct (pc_transmitted call) eqn:Ht.
  { injection E as <- <-. split; [done|]. by rewrite Ht. }
  destruct (retract_from id cid rt) as [rt1 w] eqn:Er.
  assert (calm rt rt1) as Hc.
  { unfold retract_from in Er. case_bool_decide; [|by injection Er as <- _].
    eapply on_conn_calm; [exact Er|]. intros c c' x Ef _. pose proof (calm_retract cid c). by rewrite Ef in *. }
  split; [destruct w; injection E as <- _; by eapply in_hand_calm|].
  intros Hm. assert (pc_earlier_transmitted call = false) as He.
  { destruct w; injection E as _ <-; cbn in Hm; by apply orb_false_iff in Hm as [_ ?]. }
  destruct (retract_spec P id cid call rt rt1 w Hh Ho He Er) as (_ & H1 & H2).
  destruct w as [[]|]; injection E as <- <-; auto.
  done.
Qed.

(** A pending call fails with what is known of its execution. *)
Lemma withdrawn_fails P cid call rt reason st :
  inv P rt → rt_pending rt !! cid = Some call →
  inv P (let '(rt, call) := withdraw cid call (remove_call cid rt) in
         finish cid call (Failed (RpcError_new reason (known_execution call))) (bump st rt)).
Proof.
  intros I Ep. destruct (withdraw cid call (remove_call cid rt)) as [rt1 call1] eqn:Ew.
  destruct (withdraw_inv P cid call _ _ _ (take_in_hand P cid call rt I Ep) Ew) as [Hh Hu].
  eapply in_hand_finish; [eapply in_hand_calm; [apply calm_bump|exact Hh]|].
  unfold known_execution. apply settled_failed. intros Hm.
  eapply unsent_calm; [apply calm_bump|by apply Hu].
Qed.

Lemma release_failed_inv P rt : inv P rt → inv P (release_failed rt).
Proof.
  unfold release_failed. generalize (doomed_calls rt) as l. intros l. revert rt.
  induction l as [|[cid reason] l IH]; intros rt I; [done|]. cbn [foldl]. apply IH.
  unfold release_one. destruct (rt_pending rt !! cid) as [call|] eqn:Ep; [|done].
  by apply withdrawn_fails.
Qed.

Lemma terminate_inv P rt : inv P rt → inv P (terminate rt).
Proof.
  intros I. unfold terminate. eapply calm_inv; [apply calm_notify|].
  assert (∀ l rt, inv P rt → inv P (foldl terminate_one rt l)) as Hone.
  { induction l as [|cid l IH]; intros rt0 I0; [done|]. cbn [foldl]. apply IH. unfold terminate_one.
    destruct (rt_pending rt0 !! cid) as [call|] eqn:Ep; [|done]. by apply withdrawn_fails. }
  assert (inv P (set_lifecycle TERMINATED rt)) as I0 by (eapply calm_inv; [apply calm_lifecycle|done]).
  apply (Hone (keys_of (rt_pending (set_lifecycle TERMINATED rt)))) in I0.
  set (rt1 := foldl terminate_one _ _) in *. clearbody rt1.
  generalize (merge_sort Z.le (elements (rt_connections rt1))) as l. intros l. revert rt1 I0.
  induction l as [|id l IH]; intros rt1 I1; [done|]. cbn [foldl]. apply IH.
  eapply calm_inv; [|exact I1]. apply (calm_touch id (λ c, fst (Connection_close Local c))).
  intros c. by apply calm_close.
Qed.

(** ** The writer's refusal, and the frame that leaves *)

Section Ends.
Context `{Xxh3} (config : Config).

Lemma refused_inv P id s frame cid call refusal rt :
  inv P rt → rt_sessions rt !! id = Some s → sn_held s = Some (frame, Some cid) →
  rt_pending rt !! cid = Some call →
  inv P (finish cid call
    (Failed (if pc_earlier_transmitted call then RpcError_new refusal MaybeExecuted
             else not_admitted refusal))
    (remove_call cid (on_session id (set_held None) rt))).
Proof.
  intros I Es Eh Ep. destruct (drop_held_waits P id s frame cid rt I Es Eh) as [Hw Hn].
  pose proof (calm_drop_held id rt) as Hc. pose proof (i_call _ _ I cid call Ep) as Hok.
  destruct (k_where _ _ _ _ Hok id Hw) as [_ Ht].
  eapply in_hand_finish; [apply take_in_hand; [by eapply calm_inv|done]|].
  destruct (pc_earlier_transmitted call) eqn:He; [by apply settled_plain|].
  apply settled_unsent. split; [|exact Hn].
  change (written rt cid = 0). by apply (k_earlier _ _ _ _ Hok).
Qed.

Lemma transmit_held_inv P id cut rt rt' :
  inv P rt → transmit_held config id cut rt = Some rt' → inv P rt'.
Proof.
  intros I E. unfold transmit_held in E. destruct (rt_sessions rt !! id) as [s|] eqn:Es; [|done].
  cbn in E. destruct (sn_held s) as [[frame call_id]|] eqn:Eh; [|done]. cbn in E.
  unfold admit_transmit in E. pose proof (calm_drop_held id rt) as Hc.
  pose proof (calm_inv _ _ _ Hc I) as I0.
  destruct (transmit_refusal _ _ _) as [refusal|].
  - destruct call_id as [cid|]; [|injection E as <-; by eapply calm_inv; [apply calm_bump|]].
    change (rt_pending (on_session id (set_held None) rt)) with (rt_pending rt) in E.
    destruct (rt_pending rt !! cid) as [call|] eqn:Ep; injection E as <-; [|done].
    by eapply refused_inv.
  - set (rt1 := if carries_credential _ then _ else _) in E.
    assert (calm (on_session id (set_held None) rt) rt1) as Hc1
      by (unfold rt1; destruct (carries_credential _); [apply calm_bump|reflexivity]).
    clearbody rt1. pose proof (written_frame_inv P id s frame call_id rt rt1 I Es Eh Hc1) as I1.
    destruct call_id as [cid|]; [|by injection E as <-]. unfold mark_transmitted in I1.
    destruct (rt_pending rt1 !! cid) as [call|]; [|by injection E as <-].
    destruct cut; [|by injection E as <-]. injection E as <-.
    match goal with |- inv P (set_wire _ (bump ?x ?r)) =>
      change (inv P (bump x (set_wire (rt_wire rt1 ++ [(id, Some cid, frame)]) r))) end.
    by eapply calm_inv; [apply calm_bump|].
Qed.

(** ** Answers *)

Lemma replied_ok P rt cid call outcome :
  call_ok P rt cid call → settled_ok rt cid (Replied (reply_result call outcome)).
Proof.
  intros [A B _ _ _ _]. constructor; [done|]. cbn. unfold reply_result.
  destruct outcome as [codec body|error]; [done|].
  destruct (pc_earlier_transmitted call) eqn:He.
  - rewrite bool_decide_eq_true. unfold at_least.
    case_bool_decide; cbn [andb]; [done|congruence].
  - intros _. destruct (B eq_refl) as [H1 H2]. split; [done|]. intros Hne j [_ Hj]%A. auto.
Qed.

Lemma complete_inv P origin cid outcome rt : inv P rt → inv P (complete origin cid outcome rt).
Proof.
  intros I. unfold complete. destruct (rt_pending rt !! cid) as [call|] eqn:Ep;
    [|by eapply calm_inv; [apply calm_bump|]].
  destruct (negb _); [by eapply calm_inv; [apply calm_bump|]|].
  pose proof (take_in_hand P cid call rt I Ep) as Hh.
  assert (inv P (finish cid call (Replied (reply_result call outcome)) (remove_call cid rt))) as I1.
  { eapply in_hand_finish; [done|]. by eapply replied_ok, in_hand_call. }
  set (rt1 := finish _ _ _ _) in *. clearbody rt1.
  destruct outcome as [codec body|error]; [done|].
  destruct (permanent_failure_of error) as [failure|]; [|done].
  destruct (endpoint_failed _ _ _) as [monitor learned].
  assert (inv P (set_monitor monitor rt1)) as I2 by (by eapply calm_inv; [apply calm_monitor|]).
  destruct learned; [|done]. eapply calm_inv; [apply calm_notify|]. by apply release_failed_inv.
Qed.

(** ** Abandonment *)

Lemma abandon_inv P cid cancelled rt : inv P rt → inv P (fst (abandon cid cancelled rt)).
Proof.
  intros I. unfold abandon. destruct (rt_pending rt !! cid) as [call|] eqn:Ep; [|done].
  pose proof (take_in_hand P cid call rt I Ep) as Hh.
  set (r := if _ || _ then _ else _).
  assert (calm (remove_call cid rt) (fst r) ∧ (snd r = false → unsent (fst r) cid)) as [Hc Hu].
  { unfold r. destruct (pc_earlier_transmitted call) eqn:He; [done|]. cbn [orb].
    destruct (pc_transmitted call); [done|]. destruct (pc_origin call) as [|id] eqn:Ho; [done|].
    destruct (retract_from id cid (remove_call cid rt)) as [rt1 w] eqn:Er.
    destruct (retract_spec P id cid call _ _ _ Hh Ho He Er) as (Hc & H1 & _).
    clear r. destruct w as [[]|]; cbn; (split; [done|]); auto; done. }
  destruct r as [rt1 transmitted]. cbn [fst snd] in Hc, Hu.
  set (rt2 := match pc_completion call with CompletionReply => _ | CompletionStream => _ end).
  assert (calm rt1 rt2) as Hc2.
  { unfold rt2. destruct (pc_completion call); [reflexivity|]. destruct (pc_origin call) as [|id].
    - destruct (_ ≫= _) as [[]|]; [apply calm_bump| |reflexivity].
      etrans; [|apply calm_bump]. destruct cancelled; [apply calm_bump|reflexivity].
    - destruct (_ && _); [|reflexivity]. etrans; [|apply calm_bump].
      apply (calm_touch id (signal_cancel cid)). intros c. apply calm_signal_cancel. }
  clearbody rt2. cbn [fst].
  assert (calm rt1 (bump calls_abandoned (drop_completion cid call rt2))) as Hc3.
  { etrans; [exact Hc2|]. etrans; [apply calm_drop_completion|apply calm_bump]. }
  eapply in_hand_settle; [eapply in_hand_calm; [|exact Hh]; by etrans|].
  destruct transmitted; [by apply settled_plain|]. apply settled_unsent.
  by eapply unsent_calm, Hu.
Qed.

(** ** Reply streams *)

Lemma calm_consumer_of origin cid rt : calm rt (fst (consumer_of origin cid rt)).
Proof.
  unfold consumer_of. destruct (rt_pending rt !! cid); [case_match; [reflexivity|]|]; apply calm_bump.
Qed.

Lemma stream_item_inv P origin cid sequence codec body rt :
  inv P rt → inv P (stream_item origin cid sequence codec body rt).
Proof.
  intros I. unfold stream_item. pose proof (calm_consumer_of origin cid rt) as Hc.
  destruct (consumer_of origin cid rt) as [rt1 [core|]]; cbn [fst] in Hc;
    (assert (inv P rt1) as I1 by (by eapply calm_inv)); [|done].
  destruct (on_item _ _ _ _ _) as [[k took] out].
  assert (inv P (store_consumer cid k rt1)) as I2 by (by eapply calm_inv; [apply calm_store|]).
  set (rt2 := store_consumer cid k rt1) in *. clearbody rt2.
  destruct took as [|v]; [done|].
  set (rt3 := match rt_pending rt2 !! cid with Some _ => _ | None => _ end).
  assert (inv P rt3) as I3.
  { unfold rt3. destruct (rt_pending rt2 !! cid) as [call|] eqn:Ep; [|done].
    eapply in_hand_settle; [eapply in_hand_calm; [apply calm_drop_completion|by apply take_in_hand]|].
    by apply settled_plain. }
  clearbody rt3. destruct origin as [|id]; [done|].
  eapply calm_inv; [|exact I3]. apply (calm_touch id (signal_cancel cid)).
  intros c. apply calm_signal_cancel.
Qed.

Lemma stream_end_inv P origin cid items error rt :
  inv P rt → inv P (stream_end origin cid items error rt).
Proof.
  intros I. unfold stream_end. pose proof (calm_consumer_of origin cid rt) as Hc.
  destruct (consumer_of origin cid rt) as [rt1 [core|]]; cbn [fst] in Hc;
    (assert (inv P rt1) as I1 by (by eapply calm_inv)); [|done].
  destruct (rt_pending rt1 !! cid) as [call|] eqn:Ep; [|done].
  pose proof (take_in_hand P cid call rt1 I1 Ep) as Hh.
  destruct (match _ ≫= _ with Some _ => _ | None => _ end) as [monitor learned].
  eapply in_hand_settle; [|by apply settled_plain].
  eapply in_hand_calm; [apply calm_drop_completion|].
  set (rt2 := if learned then _ else _).
  assert (calm (remove_call cid rt1) rt2) as Hc2.
  { unfold rt2. destruct learned; [etrans; [apply (calm_monitor monitor)|apply calm_notify]|apply calm_monitor]. }
  clearbody rt2. destruct (rt_consumers rt2 !! cid) as [core'|]; [|by eapply in_hand_calm].
  destruct (on_end _ _ _) as [[k ?] ?]. eapply in_hand_calm; [|exact Hh]. etrans; [exact Hc2|apply calm_store].
Qed.

End Ends.
