(* ===== verification/CallsClose.v ===== *)
(** The end of a connection: the calls it carried fail, or are kept and sent
    again over another one.  Both critical sections of [close_connection] keep
    the invariant of CallsInv. *)
From stdpp Require Import base list numbers gmap strings sorting.
From S2P Require Import Prelude Cursor Frame Status Wire Credit Connection Registry Monitor Producer Consumer Peers Runtime Calls CallsInv CallsSteps CallsPeers CallsEnds.

#[local] Open Scope nat_scope.

(** ** First critical section *)

(** While the calls of session [id] are looked at: [todo] is left, [resend] was
    kept. *)
Definition looking (id : Z) (address : option SocketAddr) (todo : list Z) (resend : list Resend) :
    Excuse :=
  λ cid call j, j = id ∧
    (cid ∈ todo ∨
     cid ∈ rs_call_id <$> resend ∧ is_Some address ∧ is_Some (pc_retained call) ∧
     pc_transmitted call = false).

Record closing_ok (id : Z) (established : bool) (address : option SocketAddr) (todo : list Z)
    (resend : list Resend) (rt : Runtime) : Prop := {
  co_inv : inv (looking id address todo resend) rt;
  co_gone : id ∉ rt_connections rt;
  co_closing : rt_closing rt !! id = None;
  co_session : ∃ s, rt_sessions rt !! id = Some s ∧ q_established (cn_queue (sn_conn s)) = established;
  co_todo cid call : cid ∈ todo → rt_pending rt !! cid = Some call →
    pc_origin call = OriginConnection id;
  co_calls cid call : rt_pending rt !! cid = Some call → pc_origin call = OriginConnection id →
    is_Some address ∧ (is_stream call = true → pc_retained call = None);
}.

(** The caller of a call that is not sent again is told the truth. *)
Lemma disconnect_honest id established address todo resend reason cid call rt :
  closing_ok id established address todo resend rt →
  (∀ d, reason = ConnectFailed d → established = false) →
  call_ok (looking id address todo resend) rt cid call → pc_origin call = OriginConnection id →
  pc_earlier_transmitted call = false →
  settled_ok rt cid (Failed (disconnect_error reason established call)).
Proof.
  intros [I Hgone _ (s & Es & Ee) _ _] Hreason Hok Ho He.
  assert (pc_transmitted call = false → unsent rt cid) as Hu.
  { intros Ht. by eapply unsent_here, (no_waits_finished _ _ _ _ I). }
  assert (established = false → pc_transmitted call = false) as Hest.
  { intros ->. destruct (pc_transmitted call) eqn:Ht; [|done].
    pose proof (k_established _ _ _ _ Hok id s Ho Ht Es). congruence. }
  assert (settled_ok rt cid (Failed (if negb established
    then not_admitted (R_ConnectFailed "session closed during handshake")
    else if pc_transmitted call then RpcError_new R_Disconnected MaybeExecuted
    else not_admitted R_Disconnected))) as Hrest.
  { destruct established; cbn; [|by apply settled_unsent, Hu, Hest].
    destruct (pc_transmitted call); [by apply settled_plain|]. by apply settled_unsent, Hu. }
  destruct reason; try exact Hrest. by apply settled_unsent, Hu, Hest, (Hreason detail).
Qed.

Lemma close_call_ok id established address reason cid todo resend rt rt' resend' :
  closing_ok id established address (cid :: todo) resend rt →
  (∀ d, reason = ConnectFailed d → established = false) →
  close_call reason established address (rt, resend) cid = (rt', resend') →
  closing_ok id established address todo resend' rt'.
Proof.
  intros K Hreason E. pose proof K as [I Hgone Hclosing Hs Htodo Hcalls]. unfold close_call in E.
  destruct (rt_pending rt !! cid) as [call|] eqn:Ep.
  2:{ injection E as <- <-. constructor; try done.
      - eapply inv_mono; [|exact I]. intros j c i Ej _ [-> [Hj|?]]; [|by right; split; [|right]].
        right; split; [done|]. apply elem_of_cons in Hj as [->|?]; [congruence|by left].
      - intros j c Hj. apply Htodo. by right. }
  assert (pc_origin call = OriginConnection id) as Ho by (eapply Htodo; [by left|done]).
  pose proof (i_call _ _ I cid call Ep) as Hok. pose proof Hok as [A B C D S F].
  destruct (_ && _) eqn:Eb.
  - injection E as <- <-. apply andb_true_iff in Eb as [[Hr Ha]%andb_true_iff Hst].
    apply bool_decide_eq_true in Hr, Ha. apply negb_true_iff in Hst.
    set (call' := mkPendingCall _ _ _ _ _ _ _ _).
    constructor; try done.
    + apply (put_inv (looking id address (cid :: todo) resend) _ cid call call'); try done.
      * constructor; cbn; try done.
        -- intros j Hj. destruct (A j Hj) as [Ho' _]. rewrite Ho in Ho'. injection Ho' as <-.
           by destruct (no_waits_finished _ _ cid id I Hgone).
        -- intros [He Ht]%orb_false_iff. destruct (B He) as [H1 H2]. rewrite (H2 Ht). by split; [lia|].
        -- intros Hn. rewrite Hn in Hr. by destruct Hr.
        -- intros j Hj. rewrite Ho in Hj. injection Hj as <-. right; right. split; [done|]. right.
           split_and!; try done. rewrite fmap_app, elem_of_app. right. by left.
      * intros j c i Hj [-> [Hi|(Hi & ?)]]; (split; [done|]).
        -- left. by apply elem_of_cons in Hi as [->|].
        -- right. split; [|done]. rewrite fmap_app, elem_of_app. by left.
    + intros j c Hj. cbn. destruct (decide (j = cid)) as [->|].
      * rewrite lookup_insert_eq. by intros [= <-].
      * rewrite lookup_insert_ne by done. apply Htodo. by right.
    + intros j c. cbn. destruct (decide (j = cid)) as [->|].
      * rewrite lookup_insert_eq. intros [= <-] _. cbn. by apply (Hcalls cid call).
      * rewrite lookup_insert_ne by done. apply Hcalls.
  - injection E as <- <-. set (rt1 := if _ && _ then _ else _).
    assert (calm (remove_call cid rt) rt1) as Hc1
      by (unfold rt1; destruct (pc_transmitted call && is_checksum reason); [apply calm_bump|reflexivity]).
    clearbody rt1.
    destruct (Hcalls cid call Ep Ho) as [Ha Hst].
    assert (pc_earlier_transmitted call = false) as He.
    { apply C. destruct (is_stream call); [by apply Hst|]. rewrite (bool_decide_true _ Ha) in Eb.
      cbn in Eb. rewrite !andb_true_r in Eb. apply bool_decide_eq_false in Eb.
      by apply eq_None_not_Some. }
    assert (settled_ok rt1 cid (Failed (disconnect_error reason established call))) as Hso.
    { eapply settled_ok_quiet; [by apply calm_quiet|]. eapply settled_ok_quiet; [apply quiet_pending|].
      by eapply disconnect_honest. }
    assert (calm (settle cid (Failed (disconnect_error reason established call)) rt1)
      (finish cid call (Failed (disconnect_error reason established call)) rt1)) as Hc2 by apply calm_finish.
    assert (rt_pending (finish cid call (Failed (disconnect_error reason established call)) rt1) =
              delete cid (rt_pending rt)) as Hp.
    { rewrite (ca_pending _ _ Hc2). cbn. by rewrite (ca_pending _ _ Hc1). }
    constructor.
    + eapply inv_mono; [|eapply in_hand_finish; [eapply in_hand_calm; [exact Hc1|by apply take_in_hand]|exact Hso]].
      cbn. intros j c i. rewrite Hp. intros Ej _ [-> [Hj|?]]; [|by right; split; [|right]].
      right; split; [done|]. apply elem_of_cons in Hj as [->|?]; [by rewrite lookup_delete_eq in Ej|by left].
    + rewrite (ca_connections _ _ Hc2). cbn. by rewrite (ca_connections _ _ Hc1).
    + rewrite (ca_closing _ _ Hc2). cbn. by rewrite (ca_closing _ _ Hc1).
    + destruct Hs as (s & Es & Ee).
      destruct (quiet_session' _ _ _ _ (calm_quiet _ _ Hc1) Es) as (s1 & Es1 & [[_ _ _ E1 _] _ _]).
      destruct (quiet_session' _ _ _ _ (calm_quiet _ _ Hc2) Es1) as (s2 & Es2 & [[_ _ _ E2 _] _ _]).
      exists s2. split; [done|]. congruence.
    + intros j c Hj. rewrite Hp. intros [_ Ej]%lookup_delete_Some. eapply Htodo; [by right|done].
    + intros j c. rewrite Hp. intros [_ Ej]%lookup_delete_Some. by apply (Hcalls j).
Qed.

Lemma close_calls_ok id established address reason todo resend rt rt' resend' :
  closing_ok id established address todo resend rt →
  (∀ d, reason = ConnectFailed d → established = false) →
  foldl (close_call reason established address) (rt, resend) todo = (rt', resend') →
  closing_ok id established address [] resend' rt'.
Proof.
  revert rt resend. induction todo as [|cid todo IH]; intros rt resend K Hr E.
  - by injection E as <- <-.
  - cbn [foldl] in E. destruct (close_call reason established address (rt, resend) cid) as [rt1 resend1] eqn:E1.
    eapply IH; [by eapply close_call_ok|done|done].
Qed.

Lemma calm_log_close reason established rt : calm rt (log_close reason established rt).
Proof.
  unfold log_close. destruct reason; cbn [is_checksum]; destruct established;
    repeat (first [reflexivity|etrans; [|apply calm_bump]]).
Qed.

(** The calls to be sent again find their home in the entry of the teardown. *)
Lemma set_closing_inv id established address resend probe rt :
  closing_ok id established address [] resend rt →
  calls_ok (set_closing (<[id := mkClosing address resend probe]> (rt_closing rt)) rt).
Proof.
  intros [I Hgone Hcl (s & Es & _) _ _]. set (rt' := set_closing _ rt).
  destruct I as [I1 I2 I3 I4 I5 I6 I7 I8 I9 I10 I11 I12 I13].
  constructor; try done.
  - intros cid Hn. destruct (I1 cid Hn) as [A B C D]. by constructor.
  - intros cid call Ep. destruct (I4 cid call Ep) as [A B C D S E]. constructor; try done.
    intros j Hj. destruct (D j Hj) as [?|[(cl & Ecl & Hr)|[-> [[]%elem_of_nil|(Hr & Ha & Hre & Ht)]]]].
    + by left.
    + right; left. exists cl. split; [|done]. cbn. rewrite lookup_insert_ne; [done|]. congruence.
    + right; left. exists (mkClosing address resend probe). cbn. by rewrite lookup_insert_eq.
  - intros cid o Ho. by destruct (I5 cid o Ho).
  - intros j x Ex. by destruct (I11 j x Ex).
  - intros j cl. cbn. destruct (decide (j = id)) as [->|].
    + intros _. unfold task_of. change (rt_sessions rt') with (rt_sessions rt). rewrite Es. cbn. f_equal.
      destruct (decide (sn_task s = Finished)) as [|Hn]; [done|].
      by destruct Hgone; apply (se_open _ _ _ (I11 id s Es)).
    + rewrite lookup_insert_ne by done. apply I13.
Qed.

(** Every pending call of [keys_of]. *)
Lemma keys_of_lookup {A} (m : gmap Z A) k : k ∈ keys_of m ↔ is_Some (m !! k).
Proof.
  unfold keys_of. rewrite merge_sort_Permutation. rewrite list_elem_of_fmap. split.
  - intros ([k' v] & -> & Hin%elem_of_map_to_list). by eexists.
  - intros [v Hv]. exists (k, v). split; [done|]. by apply elem_of_map_to_list.
Qed.

Section Close.
Context `{Xxh3} (config : Config).

Lemma calm_settle_peer id address now rt rt' :
  settle_peer config id address now rt = Some rt' → calm rt rt'.
Proof.
  unfold settle_peer. destruct (bt_get address (rt_peers rt)) as [peer|]; [|by intros [= <-]].
  case_bool_decide; [|by intros [= <-]]. destruct (session_ended _ _ _); [|done].
  intros [= <-]. apply calm_peers.
Qed.

Lemma close_connection_inv id s returned now rt rt' :
  calls_ok rt → addressed rt → rt_sessions rt !! id = Some s → sn_task s ≠ Finished →
  sn_held s = None → may_return (sn_task s) returned = true →
  close_connection config id returned now rt = Some rt' → calls_ok rt'.
Proof.
  intros I Ad Es Et Eh Hret E. unfold close_connection, look in E. rewrite Es in E. cbn in E.
  pose proof (end_session_inv (λ _ _ _, False) id returned s rt I Es Et Eh) as I1.
  unfold end_session in I1. unfold on_conn in E, I1. rewrite Es in E, I1.
  assert (snd (Connection_close returned (with_counters (sn_conn s) (rt_counters rt))) =
    default returned (q_closed (cn_queue (sn_conn s))) ∧
    q_established (cn_queue (fst (Connection_close returned (with_counters (sn_conn s) (rt_counters rt))))) =
    q_established (cn_queue (sn_conn s))) as [Er Ee0] by done.
  destruct (Connection_close returned (with_counters (sn_conn s) (rt_counters rt))) as [c0 r0].
  cbn [fst snd] in E, I1, Er, Ee0. subst r0.
  set (established := q_established (cn_queue (sn_conn s))) in *.
  set (address := q_peer_address (cn_queue (sn_conn s))) in *.
  cbn [from_option default] in E.
  set (reason := default returned (q_closed (cn_queue (sn_conn s)))) in *.
  assert (∀ d, reason = ConnectFailed d → established = false) as Hreason.
  { intros d Hd. destruct (i_session _ _ I id s Es) as [_ _ _ D _ F]. unfold reason in Hd.
    destruct (q_closed (cn_queue (sn_conn s))) as [r|] eqn:Ecl; cbn in Hd.
    - subst r. by destruct (Et (F d eq_refl)).
    - subst returned. destruct (sn_task s) eqn:Etask; try done. by destruct (D eq_refl). }
  match type of I1 with inv _ ?r => set (rt1 := r) in * end.
  assert (rt_pending rt1 = rt_pending rt ∧ rt_closing rt1 = rt_closing rt ∧ (id ∉ rt_connections rt1) ∧
    (∃ s1, rt_sessions rt1 !! id = Some s1 ∧ q_established (cn_queue (sn_conn s1)) = established))
    as (Hp1 & Hcl1 & Hg1 & s1 & Es1 & Ee1).
  { split_and!; [done|done|cbn; set_solver|]. cbn. rewrite lookup_alter_eq, lookup_insert_eq. eauto. }
  clearbody rt1.
  match type of E with (?m ≫= _) = _ => destruct m as [rt2|] eqn:E2 end; [|done]. cbn in E.
  assert (calm rt1 rt2) as Hc.
  { destruct address as [a|]; [|by injection E2 as <-].
    destruct (settle_peer config id a now rt1) as [rt3|] eqn:E3; [|done]. injection E2 as <-.
    etrans; [by eapply calm_settle_peer|]. etrans; [|apply calm_notify]. apply calm_monitor. }
  set (carried := filter _ _) in E.
  assert (closing_ok id established address carried [] rt2) as K.
  { assert (∀ cid call, rt_pending rt2 !! cid = Some call → pc_origin call = OriginConnection id → cid ∈ carried) as Hcar.
    { intros cid call Ep Ho. unfold carried. rewrite list_elem_of_filter, keys_of_lookup, Ep. cbn. by rewrite Ho. }
    constructor.
    - eapply inv_mono; [|by eapply calm_inv]. cbn. intros cid call j Ep Ho [[]| ->]. right.
      split; [done|]. left. by eapply Hcar.
    - by rewrite (ca_connections _ _ Hc).
    - rewrite (ca_closing _ _ Hc), Hcl1. destruct (rt_closing rt !! id) as [cl|] eqn:Ecl; [|done].
      pose proof (i_closing _ _ I id cl Ecl) as Ht. unfold task_of in Ht. rewrite Es in Ht. cbn in Ht. congruence.
    - destruct (quiet_session' _ _ _ _ (calm_quiet _ _ Hc) Es1) as (s2 & Es2 & [[_ _ _ Ee2 _] _ _]).
      exists s2. split; [done|congruence].
    - intros cid call [Ho _]%list_elem_of_filter Ep. rewrite Ep in Ho. cbn in Ho. congruence.
    - intros cid call. rewrite (ca_pending _ _ Hc), Hp1. intros Ep Ho. split; [|by apply (ad_stream _ Ad cid)].
      destruct (ad_call _ Ad cid call id Ep Ho) as (x & Ex & Hx). rewrite Es in Ex. injection Ex as <-. done. }
  clearbody carried. destruct (foldl _ _ _) as [rt3 resend] eqn:E3.
  apply (close_calls_ok _ _ _ _ _ _ _ _ _ K Hreason) in E3.
  injection E as <-.
  match goal with |- calls_ok (set_closing (<[id := mkClosing _ _ ?p]> _) _) =>
    apply (set_closing_inv id established address resend p) end.
  pose proof (calm_log_close reason established rt3) as Hlog.
  destruct E3 as [J1 J2 J3 (s3 & Es3 & Ee3) J4 J5]. constructor.
  - by eapply calm_inv.
  - by rewrite (ca_connections _ _ Hlog).
  - by rewrite (ca_closing _ _ Hlog).
  - destruct (quiet_session' _ _ _ _ (calm_quiet _ _ Hlog) Es3) as (s4 & Es4 & [[_ _ _ Ee4 _] _ _]).
    exists s4. split; [done|congruence].
  - rewrite (ca_pending _ _ Hlog). done.
  - rewrite (ca_pending _ _ Hlog). done.
Qed.

(** ** Second critical section *)

(** The copies of [todo] are still to be queued. *)
Definition resending (id : Z) (todo : list Z) : Excuse :=
  λ cid call j, j = id ∧ cid ∈ todo ∧ is_Some (pc_retained call) ∧ pc_transmitted call = false.

(** A call in hand whose connection is gone may be queued again. *)
Lemma resend_may_queue P id id' cid call rt :
  in_hand P cid call rt → id ∉ rt_connections rt → pc_origin call = OriginConnection id →
  is_Some (pc_retained call) → may_queue rt id' cid.
Proof.
  intros Hh Hgone Ho [body Hr]. pose proof (in_hand_call _ _ _ _ Hh) as [A B C D S F].
  destruct Hh as [Hn I].
  assert (rt_pending (put cid call rt) !! cid = Some call) as Ep by (cbn; by rewrite lookup_insert_eq).
  constructor.
  - intros j Hj. destruct (A j Hj) as [Ho' _]. rewrite Ho in Ho'. injection Ho' as <-.
    by eapply (no_waits_finished _ _ cid id I).
  - intros c. congruence.
  - intros o Hs. pose proof (i_settled_gone _ _ I cid) as Hg. rewrite Ep in Hg.
    by discriminate Hg; apply list_elem_of_fmap; exists (cid, o).
  - intros Ha. destruct (i_at_most_once _ _ I cid Ha) as [_ Hnone].
    specialize (Hnone call Ep). congruence.
  - destruct (decide (rt_next_call_id rt ≤ cid)%Z) as [Hle|]; [|lia].
    pose proof (un_pending _ _ (i_fresh _ _ I cid Hle)) as Hx. congruence.
Qed.

Lemma requeue_inv P P' id id' cid call frame now rt rt' :
  in_hand P cid call rt → id ∉ rt_connections rt → id' ∈ rt_connections rt →
  pc_origin call = OriginConnection id → is_Some (pc_retained call) → pc_transmitted call = false →
  (∀ j c i, j ≠ cid → P j c i → P' j c i) →
  on_conn id' (adopt_requests [(frame, Some cid)] now) rt = (rt', Some true) →
  inv P' (put cid (set_origin (OriginConnection id') call) rt').
Proof.
  intros Hh Hgone Hid Ho Hr Ht HP E.
  pose proof (resend_may_queue P id id' cid call rt Hh Hgone Ho Hr) as Hm.
  pose proof (in_hand_call _ _ _ _ Hh) as [A B C D S F].
  assert (queued id' [(frame, Some cid)] rt rt') as Hq.
  { eapply on_conn_queued; [exact E|]. intros c c' x Ef ->.
    destruct (adopt_requests_view _ _ _ _ _ Ef) as [[? _]|(_ & ?)]; done. }
  assert (inv P' (put cid (set_origin (OriginConnection id') call) rt)) as I1.
  { eapply in_hand_put; [exact Hh| |done|done]. constructor; try done.
    - intros j Hj. by destruct (mq_waits _ _ _ Hm j).
    - intros j [= <-]. by left.
    - intros j [= <-]. destruct Hh as [_ I]. by apply (i_open _ _ I).
    - intros j s [= <-] Htrue. cbn in Htrue. congruence. }
  eapply (queued_inv _ id' [(frame, Some cid)]); [exact I1| |].
  - destruct Hq. constructor; try done. cbn. by f_equal.
  - intros c Hc. rewrite copies_of_cons, copies_of_nil in Hc |- *. cbn [snd] in *.
    case_bool_decide as Hcid; [|done]. injection Hcid as <-. split; [done|].
    destruct Hm as [M1 M2 M3 M4 M5]. constructor; try done.
    intros c. cbn. rewrite lookup_insert_eq. intros [= <-]. done.
Qed.

Lemma retransmit_one_inv id connection now cid frame todo rt :
  inv (resending id (cid :: todo)) rt → id ∉ rt_connections rt →
  (∀ id', connection = Ok id' → id' ∈ rt_connections rt) →
  inv (resending id todo) (retransmit_one (OriginConnection id) connection now rt (cid, frame)) ∧
  rt_connections (retransmit_one (OriginConnection id) connection now rt (cid, frame)) = rt_connections rt.
Proof.
  intros I Hgone Hcon. unfold retransmit_one.
  destruct (rt_pending rt !! cid) as [call|] eqn:Ep.
  2:{ split; [|done]. eapply inv_mono; [|exact I]. intros j c i Ej _ (-> & Hj & Hrest). right.
      split_and!; try apply Hrest; [done|]. apply elem_of_cons in Hj as [->|]; [congruence|done]. }
  case_bool_decide as Ho; cbn [negb].
  2:{ split; [|done]. eapply inv_mono; [|exact I]. intros j c i Ej Hi (-> & Hj & Hrest). right.
      split_and!; try apply Hrest; [done|]. apply elem_of_cons in Hj as [->|]; [congruence|done]. }
  pose proof (take_in_hand _ cid call rt I Ep) as Hh.
  pose proof (in_hand_call _ _ _ _ Hh) as Hok.
  assert (∀ rt1 reason, calm (remove_call cid rt) rt1 →
    inv (resending id todo)
      (finish cid call (Failed (RpcError_new reason (known_execution call))) rt1) ∧
    rt_connections (finish cid call (Failed (RpcError_new reason (known_execution call))) rt1) =
      rt_connections rt) as Hfail.
  { intros rt1 reason Hc.
    pose proof (calm_finish cid call (Failed (RpcError_new reason (known_execution call))) rt1) as Hc2.
    split; [|by rewrite (ca_connections _ _ Hc2); cbn; rewrite (ca_connections _ _ Hc)].
    eapply inv_mono; [|eapply in_hand_finish; [by eapply in_hand_calm|]].
    - intros j c i. rewrite (ca_pending _ _ Hc2). cbn. rewrite (ca_pending _ _ Hc). cbn.
      intros [Hne _]%lookup_delete_Some _ (-> & Hj & Hrest). right.
      split_and!; try apply Hrest; [done|]. apply elem_of_cons in Hj as [->|]; [congruence|done].
    - unfold known_execution. apply settled_failed. intros [Ht He]%orb_false_iff.
      eapply unsent_calm; [exact Hc|]. eapply unsent_here; [exact Hok|done..|].
      by apply (no_waits_finished _ _ cid id I). }
  destruct (permanent_failure _ _) as [failure|]; [by apply Hfail|].
  destruct connection as [id'|e|]; [|by apply Hfail|].
  2:{ destruct frame; by apply Hfail. }
  destruct frame as [frame|e|]; [|by apply Hfail..].
  destruct (on_conn id' (adopt_requests [(frame, Some cid)] now) (remove_call cid rt)) as [rt1 r] eqn:E.
  destruct r as [[]|].
  - assert (is_Some (pc_retained call) ∧ pc_transmitted call = false) as [Hr Ht].
    { destruct (k_home _ _ _ _ Hok id Ho) as [?|[(cl & _ & _ & _ & ?)|(_ & _ & ?)]]; done. }
    assert (inv (resending id todo) (put cid (set_origin (OriginConnection id') call) rt1)) as I1.
    { eapply requeue_inv; try done; [by apply Hcon|].
      intros j c i Hne (-> & Hj & Hrest). split_and!; try apply Hrest; [done|].
      by apply elem_of_cons in Hj as [->|]. }
    split; [exact (calm_inv _ _ _ (calm_bump retransmissions _) I1)|].
    cbn. unfold on_conn in E. cbn in E. destruct (rt_sessions rt !! id'); [|done].
    destruct (adopt_requests _ _ _). by injection E as <- _.
  - apply Hfail. eapply on_conn_calm; [exact E|]. intros c c' x Ef [= <-].
    destruct (adopt_requests_view _ _ _ _ _ Ef) as [[_ ->]|(? & _)]; done.
  - apply Hfail. by eapply on_conn_calm; [exact E|].
Qed.

Lemma retransmit_copies_inv id connection now copies rt :
  inv (resending id copies.*1) rt → id ∉ rt_connections rt →
  (∀ id', connection = Ok id' → id' ∈ rt_connections rt) →
  calls_ok (foldl (retransmit_one (OriginConnection id) connection now) rt copies).
Proof.
  revert rt. induction copies as [|[cid frame] copies IH]; intros rt I Hgone Hcon; cbn [foldl].
  - eapply inv_mono; [|exact I]. intros j c i _ _ (_ & []%elem_of_nil & _).
  - destruct (retransmit_one_inv id connection now cid frame copies.*1 rt I Hgone Hcon) as [I1 E1].
    apply IH; [done|by rewrite E1..].
Qed.

(** The entry of a teardown is taken, its calls are in hand. *)
Lemma closing_removed id cl rt :
  calls_ok rt → rt_closing rt !! id = Some cl →
  inv (resending id (rs_call_id <$> cl_resend cl)) (set_closing (delete id (rt_closing rt)) rt).
Proof.
  intros I Ecl. destruct I as [I1 I2 I3 I4 I5 I6 I7 I8 I9 I10 I11 I12 I13]. constructor; try done.
  - intros cid Hn. destruct (I1 cid Hn) as [A B C D]. by constructor.
  - intros cid call Ep. destruct (I4 cid call Ep) as [A B C D S F]. constructor; try done.
    intros j Hj. destruct (D j Hj) as [?|[(cl' & E' & Hr & Ha & Hre & Ht)|[]]]; [by left|right].
    destruct (decide (j = id)) as [->|Hne].
    + right. rewrite Ecl in E'. injection E' as <-. by split_and!.
    + left. exists cl'. cbn. by rewrite lookup_delete_ne.
  - intros cid o Ho. by destruct (I5 cid o Ho).
  - intros j x Ex. by destruct (I11 j x Ex).
  - intros j cl'. cbn. intros [_ Ex]%lookup_delete_Some. by apply I13 in Ex.
Qed.

Lemma finish_teardown_inv id ask now rt rt' :
  calls_ok rt → finish_teardown config id ask now rt = Some rt' → calls_ok rt'.
Proof.
  intros I E. unfold finish_teardown in E. destruct (rt_closing rt !! id) as [cl|] eqn:Ecl; [|done].
  cbn in E. set (rt1 := set_closing _ rt) in E.
  pose proof (i_closing _ _ I id cl Ecl) as Htask.
  assert (∀ cid call, rt_pending rt !! cid = Some call → pc_origin call = OriginConnection id →
    cl_address cl = None → False) as Hnone.
  { intros cid call Ep Ho Ha. destruct (k_home _ _ _ _ (i_call _ _ I cid call Ep) id Ho)
      as [Hin|[(cl' & E' & _ & [a Hx] & _)|[]]]; [|congruence].
    apply lookup_task in Htask as (s & Es & Et).
    by apply (se_finished _ _ _ (i_session _ _ I id s Es)) in Et as [? _]. }
  assert (inv (resending id (rs_call_id <$> cl_resend cl)) rt1) as I1 by (by apply closing_removed).
  set (rt2 := match cl_address cl with Some _ => _ | None => _ end) in E.
  assert (calls_ok rt2) as I2.
  { assert (task_of id rt1 = Some Finished) as Ht1 by done.
    unfold rt2. destruct (cl_address cl) as [a|] eqn:Ea.
    2:{ eapply inv_mono; [|exact I1]. intros cid call j Ep Ho (-> & _). by destruct (Hnone cid call Ep Ho eq_refl). }
    destruct (negb (is_empty (cl_resend cl)) || cl_probe cl) eqn:Eb.
    - unfold retransmit. destruct (peer_connection config a now rt1) as [rt3 connection] eqn:Ep.
      destruct (peer_connection_inv _ _ _ _ _ _ _ I1 Ep) as (I3 & K3 & Hin).
      apply retransmit_copies_inv; [|  |done].
      + rewrite <- list_fmap_compose. exact I3.
      + apply (kp_task _ _ _ K3) in Ht1. apply lookup_task in Ht1 as (s & Es & Et).
        by apply (se_finished _ _ _ (i_session _ _ I3 id s Es)) in Et as [? _].
    - apply orb_false_iff in Eb as [Eb _]. apply negb_false_iff in Eb.
      eapply inv_mono; [|exact I1]. destruct (cl_resend cl); [|done].
      intros cid call j Ep Ho (_ & []%elem_of_nil & _). }
  clearbody rt2. destruct (on_conn id take_streams rt2) as [rt3 streams] eqn:E3. injection E as <-.
  assert (calls_ok rt3) as I3.
  { eapply calm_inv; [|exact I2]. eapply on_conn_calm; [exact E3|]. intros c c' x Ef _.
    pose proof (calm_take_streams c). by rewrite Ef in *. }
  generalize (default [] streams) as l. intros l. revert rt3 E3 I3. clear.
  intros rt3 _. revert rt3. induction l as [|x l IH]; intros rt3 I3; [done|]. cbn [foldl].
  apply IH. by eapply calm_inv; [apply calm_bump|].
Qed.

End Close.
