(* ===== verification/CallsAddress.v ===== *)
(** Every connection that carries calls was selected for a peer, and keeps the
    peer's address to its end. *)
From stdpp Require Import base list numbers gmap strings sorting.
From S2P Require Import Prelude Cursor Frame Status Wire Credit Connection Registry Monitor Producer Consumer Peers Runtime Calls CallsInv CallsClose.

#[local] Open Scope nat_scope.

(** ** Operations of a connection *)

Definition addr (c : Connection) : option SocketAddr := q_peer_address (cn_queue c).

Lemma addr_enlist src q : q_peer_address (enlist src q) = q_peer_address q.
Proof. unfold enlist. by case_bool_decide. Qed.

Lemma addr_push_control frame c : addr (fst (push_control frame c)) = addr c.
Proof. unfold push_control. destruct (is_closed c); [done|]. by case_match. Qed.

Lemma addr_push_request frame cid now c : addr (fst (push_request frame cid now c)) = addr c.
Proof.
  unfold push_request. destruct (is_closed c); [done|]. case_match; [done|].
  unfold addr. cbn. by rewrite addr_enlist.
Qed.

Lemma addr_retract cid c : addr (fst (retract cid c)) = addr c.
Proof. unfold retract. case_match; [done|]. cbn. by case_match. Qed.

Lemma addr_adopt_requests moved now c : addr (fst (adopt_requests moved now c)) = addr c.
Proof.
  unfold adopt_requests. destruct (is_closed c); [done|].
  assert (∀ c, addr (fold_left (λ c '(frame, call_id),
      on_queue (λ q, set_requests (q_requests q ++ [(frame, call_id)]) q)
        (add_bytes (len frame) true c)) moved c) = addr c) as Hf.
  { induction moved as [|[f i] moved IH]; intros c0; [done|]. cbn [fold_left]. by rewrite IH. }
  unfold addr in *. cbn [fst]. cbn. case_match; cbn; rewrite ?addr_enlist; apply Hf.
Qed.

Lemma addr_queue_exec op c : addr (queue_exec op c) = addr c.
Proof.
  destruct op; cbn [queue_exec]; [apply addr_push_control|..|done|done].
  - unfold push_reply. destruct (is_closed c); [done|]. unfold addr. cbn. by rewrite addr_enlist.
  - unfold push_stream_frame. destruct (is_closed c); [done|]. unfold addr. cbn. by rewrite addr_enlist.
  - unfold register_stream. by case_match.
  - unfold remove_stream. by destruct discard.
  - unfold signal_ack. by destruct (is_closed c).
  - unfold signal_cancel. by destruct (is_closed c).
Qed.

Lemma addr_close_if_idle now idle selected c : addr (fst (close_if_idle now idle selected c)) = addr c.
Proof. unfold close_if_idle. by case_match. Qed.

Section Polling.
Context `{Xxh3}.

Lemma addr_poll_turns n c : addr (fst (poll_turns n c)) = addr c.
Proof.
  revert c. induction n as [|n IH]; intros c; cbn [poll_turns]; [done|].
  destruct (q_turns (cn_queue c)) as [|source turns]; [done|].
  destruct (_ && _); [by rewrite IH|].
  destruct (next_from source _) as [c1 [[[[b k] r] more]|]] eqn:En.
  - assert (addr c1 = addr c) as <-; [|by destruct more, k].
    destruct source as [| |id]; cbn in En; repeat case_match; by simplify_eq.
  - rewrite IH. destruct source as [| |id]; cbn in En; repeat case_match; by simplify_eq.
Qed.

Lemma addr_poll_next c : addr (fst (Connection_poll_next c)) = addr c.
Proof.
  unfold Connection_poll_next. destruct (is_closed c); [done|].
  destruct (q_control (cn_queue c)) as [|b rest]; [|done].
  destruct (first_key (q_signals (cn_queue c))) as [cid|]; [by destruct (encode_frame _ _)|].
  pose proof (addr_poll_turns (length (q_turns (cn_queue c))) c) as Ht.
  destruct (poll_turns _ c) as [c1 [o|]]; done.
Qed.

End Polling.

(** ** Operations of the runtime *)

Definition placed (rt : Runtime) (call : PendingCall) : Prop :=
  ∀ id, pc_origin call = OriginConnection id → has_address rt id.

Record tamed (rt rt' : Runtime) : Prop := {
  tm_address id : has_address rt id → has_address rt' id;
  tm_peer a p id : (a, p) ∈ rt_peers rt' → pr_current p = Some id →
    has_address rt' id ∨ ∃ a0 p0, (a0, p0) ∈ rt_peers rt ∧ pr_current p0 = Some id;
  tm_call cid c' : rt_pending rt' !! cid = Some c' →
    (placed rt' c' ∧ (is_stream c' = true → pc_retained c' = None)) ∨
    ∃ c, rt_pending rt !! cid = Some c ∧ is_stream c' = is_stream c ∧
      pc_retained c' = pc_retained c ∧ (pc_origin c' = pc_origin c ∨ placed rt' c');
  tm_settled e : e ∈ rt_settled rt → e ∈ rt_settled rt';
}.

Lemma placed_mono rt rt' call :
  (∀ id, has_address rt id → has_address rt' id) → placed rt call → placed rt' call.
Proof. intros Hm Hp id Ho. by apply Hm, Hp. Qed.

#[global] Instance tamed_preorder : PreOrder tamed.
Proof.
  split.
  - intros rt. constructor; [done|eauto| |done]. intros cid c' E. right. exists c'. auto.
  - intros a b c [A1 A2 A3 A4] [B1 B2 B3 B4]. constructor; [auto| | |auto].
    + intros x p id Hp Hc. destruct (B2 x p id Hp Hc) as [?|(x0 & p0 & Hp0 & Hc0)]; [by left|].
      destruct (A2 x0 p0 id Hp0 Hc0) as [?|?]; [left; auto|by right].
    + intros cid c2 E2. destruct (B3 cid c2 E2) as [?|(c1 & E1 & S1 & R1 & O1)]; [by left|].
      destruct (A3 cid c1 E1) as [[P1 Q1]|(c0 & E0 & S0 & R0 & O0)].
      * left. split; [|by rewrite S1, R1]. destruct O1 as [O1|]; [|done].
        intros id Ho. apply B1, P1. by rewrite <- O1.
      * right. exists c0. rewrite S1, R1, S0, R0. split_and!; try done.
        destruct O1 as [O1|]; [|by right]. rewrite O1. destruct O0 as [->|P0]; [by left|].
        right. intros id Ho. apply B1, P0. by rewrite <- O1.
Qed.

Lemma addressed_tamed rt rt' : tamed rt rt' → addressed rt → addressed rt'.
Proof.
  intros [A B C _] [D E F]. constructor.
  - intros a p id Hp Hc. destruct (B a p id Hp Hc) as [?|(a0 & p0 & Hp0 & Hc0)]; [done|]. eauto.
  - intros cid c' id Ec Ho. destruct (C cid c' Ec) as [[P _]|(c & E0 & _ & _ & [O|P])]; [by apply P| |by apply P].
    apply A, (E cid c); [done|]. by rewrite <- O.
  - intros cid c' Ec Hs. destruct (C cid c' Ec) as [[_ Q]|(c & E0 & S0 & R0 & _)]; [by apply Q|].
    rewrite R0. apply (F cid); [done|]. by rewrite <- S0.
Qed.

Lemma tamed_fields rt rt' :
  rt_sessions rt' = rt_sessions rt → rt_peers rt' = rt_peers rt →
  (∀ cid c, rt_pending rt' !! cid = Some c → rt_pending rt !! cid = Some c) →
  (∀ e, e ∈ rt_settled rt → e ∈ rt_settled rt') → tamed rt rt'.
Proof.
  intros E1 E2 E3 E4. constructor; [..|exact E4].
  - intros id. unfold has_address. by rewrite E1.
  - rewrite E2. eauto.
  - intros cid c' Ec. right. exists c'. auto 6.
Qed.

Lemma tamed_session id f rt :
  (∀ s, is_Some (addr (sn_conn s)) → is_Some (addr (sn_conn (f s)))) → tamed rt (on_session id f rt).
Proof.
  intros Hf. constructor; [|eauto|intros cid c' E; right; exists c'; auto|done].
  intros j (s & Es & Hs). unfold has_address. cbn. destruct (decide (j = id)) as [->|].
  - rewrite lookup_alter_eq, Es. cbn. eexists. split; [done|]. by apply Hf.
  - rewrite lookup_alter_ne by done. eauto.
Qed.

Lemma tamed_on_conn {A} id (f : Connection → Connection * A) rt :
  (∀ c, addr (fst (f c)) = addr c) → tamed rt (fst (on_conn id f rt)).
Proof.
  intros Hf. unfold on_conn. destruct (rt_sessions rt !! id) as [s|] eqn:Es; [|reflexivity].
  specialize (Hf (with_counters (sn_conn s) (rt_counters rt))). destruct (f _) as [c a]. cbn [fst] in *.
  constructor; [|cbn; eauto|intros cid c' E; right; exists c'; auto|done].
  intros j (s' & Es' & Hs'). unfold has_address. cbn. destruct (decide (j = id)) as [->|].
  - rewrite lookup_insert_eq. rewrite Es in Es'. injection Es' as <-. eexists. split; [done|].
    cbn. change (is_Some (addr c)). by rewrite Hf.
  - rewrite lookup_insert_ne by done. eauto.
Qed.

Lemma tamed_touch id f rt : (∀ c, addr (f c) = addr c) → tamed rt (touch id f rt).
Proof. intros Hf. by apply tamed_on_conn. Qed.

Create HintDb tame.

Lemma tamed_bump x rt : tamed rt (bump x rt).
Proof. by apply tamed_fields. Qed.
Lemma tamed_notify rt : tamed rt (notify rt).
Proof. by apply tamed_fields. Qed.
Lemma tamed_monitor m rt : tamed rt (set_monitor m rt).
Proof. by apply tamed_fields. Qed.
Lemma tamed_lifecycle l rt : tamed rt (set_lifecycle l rt).
Proof. by apply tamed_fields. Qed.
Lemma tamed_store cid k rt : tamed rt (store_consumer cid k rt).
Proof. by apply tamed_fields. Qed.
Lemma tamed_consumers m rt : tamed rt (set_consumers m rt).
Proof. by apply tamed_fields. Qed.
Lemma tamed_reserved n rt : tamed rt (reserved n rt).
Proof. by apply tamed_fields. Qed.
Lemma tamed_present a r rt : tamed rt (present a r rt).
Proof. by apply tamed_fields. Qed.
Lemma tamed_ping n rt : tamed rt (set_next_ping n rt).
Proof. by apply tamed_fields. Qed.
Lemma tamed_settle cid o rt : tamed rt (settle cid o rt).
Proof. apply tamed_fields; [done..|]. intros e He. cbn. apply elem_of_app. by left. Qed.
Lemma tamed_wire w rt : tamed rt (set_wire w rt).
Proof. by apply tamed_fields. Qed.
Lemma tamed_connections m rt : tamed rt (set_connections m rt).
Proof. by apply tamed_fields. Qed.
Lemma tamed_closing m rt : tamed rt (set_closing m rt).
Proof. by apply tamed_fields. Qed.
Lemma tamed_driver b rt : tamed rt (set_driver_gone b rt).
Proof. by apply tamed_fields. Qed.
Lemma tamed_next_call n rt : tamed rt (set_next_call_id n rt).
Proof. by apply tamed_fields. Qed.
Lemma tamed_remove cid rt : tamed rt (remove_call cid rt).
Proof. apply tamed_fields; [done..| |done]. intros j c. cbn. by intros [_ ?]%lookup_delete_Some. Qed.

Lemma tamed_terminate_consumer cid e rt : tamed rt (terminate_consumer cid e rt).
Proof. unfold terminate_consumer. case_match; [apply tamed_store|reflexivity]. Qed.

Lemma tamed_drop_completion cid call rt : tamed rt (drop_completion cid call rt).
Proof. unfold drop_completion. case_match; [apply tamed_terminate_consumer|reflexivity]. Qed.

Lemma tamed_finish cid call o rt : tamed rt (finish cid call o rt).
Proof.
  unfold finish. case_match; [|apply tamed_settle]. etrans; [apply tamed_settle|].
  etrans; [apply tamed_terminate_consumer|apply tamed_drop_completion].
Qed.

Lemma tamed_signal_cancel id cid rt : tamed rt (touch id (signal_cancel cid) rt).
Proof. apply tamed_touch. intros c. unfold signal_cancel. by destruct (is_closed c). Qed.

Lemma tamed_close id r rt : tamed rt (touch id (λ c, fst (Connection_close r c)) rt).
Proof. by apply tamed_touch. Qed.

Lemma tamed_finished id rt : tamed rt (on_session id (set_task Finished) rt).
Proof. by apply tamed_session. Qed.

#[export] Hint Resolve tamed_bump tamed_notify tamed_monitor tamed_lifecycle tamed_store
  tamed_consumers tamed_reserved tamed_present tamed_ping tamed_settle tamed_wire tamed_connections
  tamed_closing tamed_driver tamed_next_call tamed_remove tamed_terminate_consumer
  tamed_drop_completion tamed_finish tamed_signal_cancel tamed_close tamed_finished : tame.

(** Peel the last change off. *)
Ltac tame := repeat first [reflexivity|assumption|etrans; [|solve [auto with tame nocore]]].

(** ** Peers *)

Lemma bt_get_In {K V} `{EqDecision K} (k : K) (v : V) m : bt_get k m = Some v → (k, v) ∈ m.
Proof.
  induction m as [|[k' v'] m IH]; [done|]. cbn. case_decide as Hk.
  - intros [= ->]. subst. by left.
  - intros Hm. right. auto.
Qed.

Lemma bt_insert_In {K V} `{EqDecision K} lt (k : K) (v : V) m e :
  e ∈ bt_insert lt k v m → e = (k, v) ∨ e ∈ m.
Proof.
  unfold bt_insert. destruct (bt_get k m); induction m as [|[k' v'] m IH]; cbn; auto.
  - case_decide; rewrite !elem_of_cons; naive_solver.
  - intros ?%list_elem_of_singleton. by left.
  - case_match; rewrite !elem_of_cons; naive_solver.
Qed.

(** The peer stored names an addressed connection, or the one it named. *)
Lemma tamed_insert_peer a p rt :
  (∀ id, pr_current p = Some id →
     has_address rt id ∨ ∃ a0 p0, (a0, p0) ∈ rt_peers rt ∧ pr_current p0 = Some id) →
  tamed rt (set_peers (bt_insert SocketAddr_lt a p (rt_peers rt)) rt).
Proof.
  intros Hp. constructor; [done| |intros cid c' E; right; exists c'; auto|done].
  intros x q id [[= -> ->]|Hin]%bt_insert_In Hc; [by apply Hp|eauto].
Qed.

Lemma tamed_same_peer a p p0 rt :
  bt_get a (rt_peers rt) = Some p0 → pr_current p = pr_current p0 ∨ pr_current p = None →
  tamed rt (set_peers (bt_insert SocketAddr_lt a p (rt_peers rt)) rt).
Proof.
  intros E%bt_get_In Hc. apply tamed_insert_peer. intros id Hid. right. exists a, p0. split; [done|].
  destruct Hc; congruence.
Qed.

Lemma tamed_retain_peers now rt : tamed rt (retain_peers now rt).
Proof.
  constructor; [done| |intros cid c' E; right; exists c'; auto|done].
  intros a p id. cbn. intros [_ Hin]%list_elem_of_filter Hc. eauto.
Qed.

#[export] Hint Resolve tamed_retain_peers : tame.

Lemma live_current look p id : live look p = Some id → pr_current p = Some id.
Proof. unfold live. destruct (pr_current p) as [i|]; [|done]. cbn.
  destruct (look i) as [c|]; [|done]. cbn. by destruct (is_closed c). Qed.

Lemma tamed_select id a rt :
  tamed rt (touch id (select_for a) rt) ∧
  (is_Some (rt_sessions rt !! id) → has_address (touch id (select_for a) rt) id).
Proof.
  unfold touch, on_conn. destruct (rt_sessions rt !! id) as [s|] eqn:Es; [|by split; [|intros []]].
  assert (has_address (set_sessions (<[id := set_conn (select_for a (with_counters (sn_conn s) (rt_counters rt))) s]> (rt_sessions rt))
    (set_counters (cn_counters (select_for a (with_counters (sn_conn s) (rt_counters rt)))) rt)) id) as Hid.
  { unfold has_address. cbn. rewrite lookup_insert_eq. eexists. split; [done|]. by eexists. }
  split; [|done]. constructor; [|cbn; eauto|intros cid c' E; right; exists c'; auto|done].
  intros j Hj. destruct (decide (j = id)) as [->|Hne]; [done|].
  destruct Hj as (x & Ex & Hx). exists x. cbn. by rewrite lookup_insert_ne.
Qed.

Lemma tamed_retarget id moved rt :
  has_address rt id → tamed rt (set_pending (retarget id moved (rt_pending rt)) rt).
Proof.
  intros Hid. constructor; [done|eauto| |done]. intros cid c' E. right.
  assert (∀ m, retarget id moved m !! cid = Some c' → ∃ c, m !! cid = Some c ∧
    is_stream c' = is_stream c ∧ pc_retained c' = pc_retained c ∧
    (pc_origin c' = pc_origin c ∨ pc_origin c' = OriginConnection id)) as Hm.
  { clear E. unfold retarget. induction moved as [|[f [i|]] moved IH]; intros m; cbn [foldl snd]; [|..|by apply IH].
    - intros E. exists c'. auto.
    - intros (c & Ec & S & R & O)%IH. destruct (decide (i = cid)) as [->|Hne].
      + rewrite lookup_alter_eq in Ec. destruct (m !! cid) as [c0|]; [|done]. injection Ec as <-.
        exists c0. split_and!; try done. cbn in O. destruct O as [->|]; auto.
      + rewrite lookup_alter_ne in Ec by done. exists c. auto. }
  destruct (Hm _ E) as (c & Ec & S & R & O). exists c. split_and!; try done.
  destruct O as [?|O]; [by left|]. right. intros j. rewrite O. by intros [= <-].
Qed.

Lemma tamed_adopt listen id replaced now rt :
  is_Some (rt_sessions rt !! id) →
  tamed rt (adopt listen id replaced now rt) ∧ has_address (adopt listen id replaced now rt) id.
Proof.
  intros Hs. unfold adopt. destruct (tamed_select id listen rt) as [T1 Hid]. specialize (Hid Hs).
  set (rt1 := touch id (select_for listen) rt) in *. clearbody rt1.
  set (rt2 := bump adopted_connections _).
  assert (tamed rt1 rt2) as T2.
  { unfold rt2. etrans; [|apply tamed_bump]. destruct (bt_get listen (rt_peers rt1)) as [peer|]; [|reflexivity].
    apply tamed_insert_peer. cbn. intros j [= <-]. by left. }
  assert (has_address rt2 id) as Hid2 by (by apply T2). clearbody rt2.
  assert (tamed rt rt2) as T by (by etrans).
  destruct replaced as [old|]; [|done].
  pose proof (tamed_on_conn old take_requests rt2 (λ c, eq_refl)) as T3.
  destruct (on_conn old take_requests rt2) as [rt3 moved]. cbn [fst] in T3.
  assert (has_address rt3 id) as Hid3 by (by apply T3).
  match goal with |- tamed _ ?r ∧ _ => assert (tamed rt3 r) as T4 end.
  { etrans; [apply tamed_retarget, Hid3|]. etrans; [|apply tamed_close].
    apply tamed_on_conn, addr_adopt_requests. }
  split; [etrans; [exact T|]; etrans; [exact T3|exact T4]|by apply T4].
Qed.

Section Address.
Context `{Xxh3} (config : Config).

Lemma tamed_new_connection direction observed now rt rt' id :
  rt_sessions rt !! rt_next_connection_id rt = None →
  new_connection config direction observed now rt = (rt', id) →
  tamed rt rt' ∧ is_Some (rt_sessions rt' !! id).
Proof.
  intros Hn [= <- <-]. split; [|cbn; by rewrite lookup_insert_eq].
  constructor; [|cbn; eauto|intros cid c' E; right; exists c'; auto|done].
  intros j (s & Es & Hs). exists s. cbn. rewrite lookup_insert_ne; [done|]. congruence.
Qed.

Lemma tamed_peer_connection address now rt rt' r :
  (rt_sessions rt !! rt_next_connection_id rt = None) → addressed rt →
  peer_connection config address now rt = (rt', r) →
  tamed rt rt' ∧ ∀ id, r = Ok id → has_address rt' id.
Proof.
  intros Hnew Ad. unfold peer_connection. destruct (is_closing rt); [by intros [= <- <-]|].
  destruct (stalled_candidate config address now rt) as [[candidate replaced]|] eqn:Es.
  { intros [= <- <-].
    destruct (tamed_adopt address candidate replaced now (bump accepted_over_stalled_dial rt)) as [T Hid].
    { unfold stalled_candidate in Es. destruct (bt_get address (rt_peers rt)) as [peer|]; [|done]. cbn in Es.
      destruct (dialing_stalled _ _ _); [|done].
      destruct (usable_candidate (look rt) peer) as [i|] eqn:Ec; [|done]. cbn in Es.
      destruct (_ || _); [|done]. injection Es as <- _.
      unfold usable_candidate in Ec. destruct (pr_candidate peer) as [j|]; [|done]. cbn in Ec.
      unfold look in Ec. cbn. destruct (rt_sessions rt !! j) as [s|] eqn:Ej; [|done]. cbn in Ec.
      destruct (negb (is_closed (sn_conn s)) && _); [|done]. injection Ec as <-. rewrite Ej. by eexists. }
    split; [etrans; [apply tamed_bump|exact T]|by intros ? [= <-]]. }
  destruct (let* peer := bt_get address (rt_peers rt) in live (look rt) peer) as [existing|] eqn:El.
  { intros [= <- <-]. split; [done|]. intros id [= <-].
    destruct (bt_get address (rt_peers rt)) as [peer|] eqn:Ep; [|done]. cbn in El.
    apply (ad_peer _ Ad address peer); [by apply bt_get_In|by eapply live_current]. }
  case_match; [intros [= <- <-]; split; [apply tamed_bump|done]|].
  set (rt0 := if _ && _ then retain_peers now rt else rt).
  assert (tamed rt rt0 ∧ rt_sessions rt0 !! rt_next_connection_id rt0 = None) as [T0 Hnew0]
    by (unfold rt0; case_match; [split; [apply tamed_retain_peers|done]|done]).
  clearbody rt0. destruct (new_connection config Outbound None now rt0) as [rt1 id] eqn:En.
  destruct (tamed_new_connection _ _ _ _ _ _ Hnew0 En) as [T1 Hs].
  destruct (tamed_select id address rt1) as [T2 Hid]. specialize (Hid Hs).
  set (rt2 := touch id (select_for address) rt1) in *. clearbody rt2.
  set (rt3 := set_peers _ rt2).
  assert (tamed rt2 rt3) as T3.
  { apply tamed_insert_peer. cbn. intros j [= <-]. by left. }
  assert (tamed rt rt3) as T by (etrans; [exact T0|]; etrans; [exact T1|]; by etrans).
  assert (has_address rt3 id) as Hid3 by (by apply T3).
  clearbody rt3. destruct (rt_driver_gone rt3); intros [<- <-]%pair_equal_spec.
  - split; [|done]. tame.
  - split; [done|]. by intros ? [= <-].
Qed.

Lemma tamed_settle_selection id listen local now rt :
  is_Some (rt_sessions rt !! id) → tamed rt (settle_selection config id listen local now rt).
Proof.
  intros Hs. unfold settle_selection. set (peer := default _ _).
  assert (∀ j, pr_current peer = Some j →
    has_address rt j ∨ ∃ a0 p0, (a0, p0) ∈ rt_peers rt ∧ pr_current p0 = Some j) as Hpeer.
  { intros j Hj. right. unfold peer in Hj. destruct (bt_get listen (rt_peers rt)) as [p|] eqn:Ep; [|done].
    exists listen, p. split; [by apply bt_get_In|done]. }
  pose proof (tamed_insert_peer listen peer rt Hpeer) as T1.
  set (rt1 := set_peers (bt_insert SocketAddr_lt listen peer (rt_peers rt)) rt) in *.
  assert (is_Some (rt_sessions rt1 !! id)) as Hs1 by done.
  assert (tamed rt (set_peers (bt_insert SocketAddr_lt listen (set_candidate (Some id) peer) (rt_peers rt1)) rt1)) as T2.
  { etrans; [exact T1|]. apply tamed_insert_peer. cbn. intros j Hj.
    destruct (Hpeer j Hj) as [?|(a0 & p0 & Hp0 & Hc0)]; [by left|]. right.
    exists listen, peer. split; [|done]. apply bt_get_In. rewrite bt_get_insert. by rewrite decide_True. }
  clearbody rt1. destruct (to_replace _ _ _ _) as [over|[]|]; [|done..].
  etrans; [exact T1|]. destruct over; [etrans; [apply tamed_bump|]|]; by apply tamed_adopt.
Qed.

Lemma tamed_select_inbound id listen now rt :
  is_Some (rt_sessions rt !! id) → tamed rt (select_inbound config id listen now rt).
Proof.
  intros Hs. unfold select_inbound. destruct (cf_address config) as [local|]; [|reflexivity].
  case_bool_decide; [reflexivity|]. case_bool_decide; [reflexivity|].
  destruct (_ && negb _); [apply tamed_bump|].
  destruct (negb (has_peer listen rt) && _); [|by apply tamed_settle_selection].
  case_match; [tame|]. etrans; [apply tamed_retain_peers|]. by apply tamed_settle_selection.
Qed.

Lemma tamed_on_hello id magic min_version max_version incarnation limit listen now rt :
  tamed rt (fst (on_hello config id magic min_version max_version incarnation limit listen now rt)).
Proof.
  unfold on_hello. case_match; [done|]. destruct (negotiate _ _) as [version|]; [|done].
  case_match; [done|]. set (rt0 := match look rt id with Some _ => _ | None => _ end).
  assert (tamed rt rt0) as T0.
  { unfold rt0, look. destruct (rt_sessions rt !! id) as [s|] eqn:Es; [|done]. cbn.
    destruct listen as [a|]; [|done]. destruct (cn_direction (sn_conn s)); [done|].
    apply tamed_select_inbound. by rewrite Es. }
  clearbody rt0. set (rt1 := touch id _ rt0).
  assert (tamed rt rt1) as T1 by (etrans; [exact T0|]; by apply tamed_touch).
  clearbody rt1. destruct (_ ≫= _) as [address|]; [|done].
  set (rt2 := match bt_get address (rt_peers rt1) with Some _ => _ | None => _ end).
  assert (tamed rt rt2) as T2.
  { unfold rt2. destruct (bt_get address (rt_peers rt1)) as [p|] eqn:Ep; [|done].
    etrans; [exact T1|]. eapply tamed_same_peer; [exact Ep|by left]. }
  clearbody rt2. destruct (connected address (rt_monitor rt2)) as [monitor changed]. cbn [fst].
  destruct changed; tame.
Qed.

(** ** Calls *)

Lemma tamed_insert_call cid call delivery rt :
  placed rt call → (is_stream call = true → pc_retained call = None) →
  tamed rt (insert_call cid call delivery rt).
Proof.
  intros Hp Hs. constructor; [done|eauto| |done]. intros j c'. cbn. destruct (decide (j = cid)) as [->|Hne].
  - rewrite lookup_insert_eq. intros [= <-]. by left.
  - rewrite lookup_insert_ne by done. intros E. right. exists c'. auto.
Qed.

(** A pending call changes, but for its origin, its body and its completion. *)
Lemma tamed_update cid call call' rt :
  rt_pending rt !! cid = Some call → pc_origin call' = pc_origin call →
  pc_retained call' = pc_retained call → pc_completion call' = pc_completion call →
  tamed rt (set_pending (<[cid := call']> (rt_pending rt)) rt).
Proof.
  intros Ep Ho Hr Hc. constructor; [done|eauto| |done]. intros j c'. cbn. destruct (decide (j = cid)) as [->|Hne].
  - rewrite lookup_insert_eq. intros [= <-]. right. exists call. unfold is_stream. rewrite Hc. auto.
  - rewrite lookup_insert_ne by done. intros E. right. exists c'. auto.
Qed.

Lemma tamed_precheck endpoint n rt : tamed rt (fst (precheck config endpoint n rt)).
Proof. unfold precheck. case_match; [reflexivity|]. case_match; [apply tamed_bump|reflexivity]. Qed.

Lemma tamed_queue_request address frame call_id now rt rt' r :
  rt_sessions rt !! rt_next_connection_id rt = None → addressed rt →
  queue_request_to config address frame call_id now rt = (rt', r) →
  tamed rt rt' ∧ ∀ id, r = Ok id → has_address rt' id.
Proof.
  intros Hnew Ad. unfold queue_request_to. destruct frame as [frame|e|]; [|by intros [= <- <-]..].
  destruct (peer_connection config address now rt) as [rt1 [id|e|]] eqn:Ep;
    destruct (tamed_peer_connection _ _ _ _ _ Hnew Ad Ep) as [T1 Hid]; [|by intros [= <- <-]..].
  pose proof (tamed_on_conn id (push_request frame call_id now) rt1 (addr_push_request frame call_id now)) as T2.
  destruct (on_conn id (push_request frame call_id now) rt1) as [rt2 a]. cbn [fst] in T2.
  assert (tamed rt rt2) as T by (by etrans).
  destruct a as [[u|[]|]|]; intros [= <- <-]; (split; [done|]); try done.
  intros ? [= <-]. by apply T2, Hid.
Qed.

Lemma take_call_id_sessions rt rt' cid :
  take_call_id rt = Some (rt', cid) → tamed rt rt' ∧
  rt_sessions rt' = rt_sessions rt ∧ rt_next_connection_id rt' = rt_next_connection_id rt.
Proof. unfold take_call_id. case_match; [done|]. intros [= <- _]. split; [apply tamed_next_call|done]. Qed.

(** The runtime at hand, of which an operation knows that the next connection's
    id is free. *)
Definition numbered (rt : Runtime) : Prop := rt_sessions rt !! rt_next_connection_id rt = None.

Lemma numbered_precheck endpoint n rt : numbered rt → numbered (fst (precheck config endpoint n rt)).
Proof. unfold precheck. case_match; [done|]. by case_match. Qed.

Lemma tamed_start_call endpoint identity body delivery client ask now rt :
  numbered rt → addressed rt →
  tamed rt (fst (start_call config endpoint identity body delivery client ask now rt)).
Proof.
  intros Hn Ad. unfold start_call. destruct (call_credentials _ _ _ _ _) as [[credentials metadata]|e|]; [|done..].
  set (n := (request_envelope_len (len body) + len metadata)%Z).
  pose proof (tamed_precheck endpoint n rt) as T0. pose proof (numbered_precheck endpoint n rt Hn) as N0.
  destruct (precheck config endpoint n rt) as [rt0 [u|e|]]; cbn [fst] in *; [|done..].
  case_match; [done|]. set (retention := if bool_decide (delivery = Reliable) then _ else _).
  assert (tamed rt0 (fst retention) ∧ numbered (fst retention)) as [T1 N1].
  { unfold retention. case_bool_decide; [|done]. unfold check_retention. case_match; [|done].
    split; [apply tamed_bump|done]. }
  destruct retention as [rt1 ret]. cbn [fst] in *. assert (tamed rt rt1) as T by (by etrans).
  destruct ret as [u'|e|]; [|done..].
  destruct (take_call_id rt1) as [[rt2 cid]|] eqn:Et; [|done].
  apply take_call_id_sessions in Et as (T2 & S2 & C2). assert (tamed rt rt2) as T3 by (by etrans).
  destruct (is_local config endpoint).
  { cbn [fst]. etrans; [exact T3|]. etrans; [|apply tamed_present]. etrans; [|apply tamed_bump].
    by apply tamed_insert_call. }
  destruct (queue_request_to _ _ _ _ _ _) as [rt3 r] eqn:Eq.
  apply tamed_queue_request in Eq as [T4 Hid]; [|by rewrite S2, C2|by eapply addressed_tamed].
  assert (tamed rt rt3) as T5 by (by etrans). destruct r as [id|e|]; [|done..]. cbn [fst].
  match goal with |- tamed _ (if _ then bump _ (bump _ ?r) else _) => assert (tamed rt r) as T6 end.
  { etrans; [exact T5|]. apply tamed_insert_call; [|done]. intros j [= <-]. by apply Hid. }
  case_bool_decide; tame.
Qed.

Lemma tamed_start_stream endpoint identity body window client ask now rt :
  numbered rt → addressed rt →
  tamed rt (fst (start_stream config endpoint identity body window client ask now rt)).
Proof.
  intros Hn Ad. unfold start_stream. destruct (call_credentials _ _ _ _ _) as [[credentials metadata]|e|]; [|done..].
  set (n := (stream_request_envelope_len (len body) + len metadata)%Z).
  pose proof (tamed_precheck endpoint n rt) as T0. pose proof (numbered_precheck endpoint n rt Hn) as N0.
  destruct (precheck config endpoint n rt) as [rt0 [u|e|]]; cbn [fst] in *; [|done..].
  case_match; [done|]. case_match; [cbn [fst]; tame|].
  destruct (take_call_id (reserved window rt0)) as [[rt2 cid]|] eqn:Et; [|cbn [fst]; tame].
  apply take_call_id_sessions in Et as (T2 & S2 & C2).
  assert (tamed rt rt2) as T3 by (etrans; [exact T0|]; etrans; [apply tamed_reserved|exact T2]).
  destruct (is_local config endpoint).
  { cbn [fst]. etrans; [exact T3|]. etrans; [|apply tamed_present]. etrans; [|apply tamed_bump].
    etrans; [|by apply tamed_insert_call]. apply tamed_consumers. }
  destruct (queue_request_to _ _ _ _ _ _) as [rt3 r] eqn:Eq.
  apply tamed_queue_request in Eq as [T4 Hid]; [|by rewrite S2, C2|by eapply addressed_tamed].
  assert (tamed rt rt3) as T5 by (by etrans). destruct r as [id|e|]; cbn [fst]; [|tame|done].
  etrans; [exact T5|]. etrans; [|apply tamed_bump].
  etrans; [|apply tamed_insert_call; [|done]]; [apply tamed_consumers|]. intros j [= <-]. by apply Hid.
Qed.

Lemma tamed_send_one_way endpoint identity body client ask now rt :
  numbered rt → addressed rt →
  tamed rt (fst (send_one_way config endpoint identity body client ask now rt)).
Proof.
  intros Hn Ad. unfold send_one_way. destruct (call_credentials _ _ _ _ _) as [[credentials metadata]|e|]; [|done..].
  set (n := (request_envelope_len (len body) + len metadata)%Z).
  pose proof (tamed_precheck endpoint n rt) as T0. pose proof (numbered_precheck endpoint n rt Hn) as N0.
  destruct (precheck config endpoint n rt) as [rt0 [u|e|]]; cbn [fst] in *; [|done..].
  destruct (is_local config endpoint); [cbn [fst]; tame|].
  destruct (queue_request_to _ _ _ _ _ _) as [rt3 r] eqn:Eq.
  apply tamed_queue_request in Eq as [T4 Hid]; [|done|by eapply addressed_tamed].
  assert (tamed rt rt3) as T5 by (by etrans). destruct r as [id|e|]; cbn [fst]; tame.
Qed.

Lemma tamed_retract_from id cid rt : tamed rt (fst (retract_from id cid rt)).
Proof. unfold retract_from. case_match; [|reflexivity]. apply tamed_on_conn, addr_retract. Qed.

Lemma tamed_withdraw cid call rt : tamed rt (fst (withdraw cid call rt)).
Proof.
  unfold withdraw. case_match; [reflexivity|]. case_match; [reflexivity|].
  pose proof (tamed_retract_from id cid rt) as T. by destruct (retract_from id cid rt) as [rt1 [b|]].
Qed.

Lemma tamed_withdrawn_fails cid call rt reason st :
  tamed rt (let '(rt, call) := withdraw cid call (remove_call cid rt) in
            finish cid call (Failed (RpcError_new reason (known_execution call))) (bump st rt)).
Proof.
  pose proof (tamed_withdraw cid call (remove_call cid rt)) as T.
  destruct (withdraw cid call (remove_call cid rt)) as [rt1 call1]. cbn [fst] in T.
  etrans; [apply (tamed_remove cid)|]. tame.
Qed.

Lemma tamed_foldl {A} (f : Runtime → A → Runtime) l rt :
  (∀ rt x, tamed rt (f rt x)) → tamed rt (foldl f rt l).
Proof.
  intros Hf. revert rt. induction l as [|x l IH]; intros rt; [reflexivity|]. cbn. etrans; [apply Hf|apply IH].
Qed.

Lemma tamed_release_failed rt : tamed rt (release_failed rt).
Proof.
  apply tamed_foldl. intros rt0 [cid reason]. unfold release_one. case_match; [|reflexivity].
  apply tamed_withdrawn_fails.
Qed.

Lemma tamed_complete origin cid outcome rt : tamed rt (complete origin cid outcome rt).
Proof.
  unfold complete. destruct (rt_pending rt !! cid) as [call|]; [|apply tamed_bump].
  case_match; [apply tamed_bump|]. set (rt1 := finish _ _ _ _). assert (tamed rt rt1) as T by (unfold rt1; tame).
  clearbody rt1. destruct outcome as [codec body|error]; [done|].
  destruct (permanent_failure_of error) as [failure|]; [|done].
  destruct (endpoint_failed _ _ _) as [monitor learned]. destruct learned; [|tame].
  etrans; [|apply tamed_notify]. etrans; [|apply tamed_release_failed]. tame.
Qed.

Lemma tamed_terminate rt : tamed rt (terminate rt).
Proof.
  unfold terminate. etrans; [|apply tamed_notify].
  etrans; [|apply tamed_foldl; intros; apply tamed_close].
  etrans; [|apply tamed_foldl]; [apply tamed_lifecycle|]. intros rt0 cid. unfold terminate_one.
  case_match; [|reflexivity]. apply tamed_withdrawn_fails.
Qed.

Lemma tamed_abandon cid cancelled rt : tamed rt (fst (abandon cid cancelled rt)).
Proof.
  unfold abandon. destruct (rt_pending rt !! cid) as [call|]; [|done].
  set (r := if _ || _ then _ else _).
  assert (tamed rt (fst r)) as T.
  { unfold r. destruct (_ || _); [apply tamed_remove|]. destruct (pc_origin call) as [|id]; [apply tamed_remove|].
    pose proof (tamed_retract_from id cid (remove_call cid rt)) as T.
    destruct (retract_from id cid (remove_call cid rt)) as [rt1 [b|]]; cbn [fst] in *;
      (etrans; [apply (tamed_remove cid)|exact T]). }
  destruct r as [rt1 transmitted]. cbn [fst] in *. etrans; [exact T|].
  etrans; [|apply tamed_settle]. etrans; [|apply tamed_bump]. etrans; [|apply tamed_drop_completion].
  destruct (pc_completion call), (pc_origin call) as [|id]; try reflexivity.
  - destruct (_ ≫= _) as [[]|]; destruct cancelled; tame.
  - destruct (_ && _); tame.
Qed.

Lemma tamed_consumer_of origin cid rt : tamed rt (fst (consumer_of origin cid rt)).
Proof.
  unfold consumer_of. destruct (rt_pending rt !! cid); [case_match; [reflexivity|]|]; apply tamed_bump.
Qed.

Lemma tamed_stream_item origin cid sequence codec body rt :
  tamed rt (stream_item origin cid sequence codec body rt).
Proof.
  unfold stream_item. pose proof (tamed_consumer_of origin cid rt) as T.
  destruct (consumer_of origin cid rt) as [rt1 [core|]]; cbn [fst] in T; [|done].
  destruct (on_item _ _ _ _ _) as [[k took] out]. destruct took; [tame|].
  set (rt2 := store_consumer cid k rt1). assert (tamed rt rt2) as T2 by (unfold rt2; tame). clearbody rt2.
  destruct origin as [|id]; destruct (rt_pending rt2 !! cid); tame.
Qed.

Lemma tamed_stream_end origin cid items error rt : tamed rt (stream_end origin cid items error rt).
Proof.
  unfold stream_end. pose proof (tamed_consumer_of origin cid rt) as T.
  destruct (consumer_of origin cid rt) as [rt1 [core|]]; cbn [fst] in T; [|done].
  destruct (rt_pending rt1 !! cid) as [call|]; [|done].
  destruct (match _ ≫= _ with Some _ => _ | None => _ end) as [monitor learned].
  etrans; [|apply tamed_settle]. etrans; [|apply tamed_drop_completion].
  set (rt2 := if learned then _ else _). assert (tamed rt rt2) as T2 by (unfold rt2; destruct learned; tame).
  clearbody rt2. destruct (rt_consumers rt2 !! cid); [|done]. destruct (on_end _ _ _) as [[k ?] ?]. tame.
Qed.

Lemma tamed_transmit_held id cut rt rt' : transmit_held config id cut rt = Some rt' → tamed rt rt'.
Proof.
  unfold transmit_held. destruct (rt_sessions rt !! id) as [s|]; [|done]. cbn.
  destruct (sn_held s) as [[frame call_id]|]; [|done]. cbn. unfold admit_transmit.
  assert (tamed rt (on_session id (set_held None) rt)) as T0 by (by apply tamed_session).
  set (rt0 := on_session id (set_held None) rt) in *. clearbody rt0.
  destruct (transmit_refusal _ _ _) as [refusal|].
  - destruct call_id as [cid|]; [|intros [= <-]; tame].
    destruct (rt_pending rt0 !! cid); intros [= <-]; [tame|done].
  - set (rt1 := if carries_credential _ then _ else _).
    assert (tamed rt rt1) as T1 by (unfold rt1; destruct (carries_credential _); tame).
    clearbody rt1. destruct call_id as [cid|]; [|intros [= <-]; tame].
    destruct (rt_pending rt1 !! cid) as [call|] eqn:Ep; [|intros [= <-]; tame].
    pose proof (tamed_update cid call (set_transmitted true call) rt1 Ep eq_refl eq_refl eq_refl) as T2.
    assert (tamed rt (set_pending (<[cid := set_transmitted true call]> (rt_pending rt1)) rt1)) as T3 by (by etrans).
    destruct cut; intros [= <-].
    + etrans; [exact T3|]. by apply tamed_fields.
    + etrans; [exact T3|apply tamed_wire].
Qed.

Lemma tamed_on_message id message now rt : tamed rt (fst (on_message config id message now rt)).
Proof.
  unfold on_message.
  assert (∀ n r, tamed r (touch id (note_used n) r)) as Hused by (intros; by apply tamed_touch).
  assert (tamed rt (touch id (note_received now) rt)) as T0 by (by apply tamed_touch).
  set (rt0 := touch id (note_received now) rt) in *. clearbody rt0.
  set (established := match look rt0 id with Some _ => _ | None => _ end). clearbody established.
  destruct message; cbn zeta; destruct established; cbn [negb fst]; try done.
  - etrans; [exact T0|apply tamed_on_hello].
  - etrans; [exact T0|]. etrans; [apply (Hused now)|]. unfold on_request.
    destruct (rt_sessions _ !! id) as [s|]; [|done]. destruct (_ && has_stream _ _); [done|].
    destruct (Z.land _ REQUEST_FLAG_ONE_WAY =? 0)%Z; cbn [fst];
      (etrans; [|apply tamed_present]); [by apply tamed_on_conn|tame].
  - etrans; [exact T0|]. etrans; [apply (Hused now)|]. apply tamed_complete.
  - etrans; [exact T0|]. apply tamed_on_conn, addr_push_control.
  - etrans; [exact T0|]. etrans; [apply (Hused now)|]. apply tamed_stream_item.
  - etrans; [exact T0|]. etrans; [apply (Hused now)|]. apply tamed_stream_end.
  - destruct (match look rt0 id with Some _ => _ | None => _ end); tame.
  - destruct (match look rt0 id with Some _ => _ | None => _ end); tame.
Qed.

(** ** The end of a connection *)

Lemma session_ended_current now policy p p' :
  session_ended now policy p = Some p' → pr_current p' = pr_current p.
Proof.
  unfold session_ended. set (m := if _ : bool then _ else _). clearbody m.
  destruct m as [d|]; [|done]. by intros [= <-].
Qed.

Lemma tamed_close_call reason established address rt resend cid :
  tamed rt (fst (close_call reason established address (rt, resend) cid)).
Proof.
  unfold close_call. destruct (rt_pending rt !! cid) as [call|] eqn:Ep; [|done].
  destruct (_ && negb (is_stream call)); cbn [fst]; [by eapply tamed_update|].
  destruct (pc_transmitted call && is_checksum reason); tame.
Qed.

Lemma tamed_close_calls reason established address todo rt resend :
  tamed rt (fst (foldl (close_call reason established address) (rt, resend) todo)).
Proof.
  revert rt resend. induction todo as [|cid todo IH]; intros rt resend; [done|]. cbn [foldl].
  pose proof (tamed_close_call reason established address rt resend cid) as T.
  destruct (close_call _ _ _ _ _) as [rt1 resend1]. etrans; [exact T|apply IH].
Qed.

Lemma tamed_log_close reason established rt : tamed rt (log_close reason established rt).
Proof. unfold log_close. destruct reason; cbn [is_checksum]; destruct established; tame. Qed.

Lemma tamed_settle_peer id address now rt rt' :
  settle_peer config id address now rt = Some rt' → tamed rt rt'.
Proof.
  unfold settle_peer. destruct (bt_get address (rt_peers rt)) as [peer|] eqn:Ep; [|by intros [= <-]].
  case_bool_decide; [|by intros [= <-]].
  destruct (session_ended _ _ _) as [p'|] eqn:Es; [|done]. intros [= <-].
  eapply tamed_same_peer; [exact Ep|]. right. by rewrite (session_ended_current _ _ _ _ Es).
Qed.

Lemma tamed_close_connection id returned now rt rt' :
  close_connection config id returned now rt = Some rt' → tamed rt rt'.
Proof.
  unfold close_connection. destruct (look rt id) as [c|]; [|done]. cbn.
  pose proof (tamed_on_conn id (Connection_close returned) rt (λ c, eq_refl)) as T0.
  destruct (on_conn id (Connection_close returned) rt) as [rt0 r]. cbn [fst] in T0.
  set (reason := default returned r). clearbody reason.
  set (rt1 := on_session id (set_task Finished) _).
  assert (tamed rt rt1) as T1 by (unfold rt1; tame). clearbody rt1.
  set (m := match q_peer_address (cn_queue c) with Some _ => _ | None => _ end).
  destruct m as [rt2|] eqn:Em; [|done]. cbn. assert (tamed rt rt2) as T2.
  { unfold m in Em. destruct (q_peer_address (cn_queue c)) as [a|]; [|by injection Em as <-].
    destruct (settle_peer config id a now rt1) as [rt3|] eqn:E3; [|done]. injection Em as <-.
    etrans; [exact T1|]. etrans; [by eapply tamed_settle_peer|]. tame. }
  pose proof (λ r e a l, tamed_close_calls r e a l rt2 []) as T3.
  match goal with |- context [foldl (close_call ?r ?e ?a) (rt2, []) ?l] => specialize (T3 r e a l) end.
  destruct (foldl _ _ _) as [rt3 resend]. cbn [fst] in T3. intros [= <-].
  etrans; [exact T2|]. etrans; [exact T3|]. etrans; [|apply tamed_closing]. apply tamed_log_close.
Qed.

Lemma tamed_retransmit_one ended connection now rt copy :
  (∀ id, connection = Ok id → has_address rt id) →
  tamed rt (retransmit_one ended connection now rt copy).
Proof.
  intros Hid. unfold retransmit_one. destruct copy as [cid frame].
  destruct (rt_pending rt !! cid) as [call|] eqn:Ep; [|done]. case_match; [done|].
  destruct (permanent_failure _ _); [tame|].
  destruct connection as [id|e|], frame as [frame|e'|]; try tame.
  pose proof (tamed_on_conn id (adopt_requests [(frame, Some cid)] now) (remove_call cid rt)
    (addr_adopt_requests _ _)) as T.
  assert (rt_pending (fst (on_conn id (adopt_requests [(frame, Some cid)] now) (remove_call cid rt))) =
    delete cid (rt_pending rt)) as Hp.
  { unfold on_conn. destruct (rt_sessions _ !! id); [|done]. by destruct (adopt_requests _ _ _). }
  destruct (on_conn id (adopt_requests [(frame, Some cid)] now) (remove_call cid rt)) as [rt1 r].
  cbn [fst] in T, Hp. assert (tamed rt rt1) as T1 by (etrans; [apply (tamed_remove cid)|exact T]).
  destruct r as [[]|]; [|tame..].
  constructor; [apply T1| | |apply T1].
  - intros a p j. cbn. apply T1.
  - intros j c'. cbn. destruct (decide (j = cid)) as [->|Hne].
    + rewrite lookup_insert_eq. intros [= <-]. right. exists call. split_and!; [done..|]. right.
      intros i [= <-]. by apply (tm_address _ _ T1), Hid.
    + rewrite lookup_insert_ne by done. apply T1.
Qed.

Lemma tamed_finish_teardown id ask now rt rt' :
  numbered rt → addressed rt → finish_teardown config id ask now rt = Some rt' → tamed rt rt'.
Proof.
  intros Hn Ad. unfold finish_teardown. destruct (rt_closing rt !! id) as [cl|]; [|done]. cbn.
  pose proof (tamed_closing (delete id (rt_closing rt)) rt) as T0.
  assert (numbered (set_closing (delete id (rt_closing rt)) rt)) as N0 by done.
  set (rt1 := set_closing _ rt) in *. clearbody rt1.
  set (rt2 := match cl_address cl with Some _ => _ | None => _ end).
  assert (tamed rt rt2) as T2.
  { unfold rt2. destruct (cl_address cl) as [a|]; [|done]. destruct (_ || _); [|done].
    unfold retransmit. destruct (peer_connection config a now rt1) as [rt3 connection] eqn:Ep.
    apply tamed_peer_connection in Ep as [T3 Hid]; [|done|by eapply addressed_tamed].
    etrans; [exact T0|]. etrans; [exact T3|]. clear T3 T0.
    generalize (resend_copy config ask <$> cl_resend cl) as l. intros l. revert rt3 Hid.
    induction l as [|x l IH]; intros rt3 Hid; [reflexivity|]. cbn [foldl].
    pose proof (tamed_retransmit_one (OriginConnection id) connection now rt3 x Hid) as T.
    etrans; [exact T|]. apply IH. intros j Hj. by apply T, Hid. }
  clearbody rt2. pose proof (tamed_on_conn id take_streams rt2 (λ c, eq_refl)) as T3.
  destruct (on_conn id take_streams rt2) as [rt3 streams]. cbn [fst] in T3. intros [= <-].
  etrans; [exact T2|]. etrans; [exact T3|]. apply tamed_foldl. intros. apply tamed_bump.
Qed.

End Address.
