(* ===== verification/CallsSafe.v ===== *)
(** What callers of the runtime may rely on.

    Every step of the runtime keeps the invariants of CallsInv, so that at any
    point of any run: a started call is pending or was settled, once; a call
    whose caller was told it never left never leaves; an at-most-once call
    leaves at most once; and no call waits on a connection nobody drives. *)
From stdpp Require Import base list numbers gmap strings sorting.
From S2P Require Import Prelude Cursor Frame Status Wire Credit Connection Registry Monitor Producer Consumer Peers Runtime Calls CallsInv CallsSteps CallsPeers CallsStart CallsEnds CallsClose CallsAddress.

#[local] Open Scope nat_scope.

Record runtime_ok (rt : Runtime) : Prop := {
  ok_calls : calls_ok rt;
  ok_addressed : addressed rt;
}.

Lemma inv_numbered P rt : inv P rt → numbered rt.
Proof.
  intros I. unfold numbered. destruct (rt_sessions rt !! _) as [s|] eqn:E; [|done].
  pose proof (se_id _ _ _ (i_session _ _ I _ s E)). lia.
Qed.

Section Safe.
Context `{Xxh3} (config : Config).

(** ** The empty runtime *)

Lemma Runtime_new_ok : runtime_ok (Runtime_new config).
Proof.
  split; constructor; cbn; try done.
  - intros cid _. constructor; cbn; try done; try apply not_elem_of_nil.
    split; [done|]. by intros id (s & Es & _).
  - intros cid a b (s & Es & _). done.
  - intros cid o []%elem_of_nil.
  - apply NoDup_nil_2.
  - apply NoDup_nil_2.
  - intros cid. split; [intros []%elem_of_nil|]. intros [[c E]|[]%elem_of_nil]. done.
  - intros cid []%elem_of_nil.
  - intros a p id []%elem_of_nil.
Qed.

(** ** Steps *)

Lemma on_message_inv P id message now rt :
  inv P rt → task_of id rt = Some InSession → inv P (fst (on_message config id message now rt)).
Proof.
  intros I Ht. unfold on_message.
  assert (∀ n r, calm r (touch id (note_used n) r)) as Hused
    by (intros; apply (calm_touch id (note_used n)); intros; apply calm_note_used).
  assert (calm rt (touch id (note_received now) rt)) as Hc0
    by (apply (calm_touch id (note_received now)); intros; apply calm_note_received).
  set (rt0 := touch id (note_received now) rt) in *.
  pose proof (calm_inv _ _ _ Hc0 I) as I0.
  pose proof (kp_task _ _ _ (calm_keeps (λ _, False) _ _ Hc0) id _ Ht) as Ht0.
  clearbody rt0. pose proof (calm_inv _ _ _ (Hused now rt0) I0) as I1.
  set (established := match look rt0 id with Some _ => _ | None => _ end). clearbody established.
  destruct message; cbn zeta; destruct established; cbn [negb fst]; try done.
  - by apply on_hello_inv.
  - unfold on_request. set (rt1 := touch id _ rt0) in *. clearbody rt1.
    destruct (rt_sessions rt1 !! id) as [s|]; [|done]. destruct (_ && has_stream _ _); [done|].
    destruct (Z.land _ REQUEST_FLAG_ONE_WAY =? 0)%Z; cbn [fst];
      (eapply calm_inv; [apply calm_present|]); (eapply calm_inv; [|exact I1]); [|apply calm_bump].
    apply calm_on_conn. intros c. apply calm_begin_outstanding.
  - by apply complete_inv.
  - eapply calm_inv; [|exact I0]. apply calm_on_conn. intros c. apply calm_push_control.
  - by apply stream_item_inv.
  - by apply stream_end_inv.
  - destruct (match look rt0 id with Some _ => _ | None => _ end); [done|].
    by eapply calm_inv; [apply calm_bump|].
  - destruct (match look rt0 id with Some _ => _ | None => _ end); [done|].
    by eapply calm_inv; [apply calm_bump|].
Qed.

Lemma calm_close_idle id now rt : calm rt (fst (Shared_close_if_idle config id now rt)).
Proof.
  unfold Shared_close_if_idle. destruct (look rt id) as [c|]; [|reflexivity]. case_match; [reflexivity|].
  match goal with |- context [on_conn id (close_if_idle ?a ?b ?d) rt] =>
    pose proof (calm_on_conn id (close_if_idle a b d) rt (calm_close_if_idle a b d)) as Hc;
    by destruct (on_conn id (close_if_idle a b d) rt) end.
Qed.

Lemma tamed_close_idle id now rt : tamed rt (fst (Shared_close_if_idle config id now rt)).
Proof.
  unfold Shared_close_if_idle. destruct (look rt id) as [c|]; [|reflexivity]. case_match; [reflexivity|].
  match goal with |- context [on_conn id (close_if_idle ?a ?b ?d) rt] =>
    pose proof (tamed_on_conn id (close_if_idle a b d) rt (addr_close_if_idle a b d)) as Hc;
    by destruct (on_conn id (close_if_idle a b d) rt) end.
Qed.

Lemma calm_ping id rt : calm rt (ping id rt) ∧ tamed rt (ping id rt).
Proof.
  unfold ping. set (f := push_control _). set (rt0 := set_next_ping _ rt).
  assert (calm rt0 (fst (on_conn id f rt0)) ∧ tamed rt0 (fst (on_conn id f rt0))) as [Hc Ht].
  { split; [apply calm_on_conn; intros; apply calm_push_control|apply tamed_on_conn, addr_push_control]. }
  destruct (on_conn id f rt0) as [rt1 queued]. cbn [fst] in *.
  assert (calm rt rt1) by (etrans; [apply calm_ping_id|exact Hc]).
  assert (tamed rt rt1) by (etrans; [apply tamed_ping|exact Ht]).
  destruct (default false queued); [|done]. split; [etrans; [done|apply calm_bump]|tame].
Qed.

Lemma dial_delay_ok address draw now rt rt' wait :
  dial_delay config address draw now rt = Some (rt', wait) → calm rt rt' ∧ tamed rt rt'.
Proof.
  unfold dial_delay. destruct (bt_get address (rt_peers rt)) as [peer|] eqn:Ep; [|by intros [= <- _]].
  destruct (next_dial now (cf_peer config) draw peer) as [[p w]|] eqn:En; [|done]. intros [= <- _].
  split; [apply calm_peers|]. eapply tamed_same_peer; [exact Ep|]. left.
  unfold next_dial in En. destruct (jittered _ _ _) as [d|]; [|done]. by injection En as <- _.
Qed.

Lemma tamed_write_next id rt : tamed rt (write_next id rt).
Proof.
  unfold write_next. pose proof (tamed_on_conn id Connection_poll_next rt addr_poll_next) as T.
  destruct (on_conn id Connection_poll_next rt) as [rt1 [[[o|]|]|]]; cbn [fst] in T; try done.
  destruct (out_kind o); try done. etrans; [exact T|]. by apply tamed_session.
Qed.

Lemma tamed_accept observed allowed now rt :
  numbered rt → tamed rt (fst (accept config observed allowed now rt)).
Proof.
  intros Hn. unfold accept. destruct (is_closing rt); [done|]. destruct (negb allowed); [apply tamed_bump|].
  case_match; [apply tamed_bump|].
  destruct (new_connection config Inbound observed now rt) as [rt1 id] eqn:En.
  by apply tamed_new_connection in En as [? _].
Qed.

(** Every step keeps the invariants. *)
Lemma call_exec_ok op rt rt' :
  runtime_ok rt → call_exec config op rt = Some rt' → runtime_ok rt' ∧ tamed rt rt'.
Proof.
  intros [I Ad] E. pose proof (inv_numbered _ _ I) as Hn.
  assert (calls_ok rt' → tamed rt rt' → runtime_ok rt' ∧ tamed rt rt') as both.
  { intros Hi Ht. split; [|done]. split; [done|by eapply addressed_tamed]. }
  assert (calm rt rt' → tamed rt rt' → runtime_ok rt' ∧ tamed rt rt') as plain.
  { intros Hc. apply both. by eapply calm_inv. }
  destruct op; cbn [call_exec] in E.
  - injection E as <-. apply both; [by apply start_call_inv|by apply tamed_start_call].
  - injection E as <-. apply both; [by apply start_stream_inv|by apply tamed_start_stream].
  - injection E as <-. apply both; [by apply send_one_way_inv|by apply tamed_send_one_way].
  - injection E as <-. apply both; [by apply abandon_inv|apply tamed_abandon].
  - injection E as <-. apply plain; [apply calm_monitor|apply tamed_monitor].
  - injection E as <-. unfold begin_shutdown in *.
    destruct (is_closing rt); [done|]. apply plain; [apply calm_lifecycle|apply tamed_lifecycle].
  - injection E as <-. apply both; [by apply terminate_inv|apply tamed_terminate].
  - injection E as <-. apply both; [by apply complete_inv|apply tamed_complete].
  - injection E as <-. apply both; [by apply stream_item_inv|apply tamed_stream_item].
  - injection E as <-. apply both; [by apply stream_end_inv|apply tamed_stream_end].
  - injection E as <-. destruct (rt_consumers rt !! call_id); [|by apply plain].
    apply plain; [apply calm_store|apply tamed_store].
  - case_match; [done|]. injection E as <-. apply both; [by apply accept_inv|by apply tamed_accept].
  - case_match; [done|]. destruct (dial_delay config address draw now rt) as [[rt1 w]|] eqn:Ed; [|done].
    injection E as <-. apply dial_delay_ok in Ed as [? ?]. by apply plain.
  - destruct (_ && _) eqn:Eb; [|done]. injection E as <-. apply andb_true_iff in Eb as [Ht%bool_decide_eq_true _].
    apply both; [|by etrans; [apply tamed_session|apply tamed_bump]].
    eapply calm_inv; [apply calm_bump|]. by apply run_session_inv.
  - destruct (rt_sessions rt !! id) as [s|] eqn:Es; [|done]. cbn in E.
    destruct (_ && _) eqn:Eb; [|done]. injection E as <-.
    apply andb_true_iff in Eb as [[Ht%bool_decide_eq_true Hh%bool_decide_eq_true]%andb_true_iff _].
    apply both; [by eapply write_next_inv|apply tamed_write_next].
  - destruct (_ && _); [|done]. apply both; [by eapply transmit_held_inv|by eapply tamed_transmit_held].
  - destruct (_ && _) eqn:Eb; [|done]. injection E as <-. apply andb_true_iff in Eb as [Ht%bool_decide_eq_true _].
    apply both; [by apply on_message_inv|apply tamed_on_message].
  - injection E as <-. apply plain; [apply (calm_touch id (queue_exec op)), calm_queue_exec|].
    apply tamed_touch, addr_queue_exec.
  - destruct (_ && _); [|done]. injection E as <-. apply plain; [apply calm_close_idle|apply tamed_close_idle].
  - destruct (_ && _); [|done]. injection E as <-. apply plain; apply calm_ping.
  - destruct (rt_sessions rt !! id) as [s|] eqn:Es; [|done]. cbn in E.
    destruct (_ && _) eqn:Eb; [|done]. apply andb_true_iff in Eb as [[[Ht Hh]%andb_true_iff Hm]%andb_true_iff _].
    apply bool_decide_eq_true in Ht, Hh.
    apply both; [by eapply close_connection_inv|by eapply tamed_close_connection].
  - case_match; [done|]. apply both; [by eapply finish_teardown_inv|by eapply tamed_finish_teardown].
  - injection E as <-. apply plain; [calm_fields|apply tamed_driver].
Qed.

Lemma call_run_None ops : foldl (λ rt op, rt ≫= call_exec config op) None ops = None.
Proof. induction ops; [done|]. done. Qed.

Lemma call_run_ok ops rt rt' :
  runtime_ok rt → call_run config ops rt = Some rt' → runtime_ok rt' ∧ tamed rt rt'.
Proof.
  revert rt. induction ops as [|op ops IH]; intros rt Ok E; [by injection E as <-|].
  unfold call_run in E. cbn in E. destruct (call_exec config op rt) as [rt1|] eqn:E1; [|by rewrite call_run_None in E].
  destruct (call_exec_ok op rt rt1 Ok E1) as [Ok1 T1]. destruct (IH rt1 Ok1 E) as [Ok2 T2].
  split; [done|by etrans].
Qed.

Lemma call_run_app ops more rt :
  call_run config (ops ++ more) rt = call_run config ops rt ≫= call_run config more.
Proof.
  unfold call_run. rewrite foldl_app. destruct (foldl _ _ ops) as [rt1|]; [done|]. apply call_run_None.
Qed.

(** ** After a shutdown, after a teardown *)

Lemma withdraw_pending cid call r : rt_pending (fst (withdraw cid call r)) = rt_pending r.
Proof.
  unfold withdraw. case_match; [done|]. case_match; [done|]. unfold retract_from, on_conn.
  case_bool_decide; [|done]. destruct (rt_sessions r !! id); [|done]. by destruct (retract _ _).
Qed.

Lemma terminate_one_pending r cid : rt_pending (terminate_one r cid) = delete cid (rt_pending r).
Proof.
  unfold terminate_one. destruct (rt_pending r !! cid) as [call|] eqn:Ep; [|by rewrite delete_id].
  pose proof (withdraw_pending cid call (remove_call cid r)) as Hw.
  destruct (withdraw cid call (remove_call cid r)) as [r1 call1]. cbn [fst] in Hw.
  by rewrite (ca_pending _ _ (calm_finish _ _ _ _)).
Qed.

Lemma terminate_pending r : rt_pending (terminate r) = ∅.
Proof.
  unfold terminate. set (r1 := foldl terminate_one _ _).
  assert (rt_pending r1 = ∅) as Hr1.
  { unfold r1. set (r0 := set_lifecycle TERMINATED r). clearbody r0.
    assert (∀ l r, (∀ cid, is_Some (rt_pending r !! cid) → cid ∈ l) → rt_pending (foldl terminate_one r l) = ∅) as Hl.
    { induction l as [|cid l IH]; intros r2 Hin; cbn [foldl].
      - apply map_empty. intros i. destruct (rt_pending r2 !! i) eqn:Ei; [|done].
        by destruct (not_elem_of_nil i); apply Hin; rewrite Ei.
      - apply IH. intros i. rewrite terminate_one_pending. intros [c [Hne Ei]%lookup_delete_Some].
        assert (i ∈ cid :: l) as [->|]%elem_of_cons by (apply Hin; by rewrite Ei); done. }
    apply Hl. intros cid. by rewrite keys_of_lookup. }
  assert (∀ l r, rt_pending (foldl (λ r id, touch id (λ c, fst (Connection_close Local c)) r) r l) = rt_pending r) as Ht.
  { induction l as [|id l IH]; intros r2; [done|]. cbn [foldl]. rewrite IH. unfold touch, on_conn.
    by destruct (rt_sessions r2 !! id). }
  cbn. by rewrite Ht.
Qed.

Lemma retransmit_one_closing ended connection now r copy :
  rt_closing (retransmit_one ended connection now r copy) = rt_closing r ∧
  ∀ id t, task_of id r = Some t → task_of id (retransmit_one ended connection now r copy) = Some t.
Proof.
  assert (∀ r1 cid call o, rt_closing r1 = rt_closing r →
    (∀ id t, task_of id r = Some t → task_of id r1 = Some t) →
    rt_closing (finish cid call o r1) = rt_closing r ∧
    ∀ id t, task_of id r = Some t → task_of id (finish cid call o r1) = Some t) as Hfin.
  { intros r1 cid call o E1 E2. pose proof (calm_finish cid call o r1) as Hc.
    split; [by rewrite (ca_closing _ _ Hc)|]. intros id t Ht.
    apply (kp_task _ _ _ (calm_keeps (λ _, False) _ _ Hc)). by apply E2. }
  unfold retransmit_one. destruct copy as [cid frame].
  destruct (rt_pending r !! cid) as [call|]; [|done]. case_match; [done|].
  destruct (permanent_failure _ _); [by apply Hfin|].
  destruct connection as [id|e|], frame as [frame|e'|]; try by apply Hfin.
  set (f := adopt_requests _ _).
  assert (rt_closing (fst (on_conn id f (remove_call cid r))) = rt_closing r ∧
    ∀ j t, task_of j r = Some t → task_of j (fst (on_conn id f (remove_call cid r))) = Some t) as [E1 E2].
  { unfold on_conn. cbn. destruct (rt_sessions r !! id) as [s|] eqn:Es; [|done].
    destruct (f _) as [c a]. split; [done|]. intros j t. unfold task_of. cbn.
    destruct (decide (j = id)) as [->|]; [by rewrite lookup_insert_eq, Es|by rewrite lookup_insert_ne]. }
  destruct (on_conn id f (remove_call cid r)) as [r1 [[]|]]; cbn [fst] in *; [done|by apply Hfin..].
Qed.

Lemma finish_teardown_done id ask now r r' :
  calls_ok r → finish_teardown config id ask now r = Some r' →
  (id ∉ rt_connections r') ∧ rt_closing r' !! id = None.
Proof.
  intros I E. pose proof (finish_teardown_inv config id ask now r r' I E) as I'.
  unfold finish_teardown in E. destruct (rt_closing r !! id) as [cl|] eqn:Ecl; [|done]. cbn in E.
  pose proof (i_closing _ _ I id cl Ecl) as Ht. set (r1 := set_closing _ r) in E.
  assert (rt_closing r1 !! id = None ∧ task_of id r1 = Some Finished) as H1
    by (split; [cbn; apply lookup_delete_eq|done]).
  set (r2 := match cl_address cl with Some _ => _ | None => _ end) in E.
  assert (rt_closing r2 !! id = None ∧ task_of id r2 = Some Finished) as H2.
  { unfold r2. destruct (cl_address cl) as [a|]; [|done]. destruct (_ || _); [|done].
    unfold retransmit. destruct (peer_connection config a now r1) as [r3 connection] eqn:Ep.
    assert (inv (resending id (rs_call_id <$> cl_resend cl)) r1) as I1 by (by apply closing_removed).
    destruct (peer_connection_inv _ _ _ _ _ _ _ I1 Ep) as (_ & K3 & _).
    assert (rt_closing r3 !! id = None ∧ task_of id r3 = Some Finished) as H3.
    { destruct H1. split; [by rewrite (kp_closing _ _ _ K3)|by apply (kp_task _ _ _ K3)]. }
    clear Ep K3. generalize (resend_copy config ask <$> cl_resend cl) as l. intros l. revert r3 H3.
    induction l as [|x l IH]; intros r3 H3; [done|]. cbn [foldl]. apply IH.
    destruct (retransmit_one_closing (OriginConnection id) connection now r3 x) as [-> Hk].
    destruct H3. split; [done|by apply Hk]. }
  clearbody r2. destruct (on_conn id take_streams r2) as [r3 streams] eqn:E3. injection E as E.
  assert (calm r2 r') as Hc.
  { rewrite <- E. etrans; [eapply (on_conn_calm id take_streams); [exact E3|]|].
    - intros c c' x Ef _. pose proof (calm_take_streams c). by rewrite Ef in *.
    - generalize (default [] streams) as l. intros l. clear. revert r3.
      induction l as [|x l IH]; intros r3; [reflexivity|]. cbn [foldl]. etrans; [apply calm_bump|apply IH]. }
  destruct H2 as [H2 Ht2]. split; [|by rewrite (ca_closing _ _ Hc)].
  apply (kp_task _ _ _ (calm_keeps (λ _, False) _ _ Hc)) in Ht2. apply lookup_task in Ht2 as (s & Es & Et).
  by apply (se_finished _ _ _ (i_session _ _ I' id s Es)) in Et as [? _].
Qed.

(** ** What follows for callers *)

Section Runs.
Context (ops : list CallOp) (rt : Runtime).
Hypothesis Hrun : call_run config ops (Runtime_new config) = Some rt.

Lemma run_ok : runtime_ok rt.
Proof. by eapply call_run_ok; [apply Runtime_new_ok|]. Qed.

(** C7: every call a caller was given is either still pending or was settled,
    and settled exactly once: at any point of any run, the calls started are,
    without repetition, the calls in the table together with the outcomes
    reported. *)
Theorem call_settled_exactly_once :
  NoDup (rt_started rt).*1 ∧ (rt_started rt).*1 ≡ₚ keys_of (rt_pending rt) ++ (rt_settled rt).*1.
Proof.
  pose proof (ok_calls _ run_ok) as I. split; [apply I|]. apply NoDup_Permutation; [apply I| |].
  - apply NoDup_app. split_and!; [|..|apply I].
    + unfold keys_of. rewrite merge_sort_Permutation. apply NoDup_fst_map_to_list.
    + intros cid Hp%keys_of_lookup Hs. rewrite (i_settled_gone _ _ I cid Hs) in Hp. by destruct Hp.
  - intros cid. rewrite elem_of_app, keys_of_lookup. apply I.
Qed.

(** C8: a caller told that its request never left was told the truth, for good:
    when a call fails with "not admitted" by this runtime's own decision, or is
    reported withdrawn on abandonment, no copy of it was ever written to a
    connection, and none is written by any later step. *)
Theorem unsent_report_is_final cid o more rt' :
  (cid, o) ∈ rt_settled rt → claims_unsent o = true → call_run config more rt = Some rt' →
  written rt' cid = 0 ∧ ∀ id, ¬ waits_on rt' cid id.
Proof.
  intros Ho Hc E. destruct (call_run_ok _ _ _ run_ok E) as [[I' _] T].
  apply (so_unsent _ _ _ (i_settled _ _ I' cid o (tm_settled _ _ T _ Ho)) Hc).
Qed.

(** C19: an at-most-once call leaves at most once, whatever happens to its
    connection: at any point of any run at most one copy of it was written, and
    once one was, none waits any more. *)
Theorem at_most_once_written_once cid :
  (cid, AtMostOnce) ∈ rt_started rt →
  written rt cid ≤ 1 ∧ (written rt cid ≠ 0 → ∀ id, ¬ waits_on rt cid id).
Proof. intros Hs. apply (i_at_most_once _ _ (ok_calls _ run_ok) cid Hs). Qed.

(** A rejection before admission passed on from the peer says all there is
    to know: when a caller gets the peer's answer as "not admitted", at most one
    copy of the call was ever written, and no other is written later, also for
    a reliable call that could be sent again. *)
Theorem rejection_covers_every_copy cid o more rt' :
  (cid, o) ∈ rt_settled rt → reported_rejected o = true → call_run config more rt = Some rt' →
  written rt' cid ≤ 1 ∧ (written rt' cid ≠ 0 → ∀ id, ¬ waits_on rt' cid id).
Proof.
  intros Ho Hc E. destruct (call_run_ok _ _ _ run_ok E) as [[I' _] T].
  apply (so_rejected _ _ _ (i_settled _ _ I' cid o (tm_settled _ _ T _ Ho)) Hc).
Qed.

(** C18: no call waits on a connection nobody drives: every pending remote call
    belongs to a connection that is open and whose session's task has not
    ended, or to one whose teardown still has it on the list of calls to send
    again.  (After a driver's drop nothing polls its tasks; the
    sessions' records then keep the state their tasks had, and the theorem
    speaks of that state, until the shared state is dropped with its table of
    calls.) *)
Theorem pending_call_has_a_home cid call id :
  rt_pending rt !! cid = Some call → pc_origin call = OriginConnection id →
  (id ∈ rt_connections rt ∧ ∃ t, task_of id rt = Some t ∧ t ≠ Finished) ∨
  (∃ cl, rt_closing rt !! id = Some cl ∧ cid ∈ rs_call_id <$> cl_resend cl ∧
     is_Some (cl_address cl) ∧ is_Some (pc_retained call)).
Proof.
  intros Ep Ho. pose proof (ok_calls _ run_ok) as I.
  destruct (k_home _ _ _ _ (i_call _ _ I cid call Ep) id Ho) as [Hin|[(cl & ? & ? & ? & ? & _)|[]]]; [left|by right; exists cl].
  split; [done|]. destruct (i_open _ _ I id Hin) as [s Es]. exists (sn_task s). unfold task_of. rewrite Es.
  split; [done|]. by intros [? _]%(se_finished _ _ _ (i_session _ _ I id s Es)).
Qed.

(** A terminated runtime owes nobody an answer: [terminate] empties the
    table, and every call ever started has its one outcome. *)
Theorem terminate_settles_every_call :
  rt_pending (terminate rt) = ∅ ∧
  (rt_started (terminate rt)).*1 ≡ₚ (rt_settled (terminate rt)).*1.
Proof.
  pose proof (terminate_pending rt) as Hp. split; [done|].
  pose proof (terminate_inv _ _ (ok_calls _ run_ok)) as I.
  apply NoDup_Permutation; [apply I..|]. intros cid. rewrite (i_started _ _ I), Hp, lookup_empty.
  split; [intros [[]|]; done|by right].
Qed.

(** The teardown of a connection leaves no call behind: once both critical
    sections of [close_connection] ran, no pending call belongs to the ended
    connection: each was failed, or moved to the connection its copy was queued
    on. *)
Theorem teardown_leaves_no_call id ask now rt' :
  finish_teardown config id ask now rt = Some rt' →
  ∀ cid call, rt_pending rt' !! cid = Some call → pc_origin call ≠ OriginConnection id.
Proof.
  intros E cid call Ep Ho. pose proof (ok_calls _ run_ok) as I.
  pose proof (finish_teardown_inv config id ask now rt rt' I E) as I'.
  destruct (finish_teardown_done id ask now rt rt' I E) as [Hgone Hcl].
  destruct (k_home _ _ _ _ (i_call _ _ I' cid call Ep) id Ho) as [Hin|[(cl & E' & _)|[]]]; [done|congruence].
Qed.

End Runs.

End Safe.
