(* ===== verification/Security.v ===== *)
(** Who may call what (moonpool-rpc/src/security/mod.rs and allow.rs): the
    address allow list and the decision on one request.

    The verifier, the policy and the clock are trait objects of the
    configuration, so they are function fields here; the text forms of
    addresses are the standard library's and are given parsed. *)
From stdpp Require Import base list numbers strings.
From S2P Require Import Prelude Cursor Status Wire Registry Runtime.

(** ** Subnets *)

Record Subnet := mkSubnet { su_address : IpAddr; su_prefix : Z }.

(** [Ipv6Addr::to_ipv4_mapped] and [Ipv4Addr::to_ipv6_mapped]. *)
Definition mapped_prefix : list byte :=
  replicate 10 (Z_to_byte 0) ++ [Z_to_byte 255; Z_to_byte 255].

Definition to_ipv4_mapped (octets : list byte) : option (list byte) :=
  if bool_decide (take 12 octets = mapped_prefix) then Some (drop 12 octets) else None.

Definition to_ipv6_mapped (octets : list byte) : list byte := mapped_prefix ++ octets.

Definition Subnet_new (address : IpAddr) (prefix : Z) : option Subnet :=
  match address with
  | V4 _ => if prefix <=? 32 then Some (mkSubnet address prefix) else None
  | V6 v6 =>
      if 128 <? prefix then None else
      match to_ipv4_mapped v6 with
      | Some v4 =>
          if 96 <=? prefix then Some (mkSubnet (V4 v4) (prefix - 96))
          else Some (mkSubnet address prefix)
      | None => Some (mkSubnet address prefix)
      end
  end.

Definition canonical (ip : IpAddr) : IpAddr :=
  match ip with
  | V6 v6 => match to_ipv4_mapped v6 with Some v4 => V4 v4 | None => ip end
  | V4 _ => ip
  end.

(** [u8::MAX << (8 - rest)] keeps eight bits. *)
Definition prefix_matches (net ip : list byte) (prefix : Z) : bool :=
  let whole := prefix / 8 in
  let rest := prefix mod 8 in
  if (len net <? whole) || (len ip <? whole) then false else
  if negb (bool_decide (slice net 0 whole = slice ip 0 whole)) then false else
  if rest =? 0 then true else
  let mask := Z.shiftl 255 (8 - rest) mod 256 in
  match net !! Z.to_nat whole, ip !! Z.to_nat whole with
  | Some net, Some ip => Z.land (byte_to_Z net) mask =? Z.land (byte_to_Z ip) mask
  | _, _ => false
  end.

Definition Subnet_contains (s : Subnet) (ip : IpAddr) : bool :=
  match su_address s with
  | V4 net =>
      match canonical ip with
      | V4 ip => prefix_matches net ip (su_prefix s)
      | V6 _ => false
      end
  | V6 net =>
      let ip := match ip with V4 v4 => to_ipv6_mapped v4 | V6 v6 => v6 end in
      prefix_matches net ip (su_prefix s)
  end.

Definition IpAllowList := list Subnet.

Definition allow_all : IpAllowList := [].

Definition allows (l : IpAllowList) (ip : IpAddr) : bool :=
  bool_decide (l = []) || existsb (λ s, Subnet_contains s ip) l.

(** [allows_peer], of the peer's parsed address. *)
Definition allows_peer (l : IpAllowList) (peer : option IpAddr) : bool :=
  bool_decide (l = []) || match peer with Some ip => allows l ip | None => false end.

(** ** The decision *)

Inductive Denial :=
  | Denied_Unauthenticated (reason : CredentialError)
  | Denied_PermissionDenied.

Record Principal := mkPrincipal {
  pl_subject : string;
  pl_issuer : option string;
  pl_scopes : list string;
  pl_expires_at : option Z;
}.

Definition Principal_new (subject : string) : Principal := mkPrincipal subject None [] None.

Definition with_scopes (scopes : list string) (p : Principal) : Principal :=
  mkPrincipal (pl_subject p) (pl_issuer p) scopes (pl_expires_at p).

Definition with_expiry (expires_at : Z) (p : Principal) : Principal :=
  mkPrincipal (pl_subject p) (pl_issuer p) (pl_scopes p) (Some expires_at).

Definition has_scope (scope : string) (p : Principal) : bool :=
  existsb (λ granted, String.eqb granted scope) (pl_scopes p).

Definition with_issuer (issuer : string) (p : Principal) : Principal :=
  mkPrincipal (pl_subject p) (Some issuer) (pl_scopes p) (pl_expires_at p).

Inductive RequestOrigin := OriginInside | OriginRemote (peer : PeerContext).

Record AccessRequest := mkAccessRequest {
  ar_origin : RequestOrigin;
  ar_access : AccessClass;
  ar_token : EndpointToken;
  ar_interface : Z * Z;
  ar_method : Z;
  ar_now : option Z;
}.

Definition Verifier : Type := AccessRequest → list byte → res CredentialError Principal.
Definition Policy : Type := AccessRequest → option Principal → res Denial unit.

Definition DefaultPolicy : Policy := λ request principal,
  match ar_access request, principal with
  | Public, _ | Private, Some _ => Ok tt
  | Private, None => Err (Denied_Unauthenticated Cred_Missing)
  end.

(** Whether a session's authenticated peer counts as a caller. *)
Inductive PeerIdentities := Ignored | PeersAdmitted.

(** The clock is what it shows at the moment of the check. *)
Record SecurityConfig := mkSecurityConfig {
  sy_trusted : bool;
  sy_verifier : option Verifier;
  sy_policy : Policy;
  sy_clock : option Z;
  sy_allow_list : IpAllowList;
  sy_credentials : option (Endpoint → option (list byte));
  sy_max_credential_bytes : Z;
  sy_plaintext_credentials : bool;
  sy_send_plaintext : bool;
  sy_peer_identities : PeerIdentities;
}.

Definition DEFAULT_MAX_CREDENTIAL_BYTES : Z := 8 * 1024.

Definition SecurityConfig_default : SecurityConfig :=
  mkSecurityConfig false None DefaultPolicy None [] None DEFAULT_MAX_CREDENTIAL_BYTES false false Ignored.

Definition enforced (verifier : Verifier) : SecurityConfig :=
  let d := SecurityConfig_default in
  mkSecurityConfig (sy_trusted d) (Some verifier) (sy_policy d) (sy_clock d) (sy_allow_list d)
    (sy_credentials d) (sy_max_credential_bytes d) (sy_plaintext_credentials d)
    (sy_send_plaintext d) (sy_peer_identities d).

Definition trusted_network : SecurityConfig :=
  let d := SecurityConfig_default in
  mkSecurityConfig true (sy_verifier d) (sy_policy d) (sy_clock d) (sy_allow_list d)
    (sy_credentials d) (sy_max_credential_bytes d) (sy_plaintext_credentials d)
    (sy_send_plaintext d) (sy_peer_identities d).

Definition with_policy (policy : Policy) (c : SecurityConfig) : SecurityConfig :=
  mkSecurityConfig (sy_trusted c) (sy_verifier c) policy (sy_clock c) (sy_allow_list c)
    (sy_credentials c) (sy_max_credential_bytes c) (sy_plaintext_credentials c)
    (sy_send_plaintext c) (sy_peer_identities c).

Definition with_clock (clock : option Z) (c : SecurityConfig) : SecurityConfig :=
  mkSecurityConfig (sy_trusted c) (sy_verifier c) (sy_policy c) clock (sy_allow_list c)
    (sy_credentials c) (sy_max_credential_bytes c) (sy_plaintext_credentials c)
    (sy_send_plaintext c) (sy_peer_identities c).

Definition with_allow_list (allow_list : IpAllowList) (c : SecurityConfig) : SecurityConfig :=
  mkSecurityConfig (sy_trusted c) (sy_verifier c) (sy_policy c) (sy_clock c) allow_list
    (sy_credentials c) (sy_max_credential_bytes c) (sy_plaintext_credentials c)
    (sy_send_plaintext c) (sy_peer_identities c).

Definition with_credentials (source : Endpoint → option (list byte)) (c : SecurityConfig) : SecurityConfig :=
  mkSecurityConfig (sy_trusted c) (sy_verifier c) (sy_policy c) (sy_clock c) (sy_allow_list c)
    (Some source) (sy_max_credential_bytes c) (sy_plaintext_credentials c) (sy_send_plaintext c)
    (sy_peer_identities c).

Definition with_max_credential_bytes (bytes : Z) (c : SecurityConfig) : SecurityConfig :=
  mkSecurityConfig (sy_trusted c) (sy_verifier c) (sy_policy c) (sy_clock c) (sy_allow_list c)
    (sy_credentials c) bytes (sy_plaintext_credentials c) (sy_send_plaintext c)
    (sy_peer_identities c).

Definition send_credentials_over_plaintext (c : SecurityConfig) : SecurityConfig :=
  mkSecurityConfig (sy_trusted c) (sy_verifier c) (sy_policy c) (sy_clock c) (sy_allow_list c)
    (sy_credentials c) (sy_max_credential_bytes c) (sy_plaintext_credentials c) true
    (sy_peer_identities c).

Definition accept_credentials_over_plaintext (c : SecurityConfig) : SecurityConfig :=
  mkSecurityConfig (sy_trusted c) (sy_verifier c) (sy_policy c) (sy_clock c) (sy_allow_list c)
    (sy_credentials c) (sy_max_credential_bytes c) true (sy_send_plaintext c) (sy_peer_identities c).

Definition admit_authenticated_peers (c : SecurityConfig) : SecurityConfig :=
  mkSecurityConfig (sy_trusted c) (sy_verifier c) (sy_policy c) (sy_clock c) (sy_allow_list c)
    (sy_credentials c) (sy_max_credential_bytes c) (sy_plaintext_credentials c)
    (sy_send_plaintext c) PeersAdmitted.

Definition admits_authenticated_peers (c : SecurityConfig) : bool :=
  match sy_peer_identities c with PeersAdmitted => true | Ignored => false end.

Definition sends_credentials_over_plaintext (c : SecurityConfig) : bool :=
  sy_trusted c || sy_send_plaintext c.

Definition PEER_IDENTITY_ISSUER : string := "tls".

Definition verifies_credentials (c : SecurityConfig) : bool :=
  negb (sy_trusted c) && bool_decide (is_Some (sy_verifier c)).

Definition insecure (c : SecurityConfig) (request : AccessRequest) : bool :=
  match ar_origin request with
  | OriginRemote peer => negb (is_encrypted peer) && negb (sy_plaintext_credentials c)
  | OriginInside => false
  end.

(** The session's authenticated peer, if that counts as a caller. *)
Definition session_principal (c : SecurityConfig) (request : AccessRequest) : option Principal :=
  match ar_origin request with
  | OriginRemote peer =>
      if admits_authenticated_peers c
      then (λ identity, with_issuer PEER_IDENTITY_ISSUER (Principal_new identity)) <$> cx_identity peer
      else None
  | OriginInside => None
  end.

Definition decide_principal (c : SecurityConfig) (request : AccessRequest)
    (credential : option (list byte)) : res Denial (option Principal) :=
  match credential, sy_verifier c with
  | Some credential, Some verify =>
      if insecure c request then Err (Denied_Unauthenticated Cred_InsecureTransport) else
      match verify request credential with
      | Ok principal => Ok (Some principal)
      | Err e => Err (Denied_Unauthenticated e)
      | Panic => Panic
      end
  | Some _, None => Ok None
  | None, _ => Ok (session_principal c request)
  end.

Definition security_decide (c : SecurityConfig) (request : AccessRequest)
    (section : option (list byte)) : res Denial (option Principal) :=
  if sy_trusted c then Ok None else
  let credential :=
    match section with
    | Some section => map_err Denied_Unauthenticated (bearer section (sy_max_credential_bytes c))
    | None => Ok None
    end in
  res_bind credential (λ credential,
  res_bind (decide_principal c request credential) (λ principal,
  res_bind (sy_policy c request principal) (λ _, Ok principal))).

(** ** Who a caller is taken for

    The callers an untrusting configuration recognises in a request: one its
    verifier vouches for, over a session that keeps the credential secret or a
    configuration that does not ask for it; without a credential, the
    session's authenticated peer where those are admitted; and nobody. *)
Inductive Caller (c : SecurityConfig) (request : AccessRequest) (section : option (list byte)) :
    option Principal → Prop :=
  | Caller_verified s credential verify p :
      section = Some s → bearer s (sy_max_credential_bytes c) = Ok (Some credential) →
      sy_verifier c = Some verify → insecure c request = false →
      verify request credential = Ok p →
      Caller c request section (Some p)
  | Caller_peer peer identity :
      (section = None ∨ ∃ s, section = Some s ∧ bearer s (sy_max_credential_bytes c) = Ok None) →
      ar_origin request = OriginRemote peer → cx_identity peer = Some identity →
      admits_authenticated_peers c = true →
      Caller c request section (Some (mkPrincipal identity (Some PEER_IDENTITY_ISSUER) [] None))
  | Caller_anonymous :
      Caller c request section None.

Lemma decide_principal_caller c request section credential p :
  match section with Some s => bearer s (sy_max_credential_bytes c) | None => Ok None end = Ok credential →
  decide_principal c request credential = Ok p → Caller c request section p.
Proof.
  intros Hs. unfold decide_principal, session_principal. destruct credential as [cred|].
  - destruct section as [s|]; [|done]. destruct (sy_verifier c) as [verify|] eqn:Ev; [|intros [= <-]; constructor].
    destruct (insecure c request) eqn:Ei; [done|].
    destruct (verify request cred) eqn:E; [|done..]. intros [= <-]. by econstructor.
  - intros [= <-]. destruct (ar_origin request) as [|peer] eqn:Eo; [constructor|].
    destruct (admits_authenticated_peers c) eqn:Ea; [|constructor].
    destruct (cx_identity peer) as [identity|] eqn:Ei; [|constructor]. cbn.
    eapply Caller_peer; [|done..]. destruct section as [s|]; eauto.
Qed.

(** In a configuration that trusts no network, a request is let through only
    as a caller the configuration recognises and the policy allows; under the
    default policy the caller of a private endpoint is known by name. *)
Lemma decided_caller c request section p :
  sy_trusted c = false → security_decide c request section = Ok p →
  Caller c request section p ∧ sy_policy c request p = Ok tt ∧
  (sy_policy c = DefaultPolicy → ar_access request = Private → is_Some p).
Proof.
  unfold security_decide. intros -> Hd.
  destruct (match section with Some s => _ | None => _ end) as [credential| |] eqn:Es; [|done..].
  cbn [res_bind] in Hd. destruct (decide_principal c request credential) as [q| |] eqn:Ep; [|done..].
  cbn [res_bind] in Hd. destruct (sy_policy c request q) as [[]| |] eqn:Eq; [|done..].
  injection Hd as <-. split_and!; [|done|].
  - eapply decide_principal_caller; [|done]. destruct section as [s|]; [|by simplify_eq].
    destruct (bearer s _); cbn in Es; congruence.
  - intros Hd Ha. rewrite Hd in Eq. unfold DefaultPolicy in Eq. rewrite Ha in Eq. by destruct q.
Qed.

Lemma bearer_entries_no_panic fuel rest found : bearer_entries fuel rest found ≠ Panic.
Proof.
  induction fuel as [|fuel IH] in rest, found |- *; cbn [bearer_entries]; [done|].
  destruct rest as [|kind tail]; [done|]. destruct (Reader_u16 tail) as [[n tail']|]; [|done].
  destruct (Reader_slice n tail') as [[value tail'']|]; [|done]. by case_match.
Qed.

Lemma bearer_total section max_bytes : bearer section max_bytes ≠ Panic.
Proof. unfold bearer. case_match; [done|]. apply bearer_entries_no_panic. Qed.

(** With nothing configured, a private endpoint refuses every caller. *)
Lemma default_refuses_private request section :
  ar_access request = Private → ∃ d, security_decide SecurityConfig_default request section = Err d.
Proof.
  intros Ha. unfold security_decide. cbn [sy_trusted SecurityConfig_default].
  assert (∀ cred, decide_principal SecurityConfig_default request cred = Ok None) as Hn.
  { intros [cred|]; cbn; [done|]. unfold session_principal. by destruct (ar_origin request). }
  assert (∀ q : option Principal, q = None → ∃ d,
    (let? _ := DefaultPolicy request q in Ok q) = Err d) as Hp.
  { intros q ->. unfold DefaultPolicy. rewrite Ha. cbn. eauto. }
  destruct section as [s|]; cbn [res_bind]; [|rewrite Hn; by apply Hp].
  destruct (bearer s _) as [cred|e|] eqn:E; cbn [map_err res_bind]; [rewrite Hn; by apply Hp|eauto|].
  exfalso. revert E. apply bearer_total.
Qed.

(** ** What the allow list means

    An address as 128 bits, an IPv4 one in its mapped form; a subnet is the
    leading bits it fixes. *)

Definition octets128 (ip : IpAddr) : list byte :=
  match ip with V4 o => to_ipv6_mapped o | V6 o => o end.

(** Bit [i], the most significant of the first octet being bit 0. *)
Definition bit_at (octets : list byte) (i : Z) : bool :=
  match octets !! Z.to_nat (i / 8) with
  | Some b => Z.testbit (byte_to_Z b) (7 - i mod 8)
  | None => false
  end.

Definition leading_agree (n : Z) (a b : list byte) : Prop :=
  ∀ i, 0 ≤ i < n → bit_at a i = bit_at b i.

(** The leading bits a subnet of the textual form [address/prefix] fixes. *)
Definition fixed_bits (address : IpAddr) (prefix : Z) : Z :=
  match address with V4 _ => 96 + prefix | V6 _ => prefix end.

Lemma testbit_byte_high b i : 8 ≤ i → Z.testbit (byte_to_Z b) i = false.
Proof.
  intros. rewrite <- (Z.mod_small (byte_to_Z b) (2 ^ 8)) by apply byte_to_Z_range.
  by apply Z.mod_pow2_bits_high.
Qed.

Lemma byte_bits_eq a b :
  (∀ j, 0 ≤ j < 8 → Z.testbit (byte_to_Z a) (7 - j) = Z.testbit (byte_to_Z b) (7 - j)) → a = b.
Proof.
  intros Hj. apply byte_to_Z_inj, Z.bits_inj'. intros n Hn. destruct (decide (n < 8)).
  - specialize (Hj (7 - n)). replace (7 - (7 - n)) with n in Hj by lia. apply Hj. lia.
  - by rewrite !testbit_byte_high by lia.
Qed.

Lemma mask_bits rest j :
  0 < rest < 8 → 0 ≤ j → Z.testbit (Z.shiftl 255 (8 - rest) mod 256) (7 - j) = (0 <=? 7 - j) && (j <? rest).
Proof.
  intros Hr Hj. change 256 with (2 ^ 8). destruct (Z.leb_spec 0 (7 - j)); [|by rewrite Z.testbit_neg_r].
  rewrite Z.mod_pow2_bits_low, Z.shiftl_spec by lia. cbn [andb].
  destruct (Z.ltb_spec j rest).
  - change 255 with (Z.ones 8). apply Z.ones_spec_low. lia.
  - apply Z.testbit_neg_r. lia.
Qed.

Lemma masked_eq a b rest :
  0 < rest < 8 →
  (Z.land (byte_to_Z a) (Z.shiftl 255 (8 - rest) mod 256) =
     Z.land (byte_to_Z b) (Z.shiftl 255 (8 - rest) mod 256) ↔
   ∀ j, 0 ≤ j < rest → Z.testbit (byte_to_Z a) (7 - j) = Z.testbit (byte_to_Z b) (7 - j)).
Proof.
  intros Hr. split.
  - intros E j Hj. apply (f_equal (λ z, Z.testbit z (7 - j))) in E. rewrite !Z.land_spec, mask_bits in E by lia.
    destruct (Z.leb_spec 0 (7 - j)); [|lia]. destruct (Z.ltb_spec j rest); [|lia].
    by rewrite !andb_true_r in E.
  - intros Hj. apply Z.bits_inj'. intros n Hn. rewrite !Z.land_spec. destruct (decide (n < 8)).
    + replace n with (7 - (7 - n)) by lia. rewrite mask_bits by lia.
      destruct (Z.ltb_spec (7 - n) rest); [|by rewrite !andb_false_r].
      by rewrite Hj by lia.
    + by rewrite !testbit_byte_high by lia.
Qed.

Lemma bit_at_octet octets w j :
  0 ≤ w → 0 ≤ j < 8 →
  bit_at octets (8 * w + j) =
    match octets !! Z.to_nat w with Some b => Z.testbit (byte_to_Z b) (7 - j) | None => false end.
Proof.
  intros. unfold bit_at. replace ((8 * w + j) / 8) with w by (apply Z.div_unique with j; lia).
  replace ((8 * w + j) mod 8) with j by (apply Z.mod_unique with w; lia). done.
Qed.

(** Whole octets agree when their bits do. *)
Lemma leading_octets w a b :
  0 ≤ w → w ≤ len a → w ≤ len b →
  leading_agree (8 * w) a b ↔ take (Z.to_nat w) a = take (Z.to_nat w) b.
Proof.
  unfold len. intros Hw Ha Hb. split.
  - intros Hl. apply list_eq. intros i. destruct (decide (i < Z.to_nat w)%nat) as [Hi|];
      [|by rewrite !lookup_take_ge by lia].
    rewrite !lookup_take_lt by done.
    destruct (lookup_lt_is_Some_2 a i) as [x Hx]; [lia|]. destruct (lookup_lt_is_Some_2 b i) as [y Hy]; [lia|].
    rewrite Hx, Hy. f_equal. apply byte_bits_eq. intros j Hj.
    specialize (Hl (8 * Z.of_nat i + j)). rewrite !bit_at_octet, Nat2Z.id, Hx, Hy in Hl by lia. apply Hl. lia.
  - intros E i Hi. unfold bit_at. assert (Z.to_nat (i / 8) < Z.to_nat w)%nat as Hlt.
    { assert (i / 8 < w) by (apply Z.div_lt_upper_bound; lia). pose proof (Z.div_pos i 8). lia. }
    rewrite <- (lookup_take_lt a (Z.to_nat w)), <- (lookup_take_lt b (Z.to_nat w)) by done. by rewrite E.
Qed.

Lemma leading_split n m a b :
  0 ≤ n → 0 ≤ m →
  leading_agree (n + m) a b ↔ leading_agree n a b ∧ ∀ j, 0 ≤ j < m → bit_at a (n + j) = bit_at b (n + j).
Proof.
  intros. unfold leading_agree. split.
  - intros Hl. split; intros i ?; apply Hl; lia.
  - intros [H1 H2] i Hi. destruct (decide (i < n)); [apply H1; lia|].
    replace i with (n + (i - n)) by lia. apply H2. lia.
Qed.

(** The octet-wise comparison compares the leading bits. *)
Lemma prefix_matches_bits net ip prefix :
  len net = len ip → 0 ≤ prefix ≤ 8 * len net →
  prefix_matches net ip prefix = true ↔ leading_agree prefix net ip.
Proof.
  intros Hlen Hp. unfold prefix_matches.
  pose proof (Z.div_mod prefix 8 ltac:(lia)) as Hd. pose proof (Z.mod_pos_bound prefix 8 ltac:(lia)) as Hm.
  assert (0 ≤ prefix / 8) as Hw by (apply Z.div_pos; lia).
  set (w := prefix / 8) in *. set (rest := prefix mod 8) in *.
  destruct (Z.ltb_spec (len net) w); [lia|]. destruct (Z.ltb_spec (len ip) w); [lia|]. cbn [orb].
  rewrite Hd, leading_split, leading_octets by lia. unfold slice. rewrite !drop_0, Z.sub_0_r.
  case_bool_decide as He; cbn [negb]; [|split; [done|by intros [? _]]].
  destruct (Z.eqb_spec rest 0) as [->|Hr]; [split; [split; [done|lia]|done]|].
  destruct (lookup_lt_is_Some_2 net (Z.to_nat w)) as [x Hx]; [unfold len in *; lia|].
  destruct (lookup_lt_is_Some_2 ip (Z.to_nat w)) as [y Hy]; [unfold len in *; lia|].
  rewrite Hx, Hy, Z.eqb_eq, masked_eq by lia. split.
  - intros Hj. split; [done|]. intros j ?. rewrite !bit_at_octet, Hx, Hy by lia. auto.
  - intros [_ Hj] j ?. specialize (Hj j). rewrite !bit_at_octet, Hx, Hy in Hj by lia. auto.
Qed.

Lemma leading_app c a b n :
  0 ≤ n → leading_agree (8 * len c + n) (c ++ a) (c ++ b) ↔ leading_agree n a b.
Proof.
  intros Hn. assert (∀ l i, 0 ≤ i → bit_at (c ++ l) (8 * len c + i) = bit_at l i) as Hbit.
  { intros l i Hi. unfold bit_at, len.
    replace ((8 * Z.of_nat (length c) + i) / 8) with (Z.of_nat (length c) + i / 8) by
      (rewrite Z.mul_comm, Z.div_add_l; lia).
    replace ((8 * Z.of_nat (length c) + i) mod 8) with (i mod 8) by
      (rewrite Z.add_comm, Z.mul_comm, Z.mod_add; lia).
    pose proof (Z.div_pos i 8). rewrite lookup_app_r by lia.
    by replace (Z.to_nat (Z.of_nat (length c) + i / 8) - length c)%nat with (Z.to_nat (i / 8)) by lia. }
  rewrite leading_split by (unfold len; lia). rewrite leading_octets by (rewrite ?len_app; unfold len; lia).
  unfold len at 1 2. rewrite !Nat2Z.id, !take_app_length. split.
  - intros [_ Hj] i Hi. specialize (Hj i Hi). by rewrite !Hbit in Hj by lia.
  - intros Hj. split; [done|]. intros j ?. rewrite !Hbit by lia. auto.
Qed.

Lemma mapped_view octets v4 :
  to_ipv4_mapped octets = Some v4 → octets = to_ipv6_mapped v4.
Proof.
  unfold to_ipv4_mapped, to_ipv6_mapped. case_bool_decide as E; [|done]. intros [= <-].
  rewrite <- E at 1. by rewrite take_drop.
Qed.

(** IPv4 addresses live behind the mapped prefix. *)
Lemma mapped_agree o ip n :
  ip_wf ip → 0 ≤ n → leading_agree (96 + n) (to_ipv6_mapped o) (octets128 ip) →
  ∃ x, canonical ip = V4 x ∧ octets128 ip = to_ipv6_mapped x.
Proof.
  intros Hwf Hn Hl. destruct ip as [x|x]; cbn [octets128 canonical] in *; [by exists x|].
  destruct (to_ipv4_mapped x) as [v4|] eqn:E; [exists v4; split; [done|by apply mapped_view]|]. exfalso.
  unfold to_ipv4_mapped in E. case_bool_decide as Ht; [done|]. apply Ht.
  rewrite leading_split in Hl by lia. destruct Hl as [Hl _].
  apply (leading_octets 12) in Hl; [|lia| |].
  - change (Z.to_nat 12) with 12%nat in Hl. rewrite <- Hl. done.
  - unfold to_ipv6_mapped. rewrite len_app. change (len mapped_prefix) with 12. unfold len. lia.
  - cbn [ip_wf] in Hwf. lia.
Qed.

Lemma v4_contains o p ip :
  len o = 4 → 0 ≤ p ≤ 32 → ip_wf ip →
  Subnet_contains (mkSubnet (V4 o) p) ip = true ↔
    leading_agree (96 + p) (to_ipv6_mapped o) (octets128 ip).
Proof.
  intros Ho Hp Hwf. unfold Subnet_contains. cbn [su_address su_prefix].
  assert (∀ x, canonical ip = V4 x → octets128 ip = to_ipv6_mapped x → len x = 4) as Hlen.
  { intros x _ Hx. assert (len (octets128 ip) = 16) as H16.
    { destruct ip; cbn [octets128 ip_wf] in *; [|done]. unfold to_ipv6_mapped. by rewrite len_app, Hwf. }
    rewrite Hx in H16. unfold to_ipv6_mapped in H16. rewrite len_app in H16.
    change (len mapped_prefix) with 12 in H16. lia. }
  split.
  - destruct (canonical ip) as [x|x] eqn:Ec; [|done]. intros Hm.
    assert (octets128 ip = to_ipv6_mapped x) as Hx.
    { destruct ip as [y|y]; cbn in Ec |- *; [by injection Ec as <-|].
      destruct (to_ipv4_mapped y) eqn:E; [|done]. injection Ec as <-. by apply mapped_view. }
    rewrite Hx. apply (leading_app mapped_prefix o x p); [lia|].
    apply prefix_matches_bits; [by rewrite Ho, (Hlen x)|lia|done].
  - intros Hl. destruct (mapped_agree o ip p Hwf ltac:(lia) Hl) as (x & Ec & Hx). rewrite Ec.
    apply prefix_matches_bits; [by rewrite Ho, (Hlen x)|lia|].
    rewrite Hx in Hl. by apply (leading_app mapped_prefix o x p) in Hl; [|lia].
Qed.

(** A subnet contains exactly the addresses that share its leading bits, all
    addresses read as 128 bits with IPv4 ones in their mapped form: however
    the subnet was written and whichever family the address is of.  An IPv4
    address is compared in its mapped form with an IPv6 subnet too, which the
    comment inside [contains] says and its documentation denies. *)
Lemma contains_leading_bits address prefix s ip :
  ip_wf address → ip_wf ip → 0 ≤ prefix → Subnet_new address prefix = Some s →
  Subnet_contains s ip = true ↔
    leading_agree (fixed_bits address prefix) (octets128 address) (octets128 ip).
Proof.
  intros Hwf Hip Hp. unfold Subnet_new. destruct address as [o|o]; cbn [fixed_bits octets128].
  - destruct (Z.leb_spec prefix 32); [|done]. intros [= <-]. by apply v4_contains.
  - destruct (Z.ltb_spec 128 prefix); [done|].
    assert (Subnet_contains (mkSubnet (V6 o) prefix) ip = true ↔ leading_agree prefix o (octets128 ip)) as H6.
    { unfold Subnet_contains. cbn [su_address su_prefix].
      change (match ip with V4 v4 => to_ipv6_mapped v4 | V6 v6 => v6 end) with (octets128 ip).
      cbn [ip_wf] in Hwf. apply prefix_matches_bits; [|lia]. destruct ip; cbn [octets128 ip_wf] in *; [|congruence].
      unfold to_ipv6_mapped. rewrite len_app, Hip. done. }
    destruct (to_ipv4_mapped o) as [v4|] eqn:E; [|by intros [= <-]].
    destruct (Z.leb_spec 96 prefix); [|by intros [= <-]]. intros [= <-].
    apply mapped_view in E. cbn [ip_wf] in Hwf. rewrite E in Hwf. unfold to_ipv6_mapped in Hwf. rewrite len_app in Hwf.
    change (len mapped_prefix) with 12 in Hwf. rewrite v4_contains, E by (done || lia).
    by replace (96 + (prefix - 96)) with prefix by lia.
Qed.

(** The subnet and the address are of one family, an IPv4-mapped address
    counting as the IPv4 address it maps. *)
Definition one_family (s : Subnet) (ip : IpAddr) : bool :=
  match su_address s, canonical ip with
  | V4 _, V4 _ | V6 _, V6 _ => true
  | _, _ => false
  end.

(** C36: a subnet of the allow list contains exactly the addresses of its own
    family that share its leading bits: however the subnet was written, as
    IPv4, as IPv6 or as an IPv4-mapped subnet of any prefix, and an address of
    the subnet's family, where an IPv4-mapped IPv6 address counts as the IPv4
    address it maps, is in the subnet just when the two agree on the bits the
    prefix fixes.  An IPv4 subnet contains no address that is IPv6 and not
    mapped. *)
Theorem subnet_is_leading_bits address prefix s ip :
  ip_wf address → ip_wf ip → 0 ≤ prefix → Subnet_new address prefix = Some s →
  (one_family s ip = true →
   Subnet_contains s ip = true ↔
     leading_agree (fixed_bits address prefix) (octets128 address) (octets128 ip)) ∧
  (∀ net, su_address s = V4 net → one_family s ip = false → Subnet_contains s ip = false).
Proof.
  intros Hwf Hip Hp Hs. split; [intros _; by apply contains_leading_bits|].
  intros net Hn. unfold one_family, Subnet_contains. rewrite Hn. by destruct (canonical ip).
Qed.
