(* ===== verification/Jwt.v ===== *)
(** Verification keys, validation time and the JWT verifier
    (moonpool-rpc/src/security/keys.rs, clock.rs and jwt.rs).

    The [jsonwebtoken] crate is not part of the sources: its parsing and its
    signature check are the operations of [Jsonwebtoken], and its data types
    are the fields the verifier reads.  Tokens and keys are otherwise the
    code's: the conversion of a published key set, the checks on a token, and
    the cache of verified tokens, whose critical sections ([verify_phase])
    interleave with those of other calls and with replacements of the keys. *)
From stdpp Require Import base list numbers gmap strings.
From S2P Require Import Prelude Cursor Status Wire Registry Connection Runtime Security.

(** ** The clock *)

Definition UtcTime_plus (t seconds : Z) : Z := saturating_add64 t seconds.

Definition UtcTime_minus (t seconds : Z) : Z := Z.max (t - seconds) 0.

(** [FixedUtc], the shared cell; [u64::MAX] is an unknown time. *)
Definition FixedUtc_new (now : Z) : Z := Z.min now (u64_max - 1).

Definition FixedUtc_set (now : Z) (cell : Z) : Z := Z.min now (u64_max - 1).

Definition FixedUtc_advance (seconds : Z) (cell : Z) : Z :=
  if cell =? u64_max then cell else Z.min (saturating_add64 cell seconds) (u64_max - 1).

Definition FixedUtc_forget (cell : Z) : Z := u64_max.

Definition FixedUtc_now_utc (cell : Z) : option Z := if cell =? u64_max then None else Some cell.

(** ** Rotating keys *)

Record KeySet (K : Type) := mkKeySet { ks_generation : Z; ks_keys : gmap string K }.
Arguments mkKeySet {K}.
Arguments ks_generation {K}.
Arguments ks_keys {K}.

Definition KeySet_get {K} (ks : KeySet K) (kid : string) : option K := ks_keys ks !! kid.

(** [collect] into the map: a later pair replaces an earlier one. *)
Definition collect_keys {K} (keys : list (string * K)) : gmap string K :=
  foldl (λ m p, <[p.1 := p.2]> m) ∅ keys.

Definition RotatingKeys_new {K} (keys : list (string * K)) : KeySet K := mkKeySet 1 (collect_keys keys).

Definition RotatingKeys_replace {K} (current : KeySet K) (keys : list (string * K)) : KeySet K * Z :=
  let generation := saturating_add64 (ks_generation current) 1 in
  (mkKeySet generation (collect_keys keys), generation).

(** ** The library *)

Inductive Algorithm :=
  | HS256 | HS384 | HS512 | ES256 | ES384 | RS256 | RS384 | RS512 | PS256 | PS384 | PS512 | EdDSA.

#[global] Instance Algorithm_eq_dec : EqDecision Algorithm.
Proof. solve_decision. Defined.

(** Declared algorithms of a key; the ones that are no public-key signature
    are [KA_other]. *)
Inductive KeyAlgorithm :=
  | KA_ES256 | KA_ES384 | KA_EdDSA | KA_RS256 | KA_RS384 | KA_RS512
  | KA_PS256 | KA_PS384 | KA_PS512 | KA_other (name : string).

Inductive EllipticCurve := P256 | P384 | P521 | Ed25519.

Inductive AlgorithmParameters :=
  | EllipticCurveKey (curve : EllipticCurve)
  | OctetKeyPair (curve : EllipticCurve)
  | RSAKey
  | OctetKey
  | UnknownKeyType.

Record Header := mkHeader {
  hd_crit : bool;
  hd_typ : option string;
  hd_alg : Algorithm;
  hd_kid : option string;
}.

Record Claims := mkClaims {
  cl_sub : string;
  cl_iss : string;
  cl_exp : Z;
  cl_nbf : option Z;
  cl_scope : option string;
}.

(** What the code sets of the library's [Validation]. *)
Record Validation := mkValidation {
  va_algorithm : Algorithm;
  va_validate_exp : bool;
  va_validate_nbf : bool;
  va_leeway : Z;
  va_issuers : list string;
  va_audiences : list string;
  va_required : list string;
}.

Inductive JwtErrorKind :=
  | InvalidSignature | InvalidIssuer | InvalidAudience
  | InvalidAlgorithm | MissingAlgorithm | UnsupportedAlgorithm
  | InvalidEcdsaKey | InvalidEddsaKey | InvalidRsaKey | InvalidKeyFormat
  | OtherJwtError.

Class Jsonwebtoken := {
  DecodingKey : Type;
  KeyMaterial : Type;
  decode_header : list byte → option Header;
  decode : list byte → DecodingKey → Validation → res JwtErrorKind Claims;
  from_material : AlgorithmParameters → KeyMaterial → option DecodingKey;
  (** The modulus of an RSA key given by modulus and exponent. *)
  rsa_modulus : DecodingKey → option (list byte);
}.

Section Jwt.
Context `{J : Jsonwebtoken}.

Record Jwk := mkJwk {
  jk_key_id : option string;
  jk_key_algorithm : option KeyAlgorithm;
  jk_algorithm : AlgorithmParameters;
  jk_material : KeyMaterial;
}.

Record VerificationKey := mkVerificationKey { vk_key : DecodingKey; vk_algorithm : Algorithm }.

(** ** Published key sets *)

Inductive Detail :=
  | D_curve (c : EllipticCurve) | D_symmetric | D_unknown_type
  | D_algorithm (name : string) | D_mismatch (a : Algorithm)
  | D_library | D_modulus (bits : Z).

Inductive JwksError :=
  | Jwks_TooLarge (n : Z)
  | Jwks_TooManyKeys (n : Z)
  | Jwks_Parse
  | Jwks_KeyId
  | Jwks_Unsupported (kid : string) (detail : Detail).

Definition MAX_JWKS_BYTES : Z := 64 * 1024.
Definition MAX_JWKS_KEYS : Z := 64.
Definition MIN_RSA_MODULUS_BITS : Z := 2048.

Definition inferred_algorithm (p : AlgorithmParameters) : res Detail Algorithm :=
  match p with
  | EllipticCurveKey P256 => Ok ES256
  | EllipticCurveKey P384 => Ok ES384
  | EllipticCurveKey other => Err (D_curve other)
  | OctetKeyPair Ed25519 => Ok EdDSA
  | OctetKeyPair other => Err (D_curve other)
  | RSAKey => Ok RS256
  | OctetKey => Err D_symmetric
  | UnknownKeyType => Err D_unknown_type
  end.

Definition declared_algorithm (k : KeyAlgorithm) : res Detail Algorithm :=
  match k with
  | KA_ES256 => Ok ES256
  | KA_ES384 => Ok ES384
  | KA_EdDSA => Ok EdDSA
  | KA_RS256 => Ok RS256
  | KA_RS384 => Ok RS384
  | KA_RS512 => Ok RS512
  | KA_PS256 => Ok PS256
  | KA_PS384 => Ok PS384
  | KA_PS512 => Ok PS512
  | KA_other name => Err (D_algorithm name)
  end.

Definition rsa (a : Algorithm) : bool :=
  match a with RS256 | RS384 | RS512 | PS256 | PS384 | PS512 => true | _ => false end.

Definition key_algorithm (jwk : Jwk) : res Detail Algorithm :=
  let? inferred := inferred_algorithm (jk_algorithm jwk) in
  match jk_key_algorithm jwk with
  | None => Ok inferred
  | Some declared =>
      let? declared := declared_algorithm declared in
      if bool_decide (declared = inferred) || (rsa declared && rsa inferred)
      then Ok declared else Err (D_mismatch declared)
  end.

(** [u8::leading_zeros] of a byte. *)
Definition leading_zeros8 (z : Z) : Z := if z =? 0 then 8 else 7 - Z.log2 z.

Fixpoint strip_zeros (n : list byte) : list byte :=
  match n with
  | [] => []
  | b :: rest => if byte_to_Z b =? 0 then strip_zeros rest else n
  end.

Definition modulus_bits (n : list byte) : Z :=
  match strip_zeros n with
  | [] => 0
  | top :: _ => len (strip_zeros n) * 8 - leading_zeros8 (byte_to_Z top)
  end.

Definition insert_key (keys : gmap string VerificationKey) (kid : string) (key : VerificationKey) :
    res JwksError (gmap string VerificationKey) :=
  if bool_decide (is_Some (keys !! kid)) then Err Jwks_KeyId else Ok (<[kid := key]> keys).

(** One key of the set. *)
Definition convert_one (keys : gmap string VerificationKey) (jwk : Jwk) :
    res JwksError (gmap string VerificationKey) :=
  match jk_key_id jwk with
  | None => Err Jwks_KeyId
  | Some kid =>
      let? algorithm := map_err (Jwks_Unsupported kid) (key_algorithm jwk) in
      match from_material (jk_algorithm jwk) (jk_material jwk) with
      | None => Err (Jwks_Unsupported kid D_library)
      | Some key =>
          match modulus_bits <$> rsa_modulus key with
          | Some bits =>
              if bits <? MIN_RSA_MODULUS_BITS
              then Err (Jwks_Unsupported kid (D_modulus bits))
              else insert_key keys kid (mkVerificationKey key algorithm)
          | None => insert_key keys kid (mkVerificationKey key algorithm)
          end
      end
  end.

Fixpoint convert_all (keys : gmap string VerificationKey) (set : list Jwk) :
    res JwksError (gmap string VerificationKey) :=
  match set with
  | [] => Ok keys
  | jwk :: set => let? keys := convert_one keys jwk in convert_all keys set
  end.

(** The pairs are collected into a map again, so their order does not matter. *)
Definition convert (set : list Jwk) : res JwksError (list (string * VerificationKey)) :=
  if MAX_JWKS_KEYS <? len set then Err (Jwks_TooManyKeys (len set)) else
  let? keys := convert_all ∅ set in Ok (map_to_list keys).

(** [serde_json::from_str] is the argument [from_str]. *)
Definition parse_json (from_str : list byte → option (list Jwk)) (json : list byte) :
    res JwksError (list (string * VerificationKey)) :=
  if MAX_JWKS_BYTES <? len json then Err (Jwks_TooLarge (len json)) else
  match from_str json with
  | None => Err Jwks_Parse
  | Some set => convert set
  end.

Definition Keys : Type := KeySet VerificationKey.

Definition replace_set (current : Keys) (set : list Jwk) : Keys * res JwksError Z :=
  match convert set with
  | Ok keys => let '(current, generation) := RotatingKeys_replace current keys in (current, Ok generation)
  | Err e => (current, Err e)
  | Panic => (current, Panic)
  end.

Definition replace_json (from_str : list byte → option (list Jwk)) (current : Keys) (json : list byte) :
    Keys * res JwksError Z :=
  match parse_json from_str json with
  | Ok keys => let '(current, generation) := RotatingKeys_replace current keys in (current, Ok generation)
  | Err e => (current, Err e)
  | Panic => (current, Panic)
  end.

(** ** The verifier *)

Definition is_public_key_algorithm (a : Algorithm) : bool :=
  match a with HS256 | HS384 | HS512 => false | _ => true end.

Record JwtConfig := mkJwtConfig {
  jc_issuers : list string;
  jc_audiences : list string;
  jc_algorithms : list Algorithm;
  jc_leeway_seconds : Z;
  jc_max_token_bytes : Z;
  jc_cache_capacity : Z;
  jc_accepted_types : list string;
}.

Definition JwtConfig_new (issuer audience : string) : JwtConfig :=
  mkJwtConfig [issuer] [audience] [ES256; EdDSA] 0 (4 * 1024) 1024
    ["JWT"; "at+jwt"; "application/at+jwt"]%string.

Inductive InvalidJwtConfig := NoIssuerOrAudience | NoAlgorithm | SymmetricAlgorithm (a : Algorithm).

Record Cached := mkCached {
  ce_generation : Z;
  ce_principal : Principal;
  ce_not_before : option Z;
  ce_expires : Z;
}.

Record Cache := mkCache {
  ca_entries : gmap (list byte) Cached;
  ca_order : list (list byte);
}.

Record JwtVerifier := mkJwtVerifier {
  jv_config : JwtConfig;
  jv_validations : list (Algorithm * Validation);
}.

Definition validation_of (config : JwtConfig) (algorithm : Algorithm) : Validation :=
  mkValidation algorithm false false 0 (jc_issuers config) (jc_audiences config)
    ["exp"; "iss"; "aud"; "sub"]%string.

Definition JwtVerifier_new (config : JwtConfig) : res InvalidJwtConfig JwtVerifier :=
  if bool_decide (jc_issuers config = []) || bool_decide (jc_audiences config = [])
  then Err NoIssuerOrAudience else
  if bool_decide (jc_algorithms config = []) then Err NoAlgorithm else
  match List.find (λ a, negb (is_public_key_algorithm a)) (jc_algorithms config) with
  | Some symmetric => Err (SymmetricAlgorithm symmetric)
  | None => Ok (mkJwtVerifier config ((λ a, (a, validation_of config a)) <$> jc_algorithms config))
  end.

Definition check_time (v : JwtVerifier) (now : option Z) (not_before : option Z) (expires : Z) :
    res CredentialError unit :=
  match now with
  | None => Err Cred_ClockUnavailable
  | Some now =>
      let leeway := jc_leeway_seconds (jv_config v) in
      if saturating_add64 expires leeway <=? now then Err Cred_Expired else
      match not_before with
      | Some not_before =>
          if saturating_add64 now leeway <? not_before then Err Cred_NotYetValid else Ok tt
      | None => Ok tt
      end
  end.

Definition ascii_lower (c : Ascii.ascii) : Ascii.ascii :=
  let n := Ascii.nat_of_ascii c in
  if (65 <=? n)%nat && (n <=? 90)%nat then Ascii.ascii_of_nat (n + 32) else c.

Fixpoint eq_ignore_ascii_case (a b : string) : bool :=
  match a, b with
  | EmptyString, EmptyString => true
  | String.String x a, String.String y b =>
      Ascii.eqb (ascii_lower x) (ascii_lower y) && eq_ignore_ascii_case a b
  | _, _ => false
  end.

(** The width in bytes of the whitespace character a UTF-8 string begins
    with, 0 if it begins with another one ([char::is_whitespace]). *)
Definition whitespace_width (s : list Z) : nat :=
  match s with
  | c :: rest =>
      if ((9 <=? c) && (c <=? 13)) || (c =? 32) then 1%nat else
      match c, rest with
      | 194, 133 :: _ | 194, 160 :: _ => 2%nat
      | 225, 154 :: 128 :: _ => 3%nat
      | 226, 128 :: e :: _ =>
          if ((128 <=? e) && (e <=? 138)) || (e =? 168) || (e =? 169) || (e =? 175)
          then 3%nat else 0%nat
      | 226, 129 :: 159 :: _ => 3%nat
      | 227, 128 :: 128 :: _ => 3%nat
      | _, _ => 0%nat
      end
  | [] => 0%nat
  end.

(** [split_whitespace]: the word being read, reversed, and the bytes of the
    current whitespace character still to skip. *)
Fixpoint split_words (word : list Z) (skip : nat) (s : list Z) : list (list Z) :=
  let flush := match word with [] => [] | _ => [reverse word] end in
  match s with
  | [] => flush
  | c :: rest =>
      match skip with
      | S skip => split_words word skip rest
      | O =>
          match whitespace_width s with
          | O => split_words (c :: word) 0 rest
          | S width => flush ++ split_words [] width rest
          end
      end
  end.

Definition string_codes (s : string) : list Z :=
  (λ c, Z.of_N (Ascii.N_of_ascii c)) <$> String.list_ascii_of_string s.

Definition codes_string (codes : list Z) : string :=
  String.string_of_list_ascii ((λ z, Ascii.ascii_of_N (Z.to_N z)) <$> codes).

Definition split_whitespace (s : string) : list string :=
  codes_string <$> split_words [] 0 (string_codes s).

(** The library's error, as the caller is told. *)
Definition decode_error (kind : JwtErrorKind) : CredentialError :=
  match kind with
  | InvalidSignature => Cred_BadSignature
  | InvalidIssuer => Cred_WrongIssuer
  | InvalidAudience => Cred_WrongAudience
  | InvalidAlgorithm | MissingAlgorithm | UnsupportedAlgorithm => Cred_UnsupportedAlgorithm
  | InvalidEcdsaKey | InvalidEddsaKey | InvalidRsaKey | InvalidKeyFormat => Cred_UnknownKey
  | OtherJwtError => Cred_Malformed
  end.

(** The checks after the header, under the keys current then. *)
Definition verify_claims (claims : Claims) : res CredentialError (Principal * option Z * Z) :=
  if bool_decide (cl_sub claims = ""%string) then Err Cred_Malformed else
  let principal := with_expiry (cl_exp claims)
    (with_issuer (cl_iss claims) (Principal_new (cl_sub claims))) in
  let principal :=
    match cl_scope claims with
    | Some scope => with_scopes (split_whitespace scope) principal
    | None => principal
    end in
  Ok (principal, cl_nbf claims, cl_exp claims).

Definition typ_accepted (config : JwtConfig) (header : Header) : bool :=
  match hd_typ header with
  | Some typ => existsb (λ accepted, eq_ignore_ascii_case accepted typ) (jc_accepted_types config)
  | None => true
  end.

(** [verify_uncached], with the generation it leaves in its [&mut u64]. *)
Definition verify_uncached (v : JwtVerifier) (keys : Keys) (token : list byte) (generation : Z) :
    Z * res CredentialError (Principal * option Z * Z) :=
  match decode_header token with
  | None => (generation, Err Cred_Malformed)
  | Some header =>
      if hd_crit header then (generation, Err Cred_Malformed) else
      if negb (typ_accepted (jv_config v) header) then (generation, Err Cred_Malformed) else
      match List.find (λ p, bool_decide (p.1 = hd_alg header)) (jv_validations v) with
      | None => (generation, Err Cred_UnsupportedAlgorithm)
      | Some (_, validation) =>
          match hd_kid header with
          | None => (generation, Err Cred_Malformed)
          | Some kid =>
              let generation := ks_generation keys in
              match KeySet_get keys kid with
              | None => (generation, Err Cred_UnknownKey)
              | Some key =>
                  if negb (bool_decide (vk_algorithm key = hd_alg header))
                  then (generation, Err Cred_UnsupportedAlgorithm) else
                  (generation,
                   let? claims := map_err decode_error (decode token (vk_key key) validation) in
                   verify_claims claims)
              end
          end
      end
  end.

(** *** [verify], one critical section at a time

    A call reads the generation under the lock of the keys, looks the token up
    under the lock of the cache, verifies it under the keys current by then
    and stores the result under the lock of the cache.  Between any two of
    these other calls run and the keys may be replaced. *)

Inductive Phase :=
  | Ph_generation (token : list byte) (now : option Z)
  | Ph_lookup (token : list byte) (now : option Z) (generation : Z)
  | Ph_verify (token : list byte) (now : option Z) (generation : Z)
  | Ph_store (token : list byte) (entry : Cached)
  | Ph_done (answer : res CredentialError Principal).

Definition caching (v : JwtVerifier) : bool := 0 <? jc_cache_capacity (jv_config v).

Definition verify_enter (v : JwtVerifier) (token : list byte) (now : option Z) : Phase :=
  if jc_max_token_bytes (jv_config v) <? len token then Ph_done (Err Cred_TooLarge)
  else Ph_generation token now.

(** The cached answer, if the entry was verified under [generation]. *)
Definition cache_hit (v : JwtVerifier) (cache : Cache) (token : list byte) (now : option Z)
    (generation : Z) : option (res CredentialError Principal) :=
  match ca_entries cache !! token with
  | Some hit =>
      if ce_generation hit =? generation
      then Some (let? _ := check_time v now (ce_not_before hit) (ce_expires hit) in Ok (ce_principal hit))
      else None
  | None => None
  end.

(** The eviction loop: it drops the oldest token until the cache fits. *)
Fixpoint cache_evict (capacity : Z) (entries : gmap (list byte) Cached) (order : list (list byte)) : Cache :=
  if capacity <? Z.of_nat (size entries) then
    match order with
    | [] => mkCache entries []
    | oldest :: order => cache_evict capacity (delete oldest entries) order
    end
  else mkCache entries order.

Definition cache_store (v : JwtVerifier) (token : list byte) (entry : Cached) (cache : Cache) : Cache :=
  let order :=
    match ca_entries cache !! token with
    | None => ca_order cache ++ [token]
    | Some _ => ca_order cache
    end in
  cache_evict (jc_cache_capacity (jv_config v)) (<[token := entry]> (ca_entries cache)) order.

Definition verify_phase (v : JwtVerifier) (keys : Keys) (cache : Cache) (p : Phase) : Cache * Phase :=
  match p with
  | Ph_generation token now =>
      (cache, if caching v then Ph_lookup token now (ks_generation keys)
              else Ph_verify token now (ks_generation keys))
  | Ph_lookup token now generation =>
      (cache, match cache_hit v cache token now generation with
              | Some answer => Ph_done answer
              | None => Ph_verify token now generation
              end)
  | Ph_verify token now generation =>
      let '(verified_under, r) := verify_uncached v keys token generation in
      (cache, match r with
              | Ok (principal, not_before, expires) =>
                  match check_time v now not_before expires with
                  | Ok _ =>
                      if caching v
                      then Ph_store token (mkCached verified_under principal not_before expires)
                      else Ph_done (Ok principal)
                  | Err e => Ph_done (Err e)
                  | Panic => Ph_done Panic
                  end
              | Err e => Ph_done (Err e)
              | Panic => Ph_done Panic
              end)
  | Ph_store token entry => (cache_store v token entry cache, Ph_done (Ok (ce_principal entry)))
  | Ph_done answer => (cache, Ph_done answer)
  end.

(** [verify] with nothing in between. *)
Definition verify (v : JwtVerifier) (keys : Keys) (cache : Cache) (token : list byte) (now : option Z) :
    Cache * res CredentialError Principal :=
  let run := λ p, verify_phase v keys p.1 p.2 in
  match run (run (run (run (cache, verify_enter v token now)))) with
  | (cache, Ph_done answer) => (cache, answer)
  | (cache, _) => (cache, Panic)
  end.

(** *** Any number of calls and replacements *)

(** A call; [jl_began] is the place in the history of the key set current when
    it entered. *)
Record JwtCall := mkJwtCall { jl_token : list byte; jl_now : option Z; jl_began : nat; jl_phase : Phase }.

(** The verifier's shared state, the calls ever made by number, and every key
    set that was ever current, oldest first. *)
Record JwtWorld := mkJwtWorld {
  jw_keys : Keys;
  jw_cache : Cache;
  jw_calls : gmap nat JwtCall;
  jw_history : list Keys;
}.

Inductive JwtOp :=
  | J_replace (keys : list (string * VerificationKey))
  | J_call (id : nat) (token : list byte) (now : option Z)
  | J_phase (id : nat).

Definition jwt_start (keys : list (string * VerificationKey)) : JwtWorld :=
  let ks := RotatingKeys_new keys in mkJwtWorld ks (mkCache ∅ []) ∅ [ks].

Definition jwt_step (v : JwtVerifier) (o : JwtOp) (w : JwtWorld) : JwtWorld :=
  match o with
  | J_replace keys =>
      let ks := (RotatingKeys_replace (jw_keys w) keys).1 in
      mkJwtWorld ks (jw_cache w) (jw_calls w) (jw_history w ++ [ks])
  | J_call id token now =>
      match jw_calls w !! id with
      | Some _ => w
      | None =>
          mkJwtWorld (jw_keys w) (jw_cache w)
            (<[id := mkJwtCall token now (length (jw_history w) - 1) (verify_enter v token now)]> (jw_calls w))
            (jw_history w)
      end
  | J_phase id =>
      match jw_calls w !! id with
      | Some call =>
          let '(cache, phase) := verify_phase v (jw_keys w) (jw_cache w) (jl_phase call) in
          mkJwtWorld (jw_keys w) cache
            (<[id := mkJwtCall (jl_token call) (jl_now call) (jl_began call) phase]> (jw_calls w))
            (jw_history w)
      | None => w
      end
  end.

Definition jwt_run (v : JwtVerifier) (ops : list JwtOp) (w : JwtWorld) : JwtWorld :=
  foldl (λ w o, jwt_step v o w) w ops.

End Jwt.
