(* ===== verification/JwtCache.v ===== *)
(** The JWT verifier's cache changes no answer: whatever calls run at once and
    however the keys are replaced meanwhile, a call answers what the checks
    answer, without a cache, under a key set that was current during the call;
    so a key that was left out is refused at once. *)
From stdpp Require Import base list numbers gmap strings.
From S2P Require Import Prelude Cursor Status Wire Registry Connection Runtime Security Jwt.

Section JwtCache.
Context `{J : Jsonwebtoken} (v : JwtVerifier).

(** The checks under one key set. *)
Definition uncached (ks : Keys) (token : list byte) : res CredentialError (Principal * option Z * Z) :=
  (verify_uncached v ks token 0).2.

Definition plain_verify (ks : Keys) (token : list byte) (now : option Z) : res CredentialError Principal :=
  if jc_max_token_bytes (jv_config v) <? len token then Err Cred_TooLarge else
  match uncached ks token with
  | Ok (principal, not_before, expires) =>
      match check_time v now not_before expires with
      | Ok _ => Ok principal
      | Err e => Err e
      | Panic => Panic
      end
  | Err e => Err e
  | Panic => Panic
  end.

Lemma verify_uncached_spec ks token g :
  (verify_uncached v ks token g).2 = uncached ks token ∧
  (∀ r, uncached ks token = Ok r → (verify_uncached v ks token g).1 = ks_generation ks).
Proof.
  unfold uncached, verify_uncached. destruct (decode_header token) as [h|]; [|done].
  destruct (hd_crit h); [done|]. destruct (negb (typ_accepted _ _)); [done|].
  destruct (List.find _ _) as [[a validation]|]; [|done]. destruct (hd_kid h) as [kid|]; [|done].
  destruct (KeySet_get ks kid) as [key|]; [|done]. by destruct (negb _).
Qed.

(** ** The cache *)

Definition order_ok (c : Cache) : Prop :=
  NoDup (ca_order c) ∧ ∀ t, t ∈ ca_order c ↔ is_Some (ca_entries c !! t).

Definition entries_ok (history : list Keys) (c : Cache) : Prop :=
  ∀ token e, ca_entries c !! token = Some e →
    ∃ (i : nat) ks, history !! i = Some ks ∧ ks_generation ks = ce_generation e ∧
      uncached ks token = Ok (ce_principal e, ce_not_before e, ce_expires e).

Lemma cache_evict_ok capacity entries order :
  order_ok (mkCache entries order) →
  let c := cache_evict capacity entries order in
  order_ok c ∧ ca_entries c ⊆ entries ∧ (Z.of_nat (size (ca_entries c)) ≤ Z.max 0 capacity).
Proof.
  induction order as [|t order IH] in entries |- *; intros [Hnd Hin]; cbn [cache_evict]; cbn [ca_order ca_entries] in *.
  - assert (entries = ∅) as ->.
    { apply map_eq. intros t. rewrite lookup_empty. apply eq_None_not_Some. rewrite <- Hin. set_solver. }
    rewrite map_size_empty. case_match; cbn; split_and!; try done; try lia; rewrite map_size_empty; lia.
  - destruct (Z.ltb_spec capacity (Z.of_nat (size entries))); [|split_and!; cbn; [done|done|lia]].
    apply NoDup_cons in Hnd as [Ht Hnd]. destruct (IH (delete t entries)) as (Ho & Hs & Hc).
    + split; [done|]. cbn. intros u. destruct (decide (u = t)) as [->|].
      * rewrite lookup_delete_eq. split; [done|by intros [? ?]].
      * rewrite lookup_delete_ne by done. rewrite <- Hin. set_solver.
    + split_and!; [done| |done]. etrans; [exact Hs|apply delete_subseteq].
Qed.

Lemma cache_store_ok token e cache :
  order_ok cache →
  let c := cache_store v token e cache in
  order_ok c ∧ ca_entries c ⊆ <[token := e]> (ca_entries cache) ∧
  Z.of_nat (size (ca_entries c)) ≤ Z.max 0 (jc_cache_capacity (jv_config v)).
Proof.
  intros [Hnd Hin]. unfold cache_store. apply cache_evict_ok. split; cbn.
  - case_match eqn:E; [done|]. apply NoDup_app. split_and!; [done| |apply NoDup_singleton].
    intros t Ht ->%list_elem_of_singleton. apply Hin in Ht as [? ?]. congruence.
  - intros t. destruct (decide (t = token)) as [->|].
    + rewrite lookup_insert_eq. split; [done|]. intros _. destruct (ca_entries cache !! token) eqn:E; [|set_solver].
      apply Hin. by rewrite E.
    + rewrite lookup_insert_ne by done. rewrite <- Hin. case_match; set_solver.
Qed.

Lemma entries_ok_store history token e cache :
  order_ok cache → entries_ok history cache →
  (∃ (i : nat) ks, history !! i = Some ks ∧ ks_generation ks = ce_generation e ∧
     uncached ks token = Ok (ce_principal e, ce_not_before e, ce_expires e)) →
  entries_ok history (cache_store v token e cache).
Proof.
  intros Ho He Hnew t e' Hl. destruct (cache_store_ok token e cache Ho) as (_ & Hs & _).
  apply (lookup_weaken _ _ _ _ Hl) in Hs. destruct (decide (t = token)) as [->|].
  - rewrite lookup_insert_eq in Hs. by injection Hs as <-.
  - rewrite lookup_insert_ne in Hs by done. by apply He.
Qed.

(** ** The invariant *)

(** The key sets in order: the generations count up until they saturate. *)
Definition history_ok (w : JwtWorld) : Prop :=
  last (jw_history w) = Some (jw_keys w) ∧
  ∀ (i : nat) ks, jw_history w !! i = Some ks → ks_generation ks = Z.min (Z.of_nat i + 1) u64_max.

Definition size_ok (token : list byte) : Prop := len token ≤ jc_max_token_bytes (jv_config v).

Definition phase_ok (history : list Keys) (call : JwtCall) : Prop :=
  match jl_phase call with
  | Ph_generation t n => t = jl_token call ∧ n = jl_now call ∧ size_ok t
  | Ph_lookup t n g =>
      t = jl_token call ∧ n = jl_now call ∧ size_ok t ∧
      ∃ i ks, (jl_began call ≤ i)%nat ∧ history !! i = Some ks ∧ ks_generation ks = g
  | Ph_verify t n _ => t = jl_token call ∧ n = jl_now call ∧ size_ok t
  | Ph_store t e =>
      t = jl_token call ∧ size_ok t ∧ ∃ i ks, (jl_began call ≤ i)%nat ∧ history !! i = Some ks ∧
        ks_generation ks = ce_generation e ∧
        uncached ks t = Ok (ce_principal e, ce_not_before e, ce_expires e) ∧
        check_time v (jl_now call) (ce_not_before e) (ce_expires e) = Ok tt
  | Ph_done answer =>
      len history ≤ u64_max → ∃ i ks, (jl_began call ≤ i)%nat ∧ history !! i = Some ks ∧
        answer = plain_verify ks (jl_token call) (jl_now call)
  end.

Definition jwt_call_ok (history : list Keys) (call : JwtCall) : Prop :=
  (jl_began call < length history)%nat ∧ phase_ok history call.

Record jwt_inv (w : JwtWorld) : Prop := {
  ji_history : history_ok w;
  ji_order : order_ok (jw_cache w);
  ji_size : Z.of_nat (size (ca_entries (jw_cache w))) ≤ Z.max 0 (jc_cache_capacity (jv_config v));
  ji_entries : entries_ok (jw_history w) (jw_cache w);
  ji_calls : map_Forall (λ _ call, jwt_call_ok (jw_history w) call) (jw_calls w);
}.

Lemma jwt_start_inv keys : jwt_inv (jwt_start keys).
Proof.
  constructor; cbn.
  - split; [done|]. intros [|i] ks; [intros [= <-]; cbn; unfold u64_max; lia|done].
  - split; [constructor|]. intros t. cbn. rewrite lookup_empty. split; [by intros ?%elem_of_nil|by intros [? ?]].
  - rewrite map_size_empty. lia.
  - intros t e. cbn. by rewrite lookup_empty.
  - apply map_Forall_empty.
Qed.

(** A new set at the end of the history keeps what was said of the earlier
    ones. *)
Lemma entries_ok_snoc history ks c : entries_ok history c → entries_ok (history ++ [ks]) c.
Proof.
  intros He t e Hl. destruct (He t e Hl) as (i & k & Hi & H). exists i, k. split; [|done].
  by apply lookup_app_l_Some.
Qed.

Lemma jwt_call_ok_snoc history ks call : jwt_call_ok history call → jwt_call_ok (history ++ [ks]) call.
Proof.
  assert (∀ (i : nat) k, history !! i = Some k → (history ++ [ks]) !! i = Some k) as Hm
    by (intros; by apply lookup_app_l_Some).
  intros [Hb Hp]. split; [rewrite length_app; lia|]. unfold phase_ok in *.
  destruct (jl_phase call); [done| |done| |].
  - destruct Hp as (? & ? & ? & i & k & ? & ?%Hm & ?). eauto 10.
  - destruct Hp as (? & ? & i & k & ? & ?%Hm & ?). eauto 10.
  - intros Hl. destruct Hp as (i & k & ? & ?%Hm & ?); [|eauto 10].
    rewrite len_app in Hl. unfold len in *. lia.
Qed.

Lemma history_ok_last w : history_ok w → jw_history w !! (length (jw_history w) - 1)%nat = Some (jw_keys w).
Proof. intros [Hl _]. rewrite last_lookup in Hl. by replace (length _ - 1)%nat with (pred (length (jw_history w))) by lia. Qed.

Lemma history_nonempty w : history_ok w → (0 < length (jw_history w))%nat.
Proof. intros [Hl _]. destruct (jw_history w); [done|cbn; lia]. Qed.

Lemma replace_inv keys w : jwt_inv w → jwt_inv (jwt_step v (J_replace keys) w).
Proof.
  intros [Hh Ho Hs He Hc]. cbn [jwt_step RotatingKeys_replace fst]. constructor; cbn [jw_history jw_keys jw_cache jw_calls]; try done.
  - split; cbn [jw_history jw_keys]; [by rewrite last_snoc|]. intros i ks Hi. pose proof (history_ok_last w Hh) as Hl.
    pose proof (history_nonempty w Hh). destruct Hh as [_ Hg]. apply Hg in Hl. cbn in *.
    apply lookup_app_Some in Hi as [Hi|[Hi Hx]]; [by apply Hg|].
    apply list_lookup_singleton_Some in Hx as [Hz <-]. cbn.
    unfold saturating_add64, u64_max, Keys in *. lia.
  - by apply entries_ok_snoc.
  - intros id call Hl. by apply jwt_call_ok_snoc, (Hc id).
Qed.

Lemma enter_inv id token now w : jwt_inv w → jwt_inv (jwt_step v (J_call id token now) w).
Proof.
  intros Hi. pose proof Hi as [Hh Ho Hs He Hc]. cbn [jwt_step]. destruct (jw_calls w !! id) eqn:E; [done|].
  pose proof (history_nonempty w Hh). constructor; cbn; try done.
  apply map_Forall_insert_2; [|done]. split; cbn; [lia|]. unfold phase_ok, verify_enter. cbn.
  destruct (Z.ltb_spec (jc_max_token_bytes (jv_config v)) (len token)) as [Hlt|]; [|done].
  intros _. exists (length (jw_history w) - 1)%nat, (jw_keys w). split_and!; [lia|by apply history_ok_last|].
  unfold plain_verify. by rewrite (proj2 (Z.ltb_lt _ _) Hlt).
Qed.

(** A hit was verified under the set the generation names. *)
Lemma hit_is_reference history cache token now began i ks answer :
  (∀ (i : nat) ks, history !! i = Some ks → ks_generation ks = Z.min (Z.of_nat i + 1) u64_max) →
  entries_ok history cache → size_ok token →
  (began ≤ i)%nat → history !! i = Some ks →
  cache_hit v cache token now (ks_generation ks) = Some answer → len history ≤ u64_max →
  answer = plain_verify ks token now.
Proof.
  intros Hg He Hs Hb Hi. unfold cache_hit. destruct (ca_entries cache !! token) as [hit|] eqn:Eh; [|done].
  destruct (Z.eqb_spec (ce_generation hit) (ks_generation ks)) as [Eg|]; [|done]. intros [= <-] Hl.
  destruct (He _ _ Eh) as (j & k & Hj & Hk & Hu).
  assert (k = ks) as ->.
  { pose proof (lookup_lt_Some _ _ _ Hi). pose proof (lookup_lt_Some _ _ _ Hj). unfold len in Hl.
    pose proof (Hg _ _ Hi). pose proof (Hg _ _ Hj). assert (i = j) as -> by (unfold Keys in *; lia). congruence. }
  unfold plain_verify. rewrite (proj2 (Z.ltb_ge _ _) Hs), Hu. by destruct (check_time _ _ _ _).
Qed.

(** The phases of one call. *)
Lemma lookup_ok history cache call t n g :
  (∀ (i : nat) ks, history !! i = Some ks → ks_generation ks = Z.min (Z.of_nat i + 1) u64_max) →
  entries_ok history cache → jl_phase call = Ph_lookup t n g → phase_ok history call →
  phase_ok history (mkJwtCall (jl_token call) (jl_now call) (jl_began call)
    (verify_phase v (mkKeySet 0 ∅) cache (Ph_lookup t n g)).2).
Proof.
  intros Hg He Hp. unfold phase_ok at 1. rewrite Hp. intros (-> & -> & Hs & i & ks & Hb & Hi & <-).
  cbn [verify_phase snd]. destruct (cache_hit _ _ _ _ _) as [answer|] eqn:Eh; cbn; [|done].
  intros Hl. exists i, ks. split_and!; [done..|]. by eapply hit_is_reference.
Qed.

Lemma uncached_ok history ks i cache call t n g :
  history !! i = Some ks → (jl_began call ≤ i)%nat →
  jl_phase call = Ph_verify t n g → phase_ok history call →
  phase_ok history (mkJwtCall (jl_token call) (jl_now call) (jl_began call)
    (verify_phase v ks cache (Ph_verify t n g)).2).
Proof.
  intros Hi Hb Hp. unfold phase_ok at 1. rewrite Hp. intros (-> & -> & Hs).
  cbn [verify_phase]. destruct (verify_uncached_spec ks (jl_token call) g) as [Hu Hgen].
  destruct (verify_uncached v ks (jl_token call) g) as [g' r]. cbn [fst snd] in *. subst r.
  assert (∀ a, a = plain_verify ks (jl_token call) (jl_now call) →
    phase_ok history (mkJwtCall (jl_token call) (jl_now call) (jl_began call) (Ph_done a))) as Hdone.
  { intros a -> _. by exists i, ks. }
  assert (plain_verify ks (jl_token call) (jl_now call) =
    match uncached ks (jl_token call) with
    | Ok (p, nb, ex) => match check_time v (jl_now call) nb ex with Ok _ => Ok p | Err e => Err e | Panic => Panic end
    | Err e => Err e | Panic => Panic end) as Hr.
  { unfold plain_verify. by rewrite (proj2 (Z.ltb_ge _ _) Hs). }
  destruct (uncached ks (jl_token call)) as [[[p nb] ex]|e|] eqn:Eu; [|by apply Hdone..].
  destruct (check_time v (jl_now call) nb ex) as [[]|e|] eqn:Et; [|by apply Hdone..].
  destruct (caching v); [|by apply Hdone]. rewrite (Hgen _ eq_refl). cbn.
  split_and!; [done..|]. exists i, ks. by split_and!.
Qed.

Lemma store_ok history call t e :
  jl_phase call = Ph_store t e → phase_ok history call →
  phase_ok history (mkJwtCall (jl_token call) (jl_now call) (jl_began call) (Ph_done (Ok (ce_principal e)))).
Proof.
  intros Hp. unfold phase_ok at 1. rewrite Hp. intros (-> & Hs & i & ks & Hb & Hi & _ & Hu & Ht) _.
  exists i, ks. split_and!; [done..|]. unfold plain_verify. cbn [jl_token jl_now]. by rewrite (proj2 (Z.ltb_ge _ _) Hs), Hu, Ht.
Qed.

Lemma phase_inv id w : jwt_inv w → jwt_inv (jwt_step v (J_phase id) w).
Proof.
  intros Hi. pose proof Hi as [Hh Ho Hs He Hc]. cbn [jwt_step].
  destruct (jw_calls w !! id) as [call|] eqn:E; [|done].
  pose proof (history_ok_last w Hh) as Hl. pose proof (Hc _ _ E) as [Hb Hp].
  assert (∀ ph, phase_ok (jw_history w) (mkJwtCall (jl_token call) (jl_now call) (jl_began call) ph) →
    map_Forall (λ _ call, jwt_call_ok (jw_history w) call)
      (<[id := mkJwtCall (jl_token call) (jl_now call) (jl_began call) ph]> (jw_calls w))) as Hcalls.
  { intros ph Hph. apply map_Forall_insert_2; [|done]. by split. }
  destruct (jl_phase call) as [t n|t n g|t n g|t e|a] eqn:Ep.
  - cbn [verify_phase]. constructor; try done. apply Hcalls. unfold phase_ok in *. rewrite Ep in Hp. cbn.
    destruct Hp as (-> & -> & Hz). destruct (caching v); [|done]. split_and!; [done..|].
    exists (length (jw_history w) - 1)%nat, (jw_keys w). split_and!; [lia|done|done].
  - pose proof (lookup_ok _ (jw_cache w) call t n g (proj2 Hh) He Ep Hp) as Hk. cbn [verify_phase] in *.
    constructor; try done. by apply Hcalls.
  - pose proof (uncached_ok _ (jw_keys w) _ (jw_cache w) call t n g Hl ltac:(lia) Ep Hp) as Hk. cbn [verify_phase] in *.
    destruct (verify_uncached v (jw_keys w) t g). constructor; try done. by apply Hcalls.
  - pose proof (store_ok _ call t e Ep Hp) as Hk. cbn [verify_phase].
    destruct (cache_store_ok t e (jw_cache w) Ho) as (Ho' & _ & Hs').
    constructor; try done; [|by apply Hcalls]. apply entries_ok_store; [done..|].
    unfold phase_ok in Hp. rewrite Ep in Hp. destruct Hp as (-> & _ & i & ks & _ & ? & ? & ? & _). by exists i, ks.
  - cbn [verify_phase]. constructor; try done. apply Hcalls. unfold phase_ok in *. by rewrite Ep in Hp.
Qed.

Lemma jwt_run_inv ops w : jwt_inv w → jwt_inv (jwt_run v ops w).
Proof.
  unfold jwt_run. induction ops as [|o ops IH] in w |- *; [done|]. intros Hw. cbn. apply IH.
  destruct o; [by apply replace_inv|by apply enter_inv|by apply phase_inv].
Qed.

(** ** What the cache never does *)

Lemma answer_is_reference keys ops id call answer :
  let w := jwt_run v ops (jwt_start keys) in
  len (jw_history w) ≤ u64_max →
  jw_calls w !! id = Some call → jl_phase call = Ph_done answer →
  ∃ i ks, (jl_began call ≤ i)%nat ∧ jw_history w !! i = Some ks ∧
    answer = plain_verify ks (jl_token call) (jl_now call).
Proof.
  intros w Hl Hc Hd. destruct (ji_calls _ (jwt_run_inv ops _ (jwt_start_inv keys)) _ _ Hc) as [_ Hp].
  unfold phase_ok in Hp. rewrite Hd in Hp. by apply Hp.
Qed.

(** C29: the cache of verified tokens never changes an answer.  However many
    calls verify at once and however the key set is replaced between their
    steps (fewer than 2^64 times), a call answers exactly what the checks
    answer without a cache, at the call's own time, under a key set that was
    current at some moment of the call. *)
Theorem jwt_cache_transparent keys ops id call answer :
  let w := jwt_run v ops (jwt_start keys) in
  len (jw_history w) ≤ u64_max →
  jw_calls w !! id = Some call → jl_phase call = Ph_done answer →
  ∃ i ks, (jl_began call ≤ i)%nat ∧ jw_history w !! i = Some ks ∧
    answer = plain_verify ks (jl_token call) (jl_now call).
Proof. apply answer_is_reference. Qed.

(** An accepted token was signed by a key of the set, under an algorithm the
    configuration allows, for an accepted issuer and audience, and is within
    its validity. *)
Lemma plain_verify_accepts ks token now p :
  plain_verify ks token now = Ok p →
  ∃ header kid key validation claims now',
    decode_header token = Some header ∧ hd_crit header = false ∧ hd_kid header = Some kid ∧
    KeySet_get ks kid = Some key ∧ vk_algorithm key = hd_alg header ∧
    In (hd_alg header, validation) (jv_validations v) ∧
    decode token (vk_key key) validation = Ok claims ∧
    pl_subject p = cl_sub claims ∧ pl_issuer p = Some (cl_iss claims) ∧ pl_expires_at p = Some (cl_exp claims) ∧
    now = Some now' ∧ check_time v now (cl_nbf claims) (cl_exp claims) = Ok tt.
Proof.
  unfold plain_verify, uncached, verify_uncached. destruct (_ <? _); [done|].
  destruct (decode_header token) as [h|]; [|done]. destruct (hd_crit h) eqn:Ec; [done|].
  destruct (negb (typ_accepted _ _)); [done|].
  destruct (List.find _ _) as [[a validation]|] eqn:Ef; [|done].
  apply List.find_some in Ef as [Hin Ha]. apply bool_decide_eq_true in Ha. cbn in Ha. subst a.
  destruct (hd_kid h) as [kid|] eqn:Ek; [|done]. destruct (KeySet_get ks kid) as [key|] eqn:Eg; [|done].
  case_bool_decide as Hk; [|done]. cbn [negb snd].
  destruct (decode token (vk_key key) validation) as [claims|e|] eqn:Ed; [|done..].
  cbn [map_err res_bind]. unfold verify_claims. case_bool_decide; [done|].
  destruct (check_time v now (cl_nbf claims) (cl_exp claims)) as [[]|e|] eqn:Et; [|done..].
  intros [= <-]. destruct now as [now'|]; [|done].
  exists h, kid, key, validation, claims, now'. by destruct (cl_scope claims); split_and!.
Qed.

(** A verifier that was built allows public-key algorithms only, each with a
    validation that pins the issuers and audiences. *)
Lemma built_validations config a validation :
  JwtVerifier_new config = Ok v → In (a, validation) (jv_validations v) →
  jv_config v = config ∧ is_public_key_algorithm a = true ∧ validation = validation_of config a ∧
  a ∈ jc_algorithms config.
Proof.
  unfold JwtVerifier_new. destruct (_ || _); [done|]. case_bool_decide; [done|].
  destruct (List.find _ _) eqn:Ef; [done|]. intros [= <-]. cbn. intros Hin.
  apply list_elem_of_In, list_elem_of_fmap in Hin as (b & [= -> ->] & Hb). split_and!; [done| |done..].
  pose proof (List.find_none _ _ Ef b (proj1 (list_elem_of_In _ _) Hb)) as Hn.
  cbn in Hn. by destruct (is_public_key_algorithm b).
Qed.

(** The credential a request bears, if it bears one. *)
Definition presented (c : SecurityConfig) (section : option (list byte)) (token : list byte) : Prop :=
  ∃ s, section = Some s ∧ bearer s (sy_max_credential_bytes c) = Ok (Some token).

(** [c]'s verifier is the JWT verifier: its verdict on the token a request
    presents is the answer of a call of [w], a run of the verifier with its
    cache and its rotating keys, at the request's time. *)
Definition judged_in (w : JwtWorld) (c : SecurityConfig) (request : AccessRequest)
    (section : option (list byte)) : Prop :=
  ∀ verify token, sy_verifier c = Some verify → presented c section token →
    ∃ id call, jw_calls w !! id = Some call ∧ jl_token call = token ∧
      jl_now call = ar_now request ∧ jl_phase call = Ph_done (verify request token).

(** C35: who reaches a private endpoint.  On a runtime that does not trust its
    network, under the default policy and with the JWT verifier, its cache and
    its rotating keys, a request to a private endpoint is let through only as
    a named caller: either the authenticated peer of its session, when the
    configuration admits those and the request presents no token, or the
    subject of the token it presents, over a session that keeps the token
    secret unless the configuration takes it in plaintext.  Such a token's
    signature the library checked under a key of a set that was current since
    the verification began and a public-key algorithm that is both the key's
    and an allowed one, for the configured issuers and audiences, at a known
    time before its expiry and not before its start. *)
Theorem private_call_bears_token config c keys ops request section p :
  let w := jwt_run v ops (jwt_start keys) in
  JwtVerifier_new config = Ok v → len (jw_history w) ≤ u64_max → judged_in w c request section →
  sy_trusted c = false → sy_policy c = DefaultPolicy →
  ar_access request = Private → security_decide c request section = Ok p →
  ∃ principal, p = Some principal ∧
  ((∃ peer identity, ar_origin request = OriginRemote peer ∧ cx_identity peer = Some identity ∧
      admits_authenticated_peers c = true ∧ (∀ token, ¬ presented c section token) ∧
      principal = mkPrincipal identity (Some PEER_IDENTITY_ISSUER) [] None) ∨
   ∃ token id call i ks header kid key claims now,
     presented c section token ∧ insecure c request = false ∧
     jw_calls w !! id = Some call ∧ jl_token call = token ∧
     (jl_began call ≤ i)%nat ∧ jw_history w !! i = Some ks ∧
     decode_header token = Some header ∧ hd_kid header = Some kid ∧ KeySet_get ks kid = Some key ∧
     vk_algorithm key = hd_alg header ∧ is_public_key_algorithm (hd_alg header) = true ∧
     hd_alg header ∈ jc_algorithms config ∧
     decode token (vk_key key) (validation_of config (hd_alg header)) = Ok claims ∧
     pl_subject principal = cl_sub claims ∧ ar_now request = Some now ∧
     now < saturating_add64 (cl_exp claims) (jc_leeway_seconds config) ∧
     (∀ nbf, cl_nbf claims = Some nbf → nbf ≤ saturating_add64 now (jc_leeway_seconds config))).
Proof.
  intros w Hnew Hlen Hjudged Ht Hpol Ha Hd.
  destruct (decided_caller c request section p Ht Hd) as (Hc & _ & Hp). destruct (Hp Hpol Ha) as [principal ->].
  exists principal. split; [done|].
  inversion Hc as [s token verify q Hs Hb Hv Hi Hq|peer identity Hno Ho Hid Had|]; subst.
  2:{ left. exists peer, identity. split_and!; try done. intros token (s & -> & Hb).
      destruct Hno as [|(s' & [= <-] & Hb')]; [done|congruence]. }
  right. assert (presented c (Some s) token) as Hpr by (by exists s).
  destruct (Hjudged verify token Hv Hpr) as (id & call & Hcall & Htok & Hnow' & Hdone). rewrite Hq in Hdone.
  destruct (answer_is_reference _ _ _ _ _ Hlen Hcall Hdone) as (i & ks & Hbe & Hks & Hans).
  symmetry in Hans. rewrite Htok, Hnow' in Hans.
  apply plain_verify_accepts in Hans as (h & kid & key & va & claims & now & Hh & _ & Hk & Hg & Halg & Hin & Hdec & Hsub & _ & _ & Hnow & Htime).
  destruct (built_validations config _ _ Hnew Hin) as (Hcfg & Hpub & -> & Hall).
  exists token, id, call, i, ks, h, kid, key, claims, now.
  rewrite Hnow in Htime. unfold check_time in Htime. rewrite Hcfg in Htime.
  destruct (Z.leb_spec (saturating_add64 (cl_exp claims) (jc_leeway_seconds config)) now); [done|].
  split_and!; try done. intros nbf Hn. rewrite Hn in Htime.
  destruct (Z.ltb_spec (saturating_add64 now (jc_leeway_seconds config)) nbf); [done|lia].
Qed.

(** C30: a key left out of the set is revoked at once.  If no key set current
    since a call began holds the key its token names, the call does not accept
    the token, however often that token was verified and cached before. *)
Theorem revoked_key_refused keys ops id call answer header kid :
  let w := jwt_run v ops (jwt_start keys) in
  len (jw_history w) ≤ u64_max →
  jw_calls w !! id = Some call → jl_phase call = Ph_done answer →
  decode_header (jl_token call) = Some header → hd_kid header = Some kid →
  (∀ (i : nat) ks, (jl_began call ≤ i)%nat → jw_history w !! i = Some ks → KeySet_get ks kid = None) →
  ∀ p, answer ≠ Ok p.
Proof.
  intros w Hl Hc Hd Hh Hk Hgone p ->.
  destruct (answer_is_reference _ _ _ _ _ Hl Hc Hd) as (i & ks & Hb & Hi & Hr). symmetry in Hr.
  apply plain_verify_accepts in Hr as (h & kid' & key & _ & _ & _ & Hh' & _ & Hk' & Hg & _).
  specialize (Hgone i ks Hb Hi). congruence.
Qed.

(** A published key set is taken whole or not at all: every key of it is kept,
    under its own id, with a public-key algorithm and, for RSA, a modulus of
    the least size. *)
Definition key_sound (key : VerificationKey) : Prop :=
  is_public_key_algorithm (vk_algorithm key) = true ∧
  ∀ n, rsa_modulus (vk_key key) = Some n → MIN_RSA_MODULUS_BITS ≤ modulus_bits n.

Lemma key_algorithm_public jwk a : key_algorithm jwk = Ok a → is_public_key_algorithm a = true.
Proof.
  unfold key_algorithm. destruct (jk_algorithm jwk) as [[]|[]| | |]; cbn [inferred_algorithm res_bind]; try done;
    (destruct (jk_key_algorithm jwk) as [[]|]; cbn; intros [= <-]; done).
Qed.

Lemma convert_one_ok keys jwk keys' :
  convert_one keys jwk = Ok keys' →
  ∃ kid key, jk_key_id jwk = Some kid ∧ keys !! kid = None ∧ keys' = <[kid := key]> keys ∧ key_sound key.
Proof.
  unfold convert_one. destruct (jk_key_id jwk) as [kid|]; [|done].
  destruct (key_algorithm jwk) as [a| |] eqn:Ea; [|done..]. cbn [map_err res_bind].
  destruct (from_material _ _) as [key|]; [|done]. unfold insert_key.
  assert ((∀ n, rsa_modulus key = Some n → MIN_RSA_MODULUS_BITS ≤ modulus_bits n) →
    key_sound (mkVerificationKey key a)) as Hk by (split; [by eapply key_algorithm_public|done]).
  destruct (rsa_modulus key) as [n|]; cbn [fmap option_fmap option_map].
  - destruct (Z.ltb_spec (modulus_bits n) MIN_RSA_MODULUS_BITS); [done|]. case_bool_decide as Hi; [done|].
    intros [= <-]. exists kid, (mkVerificationKey key a). split_and!; [done|by apply eq_None_not_Some|done|].
    apply Hk. by intros ? [= <-].
  - case_bool_decide as Hi; [done|]. intros [= <-]. exists kid, (mkVerificationKey key a).
    split_and!; [done|by apply eq_None_not_Some|done|]. by apply Hk.
Qed.

Lemma convert_all_mono set keys keys' kid :
  convert_all keys set = Ok keys' → is_Some (keys !! kid) → is_Some (keys' !! kid).
Proof.
  induction set as [|jwk set IH] in keys |- *; cbn [convert_all]; [by intros [= <-]|].
  destruct (convert_one keys jwk) as [keys1| |] eqn:E1; [|done..]. intros Hc Hs. eapply IH; [done|].
  apply convert_one_ok in E1 as (kid' & key & _ & _ & -> & _). by apply lookup_insert_is_Some'; right.
Qed.

Lemma convert_all_ok set keys keys' :
  convert_all keys set = Ok keys' → map_Forall (λ _, key_sound) keys →
  map_Forall (λ _, key_sound) keys' ∧ size keys' = (size keys + length set)%nat ∧
  ∀ jwk, jwk ∈ set → ∃ kid, jk_key_id jwk = Some kid ∧ is_Some (keys' !! kid).
Proof.
  induction set as [|jwk set IH] in keys |- *; cbn [convert_all].
  - intros [= <-] Hf. split_and!; [done|cbn; lia|]. intros ? []%elem_of_nil.
  - destruct (convert_one keys jwk) as [keys1| |] eqn:E1; [|done..]. cbn [res_bind]. intros Hc Hf.
    apply convert_one_ok in E1 as (kid & key & Hid & Hno & -> & Hk).
    destruct (IH _ Hc) as (H1 & H2 & H3); [by apply map_Forall_insert_2|].
    rewrite map_size_insert_None in H2 by done. split_and!; [done|cbn; lia|].
    intros j [->|Hj]%elem_of_cons; [|by apply H3]. exists kid. split; [done|].
    clear -Hc. eapply convert_all_mono; [done|]. rewrite lookup_insert_eq. done.
Qed.

(** The cache holds at most its capacity. *)
Lemma cache_bounded keys ops :
  Z.of_nat (size (ca_entries (jw_cache (jwt_run v ops (jwt_start keys))))) ≤
    Z.max 0 (jc_cache_capacity (jv_config v)).
Proof. apply ji_size, jwt_run_inv, jwt_start_inv. Qed.

(** A call is over after four of its own steps, whatever the others did in
    between. *)
Definition phases_left (p : Phase) : nat :=
  match p with Ph_generation _ _ => 4 | Ph_lookup _ _ _ => 3 | Ph_verify _ _ _ => 2 | Ph_store _ _ => 1 | Ph_done _ => 0 end.

Lemma phase_advances ks cache p :
  (phases_left (verify_phase v ks cache p).2 ≤ pred (phases_left p))%nat.
Proof.
  destruct p as [t n|t n g|t n g|t e|a]; cbn; try lia.
  - case_match; cbn; lia.
  - case_match; cbn; lia.
  - destruct (verify_uncached v ks t g) as [g' [[[p nb] ex]|e|]]; cbn; try lia.
    destruct (check_time v n nb ex); cbn; [case_match|..]; cbn; lia.
Qed.

End JwtCache.
