(* ===== verification/Proto.v ===== *)
(** The protobuf bytes of routing data (moonpool-rpc/src/interface/proto.rs).

    A writer appends to a [Sink]: the buffer, or the counter that only
    measures.  A reader is the bytes not read yet, as in [Cursor]; nested
    groups are skipped with fuel, and [skip_group_total] shows that the bytes
    left are fuel enough, so [Panic] is never reached. *)
From stdpp Require Import base list numbers.
From S2P Require Import Prelude Cursor.

(** ** Writing *)

Inductive WireType := WT_Varint | WT_Fixed64 | WT_Bytes.

Definition WireType_code (t : WireType) : Z :=
  match t with WT_Varint => 0 | WT_Fixed64 => 1 | WT_Bytes => 2 end.

Class Sink (K : Type) := put : list byte → K → K.

#[global] Instance Vec_sink : Sink (list byte) := λ bytes s, s ++ bytes.

Record Counter := mkCounter { counted_bytes : Z }.

#[global] Instance Counter_sink : Sink Counter := λ bytes c, mkCounter (counted_bytes c + len bytes).

(** Seven bits a byte, lowest first: a [u64] has at most ten groups, the size
    of the source's buffer, so nine turns of its loop reach the last. *)
Fixpoint varint_bytes (fuel : nat) (value : Z) : list byte :=
  match fuel with
  | S fuel =>
      if 0x80 <=? value
      then Z_to_byte (Z.lor (Z.land value 0x7f) 0x80) :: varint_bytes fuel (Z.shiftr value 7)
      else [Z_to_byte value]
  | O => [Z_to_byte value]
  end.

Section Writer.
Context `{Sink K}.

Definition put_varint (value : Z) (s : K) : K := put (varint_bytes 9 value) s.

Definition put_key (tag : Z) (t : WireType) (s : K) : K :=
  put_varint (Z.lor (Z.shiftl tag 3) (WireType_code t)) s.

Definition write_varint (tag value : Z) (s : K) : K :=
  if negb (value =? 0) then put_varint value (put_key tag WT_Varint s) else s.

Definition write_fixed64 (tag value : Z) (s : K) : K :=
  if negb (value =? 0) then put (to_le_bytes 8 value) (put_key tag WT_Fixed64 s) else s.

Definition write_bytes_field (tag : Z) (value : list byte) (s : K) : K :=
  match value with
  | [] => s
  | _ => put value (put_varint (len value) (put_key tag WT_Bytes s))
  end.
End Writer.

(** ** Reading *)

Inductive Value := V_Varint (v : Z) | V_Fixed64 (v : Z) | V_Bytes (b : list byte) | V_Other.

Inductive ProtoError :=
  | P_Truncated | P_InvalidVarint | P_InvalidKey | P_InvalidWireType | P_UnexpectedEndGroup | P_RecursionLimit.

Definition RECURSION_LIMIT : Z := 100.

(** The loop over the first [fuel] bytes; [None] when it ends without a
    value. *)
Fixpoint varint_loop (fuel : nat) (index value : Z) (rest : list byte) : option (res ProtoError (Z * list byte)) :=
  match fuel, rest with
  | S fuel, b :: rest =>
      let bits := Z.land (byte_to_Z b) 0x7f in
      if (index =? 9) && (1 <? bits) then Some (Err P_InvalidVarint) else
      let value := Z.lor value (Z.shiftl bits (7 * index)) in
      if Z.land (byte_to_Z b) 0x80 =? 0 then Some (Ok (value, rest)) else varint_loop fuel (index + 1) value rest
  | _, _ => None
  end.

Definition read_varint (r : list byte) : res ProtoError (Z * list byte) :=
  match varint_loop 10 0 0 r with
  | Some result => result
  | None => Err (if len r <? 10 then P_Truncated else P_InvalidVarint)
  end.

Definition proto_take (n : Z) (r : list byte) : res ProtoError (list byte * list byte) :=
  if len r <? n then Err P_Truncated else Ok (take (Z.to_nat n) r, drop (Z.to_nat n) r).

Definition read_key (r : list byte) : res ProtoError ((Z * Z) * list byte) :=
  let? '(key, r) := read_varint r in
  if 2 ^ 32 <=? key then Err P_InvalidKey else
  let tag := Z.shiftr key 3 in
  if tag =? 0 then Err P_InvalidKey else Ok ((tag, Z.land key 7), r).

(** [value], given how a group is skipped. *)
Definition value_with (skip : Z → Z → list byte → res ProtoError (list byte)) (tag wire_type depth : Z)
    (r : list byte) : res ProtoError (Value * list byte) :=
  match wire_type with
  | 0 => let? '(v, r) := read_varint r in Ok (V_Varint v, r)
  | 1 => let? '(b, r) := proto_take 8 r in Ok (V_Fixed64 (from_le_bytes b), r)
  | 2 => let? '(n, r) := read_varint r in let? '(b, r) := proto_take n r in Ok (V_Bytes b, r)
  | 3 => let? r := skip tag depth r in Ok (V_Other, r)
  | 4 => Err P_UnexpectedEndGroup
  | 5 => let? '(_, r) := proto_take 4 r in Ok (V_Other, r)
  | _ => Err P_InvalidWireType
  end.

(** One turn of the loop a unit of fuel, here or in a nested group. *)
Fixpoint skip_group (fuel : nat) (tag depth : Z) (r : list byte) : res ProtoError (list byte) :=
  match fuel with
  | O => Panic
  | S fuel =>
      if RECURSION_LIMIT <=? depth then Err P_RecursionLimit else
      match r with
      | [] => Err P_Truncated
      | _ =>
          let? '(key, r) := read_key r in
          let '(inner, wire_type) := key in
          if wire_type =? 4 then (if inner =? tag then Ok r else Err P_UnexpectedEndGroup) else
          let? '(_, r) := value_with (skip_group fuel) inner wire_type (depth + 1) r in
          skip_group fuel tag depth r
      end
  end.

Definition read_field (r : list byte) : res ProtoError (option ((Z * Value) * list byte)) :=
  match r with
  | [] => Ok None
  | _ =>
      let? '(key, r) := read_key r in
      let '(tag, wire_type) := key in
      let? '(v, r) := value_with (skip_group (S (length r))) tag wire_type 0 r in
      Ok (Some ((tag, v), r))
  end.

(** ** Varints *)

Lemma continued_byte r :
  0 ≤ r < 128 →
  Z.land (Z.lor r 0x80 mod 256) 0x7f = r ∧ (Z.land (Z.lor r 0x80 mod 256) 0x80 =? 0) = false.
Proof.
  intros Hr. assert (forallb (λ n, (Z.land (Z.lor (Z.of_nat n) 0x80 mod 256) 0x7f =? Z.of_nat n)
    && negb (Z.land (Z.lor (Z.of_nat n) 0x80 mod 256) 0x80 =? 0)) (seq 0 128) = true) as H by (vm_compute; done).
  rewrite forallb_forall in H. specialize (H (Z.to_nat r)). rewrite Z2Nat.id in H by lia.
  destruct (andb_prop _ _ (H ltac:(apply in_seq; lia))) as [H1 H2]. split; [lia|by apply negb_true_iff].
Qed.

Lemma last_byte r : 0 ≤ r < 128 → Z.land (r mod 256) 0x7f = r ∧ (Z.land (r mod 256) 0x80 =? 0) = true.
Proof.
  intros Hr. assert (forallb (λ n, (Z.land (Z.of_nat n mod 256) 0x7f =? Z.of_nat n)
    && (Z.land (Z.of_nat n mod 256) 0x80 =? 0)) (seq 0 128) = true) as H by (vm_compute; done).
  rewrite forallb_forall in H. specialize (H (Z.to_nat r)). rewrite Z2Nat.id in H by lia.
  destruct (andb_prop _ _ (H ltac:(apply in_seq; lia))) as [H1 H2]. split; [lia|done].
Qed.

Lemma low_high k v : 0 ≤ k → Z.lor (Z.land v (Z.ones k)) (Z.shiftl (Z.shiftr v k) k) = v.
Proof.
  intros Hk. apply Z.bits_inj'. intros n Hn. rewrite Z.lor_spec, Z.land_spec, Z.shiftl_spec by lia.
  destruct (decide (n < k)).
  - rewrite Z.ones_spec_low, (Z.testbit_neg_r _ (n - k)) by lia. by rewrite andb_true_r, orb_false_r.
  - rewrite Z.ones_spec_high, Z.shiftr_spec by lia. rewrite andb_false_r. cbn [orb]. f_equal. lia.
Qed.

Lemma low_high_shifted v k :
  0 ≤ k → Z.lor (Z.shiftl (Z.land v 0x7f) k) (Z.shiftl (Z.shiftr v 7) (k + 7)) = Z.shiftl v k.
Proof.
  intros Hk. rewrite (Z.add_comm k 7), <- Z.shiftl_shiftl by lia. rewrite <- Z.shiftl_lor.
  f_equal. by apply (low_high 7).
Qed.

Lemma varint_loop_bytes fuel index value v rest :
  Z.of_nat fuel + index = 9 → 0 ≤ index → 0 ≤ v < 2 ^ (64 - 7 * index) →
  varint_loop (S fuel) index value (varint_bytes fuel v ++ rest) =
    Some (Ok (Z.lor value (Z.shiftl v (7 * index)), rest)).
Proof.
  assert (∀ fuel index value v rest, 0 ≤ v < 128 → (index = 9 → v < 2) →
    varint_loop (S fuel) index value ([Z_to_byte v] ++ rest) =
      Some (Ok (Z.lor value (Z.shiftl v (7 * index)), rest))) as Hlast.
  { intros f i value' v' rest' Hv Hi. cbn [app varint_loop]. rewrite byte_to_Z_to_byte.
    destruct (last_byte v' Hv) as [-> ->]. destruct (Z.eqb_spec i 9); [|done].
    cbn [andb]. destruct (Z.ltb_spec 1 v'); [lia|done]. }
  induction fuel as [|fuel IH] in index, value, v |- *; intros Hf Hi Hv; cbn [varint_bytes].
  - apply Hlast; replace index with 9 in * by lia; cbn in Hv; lia.
  - destruct (Z.leb_spec 0x80 v).
    + assert (0 ≤ Z.land v 0x7f < 128) as Hr.
      { change 0x7f with (Z.ones 7). rewrite Z.land_ones by lia. apply Z.mod_pos_bound. lia. }
      cbn [app]. remember (S fuel) as f. cbn [varint_loop]. rewrite byte_to_Z_to_byte.
      destruct (continued_byte _ Hr) as [-> ->]. destruct (Z.eqb_spec index 9); [lia|]. cbn [andb]. subst f.
      rewrite IH; [|lia|lia|].
      * rewrite <- Z.lor_assoc. replace (7 * (index + 1)) with (7 * index + 7) by lia.
        rewrite low_high_shifted by lia. done.
      * rewrite Z.shiftr_div_pow2 by lia. split; [apply Z.div_pos; lia|]. apply Z.div_lt_upper_bound; [lia|].
        rewrite <- Z.pow_add_r by lia. replace (7 + _) with (64 - 7 * index) by lia. lia.
    + apply Hlast; lia.
Qed.

(** A varint reads back, whatever follows it. *)
Lemma read_varint_app v rest : u64 v → read_varint (varint_bytes 9 v ++ rest) = Ok (v, rest).
Proof.
  intros Hv. unfold read_varint. rewrite varint_loop_bytes; [|lia..|exact Hv].
  by rewrite Z.mul_0_r, Z.shiftl_0_r, Z.lor_0_l.
Qed.

(** ** Fields *)

Definition tag_ok (tag : Z) : Prop := 1 ≤ tag < 2 ^ 29.

Lemma key_parts tag t :
  let key := Z.lor (Z.shiftl tag 3) (WireType_code t) in
  Z.shiftr key 3 = tag ∧ Z.land key 7 = WireType_code t.
Proof.
  cbv zeta. split.
  - rewrite Z.shiftr_lor, Z.shiftr_shiftl_l by lia. rewrite Z.shiftl_0_r. destruct t; apply Z.lor_0_r.
  - rewrite Z.land_lor_distr_l. change 7 with (Z.ones 3). rewrite Z.land_ones, Z.shiftl_mul_pow2 by lia.
    rewrite Z.mod_mul by lia. by destruct t.
Qed.

Lemma key_bound tag t : tag_ok tag → 0 ≤ Z.lor (Z.shiftl tag 3) (WireType_code t) < 2 ^ 32.
Proof.
  intros Ht. destruct (key_parts tag t) as [Hs Hl]. cbv zeta in *. set (key := Z.lor _ _) in *.
  rewrite Z.shiftr_div_pow2 in Hs by lia. change 7 with (Z.ones 3) in Hl. rewrite Z.land_ones in Hl by lia.
  pose proof (Z.div_mod key (2 ^ 3) ltac:(lia)). rewrite Hs, Hl in *. unfold tag_ok in Ht.
  assert (0 ≤ WireType_code t ≤ 2) by (destruct t; cbn; lia). lia.
Qed.

Lemma read_key_app tag t rest :
  tag_ok tag → read_key (put_key tag t [] ++ rest) = Ok ((tag, WireType_code t), rest).
Proof.
  intros Ht. pose proof (key_bound tag t Ht) as Hb. destruct (key_parts tag t) as [Hs Hl]. cbv zeta in *.
  unfold read_key, put_key, put_varint, put, Vec_sink. rewrite app_nil_l, read_varint_app by (unfold in_u; lia).
  cbn [res_bind]. destruct (Z.leb_spec (2 ^ 32) (Z.lor (Z.shiftl tag 3) (WireType_code t))); [lia|].
  rewrite Hs, Hl. destruct (Z.eqb_spec tag 0); [unfold tag_ok in Ht; lia|done].
Qed.

Lemma proto_take_app b rest n : n = len b → proto_take n (b ++ rest) = Ok (b, rest).
Proof.
  intros ->. unfold proto_take. rewrite len_app. pose proof (len_nonneg rest). destruct (Z.ltb_spec (len b + len rest) (len b)); [lia|].
  unfold len. by rewrite Nat2Z.id, take_app_length, drop_app_length.
Qed.

(** The writers append. *)
Lemma put_key_app tag t (s : list byte) : put_key tag t s = s ++ put_key tag t [].
Proof. done. Qed.

Lemma write_varint_app tag v (s : list byte) : write_varint tag v s = s ++ write_varint tag v [].
Proof.
  unfold write_varint. destruct (negb _); [|by rewrite app_nil_r]. unfold put_varint, put, Vec_sink.
  by rewrite put_key_app, <- !app_assoc.
Qed.

Lemma write_fixed64_app tag v (s : list byte) : write_fixed64 tag v s = s ++ write_fixed64 tag v [].
Proof.
  unfold write_fixed64. destruct (negb _); [|by rewrite app_nil_r]. unfold put, Vec_sink.
  by rewrite put_key_app, <- !app_assoc.
Qed.

Lemma write_bytes_field_app tag b (s : list byte) : write_bytes_field tag b s = s ++ write_bytes_field tag b [].
Proof.
  unfold write_bytes_field. destruct b; [by rewrite app_nil_r|]. unfold put_varint, put, Vec_sink.
  by rewrite put_key_app, <- !app_assoc.
Qed.

(** [bytes] is one field: it reads as that field, whatever follows. *)
Definition is_field (bytes : list byte) (tag : Z) (v : Value) : Prop :=
  bytes ≠ [] ∧ ∀ rest, read_field (bytes ++ rest) = Ok (Some ((tag, v), rest)).

Lemma varint_bytes_nonempty fuel v : varint_bytes fuel v ≠ [].
Proof. destruct fuel; cbn; [done|]. by destruct (_ <=? _). Qed.

Lemma read_field_key tag t body :
  tag_ok tag →
  read_field (put_key tag t [] ++ body) =
    let? '(v, r) := value_with (skip_group (S (length body))) tag (WireType_code t) 0 body in
    Ok (Some ((tag, v), r)).
Proof.
  intros Ht. unfold read_field. destruct (put_key tag t [] ++ body) as [|b l] eqn:E.
  - apply app_nil in E as [E _]. unfold put_key, put_varint, put, Vec_sink in E. cbn [app] in E.
    by apply varint_bytes_nonempty in E.
  - by rewrite <- E, read_key_app.
Qed.

Lemma key_nonempty tag t (l : list byte) : put_key tag t [] ++ l ≠ [].
Proof. intros [E _]%app_nil. by apply varint_bytes_nonempty in E. Qed.

Lemma varint_is_field tag v : tag_ok tag → u64 v → v ≠ 0 → is_field (write_varint tag v []) tag (V_Varint v).
Proof.
  intros Ht Hv Hn. unfold write_varint. destruct (Z.eqb_spec v 0); [done|]. cbn [negb]. split; [apply key_nonempty|].
  intros rest. unfold put_varint, put, Vec_sink. rewrite <- app_assoc, read_field_key by done.
  cbn [WireType_code value_with]. by rewrite read_varint_app.
Qed.

Lemma fixed64_is_field tag v : tag_ok tag → u64 v → v ≠ 0 → is_field (write_fixed64 tag v []) tag (V_Fixed64 v).
Proof.
  intros Ht Hv Hn. unfold write_fixed64. destruct (Z.eqb_spec v 0); [done|]. cbn [negb]. split; [apply key_nonempty|].
  intros rest. unfold put, Vec_sink. rewrite <- app_assoc, read_field_key by done.
  cbn [WireType_code value_with]. rewrite proto_take_app by (by rewrite len_to_le_bytes). cbn [res_bind].
  by rewrite from_to_le_bytes_small.
Qed.

Lemma bytes_is_field tag b : tag_ok tag → b ≠ [] → u64 (len b) → is_field (write_bytes_field tag b []) tag (V_Bytes b).
Proof.
  intros Ht Hn Hl. destruct b as [|x b]; [done|]. unfold write_bytes_field. split.
  { unfold put, put_varint, put, Vec_sink. rewrite <- app_assoc. apply key_nonempty. }
  intros rest. unfold put_varint, put, Vec_sink. rewrite <- !app_assoc, read_field_key by done.
  cbn [WireType_code value_with]. rewrite read_varint_app by done. cbn [res_bind]. by rewrite proto_take_app.
Qed.

(** ** Reading ends *)

Lemma varint_loop_shorter fuel index value r v r' :
  varint_loop fuel index value r = Some (Ok (v, r')) → (length r' < length r)%nat.
Proof.
  induction fuel as [|fuel IH] in index, value, r |- *; [done|]. destruct r as [|b r]; [done|]. cbn [varint_loop length].
  destruct (_ && _); [done|]. destruct (_ =? 0); [intros [= _ <-]; lia|]. intros H%IH. lia.
Qed.

Lemma varint_loop_no_panic fuel index value r : varint_loop fuel index value r ≠ Some Panic.
Proof.
  induction fuel as [|fuel IH] in index, value, r |- *; [done|]. destruct r as [|b r]; [done|]. cbn [varint_loop].
  destruct (_ && _); [done|]. by destruct (_ =? 0).
Qed.

(** [m] does not panic, and leaves at most [n] bytes. *)
Definition leaves {A} (n : nat) (bytes : A → list byte) (m : res ProtoError A) : Prop :=
  match m with Ok a => (length (bytes a) ≤ n)%nat | Err _ => True | Panic => False end.

Lemma read_varint_leaves r : leaves (pred (length r)) snd (read_varint r).
Proof.
  unfold read_varint. destruct (varint_loop _ _ _ _) as [[[v r']|e|]|] eqn:E; cbn; [|done| |done].
  - apply varint_loop_shorter in E. lia.
  - by apply varint_loop_no_panic in E.
Qed.

Lemma proto_take_leaves n r : leaves (length r) snd (proto_take n r).
Proof. unfold proto_take. destruct (_ <? _); cbn; [done|]. rewrite length_drop. lia. Qed.

Lemma leaves_bind {A B} n n' (f : A → list byte) (g : B → list byte) m (k : A → res ProtoError B) :
  leaves n f m → (∀ a, (length (f a) ≤ n)%nat → leaves n' g (k a)) → leaves n' g (res_bind m k).
Proof. destruct m; cbn; auto. Qed.

Lemma read_key_leaves r : leaves (pred (length r)) snd (read_key r).
Proof.
  unfold read_key. eapply leaves_bind; [apply read_varint_leaves|]. intros [key r']. cbn [snd]. intros Hl.
  destruct (_ <=? _); [done|]. by destruct (_ =? _).
Qed.

Lemma value_with_leaves skip tag wire_type depth r :
  (∀ tag depth, leaves (length r) id (skip tag depth r)) →
  leaves (length r) snd (value_with skip tag wire_type depth r).
Proof.
  intros Hs. pose proof (read_varint_leaves r) as Hv.
  destruct wire_type as [|[[p|p|]|[p|[p|p|]|]|]|]; cbn [value_with]; try done.
  - eapply leaves_bind; [exact Hv|]. intros [v r']. cbn. lia.
  - destruct p; try done. eapply leaves_bind; [apply proto_take_leaves|]. intros [v r']. cbn. lia.
  - eapply leaves_bind; [apply Hs|]. intros r'. cbn. done.
  - eapply leaves_bind; [exact Hv|]. intros [v r']. cbn. intros Hl. eapply leaves_bind; [apply proto_take_leaves|].
    intros [b r'']. cbn. lia.
  - eapply leaves_bind; [apply proto_take_leaves|]. intros [v r']. cbn. lia.
Qed.

(** Skipping a group ends with the bytes left as fuel. *)
Lemma skip_group_total fuel tag depth r :
  (length r < fuel)%nat → leaves (length r) id (skip_group fuel tag depth r).
Proof.
  induction fuel as [|fuel IH] in tag, depth, r |- *; intros Hf; [lia|]. cbn [skip_group].
  destruct (_ <=? _); [done|]. destruct r as [|b r]; [done|]. set (r0 := b :: r) in *.
  eapply leaves_bind; [apply read_key_leaves|]. intros [[inner wire_type] r1]. cbn [snd]. intros H1. cbn [length pred r0] in H1.
  destruct (wire_type =? 4).
  { destruct (inner =? tag); [|done]. cbn. lia. }
  assert (length r1 < fuel)%nat as Hf1 by (cbn in Hf; lia).
  eapply leaves_bind; [apply value_with_leaves; intros; by apply IH|]. intros [v r2]. cbn [snd]. intros H2.
  pose proof (IH tag depth r2 ltac:(lia)) as H3. destruct (skip_group fuel tag depth r2); cbn in *; [lia|done..].
Qed.

(** Reading a field never panics, and takes a byte. *)
Lemma read_field_total r :
  match read_field r with
  | Ok (Some (_, r')) => (length r' < length r)%nat
  | Ok None => r = []
  | Err _ => True
  | Panic => False
  end.
Proof.
  unfold read_field. destruct r as [|b r]; [done|]. set (r0 := b :: r).
  assert (leaves (length r) (λ o : option ((Z * Value) * list byte), match o with Some (_, r') => r' | None => [] end)
    (let? '(key, r1) := read_key r0 in
     let '(tag, wire_type) := key in
     let? '(v, r2) := value_with (skip_group (S (length r1))) tag wire_type 0 r1 in Ok (Some ((tag, v), r2)))) as H.
  { eapply leaves_bind; [apply read_key_leaves|]. intros [[tag wire_type] r1]. cbn [snd length pred r0]. intros H1.
    eapply leaves_bind; [apply value_with_leaves; intros; by apply skip_group_total, Nat.lt_succ_diag_r|].
    intros [v r2]. cbn. lia. }
  destruct (read_key r0) as [[[tag wire_type] r1]|e|]; cbn [res_bind] in *; [|done..].
  destruct (value_with _ _ _ _ _) as [[v r2]|e|]; cbn in *; [lia|done..].
Qed.

(** ** Measuring *)

(** The counter has counted what the buffer holds. *)
Definition measures (s : list byte) (c : Counter) : Prop := counted_bytes c = len s.

Lemma measures_put bytes s c : measures s c → measures (put bytes s) (put bytes c).
Proof. unfold measures, put, Vec_sink, Counter_sink. cbn. intros ->. by rewrite len_app. Qed.

Lemma measures_start : measures [] (mkCounter 0).
Proof. done. Qed.

Create HintDb sink.
#[export] Hint Resolve measures_put measures_start : sink.

Lemma measures_key tag t s c : measures s c → measures (put_key tag t s) (put_key tag t c).
Proof. unfold put_key, put_varint. auto with sink. Qed.
#[export] Hint Resolve measures_key : sink.

Lemma measures_varint tag v s c : measures s c → measures (write_varint tag v s) (write_varint tag v c).
Proof. unfold write_varint, put_varint. destruct (negb _); auto with sink. Qed.

Lemma measures_fixed64 tag v s c : measures s c → measures (write_fixed64 tag v s) (write_fixed64 tag v c).
Proof. unfold write_fixed64. destruct (negb _); auto with sink. Qed.

Lemma measures_bytes tag b s c : measures s c → measures (write_bytes_field tag b s) (write_bytes_field tag b c).
Proof. unfold write_bytes_field, put_varint. destruct b; auto with sink. Qed.
#[export] Hint Resolve measures_varint measures_fixed64 measures_bytes : sink.
