(* ===== verification/Reference.v ===== *)
(** References as routing data (moonpool-rpc/src/interface/reference.rs):
    [ServiceRef] names one method of an endpoint, [InterfaceRef] a group; both
    are protobuf messages over [Proto], read by the shared decoder of
    [RefMessage].

    Fields are kept raw, as the source keeps them, so a malformed reference
    stays what it was.  A method is its four wire identifiers, an interface
    its two; the text of an error is a constructor with the values it prints. *)
From stdpp Require Import base list numbers.
From S2P Require Import Prelude Cursor Registry Proto.

(** ** Identities *)

Record MethodIdentity := mkMethod {
  mt_method : Z;
  mt_schema : Z;
  mt_request_codec : Z;
  mt_reply_codec : Z;
}.

Record InterfaceIdentity := mkInterface { if_interface : Z; if_version : Z }.

(** ** Messages *)

Inductive FieldKind := K_Varint | K_Fixed64 | K_Bytes.

Inductive DecodeError :=
  | DE_proto (e : ProtoError)
  | DE_wire_type (tag : Z)
  | DE_method (method schema request reply : Z)
  | DE_interface (interface version : Z)
  | DE_access (access : Z)
  | DE_address (octets : Z)
  | DE_no_address
  | DE_port (port : Z)
  | DE_generation (generation : Z).

(** The methods of [RefMessage] each message has, [apply] answering [None] for
    a wrong wire type. *)
Class RefMessage (M : Type) := {
  ref_default : M;
  encode_fields : ∀ {K : Type} {sink : Sink K}, M → K → K;
  field_kind : Z → option FieldKind;
  ref_apply : Z → Value → M → option M;
}.

Section Message.
Context `{RefMessage M}.

Definition to_proto (m : M) : list byte := encode_fields m [].

Definition proto_len (m : M) : Z := counted_bytes (encode_fields m (mkCounter 0)).

(** The decoder's loop, a field a unit of fuel. *)
Fixpoint decode_fields (fuel : nat) (m : M) (r : list byte) : res DecodeError M :=
  match fuel with
  | O => Panic
  | S fuel =>
      let? next := map_err DE_proto (read_field r) in
      match next with
      | None => Ok m
      | Some ((tag, v), r) =>
          match field_kind tag with
          | None => decode_fields fuel m r
          | Some _ =>
              match ref_apply tag v m with
              | Some m => decode_fields fuel m r
              | None => Err (DE_wire_type tag)
              end
          end
      end
  end.

Definition from_proto (bytes : list byte) : res DecodeError M := decode_fields (S (length bytes)) ref_default bytes.
End Message.

(** ** Routing *)

Inductive IpBytes := I_V4 (octets : list byte) | I_V6 (octets : list byte) | I_Invalid (bytes : list byte).

#[global] Instance IpBytes_eq_dec : EqDecision IpBytes.
Proof. solve_decision. Defined.

Definition IpBytes_default : IpBytes := I_Invalid [].

Definition from_ip (ip : IpAddr) : IpBytes := match ip with V4 o => I_V4 o | V6 o => I_V6 o end.

Definition from_slice (bytes : list byte) : IpBytes :=
  if len bytes =? 4 then I_V4 bytes else if len bytes =? 16 then I_V6 bytes else I_Invalid bytes.

Definition as_slice (i : IpBytes) : list byte := match i with I_V4 o | I_V6 o | I_Invalid o => o end.

Definition ip_of (i : IpBytes) : option IpAddr :=
  match i with I_V4 o => Some (V4 o) | I_V6 o => Some (V6 o) | I_Invalid _ => None end.

Module tags.
Definition ACCESS : Z := 5.
Definition INCARNATION_HIGH : Z := 6.
Definition INCARNATION_LOW : Z := 7.
Definition TOKEN_INDEX : Z := 8.
Definition TOKEN_GENERATION : Z := 9.
Definition IP : Z := 10.
Definition PORT : Z := 11.
End tags.

Record Routing := mkRouting {
  ro_access : Z;
  ro_incarnation_high : Z;
  ro_incarnation_low : Z;
  ro_index : Z;
  ro_generation : Z;
  ro_ip : IpBytes;
  ro_port : Z;
}.

Definition Routing_default : Routing := mkRouting 0 0 0 0 0 IpBytes_default 0.

Definition Routing_new (e : Endpoint) (access : AccessClass) : Routing :=
  mkRouting (AccessClass_to_byte access) (Z.shiftr (ep_incarnation e) 64) (Z.land (ep_incarnation e) u64_max)
    (et_index (ep_token e)) (et_generation (ep_token e)) (from_ip (sa_ip (ep_address e))) (sa_port (ep_address e)).

(** [uN::try_from] of a [u64]. *)
Definition narrow_to (bits v : Z) : option Z := if v <? 2 ^ bits then Some v else None.

Definition UNSPECIFIED : IpAddr := V4 [x00; x00; x00; x00]%byte.

Definition routing_endpoint (r : Routing) : Endpoint :=
  mkEndpoint (SocketAddr_new (default UNSPECIFIED (ip_of (ro_ip r))) (default 0 (narrow_to 16 (ro_port r))))
    (Z.lor (Z.shiftl (ro_incarnation_high r) 64) (ro_incarnation_low r))
    (from_parts (ro_index r) (default (2 ^ 32 - 1) (narrow_to 32 (ro_generation r)))).

Definition known_access (access : Z) : option AccessClass := let* b := narrow_to 8 access in AccessClass_from_byte b.

Definition routing_access (r : Routing) : AccessClass := default Private (known_access (ro_access r)).

Definition is_unspecified (ip : IpAddr) : bool :=
  match ip with V4 o | V6 o => forallb (λ b, byte_to_Z b =? 0) o end.

Definition routing_check (r : Routing) : res DecodeError unit :=
  match known_access (ro_access r) with
  | None => Err (DE_access (ro_access r))
  | Some _ =>
      match ip_of (ro_ip r) with
      | None => Err (DE_address (len (as_slice (ro_ip r))))
      | Some ip =>
          if is_unspecified ip then Err DE_no_address else
          match narrow_to 16 (ro_port r) with
          | None | Some 0 => Err (DE_port (ro_port r))
          | Some _ =>
              match narrow_to 32 (ro_generation r) with
              | None => Err (DE_generation (ro_generation r))
              | Some _ => Ok tt
              end
          end
      end
  end.

Definition routing_encode `{Sink K} (r : Routing) (s : K) : K :=
  write_varint tags.PORT (ro_port r)
    (write_bytes_field tags.IP (as_slice (ro_ip r))
      (write_varint tags.TOKEN_GENERATION (ro_generation r)
        (write_fixed64 tags.TOKEN_INDEX (ro_index r)
          (write_fixed64 tags.INCARNATION_LOW (ro_incarnation_low r)
            (write_fixed64 tags.INCARNATION_HIGH (ro_incarnation_high r)
              (write_varint tags.ACCESS (ro_access r) s)))))).

Definition routing_kind (tag : Z) : option FieldKind :=
  match tag with
  | 5 | 9 | 11 => Some K_Varint
  | 6 | 7 | 8 => Some K_Fixed64
  | 10 => Some K_Bytes
  | _ => None
  end.

Definition routing_apply (tag : Z) (v : Value) (r : Routing) : option Routing :=
  match tag, v with
  | 5, V_Varint raw => Some (mkRouting raw (ro_incarnation_high r) (ro_incarnation_low r) (ro_index r) (ro_generation r) (ro_ip r) (ro_port r))
  | 6, V_Fixed64 raw => Some (mkRouting (ro_access r) raw (ro_incarnation_low r) (ro_index r) (ro_generation r) (ro_ip r) (ro_port r))
  | 7, V_Fixed64 raw => Some (mkRouting (ro_access r) (ro_incarnation_high r) raw (ro_index r) (ro_generation r) (ro_ip r) (ro_port r))
  | 8, V_Fixed64 raw => Some (mkRouting (ro_access r) (ro_incarnation_high r) (ro_incarnation_low r) raw (ro_generation r) (ro_ip r) (ro_port r))
  | 9, V_Varint raw => Some (mkRouting (ro_access r) (ro_incarnation_high r) (ro_incarnation_low r) (ro_index r) raw (ro_ip r) (ro_port r))
  | 10, V_Bytes raw => Some (mkRouting (ro_access r) (ro_incarnation_high r) (ro_incarnation_low r) (ro_index r) (ro_generation r) (from_slice raw) (ro_port r))
  | 11, V_Varint raw => Some (mkRouting (ro_access r) (ro_incarnation_high r) (ro_incarnation_low r) (ro_index r) (ro_generation r) (ro_ip r) raw)
  | tag, _ => match routing_kind tag with Some _ => None | None => Some r end
  end.

(** ** Service references *)

Record ServiceRef := mkServiceRef {
  sr_method : Z;
  sr_schema : Z;
  sr_request_codec : Z;
  sr_reply_codec : Z;
  sr_interface : Z;
  sr_interface_version : Z;
  sr_routing : Routing;
}.

Module service_tags.
Definition METHOD : Z := 1.
Definition SCHEMA : Z := 2.
Definition REQUEST_CODEC : Z := 3.
Definition REPLY_CODEC : Z := 4.
Definition INTERFACE : Z := 12.
Definition INTERFACE_VERSION : Z := 13.
End service_tags.

Definition ServiceRef_new (m : MethodIdentity) (e : Endpoint) (access : AccessClass) : ServiceRef :=
  mkServiceRef (mt_method m) (mt_schema m) (mt_request_codec m) (mt_reply_codec m) 0 0 (Routing_new e access).

Definition in_interface (i : InterfaceIdentity) (m : MethodIdentity) (e : Endpoint) (access : AccessClass) : ServiceRef :=
  let r := ServiceRef_new m e access in
  mkServiceRef (sr_method r) (sr_schema r) (sr_request_codec r) (sr_reply_codec r)
    (if_interface i) (if_version i) (sr_routing r).

Definition service_interface (r : ServiceRef) : option (Z * Z) :=
  let* id := narrow_to 32 (sr_interface r) in
  let* version := narrow_to 16 (sr_interface_version r) in
  if negb (id =? 0) then Some (id, version) else None.

Definition ServiceRef_endpoint (r : ServiceRef) : Endpoint := routing_endpoint (sr_routing r).
Definition ServiceRef_access (r : ServiceRef) : AccessClass := routing_access (sr_routing r).

Definition ServiceRef_check (m : MethodIdentity) (r : ServiceRef) : res DecodeError unit :=
  if negb ((sr_method r =? mt_method m) && (sr_schema r =? mt_schema m)
           && (sr_request_codec r =? mt_request_codec m) && (sr_reply_codec r =? mt_reply_codec m))
  then Err (DE_method (sr_method r) (sr_schema r) (sr_request_codec r) (sr_reply_codec r))
  else if negb (bool_decide (is_Some (narrow_to 32 (sr_interface r))))
       || negb (bool_decide (is_Some (narrow_to 16 (sr_interface_version r))))
       || ((sr_interface r =? 0) && negb (sr_interface_version r =? 0))
  then Err (DE_interface (sr_interface r) (sr_interface_version r))
  else routing_check (sr_routing r).

Definition ServiceRef_default : ServiceRef := mkServiceRef 0 0 0 0 0 0 Routing_default.

Definition service_encode_fields {K} {sink : Sink K} (r : ServiceRef) (s : K) : K :=
  let s := write_varint service_tags.REPLY_CODEC (sr_reply_codec r)
    (write_varint service_tags.REQUEST_CODEC (sr_request_codec r)
      (write_varint service_tags.SCHEMA (sr_schema r)
        (write_varint service_tags.METHOD (sr_method r) s))) in
  write_varint service_tags.INTERFACE_VERSION (sr_interface_version r)
    (write_varint service_tags.INTERFACE (sr_interface r) (routing_encode (sr_routing r) s)).

Definition service_field_kind (tag : Z) : option FieldKind :=
  match tag with 1 | 2 | 3 | 4 | 12 | 13 => Some K_Varint | tag => routing_kind tag end.

Definition service_apply (tag : Z) (v : Value) (r : ServiceRef) : option ServiceRef :=
  let '(mkServiceRef method schema request reply interface version routing) := r in
  match tag, v with
  | 1, V_Varint raw => Some (mkServiceRef raw schema request reply interface version routing)
  | 2, V_Varint raw => Some (mkServiceRef method raw request reply interface version routing)
  | 3, V_Varint raw => Some (mkServiceRef method schema raw reply interface version routing)
  | 4, V_Varint raw => Some (mkServiceRef method schema request raw interface version routing)
  | 12, V_Varint raw => Some (mkServiceRef method schema request reply raw version routing)
  | 13, V_Varint raw => Some (mkServiceRef method schema request reply interface raw routing)
  | 1, _ | 2, _ | 3, _ | 4, _ | 12, _ | 13, _ => None
  | tag, v => mkServiceRef method schema request reply interface version <$> routing_apply tag v routing
  end.

#[global] Instance ServiceRef_message : RefMessage ServiceRef := {
  ref_default := ServiceRef_default;
  encode_fields := @service_encode_fields;
  field_kind := service_field_kind;
  ref_apply := service_apply;
}.

(** The strict decoder. *)
Definition ServiceRef_from_bytes (m : MethodIdentity) (bytes : list byte) : res DecodeError ServiceRef :=
  let? r := from_proto bytes in
  let? _ := ServiceRef_check m r in Ok r.

(** ** Interface references *)

Record InterfaceRef := mkInterfaceRef { ir_interface : Z; ir_version : Z; ir_routing : Routing }.

Definition InterfaceRef_new (i : InterfaceIdentity) (e : Endpoint) (access : AccessClass) : InterfaceRef :=
  mkInterfaceRef (if_interface i) (if_version i) (Routing_new e access).

Definition InterfaceRef_endpoint (r : InterfaceRef) : Endpoint := routing_endpoint (ir_routing r).
Definition InterfaceRef_access (r : InterfaceRef) : AccessClass := routing_access (ir_routing r).

Definition InterfaceRef_check (i : InterfaceIdentity) (r : InterfaceRef) : res DecodeError unit :=
  if negb ((ir_interface r =? if_interface i) && (ir_version r =? if_version i))
  then Err (DE_interface (ir_interface r) (ir_version r)) else routing_check (ir_routing r).

(** [InterfaceRef::method] *)
Definition adjust_method (i : InterfaceIdentity) (m : MethodIdentity) (r : InterfaceRef) : res DecodeError ServiceRef :=
  let? _ := InterfaceRef_check i r in Ok (in_interface i m (InterfaceRef_endpoint r) (InterfaceRef_access r)).

Definition interface_id (r : InterfaceRef) : option Z := narrow_to 32 (ir_interface r).

Definition InterfaceRef_default : InterfaceRef := mkInterfaceRef 0 0 Routing_default.

Definition interface_encode_fields {K} {sink : Sink K} (r : InterfaceRef) (s : K) : K :=
  routing_encode (ir_routing r) (write_varint 2 (ir_version r) (write_varint 1 (ir_interface r) s)).

Definition interface_field_kind (tag : Z) : option FieldKind :=
  match tag with 1 | 2 => Some K_Varint | tag => routing_kind tag end.

Definition interface_apply (tag : Z) (v : Value) (r : InterfaceRef) : option InterfaceRef :=
  let '(mkInterfaceRef interface version routing) := r in
  match tag, v with
  | 1, V_Varint raw => Some (mkInterfaceRef raw version routing)
  | 2, V_Varint raw => Some (mkInterfaceRef interface raw routing)
  | 1, _ | 2, _ => None
  | tag, v => mkInterfaceRef interface version <$> routing_apply tag v routing
  end.

#[global] Instance InterfaceRef_message : RefMessage InterfaceRef := {
  ref_default := InterfaceRef_default;
  encode_fields := @interface_encode_fields;
  field_kind := interface_field_kind;
  ref_apply := interface_apply;
}.

Definition InterfaceRef_from_bytes (i : InterfaceIdentity) (bytes : list byte) : res DecodeError InterfaceRef :=
  let? r := from_proto bytes in
  let? _ := InterfaceRef_check i r in Ok r.
