(* ===== verification/ReferenceSafe.v ===== *)
(** References survive their bytes: what is encoded is what is decoded, well
    formed or not, and what a server publishes is the endpoint a client
    reaches. *)
From stdpp Require Import base list numbers.
From S2P Require Import Prelude Cursor Registry Proto Reference.

(** ** Decoding, field by field *)

Section Decode.
Context `{RefMessage M}.

Lemma decode_fields_total fuel (m : M) r : (length r < fuel)%nat → decode_fields fuel m r ≠ Panic.
Proof.
  induction fuel as [|fuel IH] in m, r |- *; intros Hf; [lia|]. cbn [decode_fields].
  pose proof (read_field_total r) as Hr. destruct (read_field r) as [[[[tag v] r']|]|e|]; cbn [map_err res_bind]; try done.
  destruct (field_kind tag); [destruct (ref_apply tag v m); [|done]|]; apply IH; lia.
Qed.

(** More fuel changes nothing. *)
Lemma decode_fields_fuel fuel fuel' (m : M) r :
  (length r < fuel)%nat → (length r < fuel')%nat → decode_fields fuel m r = decode_fields fuel' m r.
Proof.
  induction fuel as [|fuel IH] in fuel', m, r |- *; intros Hf Hf'; [lia|]. destruct fuel' as [|fuel']; [lia|].
  cbn [decode_fields]. pose proof (read_field_total r) as Hr.
  destruct (read_field r) as [[[[tag v] r']|]|e|]; cbn [map_err res_bind]; try done.
  destruct (field_kind tag); [destruct (ref_apply tag v m); [|done]|]; apply IH; lia.
Qed.

Definition decode_from (m : M) (r : list byte) : res DecodeError M := decode_fields (S (length r)) m r.

Lemma decode_from_nil m : decode_from m [] = Ok m.
Proof. done. Qed.

Lemma decode_from_field bytes tag v m rest :
  is_field bytes tag v →
  decode_from m (bytes ++ rest) =
    match field_kind tag with
    | None => decode_from m rest
    | Some _ => match ref_apply tag v m with Some m' => decode_from m' rest | None => Err (DE_wire_type tag) end
    end.
Proof.
  intros [Hne Hf]. unfold decode_from at 1. cbn [decode_fields]. rewrite Hf. cbn [map_err res_bind].
  assert (length rest < length (bytes ++ rest))%nat.
  { rewrite length_app. destruct bytes; [done|]. cbn. lia. }
  destruct (field_kind tag); [destruct (ref_apply tag v m); [|done]|];
    unfold decode_from; apply decode_fields_fuel; lia.
Qed.

(** A written scalar sets its field, and a default leaves it. *)
Lemma decode_varint tag v m m' rest :
  tag_ok tag → u64 v → is_Some (field_kind tag) → ref_apply tag (V_Varint v) m = Some m' → (v = 0 → m' = m) →
  decode_from m (write_varint tag v [] ++ rest) = decode_from m' rest.
Proof.
  intros Ht Hv [k Hk] Ha H0. destruct (Z.eqb_spec v 0) as [->|Hn]; [by rewrite (H0 eq_refl)|].
  by rewrite (decode_from_field _ _ _ _ _ (varint_is_field tag v Ht Hv Hn)), Hk, Ha.
Qed.

Lemma decode_fixed64 tag v m m' rest :
  tag_ok tag → u64 v → is_Some (field_kind tag) → ref_apply tag (V_Fixed64 v) m = Some m' → (v = 0 → m' = m) →
  decode_from m (write_fixed64 tag v [] ++ rest) = decode_from m' rest.
Proof.
  intros Ht Hv [k Hk] Ha H0. destruct (Z.eqb_spec v 0) as [->|Hn]; [by rewrite (H0 eq_refl)|].
  by rewrite (decode_from_field _ _ _ _ _ (fixed64_is_field tag v Ht Hv Hn)), Hk, Ha.
Qed.

Lemma decode_bytes tag b m m' rest :
  tag_ok tag → u64 (len b) → is_Some (field_kind tag) → ref_apply tag (V_Bytes b) m = Some m' → (b = [] → m' = m) →
  decode_from m (write_bytes_field tag b [] ++ rest) = decode_from m' rest.
Proof.
  intros Ht Hv [k Hk] Ha H0. destruct (decide (b = [])) as [->|Hn]; [by rewrite (H0 eq_refl)|].
  by rewrite (decode_from_field _ _ _ _ _ (bytes_is_field tag b Ht Hn Hv)), Hk, Ha.
Qed.

(** Fields a newer peer may have added. *)
Inductive unknown_fields : list byte → Prop :=
  | unknown_none : unknown_fields []
  | unknown_more bytes tag v rest :
      is_field bytes tag v → field_kind tag = None → unknown_fields rest → unknown_fields (bytes ++ rest).

Lemma decode_unknown l m rest : unknown_fields l → decode_from m (l ++ rest) = decode_from m rest.
Proof.
  induction 1 as [|bytes tag v l Hf Hk Hl IH]; [done|]. by rewrite <- app_assoc, (decode_from_field _ _ _ _ _ Hf), Hk, IH.
Qed.
End Decode.

(** ** Well-formed values

    The ranges of the source's types. *)

Definition ip_bytes_wf (i : IpBytes) : Prop :=
  match i with
  | I_V4 o => len o = 4
  | I_V6 o => len o = 16
  | I_Invalid b => len b ≠ 4 ∧ len b ≠ 16 ∧ u64 (len b)
  end.

Record routing_wf (r : Routing) : Prop := {
  rw_access : u64 (ro_access r);
  rw_high : u64 (ro_incarnation_high r);
  rw_low : u64 (ro_incarnation_low r);
  rw_index : u64 (ro_index r);
  rw_generation : u64 (ro_generation r);
  rw_ip : ip_bytes_wf (ro_ip r);
  rw_port : u64 (ro_port r);
}.

Record service_wf (r : ServiceRef) : Prop := {
  sw_method : u64 (sr_method r);
  sw_schema : u64 (sr_schema r);
  sw_request : u64 (sr_request_codec r);
  sw_reply : u64 (sr_reply_codec r);
  sw_interface : u64 (sr_interface r);
  sw_version : u64 (sr_interface_version r);
  sw_routing : routing_wf (sr_routing r);
}.

Record interface_wf (r : InterfaceRef) : Prop := {
  iw_interface : u64 (ir_interface r);
  iw_version : u64 (ir_version r);
  iw_routing : routing_wf (ir_routing r);
}.

Lemma from_as_slice i :
  ip_bytes_wf i → from_slice (as_slice i) = i ∧ u64 (len (as_slice i)) ∧ (as_slice i = [] → i = IpBytes_default).
Proof.
  unfold from_slice. destruct i as [o|o|b]; cbn [ip_bytes_wf as_slice].
  - intros Hl. rewrite Hl. split_and!; [done|by unfold in_u|]. by intros ->.
  - intros Hl. rewrite Hl. split_and!; [done|by unfold in_u|]. by intros ->.
  - intros (H4 & H16 & Hb). rewrite (proj2 (Z.eqb_neq _ _) H4), (proj2 (Z.eqb_neq _ _) H16).
    split_and!; [done|done|by intros ->].
Qed.

(** ** Round trips *)

Lemma routing_encode_flat r (s : list byte) :
  routing_encode r s =
    s ++ write_varint 5 (ro_access r) [] ++ write_fixed64 6 (ro_incarnation_high r) [] ++
    write_fixed64 7 (ro_incarnation_low r) [] ++ write_fixed64 8 (ro_index r) [] ++
    write_varint 9 (ro_generation r) [] ++ write_bytes_field 10 (as_slice (ro_ip r)) [] ++ write_varint 11 (ro_port r) [].
Proof.
  unfold routing_encode.
  rewrite (write_varint_app tags.PORT), (write_bytes_field_app tags.IP), (write_varint_app tags.TOKEN_GENERATION),
    (write_fixed64_app tags.TOKEN_INDEX), (write_fixed64_app tags.INCARNATION_LOW),
    (write_fixed64_app tags.INCARNATION_HIGH), (write_varint_app tags.ACCESS).
  by rewrite <- !app_assoc.
Qed.

(** Decode one written field, naming the message it makes. *)
Tactic Notation "field_set" uconstr(lem) :=
  rewrite lem;
  [|by unfold tag_ok|done|first [by eexists|by match goal with H : ∀ _, _ → is_Some _ |- _ => apply H end]
   |first [done|by match goal with H : ∀ _ _ _, _ → ref_apply _ _ _ = _ |- _ => rewrite H end]|by intros ->].

Lemma routing_tags tag :
  5 ≤ tag ≤ 11 → tag = 5 ∨ tag = 6 ∨ tag = 7 ∨ tag = 8 ∨ tag = 9 ∨ tag = 10 ∨ tag = 11.
Proof. lia. Qed.

(** A message that holds its routing under [wrap]. *)
Lemma decode_routing `{RefMessage M} (wrap : Routing → M) r rest :
  (∀ tag v r, 5 ≤ tag ≤ 11 → ref_apply tag v (wrap r) = wrap <$> routing_apply tag v r) →
  (∀ tag, 5 ≤ tag ≤ 11 → field_kind tag = routing_kind tag) →
  routing_wf r → decode_from (wrap Routing_default) (routing_encode r [] ++ rest) = decode_from (wrap r) rest.
Proof.
  intros Ha Hk Hr. destruct r as [access high low index generation ip port]. destruct Hr as [H1 H2 H3 H4 H5 H6 H7].
  cbn in H1, H2, H3, H4, H5, H6, H7.
  destruct (from_as_slice ip H6) as (Hip & Hlen & Hnil).
  rewrite routing_encode_flat. cbn [ro_access ro_incarnation_high ro_incarnation_low ro_index ro_generation ro_ip ro_port].
  rewrite app_nil_l, <- !app_assoc.
  assert (∀ tag, 5 ≤ tag ≤ 11 → is_Some (field_kind tag)) as Hs.
  { intros tag Ht. rewrite Hk by lia. unfold routing_kind.
    destruct (routing_tags tag Ht) as [->|[->|[->|[->|[->|[->| ->]]]]]]; by eexists. }
  field_set (decode_varint 5 _ _ (wrap (mkRouting access 0 0 0 0 IpBytes_default 0))).
  field_set (decode_fixed64 6 _ _ (wrap (mkRouting access high 0 0 0 IpBytes_default 0))).
  field_set (decode_fixed64 7 _ _ (wrap (mkRouting access high low 0 0 IpBytes_default 0))).
  field_set (decode_fixed64 8 _ _ (wrap (mkRouting access high low index 0 IpBytes_default 0))).
  field_set (decode_varint 9 _ _ (wrap (mkRouting access high low index generation IpBytes_default 0))).
  rewrite (decode_bytes 10 _ _ (wrap (mkRouting access high low index generation ip 0)));
    [|by unfold tag_ok|done|by apply Hs|rewrite Ha by done; cbn; by rewrite Hip|by intros ->%Hnil].
  by field_set (decode_varint 11 _ _ (wrap (mkRouting access high low index generation ip port))).
Qed.

Lemma service_encode_flat r :
  to_proto r =
    write_varint 1 (sr_method r) [] ++ write_varint 2 (sr_schema r) [] ++ write_varint 3 (sr_request_codec r) [] ++
    write_varint 4 (sr_reply_codec r) [] ++ routing_encode (sr_routing r) [] ++
    write_varint 12 (sr_interface r) [] ++ write_varint 13 (sr_interface_version r) [].
Proof.
  unfold to_proto. cbn [encode_fields ServiceRef_message]. unfold service_encode_fields.
  rewrite (write_varint_app service_tags.INTERFACE_VERSION), (write_varint_app service_tags.INTERFACE),
    (routing_encode_flat _ (write_varint _ _ _)), <- (app_nil_l (write_varint 5 _ _ ++ _)), <- routing_encode_flat,
    (write_varint_app service_tags.REPLY_CODEC), (write_varint_app service_tags.REQUEST_CODEC),
    (write_varint_app service_tags.SCHEMA).
  by rewrite <- !app_assoc.
Qed.

Lemma decode_service r rest :
  service_wf r → decode_from ServiceRef_default (to_proto r ++ rest) = decode_from r rest.
Proof.
  intros Hr. destruct r as [method schema request reply interface version routing].
  destruct Hr as [H1 H2 H3 H4 H5 H6 H7]. cbn in H1, H2, H3, H4, H5, H6, H7. rewrite service_encode_flat.
  cbn [sr_method sr_schema sr_request_codec sr_reply_codec sr_interface sr_interface_version sr_routing]. rewrite <- !app_assoc.
  field_set (decode_varint 1 _ _ (mkServiceRef method 0 0 0 0 0 Routing_default)).
  field_set (decode_varint 2 _ _ (mkServiceRef method schema 0 0 0 0 Routing_default)).
  field_set (decode_varint 3 _ _ (mkServiceRef method schema request 0 0 0 Routing_default)).
  field_set (decode_varint 4 _ _ (mkServiceRef method schema request reply 0 0 Routing_default)).
  rewrite (decode_routing (mkServiceRef method schema request reply 0 0)); [| | |done].
  2,3: intros tag; intros; by destruct (routing_tags tag ltac:(done)) as [->|[->|[->|[->|[->|[->| ->]]]]]].
  field_set (decode_varint 12 _ _ (mkServiceRef method schema request reply interface 0 routing)).
  by field_set (decode_varint 13 _ _ (mkServiceRef method schema request reply interface version routing)).
Qed.

Lemma interface_encode_flat r :
  to_proto r = write_varint 1 (ir_interface r) [] ++ write_varint 2 (ir_version r) [] ++ routing_encode (ir_routing r) [].
Proof.
  unfold to_proto. cbn [encode_fields InterfaceRef_message]. unfold interface_encode_fields.
  rewrite (routing_encode_flat _ (write_varint _ _ _)), <- (app_nil_l (write_varint 5 _ _ ++ _)), <- routing_encode_flat,
    (write_varint_app 2). by rewrite <- !app_assoc.
Qed.

Lemma decode_interface r rest :
  interface_wf r → decode_from InterfaceRef_default (to_proto r ++ rest) = decode_from r rest.
Proof.
  intros Hr. destruct r as [interface version routing]. destruct Hr as [H1 H2 H3]. cbn in H1, H2, H3.
  rewrite interface_encode_flat. cbn [ir_interface ir_version ir_routing]. rewrite <- !app_assoc.
  field_set (decode_varint 1 _ _ (mkInterfaceRef interface 0 Routing_default)).
  field_set (decode_varint 2 _ _ (mkInterfaceRef interface version Routing_default)).
  rewrite (decode_routing (mkInterfaceRef interface version)); [done| | |done].
  all: intros tag; intros; by destruct (routing_tags tag ltac:(done)) as [->|[->|[->|[->|[->|[->| ->]]]]]].
Qed.

(** ** What the decoder makes *)

Definition value_wf (v : Value) : Prop :=
  match v with V_Varint n | V_Fixed64 n => u64 n | V_Bytes b => u64 (len b) | V_Other => True end.

Lemma lor_bound n a b : 0 ≤ n → 0 ≤ a < 2 ^ n → 0 ≤ b < 2 ^ n → 0 ≤ Z.lor a b < 2 ^ n.
Proof.
  intros Hn Ha Hb. split; [apply Z.lor_nonneg; lia|]. destruct (Z.eq_dec (Z.lor a b) 0) as [->|Hne]; [lia|].
  assert (0 < Z.lor a b) by (pose proof (proj2 (Z.lor_nonneg a b) ltac:(lia)); lia).
  apply Z.log2_lt_pow2; [done|]. rewrite Z.log2_lor by lia. apply Z.max_lub_lt.
  - destruct (Z.eq_dec a 0) as [->|]; [|apply Z.log2_lt_pow2; lia]. change (Z.log2 0) with 0. destruct (Z.eq_dec n 0) as [->|]; [|lia].
    replace b with 0 in * by lia. done.
  - destruct (Z.eq_dec b 0) as [->|]; [|apply Z.log2_lt_pow2; lia]. change (Z.log2 0) with 0. destruct (Z.eq_dec n 0) as [->|]; [|lia].
    replace a with 0 in * by lia. done.
Qed.

Lemma varint_loop_bound fuel index value r v r' :
  Z.of_nat fuel + index = 10 → 0 ≤ index → 0 ≤ value < 2 ^ (7 * index) →
  varint_loop fuel index value r = Some (Ok (v, r')) → u64 v.
Proof.
  induction fuel as [|fuel IH] in index, value, r |- *; [done|]. intros Hf Hi Hv.
  destruct r as [|b r]; [done|]. cbn [varint_loop]. set (bits := Z.land (byte_to_Z b) 0x7f).
  assert (0 ≤ bits < 2 ^ 7) as Hb.
  { subst bits. change 0x7f with (Z.ones 7). rewrite Z.land_ones by lia. by apply Z.mod_pos_bound. }
  assert (∀ k, 0 ≤ bits < 2 ^ k → 0 ≤ k → 0 ≤ Z.lor value (Z.shiftl bits (7 * index)) < 2 ^ (7 * index + k)) as Hl.
  { intros k Hbk Hk. apply lor_bound; [lia| |].
    - split; [lia|]. eapply Z.lt_le_trans; [apply Hv|]. apply Z.pow_le_mono_r; lia.
    - rewrite Z.shiftl_mul_pow2, Z.pow_add_r by lia. nia. }
  destruct (Z.eqb_spec index 9) as [->|Hne]; cbn [andb].
  - destruct (Z.ltb_spec 1 bits); [done|]. replace fuel with 0%nat by lia. destruct (_ =? 0); [|done].
    intros [= <- _]. apply (Hl 1); lia.
  - destruct (_ =? 0).
    + intros [= <- _]. specialize (Hl 7 Hb ltac:(lia)). split; [lia|]. eapply Z.lt_le_trans; [apply Hl|].
      apply Z.pow_le_mono_r; lia.
    + apply IH; [lia|lia|]. replace (7 * (index + 1)) with (7 * index + 7) by lia. apply Hl; lia.
Qed.

Lemma read_varint_u64 r v r' : read_varint r = Ok (v, r') → u64 v.
Proof.
  unfold read_varint. destruct (varint_loop _ _ _ _) as [x|] eqn:E; [|done]. intros ->.
  by eapply (varint_loop_bound 10 0 0) in E.
Qed.

Lemma proto_take_len n r b r' : 0 ≤ n → proto_take n r = Ok (b, r') → len b = n.
Proof.
  intros Hn. unfold proto_take. destruct (Z.ltb_spec (len r) n); [done|]. intros [= <- _].
  unfold len in *. rewrite length_take. lia.
Qed.

Lemma read_field_wf r tag v r' : read_field r = Ok (Some ((tag, v), r')) → value_wf v.
Proof.
  unfold read_field. destruct r as [|b r]; [done|]. destruct (read_key (b :: r)) as [[[t w] r1]|e|]; cbn [res_bind]; [|done..].
  destruct (value_with _ _ _ _ _) as [[v1 r2]|e|] eqn:E; cbn [res_bind]; [|done..]. intros [= _ <- _].
  unfold value_with in E. destruct w as [|[[p|p|]|[p|[p|p|]|]|]|]; try done.
  - destruct (read_varint r1) as [[n r3]|e|] eqn:Ev; [|done..]. injection E as <- _. by apply read_varint_u64 in Ev.
  - destruct p; try done. destruct (proto_take 4 r1) as [[n r3]|e|]; [|done..]. by injection E as <- _.
  - destruct (skip_group _ _ _ _); [|done..]. by injection E as <- _.
  - destruct (read_varint r1) as [[n r3]|e|] eqn:Ev; [|done..]. cbn in E. apply read_varint_u64 in Ev.
    destruct (proto_take n r3) as [[b2 r4]|e|] eqn:Et; [|done..]. injection E as <- _.
    apply proto_take_len in Et; [cbn; by rewrite Et|apply Ev].
  - destruct (proto_take 8 r1) as [[b2 r4]|e|] eqn:Et; [|done..]. injection E as <- _. apply proto_take_len in Et; [|done].
    pose proof (from_le_bytes_range b2) as Hr. rewrite Et in Hr. exact Hr.
Qed.

Lemma from_slice_wf b : u64 (len b) → ip_bytes_wf (from_slice b).
Proof. intros Hb. unfold from_slice. destruct (Z.eqb_spec (len b) 4); [done|]. by destruct (Z.eqb_spec (len b) 16). Qed.

Lemma routing_apply_wf tag v r r' : value_wf v → routing_wf r → routing_apply tag v r = Some r' → routing_wf r'.
Proof.
  intros Hv [] Ha. unfold routing_apply in Ha. repeat case_match; simplify_eq; try by constructor.
  constructor; try done. by apply from_slice_wf.
Qed.

Lemma service_apply_wf tag v r r' : value_wf v → service_wf r → service_apply tag v r = Some r' → service_wf r'.
Proof.
  intros Hv Hr Ha. destruct r as [a b c d e f ro]. destruct Hr as [? ? ? ? ? ? Hro]. cbn in *. unfold service_apply in Ha.
  assert (∀ t, mkServiceRef a b c d e f <$> routing_apply t v ro = Some r' → service_wf r') as Hrouting.
  { intros t. destruct (routing_apply t v ro) as [ro'|] eqn:E; [|done]. intros [= <-]. constructor; try done. by eapply routing_apply_wf. }
  repeat case_match; simplify_eq; first [by constructor|by eapply Hrouting].
Qed.

Lemma decode_service_wf fuel r bytes r' : service_wf r → decode_fields fuel r bytes = Ok r' → service_wf r'.
Proof.
  induction fuel as [|fuel IH] in r, bytes |- *; [done|]. intros Hr. cbn [decode_fields].
  destruct (read_field bytes) as [[[[tag v] rest]|]|e|] eqn:E; cbn [map_err res_bind]; try done; [|by intros [= <-]].
  apply read_field_wf in E. destruct (field_kind tag); [|by apply IH].
  destruct (ref_apply tag v r) as [r1|] eqn:Ea; [|done]. apply IH. by eapply service_apply_wf.
Qed.

Lemma service_default_wf : service_wf ServiceRef_default.
Proof. by repeat constructor. Qed.

(** *** Measured length *)

Lemma measures_routing r s c : measures s c → measures (routing_encode r s) (routing_encode r c).
Proof. unfold routing_encode. auto 10 with sink. Qed.
#[export] Hint Resolve measures_routing : sink.

Lemma service_proto_len (r : ServiceRef) : proto_len r = len (to_proto r).
Proof.
  assert (measures (to_proto r) (encode_fields r (mkCounter 0))) as H; [|exact H].
  unfold to_proto. cbn [encode_fields ServiceRef_message]. unfold service_encode_fields. auto 10 with sink.
Qed.

Lemma interface_proto_len (r : InterfaceRef) : proto_len r = len (to_proto r).
Proof.
  assert (measures (to_proto r) (encode_fields r (mkCounter 0))) as H; [|exact H].
  unfold to_proto. cbn [encode_fields InterfaceRef_message]. unfold interface_encode_fields. auto 10 with sink.
Qed.

(** ** Published references *)

Record method_wf (m : MethodIdentity) : Prop := {
  mw_method : u32 (mt_method m);
  mw_schema : u16 (mt_schema m);
  mw_request : u16 (mt_request_codec m);
  mw_reply : u16 (mt_reply_codec m);
}.

(** An endpoint, as its types have it: an address of four or sixteen octets
    and fields of their widths. *)
Record endpoint_wf (e : Endpoint) : Prop := {
  ew_ip : ip_wf (sa_ip (ep_address e));
  ew_port : u16 (sa_port (ep_address e));
  ew_incarnation : u128 (ep_incarnation e);
  ew_index : u64 (et_index (ep_token e));
  ew_generation : u32 (et_generation (ep_token e));
}.

(** Whether a client can connect to it: an address and a port are named.  A
    server bound to a wildcard address that advertises no other has one that
    is not. *)
Definition routable (e : Endpoint) : bool :=
  negb (is_unspecified (sa_ip (ep_address e))) && negb (sa_port (ep_address e) =? 0).

(** What of an endpoint a reference carries: not the flow label and the scope
    of an IPv6 address. *)
Definition routed (e : Endpoint) : Endpoint :=
  mkEndpoint (SocketAddr_new (sa_ip (ep_address e)) (sa_port (ep_address e)))
    (ep_incarnation e) (ep_token e).

Lemma routed_id e : sa_flowinfo (ep_address e) = 0 → sa_scope_id (ep_address e) = 0 → routed e = e.
Proof. destruct e as [[ip port flow scope] inc tok]. cbn. by intros -> ->. Qed.

Lemma narrow_to_small bits v : v < 2 ^ bits → narrow_to bits v = Some v.
Proof. intros H. unfold narrow_to. destruct (Z.ltb_spec v (2 ^ bits)); [done|lia]. Qed.

Lemma Routing_new_wf e access : endpoint_wf e → routing_wf (Routing_new e access).
Proof.
  intros [Hip Hport Hi Hx Hg]. unfold in_u in *. constructor; cbn; unfold in_u; try lia.
  - destruct access; cbn; lia.
  - rewrite Z.shiftr_div_pow2 by lia. split; [apply Z.div_pos; lia|]. apply Z.div_lt_upper_bound; [lia|].
    rewrite <- Z.pow_add_r by lia. apply Hi.
  - change u64_max with (Z.ones 64). rewrite Z.land_ones by lia. by apply Z.mod_pos_bound.
  - by destruct (sa_ip (ep_address e)).
Qed.

Lemma Routing_new_endpoint e access :
  endpoint_wf e →
  routing_endpoint (Routing_new e access) = routed e ∧ routing_access (Routing_new e access) = access.
Proof.
  intros [Hip Hport Hi Hx Hg]. destruct e as [[ip port flow scope] inc [index gen]]. cbn in *.
  unfold routing_endpoint, routing_access, known_access, routed.
  cbn [Routing_new ro_access ro_incarnation_high ro_incarnation_low ro_index ro_generation ro_ip ro_port ep_address sa_ip sa_port ep_incarnation ep_token et_index et_generation].
  rewrite (narrow_to_small 16 port), (narrow_to_small 32 gen) by (unfold in_u in *; lia).
  assert (ip_of (from_ip ip) = Some ip) as -> by (by destruct ip).
  assert (Z.lor (Z.shiftl (Z.shiftr inc 64) 64) (Z.land inc u64_max) = inc) as ->.
  { rewrite Z.lor_comm. by apply (low_high 64). }
  cbn [default]. split; [done|by destruct access].
Qed.

(** The routing part of a published reference passes the strict check exactly
    when the endpoint is routable. *)
Lemma Routing_new_check e access :
  endpoint_wf e →
  routing_check (Routing_new e access) =
    if routable e then Ok tt
    else Err (if is_unspecified (sa_ip (ep_address e)) then DE_no_address
              else DE_port (sa_port (ep_address e))).
Proof.
  intros [Hip Hport Hi Hx Hg]. destruct e as [[ip port flow scope] inc [index gen]]. cbn in *.
  unfold routing_check, known_access, routable.
  cbn [Routing_new ro_access ro_incarnation_high ro_incarnation_low ro_index ro_generation ro_ip ro_port ep_address sa_ip sa_port ep_incarnation ep_token et_index et_generation].
  rewrite (narrow_to_small 16 port), (narrow_to_small 32 gen) by (unfold in_u in *; lia).
  assert (ip_of (from_ip ip) = Some ip) as -> by (by destruct ip).
  destruct access; cbn; (destruct (is_unspecified ip); [done|]); by destruct port.
Qed.

Lemma service_from_proto r : service_wf r → from_proto (to_proto r) = Ok r.
Proof.
  intros Hr. change (from_proto ?l) with (decode_from ServiceRef_default l).
  by rewrite <- (app_nil_r (to_proto r)), decode_service.
Qed.

Lemma interface_from_proto r : interface_wf r → from_proto (to_proto r) = Ok r.
Proof.
  intros Hr. change (from_proto ?l) with (decode_from InterfaceRef_default l).
  by rewrite <- (app_nil_r (to_proto r)), decode_interface.
Qed.

(** The group's identifiers, or zeros for an endpoint of one method. *)
Definition group_wf (i : InterfaceIdentity) : Prop :=
  u32 (if_interface i) ∧ u16 (if_version i) ∧ (if_interface i = 0 → if_version i = 0).

Lemma in_interface_wf i m e access :
  group_wf i → method_wf m → endpoint_wf e → service_wf (in_interface i m e access).
Proof.
  intros (Hi & Hv & _) [] He. pose proof (Routing_new_wf e access He). unfold in_u in *.
  constructor; cbn; unfold in_u; first [done|lia].
Qed.

Lemma in_interface_check i m e access :
  group_wf i →
  ServiceRef_check m (in_interface i m e access) = routing_check (Routing_new e access).
Proof.
  intros (Hi & Hv & H0). unfold ServiceRef_check, in_interface, ServiceRef_new.
  cbn [sr_method sr_schema sr_request_codec sr_reply_codec sr_interface sr_interface_version sr_routing].
  rewrite !Z.eqb_refl. cbn [andb negb]. unfold in_u in *. rewrite (narrow_to_small 32), (narrow_to_small 16) by lia.
  destruct (Z.eqb_spec (if_interface i) 0) as [E|]; [rewrite (H0 E)|]; done.
Qed.

(** A client of another method refuses the reference. *)
Lemma other_method_refused m m' i e access :
  m' ≠ m → ∃ err, ServiceRef_check m' (in_interface i m e access) = Err err.
Proof.
  intros Hne. unfold ServiceRef_check. destruct (negb _) eqn:E in |- *; [by eexists|]. exfalso. apply Hne.
  apply negb_false_iff in E. rewrite !andb_true_iff, !Z.eqb_eq in E. destruct E as [[[E1 E2] E3] E4].
  destruct m', m. cbn in *. congruence.
Qed.

Lemma service_from_bytes m r :
  service_wf r → ServiceRef_from_bytes m (to_proto r) = let? _ := ServiceRef_check m r in Ok r.
Proof. intros Hr. unfold ServiceRef_from_bytes. by rewrite service_from_proto. Qed.

(** C33: a reference is its bytes.  Whatever bytes decode to a service reference,
    well formed or not, its own encoding decodes to the very same reference,
    also with fields a newer peer added before and after it: re-encoding
    neither loses nor repairs anything.  The length measured without encoding
    is the length of the encoding, and no bytes make the decoder panic. *)
Theorem reference_bytes_roundtrip bytes (r : ServiceRef) before after :
  from_proto bytes = Ok r → unknown_fields (M := ServiceRef) before → unknown_fields (M := ServiceRef) after →
  from_proto (before ++ to_proto r ++ after) = Ok r ∧ proto_len r = len (to_proto r) ∧
  (∀ other, from_proto (M := ServiceRef) other ≠ Panic).
Proof.
  intros Hd Hb Ha. apply decode_service_wf in Hd; [|apply service_default_wf].
  split_and!; [|apply service_proto_len|intros other; apply decode_fields_total; lia].
  change (from_proto ?l) with (decode_from ServiceRef_default l).
  rewrite (decode_unknown before) by done. rewrite decode_service by done.
  by rewrite <- (app_nil_r after), (decode_unknown after).
Qed.

(** C34: what a server publishes is what a client reaches, or what it refuses.
    The references a server makes for an endpoint, sent as bytes and decoded
    strictly: when the endpoint names an address and a port, the reference to
    a method decodes to one whose endpoint is the published one, less the flow
    label and scope of an IPv6 address (so exactly it when those are zero),
    with the published access class; a client of any other method, schema or
    codec refuses it; and a group's reference, decoded and adjusted to a
    method, is the reference the group itself gives out for that method.
    When the endpoint has the wildcard address or port 0, every one of these
    references is refused. *)
Theorem published_reference_reaches_endpoint m i e access :
  method_wf m → u32 (if_interface i) → u16 (if_version i) → if_interface i ≠ 0 → endpoint_wf e →
  (sa_flowinfo (ep_address e) = 0 → sa_scope_id (ep_address e) = 0 → routed e = e) ∧
  (∀ m', m' ≠ m → ∃ err, ServiceRef_from_bytes m' (to_proto (ServiceRef_new m e access)) = Err err) ∧
  if routable e then
    (∃ r, ServiceRef_from_bytes m (to_proto (ServiceRef_new m e access)) = Ok r ∧
          ServiceRef_endpoint r = routed e ∧ ServiceRef_access r = access ∧ service_interface r = None) ∧
    (∃ g, InterfaceRef_from_bytes i (to_proto (InterfaceRef_new i e access)) = Ok g ∧
          adjust_method i m g = Ok (in_interface i m e access)) ∧
    (∃ r, ServiceRef_from_bytes m (to_proto (in_interface i m e access)) = Ok r ∧
          ServiceRef_endpoint r = routed e ∧ service_interface r = Some (if_interface i, if_version i))
  else
    ∃ err, ServiceRef_from_bytes m (to_proto (ServiceRef_new m e access)) = Err err ∧
           InterfaceRef_from_bytes i (to_proto (InterfaceRef_new i e access)) = Err err ∧
           ServiceRef_from_bytes m (to_proto (in_interface i m e access)) = Err err.
Proof.
  intros Hm Hi Hv H0 He. destruct (Routing_new_endpoint e access He) as (Hend & Hacc).
  set (none := mkInterface 0 0). change (ServiceRef_new m e access) with (in_interface none m e access).
  assert (group_wf none) as Hn by done. assert (group_wf i) as Hg by (by split_and!).
  assert (InterfaceRef_from_bytes i (to_proto (InterfaceRef_new i e access)) =
    let? _ := routing_check (Routing_new e access) in Ok (InterfaceRef_new i e access)) as Hib.
  { unfold InterfaceRef_from_bytes. rewrite interface_from_proto; cbn [res_bind].
    - unfold InterfaceRef_check. cbn [InterfaceRef_new ir_interface ir_version ir_routing]. by rewrite !Z.eqb_refl.
    - unfold in_u in *. constructor; cbn; [unfold in_u; lia..|by apply Routing_new_wf]. }
  split; [apply routed_id|]. split.
  { intros m' Hne. rewrite service_from_bytes by (by apply in_interface_wf).
    destruct (other_method_refused m m' none e access Hne) as [err ->]. by exists err. }
  rewrite Hib, !service_from_bytes, !in_interface_check by (done || by apply in_interface_wf).
  pose proof (Routing_new_check e access He) as Hck. rewrite Hck in *.
  destruct (routable e); cbn [res_bind]; [|by eexists]. split_and!.
  - by eexists.
  - exists (InterfaceRef_new i e access). split; [done|]. unfold adjust_method, InterfaceRef_check.
    cbn [InterfaceRef_new ir_interface ir_version ir_routing]. rewrite !Z.eqb_refl. cbn [andb negb].
    rewrite Hck. cbn [res_bind]. unfold InterfaceRef_endpoint, InterfaceRef_access.
    cbn [ir_routing InterfaceRef_new]. by rewrite Hend, Hacc.
  - eexists. split; [done|]. split; [done|]. unfold service_interface, in_interface. cbn [sr_interface sr_interface_version].
    unfold in_u in *. rewrite (narrow_to_small 32), (narrow_to_small 16) by lia. cbn. by destruct (Z.eqb_spec (if_interface i) 0).
Qed.
