(* ===== verification/Balance.v ===== *)
(** Balancing, the parts a call is made of: distances (balance/locality.rs),
    pacing and permissions (policy.rs), selectors (hooks.rs) and the queue
    model with its reservations (model.rs), all in moonpool-rpc/src.

    Durations are nanoseconds and [f64] is the binary64 of [Peers]; [None] is a
    panic ([Duration::mul_f64] of a negative, NaN or too large product, an
    overflow of a counter).  A [Reservation] is its endpoint, its share of the
    outstanding work and its start; the list of the reservations held is part
    of the model's state, so giving one back consumes it. *)
From Stdlib Require Import SpecFloat.
From stdpp Require Import base list numbers gmap strings.
From S2P Require Import Prelude Cursor Status Wire Registry Connection Peers.

#[global] Instance IpAddr_countable : Countable IpAddr.
Proof.
  apply (inj_countable' (λ ip, match ip with V4 o => inl o | V6 o => inr o end)
           (λ x, match x with inl o => V4 o | inr o => V6 o end)).
  by intros [].
Defined.
#[global] Instance SocketAddr_countable : Countable SocketAddr.
Proof.
  apply (inj_countable' (λ a, (sa_ip a, sa_port a, sa_flowinfo a, sa_scope_id a))
           (λ '(ip, port, flow, scope), mkSocketAddr ip port flow scope)).
  by intros [].
Defined.
#[global] Instance Endpoint_countable : Countable Endpoint.
Proof.
  apply (inj_countable' (λ e, (ep_address e, ep_incarnation e, ep_token e))
           (λ '(a, i, t), mkEndpoint a i t)).
  by intros [].
Defined.

(** ** Floating point *)

(** A decimal literal. *)
Definition f64_ratio (n d : Z) : f64 := f64_div (f64_of_Z n) (f64_of_Z d).

Definition f64_is_finite (x : f64) : bool :=
  match x with S754_zero _ | S754_finite _ _ _ => true | _ => false end.

(** [f64::max] and [f64::min]: the other operand when one is NaN. *)
Definition f64_max (x y : f64) : f64 :=
  match x, y with
  | S754_nan, _ => y
  | _, S754_nan => x
  | _, _ => if SFltb x y then y else x
  end.

Definition f64_min (x y : f64) : f64 :=
  match x, y with
  | S754_nan, _ => y
  | _, S754_nan => x
  | _, _ => if SFltb y x then y else x
  end.

(** [total_cmp] of two values that are not NaN: -0.0 comes before 0.0. *)
Definition f64_total_cmp (x y : f64) : comparison :=
  match x, y with
  | S754_zero a, S754_zero b => if Bool.eqb a b then Eq else if a then Lt else Gt
  | _, _ => match SFcompare x y with Some c => c | None => Eq end
  end.

(** ** Distances *)

Record Locality := mkLocality { lo_machine : option string; lo_datacenter : option string }.

Inductive Distance := D_SameMachine | D_SameDatacenter | D_Distant.

Definition distance_to (l other : Locality) : Distance :=
  if bool_decide (is_Some (lo_machine l)) && bool_decide (lo_machine l = lo_machine other) then D_SameMachine
  else if bool_decide (is_Some (lo_datacenter l)) && bool_decide (lo_datacenter l = lo_datacenter other)
  then D_SameDatacenter
  else D_Distant.

(** The derived order. *)
Definition distance_rank (d : Distance) : Z :=
  match d with D_SameMachine => 0 | D_SameDatacenter => 1 | D_Distant => 2 end.

(** ** Pacing *)

Record Backoff := mkBackoff {
  bo_initial : Z;
  bo_max : Z;
  bo_growth : f64;
  bo_jitter : f64;
}.

Definition Backoff_next (b : Backoff) (current : Z) : option Z :=
  if current =? 0 then Some (Z.min (bo_initial b) (bo_max b)) else
  let* grown := mul_f64 current (f64_max (bo_growth b) (f64_of_Z 1)) in
  Some (Z.min (Z.max grown (bo_initial b)) (bo_max b)).

Definition Backoff_jittered (b : Backoff) (delay : Z) (draw : f64) : option Z :=
  let jitter :=
    f64_mul (f64_clamp (bo_jitter b) (f64_of_Z 0) (f64_of_Z 1)) (f64_clamp draw (f64_of_Z 0) (f64_of_Z 1)) in
  mul_f64 delay (f64_sub (f64_of_Z 1) jitter).

Definition Backoff_is_valid (b : Backoff) : bool :=
  f64_is_finite (bo_growth b) && SFleb (f64_of_Z 1) (bo_growth b) && f64_is_finite (bo_jitter b)
  && SFleb (f64_of_Z 0) (bo_jitter b) && SFleb (bo_jitter b) (f64_of_Z 1) && (bo_initial b <=? bo_max b).

(** ** Permissions *)

Inductive Retry := AtMostOnceRetry | AfterAmbiguous.

#[global] Instance Retry_eq_dec : EqDecision Retry.
Proof. solve_decision. Defined.

Record HedgeTiming := mkHedgeTiming { ht_base : Z; ht_instant_factor : f64 }.

Record DuplicatePolicy := mkDuplicatePolicy {
  dp_max_copies : Z;
  dp_hedge : option HedgeTiming;
  dp_compare_within : Z;
}.

Inductive Duplicates := Forbidden | Permitted (policy : DuplicatePolicy).

Definition duplicates_policy (d : Duplicates) : option DuplicatePolicy :=
  match d with Forbidden => None | Permitted p => Some p end.

Record BalancePolicy := mkBalancePolicy {
  bp_retry : Retry;
  bp_duplicates : Duplicates;
  bp_max_attempts : Z;
  bp_attempt_timeout : option Z;
}.

Definition HedgeTiming_default : HedgeTiming := mkHedgeTiming 500000 (f64_of_Z 2).

Definition DuplicatePolicy_default : DuplicatePolicy :=
  mkDuplicatePolicy 1 (Some HedgeTiming_default) (10 ^ 9).

Definition BalancePolicy_default : BalancePolicy := mkBalancePolicy AtMostOnceRetry Forbidden 4 None.

Definition at_most_once : BalancePolicy := BalancePolicy_default.

Definition idempotent : BalancePolicy :=
  mkBalancePolicy AfterAmbiguous (bp_duplicates BalancePolicy_default)
    (bp_max_attempts BalancePolicy_default) (bp_attempt_timeout BalancePolicy_default).

Definition hedged : BalancePolicy :=
  mkBalancePolicy (bp_retry BalancePolicy_default) (Permitted DuplicatePolicy_default)
    (bp_max_attempts BalancePolicy_default) (bp_attempt_timeout BalancePolicy_default).

(** ** The queue model *)

Record HedgeBudget := mkHedgeBudget { hb_initial : f64; hb_growth : f64; hb_max : f64 }.

Record ModelConfig := mkModelConfig {
  mc_initial_latency : Z;
  mc_hedge_budget : HedgeBudget;
  mc_multiplier_growth : f64;
  mc_multiplier_decay : f64;
  mc_exclusion : Backoff;
  mc_max_lagging : Z;
  mc_lagging_timeout : Z;
  mc_max_tracked_endpoints : Z;
}.

Definition HedgeBudget_default : HedgeBudget := mkHedgeBudget (f64_of_Z 0) (f64_ratio 5 100) (f64_of_Z 100).

Definition ModelConfig_default : ModelConfig :=
  mkModelConfig 1000000 HedgeBudget_default (f64_ratio 1 100) (f64_ratio 25 100000)
    (mkBackoff (10 ^ 9) (8 * 10 ^ 9) (f64_of_Z 2) (f64_ratio 25 100)) 256 (10 * 10 ^ 9) 4096.

Definition nonneg (x : f64) : bool := f64_is_finite x && SFleb (f64_of_Z 0) x.

Definition ModelConfig_validate (c : ModelConfig) : bool :=
  let budget := mc_hedge_budget c in
  nonneg (hb_initial budget) && nonneg (hb_growth budget) && nonneg (hb_max budget)
  && negb (SFltb (hb_max budget) (hb_initial budget))
  && nonneg (mc_multiplier_growth c) && nonneg (mc_multiplier_decay c)
  && Backoff_is_valid (mc_exclusion c)
  && negb (mc_max_lagging c =? 0) && negb (mc_max_tracked_endpoints c =? 0).

Record Feedback := mkFeedback { fb_penalty : option f64; fb_busy : option Z }.

Inductive ModelOutcome :=
  | MO_Clean (f : Feedback)
  | MO_Behind
  | MO_Overloaded (f : Feedback)
  | MO_Failed.

Record QueueData := mkQueueData {
  qd_outstanding : f64;
  qd_in_flight : Z;
  qd_latency : Z;
  qd_penalty : f64;
  qd_excluded_until : Z;
  qd_backoff : Z;
  qd_increase_backoff_at : Z;
  qd_busy : option (Z * Z);
  qd_last_used : Z;
}.

Definition QueueData_new (latency : Z) : QueueData :=
  mkQueueData (f64_of_Z 0) 0 latency (f64_of_Z 1) 0 0 0 None 0.

Record Reservation := mkReservation { rv_endpoint : Endpoint; rv_delta : f64; rv_started : Z }.

Record QueueModel := mkQueueModel {
  qm_data : gmap Endpoint QueueData;
  qm_tick : Z;
  qm_budget : f64;
  qm_multiplier : f64;
  qm_reservations : Z;
  qm_releases : Z;
  qm_dropped_releases : Z;
  qm_exclusions : Z;
  qm_copies_granted : Z;
  qm_copies_denied : Z;
  (** The reservations held by attempts in flight. *)
  qm_held : gmap nat Reservation;
}.

Definition QueueModel_new (c : ModelConfig) : option QueueModel :=
  if ModelConfig_validate c
  then Some (mkQueueModel ∅ 0 (hb_initial (mc_hedge_budget c)) (f64_of_Z 1) 0 0 0 0 0 0 ∅)
  else None.

Definition set_data (d : gmap Endpoint QueueData) (m : QueueModel) : QueueModel :=
  mkQueueModel d (qm_tick m) (qm_budget m) (qm_multiplier m) (qm_reservations m) (qm_releases m)
    (qm_dropped_releases m) (qm_exclusions m) (qm_copies_granted m) (qm_copies_denied m) (qm_held m).

Definition set_tick (t : Z) (m : QueueModel) : QueueModel :=
  mkQueueModel (qm_data m) t (qm_budget m) (qm_multiplier m) (qm_reservations m) (qm_releases m)
    (qm_dropped_releases m) (qm_exclusions m) (qm_copies_granted m) (qm_copies_denied m) (qm_held m).

Definition set_held_reservations (h : gmap nat Reservation) (m : QueueModel) : QueueModel :=
  mkQueueModel (qm_data m) (qm_tick m) (qm_budget m) (qm_multiplier m) (qm_reservations m) (qm_releases m)
    (qm_dropped_releases m) (qm_exclusions m) (qm_copies_granted m) (qm_copies_denied m) h.

(** [min_by_key] over the idle endpoints; every use has its own tick, so there
    are no ties. *)
Definition least_recent (best : option (Endpoint * Z)) (p : Endpoint * QueueData) : option (Endpoint * Z) :=
  if negb (qd_in_flight p.2 =? 0) then best else
  match best with
  | Some (e, used) => if qd_last_used p.2 <? used then Some (p.1, qd_last_used p.2) else best
  | None => Some (p.1, qd_last_used p.2)
  end.

Definition idle_endpoint (data : gmap Endpoint QueueData) : option Endpoint :=
  fst <$> foldl least_recent None (map_to_list data).

Definition touch_data (tick : Z) (d : QueueData) : QueueData :=
  mkQueueData (qd_outstanding d) (qd_in_flight d) (qd_latency d) (qd_penalty d) (qd_excluded_until d)
    (qd_backoff d) (qd_increase_backoff_at d) (qd_busy d) tick.

(** [State::entry]: the model, and the data the caller goes on to change. *)
Definition entry (c : ModelConfig) (e : Endpoint) (m : QueueModel) : QueueModel * QueueData :=
  let tick := wrap64 (qm_tick m + 1) in
  let data :=
    if negb (bool_decide (is_Some (qm_data m !! e)))
       && (mc_max_tracked_endpoints c <=? Z.of_nat (size (qm_data m)))
    then match idle_endpoint (qm_data m) with Some idle => delete idle (qm_data m) | None => qm_data m end
    else qm_data m in
  let d := touch_data tick (default (QueueData_new (mc_initial_latency c)) (data !! e)) in
  (set_tick tick (set_data (<[e := d]> data) m), d).

Record Measurement := mkMeasurement {
  me_outstanding : f64;
  me_in_flight : Z;
  me_latency : Z;
  me_penalty : f64;
  me_excluded_until : option Z;
  me_busy : option (Z * Z);
}.

Definition measurement (c : ModelConfig) (m : QueueModel) (e : Endpoint) (now : Z) : Measurement :=
  let d := default (QueueData_new (mc_initial_latency c)) (qm_data m !! e) in
  mkMeasurement (qd_outstanding d) (qd_in_flight d) (qd_latency d) (qd_penalty d)
    (if now <? qd_excluded_until d then Some (qd_excluded_until d) else None) (qd_busy d).

Definition bump_reservations (m : QueueModel) : QueueModel :=
  mkQueueModel (qm_data m) (qm_tick m) (qm_budget m) (qm_multiplier m) (wrap64 (qm_reservations m + 1))
    (qm_releases m) (qm_dropped_releases m) (qm_exclusions m) (qm_copies_granted m) (qm_copies_denied m) (qm_held m).

Definition set_load (outstanding : f64) (in_flight : Z) (d : QueueData) : QueueData :=
  mkQueueData outstanding in_flight (qd_latency d) (qd_penalty d) (qd_excluded_until d)
    (qd_backoff d) (qd_increase_backoff_at d) (qd_busy d) (qd_last_used d).

(** [reserve], by the attempt numbered [id]. *)
Definition model_reserve (c : ModelConfig) (id : nat) (e : Endpoint) (now : Z) (m : QueueModel) : QueueModel :=
  let '(m, d) := entry c e (bump_reservations m) in
  let d := set_load (f64_add (qd_outstanding d) (qd_penalty d)) ((qd_in_flight d + 1) mod 2 ^ 32) d in
  set_held_reservations (<[id := mkReservation e (qd_penalty d) now]> (qm_held m))
    (set_data (<[e := d]> (qm_data m)) m).

Definition MAX_PENALTY : f64 := f64_of_Z 1000.

Definition record_feedback (d : QueueData) (f : Feedback) (now : Z) : QueueData :=
  let penalty :=
    match fb_penalty f with
    | Some p => if f64_is_finite p && SFltb (f64_of_Z 0) p then f64_clamp p (f64_of_Z 1) MAX_PENALTY else qd_penalty d
    | None => qd_penalty d
    end in
  let busy := match fb_busy f with Some b => Some (b, now) | None => qd_busy d end in
  mkQueueData (qd_outstanding d) (qd_in_flight d) (qd_latency d) penalty (qd_excluded_until d)
    (qd_backoff d) (qd_increase_backoff_at d) busy (qd_last_used d).

Definition set_latency (latency : Z) (d : QueueData) : QueueData :=
  mkQueueData (qd_outstanding d) (qd_in_flight d) latency (qd_penalty d) (qd_excluded_until d)
    (qd_backoff d) (qd_increase_backoff_at d) (qd_busy d) (qd_last_used d).

Definition set_backoff (backoff at_ : Z) (d : QueueData) : QueueData :=
  mkQueueData (qd_outstanding d) (qd_in_flight d) (qd_latency d) (qd_penalty d) (qd_excluded_until d)
    backoff at_ (qd_busy d) (qd_last_used d).

Definition set_excluded (until : Z) (d : QueueData) : QueueData :=
  mkQueueData (qd_outstanding d) (qd_in_flight d) (qd_latency d) (qd_penalty d) until
    (qd_backoff d) (qd_increase_backoff_at d) (qd_busy d) (qd_last_used d).

Definition exclude (c : ModelConfig) (now : Z) (draw : f64) (d : QueueData) : option QueueData :=
  let* d :=
    if qd_increase_backoff_at d <=? now then
      let* backoff := Backoff_next (mc_exclusion c) (qd_backoff d) in
      Some (set_backoff backoff (now + backoff) d)
    else Some d in
  let* jittered := Backoff_jittered (mc_exclusion c) (qd_backoff d) draw in
  Some (set_excluded (now + jittered) d).

(** The outcome's effect, and whether the endpoint was excluded. *)
Definition model_apply (c : ModelConfig) (now : Z) (started : Z) (o : ModelOutcome) (draw : f64)
    (d : QueueData) : option (QueueData * bool) :=
  let sample := Z.max 0 (now - started) in
  match o with
  | MO_Clean f => Some (record_feedback (set_backoff 0 0 (set_latency sample d)) f now, false)
  | MO_Behind =>
      let* d := exclude c now draw (set_latency (Z.max (qd_latency d) sample) d) in Some (d, true)
  | MO_Overloaded f =>
      let* d := exclude c now draw (set_latency (Z.max (qd_latency d) sample) d) in
      Some (record_feedback d f now, true)
  | MO_Failed => Some (set_latency (Z.max (qd_latency d) sample) d, false)
  end.

Definition bump_releases (dropped excluded : bool) (m : QueueModel) : QueueModel :=
  mkQueueModel (qm_data m) (qm_tick m) (qm_budget m) (qm_multiplier m) (qm_reservations m)
    (wrap64 (qm_releases m + 1))
    (if dropped then wrap64 (qm_dropped_releases m + 1) else qm_dropped_releases m)
    (if excluded then wrap64 (qm_exclusions m + 1) else qm_exclusions m)
    (qm_copies_granted m) (qm_copies_denied m) (qm_held m).

(** [Reservation::finish]: [release] with an outcome, or a drop. *)
Definition finish_reservation (c : ModelConfig) (id : nat) (how : option (Z * ModelOutcome * f64))
    (m : QueueModel) : option QueueModel :=
  match qm_held m !! id with
  | None => Some m
  | Some r =>
      let m := set_held_reservations (delete id (qm_held m)) m in
      let '(m, d) := entry c (rv_endpoint r) m in
      let in_flight := Z.max 0 (qd_in_flight d - 1) in
      let outstanding :=
        if in_flight =? 0 then f64_of_Z 0 else f64_sub (qd_outstanding d) (rv_delta r) in
      let d := set_load outstanding in_flight d in
      match how with
      | None => Some (bump_releases true false (set_data (<[rv_endpoint r := d]> (qm_data m)) m))
      | Some (now, outcome, draw) =>
          let* res := model_apply c now (rv_started r) outcome draw d in
          Some (bump_releases false res.2 (set_data (<[rv_endpoint r := res.1]> (qm_data m)) m))
      end
  end.

Definition set_budget (budget multiplier : f64) (granted denied : Z) (m : QueueModel) : QueueModel :=
  mkQueueModel (qm_data m) (qm_tick m) budget multiplier (qm_reservations m) (qm_releases m)
    (qm_dropped_releases m) (qm_exclusions m) granted denied (qm_held m).

Definition try_take_copy (c : ModelConfig) (m : QueueModel) : QueueModel * bool :=
  if SFleb (f64_of_Z 1) (qm_budget m) then
    (set_budget (f64_sub (qm_budget m) (f64_of_Z 1)) (f64_add (qm_multiplier m) (mc_multiplier_growth c))
       (wrap64 (qm_copies_granted m + 1)) (qm_copies_denied m) m, true)
  else
    (set_budget (qm_budget m) (qm_multiplier m) (qm_copies_granted m) (wrap64 (qm_copies_denied m + 1)) m, false).

Definition first_response (c : ModelConfig) (m : QueueModel) : QueueModel :=
  set_budget (f64_min (f64_add (qm_budget m) (hb_growth (mc_hedge_budget c))) (hb_max (mc_hedge_budget c)))
    (f64_max (f64_sub (qm_multiplier m) (mc_multiplier_decay c)) (f64_of_Z 1))
    (qm_copies_granted m) (qm_copies_denied m) m.

(** ** Selectors *)

Record Candidate := mkCandidate {
  ct_index : nat;
  ct_distance : Distance;
  ct_available : bool;
  ct_excluded : bool;
  ct_penalty : f64;
  ct_outstanding : f64;
  ct_latency : Z;
  ct_busy : option (Z * Z);
}.

Definition BAD_PENALTY : f64 := f64_ratio 1001 1000.

Definition is_bad (c : Candidate) : bool :=
  negb (ct_available c) || ct_excluded c || SFltb BAD_PENALTY (ct_penalty c).

(** [cmp ... then ...]: the first that is not [Eq]. *)
Definition then_cmp (a b : comparison) : comparison := match a with Eq => b | _ => a end.

Definition rank_cmp (spill : bool) (a b : Candidate * Z) : comparison :=
  let tier := λ c, if spill then 0 else distance_rank (ct_distance c) in
  let avoid := λ c, if negb (ct_available c) || ct_excluded c then 1 else 0 in
  then_cmp (tier a.1 ?= tier b.1)
    (then_cmp (avoid a.1 ?= avoid b.1)
       (then_cmp (f64_total_cmp (ct_outstanding a.1) (ct_outstanding b.1)) (a.2 ?= b.2))).

(** [sort_by], stable. *)
Fixpoint insert_by {A} (cmp : A → A → comparison) (x : A) (l : list A) : list A :=
  match l with
  | [] => [x]
  | y :: l' => match cmp x y with Gt => y :: insert_by cmp x l' | _ => x :: l end
  end.

Definition sort_by {A} (cmp : A → A → comparison) (l : list A) : list A := foldr (insert_by cmp) [] l.

Definition nearest_rank (candidates : list Candidate) : option Z :=
  match candidates with
  | [] => None
  | c :: cs => Some (foldl (λ m c, Z.min m (distance_rank (ct_distance c))) (distance_rank (ct_distance c)) cs)
  end.

(** [QueueSelector::order]; [keys] are the tie breakers drawn. *)
Definition queue_order (max_bad_options : Z) (candidates : list Candidate) (keys : list Z) : list nat :=
  match nearest_rank candidates with
  | None => []
  | Some nearest =>
      let at_nearest := filter (λ c, distance_rank (ct_distance c) = nearest) candidates in
      let best := len at_nearest in
      let bad := len (filter (λ c, is_bad c = true) at_nearest) in
      let spill := Z.min best (max_bad_options + 1) <=? bad in
      (λ p, ct_index p.1) <$> sort_by (rank_cmp spill) (zip candidates keys)
  end.

Definition busy_weight (max_age : Z) (c : Candidate) : Z :=
  let busy :=
    match ct_busy c with
    | Some (score, age) => if age <=? max_age then score else 0
    | None => 0
    end in
  1000000 / (1 + busy).

(** The draw by weight: where the ticket falls, the last place by default. *)
Fixpoint ticket_place (ticket : Z) (pool : list (nat * Z)) : nat :=
  match pool with
  | [] | [_] => 0
  | (_, weight) :: pool =>
      let weight := Z.max weight 1 in
      if ticket <? weight then 0 else S (ticket_place (ticket - weight) pool)
  end.

(** [BusyScoreSelector::order]; a draw per place, each below its total. *)
Fixpoint busy_draws (draws : list Z) (pool : list (nat * Z)) : list nat :=
  match draws, pool with
  | ticket :: draws, _ :: _ =>
      let chosen := ticket_place ticket pool in
      match pool !! chosen with
      | Some (index, _) => index :: busy_draws draws (delete chosen pool)
      | None => []
      end
  | _, _ => []
  end.

Definition busy_order (max_age : Z) (candidates : list Candidate) (draws : list Z) : list nat :=
  busy_draws draws
    ((λ c, (ct_index c, busy_weight max_age c)) <$>
      filter (λ c, ct_available c = true ∧ ct_excluded c = false) candidates).

(** ** Reservations *)

Inductive ModelOp :=
  | M_reserve (id : nat) (e : Endpoint) (now : Z)
  | M_release (id : nat) (now : Z) (o : ModelOutcome) (draw : f64)
  | M_drop (id : nat)
  | M_take_copy
  | M_first_response.

(** A reservation is taken under a number never used before. *)
Definition model_step (c : ModelConfig) (o : ModelOp) (m : QueueModel) : option QueueModel :=
  match o with
  | M_reserve id e now =>
      if bool_decide (is_Some (qm_held m !! id)) then Some m else Some (model_reserve c id e now m)
  | M_release id now o draw => finish_reservation c id (Some (now, o, draw)) m
  | M_drop id => finish_reservation c id None m
  | M_take_copy => Some (try_take_copy c m).1
  | M_first_response => Some (first_response c m)
  end.

Fixpoint model_run (c : ModelConfig) (ops : list ModelOp) (m : QueueModel) : option QueueModel :=
  match ops with
  | [] => Some m
  | o :: ops => let* m := model_step c o m in model_run c ops m
  end.

(** The reservations held on an endpoint, and what the model counts. *)
Definition held_on (m : QueueModel) (e : Endpoint) : Z :=
  Z.of_nat (size (filter (λ p, rv_endpoint p.2 = e) (qm_held m))).

Definition counted (m : QueueModel) (e : Endpoint) : Z :=
  default 0 (qd_in_flight <$> qm_data m !! e).

Record model_ok (n : Z) (m : QueueModel) : Prop := {
  mo_counted : ∀ e, counted m e = held_on m e;
  mo_idle : ∀ e d, qm_data m !! e = Some d → qd_in_flight d = 0 → qd_outstanding d = f64_of_Z 0;
  mo_balance : qm_reservations m = qm_releases m + Z.of_nat (size (qm_held m));
  mo_releases : 0 ≤ qm_releases m;
  mo_bound : qm_reservations m ≤ n;
}.

Lemma least_recent_idle best p r :
  least_recent best p = Some r → best = Some r ∨ qd_in_flight p.2 = 0 ∧ r.1 = p.1.
Proof.
  unfold least_recent. destruct (Z.eqb_spec (qd_in_flight p.2) 0); cbn [negb]; [|by left].
  destruct best as [[e0 u]|]; [destruct (_ <? _)|]; intros [= <-]; [by right|by left|by right].
Qed.

Lemma idle_endpoint_idle data idle :
  idle_endpoint data = Some idle → ∃ d, data !! idle = Some d ∧ qd_in_flight d = 0.
Proof.
  unfold idle_endpoint. destruct (foldl _ _ _) as [r|] eqn:E; [|done]. intros [= <-].
  assert (∀ l best, foldl least_recent best l = Some r →
    best = Some r ∨ ∃ p, p ∈ l ∧ qd_in_flight p.2 = 0 ∧ r.1 = p.1) as H.
  { induction l as [|p l IH]; intros best; cbn; [by left|]. intros H%IH.
    destruct H as [H|(q & Hq & Hr)]; [apply least_recent_idle in H as [H|H]; [by left|]|];
      right; [exists p; split; [left|done]|exists q; split; [by right|done]]. }
  apply H in E as [E|([e' d] & Hin & Hi & He)]; [done|]. apply elem_of_map_to_list in Hin. cbn in *.
  rewrite He. by exists d.
Qed.

(** [entry] gives the endpoint's own data, and no other count changes. *)
Lemma entry_spec c e m :
  let '(m', d) := entry c e m in
  qd_in_flight d = counted m e ∧ qm_held m' = qm_held m ∧
  qm_data m' !! e = Some d ∧ (∀ e', counted m' e' = counted m e') ∧
  qm_reservations m' = qm_reservations m ∧ qm_releases m' = qm_releases m ∧
  ((∀ e d, qm_data m !! e = Some d → qd_in_flight d = 0 → qd_outstanding d = f64_of_Z 0) →
   ∀ e d, qm_data m' !! e = Some d → qd_in_flight d = 0 → qd_outstanding d = f64_of_Z 0).
Proof.
  unfold entry. set (data := if _ && _ then _ else qm_data m).
  assert (∀ e', default 0 (qd_in_flight <$> data !! e') = counted m e' ∧
    (∀ d, data !! e' = Some d → qm_data m !! e' = Some d)) as Hd.
  { subst data. intros e'. destruct (_ && _); [|done]. destruct (idle_endpoint _) as [idle|] eqn:Ei; [|done].
    apply idle_endpoint_idle in Ei as (d & Hd & H0). unfold counted. destruct (decide (e' = idle)) as [->|].
    - rewrite lookup_delete_eq, Hd. cbn. split; [by rewrite H0|done].
    - by rewrite lookup_delete_ne. }
  cbn [qm_data set_data set_tick qm_held qm_reservations qm_releases]. rewrite lookup_insert_eq.
  destruct (Hd e) as [He Hin]. split_and!; try done.
  - cbn. rewrite <- He. by destruct (data !! e).
  - intros e'. unfold counted at 1. cbn [qm_data set_data set_tick]. destruct (decide (e' = e)) as [->|].
    + rewrite lookup_insert_eq. cbn. rewrite <- He. by destruct (data !! e).
    + rewrite lookup_insert_ne by done. apply Hd.
  - intros Hz e' d Hl H0. destruct (decide (e' = e)) as [->|].
    + rewrite lookup_insert_eq in Hl. injection Hl as <-. cbn in *. destruct (data !! e) as [d|] eqn:E; [|done].
      by apply (Hz e d (Hin d eq_refl)).
    + rewrite lookup_insert_ne in Hl by done. apply (Hz e' d); [by apply Hd|done].
Qed.

Lemma held_insert m id r e :
  qm_held m !! id = None →
  Z.of_nat (size (filter (λ p, rv_endpoint p.2 = e) (<[id := r]> (qm_held m)))) =
    held_on m e + (if decide (rv_endpoint r = e) then 1 else 0).
Proof.
  intros Hn. unfold held_on. rewrite map_filter_insert. cbn. destruct (decide (rv_endpoint r = e)).
  - rewrite map_size_insert_None; [lia|]. by rewrite map_lookup_filter, Hn.
  - rewrite delete_id by done. lia.
Qed.

Lemma held_delete m id r e :
  qm_held m !! id = Some r →
  held_on m e = Z.of_nat (size (filter (λ p, rv_endpoint p.2 = e) (delete id (qm_held m)))) +
    (if decide (rv_endpoint r = e) then 1 else 0).
Proof.
  intros Hs. unfold held_on. rewrite <- (insert_delete_id (qm_held m) id r) at 1 by done. rewrite map_filter_insert. cbn.
  assert (delete id (qm_held m) !! id = None) as Hd by apply lookup_delete_eq.
  destruct (decide (rv_endpoint r = e)).
  - rewrite map_size_insert_None; [lia|]. by rewrite map_lookup_filter, Hd.
  - rewrite delete_id by done. lia.
Qed.

Lemma counted_set m e d e' :
  counted (set_data (<[e := d]> (qm_data m)) m) e' = if decide (e = e') then qd_in_flight d else counted m e'.
Proof.
  unfold counted. cbn. destruct (decide (e = e')) as [->|]; [by rewrite lookup_insert_eq|by rewrite lookup_insert_ne].
Qed.

Lemma reserve_ok c id e now m n :
  model_ok n m → n + 1 < 2 ^ 32 → qm_held m !! id = None → model_ok (n + 1) (model_reserve c id e now m).
Proof.
  intros [Hc Hz Hb Hr Hn] Hlt Hid. unfold model_reserve.
  pose proof (entry_spec c e (bump_reservations m)) as He.
  destruct (entry c e (bump_reservations m)) as [m' d]. destruct He as (Hf & Hheld & Hd & Hcnt & Hres & Hrel & Hidle).
  cbn in Hf, Hheld, Hcnt, Hres, Hrel, Hidle. change (counted (bump_reservations m)) with (counted m) in *.
  set (d' := set_load _ _ d). set (r := mkReservation e _ now). rewrite Hheld.
  assert (0 ≤ held_on m e ≤ Z.of_nat (size (qm_held m))) as Hle.
  { unfold held_on. split; [lia|]. apply Nat2Z.inj_le, map_subseteq_size, map_filter_subseteq. }
  assert ((qd_in_flight d + 1) mod 2 ^ 32 = held_on m e + 1) as Hmod by (rewrite Hf, Hc; apply Z.mod_small; lia).
  constructor; cbn.
  - intros e'. unfold held_on. cbn. rewrite held_insert by done. cbn.
    change (counted _ e') with (counted (set_data (<[e := d']> (qm_data m')) m') e'). rewrite counted_set, Hcnt, Hc.
    destruct (decide (e = e')) as [->|]; [cbn; lia|lia].
  - intros e' x Hl H0. destruct (decide (e' = e)) as [->|].
    + rewrite lookup_insert_eq in Hl. injection Hl as <-. cbn in H0. lia.
    + rewrite lookup_insert_ne in Hl by done. by apply (Hidle Hz e').
  - rewrite Hres, Hrel, map_size_insert_None by done. unfold wrap64. rewrite Z.mod_small; lia.
  - by rewrite Hrel.
  - rewrite Hres. unfold wrap64. rewrite Z.mod_small; lia.
Qed.

Lemma model_apply_load c now started o draw d d' b :
  model_apply c now started o draw d = Some (d', b) →
  qd_in_flight d' = qd_in_flight d ∧ qd_outstanding d' = qd_outstanding d.
Proof.
  assert (∀ d d', exclude c now draw d = Some d' →
    qd_in_flight d' = qd_in_flight d ∧ qd_outstanding d' = qd_outstanding d) as He.
  { intros x x'. unfold exclude. destruct (_ <=? _).
    - destruct (Backoff_next _ _) as [b1|]; [|done]. cbn. by destruct (Backoff_jittered _ _ _) as [j|]; [intros [= <-]|].
    - cbn. by destruct (Backoff_jittered _ _ _) as [j|]; [intros [= <-]|]. }
  unfold model_apply. destruct o as [f| |f|].
  - by intros [= <- <-].
  - destruct (exclude _ _ _ _) as [x|] eqn:E; [|done]. intros [= <- <-]. by apply He in E.
  - destruct (exclude _ _ _ _) as [x|] eqn:E; [|done]. intros [= <- <-]. by apply He in E.
  - by intros [= <- <-].
Qed.

Lemma finish_ok c id how m n m' :
  model_ok n m → n < 2 ^ 32 → finish_reservation c id how m = Some m' → model_ok n m'.
Proof.
  intros Hok Hlt. pose proof Hok as [Hc Hz Hb Hr Hn]. unfold finish_reservation.
  destruct (qm_held m !! id) as [r|] eqn:Er; [|by intros [= <-]].
  set (m0 := set_held_reservations (delete id (qm_held m)) m).
  pose proof (entry_spec c (rv_endpoint r) m0) as He.
  destruct (entry c (rv_endpoint r) m0) as [m1 d]. destruct He as (Hf & Hheld & Hd & Hcnt & Hres & Hrel & Hidle).
  change (counted m0) with (counted m) in *. cbn in Hheld, Hres, Hrel, Hidle.
  set (d0 := set_load _ _ d).
  assert (∀ dd b1 b2, qd_in_flight dd = qd_in_flight d0 → qd_outstanding dd = qd_outstanding d0 →
    model_ok n (bump_releases b1 b2 (set_data (<[rv_endpoint r := dd]> (qm_data m1)) m1))) as Hfin.
  { intros dd b1 b2 Hdf Hdo. pose proof (held_delete m id r (rv_endpoint r) Er) as Hh. rewrite decide_True in Hh by done.
    assert (size (qm_held m) = S (size (delete id (qm_held m)))) as Hsz.
    { rewrite map_size_delete_Some by done. destruct (size (qm_held m)) eqn:E; [|done].
      apply map_size_empty_inv in E. rewrite E, lookup_empty in Er. done. }
    constructor; cbn.
    - intros e'. unfold held_on. cbn. rewrite Hheld.
      change (counted _ e') with (counted (set_data (<[rv_endpoint r := dd]> (qm_data m1)) m1) e').
      rewrite counted_set, Hcnt, Hc, Hdf. pose proof (held_delete m id r e' Er).
      destruct (decide (rv_endpoint r = e')) as [<-|]; [cbn; rewrite Hf, Hc; lia|lia].
    - intros e' x Hl H0. destruct (decide (e' = rv_endpoint r)) as [->|].
      + rewrite lookup_insert_eq in Hl. injection Hl as <-. rewrite Hdo. rewrite Hdf in H0. cbn in *. by rewrite H0.
      + rewrite lookup_insert_ne in Hl by done. by apply (Hidle Hz e').
    - rewrite Hheld, Hres, Hrel. unfold wrap64. rewrite Z.mod_small; lia.
    - rewrite Hrel. unfold wrap64. rewrite Z.mod_small; lia.
    - by rewrite Hres. }
  destruct how as [[[now o] draw]|].
  - destruct (model_apply _ _ _ _ _ _) as [[dd b]|] eqn:Eo; [|done]. apply model_apply_load in Eo as [H1 H2].
    intros [= <-]. by apply Hfin.
  - intros [= <-]. by apply Hfin.
Qed.

Lemma model_run_ok c ops m n m' :
  model_ok n m → n + len ops < 2 ^ 32 → model_run c ops m = Some m' → model_ok (n + len ops) m'.
Proof.
  assert (∀ n n' m, model_ok n m → n ≤ n' → model_ok n' m) as Hw by (intros ? ? ? [] ?; constructor; [done..|lia]).
  induction ops as [|o ops IH] in m, n |- *; intros Hok Hlt; cbn [model_run].
  - intros [= <-]. eapply Hw; [done|]. unfold len. lia.
  - destruct (model_step c o m) as [m1|] eqn:E1; [|done]. cbn. intros Hrun. rewrite len_cons in *.
    replace (n + (1 + len ops)) with (n + 1 + len ops) by lia.
    apply (IH m1); [|lia|done]. assert (0 ≤ len ops) by (unfold len; lia).
    destruct o as [id e now|id now out draw|id| |]; cbn in E1.
    + case_bool_decide as Hs; injection E1 as <-; [by apply (Hw n); [|lia]|].
      apply reserve_ok; [done|lia|by apply eq_None_not_Some].
    + apply (Hw n); [by eapply (finish_ok c id _ m n); [|lia|]|lia].
    + apply (Hw n); [by eapply (finish_ok c id _ m n); [|lia|]|lia].
    + injection E1 as <-. unfold try_take_copy. destruct (SFleb _ _); (apply (Hw n); [|lia]); destruct Hok; by constructor.
    + injection E1 as <-. apply (Hw n); [|lia]. destruct Hok. by constructor.
Qed.

(** C32: every attempt's reservation is on the books until it is given back and
    no longer.  After any calls on the queue model (fewer than 2^32 of them)
    each endpoint's attempts in flight are exactly the reservations held on
    it, however many endpoints were forgotten to make room; an endpoint with
    none has no outstanding work, whatever the rounding of its sums; and the
    reservations ever taken are those released and those still held. *)
Theorem reservations_exact c ops m m' :
  QueueModel_new c = Some m → len ops < 2 ^ 32 → model_run c ops m = Some m' →
  (∀ e, counted m' e = held_on m' e) ∧
  (∀ e d, qm_data m' !! e = Some d → held_on m' e = 0 → qd_outstanding d = f64_of_Z 0) ∧
  qm_reservations m' = qm_releases m' + Z.of_nat (size (qm_held m')).
Proof.
  intros Hnew Hlt Hrun. assert (model_ok 0 m) as Hok.
  { unfold QueueModel_new in Hnew. destruct (ModelConfig_validate c); [|done]. injection Hnew as <-.
    by constructor. }
  destruct (model_run_ok c ops m 0 m' Hok ltac:(lia) Hrun) as [Hc Hz Hb _ _]. split_and!; [done| |done].
  intros e d Hd H0. apply (Hz e d Hd). rewrite <- H0, <- Hc. unfold counted. by rewrite Hd.
Qed.

(** A backoff that passes validation can still panic: its growth is any finite
    factor, and the product is taken before it is bounded. *)
Lemma valid_backoff_panics :
  let b := mkBackoff (10 ^ 9) (8 * 10 ^ 9) (f64_of_Z (10 ^ 30)) (f64_of_Z 0) in
  Backoff_is_valid b = true ∧ Backoff_next b 0 = Some (10 ^ 9) ∧ Backoff_next b (10 ^ 9) = None.
Proof. vm_compute. done. Qed.
