(* ===== verification/BalanceCall.v ===== *)
(** One balanced call (moonpool-rpc/src/balance/client.rs): its attempts, what
    they prove together, and how the call goes on after each.

    The call is an async function; here it is a state machine whose states are
    the points where it waits ([Where]) and whose inputs say what ended the
    wait: an attempt landed, a timer fired, the failure monitor changed.  What
    the call asks of the rest of the runtime at that moment comes with the
    input: what the monitor believes of each alternative and the selector's
    order ([View]), and whether the model's budget grants a copy.  A started
    attempt is a number in [pg_active]; its request, its reservation
    ([Balance]) and its reply are made and answered outside, as is the growth
    of the budget when an attempt lands alone.  A attempt_record leaves out the
    endpoint, which is its alternative's. *)
From stdpp Require Import base list numbers gmap strings.
From S2P Require Import Prelude Cursor Status Wire Registry Connection Peers Balance.

(** ** Attempts *)

Inductive AttemptKind := First | RetryAttempt | Hedge | ComparisonCopy.

#[global] Instance AttemptKind_eq_dec : EqDecision AttemptKind.
Proof. solve_decision. Defined.

Inductive Verdict := V_Accept (f : Feedback) | V_Behind | V_Overloaded (f : Feedback).

Inductive AttemptOutcome :=
  | A_Replied
  | A_Declined
  | A_Failed (e : RpcError)
  | A_Lagging.

Definition outcome_execution (o : AttemptOutcome) : Execution :=
  match o with
  | A_Replied | A_Declined => Executed
  | A_Failed e => execution e
  | A_Lagging => MaybeExecuted
  end.

Record AttemptRecord := mkAttemptRecord {
  at_alternative : nat;
  at_kind : AttemptKind;
  at_outcome : AttemptOutcome;
}.

Inductive BalanceFailure :=
  | BF_NoAlternatives
  | BF_StaleAlternatives
  | BF_AllAlternativesFailed
  | BF_Rejected (e : RpcError)
  | BF_Declined
  | BF_Comparison (detail : string)
  | BF_Shutdown.

(** The derived order of [Execution]. *)
Definition execution_rank (e : Execution) : Z :=
  match e with NotAdmitted => 0 | MaybeExecuted => 1 | Executed => 2 end.

Definition execution_max (a b : Execution) : Execution :=
  if execution_rank a <=? execution_rank b then b else a.

Definition effect (r : AttemptRecord) : Execution :=
  match at_outcome r with
  | A_Declined => NotAdmitted
  | other => outcome_execution other
  end.

Definition summarize (attempts : list AttemptRecord) : Execution :=
  foldl (λ m r, execution_max m (effect r)) NotAdmitted attempts.

Section Call.
Context {R : Type}.

(** The hooks: [compare] answers [None] when the replies agree. *)
Context (classify : R → Verdict).
Context (compare : R → option (R + RpcError) → option string).
Context (policy : BalancePolicy) (round_backoff : Backoff).

(** The number of alternatives of the call's set. *)
Context (alternatives : nat).

Record Active := mkActive {
  ac_alternative : nat;
  ac_kind : AttemptKind;
  ac_copies_before : Z;
}.

Record Comparison := mkComparison {
  co_alternative : nat;
  co_outcome : option (R + RpcError);
  co_accepted : bool;
}.

Record Progress := mkProgress {
  pg_active : list (nat * Active);
  pg_next_id : nat;
  pg_records : list AttemptRecord;
  pg_dead : gset nat;
  pg_tried : gset nat;
  pg_sequential : Z;
  pg_copies : Z;
  pg_backoff : Z;
  pg_hedge : bool;
  pg_comparison : option Comparison;
  pg_last : option BalanceFailure;
  pg_blocked : option RpcError;
  pg_probed : bool;
}.

Definition Progress_new : Progress :=
  mkProgress [] 0 [] ∅ ∅ 0 0 0 false None None None false.

Definition is_primary (a : Active) : bool :=
  match ac_kind a with ComparisonCopy => false | _ => true end.

Definition primaries (p : Progress) : nat := length (filter (λ x, is_primary x.2 = true) (pg_active p)).

Definition alternative_in_flight (p : Progress) (alternative : nat) : bool :=
  existsb (λ x, (ac_alternative x.2 =? alternative)%nat) (pg_active p).

Definition lagging_records (p : Progress) : list AttemptRecord :=
  (λ x, mkAttemptRecord (ac_alternative x.2) (ac_kind x.2) A_Lagging) <$> pg_active p.

(** ** Choosing *)

(** What the monitor and the selector say when asked. *)
Record View := mkView {
  vw_permanent : nat → bool;
  vw_available : nat → bool;
  vw_proposed : list nat;
}.

Inductive Choice := C_Dead | C_Unreachable | C_Ordered (order : list nat).

(** The indices in [l] not yet in [seen], each once. *)
Fixpoint fresh_indices (seen : gset nat) (l : list nat) : list nat :=
  match l with
  | [] => []
  | i :: l => if bool_decide (i ∈ seen) then fresh_indices seen l else i :: fresh_indices ({[i]} ∪ seen) l
  end.

Definition choose (dead : gset nat) (probe : bool) (view : View) : gset nat * Choice :=
  let gone := filter (λ i, (i ∉ dead) ∧ vw_permanent view i = true) (seq 0 alternatives) in
  let dead := dead ∪ list_to_set gone in
  let candidates := filter (λ i, i ∉ dead) (seq 0 alternatives) in
  if bool_decide (candidates = []) then (dead, C_Dead) else
  let usable := filter (λ i, (vw_available view i || probe) = true) candidates in
  let order := fresh_indices ∅ (filter (λ i, i ∈ usable) (vw_proposed view) ++ usable) in
  (dead, if bool_decide (order = []) then C_Unreachable else C_Ordered order).

(** ** Changes of a call's progress *)

Definition set_dead (d : gset nat) (p : Progress) : Progress :=
  mkProgress (pg_active p) (pg_next_id p) (pg_records p) d (pg_tried p) (pg_sequential p) (pg_copies p)
    (pg_backoff p) (pg_hedge p) (pg_comparison p) (pg_last p) (pg_blocked p) (pg_probed p).

Definition set_tried (t : gset nat) (p : Progress) : Progress :=
  mkProgress (pg_active p) (pg_next_id p) (pg_records p) (pg_dead p) t (pg_sequential p) (pg_copies p)
    (pg_backoff p) (pg_hedge p) (pg_comparison p) (pg_last p) (pg_blocked p) (pg_probed p).

Definition set_sequential (s : Z) (p : Progress) : Progress :=
  mkProgress (pg_active p) (pg_next_id p) (pg_records p) (pg_dead p) (pg_tried p) s (pg_copies p)
    (pg_backoff p) (pg_hedge p) (pg_comparison p) (pg_last p) (pg_blocked p) (pg_probed p).

Definition set_copies (c : Z) (p : Progress) : Progress :=
  mkProgress (pg_active p) (pg_next_id p) (pg_records p) (pg_dead p) (pg_tried p) (pg_sequential p) c
    (pg_backoff p) (pg_hedge p) (pg_comparison p) (pg_last p) (pg_blocked p) (pg_probed p).

Definition set_round (b : Z) (p : Progress) : Progress :=
  mkProgress (pg_active p) (pg_next_id p) (pg_records p) (pg_dead p) (pg_tried p) (pg_sequential p) (pg_copies p)
    b (pg_hedge p) (pg_comparison p) (pg_last p) (pg_blocked p) (pg_probed p).

Definition set_hedge (h : bool) (p : Progress) : Progress :=
  mkProgress (pg_active p) (pg_next_id p) (pg_records p) (pg_dead p) (pg_tried p) (pg_sequential p) (pg_copies p)
    (pg_backoff p) h (pg_comparison p) (pg_last p) (pg_blocked p) (pg_probed p).

Definition set_comparison (c : option Comparison) (p : Progress) : Progress :=
  mkProgress (pg_active p) (pg_next_id p) (pg_records p) (pg_dead p) (pg_tried p) (pg_sequential p) (pg_copies p)
    (pg_backoff p) (pg_hedge p) c (pg_last p) (pg_blocked p) (pg_probed p).

Definition set_last_failure (l : option BalanceFailure) (p : Progress) : Progress :=
  mkProgress (pg_active p) (pg_next_id p) (pg_records p) (pg_dead p) (pg_tried p) (pg_sequential p) (pg_copies p)
    (pg_backoff p) (pg_hedge p) (pg_comparison p) l (pg_blocked p) (pg_probed p).

Definition set_blocked (b : option RpcError) (p : Progress) : Progress :=
  mkProgress (pg_active p) (pg_next_id p) (pg_records p) (pg_dead p) (pg_tried p) (pg_sequential p) (pg_copies p)
    (pg_backoff p) (pg_hedge p) (pg_comparison p) (pg_last p) b (pg_probed p).

Definition set_probed (b : bool) (p : Progress) : Progress :=
  mkProgress (pg_active p) (pg_next_id p) (pg_records p) (pg_dead p) (pg_tried p) (pg_sequential p) (pg_copies p)
    (pg_backoff p) (pg_hedge p) (pg_comparison p) (pg_last p) (pg_blocked p) b.

Definition set_active (a : list (nat * Active)) (n : nat) (p : Progress) : Progress :=
  mkProgress a n (pg_records p) (pg_dead p) (pg_tried p) (pg_sequential p) (pg_copies p)
    (pg_backoff p) (pg_hedge p) (pg_comparison p) (pg_last p) (pg_blocked p) (pg_probed p).

Definition push_record (r : AttemptRecord) (p : Progress) : Progress :=
  mkProgress (pg_active p) (pg_next_id p) (pg_records p ++ [r]) (pg_dead p) (pg_tried p) (pg_sequential p)
    (pg_copies p) (pg_backoff p) (pg_hedge p) (pg_comparison p) (pg_last p) (pg_blocked p) (pg_probed p).

(** [start]: the new attempt's number is the next one. *)
Definition start (alternative : nat) (kind : AttemptKind) (copies_before : Z) (p : Progress) : Progress :=
  set_active (pg_active p ++ [(pg_next_id p, mkActive alternative kind copies_before)]) (S (pg_next_id p)) p.

(** What an input says of the budget and of the hooks. *)
Record Grants := mkGrants { gr_wants_comparison : bool; gr_comparison : bool; gr_hedge : bool }.

(** The comparison copy's part of [arm_copies], then the hedge timer's. *)
Definition arm_comparison (grants : Grants) (copies : DuplicatePolicy) (order : list nat) (target : nat)
    (p : Progress) : Progress :=
  match List.find (λ i, negb (i =? target)%nat) order with
  | Some second =>
      if (pg_copies p <? dp_max_copies copies) && gr_wants_comparison grants && gr_comparison grants then
        let p := set_tried ({[second]} ∪ pg_tried p) (set_copies (pg_copies p + 1) p) in
        set_comparison (Some (mkComparison second None false)) (start second ComparisonCopy (pg_copies p) p)
      else p
  | None => p
  end.

Definition arm_copies (grants : Grants) (order : list nat) (target : nat) (p : Progress) : Progress :=
  match duplicates_policy (bp_duplicates policy) with
  | None => p
  | Some copies =>
      let p := arm_comparison grants copies order target p in
      match dp_hedge copies with
      | Some _ =>
          if (pg_copies p <? dp_max_copies copies) && existsb (λ i, negb (bool_decide (i ∈ pg_tried p))) order
          then set_hedge true p else p
      | None => p
      end
  end.

(** The hedge timer fired. *)
Definition hedge (view : View) (grants : Grants) (p : Progress) : Progress :=
  match duplicates_policy (bp_duplicates policy) with
  | None => p
  | Some copies =>
      if (dp_max_copies copies <=? pg_copies p) || bool_decide (is_Some (pg_blocked p)) then p else
      let '(dead, choice) := choose (pg_dead p) false view in
      let p := set_dead dead p in
      match choice with
      | C_Ordered order =>
          match List.find (λ i, negb (alternative_in_flight p i) && negb (bool_decide (i ∈ pg_tried p))) order with
          | Some target =>
              if gr_hedge grants then
                let p := set_tried ({[target]} ∪ pg_tried p) (set_copies (pg_copies p + 1) p) in
                start target Hedge (pg_copies p) p
              else p
          | None => p
          end
      | _ => p
      end
  end.

(** ** Where a call waits *)

Inductive Where :=
  | W_top
  | W_reachable
  | W_sleep
  | W_event
  | W_compare (reply : R) (alternative : nat)
  | W_done (result : R * nat + BalanceFailure).

(** Start the best alternative not tried yet, or begin a new round after a
    pause. *)
Definition attempt_next (grants : Grants) (order : list nat) (p : Progress) : option (Where * Progress) :=
  match List.find (λ i, negb (bool_decide (i ∈ pg_tried p))) order with
  | None =>
      let* backoff := Backoff_next round_backoff (pg_backoff p) in
      Some (W_sleep, set_round backoff (set_tried ∅ p))
  | Some target =>
      let kind := if pg_sequential p =? 0 then First else RetryAttempt in
      let p := set_tried ({[target]} ∪ pg_tried p) (set_sequential (pg_sequential p + 1) p) in
      let p := start target kind (pg_copies p) p in
      Some (W_event, match kind with First => arm_copies grants order target p | _ => p end)
  end.

(** One turn of the loop of [next_attempt], up to its first wait. *)
Definition next_attempt (view : View) (grants : Grants) (p : Progress) : option (Where * Progress) :=
  match pg_blocked p with
  | Some blocked => Some (W_done (inr (BF_Rejected blocked)), set_blocked None p)
  | None =>
      if Z.max (bp_max_attempts policy) 1 <=? pg_sequential p
      then Some (W_done (inr (default BF_AllAlternativesFailed (pg_last p))), set_last_failure None p)
      else
        let '(dead, choice) := choose (pg_dead p) false view in
        let p := set_dead dead p in
        match choice with
        | C_Dead => Some (W_done (inr BF_StaleAlternatives), p)
        | C_Ordered order => attempt_next grants order p
        | C_Unreachable => Some (W_reachable, p)
        end
  end.

(** [wait_reachable] looks again after a change. *)
Definition reachable_change (view : View) (grants : Grants) (p : Progress) : option (Where * Progress) :=
  let '(dead, choice) := choose (pg_dead p) false view in
  let p := set_dead dead p in
  match choice with
  | C_Dead => Some (W_done (inr BF_StaleAlternatives), p)
  | C_Ordered order => attempt_next grants order p
  | C_Unreachable => Some (W_reachable, p)
  end.

(** Its bound passed: probe once, then give up. *)
Definition reachable_over (view : View) (grants : Grants) (p : Progress) : option (Where * Progress) :=
  if pg_probed p then Some (W_done (inr BF_AllAlternativesFailed), p) else
  let p := set_probed true p in
  let '(dead, choice) := choose (pg_dead p) true view in
  let p := set_dead dead p in
  match choice with
  | C_Ordered order => attempt_next grants order (set_tried (filter (λ i, alternative_in_flight p i = true) (pg_tried p)) p)
  | C_Dead => Some (W_done (inr BF_StaleAlternatives), p)
  | C_Unreachable => Some (W_done (inr BF_AllAlternativesFailed), p)
  end.

(** The head of the loop of [run]. *)
Definition comparison_reply (p : Progress) : option (R * nat) :=
  match pg_comparison p with
  | Some c => match co_accepted c, co_outcome c with true, Some (inl reply) => Some (reply, co_alternative c) | _, _ => None end
  | None => None
  end.

Definition copy_pending (p : Progress) : bool :=
  match pg_comparison p with
  | Some c => match co_outcome c with None => true | Some _ => false end
  | None => false
  end.

Definition top (view : View) (grants : Grants) (p : Progress) : option (Where * Progress) :=
  if (primaries p =? 0)%nat then
    match comparison_reply p with
    | Some winner => Some (W_done (inl winner), set_comparison None p)
    | None =>
        if bool_decide (is_Some (pg_blocked p)) && copy_pending p then Some (W_event, p)
        else next_attempt view grants p
    end
  else Some (W_event, p).

Definition attempt_accepted (outcome : R + RpcError) : bool :=
  match outcome with
  | inl reply => match classify reply with V_Accept _ => true | _ => false end
  | inr _ => false
  end.

Definition attempt_record (a : Active) (outcome : R + RpcError) : AttemptRecord :=
  mkAttemptRecord (ac_alternative a) (ac_kind a)
    match outcome with
    | inl _ => if attempt_accepted outcome then A_Replied else A_Declined
    | inr e => A_Failed e
    end.

(** [active.remove] *)
Definition take_active (id : nat) (p : Progress) : option (Active * Progress) :=
  match list_find (λ x, x.1 = id) (pg_active p) with
  | Some (i, x) => Some (x.2, set_active (delete i (pg_active p)) (pg_next_id p) p)
  | None => None
  end.

(** The landing that grows the model's budget: no copy was started since. *)
Definition lands_alone (a : Active) (p : Progress) : bool :=
  match ac_kind a with First | RetryAttempt => pg_copies p =? ac_copies_before a | _ => false end.

Definition note_comparison (outcome : R + RpcError) (p : Progress) : Progress :=
  match pg_comparison p with
  | Some c => set_comparison (Some (mkComparison (co_alternative c) (Some outcome) (attempt_accepted outcome))) p
  | None => p
  end.

Definition finish_compare (reply : R) (alternative : nat) (p : Progress) : Where * Progress :=
  let copy := match pg_comparison p with Some c => co_outcome c | None => None end in
  match compare reply copy with
  | Some detail => (W_done (inr (BF_Comparison detail)), p)
  | None => (W_done (inl (reply, alternative)), p)
  end.

(** [land]; a comparison is awaited in [W_compare]. *)
Definition land_attempt (id : nat) (outcome : R + RpcError) (p : Progress) : Where * Progress :=
  match take_active id p with
  | None => (W_top, p)
  | Some (active, p) =>
      let p := push_record (attempt_record active outcome) p in
      if bool_decide (ac_kind active = ComparisonCopy) then (W_top, note_comparison outcome p) else
      match outcome with
      | inl reply =>
          if attempt_accepted outcome then
            let p := set_hedge false p in
            if negb (bool_decide (is_Some (pg_comparison p))) then (W_done (inl (reply, ac_alternative active)), p)
            else if copy_pending p then (W_compare reply (ac_alternative active), p)
            else finish_compare reply (ac_alternative active) p
          else (W_top, set_last_failure (Some BF_Declined) p)
      | inr error =>
          if is_never_retried error || bool_decide (execution error = Executed)
          then (W_done (inr (BF_Rejected error)), p) else
          let p := if is_terminal_for_reference error then set_dead ({[ac_alternative active]} ∪ pg_dead p) p else p in
          let p :=
            if bool_decide (execution error = MaybeExecuted) && negb (bool_decide (bp_retry policy = AfterAmbiguous)) then
              let p := set_hedge false p in
              match pg_blocked p with None => set_blocked (Some error) p | Some _ => p end
            else p in
          (W_top, set_last_failure (Some (BF_Rejected error)) p)
      end
  end.

(** An attempt landed while the winner waits for its comparison copy. *)
Definition compare_land (reply : R) (alternative : nat) (id : nat) (outcome : R + RpcError) (p : Progress) :
    Where * Progress :=
  match take_active id p with
  | None => (W_compare reply alternative, p)
  | Some (active, p) =>
      let p := push_record (attempt_record active outcome) p in
      let p := if bool_decide (ac_kind active = ComparisonCopy) then note_comparison outcome p else p in
      if copy_pending p then (W_compare reply alternative, p) else finish_compare reply alternative p
  end.

Inductive Input :=
  | I_go (view : View) (grants : Grants)
  | I_changed (view : View) (grants : Grants)
  | I_wait_over (view : View) (grants : Grants)
  | I_slept (view : View) (grants : Grants)
  | I_shutdown
  | I_landed (id : nat) (outcome : R + RpcError)
  | I_hedge_due (view : View) (grants : Grants)
  | I_compare_over.

(** One input; an input that cannot come at this point changes nothing. *)
Definition balanced_step (i : Input) (s : Where * Progress) : option (Where * Progress) :=
  let '(w, p) := s in
  match w, i with
  | W_top, I_go view grants => top view grants p
  | W_reachable, I_changed view grants => reachable_change view grants p
  | W_reachable, I_wait_over view grants => reachable_over view grants p
  | W_reachable, I_shutdown | W_sleep, I_shutdown => Some (W_done (inr BF_Shutdown), p)
  | W_sleep, I_slept view grants => next_attempt view grants p
  | W_event, I_landed id outcome => Some (land_attempt id outcome p)
  | W_event, I_hedge_due view grants =>
      if pg_hedge p then Some (W_top, hedge view grants (set_hedge false p)) else Some s
  | W_event, I_go _ _ =>
      if bool_decide (pg_active p = []) && negb (pg_hedge p) then Some (W_top, p) else Some s
  | W_compare reply alternative, I_landed id outcome => Some (compare_land reply alternative id outcome p)
  | W_compare reply alternative, I_compare_over => Some (finish_compare reply alternative p)
  | _, _ => Some s
  end.

Fixpoint balanced_run (inputs : list Input) (s : Where * Progress) : option (Where * Progress) :=
  match inputs with
  | [] => Some s
  | i :: inputs => let* s := balanced_step i s in balanced_run inputs s
  end.

(** The beginning of [call]; [gone] says that the runtime is. *)
Definition balanced_start (gone : bool) : Where * Progress :=
  if (alternatives =? 0)%nat then (W_done (inr BF_NoAlternatives), Progress_new)
  else if gone then (W_done (inr BF_Shutdown), Progress_new)
  else (W_top, Progress_new).

(** Every attempt of the call, as its result lists them. *)
Definition attempts (p : Progress) : list AttemptRecord := pg_records p ++ lagging_records p.

End Call.
