(* ===== verification/BalanceSafe.v ===== *)
(** A balanced call does no more than its policy permits: it starts a bounded
    number of attempts, and without permission to retry after an ambiguous
    attempt at most one of them, copies aside, can have had an effect. *)
From stdpp Require Import base list numbers gmap strings.
From S2P Require Import Prelude Cursor Status Wire Registry Connection Peers Balance BalanceCall.

Section Safe.
Context {R : Type} (classify : R → Verdict) (compare : R → option (R + RpcError) → option string).
Context (policy : BalancePolicy) (round_backoff : Backoff) (alternatives : nat).

(** ** Counting attempts *)

Definition sequential_kind (k : AttemptKind) : bool :=
  match k with First | RetryAttempt => true | Hedge | ComparisonCopy => false end.

(** Whether the attempt may have had an effect ([AttemptRecord::effect]): an
    attempt the classifier declined ran its handler, which answered that it
    did nothing for this call; one that was refused before admission did not
    run. *)
Definition may_have_effect (r : AttemptRecord) : bool := negb (bool_decide (effect r = NotAdmitted)).

Definition count_where {A} (f : A → bool) (l : list A) : Z := len (filter (λ x, f x = true) l).

Lemma count_app {A} (f : A → bool) l k : count_where f (l ++ k) = count_where f l + count_where f k.
Proof. unfold count_where. by rewrite filter_app, len_app. Qed.

Lemma count_one {A} (f : A → bool) x : count_where f [x] = if f x then 1 else 0.
Proof. unfold count_where. rewrite filter_cons. by destruct (f x). Qed.

Lemma count_nonneg {A} (f : A → bool) l : 0 ≤ count_where f l.
Proof. unfold count_where, len. lia. Qed.

Lemma count_perm {A} (f : A → bool) l k : l ≡ₚ k → count_where f l = count_where f k.
Proof. intros E. unfold count_where, len. by rewrite E. Qed.

Lemma count_negb {A} (f : A → bool) l : len l = count_where f l + count_where (λ x, negb (f x)) l.
Proof.
  unfold count_where, len. induction l as [|x l IH]; [done|]. rewrite !filter_cons.
  destruct (f x) eqn:E; cbn [negb]; [rewrite decide_True, decide_False by done|rewrite decide_False, decide_True by done];
    rewrite length_cons; cbn [length]; lia.
Qed.

Lemma count_le {A} (f g : A → bool) l : (∀ x, f x = true → g x = true) → count_where f l ≤ count_where g l.
Proof.
  intros Hfg. unfold count_where, len. induction l as [|x l IH]; [done|]. rewrite !filter_cons.
  destruct (decide (f x = true)) as [Hf|]; [rewrite decide_True by auto; cbn; lia|].
  destruct (decide (g x = true)); cbn; lia.
Qed.

Definition seq_active (p : @Progress R) : Z := count_where (λ x, sequential_kind (ac_kind x.2)) (pg_active p).
Definition copy_active (p : @Progress R) : Z := count_where (λ x, negb (sequential_kind (ac_kind x.2))) (pg_active p).
Definition seq_records (p : @Progress R) : Z := count_where (λ r, sequential_kind (at_kind r)) (pg_records p).
Definition copy_records (p : @Progress R) : Z := count_where (λ r, negb (sequential_kind (at_kind r))) (pg_records p).
Definition seq_effects (p : @Progress R) : Z :=
  count_where (λ r, sequential_kind (at_kind r) && may_have_effect r) (pg_records p).

Definition max_sequential : Z := Z.max (bp_max_attempts policy) 1.
Definition max_copies : Z :=
  match duplicates_policy (bp_duplicates policy) with Some c => dp_max_copies c | None => 0 end.

(** ** The invariant *)

Record totals_ok (p : @Progress R) : Prop := {
  to_sequential : seq_active p + seq_records p = pg_sequential p;
  to_copies : copy_active p + copy_records p = pg_copies p;
  to_max : pg_sequential p ≤ max_sequential;
  to_max_copies : pg_copies p ≤ max_copies;
  to_ids : Z.of_nat (pg_next_id p) = len (pg_records p) + len (pg_active p);
}.

(** Without permission to retry: at most one sequential attempt is in flight or
    had an effect, and an effect blocks the call. *)
Definition one_effect (p : @Progress R) : Prop := seq_active p + seq_effects p ≤ 1.
Definition blocks (p : @Progress R) : Prop := 0 < seq_effects p → is_Some (pg_blocked p).
Definition clear (p : @Progress R) : Prop := seq_active p = 0 ∧ seq_effects p = 0.

Definition place_ok (s : @Where R * @Progress R) : Prop :=
  let '(w, p) := s in
  match w with
  | W_top | W_event => bp_retry policy = AtMostOnceRetry → one_effect p ∧ blocks p
  | W_sleep => bp_retry policy = AtMostOnceRetry → seq_active p = 0 ∧ one_effect p ∧ blocks p
  | W_reachable => pg_sequential p < max_sequential ∧ (bp_retry policy = AtMostOnceRetry → clear p)
  | W_compare _ _ | W_done _ => bp_retry policy = AtMostOnceRetry → one_effect p
  end.

Definition balance_ok (s : @Where R * @Progress R) : Prop := totals_ok s.2 ∧ place_ok s.

Lemma seq_records_effects p : 0 ≤ seq_effects p ≤ seq_records p.
Proof.
  split; [apply count_nonneg|]. apply count_le. intros r. by rewrite andb_true_iff; intros [? _].
Qed.

(** *** Starting *)

Lemma start_counts alternative kind before p :
  seq_active (start alternative kind before p) = seq_active p + (if sequential_kind kind then 1 else 0) ∧
  copy_active (start alternative kind before p) = copy_active p + (if sequential_kind kind then 0 else 1).
Proof.
  unfold seq_active, copy_active, start. cbn [pg_active set_active]. rewrite !count_app, !count_one. cbn.
  by destruct (sequential_kind kind).
Qed.

(** [p'] is [p] with copies started: its totals hold, and nothing sequential
    changed. *)
Record with_copies (p p' : @Progress R) : Prop := {
  wc_totals : totals_ok p';
  wc_active : seq_active p' = seq_active p;
  wc_effects : seq_effects p' = seq_effects p;
  wc_blocked : pg_blocked p' = pg_blocked p;
}.

Lemma with_copies_refl p : totals_ok p → with_copies p p.
Proof. by constructor. Qed.

Lemma with_copies_trans p p' p'' : with_copies p p' → with_copies p' p'' → with_copies p p''.
Proof. intros [] []. constructor; [done|congruence..]. Qed.

(** A change of fields no total reads. *)
Lemma with_copies_fields p p0 p' :
  pg_active p' = pg_active p0 → pg_records p' = pg_records p0 → pg_next_id p' = pg_next_id p0 →
  pg_sequential p' = pg_sequential p0 → pg_copies p' = pg_copies p0 → pg_blocked p' = pg_blocked p0 →
  with_copies p p0 → with_copies p p'.
Proof.
  intros Ea Er Ei Es Ec Eb [[] ? ? ?].
  constructor; [constructor|..]; unfold seq_active, copy_active, seq_records, copy_records, seq_effects in *;
    rewrite ?Ea, ?Er, ?Ei, ?Es, ?Ec, ?Eb; done.
Qed.

(** A copy is started under the bound and counted. *)
Lemma start_copy_ok alternative kind before tried p :
  sequential_kind kind = false → totals_ok p → pg_copies p < max_copies →
  with_copies p (start alternative kind before (set_tried tried (set_copies (pg_copies p + 1) p))).
Proof.
  intros Hk [H1 H2 H3 H4 H5] Hlt. set (p0 := set_tried _ _).
  destruct (start_counts alternative kind before p0) as [Hs Hc]. rewrite Hk in Hs, Hc.
  change (seq_active p0) with (seq_active p) in Hs. change (copy_active p0) with (copy_active p) in Hc.
  assert (seq_records (start alternative kind before p0) = seq_records p) as Hr by done.
  assert (copy_records (start alternative kind before p0) = copy_records p) as Hr' by done.
  constructor; [constructor; rewrite ?Hs, ?Hc, ?Hr, ?Hr'; cbn; try lia|lia|done|done].
  rewrite len_app. change (len [_]) with 1. lia.
Qed.

Lemma arm_copies_ok grants order target p :
  totals_ok p → with_copies p (arm_copies policy grants order target p).
Proof.
  intros Hp. unfold arm_copies. destruct (duplicates_policy _) as [copies|] eqn:Ed; [|by apply with_copies_refl].
  assert (with_copies p (arm_comparison grants copies order target p)) as Hc.
  { unfold arm_comparison. destruct (List.find _ _) as [second|]; [|by apply with_copies_refl].
    destruct (Z.ltb_spec (pg_copies p) (dp_max_copies copies)); cbn [andb]; [|by apply with_copies_refl].
    destruct (_ && _); [|by apply with_copies_refl].
    apply (with_copies_fields _ (start second ComparisonCopy (pg_copies p + 1)
      (set_tried ({[second]} ∪ pg_tried p) (set_copies (pg_copies p + 1) p)))); [done..|]. apply start_copy_ok; [done|done|]. unfold max_copies. by rewrite Ed. }
  destruct (dp_hedge copies); [|done]. destruct (_ && _); [|done].
  by apply (with_copies_fields _ (arm_comparison grants copies order target p)).
Qed.

Lemma hedge_ok view grants p :
  totals_ok p → with_copies p (hedge policy alternatives view grants p).
Proof.
  intros Hp. unfold hedge. destruct (duplicates_policy _) as [copies|] eqn:Ed; [|by apply with_copies_refl].
  destruct (Z.leb_spec (dp_max_copies copies) (pg_copies p)) as [|Hlt]; cbn [orb]; [by apply with_copies_refl|].
  case_bool_decide; [by apply with_copies_refl|].
  destruct (choose _ _ _ _) as [dead choice]. set (p0 := set_dead dead p).
  assert (with_copies p p0) as H0 by (by apply (with_copies_fields _ p), with_copies_refl).
  destruct choice as [| |order]; [done..|]. destruct (List.find _ _) as [target|]; [|done].
  destruct (gr_hedge grants); [|done]. apply (with_copies_trans _ p0); [done|].
  apply start_copy_ok; [done|by destruct H0|].
  unfold max_copies. by rewrite Ed.
Qed.

(** ** The next attempt *)

(** A sequential attempt is started when nothing before it had an effect. *)
Lemma start_sequential_ok alternative kind before tried p :
  sequential_kind kind = true → totals_ok p → pg_sequential p < max_sequential →
  let p' := start alternative kind before (set_tried tried (set_sequential (pg_sequential p + 1) p)) in
  totals_ok p' ∧ seq_active p' = seq_active p + 1 ∧ seq_effects p' = seq_effects p.
Proof.
  intros Hk [H1 H2 H3 H4 H5] Hlt. set (p0 := set_tried _ _).
  destruct (start_counts alternative kind before p0) as [Hs Hc]. rewrite Hk in Hs, Hc.
  change (seq_active p0) with (seq_active p) in Hs. change (copy_active p0) with (copy_active p) in Hc.
  assert (seq_records (start alternative kind before p0) = seq_records p) as Hr by done.
  assert (copy_records (start alternative kind before p0) = copy_records p) as Hr' by done.
  cbv zeta. split_and!; [constructor; rewrite ?Hs, ?Hc, ?Hr, ?Hr'; cbn; try lia|lia|done].
  rewrite len_app. change (len [_]) with 1. lia.
Qed.

Definition may_attempt (p : @Progress R) : Prop :=
  totals_ok p ∧ pg_sequential p < max_sequential ∧ (bp_retry policy = AtMostOnceRetry → clear p).

Lemma attempt_next_ok grants order p s :
  may_attempt p → attempt_next policy round_backoff grants order p = Some s → balance_ok s.
Proof.
  intros (Hp & Hlt & Hclear). unfold attempt_next. destruct (List.find _ _) as [target|].
  - set (kind := if _ =? _ then _ else _).
    assert (sequential_kind kind = true) as Hk by (subst kind; by destruct (_ =? _)).
    pose proof (start_sequential_ok target kind (pg_copies p) ({[target]} ∪ pg_tried p) p Hk Hp Hlt) as (Ht & Ha & He).
    change (pg_copies (set_tried _ _)) with (pg_copies p). set (p1 := start _ _ _ _) in *.
    assert (with_copies p1 match kind with First => arm_copies policy grants order target p1 | _ => p1 end) as [Hw1 Hw2 Hw3 Hw4].
    { destruct kind; try by apply with_copies_refl. by apply arm_copies_ok. }
    intros [= <-]. split; [done|]. intros Hr. destruct (Hclear Hr). unfold one_effect, blocks. rewrite Hw2, Hw3, Ha, He.
    split; lia.
  - destruct (Backoff_next _ _) as [b|]; [|done]. intros [= <-]. split; [by destruct Hp|].
    intros Hr. destruct (Hclear Hr) as [Ha He]. unfold one_effect, blocks, seq_active, seq_effects in *. cbn in *. lia.
Qed.

Lemma reachable_change_ok view grants p s :
  may_attempt p → reachable_change policy round_backoff alternatives view grants p = Some s → balance_ok s.
Proof.
  intros Hp. pose proof Hp as (Ht & Hlt & Hc). unfold reachable_change. destruct (choose _ _ _ _) as [dead choice].
  assert (may_attempt (set_dead dead p)) as Hd by (by split_and!; [destruct Ht|..]).
  destruct choice; [intros [= <-]|intros [= <-]|by apply attempt_next_ok]; destruct Hd as (? & ? & Hd); split; try done.
  intros Hr. destruct (Hd Hr) as [Ha He]. cbn. unfold one_effect. lia.
Qed.

Lemma reachable_over_ok view grants p s :
  may_attempt p → reachable_over policy round_backoff alternatives view grants p = Some s → balance_ok s.
Proof.
  intros Hp. pose proof Hp as (Ht & Hlt & Hc).
  assert (∀ p' r, may_attempt p' → balance_ok (W_done (inr r), p')) as Hdone.
  { intros p' r (? & ? & Hd). split; [done|]. intros Hr. destruct (Hd Hr). unfold one_effect. lia. }
  unfold reachable_over. destruct (pg_probed p); [intros [= <-]; by apply Hdone|].
  destruct (choose _ _ _ _) as [dead choice].
  assert (∀ t, may_attempt (set_tried t (set_dead dead (set_probed true p)))) as Hd by (intros t; by split_and!; [destruct Ht|..]).
  destruct choice; [intros [= <-]; apply Hdone; by apply (Hd (pg_tried p))..|by apply attempt_next_ok].
Qed.

Lemma next_attempt_ok view grants p s :
  totals_ok p → (bp_retry policy = AtMostOnceRetry → seq_active p = 0 ∧ one_effect p ∧ blocks p) →
  next_attempt policy round_backoff alternatives view grants p = Some s → balance_ok s.
Proof.
  intros Ht Hr. unfold next_attempt. destruct (pg_blocked p) as [blocked|] eqn:Eb.
  - intros [= <-]. split; [by destruct Ht|]. intros H. by destruct (Hr H) as (_ & ? & _).
  - destruct (Z.leb_spec (Z.max (bp_max_attempts policy) 1) (pg_sequential p)) as [Hge|Hlt].
    + intros [= <-]. split; [by destruct Ht|]. intros H. by destruct (Hr H) as (_ & ? & _).
    + apply reachable_change_ok. split_and!; [done|done|]. intros H. destruct (Hr H) as (Ha & _ & Hb). split; [done|].
      pose proof (seq_records_effects p). destruct (decide (0 < seq_effects p)) as [Hpos|]; [|lia].
      apply Hb in Hpos. rewrite Eb in Hpos. by destruct Hpos.
Qed.

(** ** Landing *)

(** Taking an attempt and recording its end keeps every total; its effect, if
    any, is counted in its place. *)
Lemma landed_totals id active outcome p p' :
  take_active id p = Some (active, p') → totals_ok p →
  let p'' := push_record (attempt_record classify active outcome) p' in
  totals_ok p'' ∧ pg_blocked p'' = pg_blocked p ∧ pg_comparison p'' = pg_comparison p ∧
  seq_active p'' = seq_active p - (if sequential_kind (ac_kind active) then 1 else 0) ∧
  seq_effects p'' = seq_effects p +
    (if sequential_kind (ac_kind active) && may_have_effect (attempt_record classify active outcome) then 1 else 0).
Proof.
  unfold take_active. destruct (list_find _ _) as [[i x]|] eqn:Ef; [|done]. intros [= <- <-] [H1 H2 H3 H4 H5].
  apply list_find_Some in Ef as (Hi & _). apply delete_Permutation in Hi. cbv zeta. set (r := attempt_record _ _ _).
  assert (at_kind r = ac_kind x.2) as Hk by done.
  assert (∀ f, count_where f (pg_active p) = count_where f (delete i (pg_active p)) + (if f x then 1 else 0)) as Hc.
  { intros f. rewrite (count_perm f _ _ Hi).
    change (x :: delete i (pg_active p)) with ([x] ++ delete i (pg_active p)). rewrite count_app, count_one. lia. }
  pose proof (Hc (λ x, sequential_kind (ac_kind x.2))) as Hs.
  pose proof (Hc (λ x, negb (sequential_kind (ac_kind x.2)))) as Hn. cbv beta in Hs, Hn.
  assert (len (pg_active p) = len (delete i (pg_active p)) + 1) as Hl.
  { unfold len. apply Permutation_length in Hi. rewrite Hi, length_cons. lia. }
  unfold seq_active, copy_active, seq_records, copy_records, seq_effects in *.
  split_and!; [constructor; unfold seq_active, copy_active, seq_records, copy_records|..];
    cbn [push_record set_active pg_active pg_records pg_sequential pg_copies pg_next_id pg_blocked pg_comparison];
    rewrite ?count_app, ?count_one, ?len_app; rewrite ?Hk; change (len [_]) with 1; try done; try lia;
    destruct (sequential_kind (ac_kind x.2)); cbn [negb] in *; lia.
Qed.

Lemma finish_compare_ok reply alternative p :
  totals_ok p → (bp_retry policy = AtMostOnceRetry → one_effect p) → balance_ok (finish_compare compare reply alternative p).
Proof. intros Ht Hp. unfold finish_compare. by destruct (compare _ _). Qed.

Lemma note_comparison_ok outcome p : totals_ok p → totals_ok (note_comparison classify outcome p).
Proof. intros []. unfold note_comparison. by destruct (pg_comparison p). Qed.

Lemma note_comparison_same outcome p :
  seq_active (note_comparison classify outcome p) = seq_active p ∧
  seq_effects (note_comparison classify outcome p) = seq_effects p ∧
  pg_blocked (note_comparison classify outcome p) = pg_blocked p.
Proof. unfold note_comparison. by destruct (pg_comparison p). Qed.

Lemma compare_land_ok reply alternative id outcome p :
  totals_ok p → (bp_retry policy = AtMostOnceRetry → one_effect p) →
  balance_ok (compare_land classify compare reply alternative id outcome p).
Proof.
  intros Ht Hp. unfold compare_land. destruct (take_active id p) as [[active p']|] eqn:Et; [|by split].
  destruct (landed_totals id active outcome p p' Et Ht) as (Ht' & _ & _ & Ha & He).
  set (p1 := push_record _ _) in *. set (p2 := if bool_decide _ then _ else _).
  assert (totals_ok p2 ∧ seq_active p2 = seq_active p1 ∧ seq_effects p2 = seq_effects p1) as (Ht2 & Ha2 & He2).
  { subst p2. case_bool_decide; [|done]. split; [by apply note_comparison_ok|]. by destruct (note_comparison_same outcome p1) as (? & ? & _). }
  assert (bp_retry policy = AtMostOnceRetry → one_effect p2) as H2.
  { intros Hr%Hp. unfold one_effect in *. rewrite Ha2, He2, Ha, He.
    destruct (sequential_kind _); cbn [andb]; [destruct (may_have_effect _)|]; lia. }
  destruct (copy_pending p2); [by split|by apply finish_compare_ok].
Qed.

(** An attempt that ends without effect changes neither the count of effects
    nor what blocks; one that may have had an effect takes its own place. *)
Lemma land_ok id outcome p :
  totals_ok p → (bp_retry policy = AtMostOnceRetry → one_effect p ∧ blocks p) →
  balance_ok (land_attempt classify compare policy id outcome p).
Proof.
  intros Ht Hp. unfold land_attempt. destruct (take_active id p) as [[active p']|] eqn:Et; [|by split].
  destruct (landed_totals id active outcome p p' Et Ht) as (Ht' & Hb & _ & Ha & He).
  set (p1 := push_record _ _) in *.
  assert (bp_retry policy = AtMostOnceRetry → one_effect p1) as H1.
  { intros [Hr _]%Hp. unfold one_effect in *. rewrite Ha, He. destruct (sequential_kind _); cbn [andb]; [destruct (may_have_effect _)|]; lia. }
  assert (sequential_kind (ac_kind active) && may_have_effect (attempt_record classify active outcome) = false →
    bp_retry policy = AtMostOnceRetry → blocks p1) as Hno.
  { intros Hf Hr. destruct (Hp Hr) as [_ Hbl]. unfold blocks. rewrite He, Hf, Hb. intros ?. apply Hbl. lia. }
  case_bool_decide as Hk.
  { destruct (note_comparison_same outcome p1) as (Ea & Ee & Eb). split; [by apply note_comparison_ok|].
    intros Hr. unfold one_effect, blocks. rewrite Ea, Ee, Eb. split; [by apply H1|]. apply Hno; [by rewrite Hk|done]. }
  destruct outcome as [reply|error].
  - destruct (attempt_accepted classify (inl reply)) eqn:Eacc.
    + assert (totals_ok (set_hedge false p1)) by (by destruct Ht').
      destruct (negb _); [by split|]. destruct (copy_pending _); [by split|by apply finish_compare_ok].
    + split; [by destruct Ht'|]. intros Hr. split; [by apply H1|]. apply Hno; [|done].
      unfold may_have_effect, attempt_record, effect. rewrite Eacc. by rewrite andb_false_r.
  - destruct (is_never_retried error || _) eqn:Ef; [by split|]. apply orb_false_iff in Ef as [_ Hx%bool_decide_eq_false].
    set (p2 := if is_terminal_for_reference error then _ else p1).
    assert (totals_ok p2 ∧ seq_active p2 = seq_active p1 ∧ seq_effects p2 = seq_effects p1 ∧ pg_blocked p2 = pg_blocked p1)
      as (Ht2 & Ha2 & He2 & Hb2).
    { subst p2. destruct (is_terminal_for_reference error); [|done]. split; [by destruct Ht'|done]. }
    destruct (bool_decide (execution error = MaybeExecuted) && _) eqn:Em.
    + split; cbn [snd fst]; [destruct (pg_blocked (set_hedge false p2)); by destruct Ht2|].
      intros Hr. specialize (H1 Hr). unfold one_effect, blocks in *. rewrite <- Ha2, <- He2 in H1.
      destruct (pg_blocked (set_hedge false p2)) eqn:Eb2; [|by split]. split; [done|]. intros _. cbn in *. by rewrite Eb2.
    + split; [by destruct Ht2|]. intros Hr. unfold one_effect, blocks in *. cbn [pg_blocked set_last_failure].
      change (seq_active (set_last_failure _ p2)) with (seq_active p2). change (seq_effects (set_last_failure _ p2)) with (seq_effects p2).
      rewrite Ha2, He2, Hb2. split; [by apply H1|]. apply Hno; [|done]. apply andb_false_intro2.
      rewrite Hr in Em. unfold may_have_effect. cbn. destruct (execution error); [done|done|done].
Qed.

(** ** Runs *)

Lemma no_primary p : primaries p = 0%nat → seq_active p = 0.
Proof.
  unfold primaries. intros H0. assert (count_where (λ x, is_primary x.2) (pg_active p) = 0) as Hp.
  { unfold count_where, len. by rewrite H0. }
  pose proof (count_nonneg (λ x, sequential_kind (ac_kind x.2)) (pg_active p)).
  assert (count_where (λ x, sequential_kind (ac_kind x.2)) (pg_active p) ≤ count_where (λ x, is_primary x.2) (pg_active p)).
  { apply count_le. intros x. unfold is_primary. by destruct (ac_kind x.2). }
  unfold seq_active. lia.
Qed.

Lemma top_ok view grants p s :
  balance_ok (W_top, p) → top policy round_backoff alternatives view grants p = Some s → balance_ok s.
Proof.
  intros [Ht Hp]. unfold top. destruct (Nat.eqb_spec (primaries p) 0) as [H0|]; [|by intros [= <-]].
  destruct (comparison_reply p) as [winner|].
  - intros [= <-]. split; [by destruct Ht|]. intros Hr. by destruct (Hp Hr).
  - destruct (_ && _); [by intros [= <-]|]. apply next_attempt_ok; [done|].
    intros Hr. split; [by apply no_primary|by apply Hp].
Qed.

Lemma balanced_step_ok i s s' :
  balance_ok s → balanced_step classify compare policy round_backoff alternatives i s = Some s' → balance_ok s'.
Proof.
  destruct s as [w p]. intros Hs. pose proof Hs as [Ht Hp].
  destruct w as [| | | |reply alternative|result], i as [v g|v g|v g|v g| |id o|v g|];
    cbn [balanced_step]; try by intros [= <-].
  - by apply top_ok.
  - destruct Hp as [Hlt Hc]. by apply reachable_change_ok.
  - destruct Hp as [Hlt Hc]. by apply reachable_over_ok.
  - intros [= <-]. split; [done|]. intros Hr. destruct Hp as [_ Hc]. destruct (Hc Hr). unfold one_effect. lia.
  - by apply next_attempt_ok.
  - intros [= <-]. split; [done|]. intros Hr. by destruct (Hp Hr) as (_ & ? & _).
  - destruct (_ && _); by intros [= <-].
  - intros [= <-]. by apply land_ok.
  - destruct (pg_hedge p); [|by intros [= <-]]. intros [= <-].
    destruct (hedge_ok v g (set_hedge false p)) as [Hh1 Hh2 Hh3 Hh4]; [by destruct Ht|]. split; [done|].
    intros Hr. unfold one_effect, blocks. rewrite Hh2, Hh3, Hh4. by apply Hp.
  - intros [= <-]. by apply compare_land_ok.
  - intros [= <-]. by apply finish_compare_ok.
Qed.

Lemma balanced_run_ok inputs s s' :
  balance_ok s → balanced_run classify compare policy round_backoff alternatives inputs s = Some s' → balance_ok s'.
Proof.
  induction inputs as [|i inputs IH] in s |- *; cbn [balanced_run]; [by intros ? [= <-]|].
  intros Hs. destruct (balanced_step _ _ _ _ _ _ _) as [s1|] eqn:E1; [|done]. apply IH. by eapply balanced_step_ok.
Qed.

Lemma balanced_start_ok gone : 0 ≤ max_copies → balance_ok (@balanced_start R alternatives gone).
Proof.
  intros Hc. assert (totals_ok Progress_new) as Ht 
    by (constructor; [done|done|change (pg_sequential _) with 0; unfold max_sequential; lia|done|done]).
  unfold balanced_start. destruct (_ =? _)%nat; [|destruct gone]; (split; [done|]); cbn; intros _; unfold one_effect, blocks; by cbn.
Qed.

(** *** What a call's result lists *)

Lemma count_split {A} (f g : A → bool) l : count_where f l ≤ count_where (λ x, g x && f x) l + count_where (λ x, negb (g x)) l.
Proof.
  unfold count_where, len. induction l as [|x l IH]; [done|]. rewrite !filter_cons.
  destruct (f x), (g x); cbn [andb negb]; repeat (destruct (decide _) as [?|?]; try done); cbn [length]; lia.
Qed.

Lemma count_len {A} (f : A → bool) l : count_where f l ≤ len l.
Proof. unfold count_where, len. pose proof (length_filter (λ x, f x = true) l). lia. Qed.

Lemma summarize_not_admitted l m :
  foldl (λ m r, execution_max m (effect r)) m l = NotAdmitted →
  m = NotAdmitted ∧
  Forall (λ r, at_outcome r = A_Declined ∨ outcome_execution (at_outcome r) = NotAdmitted) l.
Proof.
  induction l as [|r l IH] in m |- *; [by split|]. cbn [foldl]. intros [Hm Hl]%IH.
  assert (m = NotAdmitted ∧ effect r = NotAdmitted) as [-> Hr]; [|split; [done|]].
  { by destruct m, (effect r). }
  constructor; [|done]. unfold effect in Hr. destruct (at_outcome r); auto.
Qed.

Lemma attempts_count (f : AttemptRecord → bool) (p : @Progress R) :
  count_where f (attempts p) = count_where f (pg_records p) +
    count_where (λ x, f (mkAttemptRecord (ac_alternative x.2) (ac_kind x.2) A_Lagging)) (pg_active p).
Proof.
  unfold attempts, lagging_records. rewrite count_app. f_equal. unfold count_where, len.
  induction (pg_active p) as [|x l IH]; [done|]. cbn [fmap list_fmap]. rewrite !filter_cons.
  destruct (decide _); cbn [length]; lia.
Qed.

End Safe.

(** C31: a balanced call does no more than its policy permits, whatever its
    attempts, timers and the failure monitor do and in whatever order.  It
    starts at most [max_attempts] sequential attempts and [max_copies] copies;
    without permission to retry after an ambiguous attempt, at most one
    attempt beside the permitted copies can have had an effect, so an
    at-most-once call with no copies takes effect at most once (an attempt
    whose reply was declined ran its handler, without effect); and every
    attempt of a call that reports [NotAdmitted] was refused before it was
    admitted or answered with a reply the call declined. *)
Theorem balanced_call_at_most_once {R} (classify : R → Verdict) (compare : R → option (R + RpcError) → option string)
    policy round_backoff alternatives gone inputs w p :
  0 ≤ max_copies policy →
  balanced_run classify compare policy round_backoff alternatives inputs (balanced_start alternatives gone) = Some (w, p) →
  len (attempts p) ≤ max_sequential policy + max_copies policy ∧
  (bp_retry policy = AtMostOnceRetry → count_where may_have_effect (attempts p) ≤ 1 + max_copies policy) ∧
  (summarize (attempts p) = NotAdmitted →
   Forall (λ r, at_outcome r = A_Declined ∨ outcome_execution (at_outcome r) = NotAdmitted) (attempts p)).
Proof.
  intros Hc Hrun. apply balanced_run_ok in Hrun as [Ht Hp]; [|by apply balanced_start_ok]. cbn [snd] in Ht.
  destruct Ht as [H1 H2 H3 H4 H5]. split_and!.
  - unfold attempts, lagging_records. rewrite len_app. unfold len at 2. rewrite length_fmap.
    pose proof (count_negb (λ r, sequential_kind (at_kind r)) (pg_records p)).
    pose proof (count_negb (λ x, sequential_kind (ac_kind x.2)) (pg_active p)).
    unfold seq_active, copy_active, seq_records, copy_records, len in *. lia.
  - intros Hr. assert (one_effect p) as Hone.
    { destruct w; cbn in Hp; try by apply Hp.
      - destruct Hp as [_ Hcl]. destruct (Hcl Hr). unfold one_effect. lia. }
    rewrite attempts_count. unfold one_effect in Hone.
    pose proof (count_split may_have_effect (λ r, sequential_kind (at_kind r)) (pg_records p)).
    pose proof (count_len (λ x, may_have_effect (mkAttemptRecord (ac_alternative x.2) (ac_kind x.2) A_Lagging)) (pg_active p)).
    pose proof (count_negb (λ x, sequential_kind (ac_kind x.2)) (pg_active p)).
    unfold seq_active, copy_active, seq_effects, copy_records in *. lia.
  - intros Hs. by apply summarize_not_admitted in Hs as [_ ?].
Qed.
