(* ===== verification/Alternatives.v ===== *)
(** The alternatives a balanced client calls (moonpool-rpc/src/balance/set.rs)
    and the set it has installed (balance/client.rs): built without duplicates,
    replaced only by a newer one, marked by the calls that ran on it. *)
From Stdlib Require Import SpecFloat.
From stdpp Require Import base list numbers gmap strings.
From S2P Require Import Prelude Cursor Status Wire Registry Connection Peers Proto Reference Balance BalanceCall.

(** ** Sets *)

Record Alternative := mkAlternative { al_target : ServiceRef; al_locality : Locality }.

Definition anywhere (target : ServiceRef) : Alternative := mkAlternative target (mkLocality None None).

Inductive InvalidSet :=
  | InvalidReference (index : Z) (detail : DecodeError)
  | DuplicateEndpoint (e : Endpoint).

Record AlternativeSet := mkAlternativeSet { as_version : Z; as_alternatives : list Alternative }.

(** The checks of [AlternativeSet::new], from the alternative at [index]. *)
Fixpoint check_alternatives (m : MethodIdentity) (index : Z) (seen : gset Endpoint) (l : list Alternative) :
    res InvalidSet unit :=
  match l with
  | [] => Ok tt
  | a :: l =>
      let? _ := map_err (InvalidReference index) (ServiceRef_check m (al_target a)) in
      let e := ServiceRef_endpoint (al_target a) in
      if bool_decide (e ∈ seen) then Err (DuplicateEndpoint e)
      else check_alternatives m (index + 1) ({[e]} ∪ seen) l
  end.

Definition AlternativeSet_new (m : MethodIdentity) (version : Z) (l : list Alternative) : res InvalidSet AlternativeSet :=
  let? _ := check_alternatives m 0 ∅ l in Ok (mkAlternativeSet version l).

Definition AlternativeSet_empty (version : Z) : AlternativeSet := mkAlternativeSet version [].

(** ** The installed set *)

Record Installed := mkInstalled {
  in_set : AlternativeSet;
  in_distances : list Distance;
  in_stale : bool;
  in_all_failed : bool;
  (** How often the status watch was notified. *)
  in_notified : Z;
}.

(** What [snapshot_of] derives from a set; the clients it binds are the
    targets themselves. *)
Definition distances_of (own : Locality) (s : AlternativeSet) : list Distance :=
  (λ a, distance_to own (al_locality a)) <$> as_alternatives s.

(** [BalancedClient::new] of a unary method. *)
Definition client_new (streaming : bool) (round_backoff : Backoff) (own : Locality) (s : AlternativeSet) : option Installed :=
  if streaming then None
  else if Backoff_is_valid round_backoff then Some (mkInstalled s (distances_of own s) false false 0) else None.

Record SetStatus := mkSetStatus { st_version : Z; st_alternatives : Z; st_stale : bool; st_all_failed : bool }.

Definition set_status (i : Installed) : SetStatus :=
  mkSetStatus (as_version (in_set i)) (len (as_alternatives (in_set i))) (in_stale i) (in_all_failed i).

Inductive ReplaceError := NotNewer (installed offered : Z).

Definition replace_alternatives (own : Locality) (s : AlternativeSet) (i : Installed) : Installed * res ReplaceError unit :=
  if as_version s <=? as_version (in_set i) then (i, Err (NotNewer (as_version (in_set i)) (as_version s)))
  else (mkInstalled s (distances_of own s) false false (in_notified i + 1), Ok tt).

Definition mark_set (version : Z) (stale all_failed : option bool) (i : Installed) : Installed :=
  if negb (as_version (in_set i) =? version) then i else
  let stale' := default (in_stale i) stale in
  let all_failed' := default (in_all_failed i) all_failed in
  let changed := negb (Bool.eqb stale' (in_stale i)) || negb (Bool.eqb all_failed' (in_all_failed i)) in
  mkInstalled (in_set i) (in_distances i) stale' all_failed' (if changed then in_notified i + 1 else in_notified i).

(** The end of [call], for a call that ran on the set at [version]. *)
Definition call_marks {R} (version : Z) (outcome : R * nat + BalanceFailure) (i : Installed) : Installed :=
  match outcome with
  | inl _ => mark_set version None (Some false) i
  | inr BF_StaleAlternatives => mark_set version (Some true) None i
  | inr BF_AllAlternativesFailed => mark_set version None (Some true) i
  | inr _ => i
  end.

(** ** Hedging and measuring *)

Definition hedge_delay (timing : HedgeTiming) (multiplier : f64) (first second : Z) : option Z :=
  let* d := mul_f64 second (f64_max multiplier (f64_of_Z 1)) in
  let delay := d + ht_base timing in
  if SFltb (f64_mul (f64_max (ht_instant_factor timing) (f64_of_Z 0)) (as_secs_f64 delay)) (as_secs_f64 first)
  then Some 0 else Some delay.

(** What an attempt's end says to the model. *)
Definition model_outcome {R} (classify : R → Verdict) (outcome : R + RpcError) : ModelOutcome :=
  match outcome with
  | inl reply =>
      match classify reply with
      | V_Accept f => MO_Clean f
      | V_Overloaded f => MO_Overloaded f
      | V_Behind => MO_Behind
      end
  | inr e =>
      match reason e with
      | R_Overloaded | R_ServerShuttingDown => MO_Overloaded (mkFeedback None None)
      | _ => MO_Failed
      end
  end.

(** The golden delays of the source's test. *)
Example hedge_delays :
  let timing := mkHedgeTiming 1000000 (f64_of_Z 2) in
  hedge_delay timing (f64_of_Z 1) 5000000 10000000 = Some 11000000 ∧
  hedge_delay timing (f64_ratio 3 2) 5000000 10000000 = Some 16000000 ∧
  hedge_delay timing (f64_of_Z 1) 23000000 10000000 = Some 0.
Proof. vm_compute. done. Qed.

(** ** What a client can rely on *)

Definition endpoints (l : list Alternative) : list Endpoint := (λ a, ServiceRef_endpoint (al_target a)) <$> l.

Lemma check_alternatives_ok m index seen l :
  check_alternatives m index seen l = Ok tt ↔
  Forall (λ a, ServiceRef_check m (al_target a) = Ok tt) l ∧ NoDup (endpoints l) ∧ Forall (.∉ seen) (endpoints l).
Proof.
  induction l as [|a l IH] in index, seen |- *; cbn [check_alternatives endpoints fmap list_fmap].
  { split; [|done]. intros _. split_and!; constructor. }
  rewrite !Forall_cons, NoDup_cons.
  destruct (ServiceRef_check m (al_target a)) as [[]|e|] eqn:Ec; cbn [map_err res_bind]; [|naive_solver..].
  case_bool_decide as Hs; [naive_solver|]. rewrite IH. fold (endpoints l). set (e := ServiceRef_endpoint _) in *.
  assert (Forall (λ x, x ∉ ({[e]} ∪ seen : gset Endpoint)) (endpoints l) ↔ (e ∉ endpoints l) ∧ Forall (.∉ seen) (endpoints l)) as ->.
  { rewrite !Forall_forall. split.
    - intros Hx. split; [intros He; apply (Hx e He), elem_of_union; left; by apply elem_of_singleton|].
      intros x Hi Hn. apply (Hx x Hi), elem_of_union. by right.
    - intros [He Hx] x Hi [->%elem_of_singleton|Hn]%elem_of_union; [done|by apply (Hx x Hi)]. }
  tauto.
Qed.

(** A set is attempt_accepted exactly when every reference is valid for the method and
    no endpoint comes twice. *)
Lemma AlternativeSet_new_ok m version l :
  AlternativeSet_new m version l = Ok (mkAlternativeSet version l) ↔
  Forall (λ a, ServiceRef_check m (al_target a) = Ok tt) l ∧ NoDup (endpoints l).
Proof.
  unfold AlternativeSet_new. pose proof (check_alternatives_ok m 0 ∅ l) as Hc.
  assert (Forall (.∉ (∅ : gset Endpoint)) (endpoints l)) as Hf by (apply Forall_true; set_solver).
  destruct (check_alternatives m 0 ∅ l) as [[]|e|]; cbn [res_bind]; naive_solver.
Qed.

(** A call marks only the set it ran on, and a replacement starts afresh: the
    version installed never goes back, whatever the order of replacements and
    of the ends of calls. *)
Inductive SetOp := S_replace (s : AlternativeSet) | S_call_end (version : Z) (outcome : unit * nat + BalanceFailure).

Definition set_step (own : Locality) (o : SetOp) (i : Installed) : Installed :=
  match o with
  | S_replace s => (replace_alternatives own s i).1
  | S_call_end version outcome => call_marks version outcome i
  end.

Definition set_run (own : Locality) (ops : list SetOp) (i : Installed) : Installed :=
  foldl (λ i o, set_step own o i) i ops.

Lemma mark_set_same version stale failed i :
  in_set (mark_set version stale failed i) = in_set i ∧
  (as_version (in_set i) ≠ version → mark_set version stale failed i = i).
Proof. unfold mark_set. by destruct (Z.eqb_spec (as_version (in_set i)) version). Qed.

Lemma call_marks_same {R} version (outcome : R * nat + BalanceFailure) i :
  in_set (call_marks version outcome i) = in_set i ∧
  (as_version (in_set i) ≠ version → call_marks version outcome i = i).
Proof. destruct outcome as [?|[]]; cbn [call_marks]; try done; apply mark_set_same. Qed.

Lemma set_step_version own o i : as_version (in_set i) ≤ as_version (in_set (set_step own o i)).
Proof.
  destruct o as [s|version outcome]; cbn [set_step].
  - unfold replace_alternatives. destruct (Z.leb_spec (as_version s) (as_version (in_set i))); cbn; lia.
  - destruct (call_marks_same version outcome i) as [-> _]. lia.
Qed.

Lemma installed_version_never_goes_back own ops i :
  as_version (in_set i) ≤ as_version (in_set (set_run own ops i)).
Proof.
  unfold set_run. induction ops as [|o ops IH] in i |- *; cbn [foldl]; [lia|].
  pose proof (set_step_version own o i). specialize (IH (set_step own o i)). lia.
Qed.

(** A late call on a set replaced since says nothing about the new one. *)
Lemma late_call_marks_nothing own ops version outcome i s :
  version ≤ as_version (in_set i) → as_version (in_set i) < as_version s →
  let i' := set_run own (S_replace s :: ops) i in
  set_step own (S_call_end version outcome) i' = i'.
Proof.
  intros Hv Hs i'. apply call_marks_same. subst i'.
  pose proof (installed_version_never_goes_back own ops (set_step own (S_replace s) i)) as H.
  cbn [set_run foldl] in *. unfold set_run in H. cbn [set_step] in *. unfold replace_alternatives in H at 1.
  destruct (Z.leb_spec (as_version s) (as_version (in_set i))); [lia|]. cbn in H. intros <-. lia.
Qed.
