(* ===== verification/Lagging.v ===== *)
(** Late losers (moonpool-rpc/src/balance/model.rs): the attempts a call left in
    flight, kept by the model until they end.

    An entry is a number.  The collector polls outside the lock, so a poll is
    two steps with pushes between them: it takes the entries, then puts back
    those that are pending.  [lg_taken] is what the collector holds; the log
    says how each entry ended. *)
From stdpp Require Import base list numbers.
From S2P Require Import Prelude.

Inductive LagEnd := L_Completed | L_Expired.

(** An entry ends by itself or is dropped to keep the bound. *)
Inductive LagFate := F_ended (e : LagEnd) | F_evicted.

Record LaggingSet := mkLaggingSet {
  lg_entries : list nat;
  lg_out : Z;
  lg_completed : Z;
  lg_expired : Z;
  lg_evicted : Z;
  lg_taken : option (list nat);
  lg_log : list (nat * LagFate);
}.

Definition LaggingSet_new : LaggingSet := mkLaggingSet [] 0 0 0 0 None [].

(** [while len + out >= max { pop_front }]: what stays and what goes. *)
Fixpoint make_room (room : Z → bool) (entries : list nat) : list nat * list nat :=
  match entries with
  | [] => ([], [])
  | oldest :: rest =>
      if room (len entries) then (entries, [])
      else let '(kept, evicted) := make_room room rest in (kept, oldest :: evicted)
  end.

Definition log_evicted (evicted : list nat) : list (nat * LagFate) := (λ id, (id, F_evicted)) <$> evicted.

Definition log_ended (ended : list (nat * LagEnd)) : list (nat * LagFate) := (λ x, (x.1, F_ended x.2)) <$> ended.

Definition push_lagging (max : Z) (entry : nat) (s : LaggingSet) : LaggingSet :=
  let '(kept, evicted) := make_room (λ n, n + lg_out s <? max) (lg_entries s) in
  mkLaggingSet (kept ++ [entry]) (lg_out s) (lg_completed s) (lg_expired s) (lg_evicted s + len evicted)
    (lg_taken s) (lg_log s ++ log_evicted evicted).

(** The first half of a poll of [collect_lagging]. *)
Definition collect_take (s : LaggingSet) : LaggingSet :=
  mkLaggingSet [] (lg_out s + len (lg_entries s)) (lg_completed s) (lg_expired s) (lg_evicted s)
    (Some (lg_entries s)) (lg_log s).

(** What the polls of the taken entries answered: who is pending, who ended. *)
Fixpoint poll_entries (polled : nat → option LagEnd) (taken : list nat) : list nat * list (nat * LagEnd) :=
  match taken with
  | [] => ([], [])
  | id :: taken =>
      let '(pending, ended) := poll_entries polled taken in
      match polled id with
      | None => (id :: pending, ended)
      | Some e => (pending, (id, e) :: ended)
      end
  end.

Definition is_completed (x : nat * LagEnd) : bool := match x.2 with L_Completed => true | L_Expired => false end.

(** Its second half. *)
Definition collect_put_back (max : Z) (polled : nat → option LagEnd) (s : LaggingSet) : LaggingSet :=
  match lg_taken s with
  | None => s
  | Some taken =>
      let '(pending, ended) := poll_entries polled taken in
      let '(kept, evicted) := make_room (λ n, n <=? max) (pending ++ lg_entries s) in
      mkLaggingSet kept (lg_out s - len taken)
        (lg_completed s + len (filter (λ x, is_completed x = true) ended))
        (lg_expired s + len (filter (λ x, is_completed x = false) ended))
        (lg_evicted s + len evicted) None
        (lg_log s ++ log_ended ended ++ log_evicted evicted)
  end.

Inductive LagOp := G_push (id : nat) | G_take | G_put_back (polled : nat → option LagEnd).

(** One collector: it takes only once it has put back. *)
Definition lag_step (max : Z) (o : LagOp) (s : LaggingSet) : LaggingSet :=
  match o with
  | G_push id => push_lagging max id s
  | G_take => match lg_taken s with None => collect_take s | Some _ => s end
  | G_put_back polled => collect_put_back max polled s
  end.

Definition lag_run (max : Z) (ops : list LagOp) (s : LaggingSet) : LaggingSet := foldl (λ s o, lag_step max o s) s ops.

(** The entries handed over by [ops], in order. *)
Definition pushed (ops : list LagOp) : list nat := omap (λ o, match o with G_push id => Some id | _ => None end) ops.

(** ** No late loser is lost, none ends twice *)

Definition lag_all (s : LaggingSet) : list nat := default [] (lg_taken s) ++ lg_entries s ++ (lg_log s).*1.

(** How many entries of a log had such a fate. *)
Definition fates (f : LagFate → bool) (log : list (nat * LagFate)) : Z := len (filter (λ x, f x.2 = true) log).

Definition was_evicted (f : LagFate) : bool := match f with F_evicted => true | F_ended _ => false end.
Definition was_completed (f : LagFate) : bool := match f with F_ended L_Completed => true | _ => false end.
Definition was_expired (f : LagFate) : bool := match f with F_ended L_Expired => true | _ => false end.

Record lag_ok (max : Z) (done : list nat) (s : LaggingSet) : Prop := {
  lo_all : lag_all s ≡ₚ done;
  lo_out : lg_out s = len (default [] (lg_taken s));
  lo_taken : lg_out s ≤ max;
  lo_entries : len (lg_entries s) + lg_out s ≤ Z.max max (lg_out s + 1);
  lo_evicted : lg_evicted s = fates was_evicted (lg_log s);
  lo_completed : lg_completed s = fates was_completed (lg_log s);
  lo_expired : lg_expired s = fates was_expired (lg_log s);
}.

Lemma make_room_split room entries : let '(kept, evicted) := make_room room entries in evicted ++ kept = entries.
Proof.
  induction entries as [|x entries IH]; [done|]. cbn [make_room]. destruct (room _); [done|].
  destruct (make_room room entries) as [kept evicted]. cbn. by rewrite IH.
Qed.

Lemma make_room_fits room entries :
  let '(kept, _) := make_room room entries in kept = [] ∨ room (len kept) = true.
Proof.
  induction entries as [|x entries IH]; [by left|]. cbn [make_room]. destruct (room (len (x :: entries))) eqn:E; [by right|].
  destruct (make_room room entries) as [kept evicted]. done.
Qed.

Lemma log_evicted_ids evicted : (log_evicted evicted).*1 = evicted.
Proof. unfold log_evicted. rewrite <- list_fmap_compose. apply list_fmap_id. Qed.

Lemma fates_app f l k : fates f (l ++ k) = fates f l + fates f k.
Proof. unfold fates. by rewrite filter_app, len_app. Qed.

Lemma fates_cons f x l : fates f (x :: l) = (if f x.2 then 1 else 0) + fates f l.
Proof.
  unfold fates. rewrite filter_cons.
  destruct (f x.2); [rewrite decide_True by done; by rewrite len_cons|by rewrite decide_False].
Qed.

Lemma fates_evicted f evicted : fates f (log_evicted evicted) = if f F_evicted then len evicted else 0.
Proof.
  induction evicted as [|x l IH]; cbn [log_evicted fmap list_fmap]; [by destruct (f F_evicted)|]. fold (log_evicted l).
  rewrite fates_cons, IH, len_cons. cbn [snd]. destruct (f F_evicted); lia.
Qed.

Lemma fates_ended ended :
  fates was_evicted (log_ended ended) = 0 ∧
  fates was_completed (log_ended ended) = len (filter (λ x, is_completed x = true) ended) ∧
  fates was_expired (log_ended ended) = len (filter (λ x, is_completed x = false) ended).
Proof.
  induction ended as [|[id e] l (IH1 & IH2 & IH3)]; [done|]. cbn [log_ended fmap list_fmap]. fold (log_ended l).
  rewrite !fates_cons, !filter_cons, IH1, IH2, IH3. unfold is_completed. cbn [snd].
  destruct e; cbn [was_evicted was_completed was_expired]; rewrite ?(decide_True _ _ eq_refl), ?decide_False by done;
    rewrite ?len_cons; lia.
Qed.

Lemma log_ended_ids ended : (log_ended ended).*1 = ended.*1.
Proof. unfold log_ended. by rewrite <- list_fmap_compose. Qed.

Lemma poll_entries_split polled taken :
  let '(pending, ended) := poll_entries polled taken in pending ++ ended.*1 ≡ₚ taken.
Proof.
  induction taken as [|id taken IH]; [by cbn|]. cbn [poll_entries]. destruct (poll_entries polled taken) as [pending ended].
  destruct (polled id); cbn; [by rewrite <- Permutation_middle, IH|by rewrite IH].
Qed.

Lemma push_lagging_ok max entry done s :
  1 ≤ max → lag_ok max done s → lag_ok max (done ++ [entry]) (push_lagging max entry s).
Proof.
  intros Hmax [H1 H2 H3 H4 H5 H6 H7]. unfold push_lagging.
  pose proof (make_room_split (λ n, n + lg_out s <? max) (lg_entries s)) as Hs.
  pose proof (make_room_fits (λ n, n + lg_out s <? max) (lg_entries s)) as Hf.
  destruct (make_room _ _) as [kept evicted].
  constructor; cbn; rewrite ?fates_app, ?fates_evicted; cbn [was_evicted was_completed was_expired]; try lia.
  - rewrite <- H1. unfold lag_all. cbn. rewrite fmap_app, log_evicted_ids, <- Hs. solve_Permutation.
  - rewrite len_app. change (len [entry]) with 1. destruct Hf as [->|Hf]; [rewrite len_nil; lia|lia].
Qed.

Lemma collect_take_ok max done s : 1 ≤ max → lg_taken s = None → lag_ok max done s → lag_ok max done (collect_take s).
Proof.
  intros Hmax Ht [H1 H2 H3 H4 H5 H6 H7]. rewrite Ht in H2. cbn in H2. rewrite len_nil in H2.
  constructor; cbn; try done; [|lia|lia|rewrite len_nil; lia]. rewrite <- H1. unfold lag_all. cbn. by rewrite Ht.
Qed.

Lemma collect_put_back_ok max polled done s :
  1 ≤ max → lag_ok max done s → lag_ok max done (collect_put_back max polled s).
Proof.
  intros Hmax Hok. pose proof Hok as [H1 H2 H3 H4 H5 H6 H7]. unfold collect_put_back.
  destruct (lg_taken s) as [taken|] eqn:Et; [|done].
  cbn in H2. pose proof (poll_entries_split polled taken) as Hp. destruct (poll_entries polled taken) as [pending ended].
  pose proof (make_room_split (λ n, n <=? max) (pending ++ lg_entries s)) as Hs.
  pose proof (make_room_fits (λ n, n <=? max) (pending ++ lg_entries s)) as Hf.
  destruct (make_room _ _) as [kept evicted]. destruct (fates_ended ended) as (He1 & He2 & He3).
  constructor; cbn; rewrite ?fates_app, ?fates_evicted; cbn [was_evicted was_completed was_expired]; try lia.
  - rewrite <- H1. unfold lag_all. cbn. rewrite Et, !fmap_app, log_evicted_ids, log_ended_ids. cbn.
    rewrite <- Hp. transitivity (ended.*1 ++ (evicted ++ kept) ++ (lg_log s).*1); [solve_Permutation|]. rewrite Hs. solve_Permutation.
  - rewrite len_nil. lia.
  - destruct Hf as [->|Hf]; [rewrite len_nil; lia|lia].
Qed.

(** No late loser is lost and none ends twice: the entries ever handed over
    are, each once, those the model or its collector holds and those the log
    says ended; the model holds at most its bound and one, and its counters
    are the log's. *)
Theorem late_losers_accounted max ops :
  1 ≤ max →
  let s := lag_run max ops LaggingSet_new in
  default [] (lg_taken s) ++ lg_entries s ++ (lg_log s).*1 ≡ₚ pushed ops ∧
  len (default [] (lg_taken s)) + len (lg_entries s) ≤ max + 1 ∧
  lg_completed s = fates was_completed (lg_log s) ∧ lg_expired s = fates was_expired (lg_log s) ∧
  lg_evicted s = fates was_evicted (lg_log s).
Proof.
  intros Hmax s. assert (lag_ok max (pushed ops) s) as [H1 H2 H3 H4 H5 H6 H7].
  { subst s. induction ops as [|o ops IH] using rev_ind; 
    [constructor; [reflexivity|done|change (0 ≤ max); lia|change (0 + 0 ≤ Z.max max 1); lia|done..]|].
    unfold lag_run in *. rewrite foldl_app. cbn [foldl]. unfold pushed in *. rewrite omap_app.
    destruct o as [id| |polled]; cbn [lag_step omap list_omap]; rewrite ?app_nil_r.
    - by apply push_lagging_ok.
    - set (s := foldl _ _ _) in *. destruct (lg_taken s) eqn:E; [done|by apply collect_take_ok].
    - by apply collect_put_back_ok. }
  split_and!; [done|lia|done..].
Qed.
