(* ===== verification/Scheduler.v ===== *)
(** The deterministic event scheduler of the simulation engine
    (moonpool-sim/src/sim/events.rs).

    The heap is the list of its entries: [BinaryHeap::pop] takes the greatest
    by [Ord], which here is the earliest time and, among those, the smallest
    identifier.  Times are nanoseconds.  The specification [Agenda] is the list
    of live entries in execution order. *)
From stdpp Require Import base list numbers gmap sorting.
From S2P Require Import Prelude.

(** The longest [Duration]: [u64::MAX] seconds and 999 999 999 nanoseconds. *)
Definition DURATION_MAX : Z := 2 ^ 64 * 1000000000 - 1.

Inductive ScheduleError := TimeOverflow | SequenceOverflow.

Definition COMPACT_SLACK : Z := 64.

Section Scheduler.
Context {V : Type}.

Record Scheduled := mkScheduled {
  sc_time : Z;
  sc_value : V;
  sc_id : Z;
}.

Record Scheduler := mkScheduler {
  sd_now : Z;
  sd_next_sequence : Z;
  sd_heap : list Scheduled;
  sd_live : gset Z;
}.

Definition Scheduler_new : Scheduler := mkScheduler 0 0 [] ∅.

(** [a] runs before [b]: [Ord] reversed. *)
Definition runs_before (a b : Scheduled) : bool :=
  (sc_time a <? sc_time b) || ((sc_time a =? sc_time b) && (sc_id a <? sc_id b)).

(** [BinaryHeap::pop] *)
Fixpoint heap_pop (heap : list Scheduled) : option (Scheduled * list Scheduled) :=
  match heap with
  | [] => None
  | x :: heap =>
      match heap_pop heap with
      | None => Some (x, [])
      | Some (y, rest) => if runs_before y x then Some (y, x :: rest) else Some (x, heap)
      end
  end.

Definition schedule_at (time : Z) (value : V) (s : Scheduler) :
    Scheduler * (ScheduleError + Z) :=
  let time := Z.max time (sd_now s) in
  match checked_add64 (sd_next_sequence s) 1 with
  | None => (s, inl SequenceOverflow)
  | Some next_sequence =>
      let id := sd_next_sequence s in
      (mkScheduler (sd_now s) next_sequence (mkScheduled time value id :: sd_heap s)
         ({[id]} ∪ sd_live s), inr id)
  end.

Definition schedule_after (delay : Z) (value : V) (s : Scheduler) :
    Scheduler * (ScheduleError + Z) :=
  if sd_now s + delay <=? DURATION_MAX then schedule_at (sd_now s + delay) value s
  else (s, inl TimeOverflow).

Definition is_live (live : gset Z) (x : Scheduled) : bool := bool_decide (sc_id x ∈ live).

Definition cancel (id : Z) (s : Scheduler) : Scheduler * bool :=
  if bool_decide (id ∈ sd_live s) then
    let live := sd_live s ∖ {[id]} in
    let heap :=
      if 2 * Z.of_nat (size live) + COMPACT_SLACK <? len (sd_heap s)
      then filter (λ x, is_live live x = true) (sd_heap s) else sd_heap s in
    (mkScheduler (sd_now s) (sd_next_sequence s) heap live, true)
  else (s, false).

(** The loop of [pop]: tombstones are discarded. *)
Fixpoint pop_live (fuel : nat) (heap : list Scheduled) (live : gset Z) :
    option Scheduled * list Scheduled :=
  match fuel with
  | O => (None, heap)
  | S fuel =>
      match heap_pop heap with
      | None => (None, heap)
      | Some (x, heap) => if is_live live x then (Some x, heap) else pop_live fuel heap live
      end
  end.

Definition pop (s : Scheduler) : Scheduler * option Scheduled :=
  let '(popped, heap) := pop_live (S (length (sd_heap s))) (sd_heap s) (sd_live s) in
  match popped with
  | None => (mkScheduler (sd_now s) (sd_next_sequence s) heap (sd_live s), None)
  | Some x =>
      (mkScheduler (sc_time x) (sd_next_sequence s) heap (sd_live s ∖ {[sc_id x]}), Some x)
  end.

Definition Scheduler_len (s : Scheduler) : Z := Z.of_nat (size (sd_live s)).

Definition Scheduler_is_empty (s : Scheduler) : bool := bool_decide (sd_live s = ∅).

(** ** The agenda: what a scheduler promises *)

Record Agenda := mkAgenda {
  ag_now : Z;
  ag_next : Z;
  ag_entries : list Scheduled;    (* in execution order *)
}.

Fixpoint agenda_insert (x : Scheduled) (l : list Scheduled) : list Scheduled :=
  match l with
  | [] => [x]
  | y :: l' => if runs_before x y then x :: l else y :: agenda_insert x l'
  end.

Inductive SchedOp :=
  | OpAt (time : Z) (value : V)
  | OpAfter (delay : Z) (value : V)
  | OpCancel (id : Z)
  | OpPop.

Inductive SchedResult :=
  | RId (r : ScheduleError + Z)
  | RCancelled (b : bool)
  | RPopped (x : option Scheduled).

Definition sched_exec (o : SchedOp) (s : Scheduler) : Scheduler * SchedResult :=
  match o with
  | OpAt time value => let '(s, r) := schedule_at time value s in (s, RId r)
  | OpAfter delay value => let '(s, r) := schedule_after delay value s in (s, RId r)
  | OpCancel id => let '(s, b) := cancel id s in (s, RCancelled b)
  | OpPop => let '(s, x) := pop s in (s, RPopped x)
  end.

Definition agenda_at (time : Z) (value : V) (a : Agenda) : Agenda * (ScheduleError + Z) :=
  if ag_next a <? u64_max then
    (mkAgenda (ag_now a) (ag_next a + 1)
       (agenda_insert (mkScheduled (Z.max time (ag_now a)) value (ag_next a)) (ag_entries a)),
     inr (ag_next a))
  else (a, inl SequenceOverflow).

Definition agenda_exec (o : SchedOp) (a : Agenda) : Agenda * SchedResult :=
  match o with
  | OpAt time value => let '(a, r) := agenda_at time value a in (a, RId r)
  | OpAfter delay value =>
      if ag_now a + delay <=? DURATION_MAX
      then let '(a, r) := agenda_at (ag_now a + delay) value a in (a, RId r)
      else (a, RId (inl TimeOverflow))
  | OpCancel id =>
      (mkAgenda (ag_now a) (ag_next a) (filter (λ x, sc_id x ≠ id) (ag_entries a)),
       RCancelled (bool_decide (id ∈ sc_id <$> ag_entries a)))
  | OpPop =>
      match ag_entries a with
      | [] => (a, RPopped None)
      | x :: l => (mkAgenda (sc_time x) (ag_next a) l, RPopped (Some x))
      end
  end.

Fixpoint sched_run (ops : list SchedOp) (s : Scheduler) : Scheduler * list SchedResult :=
  match ops with
  | [] => (s, [])
  | o :: ops => let '(s, x) := sched_exec o s in let '(s, xs) := sched_run ops s in (s, x :: xs)
  end.

Fixpoint agenda_run (ops : list SchedOp) (a : Agenda) : Agenda * list SchedResult :=
  match ops with
  | [] => (a, [])
  | o :: ops => let '(a, x) := agenda_exec o a in let '(a, xs) := agenda_run ops a in (a, x :: xs)
  end.

(** ** The heap *)

Definition earlier (a b : Scheduled) : Prop := runs_before a b = true.

Lemma runs_before_spec a b :
  runs_before a b = true ↔
    sc_time a < sc_time b ∨ sc_time a = sc_time b ∧ sc_id a < sc_id b.
Proof. unfold runs_before. rewrite orb_true_iff, andb_true_iff, !Z.ltb_lt, Z.eqb_eq. done. Qed.

Lemma runs_before_false a b :
  runs_before a b = false → sc_id a ≠ sc_id b → earlier b a.
Proof.
  intros H Hne. apply runs_before_spec. apply not_true_iff_false in H.
  rewrite runs_before_spec in H. lia.
Qed.

Lemma earlier_trans a b c : earlier a b → earlier b c → earlier a c.
Proof. unfold earlier. rewrite !runs_before_spec. lia. Qed.

Lemma earlier_asym a b : earlier a b → earlier b a → False.
Proof. unfold earlier. rewrite !runs_before_spec. lia. Qed.

Lemma heap_pop_spec heap :
  match heap_pop heap with
  | None => heap = []
  | Some (x, rest) => heap ≡ₚ x :: rest ∧ Forall (λ y, runs_before y x = false) rest
  end.
Proof.
  induction heap as [|x heap IH]; [done|]. cbn. destruct (heap_pop heap) as [[y rest]|].
  - destruct IH as [Hp Hf]. destruct (runs_before y x) eqn:E.
    + split; [rewrite Hp; apply Permutation_swap|]. constructor; [|done].
      destruct (runs_before x y) eqn:E'; [|done]. by destruct (earlier_asym x y).
    + split; [done|]. rewrite Hp. constructor; [done|].
      eapply Forall_impl; [exact Hf|]. intros z Hz. cbn in *.
      destruct (runs_before z x) eqn:Ez; [|done].
      apply not_true_iff_false in Hz, E. rewrite runs_before_spec in *. lia.
  - subst heap. by split.
Qed.

Lemma filter_iff_in {A} (P Q : A → Prop) `{!∀ x, Decision (P x), !∀ x, Decision (Q x)} (l : list A) :
  (∀ x, x ∈ l → P x ↔ Q x) → filter P l = filter Q l.
Proof.
  induction l as [|x l IH]; intros Hl; [done|]. rewrite !filter_cons.
  rewrite IH by (intros y Hy; apply Hl; by right).
  assert (P x ↔ Q x) by (apply Hl; by left). repeat case_decide; done || tauto.
Qed.

(** ** Simulation *)

Definition live_entries (s : Scheduler) : list Scheduled :=
  filter (λ x, is_live (sd_live s) x = true) (sd_heap s).

Record sched_sim (s : Scheduler) (a : Agenda) : Prop := {
  ss_now : sd_now s = ag_now a;
  ss_next : sd_next_sequence s = ag_next a;
  ss_u64 : u64 (ag_next a);
  ss_entries : live_entries s ≡ₚ ag_entries a;
  ss_sorted : StronglySorted earlier (ag_entries a);
  ss_live id : id ∈ sd_live s ↔ id ∈ sc_id <$> ag_entries a;
  ss_ids : NoDup (sc_id <$> sd_heap s);
  ss_fresh : Forall (λ x, sc_id x < sd_next_sequence s) (sd_heap s);
  ss_future : Forall (λ x, ag_now a ≤ sc_time x) (ag_entries a);
}.

Lemma agenda_insert_perm x l : agenda_insert x l ≡ₚ x :: l.
Proof.
  induction l as [|y l IH]; [done|]. cbn. destruct (runs_before x y); [done|].
  rewrite IH. apply Permutation_swap.
Qed.

Lemma agenda_insert_sorted x l :
  StronglySorted earlier l → sc_id x ∉ sc_id <$> l → StronglySorted earlier (agenda_insert x l).
Proof.
  induction 1 as [|y l Hl IH Hy]; intros Hx; cbn; [by repeat constructor|].
  cbn in Hx. apply not_elem_of_cons in Hx as [Hne Hx]. destruct (runs_before x y) eqn:E.
  - constructor; [by constructor|]. constructor; [done|].
    eapply Forall_impl; [exact Hy|]. intros z Hz. by eapply earlier_trans.
  - constructor; [by apply IH|]. rewrite agenda_insert_perm. constructor; [|done].
    by apply runs_before_false.
Qed.

Lemma NoDup_filter_ids (P : Scheduled → Prop) `{!∀ x, Decision (P x)} l :
  NoDup (sc_id <$> l) → NoDup (sc_id <$> filter P l).
Proof.
  induction l as [|x l IH]; [done|]. cbn [fmap list_fmap]. intros [Hx Hl]%NoDup_cons.
  rewrite filter_cons. case_decide; [|by apply IH]. cbn [fmap list_fmap]. apply NoDup_cons.
  split; [|by apply IH]. intros (y & E & [_ Hy]%list_elem_of_filter)%list_elem_of_fmap.
  apply Hx, list_elem_of_fmap. by exists y.
Qed.

Lemma schedule_at_sim s a time value :
  sched_sim s a →
  sched_sim (fst (schedule_at time value s)) (fst (agenda_at time value a)) ∧
  snd (schedule_at time value s) = snd (agenda_at time value a).
Proof.
  intros Hs. pose proof Hs as []. unfold schedule_at, agenda_at, checked_add64.
  rewrite ss_next0. unfold u64_max, in_u in *.
  destruct (Z.leb_spec (ag_next a + 1) (2 ^ 64 - 1)), (Z.ltb_spec (ag_next a) (2 ^ 64 - 1));
    try lia; [|done]. cbn [fst snd]. rewrite ss_now0. split; [|done].
  set (x := mkScheduled (Z.max time (ag_now a)) value (ag_next a)).
  assert (ag_next a ∉ sc_id <$> sd_heap s) as Hnew.
  { intros (y & E & Hy)%list_elem_of_fmap. rewrite Forall_forall in ss_fresh0.
    specialize (ss_fresh0 y Hy). lia. }
  assert (ag_next a ∉ sc_id <$> ag_entries a) as Hnew'.
  { rewrite <- ss_entries0. intros (y & E & [_ Hy]%list_elem_of_filter)%list_elem_of_fmap.
    apply Hnew, list_elem_of_fmap. by exists y. }
  assert (filter (λ y, is_live ({[ag_next a]} ∪ sd_live s) y = true) (sd_heap s) =
          live_entries s) as Hf.
  { unfold live_entries. apply filter_iff_in. intros y Hy.
    unfold is_live. rewrite !bool_decide_eq_true. split; [|set_solver].
    rewrite elem_of_union, elem_of_singleton. intros [E|]; [|done].
    destruct Hnew. apply list_elem_of_fmap. by exists y. }
  constructor; cbn [sd_now sd_next_sequence sd_heap sd_live ag_now ag_next ag_entries].
  - done.
  - done.
  - unfold in_u. lia.
  - unfold live_entries; cbn [sd_heap sd_live]. rewrite filter_cons_True.
    + rewrite Hf, agenda_insert_perm. by constructor.
    + unfold is_live; cbn. apply bool_decide_eq_true. set_solver.
  - by apply agenda_insert_sorted.
  - intros id. rewrite agenda_insert_perm. cbn. rewrite elem_of_cons, <- ss_live0. set_solver.
  - cbn. by apply NoDup_cons.
  - constructor; [cbn; lia|]. eapply Forall_impl; [exact ss_fresh0|]. cbn. lia.
  - rewrite agenda_insert_perm. constructor; [cbn; lia|done].
Qed.

Lemma cancel_sim s a id :
  sched_sim s a →
  sched_sim (fst (cancel id s)) (fst (agenda_exec (OpCancel id) a)) ∧
  snd (cancel id s) = bool_decide (id ∈ sc_id <$> ag_entries a).
Proof.
  intros Hs. pose proof Hs as []. unfold cancel. cbn [agenda_exec fst].
  rewrite (bool_decide_ext (id ∈ sd_live s) (id ∈ sc_id <$> ag_entries a)) by apply ss_live0.
  case_bool_decide as Hid; cbn [fst snd].
  2:{ split; [|done]. assert (filter (λ x, sc_id x ≠ id) (ag_entries a) = ag_entries a) as ->.
      { assert (filter (λ x, sc_id x ≠ id) (ag_entries a) = filter (λ _, True) (ag_entries a)) as ->.
        { apply filter_iff_in. intros x Hx. split; [done|]. intros _ <-. apply Hid.
          apply list_elem_of_fmap. by exists x. }
        clear. induction (ag_entries a) as [|x l IH]; [done|]. rewrite filter_cons_True by done.
        by rewrite IH. }
      by destruct a. }
  split; [|done]. set (live := sd_live s ∖ {[id]}).
  assert (∀ h, h = sd_heap s ∨ h = filter (λ x, is_live live x = true) (sd_heap s) →
    filter (λ x, is_live live x = true) h =
      filter (λ x, sc_id x ≠ id) (live_entries s)) as Hh.
  { intros h Hh. trans (filter (λ x, is_live live x = true) (sd_heap s)).
    - destruct Hh as [->| ->]; [done|]. rewrite list_filter_filter. apply filter_iff_in. tauto.
    - unfold live_entries. rewrite list_filter_filter. apply filter_iff_in. intros x Hx.
      unfold is_live, live. rewrite !bool_decide_eq_true. set_solver. }
  match goal with |- sched_sim (mkScheduler _ _ ?h _) _ => set (heap := h) end.
  assert (heap = sd_heap s ∨ heap = filter (λ x, is_live live x = true) (sd_heap s)) as Hheap.
  { unfold heap. destruct (_ <? _); [by right|by left]. }
  constructor; cbn [sd_now sd_next_sequence sd_heap sd_live ag_now ag_next ag_entries]; try done.
  - unfold live_entries at 1; cbn [sd_heap sd_live]. rewrite Hh by done. by rewrite ss_entries0.
  - clear -ss_sorted0. induction ss_sorted0 as [|x l Hl IH Hx]; [constructor|].
    rewrite filter_cons. case_decide; [|done]. constructor; [done|].
    apply Forall_forall. intros y [_ Hy]%list_elem_of_filter. rewrite Forall_forall in Hx. auto.
  - intros id'. unfold live. rewrite elem_of_difference, elem_of_singleton, ss_live0.
    rewrite !list_elem_of_fmap. split.
    + intros [(x & -> & Hx) Hne]. exists x. by rewrite list_elem_of_filter.
    + intros (x & -> & [Hne Hx]%list_elem_of_filter). split; [by exists x|done].
  - destruct Hheap as [->| ->]; [done|]. by apply NoDup_filter_ids.
  - destruct Hheap as [->| ->]; [done|]. apply Forall_forall.
    intros x [_ Hx]%list_elem_of_filter. rewrite Forall_forall in ss_fresh0. auto.
  - apply Forall_forall. intros x [_ Hx]%list_elem_of_filter. rewrite Forall_forall in ss_future0.
    auto.
Qed.

Lemma pop_live_spec fuel heap live :
  (length heap < fuel)%nat → NoDup (sc_id <$> heap) →
  let '(popped, rest) := pop_live fuel heap live in
  match popped with
  | None => filter (λ x, is_live live x = true) heap = [] ∧ rest = []
  | Some x =>
      filter (λ x, is_live live x = true) heap ≡ₚ x :: filter (λ x, is_live live x = true) rest ∧
      Forall (λ y, runs_before y x = false) rest ∧ is_live live x = true ∧
      ∃ dead, heap ≡ₚ x :: dead ++ rest
  end.
Proof.
  revert heap. induction fuel as [|fuel IH]; intros heap Hl Hn; [lia|]. cbn.
  pose proof (heap_pop_spec heap) as P. destruct (heap_pop heap) as [[x rest]|].
  2:{ by subst. }
  destruct P as [Hp Hf]. destruct (is_live live x) eqn:Ex.
  - split_and!; [|done|done|by exists []]. rewrite Hp. by rewrite filter_cons_True.
  - assert (length heap = S (length rest)) as Hlen by (by rewrite Hp).
    specialize (IH rest ltac:(lia)).
    assert (NoDup (sc_id <$> rest)) as Hn'.
    { rewrite Hp in Hn. cbn in Hn. by apply NoDup_cons in Hn as [_ ?]. }
    specialize (IH Hn'). destruct (pop_live fuel rest live) as [[y|] rest'].
    + destruct IH as (H1 & H2 & H3 & dead & H4). split_and!; [|done|done|].
      * rewrite Hp, filter_cons_False by (by rewrite Ex). done.
      * exists (x :: dead). rewrite Hp, H4. cbn. apply Permutation_swap.
    + destruct IH as [H1 H2]. split; [|done]. apply Permutation_nil.
      rewrite Hp, filter_cons_False by (by rewrite Ex). by rewrite H1.
Qed.

(** The earliest entry of a sorted list is its head. *)
Lemma sorted_head x l rest :
  StronglySorted earlier l → l ≡ₚ x :: rest → Forall (λ y, runs_before y x = false) rest →
  ∃ l', l = x :: l' ∧ l' ≡ₚ rest ∧ StronglySorted earlier l' ∧ Forall (earlier x) l'.
Proof.
  intros Hs Hp Hf. destruct l as [|y l']; [by apply Permutation_nil_cons in Hp|].
  apply StronglySorted_inv in Hs as [Hs Hy].
  assert (y ∈ x :: rest) as Hin by (rewrite <- Hp; by left).
  apply elem_of_cons in Hin as [->|Hin].
  - exists l'. apply Permutation_cons_inv in Hp. by split_and!.
  - assert (x ∈ y :: l') as Hx by (rewrite Hp; by left).
    rewrite Forall_forall in Hf, Hy. specialize (Hf y Hin). cbn in Hf.
    apply elem_of_cons in Hx as [->|Hx].
    + exists l'. apply Permutation_cons_inv in Hp. split_and!; try done. by apply Forall_forall.
    + specialize (Hy x Hx). unfold earlier in Hy. congruence.
Qed.

Lemma pop_sim s a :
  sched_sim s a →
  sched_sim (fst (pop s)) (fst (agenda_exec OpPop a)) ∧
  RPopped (snd (pop s)) = snd (agenda_exec OpPop a).
Proof.
  intros Hs. pose proof Hs as []. unfold pop.
  pose proof (pop_live_spec (S (length (sd_heap s))) (sd_heap s) (sd_live s) ltac:(lia) ss_ids0) as P.
  destruct (pop_live _ _ _) as [[x|] rest]; cbn [agenda_exec].
  - destruct P as (P1 & P2 & P3 & dead & P4). fold (live_entries s) in P1.
    rewrite ss_entries0 in P1.
    assert (Forall (λ y, runs_before y x = false)
              (filter (λ x, is_live (sd_live s) x = true) rest)) as P2'.
    { apply Forall_forall. intros y [_ Hy]%list_elem_of_filter. rewrite Forall_forall in P2. auto. }
    destruct (sorted_head x _ _ ss_sorted0 P1 P2') as (l' & El & Hl' & Hsl & Hxl).
    rewrite El in *. cbn [fst snd]. split; [|done].
    assert (NoDup (sc_id <$> x :: dead ++ rest)) as Hn by (by rewrite <- P4).
    cbn [fmap list_fmap] in Hn. rewrite fmap_app in Hn. apply NoDup_cons in Hn as [Hx Hn].
    apply NoDup_app in Hn as (_ & _ & Hn). apply not_elem_of_app in Hx as [_ Hx].
    assert (sc_id x ∉ sc_id <$> l') as Hxl'.
    { rewrite Hl'. intros (y & Ey & [_ Hy]%list_elem_of_filter)%list_elem_of_fmap.
      apply Hx, list_elem_of_fmap. by exists y. }
    constructor; cbn [sd_now sd_next_sequence sd_heap sd_live ag_now ag_next ag_entries]; try done.
    + rewrite Hl'. unfold live_entries; cbn [sd_heap sd_live].
      rewrite (filter_iff_in (λ y, is_live (sd_live s ∖ {[sc_id x]}) y = true)
        (λ y, is_live (sd_live s) y = true)); [done|].
      intros y Hy. unfold is_live. rewrite !bool_decide_eq_true.
      split; [set_solver|]. intros ?. apply elem_of_difference. split; [done|].
      rewrite elem_of_singleton. intros Ey. apply Hx. rewrite <- Ey. apply list_elem_of_fmap.
      by exists y.
    + intros id. rewrite elem_of_difference, elem_of_singleton, ss_live0. cbn.
      rewrite elem_of_cons. split; [intros [[]]; done|]. intros Hid. split; [by right|].
      by intros ->.
    + rewrite P4 in ss_fresh0. apply Forall_cons in ss_fresh0 as [_ Hfr].
      by apply Forall_app in Hfr as [_ ?].
    + eapply Forall_impl; [exact Hxl|]. intros y Hy. apply runs_before_spec in Hy. lia.
  - destruct P as [P1 ->]. fold (live_entries s) in P1. rewrite P1 in ss_entries0.
    apply Permutation_nil in ss_entries0. rewrite ss_entries0 in *. cbn [fst snd]. split; [|done].
    constructor; cbn [sd_now sd_next_sequence sd_heap sd_live]; rewrite ?ss_entries0; try done.
    by apply NoDup_nil.
Qed.

Lemma sched_exec_sim s a o :
  sched_sim s a →
  sched_sim (fst (sched_exec o s)) (fst (agenda_exec o a)) ∧
  snd (sched_exec o s) = snd (agenda_exec o a).
Proof.
  intros Hs. destruct o as [time value|delay value|id|]; cbn [sched_exec agenda_exec].
  - destruct (schedule_at_sim s a time value Hs) as [H1 H2].
    destruct (schedule_at time value s), (agenda_at time value a). cbn in *. by subst.
  - unfold schedule_after. rewrite (ss_now _ _ Hs).
    destruct (_ <=? _); [|by split].
    destruct (schedule_at_sim s a (ag_now a + delay) value Hs) as [H1 H2].
    destruct (schedule_at _ value s), (agenda_at _ value a). cbn in *. by subst.
  - destruct (cancel_sim s a id Hs) as [H1 H2]. destruct (cancel id s). cbn in *. by subst.
  - destruct (pop_sim s a Hs) as [H1 H2]. by destruct (pop s).
Qed.

Lemma sched_run_sim ops s a :
  sched_sim s a →
  sched_sim (fst (sched_run ops s)) (fst (agenda_run ops a)) ∧
  snd (sched_run ops s) = snd (agenda_run ops a).
Proof.
  revert s a. induction ops as [|o ops IH]; intros s a Hs; [done|]. cbn.
  destruct (sched_exec_sim s a o Hs) as [H1 H2].
  destruct (sched_exec o s) as [s1 x], (agenda_exec o a) as [a1 x']. cbn in H1, H2. subst x'.
  destruct (IH s1 a1 H1) as [H3 H4].
  destruct (sched_run ops s1), (agenda_run ops a1). cbn in *. by subst.
Qed.

Lemma Scheduler_new_sim : sched_sim Scheduler_new (mkAgenda 0 0 []).
Proof.
  constructor; cbn; try done; [constructor|set_solver|by apply NoDup_nil].
Qed.

Lemma sched_exec_now s a o :
  sched_sim s a → sd_now s ≤ sd_now (fst (sched_exec o s)).
Proof.
  intros Hs. destruct (sched_exec_sim s a o Hs) as [H1 _].
  rewrite (ss_now _ _ Hs), (ss_now _ _ H1). pose proof (ss_future _ _ Hs) as Hf.
  destruct o as [time value|delay value|id|]; cbn.
  - unfold agenda_at. destruct (_ <? _); cbn; lia.
  - destruct (_ <=? _); cbn; [|lia]. unfold agenda_at. destruct (_ <? _); cbn; lia.
  - lia.
  - destruct (ag_entries a) as [|x l]; cbn; [lia|]. by apply Forall_cons in Hf as [? _].
Qed.

Lemma sched_run_app ops ops' s :
  fst (sched_run (ops ++ ops') s) = fst (sched_run ops' (fst (sched_run ops s))).
Proof.
  revert s. induction ops as [|o ops IH]; intros s; [done|]. cbn.
  destruct (sched_exec o s) as [s1 x]. specialize (IH s1).
  destruct (sched_run ops s1), (sched_run (ops ++ ops') s1). cbn in *. done.
Qed.

(** ** Theorems *)

(** C14: the scheduler is an agenda: whatever the sequence of scheduling,
    cancelling and popping, with tombstones left in the heap or compacted
    away, every result is that of the list of live entries kept in order of
    time and then of identifier: identifiers are consecutive, a cancel
    succeeds exactly on a live entry, a cancelled entry never runs, ties run
    in scheduling order, times in the past are clamped, and an overflow of
    the time or of the sequence changes nothing. *)
Theorem scheduler_refines_agenda ops :
  snd (sched_run ops Scheduler_new) = snd (agenda_run ops (mkAgenda 0 0 [])) ∧
  Scheduler_len (fst (sched_run ops Scheduler_new)) =
    len (ag_entries (fst (agenda_run ops (mkAgenda 0 0 [])))).
Proof.
  destruct (sched_run_sim ops _ _ Scheduler_new_sim) as [Hs E]. split; [done|].
  set (s := fst (sched_run ops Scheduler_new)) in *.
  set (a := fst (agenda_run ops (mkAgenda 0 0 []))) in *. pose proof Hs as [].
  unfold Scheduler_len, len. f_equal. rewrite <- (length_fmap sc_id).
  assert (sd_live s = list_to_set (sc_id <$> ag_entries a)) as ->.
  { apply set_eq. intros id. by rewrite elem_of_list_to_set. }
  apply size_list_to_set. rewrite <- ss_entries0. by apply NoDup_filter_ids.
Qed.

(** Simulated time never goes back, and the work left for tombstones is
    bounded: no call moves the clock backwards, and after a cancel the heap
    holds at most twice the live entries plus the slack; cancelling what is
    not scheduled changes nothing. *)
Theorem time_never_goes_back ops ops' id :
  let s := fst (sched_run ops Scheduler_new) in
  sd_now s ≤ sd_now (fst (sched_run (ops ++ ops') Scheduler_new)) ∧
  match cancel id s with
  | (s', true) => len (sd_heap s') ≤ 2 * Scheduler_len s' + COMPACT_SLACK
  | (s', false) => s' = s
  end.
Proof.
  intros s. destruct (sched_run_sim ops _ _ Scheduler_new_sim) as [Hs _]. fold s in Hs. split.
  - rewrite sched_run_app. fold s. revert Hs. generalize (fst (agenda_run ops (mkAgenda 0 0 []))).
    generalize s. clear. induction ops' as [|o ops' IH]; intros s a Hs; [done|]. cbn.
    pose proof (sched_exec_now s a o Hs). destruct (sched_exec_sim s a o Hs) as [H1 _].
    destruct (sched_exec o s) as [s1 x], (agenda_exec o a) as [a1 x']. cbn in *.
    specialize (IH s1 a1 H1). destruct (sched_run ops' s1). cbn in *. lia.
  - unfold cancel, Scheduler_len. case_bool_decide; [|done]. cbn.
    destruct (Z.ltb_spec (2 * Z.of_nat (size (sd_live s ∖ {[id]})) + COMPACT_SLACK)
                (len (sd_heap s))) as [|Hle]; [|lia].
    set (live := sd_live s ∖ {[id]}). unfold len.
    assert (length (filter (λ x, is_live live x = true) (sd_heap s)) ≤ size live)%nat as Hlen.
    { rewrite <- (length_fmap sc_id), <- (size_list_to_set (C := gset Z)).
      - apply subseteq_size. intros i. rewrite elem_of_list_to_set.
        intros (x & -> & [Hx _]%list_elem_of_filter)%list_elem_of_fmap.
        by apply bool_decide_eq_true in Hx.
      - apply NoDup_filter_ids, (ss_ids _ _ Hs). }
    unfold COMPACT_SLACK. lia.
Qed.

End Scheduler.
Arguments Scheduler : clear implicits.
Arguments Scheduled : clear implicits.
Arguments Agenda : clear implicits.
