(* ===== verification/Network.v ===== *)
(** The simulated network's byte streams
    (moonpool-sim/src/network/sim: state.rs, delivery.rs, the stream half of
    engine.rs, the partitions and black holes of faults.rs, and the polls of
    stream.rs).

    A byte an application writes sits in its endpoint's send queue, then in
    flight, then in the peer's receive buffer, until the peer's application
    reads it.  A [SendWindow] charges the writer for it all the way.  Handlers
    schedule events and wake parked tasks; both are outputs, gathered in
    [nw_actions] and [nw_wakes] of the state.  [None] is a panic: an over- or
    under-run of a window.

    Durations are nanoseconds, saturating at [DURATION_MAX].  IP addresses are
    any countable type.  The random draws are arguments.  Listeners, backlogs,
    the printed addresses and the record of injected faults are left out. *)

From stdpp Require Import base list numbers gmap sorting.
From S2P Require Import Prelude Scheduler.
#[local] Open Scope Z_scope.

Definition sat_add (t d : Z) : Z := Z.min (t + d) DURATION_MAX.
Definition sat_mul (t k : Z) : Z := Z.min (t * k) DURATION_MAX.
(** [Duration::saturating_sub] *)
Definition sat_sub (t d : Z) : Z := Z.max 0 (t - d).

(** ** State (state.rs) *)

Inductive CloseReason := CloseNone | CloseGraceful | CloseAborted.

Inductive InFlightPayload := Data (bytes : list byte) | Fin.

Definition payload_bytes (p : InFlightPayload) : list byte :=
  match p with Data bytes => bytes | Fin => [] end.

Record InFlight := mkInFlight {
  if_seq : Z;
  if_deliver_at : Z;
  if_payload : InFlightPayload;
}.

Record SendChunk := mkSendChunk {
  ck_data : list byte;
  ck_ready_at : Z;
}.

(** The bits of [ConnectionFlags]. *)
Record ConnectionFlags := mkFlags {
  fl_is_closed : bool;
  fl_send_closed : bool;
  fl_recv_closed : bool;
  fl_graceful_close_pending : bool;
  fl_remote_fin_received : bool;
  fl_send_in_progress : bool;
  fl_send_stalled : bool;
  fl_send_black_holed : bool;
}.

Definition no_flags : ConnectionFlags := mkFlags false false false false false false false false.

Record SendWindow := mkWindow {
  win_capacity : Z;
  win_outstanding : Z;
}.

Definition SendWindow_new (capacity : Z) : SendWindow := mkWindow capacity 0.

Definition available (w : SendWindow) : option Z :=
  if win_outstanding w <=? win_capacity w then Some (win_capacity w - win_outstanding w) else None.

Definition acquire (bytes : Z) (w : SendWindow) : option SendWindow :=
  if win_outstanding w + bytes <=? win_capacity w
  then Some (mkWindow (win_capacity w) (win_outstanding w + bytes)) else None.

Definition release (bytes : Z) (w : SendWindow) : option SendWindow :=
  if bytes <=? win_outstanding w
  then Some (mkWindow (win_capacity w) (win_outstanding w - bytes)) else None.

Section Network.
Context {IP : Type} `{Countable IP}.

Record ConnectionState := mkConnection {
  cn_local_ip : option IP;
  cn_remote_ip : option IP;
  cn_receive_buffer : list byte;
  cn_paired : option Z;
  cn_send_buffer : list SendChunk;
  cn_in_flight : list InFlight;
  cn_held_since : option Z;
  cn_next_seq : Z;
  cn_last_delivery_at : option Z;
  cn_flags : ConnectionFlags;
  cn_close_reason : CloseReason;
  cn_window : SendWindow;
}.

(** [queued_bytes] and [in_flight_bytes]: the bytes, and so their number. *)
Definition queued (c : ConnectionState) : list byte := concat (ck_data <$> cn_send_buffer c).
Definition flying (c : ConnectionState) : list byte :=
  concat ((payload_bytes ∘ if_payload) <$> cn_in_flight c).
Definition queued_bytes (c : ConnectionState) : Z := len (queued c).
Definition in_flight_bytes (c : ConnectionState) : Z := len (flying c).

Definition with_receive (b : list byte) (c : ConnectionState) : ConnectionState :=
  mkConnection (cn_local_ip c) (cn_remote_ip c) b (cn_paired c) (cn_send_buffer c)
    (cn_in_flight c) (cn_held_since c) (cn_next_seq c) (cn_last_delivery_at c) (cn_flags c)
    (cn_close_reason c) (cn_window c).
Definition with_queue (q : list SendChunk) (c : ConnectionState) : ConnectionState :=
  mkConnection (cn_local_ip c) (cn_remote_ip c) (cn_receive_buffer c) (cn_paired c) q
    (cn_in_flight c) (cn_held_since c) (cn_next_seq c) (cn_last_delivery_at c) (cn_flags c)
    (cn_close_reason c) (cn_window c).
Definition with_flight (f : list InFlight) (c : ConnectionState) : ConnectionState :=
  mkConnection (cn_local_ip c) (cn_remote_ip c) (cn_receive_buffer c) (cn_paired c)
    (cn_send_buffer c) f (cn_held_since c) (cn_next_seq c) (cn_last_delivery_at c) (cn_flags c)
    (cn_close_reason c) (cn_window c).
Definition with_held (h : option Z) (c : ConnectionState) : ConnectionState :=
  mkConnection (cn_local_ip c) (cn_remote_ip c) (cn_receive_buffer c) (cn_paired c)
    (cn_send_buffer c) (cn_in_flight c) h (cn_next_seq c) (cn_last_delivery_at c) (cn_flags c)
    (cn_close_reason c) (cn_window c).
Definition with_clock (seq : Z) (last : option Z) (c : ConnectionState) : ConnectionState :=
  mkConnection (cn_local_ip c) (cn_remote_ip c) (cn_receive_buffer c) (cn_paired c)
    (cn_send_buffer c) (cn_in_flight c) (cn_held_since c) seq last (cn_flags c)
    (cn_close_reason c) (cn_window c).
Definition with_flags (f : ConnectionFlags) (c : ConnectionState) : ConnectionState :=
  mkConnection (cn_local_ip c) (cn_remote_ip c) (cn_receive_buffer c) (cn_paired c)
    (cn_send_buffer c) (cn_in_flight c) (cn_held_since c) (cn_next_seq c)
    (cn_last_delivery_at c) f (cn_close_reason c) (cn_window c).
Definition with_reason (r : CloseReason) (c : ConnectionState) : ConnectionState :=
  mkConnection (cn_local_ip c) (cn_remote_ip c) (cn_receive_buffer c) (cn_paired c)
    (cn_send_buffer c) (cn_in_flight c) (cn_held_since c) (cn_next_seq c)
    (cn_last_delivery_at c) (cn_flags c) r (cn_window c).
Definition with_window (w : SendWindow) (c : ConnectionState) : ConnectionState :=
  mkConnection (cn_local_ip c) (cn_remote_ip c) (cn_receive_buffer c) (cn_paired c)
    (cn_send_buffer c) (cn_in_flight c) (cn_held_since c) (cn_next_seq c)
    (cn_last_delivery_at c) (cn_flags c) (cn_close_reason c) w.

(** The flag setters. *)
Definition set_is_closed (v : bool) (f : ConnectionFlags) : ConnectionFlags :=
  mkFlags v (fl_send_closed f) (fl_recv_closed f) (fl_graceful_close_pending f)
    (fl_remote_fin_received f) (fl_send_in_progress f) (fl_send_stalled f) (fl_send_black_holed f).
Definition set_send_closed (v : bool) (f : ConnectionFlags) : ConnectionFlags :=
  mkFlags (fl_is_closed f) v (fl_recv_closed f) (fl_graceful_close_pending f)
    (fl_remote_fin_received f) (fl_send_in_progress f) (fl_send_stalled f) (fl_send_black_holed f).
Definition set_recv_closed (v : bool) (f : ConnectionFlags) : ConnectionFlags :=
  mkFlags (fl_is_closed f) (fl_send_closed f) v (fl_graceful_close_pending f)
    (fl_remote_fin_received f) (fl_send_in_progress f) (fl_send_stalled f) (fl_send_black_holed f).
Definition set_graceful_close_pending (v : bool) (f : ConnectionFlags) : ConnectionFlags :=
  mkFlags (fl_is_closed f) (fl_send_closed f) (fl_recv_closed f) v
    (fl_remote_fin_received f) (fl_send_in_progress f) (fl_send_stalled f) (fl_send_black_holed f).
Definition set_remote_fin_received (v : bool) (f : ConnectionFlags) : ConnectionFlags :=
  mkFlags (fl_is_closed f) (fl_send_closed f) (fl_recv_closed f) (fl_graceful_close_pending f)
    v (fl_send_in_progress f) (fl_send_stalled f) (fl_send_black_holed f).
Definition set_send_in_progress (v : bool) (f : ConnectionFlags) : ConnectionFlags :=
  mkFlags (fl_is_closed f) (fl_send_closed f) (fl_recv_closed f) (fl_graceful_close_pending f)
    (fl_remote_fin_received f) v (fl_send_stalled f) (fl_send_black_holed f).
Definition set_send_stalled (v : bool) (f : ConnectionFlags) : ConnectionFlags :=
  mkFlags (fl_is_closed f) (fl_send_closed f) (fl_recv_closed f) (fl_graceful_close_pending f)
    (fl_remote_fin_received f) (fl_send_in_progress f) v (fl_send_black_holed f).
Definition set_send_black_holed (v : bool) (f : ConnectionFlags) : ConnectionFlags :=
  mkFlags (fl_is_closed f) (fl_send_closed f) (fl_recv_closed f) (fl_graceful_close_pending f)
    (fl_remote_fin_received f) (fl_send_in_progress f) (fl_send_stalled f) v.

Definition flag (f : ConnectionFlags → ConnectionFlags) (c : ConnectionState) : ConnectionState :=
  with_flags (f (cn_flags c)) c.

(** event.rs, [NetworkEvent] *)
Inductive NetworkEvent :=
  | Maintenance
  | ClogClear (id expected_deadline : Z)
  | ReadClogClear (id expected_deadline : Z)
  | PartitionRestore (expected_deadline : Z)
  | SendPartitionClear (expected_deadline : Z)
  | RecvPartitionClear (expected_deadline : Z)
  | Delivery (id seq : Z)
  | ProcessSendBuffer (id : Z).

(** Who a wake is for. *)
Inductive Waiter := ReadWaiter (id : Z) | SendWaiter (id : Z) | WriteClogWaiter (id : Z) | ReadClogWaiter (id : Z).

#[global] Instance Waiter_eq_dec : EqDecision Waiter.
Proof. solve_decision. Defined.
#[global] Instance Waiter_countable : Countable Waiter.
Proof.
  refine (inj_countable'
    (λ w, match w with
          | ReadWaiter i => (0, i) | SendWaiter i => (1, i)
          | WriteClogWaiter i => (2, i) | ReadClogWaiter i => (3, i) end)
    (λ x, if decide (x.1 = 0) then ReadWaiter x.2 else if decide (x.1 = 1) then SendWaiter x.2
          else if decide (x.1 = 2) then WriteClogWaiter x.2 else ReadClogWaiter x.2) _).
  by intros [].
Defined.

(** [NetworkState] and the waiters of [NetworkSimulation]. *)
Record Net := mkNet {
  nw_next_id : Z;
  nw_connections : gmap Z ConnectionState;
  nw_ip_partitions : gmap (IP * IP) Z;
  nw_send_partitions : gmap IP Z;
  nw_recv_partitions : gmap IP Z;
  nw_write_clogs : gmap Z Z;
  nw_read_clogs : gmap Z Z;
  nw_pair_latencies : gmap (IP * IP) Z;
  nw_slow_factors : gmap IP Z;
  nw_waiters : gset Waiter;
  nw_actions : list (Z * NetworkEvent);
  nw_wakes : list Waiter;
}.

Definition with_connections (m : gmap Z ConnectionState) (n : Net) : Net :=
  mkNet (nw_next_id n) m (nw_ip_partitions n) (nw_send_partitions n) (nw_recv_partitions n)
    (nw_write_clogs n) (nw_read_clogs n) (nw_pair_latencies n) (nw_slow_factors n) (nw_waiters n)
    (nw_actions n) (nw_wakes n).
Definition with_partitions (ip : gmap (IP * IP) Z) (s r : gmap IP Z) (n : Net) : Net :=
  mkNet (nw_next_id n) (nw_connections n) ip s r (nw_write_clogs n) (nw_read_clogs n)
    (nw_pair_latencies n) (nw_slow_factors n) (nw_waiters n) (nw_actions n) (nw_wakes n).
Definition with_clogs (w r : gmap Z Z) (n : Net) : Net :=
  mkNet (nw_next_id n) (nw_connections n) (nw_ip_partitions n) (nw_send_partitions n)
    (nw_recv_partitions n) w r (nw_pair_latencies n) (nw_slow_factors n) (nw_waiters n)
    (nw_actions n) (nw_wakes n).
Definition with_waiters (s : gset Waiter) (wakes : list Waiter) (n : Net) : Net :=
  mkNet (nw_next_id n) (nw_connections n) (nw_ip_partitions n) (nw_send_partitions n)
    (nw_recv_partitions n) (nw_write_clogs n) (nw_read_clogs n) (nw_pair_latencies n)
    (nw_slow_factors n) s (nw_actions n) wakes.

(** [NetworkActions::schedule_at] *)
Definition schedule (at_ : Z) (e : NetworkEvent) (n : Net) : Net :=
  mkNet (nw_next_id n) (nw_connections n) (nw_ip_partitions n) (nw_send_partitions n)
    (nw_recv_partitions n) (nw_write_clogs n) (nw_read_clogs n) (nw_pair_latencies n)
    (nw_slow_factors n) (nw_waiters n) (nw_actions n ++ [(at_, e)]) (nw_wakes n).

(** [connections.get_mut(&id)] followed by an update *)
Definition update (id : Z) (f : ConnectionState → ConnectionState) (n : Net) : Net :=
  with_connections (alter f id (nw_connections n)) n.

(** [take_waiter] / [wakes.push(registry.take(..))] *)
Definition take_waiter (w : Waiter) (n : Net) : Net :=
  if bool_decide (w ∈ nw_waiters n)
  then with_waiters (nw_waiters n ∖ {[w]}) (nw_wakes n ++ [w]) n else n.

Definition connection (n : Net) (id : Z) : option ConnectionState := nw_connections n !! id.
Definition paired (n : Net) (id : Z) : option Z := connection n id ≫= cn_paired.

Definition conn_ids (n : Net) : list Z := merge_sort Z.le (map_to_list (nw_connections n)).*1.

(** ** Partitions (state.rs) *)

Definition in_force (now : Z) (d : option Z) : option Z :=
  match d with Some e => if now <? e then Some e else None | None => None end.

Definition opt_max (a b : option Z) : option Z :=
  match a, b with
  | Some x, Some y => Some (Z.max x y)
  | Some x, None => Some x
  | None, b => b
  end.

Definition partition_clear_at (n : Net) (from to : IP) (now : Z) : option Z :=
  opt_max (in_force now (nw_ip_partitions n !! (from, to)))
    (opt_max (in_force now (nw_send_partitions n !! from))
       (in_force now (nw_recv_partitions n !! to))).

Definition is_partitioned (n : Net) (from to : IP) (now : Z) : bool :=
  bool_decide (is_Some (partition_clear_at n from to now)).

Definition connection_partition_clear_at (n : Net) (id now : Z) : option Z :=
  c ← connection n id; l ← cn_local_ip c; r ← cn_remote_ip c; partition_clear_at n l r now.

Definition is_cut (n : Net) (id now : Z) : bool :=
  bool_decide (is_Some (connection_partition_clear_at n id now)).

(** ** Windows and discards (engine.rs) *)

Definition release_window (sender bytes : Z) (n : Net) : option Net :=
  if bytes =? 0 then Some n
  else
    match connection n sender with
    | None => Some n
    | Some c =>
        w ← release bytes (cn_window c);
        Some (take_waiter (SendWaiter sender) (update sender (with_window w) n))
    end.

Definition discard_send_queue (id : Z) (n : Net) : option Net :=
  match connection n id with
  | None => Some n
  | Some c =>
      w ← release (queued_bytes c) (cn_window c);
      Some (update id (with_window w ∘ with_queue []) n)
  end.

Definition discard_receive_buffer (id : Z) (n : Net) : option Net :=
  match connection n id with
  | None => Some n
  | Some c =>
      let n := update id (with_receive []) n in
      match cn_paired c with
      | Some sender => release_window sender (len (cn_receive_buffer c)) n
      | None => Some n
      end
  end.

Definition discard_in_flight (id : Z) (n : Net) : option Net :=
  match connection n id with
  | None => Some n
  | Some c =>
      w ← release (in_flight_bytes c) (cn_window c);
      Some (update id (with_window w ∘ with_held None ∘ with_flight []) n)
  end.

(** ** The flight (delivery.rs) *)

Definition put_in_flight (id : Z) (payload : InFlightPayload) (at_ now : Z) (n : Net) : Net :=
  let partitioned := is_cut n id now in
  match connection n id with
  | None => n
  | Some c =>
      let deliver_at := match cn_last_delivery_at c with
                        | None => at_
                        | Some last => Z.max at_ (sat_add last 1)
                        end in
      let seq := cn_next_seq c in
      let held := match cn_held_since c with
                  | None => if partitioned then Some now else None
                  | Some s => Some s
                  end in
      schedule deliver_at (Delivery id seq)
        (update id (λ c, with_held held
                     (with_flight (cn_in_flight c ++ [mkInFlight seq deliver_at payload])
                        (with_clock (seq + 1) (Some deliver_at) c))) n)
  end.

Definition put_fin_in_flight (id now : Z) (n : Net) : Net :=
  match paired n id with
  | None => n
  | Some _ => put_in_flight id Fin (sat_add now 1) now n
  end.

Definition hold_in_flight (now : Z) (n : Net) (id : Z) : Net :=
  match connection n id with
  | Some c =>
      match cn_held_since c, cn_in_flight c with
      | None, _ :: _ => update id (with_held (Some now)) n
      | _, _ => n
      end
  | None => n
  end.

Definition hold_partitioned_in_flight (now : Z) (n : Net) : Net :=
  foldl (hold_in_flight now) n (filter (λ id, is_cut n id now = true) (conn_ids n)).

(** One thawed connection of [release_held_in_flight]. *)
Definition thaw (now : Z) (n : Net) (id : Z) : Net :=
  match connection n id with
  | Some c =>
      match cn_held_since c with
      | Some since =>
          let shift := sat_sub now since in
          let flight := (λ i, mkInFlight (if_seq i) (sat_add (if_deliver_at i) shift) (if_payload i))
                          <$> cn_in_flight c in
          foldl (λ n i, schedule (if_deliver_at i) (Delivery id (if_seq i)) n)
            (update id (λ c, with_held None
               (with_clock (cn_next_seq c) ((λ l, sat_add l shift) <$> cn_last_delivery_at c)
                  (with_flight flight c))) n)
            flight
      | None => n
      end
  | None => n
  end.

Definition is_held (n : Net) (id : Z) : bool :=
  match connection n id with
  | Some c => match cn_held_since c with Some _ => true | None => false end
  | None => false
  end.

Definition release_held_in_flight (now : Z) (n : Net) : Net :=
  foldl (thaw now) n
    (filter (λ id, is_held n id && negb (is_cut n id now) = true) (conn_ids n)).

Definition is_stalled (n : Net) (id : Z) : bool :=
  match connection n id with Some c => fl_send_stalled (cn_flags c) | None => false end.

Definition resume_after_heal (now : Z) (n : Net) : Net :=
  let n := release_held_in_flight now n in
  foldl (λ n id, schedule now (ProcessSendBuffer id) (update id (flag (set_send_stalled false)) n)) n
    (filter (λ id, is_stalled n id && negb (is_cut n id now) = true) (conn_ids n)).

(** ** Corruption *)

(** [maybe_corrupt_data] once the fault fired: one flip per drawn position,
    a position drawn twice flipped once. *)
Fixpoint flip_bits (draws : list (Z * Z)) (seen : gset (Z * Z)) (data : list byte) : list byte :=
  match draws with
  | [] => data
  | (raw_byte, raw_bit) :: draws =>
      let at_ := raw_byte mod len data in
      let bit := raw_bit mod 8 in
      if bool_decide ((at_, bit) ∈ seen) then flip_bits draws seen data
      else flip_bits draws ({[(at_, bit)]} ∪ seen)
             (alter (λ b, Z_to_byte (Z.lxor (byte_to_Z b) (Z.shiftl 1 bit))) (Z.to_nat at_) data)
  end.

(** [flips] are the draws of the fault, [[]] when it does not fire. *)
Definition maybe_corrupt_data (flips : list (Z * Z)) (data : list byte) : list byte :=
  match data with [] => [] | _ => flip_bits flips ∅ data end.

(** ** Delivery *)

Definition receiver_open (n : Net) (receiver : option Z) : bool :=
  match receiver ≫= connection n with
  | Some c => negb (fl_is_closed (cn_flags c))
  | None => false
  end.

Definition receiver_reading (n : Net) (receiver : option Z) : bool :=
  match receiver ≫= connection n with
  | Some c => negb (fl_is_closed (cn_flags c)) && negb (fl_recv_closed (cn_flags c))
  | None => false
  end.

Definition land (flips : list (Z * Z)) (sender : Z) (payload : InFlightPayload) (n : Net) : option Net :=
  match connection n sender with
  | None => Some n
  | Some c =>
      if fl_send_black_holed (cn_flags c) then Some n
      else
        match payload with
        | Data data =>
            match cn_paired c with
            | Some receiver =>
                if receiver_reading n (Some receiver)
                then Some (take_waiter (ReadWaiter receiver)
                       (update receiver
                          (λ r, with_receive (cn_receive_buffer r ++ maybe_corrupt_data flips data) r) n))
                else release_window sender (len data) n
            | None => release_window sender (len data) n
            end
        | Fin =>
            match cn_paired c with
            | Some receiver =>
                if receiver_open n (Some receiver)
                then Some (take_waiter (ReadWaiter receiver)
                       (update receiver (flag (set_remote_fin_received true)) n))
                else Some n
            | None => Some n
            end
        end
  end.

(** The loop of [handle_delivery]; [flips i] are the draws for its [i]-th
    item, and the fuel the items in flight. *)
Fixpoint deliver_loop (fuel : nat) (flips : nat → list (Z * Z)) (sender now : Z) (n : Net) : option Net :=
  match fuel with
  | O => Some n
  | S fuel =>
      match connection n sender with
      | None => Some n
      | Some c =>
          match cn_held_since c, cn_in_flight c with
          | Some _, _ | None, [] => Some n
          | None, head :: rest =>
              if now <? if_deliver_at head then Some n
              else if is_cut n sender now then Some (hold_in_flight now n sender)
              else
                n ← land (flips fuel) sender (if_payload head) (update sender (with_flight rest) n);
                deliver_loop fuel flips sender now n
          end
      end
  end.

Definition handle_delivery (flips : nat → list (Z * Z)) (sender now : Z) (n : Net) : option Net :=
  let items := match connection n sender with Some c => length (cn_in_flight c) | None => O end in
  deliver_loop (S items) flips sender now n.

(** ** The send queue *)

(** The draws of one send: where a partial write cuts the chunk (if it fires),
    and the write latency. *)
Record SendDraws := mkSendDraws {
  sd_partial : option Z;
  sd_latency : Z;
}.

Definition slow_factor (n : Net) (ip : IP) : Z := default 1 (nw_slow_factors n !! ip).

Definition send_slowness (n : Net) (l r : option IP) : Z :=
  match l, r with
  | Some a, Some b => Z.max (slow_factor n a) (slow_factor n b)
  | Some a, None => slow_factor n a
  | None, Some b => slow_factor n b
  | None, None => 1
  end.

Definition pair_extra (n : Net) (l r : option IP) : Z :=
  match l, r with Some a, Some b => default 0 (nw_pair_latencies n !! (a, b)) | _, _ => 0 end.

(** The chunk that goes out and what stays of it: at least one byte, at most
    [partial_max]. *)
Definition cut_chunk (partial_max : Z) (partial : option Z) (data : list byte) : list byte * option (list byte) :=
  match partial with
  | Some draw =>
      if len data =? 0 then (data, None)
      else
        let max_send := Z.min (len data) partial_max in
        let truncate_to := 1 + draw mod max_send in
        if truncate_to <? len data
        then (slice data 0 truncate_to, Some (slice data truncate_to (len data)))
        else (data, None)
  | None => (data, None)
  end.

Definition finish_close (id now : Z) (n : Net) : Net :=
  match connection n id with
  | Some c =>
      if fl_graceful_close_pending (cn_flags c)
      then put_fin_in_flight id now (update id (flag (set_graceful_close_pending false)) n)
      else n
  | None => n
  end.

Definition handle_normal_send (partial_max : Z) (d : SendDraws) (id now : Z) (n : Net) : Net :=
  match connection n id with
  | None => n
  | Some c =>
      match cn_send_buffer c with
      | [] => finish_close id now (update id (flag (set_send_in_progress false)) n)
      | chunk :: queue =>
          let '(data, rest) := cut_chunk partial_max (sd_partial d) (ck_data chunk) in
          let queue := match rest with
                       | Some rest => mkSendChunk rest (ck_ready_at chunk) :: queue
                       | None => queue
                       end in
          let n := update id (with_queue queue) n in
          let base_delay := match queue with [] => sd_latency d | _ => 1 end in
          let at_ := sat_add (Z.max now (ck_ready_at chunk))
                       (sat_mul (sat_add base_delay (pair_extra n (cn_local_ip c) (cn_remote_ip c)))
                          (send_slowness n (cn_local_ip c) (cn_remote_ip c))) in
          let n := match cn_paired c with
                   | Some _ => put_in_flight id (Data data) at_ now n
                   | None => n
                   end in
          match queue with
          | [] => finish_close id now (update id (flag (set_send_in_progress false)) n)
          | _ => schedule now (ProcessSendBuffer id) n
          end
      end
  end.

Definition handle_process_send_buffer (partial_max : Z) (d : SendDraws) (id now : Z) (n : Net) : option Net :=
  match connection n id with
  | None => Some (take_waiter (SendWaiter id) n)
  | Some c =>
      let f := cn_flags c in
      if (fl_is_closed f || fl_send_closed f) && negb (fl_graceful_close_pending f)
      then
        n ← discard_send_queue id n;
        Some (take_waiter (SendWaiter id)
          (update id (flag (set_send_stalled false ∘ set_send_in_progress false)) n))
      else
        match cn_send_buffer c with
        | _ :: _ =>
            if is_cut n id now then Some (update id (flag (set_send_stalled true)) n)
            else Some (handle_normal_send partial_max d id now n)
        | [] => Some (handle_normal_send partial_max d id now n)
        end
  end.

(** ** Applications (engine.rs, stream.rs) *)

(** [read]: at most [size] bytes of the receive buffer; [partial] is the draw
    of the partial-read fault. *)
Definition read_limit (partial_max avail : Z) (partial : option Z) : Z :=
  match partial with
  | Some draw =>
      if 0 <? avail then
        let max_read := Z.min avail partial_max in
        if 1 <=? max_read then 1 + draw mod max_read else avail
      else avail
  | None => avail
  end.

Definition read (partial_max size : Z) (partial : option Z) (id : Z) (n : Net)
    : option (Net * option (list byte)) :=
  match connection n id with
  | None => Some (n, None)
  | Some c =>
      let limit := read_limit partial_max (Z.min size (len (cn_receive_buffer c))) partial in
      let got := slice (cn_receive_buffer c) 0 limit in
      let n := update id (with_receive (drop (Z.to_nat limit) (cn_receive_buffer c))) n in
      n ← match cn_paired c with
          | Some sender => if 0 <? limit then release_window sender limit n else Some n
          | None => Some n
          end;
      Some (n, Some got)
  end.

Definition buffer_send (id : Z) (data : list byte) (now ready_at : Z) (n : Net) : option (option Net) :=
  match connection n id with
  | None => Some None
  | Some c =>
      w ← acquire (len data) (cn_window c);
      let n := update id (with_queue (cn_send_buffer c ++ [mkSendChunk data ready_at]) ∘ with_window w) n in
      Some (Some (if fl_send_in_progress (cn_flags c) then n
                  else schedule now (ProcessSendBuffer id)
                         (update id (flag (set_send_in_progress true)) n)))
  end.

(** What a poll of a stream answers. *)
Inductive Poll := PollReady (count : Z) | PollBrokenPipe | PollAborted | PollShutdown | PollPending.

Definition is_closed (n : Net) (id : Z) : bool :=
  match connection n id with Some c => fl_is_closed (cn_flags c) | None => false end.
Definition is_send_closed (n : Net) (id : Z) : bool :=
  match connection n id with
  | Some c => fl_send_closed (cn_flags c) || fl_is_closed (cn_flags c)
  | None => false
  end.
Definition close_reason (n : Net) (id : Z) : CloseReason :=
  match connection n id with Some c => cn_close_reason c | None => CloseNone end.

Definition write_guard_pre_backpressure (n : Net) (id : Z) : option Poll :=
  if is_send_closed n id then Some PollBrokenPipe
  else if is_closed n id
  then Some (match close_reason n id with CloseAborted => PollAborted | _ => PollBrokenPipe end)
  else None.

Definition is_clogged (clogs : gmap Z Z) (id now : Z) : bool :=
  match clogs !! id with Some e => now <? e | None => false end.

Definition register (w : Waiter) (n : Net) : Net :=
  with_waiters ({[w]} ∪ nw_waiters n) (nw_wakes n) n.

(** [poll_write]; the coins of the random close and of the black hole it
    tosses on the way are operations of their own. *)
Definition poll_write (id : Z) (buf : list byte) (now ready_at : Z) (n : Net) : option (Net * Poll) :=
  match write_guard_pre_backpressure n id with
  | Some p => Some (n, p)
  | None =>
      if len buf =? 0 then Some (n, PollReady 0)
      else
        room ← match connection n id with Some c => available (cn_window c) | None => Some 0 end;
        if room =? 0 then
          match connection n id with
          | Some c =>
              if fl_is_closed (cn_flags c) || fl_send_closed (cn_flags c) then Some (n, PollShutdown)
              else Some (register (SendWaiter id) n, PollPending)
          | None => Some (n, PollShutdown)
          end
        else if is_clogged (nw_write_clogs n) id now then
          match connection n id with
          | Some c => if fl_is_closed (cn_flags c) then Some (n, PollShutdown)
                      else Some (register (WriteClogWaiter id) n, PollPending)
          | None => Some (n, PollShutdown)
          end
        else
          let accepted := Z.min (len buf) room in
          r ← buffer_send id (slice buf 0 accepted) now ready_at n;
          match r with
          | Some n => Some (n, PollReady accepted)
          | None => Some (n, PollShutdown)
          end
  end.

(** [poll_read] and [poll_read_no_data]: the bytes come with [PollReady]. *)
Definition read_terminal (c : ConnectionState) : option Poll :=
  if fl_remote_fin_received (cn_flags c) then Some (PollReady 0)
  else if negb (fl_is_closed (cn_flags c)) then None
  else match cn_close_reason c with CloseAborted => Some PollAborted | _ => Some (PollReady 0) end.

Definition poll_read (partial_max size : Z) (partial : option Z) (id now : Z) (n : Net)
    : option (Net * Poll * list byte) :=
  if size =? 0 then Some (n, PollReady 0, [])
  else
    match connection n id with
    | None => Some (n, PollShutdown, [])
    | Some c =>
        let f := cn_flags c in
        if fl_is_closed f && match cn_close_reason c with CloseAborted => true | _ => false end
        then Some (n, PollAborted, [])
        else if fl_recv_closed f || fl_is_closed f then Some (n, PollReady 0, [])
        else if is_clogged (nw_read_clogs n) id now
        then Some (register (ReadClogWaiter id) n, PollPending, [])
        else
          match cn_receive_buffer c with
          | [] =>
              match read_terminal c with
              | Some p => Some (n, p, [])
              | None => Some (register (ReadWaiter id) n, PollPending, [])
              end
          | _ =>
              '(n, got) ← read partial_max size partial id n;
              Some (n, PollReady (len (default [] got)), default [] got)
          end
    end.

(** ** Opening and closing (engine.rs) *)

Definition new_connection (window : Z) (l r : option IP) (peer : Z) : ConnectionState :=
  mkConnection l r [] (Some peer) [] [] None 0 None no_flags CloseNone (SendWindow_new window).

Definition create_connection_pair (window : Z) (client server : option IP) (n : Net) : Net * (Z * Z) :=
  let a := nw_next_id n in
  let b := a + 1 in
  let m := <[b := new_connection window server client a]>
             (<[a := new_connection window client server b]> (nw_connections n)) in
  (mkNet (b + 1) m (nw_ip_partitions n) (nw_send_partitions n) (nw_recv_partitions n)
     (nw_write_clogs n) (nw_read_clogs n) (nw_pair_latencies n) (nw_slow_factors n) (nw_waiters n)
     (nw_actions n) (nw_wakes n), (a, b)).

Definition take_all_waiters (id : Z) (n : Net) : Net :=
  take_waiter (SendWaiter id) (take_waiter (ReadClogWaiter id)
    (take_waiter (WriteClogWaiter id) (take_waiter (ReadWaiter id) n))).

Definition discard_one (n : Net) (id : Z) : Net :=
  let n := with_connections (delete id (nw_connections n)) n in
  let n := with_clogs (delete id (nw_write_clogs n)) (delete id (nw_read_clogs n)) n in
  take_all_waiters id n.

Definition both (id : Z) (p : option Z) : list Z := id :: match p with Some p => [p] | None => [] end.

Definition discard_connection_pair (id : Z) (n : Net) : Net :=
  foldl discard_one n (both id (paired n id)).

Definition close_snapshot (n : Net) (id : Z) : option (bool * bool * bool * bool) :=
  c ← connection n id;
  Some (fl_send_closed (cn_flags c), fl_is_closed (cn_flags c), fl_send_in_progress (cn_flags c),
        bool_decide (cn_send_buffer c = [] :> list SendChunk)).

Definition shutdown_send (id now : Z) (n : Net) : Net :=
  match close_snapshot n id with
  | None => n
  | Some (send_closed, is_closed, send_in_progress, queue_empty) =>
      if send_closed || is_closed then n
      else
        let n := update id (flag (λ f,
                   let f := set_send_closed true f in
                   if send_in_progress || negb queue_empty
                   then set_graceful_close_pending true f else f)) n in
        let n := take_waiter (SendWaiter id) n in
        if negb send_in_progress && queue_empty then put_fin_in_flight id now n else n
  end.

Definition close_graceful (id now : Z) (n : Net) : option Net :=
  match close_snapshot n id with
  | None => Some n
  | Some (fin_sent, is_closed, send_in_progress, queue_empty) =>
      if is_closed then Some n
      else
        let n := update id (with_reason CloseGraceful ∘ flag (λ f,
                   let f := set_send_closed true (set_is_closed true f) in
                   if negb fin_sent && (send_in_progress || negb queue_empty)
                   then set_graceful_close_pending true f else f)) n in
        let n := take_waiter (ReadWaiter id) n in
        n ← discard_receive_buffer id n;
        Some (if negb fin_sent && negb send_in_progress && queue_empty
              then put_fin_in_flight id now n else n)
  end.

Definition abort_flags (f : ConnectionFlags) : ConnectionFlags :=
  set_graceful_close_pending false (set_send_stalled false (set_send_in_progress false
    (set_recv_closed true (set_send_closed true (set_is_closed true f))))).

Definition abort_one (n : option Net) (id : Z) : option Net :=
  n ← n;
  n ← discard_send_queue id (update id (with_reason CloseAborted ∘ flag abort_flags) n);
  discard_in_flight id n.

(** [close_aborted], without the backlogs *)
Definition close_aborted (id : Z) (n : Net) : option Net :=
  let ids := both id (paired n id) in
  n ← foldl abort_one (Some n) ids;
  n ← foldl (λ n id, n ← n; discard_receive_buffer id n) (Some n) ids;
  Some (foldl (λ n id, take_all_waiters id n) n ids).

Definition close_asymmetric (id : Z) (close_send close_recv : bool) (n : Net) : option Net :=
  let peer := paired n id in
  n ← (if close_send then discard_send_queue id (update id (flag (set_send_closed true)) n)
       else Some n);
  let n := match close_recv, peer with
           | true, Some p => update p (flag (set_recv_closed true)) n
           | _, _ => n
           end in
  let n := if close_send then take_waiter (SendWaiter id) (take_waiter (ReadWaiter id) n) else n in
  match close_recv, peer with
  | true, Some p => discard_receive_buffer p (take_waiter (ReadWaiter p) n)
  | _, _ => Some n
  end.

(** [Drop for SimTcpStream] *)
Definition drop_stream (id now : Z) (n : Net) : option Net :=
  match connection n id with
  | Some c => match cn_receive_buffer c with
              | _ :: _ => close_aborted id n
              | [] => close_graceful id now n
              end
  | None => close_graceful id now n
  end.

(** ** Faults (faults.rs) *)

Definition black_hole (id : Z) (hole_send hole_recv : bool) (n : Net) : Net :=
  let peer := paired n id in
  let n := if hole_send then update id (flag (set_send_black_holed true)) n else n in
  match hole_recv, peer with
  | true, Some p => update p (flag (set_send_black_holed true)) n
  | _, _ => n
  end.

Definition partition_pair (from to : IP) (duration now : Z) (n : Net) : Net :=
  let deadline := sat_add now duration in
  let n := with_partitions (<[(from, to) := deadline]> (nw_ip_partitions n))
             (nw_send_partitions n) (nw_recv_partitions n) n in
  hold_partitioned_in_flight now (schedule deadline (PartitionRestore deadline) n).

Definition insert_send_partition (ip : IP) (duration now : Z) (n : Net) : Net :=
  let deadline := sat_add now duration in
  let n := with_partitions (nw_ip_partitions n) (<[ip := deadline]> (nw_send_partitions n))
             (nw_recv_partitions n) n in
  hold_partitioned_in_flight now (schedule deadline (SendPartitionClear deadline) n).

Definition insert_recv_partition (ip : IP) (duration now : Z) (n : Net) : Net :=
  let deadline := sat_add now duration in
  let n := with_partitions (nw_ip_partitions n) (nw_send_partitions n)
             (<[ip := deadline]> (nw_recv_partitions n)) n in
  hold_partitioned_in_flight now (schedule deadline (RecvPartitionClear deadline) n).

Definition restore_partition (from to : IP) (now : Z) (n : Net) : Net :=
  resume_after_heal now
    (with_partitions (delete (to, from) (delete (from, to) (nw_ip_partitions n)))
       (nw_send_partitions n) (nw_recv_partitions n) n).

Definition heal_all_partitions (now : Z) (n : Net) : Net :=
  resume_after_heal now (with_partitions ∅ ∅ ∅ n).

(** ** Clogs (delivery.rs) *)

Definition clog_until (deadline : Z) (clogs : gmap Z Z) (id : Z) : option (gmap Z Z) :=
  match clogs !! id with
  | Some e => if deadline <? e then None else Some (<[id := deadline]> clogs)
  | None => Some (<[id := deadline]> clogs)
  end.

Definition clog_write_until (id deadline : Z) (n : Net) : Net :=
  match clog_until deadline (nw_write_clogs n) id with
  | None => n
  | Some clogs => schedule deadline (ClogClear id deadline) (with_clogs clogs (nw_read_clogs n) n)
  end.

Definition clog_read_until (id deadline : Z) (n : Net) : Net :=
  match clog_until deadline (nw_read_clogs n) id with
  | None => n
  | Some clogs => schedule deadline (ReadClogClear id deadline) (with_clogs (nw_write_clogs n) clogs n)
  end.

(** ** Events (engine.rs, [handle_event]) *)

(** The draws an event may need. *)
Record EventDraws := mkEventDraws {
  ed_flips : nat → list (Z * Z);
  ed_send : SendDraws;
  ed_partial_max : Z;
}.

Definition expired (now expected : Z) (d : Z) : bool := (d =? expected) && (expected <=? now).

Definition handle_event (d : EventDraws) (e : NetworkEvent) (now : Z) (n : Net) : option Net :=
  match e with
  | Maintenance => Some n
  | ClogClear id expected =>
      Some (match nw_write_clogs n !! id with
            | Some e => if expired now expected e
                        then take_waiter (WriteClogWaiter id)
                               (with_clogs (delete id (nw_write_clogs n)) (nw_read_clogs n) n)
                        else n
            | None => n
            end)
  | ReadClogClear id expected =>
      Some (match nw_read_clogs n !! id with
            | Some e => if expired now expected e
                        then take_waiter (ReadClogWaiter id)
                               (with_clogs (nw_write_clogs n) (delete id (nw_read_clogs n)) n)
                        else n
            | None => n
            end)
  | PartitionRestore expected =>
      Some (resume_after_heal now
        (with_partitions (filter (λ x, expired now expected x.2 = false) (nw_ip_partitions n))
           (nw_send_partitions n) (nw_recv_partitions n) n))
  | SendPartitionClear expected =>
      Some (resume_after_heal now
        (with_partitions (nw_ip_partitions n)
           (filter (λ x, expired now expected x.2 = false) (nw_send_partitions n))
           (nw_recv_partitions n) n))
  | RecvPartitionClear expected =>
      Some (resume_after_heal now
        (with_partitions (nw_ip_partitions n) (nw_send_partitions n)
           (filter (λ x, expired now expected x.2 = false) (nw_recv_partitions n)) n))
  | Delivery id _ => handle_delivery (ed_flips d) id now n
  | ProcessSendBuffer id => handle_process_send_buffer (ed_partial_max d) (ed_send d) id now n
  end.

Definition Net_new : Net := mkNet 0 ∅ ∅ ∅ ∅ ∅ ∅ ∅ ∅ ∅ [] [].
End Network.

Arguments Net IP {_ _}.
Arguments ConnectionState IP : clear implicits.
