(* ===== verification/NetWorld.v ===== *)
(** The simulated network as a system: the engine with its agenda of events,
    and what its applications wrote and read.

    A [World] step is a call on the network or the handling of an event; any
    event of the agenda may be next, at its time, which covers the scheduler's
    order.  [wd_written] and [wd_read] are ghosts: the bytes a
    stream accepted and the bytes its polls returned.  [wd_lossy] are the
    endpoints whose direction something was allowed to take bytes from: a
    reset, a one-sided close, a black hole, or a reader that closed. *)

From stdpp Require Import base list numbers gmap sorting.
From S2P Require Import Prelude Scheduler Network.
#[local] Open Scope Z_scope.

Section World.
Context {IP : Type} `{Countable IP}.

Record World := mkWorld {
  wd_net : Net IP;
  wd_now : Z;
  wd_agenda : list (Z * NetworkEvent);
  wd_written : gmap Z (list byte);
  wd_read : gmap Z (list byte);
  wd_lossy : gset Z;
}.

Definition World_new : World := mkWorld Net_new 0 [] ∅ ∅ ∅.

Inductive NetOp :=
  | NOpen (window : Z) (client server : option IP)
  | NWrite (id : Z) (buf : list byte) (ready_at : Z)
  | NRead (id partial_max size : Z) (partial : option Z)
  | NShutdown (id : Z)
  | NClose (id : Z)
  | NDrop (id : Z)
  | NAbort (id : Z)
  | NCloseSide (id : Z) (close_send close_recv : bool)
  | NBlackHole (id : Z) (hole_send hole_recv : bool)
  | NPartition (from to : IP) (duration : Z)
  | NPartitionSend (ip : IP) (duration : Z)
  | NPartitionRecv (ip : IP) (duration : Z)
  | NRestore (from to : IP)
  | NHeal
  | NClogWrite (id deadline : Z)
  | NClogRead (id deadline : Z)
  | NDiscard (id : Z)
  | NEvent (index : nat) (d : EventDraws).

(** The outputs of a handler reach the scheduler and the executor. *)
Definition drain (n : Net IP) : Net IP :=
  mkNet (nw_next_id n) (nw_connections n) (nw_ip_partitions n) (nw_send_partitions n)
    (nw_recv_partitions n) (nw_write_clogs n) (nw_read_clogs n) (nw_pair_latencies n)
    (nw_slow_factors n) (nw_waiters n) [] [].

Definition after (w : World) (n : Net IP) : World :=
  mkWorld (drain n) (wd_now w) (wd_agenda w ++ nw_actions n) (wd_written w) (wd_read w) (wd_lossy w).

Definition bytes_of (m : gmap Z (list byte)) (id : Z) : list byte := default [] (m !! id).

Definition note_written (id : Z) (data : list byte) (w : World) : World :=
  mkWorld (wd_net w) (wd_now w) (wd_agenda w)
    (<[id := bytes_of (wd_written w) id ++ data]> (wd_written w)) (wd_read w) (wd_lossy w).
Definition note_read (id : Z) (data : list byte) (w : World) : World :=
  mkWorld (wd_net w) (wd_now w) (wd_agenda w) (wd_written w)
    (<[id := bytes_of (wd_read w) id ++ data]> (wd_read w)) (wd_lossy w).
Definition note_lossy (ids : list Z) (w : World) : World :=
  mkWorld (wd_net w) (wd_now w) (wd_agenda w) (wd_written w) (wd_read w)
    (list_to_set ids ∪ wd_lossy w).

Definition opt_list (p : option Z) : list Z := match p with Some p => [p] | None => [] end.

(** Dropping a stream with unread bytes resets the connection. *)
Definition drop_loses (n : Net IP) (id : Z) : list Z :=
  match connection n id with
  | Some c => match cn_receive_buffer c with [] => opt_list (paired n id) | _ => both id (paired n id) end
  | None => []
  end.

(** [None] is a panic. *)
Definition world_exec (o : NetOp) (w : World) : option World :=
  let n := wd_net w in
  let now := wd_now w in
  match o with
  | NOpen window client server => Some (after w (create_connection_pair window client server n).1)
  | NWrite id buf ready_at =>
      '(n, p) ← poll_write id buf now ready_at n;
      Some (match p with
            | PollReady k => note_written id (slice buf 0 k) (after w n)
            | _ => after w n
            end)
  | NRead id partial_max size partial =>
      '(n, _, got) ← poll_read partial_max size partial id now n;
      Some (note_read id got (after w n))
  | NShutdown id => Some (after w (shutdown_send id now n))
  | NClose id =>
      n' ← close_graceful id now n; Some (note_lossy (opt_list (paired n id)) (after w n'))
  | NDrop id =>
      n' ← drop_stream id now n; Some (note_lossy (drop_loses n id) (after w n'))
  | NAbort id =>
      n' ← close_aborted id n; Some (note_lossy (both id (paired n id)) (after w n'))
  | NCloseSide id cs cr =>
      n' ← close_asymmetric id cs cr n; Some (note_lossy [id] (after w n'))
  | NBlackHole id hs hr =>
      Some (note_lossy (both id (paired n id)) (after w (black_hole id hs hr n)))
  | NPartition from to d => Some (after w (partition_pair from to d now n))
  | NPartitionSend ip d => Some (after w (insert_send_partition ip d now n))
  | NPartitionRecv ip d => Some (after w (insert_recv_partition ip d now n))
  | NRestore from to => Some (after w (restore_partition from to now n))
  | NHeal => Some (after w (heal_all_partitions now n))
  | NClogWrite id deadline => Some (after w (clog_write_until id deadline n))
  | NClogRead id deadline => Some (after w (clog_read_until id deadline n))
  | NDiscard id => Some (after w (discard_connection_pair id n))
  | NEvent i d =>
      match wd_agenda w !! i with
      | Some (t, e) =>
          let w := mkWorld n t (delete i (wd_agenda w)) (wd_written w) (wd_read w) (wd_lossy w) in
          n' ← handle_event d e t n; Some (after w n')
      | None => Some w
      end
  end.

Fixpoint world_run (ops : list NetOp) (w : World) : option World :=
  match ops with
  | [] => Some w
  | o :: ops => w ← world_exec o w; world_run ops w
  end.
End World.
Arguments World IP {_ _}.
Arguments NetOp IP : clear implicits.
