(* ===== verification/NetStream.v ===== *)
(** The simulated network carries byte streams.

    The invariant [net_ok] relates the two endpoints of every connection, one
    [dir_ok] per direction: the window is exactly the bytes queued, in flight
    and unread; what the reader got is a prefix of what the writer wrote; and
    a direction nothing was allowed to cut has lost nothing.  Every operation
    and every event keeps it. *)

From stdpp Require Import base list numbers gmap sorting.
From S2P Require Import Prelude Scheduler Network NetWorld.
#[local] Open Scope Z_scope.

Section Stream.
Context {IP : Type} `{Countable IP}.
Implicit Types (c d r : ConnectionState IP) (n : Net IP) (w : World IP).

Definition holed c : bool := fl_send_black_holed (cn_flags c).
Definition reading c : bool := negb (fl_is_closed (cn_flags c)) && negb (fl_recv_closed (cn_flags c)).
Definition sending c : bool := negb (fl_send_closed (cn_flags c)).
Definition outstanding c : Z := win_outstanding (cn_window c).
Definition capacity c : Z := win_capacity (cn_window c).

(** Everything on its way from [c] to [r]. *)
Definition pipe c r : list byte := cn_receive_buffer r ++ flying c ++ queued c.

(** The end of the stream is still to be sent, in flight, or known. *)
Definition finned c r : Prop :=
  fl_graceful_close_pending (cn_flags c) = true ∨ Fin ∈ (if_payload <$> cn_in_flight c) ∨
  fl_remote_fin_received (cn_flags r) = true.

(** The ghosts of one direction: what was written and read, whether bytes may
    have been taken from it, and who is parked on it. *)
Record Ghost := mkGhost {
  gh_written : list byte;
  gh_read : list byte;
  gh_lossy : bool;
  gh_writer_parked : bool;
  gh_reader_parked : bool;
}.

Record dir_ok (g : Ghost) c r : Prop := {
  do_window : len (pipe c r) ≤ outstanding c ≤ capacity c;
  do_window_eq : holed c = false → outstanding c = len (pipe c r);
  do_queue : cn_send_buffer c ≠ [] → fl_send_in_progress (cn_flags c) = true;
  do_closed : fl_is_closed (cn_flags c) = true → sending c = false;
  do_shut : reading r = false → cn_receive_buffer r = [];
  do_prefix : gh_read g ++ cn_receive_buffer r `prefix_of` gh_written g;
  do_contig : holed c = false → reading r = true → gh_read g ++ pipe c r `prefix_of` gh_written g;
  do_exact : holed c = false → reading r = true → sending c = true ∨ gh_lossy g = false →
    gh_read g ++ pipe c r = gh_written g;
  do_faithful : gh_lossy g = false → holed c = false ∧ reading r = true;
  do_drained : gh_lossy g = false → sending c = false →
    fl_graceful_close_pending (cn_flags c) = false → cn_send_buffer c = [];
  do_fin : gh_lossy g = false → sending c = false → finned c r;
  do_writer : gh_writer_parked g = true → outstanding c = capacity c;
  do_reader : gh_reader_parked g = true →
    cn_receive_buffer r = [] ∧ fl_remote_fin_received (cn_flags r) = false ∧ reading r = true;
}.

Definition ghost w (id p : Z) : Ghost :=
  mkGhost (bytes_of (wd_written w) id) (bytes_of (wd_read w) p) (bool_decide (id ∈ wd_lossy w))
    (bool_decide (SendWaiter id ∈ nw_waiters (wd_net w)))
    (bool_decide (ReadWaiter p ∈ nw_waiters (wd_net w))).

Definition conns w : gmap Z (ConnectionState IP) := nw_connections (wd_net w).

Record net_ok w : Prop := {
  no_pair id c : conns w !! id = Some c →
    ∃ p r, cn_paired c = Some p ∧ p ≠ id ∧ conns w !! p = Some r ∧ cn_paired r = Some id ∧
      dir_ok (ghost w id p) c r;
  no_fresh id c : conns w !! id = Some c → id < nw_next_id (wd_net w);
  no_unborn id : nw_next_id (wd_net w) ≤ id →
    bytes_of (wd_written w) id = [] ∧ bytes_of (wd_read w) id = [] ∧
    (ReadWaiter id ∉ nw_waiters (wd_net w)) ∧ (SendWaiter id ∉ nw_waiters (wd_net w));
}.

(** Weaker ghosts: fewer tasks parked, more freedom to lose bytes. *)
Definition ghost_le (g g' : Ghost) : Prop :=
  gh_written g' = gh_written g ∧ gh_read g' = gh_read g ∧
  (gh_lossy g' = false → gh_lossy g = false) ∧
  (gh_writer_parked g' = true → gh_writer_parked g = true) ∧
  (gh_reader_parked g' = true → gh_reader_parked g = true).

Lemma dir_ok_weaken g g' c r : ghost_le g g' → dir_ok g c r → dir_ok g' c r.
Proof.
  intros (E1 & E2 & E3 & E4 & E5) []. split; rewrite ?E1, ?E2; eauto.
  intros ?? [?|?]; eauto.
Qed.

(** ** Touching one pair of endpoints *)

(** [n'] is [n] with the endpoints [id] and [p] now [c] and [r], and maybe
    fewer tasks parked. *)
Record touches n n' (id p : Z) c r : Prop := {
  tc_id : connection n' id = Some c;
  tc_peer : connection n' p = Some r;
  tc_frame q : q ≠ id → q ≠ p → connection n' q = connection n q;
  tc_next : nw_next_id n' = nw_next_id n;
  tc_waiters : nw_waiters n' ⊆ nw_waiters n;
}.

Lemma touches_refl n id p c r :
  connection n id = Some c → connection n p = Some r → touches n n id p c r.
Proof. by split. Qed.

Lemma touches_trans n n' n'' id p c r c2 r2 :
  touches n n' id p c r → touches n' n'' id p c2 r2 → touches n n'' id p c2 r2.
Proof.
  intros [T1 T2 T3 T4 T5] [U1 U2 U3 U4 U5]. split; [done|done| |congruence|set_solver].
  intros q H1 H2. rewrite U3, T3; done.
Qed.

Lemma touches_swap n n' id p c r : touches n n' id p c r → touches n n' p id r c.
Proof. intros []. split; auto. Qed.

Lemma connection_update n id q f :
  connection (update id f n) q = if decide (id = q) then f <$> connection n q else connection n q.
Proof.
  unfold connection, update. cbn. case_decide as Hd; [subst; by rewrite lookup_alter_eq|].
  by rewrite lookup_alter_ne.
Qed.

Lemma touches_update n n' id p c r f :
  id ≠ p → touches n n' id p c r → touches n (update id f n') id p (f c) r.
Proof.
  intros Hne [T1 T2 T3 T4 T5]. split; rewrite ?connection_update; try done.
  - by rewrite decide_True, T1.
  - by rewrite decide_False.
  - intros q Hq Hqp. rewrite connection_update, decide_False by done. auto.
Qed.

Lemma touches_update_peer n n' id p c r f :
  id ≠ p → touches n n' id p c r → touches n (update p f n') id p c (f r).
Proof. intros Hne HT. apply touches_swap, touches_update; [done|]. by apply touches_swap. Qed.

Lemma touches_schedule n n' id p c r t e :
  touches n n' id p c r → touches n (schedule t e n') id p c r.
Proof. intros []. by split. Qed.

Lemma take_waiter_conn x n q : connection (take_waiter x n) q = connection n q.
Proof. unfold take_waiter. by case_bool_decide. Qed.

Lemma take_waiter_waiters x n : nw_waiters (take_waiter x n) = nw_waiters n ∖ {[x]}.
Proof.
  unfold take_waiter. case_bool_decide; [done|]. apply set_eq. set_solver.
Qed.

Lemma touches_take n n' id p c r x :
  touches n n' id p c r → touches n (take_waiter x n') id p c r.
Proof.
  intros [T1 T2 T3 T4 T5]. split; try (by rewrite take_waiter_conn).
  - intros q ??. rewrite take_waiter_conn. auto.
  - unfold take_waiter. by case_bool_decide.
  - rewrite take_waiter_waiters. set_solver.
Qed.

(** ** Windows *)

Definition pay (k : Z) c : ConnectionState IP :=
  with_window (mkWindow (capacity c) (outstanding c - k)) c.

Lemma touches_release n n' id p c r k :
  id ≠ p → touches n n' id p c r → 0 ≤ k ≤ outstanding c →
  ∃ n'', release_window id k n' = Some n'' ∧ touches n n'' id p (pay k c) r ∧
    (k ≠ 0 → SendWaiter id ∉ nw_waiters n'') ∧ nw_waiters n'' ⊆ nw_waiters n'.
Proof.
  intros Hne HT Hk. unfold release_window. destruct (Z.eqb_spec k 0) as [->|Hk0].
  - exists n'. split_and!; try done.
    assert (pay 0 c = c) as ->; [|done]. unfold pay. destruct c as [???????????[]]. cbn.
    by rewrite Z.sub_0_r.
  - rewrite (tc_id _ _ _ _ _ _ HT). unfold release. rewrite (proj2 (Z.leb_le _ _)) by (unfold outstanding in Hk; lia).
    cbn. eexists. split; [reflexivity|]. split_and!.
    + apply touches_take.
      exact (touches_update n n' id p c r (with_window (mkWindow (capacity c) (outstanding c - k))) Hne HT).
    + intros _. rewrite take_waiter_waiters. set_solver.
    + rewrite take_waiter_waiters. cbn. set_solver.
Qed.

Lemma touches_discard_queue n n' id p c r :
  id ≠ p → touches n n' id p c r → len (queued c) ≤ outstanding c →
  ∃ n'', discard_send_queue id n' = Some n'' ∧
    touches n n'' id p (pay (len (queued c)) (with_queue [] c)) r ∧ nw_waiters n'' = nw_waiters n'.
Proof.
  intros Hne HT Hk. unfold discard_send_queue. rewrite (tc_id _ _ _ _ _ _ HT).
  unfold release, queued_bytes. rewrite (proj2 (Z.leb_le _ _)) by (unfold outstanding in Hk; lia).
  cbn. eexists. split; [reflexivity|]. split; [|done].
  exact (touches_update n n' id p c r (with_window (mkWindow _ _) ∘ with_queue []) Hne HT).
Qed.

Lemma touches_discard_flight n n' id p c r :
  id ≠ p → touches n n' id p c r → len (flying c) ≤ outstanding c →
  ∃ n'', discard_in_flight id n' = Some n'' ∧
    touches n n'' id p (pay (len (flying c)) (with_held None (with_flight [] c))) r ∧
    nw_waiters n'' = nw_waiters n'.
Proof.
  intros Hne HT Hk. unfold discard_in_flight. rewrite (tc_id _ _ _ _ _ _ HT).
  unfold release, in_flight_bytes. rewrite (proj2 (Z.leb_le _ _)) by (unfold outstanding in Hk; lia).
  cbn. eexists. split; [reflexivity|]. split; [|done].
  exact (touches_update n n' id p c r (with_window (mkWindow _ _) ∘ with_held None ∘ with_flight []) Hne HT).
Qed.

(** [id]'s unread bytes go back to the window of its peer [p]. *)
Lemma touches_discard_receive n n' id p c r :
  id ≠ p → touches n n' id p c r → cn_paired c = Some p →
  len (cn_receive_buffer c) ≤ outstanding r →
  ∃ n'', discard_receive_buffer id n' = Some n'' ∧
    touches n n'' id p (with_receive [] c) (pay (len (cn_receive_buffer c)) r) ∧
    (cn_receive_buffer c ≠ [] → SendWaiter p ∉ nw_waiters n'') ∧ nw_waiters n'' ⊆ nw_waiters n'.
Proof.
  intros Hne HT Hp Hk. unfold discard_receive_buffer. rewrite (tc_id _ _ _ _ _ _ HT), Hp.
  pose proof (touches_update n n' id p c r (with_receive []) Hne HT) as HT1.
  destruct (touches_release n _ p id r _ (len (cn_receive_buffer c)) (not_eq_sym Hne)
              (touches_swap _ _ _ _ _ _ HT1)) as (n'' & E & HT2 & Hw & Hs).
  { split; [apply len_nonneg|done]. }
  exists n''. split_and!; [done|by apply touches_swap| |done].
  intros Hx. apply Hw. destruct (cn_receive_buffer c); [done|]. rewrite len_cons.
  pose proof (len_nonneg l). lia.
Qed.

(** ** The flight *)

Lemma touches_put n n' id p c r payload t now :
  id ≠ p → touches n n' id p c r →
  ∃ h last item, if_payload item = payload ∧
    touches n (put_in_flight id payload t now n') id p
      (with_held h (with_flight (cn_in_flight c ++ [item]) (with_clock (cn_next_seq c + 1) last c))) r ∧
    nw_waiters (put_in_flight id payload t now n') = nw_waiters n'.
Proof.
  intros Hne HT. unfold put_in_flight. rewrite (tc_id _ _ _ _ _ _ HT).
  eexists _, _, (mkInFlight _ _ payload). split; [done|]. split; [|done].
  apply touches_schedule. exact (touches_update n n' id p c r _ Hne HT).
Qed.

Lemma touches_put_fin n n' id p c r now :
  id ≠ p → touches n n' id p c r → cn_paired c = Some p →
  ∃ h last item, if_payload item = Fin ∧
    touches n (put_fin_in_flight id now n') id p
      (with_held h (with_flight (cn_in_flight c ++ [item]) (with_clock (cn_next_seq c + 1) last c))) r ∧
    nw_waiters (put_fin_in_flight id now n') = nw_waiters n'.
Proof.
  intros Hne HT Hp. unfold put_fin_in_flight, paired. rewrite (tc_id _ _ _ _ _ _ HT). cbn [mbind option_bind].
  rewrite Hp. by apply touches_put.
Qed.

(** ** Keeping the invariant *)

Lemma net_ok_touch w w' id p c r c2 r2 :
  net_ok w → conns w !! id = Some c → cn_paired c = Some p →
  touches (wd_net w) (wd_net w') id p c2 r2 →
  cn_paired c2 = Some p → cn_paired r2 = Some id →
  (∀ q, q ≠ id → q ≠ p → bytes_of (wd_written w') q = bytes_of (wd_written w) q ∧
     bytes_of (wd_read w') q = bytes_of (wd_read w) q ∧ (q ∈ wd_lossy w → q ∈ wd_lossy w')) →
  dir_ok (ghost w' id p) c2 r2 → dir_ok (ghost w' p id) r2 c2 →
  net_ok w'.
Proof.
  intros [P1 P2 P3] Hc Hp [T1 T2 T3 T4 T5] Ec2 Er2 Hg D1 D2.
  destruct (P1 id c Hc) as (p' & r' & Hp' & Hne & Hr & Hpr & _).
  assert (p' = p) as -> by congruence. clear Hp'.
  assert (∀ q s, q ≠ id → q ≠ p → s ≠ id → s ≠ p → ghost_le (ghost w q s) (ghost w' q s)) as Hle.
  { intros q s H1 H2 H3 H4. destruct (Hg q H1 H2) as (G1 & G2 & G3), (Hg s H3 H4) as (G4 & G5 & G6).
    unfold ghost_le, ghost. cbn [gh_written gh_read gh_lossy gh_writer_parked gh_reader_parked].
    rewrite !bool_decide_eq_true, !bool_decide_eq_false. split_and!; [done|done|auto| |]; set_solver. }
  split.
  - intros q d Hq. destruct (decide (q = id)) as [->|Hqi].
    { unfold conns in Hq. unfold connection in T1. rewrite T1 in Hq. injection Hq as <-. by exists p, r2. }
    destruct (decide (q = p)) as [->|Hqp].
    { unfold conns in Hq. unfold connection in T2. rewrite T2 in Hq. injection Hq as <-. by exists id, c2. }
    unfold conns in Hq. pose proof (T3 q Hqi Hqp) as Eq. unfold connection in Eq. rewrite Eq in Hq.
    destruct (P1 q d Hq) as (s & e & Hs & Hsq & He & Hes & Hd).
    assert (s ≠ id) by (intros ->; congruence). assert (s ≠ p) by (intros ->; congruence).
    exists s, e. split_and!; try done; [by rewrite <- He; apply T3|].
    eapply dir_ok_weaken; [|exact Hd]. by apply Hle.
  - intros q d Hq. rewrite T4. destruct (decide (q = id)) as [->|]; [by eapply P2|].
    destruct (decide (q = p)) as [->|]; [by eapply P2|]. eapply (P2 q d). rewrite <- Hq. symmetry. by apply T3.
  - intros q Hq. rewrite T4 in Hq. assert (q ≠ id) by (intros ->; specialize (P2 _ _ Hc); lia).
    assert (q ≠ p) by (intros ->; specialize (P2 _ _ Hr); lia).
    destruct (Hg q) as (G1 & G2 & _); [done..|]. destruct (P3 q Hq) as (Q1 & Q2 & Q3 & Q4).
    rewrite G1, G2. split_and!; [done..| |]; set_solver.
Qed.

(** ** What an endpoint may do to its two directions *)

(** As a sender: nothing that changes what is on its way. *)
Lemma dir_ok_sender g c r c2 :
  dir_ok g c r →
  pipe c2 r = pipe c r → cn_window c2 = cn_window c → holed c2 = holed c →
  (sending c2 = true → sending c = true) →
  (fl_is_closed (cn_flags c2) = true → sending c2 = false) →
  (cn_send_buffer c2 ≠ [] → fl_send_in_progress (cn_flags c2) = true) →
  (gh_lossy g = false → sending c2 = false → fl_graceful_close_pending (cn_flags c2) = false →
   cn_send_buffer c2 = []) →
  (gh_lossy g = false → sending c2 = false → finned c2 r) →
  dir_ok g c2 r.
Proof.
  intros [] Ep Ew Eh Es Hc Hq Hd Hf. unfold outstanding, capacity in *.
  split; rewrite ?Ep, ?Eh; unfold outstanding, capacity; rewrite ?Ew; auto.
  intros ?? [?|?]; eauto.
Qed.

(** As a receiver: nothing that changes what it reads. *)
Lemma dir_ok_receiver g c r r2 :
  dir_ok g c r → cn_receive_buffer r2 = cn_receive_buffer r → reading r2 = reading r →
  fl_remote_fin_received (cn_flags r2) = fl_remote_fin_received (cn_flags r) → dir_ok g c r2.
Proof.
  intros [] Eb Er Ef. assert (pipe c r2 = pipe c r) as Ep by (unfold pipe; by rewrite Eb).
  split; unfold finned; rewrite ?Ep, ?Er, ?Eb, ?Ef; auto.
Qed.

(** A direction something was allowed to cut. *)
Lemma dir_ok_cut g c r :
  gh_lossy g = true →
  len (pipe c r) ≤ outstanding c ≤ capacity c →
  (holed c = false → outstanding c = len (pipe c r)) →
  (cn_send_buffer c ≠ [] → fl_send_in_progress (cn_flags c) = true) →
  (fl_is_closed (cn_flags c) = true → sending c = false) →
  (reading r = false → cn_receive_buffer r = []) →
  gh_read g ++ cn_receive_buffer r `prefix_of` gh_written g →
  (holed c = false → reading r = true → gh_read g ++ pipe c r `prefix_of` gh_written g) →
  (holed c = false → reading r = true → sending c = true → gh_read g ++ pipe c r = gh_written g) →
  (gh_writer_parked g = true → outstanding c = capacity c) →
  (gh_reader_parked g = true →
     cn_receive_buffer r = [] ∧ fl_remote_fin_received (cn_flags r) = false ∧ reading r = true) →
  dir_ok g c r.
Proof.
  intros Hl ??????????. split; try done; rewrite Hl; try done. intros ?? [?|?]; [auto|done].
Qed.

Lemma do_prefix_read g c r : dir_ok g c r → gh_read g `prefix_of` gh_written g.
Proof. intros D. etrans; [|exact (do_prefix _ _ _ D)]. by apply prefix_app_r. Qed.

(** ** Replacing every connection by one that carries the same *)

Record sim c d : Prop := {
  si_paired : cn_paired d = cn_paired c;
  si_receive : cn_receive_buffer d = cn_receive_buffer c;
  si_queue : cn_send_buffer d = cn_send_buffer c;
  si_payloads : if_payload <$> cn_in_flight d = if_payload <$> cn_in_flight c;
  si_window : cn_window d = cn_window c;
  si_flags : set_send_stalled false (cn_flags d) = set_send_stalled false (cn_flags c);
}.

Lemma sim_refl c : sim c c.
Proof. by split. Qed.

Lemma si_flying c d : sim c d → flying d = flying c.
Proof.
  intros S. unfold flying. f_equal. rewrite !(list_fmap_compose if_payload payload_bytes).
  by rewrite (si_payloads _ _ S).
Qed.

Lemma sim_trans c d r : sim c d → sim d r → sim c r.
Proof. intros [] []. split; congruence. Qed.

Lemma dir_ok_sim g c r c2 r2 : sim c c2 → sim r r2 → dir_ok g c r → dir_ok g c2 r2.
Proof.
  intros S1 S2 D. pose proof (si_flying _ _ S1) as A7.
  destruct S1 as [A1 A2 A3 A4 A5 A6], S2 as [B1 B2 B3 B4 B5 B6].
  unfold set_send_stalled in *. injection A6 as F1 F2 F3 F4 F5 F6 F7.
  injection B6 as G1 G2 G3 G4 G5 G6 G7.
  assert (dir_ok g c r2) as D2.
  { apply (dir_ok_receiver g c r r2 D); [done|unfold reading; congruence|done]. }
  apply (dir_ok_sender g c r2 c2 D2); unfold pipe, queued, holed, sending; try congruence.
  - rewrite F1, F2. apply (do_closed _ _ _ D).
  - rewrite A3, F6. apply (do_queue _ _ _ D).
  - rewrite A3, F2, F4. apply (do_drained _ _ _ D).
  - intros Hl Hs. unfold finned. rewrite A4, F4, G5. apply (do_fin _ _ _ D Hl). unfold sending. congruence.
Qed.

Lemma net_ok_sim w w' :
  net_ok w →
  (∀ id, match conns w !! id, conns w' !! id with
         | Some c, Some d => sim c d
         | None, None => True
         | _, _ => False
         end) →
  nw_next_id (wd_net w') = nw_next_id (wd_net w) →
  nw_waiters (wd_net w') ⊆ nw_waiters (wd_net w) →
  wd_written w' = wd_written w → wd_read w' = wd_read w → wd_lossy w ⊆ wd_lossy w' →
  net_ok w'.
Proof.
  intros [P1 P2 P3] Hs En Hw Ewr Erd Hl. split.
  - intros id d Hd. pose proof (Hs id) as S1. rewrite Hd in S1.
    destruct (conns w !! id) as [c|] eqn:Hc; [|done].
    destruct (P1 id c Hc) as (p & r & Hp & Hne & Hr & Hpr & D).
    pose proof (Hs p) as S2. rewrite Hr in S2. destruct (conns w' !! p) as [r2|] eqn:Hr2; [|done].
    exists p, r2. split_and!; try done; [by rewrite (si_paired _ _ S1)|by rewrite (si_paired _ _ S2)|].
    eapply dir_ok_weaken; [|by eapply dir_ok_sim].
    unfold ghost_le, ghost. cbn [gh_written gh_read gh_lossy gh_writer_parked gh_reader_parked].
    rewrite !bool_decide_eq_true, !bool_decide_eq_false, Ewr, Erd. split_and!; set_solver.
  - intros id d Hd. rewrite En. pose proof (Hs id) as S1. rewrite Hd in S1.
    destruct (conns w !! id) as [c|] eqn:Hc; [|done]. by eapply P2.
  - intros id Hid. rewrite En in Hid. rewrite Ewr, Erd. destruct (P3 id Hid) as (?&?&?&?).
    split_and!; set_solver.
Qed.

(** Nothing but events, clogs, partitions and waiters changed. *)
Lemma net_ok_env w w' :
  net_ok w → conns w' = conns w → nw_next_id (wd_net w') = nw_next_id (wd_net w) →
  nw_waiters (wd_net w') ⊆ nw_waiters (wd_net w) →
  wd_written w' = wd_written w → wd_read w' = wd_read w → wd_lossy w ⊆ wd_lossy w' → net_ok w'.
Proof.
  intros Hok Ec ?????. apply (net_ok_sim w); try done. intros id. rewrite Ec.
  destruct (conns w !! id); [apply sim_refl|done].
Qed.

(** The pair of an endpoint. *)
Lemma net_ok_peer w id c :
  net_ok w → connection (wd_net w) id = Some c →
  ∃ p r, cn_paired c = Some p ∧ id ≠ p ∧ connection (wd_net w) p = Some r ∧ cn_paired r = Some id ∧
    dir_ok (ghost w id p) c r ∧ dir_ok (ghost w p id) r c.
Proof.
  intros Hok Hc. destruct (no_pair _ Hok id c Hc) as (p & r & H1 & H2 & H3 & H4 & D1).
  destruct (no_pair _ Hok p r H3) as (q & c' & H5 & _ & H7 & _ & D2).
  assert (q = id) as -> by congruence. assert (c' = c) as -> by (unfold connection, conns in *; congruence).
  exists p, r. split_and!; try done.
Qed.
End Stream.
