(* ===== verification/NetSteps.v ===== *)
(** Every operation and every event of the simulated network keeps
    [net_ok], and none of them over- or under-runs a window. *)

From stdpp Require Import base list numbers gmap sorting.
From S2P Require Import Prelude Scheduler Network NetWorld NetStream.
#[local] Open Scope Z_scope.

Section Steps.
Context {IP : Type} `{Countable IP}.
Implicit Types (c d r : ConnectionState IP) (n : Net IP) (w : World IP) (g : Ghost).

(** ** Windows in one direction *)

Lemma pipe_parts c r : len (pipe c r) = len (cn_receive_buffer r) + len (flying c) + len (queued c).
Proof. unfold pipe. rewrite !len_app. lia. Qed.

Lemma do_parts g c r : dir_ok g c r →
  0 ≤ len (cn_receive_buffer r) ∧ 0 ≤ len (flying c) ∧ 0 ≤ len (queued c) ∧
  len (cn_receive_buffer r) + len (flying c) + len (queued c) ≤ outstanding c.
Proof.
  intros D. pose proof (do_window _ _ _ D) as [Hw _]. rewrite pipe_parts in Hw.
  pose proof (len_nonneg (cn_receive_buffer r)). pose proof (len_nonneg (flying c)).
  pose proof (len_nonneg (queued c)). lia.
Qed.

(** ** What a landing does to its direction *)

Lemma flying_cons c i rest :
  cn_in_flight c = i :: rest → flying c = payload_bytes (if_payload i) ++ flying (with_flight rest c).
Proof. intros E. unfold flying. by rewrite E. Qed.

Lemma finned_pop c r i rest :
  cn_in_flight c = i :: rest → if_payload i ≠ Fin → finned c r → finned (with_flight rest c) r.
Proof.
  intros E Hi [?|[Hx|?]]; [by left| |by right; right]. right; left. rewrite E in Hx. cbn in Hx.
  apply elem_of_cons in Hx as [?|?]; [congruence|done].
Qed.

(** Only a direction something cut has a receiver that does not read. *)
Lemma dir_ok_lost_cause g c r : dir_ok g c r → holed c = true ∨ reading r = false → gh_lossy g = true.
Proof.
  intros D Hx. destruct (gh_lossy g) eqn:Hl; [done|]. destruct (do_faithful _ _ _ D Hl), Hx; congruence.
Qed.

Lemma dir_ok_land g c r i rest data :
  dir_ok g c r → cn_in_flight c = i :: rest → if_payload i = Data data →
  holed c = false → reading r = true → gh_reader_parked g = false →
  dir_ok g (with_flight rest c) (with_receive (cn_receive_buffer r ++ data) r).
Proof.
  intros D E Ei Hh Hr Hp. pose proof (flying_cons _ _ _ E) as Ef. rewrite Ei in Ef. cbn in Ef.
  assert (pipe (with_flight rest c) (with_receive (cn_receive_buffer r ++ data) r) = pipe c r) as Ep.
  { unfold pipe. rewrite Ef. cbn. by rewrite <- !app_assoc. }
  destruct D. split; rewrite ?Ep; try done.
  - intros Hx. unfold reading in *. cbn in Hx. congruence.
  - cbn. etrans; [|exact (do_contig Hh Hr)]. unfold pipe. rewrite Ef.
    rewrite <- !app_assoc. do 2 apply prefix_app. by apply prefix_app_r.
  - intros Hl Hs. apply (finned_pop c r i); [done|by rewrite Ei|]. by apply do_fin.
  - by rewrite Hp.
Qed.

Lemma dir_ok_lost g c r i rest :
  dir_ok g c r → cn_in_flight c = i :: rest → holed c = false → reading r = false →
  (payload_bytes (if_payload i) ≠ [] → gh_writer_parked g = false) →
  dir_ok g (pay (len (payload_bytes (if_payload i))) (with_flight rest c)) r.
Proof.
  intros D E Hh Hr Hp. pose proof (flying_cons _ _ _ E) as Ef.
  pose proof (dir_ok_lost_cause _ _ _ D (or_intror Hr)) as Hl.
  pose proof (len_nonneg (payload_bytes (if_payload i))) as Hn.
  assert (len (pipe c r) = len (payload_bytes (if_payload i)) +
            len (pipe (pay (len (payload_bytes (if_payload i))) (with_flight rest c)) r)) as Ep.
  { unfold pipe. rewrite Ef, !len_app. cbn. unfold flying, queued. cbn. lia. }
  assert (outstanding (pay (len (payload_bytes (if_payload i))) (with_flight rest c)) =
          outstanding c - len (payload_bytes (if_payload i))) as Eo by done.
  destruct D. split; try done; rewrite ?Eo; try congruence.
  - change (capacity (pay _ _)) with (capacity c). lia.
  - intros ?. rewrite do_window_eq by done. lia.
  - intros Hw. destruct (payload_bytes (if_payload i)).
    + rewrite len_nil, Z.sub_0_r. by apply do_writer.
    + rewrite Hp in Hw; done.
Qed.

Lemma dir_ok_swallowed g c r i rest :
  dir_ok g c r → cn_in_flight c = i :: rest → holed c = true → dir_ok g (with_flight rest c) r.
Proof.
  intros D E Hh. pose proof (flying_cons _ _ _ E) as Ef.
  pose proof (dir_ok_lost_cause _ _ _ D (or_introl Hh)) as Hl.
  pose proof (len_nonneg (payload_bytes (if_payload i))) as Hn.
  assert (len (pipe c r) = len (payload_bytes (if_payload i)) + len (pipe (with_flight rest c) r)) as Ep.
  { unfold pipe. rewrite Ef, !len_app. cbn. unfold flying, queued. cbn. lia. }
  destruct D. split; try done.
  - change (outstanding (with_flight rest c)) with (outstanding c).
    change (capacity (with_flight rest c)) with (capacity c). lia.
  - change (holed (with_flight rest c)) with (holed c). congruence.
  - change (holed (with_flight rest c)) with (holed c). congruence.
  - change (holed (with_flight rest c)) with (holed c). congruence.
  - congruence.
Qed.

Lemma pipe_fin c r i rest :
  cn_in_flight c = i :: rest → if_payload i = Fin → pipe (with_flight rest c) r = pipe c r.
Proof. intros E Ei. unfold pipe. rewrite (flying_cons _ _ _ E), Ei. done. Qed.

Lemma dir_ok_fin g c r i rest :
  dir_ok g c r → cn_in_flight c = i :: rest → if_payload i = Fin → gh_reader_parked g = false →
  dir_ok g (with_flight rest c) (flag (set_remote_fin_received true) r).
Proof.
  intros D E Ei Hp. pose proof (pipe_fin c r i rest E Ei) as Ep.
  assert (dir_ok g c (flag (set_remote_fin_received true) r)) as D2.
  { destruct D. split; try done; [by right; right|]. by rewrite Hp. }
  apply (dir_ok_sender g c); try done; try apply D2. by right; right.
Qed.

(** A [Fin] that arrives at a closed receiver. *)
Lemma dir_ok_fin_lost g c r i rest :
  dir_ok g c r → cn_in_flight c = i :: rest → if_payload i = Fin → reading r = false →
  dir_ok g (with_flight rest c) r.
Proof.
  intros D E Ei Hr. pose proof (dir_ok_lost_cause _ _ _ D (or_intror Hr)) as Hl.
  apply (dir_ok_sender g c); try done; try apply D; [by eapply pipe_fin|congruence].
Qed.

(** A receiver of [c] changing as a sender only. *)
Lemma dir_ok_peer_window g c r k : dir_ok g c r → dir_ok g c (pay k r).
Proof. intros D. by apply (dir_ok_receiver g c r). Qed.

(** ** Reads and writes *)

Definition wrote (data : list byte) g : Ghost :=
  mkGhost (gh_written g ++ data) (gh_read g) (gh_lossy g) (gh_writer_parked g) (gh_reader_parked g).
Definition got (data : list byte) g : Ghost :=
  mkGhost (gh_written g) (gh_read g ++ data) (gh_lossy g) (gh_writer_parked g) (gh_reader_parked g).

Lemma dir_ok_write g c r chunk :
  dir_ok g c r → sending c = true → 0 < len (ck_data chunk) →
  outstanding c + len (ck_data chunk) ≤ capacity c →
  dir_ok (wrote (ck_data chunk) g)
    (flag (set_send_in_progress true)
      (with_queue (cn_send_buffer c ++ [chunk])
         (with_window (mkWindow (capacity c) (outstanding c + len (ck_data chunk))) c))) r.
Proof.
  intros D Hs Hl Hk. set (c2 := flag _ _).
  assert (pipe c2 r = pipe c r ++ ck_data chunk) as Ep.
  { unfold pipe, queued, c2. cbn. rewrite fmap_app, concat_app. cbn. rewrite app_nil_r.
    by rewrite <- !app_assoc. }
  assert (holed c2 = holed c ∧ sending c2 = sending c ∧
          outstanding c2 = outstanding c + len (ck_data chunk) ∧ capacity c2 = capacity c)
    as (E1 & E2 & E3 & E4) by done.
  destruct D. split; rewrite ?Ep, ?E1, ?E2, ?E3, ?E4, ?len_app; cbn [wrote gh_written gh_read gh_lossy gh_writer_parked gh_reader_parked];
    try done; rewrite ?Hs.
  - lia.
  - intros Hh. rewrite do_window_eq; done.
  - by apply prefix_app_r.
  - intros Hh Hr. rewrite app_assoc. rewrite do_exact by auto. done.
  - intros Hh Hr _. rewrite app_assoc. rewrite do_exact by auto. done.
  - done.
  - intros Hw. specialize (do_writer Hw). lia.
Qed.

Lemma dir_ok_read g c r k :
  dir_ok g c r → 0 ≤ k ≤ len (cn_receive_buffer r) → (k ≠ 0 → gh_writer_parked g = false) →
  dir_ok (got (slice (cn_receive_buffer r) 0 k) g) (pay k c)
    (with_receive (drop (Z.to_nat k) (cn_receive_buffer r)) r).
Proof.
  intros D Hk Hp. set (b := cn_receive_buffer r) in *. set (r2 := with_receive _ r).
  assert (b = slice b 0 k ++ drop (Z.to_nat k) b) as Eb.
  { unfold slice. cbn. rewrite Z.sub_0_r. by rewrite take_drop. }
  assert (len (slice b 0 k) = k) as El.
  { rewrite len_slice; lia. }
  assert (slice b 0 k ++ pipe (pay k c) r2 = pipe c r) as Ep.
  { unfold pipe at 1. cbn. rewrite app_assoc, <- Eb. done. }
  assert (len (pipe c r) = k + len (pipe (pay k c) r2)) as Epl by (rewrite <- Ep, len_app; lia).
  assert (holed (pay k c) = holed c ∧ sending (pay k c) = sending c ∧ reading r2 = reading r ∧
          outstanding (pay k c) = outstanding c - k ∧ capacity (pay k c) = capacity c)
    as (E1 & E2 & E3 & E4 & E5) by done.
  destruct D. split; rewrite ?E1, ?E2, ?E3, ?E4, ?E5; cbn [got gh_written gh_read gh_lossy gh_writer_parked gh_reader_parked];
    rewrite <- ?app_assoc, ?Ep; try done.
  - lia.
  - intros Hh. rewrite do_window_eq by done. lia.
  - intros Hr. specialize (do_shut Hr). cbn. fold b in do_shut. rewrite do_shut. by rewrite drop_nil.
  - unfold r2. cbn. rewrite <- Eb. done.
  - intros Hw. destruct (decide (k = 0)) as [->|Hne]; [rewrite do_writer by done; lia|].
    rewrite Hp in Hw; done.
  - intros Hr. specialize (do_reader Hr) as (X & Y & Z). unfold r2. cbn. fold b in X. rewrite X, drop_nil. done.
Qed.

(** ** Handlers compose *)

(** The invariant of the network a handler has reached, for the ghosts of
    [w]. *)
Definition nok w n : Prop := net_ok (after w n).

Lemma nok_start w : net_ok w → nok w (wd_net w).
Proof. intros Hok. by apply (net_ok_env w). Qed.

Lemma nok_lossy ls w n : nok w n → nok (note_lossy ls w) n.
Proof. intros Hok. apply (net_ok_env (after w n)); try done. cbn. set_solver. Qed.

Lemma nok_pair w n id c :
  nok w n → connection n id = Some c →
  ∃ p r, cn_paired c = Some p ∧ id ≠ p ∧ connection n p = Some r ∧ cn_paired r = Some id ∧
    dir_ok (ghost (after w n) id p) c r ∧ dir_ok (ghost (after w n) p id) r c.
Proof. intros Hok Hc. by apply (net_ok_peer (after w n)). Qed.

(** Events, clogs and partitions do not matter, and tasks may be woken. *)
Lemma nok_env w n n' :
  nok w n → nw_connections n' = nw_connections n → nw_next_id n' = nw_next_id n →
  nw_waiters n' ⊆ nw_waiters n → nok w n'.
Proof. intros Hok ???. by apply (net_ok_env (after w n)). Qed.

Lemma nok_take w n x : nok w n → nok w (take_waiter x n).
Proof.
  intros Hok. apply (nok_env w n); [done|unfold take_waiter; by case_bool_decide..|].
  rewrite take_waiter_waiters. set_solver.
Qed.

Lemma nok_schedule w n t e : nok w n → nok w (schedule t e n).
Proof. intros Hok. by apply (nok_env w n). Qed.

Lemma ghost_after_le w n n' id p :
  nw_waiters n' ⊆ nw_waiters n → ghost_le (ghost (after w n) id p) (ghost (after w n') id p).
Proof.
  intros Hs. unfold ghost_le, ghost. cbn. rewrite !bool_decide_eq_true. split_and!; [done..| |]; set_solver.
Qed.

Lemma nok_touch w n n' id p c r c2 r2 :
  nok w n → connection n id = Some c → cn_paired c = Some p → connection n p = Some r →
  cn_paired r = Some id →
  touches n n' id p c2 r2 → cn_paired c2 = Some p → cn_paired r2 = Some id →
  (dir_ok (ghost (after w n') id p) c r → dir_ok (ghost (after w n') p id) r c →
   dir_ok (ghost (after w n') id p) c2 r2 ∧ dir_ok (ghost (after w n') p id) r2 c2) →
  nok w n'.
Proof.
  intros Hok Hc Hp Hr Hpr HT Hp2 Hpr2 HD.
  destruct (nok_pair w n id c Hok Hc) as (p' & r' & E1 & _ & E2 & _ & D1 & D2).
  assert (p' = p) as -> by congruence. assert (r' = r) as -> by congruence.
  pose proof (tc_waiters _ _ _ _ _ _ HT) as Hs.
  destruct HD as [D3 D4].
  { eapply dir_ok_weaken; [by apply ghost_after_le|done]. }
  { eapply dir_ok_weaken; [by apply ghost_after_le|done]. }
  apply (net_ok_touch (after w n) (after w n') id p c r c2 r2); try done.
  by destruct HT.
Qed.

Lemma writer_free w n id p :
  (SendWaiter id ∉ nw_waiters n) → gh_writer_parked (ghost (after w n) id p) = false.
Proof. intros Hx. cbn. by rewrite bool_decide_eq_false. Qed.
Lemma reader_free w n id p :
  (ReadWaiter p ∉ nw_waiters n) → gh_reader_parked (ghost (after w n) id p) = false.
Proof. intros Hx. cbn. by rewrite bool_decide_eq_false. Qed.

Lemma take_waiter_gone x n : x ∉ nw_waiters (take_waiter x n).
Proof. rewrite take_waiter_waiters. set_solver. Qed.

(** ** Landing and delivery *)

Lemma nok_update w n id c f :
  nok w n → connection n id = Some c → cn_paired (f c) = cn_paired c →
  (∀ g r, dir_ok g c r → dir_ok g (f c) r) → (∀ g r, dir_ok g r c → dir_ok g r (f c)) →
  nok w (update id f n).
Proof.
  intros Hok Hc Hpf Hs Hr. destruct (nok_pair w n id c Hok Hc) as (p & r & Hp & Hne & Hcp & Hpr & _).
  eapply (nok_touch w n _ id p c r (f c) r); eauto; [|congruence].
  apply touches_update; [done|]. by apply touches_refl.
Qed.

Lemma receiver_reading_eq n p r :
  connection n p = Some r → receiver_reading n (Some p) = reading r.
Proof. intros E. unfold receiver_reading. cbn. by rewrite E. Qed.

Lemma nok_land w n sender c i rest :
  nok w n → connection n sender = Some c → cn_in_flight c = i :: rest →
  ∃ n', land [] sender (if_payload i) (update sender (with_flight rest) n) = Some n' ∧ nok w n'.
Proof.
  intros Hok Hc Hf. destruct (nok_pair w n sender c Hok Hc) as (p & r & Hp & Hne & Hr & Hpr & D1 & D2).
  pose proof (touches_update n n sender p c r (with_flight rest) Hne (touches_refl n sender p c r Hc Hr)) as HT.
  set (n1 := update sender (with_flight rest) n) in *.
  unfold land. rewrite (tc_id _ _ _ _ _ _ HT). change (fl_send_black_holed _) with (holed c).
  destruct (holed c) eqn:Hh.
  { eexists. split; [done|]. eapply (nok_touch w n _ sender p c r); eauto.
    intros E1 E2. split; [by eapply dir_ok_swallowed|]. by apply (dir_ok_receiver _ r c). }
  change (cn_paired (with_flight rest c)) with (cn_paired c). rewrite Hp.
  rewrite (receiver_reading_eq n1 p r) by apply HT.
  destruct (if_payload i) as [data|] eqn:Ei.
  - destruct (reading r) eqn:Er.
    + eexists. split; [done|]. set (n2 := take_waiter _ _).
      assert (touches n n2 sender p (with_flight rest c) (with_receive (cn_receive_buffer r ++ data) r)) as HT2.
      { apply touches_take. eapply eq_rect; [exact (touches_update_peer n n1 sender p _ r _ Hne HT)|].
        cbn. destruct data; done. }
      eapply (nok_touch w n _ sender p c r); eauto. intros E1 E2. split.
      * eapply dir_ok_land; eauto. apply reader_free, take_waiter_gone.
      * apply (dir_ok_sender _ r _); try done; try apply E2. by apply (dir_ok_receiver _ r c).
    + pose proof (do_parts _ _ _ D1) as Hparts. rewrite (flying_cons _ _ _ Hf), Ei, len_app in Hparts. cbn [payload_bytes] in Hparts.
      pose proof (len_nonneg data). pose proof (len_nonneg (flying (with_flight rest c))).
      destruct (touches_release n n1 sender p (with_flight rest c) r (len data) Hne HT) as (n2 & E & HT2 & Hw & _).
      { change (outstanding (with_flight rest c)) with (outstanding c). lia. }
      exists n2. split; [done|].
      eapply (nok_touch w n _ sender p c r); eauto. intros E1 E2. split.
      * pose proof (dir_ok_lost (ghost (after w n2) sender p) c r i rest) as HX. rewrite Ei in HX. cbn [payload_bytes] in HX.
        apply HX; try done. intros Hd. apply writer_free, Hw. destruct data; [done|].
        rewrite len_cons. pose proof (len_nonneg data). lia.
      * by apply (dir_ok_receiver _ r c).
  - assert (dir_ok (ghost (after w n) p sender) r (with_flight rest c)) as D3 by by apply (dir_ok_receiver _ r c).
    destruct (receiver_open n1 (Some p)) eqn:Eo.
    + eexists. split; [done|]. set (n2 := take_waiter _ _).
      assert (touches n n2 sender p (with_flight rest c) (flag (set_remote_fin_received true) r)) as HT2.
      { apply touches_take. exact (touches_update_peer n n1 sender p _ r _ Hne HT). }
      eapply (nok_touch w n _ sender p c r); eauto. intros E1 E2. split.
      * eapply dir_ok_fin; eauto. apply reader_free, take_waiter_gone.
      * apply (dir_ok_sender _ r _); try done; try apply E2. by apply (dir_ok_receiver _ r c).
    + eexists. split; [done|]. eapply (nok_touch w n _ sender p c r); eauto. intros E1 E2. split.
      * eapply dir_ok_fin_lost; eauto. unfold receiver_open in Eo. cbn in Eo.
        rewrite (tc_peer _ _ _ _ _ _ HT) in Eo. unfold reading. by rewrite Eo.
      * by apply (dir_ok_receiver _ r c).
Qed.

(** ** Holding and thawing *)

Definition simnet n n' : Prop :=
  nw_next_id n' = nw_next_id n ∧ nw_waiters n' = nw_waiters n ∧
  ∀ id, match connection n id, connection n' id with
        | Some c, Some d => sim c d
        | None, None => True
        | _, _ => False
        end.

Lemma simnet_refl n : simnet n n.
Proof. split_and!; try done. intros id. destruct (connection n id); [apply sim_refl|done]. Qed.

Lemma simnet_trans n1 n2 n3 : simnet n1 n2 → simnet n2 n3 → simnet n1 n3.
Proof.
  intros (A1 & A2 & A3) (B1 & B2 & B3). split_and!; try congruence.
  intros id. specialize (A3 id). specialize (B3 id).
  destruct (connection n1 id), (connection n2 id), (connection n3 id); try done. by eapply sim_trans.
Qed.

Lemma simnet_update id f n :
  (∀ c, connection n id = Some c → sim c (f c)) → simnet n (update id f n).
Proof.
  intros Hf. split_and!; try done. intros q. rewrite connection_update. case_decide as Hd; subst.
  - destruct (connection n q) eqn:E; cbn; auto.
  - destruct (connection n q); [apply sim_refl|done].
Qed.

Lemma simnet_schedule t e n n' : simnet n n' → simnet n (schedule t e n').
Proof. done. Qed.

Lemma simnet_foldl {A} (f : Net IP → A → Net IP) (l : list A) n :
  (∀ n x, simnet n (f n x)) → simnet n (foldl f n l).
Proof.
  intros Hf. revert n. induction l as [|x l IH]; intros n; cbn; [apply simnet_refl|].
  eapply simnet_trans; [apply Hf|apply IH].
Qed.

Lemma nok_sim w n n' : nok w n → simnet n n' → nok w n'.
Proof.
  intros Hok (E1 & E2 & E3). apply (net_ok_sim (after w n)); try done. cbn. by rewrite E2.
Qed.

Lemma simnet_hold now n id : simnet n (hold_in_flight now n id).
Proof.
  unfold hold_in_flight. destruct (connection n id) as [c|]; [|apply simnet_refl].
  destruct (cn_held_since c); [apply simnet_refl|]. destruct (cn_in_flight c); [apply simnet_refl|].
  by apply simnet_update.
Qed.

Lemma simnet_hold_all now n : simnet n (hold_partitioned_in_flight now n).
Proof. apply simnet_foldl, simnet_hold. Qed.

Lemma simnet_thaw now n id : simnet n (thaw now n id).
Proof.
  unfold thaw. destruct (connection n id) as [c|] eqn:Hc; [|apply simnet_refl].
  destruct (cn_held_since c) as [since|]; [|apply simnet_refl].
  eapply simnet_trans; [|apply simnet_foldl; intros; apply simnet_schedule, simnet_refl].
  apply simnet_update. intros c' Hc'. assert (c' = c) as -> by congruence. split; try done.
  cbn. rewrite <- list_fmap_compose. by apply list_fmap_ext.
Qed.

Lemma simnet_resume now n : simnet n (resume_after_heal now n).
Proof.
  unfold resume_after_heal. eapply simnet_trans; [apply (simnet_foldl (thaw now)), simnet_thaw|].
  apply simnet_foldl. intros n' id. apply simnet_schedule. by apply simnet_update.
Qed.

Lemma nok_deliver_loop w fuel flips sender now n :
  nok w n → (∀ i, flips i = []) → ∃ n', deliver_loop fuel flips sender now n = Some n' ∧ nok w n'.
Proof.
  intros Hok Hf. revert n Hok. induction fuel as [|fuel IH]; intros n Hok; cbn [deliver_loop]; [eauto|].
  destruct (connection n sender) as [c|] eqn:Hc; [|eauto].
  destruct (cn_held_since c); [eauto|]. destruct (cn_in_flight c) as [|i rest] eqn:Hi; [eauto|].
  case_match; [eauto|]. case_match.
  - eexists. split; [done|]. eapply nok_sim; [done|apply simnet_hold].
  - rewrite Hf. destruct (nok_land w n sender c i rest Hok Hc Hi) as (n1 & E & Hok1).
    rewrite E. cbn. by apply IH.
Qed.

(** ** Sending *)

Lemma nok_put w n id c c1 payload t now :
  nok w n → connection n id = Some c → cn_paired c1 = cn_paired c →
  (∀ g r f h s l i, flying (with_flight f c1) = flying c1 ++ payload_bytes payload →
     f = cn_in_flight c1 ++ [i] → if_payload i = payload → dir_ok g c r → dir_ok g (with_held h (with_flight f (with_clock s l c1))) r) →
  (∀ g r f h s l, dir_ok g r c → dir_ok g r (with_held h (with_flight f (with_clock s l c1)))) →
  nok w (put_in_flight id payload t now (update id (λ _, c1) n)).
Proof.
  intros Hok Hc Hp1 HS HR. destruct (nok_pair w n id c Hok Hc) as (p & r & Hp & Hne & Hcp & Hpr & _).
  pose proof (touches_update n n id p c r (λ _, c1) Hne (touches_refl n id p c r Hc Hcp)) as HT.
  destruct (touches_put n _ id p c1 r payload t now Hne HT) as (h & l & item & Ei & HT2 & _).
  eapply (nok_touch w n _ id p c r); eauto; [cbn; congruence|].
  intros D1 D2. split; [|by apply HR]. eapply HS; [|done..].
  unfold flying. cbn. rewrite fmap_app, concat_app. cbn. by rewrite Ei, app_nil_r.
Qed.

Lemma update_self n id c (f : ConnectionState IP → ConnectionState IP) :
  connection n id = Some c → update id f n = update id (λ _, f c) n.
Proof.
  intros Hc. unfold update, with_connections. f_equal. apply map_eq. intros q. destruct (decide (id = q)) as [->|].
  - rewrite !lookup_alter_eq. unfold connection in Hc. by rewrite Hc.
  - by rewrite !lookup_alter_ne.
Qed.

Lemma finned_put c r f h s l i :
  f = cn_in_flight c ++ [i] → if_payload i = Fin → finned (with_held h (with_flight f (with_clock s l c))) r.
Proof.
  intros -> Ei. right; left. cbn. rewrite fmap_app. apply elem_of_app. right. cbn. rewrite Ei.
  by apply list_elem_of_here.
Qed.

Lemma finned_more c r f h s l c2 i :
  f = cn_in_flight c2 ++ [i] → cn_in_flight c2 = cn_in_flight c →
  fl_graceful_close_pending (cn_flags c2) = fl_graceful_close_pending (cn_flags c) →
  finned c r → finned (with_held h (with_flight f (with_clock s l c2))) r.
Proof.
  intros -> Ef Ep [Hx|[Hx|Hx]]; [left; cbn; congruence| |by right; right].
  right; left. cbn. rewrite fmap_app, Ef. apply elem_of_app. by left.
Qed.

Lemma connection_update_eq n id f c :
  connection n id = Some c → connection (update id f n) id = Some (f c).
Proof. intros E. by rewrite connection_update, decide_True, E. Qed.

(** The queue ran dry: a pending close sends its [Fin]. *)
Lemma nok_idle w n id c now :
  nok w n → connection n id = Some c → cn_send_buffer c = [] →
  nok w (finish_close id now (update id (flag (set_send_in_progress false)) n)).
Proof.
  intros Hok Hc Hq. set (c1 := flag (set_send_in_progress false) c).
  assert (connection (update id (flag (set_send_in_progress false)) n) id = Some c1) as Hc1
    by by apply connection_update_eq.
  unfold finish_close. rewrite Hc1. change (fl_graceful_close_pending _) with (fl_graceful_close_pending (cn_flags c)).
  assert (nok w (update id (flag (set_send_in_progress false)) n)) as Hok1.
  { apply (nok_update w n id c); try done.
    - intros g r D. apply (dir_ok_sender g c r); try done; apply D.
    - intros g r D. by apply (dir_ok_receiver g r c). }
  destruct (fl_graceful_close_pending _); [|done].
  unfold put_fin_in_flight, paired. rewrite (connection_update_eq _ _ _ c1 Hc1). cbn [mbind option_bind].
  destruct (nok_pair w _ id c1 Hok1 Hc1) as (p & _ & Hp & _).
  change (cn_paired (flag _ c1)) with (cn_paired c1). rewrite Hp.
  rewrite (update_self _ id c1) by done. eapply (nok_put w _ id c1); try done.
  - intros g r f h s l i Ef Ef2 Ei D.
    assert (pipe (with_flight f c1) r = pipe c1 r) as Ep.
    { unfold pipe. change (flying (with_flight f c1)) with (flying (with_flight f (flag (set_graceful_close_pending false) c1))).
      rewrite Ef. cbn. by rewrite app_nil_r. }
    apply (dir_ok_sender g c1 r); try done; try apply D. intros _ _. by apply (finned_put _ _ _ _ _ _ i).
  - intros g r f h s l D. by apply (dir_ok_receiver g r c1).
Qed.

Lemma cut_chunk_app pm partial data :
  1 ≤ pm → (cut_chunk pm partial data).1 ++ default [] (cut_chunk pm partial data).2 = data.
Proof.
  intros Hpm. unfold cut_chunk. destruct partial as [draw|]; [|by rewrite app_nil_r].
  destruct (Z.eqb_spec (len data) 0); [by rewrite app_nil_r|]. case_match eqn:Ht; [|by rewrite app_nil_r].
  pose proof (len_nonneg data). pose proof (Z.mod_pos_bound draw (Z.min (len data) pm)).
  cbn. rewrite <- slice_split; [by apply slice_all|lia|]. apply Z.ltb_lt in Ht. lia.
Qed.

Lemma connection_put n id payload t now c :
  connection n id = Some c → ∃ h f s l,
    connection (put_in_flight id payload t now n) id = Some (with_held h (with_flight f (with_clock s l c))).
Proof.
  intros Hc. unfold put_in_flight. rewrite Hc. do 4 eexists.
  unfold schedule, connection. cbn [nw_connections]. etrans; [exact (connection_update_eq n id _ c Hc)|].
  reflexivity.
Qed.

Lemma nok_normal_send w n pm (d : SendDraws) id now :
  1 ≤ pm → nok w n → nok w (handle_normal_send pm d id now n).
Proof.
  intros Hpm Hok. unfold handle_normal_send. destruct (connection n id) as [c|] eqn:Hc; [|done].
  destruct (nok_pair w n id c Hok Hc) as (p & r & Hp & Hne & Hcp & Hpr & D1 & _).
  destruct (cn_send_buffer c) as [|chunk queue] eqn:Hq; [by eapply nok_idle|].
  pose proof (cut_chunk_app pm (sd_partial d) (ck_data chunk) Hpm) as Hcut.
  destruct (cut_chunk pm (sd_partial d) (ck_data chunk)) as [data rest]. cbn in Hcut.
  set (queue2 := match rest with Some _ => _ | None => _ end).
  assert (data ++ concat (ck_data <$> queue2) = queued c) as Eq.
  { unfold queued. rewrite Hq. subst queue2. destruct rest; cbn in *; rewrite <- Hcut.
    - by rewrite <- app_assoc.
    - by rewrite app_nil_r. }
  set (at_ := sat_add _ _). rewrite Hp.
  rewrite (update_self n id c (with_queue queue2) Hc). set (n1 := put_in_flight _ _ _ _ _).
  assert (nok w n1) as Hok1.
  { apply (nok_put w n id c); try done.
    - intros g r' f h s l i Ef Ef2 Ei D.
      assert (pipe (with_held h (with_flight f (with_clock s l (with_queue queue2 c)))) r' = pipe c r') as Ep.
      { unfold pipe. rewrite <- Eq.
        change (flying (with_held _ _)) with (flying (with_flight f (with_queue queue2 c))).
        rewrite Ef. cbn. by rewrite <- !app_assoc. }
      apply (dir_ok_sender g c r'); try done; try apply D.
      + intros _. apply (do_queue _ _ _ D). by rewrite Hq.
      + intros Hl Hs Hpd. pose proof (do_drained _ _ _ D Hl Hs Hpd). congruence.
      + intros Hl Hs. eapply (finned_more c); [done..|]. by apply D.
    - intros g r' f h s l D. by apply (dir_ok_receiver g r' c). }
  destruct queue2 eqn:Hq2; [|by apply nok_schedule].
  destruct (connection_put (update id (λ _, with_queue [] c) n) id (Data data) at_ now (with_queue [] c))
    as (h & f & s & l & E1); [exact (connection_update_eq n id (λ _, with_queue [] c) c Hc)|].
  by eapply nok_idle.
Qed.

(** A sender that is done drops its queue. *)
Lemma dir_ok_flush g c r c2 :
  dir_ok g c r → (gh_lossy g = false → cn_send_buffer c = []) →
  sending c2 = false → holed c2 = holed c → cn_send_buffer c2 = [] → flying c2 = flying c →
  capacity c2 = capacity c → outstanding c2 = outstanding c - len (queued c) →
  gh_writer_parked g = false → (gh_lossy g = false → finned c2 r) → dir_ok g c2 r.
Proof.
  intros D Hl Hs Hh Hq Hf Hc Ho Hw Hfin.
  assert (pipe c2 r ++ queued c = pipe c r) as Ep.
  { unfold pipe, queued. rewrite Hf, Hq. cbn. by rewrite app_nil_r, <- app_assoc. }
  assert (len (pipe c r) = len (pipe c2 r) + len (queued c)) as El by by rewrite <- Ep, len_app.
  pose proof (len_nonneg (queued c)). destruct D. split; try done; rewrite ?Hh, ?Hc, ?Ho, ?Hs, ?Hw; try done.
  - lia.
  - intros Hx. rewrite do_window_eq by done. lia.
  - intros Hx Hr. etrans; [|exact (do_contig Hx Hr)]. rewrite <- Ep, app_assoc. by apply prefix_app_r.
  - intros Hx Hr [?|Hy]; [done|]. rewrite <- do_exact by auto. rewrite <- Ep.
    unfold queued. rewrite Hl by done. by rewrite app_nil_r.
  - auto.
Qed.

Lemma nok_process w n pm (d : SendDraws) id now :
  1 ≤ pm → nok w n → ∃ n', handle_process_send_buffer pm d id now n = Some n' ∧ nok w n'.
Proof.
  intros Hpm Hok. unfold handle_process_send_buffer.
  destruct (connection n id) as [c|] eqn:Hc; [|eexists; split; [done|by apply nok_take]].
  destruct (nok_pair w n id c Hok Hc) as (p & r & Hp & Hne & Hcp & Hpr & D1 & D2).
  destruct (_ && _) eqn:Hclosed.
  - pose proof (do_parts _ _ _ D1).
    destruct (touches_discard_queue n n id p c r Hne (touches_refl n id p c r Hc Hcp)) as (n1 & E & HT & _); [lia|].
    rewrite E. cbn [mbind option_bind]. eexists. split; [done|].
    set (n2 := take_waiter _ _).
    assert (touches n n2 id p (flag (set_send_stalled false ∘ set_send_in_progress false)
              (pay (len (queued c)) (with_queue [] c))) r) as HT2.
    { apply touches_take. exact (touches_update n n1 id p _ r _ Hne HT). }
    apply andb_true_iff in Hclosed as [Hcl Hpd]. apply negb_true_iff in Hpd.
    eapply (nok_touch w n _ id p c r); eauto. intros E1 E2. split; [|by apply (dir_ok_receiver _ r c)].
    assert (sending c = false) as Hs.
    { apply orb_true_iff in Hcl as [Hcl|Hcl]; [by apply (do_closed _ _ _ D1)|]. unfold sending. by rewrite Hcl. }
    apply (dir_ok_flush _ c r); try done; [|apply writer_free, take_waiter_gone|].
    + intros Hl. by apply (do_drained _ _ _ E1).
    + intros Hl. by apply (do_fin _ _ _ E1).
  - destruct (cn_send_buffer c).
    + eexists. split; [done|]. by apply nok_normal_send.
    + case_match; (eexists; split; [done|]); [|by apply nok_normal_send].
      eapply nok_sim; [done|]. by apply simnet_update.
Qed.
End Steps.
