(* ===== verification/NetSafe.v ===== *)
(** Closing, resetting, cutting and polling keep the network's invariant; so
    every run of the simulated network is free of window panics and every
    stream carries bytes in order. *)

From stdpp Require Import base list numbers gmap sorting.
From S2P Require Import Prelude Scheduler Network NetWorld NetStream NetSteps.
#[local] Open Scope Z_scope.

Section Safe.
Context {IP : Type} `{Countable IP}.
Implicit Types (c d r : ConnectionState IP) (n : Net IP) (w : World IP) (g : Ghost).

(** ** Directions that are given up *)

(** The receiver closed, and gave the unread bytes back. *)
Lemma dir_ok_unread g c r r2 :
  dir_ok g c r → gh_lossy g = true → cn_receive_buffer r2 = [] → reading r2 = false →
  gh_reader_parked g = false → (cn_receive_buffer r ≠ [] → gh_writer_parked g = false) →
  dir_ok g (pay (len (cn_receive_buffer r)) c) r2.
Proof.
  intros D Hl Hb Hr Hrp Hwp. pose proof (do_prefix_read _ _ _ D) as Hpre.
  assert (pipe c r = cn_receive_buffer r ++ pipe (pay (len (cn_receive_buffer r)) c) r2) as Ep.
  { unfold pipe at 2. rewrite Hb. done. }
  pose proof (f_equal len Ep) as El. rewrite len_app in El. pose proof (len_nonneg (cn_receive_buffer r)).
  destruct D. apply dir_ok_cut; try done; try congruence.
  - change (outstanding (pay _ c)) with (outstanding c - len (cn_receive_buffer r)).
    change (capacity (pay _ c)) with (capacity c). lia.
  - intros Hh. change (outstanding (pay _ c)) with (outstanding c - len (cn_receive_buffer r)).
    rewrite do_window_eq by done. lia.
  - by rewrite Hb, app_nil_r.
  - intros Hw. change (outstanding (pay _ c)) with (outstanding c - len (cn_receive_buffer r)).
    change (capacity (pay _ c)) with (capacity c).
    destruct (cn_receive_buffer r); [rewrite len_nil, Z.sub_0_r; auto|]. rewrite Hwp in Hw; done.
Qed.

(** Both ends closed and everything on its way was dropped. *)
Lemma dir_ok_dead g c r c2 r2 :
  dir_ok g c r → gh_lossy g = true → cn_receive_buffer r2 = [] → reading r2 = false →
  cn_send_buffer c2 = [] → cn_in_flight c2 = [] → sending c2 = false →
  capacity c2 = capacity c → outstanding c2 = outstanding c - len (pipe c r) → holed c2 = holed c →
  gh_reader_parked g = false → gh_writer_parked g = false → dir_ok g c2 r2.
Proof.
  intros D Hl Hb Hr Hq Hf Hs Hc Ho Hh Hrp Hwp. pose proof (do_prefix_read _ _ _ D) as Hpre.
  assert (pipe c2 r2 = []) as Ep by (unfold pipe, flying, queued; by rewrite Hb, Hq, Hf).
  pose proof (len_nonneg (pipe c r)).
  destruct D. apply dir_ok_cut; try done; rewrite ?Ep, ?Hc, ?Ho, ?Hh, ?Hb, ?app_nil_r, ?len_nil; try done; try congruence.
  - lia.
  - intros Hx. rewrite do_window_eq by done. lia.
Qed.

Lemma dir_ok_hole g c r :
  dir_ok g c r → gh_lossy g = true → dir_ok g (flag (set_send_black_holed true) c) r.
Proof.
  intros D Hl. destruct D. apply dir_ok_cut; try done.
Qed.

Lemma lossy_ghost w n id p : id ∈ wd_lossy w → gh_lossy (ghost (after w n) id p) = true.
Proof. intros Hl. cbn. by rewrite bool_decide_eq_true. Qed.

(** ** Closing *)

(** An endpoint stops writing: it has queued bytes and a close pending, or
    sends its [Fin]. *)
Lemma dir_ok_closing g c r c2 :
  dir_ok g c r → sending c2 = false → pipe c2 r = pipe c r → cn_window c2 = cn_window c →
  holed c2 = holed c → cn_send_buffer c2 = cn_send_buffer c →
  fl_send_in_progress (cn_flags c2) = fl_send_in_progress (cn_flags c) →
  (gh_lossy g = false → fl_graceful_close_pending (cn_flags c2) = false → cn_send_buffer c = []) →
  (gh_lossy g = false → finned c2 r) → dir_ok g c2 r.
Proof.
  intros D Hs Ep Ew Eh Eq Ei Hd Hf. apply (dir_ok_sender g c r); try done; rewrite ?Hs; try done.
  - rewrite Eq, Ei. apply D.
  - rewrite Eq. auto.
  - auto.
Qed.

Lemma pipe_put_fin c r h f s l i :
  f = cn_in_flight c ++ [i] → if_payload i = Fin →
  pipe (with_held h (with_flight f (with_clock s l c))) r = pipe c r.
Proof.
  intros -> Ei. unfold pipe, flying. cbn. rewrite fmap_app, concat_app. cbn. by rewrite Ei, !app_nil_r.
Qed.

(** What a closing endpoint [c2] has of [c]. *)
Record closing (fin_sent : bool) c c2 : Prop := {
  cg_closed : sending c2 = false;
  cg_pipe r : pipe c2 r = pipe c r;
  cg_window : cn_window c2 = cn_window c;
  cg_holed : holed c2 = holed c;
  cg_queue : cn_send_buffer c2 = cn_send_buffer c;
  cg_progress : fl_send_in_progress (cn_flags c2) = fl_send_in_progress (cn_flags c);
  cg_pending : fl_graceful_close_pending (cn_flags c2) =
    (if negb fin_sent && (fl_send_in_progress (cn_flags c) || negb (bool_decide (cn_send_buffer c = [])))
     then true else fl_graceful_close_pending (cn_flags c));
  cg_paired : cn_paired c2 = cn_paired c;
  cg_flight : cn_in_flight c2 = cn_in_flight c;
}.

(** Closing [c], with its [Fin] if nothing is left to send. *)
Lemma touches_closing n n' id p c c2 r now (fin_sent : bool) :
  id ≠ p → touches n n' id p c2 r → cn_paired c = Some p → closing fin_sent c c2 →
  fin_sent = negb (sending c) →
  let n2 := if negb fin_sent && negb (fl_send_in_progress (cn_flags c)) &&
               bool_decide (cn_send_buffer c = []) then put_fin_in_flight id now n' else n' in
  ∃ c3, touches n n2 id p c3 r ∧ nw_waiters n2 = nw_waiters n' ∧ cn_paired c3 = Some p ∧
    cn_receive_buffer c3 = cn_receive_buffer c2 ∧ cn_flags c3 = cn_flags c2 ∧
    ∀ g r, dir_ok g c r → dir_ok g c3 r.
Proof.
  intros Hne HT Hp [Q1 Q2 Q3 Q4 Q5 Q6 Q7 Q8 Q9] Hfs. cbv zeta.
  destruct (negb fin_sent && _ && _) eqn:Hb.
  - destruct (touches_put_fin n n' id p c2 r now Hne HT) as (h & l & item & Ei & HT2 & Hw); [congruence|].
    eexists. split_and!; [exact HT2|done|cbn; congruence|done..|].
    apply andb_true_iff in Hb as [Hb Hq]. apply bool_decide_eq_true in Hq.
    intros g r' D. apply (dir_ok_closing g c r'); try done.
    + rewrite <- Q2. by apply (pipe_put_fin c2 r' _ _ _ _ item).
    + intros _. by apply (finned_put _ _ _ _ _ _ item).
  - exists c2. split_and!; try done; [congruence|]. intros g r' D. apply (dir_ok_closing g c r'); try done.
    + intros Hl. rewrite Q7. destruct fin_sent; cbn.
      * apply (do_drained _ _ _ D Hl). symmetry in Hfs. by apply negb_true_iff in Hfs.
      * destruct (bool_decide (cn_send_buffer c = [])) eqn:Hq; [by apply bool_decide_eq_true in Hq|].
        by rewrite orb_true_r.
    + intros Hl. destruct fin_sent.
      * symmetry in Hfs. apply negb_true_iff in Hfs.
        destruct (do_fin _ _ _ D Hl Hfs) as [?|[?|?]]; [left; rewrite Q7; done|right; left|by right; right].
        by rewrite Q9.
      * left. rewrite Q7. revert Hb. cbn. by destruct (fl_send_in_progress (cn_flags c)), (bool_decide _).
Qed.

Lemma nok_shutdown w n id now : nok w n → nok w (shutdown_send id now n).
Proof.
  intros Hok. unfold shutdown_send, close_snapshot. destruct (connection n id) as [c|] eqn:Hc; [|done].
  cbn [mbind option_bind]. destruct (_ || _) eqn:Ho; [done|].
  apply orb_false_iff in Ho as [Hsc Hcl].
  destruct (nok_pair w n id c Hok Hc) as (p & r & Hp & Hne & Hcp & Hpr & D1 & D2).
  set (f := flag _).
  pose proof (touches_update n n id p c r f Hne (touches_refl n id p c r Hc Hcp)) as HT.
  apply (touches_take _ _ _ _ _ _ (SendWaiter id)) in HT.
  destruct (touches_closing n _ id p c (f c) r now false Hne HT Hp) as (c3 & HT3 & _ & Hp3 & Hb3 & Hf3 & HD).
  { split; unfold f, sending; cbn; try done; by case_match. }
  { unfold sending. by rewrite Hsc. }
  cbn [negb andb] in HT3.
  eapply (nok_touch w n _ id p c r); eauto. intros E1 E2. split; [by apply HD|].
  apply (dir_ok_receiver _ r c); rewrite ?Hb3; unfold reading; rewrite ?Hf3; unfold f; cbn; try done; by destruct (_ || _).
Qed.

Lemma nok_close_graceful w n id now :
  (∀ p, paired n id = Some p → p ∈ wd_lossy w) → nok w n →
  ∃ n', close_graceful id now n = Some n' ∧ nok w n'.
Proof.
  intros Hlost Hok. unfold close_graceful, close_snapshot.
  destruct (connection n id) as [c|] eqn:Hc; [|eauto]. cbn [mbind option_bind].
  destruct (fl_is_closed (cn_flags c)) eqn:Hcl; [eauto|].
  destruct (nok_pair w n id c Hok Hc) as (p & r & Hp & Hne & Hcp & Hpr & D1 & D2).
  assert (p ∈ wd_lossy w) as Hl. { apply Hlost. unfold paired. rewrite Hc. done. }
  set (f := with_reason CloseGraceful ∘ flag _).
  pose proof (touches_update n n id p c r f Hne (touches_refl n id p c r Hc Hcp)) as HT.
  apply (touches_take _ _ _ _ _ _ (ReadWaiter id)) in HT. pose proof (do_parts _ _ _ D2) as Hparts.
  destruct (touches_discard_receive n _ id p (f c) r Hne HT) as (n1 & E & HT1 & Hw & Hs).
  { unfold f. done. } { unfold f. cbn. lia. }
  rewrite E. cbn [mbind option_bind]. eexists. split; [done|].
  destruct (touches_closing n n1 id p c (with_receive [] (f c)) _ now (fl_send_closed (cn_flags c)) Hne HT1 Hp)
    as (c3 & HT3 & Hw3 & Hp3 & Hb3 & Hf3 & HD).
  { split; unfold f, sending; cbn; try done; by case_match. }
  { unfold sending. by rewrite negb_involutive. }
  match type of HT3 with touches _ ?x _ _ _ _ => set (n2 := x) in * end.
  eapply (nok_touch w n n2 id p c r); eauto. intros E1 E2. split.
  - by apply dir_ok_peer_window, HD.
  - apply (dir_ok_unread _ r c); try done.
    + by apply lossy_ghost.
    + unfold reading. rewrite Hf3. unfold f. cbn. by case_match.
    + apply reader_free. rewrite Hw3. pose proof (take_waiter_gone (ReadWaiter id) (update id f n)). set_solver.
    + intros Hb. apply writer_free. rewrite Hw3. by apply Hw.
Qed.

(** ** Resets *)

Definition aborted c : ConnectionState IP :=
  pay (len (flying c)) (with_held None (with_flight [] (pay (len (queued c)) (with_queue []
    (with_reason CloseAborted (flag abort_flags c)))))).

Lemma touches_abort n n' id p c r :
  id ≠ p → touches n n' id p c r → len (queued c) + len (flying c) ≤ outstanding c →
  ∃ n'', abort_one (Some n') id = Some n'' ∧ touches n n'' id p (aborted c) r.
Proof.
  intros Hne HT Hk. pose proof (len_nonneg (queued c)). pose proof (len_nonneg (flying c)).
  pose proof (touches_update n n' id p c r (with_reason CloseAborted ∘ flag abort_flags) Hne HT) as HT1.
  destruct (touches_discard_queue n _ id p _ r Hne HT1) as (n1 & E1 & HT2 & _).
  { change (len (queued c) ≤ outstanding c). lia. }
  destruct (touches_discard_flight n _ id p _ r Hne HT2) as (n2 & E2 & HT3 & _).
  { change (len (flying c) ≤ outstanding c - len (queued c)). lia. }
  exists n2. split; [|done]. unfold abort_one. cbn [mbind option_bind]. rewrite E1. done.
Qed.

Lemma take_all_conn id n q : connection (take_all_waiters id n) q = connection n q.
Proof. unfold take_all_waiters. by rewrite !take_waiter_conn. Qed.

Lemma touches_take_all n n' id p c r q :
  touches n n' id p c r → touches n (take_all_waiters q n') id p c r.
Proof. intros HT. unfold take_all_waiters. by do 4 apply touches_take. Qed.

Lemma take_all_waiters_in x id n :
  x ∈ nw_waiters (take_all_waiters id n) → x ∈ nw_waiters n ∧ x ≠ SendWaiter id ∧ x ≠ ReadWaiter id.
Proof. unfold take_all_waiters. rewrite !take_waiter_waiters. set_solver. Qed.

Lemma nok_close_aborted w n id :
  id ∈ wd_lossy w → (∀ p, paired n id = Some p → p ∈ wd_lossy w) → nok w n →
  ∃ n', close_aborted id n = Some n' ∧ nok w n'.
Proof.
  intros Hlid Hlost Hok. destruct (connection n id) as [c|] eqn:Hc; last first.
  { exists (take_all_waiters id n). split.
    - unfold close_aborted, paired. rewrite Hc. cbn [mbind option_bind both foldl abort_one].
      assert (update id (with_reason CloseAborted ∘ flag abort_flags) n = n) as En.
      { destruct n. unfold update, with_connections. cbn. f_equal. apply alter_id. intros x Hx.
        unfold connection in Hc. cbn in Hc. congruence. }
      rewrite En. unfold discard_send_queue at 1. rewrite Hc. cbn [mbind option_bind].
      unfold discard_in_flight. rewrite Hc. cbn [mbind option_bind foldl].
      unfold discard_receive_buffer. by rewrite Hc.
    - unfold take_all_waiters. by do 4 apply nok_take. }
  destruct (nok_pair w n id c Hok Hc) as (p & r & Hp & Hne & Hcp & Hpr & D1 & D2).
  assert (paired n id = Some p) as Hpn by (unfold paired; by rewrite Hc).
  assert (p ∈ wd_lossy w) as Hlp by by apply Hlost.
  pose proof (do_parts _ _ _ D1) as P1. pose proof (do_parts _ _ _ D2) as P2.
  destruct (touches_abort n n id p c r Hne (touches_refl n id p c r Hc Hcp)) as (n1 & E1 & T1); [lia|].
  apply touches_swap in T1.
  destruct (touches_abort n n1 p id r _ (not_eq_sym Hne) T1) as (n2 & E2 & T2); [lia|].
  apply touches_swap in T2.
  destruct (touches_discard_receive n n2 id p _ _ Hne T2 Hp) as (n3 & E3 & T3 & _).
  { change (len (cn_receive_buffer c) ≤ outstanding r - len (queued r) - len (flying r)). lia. }
  apply touches_swap in T3.
  destruct (touches_discard_receive n n3 p id _ _ (not_eq_sym Hne) T3 Hpr) as (n4 & E4 & T4 & _).
  { change (len (cn_receive_buffer r) ≤ outstanding c - len (queued c) - len (flying c)). lia. }
  apply touches_swap in T4.
  exists (take_all_waiters p (take_all_waiters id n4)). split.
  { unfold close_aborted. rewrite Hpn. cbn [both foldl]. rewrite E1, E2. cbn [mbind option_bind foldl].
    rewrite E3. cbn [mbind option_bind]. by rewrite E4. }
  apply (touches_take_all _ _ _ _ _ _ id), (touches_take_all _ _ _ _ _ _ p) in T4.
  set (n5 := take_all_waiters p _) in *.
  assert (∀ q, q = id ∨ q = p → (SendWaiter q ∉ nw_waiters n5) ∧ (ReadWaiter q ∉ nw_waiters n5)) as Hfree.
  { intros q Hq. split; intros Hx; apply take_all_waiters_in in Hx as (Hx & ? & ?);
      apply take_all_waiters_in in Hx as (_ & ? & ?); destruct Hq; congruence. }
  eapply (nok_touch w n n5 id p c r); eauto. intros F1 F2. split.
  - eapply (dir_ok_dead _ c r); try done; [by apply lossy_ghost| | |].
    + change (outstanding c - len (queued c) - len (flying c) - len (cn_receive_buffer r) = outstanding c - len (pipe c r)).
      rewrite pipe_parts. lia.
    + apply reader_free. apply Hfree. auto.
    + apply writer_free. apply Hfree. auto.
  - eapply (dir_ok_dead _ r c); try done; [by apply lossy_ghost| | |].
    + change (outstanding r - len (queued r) - len (flying r) - len (cn_receive_buffer c) = outstanding r - len (pipe r c)).
      rewrite pipe_parts. lia.
    + apply reader_free. apply Hfree. auto.
    + apply writer_free. apply Hfree. auto.
Qed.

(** ** One-sided closes and black holes *)

Lemma touches_close_send n id p c r (cs : bool) :
  id ≠ p → touches n n id p c r → len (queued c) ≤ outstanding c →
  ∃ n1 c1,
    (if cs then discard_send_queue id (update id (flag (set_send_closed true)) n) else Some n) = Some n1 ∧
    touches n n1 id p c1 r ∧ cn_paired c1 = cn_paired c ∧
    cn_receive_buffer c1 = cn_receive_buffer c ∧ reading c1 = reading c ∧
    fl_remote_fin_received (cn_flags c1) = fl_remote_fin_received (cn_flags c) ∧
    (∀ g, gh_lossy g = true → (cs = true → gh_writer_parked g = false) → dir_ok g c r → dir_ok g c1 r).
Proof.
  intros Hne HT Hk. destruct cs; [|by exists n, c].
  pose proof (touches_update n n id p c r (flag (set_send_closed true)) Hne HT) as HT1.
  destruct (touches_discard_queue n _ id p _ r Hne HT1 Hk) as (n1 & E1 & HT2 & _).
  do 2 eexists. split_and!; [done|exact HT2|done..|].
  intros g Hl Hw D. apply (dir_ok_flush _ c r); try done; [by rewrite Hl|by apply Hw|by rewrite Hl].
Qed.

Lemma dir_ok_recv_only g r c c2 :
  dir_ok g r c → cn_receive_buffer c2 = cn_receive_buffer c → reading c2 = reading c →
  fl_remote_fin_received (cn_flags c2) = fl_remote_fin_received (cn_flags c) → dir_ok g r c2.
Proof. apply dir_ok_receiver. Qed.

Lemma nok_close_asymmetric w n id cs cr :
  id ∈ wd_lossy w → nok w n → ∃ n', close_asymmetric id cs cr n = Some n' ∧ nok w n'.
Proof.
  intros Hl Hok. unfold close_asymmetric. destruct (connection n id) as [c|] eqn:Hc; last first.
  { unfold paired. rewrite Hc. cbn [mbind option_bind].
    assert (update id (flag (set_send_closed true)) n = n) as En.
    { destruct n. unfold update, with_connections. cbn. f_equal. apply alter_id. intros x Hx.
      unfold connection in Hc. cbn in Hc. congruence. }
    rewrite En. unfold discard_send_queue. rewrite Hc.
    destruct cs, cr; (eexists; split; [done|]); try done; by do 2 apply nok_take. }
  destruct (nok_pair w n id c Hok Hc) as (p & r & Hp & Hne & Hcp & Hpr & D1 & D2).
  assert (paired n id = Some p) as -> by (unfold paired; by rewrite Hc).
  pose proof (do_parts _ _ _ D1) as P1.
  destruct (touches_close_send n id p c r cs Hne (touches_refl n id p c r Hc Hcp))
    as (n1 & c1 & E1 & HT1 & Ep & Eb & Er & Ef & HD); [lia|].
  rewrite E1. cbn [mbind option_bind].
  assert (∀ n2 r2, touches n n2 id p c1 r2 →
            touches n (if cs then take_waiter (SendWaiter id) (take_waiter (ReadWaiter id) n2) else n2) id p c1 r2 ∧
            (cs = true → SendWaiter id ∉ nw_waiters
               (if cs then take_waiter (SendWaiter id) (take_waiter (ReadWaiter id) n2) else n2))) as Htake.
  { intros n2 r2 HT. destruct cs; [|done]. split; [by do 2 apply touches_take|]. intros _. apply take_waiter_gone. }
  destruct cr.
  - pose proof (touches_update_peer n n1 id p c1 r (flag (set_recv_closed true)) Hne HT1) as HT2.
    destruct (Htake _ _ HT2) as [HT3 Hw]. set (n3 := if cs then take_waiter _ _ else _) in *.
    apply (touches_take _ _ _ _ _ _ (ReadWaiter p)) in HT3. apply touches_swap in HT3.
    set (r1 := flag (set_recv_closed true) r) in *.
    assert (len (cn_receive_buffer r) ≤ outstanding c1) as Hk.
    { assert (dir_ok (mkGhost (gh_written (ghost (after w n) id p)) (gh_read (ghost (after w n) id p)) true false
                        (gh_reader_parked (ghost (after w n) id p))) c1 r) as D3.
      { apply HD; try done. eapply dir_ok_weaken; [|exact D1]. unfold ghost_le. cbn. by split_and!. }
      pose proof (do_parts _ _ _ D3). lia. }
    destruct (touches_discard_receive n _ p id r1 c1 (not_eq_sym Hne) HT3 Hpr Hk) as (n4 & E4 & HT4 & Hw4 & Hs).
    exists n4. split; [done|]. apply touches_swap in HT4.
    eapply (nok_touch w n n4 id p c r); eauto; [cbn; congruence|]. intros F1 F2. split.
    + apply (dir_ok_unread _ c1 r); try done.
      * apply HD; [by apply lossy_ghost| |done]. intros Hcs. apply writer_free.
        specialize (Hw Hcs). rewrite take_waiter_waiters in Hs. set_solver.
      * by apply lossy_ghost.
      * unfold reading, r1. cbn. by rewrite andb_false_r.
      * apply reader_free. pose proof (take_waiter_gone (ReadWaiter p) n3). set_solver.
      * intros Hb. by apply writer_free, Hw4.
    + assert (dir_ok (ghost (after w n4) p id) r (pay (len (cn_receive_buffer r1)) c1)) as F3
        by by apply (dir_ok_recv_only _ r c).
      apply (dir_ok_sender _ r _); try done; apply F3.
  - destruct (Htake _ _ HT1) as [HT3 Hw]. eexists. split; [done|].
    eapply (nok_touch w n _ id p c r); eauto; [congruence|]. intros F1 F2. split.
    + apply HD; [by apply lossy_ghost| |done]. intros Hcs. by apply writer_free, Hw.
    + by apply (dir_ok_recv_only _ r c).
Qed.

Lemma nok_hole w n id :
  id ∈ wd_lossy w → nok w n → nok w (update id (flag (set_send_black_holed true)) n).
Proof.
  intros Hl Hok. destruct (connection n id) as [c|] eqn:Hc; last first.
  { apply (nok_env w n); try done. unfold update, with_connections. cbn. apply alter_id. intros x Hx.
    unfold connection in Hc. congruence. }
  destruct (nok_pair w n id c Hok Hc) as (p & r & Hp & Hne & Hcp & Hpr & _).
  pose proof (touches_update n n id p c r (flag (set_send_black_holed true)) Hne (touches_refl n id p c r Hc Hcp)) as HT.
  eapply (nok_touch w n _ id p c r); eauto. intros D1 D2. split.
  - apply dir_ok_hole; [done|]. by apply lossy_ghost.
  - by apply (dir_ok_recv_only _ r c).
Qed.

Lemma nok_black_hole w n id hs hr :
  id ∈ wd_lossy w → (∀ p, paired n id = Some p → p ∈ wd_lossy w) → nok w n → nok w (black_hole id hs hr n).
Proof.
  intros Hl Hlost Hok. unfold black_hole.
  assert (nok w (if hs then update id (flag (set_send_black_holed true)) n else n)) as Hok1.
  { destruct hs; [by apply nok_hole|done]. }
  destruct hr; [|done]. destruct (paired n id) as [p|]; [|done]. apply nok_hole; auto.
Qed.

(** ** Connections come and go *)

Lemma discard_one_conn n id q :
  connection (discard_one n id) q = if decide (id = q) then None else connection n q.
Proof.
  unfold discard_one. rewrite take_all_conn. unfold connection. cbn. case_decide; subst.
  - by rewrite lookup_delete_eq.
  - by rewrite lookup_delete_ne.
Qed.

Lemma discard_one_next n id : nw_next_id (discard_one n id) = nw_next_id n.
Proof. unfold discard_one, take_all_waiters, take_waiter. by repeat case_bool_decide. Qed.

Lemma discard_one_waiters n id : nw_waiters (discard_one n id) ⊆ nw_waiters n.
Proof. intros x Hx. by apply take_all_waiters_in in Hx as [? _]. Qed.

(** Fewer connections, in pairs. *)
Lemma nok_fewer w n n' :
  nok w n → nw_next_id n' = nw_next_id n → nw_waiters n' ⊆ nw_waiters n →
  (∀ q c, connection n' q = Some c → connection n q = Some c ∧
     ∀ s, cn_paired c = Some s → connection n' s = connection n s) →
  nok w n'.
Proof.
  intros Hok En Hw Hsub. split.
  - intros q c Hq. destruct (Hsub q c Hq) as [Hq' Hs].
    destruct (no_pair _ Hok q c Hq') as (s & r & A1 & A2 & A3 & A4 & D).
    exists s, r. split_and!; try done; [by rewrite <- A3; apply Hs|].
    eapply dir_ok_weaken; [by apply ghost_after_le|done].
  - intros q c Hq. destruct (Hsub q c Hq) as [Hq' _]. cbn. rewrite En. by apply (no_fresh _ Hok q c).
  - intros q Hq. cbn in Hq. rewrite En in Hq. destruct (no_unborn _ Hok q Hq) as (A1 & A2 & A3 & A4).
    cbn. split_and!; [done..| |]; intros Hx; [apply A3|apply A4]; by apply Hw.
Qed.

Lemma nok_discard w n id : nok w n → nok w (discard_connection_pair id n).
Proof.
  intros Hok. unfold discard_connection_pair. destruct (paired n id) as [p|] eqn:Hp; cbn [both foldl].
  - unfold paired in Hp. destruct (connection n id) as [c|] eqn:Hc; [|done]. cbn in Hp.
    apply (nok_fewer w n); [done|by rewrite !discard_one_next| |].
    { etrans; apply discard_one_waiters. }
    intros q d Hq. rewrite !discard_one_conn in Hq. case_decide; [done|]. case_decide; [done|].
    split; [done|]. intros s Hs. rewrite !discard_one_conn.
    destruct (nok_pair w n q d Hok Hq) as (s' & r & A1 & A2 & A3 & A4 & _).
    assert (s' = s) as -> by congruence.
    destruct (nok_pair w n id c Hok Hc) as (p' & r' & B1 & B2 & B3 & B4 & _).
    assert (p' = p) as -> by congruence.
    rewrite !decide_False; [done|intros <-; congruence..].
  - apply (nok_fewer w n); [done|apply discard_one_next|apply discard_one_waiters|].
    intros q d Hq. rewrite discard_one_conn in Hq. case_decide; [done|]. split; [done|].
    intros s Hs. rewrite discard_one_conn. case_decide; [|done]. subst s.
    destruct (nok_pair w n q d Hok Hq) as (s' & r & A1 & A2 & A3 & A4 & _).
    assert (s' = id) as -> by congruence. unfold paired in Hp. rewrite A3 in Hp. cbn in Hp. congruence.
Qed.

Lemma dir_ok_new g window (l1 r1 l2 r2 : option IP) a b :
  0 ≤ window → gh_written g = [] → gh_read g = [] → gh_writer_parked g = false →
  gh_reader_parked g = false →
  dir_ok g (new_connection window l1 r1 a) (new_connection window l2 r2 b).
Proof. intros Hw E1 E2 E3 E4. split; rewrite ?E1, ?E2, ?E3, ?E4; try done. Qed.

Lemma nok_open w n window client server :
  0 ≤ window → nok w n → nok w (create_connection_pair window client server n).1.
Proof.
  intros Hw Hok. cbn. set (a := nw_next_id n). set (n' := mkNet _ _ _ _ _ _ _ _ _ _ _ _).
  destruct (no_unborn _ Hok a) as (A1 & A2 & A3 & A4); [done|].
  destruct (no_unborn _ Hok (a + 1)) as (B1 & B2 & B3 & B4); [cbn; lia|].
  assert (∀ q c, connection n q = Some c → q < a) as Hlt by (intros q c; apply (no_fresh _ Hok)).
  assert (∀ q, q < a → connection n' q = connection n q) as Hold.
  { intros q Hq. unfold connection, n'. cbn. rewrite !lookup_insert_ne by lia. done. }
  assert (connection n' a = Some (new_connection window client server (a + 1))) as Ea.
  { unfold connection, n'. cbn. rewrite lookup_insert_ne by lia. by rewrite lookup_insert_eq. }
  assert (connection n' (a + 1) = Some (new_connection window server client a)) as Eb.
  { unfold connection, n'. cbn. by rewrite lookup_insert_eq. }
  assert (∀ q c, connection n' q = Some c → q = a ∨ q = a + 1 ∨ (q < a ∧ connection n q = Some c)) as Hcases.
  { intros q c Hq. destruct (decide (q = a)) as [->|]; [auto|]. destruct (decide (q = a + 1)) as [->|]; [auto|].
    right; right. unfold connection, n' in Hq. cbn in Hq. rewrite !lookup_insert_ne in Hq by done.
    split; [by eapply Hlt|done]. }
  split.
  - intros q c Hq. destruct (Hcases q c Hq) as [->|[->|[Hqa Hq']]].
    + assert (c = new_connection window client server (a + 1)) as -> by (unfold conns, connection in *; cbn in *; congruence).
      exists (a + 1), (new_connection window server client a). split_and!; try done; [lia|].
      apply dir_ok_new; cbn; try done; by rewrite bool_decide_eq_false.
    + assert (c = new_connection window server client a) as -> by (unfold conns, connection in *; cbn in *; congruence).
      exists a, (new_connection window client server (a + 1)). split_and!; try done; [lia|].
      apply dir_ok_new; cbn; try done; by rewrite bool_decide_eq_false.
    + destruct (nok_pair w n q c Hok Hq') as (s & r & C1 & C2 & C3 & C4 & D & _).
      exists s, r. split_and!; try done. by rewrite <- C3; apply Hold, (Hlt s r).
  - intros q c Hq. change (q < a + 1 + 1). destruct (Hcases q c Hq) as [->|[->|[Hqa Hq']]]; lia.
  - intros q Hq. change (a + 1 + 1 ≤ q) in Hq. apply (no_unborn _ Hok q). cbn. lia.
Qed.

(** ** Polls *)

(** A task parks: a writer on a full window, a reader on an empty buffer. *)
Lemma nok_register w n x id c :
  nok w n → connection n id = Some c →
  match x with
  | SendWaiter i => i = id ∧ outstanding c = capacity c
  | ReadWaiter i => i = id ∧ cn_receive_buffer c = [] ∧
      fl_remote_fin_received (cn_flags c) = false ∧ reading c = true
  | WriteClogWaiter _ | ReadClogWaiter _ => True
  end →
  nok w (register x n).
Proof.
  intros Hok Hc Hx. split.
  - intros q d Hq. destruct (no_pair _ Hok q d Hq) as (s & r & A1 & A2 & A3 & A4 & D).
    exists s, r. split_and!; try done. destruct D. split; try done.
    + cbn. rewrite bool_decide_eq_true, elem_of_union, elem_of_singleton. intros [<-|Hin].
      * destruct Hx as [-> Ho]. assert (d = c) as -> by (unfold conns, connection in *; cbn in *; congruence). done.
      * apply do_writer. cbn. by rewrite bool_decide_eq_true.
    + cbn. rewrite bool_decide_eq_true, elem_of_union, elem_of_singleton. intros [<-|Hin].
      * destruct Hx as [-> Ho]. assert (r = c) as -> by (unfold conns, connection in *; cbn in *; congruence). done.
      * apply do_reader. cbn. by rewrite bool_decide_eq_true.
  - apply (no_fresh _ Hok).
  - intros q Hq. destruct (no_unborn _ Hok q Hq) as (A1 & A2 & A3 & A4). split_and!; try done.
    + cbn. rewrite elem_of_union, elem_of_singleton. intros [<-|Hin]; [|by apply A3].
      destruct Hx as [-> _]. pose proof (no_fresh _ Hok id c Hc). cbn in *. lia.
    + cbn. rewrite elem_of_union, elem_of_singleton. intros [<-|Hin]; [|by apply A4].
      destruct Hx as [-> _]. pose proof (no_fresh _ Hok id c Hc). cbn in *. lia.
Qed.

Lemma bytes_of_insert (m : gmap Z (list byte)) id q data :
  bytes_of (<[id := bytes_of m id ++ data]> m) q = bytes_of m q ++ if decide (id = q) then data else [].
Proof.
  unfold bytes_of at 1. case_decide; subst.
  - by rewrite lookup_insert_eq.
  - rewrite lookup_insert_ne by done. by rewrite app_nil_r.
Qed.

(** A ghost that records nothing new. *)
Lemma net_ok_bytes w w' :
  net_ok w → wd_net w' = wd_net w → wd_lossy w' = wd_lossy w →
  (∀ q, bytes_of (wd_written w') q = bytes_of (wd_written w) q) →
  (∀ q, bytes_of (wd_read w') q = bytes_of (wd_read w) q) → net_ok w'.
Proof.
  intros [P1 P2 P3] En El Ew Er. unfold conns in *. split; unfold conns; rewrite ?En; try done.
  - intros id c Hc. destruct (P1 id c Hc) as (p & r & A1 & A2 & A3 & A4 & D). exists p, r.
    split_and!; try done. unfold ghost in *. by rewrite Ew, Er, El, En.
  - intros id. rewrite Ew, Er. apply P3.
Qed.

Lemma note_nothing_written id w : net_ok w → net_ok (note_written id [] w).
Proof.
  intros Hok. apply (net_ok_bytes w); try done. intros q. cbn. rewrite bytes_of_insert.
  case_decide; by rewrite app_nil_r.
Qed.

Lemma note_nothing_read id w : net_ok w → net_ok (note_read id [] w).
Proof.
  intros Hok. apply (net_ok_bytes w); try done. intros q. cbn. rewrite bytes_of_insert.
  case_decide; by rewrite app_nil_r.
Qed.

(** [net_ok_touch] for an application's call, with its ghosts. *)
Lemma net_ok_call w n' w' id p c r c2 r2 :
  net_ok w → connection (wd_net w) id = Some c → cn_paired c = Some p →
  connection (wd_net w) p = Some r → cn_paired r = Some id →
  touches (wd_net w) n' id p c2 r2 → cn_paired c2 = Some p → cn_paired r2 = Some id →
  wd_net w' = drain n' → wd_lossy w' = wd_lossy w →
  (∀ q, q ≠ id → q ≠ p → bytes_of (wd_written w') q = bytes_of (wd_written w) q ∧
     bytes_of (wd_read w') q = bytes_of (wd_read w) q) →
  (dir_ok (ghost (after w n') id p) c r → dir_ok (ghost w' id p) c2 r2) →
  (dir_ok (ghost (after w n') p id) r c → dir_ok (ghost w' p id) r2 c2) →
  net_ok w'.
Proof.
  intros Hok Hc Hp Hr Hpr HT Hp2 Hpr2 En El Hb H1 H2.
  destruct (nok_pair w (wd_net w) id c (nok_start w Hok) Hc) as (p' & r' & E1 & _ & E2 & _ & D1 & D2).
  assert (p' = p) as -> by congruence. assert (r' = r) as -> by congruence.
  pose proof (tc_waiters _ _ _ _ _ _ HT) as Hs.
  apply (net_ok_touch w w' id p c r c2 r2); try done.
  - rewrite En. by destruct HT.
  - intros q Hq1 Hq2. destruct (Hb q Hq1 Hq2). split_and!; try done. by rewrite El.
  - apply H1. eapply dir_ok_weaken; [by apply ghost_after_le|done].
  - apply H2. eapply dir_ok_weaken; [by apply ghost_after_le|done].
Qed.

Lemma flag_in_progress c :
  fl_send_in_progress (cn_flags c) = true → flag (set_send_in_progress true) c = c.
Proof. destruct c as [?????????[]]. cbn. by intros ->. Qed.

Lemma touches_buffer_send n id p c r data now ready_at :
  id ≠ p → touches n n id p c r → outstanding c + len data ≤ capacity c →
  ∃ n', buffer_send id data now ready_at n = Some (Some n') ∧
    touches n n' id p
      (flag (set_send_in_progress true)
        (with_queue (cn_send_buffer c ++ [mkSendChunk data ready_at])
           (with_window (mkWindow (capacity c) (outstanding c + len data)) c))) r.
Proof.
  intros Hne HT Hk. unfold buffer_send. rewrite (tc_id _ _ _ _ _ _ HT).
  unfold acquire. rewrite (proj2 (Z.leb_le _ _)) by (unfold outstanding, capacity in Hk; lia).
  cbn [mbind option_bind]. eexists. split; [done|].
  pose proof (touches_update n n id p c r (with_queue (cn_send_buffer c ++ [mkSendChunk data ready_at]) ∘
    with_window (mkWindow (capacity c) (outstanding c + len data))) Hne HT) as HT1.
  destruct (fl_send_in_progress (cn_flags c)) eqn:Hf.
  - rewrite flag_in_progress; [exact HT1|done].
  - apply touches_schedule. exact (touches_update n _ id p _ r (flag (set_send_in_progress true)) Hne HT1).
Qed.

Lemma write_step w id buf ready_at :
  net_ok w → ∃ w', world_exec (NWrite id buf ready_at) w = Some w' ∧ net_ok w'.
Proof.
  intros Hok. pose proof (nok_start w Hok) as Hn. cbn [world_exec]. unfold poll_write.
  destruct (write_guard_pre_backpressure (wd_net w) id) as [a|] eqn:Hg.
  { cbn. eexists. split; [done|]. unfold write_guard_pre_backpressure in Hg.
    destruct (is_send_closed _ _); [injection Hg as <-; exact Hn|]. destruct (is_closed _ _); [|done].
    injection Hg as <-. destruct (close_reason _ _); exact Hn. }
  destruct (Z.eqb_spec (len buf) 0) as [Hz|Hz].
  { eexists. split; [done|]. by apply note_nothing_written. }
  destruct (connection (wd_net w) id) as [c|] eqn:Hc; last first.
  { cbn. eexists. split; [done|]. done. }
  destruct (nok_pair w _ id c Hn Hc) as (p & r & Hp & Hne & Hcp & Hpr & D1 & D2).
  pose proof (do_window _ _ _ D1) as Hwin.
  unfold available. rewrite (proj2 (Z.leb_le _ _)) by (unfold outstanding, capacity in Hwin; lia).
  cbn [mbind option_bind]. change (win_capacity (cn_window c)) with (capacity c).
  change (win_outstanding (cn_window c)) with (outstanding c).
  unfold write_guard_pre_backpressure, is_send_closed, is_closed in Hg. rewrite Hc in Hg.
  destruct (_ || _) eqn:Hs in Hg; [done|]. apply orb_false_iff in Hs as [Hs1 Hs2].
  destruct (Z.eqb_spec (capacity c - outstanding c) 0) as [Hr0|Hr0].
  { rewrite Hs1, Hs2. cbn. eexists. split; [done|]. apply (nok_register w _ _ id c); try done. split; [done|]. lia. }
  destruct (is_clogged _ _ _).
  { rewrite Hs2. cbn. eexists. split; [done|]. by apply (nok_register w _ _ id c). }
  set (k := Z.min _ _). assert (0 < k ≤ len buf) as Hk by (pose proof (len_nonneg buf); lia).
  assert (len (slice buf 0 k) = k) as El by (rewrite len_slice; lia).
  destruct (touches_buffer_send (wd_net w) id p c r (slice buf 0 k) (wd_now w) ready_at Hne
    (touches_refl _ id p c r Hc Hcp)) as (n' & E & HT); [lia|].
  rewrite E. cbn. eexists. split; [done|].
  eapply (net_ok_call w n' _ id p c r); eauto; try done.
  - intros q Hq1 Hq2. cbn. rewrite bytes_of_insert, decide_False by done. by rewrite app_nil_r.
  - intros D. assert (ghost (note_written id (slice buf 0 k) (after w n')) id p =
                      wrote (slice buf 0 k) (ghost (after w n') id p)) as ->.
    { unfold ghost, wrote. cbn. by rewrite bytes_of_insert, decide_True. }
    apply (dir_ok_write _ c r (mkSendChunk (slice buf 0 k) ready_at)); cbn; try done; try lia.
    unfold sending. by rewrite Hs1.
  - intros D. assert (ghost (note_written id (slice buf 0 k) (after w n')) p id = ghost (after w n') p id) as ->.
    { unfold ghost. cbn. by rewrite bytes_of_insert, decide_False, app_nil_r. }
    by apply (dir_ok_recv_only _ r c).
Qed.

Lemma read_limit_bounds pm avail partial : 0 ≤ avail → 0 ≤ read_limit pm avail partial ≤ avail.
Proof.
  intros Ha. unfold read_limit. destruct partial as [draw|]; [|lia].
  destruct (Z.ltb_spec 0 avail); [|lia]. destruct (Z.leb_spec 1 (Z.min avail pm)); [|lia].
  pose proof (Z.mod_pos_bound draw (Z.min avail pm)). lia.
Qed.

Lemma read_step w id pm size partial :
  0 ≤ size → net_ok w → ∃ w', world_exec (NRead id pm size partial) w = Some w' ∧ net_ok w'.
Proof.
  intros Hsz Hok. pose proof (nok_start w Hok) as Hn. cbn [world_exec]. unfold poll_read.
  assert (∀ n, nok w n → net_ok (note_read id [] (after w n))) as Hnil by (intros; by apply note_nothing_read).
  destruct (Z.eqb_spec size 0) as [Hz|Hz]; [cbn; eauto|].
  destruct (connection (wd_net w) id) as [c|] eqn:Hc; [|cbn; eauto].
  destruct (_ && _); [cbn; eauto|]. destruct (_ || _) eqn:Hcl; [cbn; eauto|].
  apply orb_false_iff in Hcl as [Hcl1 Hcl2].
  destruct (is_clogged _ _ _).
  { cbn. eexists. split; [done|]. apply Hnil. by apply (nok_register w _ _ id c). }
  destruct (cn_receive_buffer c) eqn:Hb.
  { destruct (read_terminal c) eqn:Ht; [cbn; eauto|]. cbn. eexists. split; [done|]. apply Hnil.
    apply (nok_register w _ _ id c); try done. unfold read_terminal in Ht.
    destruct (fl_remote_fin_received _); [done|]. split_and!; try done. unfold reading. by rewrite Hcl1, Hcl2. }
  destruct (nok_pair w _ id c Hn Hc) as (p & r & Hp & Hne & Hcp & Hpr & D1 & D2).
  unfold read. rewrite Hc. set (k := read_limit _ _ _).
  pose proof (read_limit_bounds pm (Z.min size (len (cn_receive_buffer c))) partial) as Hk. fold k in Hk.
  pose proof (len_nonneg (cn_receive_buffer c)). specialize (Hk ltac:(lia)).
  pose proof (touches_update (wd_net w) (wd_net w) id p c r (with_receive (drop (Z.to_nat k) (cn_receive_buffer c)))
    Hne (touches_refl _ id p c r Hc Hcp)) as HT.
  pose proof (do_parts _ _ _ D2) as Hparts.
  destruct (touches_release (wd_net w) _ p id r _ k (not_eq_sym Hne) (touches_swap _ _ _ _ _ _ HT)) as (n' & E & HT2 & Hw & _); [lia|].
  apply touches_swap in HT2. rewrite Hp.
  assert ((if 0 <? k then release_window p k (update id (with_receive (drop (Z.to_nat k) (cn_receive_buffer c))) (wd_net w))
           else Some (update id (with_receive (drop (Z.to_nat k) (cn_receive_buffer c))) (wd_net w))) = Some n') as E2.
  { destruct (Z.ltb_spec 0 k); [done|]. assert (k = 0) as Ek by lia. rewrite Ek in E. unfold release_window in E.
    by rewrite Ek. }
  rewrite E2. cbn. eexists. split; [done|].
  eapply (net_ok_call w n' _ id p c r); eauto; try done.
  - intros q Hq1 Hq2. cbn. rewrite bytes_of_insert, decide_False by done. by rewrite app_nil_r.
  - intros D. match goal with |- dir_ok (ghost ?w' id p) _ _ =>
      assert (ghost w' id p = ghost (after w n') id p) as -> end.
    { unfold ghost. cbn. by rewrite bytes_of_insert, decide_False, app_nil_r. }
    apply dir_ok_peer_window. apply (dir_ok_sender _ c r); try done; apply D.
  - intros D. match goal with |- dir_ok (ghost ?w' p id) _ _ =>
      assert (ghost w' p id = got (slice (cn_receive_buffer c) 0 k) (ghost (after w n') p id)) as -> end.
    { unfold ghost, got. cbn. by rewrite bytes_of_insert, decide_True. }
    apply dir_ok_read; [done|lia|]. intros Hk0. by apply writer_free, Hw.
Qed.

(** ** Events *)

Lemma nok_event w n (d : EventDraws) e now :
  1 ≤ ed_partial_max d → (∀ i, ed_flips d i = []) → nok w n →
  ∃ n', handle_event d e now n = Some n' ∧ nok w n'.
Proof.
  intros Hpm Hf Hok.
  assert (∀ n', nw_connections n' = nw_connections n → nw_next_id n' = nw_next_id n →
            nw_waiters n' = nw_waiters n → nok w n') as Henv.
  { intros n' E1 E2 E3. apply (nok_env w n); try done. by rewrite E3. }
  assert (∀ n', nok w n' → nok w (resume_after_heal now n')) as Hres.
  { intros n' Hn'. eapply nok_sim; [done|apply simnet_resume]. }
  destruct e; cbn [handle_event].
  - eauto.
  - eexists. split; [done|]. repeat case_match; try done. by apply nok_take, Henv.
  - eexists. split; [done|]. repeat case_match; try done. by apply nok_take, Henv.
  - eexists. split; [done|]. by apply Hres, Henv.
  - eexists. split; [done|]. by apply Hres, Henv.
  - eexists. split; [done|]. by apply Hres, Henv.
  - by apply nok_deliver_loop.
  - by apply nok_process.
Qed.

(** ** Runs *)

(** What a run may do: anything, except that the corruption fault is off (no
    delivery draws a bit to flip, as in a configuration with a zero
    [bit_flip_probability]) and the limits are those a configuration can
    have. *)
Definition permitted (o : NetOp IP) : Prop :=
  match o with
  | NOpen window _ _ => 0 ≤ window
  | NRead _ _ size _ => 0 ≤ size
  | NEvent _ d => 1 ≤ ed_partial_max d ∧ ∀ i, ed_flips d i = []
  | _ => True
  end.

Lemma peer_lossy w n id p : paired n id = Some p → p ∈ wd_lossy (note_lossy (both id (paired n id)) w).
Proof. intros E. cbn. rewrite E. set_solver. Qed.

Lemma nok_drop w n id now :
  nok w n → ∃ n', drop_stream id now n = Some n' ∧ nok (note_lossy (drop_loses n id) w) n'.
Proof.
  intros Hok. unfold drop_stream, drop_loses. destruct (connection n id) as [c|] eqn:Hc.
  - destruct (cn_receive_buffer c).
    + apply nok_close_graceful; [|by apply nok_lossy]. intros p E. cbn. rewrite E. set_solver.
    + apply nok_close_aborted; [cbn; set_solver| |by apply nok_lossy]. intros p. apply peer_lossy.
  - apply nok_close_graceful; [|by apply nok_lossy]. intros p E. unfold paired in E. by rewrite Hc in E.
Qed.

Lemma world_step o w : permitted o → net_ok w → ∃ w', world_exec o w = Some w' ∧ net_ok w'.
Proof.
  intros Ho Hok. pose proof (nok_start w Hok) as Hn.
  assert (∀ n', simnet (wd_net w) n' → nok w n') as Hsim by (intros; by eapply nok_sim).
  destruct o as [window cl sv|id buf t|id pm size partial|id|id|id|id|id cs cr|id hs hr|from to d|ip d|ip d|from to| |id t|id t|id|i d];
    cbn in Ho; cbn [world_exec].
  - eexists. split; [done|]. by apply nok_open.
  - by apply write_step.
  - by apply read_step.
  - eexists. split; [done|]. by apply nok_shutdown.
  - destruct (nok_close_graceful (note_lossy (opt_list (paired (wd_net w) id)) w) (wd_net w) id (wd_now w))
      as (n' & E & Hok'); [|by apply nok_lossy|rewrite E; cbn; by eauto].
    intros p E. cbn. rewrite E. set_solver.
  - destruct (nok_drop w (wd_net w) id (wd_now w) Hn) as (n' & E & Hok'). rewrite E. cbn. by eauto.
  - destruct (nok_close_aborted (note_lossy (both id (paired (wd_net w) id)) w) (wd_net w) id)
      as (n' & E & Hok'); [cbn; set_solver| |by apply nok_lossy|rewrite E; cbn; by eauto].
    intros p. apply peer_lossy.
  - destruct (nok_close_asymmetric (note_lossy [id] w) (wd_net w) id cs cr)
      as (n' & E & Hok'); [cbn; set_solver|by apply nok_lossy|rewrite E; cbn; by eauto].
  - eexists. split; [done|].
    apply (nok_black_hole (note_lossy (both id (paired (wd_net w) id)) w)); [cbn; set_solver| |by apply nok_lossy].
    intros p. apply peer_lossy.
  - eexists. split; [done|]. unfold partition_pair. eapply nok_sim; [|apply simnet_hold_all]. by apply (nok_env w (wd_net w)).
  - eexists. split; [done|]. unfold insert_send_partition. eapply nok_sim; [|apply simnet_hold_all]. by apply (nok_env w (wd_net w)).
  - eexists. split; [done|]. unfold insert_recv_partition. eapply nok_sim; [|apply simnet_hold_all]. by apply (nok_env w (wd_net w)).
  - eexists. split; [done|]. eapply nok_sim; [|apply simnet_resume]. by apply (nok_env w (wd_net w)).
  - eexists. split; [done|]. eapply nok_sim; [|apply simnet_resume]. by apply (nok_env w (wd_net w)).
  - eexists. split; [done|]. unfold clog_write_until. case_match; [|done]. by apply (nok_env w (wd_net w)).
  - eexists. split; [done|]. unfold clog_read_until. case_match; [|done]. by apply (nok_env w (wd_net w)).
  - eexists. split; [done|]. by apply nok_discard.
  - destruct (wd_agenda w !! i) as [[t e]|]; [|eauto]. destruct Ho as [Ho1 Ho2].
    set (w1 := mkWorld _ _ _ _ _ _).
    destruct (nok_event w1 (wd_net w) d e t Ho1 Ho2) as (n' & E & Hok'); [|rewrite E; cbn; by eauto].
    by apply (net_ok_env w).
Qed.

Lemma world_runs ops w :
  Forall permitted ops → net_ok w → ∃ w', world_run ops w = Some w' ∧ net_ok w'.
Proof.
  intros Hp. revert w. induction Hp as [|o ops Ho Hops IH]; intros w Hok; cbn; [eauto|].
  destruct (world_step o w Ho Hok) as (w1 & -> & Hok1). cbn. by apply IH.
Qed.

Lemma net_ok_new : net_ok (World_new : World IP).
Proof.
  split.
  - intros id c Hc. unfold conns in Hc. cbn in Hc. by rewrite lookup_empty in Hc.
  - intros id c Hc. unfold conns in Hc. cbn in Hc. by rewrite lookup_empty in Hc.
  - intros id _. cbn. unfold bytes_of. rewrite lookup_empty. split_and!; set_solver.
Qed.

Lemma reached_ok ops w : Forall permitted ops → world_run ops World_new = Some w → net_ok w.
Proof.
  intros Hp E. destruct (world_runs ops World_new Hp net_ok_new) as (w' & E' & Hok). congruence.
Qed.

(** C20: no sequence of opens, writes, reads, shutdowns, closes, drops, resets,
    one-sided closes, black holes, partitions, heals, clogs, discards and
    events (that flip no bits) makes the simulated network over- or under-run a send window; and
    in every state it reaches, a window not behind a black hole charges the
    sender exactly the bytes it has queued, in flight, and unread at its
    peer. *)
Theorem window_charges_exactly (ops : list (NetOp IP)) :
  Forall permitted ops →
  ∃ w, world_run ops World_new = Some w ∧
    ∀ id c, connection (wd_net w) id = Some c →
      ∃ p r, cn_paired c = Some p ∧ connection (wd_net w) p = Some r ∧ cn_paired r = Some id ∧
        win_outstanding (cn_window c) ≤ win_capacity (cn_window c) ∧
        (fl_send_black_holed (cn_flags c) = false →
         win_outstanding (cn_window c) =
           len (cn_receive_buffer r) + in_flight_bytes c + queued_bytes c).
Proof.
  intros Hp. destruct (world_runs ops World_new Hp net_ok_new) as (w & E & Hok). exists w. split; [done|].
  intros id c Hc. destruct (net_ok_peer w id c Hok Hc) as (p & r & A1 & A2 & A3 & A4 & D & _).
  exists p, r. split_and!; try done; [apply D|]. intros Hh.
  etrans; [by apply (do_window_eq _ _ _ D)|]. apply pipe_parts.
Qed.

(** C17: every simulated stream carries its bytes in order and invents none:
    what an application has read is a prefix of what its peer has written,
    through every fault except bit corruption; and on a direction that was
    not reset, closed by its reader, half-closed or black-holed, the bytes
    read, unread, in flight and queued are, in that order, exactly the bytes
    written: partitions, clogs, partial sends and graceful shutdowns lose
    nothing. *)
Theorem stream_in_order (ops : list (NetOp IP)) w id c p r :
  Forall permitted ops → world_run ops World_new = Some w →
  connection (wd_net w) id = Some c → cn_paired c = Some p → connection (wd_net w) p = Some r →
  bytes_of (wd_read w) p `prefix_of` bytes_of (wd_written w) id ∧
  (id ∉ wd_lossy w →
   bytes_of (wd_written w) id = bytes_of (wd_read w) p ++ cn_receive_buffer r ++ flying c ++ queued c).
Proof.
  intros Hp E Hc Hcp Hr. pose proof (reached_ok ops w Hp E) as Hok.
  destruct (net_ok_peer w id c Hok Hc) as (p' & r' & A1 & A2 & A3 & A4 & D & _).
  assert (p' = p) as -> by congruence. assert (r' = r) as -> by congruence.
  split; [apply (do_prefix_read _ _ _ D)|]. intros Hl.
  assert (gh_lossy (ghost w id p) = false) as Hl' by (cbn; by rewrite bool_decide_eq_false).
  destruct (do_faithful _ _ _ D Hl') as [Hh Hrd]. symmetry. apply (do_exact _ _ _ D Hh Hrd). auto.
Qed.

(** C21: no wakeup is lost in a run that flips no bits: a task is parked on a read only while its receive
    buffer is empty, its peer has not finished and the stream is open for
    reading, and a task is parked on a write only while the send window is
    full. *)
Theorem parked_tasks_wait_for_something (ops : list (NetOp IP)) w id c :
  Forall permitted ops → world_run ops World_new = Some w → connection (wd_net w) id = Some c →
  (ReadWaiter id ∈ nw_waiters (wd_net w) →
     cn_receive_buffer c = [] ∧ fl_remote_fin_received (cn_flags c) = false ∧
     fl_is_closed (cn_flags c) = false ∧ fl_recv_closed (cn_flags c) = false) ∧
  (SendWaiter id ∈ nw_waiters (wd_net w) → win_outstanding (cn_window c) = win_capacity (cn_window c)).
Proof.
  intros Hp E Hc. pose proof (reached_ok ops w Hp E) as Hok.
  destruct (net_ok_peer w id c Hok Hc) as (p & r & A1 & A2 & A3 & A4 & D1 & D2). split; intros Hw.
  - destruct (do_reader _ _ _ D2) as (B1 & B2 & B3); [cbn; by rewrite bool_decide_eq_true|].
    unfold reading in B3. apply andb_true_iff in B3 as [B3 B4]. apply negb_true_iff in B3, B4. done.
  - apply (do_writer _ _ _ D1). cbn. by rewrite bool_decide_eq_true.
Qed.

(** [poll_write] never reports a reset: the guard's first test already covers
    closed connections. *)
Theorem poll_write_never_aborted n id buf now ready_at n' answer :
  poll_write id buf now ready_at n = Some (n', answer) → answer ≠ PollAborted.
Proof.
  unfold poll_write, write_guard_pre_backpressure, is_send_closed, is_closed.
  destruct (connection n id) as [c|] eqn:Hc.
  - destruct (fl_is_closed (cn_flags c)) eqn:Hcl.
    + rewrite orb_true_r. naive_solver.
    + destruct (fl_send_closed _); cbn; [naive_solver|]. case_match; [naive_solver|].
      destruct (available _); cbn; [|done]. case_match; [naive_solver|]. case_match; [naive_solver|].
      destruct (buffer_send _ _ _ _ _) as [[|]|]; cbn; naive_solver.
  - cbn. case_match; naive_solver.
Qed.
End Safe.
