(* ===== verification/NetLive.v ===== *)
(** Nothing stays in the simulated network.

    The invariant [live] ties what an endpoint still has to send to the events
    that will move it: every item in flight has its delivery event, every busy
    queue its send event, every partition entry its clearing event, and an
    endpoint that is held back has such an entry. *)

From stdpp Require Import base list numbers gmap sorting.
From S2P Require Import Prelude Scheduler Network NetWorld NetStream NetSteps NetSafe.
#[local] Open Scope Z_scope.

(** An update that leaves alone what a record of equations lists. *)
Ltac same_here := intros; split; cbn; auto.

Section Live.
Context {IP : Type} `{Countable IP}.
Implicit Types (c d r : ConnectionState IP) (n : Net IP) (w : World IP) (ag : list (Z * NetworkEvent)).

(** Some entry of the partition maps covers the direction of [c]. *)
Definition cut_entry n c : Prop :=
  ∃ l (r : IP), cn_local_ip c = Some l ∧ cn_remote_ip c = Some r ∧
    (is_Some (nw_ip_partitions n !! (l, r)) ∨ is_Some (nw_send_partitions n !! l) ∨
     is_Some (nw_recv_partitions n !! r)).

Definition due_le (i j : InFlight) : Prop := if_deliver_at i ≤ if_deliver_at j.

Record conn_live ag (id : Z) c : Prop := {
  cl_sorted : StronglySorted due_le (cn_in_flight c);
  cl_last i : i ∈ cn_in_flight c → ∃ l, cn_last_delivery_at c = Some l ∧ if_deliver_at i ≤ l;
  cl_max l : cn_last_delivery_at c = Some l → l ≤ DURATION_MAX;
  cl_event i : cn_held_since c = None → i ∈ cn_in_flight c →
    ∃ s, (if_deliver_at i, Delivery id s) ∈ ag;
  cl_send : fl_send_in_progress (cn_flags c) = true → fl_send_stalled (cn_flags c) = false →
    ∃ t, (t, ProcessSendBuffer id) ∈ ag;
  cl_pending : fl_graceful_close_pending (cn_flags c) = true → fl_send_in_progress (cn_flags c) = true;
}.

Record entries_live ag n : Prop := {
  el_pair x D : nw_ip_partitions n !! x = Some D → (D, PartitionRestore D) ∈ ag;
  el_send x D : nw_send_partitions n !! x = Some D → (D, SendPartitionClear D) ∈ ag;
  el_recv x D : nw_recv_partitions n !! x = Some D → (D, RecvPartitionClear D) ∈ ag;
}.

Definition pending_events ag n : list (Z * NetworkEvent) := ag ++ nw_actions n.

Record live_core ag n : Prop := {
  lc_conn id c : connection n id = Some c → conn_live (pending_events ag n) id c;
  lc_entries : entries_live (pending_events ag n) n;
}.

Definition cuts_known n : Prop :=
  ∀ id c, connection n id = Some c →
    is_Some (cn_held_since c) ∨ fl_send_stalled (cn_flags c) = true → cut_entry n c.

Definition live ag n : Prop := live_core ag n ∧ cuts_known n.

(** ** More events, same connections *)

Lemma conn_live_mono ag ag' id c : ag ⊆ ag' → conn_live ag id c → conn_live ag' id c.
Proof.
  intros Hs []. split; try done.
  - intros i Hh Hi. destruct (cl_event0 i Hh Hi) as [s ?]. eauto.
  - intros H1 H2. destruct (cl_send0 H1 H2) as [t ?]. eauto.
Qed.

Lemma entries_live_mono ag ag' n : ag ⊆ ag' → entries_live ag n → entries_live ag' n.
Proof. intros Hs []. split; eauto. Qed.

(** The partition maps of two networks agree. *)
Definition same_partitions n n' : Prop :=
  nw_ip_partitions n' = nw_ip_partitions n ∧ nw_send_partitions n' = nw_send_partitions n ∧
  nw_recv_partitions n' = nw_recv_partitions n.

Lemma cut_entry_same n n' c : same_partitions n n' → cut_entry n c → cut_entry n' c.
Proof. intros (E1 & E2 & E3) (l & r & Hl & Hr & Hx). exists l, r. by rewrite E1, E2, E3. Qed.

(** A handler that keeps the partitions and only adds events: what it does to
    each connection decides. *)
Lemma core_step ag n n' :
  live_core ag n → same_partitions n n' → nw_actions n ⊆ nw_actions n' →
  (∀ id c', connection n' id = Some c' → connection n id = Some c' ∨
     conn_live (pending_events ag n') id c') →
  live_core ag n'.
Proof.
  intros [H1 H2] (E1 & E2 & E3) Ha Hc. assert (pending_events ag n ⊆ pending_events ag n') as Hs.
  { unfold pending_events. intros x. rewrite !elem_of_app. naive_solver. }
  split.
  - intros id c' Hc'. destruct (Hc id c' Hc') as [Hx|Hx]; [|done].
    eapply conn_live_mono; [exact Hs|]. by apply H1.
  - eapply entries_live_mono in H2; [|exact Hs]. destruct H2. split; rewrite ?E1, ?E2, ?E3; eauto.
Qed.

Lemma cuts_step n n' :
  cuts_known n → same_partitions n n' →
  (∀ id c', connection n' id = Some c' → is_Some (cn_held_since c') ∨ fl_send_stalled (cn_flags c') = true →
     cut_entry n c' ∨ ∃ c, connection n id = Some c ∧
       (is_Some (cn_held_since c) ∨ fl_send_stalled (cn_flags c) = true) ∧
       cn_local_ip c' = cn_local_ip c ∧ cn_remote_ip c' = cn_remote_ip c) →
  cuts_known n'.
Proof.
  intros Hk Hs Hc id c' Hc' Hx. apply (cut_entry_same n); [done|].
  destruct (Hc id c' Hc' Hx) as [?|(c & Hcc & Hy & El & Er)]; [done|].
  destruct (Hk id c Hcc Hy) as (l & r & A1 & A2 & A3). exists l, r. split_and!; congruence.
Qed.

(** ** Connections that keep what matters here *)

Record kept c d : Prop := {
  kp_flight : cn_in_flight d = cn_in_flight c;
  kp_held : cn_held_since d = cn_held_since c;
  kp_last : cn_last_delivery_at d = cn_last_delivery_at c;
  kp_paired : cn_paired d = cn_paired c;
  kp_local : cn_local_ip d = cn_local_ip c;
  kp_remote : cn_remote_ip d = cn_remote_ip c;
  kp_progress : fl_send_in_progress (cn_flags d) = fl_send_in_progress (cn_flags c);
  kp_stalled : fl_send_stalled (cn_flags d) = fl_send_stalled (cn_flags c);
  kp_pending : fl_graceful_close_pending (cn_flags d) = true →
    fl_graceful_close_pending (cn_flags c) = true ∨ fl_send_in_progress (cn_flags c) = true;
}.

Lemma conn_live_kept ag id c d : kept c d → conn_live ag id c → conn_live ag id d.
Proof.
  intros [K1 K2 K3 _ K4 K5 K6 K7 K8] []. split; rewrite ?K1, ?K2, ?K3, ?K6, ?K7; try done.
  intros Hp. destruct (K8 Hp); auto.
Qed.

(** One endpoint changed, events were added. *)
Lemma live_change ag n n' id c c' :
  live ag n → connection n id = Some c → same_partitions n n' → nw_actions n ⊆ nw_actions n' →
  (∀ q, connection n' q = if decide (id = q) then Some c' else connection n q) →
  (conn_live (pending_events ag n') id c → conn_live (pending_events ag n') id c') →
  (is_Some (cn_held_since c') ∨ fl_send_stalled (cn_flags c') = true →
     cut_entry n c' ∨ (is_Some (cn_held_since c) ∨ fl_send_stalled (cn_flags c) = true)) →
  cn_local_ip c' = cn_local_ip c → cn_remote_ip c' = cn_remote_ip c →
  live ag n'.
Proof.
  intros [Hl Hk] Hc Hs Ha Hn Hlive Hcut El Er. split.
  - apply (core_step ag n); try done. intros q d Hq. rewrite Hn in Hq. case_decide; [|by left].
    subst q. injection Hq as <-. right. apply Hlive. eapply conn_live_mono; [|by apply Hl].
    unfold pending_events. intros x. rewrite !elem_of_app. naive_solver.
  - apply (cuts_step n); try done. intros q d Hq Hx. rewrite Hn in Hq. case_decide; [|by right; eauto].
    subst q. injection Hq as <-. destruct (Hcut Hx); [by left|]. right. eauto 6.
Qed.

Lemma connection_update' n id f c q :
  connection n id = Some c →
  connection (update id f n) q = if decide (id = q) then Some (f c) else connection n q.
Proof. intros Hc. rewrite connection_update. case_decide; [subst; by rewrite Hc|done]. Qed.

Lemma live_update ag n id f :
  live ag n → (∀ c, connection n id = Some c → kept c (f c)) → live ag (update id f n).
Proof.
  intros Hl Hf. destruct (connection n id) as [c|] eqn:Hc.
  - specialize (Hf c eq_refl). apply (live_change ag n _ id c (f c)); try done; try apply Hf.
    + intros q. by apply connection_update'.
    + intros Hcl. by eapply conn_live_kept.
    + intros Hx. right. destruct Hf. by rewrite kp_held0, kp_stalled0 in Hx.
  - destruct n. unfold update, with_connections. cbn. rewrite alter_id; [done|].
    intros x Hx. unfold connection in Hc. cbn in Hc. congruence.
Qed.

Lemma live_schedule ag n t e : live ag n → live ag (schedule t e n).
Proof.
  intros [Hl Hk]. split; [|done]. apply (core_step ag n); try done; [|auto].
  cbn. intros x. rewrite elem_of_app. auto.
Qed.

Lemma live_env ag n n' :
  live ag n → same_partitions n n' → nw_actions n' = nw_actions n →
  nw_connections n' = nw_connections n → live ag n'.
Proof.
  intros [Hl Hk] Hs Ha Hc. split.
  - apply (core_step ag n); try done; [by rewrite Ha|]. intros id c. unfold connection. rewrite Hc. auto.
  - apply (cuts_step n); try done. intros id c. unfold connection. rewrite Hc. eauto 6.
Qed.

Lemma live_take ag n x : live ag n → live ag (take_waiter x n).
Proof. intros Hl. unfold take_waiter. case_bool_decide; [|done]. by apply (live_env ag n). Qed.

Lemma live_take_all ag n id : live ag n → live ag (take_all_waiters id n).
Proof. intros Hl. unfold take_all_waiters. by do 4 apply live_take. Qed.

Lemma live_release ag n id k n' : live ag n → release_window id k n = Some n' → live ag n'.
Proof.
  intros Hl. unfold release_window. case_match; [by intros [= <-]|].
  destruct (connection n id) as [c|] eqn:Hc; [|by intros [= <-]].
  destruct (release k _) as [win|]; cbn; [|done]. intros [= <-]. apply live_take.
  apply live_update; [done|same_here].
Qed.

Lemma live_discard_queue ag n id n' : live ag n → discard_send_queue id n = Some n' → live ag n'.
Proof.
  intros Hl. unfold discard_send_queue. destruct (connection n id) as [c|] eqn:Hc; [|by intros [= <-]].
  destruct (release _ _) as [win|]; cbn; [|done]. intros [= <-]. apply live_update; [done|same_here].
Qed.

Lemma live_discard_receive ag n id n' : live ag n → discard_receive_buffer id n = Some n' → live ag n'.
Proof.
  intros Hl. unfold discard_receive_buffer. destruct (connection n id) as [c|] eqn:Hc; [|by intros [= <-]].
  assert (live ag (update id (with_receive []) n)) as Hl1 by (apply live_update; [done|same_here]).
  destruct (cn_paired c); [by apply live_release|by intros [= <-]].
Qed.

Lemma live_discard_flight ag n id n' : live ag n → discard_in_flight id n = Some n' → live ag n'.
Proof.
  intros Hl. unfold discard_in_flight. destruct (connection n id) as [c|] eqn:Hc; [|by intros [= <-]].
  destruct (release _ _) as [win|]; cbn; [|done]. intros [= <-].
  apply (live_change ag n _ id c (with_window win (with_held None (with_flight [] c)))); try done.
  - intros q. exact (connection_update' n id (with_window win ∘ with_held None ∘ with_flight []) c q Hc).
  - intros []. split; try done; cbn.
    + constructor.
    + by intros i ?%elem_of_nil.
    + by intros i _ ?%elem_of_nil.
  - cbn. intros [[]|?]; [done|]. by right; right.
Qed.

(** ** Into the flight *)

Lemma is_cut_entry n id now c : connection n id = Some c → is_cut n id now = true → cut_entry n c.
Proof.
  intros Hc. unfold is_cut, connection_partition_clear_at. rewrite bool_decide_eq_true, Hc. cbn.
  intros [e He]. destruct (cn_local_ip c) as [l|] eqn:El; [|done]. cbn in He.
  destruct (cn_remote_ip c) as [r|] eqn:Er; [|done]. cbn in He. exists l, r. split_and!; try done.
  unfold partition_clear_at, in_force in He.
  destruct (nw_ip_partitions n !! (l, r)); [by left; eauto|].
  destruct (nw_send_partitions n !! l); [by right; left; eauto|].
  destruct (nw_recv_partitions n !! r); [by right; right; eauto|]. done.
Qed.

Lemma sat_add_max t k : sat_add t k ≤ DURATION_MAX.
Proof. unfold sat_add. lia. Qed.

Lemma live_put ag n id payload t now :
  t ≤ DURATION_MAX → live ag n → live ag (put_in_flight id payload t now n).
Proof.
  intros Ht Hl. unfold put_in_flight. destruct (connection n id) as [c|] eqn:Hc; [|done].
  set (due := match cn_last_delivery_at c with None => t | Some last => Z.max t (sat_add last 1) end).
  set (held := match cn_held_since c with None => _ | Some s => Some s end).
  set (item := mkInFlight _ due payload).
  pose proof (lc_conn _ _ (proj1 Hl) id c Hc) as CL.
  assert (due ≤ DURATION_MAX) as Hdue.
  { subst due. destruct (cn_last_delivery_at c); [pose proof (sat_add_max z 1); lia|done]. }
  assert (∀ i, i ∈ cn_in_flight c → if_deliver_at i ≤ due) as Hle.
  { intros i Hi. destruct (cl_last _ _ _ CL i Hi) as (l & El & Hil). pose proof (cl_max _ _ _ CL l El).
    subst due. rewrite El. unfold sat_add. lia. }
  eapply (live_change ag n _ id c (with_held held (with_flight (cn_in_flight c ++ [item])
    (with_clock (cn_next_seq c + 1) (Some due) c)))); try done.
  - cbn. intros x. rewrite elem_of_app. auto.
  - intros q. exact (connection_update' n id _ c q Hc).
  - clear CL. intros CL. split; cbn.
    + apply StronglySorted_app_2; [|apply CL|repeat constructor].
      intros i j Hi Hj. apply list_elem_of_singleton in Hj as ->. by apply Hle.
    + intros i [Hi|Hi]%elem_of_app; exists due; [by auto|]. apply list_elem_of_singleton in Hi as ->. done.
    + by intros l [= <-].
    + intros i Hh [Hi|Hi]%elem_of_app.
      * apply (cl_event _ _ _ CL i); [|done]. subst held. by destruct (cn_held_since c).
      * apply list_elem_of_singleton in Hi as ->. exists (cn_next_seq c). unfold pending_events. cbn.
        rewrite !elem_of_app. right; right. by apply list_elem_of_here.
    + apply CL.
    + apply CL.
  - cbn. intros [Hh|Hs]; [|by right; right]. subst held. destruct (cn_held_since c); [by right; left|].
    destruct (is_cut n id now) eqn:Hcut; [|by destruct Hh]. left. by apply (is_cut_entry n id now c).
Qed.

Lemma live_put_fin ag n id now : live ag n → live ag (put_fin_in_flight id now n).
Proof.
  intros Hl. unfold put_fin_in_flight. destruct (paired n id); [|done]. apply live_put; [|done].
  apply sat_add_max.
Qed.

Lemma live_hold ag now n id :
  live ag n → is_cut n id now = true → live ag (hold_in_flight now n id).
Proof.
  intros Hl Hcut. unfold hold_in_flight. destruct (connection n id) as [c|] eqn:Hc; [|done].
  destruct (cn_held_since c) eqn:Hh; [done|]. destruct (cn_in_flight c) eqn:Hf; [done|].
  apply (live_change ag n _ id c (with_held (Some now) c)); try done.
  - intros q. exact (connection_update' n id _ c q Hc).
  - intros []. split; try done.
  - intros _. left. by apply (is_cut_entry n id now c).
Qed.

(** ** Landing *)

Lemma live_land ag n flips sender payload n' :
  live ag n → land flips sender payload n = Some n' → live ag n'.
Proof.
  intros Hl. unfold land. destruct (connection n sender) as [c|]; [|by intros [= <-]].
  case_match; [by intros [= <-]|]. destruct payload.
  - destruct (cn_paired c); [|by apply live_release]. case_match; [|by apply live_release].
    intros [= <-]. apply live_take, live_update; [done|same_here].
  - destruct (cn_paired c); [|by intros [= <-]]. case_match; intros [= <-]; [|done].
    apply live_take, live_update; [done|same_here].
Qed.

Lemma live_pop ag n id c i rest :
  live ag n → connection n id = Some c → cn_in_flight c = i :: rest →
  live ag (update id (with_flight rest) n).
Proof.
  intros Hl Hc Hf. apply (live_change ag n _ id c (with_flight rest c)); try done.
  - intros q. exact (connection_update' n id _ c q Hc).
  - intros []. split; try done; cbn.
    + rewrite Hf in cl_sorted0. by apply StronglySorted_cons in cl_sorted0 as [_ ?].
    + intros j Hj. apply cl_last0. rewrite Hf. by apply list_elem_of_further.
    + intros j Hh Hj. apply cl_event0; [done|]. rewrite Hf. by apply list_elem_of_further.
  - cbn. by right.
Qed.

Lemma land_sender n flips sender payload n' c :
  land flips sender payload n = Some n' → connection n sender = Some c → cn_paired c ≠ Some sender →
  ∃ c', connection n' sender = Some c' ∧ kept c c'.
Proof.
  intros E Hc Hp. unfold land in E. rewrite Hc in E.
  assert (kept c c) as Hrefl by same_here.
  assert (∀ k, release_window sender k n = Some n' → ∃ c', connection n' sender = Some c' ∧ kept c c') as Hrel.
  { intros k. unfold release_window. destruct (k =? 0); [intros Ex; simplify_eq; eauto|]. rewrite Hc. cbv beta iota.
    destruct (release k _) as [win|]; cbn; [|done]. intros [= Ex]. rewrite <- Ex. exists (with_window win c). split; [|same_here].
    rewrite take_waiter_conn. by apply connection_update_eq. }
  assert (∀ q x f, cn_paired c = Some q → connection (take_waiter x (update q f n)) sender = Some c) as Hother.
  { intros q x f Hq. rewrite take_waiter_conn, connection_update, decide_False; [done|congruence]. }
  case_match; [simplify_eq; eauto|]. destruct payload.
  - destruct (cn_paired c) as [q|] eqn:Hq; [|by eapply Hrel]. case_match; [|by eapply Hrel].
    injection E as E. rewrite <- E, Hother by done. eauto.
  - destruct (cn_paired c) as [q|] eqn:Hq; [|simplify_eq; eauto]. case_match; injection E as E; [|rewrite <- E; eauto].
    rewrite <- E, Hother by done. eauto.
Qed.

Lemma live_deliver_loop ag fuel flips sender now n n' :
  live ag n → deliver_loop fuel flips sender now n = Some n' → live ag n'.
Proof.
  revert n. induction fuel as [|fuel IH]; intros n Hl; cbn [deliver_loop]; [by intros [= <-]|].
  destruct (connection n sender) as [c|] eqn:Hc; [|by intros [= <-]].
  destruct (cn_held_since c); [by intros [= <-]|]. destruct (cn_in_flight c) as [|i rest] eqn:Hi; [by intros [= <-]|].
  destruct (now <? _); [by intros [= <-]|]. destruct (is_cut n sender now) eqn:Hcut.
  - intros [= <-]. by apply live_hold.
  - destruct (land _ _ _ _) as [n1|] eqn:Hland; cbn; [|done]. apply IH.
    eapply live_land; [|done]. by eapply live_pop.
Qed.

(** With the fuel [handle_delivery] has, nothing due is left, unless the
    flight is held. *)
Lemma deliver_loop_post fuel flips sender now n n' c :
  connection n sender = Some c → cn_paired c ≠ Some sender →
  StronglySorted due_le (cn_in_flight c) → (length (cn_in_flight c) < fuel)%nat →
  deliver_loop fuel flips sender now n = Some n' →
  ∃ c', connection n' sender = Some c' ∧
    (is_Some (cn_held_since c') ∨ Forall (λ i, now < if_deliver_at i) (cn_in_flight c')).
Proof.
  revert n c. induction fuel as [|fuel IH]; intros n c Hc Hp Hs Hlen; [lia|]. cbn [deliver_loop].
  rewrite Hc. destruct (cn_held_since c) as [h|] eqn:Hh; [intros [= <-]; exists c; rewrite Hh; eauto|].
  destruct (cn_in_flight c) as [|i rest] eqn:Hi.
  { intros [= <-]. exists c. rewrite Hi. auto. }
  apply StronglySorted_cons in Hs as [Hall Hs].
  destruct (Z.ltb_spec now (if_deliver_at i)) as [Hlt|Hge].
  { intros [= <-]. exists c. split; [done|]. right. rewrite Hi. constructor; [done|].
    eapply Forall_impl; [exact Hall|]. unfold due_le. cbn. lia. }
  destruct (is_cut n sender now).
  { intros [= <-]. unfold hold_in_flight. rewrite Hc, Hh, Hi. exists (with_held (Some now) c).
    split; [by apply connection_update_eq|]. left. cbn. eauto. }
  destruct (land _ _ _ _) as [n1|] eqn:Hland; cbn; [|done]. intros Hloop.
  destruct (land_sender _ _ _ _ _ (with_flight rest c) Hland) as (c1 & Hc1 & K); [by apply connection_update_eq|done|].
  apply (IH n1 c1); try done.
  - rewrite (kp_paired _ _ K). done.
  - by rewrite (kp_flight _ _ K).
  - rewrite (kp_flight _ _ K). cbn in *. lia.
Qed.

(** ** Thawing *)

Lemma sat_shift_mono a b k : a ≤ b → sat_add a k ≤ sat_add b k.
Proof. unfold sat_add. lia. Qed.

(** The shifted flight of a thawed endpoint. *)
Definition shifted (k : Z) (f : list InFlight) : list InFlight :=
  (λ i, mkInFlight (if_seq i) (sat_add (if_deliver_at i) k) (if_payload i)) <$> f.

Lemma shifted_elem k f i :
  i ∈ shifted k f → ∃ j, j ∈ f ∧ if_deliver_at i = sat_add (if_deliver_at j) k ∧ if_seq i = if_seq j.
Proof. unfold shifted. intros (j & -> & Hj)%list_elem_of_fmap. eauto. Qed.

Lemma shifted_sorted k f : StronglySorted due_le f → StronglySorted due_le (shifted k f).
Proof.
  intros Hs. induction Hs as [|i f Hs IH Hall]; cbn; constructor; [done|].
  apply Forall_forall. intros x (j & Hj & E & _)%shifted_elem. unfold due_le. rewrite E. cbn.
  rewrite Forall_forall in Hall. apply sat_shift_mono, Hall. done.
Qed.

Lemma schedule_all_spec (g : InFlight → Z * NetworkEvent) f n :
  let n' := foldl (λ n i, schedule (g i).1 (g i).2 n) n f in
  nw_actions n' = nw_actions n ++ (g <$> f) ∧ nw_connections n' = nw_connections n ∧ same_partitions n n'.
Proof.
  revert n. induction f as [|i f IH]; intros n; cbn; [by rewrite app_nil_r|].
  destruct (IH (schedule (g i).1 (g i).2 n)) as (E1 & E2 & E3). cbn in *. split_and!; try done.
  rewrite E1, <- app_assoc. cbn. by destruct (g i).
Qed.

Definition thawed (now : Z) c : ConnectionState IP :=
  match cn_held_since c with
  | Some since =>
      let k := sat_sub now since in
      with_held None (with_clock (cn_next_seq c) ((λ l, sat_add l k) <$> cn_last_delivery_at c)
        (with_flight (shifted k (cn_in_flight c)) c))
  | None => c
  end.

Definition thaw_events (now id : Z) c : list (Z * NetworkEvent) :=
  match cn_held_since c with
  | Some since =>
      (λ i, (if_deliver_at i, Delivery id (if_seq i))) <$> shifted (sat_sub now since) (cn_in_flight c)
  | None => []
  end.

Lemma thaw_spec now n id c :
  connection n id = Some c →
  nw_actions (thaw now n id) = nw_actions n ++ thaw_events now id c ∧
  (∀ q, connection (thaw now n id) q = if decide (id = q) then Some (thawed now c) else connection n q) ∧
  same_partitions n (thaw now n id).
Proof.
  intros Hc. unfold thaw, thawed, thaw_events. rewrite Hc. destruct (cn_held_since c) as [since|].
  - set (n1 := update id _ n).
    destruct (schedule_all_spec (λ i, (if_deliver_at i, Delivery id (if_seq i)))
      (shifted (sat_sub now since) (cn_in_flight c)) n1) as (E1 & E2 & E3).
    cbn in E1, E2, E3. split_and!; [exact E1| |exact E3].
    intros q. etrans; [unfold connection; unfold shifted in E2; by rewrite E2|].
    exact (connection_update' n id _ c q Hc).
  - split_and!; try done; [by rewrite app_nil_r|]. intros q. case_decide; [by subst|done].
Qed.

Lemma conn_live_thawed ag now id c :
  conn_live ag id c → thaw_events now id c ⊆ ag → conn_live ag id (thawed now c).
Proof.
  intros CL Hs. unfold thawed, thaw_events in *. destruct (cn_held_since c) as [since|] eqn:Hh; [|done].
  destruct CL. split; cbn; try done.
  - by apply shifted_sorted.
  - intros i (j & Hj & E & _)%shifted_elem. destruct (cl_last0 j Hj) as (l & El & Hle).
    rewrite El. cbn. eexists. split; [done|]. rewrite E. by apply sat_shift_mono.
  - intros l. destruct (cn_last_delivery_at c); cbn; [|done]. intros [= <-]. apply sat_add_max.
  - intros i _ Hi. exists (if_seq i). apply Hs. apply list_elem_of_fmap. by exists i.
Qed.

Lemma core_thaw ag now n id : live_core ag n → live_core ag (thaw now n id).
Proof.
  intros Hl. destruct (connection n id) as [c|] eqn:Hc; [|unfold thaw; by rewrite Hc].
  destruct (thaw_spec now n id c Hc) as (E1 & E2 & E3).
  apply (core_step ag n); try done; [rewrite E1; intros x; rewrite elem_of_app; auto|].
  intros q d Hq. rewrite E2 in Hq. case_decide; [|by left]. subst q. injection Hq as <-. right.
  apply conn_live_thawed.
  - eapply conn_live_mono; [|by apply Hl]. unfold pending_events. rewrite E1.
    intros x. rewrite !elem_of_app. naive_solver.
  - unfold pending_events. rewrite E1. intros x. rewrite !elem_of_app. auto.
Qed.

(** [d] is [c] with its flight maybe released and its queue maybe unstalled. *)
Record eased c d : Prop := {
  ea_local : cn_local_ip d = cn_local_ip c;
  ea_remote : cn_remote_ip d = cn_remote_ip c;
  ea_held : is_Some (cn_held_since d) → is_Some (cn_held_since c);
  ea_stalled : fl_send_stalled (cn_flags d) = true → fl_send_stalled (cn_flags c) = true;
}.

Definition eased_net n n' : Prop :=
  same_partitions n n' ∧
  ∀ q d, connection n' q = Some d → ∃ c, connection n q = Some c ∧ eased c d.

Lemma eased_net_refl n : eased_net n n.
Proof. split; [done|]. intros q d Hq. exists d. by split. Qed.

Lemma eased_net_trans n1 n2 n3 : eased_net n1 n2 → eased_net n2 n3 → eased_net n1 n3.
Proof.
  intros [(A1 & A2 & A3) HA] [(B1 & B2 & B3) HB]. split; [split_and!; congruence|].
  intros q d Hq. destruct (HB q d Hq) as (c & Hc & []). destruct (HA q c Hc) as (b & Hb & []).
  exists b. split; [done|]. split; try congruence; auto.
Qed.

(** Folding a step that eases its own endpoint for good. *)
Lemma eased_foldl (f : Net IP → Z → Net IP) (good : ConnectionState IP → Prop) (l : list Z) n :
  (∀ n id, eased_net n (f n id)) →
  (∀ n id d, connection (f n id) id = Some d → good d) →
  (∀ n id q d, connection (f n id) q = Some d → q ≠ id → connection n q = Some d) →
  eased_net n (foldl f n l) ∧
  ∀ q d, connection (foldl f n l) q = Some d → (q ∈ l → good d) ∧ ((q ∉ l) → connection n q = Some d).
Proof.
  intros H1 H2 H3. revert n. induction l as [|x l IH] using rev_ind; intros n.
  { split; [apply eased_net_refl|]. intros q d Hq. split; [by intros ?%elem_of_nil|done]. }
  rewrite foldl_app. cbn. destruct (IH n) as [A B]. split; [by eapply eased_net_trans|].
  intros q d Hq. rewrite elem_of_app, list_elem_of_singleton.
  destruct (decide (q = x)) as [->|Hne].
  - split; [intros _; by eapply H2|]. intros Hx. exfalso. apply Hx. auto.
  - apply H3 in Hq; [|done]. destruct (B q d Hq) as [B1 B2]. split.
    + intros [?|?]; [auto|done].
    + intros Hx. apply B2. intros Hy. apply Hx. auto.
Qed.

Lemma eased_thaw now n id : eased_net n (thaw now n id).
Proof.
  destruct (connection n id) as [c|] eqn:Hc; [|unfold thaw; rewrite Hc; apply eased_net_refl].
  destruct (thaw_spec now n id c Hc) as (_ & E2 & E3). split; [done|].
  intros q d Hq. rewrite E2 in Hq. case_decide; [|by exists d].
  subst q. injection Hq as <-. exists c. split; [done|]. unfold thawed. destruct (cn_held_since c) eqn:Hh; split; cbn; rewrite ?Hh; try done; by intros [? [=]].
Qed.

Definition unstall (now : Z) n (id : Z) : Net IP :=
  schedule now (ProcessSendBuffer id) (update id (flag (set_send_stalled false)) n).

Lemma unstall_conn now n id q :
  connection (unstall now n id) q =
    if decide (id = q) then flag (set_send_stalled false) <$> connection n q else connection n q.
Proof. unfold unstall. etrans; [|apply (connection_update n id q)]. done. Qed.

Lemma eased_unstall now n id : eased_net n (unstall now n id).
Proof.
  split; [done|]. intros q d Hq. rewrite unstall_conn in Hq. case_decide; [|by exists d].
  destruct (connection n q) as [c|]; [|done]. injection Hq as <-. exists c. split; [done|]. by split.
Qed.

Lemma core_unstall ag now n id : live_core ag n → live_core ag (unstall now n id).
Proof.
  intros Hl. apply (core_step ag n); try done; [cbn; intros x; rewrite elem_of_app; auto|].
  intros q d Hq. rewrite unstall_conn in Hq. case_decide; [|by left]. subst q.
  destruct (connection n id) as [c|] eqn:Hc; [|done]. injection Hq as <-. right.
  assert (conn_live (pending_events ag (unstall now n id)) id c) as CL.
  { eapply conn_live_mono; [|by apply Hl]. unfold pending_events. cbn. intros x. rewrite !elem_of_app. naive_solver. }
  destruct CL. split; try done. intros _ _. exists now. unfold pending_events. cbn.
  rewrite !elem_of_app, list_elem_of_singleton. auto.
Qed.

Lemma elem_of_conn_ids n id c : connection n id = Some c → id ∈ conn_ids n.
Proof.
  intros Hc. unfold conn_ids. rewrite merge_sort_Permutation. apply list_elem_of_fmap.
  exists (id, c). split; [done|]. by apply elem_of_map_to_list.
Qed.

Lemma core_foldl ag (f : Net IP → Z → Net IP) (l : list Z) n :
  (∀ n id, live_core ag n → live_core ag (f n id)) → live_core ag n → live_core ag (foldl f n l).
Proof. intros Hf. revert n. induction l as [|x l IH]; intros n Hl; cbn; auto. Qed.

(** Healing: whatever was held or stalled and is no longer cut moves again, so
    whatever remains held or stalled is still cut. *)
Lemma live_resume ag now n : live_core ag n → live ag (resume_after_heal now n).
Proof.
  intros Hl. unfold resume_after_heal, release_held_in_flight.
  set (l1 := filter _ (conn_ids n)).
  destruct (eased_foldl (thaw now) (λ d, cn_held_since d = None) l1 n) as [A1 B1].
  { apply eased_thaw. }
  { intros n0 id d Hd. destruct (connection n0 id) as [c|] eqn:Hc; [|unfold thaw in Hd; rewrite Hc in Hd; congruence].
    destruct (thaw_spec now n0 id c Hc) as (_ & E2 & _). rewrite E2, decide_True in Hd by done. injection Hd as <-.
    unfold thawed. by destruct (cn_held_since c) eqn:Hh. }
  { intros n0 id q d Hd Hq. destruct (connection n0 id) as [c|] eqn:Hc; [|unfold thaw in Hd; by rewrite Hc in Hd].
    destruct (thaw_spec now n0 id c Hc) as (_ & E2 & _). rewrite E2, decide_False in Hd by done. done. }
  set (n1 := foldl (thaw now) n l1) in *. set (l2 := filter _ (conn_ids n1)).
  destruct (eased_foldl (unstall now) (λ d, fl_send_stalled (cn_flags d) = false) l2 n1) as [A2 B2].
  { apply eased_unstall. }
  { intros n0 id d Hd. rewrite unstall_conn, decide_True in Hd by done.
    destruct (connection n0 id) as [c|]; [|done]. by injection Hd as <-. }
  { intros n0 id q d Hd Hq. rewrite unstall_conn, decide_False in Hd by done. done. }
  change (live ag (foldl (unstall now) n1 l2)). set (n2 := foldl (unstall now) n1 l2) in *. split.
  { apply core_foldl; [apply core_unstall|]. apply core_foldl; [apply core_thaw|done]. }
  intros q d Hq Hx. destruct A2 as [P2 A2], A1 as [P1 A1].
  destruct (A2 q d Hq) as (c1 & Hc1 & EA2). destruct (A1 q c1 Hc1) as (c & Hc & EA1).
  assert (∃ c0 n0, same_partitions n0 n2 ∧ connection n0 q = Some c0 ∧ is_cut n0 q now = true ∧
            cn_local_ip c0 = cn_local_ip d ∧ cn_remote_ip c0 = cn_remote_ip d) as (c0 & n0 & Hs & Hc0 & Hcut & El & Er).
  { destruct Hx as [Hx|Hx].
    - apply (ea_held _ _ EA2) in Hx. exists c, n. destruct EA1, EA2. split_and!; try congruence.
      + destruct P1 as (?&?&?), P2 as (?&?&?). split_and!; congruence.
      + destruct (B1 q c1 Hc1) as [Bx By]. destruct (decide (q ∈ l1)) as [Hin|Hin].
        { rewrite Bx in Hx by done. by destruct Hx. }
        destruct (is_cut n q now) eqn:Hcut; [done|]. exfalso. apply Hin. apply list_elem_of_filter.
        split; [|by eapply elem_of_conn_ids]. unfold is_held. rewrite (By Hin), Hcut. by destruct Hx as [? ->].
    - exists c1, n1. destruct EA2. split_and!; try congruence.
      destruct (B2 q d Hq) as [Bx By]. destruct (decide (q ∈ l2)) as [Hin|Hin]; [rewrite Bx in Hx; done|].
      destruct (is_cut n1 q now) eqn:Hcut; [done|]. exfalso. apply Hin. apply list_elem_of_filter.
      split; [|by eapply elem_of_conn_ids]. unfold is_stalled. rewrite (By Hin), Hx, Hcut. done. }
  apply (cut_entry_same n0); [done|]. destruct (is_cut_entry n0 q now c0 Hc0 Hcut) as (a & b & Ha & Hb & Hab).
  exists a, b. split_and!; congruence.
Qed.
End Live.
