(* ===== verification/NetDrain.v ===== *)
(** Every operation and every event keeps [live], and the events of the
    simulated network run out: then nothing is queued, in flight or held. *)

From stdpp Require Import base list numbers gmap sorting.
From S2P Require Import Prelude Scheduler Network NetWorld NetStream NetSteps NetSafe NetLive.
#[local] Open Scope Z_scope.

Section Drain.
Context {IP : Type} `{Countable IP}.
Implicit Types (c d r : ConnectionState IP) (n : Net IP) (w : World IP) (ag : list (Z * NetworkEvent)).

Lemma live_mono ag ag' n : ag ⊆ ag' → live ag n → live ag' n.
Proof.
  intros Hs [[H1 H2] Hk]. assert (pending_events ag n ⊆ pending_events ag' n) as Hp.
  { unfold pending_events. intros x. rewrite !elem_of_app. naive_solver. }
  split; [|done]. split.
  - intros id c Hc. eapply conn_live_mono; [exact Hp|]. by apply H1.
  - by eapply entries_live_mono.
Qed.

Lemma live_after ag n : live ag n → live (ag ++ nw_actions n) (drain n).
Proof.
  intros [[H1 H2] Hk]. split; [|done]. unfold pending_events in *.
  split; unfold pending_events; cbn; rewrite app_nil_r; [done|]. destruct H2. by split.
Qed.

(** ** Sending *)

Lemma live_idle ag n id now :
  live ag n → live ag (finish_close id now (update id (flag (set_send_in_progress false)) n)).
Proof.
  intros Hl. destruct (connection n id) as [c|] eqn:Hc; last first.
  { assert (update id (flag (set_send_in_progress false)) n = n) as ->.
    { destruct n. unfold update, with_connections. cbn. rewrite alter_id; [done|].
      intros x Hx. unfold connection in Hc. cbn in Hc. congruence. }
    unfold finish_close. by rewrite Hc. }
  unfold finish_close. rewrite (connection_update_eq _ _ _ c Hc).
  change (fl_graceful_close_pending _) with (fl_graceful_close_pending (cn_flags c)).
  destruct (fl_graceful_close_pending (cn_flags c)) eqn:Hp.
  - apply live_put_fin.
    apply (live_change ag n _ id c (flag (set_graceful_close_pending false) (flag (set_send_in_progress false) c)));
      try done.
    + intros q. rewrite !connection_update. case_decide; [subst; by rewrite Hc|done].
    + intros []. split; done.
    + by right.
  - apply (live_change ag n _ id c (flag (set_send_in_progress false) c)); try done.
    + intros q. exact (connection_update' n id _ c q Hc).
    + intros []. split; try done. cbn. by rewrite Hp.
    + by right.
Qed.

Lemma live_normal_send ag pm (d : SendDraws) id now n :
  live ag n → live ag (handle_normal_send pm d id now n).
Proof.
  intros Hl. unfold handle_normal_send. destruct (connection n id) as [c|] eqn:Hc; [|done].
  destruct (cn_send_buffer c) as [|chunk queue]; [by apply live_idle|].
  destruct (cut_chunk _ _ _) as [data rest].
  set (queue2 := match rest with Some _ => _ | None => _ end).
  set (n1 := match cn_paired c with Some _ => _ | None => _ end).
  assert (live ag (update id (with_queue queue2) n)) as Hl0 by (apply live_update; [done|same_here]).
  assert (live ag n1) as Hl1.
  { subst n1. destruct (cn_paired c); [|done]. apply live_put; [apply sat_add_max|done]. }
  destruct queue2; [by apply live_idle|by apply live_schedule].
Qed.

Lemma live_process ag pm (d : SendDraws) id now n n' :
  live ag n → handle_process_send_buffer pm d id now n = Some n' → live ag n'.
Proof.
  intros Hl. unfold handle_process_send_buffer.
  destruct (connection n id) as [c|] eqn:Hc; [|intros [= <-]; by apply live_take].
  destruct (_ && _) eqn:Hcl.
  - unfold discard_send_queue. rewrite Hc. destruct (release _ _) as [win|]; cbn [mbind option_bind]; [|done].
    intros [= <-]. apply live_take. apply andb_true_iff in Hcl as [_ Hp]. apply negb_true_iff in Hp.
    apply (live_change ag n _ id c (flag (set_send_stalled false ∘ set_send_in_progress false)
      (with_window win (with_queue [] c)))); try done.
    + intros q. rewrite !connection_update. case_decide; [subst; by rewrite Hc|done].
    + intros []. split; try done. cbn. by rewrite Hp.
    + cbn. intros [?|?]; [by right; left|done].
  - destruct (cn_send_buffer c); [intros [= <-]; by apply live_normal_send|].
    destruct (is_cut n id now) eqn:Hcut; intros [= <-]; [|by apply live_normal_send].
    apply (live_change ag n _ id c (flag (set_send_stalled true) c)); try done.
    + intros q. exact (connection_update' n id _ c q Hc).
    + intros []. split; done.
    + intros _. left. by apply (is_cut_entry n id now c).
Qed.

(** After its send event a queue is idle, stalled, or has its next one. *)
Definition sends_on n id : Prop :=
  ∀ c, connection n id = Some c → fl_send_in_progress (cn_flags c) = true →
    fl_send_stalled (cn_flags c) = false → ∃ t, (t, ProcessSendBuffer id) ∈ nw_actions n.

Lemma idle_sends_on n id now :
  sends_on (finish_close id now (update id (flag (set_send_in_progress false)) n)) id.
Proof.
  intros c' Hc' Hp. exfalso. unfold finish_close in Hc'. rewrite connection_update, decide_True in Hc' by done.
  destruct (connection n id) as [c|] eqn:Hc; [|cbn in Hc'; rewrite connection_update, decide_True, Hc in Hc'; done].
  cbn [fmap option_fmap option_map] in Hc'. case_match.
  - unfold put_fin_in_flight in Hc'. destruct (paired _ _).
    + destruct (connection_put (update id (flag (set_graceful_close_pending false))
        (update id (flag (set_send_in_progress false)) n)) id Fin (sat_add now 1) now
        (flag (set_graceful_close_pending false) (flag (set_send_in_progress false) c))) as (h & f & s & l & E).
      { by rewrite !connection_update, !decide_True, Hc. }
      rewrite E in Hc'. by injection Hc' as <-.
    + rewrite !connection_update, !decide_True, Hc in Hc' by done. by injection Hc' as <-.
  - rewrite !connection_update, !decide_True, Hc in Hc' by done. by injection Hc' as <-.
Qed.

Lemma normal_send_on pm (d : SendDraws) id now n : sends_on (handle_normal_send pm d id now n) id.
Proof.
  unfold handle_normal_send. destruct (connection n id) as [c|] eqn:Hc; [|intros x Hx; congruence].
  destruct (cn_send_buffer c) as [|chunk queue]; [apply idle_sends_on|].
  destruct (cut_chunk _ _ _) as [data rest].
  set (queue2 := match rest with Some _ => _ | None => _ end).
  destruct queue2; [apply idle_sends_on|]. intros x _ _ _. exists now. cbn.
  rewrite elem_of_app, list_elem_of_singleton. auto.
Qed.

Lemma process_sends_on pm (d : SendDraws) id now n n' :
  handle_process_send_buffer pm d id now n = Some n' → sends_on n' id.
Proof.
  unfold handle_process_send_buffer. destruct (connection n id) as [c|] eqn:Hc.
  - destruct (_ && _).
    + destruct (discard_send_queue id n) as [n1|]; cbn [mbind option_bind]; [|done]. intros [= <-] x Hx Hp _.
      rewrite take_waiter_conn, connection_update, decide_True in Hx by done.
      destruct (connection n1 id); [|done]. injection Hx as <-. done.
    + destruct (cn_send_buffer c); [intros [= <-]; apply normal_send_on|].
      destruct (is_cut n id now); intros [= <-]; [|apply normal_send_on].
      intros x Hx _ Hs. rewrite connection_update, decide_True, Hc in Hx by done. injection Hx as <-. done.
  - intros [= <-] x Hx. rewrite take_waiter_conn in Hx. congruence.
Qed.

(** ** Closing *)

(** A busy queue is in progress, so a close may be pending on it. *)
Definition queues_busy n : Prop :=
  ∀ id c, connection n id = Some c → cn_send_buffer c ≠ [] → fl_send_in_progress (cn_flags c) = true.

Lemma busy_after w n : nok w n → queues_busy n.
Proof.
  intros Hok id c Hc. destruct (nok_pair w n id c Hok Hc) as (p & r & _ & _ & _ & _ & D & _). apply D.
Qed.

Lemma live_shutdown ag id now n : queues_busy n → live ag n → live ag (shutdown_send id now n).
Proof.
  intros Hb Hl. unfold shutdown_send, close_snapshot. destruct (connection n id) as [c|] eqn:Hc; [|done].
  cbn [mbind option_bind]. case_match; [done|].
  set (n1 := take_waiter _ _). assert (live ag n1) as Hl1; [|case_match; [by apply live_put_fin|done]].
  subst n1. apply live_take, live_update; [done|]. intros c' Hc'. assert (c' = c) as -> by congruence.
  split; cbn; try done; try (by case_match).
  destruct (fl_send_in_progress (cn_flags c)) eqn:Hp; [by right|].
  case_bool_decide as Hq; cbn; [by left|]. rewrite (Hb id c Hc) in Hp; done.
Qed.

Lemma live_close_graceful ag id now n n' :
  queues_busy n → live ag n → close_graceful id now n = Some n' → live ag n'.
Proof.
  intros Hb Hl. unfold close_graceful, close_snapshot. destruct (connection n id) as [c|] eqn:Hc; [|by intros [= <-]].
  cbn [mbind option_bind]. case_match; [by intros [= <-]|].
  destruct (discard_receive_buffer _ _) as [n2|] eqn:E; cbn [mbind option_bind]; [|done]. intros [= <-].
  assert (live ag n2) as Hl2; [|destruct (_ && bool_decide _); [by apply live_put_fin|done]].
  eapply live_discard_receive; [|exact E]. apply live_take, live_update; [done|].
  intros c' Hc'. assert (c' = c) as -> by congruence. split; cbn; try done; try (by case_match).
  destruct (fl_send_in_progress (cn_flags c)) eqn:Hp; [by right|].
  destruct (bool_decide (cn_send_buffer c = [])) eqn:Hq; [rewrite andb_false_r; by left|].
  apply bool_decide_eq_false in Hq. rewrite (Hb id c Hc) in Hp; done.
Qed.

Lemma live_abort_one ag n id n' : live ag n → abort_one (Some n) id = Some n' → live ag n'.
Proof.
  intros Hl. unfold abort_one. cbn [mbind option_bind]. set (n1 := update id _ n).
  assert (live ag n1) as Hl1.
  { destruct (connection n id) as [c|] eqn:Hc.
    - apply (live_change ag n n1 id c (with_reason CloseAborted (flag abort_flags c))); try done.
      + intros q. subst n1. rewrite connection_update. case_decide; [subst; by rewrite Hc|done].
      + intros []. split; done.
      + cbn. intros [?|?]; [by right; left|done].
    - apply live_update; [done|]. intros c Hc'. congruence. }
  destruct (discard_send_queue id n1) as [n2|] eqn:E; cbn [mbind option_bind]; [|done].
  apply live_discard_flight. by eapply live_discard_queue.
Qed.

Lemma live_close_aborted ag id n n' : live ag n → close_aborted id n = Some n' → live ag n'.
Proof.
  intros Hl. unfold close_aborted. generalize (both id (paired n id)). intros ids.
  assert (∀ ids n n1, live ag n → foldl abort_one (Some n) ids = Some n1 → live ag n1) as H1.
  { clear. intros ids. induction ids as [|q ids IH]; intros n n1 Hl; cbn [foldl]; [by intros [= <-]|].
    destruct (abort_one (Some n) q) as [n2|] eqn:E; [apply IH; by eapply live_abort_one|].
    assert (∀ ids, foldl abort_one None ids = @None (Net IP)) as -> by (clear; induction ids; done). done. }
  assert (∀ ids n n1, live ag n → foldl (λ o id, m ← o; discard_receive_buffer id m) (Some n) ids = Some n1 → live ag n1) as H2.
  { clear. intros ids. induction ids as [|q ids IH]; intros n n1 Hl; cbn [foldl mbind option_bind]; [by intros [= <-]|].
    destruct (discard_receive_buffer q n) as [n2|] eqn:E; [apply IH; by eapply live_discard_receive|].
    assert (∀ ids, foldl (λ o id, m ← o; discard_receive_buffer id m) None ids = @None (Net IP)) as ->
      by (clear; induction ids; done). done. }
  destruct (foldl abort_one _ _) as [n1|] eqn:E1; cbn [mbind option_bind]; [|done].
  destruct (foldl _ (Some n1) _) as [n2|] eqn:E2; cbn [mbind option_bind]; [|done]. intros [= <-].
  assert (live ag n2) as Hl2 by eauto. clear -Hl2. revert n2 Hl2.
  induction ids as [|q ids IH]; intros n2 Hl2; cbn; [done|]. by apply IH, live_take_all.
Qed.

Lemma live_drop ag id now n n' :
  queues_busy n → live ag n → drop_stream id now n = Some n' → live ag n'.
Proof.
  intros Hb Hl. unfold drop_stream. destruct (connection n id) as [c|]; [|by apply live_close_graceful].
  destruct (cn_receive_buffer c); [by apply live_close_graceful|by apply live_close_aborted].
Qed.

Lemma live_close_asymmetric ag id cs cr n n' :
  live ag n → close_asymmetric id cs cr n = Some n' → live ag n'.
Proof.
  intros Hl. unfold close_asymmetric.
  destruct (if cs then _ else _) as [n1|] eqn:E1; cbn [mbind option_bind]; [|done].
  assert (live ag n1) as Hl1.
  { destruct cs; [|by injection E1 as <-]. eapply live_discard_queue; [|exact E1]. apply live_update; [done|same_here]. }
  clear E1. assert (∀ n, live ag n → live ag (if cs then take_waiter (SendWaiter id) (take_waiter (ReadWaiter id) n) else n)) as Ht.
  { intros m Hm. destruct cs; [by do 2 apply live_take|done]. }
  destruct cr; [|intros [= <-]; auto]. destruct (paired n id) as [p|]; [|intros [= <-]; auto].
  apply live_discard_receive. apply live_take, Ht, live_update; [done|same_here].
Qed.

Lemma live_black_hole ag id hs hr n : live ag n → live ag (black_hole id hs hr n).
Proof.
  intros Hl. unfold black_hole.
  assert (live ag (if hs then update id (flag (set_send_black_holed true)) n else n)) as Hl1.
  { destruct hs; [|done]. apply live_update; [done|same_here]. }
  destruct hr; [|done]. destruct (paired n id); [|done]. apply live_update; [done|same_here].
Qed.

Lemma live_open ag window cl sv n : live ag n → live ag (create_connection_pair window cl sv n).1.
Proof.
  intros [Hl Hk]. cbn. set (n' := mkNet _ _ _ _ _ _ _ _ _ _ _ _).
  assert (∀ q c, connection n' q = Some c → connection n q = Some c ∨
            ∃ a b p, c = new_connection window a b p) as Hcases.
  { intros q c. unfold connection, n'. cbn. rewrite !lookup_insert_Some. naive_solver. }
  split.
  - apply (core_step ag n); try done. intros q c Hq. destruct (Hcases q c Hq) as [?|(a & b & p & ->)]; [by left|].
    right. split; try done; cbn; [constructor|by intros i ?%elem_of_nil|by intros i _ ?%elem_of_nil].
  - apply (cuts_step n); try done. intros q c Hq Hx. destruct (Hcases q c Hq) as [?|(a & b & p & ->)]; [eauto 8|].
    cbn in Hx. destruct Hx as [[? [=]]|[=]].
Qed.

Lemma live_fewer ag n n' :
  live ag n → same_partitions n n' → nw_actions n' = nw_actions n →
  (∀ q c, connection n' q = Some c → connection n q = Some c) → live ag n'.
Proof.
  intros [Hl Hk] Hs Ha Hc. split.
  - apply (core_step ag n); try done; [by rewrite Ha|]. auto.
  - apply (cuts_step n); try done. intros q c Hq Hx. right. exists c. auto.
Qed.

Lemma live_discard ag id n : live ag n → live ag (discard_connection_pair id n).
Proof.
  unfold discard_connection_pair. generalize (both id (paired n id)). intros ids. revert n.
  induction ids as [|q ids IH]; intros n Hl; cbn; [done|]. apply IH. unfold discard_one.
  apply live_take_all. apply (live_fewer ag n); try done. intros x c. unfold connection. cbn.
  rewrite lookup_delete_Some. naive_solver.
Qed.

(** ** Polls *)

Lemma live_register ag n x : live ag n → live ag (register x n).
Proof. intros Hl. by apply (live_env ag n). Qed.

Lemma live_write ag id buf now t n n' p :
  live ag n → poll_write id buf now t n = Some (n', p) → live ag n'.
Proof.
  intros Hl. unfold poll_write. destruct (write_guard_pre_backpressure n id); [by intros [= <- _]|].
  destruct (len buf =? 0); [by intros [= <- _]|].
  destruct (connection n id) as [c|] eqn:Hc; [|by intros [= <- _]].
  destruct (available _) as [room|]; cbn [mbind option_bind]; [|done].
  destruct (room =? 0).
  { case_match; intros [= <- _]; [done|]. by apply live_register. }
  destruct (is_clogged _ _ _).
  { case_match; intros [= <- _]; [done|]. by apply live_register. }
  unfold buffer_send. rewrite Hc.
  destruct (acquire _ _) as [win|]; cbn [mbind option_bind]; [|done]. intros [= <- _].
  set (f := with_queue _ ∘ with_window win).
  destruct (fl_send_in_progress (cn_flags c)) eqn:Hp; [apply live_update; [done|same_here]|].
  apply (live_change ag n _ id c (flag (set_send_in_progress true) (f c))); try done.
  - cbn. intros x. rewrite elem_of_app. auto.
  - intros q. etrans; [apply (connection_update (update id f n) id q)|]. rewrite connection_update.
    case_decide; [subst; by rewrite Hc|done].
  - intros []. split; try done. intros _ _. exists now. unfold pending_events. cbn.
    rewrite !elem_of_app, list_elem_of_singleton. auto.
  - by right.
Qed.

Lemma live_read ag pm size partial id now n n' p got :
  live ag n → poll_read pm size partial id now n = Some (n', p, got) → live ag n'.
Proof.
  intros Hl. unfold poll_read. destruct (size =? 0); [by intros [= <- _ _]|].
  destruct (connection n id) as [c|] eqn:Hc; [|by intros [= <- _ _]].
  destruct (_ && _); [by intros [= <- _ _]|]. destruct (_ || _); [by intros [= <- _ _]|].
  destruct (is_clogged _ _ _); [intros [= <- _ _]; by apply live_register|].
  destruct (cn_receive_buffer c) eqn:Hb.
  { destruct (read_terminal c); intros [= <- _ _]; [done|]. by apply live_register. }
  unfold read. rewrite Hc. set (k := read_limit _ _ _). set (n1 := update id _ n).
  assert (live ag n1) as Hl1 by (apply live_update; [done|same_here]).
  destruct (cn_paired c) as [p'|].
  - destruct (if 0 <? k then _ else _) as [n2|] eqn:E; cbn [mbind option_bind]; [|done].
    intros [= <- _ _]. destruct (0 <? k); [by eapply live_release|]. by injection E as <-.
  - cbn [mbind option_bind]. by intros [= <- _ _].
Qed.

(** ** Partitions *)

Lemma live_hold_all ag now n : live ag n → live ag (hold_partitioned_in_flight now n).
Proof.
  intros Hl. unfold hold_partitioned_in_flight.
  assert (∀ q, q ∈ filter (λ id, is_cut n id now = true) (conn_ids n) → is_cut n q now = true) as Hall.
  { intros q Hq. by apply list_elem_of_filter in Hq as [? _]. }
  generalize dependent (filter (λ id, is_cut n id now = true) (conn_ids n)). intros ids.
  revert n Hl. induction ids as [|q ids IH]; intros n Hl Hall; cbn; [done|].
  apply IH; [apply live_hold; [done|]; apply Hall, list_elem_of_here|].
  intros x Hx. etrans; [|apply Hall, list_elem_of_further, Hx]. unfold is_cut. apply bool_decide_ext.
  unfold connection_partition_clear_at, hold_in_flight.
  destruct (connection n q) as [c|] eqn:Hc; [|done]. destruct (cn_held_since c); [done|].
  destruct (cn_in_flight c); [done|]. rewrite connection_update. case_decide; [|done]. subst. by rewrite Hc.
Qed.

Lemma live_insert ag n (ip : gmap (IP * IP) Z) (s r : gmap IP Z) D e :
  live ag n →
  (∀ x v, ip !! x = Some v → nw_ip_partitions n !! x = Some v ∨ (D, e) = (v, PartitionRestore v)) →
  (∀ x v, s !! x = Some v → nw_send_partitions n !! x = Some v ∨ (D, e) = (v, SendPartitionClear v)) →
  (∀ x v, r !! x = Some v → nw_recv_partitions n !! x = Some v ∨ (D, e) = (v, RecvPartitionClear v)) →
  (∀ x, is_Some (nw_ip_partitions n !! x) → is_Some (ip !! x)) →
  (∀ x, is_Some (nw_send_partitions n !! x) → is_Some (s !! x)) →
  (∀ x, is_Some (nw_recv_partitions n !! x) → is_Some (r !! x)) →
  live ag (schedule D e (with_partitions ip s r n)).
Proof.
  intros [[H1 [E1 E2 E3]] Hk] A1 A2 A3 B1 B2 B3. set (n' := schedule _ _ _).
  assert (pending_events ag n' = pending_events ag n ++ [(D, e)]) as Ep.
  { unfold pending_events. cbn. by rewrite app_assoc. }
  assert (∀ x, x ∈ pending_events ag n ∨ (D, e) = x → x ∈ pending_events ag n') as Hin.
  { intros x. rewrite Ep, elem_of_app, list_elem_of_singleton. naive_solver. }
  split; [split|].
  - intros id c Hc. eapply conn_live_mono; [|by apply H1]. intros x. auto.
  - split; cbn; intros x v Hx; apply Hin.
    + destruct (A1 x v Hx); eauto.
    + destruct (A2 x v Hx); eauto.
    + destruct (A3 x v Hx); eauto.
  - intros id c Hc Hx. destruct (Hk id c Hc Hx) as (a & b & Ha & Hb & Hab). exists a, b. split_and!; try done.
    cbn. naive_solver.
Qed.

Lemma insert_cases {K} `{Countable K} (m : gmap K Z) (x : K) D :
  (∀ y v, <[x := D]> m !! y = Some v → m !! y = Some v ∨ D = v) ∧
  (∀ y, is_Some (m !! y) → is_Some (<[x := D]> m !! y)).
Proof.
  split.
  - intros y v. rewrite lookup_insert_Some. naive_solver.
  - intros y Hy. rewrite lookup_insert_is_Some. destruct (decide (x = y)); auto.
Qed.

Lemma live_partition_pair ag from to k now n : live ag n → live ag (partition_pair from to k now n).
Proof.
  intros Hl. unfold partition_pair. apply live_hold_all.
  destruct (insert_cases (nw_ip_partitions n) (from, to) (sat_add now k)) as [H1 H2].
  apply live_insert; auto. intros x v Hx. destruct (H1 x v Hx) as [?| <-]; auto.
Qed.

Lemma live_send_partition ag ip k now n : live ag n → live ag (insert_send_partition ip k now n).
Proof.
  intros Hl. unfold insert_send_partition. apply live_hold_all.
  destruct (insert_cases (nw_send_partitions n) ip (sat_add now k)) as [H1 H2].
  apply live_insert; auto. intros x v Hx. destruct (H1 x v Hx) as [?| <-]; auto.
Qed.

Lemma live_recv_partition ag ip k now n : live ag n → live ag (insert_recv_partition ip k now n).
Proof.
  intros Hl. unfold insert_recv_partition. apply live_hold_all.
  destruct (insert_cases (nw_recv_partitions n) ip (sat_add now k)) as [H1 H2].
  apply live_insert; auto. intros x v Hx. destruct (H1 x v Hx) as [?| <-]; auto.
Qed.

(** Fewer entries, then a resume. *)
Lemma live_heal ag (now : Z) n (ip : gmap (IP * IP) Z) (s r : gmap IP Z) :
  live ag n → ip ⊆ nw_ip_partitions n → s ⊆ nw_send_partitions n → r ⊆ nw_recv_partitions n →
  live ag (resume_after_heal now (with_partitions ip s r n)).
Proof.
  intros [[H1 [E1 E2 E3]] _] S1 S2 S3. apply live_resume. split; [done|].
  split; cbn; intros x v Hx.
  - apply (E1 x). by eapply lookup_weaken.
  - apply (E2 x). by eapply lookup_weaken.
  - apply (E3 x). by eapply lookup_weaken.
Qed.

Lemma live_restore ag from to now n : live ag n → live ag (restore_partition from to now n).
Proof.
  intros Hl. apply live_heal; try done. etrans; [apply delete_subseteq|]. apply delete_subseteq.
Qed.

Lemma live_heal_all ag now n : live ag n → live ag (heal_all_partitions now n).
Proof. intros Hl. apply live_heal; try done; apply map_empty_subseteq. Qed.

(** ** Events *)

(** The event that fired is no longer needed. *)
Lemma live_fired ag t e n :
  live ((t, e) :: ag) n →
  (∀ id s c i, e = Delivery id s → connection n id = Some c → cn_held_since c = None →
     i ∈ cn_in_flight c → if_deliver_at i ≠ t) →
  (∀ id, e = ProcessSendBuffer id → sends_on n id) →
  (e = PartitionRestore t → ∀ x, nw_ip_partitions n !! x ≠ Some t) →
  (e = SendPartitionClear t → ∀ x, nw_send_partitions n !! x ≠ Some t) →
  (e = RecvPartitionClear t → ∀ x, nw_recv_partitions n !! x ≠ Some t) →
  live ag n.
Proof.
  intros [[H1 [E1 E2 E3]] Hk] Hdel Hsend P1 P2 P3. split; [|done].
  assert (∀ x, x ∈ pending_events ((t, e) :: ag) n → x = (t, e) ∨ x ∈ pending_events ag n) as Hin.
  { intros x. unfold pending_events. cbn. by rewrite elem_of_cons. }
  split.
  - intros id c Hc. destruct (H1 id c Hc). split; try done.
    + intros i Hh Hi. destruct (cl_event i Hh Hi) as [s Hs]. destruct (Hin _ Hs) as [Hx|Hx]; [|eauto].
      injection Hx as Ht He. exfalso. by eapply (Hdel id s c i).
    + intros Hp Hst. destruct (cl_send Hp Hst) as [s Hs]. destruct (Hin _ Hs) as [Hx|Hx]; [|eauto].
      injection Hx as Ht He. destruct (Hsend id (eq_sym He) c Hc Hp Hst) as [u Hu]. exists u.
      unfold pending_events. rewrite elem_of_app. auto.
  - split; intros x D Hx.
    + destruct (Hin _ (E1 x D Hx)) as [Hy|]; [|done]. injection Hy as -> <-. exfalso. by eapply P1.
    + destruct (Hin _ (E2 x D Hx)) as [Hy|]; [|done]. injection Hy as -> <-. exfalso. by eapply P2.
    + destruct (Hin _ (E3 x D Hx)) as [Hy|]; [|done]. injection Hy as -> <-. exfalso. by eapply P3.
Qed.

Lemma resume_partitions now n : same_partitions n (resume_after_heal now n).
Proof.
  assert (∀ l n, same_partitions n (foldl (thaw now) n l)) as H1.
  { intros l. induction l as [|x l IH]; intros m; cbn; [done|].
    destruct (eased_thaw now m x) as [(A1 & A2 & A3) _], (IH (thaw now m x)) as (B1 & B2 & B3). split_and!; congruence. }
  assert (∀ l n, same_partitions n (foldl (unstall now) n l)) as H2.
  { intros l. induction l as [|x l IH]; intros m; cbn; [done|].
    destruct (IH (unstall now m x)) as (B1 & B2 & B3). split_and!; try done. }
  unfold resume_after_heal, release_held_in_flight.
  match goal with |- same_partitions n (foldl _ (foldl _ n ?l1) ?l2) =>
    destruct (H1 l1 n) as (A1 & A2 & A3), (H2 l2 (foldl (thaw now) n l1)) as (B1 & B2 & B3) end.
  split_and!; [etrans; [exact B1|done]|etrans; [exact B2|done]|etrans; [exact B3|done]].
Qed.

Lemma filter_expired {K} `{Countable K} (m : gmap K Z) t x :
  filter (λ y, expired t t y.2 = false) m !! x ≠ Some t.
Proof. rewrite map_lookup_filter_Some. intros [_ Hx]. unfold expired in Hx. cbn in Hx. by rewrite Z.eqb_refl, Z.leb_refl in Hx. Qed.

Lemma live_event ag (d : EventDraws) t e n n' :
  (∀ id c, connection n id = Some c → cn_paired c ≠ Some id) →
  live ((t, e) :: ag) n → handle_event d e t n = Some n' → live ag n'.
Proof.
  intros Hpair Hl. destruct e as [|id D|id D|D|D|D|id s|id]; cbn [handle_event].
  - intros [= <-]. apply (live_fired _ _ _ _ Hl); done.
  - intros [= <-]. apply (live_fired _ t (ClogClear id D)); try done. repeat case_match; try done.
    apply live_take. by apply (live_env _ n).
  - intros [= <-]. apply (live_fired _ t (ReadClogClear id D)); try done. repeat case_match; try done.
    apply live_take. by apply (live_env _ n).
  - intros [= <-]. set (n1 := with_partitions _ _ _ n). destruct (resume_partitions t n1) as (F1 & F2 & F3).
    apply (live_fired _ t (PartitionRestore D)); try done.
    + apply live_heal; try done. apply map_filter_subseteq.
    + intros [= ->] x. rewrite F1. apply filter_expired.
  - intros [= <-]. set (n1 := with_partitions _ _ _ n). destruct (resume_partitions t n1) as (F1 & F2 & F3).
    apply (live_fired _ t (SendPartitionClear D)); try done.
    + apply live_heal; try done. apply map_filter_subseteq.
    + intros [= ->] x. rewrite F2. apply filter_expired.
  - intros [= <-]. set (n1 := with_partitions _ _ _ n). destruct (resume_partitions t n1) as (F1 & F2 & F3).
    apply (live_fired _ t (RecvPartitionClear D)); try done.
    + apply live_heal; try done. apply map_filter_subseteq.
    + intros [= ->] x. rewrite F3. apply filter_expired.
  - intros E. apply (live_fired _ t (Delivery id s)); try done.
    + by eapply live_deliver_loop.
    + intros id' s' c' i [= <- <-] Hc' Hh Hi. unfold handle_delivery in E.
      destruct (connection n id) as [c|] eqn:Hc.
      * destruct (deliver_loop_post _ _ _ _ _ _ c Hc (Hpair id c Hc)
          (cl_sorted _ _ _ (lc_conn _ _ (proj1 Hl) id c Hc)) (Nat.lt_succ_diag_r _) E) as (c2 & Hc2 & [Hx|Hx]).
        { assert (c2 = c') as -> by congruence. rewrite Hh in Hx. by destruct Hx. }
        assert (c2 = c') as -> by congruence. rewrite Forall_forall in Hx. specialize (Hx i Hi). lia.
      * cbn [deliver_loop] in E. rewrite Hc in E. injection E as <-. congruence.
  - intros E. apply (live_fired _ t (ProcessSendBuffer id)); try done; [by eapply live_process|].
    intros q [= <-]. by eapply process_sends_on.
Qed.
End Drain.
