(* ===== verification/NetQuiet.v ===== *)
(** The simulated network comes to rest: processing its events, in any order,
    ends, and then every byte written to an intact direction is at its reader. *)

From stdpp Require Import base list numbers gmap sorting.
From S2P Require Import Prelude Scheduler Network NetWorld NetStream NetSteps NetSafe NetLive NetDrain.
#[local] Open Scope Z_scope.

Section Quiet.
Context {IP : Type} `{Countable IP}.
Implicit Types (c r : ConnectionState IP) (n : Net IP) (w v : World IP) (ag : list (Z * NetworkEvent)).

(** ** Runs keep the schedule *)

Record world_live w : Prop := {
  wl_ok : net_ok w;
  wl_live : live (wd_agenda w) (wd_net w);
}.

Lemma live_op o w w' :
  net_ok w → live (wd_agenda w) (wd_net w) → world_exec o w = Some w' → live (wd_agenda w') (wd_net w').
Proof.
  intros Hok Hl. pose proof (nok_start w Hok) as Hn. pose proof (busy_after w _ Hn) as Hb.
  destruct o as [window cl sv|id buf t|id pm size partial|id|id|id|id|id cs cr|id hs hr|from to d|ip d|ip d|from to| |id t|id t|id|i d];
    cbn [world_exec].
  - intros [= <-]. by apply live_after, live_open.
  - destruct (poll_write _ _ _ _ _) as [[n' p]|] eqn:E; cbn; [|done]. intros [= <-].
    apply live_write with (1 := Hl) in E. destruct p; by apply live_after.
  - destruct (poll_read _ _ _ _ _ _) as [[[n' p] g]|] eqn:E; cbn; [|done]. intros [= <-].
    apply live_read with (1 := Hl) in E. by apply live_after.
  - intros [= <-]. by apply live_after, live_shutdown.
  - destruct (close_graceful _ _ _) as [n'|] eqn:E; cbn; [|done]. intros [= <-].
    apply live_close_graceful with (1 := Hb) (2 := Hl) in E. by apply live_after.
  - destruct (drop_stream _ _ _) as [n'|] eqn:E; cbn; [|done]. intros [= <-].
    apply live_drop with (1 := Hb) (2 := Hl) in E. by apply live_after.
  - destruct (close_aborted _ _) as [n'|] eqn:E; cbn; [|done]. intros [= <-].
    apply live_close_aborted with (1 := Hl) in E. by apply live_after.
  - destruct (close_asymmetric _ _ _ _) as [n'|] eqn:E; cbn; [|done]. intros [= <-].
    apply live_close_asymmetric with (1 := Hl) in E. by apply live_after.
  - intros [= <-]. by apply live_after, live_black_hole.
  - intros [= <-]. by apply live_after, live_partition_pair.
  - intros [= <-]. by apply live_after, live_send_partition.
  - intros [= <-]. by apply live_after, live_recv_partition.
  - intros [= <-]. by apply live_after, live_restore.
  - intros [= <-]. by apply live_after, live_heal_all.
  - intros [= <-]. apply live_after. unfold clog_write_until. case_match; [|done].
    apply live_schedule. by apply (live_env _ (wd_net w)).
  - intros [= <-]. apply live_after. unfold clog_read_until. case_match; [|done].
    apply live_schedule. by apply (live_env _ (wd_net w)).
  - intros [= <-]. by apply live_after, live_discard.
  - destruct (wd_agenda w !! i) as [[t e]|] eqn:Hi; [|by intros [= <-]].
    destruct (handle_event _ _ _ _) as [n'|] eqn:E; cbn; [|done]. intros [= <-].
    apply (live_after (delete i (wd_agenda w))). eapply live_event; [|..|exact E].
    + intros id c Hc. destruct (nok_pair w _ id c Hn Hc) as (p & r & Hp & Hne & _). congruence.
    + eapply live_mono; [|exact Hl]. intros x Hx. by rewrite (delete_Permutation _ _ _ Hi) in Hx.
Qed.

Lemma live_runs ops w w' :
  Forall permitted ops → world_live w → world_run ops w = Some w' → world_live w'.
Proof.
  intros Hp. revert w. induction Hp as [|o ops Ho Hops IH]; intros w [Hok Hl]; cbn; [by intros [= <-]|].
  destruct (world_step o w Ho Hok) as (w1 & E & Hok1). rewrite E. cbn. apply IH. split; [done|]. exact (live_op o w w1 Hok Hl E).
Qed.

Lemma live_new : world_live (World_new : World IP).
Proof.
  split; [apply net_ok_new|]. split; [split|].
  - intros id c Hc. unfold connection in Hc. cbn in Hc. by rewrite lookup_empty in Hc.
  - split; cbn; intros x D Hx; by rewrite lookup_empty in Hx.
  - intros id c Hc. unfold connection in Hc. cbn in Hc. by rewrite lookup_empty in Hc.
Qed.

(** ** When the agenda is empty *)

Lemma at_rest w id c :
  world_live w → wd_agenda w = [] → nw_actions (wd_net w) = [] → connection (wd_net w) id = Some c →
  cn_send_buffer c = [] ∧ cn_in_flight c = [] ∧ fl_graceful_close_pending (cn_flags c) = false.
Proof.
  intros [Hok [[H1 [E1 E2 E3]] Hk]] Ha Hx Hc. unfold pending_events in *. rewrite Ha, Hx in *. cbn in *.
  assert (¬ cut_entry (wd_net w) c) as Hnc.
  { intros (l & r & _ & _ & [[D HD]|[[D HD]|[D HD]]]).
    - by eapply elem_of_nil, (E1 _ D).
    - by eapply elem_of_nil, (E2 _ D).
    - by eapply elem_of_nil, (E3 _ D). }
  destruct (H1 id c Hc). destruct (net_ok_peer w id c Hok Hc) as (p & r & _ & _ & _ & _ & D & _).
  assert (fl_send_in_progress (cn_flags c) = false) as Hp.
  { destruct (fl_send_in_progress (cn_flags c)) eqn:Hp; [|done].
    destruct (fl_send_stalled (cn_flags c)) eqn:Hs; [exfalso; apply Hnc, (Hk id c Hc); auto|].
    destruct (cl_send eq_refl eq_refl) as [t Ht]. by apply elem_of_nil in Ht. }
  split_and!.
  - destruct (cn_send_buffer c) eqn:Hq; [done|]. rewrite (do_queue _ _ _ D) in Hp; [done|by rewrite Hq].
  - destruct (cn_in_flight c) as [|i rest] eqn:Hf; [done|].
    destruct (cn_held_since c) eqn:Hh; [exfalso; apply Hnc, (Hk id c Hc); rewrite Hh; eauto|].
    destruct (cl_event i eq_refl) as [s Hs]; [by apply list_elem_of_here|]. by apply elem_of_nil in Hs.
  - destruct (fl_graceful_close_pending _) eqn:Hg; [|done]. rewrite cl_pending in Hp; done.
Qed.

(** ** Events run out *)

(** What is left to do: the queues, by bytes and chunks, and the events. *)
Definition queue_load (q : list SendChunk) : nat := sum_list ((λ k, 2 * length (ck_data k) + 2)%nat <$> q).
Definition queues n : gmap Z (list SendChunk) := cn_send_buffer <$> nw_connections n.
Definition total_load (m : gmap Z (list SendChunk)) : nat := map_fold (λ _ q a, queue_load q + a)%nat 0%nat m.
Definition weight (x : Z * NetworkEvent) : nat := match x.2 with ProcessSendBuffer _ => 2 | _ => 1 end.
Definition agenda_load ag : nat := sum_list (weight <$> ag).
Definition is_clear (x : Z * NetworkEvent) : bool :=
  match x.2 with PartitionRestore _ | SendPartitionClear _ | RecvPartitionClear _ => true | _ => false end.
Definition clears ag : nat := length (filter (λ x, is_clear x = true) ag).

Lemma total_load_insert m id q q' :
  m !! id = Some q → (total_load (<[id := q']> m) + queue_load q = total_load m + queue_load q')%nat.
Proof.
  intros Hm. unfold total_load.
  rewrite (map_fold_delete_L _ _ id q m); [|intros; lia|done].
  rewrite (map_fold_delete_L _ _ id q' (<[id:=q']> m)); [|intros; lia|by rewrite lookup_insert_eq].
  rewrite delete_insert_eq. lia.
Qed.

Lemma lookup_queues n id : queues n !! id = cn_send_buffer <$> connection n id.
Proof. apply lookup_fmap. Qed.

Lemma queues_update n id f :
  (∀ c, connection n id = Some c → cn_send_buffer (f c) = cn_send_buffer c) → queues (update id f n) = queues n.
Proof.
  intros Hf. apply map_eq. intros q. rewrite !lookup_queues, connection_update. case_decide; [subst|done].
  destruct (connection n q) eqn:E; [|done]. cbn. by rewrite Hf.
Qed.

Lemma queues_change n id f c :
  connection n id = Some c → queues (update id f n) = <[id := cn_send_buffer (f c)]> (queues n).
Proof.
  intros Hc. apply map_eq. intros q. rewrite lookup_queues, connection_update. case_decide; subst.
  - by rewrite lookup_insert_eq, Hc.
  - by rewrite lookup_insert_ne, lookup_queues.
Qed.

Lemma queues_take x n : queues (take_waiter x n) = queues n.
Proof. unfold take_waiter. by case_bool_decide. Qed.
Lemma actions_take x n : nw_actions (take_waiter x n) = nw_actions n.
Proof. unfold take_waiter. by case_bool_decide. Qed.

Lemma queues_simnet n n' : simnet n n' → queues n' = queues n.
Proof.
  intros (_ & _ & Hs). apply map_eq. intros q. rewrite !lookup_queues. specialize (Hs q).
  destruct (connection n q), (connection n' q); cbn; try done. by rewrite (si_queue _ _ Hs).
Qed.

(** A handler that leaves queues and agenda alone. *)
Definition silent n n' : Prop := queues n' = queues n ∧ nw_actions n' = nw_actions n.

Lemma silent_refl n : silent n n.
Proof. done. Qed.
Lemma silent_trans n1 n2 n3 : silent n1 n2 → silent n2 n3 → silent n1 n3.
Proof. intros [] []. split; congruence. Qed.
Lemma silent_update n id f :
  (∀ c, cn_send_buffer (f c) = cn_send_buffer c) → silent n (update id f n).
Proof. intros Hf. split; [|done]. by apply queues_update. Qed.
Lemma silent_take x n n' : silent n n' → silent n (take_waiter x n').
Proof. intros []. split; [by rewrite queues_take|by rewrite actions_take]. Qed.

Lemma silent_release n id k n' : release_window id k n = Some n' → silent n n'.
Proof.
  unfold release_window. destruct (k =? 0); [by intros [= <-]|]. destruct (connection n id); [|by intros [= <-]].
  destruct (release _ _); cbn; [|done]. intros [= <-]. by apply silent_take, silent_update.
Qed.

Lemma silent_land n flips sender payload n' : land flips sender payload n = Some n' → silent n n'.
Proof.
  unfold land. destruct (connection n sender) as [c|]; [|by intros [= <-]]. case_match; [by intros [= <-]|].
  destruct payload.
  - destruct (cn_paired c); [|apply silent_release]. case_match; [|apply silent_release]. intros [= <-].
    by apply silent_take, silent_update.
  - destruct (cn_paired c); [|by intros [= <-]]. case_match; intros [= <-]; [|done]. by apply silent_take, silent_update.
Qed.

Lemma silent_hold now n id : silent n (hold_in_flight now n id).
Proof.
  unfold hold_in_flight. destruct (connection n id) as [c|]; [|done]. destruct (cn_held_since c); [done|].
  destruct (cn_in_flight c); [done|]. by apply silent_update.
Qed.

Lemma silent_deliver fuel flips sender now n n' :
  deliver_loop fuel flips sender now n = Some n' → silent n n'.
Proof.
  revert n. induction fuel as [|fuel IH]; intros n; cbn [deliver_loop]; [by intros [= <-]|].
  destruct (connection n sender) as [c|]; [|by intros [= <-]].
  destruct (cn_held_since c); [by intros [= <-]|]. destruct (cn_in_flight c) as [|i rest]; [by intros [= <-]|].
  destruct (now <? _); [by intros [= <-]|]. destruct (is_cut _ _ _); [intros [= <-]; apply silent_hold|].
  destruct (land _ _ _ _) as [n1|] eqn:E; cbn; [|done]. intros E2. eapply silent_trans; [|by apply IH].
  eapply silent_trans; [|by eapply silent_land]. by apply silent_update.
Qed.

(** A handler that leaves the queues alone and schedules events that weigh at
    most [k], none of which clears a partition. *)
Definition schedules (k : nat) n n' : Prop :=
  queues n' = queues n ∧
  ∃ evs, nw_actions n' = nw_actions n ++ evs ∧ clears evs = 0%nat ∧ (agenda_load evs ≤ k)%nat.

Lemma clears_app a b : clears (a ++ b) = (clears a + clears b)%nat.
Proof. unfold clears. by rewrite filter_app, length_app. Qed.
Lemma agenda_load_app a b : agenda_load (a ++ b) = (agenda_load a + agenda_load b)%nat.
Proof. unfold agenda_load. by rewrite fmap_app, sum_list_with_app. Qed.

Lemma clears_cons x ag : clears (x :: ag) = ((if is_clear x then 1 else 0) + clears ag)%nat.
Proof. unfold clears. rewrite filter_cons. destruct (is_clear x); [by rewrite decide_True|by rewrite decide_False]. Qed.
Lemma agenda_load_cons x ag : agenda_load (x :: ag) = (weight x + agenda_load ag)%nat.
Proof. done. Qed.

Lemma schedules_silent n n' k : silent n n' → schedules k n n'.
Proof. intros [E1 E2]. split; [done|]. exists []. rewrite app_nil_r. split_and!; [done..|cbn; lia]. Qed.

Lemma schedules_trans k1 k2 n1 n2 n3 :
  schedules k1 n1 n2 → schedules k2 n2 n3 → schedules (k1 + k2) n1 n3.
Proof.
  intros [A (e1 & A1 & A2 & A3)] [B (e2 & B1 & B2 & B3)]. split; [congruence|].
  exists (e1 ++ e2). rewrite B1, A1, app_assoc, clears_app, agenda_load_app. split_and!; [done|lia|lia].
Qed.

Lemma schedules_le k k' n n' : (k ≤ k')%nat → schedules k n n' → schedules k' n n'.
Proof. intros Hk [A (e & A1 & A2 & A3)]. split; [done|]. exists e. split_and!; [done..|lia]. Qed.

Lemma schedules_one t e n n' :
  silent n n' → is_clear (t, e) = false → schedules (weight (t, e)) n (schedule t e n').
Proof.
  intros [E1 E2] Hc. split; [done|]. exists [(t, e)]. cbn. rewrite E2. split_and!; [done| |cbn; lia].
  unfold clears. cbn. by rewrite decide_False by (by rewrite Hc).
Qed.

Lemma schedules_put id payload t now n : schedules 1 n (put_in_flight id payload t now n).
Proof.
  unfold put_in_flight. destruct (connection n id) as [c|]; [|by apply schedules_silent].
  apply (schedules_one _ (Delivery id (cn_next_seq c))); [|done]. by apply silent_update.
Qed.

Lemma schedules_idle id now n :
  schedules 1 n (finish_close id now (update id (flag (set_send_in_progress false)) n)).
Proof.
  set (n1 := update id _ n). assert (silent n n1) as Hs by by apply silent_update.
  unfold finish_close. destruct (connection n1 id) as [c|]; [|by apply schedules_silent].
  case_match; [|by apply schedules_silent]. unfold put_fin_in_flight.
  assert (silent n (update id (flag (set_graceful_close_pending false)) n1)) as Hs2
    by (eapply silent_trans; [done|]; by apply silent_update).
  destruct (paired _ _); [|by apply schedules_silent].
  apply (schedules_trans 0 1 n _ _ (schedules_silent _ _ 0 Hs2)). apply schedules_put.
Qed.

Lemma queue_load_cons k q : queue_load (k :: q) = (2 * length (ck_data k) + 2 + queue_load q)%nat.
Proof. done. Qed.

Lemma cut_chunk_less pm partial data rest :
  1 ≤ pm → (cut_chunk pm partial data).2 = Some rest → (length rest < length data)%nat.
Proof.
  intros Hpm. unfold cut_chunk. destruct partial as [draw|]; [|done].
  destruct (Z.eqb_spec (len data) 0); [done|]. case_match eqn:Ht; [|done]. cbn. intros [= <-].
  pose proof (len_nonneg data). pose proof (Z.mod_pos_bound draw (Z.min (len data) pm) ltac:(lia)).
  apply Z.ltb_lt in Ht. assert (len (slice data (1 + draw `mod` (len data `min` pm)) (len data)) < len data) as Hlt.
  { rewrite len_slice by lia. lia. }
  revert Hlt. generalize (slice data (1 + draw `mod` (len data `min` pm)) (len data)).
  intros l Hlt. unfold len in Hlt. lia.
Qed.

(** A send event takes more from the queue than it adds to the agenda. *)
Lemma normal_send_load pm (d : SendDraws) id now n :
  1 ≤ pm → let n' := handle_normal_send pm d id now n in
  dom (queues n') = dom (queues n) ∧
  ∃ evs, nw_actions n' = nw_actions n ++ evs ∧ clears evs = 0%nat ∧
    (total_load (queues n') + agenda_load evs < total_load (queues n) + 2)%nat.
Proof.
  intros Hpm. cbv zeta. unfold handle_normal_send. destruct (connection n id) as [c|] eqn:Hc; last first.
  { split; [done|]. exists []. rewrite app_nil_r. split_and!; [done..|cbn; lia]. }
  assert (queues n !! id = Some (cn_send_buffer c)) as Hq by (rewrite lookup_queues, Hc; done).
  destruct (cn_send_buffer c) as [|chunk queue] eqn:Eq.
  { destruct (schedules_idle id now n) as [E (evs & A1 & A2 & A3)]. rewrite E. split; [done|].
    exists evs. split_and!; [done..|lia]. }
  pose proof (cut_chunk_less pm (sd_partial d) (ck_data chunk)) as Hless.
  destruct (cut_chunk _ _ _) as [data rest]. cbn in Hless.
  set (queue2 := match rest with Some _ => _ | None => _ end).
  assert (queue_load queue2 + 2 ≤ queue_load (chunk :: queue))%nat as Hload.
  { subst queue2. destruct rest as [rest|]; rewrite !queue_load_cons; cbn; [|lia].
    pose proof (Hless rest Hpm eq_refl). lia. }
  set (n1 := update id (with_queue queue2) n).
  assert (queues n1 = <[id := queue2]> (queues n)) as E1
    by exact (queues_change n id (with_queue queue2) c Hc).
  pose proof (total_load_insert _ _ _ queue2 Hq) as Ht.
  assert (dom (<[id := queue2]> (queues n)) = dom (queues n)) as Hd.
  { apply dom_insert_lookup_L. eauto. }
  set (n2 := match cn_paired c with Some _ => _ | None => _ end).
  assert (schedules 1 n1 n2) as S2.
  { subst n2. destruct (cn_paired c); [apply schedules_put|by apply schedules_silent]. }
  assert (∀ k n3, (k ≤ 2)%nat → schedules k n2 n3 →
            dom (queues n3) = dom (queues n) ∧
            ∃ evs, nw_actions n3 = nw_actions n ++ evs ∧ clears evs = 0%nat ∧
              (total_load (queues n3) + agenda_load evs < total_load (queues n) + 2)%nat) as Hend.
  { intros k n3 Hk S3. destruct (schedules_trans _ _ _ _ _ S2 S3) as [E (evs & A1 & A2 & A3)].
    rewrite E, E1. split; [done|]. exists evs. split_and!; [done..|]. lia. }
  destruct queue2.
  - apply (Hend 1%nat); [lia|]. apply schedules_idle.
  - apply (Hend 2%nat); [lia|]. by apply (schedules_one now (ProcessSendBuffer id)).
Qed.

Lemma queue_load_nil : queue_load [] = 0%nat.
Proof. done. Qed.

Lemma process_load pm (d : SendDraws) id now n n' :
  1 ≤ pm → handle_process_send_buffer pm d id now n = Some n' →
  dom (queues n') = dom (queues n) ∧
  ∃ evs, nw_actions n' = nw_actions n ++ evs ∧ clears evs = 0%nat ∧
    (total_load (queues n') + agenda_load evs < total_load (queues n) + 2)%nat.
Proof.
  intros Hpm. assert (∀ n n', silent n n' → dom (queues n') = dom (queues n) ∧
    ∃ evs, nw_actions n' = nw_actions n ++ evs ∧ clears evs = 0%nat ∧
      (total_load (queues n') + agenda_load evs < total_load (queues n) + 2)%nat) as Hsil.
  { intros m m' [E1 E2]. rewrite E1. split; [done|]. exists []. rewrite app_nil_r. split_and!; [done..|cbn; lia]. }
  unfold handle_process_send_buffer. destruct (connection n id) as [c|] eqn:Hc; last first.
  { intros [= <-]. by apply Hsil, silent_take. }
  destruct (_ && _).
  - unfold discard_send_queue. rewrite Hc. destruct (release _ _) as [win|]; cbn [mbind option_bind]; [|done].
    intros [= <-]. rewrite queues_take, actions_take. rewrite queues_update by done.
    rewrite (queues_change n id (with_window win ∘ with_queue []) c Hc).
    assert (queues n !! id = Some (cn_send_buffer c)) as Hq by (rewrite lookup_queues, Hc; done).
    pose proof (total_load_insert _ _ _ [] Hq) as Ht. rewrite queue_load_nil in Ht. cbn [compose cn_send_buffer with_window with_queue].
    split; [apply dom_insert_lookup_L; eauto|]. exists []. rewrite app_nil_r. split_and!; [done..|cbn; lia].
  - destruct (cn_send_buffer c); [intros [= <-]; by apply normal_send_load|].
    destruct (is_cut n id now); intros [= <-]; [by apply Hsil, silent_update|by apply normal_send_load].
Qed.

Lemma schedules_foldl {A} (f : Net IP → A → Net IP) (l : list A) n :
  (∀ n x, ∃ k, schedules k n (f n x)) → ∃ k, schedules k n (foldl f n l).
Proof.
  intros Hf. revert n. induction l as [|x l IH]; intros n; cbn; [by exists 0%nat; apply schedules_silent|].
  destruct (Hf n x) as [k1 S1], (IH (f n x)) as [k2 S2]. exists (k1 + k2)%nat. by eapply schedules_trans.
Qed.

Lemma schedules_thaw now n id : ∃ k, schedules k n (thaw now n id).
Proof.
  destruct (connection n id) as [c|] eqn:Hc; last first.
  { exists 0%nat. apply schedules_silent. unfold thaw. by rewrite Hc. }
  destruct (thaw_spec now n id c Hc) as (E1 & _ & _). exists (agenda_load (thaw_events now id c)).
  split; [apply queues_simnet, simnet_thaw|]. exists (thaw_events now id c). split_and!; [done| |lia].
  unfold thaw_events, clears. destruct (cn_held_since c); [|done]. generalize (shifted (sat_sub now z) (cn_in_flight c)).
  intros f. induction f as [|i f IH]; [done|]. cbn. by rewrite decide_False.
Qed.

Lemma schedules_resume now n : ∃ k, schedules k n (resume_after_heal now n).
Proof.
  unfold resume_after_heal, release_held_in_flight.
  set (l1 := filter _ (conn_ids n)). destruct (schedules_foldl (thaw now) l1 n) as [k1 S1].
  { intros. apply schedules_thaw. }
  set (n1 := foldl (thaw now) n l1) in *. set (l2 := filter _ (conn_ids n1)).
  destruct (schedules_foldl (unstall now) l2 n1) as [k2 S2].
  { intros m x. exists 2%nat. apply (schedules_one now (ProcessSendBuffer x)); [|done]. by apply silent_update. }
  exists (k1 + k2)%nat. by eapply schedules_trans.
Qed.

Lemma event_load (d : EventDraws) t e n n' :
  1 ≤ ed_partial_max d → handle_event d e t n = Some n' →
  dom (queues n') = dom (queues n) ∧
  ∃ evs, nw_actions n' = nw_actions n ++ evs ∧ clears evs = 0%nat ∧
    (is_clear (t, e) = false →
     (total_load (queues n') + agenda_load evs < total_load (queues n) + weight (t, e))%nat).
Proof.
  intros Hpm. assert (∀ n', silent n n' → dom (queues n') = dom (queues n) ∧
    ∃ evs, nw_actions n' = nw_actions n ++ evs ∧ clears evs = 0%nat ∧
    (is_clear (t, e) = false →
     (total_load (queues n') + agenda_load evs < total_load (queues n) + weight (t, e))%nat)) as Hsil.
  { intros m' [E1 E2]. rewrite E1, E2. split; [done|]. exists []. rewrite app_nil_r. split_and!; [done..|].
    intros _. assert (1 ≤ weight (t, e))%nat by (destruct e; cbn; lia). cbn in *. lia. }
  assert (∀ m, queues m = queues n → nw_actions m = nw_actions n → is_clear (t, e) = true →
    dom (queues (resume_after_heal t m)) = dom (queues n) ∧
    ∃ evs, nw_actions (resume_after_heal t m) = nw_actions n ++ evs ∧ clears evs = 0%nat ∧
    (is_clear (t, e) = false →
     (total_load (queues (resume_after_heal t m)) + agenda_load evs < total_load (queues n) + weight (t, e))%nat)) as Hheal.
  { intros m E1 E2 Hc. destruct (schedules_resume t m) as (k & E & evs & A1 & A2 & A3).
    rewrite E, E1. split; [done|]. exists evs. rewrite A1, E2, Hc. done. }
  destruct e as [|id D|id D|D|D|D|id s|id]; cbn [handle_event].
  - intros [= <-]. by apply Hsil.
  - intros [= <-]. apply Hsil. repeat case_match; try done. by apply silent_take.
  - intros [= <-]. apply Hsil. repeat case_match; try done. by apply silent_take.
  - intros [= <-]. by apply Hheal.
  - intros [= <-]. by apply Hheal.
  - intros [= <-]. by apply Hheal.
  - intros E. eapply Hsil, silent_deliver, E.
  - intros E. destruct (process_load _ _ _ _ _ _ Hpm E) as (A & evs & A1 & A2 & A3).
    split; [done|]. exists evs. done.
Qed.

(** ** The events of a world, one after the other *)

(** The event loop once no more random faults arrive: each turn handles one
    event.  The engine's [before_event] also starts the random partitions and
    clogs whose arrival time has passed; a run may have any number of them
    ([NPartition], [NClogWrite], ... of [NetOp]) before it drains, and none while
    it does: arrivals that never stop schedule events for ever. *)
Fixpoint drain_run (fuel : nat) (pick : World IP → nat * EventDraws) w : option (World IP) :=
  match fuel, wd_agenda w with
  | O, _ | _, [] => Some w
  | S fuel, _ => w ← world_exec (NEvent (pick w).1 (pick w).2) w; drain_run fuel pick w
  end.

(** A scheduler: it picks an event of the agenda, and the draws are those a
    configuration allows. *)
Definition scheduler (pick : World IP → nat * EventDraws) : Prop :=
  ∀ w, wd_agenda w ≠ [] → ((pick w).1 < length (wd_agenda w))%nat ∧ permitted (NEvent (IP := IP) (pick w).1 (pick w).2).

(** Between events: the agenda has all there is to do. *)
Definition settled w : Prop := nw_actions (wd_net w) = [].

Lemma settled_exec o w w' : settled w → world_exec o w = Some w' → settled w'.
Proof.
  intros Hs. destruct o; cbn [world_exec]; try (by intros [= <-]).
  - destruct (poll_write _ _ _ _ _) as [[? []]|]; cbn; by intros [= <-].
  - destruct (poll_read _ _ _ _ _ _) as [[[??]?]|]; cbn; by intros [= <-].
  - destruct (close_graceful _ _ _); cbn; by intros [= <-].
  - destruct (drop_stream _ _ _); cbn; by intros [= <-].
  - destruct (close_aborted _ _); cbn; by intros [= <-].
  - destruct (close_asymmetric _ _ _ _); cbn; by intros [= <-].
  - destruct (wd_agenda w !! index) as [[t e]|]; [|by intros [= <-]].
    destruct (handle_event _ _ _ _); cbn; by intros [= <-].
Qed.

(** One event: less to do, the same ghosts and connections. *)
Lemma event_progress w i (d : EventDraws) :
  world_live w → settled w → (i < length (wd_agenda w))%nat → permitted (NEvent (IP := IP) i d) →
  ∃ w', world_exec (NEvent i d) w = Some w' ∧ world_live w' ∧ settled w' ∧
    wd_written w' = wd_written w ∧ wd_read w' = wd_read w ∧ wd_lossy w' = wd_lossy w ∧
    dom (nw_connections (wd_net w')) = dom (nw_connections (wd_net w)) ∧
    (clears (wd_agenda w') < clears (wd_agenda w) ∨
     clears (wd_agenda w') = clears (wd_agenda w) ∧
     total_load (queues (wd_net w')) + agenda_load (wd_agenda w') <
     total_load (queues (wd_net w)) + agenda_load (wd_agenda w))%nat.
Proof.
  intros [Hok Hl] Hs Hi Hp. destruct (world_step (NEvent i d) w Hp Hok) as (w' & E & Hok').
  pose proof (live_op _ _ _ Hok Hl E) as Hl'. pose proof (settled_exec _ _ _ Hs E) as Hs'.
  exists w'. split; [done|]. split; [by split|]. split; [done|].
  cbn [world_exec] in E. destruct (wd_agenda w !! i) as [[t e]|] eqn:Ei; [|apply lookup_ge_None in Ei; lia].
  destruct (handle_event d e t (wd_net w)) as [n'|] eqn:Eh; cbn [mbind option_bind] in E; [|done].
  injection E as <-. destruct Hp as [Hpm _].
  destruct (event_load d t e _ _ Hpm Eh) as (Hd & evs & A1 & A2 & A3).
  unfold settled in Hs. rewrite Hs in A1. cbn in A1. cbn [after wd_written wd_read wd_lossy wd_net wd_agenda drain nw_connections].
  split_and!; try done.
  { unfold queues in Hd. by rewrite !dom_fmap_L in Hd. }
  rewrite A1, clears_app, agenda_load_app, A2.
  assert (clears (wd_agenda w) = clears ((t, e) :: delete i (wd_agenda w)) ∧
          agenda_load (wd_agenda w) = agenda_load ((t, e) :: delete i (wd_agenda w))) as [F1 F2].
  { split.
    - unfold clears. by rewrite (delete_Permutation _ _ _ Ei) at 1.
    - unfold agenda_load. by rewrite (delete_Permutation _ _ _ Ei) at 1. }
  rewrite F1, F2, clears_cons, agenda_load_cons. change (queues (drain n')) with (queues n').
  destruct (is_clear (t, e)); [left; lia|]. right. specialize (A3 eq_refl). lia.
Qed.

Lemma drain_run_ends pick w :
  scheduler pick → world_live w → settled w →
  ∃ fuel v, drain_run fuel pick w = Some v ∧ wd_agenda v = [] ∧ world_live v ∧ settled v ∧
    wd_written v = wd_written w ∧ wd_read v = wd_read w ∧ wd_lossy v = wd_lossy w ∧
    dom (nw_connections (wd_net v)) = dom (nw_connections (wd_net w)).
Proof.
  intros Hpick. remember (clears (wd_agenda w)) as a eqn:Ea.
  remember (total_load (queues (wd_net w)) + agenda_load (wd_agenda w))%nat as b eqn:Eb.
  revert b w Ea Eb. induction a as [a IHa] using lt_wf_ind. intros b.
  induction b as [b IHb] using lt_wf_ind. intros w Ea Eb Hl Hs.
  destruct (wd_agenda w) as [|x ag] eqn:Hag.
  { exists 0%nat, w. split_and!; done. }
  destruct (Hpick w) as [Hi Hp]; [by rewrite Hag|].
  destruct (event_progress w _ _ Hl Hs Hi Hp) as (w1 & E & Hl1 & Hs1 & G1 & G2 & G3 & G4 & Hm).
  assert (∃ fuel v, drain_run fuel pick w1 = Some v ∧ wd_agenda v = [] ∧ world_live v ∧ settled v ∧
    wd_written v = wd_written w1 ∧ wd_read v = wd_read w1 ∧ wd_lossy v = wd_lossy w1 ∧
    dom (nw_connections (wd_net v)) = dom (nw_connections (wd_net w1))) as (fuel & v & R & V1 & V2 & V3 & V4 & V5 & V6 & V7).
  { rewrite Hag in Hm. rewrite <- Ea in Hm. rewrite <- Eb in Hm. destruct Hm as [Hm|[Hm1 Hm2]].
    - by eapply (IHa _ Hm).
    - by eapply (IHb _ Hm2). }
  exists (S fuel), v. split_and!; try done; try congruence. cbn [drain_run]. rewrite Hag, E. exact R.
Qed.

(** C16: once its random faults stop, the simulated network comes to rest.
    Take any state a run reaches, random partitions, clogs and closes
    included, in which no bit of a delivery was flipped, and process its
    events with no further random partition or clog arriving (the arrivals
    of [before_event]) and no bit flipped.  Whatever order the events are
    picked in and whatever else is drawn, they run out: every partition heals,
    every held packet thaws, every queue empties.  Then nothing is queued or
    in flight; on a direction nothing was allowed to cut, everything written
    has been read or waits in the reader's buffer; and if its writer shut it
    down, the reader knows. *)
Theorem network_comes_to_rest (ops : list (NetOp IP)) pick w :
  Forall permitted ops → scheduler pick → world_run ops World_new = Some w →
  ∃ fuel v, drain_run fuel pick w = Some v ∧ wd_agenda v = [] ∧
    wd_written v = wd_written w ∧ wd_read v = wd_read w ∧
    dom (nw_connections (wd_net v)) = dom (nw_connections (wd_net w)) ∧
    ∀ id c, connection (wd_net v) id = Some c →
      cn_send_buffer c = [] ∧ cn_in_flight c = [] ∧
      ∃ p r, cn_paired c = Some p ∧ connection (wd_net v) p = Some r ∧
        (id ∉ wd_lossy w →
         bytes_of (wd_written w) id = bytes_of (wd_read w) p ++ cn_receive_buffer r ∧
         (fl_send_closed (cn_flags c) = true → fl_remote_fin_received (cn_flags r) = true)).
Proof.
  intros Hp Hpick E. pose proof (live_runs ops _ w Hp live_new E) as Hl.
  assert (settled w) as Hs.
  { clear -E. revert E. generalize (World_new : World IP) (eq_refl : nw_actions (wd_net (World_new : World IP)) = []).
    induction ops as [|o ops IH]; intros w0 H0; cbn; [by intros [= <-]|].
    destruct (world_exec o w0) as [w1|] eqn:E1; cbn; [|done]. apply IH. by eapply settled_exec. }
  destruct (drain_run_ends pick w Hpick Hl Hs) as (fuel & v & R & V1 & V2 & V3 & V4 & V5 & V6 & V7).
  exists fuel, v. split_and!; try done. intros id c Hc.
  destruct (at_rest v id c V2 V1 V3 Hc) as (Q1 & Q2 & Q3). split_and!; try done.
  destruct (net_ok_peer v id c (wl_ok _ V2) Hc) as (p & r & A1 & A2 & A3 & A4 & D & _).
  exists p, r. split_and!; try done. intros Hlossy.
  assert (gh_lossy (ghost v id p) = false) as Hg by (cbn; rewrite V6; by rewrite bool_decide_eq_false).
  destruct (do_faithful _ _ _ D Hg) as [Hh Hr]. split.
  - rewrite <- V4, <- V5. symmetry. etrans; [|apply (do_exact _ _ _ D Hh Hr); auto].
    unfold pipe, flying, queued. by rewrite Q1, Q2, !app_nil_r.
  - intros Hsc. destruct (do_fin _ _ _ D Hg) as [Hx|[Hx|Hx]]; [unfold sending; by rewrite Hsc|congruence| |done].
    rewrite Q2 in Hx. by apply elem_of_nil in Hx.
Qed.
End Quiet.
