(* ===== verification/Sectors.v ===== *)
(** Sets of sectors of the simulated disk, as words of bits
    (moonpool-sim/src/storage/image.rs, [SectorBitSet]; sector arithmetic of
    storage/faults.rs). *)
From stdpp Require Import base list numbers.
From S2P Require Import Prelude.

Definition SECTOR_SIZE : Z := 512.

(** The sectors [offset .. offset + length] touches, as a list. *)
Definition sector_range (offset length : Z) : list Z :=
  let first := offset / SECTOR_SIZE in
  seqZ first (div_ceil (offset + length) SECTOR_SIZE - first).

Record SectorBitSet := mkSectorBitSet {
  sb_bits : list Z;
  sb_len : Z;
}.

Definition bits_new (num_sectors : Z) : SectorBitSet :=
  mkSectorBitSet (repeatZ (div_ceil num_sectors 64) 0) num_sectors.

Definition word_of (sector : Z) : nat := Z.to_nat (sector / 64).
Definition bit_of (sector : Z) : Z := Z.shiftl 1 (sector mod 64).

Definition bits_set (sector : Z) (b : SectorBitSet) : SectorBitSet :=
  if sector <? sb_len b
  then mkSectorBitSet (alter (λ w, Z.lor w (bit_of sector)) (word_of sector) (sb_bits b)) (sb_len b)
  else b.

(** [&= !(..)]: the other 63 bits of the word stay. *)
Definition bits_clear (sector : Z) (b : SectorBitSet) : SectorBitSet :=
  if sector <? sb_len b
  then mkSectorBitSet
         (alter (λ w, Z.land w (2 ^ 64 - 1 - bit_of sector)) (word_of sector) (sb_bits b)) (sb_len b)
  else b.

Definition is_set (b : SectorBitSet) (sector : Z) : bool :=
  (sector <? sb_len b) &&
  negb (Z.land (nth (word_of sector) (sb_bits b) 0) (bit_of sector) =? 0).

Definition any_in (b : SectorBitSet) (sectors : list Z) : bool := existsb (is_set b) sectors.

Definition clear_all (b : SectorBitSet) : SectorBitSet :=
  mkSectorBitSet ((λ _, 0) <$> sb_bits b) (sb_len b).

Definition resized (b : SectorBitSet) (new_len : Z) : SectorBitSet :=
  foldl (λ r s, if is_set b s then bits_set s r else r) (bits_new new_len)
    (seqZ 0 (Z.min (sb_len b) new_len)).

(** ** The set a word list stands for *)

Definition bits_wf (b : SectorBitSet) : Prop :=
  0 ≤ sb_len b ∧ Z.of_nat (length (sb_bits b)) = div_ceil (sb_len b) 64 ∧
  Forall (λ w, 0 ≤ w < 2 ^ 64) (sb_bits b).

Lemma testbit_is_set b s :
  0 ≤ s → is_set b s = (s <? sb_len b) && Z.testbit (nth (word_of s) (sb_bits b) 0) (s mod 64).
Proof.
  intros Hs. unfold is_set, bit_of. f_equal. set (w := nth _ _ _). set (k := s mod 64).
  assert (0 ≤ k) as Hk by (apply Z.mod_pos_bound; lia). rewrite Z.shiftl_1_l.
  destruct (Z.testbit w k) eqn:E.
  - apply negb_true_iff, Z.eqb_neq. intros H0.
    assert (Z.testbit (Z.land w (2 ^ k)) k = true) as H1.
    { rewrite Z.land_spec, E, Z.pow2_bits_true by done. done. }
    rewrite H0, Z.bits_0 in H1. done.
  - apply negb_false_iff, Z.eqb_eq. apply Z.bits_inj'. intros n Hn.
    rewrite Z.land_spec, Z.bits_0. destruct (decide (n = k)) as [->|]; [by rewrite E|].
    by rewrite Z.pow2_bits_false, andb_false_r by lia.
Qed.

Lemma nth_alter (f : Z → Z) l i j :
  nth j (alter f i l) 0 = if decide (i = j ∧ (i < length l)%nat) then f (nth j l 0) else nth j l 0.
Proof.
  rewrite !nth_lookup. case_decide as Hd.
  - destruct Hd as [-> Hj]. rewrite list_lookup_alter_eq.
    destruct (lookup_lt_is_Some_2 l j Hj) as [x ->]. done.
  - destruct (decide (i = j)) as [->|]; [|by rewrite list_lookup_alter_ne].
    rewrite list_lookup_alter_eq. rewrite lookup_ge_None_2 by lia. done.
Qed.

Lemma word_in_range b s : bits_wf b → 0 ≤ s < sb_len b → (word_of s < length (sb_bits b))%nat.
Proof.
  intros (Hl & Hb & _) Hs. unfold word_of, div_ceil in *.
  apply Nat2Z.inj_lt. rewrite Z2Nat.id by (apply Z.div_pos; lia). rewrite Hb.
  pose proof (Z.div_mod s 64). pose proof (Z.mod_pos_bound s 64).
  pose proof (Z.div_mod (sb_len b + 64 - 1) 64). pose proof (Z.mod_pos_bound (sb_len b + 64 - 1) 64).
  lia.
Qed.

(** Two sectors share a bit only if they are the same. *)
Lemma word_bit_inj s t :
  0 ≤ s → 0 ≤ t → word_of s = word_of t → s mod 64 = t mod 64 → s = t.
Proof.
  unfold word_of. intros Hs Ht E1 E2. pose proof (Z.div_mod s 64). pose proof (Z.div_mod t 64).
  pose proof (Z.div_pos s 64). pose proof (Z.div_pos t 64). lia.
Qed.

Lemma is_set_set b s t :
  bits_wf b → 0 ≤ s → 0 ≤ t →
  is_set (bits_set s b) t = bool_decide (s = t ∧ t < sb_len b) || is_set b t.
Proof.
  intros Hb Hs Ht. unfold bits_set. destruct (Z.ltb_spec s (sb_len b)) as [Hl|Hl].
  2:{ rewrite bool_decide_false by lia. done. }
  rewrite !testbit_is_set by done. cbn [sb_len sb_bits]. rewrite nth_alter.
  pose proof (word_in_range b s Hb ltac:(lia)) as Hw.
  destruct (Z.ltb_spec t (sb_len b)) as [Htl|Htl]; cbn [andb].
  2:{ rewrite bool_decide_false by lia. done. }
  case_decide as Hd.
  - destruct Hd as [Ew _]. unfold bit_of. rewrite Z.lor_spec, Z.shiftl_1_l.
    destruct (decide (s = t)) as [->|Hne].
    + rewrite Z.pow2_bits_true by (apply Z.mod_pos_bound; lia).
      rewrite bool_decide_true by done. by rewrite orb_true_r.
    + rewrite Z.pow2_bits_false; [|intros E; by apply Hne, word_bit_inj].
      rewrite bool_decide_false by tauto. by rewrite orb_false_r.
  - rewrite bool_decide_false; [done|]. intros [-> _]. by apply Hd.
Qed.

Lemma is_set_clear b s t :
  bits_wf b → 0 ≤ s → 0 ≤ t →
  is_set (bits_clear s b) t = negb (bool_decide (s = t)) && is_set b t.
Proof.
  intros Hb Hs Ht. unfold bits_clear. destruct (Z.ltb_spec s (sb_len b)) as [Hl|Hl].
  2:{ case_bool_decide; [|done]. subst. unfold is_set. by rewrite (proj2 (Z.ltb_ge _ _) Hl). }
  rewrite !testbit_is_set by done. cbn [sb_len sb_bits]. rewrite nth_alter.
  pose proof (word_in_range b s Hb ltac:(lia)) as Hw.
  destruct (Z.ltb_spec t (sb_len b)) as [Htl|Htl]; cbn [andb]; [|by rewrite andb_false_r].
  pose proof (Z.mod_pos_bound t 64). pose proof (Z.mod_pos_bound s 64).
  assert (∀ k, 0 ≤ k < 64 → Z.testbit (2 ^ 64 - 1 - bit_of s) k = negb (k =? s mod 64)) as Hm.
  { intros k Hk. unfold bit_of. rewrite Z.shiftl_1_l.
    replace (2 ^ 64 - 1) with (Z.ones 64) by done.
    assert (Z.ldiff (2 ^ (s mod 64)) (Z.ones 64) = 0) as Hd.
    { apply Z.bits_inj'. intros n Hn. rewrite Z.ldiff_spec, Z.bits_0.
      destruct (decide (n = s mod 64)) as [->|].
      - rewrite Z.ones_spec_low by lia. by rewrite andb_false_r.
      - by rewrite Z.pow2_bits_false by lia. }
    rewrite (Z.sub_nocarry_ldiff _ _ Hd), Z.ldiff_spec, Z.ones_spec_low by lia.
    destruct (Z.eqb_spec k (s mod 64)) as [->|].
    - by rewrite Z.pow2_bits_true by lia.
    - by rewrite Z.pow2_bits_false by lia. }
  case_decide as Hd.
  - destruct Hd as [Ew _]. rewrite Z.land_spec, Hm by lia. rewrite andb_comm. f_equal. f_equal.
    case_bool_decide as Hst; [by subst; rewrite Z.eqb_refl|]. apply Z.eqb_neq. intros E.
    by apply Hst, word_bit_inj.
  - case_bool_decide as Hst; [|done]. subst. by destruct Hd.
Qed.

(** ** The operations as set operations *)

Lemma div_ceil_nonneg a b : 0 ≤ a → 0 < b → 0 ≤ div_ceil a b.
Proof. intros. unfold div_ceil. apply Z.div_pos; lia. Qed.

Lemma bits_new_wf n : 0 ≤ n → bits_wf (bits_new n).
Proof.
  intros Hn. unfold bits_wf, bits_new, repeatZ. cbn. rewrite length_replicate.
  pose proof (div_ceil_nonneg n 64). split_and!; [lia..|]. apply Forall_replicate. lia.
Qed.

Lemma is_set_new n s : is_set (bits_new n) s = false.
Proof.
  unfold is_set, bits_new, repeatZ. cbn [sb_len sb_bits].
  replace (nth _ _ 0) with 0; [by rewrite Z.land_0_l, andb_false_r|].
  rewrite nth_lookup. destruct (_ !! _) as [x|] eqn:E; [|done].
  by apply lookup_replicate in E as [-> _].
Qed.

Lemma bit_of_range s : 0 ≤ bit_of s < 2 ^ 64.
Proof.
  unfold bit_of. rewrite Z.shiftl_1_l. pose proof (Z.mod_pos_bound s 64).
  split; [apply Z.pow_nonneg; lia|]. apply Z.pow_lt_mono_r; lia.
Qed.

Lemma bits_set_len s b : sb_len (bits_set s b) = sb_len b.
Proof. unfold bits_set. by case_match. Qed.
Lemma bits_clear_len s b : sb_len (bits_clear s b) = sb_len b.
Proof. unfold bits_clear. by case_match. Qed.
Lemma clear_all_len b : sb_len (clear_all b) = sb_len b.
Proof. done. Qed.

Lemma Forall_alter' (P : Z → Prop) f i l :
  Forall P l → (∀ x, P x → P (f x)) → Forall P (alter f i l).
Proof. intros H Hf. by apply Forall_alter; [|intros x _ Hx; apply Hf]. Qed.

Lemma bits_set_wf s b : bits_wf b → bits_wf (bits_set s b).
Proof.
  intros (Hl & Hb & Hw). unfold bits_set. case_match; [|done].
  split_and!; cbn; [done|by rewrite length_alter|]. apply Forall_alter'; [done|].
  intros w [Hw0 Hw1]. pose proof (bit_of_range s) as [Hb0 Hb1]. split; [by apply Z.lor_nonneg|].
  destruct (Z.eq_dec (Z.lor w (bit_of s)) 0) as [->|]; [lia|].
  apply Z.log2_lt_pow2; [pose proof (proj2 (Z.lor_nonneg w (bit_of s))); lia|].
  rewrite Z.log2_lor by done. apply Z.max_lub_lt.
  - destruct (Z.eq_dec w 0) as [->|]; [simpl; lia|]. apply Z.log2_lt_pow2; lia.
  - destruct (Z.eq_dec (bit_of s) 0) as [->|]; [simpl; lia|]. apply Z.log2_lt_pow2; lia.
Qed.

Lemma bits_clear_wf s b : bits_wf b → bits_wf (bits_clear s b).
Proof.
  intros (Hl & Hb & Hw). unfold bits_clear. case_match; [|done].
  split_and!; cbn; [done|by rewrite length_alter|]. apply Forall_alter'; [done|].
  intros w [Hw0 Hw1]. pose proof (bit_of_range s). set (m := 2 ^ 64 - 1 - bit_of s).
  assert (0 ≤ Z.land w m) by (apply Z.land_nonneg; by left). split; [done|].
  destruct (Z.eq_dec (Z.land w m) 0) as [->|]; [lia|]. apply Z.log2_lt_pow2; [lia|].
  eapply Z.le_lt_trans; [apply Z.log2_land; unfold m; lia|]. apply Z.min_lt_iff. left.
  destruct (Z.eq_dec w 0) as [->|]; [simpl; lia|]. apply Z.log2_lt_pow2; lia.
Qed.

Lemma clear_all_wf b : bits_wf b → bits_wf (clear_all b).
Proof.
  intros (Hl & Hb & Hw). split_and!; cbn; [done|by rewrite length_fmap|].
  apply Forall_fmap, Forall_true. intros. cbn. lia.
Qed.

Lemma is_set_clear_all b s : is_set (clear_all b) s = false.
Proof.
  unfold is_set. cbn. replace (nth _ _ 0) with 0; [by rewrite Z.land_0_l, andb_false_r|].
  rewrite nth_lookup, list_lookup_fmap. by destruct (_ !! _).
Qed.

Lemma is_set_lt b s : is_set b s = true → s < sb_len b.
Proof. unfold is_set. intros [H _]%andb_true_iff. lia. Qed.

Lemma bool_decide_cons (s t n : Z) l :
  bool_decide (t ∈ s :: l ∧ t < n) =
    bool_decide (t ∈ l ∧ t < n) || bool_decide (s = t ∧ t < n).
Proof.
  apply eq_bool_prop_intro. rewrite orb_True, !bool_decide_spec, elem_of_cons. naive_solver.
Qed.

(** Setting every sector of a list that [p] selects. *)
Lemma set_fold (p : Z → bool) l b :
  bits_wf b → (∀ s, s ∈ l → 0 ≤ s) →
  let r := foldl (λ r s, if p s then bits_set s r else r) b l in
  bits_wf r ∧ sb_len r = sb_len b ∧
  ∀ t, 0 ≤ t → is_set r t = bool_decide (t ∈ l ∧ t < sb_len b) && p t || is_set b t.
Proof.
  revert b. induction l as [|s l IH]; intros b Hb Hl; cbn [foldl].
  - split_and!; [done..|]. intros t _. by rewrite bool_decide_false by set_solver.
  - assert (bits_wf (if p s then bits_set s b else b)) as Hb' by (case_match; auto using bits_set_wf).
    assert (sb_len (if p s then bits_set s b else b) = sb_len b) as El
      by (case_match; auto using bits_set_len).
    destruct (IH _ Hb') as (Hw & Hn & Hs); [set_solver|]. split_and!; [done|by rewrite Hn|].
    intros t Ht. rewrite Hs by done. rewrite El.
    rewrite bool_decide_cons. destruct (decide (s = t)) as [->|Hne].
    + destruct (p t) eqn:Ep; rewrite ?andb_true_r, ?andb_false_r; [|done].
      rewrite is_set_set by done. by rewrite orb_assoc.
    + rewrite (bool_decide_false (s = t ∧ _)), orb_false_r by tauto. f_equal.
      case_match; [|done]. rewrite is_set_set; [|done|apply Hl; set_solver|done].
      by rewrite bool_decide_false by tauto.
Qed.

Lemma resized_spec b n :
  0 ≤ n → bits_wf (resized b n) ∧ sb_len (resized b n) = n ∧
  ∀ t, 0 ≤ t → is_set (resized b n) t = (t <? n) && is_set b t.
Proof.
  intros Hn. destruct (set_fold (is_set b) (seqZ 0 (Z.min (sb_len b) n)) (bits_new n))
    as (Hw & El & Hs); [by apply bits_new_wf|intros s Hs%elem_of_seqZ; lia|].
  split_and!; [done..|]. intros t Ht. unfold resized. rewrite Hs, is_set_new, orb_false_r by done.
  cbn [sb_len bits_new]. destruct (is_set b t) eqn:Et; [|by rewrite !andb_false_r].
  apply is_set_lt in Et. rewrite !andb_true_r. destruct (Z.ltb_spec t n).
  - apply bool_decide_true. rewrite elem_of_seqZ. lia.
  - apply bool_decide_false. lia.
Qed.

Lemma elem_sector_range o n s :
  0 ≤ o → 0 < n → s ∈ sector_range o n ↔ o < (s + 1) * SECTOR_SIZE ∧ s * SECTOR_SIZE < o + n.
Proof.
  intros Ho Hn. unfold sector_range, SECTOR_SIZE, div_ceil. rewrite elem_of_seqZ.
  pose proof (Z.div_mod o 512). pose proof (Z.mod_pos_bound o 512).
  pose proof (Z.div_mod (o + n + 512 - 1) 512). pose proof (Z.mod_pos_bound (o + n + 512 - 1) 512).
  lia.
Qed.
