(* ===== verification/Image.v ===== *)
(** The simulated disk's image of one file
    (moonpool-sim/src/storage/image.rs, [FileImage]; the fault vocabulary of
    storage/faults.rs).

    A file is two byte images, [fi_committed] (what the device holds) and
    [fi_visible] (what reads see), and sets of sectors that say how the two may
    differ.  [fi_oracle] stamps every sector a sync reported durable with the
    CRC of the bytes the caller was told are safe; after a crash the sweep
    compares the stamps with the device, and a mismatch no lying sync accounts
    for is a panic ([None] here).

    The random draws of a crash are an argument, [CrashDraws]: one value per
    call of [sim_random], in [Q] where the source has an [f64].  The keyed
    generator ([ChaCha8Rng]) and CRC-32C are crates: classes [KeyedRng] and
    [Crc32c].  [as_index] is the identity on the 64-bit target.  A slice index
    the code clamps to the buffer is written with the total [slice]/[splice];
    the one it does not clamp (in [write]) with [copy_from_slice]. *)

From stdpp Require Import base list numbers gmap sorting.
From Stdlib Require Import QArith Qminmax.
From S2P Require Import Prelude Names Storage Crc Sectors.
#[local] Open Scope Z_scope.

(** [rand_chacha::ChaCha8Rng], seeded by a [u64]: a sector of bytes
    ([fill]), and a byte index below a bound followed by a bit index
    ([random_range] twice). *)
Class KeyedRng := {
  rng_fill : Z → list byte;
  rng_byte_bit : Z → Z → Z * Z;
}.

Class KeyedRngLaws (R : KeyedRng) : Prop := {
  rng_fill_len seed : len (rng_fill seed) = SECTOR_SIZE;
  rng_byte_lt seed n : 0 < n → 0 ≤ (rng_byte_bit seed n).1 < n;
  rng_bit_lt seed n : 0 < n → 0 ≤ (rng_byte_bit seed n).2 < 8;
}.

(** ** Fault vocabulary (faults.rs) *)

Inductive EioTarget := EioRead | EioWrite | EioReadWrite.

Inductive CrashOutcome := KeptOld | KeptNew | Lost | LatentFault | Shorn.

#[global] Instance CrashOutcome_eq_dec : EqDecision CrashOutcome.
Proof. solve_decision. Defined.

Record SectorResolution := mkResolution {
  sr_sector : Z;
  sr_outcome : CrashOutcome;
  sr_correlated : bool;
}.

Record FileCrashReport := mkReport {
  cr_path : str;
  cr_was_clean : bool;
  cr_resolutions : list SectorResolution;
  cr_length_reverted : bool;
  cr_lost_synced : list Z;
}.

(** [weighted]: a probability scaled by a focus weight, still a probability *)
Definition weighted (probability weight : Q) : Q := Qmin (probability * weight)%Q 1%Q.

Definition Qltb (a b : Q) : bool := negb (Qle_bool b a).

(** The fields of [StorageConfiguration] the image reads. *)
Record StorageConfiguration := mkStorageConfiguration {
  barrier_violation_probability : Q;
  length_survives_crash_probability : Q;
  clean_crash_probability : Q;
  correlated_rollback_probability : Q;
  correlated_rollback_max_run : Z;
  crash_lost_probability : Q;
  crash_latent_fault_probability : Q;
  shorn_write_probability : Q;
}.

(** [f64::EPSILON] *)
Definition F64_EPSILON : Q := 1 # 4503599627370496.

(** The draws of one crash, in the order the code makes them: the length, the
    clean crash, the correlated window (roll, anchor index, run), then per
    dirty sector the outcome roll, the split and its side.  An integer draw is
    reduced into the range the code draws from. *)
Record CrashDraws := mkDraws {
  d_length : Q;
  d_clean : Q;
  d_window : Q;
  d_anchor : Z;
  d_run : Z;
  d_roll : Z → Q;
  d_split : Z → Z;
  d_prefix_new : Z → bool;
}.

(** [sim_random_range(lo..hi)] *)
Definition sim_random_range (draw lo hi : Z) : Z := lo + draw mod (hi - lo).

Section Image.
Context {R : KeyedRng} {C : Crc32c}.

(** ** Data *)

Record FillPattern := mkFillPattern {
  fp_garbage : bool;
  fp_seed : Z;
}.

(** [FillPattern::sector] *)
Definition fill_sector (f : FillPattern) (sector : Z) : list byte :=
  if fp_garbage f then rng_fill (wrap64 (fp_seed f + sector)) else zeros SECTOR_SIZE.

Record FileImage := mkFileImage {
  fi_committed : list byte;
  fi_visible : list byte;
  fi_dirty : SectorBitSet;
  fi_lied : SectorBitSet;
  fi_stranded : SectorBitSet;
  fi_faults : SectorBitSet;
  fi_eio_read : SectorBitSet;
  fi_eio_write : SectorBitSet;
  fi_damaged : SectorBitSet;
  fi_oracle : gmap Z (Z * Z);
  fi_fill : FillPattern;
}.

(** Field updates. *)
Definition with_committed (c : list byte) (m : FileImage) : FileImage :=
  mkFileImage c (fi_visible m) (fi_dirty m) (fi_lied m) (fi_stranded m) (fi_faults m)
    (fi_eio_read m) (fi_eio_write m) (fi_damaged m) (fi_oracle m) (fi_fill m).
Definition with_visible (v : list byte) (m : FileImage) : FileImage :=
  mkFileImage (fi_committed m) v (fi_dirty m) (fi_lied m) (fi_stranded m) (fi_faults m)
    (fi_eio_read m) (fi_eio_write m) (fi_damaged m) (fi_oracle m) (fi_fill m).
Definition with_dirty (b : SectorBitSet) (m : FileImage) : FileImage :=
  mkFileImage (fi_committed m) (fi_visible m) b (fi_lied m) (fi_stranded m) (fi_faults m)
    (fi_eio_read m) (fi_eio_write m) (fi_damaged m) (fi_oracle m) (fi_fill m).
Definition with_lied (b : SectorBitSet) (m : FileImage) : FileImage :=
  mkFileImage (fi_committed m) (fi_visible m) (fi_dirty m) b (fi_stranded m) (fi_faults m)
    (fi_eio_read m) (fi_eio_write m) (fi_damaged m) (fi_oracle m) (fi_fill m).
Definition with_stranded (b : SectorBitSet) (m : FileImage) : FileImage :=
  mkFileImage (fi_committed m) (fi_visible m) (fi_dirty m) (fi_lied m) b (fi_faults m)
    (fi_eio_read m) (fi_eio_write m) (fi_damaged m) (fi_oracle m) (fi_fill m).
Definition with_faulty (b : SectorBitSet) (m : FileImage) : FileImage :=
  mkFileImage (fi_committed m) (fi_visible m) (fi_dirty m) (fi_lied m) (fi_stranded m) b
    (fi_eio_read m) (fi_eio_write m) (fi_damaged m) (fi_oracle m) (fi_fill m).
Definition with_eio (r w : SectorBitSet) (m : FileImage) : FileImage :=
  mkFileImage (fi_committed m) (fi_visible m) (fi_dirty m) (fi_lied m) (fi_stranded m)
    (fi_faults m) r w (fi_damaged m) (fi_oracle m) (fi_fill m).
Definition with_damaged (b : SectorBitSet) (m : FileImage) : FileImage :=
  mkFileImage (fi_committed m) (fi_visible m) (fi_dirty m) (fi_lied m) (fi_stranded m)
    (fi_faults m) (fi_eio_read m) (fi_eio_write m) b (fi_oracle m) (fi_fill m).
Definition with_oracle (o : gmap Z (Z * Z)) (m : FileImage) : FileImage :=
  mkFileImage (fi_committed m) (fi_visible m) (fi_dirty m) (fi_lied m) (fi_stranded m)
    (fi_faults m) (fi_eio_read m) (fi_eio_write m) (fi_damaged m) o (fi_fill m).

(** ** Bounds *)

(** [clamp_sector]: a sector's byte range inside an image of [limit] bytes. *)
Definition clamp_sector (sector limit : Z) : Z * Z :=
  let start := sector * SECTOR_SIZE in
  if limit <=? start then (0, 0) else (start, Z.min (start + SECTOR_SIZE) limit).

Definition size (m : FileImage) : Z := len (fi_visible m).
Definition durable_size (m : FileImage) : Z := len (fi_committed m).
Definition sectors (m : FileImage) : Z := div_ceil (size m) SECTOR_SIZE.
Definition shared_bounds (m : FileImage) (sector : Z) : Z * Z :=
  clamp_sector sector (Z.min (len (fi_visible m)) (len (fi_committed m))).
Definition committed_bounds (m : FileImage) (sector : Z) : Z * Z :=
  clamp_sector sector (len (fi_committed m)).
Definition visible_bounds (m : FileImage) (sector : Z) : Z * Z :=
  clamp_sector sector (len (fi_visible m)).

Definition read_fails (m : FileImage) (range : list Z) : bool := any_in (fi_eio_read m) range.
Definition write_fails (m : FileImage) (range : list Z) : bool := any_in (fi_eio_write m) range.

(** ** Resizing *)

(** [Vec::resize] *)
Definition vec_resize (l : list byte) (n : Z) : list byte := resize (Z.to_nat n) x00 l.

(** One turn of [fill_extension]'s loop. *)
Definition fill_one (fill : FillPattern) (old_len new_len : Z) (image : list byte) (sector : Z)
    : list byte :=
  let start := Z.max (sector * SECTOR_SIZE) old_len in
  let end_ := Z.min ((sector + 1) * SECTOR_SIZE) new_len in
  if end_ <=? start then image
  else
    let bytes := fill_sector fill sector in
    let at_ := start - sector * SECTOR_SIZE in
    splice image start (slice bytes at_ (at_ + (end_ - start))).

Definition fill_extension (image : list byte) (old_len : Z) (fill : FillPattern) : list byte :=
  let new_len := len image in
  foldl (fill_one fill old_len new_len) image
    (seqZ (old_len / SECTOR_SIZE) (div_ceil new_len SECTOR_SIZE - old_len / SECTOR_SIZE)).

Definition resize_bitsets (n : Z) (m : FileImage) : FileImage :=
  mkFileImage (fi_committed m) (fi_visible m) (resized (fi_dirty m) n) (resized (fi_lied m) n)
    (resized (fi_stranded m) n) (resized (fi_faults m) n) (resized (fi_eio_read m) n)
    (resized (fi_eio_write m) n) (resized (fi_damaged m) n) (fi_oracle m) (fi_fill m).

(** A sector the resize made longer: dirty, and no longer stranded. *)
Definition dirty_again (m : FileImage) (sector : Z) : FileImage :=
  with_stranded (bits_clear sector (fi_stranded m)) (with_dirty (bits_set sector (fi_dirty m)) m).

Definition resize_visible (new_len : Z) (m : FileImage) : FileImage :=
  let old_len := size m in
  let m := with_visible (vec_resize (fi_visible m) new_len) m in
  let m := resize_bitsets (div_ceil new_len SECTOR_SIZE) m in
  if new_len <=? old_len then m
  else
    let m := with_visible (fill_extension (fi_visible m) old_len (fi_fill m)) m in
    foldl dirty_again m (sector_range old_len (new_len - old_len)).

Definition FileImage_new (n seed : Z) (garbage_fill : bool) : FileImage :=
  let e := bits_new 0 in
  let m := mkFileImage [] [] e e e e e e e ∅ (mkFillPattern garbage_fill seed) in
  let m := resize_visible n m in
  let m := with_committed (fi_visible m) m in
  with_dirty (clear_all (fi_dirty m)) m.

(** ** Reads *)

Definition xor_byte (mask : Z) (b : byte) : byte := Z_to_byte (Z.lxor (byte_to_Z b) mask).

(** [corrupt_in_place]: one bit of [buf], chosen by the pristine content. *)
Definition corrupt_in_place (pristine buf : list byte) : list byte :=
  if len buf =? 0 then buf
  else
    let n := Z.min (len pristine) 8 in
    let seed := from_le_bytes (splice (zeros 8) 0 (slice pristine 0 n)) in
    let '(byte, bit) := rng_byte_bit seed (len buf) in
    alter (xor_byte (Z.shiftl 1 bit)) (Z.to_nat byte) buf.

(** One turn of [read]'s loop over the sectors of the range. *)
Definition read_sector (m : FileImage) (start : Z) (buf : list byte) (sector : Z) : list byte :=
  if negb (is_set (fi_faults m) sector) then buf
  else
    let sector_start := sector * SECTOR_SIZE in
    let overlap_start := Z.max sector_start start in
    let overlap_end := Z.min (sector_start + SECTOR_SIZE) (start + len buf) in
    if overlap_end <=? overlap_start then buf
    else
      let '(a, b) := visible_bounds m sector in
      splice buf (overlap_start - start)
        (corrupt_in_place (slice (fi_visible m) a b)
           (slice buf (overlap_start - start) (overlap_end - start))).

Definition read (m : FileImage) (offset n : Z) : ErrorKind + list byte :=
  if u64_max <? offset + n then inl InvalidInput
  else if size m <? offset + n then inl InvalidInput
  else inr (foldl (read_sector m offset) (slice (fi_visible m) offset (offset + n))
              (sector_range offset n)).

(** ** Writes and truncation *)

(** One turn of [write]'s loop: the sector loses fault, lie and stamp. *)
Definition write_sector (st : FileImage * bool) (sector : Z) : FileImage * bool :=
  let '(m, healed) := st in
  (mkFileImage (fi_committed m) (fi_visible m) (bits_set sector (fi_dirty m))
     (bits_clear sector (fi_lied m)) (bits_clear sector (fi_stranded m))
     (bits_clear sector (fi_faults m)) (fi_eio_read m) (fi_eio_write m)
     (bits_clear sector (fi_damaged m)) (delete sector (fi_oracle m)) (fi_fill m),
   healed || is_set (fi_damaged m) sector).

Definition write (offset : Z) (data : list byte) (m : FileImage) : option (FileImage * bool) :=
  let end_ := Z.min (offset + len data) u64_max in
  let m := if size m <? end_ then resize_visible end_ m else m in
  v ← copy_from_slice (fi_visible m) offset data;
  Some (foldl write_sector (with_visible v m, false) (sector_range offset (len data))).

(** [narrow_tail_stamp] *)
Definition narrow_tail_stamp (new_len : Z) (m : FileImage) : FileImage :=
  let sector := new_len / SECTOR_SIZE in
  let start := sector * SECTOR_SIZE in
  let surviving := Z.max 0 (new_len - start) in
  match fi_oracle m !! sector with
  | None => m
  | Some (_, stamped_len) =>
      if stamped_len <=? surviving then m
      else
        let crc := crc32c (slice (fi_visible m) start (start + surviving)) in
        with_oracle (<[sector := (crc, surviving)]> (fi_oracle m)) m
  end.

Definition set_len (new_len : Z) (m : FileImage) : FileImage :=
  let old_len := size m in
  let old_sectors := sectors m in
  let m := resize_visible new_len m in
  let m := with_oracle
             (foldl (λ o s, delete s o) (fi_oracle m)
                (seqZ (sectors m) (old_sectors - sectors m))) m in
  if new_len <? old_len then narrow_tail_stamp new_len m else m.

(** ** Syncs and writeback *)

Definition is_flushable (m : FileImage) (sector : Z) : bool :=
  is_set (fi_dirty m) sector && negb (is_set (fi_stranded m) sector).

Definition dirty_sectors (m : FileImage) : list Z :=
  filter (λ s, is_set (fi_dirty m) s = true) (seqZ 0 (sectors m)).

Definition flushable_sectors (m : FileImage) : list Z :=
  filter (λ s, is_flushable m s = true) (seqZ 0 (sectors m)).

Definition has_flushable (m : FileImage) : bool := existsb (is_flushable m) (seqZ 0 (sectors m)).

(** One turn of [sync]'s loop; [lies] is its draw for the sector. *)
Definition sync_sector (lies : Z → bool) (st : FileImage * list Z) (sector : Z)
    : FileImage * list Z :=
  let '(m, lied) := st in
  let '(a, b) := visible_bounds m sector in
  let bytes := slice (fi_visible m) a b in
  let m := with_oracle (<[sector := (crc32c bytes, b - a)]> (fi_oracle m)) m in
  if lies sector then (with_lied (bits_set sector (fi_lied m)) m, lied ++ [sector])
  else
    (with_lied (bits_clear sector (fi_lied m))
       (with_dirty (bits_clear sector (fi_dirty m))
          (with_committed (splice (fi_committed m) a bytes) m)), lied).

(** [roll sector] is the sector's [sim_random::<f64>()], drawn only when the
    family is armed. *)
Definition sync (config : StorageConfiguration) (weight : Z → Q) (roll : Z → Q) (m : FileImage)
    : FileImage * list Z :=
  let lie_probability := barrier_violation_probability config in
  let lies s := Qltb 0 lie_probability && Qltb (roll s) (weighted lie_probability (weight s)) in
  let m := with_committed (vec_resize (fi_committed m) (size m)) m in
  foldl (sync_sector lies) (m, []) (flushable_sectors m).

(** One turn of [fail_writeback]'s loop. *)
Definition fail_sector (revert : bool) (m : FileImage) (sector : Z) : FileImage :=
  let '(a, b) := shared_bounds m sector in
  let whole := (a <? b) && bool_decide ((a, b) = visible_bounds m sector) in
  if revert && whole && negb (is_set (fi_lied m) sector)
  then with_dirty (bits_clear sector (fi_dirty m))
         (with_visible (splice (fi_visible m) a (slice (fi_committed m) a b)) m)
  else with_stranded (bits_set sector (fi_stranded m)) m.

Definition fail_writeback (revert : bool) (m : FileImage) : FileImage * list Z :=
  let sectors := flushable_sectors m in (foldl (fail_sector revert) m sectors, sectors).

(** One turn of [drop_cache]'s loop: the durable bytes, then the fill. *)
Definition drop_sector (m : FileImage) (sector : Z) : FileImage :=
  let '(sa, sb) := shared_bounds m sector in
  let '(va, vb) := visible_bounds m sector in
  let fill := fill_sector (fi_fill m) sector in
  let bytes := imap (λ i f, let at_ := va + Z.of_nat i in
                            if (sa <=? at_) && (at_ <? sb)
                            then nth (Z.to_nat at_) (fi_committed m) x00 else f)
                 (slice fill 0 (vb - va)) in
  let m := with_visible (splice (fi_visible m) va bytes) m in
  let m := with_stranded (bits_clear sector (fi_stranded m)) m in
  if bool_decide ((sa, sb) = (va, vb)) then with_dirty (bits_clear sector (fi_dirty m)) m else m.

Definition drop_cache (m : FileImage) : FileImage * list Z :=
  let dropped := filter (λ s, is_set (fi_stranded m) s = true) (seqZ 0 (sectors m)) in
  (foldl drop_sector m dropped, dropped).

(** ** Crashes *)

Definition protected_prefix (m : FileImage) (sector : Z) : Z :=
  if is_set (fi_lied m) sector then 0
  else match fi_oracle m !! sector with Some (_, n) => n | None => 0 end.

(** The sector has nothing left to resolve. *)
Definition settle (sector : Z) (m : FileImage) : FileImage :=
  with_lied (bits_clear sector (fi_lied m)) (with_dirty (bits_clear sector (fi_dirty m)) m).

Definition commit_sector (sector : Z) (m : FileImage) : FileImage :=
  let '(a, b) := shared_bounds m sector in
  let m := if a <? b
           then with_committed (splice (fi_committed m) a (slice (fi_visible m) a b)) m else m in
  settle sector m.

Definition apply_outcome (split : Z) (prefix_new : bool) (sector : Z) (outcome : CrashOutcome)
    (m : FileImage) : FileImage * CrashOutcome :=
  match outcome with
  | KeptOld => (settle sector m, KeptOld)
  | KeptNew => (commit_sector sector m, KeptNew)
  | LatentFault =>
      let m := commit_sector sector m in
      (with_damaged (bits_set sector (fi_damaged m))
         (with_faulty (bits_set sector (fi_faults m)) m), LatentFault)
  | Lost =>
      let '(a, b) := committed_bounds m sector in
      let start := Z.min (a + protected_prefix m sector) b in
      let m := if start <? b
               then with_committed
                      (splice (fi_committed m) start
                         (slice (fill_sector (fi_fill m) sector) (start - a) (b - a))) m
               else m in
      let m := settle sector m in
      (with_damaged (bits_set sector (fi_damaged m)) m, Lost)
  | Shorn =>
      let '(a, b) := shared_bounds m sector in
      if b - a <=? 1 then (settle sector m, KeptOld)
      else
        let split := sim_random_range split 1 (b - a) in
        let '(ka, kb) := if prefix_new then (a, a + split) else (a + split, b) in
        let m := with_committed (splice (fi_committed m) ka (slice (fi_visible m) ka kb)) m in
        let m := settle sector m in
        (with_damaged (bits_set sector (fi_damaged m)) m, Shorn)
  end.

Definition choose_outcome (config : StorageConfiguration) (sector : Z)
    (lied in_window protected : bool) (weight : Z → Q) (roll : Q) : CrashOutcome :=
  if in_window || lied then KeptOld
  else
    let damaging_total := (crash_lost_probability config + crash_latent_fault_probability config +
                           shorn_write_probability config)%Q in
    let scale := if Qltb 0 damaging_total then Qmin (weight sector) (1 / damaging_total)%Q else 0%Q in
    let lost_at := (crash_lost_probability config * scale)%Q in
    let latent_at := (lost_at + crash_latent_fault_probability config * scale)%Q in
    let shorn_at := (latent_at + shorn_write_probability config * scale)%Q in
    if Qltb roll lost_at then Lost
    else if Qltb roll latent_at then (if protected then Lost else LatentFault)
    else if Qltb roll shorn_at then Shorn
    else
      let remaining := Qmax (1 - shorn_at)%Q F64_EPSILON in
      if Qltb ((roll - shorn_at) / remaining)%Q (1 # 2) then KeptOld else KeptNew.

(** [correlated_window]: the run of sectors, half-open. *)
Definition correlated_window (dirty : list Z) (config : StorageConfiguration) (d : CrashDraws)
    : option (Z * Z) :=
  if bool_decide (dirty = []) || Qle_bool (correlated_rollback_probability config) 0
     || Qle_bool (correlated_rollback_probability config) (d_window d)
  then None
  else
    let anchor := nth (Z.to_nat (sim_random_range (d_anchor d) 0 (len dirty))) dirty 0 in
    let run := sim_random_range (d_run d) 1 (Z.max (correlated_rollback_max_run config) 1 + 1) in
    Some (anchor, Z.min (anchor + run) u64_max).

(** One turn of the crash's loop over the dirty sectors. *)
Definition crash_sector (config : StorageConfiguration) (weight : Z → Q) (d : CrashDraws)
    (window : option (Z * Z)) (st : FileImage * list SectorResolution) (sector : Z)
    : FileImage * list SectorResolution :=
  let '(m, resolutions) := st in
  let in_window := match window with
                   | Some (a, b) => (a <=? sector) && (sector <? b)
                   | None => false
                   end in
  let protected := 0 <? protected_prefix m sector in
  let outcome := choose_outcome config sector (is_set (fi_lied m) sector) in_window protected
                   weight (d_roll d sector) in
  let '(m, outcome) := apply_outcome (d_split d sector) (d_prefix_new d sector) sector outcome m in
  (m, resolutions ++ [mkResolution sector outcome in_window]).

(** The loop of [oracle_sweep] over the stamps; [None] is its [assert!]. *)
Fixpoint sweep_stamps (lied : list Z) (armed : bool) (stamps : list (Z * (Z * Z)))
    (m : FileImage) (lost : list Z) : option (FileImage * list Z) :=
  match stamps with
  | [] => Some (m, lost)
  | (sector, (crc, stamped_len)) :: stamps =>
      let '(a, b) := committed_bounds m sector in
      if b - a <? stamped_len
      then sweep_stamps lied armed stamps (with_oracle (delete sector (fi_oracle m)) m) lost
      else if crc32c (slice (fi_committed m) a (a + stamped_len)) =? crc
      then sweep_stamps lied armed stamps m lost
      else if armed && bool_decide (sector ∈ lied)
      then sweep_stamps lied armed stamps m (lost ++ [sector])
      else None
  end.

(** The stamps in the [BTreeMap]'s order. *)
Definition stamp_le (x y : Z * (Z * Z)) : Prop := x.1 ≤ y.1.
#[local] Instance stamp_le_dec x y : Decision (stamp_le x y).
Proof. unfold stamp_le. apply _. Defined.

Definition stamps (m : FileImage) : list (Z * (Z * Z)) :=
  merge_sort stamp_le (map_to_list (fi_oracle m)).

Definition oracle_sweep (lied : list Z) (armed : bool) (m : FileImage)
    : option (FileImage * list Z) :=
  '(m, lost) ← sweep_stamps lied armed (stamps m) m [];
  Some (with_oracle (foldl (λ o s, delete s o) (fi_oracle m) lost) m, lost).

(** The surviving durable image is what the reboot sees. *)
Definition converge (m : FileImage) : FileImage :=
  let m := with_visible (fi_committed m) m in
  let m := resize_bitsets (sectors m) m in
  mkFileImage (fi_committed m) (fi_visible m) (clear_all (fi_dirty m)) (clear_all (fi_lied m))
    (clear_all (fi_stranded m)) (fi_faults m) (fi_eio_read m) (fi_eio_write m) (fi_damaged m)
    (fi_oracle m) (fi_fill m).

Definition length_survives (m : FileImage) : FileImage :=
  let old_len := len (fi_committed m) in
  with_committed (fill_extension (vec_resize (fi_committed m) (size m)) old_len (fi_fill m)) m.

(** [crash]'s first block: an unsynced length survives or the file reverts to
    its durable length ([true]). *)
Definition resolve_length (survives : bool) (m : FileImage) : FileImage * bool :=
  if len (fi_visible m) =? len (fi_committed m) then (m, false)
  else if survives then (length_survives m, false)
  else
    let m := with_visible (take (Z.to_nat (len (fi_committed m))) (fi_visible m)) m in
    (resize_bitsets (sectors m) m, true).

(** A clean crash or a kill lands every dirty sector but the stranded ones. *)
Definition commit_clean (m : FileImage) (sector : Z) : FileImage :=
  if is_set (fi_stranded m) sector then m else commit_sector sector m.

(** The end [crash] and [keep_cache] share: converge, sweep, mark the lost. *)
Definition finish_crash (lied : list Z) (armed : bool) (m : FileImage)
    : option (FileImage * list Z) :=
  '(m, lost) ← oracle_sweep lied armed (converge m);
  Some (with_damaged (foldl (λ b s, bits_set s b) (fi_damaged m) lost) m, lost).

Definition lied_sectors (m : FileImage) : list Z :=
  filter (λ s, is_set (fi_lied m) s = true) (dirty_sectors m).

Definition crash (path : str) (config : StorageConfiguration) (armed : bool) (weight : Z → Q)
    (d : CrashDraws) (m : FileImage) : option (FileImage * FileCrashReport) :=
  let '(m, reverted) :=
    resolve_length (Qltb (d_length d) (length_survives_crash_probability config)) m in
  let dirty := dirty_sectors m in
  let lied := lied_sectors m in
  let clean := Qltb (d_clean d) (clean_crash_probability config) in
  let '(m, resolutions) :=
    if clean then (foldl commit_clean m dirty, [])
    else foldl (crash_sector config weight d (correlated_window dirty config d)) (m, []) dirty in
  '(m, lost) ← finish_crash lied armed m;
  Some (m, mkReport path clean resolutions reverted lost).

Definition keep_cache (path : str) (armed : bool) (m : FileImage)
    : option (FileImage * FileCrashReport) :=
  let m := if len (fi_visible m) =? len (fi_committed m) then m else length_survives m in
  let lied := lied_sectors m in
  let m := foldl commit_clean m (dirty_sectors m) in
  '(m, lost) ← finish_crash lied armed m;
  Some (m, mkReport path true [] false lost).

(** ** Targeted faults *)

Definition set_sectors (l : list Z) (b : SectorBitSet) : SectorBitSet :=
  foldl (λ b s, bits_set s b) b l.

Definition corrupt (range : list Z) (m : FileImage) : FileImage :=
  with_faulty (set_sectors range (fi_faults m)) m.

Definition mark_damaged (range : list Z) (m : FileImage) : FileImage :=
  with_damaged (set_sectors range (fi_damaged m)) m.

Definition damaged_sectors (m : FileImage) : list Z :=
  filter (λ s, is_set (fi_damaged m) s = true) (seqZ 0 (sb_len (fi_damaged m))).

Definition has_damage (m : FileImage) : bool :=
  any_in (fi_damaged m) (seqZ 0 (sb_len (fi_damaged m))).

Definition is_corrupt (m : FileImage) (sector : Z) : bool := is_set (fi_faults m) sector.

Definition hits_reads (t : EioTarget) : bool := match t with EioWrite => false | _ => true end.
Definition hits_writes (t : EioTarget) : bool := match t with EioRead => false | _ => true end.

Definition fail_with_eio (range : list Z) (target : EioTarget) (m : FileImage) : FileImage :=
  with_eio (if hits_reads target then set_sectors range (fi_eio_read m) else fi_eio_read m)
    (if hits_writes target then set_sectors range (fi_eio_write m) else fi_eio_write m) m.

Definition clear_eio (target : EioTarget) (m : FileImage) : FileImage :=
  with_eio (if hits_reads target then clear_all (fi_eio_read m) else fi_eio_read m)
    (if hits_writes target then clear_all (fi_eio_write m) else fi_eio_write m) m.

Definition corrupt_committed_out_of_band (sector : Z) (m : FileImage) : FileImage :=
  let '(a, b) := committed_bounds m sector in
  if a <? b then with_committed (alter (xor_byte 0xFF) (Z.to_nat a) (fi_committed m)) m else m.

(** The XOR mask of [corrupt_bytes]: the high byte of the product, made odd. *)
Definition corrupt_mask (offset : Z) : Z :=
  Z.lor (wrap64 (offset * 0x9E3779B97F4A7C15) / 2 ^ 56) 1.

(** One turn of its first loop. *)
Definition corrupt_byte (m : FileImage) (offset : Z) : FileImage :=
  let flip := alter (xor_byte (corrupt_mask offset)) (Z.to_nat offset) in
  let m := with_committed (flip (fi_committed m)) m in
  if (offset <? len (fi_visible m)) && negb (is_set (fi_dirty m) (offset / SECTOR_SIZE))
  then with_visible (flip (fi_visible m)) m else m.

(** One turn of its second loop: the stamp follows the damage. *)
Definition restamp (m : FileImage) (sector : Z) : FileImage :=
  if is_set (fi_dirty m) sector then m
  else
    match fi_oracle m !! sector with
    | None => m
    | Some (_, stamped_len) =>
        let '(a, b) := committed_bounds m sector in
        let end_ := Z.min (a + stamped_len) b in
        with_oracle (<[sector := (crc32c (slice (fi_committed m) a end_), end_ - a)]> (fi_oracle m)) m
    end.

Definition corrupt_bytes (first last : Z) (m : FileImage) : FileImage * bool :=
  if len (fi_committed m) <? last then (m, false)
  else
    let m := foldl corrupt_byte m (seqZ first (last - first)) in
    if last <=? first then (m, true)
    else
      let lo := first / SECTOR_SIZE in
      (foldl restamp m (seqZ lo ((last - 1) / SECTOR_SIZE + 1 - lo)), true).
End Image.
