(* ===== verification/ImageInv.v ===== *)
(** The invariant of a simulated file, and that every operation of
    [Image] keeps it.

    [image_ok] says that the sector sets span the file, that a clean sector
    reads what the device holds, and that every durability stamp is true: the
    stamped prefix lies in both images, its CRC is the stamp's, and unless a
    sync lied about the sector the device holds those bytes.  A crash passes
    through states where only [stamps_ok] holds, relative to the sectors that
    were lied about when it began. *)

From stdpp Require Import base list numbers gmap sorting.
From Stdlib Require Import QArith.
From S2P Require Import Prelude Names Storage Crc Sectors Image.
#[local] Open Scope Z_scope.

Create HintDb image.

(** ** Folds and slices *)

Lemma foldl_inv {A B} (P : A → Prop) (f : A → B → A) l a :
  P a → (∀ a x, x ∈ l → P a → P (f a x)) → P (foldl f a l).
Proof.
  revert a. induction l as [|x l IH]; intros a Ha Hf; cbn; [done|].
  apply IH; [apply Hf; set_solver|]. intros. apply Hf; set_solver.
Qed.

(** A fold over distinct sectors, with what holds of a sector until its turn. *)
Lemma foldl_inv_todo {A B} (P : A → Prop) (Q : A → B → Prop) (f : A → B → A) l a :
  NoDup l → P a → (∀ x, x ∈ l → Q a x) →
  (∀ a x, P a → Q a x → P (f a x) ∧ ∀ y, y ≠ x → Q a y → Q (f a x) y) →
  P (foldl f a l).
Proof.
  intros Hn. revert a. induction Hn as [|x l Hx Hn IH]; intros a Ha HQ Hf; cbn; [done|].
  destruct (Hf a x Ha) as [HP Hy]; [apply HQ; set_solver|].
  apply IH; [done| |done]. intros y Hl. apply Hy; [set_solver|]. apply HQ. set_solver.
Qed.

Section Bytes.
Context {A : Type}.
Implicit Types l k : list A.

Definition same_on (a b : Z) l k : Prop := ∀ i, a ≤ Z.of_nat i < b → l !! i = k !! i.

Lemma slice_same a b l k : 0 ≤ a → same_on a b l k → slice l a b = slice k a b.
Proof.
  intros Ha H. apply list_eq. intros i. rewrite !lookup_slice by done.
  case_decide; [|done]. apply H. lia.
Qed.

Lemma same_on_sym a b l k : same_on a b l k → same_on a b k l.
Proof. intros H i Hi. symmetry. by apply H. Qed.

Lemma same_on_trans a b l k j : same_on a b l k → same_on a b k j → same_on a b l j.
Proof. intros H1 H2 i Hi. by rewrite H1, H2. Qed.

Lemma same_on_sub a b a' b' l k : same_on a b l k → a ≤ a' → b' ≤ b → same_on a' b' l k.
Proof. intros H ?? i Hi. apply H. lia. Qed.

Lemma lookup_lt_len l i : Z.of_nat i < len l ↔ is_Some (l !! i).
Proof. rewrite lookup_lt_is_Some. unfold len. lia. Qed.

Lemma splice_out l a k i :
  0 ≤ a → a + len k ≤ len l → ¬ (a ≤ Z.of_nat i < a + len k) → splice l a k !! i = l !! i.
Proof. intros. rewrite lookup_splice by done. by rewrite decide_False. Qed.

Lemma splice_copy l a b k i :
  0 ≤ a ≤ b → b ≤ len l → b ≤ len k →
  splice l a (slice k a b) !! i = if decide (a ≤ Z.of_nat i < b) then k !! i else l !! i.
Proof.
  intros. rewrite lookup_splice by (rewrite ?len_slice; lia). rewrite len_slice by lia.
  replace (a + (b - a)) with b by lia. case_decide; [|done].
  rewrite lookup_slice by lia. rewrite decide_True by lia. f_equal. lia.
Qed.

Lemma len_splice_copy l a b k :
  0 ≤ a ≤ b → b ≤ len l → b ≤ len k → len (splice l a (slice k a b)) = len l.
Proof. intros. rewrite len_splice; [done|lia|rewrite len_slice; lia]. Qed.

Lemma len_alter f n l : len (alter f n l) = len l.
Proof. unfold len. by rewrite length_alter. Qed.
End Bytes.

Lemma len_vec_resize l n : 0 ≤ n → len (vec_resize l n) = n.
Proof. intros. unfold len, vec_resize. rewrite length_resize. lia. Qed.

Lemma vec_resize_same l n : same_on 0 (Z.min n (len l)) (vec_resize l n) l.
Proof. intros i Hi. unfold vec_resize, len in *. apply lookup_resize; lia. Qed.

(** A sector's range lies in the image, and in the sector. *)
Lemma clamp_spec s limit a b :
  0 ≤ s → 0 ≤ limit → clamp_sector s limit = (a, b) →
  (limit ≤ s * SECTOR_SIZE ∧ a = 0 ∧ b = 0) ∨
  (a = s * SECTOR_SIZE ∧ b = Z.min (a + SECTOR_SIZE) limit ∧ a < limit).
Proof.
  intros Hs Hl. unfold clamp_sector. destruct (Z.leb_spec limit (s * SECTOR_SIZE)); intros [= <- <-].
  - by left.
  - right. done.
Qed.

Section Inv.
Context {R : KeyedRng} {RL : KeyedRngLaws R} {C : Crc32c}.

(** ** Fill *)

Lemma fill_sector_len f s : len (fill_sector f s) = SECTOR_SIZE.
Proof. unfold fill_sector. case_match; [apply rng_fill_len|by apply len_repeatZ]. Qed.

Lemma fill_one_spec f o n l s :
  0 ≤ o → 0 ≤ s → len l = n →
  len (fill_one f o n l s) = n ∧ same_on 0 o (fill_one f o n l s) l.
Proof.
  intros Ho Hs Hl. unfold fill_one, SECTOR_SIZE. destruct (Z.leb_spec (Z.min ((s + 1) * 512) n)
    (Z.max (s * 512) o)); [split; [done|by intros i _]|].
  pose proof (fill_sector_len f s) as Hf. unfold SECTOR_SIZE in Hf.
  assert (∀ x y, 0 ≤ x ≤ y → y ≤ 512 → len (slice (fill_sector f s) x y) = y - x) as Hsl
    by (intros; apply len_slice; lia).
  split; [rewrite len_splice; rewrite ?Hsl; lia|].
  intros i Hi. apply splice_out; rewrite ?Hsl; lia.
Qed.

Lemma fill_extension_spec f l o :
  0 ≤ o → len (fill_extension l o f) = len l ∧ same_on 0 o (fill_extension l o f) l.
Proof.
  intros Ho. unfold fill_extension. apply foldl_inv; [split; [done|by intros i _]|].
  intros k s [Hs _]%elem_of_seqZ [Hl Hk].
  pose proof (Z.div_pos o SECTOR_SIZE). destruct (fill_one_spec f o (len l) k s) as [H1 H2];
    [done|unfold SECTOR_SIZE in *; lia|done|]. split; [done|]. by eapply same_on_trans.
Qed.

(** ** The invariant *)

Definition stamped (s n : Z) (l k : list byte) : Prop :=
  same_on (s * SECTOR_SIZE) (s * SECTOR_SIZE + n) l k.

(** What a durability stamp promises; [L] excuses the device's bytes. *)
Record stamp_ok (L : Z → Prop) (m : FileImage) (s crc n : Z) : Prop := {
  st_sector : 0 ≤ s;
  st_len : 0 < n ≤ SECTOR_SIZE;
  st_visible : s * SECTOR_SIZE + n ≤ len (fi_visible m);
  st_committed : s * SECTOR_SIZE + n ≤ len (fi_committed m);
  st_crc : crc = crc32c (slice (fi_visible m) (s * SECTOR_SIZE) (s * SECTOR_SIZE + n));
  st_same : L s ∨ stamped s n (fi_committed m) (fi_visible m);
}.

Definition stamps_ok (L : Z → Prop) (m : FileImage) : Prop :=
  ∀ s crc n, fi_oracle m !! s = Some (crc, n) → stamp_ok L m s crc n.

Definition bitsets (m : FileImage) : list SectorBitSet :=
  [fi_dirty m; fi_lied m; fi_stranded m; fi_faults m; fi_eio_read m; fi_eio_write m; fi_damaged m].

Definition spans (n : Z) (b : SectorBitSet) : Prop := bits_wf b ∧ sb_len b = n.

Definition is_lied (m : FileImage) (s : Z) : Prop := is_set (fi_lied m) s = true.

(** The invariant but for the stamps. *)
Record base_ok (m : FileImage) : Prop := {
  ok_bits : Forall (spans (sectors m)) (bitsets m);
  ok_lied s : 0 ≤ s → is_lied m s → is_set (fi_dirty m) s = true;
  ok_stranded s : 0 ≤ s → is_set (fi_stranded m) s = true → is_set (fi_dirty m) s = true;
  ok_clean i : Z.of_nat i < len (fi_visible m) →
    is_set (fi_dirty m) (Z.of_nat i / SECTOR_SIZE) = false →
    fi_committed m !! i = fi_visible m !! i;
}.

Definition image_ok (m : FileImage) : Prop := base_ok m ∧ stamps_ok (is_lied m) m.

(** What an operation did to the bytes under the stamps it kept. *)
Lemma stamps_frame (L L' : Z → Prop) m m' :
  stamps_ok L m →
  (∀ s crc n, fi_oracle m' !! s = Some (crc, n) →
     fi_oracle m !! s = Some (crc, n) ∧
     (stamp_ok L m s crc n →
      s * SECTOR_SIZE + n ≤ len (fi_visible m') ∧ s * SECTOR_SIZE + n ≤ len (fi_committed m') ∧
      stamped s n (fi_visible m') (fi_visible m) ∧
      (L' s ∨ (¬ L s ∨ stamped s n (fi_committed m') (fi_visible m)) ∧
         ∀ i, s * SECTOR_SIZE ≤ Z.of_nat i < s * SECTOR_SIZE + n →
          fi_committed m' !! i = fi_committed m !! i ∨
          fi_committed m' !! i = fi_visible m !! i))) →
  stamps_ok L' m'.
Proof.
  intros Hok H s crc n Ho. destruct (H s crc n Ho) as [Ho' Hk].
  pose proof (Hok s crc n Ho') as Hst. destruct (Hk Hst) as (Hv & Hc & Hs & Hd).
  destruct Hst as [S1 S2 S3 S4 S5 S6]. split; [done..| |].
  - rewrite S5. f_equal. symmetry. by apply slice_same; [unfold SECTOR_SIZE; lia|].
  - destruct Hd as [Hd|[Hl Hd]]; [by left|right]. intros i Hi.
    rewrite (Hs i Hi). destruct Hl as [Hl|Hl]; [|by apply Hl].
    destruct S6 as [?|S6]; [done|]. destruct (Hd i Hi) as [->| ->]; [|done]. by apply S6.
Qed.

(** ** Sector sets *)

Lemma spans_set n s b : spans n b → spans n (bits_set s b).
Proof. intros [??]. split; [by apply bits_set_wf|]. by rewrite bits_set_len. Qed.
Lemma spans_clear n s b : spans n b → spans n (bits_clear s b).
Proof. intros [??]. split; [by apply bits_clear_wf|]. by rewrite bits_clear_len. Qed.
Lemma spans_clear_all n b : spans n b → spans n (clear_all b).
Proof. intros [??]. split; [by apply clear_all_wf|done]. Qed.
Lemma spans_resized n b : 0 ≤ n → spans n (resized b n).
Proof. intros. destruct (resized_spec b n) as (?&?&?); [done|]. by split. Qed.

Lemma spans_set_sectors n l b : spans n b → spans n (set_sectors l b).
Proof. intros. unfold set_sectors. apply (foldl_inv (spans n)); [done|]. intros. by apply spans_set. Qed.

#[local] Hint Resolve spans_set spans_clear spans_clear_all spans_set_sectors : image.

Lemma is_set_resized b n t : 0 ≤ n → 0 ≤ t → is_set (resized b n) t = (t <? n) && is_set b t.
Proof. intros. destruct (resized_spec b n) as (?&?&->); done. Qed.

Lemma sectors_nonneg m : 0 ≤ sectors m.
Proof. apply div_ceil_nonneg; [apply len_nonneg|done]. Qed.

Lemma byte_sector i : 0 ≤ Z.of_nat i / SECTOR_SIZE.
Proof. apply Z.div_pos; unfold SECTOR_SIZE; lia. Qed.

Lemma in_sector i s :
  Z.of_nat i / SECTOR_SIZE = s ↔ s * SECTOR_SIZE ≤ Z.of_nat i < s * SECTOR_SIZE + SECTOR_SIZE.
Proof.
  unfold SECTOR_SIZE. pose proof (Z.div_mod (Z.of_nat i) 512).
  pose proof (Z.mod_pos_bound (Z.of_nat i) 512). lia.
Qed.

Lemma sector_lt s n : s < div_ceil n SECTOR_SIZE ↔ s * SECTOR_SIZE < n.
Proof.
  unfold div_ceil, SECTOR_SIZE. pose proof (Z.div_mod (n + 512 - 1) 512).
  pose proof (Z.mod_pos_bound (n + 512 - 1) 512). lia.
Qed.

Lemma resize_bitsets_spans n m : 0 ≤ n → Forall (spans n) (bitsets (resize_bitsets n m)).
Proof. intros. repeat constructor; by apply spans_resized. Qed.

(** ** Growing and shrinking the visible image *)

Lemma dirty_again_fold m l :
  spans (sectors m) (fi_dirty m) → spans (sectors m) (fi_stranded m) → (∀ s, s ∈ l → 0 ≤ s) →
  let m' := foldl dirty_again m l in
  m' = with_stranded (fi_stranded m') (with_dirty (fi_dirty m') m) ∧
  spans (sectors m) (fi_dirty m') ∧ spans (sectors m) (fi_stranded m') ∧
  (∀ t, 0 ≤ t → is_set (fi_dirty m') t =
     bool_decide (t ∈ l ∧ t < sectors m) || is_set (fi_dirty m) t) ∧
  (∀ t, 0 ≤ t → is_set (fi_stranded m') t = true → is_set (fi_stranded m) t = true).
Proof.
  revert m. induction l as [|s l IH]; intros m Hd Hs Hl; cbn [foldl].
  - split_and!; [by destruct m|done..| |done]. intros t _. by rewrite bool_decide_false by set_solver.
  - destruct (IH (dirty_again m s)) as (E & H1 & H2 & H3 & H4);
      [cbn; auto with image..|set_solver|].
    change (sectors (dirty_again m s)) with (sectors m) in *. split_and!; [by rewrite E|done..| |].
    + intros t Ht. rewrite H3 by done. cbn [fi_dirty dirty_again with_stranded with_dirty].
      destruct Hd as [Hw Hlen]. rewrite is_set_set by set_solver. by rewrite Hlen, orb_assoc, bool_decide_cons.
    + intros t Ht E'. apply H4 in E'; [|done]. cbn in E'. destruct Hs as [Hw _].
      rewrite is_set_clear in E' by set_solver. by apply andb_true_iff in E' as [_ ?].
Qed.

Record resized_to (n : Z) (m m' : FileImage) : Prop := {
  rz_committed : fi_committed m' = fi_committed m;
  rz_oracle : fi_oracle m' = fi_oracle m;
  rz_fill : fi_fill m' = fi_fill m;
  rz_len : len (fi_visible m') = n;
  rz_same : same_on 0 (Z.min n (len (fi_visible m))) (fi_visible m') (fi_visible m);
  rz_bits : Forall (spans (sectors m')) (bitsets m');
  rz_lied s : 0 ≤ s → is_set (fi_lied m') s = (s <? sectors m') && is_set (fi_lied m) s;
  rz_dirty s : 0 ≤ s → is_set (fi_dirty m') s =
    (s <? sectors m') &&
    (bool_decide (len (fi_visible m) < n ∧ len (fi_visible m) < (s + 1) * SECTOR_SIZE) ||
     is_set (fi_dirty m) s);
  rz_stranded s : 0 ≤ s → is_set (fi_stranded m') s = true →
    s < sectors m' ∧ is_set (fi_stranded m) s = true;
}.

Lemma resize_visible_spec n m : 0 ≤ n → resized_to n m (resize_visible n m).
Proof.
  intros Hn. unfold resize_visible. set (o := size m).
  set (m1 := resize_bitsets _ _).
  assert (len (fi_visible m1) = n) as Hl1 by by apply len_vec_resize.
  assert (sectors m1 = div_ceil n SECTOR_SIZE) as Hs1 by (unfold sectors, size; by rewrite Hl1).
  pose proof (div_ceil_nonneg n SECTOR_SIZE ltac:(done) ltac:(done)) as Hd0.
  assert (Forall (spans (sectors m1)) (bitsets m1)) as Hb1
    by (rewrite Hs1; by apply resize_bitsets_spans).
  assert (∀ s, 0 ≤ s → s < sectors m1 → s * SECTOR_SIZE < n) as Hlt
    by (intros s _; rewrite Hs1; apply sector_lt).
  destruct (Z.leb_spec n o) as [Hle|Hgt].
  { split; [done..| |done| | |].
    - apply vec_resize_same.
    - intros s Hs. rewrite Hs1. apply is_set_resized; lia.
    - intros s Hs. unfold o, size in *. rewrite bool_decide_false by lia. rewrite Hs1.
      apply is_set_resized; lia.
    - intros s Hs E. rewrite Hs1. cbn [m1 resize_bitsets fi_stranded] in E.
      rewrite is_set_resized in E by lia. apply andb_true_iff in E as [? ?]. split; [lia|done]. }
  set (m2 := with_visible _ m1).
  destruct (fill_extension_spec (fi_fill m1) (fi_visible m1) o) as [Hfl Hfs]; [apply len_nonneg|].
  assert (fi_visible m2 = fill_extension (fi_visible m1) o (fi_fill m1)) as Ev2 by done.
  assert (sectors m2 = sectors m1) as Hs2 by (unfold sectors, size; by rewrite Ev2, Hfl).
  pose proof Hb1 as [Hbd [_ [Hbs _]%Forall_cons_1]%Forall_cons_1]%Forall_cons_1.
  destruct (dirty_again_fold m2 (sector_range o (n - o))) as (E & H1 & H2 & H3 & H4).
  { by rewrite Hs2. }
  { by rewrite Hs2. }
  { intros s [Hs _]%elem_of_seqZ. pose proof (Z.div_pos o SECTOR_SIZE (len_nonneg _)).
    unfold SECTOR_SIZE in *. lia. }
  set (m3 := foldl _ _ _) in *. rewrite Hs2 in *.
  assert (sectors m3 = sectors m1) as Hs3 by (rewrite E; exact Hs2).
  assert (fi_visible m3 = fi_visible m2) as Ev3 by by rewrite E.
  split; try rewrite Hs3; try (by rewrite E).
  - by rewrite Ev3, Ev2, Hfl.
  - rewrite Ev3, Ev2. eapply same_on_trans; [eapply same_on_sub; [exact Hfs|done|unfold o, size; lia]|].
    apply vec_resize_same.
  - assert (bitsets m3 = [fi_dirty m3; fi_lied m1; fi_stranded m3; fi_faults m1; fi_eio_read m1;
                          fi_eio_write m1; fi_damaged m1]) as -> by (rewrite E at 1; done).
    unfold bitsets in Hb1. rewrite !Forall_cons in Hb1 |- *. tauto.
  - intros s Hs. rewrite Hs1, E. apply is_set_resized; lia.
  - intros s Hs. rewrite H3 by done. cbn [m2 with_visible fi_dirty m1 resize_bitsets].
    rewrite is_set_resized, <- Hs1 by lia.
    destruct (Z.ltb_spec s (sectors m1)); cbn [andb];
      [f_equal|rewrite orb_false_r, bool_decide_false by lia; done].
    apply bool_decide_ext. pose proof (len_nonneg (fi_visible m)). unfold o, size in *.
    rewrite elem_sector_range by lia. specialize (Hlt s). lia.
  - intros s Hs E'. apply H4 in E'; [|done]. cbn [m2 with_visible fi_stranded m1 resize_bitsets] in E'.
    rewrite is_set_resized in E' by lia. apply andb_true_iff in E' as [? ?]. split; [lia|done].
Qed.
(** ** Growing and shrinking keep the invariant *)

Ltac img := cbn [fi_committed fi_visible fi_dirty fi_lied fi_stranded fi_faults fi_eio_read
  fi_eio_write fi_damaged fi_oracle fi_fill with_committed with_visible with_dirty with_lied
  with_stranded with_faulty with_eio with_damaged with_oracle fst snd] in *.

Lemma bits_of m b : base_ok m → b ∈ bitsets m → spans (sectors m) b.
Proof. intros [H _ _ _] Hb. by rewrite Forall_forall in H; apply H. Qed.

Lemma bits_dirty m : base_ok m → spans (sectors m) (fi_dirty m).
Proof. intros H. apply (bits_of m _ H). apply list_elem_of_here. Qed.
Lemma bits_lied m : base_ok m → spans (sectors m) (fi_lied m).
Proof. intros H. apply (bits_of m _ H). do 1 apply list_elem_of_further. apply list_elem_of_here. Qed.
Lemma bits_stranded m : base_ok m → spans (sectors m) (fi_stranded m).
Proof. intros H. apply (bits_of m _ H). do 2 apply list_elem_of_further. apply list_elem_of_here. Qed.

Lemma stamp_sector L m s crc n : stamp_ok L m s crc n → 0 ≤ s < sectors m.
Proof.
  intros [S1 S2 S3 S4 S5 S6]. split; [done|]. apply sector_lt. unfold size. lia.
Qed.

Lemma resized_base n m m' : base_ok m → resized_to n m m' → base_ok m'.
Proof.
  intros [B1 B2 B3 B4] [Z1 Z2 Z3 Z4 Z5 Z6 Z7 Z8 Z9]. split; [done| | |].
  - unfold is_lied in *. intros s Hs. rewrite Z7, Z8 by done. intros [-> Hl]%andb_true_iff.
    cbn [andb]. by rewrite (B2 s Hs Hl), orb_true_r.
  - intros s Hs E. rewrite Z8 by done. destruct (Z9 s Hs E) as [H1 H2].
    rewrite (proj2 (Z.ltb_lt _ _) H1), (B3 s Hs H2), orb_true_r. done.
  - intros i Hi. pose proof (byte_sector i) as Hp. rewrite Z8 by done.
    pose proof (proj1 (in_sector i _) eq_refl) as Hin. set (s := Z.of_nat i / SECTOR_SIZE) in *.
    rewrite (proj2 (Z.ltb_lt s (sectors m'))); [|apply sector_lt; unfold size; lia].
    cbn [andb]. intros [H1%bool_decide_eq_false H2]%orb_false_iff. rewrite Z1, Z5; [|lia].
    apply B4; [|done]. unfold SECTOR_SIZE in *. lia.
Qed.

(** A stamp that fits in the resized image is still true. *)
Lemma resized_stamp n m m' s crc k :
  base_ok m → resized_to n m m' → s * SECTOR_SIZE + k ≤ n →
  stamp_ok (is_lied m) m s crc k → stamp_ok (is_lied m') m' s crc k.
Proof.
  intros Hb [Z1 Z2 Z3 Z4 Z5 Z6 Z7 Z8 Z9] Hn [S1 S2 S3 S4 S5 S6].
  assert (stamped s k (fi_visible m') (fi_visible m)) as Hv.
  { eapply same_on_sub; [exact Z5|unfold SECTOR_SIZE; lia|lia]. }
  split; [done..|lia|by rewrite Z1| |].
  - rewrite S5. f_equal. symmetry. apply slice_same; [unfold SECTOR_SIZE; lia|done].
  - destruct S6 as [S6|S6]; [left|right].
    + unfold is_lied in *. rewrite Z7, S6, andb_true_r by done. apply Z.ltb_lt, sector_lt.
      unfold size. lia.
    + rewrite Z1. eapply same_on_trans; [exact S6|]. by apply same_on_sym.
Qed.

Lemma grow_ok n m :
  0 ≤ n → len (fi_visible m) ≤ n → image_ok m → image_ok (resize_visible n m).
Proof.
  intros Hn Hle [Hb Hs]. pose proof (resize_visible_spec n m Hn) as Hz.
  split; [by eapply resized_base|]. intros s crc k Ho. rewrite (rz_oracle _ _ _ Hz) in Ho.
  pose proof (Hs _ _ _ Ho) as Hst. eapply resized_stamp; [done..| |done].
  pose proof (st_visible _ _ _ _ _ Hst). lia.
Qed.

Lemma empty_spans : spans 0 (bits_new 0).
Proof. by split; [apply bits_new_wf|]. Qed.

Lemma new_ok n seed g : 0 ≤ n → image_ok (FileImage_new n seed g).
Proof.
  intros Hn. unfold FileImage_new. set (m0 := mkFileImage [] [] _ _ _ _ _ _ _ _ _).
  pose proof (resize_visible_spec n m0 Hn) as [Z1 Z2 Z3 Z4 Z5 Z6 Z7 Z8 Z9].
  set (m := resize_visible n m0) in *. split.
  - split; img.
    + change (sectors (with_dirty _ _)) with (sectors m). unfold bitsets in *; img.
      rewrite !Forall_cons in Z6 |- *. destruct Z6 as (? & ?). split; [|done]. auto with image.
    + unfold is_lied. img. intros s Hs. rewrite Z7 by done.
      change (fi_lied m0) with (bits_new 0). by rewrite is_set_new, andb_false_r.
    + intros s Hs E. apply Z9 in E as [_ E]; [|done].
      change (fi_stranded m0) with (bits_new 0) in E. by rewrite is_set_new in E.
    + done.
  - intros s crc k Ho. img. rewrite Z2 in Ho. done.
Qed.

(** ** Writes *)

Lemma byte_in_range o n i :
  0 ≤ o → o ≤ Z.of_nat i < o + n → Z.of_nat i / SECTOR_SIZE ∈ sector_range o n.
Proof.
  intros Ho Hi. apply elem_sector_range; [done|lia|].
  pose proof (proj1 (in_sector i _) eq_refl). unfold SECTOR_SIZE in *. lia.
Qed.

Lemma sector_range_nonneg o n s : 0 ≤ o → s ∈ sector_range o n → 0 ≤ s.
Proof.
  intros Ho [Hs _]%elem_of_seqZ. pose proof (Z.div_pos o SECTOR_SIZE Ho ltac:(done)). lia.
Qed.

Record wrote (l : list Z) (m m' : FileImage) : Prop := {
  wr_committed : fi_committed m' = fi_committed m;
  wr_visible : fi_visible m' = fi_visible m;
  wr_bits : Forall (spans (sectors m)) (bitsets m');
  wr_dirty s : 0 ≤ s → is_set (fi_dirty m') s =
    bool_decide (s ∈ l ∧ s < sectors m) || is_set (fi_dirty m) s;
  wr_lied s : 0 ≤ s → is_set (fi_lied m') s = bool_decide (s ∉ l) && is_set (fi_lied m) s;
  wr_stranded s : 0 ≤ s → is_set (fi_stranded m') s = bool_decide (s ∉ l) && is_set (fi_stranded m) s;
  wr_oracle s x : fi_oracle m' !! s = Some x → (s ∉ l) ∧ fi_oracle m !! s = Some x;
}.

Lemma bool_decide_not_cons (s t : Z) l :
  bool_decide (t ∉ s :: l) = bool_decide (t ∉ l) && negb (bool_decide (s = t)).
Proof.
  apply eq_bool_prop_intro. rewrite andb_True, negb_True, !bool_decide_spec, not_elem_of_cons.
  naive_solver.
Qed.

Lemma write_fold l m h :
  Forall (spans (sectors m)) (bitsets m) → (∀ s, s ∈ l → 0 ≤ s) →
  wrote l m (foldl write_sector (m, h) l).1.
Proof.
  revert m h. induction l as [|s l IH]; intros m h Hb Hl; cbn [foldl].
  - split; try done. intros s x E. split; [apply not_elem_of_nil|done].
  - unfold write_sector at 2. set (m1 := mkFileImage _ _ _ _ _ _ _ _ _ _ _).
    unfold bitsets in Hb. rewrite !Forall_cons in Hb.
    destruct Hb as (D1 & D2 & D3 & D4 & D5 & D6 & D7 & D8).
    destruct (IH m1 (h || is_set (fi_damaged m) s)) as [W1 W2 W3 W4 W5 W6 W7].
    { change (sectors m1) with (sectors m). unfold bitsets, m1. img. rewrite !Forall_cons.
      split_and!; auto with image. }
    { set_solver. }
    assert (0 ≤ s) as Hs by set_solver. change (sectors m1) with (sectors m) in *.
    unfold m1 in *. img. destruct D1 as [D1 L1], D2 as [D2 L2], D3 as [D3 L3]. split; try done.
    + intros t Ht. rewrite W4, is_set_set, L1, bool_decide_cons by done. by rewrite orb_assoc.
    + intros t Ht. rewrite W5, is_set_clear, bool_decide_not_cons by done. by rewrite andb_assoc.
    + intros t Ht. rewrite W6, is_set_clear, bool_decide_not_cons by done. by rewrite andb_assoc.
    + intros t x E. apply W7 in E as [E1 E2]. apply lookup_delete_Some in E2 as [E2 E3].
      split; [|done]. rewrite not_elem_of_cons. done.
Qed.

Lemma write_ok o data m :
  0 ≤ o → o + len data ≤ u64_max → image_ok m →
  ∃ m' h, write o data m = Some (m', h) ∧ image_ok m' ∧
    len (fi_visible m') = Z.max (len (fi_visible m)) (o + len data) ∧
    slice (fi_visible m') o (o + len data) = data ∧
    fi_committed m' = fi_committed m.
Proof.
  intros Ho Hu Hm. pose proof (len_nonneg data) as Hn. unfold write. rewrite Z.min_l by done.
  set (m1 := if _ <? _ then _ else m).
  assert (image_ok m1 ∧ len (fi_visible m1) = Z.max (len (fi_visible m)) (o + len data) ∧
          fi_committed m1 = fi_committed m) as (Hm1 & Hl1 & Hc1).
  { unfold m1, size in *. destruct (Z.ltb_spec (len (fi_visible m)) (o + len data)).
    - pose proof (resize_visible_spec (o + len data) m ltac:(lia)) as Hz.
      split; [apply grow_ok; [lia..|done]|]. rewrite (rz_len _ _ _ Hz), (rz_committed _ _ _ Hz).
      split; [lia|done].
    - split; [done|]. split; [lia|done]. }
  clearbody m1. rewrite copy_from_slice_ok by lia. cbn [mbind option_bind].
  set (v := splice _ _ _). assert (len v = len (fi_visible m1)) as Hv by (apply len_splice; lia).
  set (l := sector_range o (len data)).
  pose proof (write_fold l (with_visible v m1) false) as W. destruct Hm1 as [Hb Hs].
  destruct (foldl write_sector _ l) as [m' h]. exists m', h. split; [done|]. img.
  assert (sectors (with_visible v m1) = sectors m1) as Hsec
    by (unfold sectors, size; img; by rewrite Hv).
  rewrite Hsec in W. destruct W as [W1 W2 W3 W4 W5 W6 W7].
  { exact (ok_bits _ Hb). }
  { intros s. by apply sector_range_nonneg. }
  img. rewrite Hsec in *.
  assert (sectors m' = sectors m1) as Hsec' by (rewrite <- Hsec; unfold sectors, size; by rewrite W2).
  assert (∀ i, Z.of_nat i / SECTOR_SIZE ∉ l → v !! i = fi_visible m1 !! i) as Hout.
  { intros i Hi. apply splice_out; [lia..|]. intros Hr. by apply Hi, byte_in_range. }
  split_and!; [split| |  |].
  - destruct Hb as [B1 B2 B3 B4]. split; [by rewrite Hsec'| | |]; unfold is_lied in *.
    + intros s H0. rewrite W5, W4 by done. intros [_ E]%andb_true_iff. by rewrite B2, orb_true_r.
    + intros s H0. rewrite W6, W4 by done. intros [_ E]%andb_true_iff. by rewrite B3, orb_true_r.
    + intros i Hi. pose proof (byte_sector i). rewrite W4 by done.
      intros [E1%bool_decide_eq_false E2]%orb_false_iff.
      rewrite W1, W2. rewrite Hout; [apply B4; [|done]|].
      * rewrite W2 in Hi. by rewrite <- Hv.
      * intros Hin. apply E1. split; [done|]. apply sector_lt. unfold size. rewrite W2, Hv in Hi.
        pose proof (proj1 (in_sector i _) eq_refl). lia.
  - eapply stamps_frame; [exact Hs|]. intros s crc n Hor. apply W7 in Hor as [Hnl Hor].
    split; [done|]. intros [S1 S2 S3 S4 S5 S6]. rewrite W2, W1, Hv. split_and!; [done..| |].
    + intros i Hi. apply Hout. assert (Z.of_nat i / SECTOR_SIZE = s) as ->; [|done].
      apply in_sector. lia.
    + unfold is_lied. rewrite W5 by done. rewrite bool_decide_true by done. cbn [andb].
      destruct (is_set (fi_lied m1) s); [by left|right]. split; [by left|]. intros; by left.
  - by rewrite W2, Hv.
  - rewrite W2. by apply slice_splice_same; lia.
  - by rewrite W1.
Qed.
(** ** Truncation *)

Lemma delete_fold (l : list Z) (o : gmap Z (Z * Z)) s x :
  foldl (λ o s, delete s o) o l !! s = Some x ↔ (s ∉ l) ∧ o !! s = Some x.
Proof.
  revert o. induction l as [|t l IH]; intros o; cbn [foldl].
  - split; [intros E; split; [apply not_elem_of_nil|done]|by intros [_ ?]].
  - rewrite IH, lookup_delete_Some, not_elem_of_cons. naive_solver.
Qed.

Lemma set_len_ok n m :
  0 ≤ n → image_ok m →
  image_ok (set_len n m) ∧ len (fi_visible (set_len n m)) = n ∧
  fi_committed (set_len n m) = fi_committed m.
Proof.
  intros Hn [Hb Hs]. unfold set_len. pose proof (resize_visible_spec n m Hn) as Hz.
  pose proof (resized_base n m _ Hb Hz) as Hb'. set (m1 := resize_visible n m) in *.
  set (o := foldl _ _ _).
  assert (∀ s crc k, o !! s = Some (crc, k) → stamp_ok (is_lied m) m s crc k ∧ s * SECTOR_SIZE < n)
    as Hk.
  { intros s crc k [Hnin Ho]%delete_fold. rewrite (rz_oracle _ _ _ Hz) in Ho.
    pose proof (Hs s crc k Ho) as Hst. split; [done|].
    pose proof (stamp_sector _ _ _ _ _ Hst). rewrite elem_of_seqZ in Hnin.
    assert (s < sectors m1) as H1%sector_lt by lia. unfold size in H1. by rewrite (rz_len _ _ _ Hz) in H1. }
  clearbody o.
  unfold size. destruct (Z.ltb_spec n (len (fi_visible m))) as [Hlt|Hge].
  2:{ split_and!; [split; [by destruct Hb'; split|]|exact (rz_len _ _ _ Hz)|exact (rz_committed _ _ _ Hz)].
      intros s crc k Ho. img. destruct (Hk s crc k Ho) as [Hst _].
      pose proof (st_visible _ _ _ _ _ Hst).
      destruct (resized_stamp n m m1 s crc k Hb Hz ltac:(lia) Hst). by split. }
  assert (fi_committed (narrow_tail_stamp n (with_oracle o m1)) = fi_committed m) as Hc.
  { rewrite <- (rz_committed _ _ _ Hz). unfold narrow_tail_stamp. by repeat case_match. }
  assert (len (fi_visible (narrow_tail_stamp n (with_oracle o m1))) = n) as Hl.
  { rewrite <- (rz_len _ _ _ Hz) at 2. unfold narrow_tail_stamp. by repeat case_match. }
  split_and!; [|done..]. clear Hc Hl. unfold narrow_tail_stamp. img.
  set (t := n / SECTOR_SIZE).
  assert (t * SECTOR_SIZE ≤ n < t * SECTOR_SIZE + SECTOR_SIZE) as Ht.
  { unfold t, SECTOR_SIZE. pose proof (Z.div_mod n 512). pose proof (Z.mod_pos_bound n 512). lia. }
  assert (∀ s crc k, o !! s = Some (crc, k) → s ≠ t ∨ s * SECTOR_SIZE + k ≤ n →
            stamp_ok (is_lied m1) m1 s crc k) as Hkeep.
  { intros s crc k Ho Hd. destruct (Hk s crc k Ho) as [Hst Hsn].
    apply (resized_stamp n m m1 s crc k Hb Hz); [|done].
    pose proof (st_len _ _ _ _ _ Hst). unfold SECTOR_SIZE in *. lia. }
  destruct (o !! t) as [[crc0 k0]|] eqn:Et.
  - destruct (Z.leb_spec k0 (Z.max 0 (n - t * SECTOR_SIZE))) as [Hle|Hgt].
    + split; [by destruct Hb'; split|]. intros s crc k Ho. img. cut (stamp_ok (is_lied m1) m1 s crc k).
      { by intros []; split. }
      apply Hkeep; [done|]. destruct (decide (s = t)) as [->|]; [right|by left].
      rewrite Et in Ho. injection Ho as <- <-. lia.
    + rewrite Z.max_r in * by lia. split; [by destruct Hb'; split|].
      intros s crc k Ho. img. apply lookup_insert_Some in Ho as [[<- [= <- <-]]|[Hne Ho]].
      * destruct (Hk t crc0 k0 Et) as [[S1 S2 S3 S4 S5 S6] Hsn].
        split; img; [done|unfold SECTOR_SIZE in *; lia|rewrite (rz_len _ _ _ Hz); lia|
          rewrite (rz_committed _ _ _ Hz); lia|done|].
        assert (stamped t (n - t * SECTOR_SIZE) (fi_visible m1) (fi_visible m)) as Hv.
        { eapply same_on_sub; [exact (rz_same _ _ _ Hz)|unfold SECTOR_SIZE; lia|lia]. }
        destruct S6 as [S6|S6]; [left|right].
        -- unfold is_lied in *. img. rewrite (rz_lied _ _ _ Hz), S6, andb_true_r by done.
           apply Z.ltb_lt, sector_lt. unfold size. rewrite (rz_len _ _ _ Hz). lia.
        -- rewrite (rz_committed _ _ _ Hz). eapply same_on_trans; [|apply same_on_sym, Hv].
           eapply same_on_sub; [exact S6|lia|lia].
      * cut (stamp_ok (is_lied m1) m1 s crc k); [by intros []; split|]. apply Hkeep; [done|]. left.
        by intros ->.
  - split; [by destruct Hb'; split|]. intros s crc k Ho. img.
    cut (stamp_ok (is_lied m1) m1 s crc k); [by intros []; split|]. apply Hkeep; [done|]. left.
    by intros ->; rewrite Et in Ho.
Qed.

(** ** A step on one sector *)

(** What a step on sector [s] leaves alone. *)
Record sector_step (s : Z) (m m' : FileImage) : Prop := {
  ss_vlen : len (fi_visible m') = len (fi_visible m);
  ss_clen : len (fi_committed m') = len (fi_committed m);
  ss_vis i : Z.of_nat i / SECTOR_SIZE ≠ s → fi_visible m' !! i = fi_visible m !! i;
  ss_com i : Z.of_nat i / SECTOR_SIZE ≠ s → fi_committed m' !! i = fi_committed m !! i;
  ss_bits : Forall (spans (sectors m)) (bitsets m) → Forall (spans (sectors m)) (bitsets m');
  ss_oracle t : t ≠ s → fi_oracle m' !! t = fi_oracle m !! t;
  ss_dirty t : 0 ≤ t → t ≠ s → is_set (fi_dirty m') t = is_set (fi_dirty m) t;
  ss_lied t : 0 ≤ t → t ≠ s → is_set (fi_lied m') t = is_set (fi_lied m) t;
  ss_stranded t : 0 ≤ t → t ≠ s → is_set (fi_stranded m') t = is_set (fi_stranded m) t;
}.

(** What the step must establish on the sector itself. *)
Record sector_goal (s : Z) (m' : FileImage) : Prop := {
  sg_stamp crc n : fi_oracle m' !! s = Some (crc, n) → stamp_ok (is_lied m') m' s crc n;
  sg_lied : is_lied m' s → is_set (fi_dirty m') s = true;
  sg_stranded : is_set (fi_stranded m') s = true → is_set (fi_dirty m') s = true;
  sg_clean i : Z.of_nat i < len (fi_visible m') → Z.of_nat i / SECTOR_SIZE = s →
    is_set (fi_dirty m') s = false → fi_committed m' !! i = fi_visible m' !! i;
}.

Lemma sector_step_sectors s m m' : sector_step s m m' → sectors m' = sectors m.
Proof. intros H. unfold sectors, size. by rewrite (ss_vlen _ _ _ H). Qed.

(** Another sector's stamp does not see the step. *)
Lemma step_stamp s m m' t crc n (L L' : Z → Prop) :
  sector_step s m m' → t ≠ s → (L t → L' t) → stamp_ok L m t crc n → stamp_ok L' m' t crc n.
Proof.
  intros [V1 V2 V3 V4 V5 V6 V7 V8 V9] Hne HL [S1 S2 S3 S4 S5 S6].
  assert (∀ i, t * SECTOR_SIZE ≤ Z.of_nat i < t * SECTOR_SIZE + n →
            fi_visible m' !! i = fi_visible m !! i ∧ fi_committed m' !! i = fi_committed m !! i) as Hi.
  { intros i Hi. assert (Z.of_nat i / SECTOR_SIZE = t) as E by (apply in_sector; lia).
    rewrite V3, V4 by (by rewrite E). done. }
  split; [done|done|by rewrite V1|by rewrite V2| |].
  - rewrite S5. f_equal. symmetry. apply slice_same; [unfold SECTOR_SIZE; lia|].
    intros i ?. by apply Hi.
  - destruct S6 as [S6|S6]; [left; auto|right]. intros i H. destruct (Hi i H) as [-> ->]. by apply S6.
Qed.

Lemma sector_step_ok s m m' :
  0 ≤ s → sector_step s m m' → sector_goal s m' → image_ok m → image_ok m'.
Proof.
  intros H0 Hst [G1 G2 G3 G4] [[B1 B2 B3 B4] Hs]. split.
  - split.
    + rewrite (sector_step_sectors s m m') by done. by apply Hst.
    + intros t Ht Hl. destruct (decide (t = s)) as [->|Hne]; [by apply G2|].
      unfold is_lied in *. rewrite (ss_lied _ _ _ Hst) in Hl by done.
      rewrite (ss_dirty _ _ _ Hst) by done. by apply B2.
    + intros t Ht Hl. destruct (decide (t = s)) as [->|Hne]; [by apply G3|].
      rewrite (ss_stranded _ _ _ Hst) in Hl by done.
      rewrite (ss_dirty _ _ _ Hst) by done. by apply B3.
    + intros i Hi Hd. destruct (decide (Z.of_nat i / SECTOR_SIZE = s)) as [E|Hne].
      * apply G4; [done..|by rewrite <- E].
      * rewrite (ss_dirty _ _ _ Hst) in Hd by (try done; apply byte_sector).
        rewrite (ss_com _ _ _ Hst), (ss_vis _ _ _ Hst) by done. apply B4; [|done].
        by rewrite <- (ss_vlen _ _ _ Hst).
  - intros t crc n Ho. destruct (decide (t = s)) as [->|Hne]; [by apply G1|].
    rewrite (ss_oracle _ _ _ Hst) in Ho by done. pose proof (Hs t crc n Ho) as Hst'.
    eapply step_stamp; [done..| |done]. unfold is_lied.
    by rewrite (ss_lied _ _ _ Hst) by (try done; apply Hst').
Qed.
(** ** Syncs *)

Lemma visible_range m s :
  0 ≤ s < sectors m →
  visible_bounds m s = (s * SECTOR_SIZE, Z.min (s * SECTOR_SIZE + SECTOR_SIZE) (len (fi_visible m))) ∧
  s * SECTOR_SIZE < len (fi_visible m).
Proof.
  intros [H0 Hs]. apply sector_lt in Hs. unfold size in Hs. unfold visible_bounds, clamp_sector.
  by rewrite (proj2 (Z.leb_gt _ _) Hs).
Qed.

(** The bits of a sector set or cleared. *)
Lemma is_set_here n s b : spans n b → 0 ≤ s < n → is_set (bits_set s b) s = true.
Proof.
  intros [Hw El] Hs. rewrite is_set_set by (done || lia). by rewrite bool_decide_true by lia.
Qed.
Lemma is_set_there n s t b :
  spans n b → 0 ≤ s → 0 ≤ t → t ≠ s → is_set (bits_set s b) t = is_set b t.
Proof.
  intros [Hw El] Hs Ht Hne. rewrite is_set_set by done.
  by rewrite bool_decide_false by (intros [-> _]; done).
Qed.
Lemma is_clear_here n s b : spans n b → 0 ≤ s → is_set (bits_clear s b) s = false.
Proof. intros [Hw El] Hs. rewrite is_set_clear by done. by rewrite bool_decide_true by done. Qed.
Lemma is_clear_there n s t b :
  spans n b → 0 ≤ s → 0 ≤ t → t ≠ s → is_set (bits_clear s b) t = is_set b t.
Proof.
  intros [Hw El] Hs Ht Hne. rewrite is_set_clear by done. by rewrite bool_decide_false by congruence.
Qed.

(** Close the goals of [sector_step] that only the sector sets change. *)
Ltac bits_step Hb :=
  let D := fresh in let L := fresh in let S := fresh in
  pose proof (bits_dirty _ Hb) as D; pose proof (bits_lied _ Hb) as L;
  pose proof (bits_stranded _ Hb) as S;
  first
    [ done
    | by intros; first [ eapply is_set_there | eapply is_clear_there ]; eauto
    | by intros; rewrite lookup_insert_ne by congruence
    | let F := fresh in
      intros F; unfold bitsets in *; img; rewrite !Forall_cons in F |- *;
      decompose [and] F; split_and!; auto with image ].

Lemma sync_sector_step lies m s acc :
  base_ok m → len (fi_committed m) = len (fi_visible m) → 0 ≤ s < sectors m →
  sector_step s m (sync_sector lies (m, acc) s).1.
Proof.
  intros Hb Hl Hs. unfold sync_sector. destruct (visible_range m s Hs) as [-> Hlt].
  set (a := s * SECTOR_SIZE) in *. set (b := Z.min _ _).
  assert (0 ≤ a ≤ b ∧ b ≤ len (fi_committed m) ∧ b ≤ len (fi_visible m)) as (Ha & Hb1 & Hb2)
    by (unfold a, b, SECTOR_SIZE in *; lia).
  assert (0 ≤ s) by lia. destruct (lies s); split; img; try bits_step Hb.
  - by apply len_splice_copy.
  - intros i Hi. rewrite splice_copy by done. rewrite decide_False; [done|].
    intros [H1 H2]. apply Hi, in_sector. unfold a, b in *. lia.
Qed.

Lemma sync_sector_goal lies m s acc :
  image_ok m → len (fi_committed m) = len (fi_visible m) → 0 ≤ s < sectors m →
  is_set (fi_dirty m) s = true → is_set (fi_stranded m) s = false →
  sector_goal s (sync_sector lies (m, acc) s).1 ∧
  is_set (fi_dirty (sync_sector lies (m, acc) s).1) s = lies s.
Proof.
  intros [Hb _] Hl Hs Hd Hns. unfold sync_sector. destruct (visible_range m s Hs) as [-> Hlt].
  set (a := s * SECTOR_SIZE) in *. set (b := Z.min _ _).
  assert (0 ≤ a ≤ b ∧ b ≤ len (fi_committed m) ∧ b ≤ len (fi_visible m) ∧ a < b ≤ a + SECTOR_SIZE)
    as (Ha & Hb1 & Hb2 & Hb3) by (unfold a, b, SECTOR_SIZE in *; lia).
  assert (∀ i, Z.of_nat i < len (fi_visible m) → Z.of_nat i / SECTOR_SIZE = s → a ≤ Z.of_nat i < b)
    as Hin by (intros i ? Hi%in_sector; unfold a, b in *; lia).
  pose proof (bits_lied _ Hb) as HL. pose proof (bits_dirty _ Hb) as HD.
  destruct (lies s) eqn:El; (split; [split|]); img.
  - intros crc n. rewrite lookup_insert_eq. intros [= <- <-].
    split; img; fold a; replace (a + (b - a)) with b by lia; try done; try lia.
    left. unfold is_lied. img. eapply is_set_here; eauto.
  - done.
  - done.
  - intros i _ _ E. by rewrite Hd in E.
  - done.
  - intros crc n. rewrite lookup_insert_eq. intros [= <- <-].
    split; img; fold a; replace (a + (b - a)) with b by lia; try done; try lia.
    + by rewrite len_splice_copy.
    + right. intros i Hi. rewrite splice_copy by done. by rewrite decide_True by lia.
  - intros Hlied. unfold is_lied in Hlied. img.
    rewrite (is_clear_here (sectors m)) in Hlied by (done || lia). done.
  - by rewrite Hns.
  - intros i Hi E _. rewrite splice_copy by done. by rewrite decide_True by auto.
  - eapply is_clear_here; [done|lia].
Qed.

Record synced (lies : Z → bool) (l : list Z) (m m' : FileImage) : Prop := {
  sy_ok : image_ok m';
  sy_len : len (fi_committed m') = len (fi_visible m');
  sy_visible : fi_visible m' = fi_visible m;
  sy_stranded : fi_stranded m' = fi_stranded m;
  sy_dirty t : 0 ≤ t →
    is_set (fi_dirty m') t = is_set (fi_dirty m) t && (bool_decide (t ∉ l) || lies t);
  sy_lied t : 0 ≤ t → is_lied m' t → is_lied m t ∨ lies t = true;
  sy_out i : Z.of_nat i < Z.min (len (fi_visible m)) (len (fi_committed m)) →
    Z.of_nat i / SECTOR_SIZE ∉ l → fi_committed m' !! i = fi_committed m !! i;
}.

Lemma sync_fold lies l m acc :
  NoDup l → image_ok m → len (fi_committed m) = len (fi_visible m) →
  (∀ s, s ∈ l → 0 ≤ s < sectors m ∧ is_set (fi_dirty m) s = true ∧ is_set (fi_stranded m) s = false) →
  synced lies l m (foldl (sync_sector lies) (m, acc) l).1.
Proof.
  intros Hn. revert m acc. induction Hn as [|s l Hx Hn IH]; intros m acc Hm Hl Hq; cbn [foldl].
  - split; try done; [|by intros; left]. intros t Ht. rewrite bool_decide_true by apply not_elem_of_nil.
    by rewrite andb_true_r.
  - destruct (Hq s) as (Hs & Hd & Hns); [apply list_elem_of_here|].
    pose proof (sync_sector_step lies m s acc (proj1 Hm) Hl Hs) as Hst.
    destruct (sync_sector_goal lies m s acc) as [Hg Hds]; [done..|].
    assert (fi_visible (sync_sector lies (m, acc) s).1 = fi_visible m ∧
            fi_stranded (sync_sector lies (m, acc) s).1 = fi_stranded m) as [Hv Hstr].
    { unfold sync_sector. by repeat case_match. }
    pose proof (sector_step_ok s m _ ltac:(lia) Hst Hg Hm) as Hm1.
    assert (is_lied (sync_sector lies (m, acc) s).1 s → lies s = true) as Hls.
    { unfold sync_sector. case_match. destruct (lies s); [done|]. unfold is_lied; img.
      erewrite is_clear_here; [done|by apply bits_lied, Hm|lia]. }
    destruct (sync_sector lies (m, acc) s) as [m1 acc1] eqn:E1. img.
    destruct (IH m1 acc1) as [Y1 Y2 Y3 Y4 Y5 Y6 Y7]; [done| | |].
    { rewrite (ss_clen _ _ _ Hst), (ss_vlen _ _ _ Hst). done. }
    { intros t Ht. destruct (Hq t) as (Ht0 & Htd & Hts); [by apply list_elem_of_further|].
      rewrite (sector_step_sectors _ _ _ Hst). assert (t ≠ s) by (by intros ->).
      rewrite (ss_dirty _ _ _ Hst), (ss_stranded _ _ _ Hst) by (done || lia). done. }
    split; try done.
    + by rewrite Y3.
    + by rewrite Y4.
    + intros t Ht. rewrite Y5, bool_decide_not_cons by done. destruct (decide (s = t)) as [->|Hne].
      * rewrite Hds, Hd, (bool_decide_true (t ∉ l)), (bool_decide_true (t = t)) by done.
        by destruct (lies t).
      * rewrite (ss_dirty _ _ _ Hst), (bool_decide_false (s = t)) by congruence. by rewrite andb_true_r.
    + intros t Ht HL. apply Y6 in HL as [HL|HL]; [|by right|done].
      destruct (decide (t = s)) as [->|Hne]; [by right; apply Hls|left].
      unfold is_lied in *. by rewrite (ss_lied _ _ _ Hst) in HL.
    + intros i Hi [H1 H2]%not_elem_of_cons. rewrite Y7, (ss_com _ _ _ Hst); try done.
      by rewrite (ss_vlen _ _ _ Hst), (ss_clen _ _ _ Hst).
Qed.

Lemma in_flushable m s :
  s ∈ flushable_sectors m ↔
    0 ≤ s < sectors m ∧ is_set (fi_dirty m) s = true ∧ is_set (fi_stranded m) s = false.
Proof.
  unfold flushable_sectors, is_flushable. rewrite list_elem_of_filter, elem_of_seqZ.
  rewrite andb_true_iff, negb_true_iff. rewrite Z.add_0_l. tauto.
Qed.

Definition sync_lies (config : StorageConfiguration) (weight roll : Z → Q) (s : Z) : bool :=
  Qltb 0 (barrier_violation_probability config) &&
  Qltb (roll s) (weighted (barrier_violation_probability config) (weight s)).

(** Cutting or extending the device's image to the visible length keeps the
    invariant. *)
Lemma commit_length_ok m :
  image_ok m →
  let m' := with_committed (vec_resize (fi_committed m) (size m)) m in
  image_ok m' ∧ len (fi_committed m') = len (fi_visible m').
Proof.
  intros [[B1 B2 B3 B4] Hs]. pose proof (len_nonneg (fi_visible m)).
  pose proof (vec_resize_same (fi_committed m) (size m)) as Hv. unfold size in Hv.
  assert (len (vec_resize (fi_committed m) (size m)) = len (fi_visible m)) as Hl
    by by apply len_vec_resize.
  split; [|done]. split.
  - split; [done..|]. intros i Hi Hd. img. pose proof (B4 i Hi Hd) as E. rewrite <- E. apply Hv.
    apply lookup_lt_len in Hi as Hi'. rewrite <- E in Hi'. apply lookup_lt_len in Hi'. lia.
  - eapply stamps_frame; [exact Hs|]. intros s crc n Ho. split; [exact Ho|].
    intros [S1 S2 S3 S4 S5 S6]. img. rewrite Hl. split_and!; [done..|].
    destruct S6 as [S6|S6]; [by left|right]. split; [right|].
    + eapply same_on_trans; [|exact S6]. eapply same_on_sub; [exact Hv|unfold SECTOR_SIZE; lia|lia].
    + intros i Hi. left. apply Hv. unfold SECTOR_SIZE in *. lia.
Qed.

Lemma sync_spec config weight roll m :
  image_ok m →
  synced (sync_lies config weight roll) (flushable_sectors m) m (sync config weight roll m).1.
Proof.
  intros Hm. unfold sync. destruct (commit_length_ok m Hm) as [Hm1 Hl1].
  set (m1 := with_committed _ m) in *.
  change (flushable_sectors m) with (flushable_sectors m1).
  destruct (sync_fold (sync_lies config weight roll) (flushable_sectors m1) m1 [])
    as [Y1 Y2 Y3 Y4 Y5 Y6 Y7].
  - apply NoDup_filter, NoDup_seqZ.
  - done.
  - done.
  - intros s Hs. by apply in_flushable.
  - split; try done. intros i Hi Hl. rewrite Y7; [|rewrite Hl1; change (fi_visible m1) with (fi_visible m); lia|done].
    unfold m1. img. apply vec_resize_same. unfold size. lia.
Qed.
(** ** Failed writeback and dropped caches *)

Lemma clamp_range s limit a b :
  0 ≤ s → 0 ≤ limit → clamp_sector s limit = (a, b) →
  0 ≤ a ≤ b ∧ b ≤ limit ∧ b - a ≤ SECTOR_SIZE ∧
  (∀ i, a ≤ Z.of_nat i < b ↔ Z.of_nat i / SECTOR_SIZE = s ∧ Z.of_nat i < limit).
Proof.
  intros Hs Hl E. destruct (clamp_spec s limit a b Hs Hl E) as [(H1 & -> & ->)|(-> & -> & H1)].
  - split_and!; try (unfold SECTOR_SIZE; lia). intros i. rewrite in_sector. lia.
  - split_and!; try (unfold SECTOR_SIZE in *; lia). intros i. rewrite in_sector. lia.
Qed.

Lemma shared_range m s a b :
  0 ≤ s → shared_bounds m s = (a, b) →
  0 ≤ a ≤ b ∧ b ≤ len (fi_visible m) ∧ b ≤ len (fi_committed m) ∧
  (∀ i, a ≤ Z.of_nat i < b ↔ Z.of_nat i / SECTOR_SIZE = s ∧
     Z.of_nat i < len (fi_visible m) ∧ Z.of_nat i < len (fi_committed m)).
Proof.
  intros Hs E. pose proof (len_nonneg (fi_visible m)). pose proof (len_nonneg (fi_committed m)).
  destruct (clamp_range s (Z.min (len (fi_visible m)) (len (fi_committed m))) a b Hs ltac:(lia) E)
    as (H1 & H2 & _ & H3). split_and!; try lia.
  intros i. rewrite H3. lia.
Qed.

Lemma visible_range_in m s a b i :
  0 ≤ s → visible_bounds m s = (a, b) → Z.of_nat i < len (fi_visible m) →
  Z.of_nat i / SECTOR_SIZE = s → a ≤ Z.of_nat i < b.
Proof.
  intros Hs E Hi Hin. destruct (clamp_range s _ a b Hs (len_nonneg _) E) as (_ & _ & _ & H3).
  by apply H3.
Qed.

(** A stamp no sync lied about: the two images agree on it. *)
Lemma honest_stamp m s crc n i :
  stamps_ok (is_lied m) m → fi_oracle m !! s = Some (crc, n) → is_set (fi_lied m) s = false →
  s * SECTOR_SIZE ≤ Z.of_nat i < s * SECTOR_SIZE + n →
  fi_committed m !! i = fi_visible m !! i ∧ Z.of_nat i / SECTOR_SIZE = s ∧
  Z.of_nat i < len (fi_visible m) ∧ Z.of_nat i < len (fi_committed m).
Proof.
  intros Hs Ho Hl Hi. destruct (Hs s crc n Ho) as [S1 S2 S3 S4 S5 S6].
  destruct S6 as [S6|S6]; [unfold is_lied in S6; congruence|].
  split_and!; [by apply S6|apply in_sector; lia|lia|lia].
Qed.

(** A sector whose visible bytes changed only outside an honest stamp. *)
Lemma restamped m m' s crc n :
  stamps_ok (is_lied m) m → is_set (fi_lied m) s = false →
  fi_oracle m' = fi_oracle m → fi_committed m' = fi_committed m →
  len (fi_visible m') = len (fi_visible m) →
  (∀ i, Z.of_nat i / SECTOR_SIZE = s → Z.of_nat i < len (fi_visible m) →
     Z.of_nat i < len (fi_committed m) → fi_visible m' !! i = fi_committed m !! i) →
  fi_oracle m' !! s = Some (crc, n) → stamp_ok (is_lied m') m' s crc n.
Proof.
  intros Hs Hl Eo Ec El Hv Ho. rewrite Eo in Ho. pose proof (Hs s crc n Ho) as [S1 S2 S3 S4 S5 S6].
  assert (∀ i, s * SECTOR_SIZE ≤ Z.of_nat i < s * SECTOR_SIZE + n →
     fi_visible m' !! i = fi_visible m !! i ∧ fi_visible m' !! i = fi_committed m !! i) as Hi.
  { intros i Hi. destruct (honest_stamp m s crc n i Hs Ho Hl Hi) as (E & H1 & H2 & H3).
    rewrite Hv by done. done. }
  split; [done|done|by rewrite El|by rewrite Ec| |].
  - rewrite S5. f_equal. symmetry. apply slice_same; [unfold SECTOR_SIZE; lia|]. intros i ?. by apply Hi.
  - right. intros i Hr. rewrite Ec. symmetry. by apply Hi.
Qed.

Lemma fail_sector_ok revert m s :
  image_ok m → 0 ≤ s < sectors m → is_set (fi_dirty m) s = true →
  is_set (fi_stranded m) s = false →
  sector_step s m (fail_sector revert m s) ∧ image_ok (fail_sector revert m s).
Proof.
  intros Hm Hs Hd Hns. assert (0 ≤ s) as H0 by lia.
  pose proof (bits_dirty _ (proj1 Hm)) as HD. pose proof (bits_stranded _ (proj1 Hm)) as HS.
  assert (sector_step s m (fail_sector revert m s) ∧ sector_goal s (fail_sector revert m s))
    as [H1 H2]; [|split; [done|by eapply sector_step_ok]].
  unfold fail_sector. destruct (shared_bounds m s) as [a b] eqn:E.
  destruct (shared_range m s a b H0 E) as (Ha & Hv & Hc & Hin).
  destruct (revert && _ && _) eqn:Eb.
  - apply andb_true_iff in Eb as [Eb El%negb_true_iff]. apply andb_true_iff in Eb as [_ Ew].
    apply andb_true_iff in Ew as [Hab%Z.ltb_lt Ew%bool_decide_eq_true]. symmetry in Ew.
    assert (∀ i, splice (fi_visible m) a (slice (fi_committed m) a b) !! i =
              if decide (a ≤ Z.of_nat i < b) then fi_committed m !! i else fi_visible m !! i) as Hsp
      by (intros; by apply splice_copy).
    assert (len (splice (fi_visible m) a (slice (fi_committed m) a b)) = len (fi_visible m)) as Hlen
      by by apply len_splice_copy.
    split; split; img; try bits_step (proj1 Hm).
    + intros i Hi. rewrite Hsp, decide_False; [done|]. rewrite Hin. tauto.
    + intros crc n Ho. eapply restamped; try exact Ho; img; try done; [apply Hm|].
      intros i ???. rewrite Hsp, decide_True; [done|]. by apply Hin.
    + unfold is_lied. img. congruence.
    + congruence.
    + rewrite Hlen. intros i Hi Es _. rewrite Hsp, decide_True; [done|].
      by eapply visible_range_in.
  - split; split; img; try bits_step (proj1 Hm).
    + intros crc n Ho. destruct (proj2 Hm s crc n Ho). by split.
    + congruence.
Qed.

Lemma fail_writeback_ok revert m : image_ok m → image_ok (fail_writeback revert m).1.
Proof.
  intros Hm. unfold fail_writeback. img.
  apply (foldl_inv_todo image_ok (λ m s, 0 ≤ s < sectors m ∧ is_set (fi_dirty m) s = true ∧
                                         is_set (fi_stranded m) s = false)).
  - apply NoDup_filter, NoDup_seqZ.
  - done.
  - intros s Hs. by apply in_flushable.
  - intros x s Hx (H1 & H2 & H3). destruct (fail_sector_ok revert x s) as [Hst Hok]; [done..|].
    split; [done|]. intros t Hne (T1 & T2 & T3). rewrite (sector_step_sectors _ _ _ Hst).
    rewrite (ss_dirty _ _ _ Hst), (ss_stranded _ _ _ Hst) by (done || lia). done.
Qed.

Lemma drop_sector_ok m s :
  image_ok m → 0 ≤ s < sectors m → is_set (fi_lied m) s = false →
  sector_step s m (drop_sector m s) ∧ image_ok (drop_sector m s).
Proof.
  intros Hm Hs Hl. assert (0 ≤ s) as H0 by lia.
  pose proof (bits_dirty _ (proj1 Hm)) as HD. pose proof (bits_stranded _ (proj1 Hm)) as HS.
  assert (sector_step s m (drop_sector m s) ∧ sector_goal s (drop_sector m s))
    as [H1 H2]; [|split; [done|by eapply sector_step_ok]].
  unfold drop_sector. destruct (shared_bounds m s) as [a b] eqn:E.
  destruct (visible_bounds m s) as [va vb] eqn:Ev.
  destruct (shared_range m s a b H0 E) as (Ha & Hv & Hc & Hin).
  assert (0 ≤ va ≤ vb ∧ vb ≤ len (fi_visible m) ∧ vb - va ≤ SECTOR_SIZE ∧
    (∀ i, va ≤ Z.of_nat i < vb ↔ Z.of_nat i / SECTOR_SIZE = s ∧ Z.of_nat i < len (fi_visible m)))
    as (Hva & Hvb & Hvs & Hvin) by (apply clamp_range; [done|apply len_nonneg|done]).
  set (bytes := imap _ _). pose proof (fill_sector_len (fi_fill m) s) as Hf.
  assert (len bytes = vb - va) as Hbl.
  { unfold bytes, len. rewrite length_imap. fold (len (slice (fill_sector (fi_fill m) s) 0 (vb - va))).
    rewrite len_slice; lia. }
  assert (len (splice (fi_visible m) va bytes) = len (fi_visible m)) as Hlen
    by (apply len_splice; lia).
  assert (∀ i, Z.of_nat i / SECTOR_SIZE ≠ s → splice (fi_visible m) va bytes !! i = fi_visible m !! i)
    as Hout.
  { intros i Hi. apply splice_out; [lia..|]. rewrite Hbl. replace (va + (vb - va)) with vb by lia.
    rewrite Hvin. tauto. }
  assert (∀ i, Z.of_nat i / SECTOR_SIZE = s → Z.of_nat i < len (fi_visible m) →
     Z.of_nat i < len (fi_committed m) → splice (fi_visible m) va bytes !! i = fi_committed m !! i)
    as Hkept.
  { intros i H1 H2 H3. pose proof (proj2 (Hvin i) ltac:(done)) as Hi.
    pose proof (proj2 (Hin i) ltac:(done)) as Hi'.
    rewrite lookup_splice by lia. rewrite decide_True by lia.
    unfold bytes. rewrite list_lookup_imap, lookup_slice, decide_True by lia.
    apply lookup_lt_len in H3 as [c Hcc]. rewrite Hcc.
    destruct (lookup_lt_is_Some_2 (fill_sector (fi_fill m) s) (Z.to_nat 0 + (i - Z.to_nat va))%nat)
      as [f ->]; [unfold len in Hf; lia|]. cbn.
    replace (va + Z.of_nat (i - Z.to_nat va)) with (Z.of_nat i) by lia.
    rewrite (proj2 (Z.leb_le _ _)), (proj2 (Z.ltb_lt _ _)) by lia. cbn [andb].
    rewrite Nat2Z.id. f_equal. by apply nth_lookup_Some. }
  clearbody bytes.
  assert (∀ m', fi_oracle m' = fi_oracle m → fi_committed m' = fi_committed m →
    fi_visible m' = splice (fi_visible m) va bytes →
    ∀ crc n, fi_oracle m' !! s = Some (crc, n) → stamp_ok (is_lied m') m' s crc n) as Hstamp.
  { intros m' Eo Ec Evv crc n Ho. eapply restamped; try exact Ho; try done; [apply Hm|by rewrite Evv|].
    by rewrite Evv. }
  destruct (bool_decide ((a, b) = (va, vb))) eqn:Ew; (split; split; img; try bits_step (proj1 Hm)).
  - intros crc n Ho. by apply Hstamp.
  - unfold is_lied; img; congruence.
  - by rewrite (is_clear_here (sectors m)) by done.
  - rewrite Hlen. intros i Hi Es _. apply bool_decide_eq_true in Ew as [= -> ->].
    rewrite Hkept; [done..|]. apply Hin. by apply Hvin.
  - intros crc n Ho. by apply Hstamp.
  - unfold is_lied; img; congruence.
  - by rewrite (is_clear_here (sectors m)) by done.
  - rewrite Hlen. intros i Hi Es Hd. symmetry. apply Hkept; [done..|].
    assert (fi_committed m !! i = fi_visible m !! i) as Eq
      by (apply (ok_clean _ (proj1 Hm)); [done|by rewrite Es]).
    apply lookup_lt_len. rewrite Eq. by apply lookup_lt_len.
Qed.

Lemma drop_cache_ok m :
  image_ok m →
  (∀ s, 0 ≤ s → is_set (fi_stranded m) s = true → is_set (fi_lied m) s = false) →
  image_ok (drop_cache m).1.
Proof.
  intros Hm Hl. unfold drop_cache. img.
  apply (foldl_inv_todo image_ok (λ m s, 0 ≤ s < sectors m ∧ is_set (fi_lied m) s = false)).
  - apply NoDup_filter, NoDup_seqZ.
  - done.
  - intros s [Hs Hq%elem_of_seqZ]%list_elem_of_filter. split; [lia|]. apply Hl; [lia|done].
  - intros x s Hx (H1 & H2). destruct (drop_sector_ok x s) as [Hst Hok]; [done..|].
    split; [done|]. intros t Hne (T1 & T2). rewrite (sector_step_sectors _ _ _ Hst).
    by rewrite (ss_lied _ _ _ Hst) by (done || lia).
Qed.

(** ** Targeted faults *)

(** Changing only the faults, EIO and damage sets keeps the invariant. *)
Lemma marks_ok m m' :
  fi_committed m' = fi_committed m → fi_visible m' = fi_visible m → fi_dirty m' = fi_dirty m →
  fi_lied m' = fi_lied m → fi_stranded m' = fi_stranded m → fi_oracle m' = fi_oracle m →
  Forall (spans (sectors m)) (bitsets m') → image_ok m → image_ok m'.
Proof.
  intros E1 E2 E3 E4 E5 E6 Hb [[B1 B2 B3 B4] Hs]. destruct m, m'; img; subst. split; [by split|].
  intros s crc n Ho. destruct (Hs s crc n Ho). by split.
Qed.

Ltac marks m Hm :=
  apply (marks_ok m); [done|done|done|done|done|done| |exact Hm];
  let F := fresh in
  pose proof (ok_bits _ (proj1 Hm)) as F; unfold bitsets in *; img; rewrite !Forall_cons in F |- *;
  decompose [and] F; split_and!; try case_match; auto with image.

Lemma corrupt_ok l m : image_ok m → image_ok (corrupt l m).
Proof. intros Hm. unfold corrupt, mark_damaged, fail_with_eio, clear_eio. marks m Hm. Qed.
Lemma mark_damaged_ok l m : image_ok m → image_ok (mark_damaged l m).
Proof. intros Hm. unfold corrupt, mark_damaged, fail_with_eio, clear_eio. marks m Hm. Qed.
Lemma fail_with_eio_ok l t m : image_ok m → image_ok (fail_with_eio l t m).
Proof. intros Hm. unfold corrupt, mark_damaged, fail_with_eio, clear_eio. marks m Hm. Qed.
Lemma clear_eio_ok t m : image_ok m → image_ok (clear_eio t m).
Proof. intros Hm. unfold corrupt, mark_damaged, fail_with_eio, clear_eio. marks m Hm. Qed.
End Inv.
