(* ===== verification/ImageCrash.v ===== *)
(** Crashes of the simulated disk: the durability oracle is sound.

    [crash_spec] and [keep_cache_spec] say that a crash of a file in the
    invariant of [ImageInv] never reaches the sweep's panic, loses only
    sectors a sync lied about, keeps every stamped byte of the others, and
    ends in the invariant.  [corrupt_bytes] keeps the invariant on clean
    sectors. *)

From stdpp Require Import base list numbers gmap sorting.
From Stdlib Require Import QArith.
From S2P Require Import Prelude Names Storage Crc Sectors Image ImageInv.
#[local] Open Scope Z_scope.

Section Crash.
Context {R : KeyedRng} {RL : KeyedRngLaws R} {C : Crc32c}.

Ltac img := cbn [fi_committed fi_visible fi_dirty fi_lied fi_stranded fi_faults fi_eio_read
  fi_eio_write fi_damaged fi_oracle fi_fill with_committed with_visible with_dirty with_lied
  with_stranded with_faulty with_eio with_damaged with_oracle fst snd] in *.

(** ** Durable corruption of clean bytes *)

Record flipped (l : list Z) (m m' : FileImage) : Prop := {
  fl_shape : m' = with_visible (fi_visible m') (with_committed (fi_committed m') m);
  fl_clen : len (fi_committed m') = len (fi_committed m);
  fl_vlen : len (fi_visible m') = len (fi_visible m);
  fl_com i : Z.of_nat i ∉ l → fi_committed m' !! i = fi_committed m !! i;
  fl_vis i : Z.of_nat i ∉ l → fi_visible m' !! i = fi_visible m !! i;
  fl_same i : is_set (fi_dirty m) (Z.of_nat i / SECTOR_SIZE) = false →
    Z.of_nat i < len (fi_visible m) →
    fi_committed m !! i = fi_visible m !! i → fi_committed m' !! i = fi_visible m' !! i;
}.

Lemma corrupt_byte_flips m o : 0 ≤ o → flipped [o] m (corrupt_byte m o).
Proof.
  intros Ho. unfold corrupt_byte. set (f := xor_byte _).
  assert (∀ i (l : list byte), Z.of_nat i ≠ o → alter f (Z.to_nat o) l !! i = l !! i) as Hne
    by (intros i l Hi; apply list_lookup_alter_ne; lia).
  img. destruct (_ && _) eqn:E; split; img; try done; try apply len_alter.
  - intros i Hi%not_elem_of_cons. apply Hne. tauto.
  - intros i Hi%not_elem_of_cons. apply Hne. tauto.
  - intros i _ _ Eq. destruct (decide (Z.of_nat i = o)) as [<-|]; [|by rewrite !Hne].
    by rewrite Nat2Z.id, !list_lookup_alter_eq, Eq.
  - intros i Hi%not_elem_of_cons. apply Hne. tauto.
  - intros i Hd Hi Eq. rewrite Hne; [done|]. intros <-. rewrite Hd, andb_true_r in E. lia.
Qed.

Lemma corrupt_byte_fold l m : (∀ o, o ∈ l → 0 ≤ o) → flipped l m (foldl corrupt_byte m l).
Proof.
  revert m. induction l as [|o l IH]; intros m Hl; cbn [foldl]; [by destruct m; split|].
  destruct (corrupt_byte_flips m o) as [F1 F2 F3 F4 F5 F6]; [apply Hl, list_elem_of_here|].
  destruct (IH (corrupt_byte m o)) as [G1 G2 G3 G4 G5 G6];
    [intros; by apply Hl, list_elem_of_further|].
  assert (fi_dirty (corrupt_byte m o) = fi_dirty m) as Hd by by rewrite F1.
  split; [by rewrite G1, F1|congruence|congruence| | |].
  - intros i [H1 H2]%not_elem_of_cons. rewrite G4 by done. apply F4.
    apply not_elem_of_cons. split; [done|apply not_elem_of_nil].
  - intros i [H1 H2]%not_elem_of_cons. rewrite G5 by done. apply F5.
    apply not_elem_of_cons. split; [done|apply not_elem_of_nil].
  - intros i E Hi Eq. apply G6; [by rewrite Hd|by rewrite F3|by apply F6].
Qed.

(** The second loop rewrites the CRC of the sectors of [l], never a length. *)
Lemma restamp_fold l m :
  (∀ s crc n, fi_oracle m !! s = Some (crc, n) → 0 < n ∧ 0 ≤ s ∧ n ≤ SECTOR_SIZE ∧
     s * SECTOR_SIZE + n ≤ len (fi_committed m)) →
  (∀ s, s ∈ l → is_set (fi_dirty m) s = false) →
  let m' := foldl restamp m l in
  m' = with_oracle (fi_oracle m') m ∧
  ∀ s crc n, fi_oracle m' !! s = Some (crc, n) → ∃ crc0, fi_oracle m !! s = Some (crc0, n) ∧
    crc = if decide (s ∈ l)
          then crc32c (slice (fi_committed m) (s * SECTOR_SIZE) (s * SECTOR_SIZE + n)) else crc0.
Proof.
  revert m. induction l as [|t l IH]; intros m Hm Hd; cbn [foldl].
  { split; [by destruct m|]. intros s crc n Ho. exists crc. split; [done|].
    by rewrite decide_False by apply not_elem_of_nil. }
  assert (restamp m t = with_oracle (fi_oracle (restamp m t)) m ∧
    ∀ s crc n, fi_oracle (restamp m t) !! s = Some (crc, n) → ∃ crc0, fi_oracle m !! s = Some (crc0, n) ∧
      crc = if decide (s = t)
            then crc32c (slice (fi_committed m) (s * SECTOR_SIZE) (s * SECTOR_SIZE + n)) else crc0)
    as [E1 Ho1].
  { unfold restamp. rewrite Hd by apply list_elem_of_here.
    destruct (fi_oracle m !! t) as [[crc0 n0]|] eqn:Et.
    - destruct (Hm t crc0 n0 Et) as (H1 & H2 & H3 & H4).
      unfold committed_bounds, clamp_sector. rewrite (proj2 (Z.leb_gt _ _)) by lia.
      rewrite Z.min_l by lia. img. split; [done|]. intros s crc n Ho.
      apply lookup_insert_Some in Ho as [[<- [= <- <-]]|[Hne Ho]].
      + exists crc0. rewrite decide_True by done.
        split; [by replace (t * SECTOR_SIZE + n0 - t * SECTOR_SIZE) with n0 by lia|].
        do 2 f_equal. lia.
      + exists crc. by rewrite decide_False by congruence.
    - split; [by destruct m|]. intros s crc n Ho. exists crc. split; [done|].
      by rewrite decide_False by congruence. }
  destruct (IH (restamp m t)) as [E2 Ho2].
  { rewrite E1. img. intros s crc n Ho. destruct (Ho1 s crc n Ho) as (crc0 & H0 & _). by eapply Hm. }
  { rewrite E1. img. intros s Hs. by apply Hd, list_elem_of_further. }
  split; [rewrite E2, E1; done|]. intros s crc n Ho.
  destruct (Ho2 s crc n Ho) as (crc1 & H1 & ->). destruct (Ho1 s crc1 n H1) as (crc0 & H0 & ->).
  exists crc0. split; [done|]. rewrite E1. img. destruct (decide (s ∈ l)) as [Hin|Hin].
  - by rewrite (decide_True (P := s ∈ t :: l)) by by apply list_elem_of_further.
  - destruct (decide (s = t)) as [->|Hne].
    + by rewrite decide_True by apply list_elem_of_here.
    + by rewrite decide_False by by apply not_elem_of_cons.
Qed.

Lemma corrupt_bytes_ok first last m :
  0 ≤ first →
  (∀ o, first ≤ o < last → is_set (fi_dirty m) (o / SECTOR_SIZE) = false) →
  image_ok m → image_ok (corrupt_bytes first last m).1.
Proof.
  intros Hf Hd Hm. unfold corrupt_bytes. destruct (Z.ltb_spec (len (fi_committed m)) last); [done|].
  destruct (Z.leb_spec last first) as [Hle|Hlt]; [by rewrite seqZ_nil by lia|].
  destruct (corrupt_byte_fold (seqZ first (last - first)) m) as [F1 F2 F3 F4 F5 F6].
  { intros o Ho%elem_of_seqZ. lia. }
  set (m1 := foldl corrupt_byte m _) in *.
  set (lo := first / SECTOR_SIZE) in *. set (l := seqZ lo _). destruct Hm as [Hb Hs].
  assert (∀ s, s ∈ l → is_set (fi_dirty m) s = false) as Hl.
  { intros s Hin%elem_of_seqZ.
    destruct (decide (s = lo)) as [->|]; [apply Hd; lia|].
    replace s with (s * SECTOR_SIZE / SECTOR_SIZE) by (apply Z.div_mul; done). apply Hd.
    unfold lo, SECTOR_SIZE in *. pose proof (Z.div_mod first 512). pose proof (Z.mod_pos_bound first 512).
    pose proof (Z.div_mod (last - 1) 512). pose proof (Z.mod_pos_bound (last - 1) 512). lia. }
  assert (∀ i, Z.of_nat i / SECTOR_SIZE ∉ l → Z.of_nat i ∉ seqZ first (last - first)) as Hout.
  { intros i Hi Hin%elem_of_seqZ. apply Hi, elem_of_seqZ. unfold lo. split.
    - apply Z.div_le_mono; [done|lia].
    - assert (Z.of_nat i / SECTOR_SIZE ≤ (last - 1) / SECTOR_SIZE); [|lia].
      apply Z.div_le_mono; [done|lia]. }
  assert (fi_oracle m1 = fi_oracle m ∧ fi_dirty m1 = fi_dirty m) as [Eo Ed] by by rewrite F1.
  destruct (restamp_fold l m1) as [E2 Ho2].
  { intros s crc n Ho. rewrite Eo in Ho. destruct (Hs s crc n Ho). rewrite F2. lia. }
  { by rewrite Ed. }
  assert (base_ok m1) as Hb1.
  { destruct Hb as [B1 B2 B3 B4]. rewrite F1 in *. img.
    split; img; [|done..|].
    - by unfold sectors, size in *; img; rewrite F3.
    - rewrite F3. intros i Hi Hdi. apply F6; [done|done|]. by apply B4. }
  set (m2 := foldl restamp m1 l) in *. split; [rewrite E2; by destruct Hb1; split|].
  intros s crc n Ho. destruct (Ho2 s crc n Ho) as (crc0 & H0 & Ec). rewrite Eo in H0.
  pose proof (Hs s crc0 n H0) as [S1 S2 S3 S4 S5 S6]. rewrite E2.
  assert (is_lied (with_oracle (fi_oracle m2) m1) s ↔ is_lied m s) as EL
    by (unfold is_lied; img; by rewrite F1).
  assert (∀ i, s * SECTOR_SIZE ≤ Z.of_nat i < s * SECTOR_SIZE + n → Z.of_nat i / SECTOR_SIZE = s) as Hi
    by (intros i Hi; apply in_sector; lia).
  destruct (decide (s ∈ l)) as [Hin|Hin].
  - assert (stamped s n (fi_committed m1) (fi_visible m1)) as Hsame.
    { intros i Hr. apply F6; [by rewrite (Hi i Hr), Hl|lia|].
      destruct S6 as [S6|S6]; [|by apply S6].
      apply (ok_lied _ Hb) in S6; [|done]. by rewrite Hl in S6. }
    split; img; [done|done|by rewrite F3|by rewrite F2| |by right].
    rewrite Ec. f_equal. apply slice_same; [unfold SECTOR_SIZE; lia|done].
  - split; img; [done|done|by rewrite F3|by rewrite F2| |].
    + rewrite Ec, S5. f_equal. symmetry. apply slice_same; [unfold SECTOR_SIZE; lia|].
      intros i Hr. apply F5, Hout. by rewrite (Hi i Hr).
    + rewrite EL. destruct S6 as [S6|S6]; [by left|right]. intros i Hr.
      rewrite F4, F5 by (apply Hout; by rewrite (Hi i Hr)). by apply S6.
Qed.
(** ** Resolving the dirty sectors *)

(** What resolving one sector did. *)
Record resolved (s : Z) (m m' : FileImage) : Prop := {
  re_visible : fi_visible m' = fi_visible m;
  re_oracle : fi_oracle m' = fi_oracle m;
  re_len : len (fi_committed m') = len (fi_committed m);
  re_out i : Z.of_nat i / SECTOR_SIZE ≠ s → fi_committed m' !! i = fi_committed m !! i;
  re_prefix i : is_set (fi_lied m) s = false →
    s * SECTOR_SIZE ≤ Z.of_nat i < s * SECTOR_SIZE + protected_prefix m s →
    fi_committed m' !! i = fi_committed m !! i ∨ fi_committed m' !! i = fi_visible m !! i;
  re_bits : Forall (spans (sectors m)) (bitsets m') ;
  re_lied t : 0 ≤ t → is_lied m' t → is_lied m t;
}.

Lemma resolved_refl s m : Forall (spans (sectors m)) (bitsets m) → resolved s m m.
Proof. intros. split; try done. intros. by left. Qed.

(** A device image that replaced part of a sector, settled and marked. *)
Lemma resolved_intro s m c f d :
  Forall (spans (sectors m)) (bitsets m) → 0 ≤ s →
  len c = len (fi_committed m) →
  (∀ i, Z.of_nat i / SECTOR_SIZE ≠ s → c !! i = fi_committed m !! i) →
  (∀ i, is_set (fi_lied m) s = false →
    s * SECTOR_SIZE ≤ Z.of_nat i < s * SECTOR_SIZE + protected_prefix m s →
    c !! i = fi_committed m !! i ∨ c !! i = fi_visible m !! i) →
  spans (sectors m) f → spans (sectors m) d →
  resolved s m (with_damaged d (with_faulty f (settle s (with_committed c m)))).
Proof.
  intros Hb Hs H1 H2 H3 Hf Hd. unfold bitsets in Hb. rewrite !Forall_cons in Hb.
  destruct Hb as (D1 & D2 & D3 & D4 & D5 & D6 & D7 & D8). split; unfold settle; img; try done.
  - unfold bitsets. img. rewrite !Forall_cons. split_and!; auto using spans_clear.
  - intros t Ht. unfold is_lied. img. destruct D2 as [D2 _]. rewrite is_set_clear by done.
    by intros [_ ?]%andb_true_iff.
Qed.

(** The bytes of [a..b) of the visible image, landed on the device. *)
Lemma landed s m a b :
  0 ≤ a ≤ b → b ≤ len (fi_visible m) → b ≤ len (fi_committed m) →
  (∀ i, a ≤ Z.of_nat i < b → Z.of_nat i / SECTOR_SIZE = s) →
  let c := splice (fi_committed m) a (slice (fi_visible m) a b) in
  len c = len (fi_committed m) ∧
  (∀ i, Z.of_nat i / SECTOR_SIZE ≠ s → c !! i = fi_committed m !! i) ∧
  (∀ i, c !! i = fi_committed m !! i ∨ c !! i = fi_visible m !! i).
Proof.
  intros H1 H2 H3 H4. cbn zeta. split_and!; [by apply len_splice_copy| |].
  - intros i Hi. rewrite splice_copy by done. rewrite decide_False; [done|]. intros Hr. auto.
  - intros i. rewrite splice_copy by done. case_decide; auto.
Qed.

Lemma with_committed_id m : with_committed (fi_committed m) m = m.
Proof. by destruct m. Qed.

(** The device image [commit_sector] leaves. *)
Lemma commit_sector_shape s m :
  0 ≤ s → ∃ c, commit_sector s m = settle s (with_committed c m) ∧ len c = len (fi_committed m) ∧
    (∀ i, Z.of_nat i / SECTOR_SIZE ≠ s → c !! i = fi_committed m !! i) ∧
    (∀ i, c !! i = fi_committed m !! i ∨ c !! i = fi_visible m !! i).
Proof.
  intros Hs. unfold commit_sector. destruct (shared_bounds m s) as [a b] eqn:E.
  destruct (shared_range m s a b Hs E) as (Ha & Hv & Hc & Hin).
  destruct (Z.ltb_spec a b).
  - destruct (landed s m a b Ha Hv Hc) as (L1 & L2 & L3); [intros i Hi; by apply Hin|]. eauto.
  - exists (fi_committed m). rewrite with_committed_id. split_and!; auto.
Qed.

(** The device image a lost sector leaves: the fill, past the protected prefix. *)
Lemma lost_landed s m a b :
  0 ≤ s → committed_bounds m s = (a, b) →
  let start := Z.min (a + protected_prefix m s) b in
  0 ≤ protected_prefix m s → start < b →
  let c := splice (fi_committed m) start
             (slice (fill_sector (fi_fill m) s) (start - a) (b - a)) in
  len c = len (fi_committed m) ∧
  (∀ i, Z.of_nat i / SECTOR_SIZE ≠ s → c !! i = fi_committed m !! i) ∧
  (∀ i, s * SECTOR_SIZE ≤ Z.of_nat i < s * SECTOR_SIZE + protected_prefix m s →
     c !! i = fi_committed m !! i).
Proof.
  intros Hs E start Hp Hlt. pose proof (len_nonneg (fi_committed m)) as H0.
  destruct (clamp_range s _ a b Hs H0 E) as (Ha & Hb & Hl & Hin).
  pose proof (clamp_spec s _ a b Hs H0 E) as Hcl.
  pose proof (fill_sector_len (fi_fill m) s) as Hf.
  assert (a ≤ start) as Hst by lia.
  assert (len (slice (fill_sector (fi_fill m) s) (start - a) (b - a)) = b - start) as Hsl
    by (rewrite len_slice; lia).
  cbn zeta. split_and!.
  - apply len_splice; lia.
  - intros i Hi. apply splice_out; [lia..|]. rewrite Hsl. intros Hr. apply Hi, (Hin i). lia.
  - intros i Hi. apply splice_out; [lia..|]. rewrite Hsl. lia.
Qed.

Lemma protected_nonneg L m s : stamps_ok L m → 0 ≤ protected_prefix m s.
Proof.
  intros Hs. unfold protected_prefix. case_match; [done|].
  destruct (fi_oracle m !! s) as [[crc n]|] eqn:E; [|done]. destruct (Hs s crc n E). lia.
Qed.

Lemma apply_outcome_resolved split prefix_new s o m :
  Forall (spans (sectors m)) (bitsets m) → 0 ≤ protected_prefix m s → 0 ≤ s →
  resolved s m (apply_outcome split prefix_new s o m).1.
Proof.
  intros Hb Hp Hs. pose proof Hb as Hb'. unfold bitsets in Hb'. rewrite !Forall_cons in Hb'.
  destruct Hb' as (D1 & D2 & D3 & D4 & D5 & D6 & D7 & D8).
  assert (∀ f d, spans (sectors m) f → spans (sectors m) d →
    resolved s m (with_damaged d (with_faulty f (settle s m)))) as Hnone.
  { intros f d Hf Hd. rewrite <- (with_committed_id m) at 2. apply resolved_intro; auto. }
  assert (∀ c, with_damaged (fi_damaged m) (with_faulty (fi_faults m) (settle s (with_committed c m))) =
    settle s (with_committed c m)) as Hid by by destruct m.
  assert (with_damaged (fi_damaged m) (with_faulty (fi_faults m) (settle s m)) = settle s m) as Hid0
    by by destruct m.
  destruct (commit_sector_shape s m Hs) as (cc & Ec & C1 & C2 & C3).
  destruct o; cbn [apply_outcome].
  - img. rewrite <- Hid0. by apply Hnone.
  - img. rewrite Ec, <- Hid. apply resolved_intro; auto.
  - destruct (committed_bounds m s) as [a b] eqn:E. img.
    destruct (Z.ltb_spec (Z.min (a + protected_prefix m s) b) b) as [Hlt|Hge].
    + destruct (lost_landed s m a b Hs E Hp Hlt) as (L1 & L2 & L3).
      apply (resolved_intro s m _ (fi_faults m) (bits_set s (fi_damaged m)));
        auto using spans_set.
    + apply (Hnone (fi_faults m)); auto using spans_set.
  - img. rewrite Ec. apply resolved_intro; auto using spans_set.
  - destruct (shared_bounds m s) as [a b] eqn:E.
    destruct (shared_range m s a b Hs E) as (Ha & Hv & Hc & Hin).
    destruct (Z.leb_spec (b - a) 1) as [Hle|Hgt]; [img; rewrite <- Hid0; by apply Hnone|].
    set (k := sim_random_range split 1 (b - a)).
    assert (1 ≤ k < b - a) as Hk.
    { unfold k, sim_random_range. pose proof (Z.mod_pos_bound split (b - a - 1)). lia. }
    destruct (if prefix_new then (a, a + k) else (a + k, b)) as [ka kb] eqn:Ek. img.
    assert (a ≤ ka ≤ kb ∧ kb ≤ b) as [Hka Hkb]
      by (destruct prefix_new; injection Ek as <- <-; lia).
    destruct (landed s m ka kb) as (L1 & L2 & L3); [lia..|intros i Hi; apply Hin; lia|].
    apply (resolved_intro s m _ (fi_faults m) (bits_set s (fi_damaged m))); auto using spans_set.
Qed.

(** A crash in progress: [L] are the sectors that were lied about. *)
Record mid_ok (L : Z → Prop) (m : FileImage) : Prop := {
  mi_bits : Forall (spans (sectors m)) (bitsets m);
  mi_stamps : stamps_ok L m;
  mi_lied s : 0 ≤ s → is_lied m s → L s;
}.

Record landed_on (L : Z → Prop) (l : list Z) (m m' : FileImage) : Prop := {
  la_mid : mid_ok L m';
  la_visible : fi_visible m' = fi_visible m;
  la_oracle : fi_oracle m' = fi_oracle m;
  la_len : len (fi_committed m') = len (fi_committed m);
  la_out i : Z.of_nat i / SECTOR_SIZE ∉ l → fi_committed m' !! i = fi_committed m !! i;
}.

Lemma resolved_mid L s m m' : mid_ok L m → resolved s m m' → mid_ok L m'.
Proof.
  intros [M1 M2 M3] [R1 R2 R3 R4 R5 R6 R7].
  assert (sectors m' = sectors m) as Hsec by (unfold sectors, size; by rewrite R1).
  split; [by rewrite Hsec| |by eauto].
  eapply stamps_frame; [exact M2|]. intros t crc n Ho. rewrite R2 in Ho. split; [done|].
  intros Hst. pose proof Hst as [S1 S2 S3 S4 S5 S6]. rewrite R1, R3. split_and!; [done..|].
  destruct S6 as [S6|S6]; [by left|].
  destruct (is_set (fi_lied m) t) eqn:El; [left; by apply M3|right].
  assert (∀ i, t * SECTOR_SIZE ≤ Z.of_nat i < t * SECTOR_SIZE + n →
    fi_committed m' !! i = fi_committed m !! i ∨ fi_committed m' !! i = fi_visible m !! i) as Hi.
  { intros i Hi. destruct (decide (Z.of_nat i / SECTOR_SIZE = s)) as [E|Hne]; [|left; by apply R4].
    assert (t = s) as -> by (rewrite <- E; symmetry; apply in_sector; lia).
    apply R5; [done|]. unfold protected_prefix. by rewrite El, Ho. }
  split; [right|done]. intros i Hr. destruct (Hi i Hr) as [->| ->]; [by apply S6|done].
Qed.

Lemma land_fold {A} (L : Z → Prop) (f : FileImage * A → Z → FileImage * A) l m a :
  mid_ok L m → (∀ s, s ∈ l → 0 ≤ s) →
  (∀ x s, mid_ok L x.1 → 0 ≤ s → resolved s x.1 (f x s).1) →
  landed_on L l m (foldl f (m, a) l).1.
Proof.
  intros Hm Hl Hf.
  assert (∀ l x, mid_ok L x.1 → (∀ s, s ∈ l → 0 ≤ s) → landed_on L l x.1 (foldl f x l).1) as H;
    [|by apply (H l (m, a))].
  clear l m a Hm Hl. induction l as [|s l IH]; intros x Hx Hl; cbn [foldl]; [by split|].
  pose proof (Hf x s Hx (Hl s (list_elem_of_here _ _))) as Hr.
  pose proof (resolved_mid L s _ _ Hx Hr) as Hx'. destruct Hr as [R1 R2 R3 R4 R5 R6 R7].
  destruct (IH (f x s) Hx') as [A1 A2 A3 A4 A5]; [intros; by apply Hl, list_elem_of_further|].
  split; [done|congruence..|]. intros i [H1 H2]%not_elem_of_cons. by rewrite A5, R4.
Qed.
(** ** The sweep *)

Lemma sweep_stamps_ok lied armed l m lost :
  (∀ s crc n, (s, (crc, n)) ∈ l →
     0 ≤ s ∧ 0 < n ≤ SECTOR_SIZE ∧ s * SECTOR_SIZE + n ≤ len (fi_committed m) ∧
     (armed = true ∧ s ∈ lied ∨
      crc32c (slice (fi_committed m) (s * SECTOR_SIZE) (s * SECTOR_SIZE + n)) = crc)) →
  ∃ lost', sweep_stamps lied armed l m lost = Some (m, lost') ∧
    (∀ s, s ∈ lost → s ∈ lost') ∧
    (∀ s, s ∈ lost' → s ∈ lost ∨ s ∈ lied) ∧
    (∀ s crc n, (s, (crc, n)) ∈ l → s ∉ lost' →
       crc32c (slice (fi_committed m) (s * SECTOR_SIZE) (s * SECTOR_SIZE + n)) = crc).
Proof.
  revert lost. induction l as [|[s [crc n]] l IH]; intros lost Hl; cbn [sweep_stamps].
  { exists lost. split_and!; auto. intros ??? []%elem_of_nil. }
  destruct (Hl s crc n (list_elem_of_here _ _)) as (H1 & H2 & H3 & H4).
  assert (∀ s crc n, (s, (crc, n)) ∈ l → _) as Hl' by
    (intros s' crc' n' Hin; exact (Hl s' crc' n' (list_elem_of_further _ _ _ Hin))).
  unfold committed_bounds, clamp_sector. rewrite (proj2 (Z.leb_gt _ _)) by lia.
  rewrite (proj2 (Z.ltb_ge _ _)) by lia.
  destruct (Z.eqb_spec (crc32c (slice (fi_committed m) (s * SECTOR_SIZE) (s * SECTOR_SIZE + n))) crc)
    as [E|Hne].
  - destruct (IH lost Hl') as (lost' & R1 & R2 & R3 & R4). exists lost'. split_and!; auto.
    intros s' crc' n' [[= -> -> ->]|Hin]%elem_of_cons; eauto.
  - destruct H4 as [[-> Hin]|?]; [|done]. rewrite bool_decide_true by done. cbn [andb].
    destruct (IH (lost ++ [s]) Hl') as (lost' & R1 & R2 & R3 & R4). exists lost'. split_and!; auto.
    + intros t Ht. apply R2, elem_of_app. by left.
    + intros t Ht. destruct (R3 t Ht) as [[?|Ht']%elem_of_app|?]; [by left| |by right].
      apply list_elem_of_singleton in Ht' as ->. by right.
    + intros s' crc' n' [[= -> -> ->]|Hin']%elem_of_cons Hni; [|by eauto].
      exfalso. apply Hni, R2, elem_of_app. right. by apply list_elem_of_singleton.
Qed.

Lemma elem_of_stamps m s x : (s, x) ∈ stamps m ↔ fi_oracle m !! s = Some x.
Proof. unfold stamps. rewrite merge_sort_Permutation. apply elem_of_map_to_list. Qed.

Lemma converge_ok m : base_ok (converge m).
Proof.
  assert (0 ≤ sectors (with_visible (fi_committed m) m)) as H0 by apply sectors_nonneg.
  split.
  - change (sectors (converge m)) with (sectors (with_visible (fi_committed m) m)).
    pose proof (resize_bitsets_spans _ (with_visible (fi_committed m) m) H0) as Hb.
    unfold bitsets, converge in *. img. rewrite !Forall_cons in Hb |- *.
    destruct Hb as (? & ? & ? & ?). split_and!; auto using spans_clear_all; tauto.
  - intros s Hs. unfold is_lied, converge. img. by rewrite is_set_clear_all.
  - intros s Hs. unfold converge. img. by rewrite is_set_clear_all.
  - done.
Qed.

Lemma finish_spec (L : Z → Prop) lied armed m :
  mid_ok L m → (∀ s, L s → s ∈ lied) → armed = true ∨ lied = [] →
  ∃ m' lost, finish_crash lied armed m = Some (m', lost) ∧ image_ok m' ∧
    fi_committed m' = fi_committed m ∧ fi_visible m' = fi_committed m ∧
    (∀ s, 0 ≤ s → is_set (fi_dirty m') s = false) ∧
    (∀ s, 0 ≤ s → is_set (fi_stranded m') s = false) ∧
    (∀ s, s ∈ lost → s ∈ lied).
Proof.
  intros [M1 M2 M3] HL Ha. unfold finish_crash, oracle_sweep.
  set (m1 := converge m). pose proof (converge_ok m) as Hb1.
  destruct (sweep_stamps_ok lied armed (stamps m1) m1 []) as (lost & R1 & _ & R3 & R4).
  { intros s crc n Hin%elem_of_stamps. change (fi_oracle m1) with (fi_oracle m) in Hin.
    destruct (M2 s crc n Hin) as [S1 S2 S3 S4 S5 S6]. split_and!; try done; try lia.
    destruct S6 as [S6|S6].
    - left. apply HL in S6. split; [|done]. destruct Ha as [->| ->]; [done|]. by apply elem_of_nil in S6.
    - right. rewrite S5. f_equal. apply slice_same; [unfold SECTOR_SIZE; lia|done]. }
  rewrite R1. cbn [mbind option_bind]. eexists _, lost. split; [reflexivity|].
  set (m2 := with_damaged _ _).
  assert (Forall (spans (sectors m1)) (bitsets m1)) as B1 by apply (ok_bits _ Hb1).
  split_and!; [| done| done| | |].
  - split.
    + destruct Hb1 as [B1' B2 B3 B4]. split; [|done..].
      change (sectors m2) with (sectors m1). unfold bitsets, m2 in *. img.
      rewrite !Forall_cons in B1 |- *. destruct B1 as (?&?&?&?&?&?&?&?). split_and!; auto.
      by apply spans_set_sectors.
    + intros s crc n Ho. change (fi_oracle m2) with (foldl (λ o s, delete s o) (fi_oracle m1) lost) in Ho.
      apply delete_fold in Ho as [Hnl Ho].
      destruct (M2 s crc n Ho) as [S1 S2 S3 S4 S5 S6]. split; try done.
      * symmetry. apply R4; [by apply elem_of_stamps|done].
      * by right.
  - intros s Hs. unfold m2, m1, converge. img. apply is_set_clear_all.
  - intros s Hs. unfold m2, m1, converge. img. apply is_set_clear_all.
  - intros s Hs. destruct (R3 s Hs) as [[]%elem_of_nil|?]; done.
Qed.

(** ** The crash *)

Lemma in_dirty m s : s ∈ dirty_sectors m ↔ 0 ≤ s < sectors m ∧ is_set (fi_dirty m) s = true.
Proof.
  unfold dirty_sectors. rewrite list_elem_of_filter, elem_of_seqZ, Z.add_0_l. tauto.
Qed.

Lemma in_lied m s : s ∈ lied_sectors m ↔ is_lied m s ∧ 0 ≤ s < sectors m ∧ is_set (fi_dirty m) s = true.
Proof. unfold lied_sectors. by rewrite list_elem_of_filter, in_dirty. Qed.

(** What resolving the length left; [m] is the file before the crash. *)
Record length_resolved (m m1 : FileImage) : Prop := {
  lr_bits : Forall (spans (sectors m1)) (bitsets m1);
  lr_stamps : stamps_ok (is_lied m) m1;
  lr_oracle : fi_oracle m1 = fi_oracle m;
  lr_lied s : 0 ≤ s < sectors m1 → is_set (fi_lied m1) s = is_set (fi_lied m) s;
  lr_dirty s : 0 ≤ s < sectors m1 → is_set (fi_dirty m1) s = is_set (fi_dirty m) s;
  lr_visible : same_on 0 (len (fi_visible m1)) (fi_visible m1) (fi_visible m);
  lr_committed : same_on 0 (Z.min (len (fi_visible m)) (len (fi_committed m)))
    (fi_committed m1) (fi_committed m);
  lr_len : len (fi_committed m1) = len (fi_visible m) ∨ len (fi_committed m1) = len (fi_committed m);
}.

Lemma length_resolved_refl m : image_ok m → length_resolved m m.
Proof. intros [[B1 B2 B3 B4] Hs]. split; try done. by right. Qed.

Lemma length_survives_ok m : image_ok m → length_resolved m (length_survives m).
Proof.
  intros [[B1 B2 B3 B4] Hs]. unfold length_survives, size.
  pose proof (len_nonneg (fi_visible m)) as Hv0. pose proof (len_nonneg (fi_committed m)) as Hc0.
  destruct (fill_extension_spec (fi_fill m) (vec_resize (fi_committed m) (len (fi_visible m)))
              (len (fi_committed m)) Hc0) as [Hl Hs1].
  rewrite len_vec_resize in Hl by done. pose proof (vec_resize_same (fi_committed m) (len (fi_visible m))) as Hs2.
  set (c := fill_extension _ _ _) in *.
  assert (same_on 0 (Z.min (len (fi_visible m)) (len (fi_committed m))) c (fi_committed m)) as Hsame.
  { eapply same_on_trans; [|eapply same_on_sub; [exact Hs2|lia|lia]].
    eapply same_on_sub; [exact Hs1|lia|lia]. }
  split; img; try done; [|by left].
  eapply stamps_frame; [exact Hs|]. intros s crc n Ho. split; [exact Ho|].
  intros [S1 S2 S3 S4 S5 S6]. img. rewrite Hl. split_and!; [done..|].
  assert (stamped s n c (fi_committed m)) as Hst
    by (eapply same_on_sub; [exact Hsame|unfold SECTOR_SIZE; lia|lia]).
  destruct S6 as [S6|S6]; [by left|right]. split; [right; by eapply same_on_trans|].
  intros i Hi. left. by apply Hst.
Qed.

Lemma length_reverts_ok m :
  image_ok m →
  let m1 := with_visible (take (Z.to_nat (len (fi_committed m))) (fi_visible m)) m in
  length_resolved m (resize_bitsets (sectors m1) m1).
Proof.
  intros [[B1 B2 B3 B4] Hs] m1. pose proof (len_nonneg (fi_committed m)).
  assert (len (fi_visible m1) = Z.min (len (fi_committed m)) (len (fi_visible m))) as Hl.
  { unfold m1, len. img. rewrite length_take. lia. }
  assert (same_on 0 (len (fi_visible m1)) (fi_visible m1) (fi_visible m)) as Hv.
  { rewrite Hl. intros i Hi. apply lookup_take_lt. lia. }
  split; try done.
  - change (sectors (resize_bitsets (sectors m1) m1)) with (sectors m1).
    apply resize_bitsets_spans, sectors_nonneg.
  - eapply stamps_frame; [exact Hs|]. intros s crc n Ho. split; [exact Ho|].
    intros [S1 S2 S3 S4 S5 S6]. change (fi_visible (resize_bitsets _ _)) with (fi_visible m1).
    change (fi_committed (resize_bitsets _ _)) with (fi_committed m). rewrite Hl.
    split_and!; [lia|done| |].
    + eapply same_on_sub; [exact Hv|unfold SECTOR_SIZE; lia|rewrite Hl; lia].
    + destruct S6 as [S6|S6]; [by left|right]. split; [by right|]. intros; by left.
  - intros s Hr. change (sectors (resize_bitsets (sectors m1) m1)) with (sectors m1) in Hr.
    unfold resize_bitsets. img. rewrite is_set_resized by (lia || apply sectors_nonneg).
    rewrite (proj2 (Z.ltb_lt _ _)) by lia. done.
  - intros s Hr. change (sectors (resize_bitsets (sectors m1) m1)) with (sectors m1) in Hr.
    unfold resize_bitsets. img. rewrite is_set_resized by (lia || apply sectors_nonneg).
    rewrite (proj2 (Z.ltb_lt _ _)) by lia. done.
  - by right.
Qed.

Lemma length_resolved_mid m m1 :
  image_ok m → length_resolved m m1 → mid_ok (λ s, s ∈ lied_sectors m1) m1.
Proof.
  intros [[B1 B2 B3 B4] _] [H1 H2 H3 H4 H5 H6 H7 H8].
  assert (∀ s, 0 ≤ s < sectors m1 → is_lied m s → s ∈ lied_sectors m1) as HL.
  { intros s Hs Hl. apply in_lied. unfold is_lied. rewrite H4, H5 by done.
    split_and!; [done|lia|lia|]. apply B2; [lia|done]. }
  split; [done| |].
  - intros s crc n Ho. pose proof (H2 s crc n Ho) as Hst. pose proof (stamp_sector _ _ _ _ _ Hst) as Hsec.
    destruct Hst as [S1 S2 S3 S4 S5 S6]. split; try done. destruct S6 as [S6|S6]; [left|by right].
    by apply HL.
  - intros s Hs Hl. unfold bitsets in H1. rewrite !Forall_cons in H1. destruct H1 as (_ & [_ El] & _).
    pose proof (is_set_lt _ _ Hl). apply HL; [lia|]. unfold is_lied in *. rewrite <- H4; [done|lia].
Qed.

(** What a crash or a kill left of a file. *)
Record survived (m m' : FileImage) (lost : list Z) : Prop := {
  su_ok : image_ok m';
  su_converged : fi_visible m' = fi_committed m';
  su_clean s : 0 ≤ s → is_set (fi_dirty m') s = false ∧ is_set (fi_stranded m') s = false;
  su_len : len (fi_committed m') = len (fi_visible m) ∨ len (fi_committed m') = len (fi_committed m);
  su_lost s : s ∈ lost → 0 ≤ s ∧ is_lied m s;
  su_stamped s crc n : fi_oracle m !! s = Some (crc, n) → is_set (fi_lied m) s = false →
    stamped s n (fi_committed m') (fi_visible m);
  su_kept i : Z.of_nat i < len (fi_visible m) →
    is_set (fi_dirty m) (Z.of_nat i / SECTOR_SIZE) = false →
    fi_committed m' !! i = fi_visible m !! i;
}.

(** Length, then sectors, then the sweep. *)
Lemma survives m m1 m2 armed :
  image_ok m → length_resolved m m1 →
  landed_on (λ s, s ∈ lied_sectors m1) (dirty_sectors m1) m1 m2 →
  (armed = true ∨ ∀ s, 0 ≤ s → is_set (fi_lied m) s = false) →
  ∃ m' lost, finish_crash (lied_sectors m1) armed m2 = Some (m', lost) ∧ survived m m' lost.
Proof.
  intros Hm Hr [A1 A2 A3 A4 A5] Ha. pose proof Hr as [H1 H2 H3 H4 H5 H6 H7 H8].
  assert (∀ s, s ∈ lied_sectors m1 → 0 ≤ s ∧ is_lied m s) as HL.
  { intros s (Hl & Hs & _)%in_lied. split; [lia|]. unfold is_lied in *. by rewrite <- H4. }
  destruct (finish_spec _ (lied_sectors m1) armed m2 A1) as (m' & lost & F1 & F2 & F3 & F4 & F5 & F6 & F7);
    [done| |].
  { destruct Ha as [Ha|Ha]; [by left|right]. destruct (lied_sectors m1) as [|s l] eqn:E; [done|].
    assert (s ∈ lied_sectors m1) as Hs by (rewrite E; apply list_elem_of_here).
    rewrite E in Hs. destruct (HL s Hs) as [H0 Hl]. unfold is_lied in Hl. by rewrite Ha in Hl. }
  exists m', lost. split; [done|]. split.
  - done.
  - by rewrite F4, F3.
  - intros s Hs. by rewrite F5, F6.
  - rewrite F3, A4. done.
  - intros s Hs. by apply HL, F7.
  - intros s crc n Ho Hl. rewrite F3.
    assert (fi_oracle m2 !! s = Some (crc, n)) as Ho2 by by rewrite A3, H3.
    destruct (mi_stamps _ _ A1 s crc n Ho2) as [S1 S2 S3 S4 S5 S6].
    destruct S6 as [[_ S6]%HL|S6]; [unfold is_lied in S6; congruence|].
    eapply same_on_trans; [exact S6|]. rewrite A2 in *.
    eapply same_on_sub; [exact H6|unfold SECTOR_SIZE; lia|lia].
  - intros i Hi Hd. rewrite F3. pose proof (ok_clean _ (proj1 Hm) i Hi Hd) as E.
    rewrite A5; [rewrite H7; [done|]|].
    + apply lookup_lt_len in Hi as Hi'. rewrite <- E in Hi'. apply lookup_lt_len in Hi'. lia.
    + intros [Hs Hd']%in_dirty. rewrite H5 in Hd' by done. congruence.
Qed.

Lemma dirty_nonneg m s : s ∈ dirty_sectors m → 0 ≤ s.
Proof. intros [Hs _]%in_dirty. lia. Qed.

Lemma commit_clean_resolved L m s : mid_ok L m → 0 ≤ s → resolved s m (commit_clean m s).
Proof.
  intros [M1 M2 M3] Hs. unfold commit_clean. destruct (is_set _ _); [by apply resolved_refl|].
  apply (apply_outcome_resolved 0 true s KeptNew m M1); [by eapply protected_nonneg|done].
Qed.

(** A fold over images, as one over pairs. *)
Lemma foldl_fst {B} (f : FileImage → B → FileImage) l m :
  foldl f m l = (foldl (λ (x : FileImage * unit) s, (f x.1 s, tt)) (m, tt) l).1.
Proof. revert m. induction l as [|s l IH]; intros m; cbn; [done|]. apply IH. Qed.

Lemma commit_fold L m l :
  mid_ok L m → (∀ s, s ∈ l → 0 ≤ s) → landed_on L l m (foldl commit_clean m l).
Proof.
  intros Hm Hl. rewrite foldl_fst. apply land_fold; [done..|].
  intros x s Hx Hs. by eapply commit_clean_resolved.
Qed.

Lemma crash_fold L config weight d window m rs l :
  mid_ok L m → (∀ s, s ∈ l → 0 ≤ s) →
  landed_on L l m (foldl (crash_sector config weight d window) (m, rs) l).1.
Proof.
  intros Hm Hl. apply land_fold; [done..|]. intros [x r] s Hx Hs. unfold crash_sector. img.
  set (o := choose_outcome _ _ _ _ _ _ _).
  pose proof (apply_outcome_resolved (d_split d s) (d_prefix_new d s) s o x (mi_bits _ _ Hx)
                (protected_nonneg _ _ _ (mi_stamps _ _ Hx)) Hs) as H.
  by destruct (apply_outcome _ _ _ _ _).
Qed.

Lemma resolve_length_ok sv m :
  image_ok m →
  length_resolved m (resolve_length sv m).1 ∧
  ((resolve_length sv m).2 = true ↔ len (fi_visible m) ≠ len (fi_committed m) ∧ sv = false).
Proof.
  intros Hm. unfold resolve_length.
  destruct (Z.eqb_spec (len (fi_visible m)) (len (fi_committed m))) as [E|E]; [|destruct sv]; img.
  - split; [by apply length_resolved_refl|]. split; [done|tauto].
  - split; [by apply length_survives_ok|]. split; [done|by intros []].
  - split; [by apply length_reverts_ok|done].
Qed.

Lemma crash_spec path config armed weight d m :
  image_ok m → (armed = true ∨ ∀ s, 0 ≤ s → is_set (fi_lied m) s = false) →
  ∃ m' r, crash path config armed weight d m = Some (m', r) ∧
    survived m m' (cr_lost_synced r) ∧
    (cr_length_reverted r = true ↔ len (fi_visible m) ≠ len (fi_committed m) ∧
       Qltb (d_length d) (length_survives_crash_probability config) = false).
Proof.
  intros Hm Ha. unfold crash. set (sv := Qltb (d_length d) _).
  pose proof (resolve_length_ok sv m Hm) as [Hr Hrev].
  destruct (resolve_length sv m) as [m1 rev]. img.
  pose proof (length_resolved_mid m m1 Hm Hr) as Hmid.
  set (cl := Qltb (d_clean d) _).
  destruct (if cl then _ else _) as [m2 rs] eqn:E2.
  assert (landed_on (λ s, s ∈ lied_sectors m1) (dirty_sectors m1) m1 m2) as HA.
  { destruct cl.
    - injection E2 as <- _. apply commit_fold; [done|apply dirty_nonneg].
    - pose proof (crash_fold _ config weight d (correlated_window (dirty_sectors m1) config d) m1 []
        (dirty_sectors m1) Hmid (dirty_nonneg m1)) as H. by rewrite E2 in H. }
  destruct (survives m m1 m2 armed Hm Hr HA Ha) as (m' & lost & -> & Hs).
  cbn [mbind option_bind]. eexists _, _. split; [reflexivity|]. done.
Qed.

Lemma keep_cache_spec path armed m :
  image_ok m → (armed = true ∨ ∀ s, 0 ≤ s → is_set (fi_lied m) s = false) →
  ∃ m' r, keep_cache path armed m = Some (m', r) ∧ survived m m' (cr_lost_synced r).
Proof.
  intros Hm Ha. unfold keep_cache. set (m1 := if _ =? _ then _ else _).
  assert (length_resolved m m1) as Hr.
  { unfold m1. case_match; [by apply length_resolved_refl|by apply length_survives_ok]. }
  destruct (survives m m1 (foldl commit_clean m1 (dirty_sectors m1)) armed Hm Hr) as (m' & lost & -> & Hs);
    [|done|].
  - apply commit_fold; [by eapply length_resolved_mid|apply dirty_nonneg].
  - cbn [mbind option_bind]. eexists _, _. split; [reflexivity|]. done.
Qed.
End Crash.
