(* ===== verification/Disk.v ===== *)
(** The simulated disk as a whole: histories of operations on one file, and
    the storage contract of [Storage] it implements.

    [ImageOp] is every operation of [FileImage] that changes it;
    [permitted] excludes the uses that break the durability oracle (see
    [corrupt_under_grow_panics] and [drop_after_lie_panics]).  The second half
    shows that the disk under whole-sector writes, honest syncs, failed
    writebacks (the cache kept or reverted) and crashes is a [File] of the
    contract the journal is proved against. *)

From stdpp Require Import base list numbers gmap sorting.
From Stdlib Require Import QArith.
From S2P Require Import Prelude Names Storage JournalIo Crc Sectors Image ImageInv ImageCrash.
#[local] Open Scope Z_scope.

Section Disk.
Context {R : KeyedRng} {RL : KeyedRngLaws R} {C : Crc32c}.

Inductive ImageOp :=
  | OpWrite (offset : Z) (data : list byte)
  | OpSetLen (n : Z)
  | OpSync (config : StorageConfiguration) (weight roll : Z → Q)
  | OpFailWriteback (revert : bool)
  | OpDropCache
  | OpCorrupt (range : list Z)
  | OpMarkDamaged (range : list Z)
  | OpFailEio (range : list Z) (target : EioTarget)
  | OpClearEio (target : EioTarget)
  | OpCorruptBytes (first last : Z)
  | OpCrash (path : str) (config : StorageConfiguration) (armed : bool) (weight : Z → Q)
      (d : CrashDraws)
  | OpKeepCache (path : str) (armed : bool).

(** [None] is a panic. *)
Definition image_exec (o : ImageOp) (m : FileImage) : option FileImage :=
  match o with
  | OpWrite offset data => fst <$> write offset data m
  | OpSetLen n => Some (set_len n m)
  | OpSync config weight roll => Some (sync config weight roll m).1
  | OpFailWriteback revert => Some (fail_writeback revert m).1
  | OpDropCache => Some (drop_cache m).1
  | OpCorrupt range => Some (corrupt range m)
  | OpMarkDamaged range => Some (mark_damaged range m)
  | OpFailEio range target => Some (fail_with_eio range target m)
  | OpClearEio target => Some (clear_eio target m)
  | OpCorruptBytes first last => Some (corrupt_bytes first last m).1
  | OpCrash path config armed weight d => fst <$> crash path config armed weight d m
  | OpKeepCache path armed => fst <$> keep_cache path armed m
  end.

(** No sync lied about a sector that is still volatile. *)
Definition no_lies (m : FileImage) : Prop := ∀ s, 0 ≤ s → is_set (fi_lied m) s = false.

(** The operations [image_never_panics] covers.  Two uses the engine has are
    left out because they do panic: corrupting durable bytes of a sector that
    has unsynced writes or that the file grew into (image.rs:698), and
    dropping the cache over a sector a sync lied about and whose writeback
    failed (image.rs:440).  A crash or kill with the lying family disarmed is
    left out while a lie is pending: arming is per configuration. *)
Definition permitted (o : ImageOp) (m : FileImage) : Prop :=
  match o with
  | OpWrite offset data => 0 ≤ offset ∧ offset + len data ≤ u64_max
  | OpSetLen n => 0 ≤ n
  | OpDropCache =>
      ∀ s, 0 ≤ s → is_set (fi_stranded m) s = true → is_set (fi_lied m) s = false
  | OpCorruptBytes first last =>
      0 ≤ first ∧ ∀ o, first ≤ o < last → is_set (fi_dirty m) (o / SECTOR_SIZE) = false
  | OpCrash _ _ armed _ _ | OpKeepCache _ armed => armed = true ∨ no_lies m
  | _ => True
  end.

Inductive reachable : FileImage → Prop :=
  | reach_new n seed g : 0 ≤ n → reachable (FileImage_new n seed g)
  | reach_step o m m' : reachable m → permitted o m → image_exec o m = Some m' → reachable m'.

Lemma exec_ok o m :
  image_ok m → permitted o m → ∃ m', image_exec o m = Some m' ∧ image_ok m'.
Proof.
  intros Hm Hp. destruct o; cbn [image_exec permitted] in *.
  - destruct (write_ok offset data m) as (m' & h & -> & Hok & _); [tauto..|]. by eexists.
  - eexists. split; [done|]. by apply set_len_ok.
  - eexists. split; [done|]. exact (sy_ok _ _ _ _ (sync_spec config weight roll m Hm)).
  - eexists. split; [done|]. by apply fail_writeback_ok.
  - eexists. split; [done|]. by apply drop_cache_ok.
  - eexists. split; [done|]. by apply corrupt_ok.
  - eexists. split; [done|]. by apply mark_damaged_ok.
  - eexists. split; [done|]. by apply fail_with_eio_ok.
  - eexists. split; [done|]. by apply clear_eio_ok.
  - eexists. split; [done|]. by apply corrupt_bytes_ok; [apply Hp..|].
  - destruct (crash_spec path config armed weight d m) as (m' & r & -> & Hs & _); [done..|].
    eexists. split; [done|]. apply Hs.
  - destruct (keep_cache_spec path armed m) as (m' & r & -> & Hs); [done..|].
    eexists. split; [done|]. apply Hs.
Qed.

Lemma reachable_ok m : reachable m → image_ok m.
Proof.
  induction 1 as [n seed g Hn|o m m' _ IH Hp He]; [by apply new_ok|].
  destruct (exec_ok o m IH Hp) as (m2 & E & Hok). rewrite He in E. by injection E as ->.
Qed.

(** C12: The durability oracle is sound in the histories [permitted] admits.
    Start a simulated file of any size and run writes, truncations, syncs
    (honest or lying), failed writebacks, dropped caches, targeted faults,
    durable corruption, crashes and kills in any order and with any random
    draws, except: durable corruption only hits bytes of clean sectors, no
    cache is dropped over a sector a sync lied about and whose writeback then
    failed, and no crash or kill runs with the lying family disarmed while a
    lie is pending.  Then no step panics (no slice of a write is out of range,
    and the sweep after a crash never finds a damaged synced sector it cannot
    blame on a lying sync), and the file stays well formed: its sector sets
    span it, a clean sector reads what the device holds, and every stamp is
    the CRC of bytes inside both images.  The first two exceptions are
    needed: [corrupt_under_grow_panics] and [drop_after_lie_panics] are
    histories of such operations whose next crash panics. *)
Theorem image_never_panics o m :
  reachable m → permitted o m → ∃ m', image_exec o m = Some m' ∧ image_ok m'.
Proof. intros Hm Hp. apply exec_ok; [by apply reachable_ok|done]. Qed.

(** C13: What a crash may do.  For every configuration and every draw, a crash
    of a file reached through [permitted] operations, with the lying family
    armed or no lie pending, ends with the two images equal, nothing dirty and the
    length either the visible or the durable one; it keeps every byte of a
    clean sector and, in a dirty one, the prefix a sync stamped and no write
    touched since; and it reports as lost only sectors a sync lied about. *)
Theorem crash_keeps_synced path config armed weight d m :
  reachable m → armed = true ∨ no_lies m →
  ∃ m' r, crash path config armed weight d m = Some (m', r) ∧
    survived m m' (cr_lost_synced r) ∧
    (no_lies m → cr_lost_synced r = []).
Proof.
  intros Hm Ha. destruct (crash_spec path config armed weight d m) as (m' & r & E & Hs & _);
    [by apply reachable_ok|done|]. exists m', r. split_and!; [done..|].
  intros Hn. destruct (cr_lost_synced r) as [|s l] eqn:El; [done|].
  destruct (su_lost _ _ _ Hs s (list_elem_of_here _ _)) as [H0 Hl].
  unfold is_lied in Hl. by rewrite Hn in Hl.
Qed.

(** An honest sync leaves dirty only the stranded sectors. *)
Lemma honest_lies config weight roll s :
  Qle_bool (barrier_violation_probability config) 0 = true → sync_lies config weight roll s = false.
Proof. intros H. unfold sync_lies, Qltb. by rewrite H. Qed.

Lemma honest_sync_dirty config weight roll m s :
  image_ok m → Qle_bool (barrier_violation_probability config) 0 = true → 0 ≤ s →
  is_set (fi_dirty (sync config weight roll m).1) s = is_set (fi_stranded m) s.
Proof.
  intros Hm Hc Hs. pose proof (sync_spec config weight roll m Hm) as Y.
  rewrite (sy_dirty _ _ _ _ Y), honest_lies, orb_false_r by done.
  destruct (is_set (fi_stranded m) s) eqn:Est.
  - rewrite (ok_stranded _ (proj1 Hm) s Hs Est), bool_decide_true; [done|].
    intros (_ & _ & H)%in_flushable. congruence.
  - destruct (is_set (fi_dirty m) s) eqn:Ed; [|done]. rewrite bool_decide_false; [done|].
    intros H. apply H, in_flushable. pose proof (bits_dirty _ (proj1 Hm)) as [_ El].
    pose proof (is_set_lt _ _ Ed). split_and!; [lia|lia|done|done].
Qed.

(** A sync is a barrier.  After a sync with the lying family off, a crash
    under any configuration and any draws keeps the file's length and every
    byte the sync flushed: each byte of each sector whose writeback had not
    failed reads, after the reboot, what it read before the sync. *)
Theorem sync_survives_crash sync_config weight roll path config armed weight' d m :
  reachable m → Qle_bool (barrier_violation_probability sync_config) 0 = true →
  armed = true ∨ no_lies m →
  ∃ m' r, crash path config armed weight' d (sync sync_config weight roll m).1 = Some (m', r) ∧
    len (fi_visible m') = len (fi_visible m) ∧
    ∀ i, Z.of_nat i < len (fi_visible m) →
      is_set (fi_stranded m) (Z.of_nat i / SECTOR_SIZE) = false →
      fi_visible m' !! i = fi_visible m !! i.
Proof.
  intros Hm Hc Ha. apply reachable_ok in Hm as Hok.
  pose proof (sync_spec sync_config weight roll m Hok) as Y.
  pose proof (λ s, honest_sync_dirty sync_config weight roll m s Hok Hc) as Hd.
  set (m1 := (sync sync_config weight roll m).1) in *.
  destruct (crash_spec path config armed weight' d m1) as (m' & r & E & Hs & _).
  - apply Y.
  - destruct Ha as [Ha|Ha]; [by left|right]. intros s H0.
    destruct (is_set (fi_lied m1) s) eqn:El; [|done].
    destruct (sy_lied _ _ _ _ Y s H0 El) as [H|H]; [|by rewrite honest_lies in H].
    unfold is_lied in H. by rewrite Ha in H.
  - exists m', r. split; [done|]. rewrite (su_converged _ _ _ Hs). split.
    + destruct (su_len _ _ _ Hs) as [->| ->]; [by rewrite (sy_visible _ _ _ _ Y)|].
      by rewrite (sy_len _ _ _ _ Y), (sy_visible _ _ _ _ Y).
    + intros i Hi Hst. rewrite <- (sy_visible _ _ _ _ Y) in *. apply (su_kept _ _ _ Hs); [done|].
      rewrite Hd; [done|apply byte_sector].
Qed.

(** ** The storage contract *)

Variable bad : gset Z.
Variable align : IoConstraints.

(** A simulated file as a [File] of the contract: a stranded sector is one a
    failed sync marked clean. *)
Definition as_file (m : FileImage) : File :=
  mkFile (fi_visible m) (fi_committed m)
    (λ i, (0 <=? i) && (is_set (fi_dirty m) (i / SECTOR_SIZE) &&
                        negb (is_set (fi_stranded m) (i / SECTOR_SIZE))))
    (λ i, (0 <=? i) && is_set (fi_stranded m) (i / SECTOR_SIZE))
    bad align.

(** What a client does to a file of a fixed length, and what happens to it. *)
Inductive DiskOp :=
  | DWrite (offset : Z) (data : list byte)
  | DSync (config : StorageConfiguration) (weight roll : Z → Q)
  | DSyncFailed (revert : bool)
  | DCrash (path : str) (config : StorageConfiguration) (weight : Z → Q) (d : CrashDraws).

Definition disk_exec (o : DiskOp) (m : FileImage) : option FileImage :=
  match o with
  | DWrite offset data => fst <$> write offset data m
  | DSync config weight roll => Some (sync config weight roll m).1
  | DSyncFailed revert => Some (fail_writeback revert m).1
  | DCrash path config weight d => fst <$> crash path config false weight d m
  end.

Fixpoint disk_run (ops : list DiskOp) (m : FileImage) : option FileImage :=
  match ops with
  | [] => Some m
  | o :: ops => m ← disk_exec o m; disk_run ops m
  end.

(** Whole sectors inside the file, and syncs that do not lie. *)
Definition disk_op_ok (n : Z) (o : DiskOp) : Prop :=
  match o with
  | DWrite offset data =>
      0 ≤ offset ∧ offset mod SECTOR_SIZE = 0 ∧ 0 < len data ∧ len data mod SECTOR_SIZE = 0 ∧
      offset + len data ≤ n
  | DSync config _ _ => Qle_bool (barrier_violation_probability config) 0 = true
  | _ => True
  end.

(** The same operation in the contract. *)
Definition file_does (o : DiskOp) (f g : File) : Prop :=
  match o with
  | DWrite offset data => g ≡ file_write f offset data
  | DSync _ _ _ => g ≡ file_sync f
  | DSyncFailed revert => g ≡ file_sync_error revert f
  | DCrash _ _ _ _ => crash_file f g
  end.

Fixpoint file_runs (ops : list DiskOp) (f g : File) : Prop :=
  match ops with
  | [] => f ≡ g
  | o :: ops => ∃ f', file_does o f f' ∧ file_runs ops f' g
  end.

Record quiet (n : Z) (m : FileImage) : Prop := {
  q_ok : image_ok m;
  q_lies : no_lies m;
  q_vlen : len (fi_visible m) = n;
  q_clen : len (fi_committed m) = n;
}.

Lemma write_in_place o data m :
  base_ok m → 0 ≤ o → o + len data ≤ len (fi_visible m) → o + len data ≤ u64_max →
  ∃ m' h, write o data m = Some (m', h) ∧
    wrote (sector_range o (len data)) (with_visible (splice (fi_visible m) o data) m) m'.
Proof.
  intros Hb Ho Hn Hu. unfold write, size. rewrite Z.min_l by done.
  rewrite (proj2 (Z.ltb_ge _ _)) by done. rewrite copy_from_slice_ok by done. cbn [mbind option_bind].
  set (m1 := with_visible _ m).
  pose proof (write_fold (sector_range o (len data)) m1 false) as W.
  destruct (foldl write_sector _ _) as [m' h]. exists m', h. split; [done|]. apply W.
  - assert (sectors m1 = sectors m) as -> by (unfold sectors, size; cbn; by rewrite len_splice).
    exact (ok_bits _ Hb).
  - intros s. by apply sector_range_nonneg.
Qed.

(** A whole-sector range holds exactly the bytes of its sectors. *)
Lemma aligned_range o n i :
  0 ≤ o → o mod SECTOR_SIZE = 0 → 0 < n → n mod SECTOR_SIZE = 0 →
  i / SECTOR_SIZE ∈ sector_range o n ↔ o ≤ i < o + n.
Proof.
  intros Ho Hm Hn Hnm. rewrite elem_sector_range by done. unfold SECTOR_SIZE in *.
  pose proof (Z.div_mod i 512). pose proof (Z.mod_pos_bound i 512).
  pose proof (Z.div_mod o 512). pose proof (Z.div_mod n 512). lia.
Qed.

Lemma disk_write_sim n o data m :
  quiet n m → disk_op_ok n (DWrite o data) → n ≤ u64_max →
  ∃ m', disk_exec (DWrite o data) m = Some m' ∧ quiet n m' ∧
    as_file m' ≡ file_write (as_file m) o data.
Proof.
  intros [Q1 Q2 Q3 Q4] (H1 & H2 & H3 & H4 & H5) Hu. cbn [disk_exec].
  destruct (write_ok o data m) as (m' & h & E & Hok & Hl & _ & Hc); [lia..|done|].
  destruct (write_in_place o data m) as (m2 & h2 & E2 & [W1 W2 W3 W4 W5 W6 W7]); [apply Q1|lia..|].
  rewrite E in E2. injection E2 as <- <-. rewrite E. exists m'. split; [done|].
  cbn [with_visible fi_visible fi_committed fi_dirty fi_lied fi_stranded] in *. split.
  - split; [done| |lia|by rewrite Hc].
    intros s Hs. rewrite W5 by done. by rewrite Q2, andb_false_r.
  - split; cbn [f_vis f_dur f_dirty f_lost f_bad f_align as_file file_write]; try done.
    + rewrite W2. unfold write_bytes, grow. destruct data as [|x data]; [done|].
      rewrite Q3. unfold repeatZ. replace (Z.to_nat _) with 0%nat by lia. cbn [replicate].
      by rewrite app_nil_r.
    + intros i. unfold within. destruct (Z.leb_spec 0 i) as [H0|H0]; cbn [andb].
      2:{ rewrite (proj2 (Z.leb_gt o i)) by lia. done. }
      assert (0 ≤ i / SECTOR_SIZE) by (apply Z.div_pos; done).
      rewrite W4, W6 by done. pose proof (aligned_range o (len data) i H1 H2 H3 H4) as Hin.
      destruct (decide (o ≤ i < o + len data)) as [Hr|Hr].
      * rewrite (bool_decide_true (_ ∧ _)), (bool_decide_false (_ ∉ _)).
        { destruct (Z.leb_spec o i), (Z.ltb_spec i (o + len data)); done || lia. }
        { intros Hni. by apply Hni, Hin. }
        split; [by apply Hin|]. unfold sectors, size. cbn [with_visible fi_visible].
        rewrite len_splice by lia. apply sector_lt. rewrite Q3. unfold SECTOR_SIZE in *.
        pose proof (Z.div_mod i 512). pose proof (Z.mod_pos_bound i 512). lia.
      * rewrite (bool_decide_false (_ ∧ _)), (bool_decide_true (_ ∉ _)) by tauto.
        destruct (Z.leb_spec o i), (Z.ltb_spec i (o + len data)); done || lia.
    + intros i. unfold within. destruct (Z.leb_spec 0 i) as [H0|H0]; cbn [andb]; [|done].
      assert (0 ≤ i / SECTOR_SIZE) by (apply Z.div_pos; done).
      rewrite W6 by done. pose proof (aligned_range o (len data) i H1 H2 H3 H4) as Hin.
      rewrite andb_comm. f_equal.
      destruct (Z.leb_spec o i), (Z.ltb_spec i (o + len data)); cbn [andb negb];
        first [apply bool_decide_false; intros Hni; apply Hni, Hin; lia
              |apply bool_decide_true; rewrite Hin; lia].
Qed.

Lemma lookup_flush_lost lost i vis dur n :
  length vis = length dur → lost (i + Z.of_nat n) = true → flush lost i vis dur !! n = dur !! n.
Proof.
  revert i dur n. induction vis as [|b vis IH]; intros i dur n Hl Hn; destruct dur as [|c dur]; try done.
  cbn [flush head tail]. destruct n as [|n].
  - rewrite Z.add_0_r in Hn. by rewrite Hn.
  - cbn. apply IH; [by injection Hl|]. rewrite <- Hn. f_equal. lia.
Qed.

Lemma disk_sync_sim n config weight roll m :
  quiet n m → disk_op_ok n (DSync config weight roll) →
  let m' := (sync config weight roll m).1 in quiet n m' ∧ as_file m' ≡ file_sync (as_file m).
Proof.
  intros [Q1 Q2 Q3 Q4] Hc. cbn [disk_op_ok] in Hc.
  pose proof (sync_spec config weight roll m Q1) as Y.
  pose proof (λ s, honest_sync_dirty config weight roll m s Q1 Hc) as Hd.
  set (m' := (sync config weight roll m).1) in *. cbn zeta.
  pose proof Y as [Y1 Y2 Y3 Y4 Y5 Y6 Y7]. split.
  - split; [done| |by rewrite Y3|by rewrite Y2, Y3].
    intros s Hs. destruct (is_set (fi_lied m') s) eqn:E; [|done].
    destruct (Y6 s Hs E) as [H|H]; [unfold is_lied in H; by rewrite Q2 in H|by rewrite honest_lies in H].
  - split; cbn [f_vis f_dur f_dirty f_lost f_bad f_align as_file file_sync]; try done.
    + apply list_eq. intros i. pose proof (byte_sector i) as Hp.
      destruct (decide (Z.of_nat i < n)) as [Hi|Hi].
      2:{ rewrite !lookup_ge_None_2; [done|..].
          - assert (len (flush (f_lost (as_file m)) 0 (fi_visible m) (fi_committed m)) = n) as Hfl.
            { rewrite <- Q3. unfold len. f_equal. clear. generalize 0 (f_lost (as_file m)) (fi_committed m).
              induction (fi_visible m) as [|b v IH]; intros z l c; cbn; [done|]. by rewrite IH. }
            unfold len in Hfl. unfold as_file in Hfl. cbn in Hfl. lia.
          - assert (len (fi_committed m') = n) as Hfl by by rewrite Y2, Y3. unfold len in Hfl. lia. }
      destruct (is_set (fi_stranded m) (Z.of_nat i / SECTOR_SIZE)) eqn:Est.
      * rewrite lookup_flush_lost; [|unfold len in *; lia|].
        -- apply Y7; [lia|]. intros (_ & _ & H)%in_flushable. congruence.
        -- rewrite Z.add_0_l, Est, (proj2 (Z.leb_le _ _)) by lia. done.
      * rewrite lookup_flush by (rewrite Z.add_0_l, Est; by rewrite andb_false_r).
        rewrite <- Y3. apply (ok_clean _ (proj1 Y1)); [rewrite Y3; lia|]. by rewrite Hd.
    + intros i. destruct (Z.leb_spec 0 i) as [H0|H0]; cbn [andb]; [|done].
      assert (0 ≤ i / SECTOR_SIZE) by (apply Z.div_pos; done).
      rewrite Hd, Y4 by done. by destruct (is_set _ _).
    + intros i. by rewrite Y4.
Qed.

Lemma fail_fold l m :
  foldl (fail_sector false) m l = with_stranded (set_sectors l (fi_stranded m)) m.
Proof.
  revert m. induction l as [|s l IH]; intros m; cbn [foldl]; [by destruct m|].
  rewrite IH. unfold fail_sector. destruct (shared_bounds m s). done.
Qed.

Lemma is_set_sectors n l b t :
  spans n b → (∀ s, s ∈ l → 0 ≤ s < n) → 0 ≤ t →
  is_set (set_sectors l b) t = bool_decide (t ∈ l) || is_set b t.
Proof.
  intros [Hw El] Hl Ht.
  destruct (set_fold (λ _, true) l b) as (_ & _ & Hs); [done|intros s Hs; apply Hl in Hs; lia|].
  unfold set_sectors. rewrite (Hs t Ht), andb_true_r. f_equal. apply bool_decide_ext.
  rewrite El. split; [tauto|]. intros H. split; [done|]. by apply Hl.
Qed.

Lemma disk_fail_kept n m :
  quiet n m →
  let m' := (fail_writeback false m).1 in quiet n m' ∧ as_file m' ≡ file_sync_failed (as_file m).
Proof.
  intros [Q1 Q2 Q3 Q4]. pose proof (fail_writeback_ok false m Q1) as Hok.
  unfold fail_writeback in *. cbn [fst] in *. rewrite fail_fold in *. cbn zeta. split; [by split|].
  assert (∀ s, 0 ≤ s → is_set (set_sectors (flushable_sectors m) (fi_stranded m)) s =
    is_set (fi_stranded m) s || is_set (fi_dirty m) s) as Hs.
  { intros s Hs. rewrite (is_set_sectors (sectors m)); [|by apply bits_stranded, Q1| |done].
    2:{ intros t Ht%in_flushable. tauto. }
    destruct (is_set (fi_dirty m) s) eqn:Ed.
    - destruct (is_set (fi_stranded m) s) eqn:Est; [by rewrite orb_true_r|].
      rewrite bool_decide_true; [done|]. apply in_flushable.
      pose proof (bits_dirty _ (proj1 Q1)) as [_ El]. pose proof (is_set_lt _ _ Ed).
      split_and!; [lia|lia|done|done].
    - rewrite bool_decide_false; [by rewrite orb_false_r|]. intros (_ & H & _)%in_flushable. congruence. }
  split; cbn [f_vis f_dur f_dirty f_lost f_bad f_align as_file file_sync_failed with_stranded
              fi_visible fi_committed fi_dirty fi_stranded]; try done.
  - intros i. destruct (Z.leb_spec 0 i) as [H0|H0]; cbn [andb]; [|done].
    rewrite Hs by (apply Z.div_pos; done). destruct (is_set (fi_dirty m) _); [|done].
    by rewrite orb_true_r.
  - intros i. destruct (Z.leb_spec 0 i) as [H0|H0]; cbn [andb]; [|done].
    rewrite Hs by (apply Z.div_pos; done).
    by destruct (is_set (fi_dirty m) _), (is_set (fi_stranded m) _).
Qed.

(** What a failed writeback that reverts the cache does to the sectors [l] of
    a file whose images have one length and no sync of which lied. *)
Record reverted_on (l : list Z) (m m' : FileImage) : Prop := {
  ro_len : len (fi_visible m') = len (fi_visible m);
  ro_committed : fi_committed m' = fi_committed m;
  ro_visible i : fi_visible m' !! i =
    if decide (Z.of_nat i / SECTOR_SIZE ∈ l) then fi_committed m !! i else fi_visible m !! i;
  ro_dirty s : 0 ≤ s →
    is_set (fi_dirty m') s = negb (bool_decide (s ∈ l)) && is_set (fi_dirty m) s;
  ro_lied : fi_lied m' = fi_lied m;
  ro_stranded : fi_stranded m' = fi_stranded m;
}.

Lemma revert_one m s :
  len (fi_committed m) = len (fi_visible m) → is_set (fi_lied m) s = false →
  bits_wf (fi_dirty m) → 0 ≤ s < sectors m →
  reverted_on [s] m (fail_sector true m s) ∧ bits_wf (fi_dirty (fail_sector true m s)).
Proof.
  intros Hl Hlie Hw [H0 Hs]. unfold fail_sector. destruct (shared_bounds m s) as [a b] eqn:E.
  destruct (shared_range m s a b H0 E) as (Ha & Hv & Hc & Hin).
  unfold sectors, size in Hs. apply sector_lt in Hs.
  assert (a < b) as Hab.
  { destruct (proj2 (Hin (Z.to_nat (s * SECTOR_SIZE)))); [|lia].
    rewrite Z2Nat.id by (unfold SECTOR_SIZE; lia). rewrite Z.div_mul by done.
    split; [done|]. unfold SECTOR_SIZE in *. lia. }
  assert (visible_bounds m s = (a, b)) as Hvb.
  { rewrite <- E. unfold visible_bounds, shared_bounds. by rewrite Hl, Z.min_id. }
  rewrite Hvb, Hlie, bool_decide_true, (proj2 (Z.ltb_lt _ _)) by done. cbn [andb negb].
  split; [split|]; cbn [fi_visible fi_committed fi_dirty fi_lied fi_stranded with_dirty
    with_visible]; try done.
  - by apply len_splice_copy.
  - intros i. rewrite splice_copy by done.
    destruct (decide (Z.of_nat i < len (fi_visible m))) as [Hi|Hi].
    + apply decide_ext. rewrite list_elem_of_singleton, Hin. lia.
    + assert (fi_visible m !! i = None ∧ fi_committed m !! i = None) as [-> ->]
        by (split; apply lookup_ge_None_2; unfold len in *; lia).
      by repeat case_decide.
  - intros t Ht. rewrite is_set_clear by done. do 2 f_equal. apply bool_decide_ext.
    rewrite list_elem_of_singleton. split; congruence.
  - by apply bits_clear_wf.
Qed.

Lemma revert_fold l m :
  len (fi_committed m) = len (fi_visible m) → no_lies m → bits_wf (fi_dirty m) →
  (∀ s, s ∈ l → 0 ≤ s < sectors m) → reverted_on l m (foldl (fail_sector true) m l).
Proof.
  revert m. induction l as [|s l IH]; intros m Hl Hlie Hw Hin; cbn [foldl].
  - by split.
  - destruct (revert_one m s) as [[R1 R2 R3 R4 R5 R6] Hw']; [done|by apply Hlie, Hin; left| |..].
    { done. }
    { apply Hin. left. }
    destruct (IH (fail_sector true m s)) as [T1 T2 T3 T4 T5 T6].
    + by rewrite R1, R2.
    + unfold no_lies. by rewrite R5.
    + done.
    + intros t Ht. unfold sectors, size. rewrite R1. apply Hin. by right.
    + split; try congruence.
      * intros i. rewrite T3, R2, R3. repeat case_decide; try done; set_solver.
      * intros t Ht. rewrite T4, R4 by done. repeat case_bool_decide; try done; set_solver.
Qed.

Lemma disk_fail_reverted n m :
  quiet n m →
  let m' := (fail_writeback true m).1 in quiet n m' ∧ as_file m' ≡ file_sync_reverted (as_file m).
Proof.
  intros [Q1 Q2 Q3 Q4]. pose proof (fail_writeback_ok true m Q1) as Hok.
  pose proof (bits_dirty _ (proj1 Q1)) as [Hw El].
  destruct (revert_fold (flushable_sectors m) m) as [T1 T2 T3 T4 T5 T6];
    [congruence|done|done|by intros s (? & _)%in_flushable|].
  unfold fail_writeback in *. cbn [fst] in *. cbn zeta.
  set (m' := foldl (fail_sector true) m (flushable_sectors m)) in *.
  assert (∀ i, 0 ≤ i → is_set (fi_dirty m) (i / SECTOR_SIZE) = true →
    is_set (fi_stranded m) (i / SECTOR_SIZE) = false → i / SECTOR_SIZE ∈ flushable_sectors m) as Hf.
  { intros i Hi Hd Hst. apply in_flushable. pose proof (is_set_lt _ _ Hd).
    assert (0 ≤ i / SECTOR_SIZE) by (by apply Z.div_pos). split_and!; [lia|lia|done|done]. }
  split; [split; [done|unfold no_lies; by rewrite T5|congruence..]|].
  split; cbn [f_vis f_dur f_dirty f_lost f_bad f_align as_file file_sync_reverted]; try done.
  - apply list_eq. intros i. rewrite T3. pose proof (byte_sector i) as Hp. case_decide as Hi.
    + symmetry. apply in_flushable in Hi as (_ & Hd & Hst).
      apply lookup_reverted; [|unfold len in *; lia].
      rewrite Z.add_0_l, Hd, Hst, (proj2 (Z.leb_le _ _)) by lia. done.
    + symmetry. apply lookup_revert. rewrite Z.add_0_l, (proj2 (Z.leb_le _ _)) by lia. cbn [andb].
      destruct (is_set (fi_dirty m) _) eqn:Hd; [|done].
      destruct (is_set (fi_stranded m) _) eqn:Hst; [done|]. destruct Hi. apply Hf; [lia|done..].
  - intros i. destruct (Z.leb_spec 0 i) as [H0|H0]; cbn [andb]; [|done].
    rewrite T4, T6 by (by apply Z.div_pos). destruct (is_set (fi_dirty m) _) eqn:Hd;
      [|by rewrite andb_false_r].
    destruct (is_set (fi_stranded m) _) eqn:Hst; [by rewrite andb_false_r|].
    by rewrite bool_decide_true by (by apply Hf).
  - intros i. rewrite T6. destruct (Z.leb_spec 0 i) as [H0|H0]; cbn [andb]; [|done].
    destruct (is_set (fi_stranded m) _) eqn:Hst; [done|]. cbn [orb negb].
    rewrite andb_true_r. destruct (is_set (fi_dirty m) _) eqn:Hd; [|done]. cbn [andb].
    unfold within. rewrite Q3, Q4. by destruct (Z.leb_spec n i), (Z.ltb_spec i n); try lia.
Qed.

Lemma disk_fail_sim n revert m :
  quiet n m →
  let m' := (fail_writeback revert m).1 in
  quiet n m' ∧ as_file m' ≡ file_sync_error revert (as_file m).
Proof. intros Hq. destruct revert; [by apply disk_fail_reverted|by apply disk_fail_kept]. Qed.

Lemma disk_crash_sim n path config weight d m :
  quiet n m →
  ∃ m', disk_exec (DCrash path config weight d) m = Some m' ∧ quiet n m' ∧
    crash_file (as_file m) (as_file m').
Proof.
  intros [Q1 Q2 Q3 Q4]. cbn [disk_exec].
  destruct (crash_spec path config false weight d m Q1) as (m' & r & -> & [S1 S2 S3 S4 S5 S6 S7] & _);
    [by right|].
  assert (len (fi_committed m') = n) as Hl by (destruct S4 as [->| ->]; congruence).
  exists m'. split; [done|]. split.
  - split; [done| |by rewrite S2|done]. intros s Hs. destruct (is_set (fi_lied m') s) eqn:E; [|done].
    pose proof (ok_lied _ (proj1 S1) s Hs E) as Hd. by rewrite (proj1 (S3 s Hs)) in Hd.
  - split; cbn [f_vis f_dur f_dirty f_lost f_bad f_align as_file]; try done.
    + congruence.
    + intros i. rewrite (proj2 (Z.leb_le 0 (Z.of_nat i))) by lia. cbn [andb]. intros H1 H2.
      rewrite H2, andb_true_r in H1. destruct (decide (Z.of_nat i < n)) as [Hi|Hi].
      * rewrite S7 by (by rewrite ?Q3). symmetry. apply (ok_clean _ (proj1 Q1)); [by rewrite Q3|done].
      * rewrite !lookup_ge_None_2; [done|unfold len in *; lia..].
    + intros i. destruct (Z.leb_spec 0 i) as [H0|H0]; cbn [andb]; [|done].
      assert (0 ≤ i / SECTOR_SIZE) as Hp by (apply Z.div_pos; done).
      destruct (S3 _ Hp) as [-> ->]. done.
Qed.

Lemma disk_step_sim n o m :
  quiet n m → disk_op_ok n o → n ≤ u64_max →
  ∃ m', disk_exec o m = Some m' ∧ quiet n m' ∧ file_does o (as_file m) (as_file m').
Proof.
  intros Hq Ho Hu. destruct o as [o data|config weight roll|revert|path config weight d].
  - by apply disk_write_sim.
  - eexists. split; [done|]. by apply disk_sync_sim.
  - eexists. split; [done|]. by apply (disk_fail_sim n).
  - by apply disk_crash_sim.
Qed.

Lemma new_quiet n seed g : 0 ≤ n → quiet n (FileImage_new n seed g).
Proof.
  intros Hn. pose proof (new_ok n seed g Hn) as Hok. unfold FileImage_new in *.
  set (m0 := mkFileImage [] [] _ _ _ _ _ _ _ _ _) in *.
  pose proof (resize_visible_spec n m0 Hn) as [Z1 Z2 Z3 Z4 Z5 Z6 Z7 Z8 Z9].
  split; [done| |done|done]. intros s Hs. cbn. rewrite Z7 by done.
  change (fi_lied m0) with (bits_new 0). by rewrite is_set_new, andb_false_r.
Qed.

(** C11: The simulated disk implements the storage contract.  Take a new file
    of any length that fits a [u64] and run any sequence of whole-sector
    writes inside it, honest syncs, failed writebacks, which keep the cache or
    revert it as the draw says, and crashes, under any configuration whose
    syncs do not lie and any random draws: nothing panics, and the stored
    bytes go through the steps of the contract ([Storage],
    [JournalIo.crash_file]): a write is [file_write], a sync [file_sync], a
    failed writeback [file_sync_error] with the same choice, and whatever a
    crash does to the sectors is a power loss of the contract. *)
Theorem disk_refines_contract n seed g ops :
  0 ≤ n ≤ u64_max → Forall (disk_op_ok n) ops →
  ∃ m', disk_run ops (FileImage_new n seed g) = Some m' ∧
    file_runs ops (as_file (FileImage_new n seed g)) (as_file m').
Proof.
  intros Hn. pose proof (new_quiet n seed g ltac:(lia)) as Hq. revert Hq.
  generalize (FileImage_new n seed g). induction ops as [|o ops IH]; intros m Hq Hops; cbn.
  - by exists m.
  - apply Forall_cons in Hops as [Ho Hops].
    destruct (disk_step_sim n o m Hq Ho ltac:(lia)) as (m1 & E & Hq1 & Hf). rewrite E. cbn.
    destruct (IH m1 Hq1 Hops) as (m' & E' & Hr). exists m'. split; [done|]. by exists (as_file m1).
Qed.
End Disk.
