(* ===== verification/Replication.v ===== *)
(** Replicated fault patterns (moonpool-sim/src/storage/replication.rs, with the
    rolling turns of storage/sim/state.rs and the domains of locality.rs).

    Random damage to simulated disks must never reach every copy of a
    replicated record.  A plan, drawn per seed, says where damage may land
    from what each process publishes about its files; a rolling plan moves its
    window of damaged domains once the window is repaired.

    An [IpAddr] keyed map is the list of its entries; indexing out of bounds
    and a division by zero are [None], a panic. *)
From Stdlib Require Import Ascii.
From stdpp Require Import base list numbers gmap strings sorting.
From S2P Require Import Prelude Names Storage Cursor Sectors.

(** ** Failure domains *)

Inductive DomainLevel := Datacenter | Zone | Machine.

Inductive LinkClass := SameMachine | SameZone | SameDatacenter | CrossDatacenter.

Record LocalityInfo := mkLocalityInfo {
  li_datacenter : string;
  li_zone : string;
  li_machine : string;
}.

Definition id_for (l : LocalityInfo) (level : DomainLevel) : string :=
  match level with
  | Datacenter => li_datacenter l
  | Zone => li_zone l
  | Machine => li_machine l
  end.

Definition link_class (l other : LocalityInfo) : LinkClass :=
  if String.eqb (li_machine l) (li_machine other) then SameMachine
  else if String.eqb (li_zone l) (li_zone other) then SameZone
  else if String.eqb (li_datacenter l) (li_datacenter other) then SameDatacenter
  else CrossDatacenter.

(** ** Configuration and patterns *)

Record ReplicatedFaults := mkReplicatedFaults {
  rf_level : DomainLevel;
  rf_tolerance : nat;
  rf_group : option string;
}.

Definition ReplicatedFaults_new (level : DomainLevel) : ReplicatedFaults :=
  mkReplicatedFaults level 1 None.

Definition with_tolerance (domains : nat) (c : ReplicatedFaults) : ReplicatedFaults :=
  mkReplicatedFaults (rf_level c) (Nat.max domains 1) (rf_group c).

Definition with_group (name : string) (c : ReplicatedFaults) : ReplicatedFaults :=
  mkReplicatedFaults (rf_level c) (rf_tolerance c) (Some name).

Inductive FaultPattern :=
  | Minority (domains : list string)
  | Striped (domains local : list string)
  | Rolling (domains : list string)
  | Spared.

Inductive PatternKind := PK_Minority | PK_Striped | PK_Rolling.

Definition PatternKind_nth (n : nat) : PatternKind :=
  match (n mod 3)%nat with O => PK_Minority | S O => PK_Striped | _ => PK_Rolling end.

Record ReplicationPlan := mkReplicationPlan {
  rp_pattern : FaultPattern;
  rp_tolerance : nat;
  rp_domain_of : list (IpAddr * nat);
  rp_marked : list bool;
}.

(** ** Drawing a plan *)

(** [Vec::dedup]: of equal neighbours the first is kept. *)
Fixpoint dedup (l : list string) : list string :=
  match l with
  | a :: (b :: _) as rest => if String.eqb a b then dedup rest else a :: dedup rest
  | _ => l
  end.

Definition position (id : string) (domains : list string) : option nat :=
  fst <$> list_find (λ d, d = id) domains.

(** [Vec::swap_remove], in bounds: the last element takes the place. *)
Definition swap_remove (at_ : nat) (pool : list nat) : list nat :=
  match last pool with
  | Some l => take (length pool - 1) (<[at_ := l]> pool)
  | None => []
  end.

(** The draws without replacement; [picks] is what [pick] returns. *)
Fixpoint draw_marks (n : nat) (picks : list nat) (pool : list nat) (marked : list bool) :
    option (list bool) :=
  match n with
  | O => Some marked
  | S n =>
      match picks with
      | [] => None
      | at_ :: picks =>
          match pool !! at_ with
          | None => None
          | Some domain => draw_marks n picks (swap_remove at_ pool) (<[domain := true]> marked)
          end
      end
  end.

Definition chosen (domains : list string) (marked : list bool) : list string :=
  (zip domains marked) ≫= λ '(id, m), if (m : bool) then [id] else [].

Definition draw (config : ReplicatedFaults) (localities : list (IpAddr * LocalityInfo))
    (kind : PatternKind) (picks : list nat) : option ReplicationPlan :=
  let domains := dedup (merge_sort String.le ((λ l, id_for l.2 (rf_level config)) <$> localities)) in
  let domain_of := omap (λ l, (λ at_, (l.1, at_)) <$> position (id_for l.2 (rf_level config)) domains) localities in
  let count := length domains in
  if (count <? 2)%nat then Some (mkReplicationPlan Spared 0 domain_of (replicate count false)) else
  let tolerance := Nat.min (rf_tolerance config) (count - 1) in
  match kind with
  | PK_Rolling => Some (mkReplicationPlan (Rolling domains) tolerance domain_of (replicate count false))
  | PK_Striped =>
      match draw_marks (tolerance - 1) picks (seq 0 count) (replicate count false) with
      | Some marked => Some (mkReplicationPlan (Striped domains (chosen domains marked)) tolerance domain_of marked)
      | None => None
      end
  | PK_Minority =>
      match draw_marks tolerance picks (seq 0 count) (replicate count false) with
      | Some marked => Some (mkReplicationPlan (Minority (chosen domains marked)) tolerance domain_of marked)
      | None => None
      end
  end.

Definition is_rolling (p : ReplicationPlan) : bool :=
  match rp_pattern p with Rolling _ => true | _ => false end.

(** A map's [get]. *)
Fixpoint assoc_get {A} (l : list (IpAddr * A)) (ip : IpAddr) : option A :=
  match l with
  | [] => None
  | (k, a) :: l => if bool_decide (k = ip) then Some a else assoc_get l ip
  end.

Definition plan_domain (p : ReplicationPlan) (ip : IpAddr) : option nat := assoc_get (rp_domain_of p) ip.

Definition domain_count (p : ReplicationPlan) : nat := length (rp_marked p).

Definition within (p : ReplicationPlan) (domain : nat) (first : nat) : option bool :=
  let count := domain_count p in
  if (count =? 0)%nat then None else
  let offset := ((domain + count - first mod count) mod count)%nat in
  Some (offset <? rp_tolerance p)%nat.

Definition unmarked (l : list bool) : nat := length (filter (λ m, m = false) l).

Definition rotates_to (p : ReplicationPlan) (domain : nat) (stripe : Z) : option bool :=
  match rp_marked p !! domain with
  | None => None
  | Some true => Some false
  | Some false =>
      let rotation := Z.of_nat (unmarked (rp_marked p)) in
      let rank := Z.of_nat (unmarked (take domain (rp_marked p))) in
      if rotation =? 0 then None else Some (stripe mod rotation =? rank)
  end.

Definition in_window (p : ReplicationPlan) (domain turn : nat) : option bool := within p domain turn.

Definition window_ids (p : ReplicationPlan) (turn : nat) : list string :=
  match rp_pattern p with
  | Rolling domains =>
      omap (λ d, if bool_decide (in_window p d turn = Some true) then domains !! d else None)
        (seq 0 (length domains))
  | _ => []
  end.

(** ** Published layouts *)

(** [path.split('/')]. *)
Fixpoint split_path (s : str) : list str :=
  match s with
  | [] => [[]]
  | c :: s =>
      if decide (c = "/"%char) then [] :: split_path s
      else match split_path s with
           | [] => [[c]]
           | part :: parts => (c :: part) :: parts
           end
  end.

Definition push_part (parts : list str) (part : str) : list str :=
  if bool_decide (part = []) || bool_decide (part = lit ".") then parts
  else if bool_decide (part = lit "..") then take (length parts - 1) parts
  else parts ++ [part].

(** [join("/")]. *)
Fixpoint join_path (parts : list str) : str :=
  match parts with
  | [] => []
  | [part] => part
  | part :: parts => part ++ lit "/" ++ join_path parts
  end.

Definition normalize_path (path : str) : str :=
  let joined := join_path (foldl push_part [] (split_path path)) in
  match path with
  | "/"%char :: _ => lit "/" ++ joined
  | _ => joined
  end.

Record Region := mkRegion {
  rg_start : Z;
  rg_end : Z;
  rg_stripe : option Z;
  rg_shard : option str;
}.

Definition Entry : Type := option Z * option str.

Record LayoutIndex := mkLayoutIndex {
  lx_by_path : gmap str (list Region);
  lx_longest : Z;
}.

Definition add_region (index : LayoutIndex) (r : LayoutRegion) : LayoutIndex :=
  if lr_end r <=? lr_start r then index else
  let path := normalize_path (lr_path r) in
  mkLayoutIndex
    (<[path := default [] (lx_by_path index !! path) ++
         [mkRegion (lr_start r) (lr_end r) (lr_stripe r) (lr_shard r)]]> (lx_by_path index))
    (Z.max (lx_longest index) (lr_end r - lr_start r)).

(** [sort_by_key], stable. *)
Fixpoint insert_region (x : Region) (l : list Region) : list Region :=
  match l with
  | [] => [x]
  | y :: l' => if rg_start x <=? rg_start y then x :: l else y :: insert_region x l'
  end.

Definition sort_regions (l : list Region) : list Region := foldr insert_region [] l.

Definition LayoutIndex_new (regions : list LayoutRegion) : LayoutIndex :=
  let index := foldl add_region (mkLayoutIndex ∅ 0) regions in
  mkLayoutIndex (sort_regions <$> lx_by_path index) (lx_longest index).

(** [take_while]; a partition point is the length of the leading part. *)
Fixpoint take_while {A} (f : A → bool) (l : list A) : list A :=
  match l with
  | [] => []
  | a :: l => if f a then a :: take_while f l else []
  end.

Definition entries_in (index : LayoutIndex) (path : str) (start end_ : Z) : list Entry :=
  match lx_by_path index !! normalize_path path with
  | None => []
  | Some ranges =>
      let before := take_while (λ r, rg_start r <? end_) ranges in
      let floor := Z.max (start - lx_longest index) 0 in
      (λ r, (rg_stripe r, rg_shard r)) <$>
        filter (λ r, start < rg_end r) (take_while (λ r, floor <=? rg_start r) (reverse before))
  end.

Definition entries (index : LayoutIndex) (path : str) (sector : Z) : list Entry :=
  entries_in index path (sector * SECTOR_SIZE) ((sector + 1) * SECTOR_SIZE).

Definition covers (index : LayoutIndex) (path : str) (sector : Z) : bool :=
  negb (bool_decide (entries index path sector = [])).

Definition stripes (index : LayoutIndex) (path : str) (sector : Z) : list (option Z) :=
  fst <$> filter (λ e, e.2 = None) (entries index path sector).

(** ** Where damage may land *)

(** [all] of fallible answers, left to right, stopping at the first [false]. *)
Fixpoint all_rotate (p : ReplicationPlan) (domain : nat) (l : list (option Z)) : option bool :=
  match l with
  | [] => Some true
  | None :: l => all_rotate p domain l
  | Some stripe :: l =>
      match rotates_to p domain stripe with
      | Some true => all_rotate p domain l
      | r => r
      end
  end.

(** [dedup] drops neighbours that answer alike, so it is left out. *)
Definition plan_allows (p : ReplicationPlan) (owner : IpAddr) (layout : option LayoutIndex)
    (path : str) (sector : Z) (turn : nat) : option bool :=
  match plan_domain p owner with
  | None => Some true
  | Some domain =>
      match rp_pattern p with
      | Spared => Some false
      | Minority _ => rp_marked p !! domain
      | Rolling _ => in_window p domain turn
      | Striped _ _ =>
          match rp_marked p !! domain with
          | None => None
          | Some true => Some true
          | Some false =>
              let stripes := match layout with Some l => stripes l path sector | None => [] end in
              if bool_decide (stripes = []) || bool_decide (None ∈ stripes) then Some false
              else all_rotate p domain stripes
          end
      end
  end.

(** ** Turns *)

Record ReplicationSlot := mkReplicationSlot {
  rs_plan : ReplicationPlan;
  rs_turn : nat;
  rs_damaged : bool;
  rs_recheck : bool;
}.

Definition ReplicationSlot_new (plan : ReplicationPlan) : ReplicationSlot :=
  mkReplicationSlot plan 0 false false.

(** The part of the storage state the patterns read: the damaged sectors of
    named files and the published layouts. *)
Record Damaged := mkDamaged { dm_owner : IpAddr; dm_path : str; dm_sector : Z }.

#[global] Instance Damaged_eq_dec : EqDecision Damaged.
Proof. solve_decision. Defined.

Record FaultState := mkFaultState {
  fs_slots : list ReplicationSlot;
  fs_damage : list Damaged;
  fs_layouts : IpAddr → option LayoutIndex;
}.

Definition counts (layouts : IpAddr → option LayoutIndex) (d : Damaged) : bool :=
  match layouts (dm_owner d) with
  | None => true
  | Some layout => covers layout (dm_path d) (dm_sector d)
  end.

Definition window_damaged (st : FaultState) (plan : ReplicationPlan) (turn : nat) : bool :=
  existsb (λ d,
    match plan_domain plan (dm_owner d) with
    | Some domain => bool_decide (in_window plan domain turn = Some true) && counts (fs_layouts st) d
    | None => false
    end) (fs_damage st).

Definition note_damage_changed (st : FaultState) : FaultState :=
  mkFaultState ((λ s, mkReplicationSlot (rs_plan s) (rs_turn s) (rs_damaged s) true) <$> fs_slots st)
    (fs_damage st) (fs_layouts st).

(** The body of [settle_turns] for one slot. *)
Definition settle_slot (st : FaultState) (owner : IpAddr) (s : ReplicationSlot) : ReplicationSlot :=
  let plan := rs_plan s in
  if negb (is_rolling plan) then s else
  match plan_domain plan owner with
  | None => s
  | Some domain =>
      let turn := rs_turn s in
      let s :=
        if rs_recheck s
        then mkReplicationSlot plan turn (window_damaged st plan turn) false
        else s in
      if negb (rs_damaged s) && negb (bool_decide (in_window plan domain turn = Some true))
      then mkReplicationSlot plan ((turn + 1) mod domain_count plan)%nat (rs_damaged s) true
      else s
  end.

Definition settle_turns (owner : IpAddr) (st : FaultState) : FaultState :=
  mkFaultState (settle_slot st owner <$> fs_slots st) (fs_damage st) (fs_layouts st).

(** The patterns' part of [weigher]: whether a random fault may damage the
    sector, with no shard book installed. *)
Definition eligible (st : FaultState) (d : Damaged) : bool :=
  forallb (λ s, bool_decide
    (plan_allows (rs_plan s) (dm_owner d) (fs_layouts st (dm_owner d)) (dm_path d) (dm_sector d) (rs_turn s)
       = Some true)) (fs_slots st).

Definition publish_layout (ip : IpAddr) (regions : list LayoutRegion) (st : FaultState) : FaultState :=
  note_damage_changed (mkFaultState (fs_slots st) (fs_damage st)
    (λ o, if bool_decide (o = ip) then Some (LayoutIndex_new regions) else fs_layouts st o)).

(** A disk comes up for a fault: turns settle, and an eligible sector may be
    damaged. *)
Definition fault (d : Damaged) (st : FaultState) : FaultState :=
  let st := settle_turns (dm_owner d) st in
  if eligible st d
  then note_damage_changed (mkFaultState (fs_slots st) (d :: fs_damage st) (fs_layouts st))
  else st.

(** Sectors rewritten, truncated away or deleted are damaged no more. *)
Definition repair (ds : list Damaged) (st : FaultState) : FaultState :=
  note_damage_changed (mkFaultState (fs_slots st) (filter (λ d, d ∉ ds) (fs_damage st)) (fs_layouts st)).

(** The damaged sectors of a process's files that a publication describes
    anew: covered now, and not with the same entries before.  A process
    publishes a region before it writes it (the journal's in-flight regions),
    so such a sector is no copy of what it is said to hold until it is
    rewritten. *)
Definition described_anew (ip : IpAddr) (regions : list LayoutRegion) (st : FaultState) :
    list Damaged :=
  let new := LayoutIndex_new regions in
  filter (λ d,
    bool_decide (dm_owner d = ip) && covers new (dm_path d) (dm_sector d) &&
    negb match fs_layouts st ip with
         | Some old => bool_decide (entries old (dm_path d) (dm_sector d) =
                                    entries new (dm_path d) (dm_sector d))
         | None => false
         end = true) (fs_damage st).

(** Any sequence of the operations, with the damaged sectors described anew
    and not rewritten since. *)
Inductive fault_step : FaultState * list Damaged → FaultState * list Damaged → Prop :=
  | Step_settle owner st stale : fault_step (st, stale) (settle_turns owner st, stale)
  | Step_fault d st stale : fault_step (st, stale) (fault d st, stale)
  | Step_repair ds st stale :
      fault_step (st, stale) (repair ds st, filter (λ d, d ∉ ds) stale)
  | Step_publish ip regions st stale :
      fault_step (st, stale) (publish_layout ip regions st, described_anew ip regions st ++ stale).

Definition fault_start (plans : list ReplicationPlan) (layouts : IpAddr → option LayoutIndex) : FaultState :=
  mkFaultState (ReplicationSlot_new <$> plans) [] layouts.

(** ** Lookups in a published layout *)

Definition shares_bytes (path : str) (start end_ : Z) (r : LayoutRegion) : bool :=
  (lr_start r <? lr_end r) && bool_decide (normalize_path (lr_path r) = normalize_path path) &&
  (lr_start r <? end_) && (start <? lr_end r).

Definition region_of (r : LayoutRegion) : Region :=
  mkRegion (lr_start r) (lr_end r) (lr_stripe r) (lr_shard r).

Lemma insert_region_perm x l : insert_region x l ≡ₚ x :: l.
Proof.
  induction l as [|y l IH]; cbn; [done|]. destruct (_ <=? _); [done|].
  rewrite IH. apply perm_swap.
Qed.

Lemma sort_regions_perm l : sort_regions l ≡ₚ l.
Proof. induction l as [|x l IH]; cbn; [done|]. by rewrite insert_region_perm, IH. Qed.

Definition by_start (x y : Region) : Prop := rg_start x ≤ rg_start y.

Lemma insert_region_sorted x l :
  StronglySorted by_start l → StronglySorted by_start (insert_region x l).
Proof.
  induction 1 as [|y l Hs IH Hf]; cbn; [by repeat constructor|].
  destruct (Z.leb_spec (rg_start x) (rg_start y)).
  - constructor; [by constructor|]. constructor; [done|]. eapply Forall_impl; [exact Hf|].
    unfold by_start. intros; lia.
  - constructor; [done|]. rewrite insert_region_perm. constructor; [unfold by_start; lia|done].
Qed.

Lemma sort_regions_sorted l : StronglySorted by_start (sort_regions l).
Proof. induction l; cbn; [constructor|]. by apply insert_region_sorted. Qed.

(** On a list sorted so that the test turns false once, the leading part is
    all that passes. *)
Lemma take_while_filter {A} (R : A → A → Prop) (f : A → bool) l :
  StronglySorted R l → (∀ x y, R x y → f y = true → f x = true) →
  take_while f l = filter (λ x, f x = true) l.
Proof.
  intros Hs Hm. induction Hs as [|x l Hs IH Hf]; [done|]. cbn [take_while]. destruct (f x) eqn:E.
  - rewrite filter_cons_True by done. by rewrite IH.
  - rewrite filter_cons_False by congruence. symmetry. clear Hs IH. induction Hf as [|y l Hxy Hf IHf]; [done|].
    rewrite filter_cons_False; [done|]. intros Hy. rewrite (Hm _ _ Hxy Hy) in E. done.
Qed.

Lemma StronglySorted_reverse {A} (R : A → A → Prop) l :
  StronglySorted R l → StronglySorted (flip R) (reverse l).
Proof.
  induction 1 as [|x l Hs IH Hf]; [constructor|]. rewrite reverse_cons.
  clear Hs. assert (Forall (λ y, R x y) (reverse l)) as Hr by (by apply Forall_reverse).
  induction IH as [|y m Hm IHm Hy]; cbn; [repeat constructor|]. apply Forall_cons in Hr as [Hxy Hr].
  constructor; [by apply IHm|]. apply Forall_app. split; [done|]. by repeat constructor.
Qed.

(** What the index holds while it is built. *)
Lemma add_region_spec index r path :
  default [] (lx_by_path (add_region index r) !! path) = default [] (lx_by_path index !! path) ++
    (region_of <$> filter (λ r, lr_start r < lr_end r ∧ normalize_path (lr_path r) = path) [r]) ∧
  lx_longest index ≤ lx_longest (add_region index r) ∧
  lr_end r - lr_start r ≤ Z.max (lx_longest (add_region index r)) 0.
Proof.
  unfold add_region. destruct (Z.leb_spec (lr_end r) (lr_start r)).
  - rewrite filter_cons_False by lia. cbn. rewrite app_nil_r. split_and!; [done|lia|lia].
  - cbn [lx_by_path lx_longest]. split_and!; [|lia|lia].
    destruct (decide (normalize_path (lr_path r) = path)) as [<-|Hne].
    + by rewrite lookup_insert_eq, filter_cons_True by (split; [lia|done]).
    + rewrite lookup_insert_ne, filter_cons_False by (done || by intros [_ ?]). cbn. by rewrite app_nil_r.
Qed.

Lemma add_regions_spec regions index path :
  let index' := foldl add_region index regions in
  default [] (lx_by_path index' !! path) = default [] (lx_by_path index !! path) ++
    (region_of <$> filter (λ r, lr_start r < lr_end r ∧ normalize_path (lr_path r) = path) regions) ∧
  lx_longest index ≤ lx_longest index' ∧
  Forall (λ r, lr_end r - lr_start r ≤ Z.max (lx_longest index') 0) regions.
Proof.
  induction regions as [|r regions IH] in index |- *; cbn [foldl].
  - cbn. rewrite app_nil_r. split_and!; [done|lia|constructor].
  - destruct (add_region_spec index r path) as (G1 & G2 & G3).
    destruct (IH (add_region index r)) as (H1 & H2 & H3). split_and!; [|lia|constructor; [lia|done]].
    rewrite H1, G1, <- app_assoc, <- fmap_app, <- filter_app. done.
Qed.

Lemma filter_fmap_region (P : Region → Prop) `{∀ x, Decision (P x)} (l : list LayoutRegion) :
  filter P (region_of <$> l) = region_of <$> filter (λ r, P (region_of r)) l.
Proof.
  induction l as [|r l IH]; [done|]. cbn [fmap list_fmap]. rewrite !filter_cons. by destruct (decide _); cbn; rewrite IH.
Qed.

Lemma filter_ext_Forall {A} (P Q : A → Prop) `{∀ x, Decision (P x)} `{∀ x, Decision (Q x)} (l : list A) :
  Forall (λ x, P x ↔ Q x) l → filter P l = filter Q l.
Proof.
  induction 1 as [|x l Hx Hl IH]; [done|]. rewrite !filter_cons, IH.
  destruct (decide (P x)), (decide (Q x)); tauto.
Qed.

Lemma Forall_filter_keep {A} (Q P : A → Prop) `{∀ x, Decision (P x)} (l : list A) :
  Forall Q l → Forall Q (filter P l).
Proof. rewrite !Forall_forall. intros Hq x [_ Hx]%list_elem_of_filter. auto. Qed.

Lemma StronglySorted_filter {A} (R : A → A → Prop) (P : A → Prop) `{∀ x, Decision (P x)} (l : list A) :
  StronglySorted R l → StronglySorted R (filter P l).
Proof.
  induction 1 as [|x l Hs IH Hf]; [constructor|]. rewrite filter_cons. destruct (decide (P x)); [|done].
  constructor; [done|]. by apply Forall_filter_keep.
Qed.

(** Nothing the backwards scan skips, and nothing past the partition point,
    shares a byte with the range. *)
Lemma scan_is_filter ranges longest start end_ :
  StronglySorted by_start ranges → Forall (λ r, 0 ≤ rg_start r ∧ rg_end r - rg_start r ≤ longest) ranges →
  filter (λ r, start < rg_end r)
    (take_while (λ r, Z.max (start - longest) 0 <=? rg_start r)
      (reverse (take_while (λ r, rg_start r <? end_) ranges))) ≡ₚ
  filter (λ r, rg_start r < end_ ∧ start < rg_end r) ranges.
Proof.
  intros Hs Hf.
  rewrite (take_while_filter by_start (λ r, rg_start r <? end_)); [|done|intros x y; unfold by_start; rewrite !Z.ltb_lt; lia].
  set (l := filter _ ranges). assert (StronglySorted by_start l) as Hl by by apply StronglySorted_filter.
  rewrite (take_while_filter (flip by_start));
    [|by apply StronglySorted_reverse|intros x y; unfold by_start; cbn; rewrite !Z.leb_le; lia].
  rewrite list_filter_filter, reverse_Permutation. subst l. rewrite list_filter_filter.
  erewrite filter_ext_Forall; [done|]. eapply Forall_impl; [exact Hf|]. cbn. intros x [? ?].
  rewrite Z.ltb_lt, Z.leb_le. lia.
Qed.

(** A lookup in a published layout, a scan backwards from the range's end
    that stops at the longest region's reach, finds exactly the regions of
    that file which share a byte with the range, each once. *)
Theorem layout_lookup_exact regions path start end_ :
  Forall (λ r, 0 ≤ lr_start r) regions →
  entries_in (LayoutIndex_new regions) path start end_ ≡ₚ
    (λ r, (lr_stripe r, lr_shard r)) <$> filter (λ r, shares_bytes path start end_ r = true) regions.
Proof.
  intros Hpos. unfold entries_in, LayoutIndex_new. cbn [lx_by_path lx_longest].
  destruct (add_regions_spec regions (mkLayoutIndex ∅ 0) (normalize_path path)) as (H1 & H2 & H3).
  set (index := foldl add_region (mkLayoutIndex ∅ 0) regions) in *. cbn in H1, H2.
  rewrite lookup_empty in H1. cbn in H1. rewrite lookup_fmap.
  set (mine := filter (λ r, lr_start r < lr_end r ∧ normalize_path (lr_path r) = normalize_path path) regions) in *.
  assert (filter (λ r, shares_bytes path start end_ r = true) regions =
    filter (λ r, lr_start r < end_ ∧ start < lr_end r) mine) as ->.
  { unfold mine. rewrite list_filter_filter. apply filter_ext_Forall, Forall_true. intros r. unfold shares_bytes.
    rewrite !andb_true_iff, !Z.ltb_lt, bool_decide_eq_true. tauto. }
  destruct (lx_by_path index !! normalize_path path) as [ranges|]; cbn in H1 |- *.
  2:{ destruct mine; [done|discriminate H1]. }
  subst ranges. rewrite scan_is_filter.
  - rewrite sort_regions_perm, filter_fmap_region, <- list_fmap_compose. done.
  - apply sort_regions_sorted.
  - rewrite sort_regions_perm. apply Forall_fmap. unfold mine. apply Forall_filter_keep.
    rewrite Forall_forall in *. intros r Hr. cbn. specialize (Hpos r Hr). specialize (H3 r Hr). cbn in H3. lia.
Qed.
