(* ===== verification/ReplicationSafe.v ===== *)
(** Replicated fault patterns never reach every copy of a record: whatever a
    seed draws and however faults, repairs and publications follow each other,
    a record holds damage in at most as many failure domains as tolerated, and
    some domain of the group keeps it whole. *)
From stdpp Require Import base list numbers gmap strings sorting relations.
From S2P Require Import Prelude Names Storage Cursor Sectors Replication.

(** ** Marks *)

Definition marks (l : list bool) : nat := length (filter (λ m, m = true) l).

Lemma swap_remove_perm at_ pool d :
  pool !! at_ = Some d → pool ≡ₚ d :: swap_remove at_ pool.
Proof.
  intros Hat. destruct pool as [|l init _] using rev_ind; [done|]. unfold swap_remove.
  rewrite last_snoc, length_app. cbn [length]. replace (length init + 1 - 1)%nat with (length init) by lia.
  apply lookup_app_Some in Hat as [Hat|[Hle Hx]].
  - pose proof (lookup_lt_Some _ _ _ Hat). rewrite insert_app_l, take_app_le, take_ge by (rewrite ?length_insert; lia).
    assert (<[at_ := l]> init ≡ₚ l :: delete at_ init) as ->.
    { rewrite insert_take_drop, <- Permutation_middle by done. by rewrite delete_take_drop. }
    rewrite (delete_Permutation init at_ d) at 1 by done. rewrite Permutation_app_comm. cbn. apply perm_swap.
  - apply list_lookup_singleton_Some in Hx as [Hz <-]. assert (at_ = length init) as -> by lia.
    rewrite list_insert_id by (rewrite lookup_app_r, Nat.sub_diag by lia; done).
    rewrite take_app_length. by rewrite Permutation_app_comm.
Qed.

Lemma marks_set marked d : marked !! d = Some false → marks (<[d := true]> marked) = S (marks marked).
Proof.
  unfold marks. induction marked as [|m marked IH] in d |- *; [done|]. destruct d as [|d]; [by intros [= ->]|].
  intros Hd. change (<[S d := true]> (m :: marked)) with (m :: <[d := true]> marked).
  rewrite !filter_cons. destruct (decide (m = true)); cbn [length]; by rewrite IH.
Qed.

Lemma draw_marks_count n picks pool marked marked' :
  draw_marks n picks pool marked = Some marked' → NoDup pool →
  (∀ d, d ∈ pool → marked !! d = Some false) →
  marks marked' = (marks marked + n)%nat ∧ length marked' = length marked.
Proof.
  induction n as [|n IH] in picks, pool, marked |- *; cbn; [intros [= <-]; lia|].
  destruct picks as [|at_ picks]; [done|]. destruct (pool !! at_) as [d|] eqn:Ed; [|done]. intros Hd Hnd Hf.
  pose proof (swap_remove_perm _ _ _ Ed) as Hp. rewrite Hp in Hnd. apply NoDup_cons in Hnd as [Hnot Hnd].
  destruct (IH _ _ _ Hd Hnd) as [-> ->].
  - intros e He. rewrite list_lookup_insert_ne; [|intros ->; done]. apply Hf. rewrite Hp. by right.
  - rewrite marks_set, length_insert; [lia|]. apply Hf. rewrite Hp. by left.
Qed.

(** Distinct marked domains are at most the marks. *)
Lemma marks_indices marked :
  marks marked = length (filter (λ d, marked !! d = Some true) (seq 0 (length marked))).
Proof.
  unfold marks. induction marked as [|m marked IH] using rev_ind; [done|].
  rewrite length_app, Nat.add_comm. cbn [length]. rewrite Nat.add_comm, seq_app, !filter_app, !length_app, IH. f_equal.
  - f_equal. apply filter_ext_Forall, Forall_forall. intros d Hd%elem_of_seq. by rewrite lookup_app_l by lia.
  - cbn. rewrite lookup_app_r, Nat.sub_diag by lia. cbn. destruct m; cbn; reflexivity.
Qed.

Lemma NoDup_within {A} (ds l : list A) : NoDup ds → ds ⊆ l → (length ds ≤ length l)%nat.
Proof. intros Hnd Hs. apply submseteq_length. by apply NoDup_submseteq. Qed.

Lemma marked_bound marked ds :
  NoDup ds → (∀ d, d ∈ ds → marked !! d = Some true) → (length ds ≤ marks marked)%nat.
Proof.
  intros Hnd Hm. rewrite marks_indices. apply NoDup_within; [done|]. intros d Hd.
  apply list_elem_of_filter. split; [by apply Hm|]. apply elem_of_seq. split; [lia|].
  by eapply lookup_lt_Some, Hm.
Qed.

(** ** Windows *)

Lemma offset_eq c d t : (d < c)%nat → (t < c)%nat →
  ((d + c - t) mod c)%nat = if (t <=? d)%nat then (d - t)%nat else (d + c - t)%nat.
Proof.
  intros Hd Ht. destruct (Nat.leb_spec t d).
  - replace (d + c - t)%nat with ((d - t) + 1 * c)%nat by lia. rewrite Nat.Div0.mod_add. apply Nat.mod_small. lia.
  - apply Nat.mod_small. lia.
Qed.

Lemma window_bound p turn ds :
  NoDup ds → (∀ d, d ∈ ds → (d < domain_count p)%nat ∧ in_window p d turn = Some true) →
  (length ds ≤ rp_tolerance p)%nat.
Proof.
  intros Hnd Hw. set (c := domain_count p) in *. set (t := (turn mod c)%nat).
  rewrite <- (length_fmap (λ d, ((d + c - t) mod c)%nat) ds), <- (length_seq (rp_tolerance p) 0).
  apply NoDup_within.
  - apply NoDup_fmap_2_strong; [|done]. intros d e Hd%Hw He%Hw. destruct Hd as [Hd _], He as [He _].
    assert (t < c)%nat by (apply Nat.mod_upper_bound; lia).
    rewrite !offset_eq by done. destruct (Nat.leb_spec t d), (Nat.leb_spec t e); lia.
  - intros o Ho. apply list_elem_of_fmap in Ho as (d & -> & Hd). destruct (Hw d Hd) as [Hlt Hin].
    unfold in_window, within in Hin. fold c in Hin. destruct (Nat.eqb_spec c 0); [done|].
    injection Hin as Hin%Nat.ltb_lt. apply elem_of_seq. fold t in Hin. lia.
Qed.

(** ** Rotations *)

Lemma unmarked_app a b : unmarked (a ++ b) = (unmarked a + unmarked b)%nat.
Proof. unfold unmarked. by rewrite filter_app, length_app. Qed.

Lemma unmarked_false l : unmarked (false :: l) = S (unmarked l).
Proof. done. Qed.

Lemma rank_lt marked d e :
  (d < e)%nat → marked !! d = Some false → (unmarked (take d marked) < unmarked (take e marked))%nat.
Proof.
  intros Hlt Hd.
  assert (take e marked = take d marked ++ false :: drop (S d) (take e marked)) as ->.
  { rewrite <- (take_drop_middle (take e marked) d false) at 1; [|by rewrite lookup_take_lt].
    by rewrite take_take, Nat.min_l by lia. }
  rewrite unmarked_app, unmarked_false. lia.
Qed.

Lemma rotation_unique p d e s :
  rotates_to p d s = Some true → rotates_to p e s = Some true → d = e.
Proof.
  unfold rotates_to. destruct (rp_marked p !! d) as [[]|] eqn:Ed; [done| |done].
  destruct (rp_marked p !! e) as [[]|] eqn:Ee; [done| |done]. destruct (_ =? 0); [done|].
  intros [= Hd%Z.eqb_eq] [= He%Z.eqb_eq]. destruct (Nat.lt_trichotomy d e) as [Hlt|[->|Hlt]]; [|done|].
  - pose proof (rank_lt _ _ _ Hlt Ed). lia.
  - pose proof (rank_lt _ _ _ Hlt Ee). lia.
Qed.

Lemma all_rotate_each p d l s :
  all_rotate p d l = Some true → Some s ∈ l → rotates_to p d s = Some true.
Proof.
  induction l as [|[t|] l IH]; cbn; [by intros _ ?%elem_of_nil| |].
  - destruct (rotates_to p d t) as [[]|] eqn:E; [|done..]. intros Ha [[= ->]|Hin]%elem_of_cons; auto.
  - intros Ha [?|Hin]%elem_of_cons; [done|auto].
Qed.

Lemma NoDup_all_eq {A} (l : list A) : NoDup l → (∀ x y, x ∈ l → y ∈ l → x = y) → (length l ≤ 1)%nat.
Proof.
  intros Hnd He. destruct l as [|x [|y l]]; cbn; [lia|lia|]. exfalso.
  rewrite (He x y) in Hnd by set_solver. apply NoDup_cons in Hnd as [Hn _]. set_solver.
Qed.

Lemma filter_split {A} (P : A → Prop) `{∀ x, Decision (P x)} (l : list A) :
  length l = (length (filter P l) + length (filter (λ x, ¬ P x) l))%nat.
Proof.
  induction l as [|x l IH]; [done|]. rewrite !filter_cons. destruct (decide (P x)), (decide (¬ P x)); cbn; try tauto; lia.
Qed.

(** ** Drawn plans *)

Record plan_ok (p : ReplicationPlan) : Prop := {
  po_domains : ∀ ip d, plan_domain p ip = Some d → (d < domain_count p)%nat;
  po_pattern :
    match rp_pattern p with
    | Spared => rp_tolerance p = 0%nat
    | Minority _ => marks (rp_marked p) = rp_tolerance p
    | Striped _ _ => S (marks (rp_marked p)) = rp_tolerance p
    | Rolling _ => True
    end;
  po_clean : rp_pattern p ≠ Spared → (0 < rp_tolerance p < domain_count p)%nat;
}.

Lemma assoc_get_In {A} (l : list (IpAddr * A)) ip a : assoc_get l ip = Some a → (ip, a) ∈ l.
Proof.
  induction l as [|[k b] l IH]; cbn; [done|]. case_bool_decide as E; [intros [= ->]; subst; by left|].
  intros H. right. auto.
Qed.

Lemma position_lt id domains at_ : position id domains = Some at_ → domains !! at_ = Some id.
Proof.
  unfold position. destruct (list_find _ _) as [[i x]|] eqn:E; [|done]. intros [= <-].
  apply list_find_Some in E as (Hi & -> & _). done.
Qed.

Lemma marks_none n : marks (replicate n false) = 0%nat.
Proof. unfold marks. induction n as [|n IH]; [done|]. cbn [replicate]. by rewrite filter_cons_False. Qed.

Lemma drawn_count n picks count marked :
  draw_marks n picks (seq 0 count) (replicate count false) = Some marked →
  marks marked = n ∧ length marked = count.
Proof.
  intros Hd. destruct (draw_marks_count _ _ _ _ _ Hd) as [Hm Hl].
  - apply NoDup_seq.
  - intros d Hd'%elem_of_seq. apply lookup_replicate. split; [done|lia].
  - rewrite marks_none in Hm. rewrite length_replicate in Hl. lia.
Qed.

Definition domain_ids (config : ReplicatedFaults) (localities : list (IpAddr * LocalityInfo)) : list string :=
  dedup (merge_sort String.le ((λ l, id_for l.2 (rf_level config)) <$> localities)).

Lemma draw_domain_of config localities kind picks p :
  draw config localities kind picks = Some p →
  rp_domain_of p = omap (λ l, (λ at_, (l.1, at_)) <$>
    position (id_for l.2 (rf_level config)) (domain_ids config localities)) localities ∧
  domain_count p = length (domain_ids config localities).
Proof.
  unfold draw. fold (domain_ids config localities). set (ids := domain_ids config localities).
  destruct (_ <? 2)%nat; [intros [= <-]; cbn; by rewrite length_replicate|].
  destruct kind.
  - destruct (draw_marks _ _ _ _) as [m|] eqn:E; [|done]. intros [= <-]. by apply drawn_count in E as [_ ?].
  - destruct (draw_marks _ _ _ _) as [m|] eqn:E; [|done]. intros [= <-]. by apply drawn_count in E as [_ ?].
  - intros [= <-]. cbn. by rewrite length_replicate.
Qed.

Lemma draw_ok config localities kind picks p :
  (1 ≤ rf_tolerance config)%nat → draw config localities kind picks = Some p →
  plan_ok p ∧ (rp_tolerance p ≤ rf_tolerance config)%nat.
Proof.
  intros Ht Hd. destruct (draw_domain_of _ _ _ _ _ Hd) as [Hdo Hc].
  assert (∀ ip d, plan_domain p ip = Some d → (d < domain_count p)%nat) as Hdom.
  { unfold plan_domain. rewrite Hdo, Hc. intros ip d Hin%assoc_get_In.
    apply list_elem_of_omap in Hin as ([ip' l] & _ & Hpos).
    destruct (position _ _) as [at_|] eqn:E; [|done]. injection Hpos as _ <-. by eapply lookup_lt_Some, position_lt. }
  revert Hd. unfold draw. fold (domain_ids config localities). destruct (Nat.ltb_spec (length (domain_ids config localities)) 2).
  - intros [= <-]. split; [by constructor|cbn; lia].
  - destruct kind.
    + destruct (draw_marks _ _ _ _) as [m|] eqn:E; [|done]. intros [= <-]. apply drawn_count in E as [Hm Hl].
      split; [constructor; cbn [rp_pattern rp_marked rp_tolerance] in *; [done|done|intros _; unfold domain_count in *; cbn [rp_marked] in *; rewrite ?length_replicate; lia]|cbn; lia].
    + destruct (draw_marks _ _ _ _) as [m|] eqn:E; [|done]. intros [= <-]. apply drawn_count in E as [Hm Hl].
      split; [constructor; cbn [rp_pattern rp_marked rp_tolerance] in *; [done|lia|intros _; unfold domain_count in *; cbn [rp_marked] in *; rewrite ?length_replicate; lia]|cbn; lia].
    + intros [= <-]. split; [constructor; cbn [rp_pattern rp_marked rp_tolerance] in *; [done|done|intros _; unfold domain_count in *; cbn [rp_marked] in *; rewrite ?length_replicate; lia]|cbn; lia].
Qed.

(** ** What is allowed stays within the tolerance *)

(** The records a sector of a process's file holds: the stripes published
    outside shards, or the process's own bytes. *)
Definition records (layout : option LayoutIndex) (path : str) (sector : Z) : list (option Z) :=
  match layout with
  | None => [None]
  | Some l => if bool_decide (stripes l path sector = []) then [None] else stripes l path sector
  end.

Definition may_damage (p : ReplicationPlan) (turn : nat) (k : option Z) (d : nat) : Prop :=
  ∃ owner layout path sector,
    plan_domain p owner = Some d ∧ plan_allows p owner layout path sector turn = Some true ∧
    k ∈ records layout path sector.

Lemma striped_cases p turn k d domains local :
  rp_pattern p = Striped domains local → may_damage p turn k d →
  rp_marked p !! d = Some true ∨ ∃ s, k = Some s ∧ rotates_to p d s = Some true.
Proof.
  intros Hp (owner & layout & path & sector & Hd & Ha & Hk). unfold plan_allows in Ha. rewrite Hd, Hp in Ha.
  destruct (rp_marked p !! d) as [[]|]; [by left| |done]. right.
  set (st := match layout with Some l => stripes l path sector | None => [] end) in Ha.
  case_bool_decide as He; [done|]. case_bool_decide as Hn; [done|]. cbn in Ha.
  assert (k ∈ st) as Hin.
  { unfold records in Hk. subst st. destruct layout as [l|]; [|done]. by rewrite bool_decide_false in Hk by done. }
  destruct k as [s|]; [|done]. exists s. split; [done|]. by eapply all_rotate_each.
Qed.

Lemma allowed_bound p turn k ds :
  plan_ok p → NoDup ds → (∀ d, d ∈ ds → may_damage p turn k d) → (length ds ≤ rp_tolerance p)%nat.
Proof.
  intros [Hdom Hpat _] Hnd Hm. destruct (rp_pattern p) as [ids|ids local|ids|] eqn:Ep.
  - rewrite <- Hpat. apply marked_bound; [done|]. intros d (o & l & pa & se & Hd & Ha & _)%Hm.
    unfold plan_allows in Ha. by rewrite Hd, Ep in Ha.
  - rewrite (filter_split (λ d, rp_marked p !! d = Some true) ds), <- Hpat.
    assert (length (filter (λ d, rp_marked p !! d = Some true) ds) ≤ marks (rp_marked p))%nat.
    { apply marked_bound; [by apply NoDup_filter|]. intros d [? _]%list_elem_of_filter. done. }
    assert (length (filter (λ d, ¬ rp_marked p !! d = Some true) ds) ≤ 1)%nat; [|lia].
    apply NoDup_all_eq; [by apply NoDup_filter|]. intros d e [Hd Hd']%list_elem_of_filter [He He']%list_elem_of_filter.
    destruct (striped_cases _ _ _ _ _ _ Ep (Hm d Hd')) as [?|(s & -> & Hs)]; [done|].
    destruct (striped_cases _ _ _ _ _ _ Ep (Hm e He')) as [?|(s' & [= <-] & Hs')]; [done|].
    by eapply rotation_unique.
  - eapply (window_bound p turn); [done|]. intros d Hd'. destruct (Hm d Hd') as (o & l & pa & se & Hd & Ha & _).
    split; [by eapply Hdom|]. unfold plan_allows in Ha. by rewrite Hd, Ep in Ha.
  - destruct ds as [|d ds]; [cbn; lia|]. destruct (Hm d ltac:(left)) as (o & l & pa & se & Hd & Ha & _).
    unfold plan_allows in Ha. by rewrite Hd, Ep in Ha.
Qed.

(** ** Faults, repairs and turns over time *)

Definition allowed_now (st : FaultState) (s : ReplicationSlot) (d : Damaged) : Prop :=
  plan_allows (rs_plan s) (dm_owner d) (fs_layouts st (dm_owner d)) (dm_path d) (dm_sector d) (rs_turn s) = Some true.

(** Damage that counts is damage still allowed, unless its sector was
    described anew and not rewritten; and a slot that needs no new reading
    knows whether its window holds any. *)
Record slot_ok (stale : list Damaged) (st : FaultState) (s : ReplicationSlot) : Prop := {
  so_damage : ∀ d, d ∈ fs_damage st → d ∉ stale → counts (fs_layouts st) d = true →
    allowed_now st s d;
  so_flag : rs_recheck s = false → rs_damaged s = window_damaged st (rs_plan s) (rs_turn s);
}.

Definition faults_ok (x : FaultState * list Damaged) : Prop :=
  Forall (slot_ok x.2 x.1) (fs_slots x.1).

(** A window that holds no damage means there is none to count. *)
Lemma window_clean stale st s d domain :
  slot_ok stale st s → is_rolling (rs_plan s) = true → window_damaged st (rs_plan s) (rs_turn s) = false →
  d ∈ fs_damage st → d ∉ stale → counts (fs_layouts st) d = true →
  plan_domain (rs_plan s) (dm_owner d) = Some domain → False.
Proof.
  intros [Hs _] Hr Hw Hd Hn Hc Hp. pose proof (Hs d Hd Hn Hc) as Ha. unfold allowed_now, plan_allows in Ha. rewrite Hp in Ha.
  unfold is_rolling in Hr. destruct (rp_pattern (rs_plan s)); try done.
  enough (window_damaged st (rs_plan s) (rs_turn s) = true) by congruence.
  apply existsb_exists. exists d. split; [by apply list_elem_of_In|]. rewrite Hp, Hc, bool_decide_true; done.
Qed.

Lemma settle_slot_ok stale st owner s :
  slot_ok stale st s → slot_ok stale (settle_turns owner st) (settle_slot st owner s).
Proof.
  intros Hok. assert (∀ s', slot_ok stale st s' → slot_ok stale (settle_turns owner st) s') as Hlift
    by (intros s' [H1 H2]; by constructor).
  unfold settle_slot. destruct (is_rolling (rs_plan s)) eqn:Er; cbn [negb]; [|by apply Hlift].
  destruct (plan_domain (rs_plan s) owner) as [domain|]; [|by apply Hlift].
  set (s1 := if rs_recheck s then _ else s).
  assert (slot_ok stale st s1 ∧ rs_plan s1 = rs_plan s ∧ rs_turn s1 = rs_turn s ∧
    rs_damaged s1 = window_damaged st (rs_plan s) (rs_turn s)) as (Hok1 & Hp1 & Ht1 & Hd1).
  { subst s1. destruct (rs_recheck s) eqn:E; [|split_and!; [done..|by apply Hok]].
    split_and!; [|done..]. destruct Hok as [H1 H2]. by constructor. }
  destruct (negb (rs_damaged s1) && _) eqn:Em; [|by apply Hlift]. apply andb_true_iff in Em as [Em _].
  apply negb_true_iff in Em. rewrite Hd1 in Em. constructor; [|done].
  intros d Hd Hn Hc. unfold allowed_now, plan_allows. cbn [rs_plan].
  destruct (plan_domain (rs_plan s) (dm_owner d)) as [dd|] eqn:Edd; [|done].
  exfalso. by eapply (window_clean stale st s d dd).
Qed.

Lemma note_ok stale st s :
  (∀ d, d ∈ fs_damage st → d ∉ stale → counts (fs_layouts st) d = true → allowed_now st s d) →
  slot_ok stale (note_damage_changed st) (mkReplicationSlot (rs_plan s) (rs_turn s) (rs_damaged s) true).
Proof. intros Hs. constructor; [exact Hs|done]. Qed.

Lemma settle_ok owner st stale : faults_ok (st, stale) → faults_ok (settle_turns owner st, stale).
Proof.
  intros Hok. apply Forall_fmap. eapply Forall_impl; [exact Hok|]. intros s Hs. by apply settle_slot_ok.
Qed.

Lemma fault_ok d st stale : faults_ok (st, stale) → faults_ok (fault d st, stale).
Proof.
  intros Hok%(settle_ok (dm_owner d)). unfold fault. set (st1 := settle_turns _ st) in *.
  destruct (eligible st1 d) eqn:El; [|done]. apply Forall_fmap, Forall_forall. intros s Hs. apply note_ok. cbn.
  intros e [->|He]%elem_of_cons Hn Hc.
  - unfold eligible in El. rewrite forallb_forall in El. specialize (El s (proj1 (list_elem_of_In _ _) Hs)).
    by apply bool_decide_eq_true in El.
  - unfold faults_ok in Hok. rewrite Forall_forall in Hok. by apply (so_damage _ _ _ (Hok s Hs)).
Qed.

Lemma repair_ok ds st stale :
  faults_ok (st, stale) → faults_ok (repair ds st, filter (λ d, d ∉ ds) stale).
Proof.
  intros Hok. apply Forall_fmap, Forall_forall. intros s Hs. apply note_ok. cbn.
  intros d [Hds Hd]%list_elem_of_filter Hn Hc. unfold faults_ok in Hok. rewrite Forall_forall in Hok.
  apply (so_damage _ _ _ (Hok s Hs)); [done| |done]. intros Hin. apply Hn. by apply list_elem_of_filter.
Qed.

Lemma stripes_entries a b path sector :
  entries a path sector = entries b path sector →
  stripes a path sector = stripes b path sector ∧ covers a path sector = covers b path sector.
Proof. intros E. unfold stripes, covers. by rewrite E. Qed.

Lemma allows_layouts p owner a b path sector turn :
  stripes a path sector = stripes b path sector →
  plan_allows p owner (Some a) path sector turn = plan_allows p owner (Some b) path sector turn.
Proof. intros E. unfold plan_allows. by rewrite E. Qed.

(** A damaged sector that a publication covers and does not describe anew had
    the same entries before. *)
Lemma not_described_anew ip regions st d :
  d ∈ fs_damage st → d ∉ described_anew ip regions st → dm_owner d = ip →
  covers (LayoutIndex_new regions) (dm_path d) (dm_sector d) = true →
  ∃ old, fs_layouts st ip = Some old ∧
    entries old (dm_path d) (dm_sector d) = entries (LayoutIndex_new regions) (dm_path d) (dm_sector d).
Proof.
  intros Hd Hn Ho Hc. unfold described_anew in Hn. cbn zeta in Hn. rewrite list_elem_of_filter, Hc in Hn.
  rewrite bool_decide_true in Hn by done. destruct (fs_layouts st ip) as [old|]; [|by destruct Hn].
  exists old. split; [done|]. case_bool_decide; [done|by destruct Hn].
Qed.

Lemma publish_ok ip regions st stale :
  faults_ok (st, stale) → faults_ok (publish_layout ip regions st, described_anew ip regions st ++ stale).
Proof.
  intros Hok. apply Forall_fmap, Forall_forall. intros s Hs. apply note_ok. cbn [fst snd fs_damage fs_layouts].
  intros d Hd Hn Hc. unfold faults_ok in Hok. rewrite Forall_forall in Hok. apply not_elem_of_app in Hn as [Hn1 Hn2].
  pose proof (so_damage _ _ _ (Hok s Hs) d Hd Hn2) as Ha.
  unfold allowed_now in *. cbn [fs_layouts]. unfold counts in *. cbn [fst] in *. case_bool_decide as Ho; [|by apply Ha].
  destruct (not_described_anew ip regions st d Hd Hn1 Ho Hc) as (old & Hold & He). rewrite Ho, Hold in Ha.
  destruct (stripes_entries _ _ _ _ He) as [Hst Hco]. rewrite Hco in Ha. specialize (Ha Hc).
  rewrite Ho. rewrite <- (allows_layouts _ _ _ _ _ _ _ Hst). done.
Qed.

Lemma fault_step_ok x y : fault_step x y → faults_ok x → faults_ok y.
Proof.
  intros [owner st stale|d st stale|ds st stale|ip regions st stale] Hok;
    [by apply settle_ok|by apply fault_ok|by apply repair_ok|by apply publish_ok].
Qed.

Lemma start_ok plans layouts : faults_ok (fault_start plans layouts, []).
Proof. apply Forall_fmap, Forall_true. intros p. constructor; [by intros d ?%elem_of_nil|done]. Qed.

Lemma run_faults_ok plans layouts x : rtc fault_step (fault_start plans layouts, []) x → faults_ok x.
Proof.
  intros Hr. pose proof (start_ok plans layouts) as Hok. induction Hr as [|x y z Hs _ IH]; [done|].
  apply IH. by eapply fault_step_ok.
Qed.

(** The plans never change. *)
Lemma fault_step_plans x y : fault_step x y → rs_plan <$> fs_slots y.1 = rs_plan <$> fs_slots x.1.
Proof.
  assert (∀ st, rs_plan <$> fs_slots (note_damage_changed st) = rs_plan <$> fs_slots st) as Hn
    by (intros; cbn; by rewrite <- list_fmap_compose).
  assert (∀ owner st, rs_plan <$> fs_slots (settle_turns owner st) = rs_plan <$> fs_slots st) as Hs.
  { intros owner st1. cbn. rewrite <- list_fmap_compose. apply list_fmap_ext. intros _ s _. cbn. unfold settle_slot.
    destruct (negb (is_rolling _)); [done|]. destruct (plan_domain _ _); [|done].
    destruct (rs_recheck s); cbn; by destruct (_ && _). }
  intros [owner st1 ?|d st1 ?|ds st1 ?|ip regions st1 ?]; cbn [fst]; [by apply Hs| |by etrans; [apply Hn|]|by etrans; [apply Hn|]].
  unfold fault. destruct (eligible _ _); [etrans; [apply Hn|]|]; apply (Hs (dm_owner d) st1).
Qed.

Lemma run_plans plans layouts x :
  rtc fault_step (fault_start plans layouts, []) x → rs_plan <$> fs_slots x.1 = plans.
Proof.
  intros Hr. assert (rs_plan <$> fs_slots (fault_start plans layouts, @nil Damaged).1 = plans) as H0.
  { cbn. rewrite <- list_fmap_compose. rewrite <- (list_fmap_id plans) at 2. by apply list_fmap_ext. }
  induction Hr as [|x1 y z Hs _ IH]; [done|]. apply IH. by rewrite (fault_step_plans _ _ Hs).
Qed.

(** Damage to record [k] in domain [d] of a plan's group: a damaged sector
    that its process published as holding the record, and that is not one it
    described anew and has yet to write. *)
Definition holds_damage (stale : list Damaged) (st : FaultState) (p : ReplicationPlan)
    (k : option Z) (d : nat) : Prop :=
  Exists (λ x, (x ∉ stale) ∧ plan_domain p (dm_owner x) = Some d ∧ counts (fs_layouts st) x = true ∧
    k ∈ records (fs_layouts st (dm_owner x)) (dm_path x) (dm_sector x)) (fs_damage st).

#[global] Instance holds_damage_dec stale st p k d : Decision (holds_damage stale st p k d).
Proof. apply _. Defined.

Lemma holds_bound plans layouts st stale p k ds :
  rtc fault_step (fault_start plans layouts, []) (st, stale) → p ∈ plans → plan_ok p →
  NoDup ds → (∀ d, d ∈ ds → holds_damage stale st p k d) → (length ds ≤ rp_tolerance p)%nat.
Proof.
  intros Hr Hp Hok Hnd Hh. pose proof (run_faults_ok _ _ _ Hr) as Hf. rewrite <- (run_plans _ _ _ Hr) in Hp.
  apply list_elem_of_fmap in Hp as (s & -> & Hs). unfold faults_ok in Hf. rewrite Forall_forall in Hf.
  apply (allowed_bound (rs_plan s) (rs_turn s) k); [done..|]. intros d Hd. apply Hh in Hd.
  apply Exists_exists in Hd as (x & Hx & Hn & Hdom & Hc & Hk).
  exists (dm_owner x), (fs_layouts st (dm_owner x)), (dm_path x), (dm_sector x). split_and!; [done| |done].
  by apply (so_damage _ _ _ (Hf s Hs)).
Qed.

(** ** Every domain has a member *)

Lemma dedup_elem l x : x ∈ dedup l ↔ x ∈ l.
Proof.
  induction l as [|a l IH]; [done|]. destruct l as [|b l]; [done|].
  change (dedup (a :: b :: l)) with (if String.eqb a b then dedup (b :: l) else a :: dedup (b :: l)).
  destruct (String.eqb_spec a b) as [->|]; rewrite ?elem_of_cons, IH, ?elem_of_cons; tauto.
Qed.

Lemma dedup_NoDup l : StronglySorted String.le l → NoDup (dedup l).
Proof.
  induction 1 as [|a l Hs IH Hf]; [constructor|]. destruct l as [|b l]; [apply NoDup_singleton|].
  change (dedup (a :: b :: l)) with (if String.eqb a b then dedup (b :: l) else a :: dedup (b :: l)).
  destruct (String.eqb_spec a b) as [->|Hne]; [done|]. apply NoDup_cons. split; [|done].
  rewrite dedup_elem. intros Hin. apply Forall_cons in Hf as [Hab Hf]. apply Hne.
  apply elem_of_cons in Hin as [->|Hin]; [done|].
  apply StronglySorted_inv in Hs as [_ Hb]. rewrite Forall_forall in Hb. apply (anti_symm String.le); [done|by apply Hb].
Qed.

Lemma domain_ids_spec config localities :
  NoDup (domain_ids config localities) ∧
  ∀ id, id ∈ domain_ids config localities ↔ ∃ m, m ∈ localities ∧ id = id_for m.2 (rf_level config).
Proof.
  unfold domain_ids. split.
  - apply dedup_NoDup, StronglySorted_merge_sort; apply _.
  - intros id. rewrite dedup_elem, merge_sort_Permutation, list_elem_of_fmap. firstorder.
Qed.

Lemma position_of ids d id : NoDup ids → ids !! d = Some id → position id ids = Some d.
Proof.
  intros Hnd Hd. unfold position. destruct (list_find _ _) as [[i x]|] eqn:E; cbn.
  - apply list_find_Some in E as (Hi & -> & _). f_equal. by eapply NoDup_lookup.
  - apply list_find_None in E. rewrite Forall_forall in E. exfalso. apply (E id); [|done]. by eapply list_elem_of_lookup_2.
Qed.

Lemma assoc_get_unique {A} (l : list (IpAddr * A)) ip a :
  NoDup (fst <$> l) → (ip, a) ∈ l → assoc_get l ip = Some a.
Proof.
  induction l as [|[k b] l IH]; cbn; [by intros _ ?%elem_of_nil|]. intros [Hn Hnd]%NoDup_cons [[= -> ->]|Hin]%elem_of_cons.
  - by rewrite bool_decide_true.
  - rewrite bool_decide_false; [by apply IH|]. intros ->. apply Hn, list_elem_of_fmap. by exists (ip, a).
Qed.

Lemma domain_of_keys config (localities : list (IpAddr * LocalityInfo)) :
  fst <$> omap (λ l, (λ at_, (l.1, at_)) <$>
    position (id_for l.2 (rf_level config)) (domain_ids config localities)) localities = fst <$> localities.
Proof.
  assert (∀ l, l ∈ localities → is_Some (position (id_for l.2 (rf_level config)) (domain_ids config localities))) as Hp.
  { intros l Hl. destruct (domain_ids_spec config localities) as [Hnd Hin].
    assert (id_for l.2 (rf_level config) ∈ domain_ids config localities) as Hi by (apply Hin; eauto).
    apply list_elem_of_lookup_1 in Hi as [d Hd]. rewrite (position_of _ _ _ Hnd Hd). done. }
  revert Hp. generalize (domain_ids config localities) as ids. intros ids.
  induction localities as [|l localities IH]; [done|]. intros Hp. cbn.
  destruct (Hp l ltac:(left)) as [d ->]. cbn. f_equal. apply IH. intros l' Hl'. apply Hp. by right.
Qed.

Lemma domain_inhabited config localities kind picks p d :
  NoDup (fst <$> localities) → draw config localities kind picks = Some p → (d < domain_count p)%nat →
  ∃ m, m ∈ localities ∧ plan_domain p m.1 = Some d.
Proof.
  intros Hnd Hd Hlt. destruct (draw_domain_of _ _ _ _ _ Hd) as [Hdo Hc]. rewrite Hc in Hlt.
  destruct (domain_ids_spec config localities) as [Hids Hin].
  destruct (lookup_lt_is_Some_2 _ _ Hlt) as [id Hid].
  destruct (proj1 (Hin id) (list_elem_of_lookup_2 _ _ _ Hid)) as (m & Hm & ->).
  exists m. split; [done|]. unfold plan_domain. rewrite Hdo. apply assoc_get_unique; [by rewrite domain_of_keys|].
  apply list_elem_of_omap. exists m. split; [done|]. by rewrite (position_of _ _ _ Hids Hid).
Qed.

Lemma domain_count_pos config localities kind picks p :
  draw config localities kind picks = Some p → localities ≠ [] → (0 < domain_count p)%nat.
Proof.
  intros Hd Hne. destruct (draw_domain_of _ _ _ _ _ Hd) as [_ ->]. destruct localities as [|m l]; [done|].
  destruct (domain_ids_spec config (m :: l)) as [_ Hin].
  assert (id_for m.2 (rf_level config) ∈ domain_ids config (m :: l)) as Hi by (apply Hin; exists m; split; [left|done]).
  destruct (domain_ids _ _); [by apply elem_of_nil in Hi|cbn; lia].
Qed.

(** C15: replicated faults never reach every copy of a record.  Whatever plan a
    seed draws for a group of processes, and after any sequence of random
    faults, repairs, moves of the rolling turn and publications, with any
    regions and before or after the bytes they describe are written, a record
    (a stripe, or the bytes a process alone holds) is damaged in at most as
    many failure domains as the configuration tolerates, and some process of
    the group lives in a domain where it is whole.  A damaged sector that a
    publication describes anew (the journal publishes a region before it
    writes it) is no copy of the record until it has been rewritten, and is
    not counted as one until then. *)
Theorem damage_spares_a_domain config localities kind picks p plans layouts st stale k :
  (1 ≤ rf_tolerance config)%nat → NoDup (fst <$> localities) → localities ≠ [] →
  draw config localities kind picks = Some p → p ∈ plans →
  rtc fault_step (fault_start plans layouts, []) (st, stale) →
  (∀ ds, NoDup ds → (∀ d, d ∈ ds → holds_damage stale st p k d) → (length ds ≤ rf_tolerance config)%nat) ∧
  ∃ m d, m ∈ localities ∧ plan_domain p m.1 = Some d ∧ ¬ holds_damage stale st p k d.
Proof.
  intros Ht Hnd Hne Hd Hp Hr. destruct (draw_ok _ _ _ _ _ Ht Hd) as [Hok Htol].
  pose proof (domain_count_pos _ _ _ _ _ Hd Hne) as Hpos. split.
  - intros ds Hds Hh. pose proof (holds_bound _ _ _ _ _ _ _ Hr Hp Hok Hds Hh). lia.
  - destruct (decide (Forall (holds_damage stale st p k) (seq 0 (domain_count p)))) as [Hall|Hsome].
    + exfalso. rewrite Forall_forall in Hall.
      pose proof (holds_bound _ _ _ _ _ _ _ Hr Hp Hok (NoDup_seq 0 (domain_count p)) Hall) as Hb. rewrite length_seq in Hb.
      pose proof (po_pattern _ Hok) as Hs.
      destruct (rp_pattern p) eqn:Epat; [pose proof (po_clean _ Hok ltac:(by rewrite Epat)); lia..|lia].
    + apply not_Forall_Exists in Hsome; [|apply _]. apply Exists_exists in Hsome as (d & Hds%elem_of_seq & Hno).
      destruct (domain_inhabited _ _ _ _ _ d Hnd Hd ltac:(lia)) as (m & Hm & Hdm). eauto.
Qed.
