(* ===== verification/Sample.v ===== *)
(** * A sample journal

    One small concrete journal state: a segment of four blocks whose file is
    zeros behind its headers, a metainfo file with both copies, a batch of
    one put, prepared and placed.  The witnesses of the development's
    theorems are instances at this state. *)

From stdpp Require Import sorting.
From S2P Require Import Prelude Crc Format Names Storage JournalIo MetaFile Batch Index.
From S2P Require Import Segment Recover Log Journal Commit CommitLog Protocol Durability.
From S2P Require Import History.
#[local] Open Scope Z_scope.
#[global] Existing Instance castagnoli.
#[global] Existing Instance castagnoli_laws.

Definition geo : Geometry := mkGeometry 1 0 1.
Definition an_id : Id := repeatZ ID_SIZE x01.

Definition clean_bytes (l : list byte) : File :=
  mkFile l l (fun _ => false) (fun _ => false) ∅ IoConstraints_NONE.

Definition seg_bf : BlockFile := mkBlockFile 2 BLOCK 1.
Definition meta_bf : BlockFile := mkBlockFile 1 BLOCK 1.
Definition seg : Segment := Segment_fresh 1 0 (segment_name 1) seg_bf geo.
Definition seg_file : File := clean_bytes (zeros (4 * BLOCK)).

Definition old_meta : Meta := mkMeta 1 77 0 0 1 0 geo [x09].
Definition new_meta : Meta := mkMeta 2 77 3 0 1 0 geo [x0a].
Definition meta_block (m : Meta) (c : Copy) : list byte :=
  default [] (Meta_encode m (Copy_as_u8 c) (block_buf BLOCK)).
Definition meta_bytes (m : Meta) : list byte :=
  splice (splice (zeros (META_FILE_BLOCKS * BLOCK)) (copy_at Copy_A) (meta_block m Copy_A))
    (copy_at Copy_B) (meta_block m Copy_B).
Definition meta_file : File := clean_bytes (meta_bytes old_meta).

Definition world (faults : list Fault) : World :=
  mkWorld ∅ ∅ ∅ {[1%positive := meta_file; 2%positive := seg_file]} faults [].

Definition config : JournalConfig := mkJournalConfig Ordered geo Disabled.
Definition journal (segs : list Segment) (idx : Index) : Journal :=
  mkJournal (lit "wal") 77 99 config meta_bf old_meta segs idx 0 None 1 false None false None 0
    (mkRolls 0 0).
Definition j0 : Journal := journal [seg] ∅.
Definition stale : Stale := mkStale 1 0.

Definition batch : Batch := Batch_put Batch_new 5 an_id [x01; x02].
Definition no_batch : Prepared := mkPrepared 0 [] [] [] 0 0.
Definition prep : Prepared := match prepare j0 batch with Ok p => p | _ => no_batch end.
Definition placed : Prepared :=
  default no_batch (place prep (s_persist_next seg) (s_entry_next seg)).

(** Machine-width and range facts on concrete numbers. *)
Ltac concrete := by vm_compute.

Lemma geo_ok : wf_geometry geo ∧ Geometry_is_valid geo = true.
Proof. split; [|concrete]. unfold wf_geometry, in_u. cbn. lia. Qed.

Lemma seg_journal_file : journal_file seg_bf.
Proof. split; [done|]. exists 0. split; [lia|done]. Qed.

Lemma meta_journal_file : journal_file meta_bf.
Proof. split; [done|]. exists 0. split; [lia|done]. Qed.

Lemma clean_bytes_clean l : clean_file (clean_bytes l).
Proof. by split. Qed.

Lemma seg_file_len : len (f_vis seg_file) = 4 * BLOCK.
Proof. apply len_repeatZ. unfold BLOCK. lia. Qed.

Lemma seg_open : open_file seg_bf seg_file.
Proof.
  split; [apply seg_journal_file|done|done|]. rewrite seg_file_len. unfold BLOCK, u64_max. lia.
Qed.

Lemma world_seg fs : w_files (world fs) !! bf_file (s_file seg) = Some seg_file.
Proof. done. Qed.

Lemma world_meta fs : w_files (world fs) !! bf_file meta_bf = Some meta_file.
Proof. done. Qed.

Lemma seg_inv tag st : segment_inv seg seg_file tag st 0 [].
Proof.
  destruct geo_ok as [Hg Hv].
  split; [done|apply seg_open|apply seg_file_len|apply clean_bytes_clean|done| |by constructor|done].
  apply zeros_log; [done|done|apply seg_file_len|].
  rewrite seg_file_len. cbn [f_vis seg_file clean_bytes].
  apply slice_repeatZ; unfold PERSIST_START, BLOCK; lia.
Qed.

Lemma old_meta_wf : wf_meta old_meta.
Proof. unfold wf_meta, wf_geometry, in_u. split_and!; by vm_compute. Qed.

Lemma new_meta_wf : wf_meta new_meta.
Proof. unfold wf_meta, wf_geometry, in_u. split_and!; by vm_compute. Qed.

Lemma meta_block_copy m c : wf_meta m → is_copy c m (meta_block m c).
Proof. intros H. unfold meta_block. destruct (encode_copy c m H) as (b & -> & Hb). exact Hb. Qed.

Lemma meta_bytes_facts m :
  wf_meta m → len (meta_bytes m) = META_FILE_BLOCKS * BLOCK ∧
  ∀ c, slice (meta_bytes m) (copy_at c) (copy_at c + BLOCK) = meta_block m c.
Proof.
  intros Hm. destruct (meta_block_copy m Copy_A Hm) as [La _].
  destruct (meta_block_copy m Copy_B Hm) as [Lb _].
  assert (len (zeros (META_FILE_BLOCKS * BLOCK)) = META_FILE_BLOCKS * BLOCK) as Lz
    by (by apply len_repeatZ).
  assert (copy_at Copy_A = 0) as Ea by concrete. assert (copy_at Copy_B = 16 * BLOCK) as Eb by concrete.
  unfold meta_bytes. rewrite Ea, Eb.
  assert (len (splice (zeros (META_FILE_BLOCKS * BLOCK)) 0 (meta_block m Copy_A)) =
          META_FILE_BLOCKS * BLOCK) as L1.
  { rewrite len_splice; rewrite ?Lz, ?La; unfold META_FILE_BLOCKS, BLOCK; lia. }
  split; [rewrite len_splice; rewrite ?L1, ?Lb; unfold META_FILE_BLOCKS, BLOCK; lia|].
  intros [].
  - rewrite Ea. rewrite slice_splice_disjoint
      by (rewrite ?L1, ?Lb; unfold META_FILE_BLOCKS, BLOCK; lia).
    replace (0 + BLOCK) with (0 + len (meta_block m Copy_A)) by lia.
    apply slice_splice_same; rewrite ?Lz, ?La; unfold META_FILE_BLOCKS, BLOCK; lia.
  - rewrite Eb. replace (16 * BLOCK + BLOCK) with (16 * BLOCK + len (meta_block m Copy_B)) by lia.
    apply slice_splice_same; rewrite ?L1, ?Lb; unfold META_FILE_BLOCKS, BLOCK; lia.
Qed.

Lemma meta_file_sized : meta_sized meta_file.
Proof. split; apply (meta_bytes_facts _ old_meta_wf). Qed.

Lemma meta_file_holds c : holds_copy meta_file c old_meta.
Proof.
  pose proof (meta_block_copy old_meta c old_meta_wf) as Hc. pose proof Hc as [Hl _].
  destruct (meta_bytes_facts _ old_meta_wf) as [_ Hs]. specialize (Hs c).
  rewrite <- Hl in Hs. exists (meta_block old_meta c). split; [exact Hc|].
  unfold durable_at. cbn [f_dur f_vis f_dirty f_lost meta_file clean_bytes].
  split; [exact Hs|]. split; [exact Hs|]. intros i _. split; reflexivity.
Qed.

Lemma sample_meta fs : meta_beside meta_bf seg (world fs) old_meta.
Proof.
  split; [done|apply meta_journal_file|].
  exists meta_file. split_and!; [apply world_meta|apply meta_file_sized..|apply meta_file_holds].
Qed.

Lemma prep_ok : prepare j0 batch = Ok prep.
Proof. vm_compute. reflexivity. Qed.

Lemma placed_ok : place prep (s_persist_next seg) (s_entry_next seg) = Some placed.
Proof. vm_compute. reflexivity. Qed.

Lemma sample_committing : committing j0 batch seg prep placed.
Proof.
  split; [done|unfold in_u; cbn; lia|done| |concrete|apply prep_ok|concrete|apply placed_ok].
  apply Forall_singleton. split; [unfold in_u; lia|concrete].
Qed.

Lemma placed_seq : p_seq placed = 2 ^ 40 + 1.
Proof. concrete. Qed.

(** The protocol of the batch on a device that does not fail. *)
Definition committed_world : World := snd (write_protocol seg meta_bf placed None true (world [])).

Lemma sample_run : write_protocol seg meta_bf placed None true (world []) = (Ok (), committed_world).
Proof.
  assert (fst (write_protocol seg meta_bf placed None true (world [])) = Ok ()) as E by concrete.
  unfold committed_world. destruct (write_protocol _ _ _ _ _ _) as [r w']. cbn in *. by rewrite E.
Qed.

Lemma sample_writing : writing meta_bf j0 seg (world []) stale 0 [].
Proof.
  split.
  - exists seg_file. split; [done|apply seg_inv].
  - exists old_meta. apply sample_meta.
  - cbn. lia.
  - cbn. lia.
  - concrete.
Qed.
