(* ===== verification/Scenarios.v ===== *)
(** * Executions of the whole journal

    The definitions are executable: these scenarios run [Journal_create],
    [Journal_commit], [Journal_open], [Journal_read] and [Journal_replay] end
    to end on concrete bytes, with the CRC-32C of the [crc32c] crate's
    documentation.  The second one is an execution in which a commit reports
    that its batch is known absent and the next open finds it. *)

From S2P Require Import Prelude Crc Format Names Storage JournalIo MetaFile Batch Index.
From S2P Require Import Segment Recover Journal Commit Open.
#[local] Open Scope Z_scope.
#[local] Existing Instance castagnoli.

Definition empty_world : World := mkWorld ∅ ∅ ∅ ∅ [] [].
Definition small_geometry : Geometry := mkGeometry 2 0 2.
Definition wal_dir : str := lit "wal".
Definition an_id (n : Z) : Id := repeatZ ID_SIZE (Z_to_byte n).

Definition config_of (d : Durability) : JournalConfig :=
  mkJournalConfig d small_geometry Disabled.

Definition first_batch : Batch :=
  Batch_put (Batch_put Batch_new 5 (an_id 1) [x01; x02]) 4 (an_id 2) [x03].
Definition second_batch : Batch := Batch_put Batch_new 6 (an_id 3) [x04; x05].

(** A new journal with one batch committed. *)
Definition one_commit (d : Durability) : option (Journal * World) :=
  match Journal_create wal_dir 77 (config_of d) [x09] empty_world with
  | (Ok j, w) => match Journal_commit first_batch j w with
                 | (Ok _, j, w) => Some (j, w)
                 | _ => None
                 end
  | _ => None
  end.

(** Create, commit, open again: the opened journal has the same index, and a
    replay returns the entries, ascending. *)
Example commit_then_open :
  match one_commit Batched with
  | Some (j, w) =>
      match Journal_open wal_dir 77 (config_of Batched) w with
      | (Ok (Some (j2, rec)), w2) =>
          j_index j2 = j_index j ∧ rc_rebuilt rec = 0 ∧ rc_torn rec = 0 ∧
          fst (Journal_replay j2 Unbounded Unbounded w2) =
            Ok [(4, inl (mkEntry 4 (an_id 2) [x03])); (5, inl (mkEntry 5 (an_id 1) [x01; x02]))]
      | _ => False
      end
  | None => False
  end.
Proof. vm_compute. repeat split; reflexivity. Qed.

(** A commit can fail saying that its batch is known absent, and the next
    open finds the batch.  A failing write of the batch's entries says nothing
    about what landed, and [write_protocol] answers [Durable_No] for it; when
    the bytes did land, opening rebuilds the batch from its entries alone and
    its position reads back. *)
Theorem known_absent_batch_found :
  match one_commit Ordered with
  | Some (j, w) =>
      let '(r, _, w1) := Journal_commit second_batch j (with_faults w [Fail OtherKind BLOCK]) in
      match Journal_open wal_dir 77 (config_of Ordered) w1 with
      | (Ok (Some (j2, rec)), w2) =>
          r = Err (CE_Io OtherKind Durable_No) ∧ j_index j !! 6 = None ∧ rc_rebuilt rec = 1 ∧
          fst (Journal_read j2 6 w2) = Ok (mkEntry 6 (an_id 3) [x04; x05])
      | _ => False
      end
  | None => False
  end.
Proof. vm_compute. repeat split; reflexivity. Qed.
