(* ===== verification/Witnesses.v ===== *)
(** * Witnesses

    For every theorem with hypotheses, an instance at the sample journal of
    [Sample] (or at a run of [Scenarios]) where they hold. *)

From stdpp Require Import sorting.
From S2P Require Import Prelude Crc Format Names Storage JournalIo MetaFile Batch Index.
From S2P Require Import Segment Recover Log Journal Commit CommitErrors CommitLog Protocol.
From S2P Require Import Durability NewSegment History Open Sample.
#[local] Open Scope Z_scope.

(** ** Commits and recovery *)

Lemma acknowledged_batch_recovered_witness :
  ∃ f', w_files committed_world !! bf_file (s_file seg) = Some f' ∧
    ∀ g w2, crash_file f' g → w_files w2 !! bf_file (s_file seg) = Some g → w_faults w2 = [] →
      scan_segment seg 0 99 stale w2 =
        (Ok (scans_of 0 ([] ++ [mkLBatch (p_seq placed) (p_decoded placed)]),
             p_persist_at placed + len (p_records placed),
             p_entry_at placed + len (p_entries placed)), w2).
Proof.
  apply (acknowledged_batch_recovered seg seg_file (world []) j0 batch prep placed stale 0 []
    meta_bf old_meta None true committed_world (seg_inv 99 stale) (world_seg [])
    sample_committing (sample_meta [])); [done|concrete|concrete|concrete|apply sample_run].
Defined.

Definition failing_world : World := world [Fail OtherKind 100].

Lemma failed_commit_keeps_log_witness :
  ∃ w' f', write_protocol seg meta_bf placed None true failing_world =
      (Err (OtherKind, Durable_No), w') ∧
    w_files w' !! bf_file (s_file seg) = Some f' ∧
    ∀ g, crash_file f' g →
      log_prefix seg (persist_log geo (f_vis g)) stale 0 0 (entry_start geo) [] ∧
      log_intact geo (f_vis g) 99 [].
Proof.
  assert (fst (write_protocol seg meta_bf placed None true failing_world) =
          Err (OtherKind, Durable_No)) as E by concrete.
  assert (is_Some (w_files (snd (write_protocol seg meta_bf placed None true failing_world))
            !! bf_file (s_file seg))) as [f' Hf'] by (vm_compute; eauto).
  destruct (write_protocol seg meta_bf placed None true failing_world) as [r w'] eqn:Hrun.
  cbn [fst snd] in E, Hf'. subst r. exists w', f'. split; [done|]. split; [done|]. intros g Hg.
  apply (failed_commit_keeps_log seg seg_file failing_world j0 batch prep placed stale 0 []
    meta_bf old_meta None true (OtherKind, Durable_No) w' f' g (seg_inv 99 stale)
    (world_seg _) sample_committing (sample_meta _)); [done|exact Hrun|exact Hf'|exact Hg].
Defined.

Lemma metainfo_after_batch_witness :
  ∃ r w' f' m', write_protocol seg meta_bf placed (Some new_meta) false failing_world = (r, w') ∧
    r ≠ Panic ∧ w_files w' !! bf_file (s_file seg) = Some f' ∧
    w_files w' !! bf_file meta_bf = Some m' ∧
    (w_files w' !! bf_file meta_bf ≠ w_files failing_world !! bf_file meta_bf →
      durable_at f' (p_entry_at placed) (p_entries placed) ∧
      durable_at f' (p_persist_at placed) (p_records placed)) ∧
    (r = Ok () → holds_copy m' Copy_A new_meta ∧ holds_copy m' Copy_B new_meta) ∧
    (holds_copy m' Copy_B old_meta ∨ holds_copy m' Copy_A new_meta).
Proof.
  exact (metainfo_after_batch seg seg_file failing_world j0 batch prep placed stale 0 [] meta_bf
    old_meta new_meta false (seg_inv 99 stale) (world_seg _) sample_committing
    (sample_meta _) new_meta_wf).
Defined.

Definition first_record : PRecord := default (void_record 0 0 0) (p_decoded placed !! 0%nat).
Definition first_located : Located :=
  located_of (s_first_batch seg) (p_persist_at placed) 0 first_record false.

(** A batch of two puts and a clear that takes the second back, with a new
    metainfo, committed while two calls fall short. *)
Definition busy_batch : Batch :=
  Batch_set_meta (Batch_clear (Batch_put (Batch_put Batch_new 5 an_id [x01; x02]) 6 an_id [x03])
    6 7) [x0b].
Definition short_world : World := world [Short 7; Short 4096].
Definition busy_journal : Journal := snd (fst (Journal_commit busy_batch j0 short_world)).
Definition busy_world : World := snd (Journal_commit busy_batch j0 short_world).

Lemma committed_entry_reads_back_witness :
  Journal_read busy_journal 5 busy_world = (Ok (mkEntry 5 an_id [x01; x02]), busy_world).
Proof.
  apply (committed_entry_reads_back busy_batch j0 short_world busy_journal busy_world seg seg_file
    stale 0 [] old_meta 0%nat 5 an_id [x01; x02]).
  - done.
  - split; [repeat constructor|done|intros s Hs; by apply list_elem_of_singleton in Hs as ->].
  - apply seg_inv.
  - apply world_seg.
  - done.
  - concrete.
  - apply sample_meta.
  - intros _. unfold wf_meta, wf_geometry, in_u. split_and!; by vm_compute.
  - repeat constructor; by vm_compute.
  - intros p Hp.
    assert (match prepare j0 busy_batch with
            | Ok p => Segment_fits seg (len (p_records p) / BLOCK) (len (p_entries p))
            | _ => true
            end = true) as H by concrete.
    by rewrite Hp in H.
  - assert ((Journal_commit busy_batch j0 short_world).1.1 = Ok ()) as H by concrete.
    unfold busy_journal, busy_world.
    destruct (Journal_commit busy_batch j0 short_world) as [[r j'] w']. by rewrite <- H.
  - done.
  - repeat constructor.
  - done.
  - concrete.
Defined.

Lemma commit_ops_are_recovered_ops_witness :
  batch_ops (s_first_batch seg) (p_persist_at placed) 0 (p_decoded placed) (b_writes batch) =
  record_ops (s_first_batch seg) (p_persist_at placed) 0 (p_decoded placed).
Proof.
  exact (commit_ops_are_recovered_ops seg seg_file j0 batch prep placed 99 stale 0 []
    (seg_inv 99 stale) sample_committing).
Defined.

Lemma sample_commits :
  commits meta_bf j0 seg (world []) [lbatch_of placed] (set_last (p_seq placed) None j0)
    (after_batch seg placed) committed_world.
Proof.
  eapply commits_step; [apply sample_committing| |apply sample_run|apply commits_nil]. done.
Qed.

Lemma history_recovered_witness :
  ∃ f', w_files committed_world !! bf_file (s_file (after_batch seg placed)) = Some f' ∧
    ∀ g w2, crash_file f' g → w_files w2 !! bf_file (s_file (after_batch seg placed)) = Some g →
      w_faults w2 = [] →
      scan [after_batch seg placed] 99 stale w2 =
        (Ok (mkScan (log_ops 1 0 ([] ++ [lbatch_of placed]))
               (last_seq 0 ([] ++ [lbatch_of placed]))
               [(s_persist_next (after_batch seg placed), s_entry_next (after_batch seg placed))]
               [] [] 0 0 None), w2).
Proof.
  exact (history_recovered meta_bf j0 seg (world []) stale [] [lbatch_of placed]
    (set_last (p_seq placed) None j0) (after_batch seg placed) committed_world sample_writing
    sample_commits).
Defined.

Lemma batch_numbers_fresh_witness :
  let seq := next_seq (2 ^ 40 + 7) 1 in
  2 ^ 40 + 7 < seq ∧ u64 seq ∧ generation_of seq = 1 ∧ is_stale stale seq = false ∧
  is_stale (mkStale (1 + 1) 9) seq = (9 <? seq) ∧ seq < first_batch_of (1 + 1).
Proof.
  apply (batch_numbers_fresh (2 ^ 40 + 7) 1 stale 9); [lia|lia|concrete|lia|cbn; lia].
Defined.

Definition poisoned_journal : Journal := set_poisoned j0.

Lemma commit_fails_untouched_or_poisoned_witness :
  (poisoned_journal = poisoned_journal ∧ world [] = world [] ∧
   ∀ error durable, CE_Poisoned ≠ CE_Io error durable) ∨
  ((∃ error durable, CE_Poisoned = CE_Io error durable) ∧ j_poisoned poisoned_journal = false ∧
   j_poisoned poisoned_journal = true ∧
   ∀ b' w'', Journal_commit b' poisoned_journal w'' = (Err CE_Poisoned, poisoned_journal, w'')).
Proof.
  apply (commit_fails_untouched_or_poisoned batch poisoned_journal (world []) CE_Poisoned
    poisoned_journal (world [])). reflexivity.
Defined.

Lemma batch_writes_wf : Forall wf_write (b_writes batch).
Proof. apply Forall_singleton. split; [unfold in_u; lia|concrete]. Qed.

Lemma accepted_batch_laid_out_witness :
  ∃ p q, prepare j0 batch = Ok p ∧ place p PERSIST_START (entry_start geo) = Some q ∧
    p_seq q = next_seq 0 1 ∧ length (p_decoded q) = length (b_writes batch) ∧
    records_at (p_records q) 0 (p_decoded q) ∧
    ∀ i r, p_decoded q !! i = Some r → ∃ w, b_writes batch !! i = Some w ∧
      r_index r = Z.of_nat i ∧ r_count r = len (b_writes batch) ∧ r_batch r = next_seq 0 1 ∧
      entry_start geo ≤ r_offset r ∧
      entry_in (p_entries q) 99 (relocate (- entry_start geo) r) (payload_of w).
Proof.
  destruct geo_ok as [Hg Hv].
  apply (accepted_batch_laid_out j0 batch PERSIST_START (entry_start geo) Hg Hv);
    [concrete|apply batch_writes_wf|unfold in_u; cbn; lia|split; by vm_compute|concrete..].
Defined.

Lemma seg_holds : segment_holds seg (world []) (f_vis seg_file).
Proof. apply (segment_inv_holds _ _ _ 99 stale 0 []); [apply seg_inv|apply world_seg|done]. Qed.

Definition empty_logs : list (Segment * list LBatch) := [(seg, [])].

Lemma recovery_reads_back_logs_witness :
  scan (map fst empty_logs) 99 stale (world []) =
    (Ok (mkScan (logs_ops empty_logs) (logs_last 0 empty_logs) (logs_cursors empty_logs)
           [] [] 0 0 None), world []).
Proof.
  apply (recovery_reads_back_logs (world []) 99 stale empty_logs).
  split; [done|]. split; [|done]. exists (f_vis seg_file).
  split; [apply seg_holds|]. split; [apply (si_log _ _ _ _ _ _ (seg_inv 99 stale))|by constructor].
Defined.

Definition flaky_world : World := world [Short 7; Fail OtherKind 0; Short 4096].

Lemma recovery_never_panics_witness :
  reads (scan [seg] 99 stale) flaky_world (fun out =>
    Forall (fun op => ∃ s, s ∈ [seg] ∧ op_current s stale op) (sc_ops out) ∧
    length (sc_cursors out) = length [seg]).
Proof.
  apply (recovery_never_panics [seg] 99 stale flaky_world). apply Forall_singleton.
  split; [apply geo_ok|apply seg_journal_file|]. exists seg_file.
  split; [apply world_seg|apply seg_file_len].
Defined.

(** ** Segments and metainfo *)

Definition bare_world (faults : list Fault) : World := mkWorld ∅ ∅ ∅ ∅ faults [].
Definition created_world : World := snd (Segment_create (lit "wal") 77 1 0 geo (bare_world [])).
Definition created_segment : Segment :=
  Segment_fresh 1 0 (segment_name 1) (mkBlockFile 1 BLOCK 1) geo.

Lemma created_segment_ready_witness :
  ∃ f, w_files (bare_world []) !! 1%positive = None ∧
    w_files created_world = <[1%positive := f]> (w_files (bare_world [])) ∧
    new_segment_file (mkSegmentHeader 77 1 0 geo) f ∧
    segment_inv created_segment f 99 stale 0 [] ∧ s_first_batch created_segment = 1 ∧
    w_names created_world !! path_in (lit "wal") (segment_name 1) = Some 1%positive ∧
    w_dur_names created_world !! path_in (lit "wal") (segment_name 1) = Some 1%positive.
Proof.
  assert (fst (Segment_create (lit "wal") 77 1 0 geo (bare_world [])) = Ok created_segment)
    as E by concrete.
  apply (created_segment_ready (lit "wal") 77 1 0 geo (bare_world []) created_segment created_world
    99 stale).
  - unfold wf_segment_header, in_u. split_and!; try apply geo_ok; cbn; lia.
  - apply geo_ok.
  - unfold created_world. destruct (Segment_create _ _ _ _ _ _) as [r w']. cbn in *. by rewrite E.
Defined.

(** What a power loss leaves when it loses everything not on the device. *)
Definition crash_of (f : File) : File :=
  mkFile (f_dur f) (f_dur f) (fun _ => false) (fun _ => false) (f_bad f) (f_align f).

Lemma crash_of_crash f : crash_file f (crash_of f).
Proof. by split. Qed.

Lemma metainfo_update_crash_atomic_witness :
  ∃ w' f' v st, MetaFile_update meta_bf new_meta (world []) = (Ok (), w') ∧
    w_files w' !! bf_file meta_bf = Some f' ∧
    choose_copies (copy_in (f_vis (crash_of f')) Copy_A) (copy_in (f_vis (crash_of f')) Copy_B) =
      Ok (v, st) ∧
    (v = old_meta ∨ v = new_meta) ∧ (@Ok ErrorKind () () = Ok () → v = new_meta ∧ st = None).
Proof.
  destruct (MetaFile_update_spec meta_bf meta_file (world []) old_meta new_meta (world_meta [])
    meta_journal_file meta_file_sized new_meta_wf (meta_file_holds Copy_B))
    as (r & fs & f' & tr & Hrun & _ & _ & Hpost).
  assert (fst (MetaFile_update meta_bf new_meta (world [])) = Ok ()) as E by concrete.
  rewrite Hrun in E. cbn [fst] in E. subst r. destruct Hpost as [PA PB].
  set (w' := with_file (world []) (bf_file meta_bf) f' fs tr) in *.
  assert (w_files w' !! bf_file meta_bf = Some f') as Hf' by apply lookup_insert_eq.
  assert (no_forged_copy (crash_of f') [old_meta; new_meta]) as Hnf.
  { intros [] m Hm.
    - rewrite (holds_copy_crash _ _ _ _ (crash_of_crash f') PA) in Hm. injection Hm as <-. right. left.
    - rewrite (holds_copy_crash _ _ _ _ (crash_of_crash f') PB) in Hm. injection Hm as <-. right. left. }
  destruct (metainfo_update_crash_atomic meta_bf meta_file (world []) old_meta new_meta (Ok ()) w'
    f' (crash_of f') (world_meta []) meta_journal_file meta_file_sized new_meta_wf
    (meta_file_holds Copy_B) eq_refl Hrun Hf' (crash_of_crash f') Hnf) as (v & st & H1 & H2 & H3).
  exists w', f', v, st. split; [exact Hrun|]. split; [exact Hf'|]. split; [exact H1|].
  split; [exact H2|exact H3].
Defined.

(** ** Reads *)

Definition one_entry : Journal := journal [seg] {[5 := first_located]}.

Lemma one_entry_located p at_ : j_index one_entry !! p = Some at_ → at_ = first_located.
Proof. cbn. by intros [_ <-]%lookup_singleton_Some. Qed.

Lemma first_located_bounds :
  0 ≤ l_offset first_located ∧ 0 ≤ l_len first_located ∧
  l_offset first_located + entry_bytes first_located ≤ 4 * BLOCK.
Proof. split_and!; by vm_compute. Qed.

Lemma Journal_replay_reads_witness :
  ∃ out, Journal_replay one_entry Unbounded Unbounded (world []) = (Ok out, world []) ∧
    map fst out = range_keys (j_index one_entry) (in_bounds Unbounded Unbounded) ∧
    Forall (fun x => Journal_read one_entry x.1 (world []) =
              (match x.2 with inl e => Ok e | inr e => Err e end, world [])) out.
Proof.
  apply (Journal_replay_reads one_entry (world []) Unbounded Unbounded); [|done].
  split; [done|]. intros p at_ ->%one_entry_located. exists seg, seg_file.
  split; [reflexivity|]. split; [apply world_seg|]. split; [apply seg_open|].
  rewrite seg_file_len. split; [reflexivity|apply first_located_bounds].
Defined.

Lemma read_never_wrong_witness :
  reads (Journal_read one_entry 5) flaky_world (fun e => ∃ at_ bytes h,
    j_index one_entry !! 5 = Some at_ ∧ l_damaged at_ = false ∧ e_position e = 5 ∧
    e_id e = l_id at_ ∧ e_payload e = slice bytes RECORD_SIZE (len bytes) ∧
    len (e_payload e) = l_len at_ ∧
    EntryHeader_parse bytes = Some (Some (h, l_entry_crc at_)) ∧ eh_tag h = j_tag one_entry ∧
    eh_position h = 5 ∧ eh_batch h = l_batch at_ ∧
    entry_crc (slice bytes 0 RECORD_SIZE) (e_payload e) = Some (l_entry_crc at_)).
Proof.
  apply (read_never_wrong one_entry 5 flaky_world). intros at_ ->%one_entry_located.
  exists seg, seg_file.
  split; [reflexivity|]. split; [apply world_seg|]. split; [apply seg_journal_file|].
  rewrite seg_file_len. split; [reflexivity|apply first_located_bounds].
Defined.

(** ** The index *)

Definition live_seg : Segment := set_live seg 1.
Definition one_index : Index := {[5 := first_located]}.

Lemma one_index_inv : index_inv [live_seg] one_index.
Proof.
  split.
  - repeat constructor.
  - intros p at_ H. apply one_entry_located in H as ->. apply list_elem_of_singleton. reflexivity.
  - intros s ->%list_elem_of_singleton. reflexivity.
Qed.

Definition two_ops : list Op := [Op_Put 7 first_located; Op_Clear 0 6].

Lemma index_refines_map_witness :
  ∃ segs', apply_ops [live_seg] one_index two_ops = Some (segs', foldl spec_op one_index two_ops) ∧
    index_inv segs' (foldl spec_op one_index two_ops) ∧ same_segments segs' [live_seg].
Proof.
  apply (index_refines_map [live_seg] one_index two_ops one_index_inv).
  constructor; [|constructor; [done|constructor]]. apply list_elem_of_singleton. reflexivity.
Defined.

Lemma floor_keeps_assertions_witness :
  ∃ segs' idx', drop_below_floor 6 [live_seg] one_index = Some (segs', idx') ∧
    assert_invariants segs' idx' 6 [x09] = true ∧
    ∀ p, idx' !! p = if decide (6 ≤ p) then one_index !! p else None.
Proof.
  apply (floor_keeps_assertions 6 [live_seg] one_index [x09] one_index_inv). concrete.
Defined.

Lemma dead_segment_unreferenced_witness :
  s_live live_seg = 0 ↔ ∀ p at_, one_index !! p = Some at_ → l_segment at_ ≠ s_first_batch live_seg.
Proof.
  apply (dead_segment_unreferenced [live_seg] one_index live_seg one_index_inv).
  by apply list_elem_of_singleton.
Defined.

(** ** The commit protocol's sync *)

Lemma placed_ranges : batch_ranges seg_file placed.
Proof.
  destruct (committing_batch _ _ _ _ _ _ _ _ _ _ (seg_inv 99 stale) sample_committing) as [Hcb _].
  by destruct (commit_batch_fits _ _ _ _ _ _ _ _ _ _ (seg_inv 99 stale) Hcb).
Qed.

Definition entries_file : File :=
  file_wr false seg_file (p_entry_at placed) (p_entries placed).
Definition pending_file : File :=
  file_wr false entries_file (p_persist_at placed) (p_records placed).

Lemma pending_torn : torn (in_batch placed) seg_file pending_file.
Proof.
  destruct placed_ranges as [[Ha Hb] _ _ Hap Hin].
  pose proof (len_nonneg (p_records placed)). pose proof (len_nonneg (p_entries placed)).
  assert (f_dur seg_file = f_vis seg_file) as Hd by reflexivity.
  assert (touched (p_entry_at placed) (p_entry_at placed + len (p_entries placed)) seg_file
            entries_file) as T1 by (apply file_wr_touched; rewrite ?Hd; lia).
  pose proof T1 as [T1v T1d _ _ _ _ _ _].
  apply (torn_trans _ _ entries_file).
  - apply (torn_touched _ (p_entry_at placed) (p_entry_at placed + len (p_entries placed)));
      [intros i; exact (proj1 (within_in_batch placed i))|exact T1].
  - apply (torn_touched _ (p_persist_at placed) (p_persist_at placed + len (p_records placed)));
      [intros i; exact (proj2 (within_in_batch placed i))|].
    apply file_wr_touched; rewrite ?T1v, ?T1d, ?Hd; lia.
Qed.

Lemma sync_retries_rewrite_witness :
  ∃ r fs f' tr, sync_batch 2 seg placed
      (with_file (world [Fail OtherKind 0]) 2%positive pending_file [Fail OtherKind 0] []) =
      (r, with_file (with_file (world [Fail OtherKind 0]) 2%positive pending_file
                       [Fail OtherKind 0] []) (bf_file (s_file seg)) f' fs tr) ∧
    match r with
    | Ok _ => clean_file f' ∧ ∀ g, crash_file f' g →
        slice (f_vis g) (p_entry_at placed) (p_entry_at placed + len (p_entries placed)) =
          p_entries placed ∧
        slice (f_vis g) (p_persist_at placed) (p_persist_at placed + len (p_records placed)) =
          p_records placed
    | Err _ => torn (in_batch placed) seg_file f'
    | Panic => False
    end.
Proof.
  apply (sync_retries_rewrite 2 seg placed
    (with_file (world [Fail OtherKind 0]) 2%positive pending_file [Fail OtherKind 0] [])
    seg_file pending_file).
  - apply lookup_insert_eq.
  - apply seg_journal_file.
  - apply placed_ranges.
  - reflexivity.
  - apply pending_torn.
  - eapply batch_written_batched; [apply clean_bytes_clean|reflexivity|reflexivity].
Defined.

(** ** Formats, names and block I/O *)

Definition a_record : PRecord := mkPRecord Kind_Put 1 0 1 9 5 an_id 12288 2 0xdeadbeef.
Definition a_header : EntryHeader := mkEntryHeader Kind_Put 1 0 1 9 5 an_id 2 99.

Lemma record_round_trip_witness :
  ∃ out', PRecord_encode a_record (zeros 64) = Some out' ∧ len out' = len (zeros 64) ∧
    PRecord_decode out' = Some (Slot_Valid a_record) ∧
    ∀ x y, RECORD_SIZE ≤ x → slice out' x y = slice (zeros 64) x y.
Proof.
  apply (record_round_trip a_record (zeros 64)); [|concrete].
  unfold wf_record, in_u. split_and!; by vm_compute.
Defined.

Lemma entry_round_trip_witness :
  ∃ sum out', EntryHeader_encode a_header [x01; x02] (zeros 72) = Some (sum, out') ∧
    len out' = len (zeros 72) ∧ u32 sum ∧ EntryHeader_parse out' = Some (Some (a_header, sum)) ∧
    entry_crc out' (slice out' RECORD_SIZE (RECORD_SIZE + 2)) = Some sum ∧
    slice out' RECORD_SIZE (RECORD_SIZE + 2) = [x01; x02] ∧
    ∀ x y, RECORD_SIZE + 2 ≤ x → slice out' x y = slice (zeros 72) x y.
Proof.
  apply (entry_round_trip a_header [x01; x02] (zeros 72)); [|done|concrete].
  unfold wf_entry_header, in_u. split_and!; by vm_compute.
Defined.

Lemma meta_copy_round_trip_witness :
  ∃ out, Meta_encode old_meta 1 (zeros BLOCK) = Some out ∧ len out = len (zeros BLOCK) ∧
    Meta_decode out 1 = Some (Some old_meta) ∧ ∀ c, c ≠ 1 → Meta_decode out c = Some None.
Proof.
  apply (meta_copy_round_trip old_meta 1 (zeros BLOCK) old_meta_wf); [unfold in_u; lia|].
  rewrite len_repeatZ; unfold BLOCK; lia.
Defined.

Lemma segment_header_round_trip_witness :
  ∃ out, SegmentHeader_encode (mkSegmentHeader 77 1 0 geo) (zeros BLOCK) = Some out ∧
    len out = len (zeros BLOCK) ∧
    SegmentHeader_decode out = Some (Some (mkSegmentHeader 77 1 0 geo)) ∧
    ∀ x y, BLOCK ≤ x → slice out x y = slice (zeros BLOCK) x y.
Proof.
  apply (segment_header_round_trip (mkSegmentHeader 77 1 0 geo) (zeros BLOCK)).
  - unfold wf_segment_header, in_u. split_and!; try apply geo_ok; by vm_compute.
  - rewrite len_repeatZ; unfold BLOCK; lia.
Defined.

Lemma geometry_layout_witness :
  2 * BLOCK = PERSIST_START ∧ PERSIST_START < persist_end geo ≤ entry_start geo ∧
  entry_start geo < entry_end geo ∧ entry_end geo = total_blocks geo * BLOCK ∧
  persist_end geo mod BLOCK = 0 ∧ entry_start geo mod BLOCK = 0 ∧
  ∀ offset, 0 ≤ offset ≤ entry_end geo → u32 offset.
Proof. destruct geo_ok as [Hg Hv]. exact (geometry_layout geo Hg Hv). Defined.

Lemma names_are_disjoint_witness :
  is_spare (segment_name 1) = false ∧ is_segment_leftover (segment_name 1) = false ∧
  is_spare (spare_name 7 3) = true ∧ parse_segment_name (spare_name 7 3) = None ∧
  is_segment_leftover (spare_name 7 3) = false ∧
  (is_segment_leftover (lit "seg-1.wal.tmp") = true ↔
     ∃ b', u64 b' ∧ lit "seg-1.wal.tmp" = segment_name b' ++ TMP_SUFFIX).
Proof. apply (names_are_disjoint 1 7 3 (lit "seg-1.wal.tmp")). split; by vm_compute. Defined.

Lemma block_read_whole_witness :
  reads (read_blocks_exact seg_bf 1 BLOCK) flaky_world (fun out =>
    out = slice (f_vis seg_file) (1 * bf_block_size seg_bf) (1 * bf_block_size seg_bf + BLOCK) ∧
    len out = BLOCK).
Proof.
  apply (block_read_whole seg_bf 1 BLOCK flaky_world seg_file);
    [apply world_seg|apply journal_file_ok, seg_journal_file|lia|unfold BLOCK; lia].
Defined.


Lemma bad_blocks_read_as_zeros_witness :
  reads (read_blocks seg_bf 1 (2 * BLOCK)) (world [])
    (block_view (slice (f_vis seg_file) (1 * BLOCK) ((1 + 2) * BLOCK))) ∧
  (w_faults (world []) = [] →
   read_blocks seg_bf 1 (2 * BLOCK) (world []) =
     (Ok (slice (medium seg_file) (1 * BLOCK) ((1 + 2) * BLOCK)), world [])).
Proof.
  apply (bad_blocks_read_as_zeros seg_bf 1 2 (world []) seg_file);
    [apply world_seg|apply seg_open|lia|lia|rewrite seg_file_len; unfold BLOCK; lia].
Defined.

Lemma synced_write_survives_witness :
  ∃ w1 w2 f2, write_blocks_io false seg_bf 1 (zeros BLOCK) (world []) = (Ok (), w1) ∧
    sync_file (bf_file seg_bf) w1 = (Ok (), w2) ∧ w_files w2 !! bf_file seg_bf = Some f2 ∧
    ∀ g, crash_file f2 g →
      slice (f_vis g) (1 * BLOCK) (1 * BLOCK + len (zeros BLOCK)) = zeros BLOCK.
Proof.
  assert (len (zeros BLOCK) mod BLOCK = 0) as Hmod by (by rewrite len_repeatZ).
  destruct (write_blocks_io_spec false seg_bf 1 (zeros BLOCK) (world []) seg_file (world_seg [])
    seg_journal_file ltac:(lia) Hmod) as (r & fs & f1 & tr & Hrun & _ & _).
  assert (fst (write_blocks_io false seg_bf 1 (zeros BLOCK) (world [])) = Ok ()) as E by concrete.
  assert (fst (sync_file (bf_file seg_bf)
    (snd (write_blocks_io false seg_bf 1 (zeros BLOCK) (world [])))) = Ok ()) as E2 by concrete.
  rewrite Hrun in E, E2. cbn [fst snd] in E, E2. subst r.
  set (w1 := with_file (world []) (bf_file seg_bf) f1 fs tr) in *.
  destruct (sync_file_spec (bf_file seg_bf) f1 w1 ltac:(apply lookup_insert_eq))
    as (r & fs' & f2 & tr' & Hrun2 & _).
  rewrite Hrun2 in E2. cbn [fst] in E2. subst r.
  assert (w_files (with_file w1 (bf_file seg_bf) f2 fs' tr') !! bf_file seg_bf = Some f2) as Hf2
    by apply lookup_insert_eq.
  eexists w1, _, f2. split; [exact Hrun|]. split; [exact Hrun2|]. split; [exact Hf2|].
  intros g Hg.
  exact (synced_write_survives false seg_bf 1 (zeros BLOCK) (world []) seg_file w1 _ f2 g
    (world_seg []) seg_journal_file ltac:(lia) Hmod Hrun Hrun2 Hf2 Hg).
Defined.
