(* ===== verification/RpcWitnesses.v ===== *)
(** * Witnesses of the RPC theorems

    For every theorem of the RPC files with hypotheses, an instance at small
    concrete sessions, streams, registries and monitors where they hold; the
    digest is instantiated with a byte sum. *)
From stdpp Require Import base list numbers gmap strings.
From S2P Require Import Prelude Cursor Frame Status Wire Credit Flow Connection Producer Line Consumer Registry Monitor.

#[local] Instance sum_digest : Xxh3.
Proof.
  refine {| xxh3_digest l := foldl (λ a b, (a * 31 + byte_to_Z b) mod 2 ^ 64) 7 l |}.
  intros l. unfold in_u. destruct l as [|b l] using rev_ind; [cbn; lia|].
  rewrite foldl_app. cbn. by apply Z.mod_pos_bound.
Defined.

Definition bytes (l : list Z) : list byte := map Z_to_byte l.

(** The encoded frame. *)
Definition framed (payload : list byte) (max : Z) : list byte :=
  match encode_frame payload max with Ok f => f | _ => [] end.

(** ** Frames *)

Definition frame1 : list byte := framed (bytes [1]) 8.
Definition frame2 : list byte := framed (bytes [1; 2; 3; 4; 5; 6; 7; 8]) 8.

Lemma read_loop_refines_session_witness :
  read_loop (λ seen p, (seen ++ [p], None)) 8 []
    (map inr [take 5 frame1; drop 5 frame1 ++ take 3 frame2] ++ [inr []]) =
  ([bytes [1]], Some (Protocol "stream ended inside a frame (3 bytes buffered)")).
Proof.
  rewrite (proj2 (read_loop_refines_session (λ seen p, (seen ++ [p], None)) 8 []
    [take 5 frame1; drop 5 frame1 ++ take 3 frame2] ltac:(done) ltac:(by repeat constructor))).
  by vm_compute.
Defined.

Lemma framed_payloads_delivered_witness :
  read_loop (λ seen p, (seen ++ [p], None)) 8 []
    (map inr [take 15 (frame1 ++ frame2); drop 15 (frame1 ++ frame2)] ++ [inr []]) =
  ([bytes [1]; bytes [1; 2; 3; 4; 5; 6; 7; 8]], Some PeerClosed).
Proof.
  apply (framed_payloads_delivered 8 _ [frame1; frame2]).
  - done.
  - by repeat constructor.
  - by repeat constructor.
  - by vm_compute.
Defined.

(** A read that ends one frame and starts the next leaves the consumed bytes
    in place: the buffer outgrows a header, a frame and a read. *)
Definition straddled : FrameDecoder :=
  feed (fst (next_frame (feed (feed (FrameDecoder_new 8) (take 12 frame1))
                           (drop 12 frame1 ++ take 19 frame2))))
    (drop 19 frame2 ++ frame1 ++ take 6 frame2).

Lemma decoder_memory_bound_witness :
  len (fd_buffer straddled) = 52 ∧ HEADER_LEN + 8 + 20 = 40 ∧
  fd_buffered straddled < HEADER_LEN + 8 + 20 ∧
  len (fd_buffer straddled) < 2 * (HEADER_LEN + 8) + 20.
Proof.
  split; [by vm_compute|]. split; [done|].
  apply (decoder_memory_bound 8 20 straddled); [done|lia|].
  apply reading_feed; [|by vm_compute|by vm_compute].
  apply (reading_next 8 20 (feed (feed (FrameDecoder_new 8) (take 12 frame1))
    (drop 12 frame1 ++ take 19 frame2)) (bytes [1])); [|by vm_compute].
  apply reading_feed; [|by vm_compute|by vm_compute].
  apply reading_feed; [constructor|by vm_compute|by vm_compute].
Defined.

(** ** Envelopes *)

Lemma envelope_round_trip_witness :
  decode_message_at (encode_message (Reply 7 (OutcomeErr (Unauthenticated Cred_Expired)))) 2 =
    Ok (Reply 7 (OutcomeErr (Unauthenticated Cred_Expired))).
Proof.
  apply (envelope_round_trip (Reply 7 (OutcomeErr (Unauthenticated Cred_Expired))) 2); [done|].
  intros e [= <-]. by vm_compute.
Defined.

Lemma accepted_envelope_canonical_witness :
  encode_message (StreamAck 3 4096) = bytes [8; 3; 0; 0; 0; 0; 0; 0; 0; 0; 16; 0; 0; 0; 0; 0; 0].
Proof.
  apply (accepted_envelope_canonical
    (bytes [8; 3; 0; 0; 0; 0; 0; 0; 0; 0; 16; 0; 0; 0; 0; 0; 0]) 1 (StreamAck 3 4096));
    [by vm_compute|done].
Defined.

Lemma downgraded_rejection_keeps_execution_witness :
  execution (from_wire (for_version PermissionDenied 1) (mkCallIdentity (1, 1) 1 1 1)) =
    execution (from_wire PermissionDenied (mkCallIdentity (1, 1) 1 1 1)).
Proof.
  by apply (downgraded_rejection_keeps_execution PermissionDenied (mkCallIdentity (1, 1) 1 1 1) 9
    (1, 2) (1, 1) 1).
Defined.

Lemma accounted_sizes_exact_witness :
  len (framed (encode_message (StreamItem 1 0 2 (bytes [5; 6]))) (2 ^ 32 - 1)) =
    stream_item_frame_len (len (bytes [5; 6])).
Proof. apply (accounted_sizes_exact 1 0 2 (bytes [5; 6])). by vm_compute. Defined.

(** ** Credit *)

Definition flow_sent : Flow :=
  mkFlow (fst (reserve (Credit_new 100) 60)) [(0, 60)] (Intake_new 100) [] [] false.

Lemma flow_sent_step : flow_step (Flow_new 100) flow_sent.
Proof. by apply (flow_send (Flow_new 100) 60). Qed.

Lemma credit_protocol_sound_witness : in_flight (f_credit flow_sent) ≤ 100.
Proof.
  apply (credit_protocol_sound 100 flow_sent); [lia|]. apply rtc_once, flow_sent_step.
Defined.

Definition flow_returned : Flow :=
  mkFlow (mkCredit 100 60 60 [] 1) [] (mkIntake 100 1 60 60) [] [] false.

Lemma flow_returned_steps : rtc flow_step (Flow_new 100) flow_returned.
Proof.
  eapply rtc_l; [exact flow_sent_step|]. eapply rtc_l; [by apply (flow_deliver _ 0 60 [])|].
  eapply rtc_l; [by apply (flow_take _ 60 [])|]. eapply rtc_l; [by apply (flow_ack _ 60 [])|].
  apply rtc_refl.
Qed.

Lemma quiescent_credit_restored_witness :
  in_flight (f_credit flow_returned) = 0 ∧ snd (reserve (f_credit flow_returned) 100) = Ok 1.
Proof.
  by apply (quiescent_credit_restored 100 flow_returned 100); [lia|exact flow_returned_steps|..].
Defined.

(** ** Connections *)

Definition limits : QueueLimits := mkQueueLimits 4 4 1000 1000.
Definition counters : Counters := mkCounters 0 0 0 0.
Definition session0 : Connection := Connection_new 1 Outbound (bytes [9]) limits 0 counters.

(** The handshake written, a frame of each of two streams queued. *)
Definition session1 : Connection :=
  fst (push_stream_frame 2 (mkStreamFrame (bytes [2; 2]) None)
    (fst (push_stream_frame 1 (mkStreamFrame (bytes [1]) None)
      (fst (Connection_poll_next session0))))).

Lemma session1_steps : rtc conn_step session0 session1.
Proof.
  eapply rtc_l; [apply step_poll_next|].
  eapply rtc_l; [apply (step_push_stream_frame 1 (mkStreamFrame (bytes [1]) None)); by vm_compute|].
  apply rtc_once. apply (step_push_stream_frame 2 (mkStreamFrame (bytes [2; 2]) None)).
  by vm_compute.
Qed.

Lemma session_accounting_exact_witness :
  q_queued_bytes (cn_queue session1) = data_bytes (cn_queue session1).
Proof. apply (session_accounting_exact _ _ _ _ _ _ session1 session1_steps). Defined.

Lemma writer_serves_oldest_witness : is_drained session1 = false.
Proof.
  pose proof (writer_serves_oldest _ _ _ _ _ _ session1 session1_steps) as P.
  specialize (P ltac:(by vm_compute)).
  destruct (Connection_poll_next session1) as [c' [[o|]|]] eqn:E.
  - exact (proj1 P).
  - by destruct P.
  - by vm_compute in E.
Defined.

Lemma rotation_is_fair_witness :
  ∃ c' o, Connection_poll_next session1 = (c', Ready (Some o)) ∧
    (queue_of (cn_queue session1) (Stream 2) =
       (out_bytes o, out_kind o, out_release o) :: queue_of (cn_queue c') (Stream 2) ∨
     (∃ l' r', q_turns (cn_queue c') = l' ++ Stream 2 :: r' ∧ (length l' < 1)%nat) ∧
     ∀ call_id frame, ∃ r', q_turns (cn_queue (fst (push_stream_frame call_id frame session1))) =
                              [Stream 1] ++ Stream 2 :: r').
Proof.
  apply (rotation_is_fair session1 (Stream 2) [Stream 1] []);
    [exact (session_ok _ _ _ _ _ _ session1 session1_steps)|by vm_compute..|done].
Defined.

(** ** The line of senders *)

Definition producing (window : Z) : Producing :=
  mkProducing (StreamCore_new 1 RouteLocal window 1000 0) None true Effects_default []
    (mkStreamCounters 0 0 0 0).

Definition line0 : Line := mkLine (producing 60) ∅ ∅.

Lemma line0_fresh : fresh_line line0.
Proof. split; [done|]. by exists 1, RouteLocal, 60, 1000, 0. Qed.

(** One item sent, a second sender waiting for credit. *)
Definition line1 : Line :=
  let '(p1, _, _, _, _, _) := poll_send 11 None (Some (0, bytes [1])) 40 (producing 60) in
  let '(p2, _, _, _, _, _) := poll_send 12 None (Some (0, bytes [2])) 40 p1 in
  mkLine p2 {[0 := 40]} ∅.

Lemma line1_steps : rtc line_step line0 line1.
Proof.
  eapply rtc_l.
  { eapply (line_send 11 None (0, bytes [1]) 40); [lia|done|by vm_compute]. }
  eapply rtc_l.
  { eapply (line_send 12 None (0, bytes [2]) 40); [lia|done|by vm_compute]. }
  by apply rtc_refl.
Qed.

Lemma no_lost_wakeup_witness : 60 < in_flight (cs_credit (pstate (ln_p line1))) + 40.
Proof.
  pose proof (no_lost_wakeup line0 line1 line0_fresh line1_steps) as [Hh _].
  apply (Hh (mkWaiter 0 12) [] 40); by vm_compute.
Defined.

(** The first item acknowledged: the pending send completes. *)
Definition line2 : Line :=
  let '(p, woken, _) := core_on_ack 40 (ln_p line1) in
  mkLine p (ln_sends line1) (ln_awake line1 ∪ reached woken (pstate p)).

Lemma line2_steps : rtc line_step line0 line2.
Proof.
  eapply rtc_r; [exact line1_steps|]. unfold line2.
  destruct (core_on_ack 40 (ln_p line1)) as [[p woken] effect] eqn:E. by eapply line_ack.
Qed.

Lemma first_come_first_served_witness : is_Some (ln_sends line2 !! 0) ∧ 0 ≤ 0.
Proof.
  assert (is_Some (ln_sends line2 !! 0)) as Hp by (exists 40; by vm_compute).
  split; [exact Hp|].
  eapply (first_come_first_served line0 line2 12 (Some 0) (Some (0, bytes [2])) 40);
    [exact line0_fresh|exact line2_steps|by vm_compute|exact Hp].
Defined.

Definition line3 : Line :=
  let '(p, _, woken, _) := core_cancel (ln_p line1) in
  mkLine p (ln_sends line1) (ln_awake line1 ∪ reached woken (pstate p)).

Lemma line3_steps : rtc line_step line0 line3.
Proof.
  eapply rtc_r; [exact line1_steps|]. unfold line3.
  destruct (core_cancel (ln_p line1)) as [[[p was] woken] released] eqn:E. by eapply line_cancel.
Qed.

Definition line4 : Line :=
  mkLine (core_terminate T_Shutdown (ln_p line3)) (ln_sends line3) (ln_awake line3).

Lemma nothing_after_the_end_witness :
  cs_terminal (pstate (ln_p line3)) = Some T_Cancelled ∧
  cs_terminal (pstate (ln_p line4)) = cs_terminal (pstate (ln_p line3)) ∧
  cs_hold (pstate (ln_p line4)) = None ∧
  p_conn (ln_p line4) = p_conn (ln_p line3) ∧ p_calls (ln_p line4) = p_calls (ln_p line3).
Proof.
  assert (cs_terminal (pstate (ln_p line3)) = Some T_Cancelled) as E by by vm_compute.
  split; [exact E|].
  apply (nothing_after_the_end line0 line3 line4 line0_fresh line3_steps).
  - exists T_Cancelled. exact E.
  - apply rtc_once, (line_terminate T_Shutdown line3).
Defined.

(** ** The consumer *)

Definition consuming : Consuming :=
  mkConsuming (ConsumerCore_new 1 100) (Some session1) None (mkConsumerCounters 0 5 0 0 0 100).

Lemma consuming_new : watched_new 1 100 5 consuming.
Proof. by unfold watched_new, in_u. Qed.

Definition watched0 : Watched := mkWatched consuming [] [] [] false false.

(** An item arrived, then the connection went away. *)
Definition arrived : Consuming := fst (fst (on_item AckRemote 0 2 (bytes [7]) consuming)).
Definition overload : RpcError := RpcError_new R_Overloaded NotAdmitted.
Definition lost : Consuming := fst (consumer_terminate overload arrived).

(** The application took the item, then saw the error. *)
Definition read1 : Consuming := fst (fst (poll_next false 1 lost)).
Definition read2 : Consuming := fst (fst (poll_next false 1 read1)).

Definition watched1 : Watched := took true (2, bytes [7]) (watch arrived watched0).
Definition watched2 : Watched := watch lost watched1.
Definition watched3 : Watched := observe (Some (Some (inr (2, bytes [7])))) (watch read1 watched2).
Definition watched4 : Watched :=
  observe (Some (Some (inl (RpcError_new R_Overloaded Executed)))) (watch read2 watched3).

Lemma watched1_steps : rtc watched_step watched0 watched1.
Proof.
  apply rtc_once. apply (watched_item AckRemote 0 2 (bytes [7]) watched0 arrived Accepted []).
  by vm_compute.
Qed.

Lemma watched4_steps : rtc watched_step watched0 watched4.
Proof.
  etrans; [exact watched1_steps|].
  eapply rtc_l; [apply (watched_terminate overload watched1 lost []); by vm_compute|].
  eapply rtc_l.
  { apply (watched_poll false 1 watched2 read1 (Some (Some (inr (2, bytes [7])))) []).
    by vm_compute. }
  apply rtc_once. apply (watched_poll false 1 watched3 read2
    (Some (Some (inl (RpcError_new R_Overloaded Executed)))) []). by vm_compute.
Qed.

Lemma consumer_observes_in_order_witness :
  wt_seen watched4 = wt_accepted watched4 ∧
  poll_next false 2 (wt_k watched4) = (wt_k watched4, Some None, []).
Proof.
  destruct (consumer_observes_in_order 1 100 5 consuming watched4 consuming_new watched4_steps)
    as (_ & _ & P & _).
  destruct P as [P1 P2]; [by right|]. split; [by apply P1|apply P2].
Defined.

Lemma consumer_credit_earned_by_taking_witness :
  kn_buffered_bytes (ConsumerCore_drop arrived) = 5 ∧
  k_conn (fst (fst (poll_next false 1 arrived))) =
    Some (signal_ack 1 (stream_item_frame_len 1) session1).
Proof.
  destruct (consumer_credit_earned_by_taking 1 100 5 consuming watched1 consuming_new
    watched1_steps) as (_ & P2 & P3).
  split; [exact P2|]. destruct (P3 eq_refl) as [_ P].
  destruct (poll_next false 1 arrived) as [[k' r] woken] eqn:E. cbn [fst].
  rewrite (P false 1 (2, bytes [7]) k' woken); [by vm_compute| |by vm_compute].
  change (wt_k watched1) with arrived. rewrite E.
  assert (snd (fst (poll_next false 1 arrived)) = Some (Some (inr (2, bytes [7])))) as Er
    by by vm_compute.
  rewrite E in Er. cbn in Er. by subst r.
Defined.

(** ** The registry *)

Definition registry1 := reg_run [OpInsert 10; OpInsert 20; OpInsert 30] (Registry_new 2).

Lemma registry_refines_directory_witness :
  ∃ d, spec_run 2 (mkDirectory ∅ ∅) [OpInsert 10; OpInsert 20; OpInsert 30]
         [ResToken (Ok (from_parts 0 0)); ResToken (Ok (from_parts 1 0));
          ResToken (Err RegistryFull)] d ∧
       (∀ t, Registry_get (fst registry1) t = dir_live d !! t) ∧
       rg_live (fst registry1) = Z.of_nat (size (dir_live d)).
Proof. apply (registry_refines_directory (T := Z) 2). by vm_compute. Defined.

Lemma removed_token_never_resolves_witness :
  Registry_get (fst (reg_run [OpInsert 40] (fst (Registry_remove (from_parts 0 0) (fst registry1)))))
    (from_parts 0 0) = None.
Proof.
  apply (removed_token_never_resolves (T := Z) 2 [OpInsert 10; OpInsert 20; OpInsert 30]
    (fst registry1) (snd registry1) (from_parts 0 0) 10
    (fst (Registry_remove (from_parts 0 0) (fst registry1))) [OpInsert 40] _
    (snd (reg_run [OpInsert 40] (fst (Registry_remove (from_parts 0 0) (fst registry1))))));
    by vm_compute.
Defined.

(** ** The failure monitor *)

Definition host (n : Z) : SocketAddr := SocketAddr_new (V4 (bytes [10; 0; 1; n])) 4500.

Lemma watched_disconnect_seen_witness :
  disconnected_since
    (monitor_run [EvConnected (host 2); EvConnected (host 3)]
       (disconnected (host 1) true 5 10
          (monitor_run [EvReference (host 1) true] (MonitorState_new 8 1)))) (host 1) 0 = true.
Proof.
  apply (watched_disconnect_seen 8 1 [EvReference (host 1) true] (host 1) true 5 10
    [EvConnected (host 2); EvConnected (host 3)]). by vm_compute.
Defined.
