(* ===== verification/DiskScenarios.v ===== *)
(** Concrete runs of the simulated disk and of the scheduler: inputs at which
    the general theorems apply, and the two histories in which the durability
    oracle accuses the simulator of a damage it did on purpose; and replicated
    fault patterns, three zones of one process each under a rolling pattern and
    under a stripe rotation. *)

From stdpp Require Import base list numbers gmap strings sorting relations.
From Stdlib Require Import QArith.
From S2P Require Import Prelude Names Storage JournalIo Crc Cursor Replication ReplicationSafe Sectors Image ImageInv ImageCrash Disk Scheduler.
#[local] Open Scope Z_scope.

(** ** A keyed generator that satisfies the laws *)

Definition byte_rng : KeyedRng := {|
  rng_fill seed := repeatZ SECTOR_SIZE (Z_to_byte (seed + 7));
  rng_byte_bit seed n := (seed mod n, seed mod 8);
|}.

#[global] Instance byte_rng_laws : KeyedRngLaws byte_rng.
Proof.
  split; intros; cbn; [by apply len_repeatZ| |]; apply Z.mod_pos_bound; lia.
Qed.

#[local] Existing Instance byte_rng.
#[local] Existing Instance castagnoli.

(** Every crash rolls back; syncs are honest, or always lie. *)
Definition rollback_config : StorageConfiguration := mkStorageConfiguration 0 0 0 0 1 0 0 0.
Definition lying_config : StorageConfiguration := mkStorageConfiguration 1 0 0 0 1 0 0 0.
(** Every dirty sector is lost. *)
Definition losing_config : StorageConfiguration := mkStorageConfiguration 0 1 0 0 1 1 0 0.

Definition even_weight : Z → Q := λ _, 1%Q.
Definition low_rolls : Z → Q := λ _, 0%Q.
Definition low_draws : CrashDraws := mkDraws 0 0 0 0 0 low_rolls (λ _, 0) (λ _, true).

Definition after (o : ImageOp) (m : FileImage) : FileImage := default m (image_exec o m).

(** 100 bytes written to an empty file, then synced. *)
Definition file0 : FileImage := FileImage_new 0 1 false.
Definition file1 : FileImage := after (OpWrite 0 (repeatZ 100 x01)) file0.
Definition file2 : FileImage := after (OpSync rollback_config even_weight low_rolls) file1.
(** The file grows: its only sector is dirty again, its first 100 bytes stamped. *)
Definition file3 : FileImage := after (OpSetLen 200) file2.

(** The same write, with a sync that lied and a writeback that failed. *)
Definition lied2 : FileImage := after (OpSync lying_config even_weight low_rolls) file1.
Definition lied3 : FileImage := after (OpFailWriteback false) lied2.

Lemma reach_after o m :
  reachable m → permitted o m → is_Some (image_exec o m) → reachable (after o m).
Proof.
  intros Hm Hp [m' E]. unfold after. rewrite E. cbn. by eapply reach_step.
Qed.

Lemma is_set_zero s n : is_set (mkSectorBitSet [0] n) s = false.
Proof.
  unfold is_set. cbn [sb_bits sb_len]. replace (nth _ _ _) with 0; [by rewrite Z.land_0_l, andb_false_r|].
  by destruct (word_of s) as [|[|k]].
Qed.

Lemma file1_reachable : reachable file1.
Proof.
  apply reach_after; [by apply reach_new| |vm_compute; by eexists].
  split; [done|]. vm_compute. discriminate.
Qed.
Lemma file2_reachable : reachable file2.
Proof. apply reach_after; [apply file1_reachable|done|by eexists]. Qed.
Lemma file3_reachable : reachable file3.
Proof. apply reach_after; [apply file2_reachable|done|by eexists]. Qed.
Lemma lied3_reachable : reachable lied3.
Proof.
  apply reach_after; [|done|by eexists]. apply reach_after; [apply file1_reachable|done|by eexists].
Qed.

Lemma file3_no_lies : no_lies file3.
Proof.
  intros s _. assert (fi_lied file3 = mkSectorBitSet [0] 1) as -> by (vm_compute; reflexivity).
  apply is_set_zero.
Qed.
Lemma file1_no_lies : no_lies file1.
Proof.
  intros s _. assert (fi_lied file1 = mkSectorBitSet [0] 1) as -> by (vm_compute; reflexivity).
  apply is_set_zero.
Qed.

(** Damage under a grown sector is taken for a simulator bug.  A file is
    written, honestly synced and grown, so its sector is dirty while its first
    bytes are still stamped; [corrupt_bytes] damages a stamped byte on the
    device but skips the sector's stamp because it is dirty; the next crash
    that rolls the sector back panics, though no sync ever lied. *)
Theorem corrupt_under_grow_panics :
  reachable file3 ∧ no_lies file3 ∧
  (corrupt_bytes 0 1 file3).2 = true ∧
  crash [] rollback_config false even_weight low_draws (corrupt_bytes 0 1 file3).1 = None.
Proof.
  split_and!; [apply file3_reachable|apply file3_no_lies|vm_compute; reflexivity..].
Qed.

(** Dropping the cache of a sector a sync lied about hides the lie.  The
    writeback of a lied-about sector fails and the cache is dropped: the
    sector is clean but keeps its lie and its stamp.  The next crash lists as
    lied about only dirty sectors, so it panics on the lost write even with
    the lying family armed, where without the drop it reports the sector. *)
Theorem drop_after_lie_panics :
  reachable lied3 ∧
  (cr_lost_synced ∘ snd <$> crash [] lying_config true even_weight low_draws lied3) = Some [0] ∧
  crash [] lying_config true even_weight low_draws (drop_cache lied3).1 = None.
Proof.
  split_and!; [apply lied3_reachable|vm_compute; reflexivity..].
Qed.

(** ** The theorems at these inputs *)

Lemma image_never_panics_witness :
  ∃ m', image_exec (OpCrash [] losing_config false even_weight low_draws) file3 = Some m' ∧ image_ok m'.
Proof.
  exact (image_never_panics (OpCrash [] losing_config false even_weight low_draws) file3
           file3_reachable (or_intror file3_no_lies)).
Defined.

Lemma crash_keeps_synced_witness :
  ∃ m' r, crash [] losing_config false even_weight low_draws file3 = Some (m', r) ∧
    survived file3 m' (cr_lost_synced r) ∧ (no_lies file3 → cr_lost_synced r = []).
Proof.
  exact (crash_keeps_synced [] losing_config false even_weight low_draws file3 file3_reachable
           (or_intror file3_no_lies)).
Defined.

Lemma sync_survives_crash_witness :
  ∃ m' r, crash [] losing_config false even_weight low_draws
            (sync rollback_config even_weight low_rolls file1).1 = Some (m', r) ∧
    len (fi_visible m') = len (fi_visible file1) ∧
    ∀ i, Z.of_nat i < len (fi_visible file1) →
      is_set (fi_stranded file1) (Z.of_nat i / SECTOR_SIZE) = false →
      fi_visible m' !! i = fi_visible file1 !! i.
Proof.
  exact (sync_survives_crash rollback_config even_weight low_rolls [] losing_config false even_weight
           low_draws file1 file1_reachable eq_refl (or_intror file1_no_lies)).
Defined.

(** Two sectors: one write synced, one dropped by a writeback that fails and
    reverts the cache, written again and kept by the next that fails, then a
    crash that loses what it can. *)
Definition disk_ops : list DiskOp :=
  [DWrite 0 (repeatZ 512 x01); DSync rollback_config even_weight low_rolls;
   DWrite 512 (repeatZ 512 x02); DSyncFailed true; DWrite 512 (repeatZ 512 x03);
   DSyncFailed false; DCrash [] losing_config even_weight low_draws].

Lemma disk_refines_contract_witness :
  ∃ m', disk_run disk_ops (FileImage_new 1024 1 false) = Some m' ∧
    file_runs disk_ops (as_file ∅ IoConstraints_NONE (FileImage_new 1024 1 false))
      (as_file ∅ IoConstraints_NONE m').
Proof.
  apply (disk_refines_contract ∅ IoConstraints_NONE 1024 1 false disk_ops).
  - vm_compute. split; discriminate.
  - repeat constructor; vm_compute; done || discriminate.
Defined.

(** ** Replicated fault patterns *)

Definition node (n : Z) : IpAddr := V4 (Z_to_byte <$> [10; 0; 1; n]).

Definition three_zones : list (IpAddr * LocalityInfo) :=
  [(node 1, mkLocalityInfo "dc" "b" "m1"); (node 2, mkLocalityInfo "dc" "a" "m2");
   (node 3, mkLocalityInfo "dc" "c" "m3")]%string.

Definition one_each : ReplicatedFaults := ReplicatedFaults_new Zone.

Definition plan_of (kind : PatternKind) : ReplicationPlan :=
  match draw one_each three_zones kind [] with Some p => p | None => mkReplicationPlan Spared 0 [] [] end.

(** Two stripes to a file, a sector each, and a header only its node has. *)
Definition wal : list LayoutRegion :=
  [mkLayoutRegion (lit "wal/./seg") 512 1024 "entry" (Some 7) None;
   mkLayoutRegion (lit "wal/seg") 0 512 "header" None None;
   mkLayoutRegion (lit "wal/seg") 1024 1536 "entry" (Some 8) None].

Definition everywhere (ip : IpAddr) : option LayoutIndex := Some (LayoutIndex_new wal).

Definition hit (n sector : Z) : Damaged := mkDamaged (node n) (lit "wal/seg") sector.

(** Node 1, in the second zone, takes damage once the turn comes to it; node 3
    is spared until that is repaired. *)
Definition rolling_start : FaultState := fault_start [plan_of PK_Rolling] everywhere.
Definition after_first : FaultState := fault (hit 1 1) (settle_turns (node 1) rolling_start).
Definition after_second : FaultState := fault (hit 3 1) after_first.
Definition after_repair : FaultState := fault (hit 3 1) (repair [hit 1 1] after_second).

Lemma rolling_history :
  fs_damage after_first = [hit 1 1] ∧ fs_damage after_second = [hit 1 1] ∧ fs_damage after_repair = [hit 3 1].
Proof. vm_compute. done. Qed.

(** Node 1 publishes an entry it is about to write over its damaged sector:
    the sector is described anew. *)
Definition in_flight_wal : list LayoutRegion :=
  mkLayoutRegion (lit "wal/seg") 600 1000 "entry" (Some 9) None :: wal.
Definition after_publish : FaultState := publish_layout (node 1) in_flight_wal after_second.

Lemma described_history :
  described_anew (node 1) in_flight_wal after_second = [hit 1 1] ∧
  described_anew (node 1) wal after_second = [].
Proof. vm_compute. done. Qed.

Lemma damage_spares_a_domain_witness :
  (∃ m d, m ∈ three_zones ∧ plan_domain (plan_of PK_Rolling) m.1 = Some d ∧
    ¬ holds_damage [] after_second (plan_of PK_Rolling) (Some 7) d) ∧
  ∃ m d, m ∈ three_zones ∧ plan_domain (plan_of PK_Rolling) m.1 = Some d ∧
    ¬ holds_damage (described_anew (node 1) in_flight_wal after_second ++ []) after_publish
        (plan_of PK_Rolling) (Some 9) d.
Proof.
  assert (rtc fault_step (rolling_start, []) (after_second, [])) as Hr.
  { apply rtc_l with (settle_turns (node 1) rolling_start, []); [apply Step_settle|].
    apply rtc_l with (after_first, []); [apply Step_fault|]. apply rtc_once, Step_fault. }
  split;
    (apply (damage_spares_a_domain one_each three_zones PK_Rolling [] (plan_of PK_Rolling)
       [plan_of PK_Rolling] everywhere);
     [cbn; lia|repeat constructor; vm_compute; set_solver|done|vm_compute; reflexivity|left|]);
    [exact Hr|].
  eapply rtc_r; [exact Hr|]. apply Step_publish.
Defined.

(** Under the rotation the stripes 7 and 8 go to different zones, and the
    header to none. *)
Lemma striped_history :
  let st := fault_start [plan_of PK_Striped] everywhere in
  (λ n, (λ sector, eligible st (hit n sector)) <$> [0; 1; 2]) <$> [1; 2; 3] =
    [[false; true; false]; [false; false; false]; [false; false; true]].
Proof. vm_compute. done. Qed.

Lemma layout_lookup_exact_witness :
  entries_in (LayoutIndex_new wal) (lit "wal/seg") 600 1030 ≡ₚ
    (λ r, (lr_stripe r, lr_shard r)) <$> filter (λ r, shares_bytes (lit "wal/seg") 600 1030 r = true) wal.
Proof. apply (layout_lookup_exact wal (lit "wal/seg") 600 1030). repeat (apply Forall_cons; split; [cbn; lia|]). constructor. Defined.

(** The lookup lists the regions from the last to the first. *)
Lemma lookup_is_reversed :
  entries_in (LayoutIndex_new wal) (lit "wal/seg") 0 1536 = [(Some 8, None); (Some 7, None); (None, None)].
Proof. vm_compute. done. Qed.
