(* ===== verification/NetScenarios.v ===== *)
(** Witnesses of the network theorems: one connection that is partitioned
    while it carries data, with addresses numbered. *)

From stdpp Require Import base list numbers gmap sorting.
From S2P Require Import Prelude Scheduler Network NetWorld NetStream NetSteps NetSafe NetLive NetDrain NetQuiet.
#[local] Open Scope Z_scope.

Definition calm : EventDraws := mkEventDraws (λ _, []) (mkSendDraws (Some 1) 5) 2.

(** The connection 0 - 1 carries four bytes, is cut in the middle, and its
    writer shuts it down. *)
Definition session : list (NetOp Z) :=
  [ NOpen 4 (Some 10) (Some 20);
    NRead 1 8 16 None;
    NWrite 0 [Byte.x01; Byte.x02; Byte.x03; Byte.x04; Byte.x05] 0;
    NWrite 0 [Byte.x05] 0;
    NEvent 0 calm;
    NPartition 10 20 100;
    NEvent 1 calm;
    NShutdown 0 ].

Definition session_world : World Z := default World_new (world_run session World_new).

Definition first_event (w : World Z) : nat * EventDraws := (0%nat, calm).

Lemma session_permitted : Forall permitted session.
Proof. repeat constructor; cbn; lia. Qed.

Lemma session_runs : world_run session World_new = Some session_world.
Proof. vm_compute. reflexivity. Qed.

Lemma first_event_scheduler : scheduler first_event.
Proof.
  intros w Hw. destruct (wd_agenda w) as [|x ag]; [done|]. cbn. split; [lia|]. split; [lia|done].
Qed.

Lemma window_charges_exactly_witness :
  ∃ w, world_run session World_new = Some w ∧
    ∀ id c, connection (wd_net w) id = Some c →
      ∃ p r, cn_paired c = Some p ∧ connection (wd_net w) p = Some r ∧ cn_paired r = Some id ∧
        win_outstanding (cn_window c) ≤ win_capacity (cn_window c) ∧
        (fl_send_black_holed (cn_flags c) = false →
         win_outstanding (cn_window c) =
           len (cn_receive_buffer r) + in_flight_bytes c + queued_bytes c).
Proof. apply window_charges_exactly. exact session_permitted. Defined.

(** Both endpoints exist, so the next two theorems have something to say. *)
Definition writer_end : ConnectionState Z :=
  default (new_connection 0 None None 0) (connection (wd_net session_world) 0).
Definition reader_end : ConnectionState Z :=
  default (new_connection 0 None None 0) (connection (wd_net session_world) 1).

Lemma stream_in_order_witness :
  bytes_of (wd_read session_world) 1 `prefix_of` bytes_of (wd_written session_world) 0 ∧
  (0 ∉ wd_lossy session_world →
   bytes_of (wd_written session_world) 0 =
     bytes_of (wd_read session_world) 1 ++ cn_receive_buffer reader_end ++ flying writer_end ++ queued writer_end).
Proof.
  apply (stream_in_order session session_world 0 writer_end 1 reader_end).
  - exact session_permitted.
  - exact session_runs.
  - vm_compute. reflexivity.
  - vm_compute. reflexivity.
  - vm_compute. reflexivity.
Defined.

(** Four bytes were accepted; they are in flight and queued. *)
Example session_carries :
  bytes_of (wd_written session_world) 0 = [Byte.x01; Byte.x02; Byte.x03; Byte.x04] ∧
  flying writer_end ++ queued writer_end = [Byte.x01; Byte.x02; Byte.x03; Byte.x04] ∧
  bool_decide (0 ∈ wd_lossy session_world) = false.
Proof. vm_compute. done. Qed.

Lemma parked_tasks_wait_for_something_witness :
  (ReadWaiter 1 ∈ nw_waiters (wd_net session_world) →
     cn_receive_buffer reader_end = [] ∧ fl_remote_fin_received (cn_flags reader_end) = false ∧
     fl_is_closed (cn_flags reader_end) = false ∧ fl_recv_closed (cn_flags reader_end) = false) ∧
  (SendWaiter 1 ∈ nw_waiters (wd_net session_world) →
     win_outstanding (cn_window reader_end) = win_capacity (cn_window reader_end)).
Proof.
  apply (parked_tasks_wait_for_something session session_world 1 reader_end).
  - exact session_permitted.
  - exact session_runs.
  - vm_compute. reflexivity.
Defined.

Lemma network_comes_to_rest_witness :
  ∃ fuel v, drain_run fuel first_event session_world = Some v ∧ wd_agenda v = [] ∧
    wd_written v = wd_written session_world ∧ wd_read v = wd_read session_world ∧
    dom (nw_connections (wd_net v)) = dom (nw_connections (wd_net session_world)) ∧
    ∀ id c, connection (wd_net v) id = Some c →
      cn_send_buffer c = [] ∧ cn_in_flight c = [] ∧
      ∃ p r, cn_paired c = Some p ∧ connection (wd_net v) p = Some r ∧
        (id ∉ wd_lossy session_world →
         bytes_of (wd_written session_world) id = bytes_of (wd_read session_world) p ++ cn_receive_buffer r ∧
         (fl_send_closed (cn_flags c) = true → fl_remote_fin_received (cn_flags r) = true)).
Proof.
  apply (network_comes_to_rest session first_event session_world).
  - exact session_permitted.
  - exact first_event_scheduler.
  - exact session_runs.
Defined.

(** And it does rest: twelve events later the reader has all four bytes and
    the end of the stream. *)
Definition rested : World Z := default World_new (drain_run 12 first_event session_world).

Example session_rests :
  wd_agenda rested = [] ∧
  cn_receive_buffer <$> connection (wd_net rested) 1 = Some [Byte.x01; Byte.x02; Byte.x03; Byte.x04] ∧
  (fl_remote_fin_received ∘ cn_flags) <$> connection (wd_net rested) 1 = Some true.
Proof. vm_compute. done. Qed.
