(* ===== verification/CallsScenarios.v ===== *)
(** * Runs of the call table

    A client runtime calls one server: an at-most-once call is answered, a
    second one is abandoned before it leaves, a third is rejected, and a
    reliable call loses its connection and is sent again.  The theorems of
    CallsSafe at the states of these runs. *)
From stdpp Require Import base list numbers gmap strings sorting.
From S2P Require Import Prelude Cursor Frame Status Wire Credit Connection Registry Monitor Producer Consumer Peers Runtime Calls CallsSafe.

#[local] Instance call_digest : Xxh3.
Proof.
  refine {| xxh3_digest l := foldl (λ a b, (a * 31 + byte_to_Z b) mod 2 ^ 64) 7 l |}.
  intros l. unfold in_u. destruct l as [|b l] using rev_ind; [cbn; lia|].
  rewrite foldl_app. cbn. by apply Z.mod_pos_bound.
Defined.

Definition server : SocketAddr := mkSocketAddr (V4 (map Z_to_byte [10; 0; 0; 2])) 4500 0 0.
Definition at_server : Endpoint := mkEndpoint server 77 (from_parts 1 1).
Definition method : CallIdentity := mkCallIdentity (5, 1) 1 9 1.

Definition client_policy : PeerPolicy :=
  mkPeerPolicy (ms 100) (ms 400) 200 (ms 5000) 0 (ms 10000) (ms 10000) (ms 500) 8 8 (ms 1000).

Definition client : Config :=
  mkConfig None 1 (1, 2) false true None SharingDisabled 4096 16 4096 65536 8 16 4 65536 262144
    client_policy.

Definition no_credential : Ask := λ _ _, None.

Definition call (delivery : Delivery) (now : Z) : CallOp :=
  C_start_call at_server method (map Z_to_byte [1; 2; 3]) delivery None no_credential now.

Definition greeting : WireMessage := Hello PROTOCOL_MAGIC 1 2 77 0 4096 None.

(** The session of connection [id] starts: its own greeting leaves, the peer's
    arrives. *)
Definition greet (id now : Z) : list CallOp :=
  [C_run_session id (mkPeerContext None None); C_write_next id; C_message id greeting now].

Definition send (id : Z) : list CallOp := [C_write_next id; C_transmit id false].

(** Call 0 is sent and answered, call 1 abandoned while queued, call 2
    rejected, call 3 (reliable) sent. *)
Definition day : list CallOp :=
  [call AtMostOnce 1] ++ greet 0 2 ++ send 0 ++
  [C_message 0 (Reply 0 (OutcomeOk 1 (map Z_to_byte [9]))) 3; call AtMostOnce 4; C_abandon 1 false;
   call AtMostOnce 5] ++ send 0 ++
  [C_message 0 (Reply 2 (OutcomeErr Overloaded)) 6; call Reliable 7] ++ send 0.

(** Its connection is lost. *)
Definition lost : list CallOp := day ++ [C_close_connection 0 PeerClosed 8].

(** Its copy goes to the next one. *)
Definition again : list CallOp := lost ++ [C_finish_teardown 0 no_credential 9].

Definition state (ops : list CallOp) : Runtime :=
  default (Runtime_new client) (call_run client ops (Runtime_new client)).

Ltac runs := vm_compute; reflexivity.

Lemma call_settled_exactly_once_witness :
  (rt_started (state day)).*1 = [0; 1; 2; 3] ∧
  (rt_started (state day)).*1 ≡ₚ keys_of (rt_pending (state day)) ++ (rt_settled (state day)).*1.
Proof. split; [runs|]. apply (@call_settled_exactly_once call_digest client day (state day)). runs. Defined.

Lemma unsent_report_is_final_witness :
  rt_settled (state day) !! 1%nat = Some (1, Abandoned false) ∧ written (state again) 1 = 0%nat.
Proof.
  split; [runs|].
  apply (@unsent_report_is_final call_digest client day (state day) ltac:(runs) 1 (Abandoned false)
    [C_close_connection 0 PeerClosed 8; C_finish_teardown 0 no_credential 9] (state again)).
  - apply (list_elem_of_lookup_2 _ 1). runs.
  - done.
  - runs.
Defined.

Lemma at_most_once_written_once_witness :
  written (state again) 2 = 1%nat ∧ (written (state again) 2 ≤ 1)%nat.
Proof.
  split; [runs|]. apply (@at_most_once_written_once call_digest client again (state again) ltac:(runs) 2).
  apply (list_elem_of_lookup_2 _ 2). runs.
Defined.

Lemma rejection_covers_every_copy_witness : (written (state again) 2 ≤ 1)%nat.
Proof.
  apply (@rejection_covers_every_copy call_digest client day (state day) ltac:(runs) 2
    (Replied (Err (not_admitted R_Overloaded)))
    [C_close_connection 0 PeerClosed 8; C_finish_teardown 0 no_credential 9] (state again)).
  - apply (list_elem_of_lookup_2 _ 2). runs.
  - done.
  - runs.
Defined.

(** The reliable call between the two halves of the teardown. *)
Definition stranded : option PendingCall := rt_pending (state lost) !! 3.

Lemma pending_call_has_a_home_witness :
  match stranded with
  | Some c =>
      (0 ∈ rt_connections (state lost) ∧ ∃ t, task_of 0 (state lost) = Some t ∧ t ≠ Finished) ∨
      (∃ cl, rt_closing (state lost) !! 0 = Some cl ∧ 3 ∈ rs_call_id <$> cl_resend cl ∧
         is_Some (cl_address cl) ∧ is_Some (pc_retained c))
  | None => False
  end.
Proof.
  destruct stranded as [c|] eqn:E; [|vm_compute in E; discriminate].
  apply (@pending_call_has_a_home call_digest client lost (state lost) ltac:(runs) 3 c 0 E).
  vm_compute in E. by injection E as <-.
Defined.

Lemma terminate_settles_every_call_witness :
  (rt_settled (terminate (state again))).*1 = [0; 1; 2; 3] ∧
  rt_pending (terminate (state again)) = ∅.
Proof. split; [runs|]. apply (@terminate_settles_every_call call_digest client again (state again)). runs. Defined.

Lemma teardown_leaves_no_call_witness :
  match rt_pending (state again) !! 3 with
  | Some c => pc_origin c = OriginConnection 1 ∧ pc_origin c ≠ OriginConnection 0
  | None => False
  end.
Proof.
  destruct (rt_pending (state again) !! 3) as [c|] eqn:E; [|vm_compute in E; discriminate].
  split; [|apply (@teardown_leaves_no_call call_digest client lost (state lost) ltac:(runs) 0 no_credential 9
    (state again) ltac:(runs) 3 c E)].
  vm_compute in E. by injection E as <-.
Defined.

(** A reliable call given up while its second copy is queued: the copy stays
    queued, and is sent. *)
Example abandoned_copy_is_sent :
  let ops := again ++ [C_abandon 3 false] ++ greet 1 10 ++ send 1 in
  rt_settled (state ops) !! 3%nat = Some (3, Abandoned true) ∧
  written (state again) 3 = 1%nat ∧ written (state ops) 3 = 2%nat.
Proof. vm_compute. auto. Qed.
