(* ===== verification/JwtScenarios.v ===== *)
(** Security at work: the allow list, the decision on a request, and a token
    verified, served from the cache and refused once its key is gone. *)
From stdpp Require Import base list numbers gmap strings.
From S2P Require Import Prelude Cursor Status Wire Registry Connection Runtime Security Jwt JwtCache.

(** ** Addresses *)

Definition octet (z : Z) : byte := Z_to_byte z.
Definition ten_net : IpAddr := V4 (octet <$> [10; 1; 192; 0]).
Definition mapped_ten : IpAddr := V6 (to_ipv6_mapped (octet <$> [10; 1; 200; 9])).

Lemma subnet_is_leading_bits_witness :
  leading_agree (96 + 18) (octets128 ten_net) (octets128 mapped_ten) ∧
  ¬ leading_agree (96 + 24) (octets128 ten_net) (octets128 mapped_ten).
Proof.
  split.
  - apply (subnet_is_leading_bits ten_net 18 (mkSubnet ten_net 18) mapped_ten); try reflexivity. lia.
  - intros H.
    apply (subnet_is_leading_bits ten_net 24 (mkSubnet ten_net 24) mapped_ten) in H;
      [discriminate H|reflexivity|reflexivity|lia|reflexivity|reflexivity].
Defined.

(** An IPv6 subnet wide enough to cover the mapped addresses contains IPv4
    peers. *)
Lemma ipv6_subnet_contains_ipv4 :
  option_map (λ s, Subnet_contains s (V4 (octet <$> [10; 1; 2; 3])))
    (Subnet_new (V6 (replicate 16 (octet 0))) 0) = Some true.
Proof. vm_compute. reflexivity. Qed.

(** ** A library *)

(** A token is the number of its key, its signature and nothing else; the
    signature is right when it is the key. *)
#[local] Instance toy_library : Jsonwebtoken := {|
  DecodingKey := Z;
  KeyMaterial := Z;
  decode_header token :=
    match token with
    | k :: _ => Some (mkHeader false (Some "jwt"%string) ES256
                  (Some (if byte_to_Z k =? 1 then "one"%string else "two"%string)))
    | [] => None
    end;
  decode token key _ :=
    match token with
    | _ :: signature :: _ =>
        if byte_to_Z signature =? key
        then Ok (mkClaims "alice" "issuer" 100 (Some 10) (Some "read  write")%string)
        else Err InvalidSignature
    | _ => Err OtherJwtError
    end;
  from_material _ m := Some m;
  rsa_modulus _ := None;
|}.

Definition toy_config : JwtConfig := JwtConfig_new "issuer" "audience".
Definition toy_verifier : JwtVerifier :=
  mkJwtVerifier toy_config ((λ a, (a, validation_of toy_config a)) <$> jc_algorithms toy_config).

Definition key_one : list (string * VerificationKey) := [("one"%string, mkVerificationKey (7 : DecodingKey) ES256)].
Definition key_two : list (string * VerificationKey) := [("two"%string, mkVerificationKey (8 : DecodingKey) ES256)].
Definition alices : list byte := octet <$> [1; 7].

(** ** One token over time *)

(** The first call verifies and stores the token, the second finds it; the
    third began before its key was replaced and verifies after; the fourth
    began after. *)
Definition token_ops : list JwtOp :=
  [J_call 0 alices (Some 50); J_phase 0; J_phase 0; J_phase 0; J_phase 0;
   J_call 1 alices (Some 60); J_phase 1; J_phase 1;
   J_call 2 alices (Some 200); J_phase 2; J_replace key_two; J_phase 2;
   J_call 3 alices (Some 61); J_phase 3; J_phase 3; J_phase 3].

Definition token_world : JwtWorld := jwt_run toy_verifier token_ops (jwt_start key_one).

Definition alice : Principal := mkPrincipal "alice" (Some "issuer"%string) ["read"; "write"]%string (Some 100).

Lemma token_answers :
  (jl_phase <$> jw_calls token_world !! 0%nat) = Some (Ph_done (Ok alice)) ∧
  (jl_phase <$> jw_calls token_world !! 1%nat) = Some (Ph_done (Ok alice)) ∧
  (jl_phase <$> jw_calls token_world !! 2%nat) = Some (Ph_done (Err Cred_Expired)) ∧
  (jl_phase <$> jw_calls token_world !! 3%nat) = Some (Ph_done (Err Cred_UnknownKey)).
Proof. vm_compute. done. Qed.

Definition call_of (id : nat) : JwtCall :=
  match jw_calls token_world !! id with Some c => c | None => mkJwtCall [] None 0 (Ph_done Panic) end.

Lemma jwt_cache_transparent_witness :
  ∃ i ks, (0 ≤ i)%nat ∧ jw_history token_world !! i = Some ks ∧
    Ok alice = plain_verify toy_verifier ks alices (Some 60).
Proof.
  apply (@jwt_cache_transparent toy_library toy_verifier key_one token_ops 1 (call_of 1) (Ok alice));
    [vm_compute; discriminate|vm_compute; reflexivity|vm_compute; reflexivity].
Defined.

Lemma revoked_key_refused_witness : (Err Cred_UnknownKey : res CredentialError Principal) ≠ Ok alice.
Proof.
  refine (@revoked_key_refused toy_library toy_verifier key_one token_ops 3 (call_of 3) (Err Cred_UnknownKey)
           (mkHeader false (Some "jwt"%string) ES256 (Some "one"%string)) "one" _ _ _ _ _ _ alice);
    [vm_compute; discriminate|vm_compute; reflexivity|vm_compute; reflexivity
    |vm_compute; reflexivity|reflexivity|].
  intros i ks Hb Hi. change (jl_began (call_of 3)) with 1%nat in Hb.
  destruct i as [|[|i]]; [lia| |apply lookup_lt_Some in Hi; vm_compute in Hi; lia].
  vm_compute in Hi. injection Hi as <-. reflexivity.
Defined.

(** ** A private endpoint *)

Definition toy_keys : Keys := RotatingKeys_new key_one.

Definition toy_security : SecurityConfig :=
  enforced (λ request credential, plain_verify toy_verifier toy_keys credential (ar_now request)).

Definition toy_request : AccessRequest :=
  mkAccessRequest (OriginRemote (mkPeerContext None (Some "tls"%string))) Private
    (well_known 3) (0, 0) 1 (Some 50).

(** The same runtime with the verifier of [token_world]: a request at 60 is
    judged by the second call, which finds the token in the cache. *)
Definition cached_verdict : res CredentialError Principal :=
  match jl_phase (call_of 1) with Ph_done answer => answer | _ => Panic end.
Definition cached_security : SecurityConfig := enforced (λ _ _, cached_verdict).

Definition cached_request : AccessRequest :=
  mkAccessRequest (OriginRemote (mkPeerContext None (Some "tls"%string))) Private
    (well_known 3) (0, 0) 1 (Some 60).

Lemma cached_judged :
  judged_in (jwt_run toy_verifier token_ops (jwt_start key_one)) cached_security cached_request
    (encode_bearer alices).
Proof.
  intros verify token Hv (s & Hs & Hb).
  change (Some (λ (_ : AccessRequest) (_ : list byte), cached_verdict) = Some verify) in Hv.
  apply (inj Some) in Hv. subst verify.
  assert (bearer (default [] (encode_bearer alices)) (sy_max_credential_bytes cached_security) = Ok (Some alices))
    as Hal by (vm_compute; reflexivity).
  rewrite Hs in Hal. change (default [] (Some s)) with s in Hal. rewrite Hb in Hal. injection Hal as ->.
  exists 1%nat, (call_of 1). split_and!; vm_compute; reflexivity.
Qed.

Lemma private_call_bears_token_witness :
  ∃ principal, Some alice = Some principal ∧
  ∃ token header kid i ks, presented cached_security (encode_bearer alices) token ∧
    decode_header token = Some header ∧ hd_kid header = Some kid ∧
    jw_history token_world !! i = Some ks ∧ is_Some (KeySet_get ks kid) ∧
    pl_subject principal = "alice"%string.
Proof.
  destruct (@private_call_bears_token toy_library toy_verifier toy_config cached_security key_one token_ops
    cached_request (encode_bearer alices) (Some alice)) as (principal & Hp & H);
    [vm_compute; reflexivity|vm_compute; discriminate|exact cached_judged|reflexivity..|vm_compute; reflexivity|].
  exists principal. split; [exact Hp|]. injection Hp as <-.
  destruct H as [(peer & identity & Ho & Hid & _)|(token & id & call & i & ks & h & kid & key & claims & now & H)].
  { injection Ho as <-. discriminate Hid. }
  destruct H as (H1 & _ & _ & _ & _ & H2 & H3 & H4 & H5 & _).
  exists token, h, kid, i, ks. split; [exact H1|]. split; [exact H3|]. split; [exact H4|].
  split; [exact H2|]. split; [rewrite H5; eexists; reflexivity|reflexivity].
Defined.

(** Without an encrypted session the credential is refused, and without one
    the caller is. *)
Lemma private_refusals :
  security_decide toy_security
    (mkAccessRequest (OriginRemote (mkPeerContext None None)) Private (well_known 3) (0, 0) 1 (Some 50))
    (encode_bearer alices) = Err (Denied_Unauthenticated Cred_InsecureTransport) ∧
  security_decide toy_security toy_request (Some []) = Err (Denied_Unauthenticated Cred_Missing) ∧
  security_decide (admit_authenticated_peers toy_security)
    (mkAccessRequest (OriginRemote (mkPeerContext (Some "bob"%string) None)) Private (well_known 3) (0, 0) 1 None)
    None = Ok (Some (mkPrincipal "bob" (Some "tls"%string) [] None)).
Proof. vm_compute. done. Qed.
