(* ===== verification/BalanceScenarios.v ===== *)
(** Witnesses of the theorems on references and balancing. *)
From Stdlib Require Import SpecFloat.
From stdpp Require Import base list numbers gmap strings.
From S2P Require Import Prelude Cursor Status Wire Registry Connection Peers Proto Reference ReferenceSafe Balance BalanceCall BalanceSafe Alternatives.

(** ** References *)

Definition kv_address : SocketAddr := SocketAddr_new (V4 [x0a; x00; x00; x07]%byte) 4500.
Definition kv_endpoint : Endpoint := mkEndpoint kv_address (2 ^ 100 + 77) (from_parts 3 1).
Definition kv_read : MethodIdentity := mkMethod 0x6b760002 1 1 1.
Definition kv_interface : InterfaceIdentity := mkInterface 0x6b760001 1.

(** A reference whose address has three octets, as it may arrive. *)
Definition short_reference : ServiceRef :=
  mkServiceRef 0x6b760002 1 1 1 0 0 (mkRouting 9 0 77 3 (2 ^ 40) (I_Invalid [x0a; x00; x00]%byte) 0).

Lemma newer_field : unknown_fields (M := ServiceRef) (write_varint 20 7 [] ++ []).
Proof.
  apply (unknown_more (M := ServiceRef) _ 20 (V_Varint 7)); [|done|constructor].
  apply varint_is_field; [by unfold tag_ok|by unfold in_u|done].
Qed.

Lemma reference_bytes_roundtrip_witness :
  let bytes := to_proto short_reference in
  from_proto (M := ServiceRef) bytes = Ok short_reference ∧
  from_proto ((write_varint 20 7 [] ++ []) ++ to_proto short_reference ++ (write_varint 20 7 [] ++ [])) = Ok short_reference ∧
  ServiceRef_check kv_read short_reference = Err (DE_access 9).
Proof.
  assert (from_proto (M := ServiceRef) (to_proto short_reference) = Ok short_reference) as Hd by (vm_compute; reflexivity).
  split; [exact Hd|]. split; [|reflexivity].
  apply (reference_bytes_roundtrip _ short_reference _ _ Hd newer_field newer_field).
Defined.

(** The same service bound to the wildcard address, advertising no other. *)
Definition wildcard_endpoint : Endpoint :=
  mkEndpoint (SocketAddr_new UNSPECIFIED (sa_port (ep_address kv_endpoint)))
    (ep_incarnation kv_endpoint) (ep_token kv_endpoint).

Lemma published_reference_reaches_endpoint_witness :
  (∃ r, ServiceRef_from_bytes kv_read (to_proto (ServiceRef_new kv_read kv_endpoint Public)) = Ok r ∧
        ServiceRef_endpoint r = routed kv_endpoint ∧ ServiceRef_access r = Public ∧
        service_interface r = None) ∧
  ∃ err, ServiceRef_from_bytes kv_read (to_proto (ServiceRef_new kv_read wildcard_endpoint Public)) = Err err.
Proof.
  split.
  - apply (published_reference_reaches_endpoint kv_read kv_interface kv_endpoint Public); done.
  - destruct (published_reference_reaches_endpoint kv_read kv_interface wildcard_endpoint Public)
      as (_ & _ & err & H & _); [done..|]. by exists err.
Defined.

(** ** Reservations *)

Definition kv_model : QueueModel := mkQueueModel ∅ 0 (f64_of_Z 0) (f64_of_Z 1) 0 0 0 0 0 0 ∅.

(** Two attempts on one endpoint, the first given back with a reply. *)
Definition kv_ops : list ModelOp :=
  [M_reserve 0 kv_endpoint 10; M_reserve 1 kv_endpoint 20; M_release 0 30 (MO_Clean (mkFeedback None None)) (f64_of_Z 0)].

Lemma reservations_exact_witness :
  ∃ m', model_run ModelConfig_default kv_ops kv_model = Some m' ∧ counted m' kv_endpoint = 1 ∧
  counted m' kv_endpoint = held_on m' kv_endpoint.
Proof.
  destruct (model_run ModelConfig_default kv_ops kv_model) as [m'|] eqn:E; [|exfalso; vm_compute in E; discriminate].
  exists m'. split; [reflexivity|]. split.
  - assert (counted <$> model_run ModelConfig_default kv_ops kv_model = Some (counted m')) as Hc by (by rewrite E).
    assert ((λ f, f kv_endpoint) <$> (counted <$> model_run ModelConfig_default kv_ops kv_model) = Some 1) as H1
      by (vm_compute; reflexivity).
    rewrite Hc in H1. by injection H1.
  - apply (reservations_exact ModelConfig_default kv_ops kv_model m'); [vm_compute; reflexivity|reflexivity|exact E].
Defined.

(** ** A call *)

Definition all_up : View := mkView (λ _, false) (λ _, true) [0; 1]%nat.
Definition granted : Grants := mkGrants false false true.
Definition timed_out : RpcError := RpcError_new R_Timeout MaybeExecuted.

(** The first attempt is hedged, times out and blocks the call; the hedge still
    wins. *)
Definition hedged_inputs : list (@Input Z) :=
  [I_go all_up granted; I_hedge_due all_up granted; I_go all_up granted; I_landed 0 (inr timed_out);
   I_go all_up granted; I_landed 1 (inl 42)].

Definition accept_all (reply : Z) : Verdict := V_Accept (mkFeedback None None).
Definition agree (reply : Z) (copy : option (Z + RpcError)) : option string := None.

Definition hedged_run : option (@Where Z * @Progress Z) :=
  balanced_run accept_all agree hedged (mkBackoff 10 100 (f64_of_Z 2) (f64_of_Z 0)) 2 hedged_inputs (balanced_start 2 false).

Lemma balanced_call_at_most_once_witness :
  ∃ p, hedged_run = Some (W_done (inl (42, 1%nat)), p) ∧ len (attempts p) = 2 ∧
  count_where may_have_effect (attempts p) ≤ 1 + max_copies hedged.
Proof.
  assert ((λ s, (s.1, len (attempts s.2))) <$> hedged_run = Some (W_done (inl (42, 1%nat)), 2)) as H
    by (vm_compute; reflexivity).
  unfold hedged_run in *. destruct (balanced_run _ _ _ _ _ _ _) as [[w p]|] eqn:E; [|discriminate]. injection H as -> Hl.
  exists p. split; [reflexivity|]. split; [exact Hl|].
  apply (balanced_call_at_most_once accept_all agree hedged (mkBackoff 10 100 (f64_of_Z 2) (f64_of_Z 0)) 2 false hedged_inputs
           (W_done (inl (42, 1%nat))) p); [vm_compute; discriminate|exact E|reflexivity].
Defined.
